(* ===== verification/_CoqProject ===== *)
-Q . S2P
Prelude.v
TmuxControl.v
TmuxGateway.v
TmuxLifecycle.v
Clipboard.v
Terminal.v
Writer.v
OutputScheduler.v
TmuxLayout.v
TmuxInput.v
TmuxModel.v
TerminalInput.v
LineEditor.v
TerminalProtocol.v
SpeechSupervisor.v
ReviewParser.v
Stabilization.v
OutputBatch.v
TmuxPrefix.v
TmuxCommands.v
RowRanges.v
Screen.v
TerminalUpdate.v
StreamObserver.v
ReviewDocument.v
Table.v
Attributes.v
Keymap.v
ReviewCursor.v
ReaderCommands.v
SpeechWorker.v
FieldDiff.v
InputEcho.v
AutoRead.v
PaneSet.v
ConnectionView.v
ViewStack.v
Grid.v
SceneMedia.v
SceneCompose.v
SceneDamage.v
Commands.v
Commit.v
Journal.v
