(* ===== verification/Prelude.v ===== *)
(** Lector, a terminal screen reader: verification library.

    Lector runs a shell (or tmux in control mode) on a pseudo-terminal, keeps
    the screen of it, writes that screen to the physical terminal and reads its
    changes out.  This library models the parts of it that are pure logic over
    bytes, records and queues, translated from [src/src], and proves what makes
    each of them correct.  This file is its root: conventions, strings, machine
    integers, UTF-8, and the lemmas and tactics the other files share.

    * Parts and files

    Bytes of the pseudo-terminal go through the gateway router, which feeds the
    embedded tmux stream to the control parser; the events of one read are
    joined and applied; what the terminal engine then shows becomes renders in
    the output scheduler, which alone writes to the physical terminal.  Keys go
    the other way: probe replies are taken out, keys are decoded, bindings of
    tmux and commands of review mode are recognised, and what is left is sent to
    the shell or, as commands, to tmux.

    Bytes and tmux:
    - [TmuxControl] (tmux_control.rs): the streaming parser of [tmux -CC].
    - [TmuxGateway] (tmux_gateway.rs): one source split around control streams.
    - [TmuxLifecycle] (tmux_lifecycle.rs): the forest of nested connections.
    - [TmuxModel] (tmux_model.rs): sessions, windows, panes, options, bindings.
    - [TmuxLayout] (tmux_panes.rs, [TmuxLayout]): layouts and their borders.
    - [TmuxInput] (tmux_input.rs): [send-keys] commands, colour and mouse reports.
    - [TmuxPrefix] (tmux_prefix.rs): key names and classification of bindings.
    - [TmuxCommands] (app.rs, app/pty.rs): the command queue, the route of a
      command through nested connections, the replies expected, draining.
    - [OutputBatch] (app.rs, app/pty.rs): joining of pane output, the
      presentation batch.

    Terminal:
    - [Terminal] (vocabulary of terminal.rs), [Writer] (the contract of
      [std::io::Write]), [OutputScheduler] (output_scheduler.rs).
    - [TerminalProtocol] (terminal_protocol.rs; the overrides of main.rs):
      probing of the physical terminal, the session fence, reply routing.
    - [TerminalInput] (terminal_input.rs): keys and their encodings.
    - [RowRanges] (presentation.rs, lector-ghostty): sets of damaged rows.
    - [Screen] (terminal.rs, view.rs): snapshots of cells and their text;
      [Attributes] (attributes.rs): the names of colours.
    - [TerminalUpdate] (terminal.rs, lector-ghostty): what one update says of
      itself; [StreamObserver] (lector-ghostty): how the observer of the stream
      builds it from the callbacks of the parser; [Journal] (view.rs): how a view
      keeps it, within bounds, until a receipt shows the frame it belongs to.
    - [Grid], [SceneMedia], [SceneCompose], [SceneDamage] (presentation.rs):
      rectangles, placed images and their store, the composition of surfaces,
      overlays and the cursor into the rows to be shown, and the damage of them.

    Views:
    - [PaneSet] (tmux_panes.rs, [TmuxPaneSet]): the panes of one connection,
      their captures, output that comes early, portals, retired views.
    - [ConnectionView] (views/tmux_connection.rs): one connection as a view.
    - [ViewStack] (views/stack.rs): the terminal, the connections, the overlays.

    Reading and commands:
    - [Stabilization] (app.rs): when a change of the screen is read out.
    - [FieldDiff] (screen_reader/auto_read.rs): the comparison of changed lines;
      [InputEcho] (screen_reader.rs, screen_reader/tracking.rs): the echo of the
      user's own keys and deletions; [AutoRead] (screen_reader/auto_read.rs,
      tracking.rs): what is read of a change of the screen; [Commit]
      (app/pty.rs): all that is spoken of one change, in its order.
    - [SpeechWorker] (speech/worker.rs): the mailbox of the speech thread, which
      takes a request under the lock and calls the driver after it;
      [SpeechSupervisor] (speech/supervisor.rs): the speech process, its
      restarts, and the handle the event loop uses at the same time.
    - [LineEditor] (line_editor.rs), [Clipboard] (clipboard.rs): the prompt
      editor, the clipboard ring and OSC 52.
    - [ReviewParser], [ReviewDocument] (review): the command language and the
      document of review mode; [ReviewCursor] (view.rs, ext/mod.rs): the review
      cursor of a view; [Table] (table.rs, table/detection.rs): tables on the
      screen.
    - [Keymap] (keymap.rs, commands.rs): actions and the bindings of the three
      input modes; [ReaderCommands] (commands/review.rs, commands/table.rs):
      what the actions of the review cursor and of table mode do, with speech
      and hooks, which may fail and set options, a parameter ([World]);
      [Commands] (commands.rs, commands/system.rs, clipboard.rs, mouse.rs): the
      dispatch of all actions and the rest of them.

    * Conventions

    A method on [&mut self] is a function that returns the new state, with its
    result; events pushed on an argument are part of the result.  Errors are
    values of [result] or of an option.  Machine integers are [N] with the
    saturation, checks or wrap-around of the code written out.  A string is its
    UTF-8 bytes where bytes are counted or sent (tmux, output, speech queues),
    and the list of its characters where text is read or edited ([TerminalInput],
    [LineEditor], and everything above [Screen]); each file says which.  A
    [BTreeMap] is a [gmap] iterated in key order.  A panic, such as an index out
    of range, is a [None] where the code can reach one.  Where the code calls
    what is not its own (crates such as [terminput], [arboard], [regex] and
    [similar], the classes of Unicode, writers, process factories, clocks, hooks
    of the configuration, speech backends) the definitions take a parameter,
    whose laws, when a theorem needs some, are a class or a hypothesis with an
    instance or a witness.  The view of a pane, which holds a terminal engine, is
    the interface [PaneView] of [PaneSet].  Caches and diagnostics are left out.
    Threads are sequences of the operations that a lock makes atomic.

    * What the theorems show

    - Round trips: control records and command blocks of any content are read
      back by the parser; printed layouts parse; phrases of review mode mean what
      they spell; routed commands arrive; a Kitty text key reaches a legacy
      application; a tmux key name is read back as the bytes of its key.
    - Refinement and equivalence: the router implements a session protocol, and
      neither it nor its output depends on how the input is cut, nor does the
      report that a view presents of its output, as far as the journal holds it;
      joined output is the output; a batch is a
      fold per surface; draining is first in first out; the clipboard is a ring
      of the newest texts; word motions find the nearest boundary; the comparison
      of changed lines keeps a longest common subsequence.
    - Invariants: everything reachable from the initial state by the operations
      stays well-formed: parser and router buffers within their limits, the
      connection forest, the topology, the layout's partition of its window, the
      panes of a connection and what they hold, the stack of views, the line
      editor's cursor, the reader's cursors and tables, the scheduler's byte
      accounts.
    - Safety and error paths: transactions once begun are written whole and in
      order; a poisoned parser stays so until reset; rejected input changes
      nothing; no speech process is lost, whatever the event loop does meanwhile;
      commands of bindings are safe to send; keys reach only the pane that is
      shown; a view that may be on the screen stays addressable; another
      application on the screen is announced; of one change at most one text is
      read besides deletions, highlights and indentation, a confirmed deletion
      is read once; nothing is spoken that a stop made stale.
    - Composition: output of a pane that comes early is replayed by its capture
      through any events between; what is typed at a prompt is not read back,
      however the application divides its echo.
    - Termination, liveness and bounds: loops end, deadlines make progress, held
      input is released, settled output is committed in time, the newest
      announcement is spoken, queues stay within their limits.

    * Fuel

    Loops of the code that are not structural carry fuel, and theorems show
    that it is enough: the router's loop has three turns per byte
    (TmuxGateway), layouts recurse on the depth that is left and have more
    fuel than nodes (TmuxLayout), the scheduler's write loop is bounded by the
    bytes, flushes and interruptions there are ([drain_terminates]), the probe
    loop by its buffer (TerminalProtocol), routes by the 65 turns of the code,
    which [routing_never_fails] shows enough for every reachable hierarchy.

    * Not modelled

    The terminal engine and its binding (crates/lector-ghostty), the backends
    for speech (crates/lector-tts-backend), the Lua interpreter's bindings
    (src/lua, src/ext), processes, pseudo-terminals, signals and polling
    (pty.rs, host_command.rs, main.rs, platform), diagnostics, benchmarks and
    test programs are system or foreign calls with little logic of their own.
    Of presentation.rs the renderers are left out, which write a composed scene
    as escape sequences, and the dialogs of views.  The history of a view
    (view.rs), pane flow control and the replies of tmux (app/pty.rs), the
    prefix state machine (app/tmux_prefix.rs), the view of review mode and the
    symbol table of speech (speech/symbols.rs) are not modelled.  The theorems
    that are marked by a number are the main ones; others that carry a comment
    state further properties of the same parts. *)

From stdpp Require Export base list list_numbers numbers option strings gmap sets sorting.
From Stdlib Require Export ZArith NArith Lia ZifyN ZifyNat ZifyBool Ascii.
From coqutil Require Export Datatypes.RecordSetters.
Export TriangleBracketNotations.

#[global] Set Default Goal Selector "!".
#[global] Set Warnings "-clear-no-such-hyp".

Declare Scope lector_scope.
Delimit Scope lector_scope with lector.

(** Record updates, [r <| field := value |>], on primitive records. *)
#[global] Open Scope record_set.
#[global] Arguments constant {E} _ _ /.
#[global] Arguments apply_update {R E} !u /.

(** * Results of fallible operations *)

Inductive result (E A : Type) : Type :=
| Ok (a : A)
| Err (e : E).
Arguments Ok {E A} a.
Arguments Err {E A} e.

#[export] Instance result_ret E : MRet (result E) := λ A a, Ok a.
#[export] Instance result_bind E : MBind (result E) := λ A B f r,
  match r with Ok a => f a | Err e => Err e end.
#[export] Instance result_fmap E : FMap (result E) := λ A B f r,
  match r with Ok a => Ok (f a) | Err e => Err e end.
#[export] Instance result_eq_dec E A `{EqDecision E} `{EqDecision A} : EqDecision (result E A).
Proof. solve_decision. Defined.

(** [Option::ok_or] and [Result::is_ok_and]. *)
Definition ok_or {E A} (o : option A) (e : E) : result E A :=
  match o with Some a => Ok a | None => Err e end.
Definition is_ok_and {E A} (r : result E A) (f : A → bool) : bool :=
  match r with Ok a => f a | Err _ => false end.
Definition is_ok {E A} (r : result E A) : bool :=
  match r with Ok _ => true | Err _ => false end.

(** Rust's [iter.collect::<Result<Vec<_>, _>>()]. *)
Fixpoint collect {E A B} (f : A → result E B) (l : list A) : result E (list B) :=
  match l with
  | [] => Ok []
  | x :: l => y ← f x; ys ← collect f l; Ok (y :: ys)
  end.

(** * Fixed-width unsigned integers

    Unsigned machine integers are [N] with their maximum written out.
    [saturating_sub] of Rust is the truncated subtraction of [N]. *)

Local Open Scope N_scope.

Definition u8_max : N := 255.
Definition u16_max : N := 65535.
Definition u32_max : N := 4294967295.
Definition u64_max : N := 18446744073709551615.
Definition usize_max : N := u64_max.
Definition u128_max : N := 340282366920938463463374607431768211455.

Definition sat_add (m a b : N) : N := N.min m (a + b).
Definition sat_mul (m a b : N) : N := N.min m (a * b).
Definition checked_add (m a b : N) : option N := if a + b <=? m then Some (a + b) else None.
Definition wrapping_add (m a b : N) : N := (a + b) mod (m + 1).

Abbreviation len l := (N.of_nat (length l)).

(** * Bytes

    A byte is an [N]; [bs "..."] is Rust's byte-string literal. *)

Abbreviation byte := N (only parsing).
Abbreviation bytes := (list N) (only parsing).

Definition bs (s : string) : bytes := N_of_ascii <$> String.list_ascii_of_string s.

Definition byte_ok (b : byte) : Prop := b < 256.

Definition ESC : byte := 27.
Definition BEL : byte := 7.
Definition LF : byte := 10.
Definition CR : byte := 13.
Definition SP : byte := 32.
Definition TAB : byte := 9.

Definition is_digit (b : byte) : bool := (48 <=? b) && (b <=? 57).
Definition is_lower (b : byte) : bool := (97 <=? b) && (b <=? 122).
Definition is_upper (b : byte) : bool := (65 <=? b) && (b <=? 90).
Definition is_ascii_control (b : byte) : bool := (b <? 32) || (b =? 127).
(** [u8::is_ascii_whitespace]: space, tab, LF, form feed and CR. *)
Definition is_ascii_whitespace (b : byte) : bool :=
  (b =? 32) || (b =? 9) || (b =? 10) || (b =? 12) || (b =? 13).
Definition to_lower (b : byte) : byte := if is_upper b then b + 32 else b.

(** * Slices *)

Fixpoint strip_prefix (p l : bytes) : option bytes :=
  match p, l with
  | [], _ => Some l
  | x :: p, y :: l => if x =? y then strip_prefix p l else None
  | _ :: _, [] => None
  end.

Definition starts_with (p l : bytes) : bool := bool_decide (is_Some (strip_prefix p l)).

Definition strip_suffix (p l : bytes) : option bytes :=
  reverse <$> strip_prefix (reverse p) (reverse l).

Definition ends_with (p l : bytes) : bool := bool_decide (is_Some (strip_suffix p l)).

(** [iter().position(|b| b == c)]. *)
Fixpoint position (f : byte → bool) (l : bytes) : option nat :=
  match l with
  | [] => None
  | x :: l => if f x then Some 0%nat else S <$> position f l
  end.

(** [windows(p.len()).position(|w| w == p)] for a non-empty [p]. *)
Fixpoint find_sub (p l : bytes) : option nat :=
  if starts_with p l then Some 0%nat else
  match l with [] => None | _ :: l => S <$> find_sub p l end.

(** [slice::split]: [n] separators give [n + 1] fields. *)
Fixpoint split_on (f : byte → bool) (l : bytes) : list bytes :=
  match l with
  | [] => [[]]
  | x :: l =>
      if f x then [] :: split_on f l else
      match split_on f l with
      | [] => [[x]]
      | g :: gs => (x :: g) :: gs
      end
  end.

(** [slice::splitn]: at most [n] fields, the last one keeps its separators. *)
Fixpoint splitn (n : nat) (f : byte → bool) (l : bytes) : list bytes :=
  match n with
  | O => []
  | S O => [l]
  | S n' =>
      match position f l with
      | None => [l]
      | Some i => take i l :: splitn n' f (drop (S i) l)
      end
  end.

(** * Ordered maps

    A [BTreeMap] with unsigned keys is a [gmap] whose keys are visited in
    increasing order. *)

Definition btree_keys {A} (m : gmap N A) : list N := merge_sort N.le (elements (dom m)).

(** * Decimal numbers *)

Fixpoint digits_value (acc : N) (ds : bytes) : N :=
  match ds with
  | [] => acc
  | d :: ds => digits_value (10 * acc + (d - 48)) ds
  end.

(** [str::parse] for an unsigned type with maximum [m]: an optional plus sign,
    at least one digit, and no overflow. *)
Definition parse_digits (m : N) (ds : bytes) : option N :=
  if bool_decide (ds = []) || negb (forallb is_digit ds) then None else
  let v := digits_value 0 ds in if v <=? m then Some v else None.

Definition parse_uint (m : N) (s : bytes) : option N :=
  match s with
  | 43 :: ds => parse_digits m ds
  | _ => parse_digits m s
  end.

(** [from_str_radix(_, 16)] for an unsigned type with maximum [m]. *)
Definition hex_digit_value (c : byte) : option N :=
  if is_digit c then Some (c - 48)
  else if (97 <=? to_lower c) && (to_lower c <=? 102) then Some (to_lower c - 87)
  else None.
Fixpoint hex_digits_value (acc : N) (ds : bytes) : option N :=
  match ds with
  | [] => Some acc
  | d :: ds => match hex_digit_value d with Some v => hex_digits_value (16 * acc + v) ds | None => None end
  end.
Definition parse_hex_uint (m : N) (s : bytes) : option N :=
  let ds := match s with 43 :: ds => ds | _ => s end in
  if bool_decide (ds = []) then None else
  match hex_digits_value 0 ds with
  | Some v => if v <=? m then Some v else None
  | None => None
  end.

(** [format!("{}", n)] for an unsigned integer. *)
Fixpoint to_dec_aux (fuel : nat) (n : N) (acc : bytes) : bytes :=
  match fuel with
  | O => acc
  | S fuel =>
      let acc := (48 + n mod 10) :: acc in
      if n <? 10 then acc else to_dec_aux fuel (n / 10) acc
  end.
Definition to_dec (n : N) : bytes := to_dec_aux (S (N.to_nat (N.size n))) n [].

(** * UTF-8

    [std::str::from_utf8]: the well-formed sequences of the Unicode standard,
    table 3-7; the result is the list of scalar values. *)

Definition is_cont (b : byte) : bool := (128 <=? b) && (b <=? 191).
Definition in_range (lo hi b : N) : bool := (lo <=? b) && (b <=? hi).

Fixpoint utf8_decode (l : bytes) : option (list N) :=
  match l with
  | [] => Some []
  | b0 :: l0 =>
      if b0 <? 128 then (b0 ::.) <$> utf8_decode l0 else
      match l0 with
      | [] => None
      | b1 :: l1 =>
          if in_range 194 223 b0 && is_cont b1 then
            ((b0 - 192) * 64 + (b1 - 128) ::.) <$> utf8_decode l1
          else
          match l1 with
          | [] => None
          | b2 :: l2 =>
              if in_range 224 239 b0 && is_cont b2 &&
                 in_range (if b0 =? 224 then 160 else 128) (if b0 =? 237 then 159 else 191) b1
              then ((b0 - 224) * 4096 + (b1 - 128) * 64 + (b2 - 128) ::.) <$> utf8_decode l2
              else
              match l2 with
              | [] => None
              | b3 :: l3 =>
                  if in_range 240 244 b0 && is_cont b2 && is_cont b3 &&
                     in_range (if b0 =? 240 then 144 else 128) (if b0 =? 244 then 143 else 191) b1
                  then ((b0 - 240) * 262144 + (b1 - 128) * 4096 + (b2 - 128) * 64 + (b3 - 128) ::.)
                         <$> utf8_decode l3
                  else None
              end
          end
      end
  end.

Definition utf8_valid (l : bytes) : bool := bool_decide (is_Some (utf8_decode l)).

(** [char::encode_utf8]. *)
Definition utf8_encode (c : N) : bytes :=
  if c <? 128 then [c]
  else if c <? 2048 then [192 + c / 64; 128 + c mod 64]
  else if c <? 65536 then [224 + c / 4096; 128 + c / 64 mod 64; 128 + c mod 64]
  else [240 + c / 262144; 128 + c / 4096 mod 64; 128 + c / 64 mod 64; 128 + c mod 64].

(** [char::from_u32]: surrogates and values above U+10FFFF are not characters. *)
Definition char_from_u32 (v : N) : option N :=
  if (v <? 55296) || (57343 <? v) && (v <=? 1114111) then Some v else None.

(** [char::is_control]: the Unicode category Cc. *)
Definition is_control_char (c : N) : bool := (c <? 32) || in_range 127 159 c.

(** The Unicode property White_Space. *)
Definition is_whitespace_char (c : N) : bool :=
  in_range 9 13 c || (c =? 32) || (c =? 133) || (c =? 160) || (c =? 5760) || in_range 8192 8202 c ||
  (c =? 8232) || (c =? 8233) || (c =? 8239) || (c =? 8287) || (c =? 12288).
Fixpoint trim_start (l : list N) : list N :=
  match l with
  | c :: l' => if is_whitespace_char c then trim_start l' else l
  | [] => []
  end.
(** [str::trim] on the characters of a string. *)
Definition trim_chars (l : list N) : list N := reverse (trim_start (reverse (trim_start l))).
(** [str::trim] on UTF-8 bytes: it looks at characters, so the bytes are decoded first. *)
Definition str_chars (s : bytes) : list N := default [] (utf8_decode s).
Definition trim (s : bytes) : bytes := mjoin (utf8_encode <$> trim_chars (str_chars s)).
(** [str::split_once] at the first byte that satisfies [f]. *)
Definition split_once (f : byte → bool) (l : bytes) : option (bytes * bytes) :=
  i ← position f l; Some (take i l, drop (S i) l).

(** * Automation *)

(** Case analysis on a Boolean comparison together with its meaning. *)
Ltac case_cmp :=
  match goal with
  | |- context [N.eqb ?a ?b] => destruct (N.eqb_spec a b)
  | |- context [N.leb ?a ?b] => destruct (N.leb_spec a b)
  | |- context [N.ltb ?a ?b] => destruct (N.ltb_spec a b)
  | H : context [N.eqb ?a ?b] |- _ => destruct (N.eqb_spec a b)
  | H : context [N.leb ?a ?b] |- _ => destruct (N.leb_spec a b)
  | H : context [N.ltb ?a ?b] |- _ => destruct (N.ltb_spec a b)
  end.

(** Turns byte-string literals of the goal into explicit lists. *)
Ltac bs_compute :=
  repeat match goal with
  | |- context [bs ?s] => let v := eval vm_compute in (bs s) in change (bs s) with v
  end.

(** [Forall P l] for an explicit list, each element by [tac]. *)
Ltac forall_list tac := bs_compute; repeat (apply Forall_cons; split; [tac|]); apply Forall_nil; exact I.

Create HintDb lector discriminated.
Create Rewrite HintDb lector.
#[export] Hint Constants Opaque : lector.

Ltac simpl_result :=
  repeat first
    [ progress unfold mbind, mret, fmap, result_bind, result_ret, result_fmap in *
    | progress simpl in *
    | match goal with
      | H : Ok _ = Ok _ |- _ => inv H
      | H : Err _ = Err _ |- _ => inv H
      | H : Ok _ = Err _ |- _ => discriminate H
      | H : Err _ = Ok _ |- _ => discriminate H
      end ].

Lemma bind_Ok {E A B} (r : result E A) (f : A → result E B) b :
  (r ≫= f) = Ok b → ∃ a, r = Ok a ∧ f a = Ok b.
Proof. destruct r; simpl; naive_solver. Qed.

Lemma fmap_Ok {E A B} (f : A → B) (r : result E A) b :
  f <$> r = Ok b → ∃ a, r = Ok a ∧ b = f a.
Proof. destruct r; simpl; naive_solver. Qed.

Lemma ok_or_Ok {E A} (o : option A) (e : E) a : ok_or o e = Ok a → o = Some a.
Proof. destruct o; simpl; naive_solver. Qed.

(** Inverts the successful run of a sequence of fallible operations. *)
Ltac result_inv :=
  repeat match goal with
  | H : (_ ≫= _) = Ok _ |- _ => apply bind_Ok in H as (? & ? & ?)
  | H : _ <$> _ = Ok _ |- _ => apply fmap_Ok in H as (? & ? & ?)
  | H : ok_or _ _ = Ok _ |- _ => apply ok_or_Ok in H
  | H : Ok _ = Ok _ |- _ => inv H
  | H : Err _ = Ok _ |- _ => discriminate H
  | H : (let '(_, _) := ?p in _) = Ok _ |- _ => destruct p eqn:?
  | H : (if ?b then _ else _) = Ok _ |- _ => destruct b eqn:?
  end.

(** * Lemmas on slices *)

Lemma strip_prefix_Some p l r : strip_prefix p l = Some r ↔ l = p ++ r.
Proof.
  revert l; induction p as [|x p IH]; intros l; simpl.
  - naive_solver.
  - destruct l as [|y l]; [naive_solver|].
    case_cmp; [rewrite IH|]; naive_solver.
Qed.

Lemma strip_prefix_app p r : strip_prefix p (p ++ r) = Some r.
Proof. by apply strip_prefix_Some. Qed.
#[export] Hint Rewrite strip_prefix_app : lector.

Lemma strip_prefix_None p l : strip_prefix p l = None ↔ ¬ p `prefix_of` l.
Proof.
  rewrite eq_None_not_Some. split; intros H [r Hr]; apply H.
  - exists r. by apply strip_prefix_Some.
  - exists r. by apply strip_prefix_Some in Hr.
Qed.

Lemma strip_suffix_app p l : strip_suffix p (l ++ p) = Some l.
Proof. unfold strip_suffix. rewrite reverse_app, strip_prefix_app. simpl. by rewrite reverse_involutive. Qed.

Lemma starts_with_spec p l : starts_with p l = true ↔ p `prefix_of` l.
Proof.
  unfold starts_with. rewrite bool_decide_eq_true. split; intros [r Hr]; exists r;
    by apply strip_prefix_Some.
Qed.

Lemma starts_with_false p l : starts_with p l = false ↔ ¬ p `prefix_of` l.
Proof. rewrite <-starts_with_spec. destruct (starts_with p l); naive_solver. Qed.

Lemma position_Some f l i :
  position f l = Some i ↔
    ∃ x, l = take i l ++ x :: drop (S i) l ∧ f x = true ∧ Forall (λ y, f y = false) (take i l)
         ∧ (i < length l)%nat.
Proof.
  revert i; induction l as [|y l IH]; intros i; simpl.
  - split; [done|]. intros (x & H & _ & _ & Hi). lia.
  - destruct (f y) eqn:Hy.
    + split.
      * intros [= <-]. exists y. simpl. rewrite drop_0. split_and!; [done..|constructor|lia].
      * intros (x & Heq & Hx & Hall & _). destruct i; [done|]. simpl in *. apply Forall_inv in Hall. congruence.
    + rewrite fmap_Some. split.
      * intros (j & Hj & ->). apply IH in Hj as (x & Heq & Hx & Hall & Hlt).
        exists x. simpl. rewrite <-Heq. split_and!; [done..|by constructor|lia].
      * intros (x & Heq & Hx & Hall & Hlt). destruct i as [|i]; simpl in *.
        { inv Heq. congruence. }
        exists i. split; [|done]. apply IH. exists x. injection Heq as Heq. inv Hall.
        split_and!; [done..|lia].
Qed.

Lemma position_None f l : position f l = None ↔ Forall (λ y, f y = false) l.
Proof.
  induction l as [|y l IH]; simpl; [naive_solver constructor|].
  destruct (f y) eqn:Hy.
  - split; [done|]. intros H. inv H. congruence.
  - rewrite fmap_None, IH, Forall_cons. naive_solver.
Qed.

Lemma position_app_first f l1 x l2 :
  Forall (λ y, f y = false) l1 → f x = true → position f (l1 ++ x :: l2) = Some (length l1).
Proof.
  intros Hall Hx. induction Hall as [|y l1 Hy _ IH]; simpl; [by rewrite Hx|].
  by rewrite Hy, IH.
Qed.

Lemma position_lt f l i : position f l = Some i → (i < length l)%nat.
Proof. rewrite position_Some. naive_solver. Qed.

Lemma split_on_nonempty f l : split_on f l ≠ [].
Proof. induction l; simpl; [done|]. by repeat case_match. Qed.

Lemma split_on_none f l : Forall (λ y, f y = false) l → split_on f l = [l].
Proof.
  induction 1 as [|x l Hx _ IH]; simpl; [done|]. by rewrite Hx, IH.
Qed.

Lemma split_on_app f l1 x l2 :
  Forall (λ y, f y = false) l1 → f x = true → split_on f (l1 ++ x :: l2) = l1 :: split_on f l2.
Proof.
  intros Hall Hx. induction Hall as [|y l1 Hy _ IH]; simpl; [by rewrite Hx|].
  by rewrite Hy, IH.
Qed.

(** [slice::join] with a one-byte separator. *)
Fixpoint join (sep : byte) (l : list bytes) : bytes :=
  match l with
  | [] => []
  | [x] => x
  | x :: l => x ++ sep :: join sep l
  end.

Lemma split_on_join sep f l :
  l ≠ [] → f sep = true → Forall (Forall (λ b, f b = false)) l → split_on f (join sep l) = l.
Proof.
  intros Hne Hsep Hl. induction Hl as [|x l Hx Hl IH]; [done|]. destruct l as [|y l].
  - by apply split_on_none.
  - change (join sep (x :: y :: l)) with (x ++ sep :: join sep (y :: l)).
    rewrite split_on_app by done. by rewrite IH.
Qed.

(** * Lemmas on decimal numbers *)

Lemma digits_value_app acc l1 l2 :
  digits_value acc (l1 ++ l2) = digits_value (digits_value acc l1) l2.
Proof. revert acc; induction l1; simpl; auto. Qed.

Lemma to_dec_aux_app fuel n acc : to_dec_aux fuel n acc = to_dec_aux fuel n [] ++ acc.
Proof.
  revert n acc; induction fuel as [|fuel IH]; intros n acc; simpl; [done|].
  destruct (n <? 10); [done|]. by rewrite IH, (IH _ [_]), <-app_assoc.
Qed.

Lemma is_digit_mod n : is_digit (48 + n mod 10) = true.
Proof.
  unfold is_digit. pose proof (N.mod_lt n 10 ltac:(lia)).
  lia.
Qed.

Lemma to_dec_aux_digits fuel n : Forall (λ d, is_digit d = true) (to_dec_aux fuel n []).
Proof.
  revert n; induction fuel as [|fuel IH]; intros n; simpl; [constructor|].
  destruct (n <? 10).
  - constructor; [apply is_digit_mod|constructor].
  - rewrite to_dec_aux_app. apply Forall_app. split; [done|].
    constructor; [apply is_digit_mod|constructor].
Qed.

Lemma to_dec_aux_value fuel n :
  n < 10 ^ N.of_nat fuel → (0 < fuel)%nat → digits_value 0 (to_dec_aux fuel n []) = n.
Proof.
  revert n; induction fuel as [|fuel IH]; intros n Hn Hf; [lia|]. simpl.
  destruct (N.ltb_spec n 10) as [H10|H10].
  - cbn [digits_value]. rewrite N.mod_small by lia. lia.
  - rewrite Nat2N.inj_succ, N.pow_succ_r' in Hn.
    assert (n / 10 < 10 ^ N.of_nat fuel) by (apply N.Div0.div_lt_upper_bound; lia).
    rewrite to_dec_aux_app, digits_value_app, IH; [|done|].
    + cbn [digits_value]. pose proof (N.div_mod n 10 ltac:(lia)). lia.
    + destruct fuel; [|lia]. simpl in *. pose proof (N.Div0.div_le_mono 10 n 10). lia.
Qed.

Lemma to_dec_aux_nonempty fuel n : to_dec_aux (S fuel) n [] ≠ [].
Proof.
  simpl. destruct (n <? 10); [done|]. rewrite to_dec_aux_app. by destruct (to_dec_aux _ _ _).
Qed.

Lemma to_dec_fuel n : n < 10 ^ N.of_nat (S (N.to_nat (N.size n))).
Proof.
  rewrite Nat2N.inj_succ, N2Nat.id, N.pow_succ_r'.
  pose proof (N.size_gt n). pose proof (N.pow_le_mono_l 2 10 (N.size n) ltac:(lia)). lia.
Qed.

Lemma to_dec_value n : digits_value 0 (to_dec n) = n.
Proof. apply to_dec_aux_value; [apply to_dec_fuel|lia]. Qed.

Lemma to_dec_digits n : Forall (λ d, is_digit d = true) (to_dec n).
Proof. apply to_dec_aux_digits. Qed.

Lemma to_dec_nonempty n : to_dec n ≠ [].
Proof. apply to_dec_aux_nonempty. Qed.

Lemma forallb_Forall {A} (f : A → bool) l : forallb f l = true ↔ Forall (λ x, f x = true) l.
Proof. rewrite forallb_forall, Forall_forall. by setoid_rewrite list_elem_of_In. Qed.

Lemma parse_digits_to_dec m n : n ≤ m → parse_digits m (to_dec n) = Some n.
Proof.
  intros Hn. unfold parse_digits.
  rewrite bool_decide_eq_false_2 by apply to_dec_nonempty.
  rewrite (proj2 (forallb_Forall _ _) (to_dec_digits n)), to_dec_value. simpl.
  by case_cmp; [|lia].
Qed.

Lemma to_dec_aux_length fuel k n :
  n < 10 ^ N.of_nat k → (0 < k)%nat → (length (to_dec_aux fuel n []) ≤ k)%nat.
Proof.
  revert k n; induction fuel as [|fuel IH]; intros k n Hn Hk; simpl; [lia|].
  destruct (N.ltb_spec n 10); [simpl; lia|].
  rewrite to_dec_aux_app, length_app. simpl. destruct k as [|[|k]]; [lia| simpl in *; lia |].
  rewrite Nat2N.inj_succ, N.pow_succ_r' in Hn.
  assert (n / 10 < 10 ^ N.of_nat (S k)) by (apply N.Div0.div_lt_upper_bound; lia).
  pose proof (IH (S k) (n / 10)). lia.
Qed.

(** A 64-bit number prints in at most twenty digits. *)
Lemma to_dec_length_u64 n : n ≤ u64_max → (length (to_dec n) ≤ 20)%nat.
Proof. intros H. apply to_dec_aux_length; [|lia]. unfold u64_max in H. simpl. lia. Qed.

Lemma is_digit_not_plus n d ds : to_dec n = d :: ds → d ≠ 43.
Proof. intros H. pose proof (to_dec_digits n) as Hd. rewrite H in Hd. inv Hd. unfold is_digit in *. lia. Qed.

Lemma parse_uint_to_dec m n : n ≤ m → parse_uint m (to_dec n) = Some n.
Proof.
  intros Hn. unfold parse_uint. destruct (to_dec n) as [|d ds] eqn:H.
  - by apply to_dec_nonempty in H.
  - apply is_digit_not_plus in H as Hd. rewrite <-H.
    destruct d as [|p]; [by apply parse_digits_to_dec|].
    do 6 (destruct p as [p|p|]; try by apply parse_digits_to_dec). done.
Qed.

Lemma drop_S_app {A} (l1 : list A) x l2 : drop (S (length l1)) (l1 ++ x :: l2) = l2.
Proof. induction l1; simpl; [by rewrite drop_0|done]. Qed.

(** * Lemmas on ordered maps *)

#[export] Instance N_le_total : Total N.le.
Proof. intros x y. lia. Qed.
#[export] Instance N_le_transitive : Transitive N.le.
Proof. intros x y z. lia. Qed.

Lemma elem_of_btree_keys {A} (m : gmap N A) k : k ∈ btree_keys m ↔ is_Some (m !! k).
Proof. unfold btree_keys. by rewrite (merge_sort_Permutation N.le), elem_of_elements, elem_of_dom. Qed.

Lemma NoDup_btree_keys {A} (m : gmap N A) : NoDup (btree_keys m).
Proof. unfold btree_keys. rewrite (merge_sort_Permutation N.le). apply NoDup_elements. Qed.

Lemma btree_keys_sorted {A} (m : gmap N A) : StronglySorted N.le (btree_keys m).
Proof. apply (StronglySorted_merge_sort N.le). Qed.

Lemma existsb_false {A} (f : A → bool) l : existsb f l = false ↔ Forall (λ x, f x = false) l.
Proof.
  induction l as [|x l IH]; cbn; [by split|]. rewrite orb_false_iff, IH. split.
  - intros []. by constructor.
  - intros H. by inversion H.
Qed.

Lemma join_cons {A} (x : list A) l : mjoin (x :: l) = x ++ mjoin l.
Proof. done. Qed.

Lemma mapM_app {A B} (f : A → option B) l1 l2 :
  mapM f (l1 ++ l2) = (r1 ← mapM f l1; r2 ← mapM f l2; Some (r1 ++ r2)).
Proof.
  induction l1 as [|x l1 IH]; cbn.
  - by destruct (mapM f l2).
  - rewrite IH. destruct (f x), (mapM f l1), (mapM f l2); done.
Qed.

Lemma elem_of_Filter {A} (f : A → bool) l x : x ∈ List.filter f l ↔ x ∈ l ∧ f x = true.
Proof. by rewrite !list_elem_of_In, filter_In. Qed.

Lemma NoDup_Filter {A} (f : A → bool) l : NoDup l → NoDup (List.filter f l).
Proof. intros H. apply NoDup_ListNoDup. apply List.NoDup_filter. by apply NoDup_ListNoDup. Qed.

(** * Chunks *)

(** [slice::chunks]: consecutive pieces of [n] elements, the last one shorter. *)
Fixpoint chunks_aux {A} (fuel n : nat) (l : list A) : list (list A) :=
  match fuel, l with
  | S fuel, _ :: _ => take n l :: chunks_aux fuel n (drop n l)
  | _, _ => []
  end.
Definition chunks {A} (n : nat) (l : list A) : list (list A) := chunks_aux (length l) n l.

Lemma chunks_aux_fuel {A} n f1 f2 (l : list A) :
  (0 < n)%nat → (length l ≤ f1)%nat → (length l ≤ f2)%nat → chunks_aux f1 n l = chunks_aux f2 n l.
Proof.
  intros Hn. revert f2 l. induction f1 as [|f1 IH]; intros f2 [|x l] H1 H2; destruct f2 as [|f2];
    simpl in *; try done; try lia.
  f_equal. apply IH; rewrite length_drop; simpl; lia.
Qed.

Lemma chunks_nil {A} n : chunks n (@nil A) = [].
Proof. done. Qed.

Lemma chunks_cons {A} n (l : list A) :
  (0 < n)%nat → l ≠ [] → chunks n l = take n l :: chunks n (drop n l).
Proof.
  intros Hn Hl. unfold chunks at 1. destruct l as [|x l]; [done|]. simpl. f_equal.
  apply chunks_aux_fuel; [done| |done]. rewrite length_drop. simpl. lia.
Qed.

Lemma chunks_ind {A} n (P : list A → list (list A) → Prop) :
  (0 < n)%nat → P [] [] →
  (∀ l, l ≠ [] → P (drop n l) (chunks n (drop n l)) → P l (take n l :: chunks n (drop n l))) →
  ∀ l, P l (chunks n l).
Proof.
  intros Hn H0 HS l. remember (length l) as k eqn:Hk. revert l Hk.
  induction k as [k IH] using (well_founded_induction Nat.lt_wf_0); intros l ->.
  destruct (decide (l = [])) as [->|Hl]; [by rewrite chunks_nil|].
  rewrite chunks_cons by done. apply HS; [done|]. eapply IH; [|done].
  rewrite length_drop. destruct l; [done|]. simpl. lia.
Qed.

Lemma chunks_concat {A} n (l : list A) : (0 < n)%nat → mjoin (chunks n l) = l.
Proof.
  intros Hn. apply (chunks_ind n (λ l cs, mjoin cs = l)); [done..|].
  intros k _ IH. simpl. by rewrite IH, take_drop.
Qed.

Lemma chunks_lengths {A} n (l : list A) :
  (0 < n)%nat → Forall (λ c, 0 < length c ≤ n)%nat (chunks n l).
Proof.
  intros Hn. apply (chunks_ind n (λ l cs, Forall (λ c, 0 < length c ≤ n)%nat cs)); [done|constructor|].
  intros k Hk IH. constructor; [|done]. rewrite length_take. destruct k; [done|]. simpl. lia.
Qed.

(** * Lemmas on UTF-8 *)

Lemma utf8_decode_encode c rest :
  char_from_u32 c = Some c → utf8_decode (utf8_encode c ++ rest) = (c ::.) <$> utf8_decode rest.
Proof.
  intros Hc.
  assert (c < 55296 ∨ 57343 < c ≤ 1114111) as Hr
    by (unfold char_from_u32 in Hc; destruct (_ || _) eqn:E in Hc; [lia|done]).
  clear Hc. unfold utf8_encode.
  destruct (N.ltb_spec c 128) as [H1|H1]; [|destruct (N.ltb_spec c 2048) as [H2|H2];
    [|destruct (N.ltb_spec c 65536) as [H3|H3]]]; cbn [app utf8_decode].
  - by rewrite (proj2 (N.ltb_lt c 128) H1).
  - assert ((192 + c / 64 <? 128) = false) as -> by lia.
    assert (in_range 194 223 (192 + c / 64) && is_cont (128 + c mod 64) = true) as ->
      by (unfold in_range, is_cont; lia).
    by replace ((192 + c / 64 - 192) * 64 + (128 + c mod 64 - 128)) with c by lia.
  - assert ((224 + c / 4096 <? 128) = false) as -> by lia.
    assert (in_range 194 223 (224 + c / 4096) && is_cont (128 + c / 64 mod 64) = false) as ->
      by (unfold in_range, is_cont; lia).
    assert (in_range 224 239 (224 + c / 4096) && is_cont (128 + c mod 64) &&
      in_range (if 224 + c / 4096 =? 224 then 160 else 128)
        (if 224 + c / 4096 =? 237 then 159 else 191) (128 + c / 64 mod 64) = true) as ->.
    { unfold in_range, is_cont. destruct (N.eqb_spec (224 + c / 4096) 224), (N.eqb_spec (224 + c / 4096) 237); lia. }
    by replace ((224 + c / 4096 - 224) * 4096 + (128 + c / 64 mod 64 - 128) * 64 + (128 + c mod 64 - 128))
      with c by lia.
  - assert ((240 + c / 262144 <? 128) = false) as -> by lia.
    assert (in_range 194 223 (240 + c / 262144) && is_cont (128 + c / 4096 mod 64) = false) as ->
      by (unfold in_range, is_cont; lia).
    assert (in_range 224 239 (240 + c / 262144) && is_cont (128 + c / 64 mod 64) &&
      in_range (if 240 + c / 262144 =? 224 then 160 else 128)
        (if 240 + c / 262144 =? 237 then 159 else 191) (128 + c / 4096 mod 64) = false) as ->
      by (unfold in_range, is_cont; lia).
    assert (in_range 240 244 (240 + c / 262144) && is_cont (128 + c / 64 mod 64) && is_cont (128 + c mod 64) &&
      in_range (if 240 + c / 262144 =? 240 then 144 else 128)
        (if 240 + c / 262144 =? 244 then 143 else 191) (128 + c / 4096 mod 64) = true) as ->.
    { unfold in_range, is_cont. destruct (N.eqb_spec (240 + c / 262144) 240), (N.eqb_spec (240 + c / 262144) 244); lia. }
    by replace ((240 + c / 262144 - 240) * 262144 + (128 + c / 4096 mod 64 - 128) * 4096 +
        (128 + c / 64 mod 64 - 128) * 64 + (128 + c mod 64 - 128)) with c by lia.
Qed.

Lemma utf8_decode_ascii l : Forall (λ b, b < 128) l → utf8_decode l = Some l.
Proof.
  induction 1 as [|b l Hb _ IH]; [done|]. cbn [utf8_decode]. by rewrite (proj2 (N.ltb_lt _ _) Hb), IH.
Qed.
