(* ===== verification/TmuxControl.v ===== *)
(** The streaming parser of the tmux control-mode protocol
    ([src/src/tmux_control.rs]).

    [TmuxControlParser] is the Rust struct, [push_byte], [process_line] and
    [finish_command] are its private methods, [parser_push], [parser_finish]
    and [parser_reset] the public ones.  A method on [&mut self] returns the
    new parser with its result; the events it pushes on the [events] argument
    are the [Ok] value. *)

From S2P Require Import Prelude.
Local Open Scope N_scope.

(** * Data *)

Definition CONTROL_START : bytes := ESC :: bs "P1000p".

Record ParserLimits := {
  max_line_bytes : N;
  max_command_output_bytes : N;
  max_command_output_lines : N;
  max_notification_bytes : N
}.

Definition default_limits : ParserLimits := {|
  max_line_bytes := 64 * 1024;
  max_command_output_bytes := 4 * 1024 * 1024;
  max_command_output_lines := 65536;
  max_notification_bytes := 64 * 1024
|}.

Inductive CommandStatus := Success | Error.
#[export] Instance CommandStatus_eq_dec : EqDecision CommandStatus.
Proof. solve_decision. Defined.

Inductive ControlEvent :=
| Started
| Command (timestamp number flags : N) (status : CommandStatus) (output : list bytes)
| Output (pane_id : N) (payload : bytes)
| ExtendedOutput (pane_id age_ms : N) (future_fields : list bytes) (payload : bytes)
| Pause (pane_id : N)
| Continue (pane_id : N)
| Exit (reason : option bytes)
| Notification (name arguments : bytes)
| Ended.
#[export] Instance ControlEvent_eq_dec : EqDecision ControlEvent.
Proof. solve_decision. Defined.

Inductive UnterminatedState :=
| UStartMarker | URecord | UCommand | UControlStream | UStringTerminator.
#[export] Instance UnterminatedState_eq_dec : EqDecision UnterminatedState.
Proof. solve_decision. Defined.

Inductive ControlParseError :=
| InvalidStartMarker (offset : nat)
| InvalidStringTerminator
| TrailingData
| ParserPoisoned
| MalformedRecord
| InvalidNumber (field : string)
| UnexpectedCommandTerminator
| InvalidPaneId
| InvalidOctalEscape
| LineTooLong (limit : N)
| CommandOutputTooLong (limit : N)
| TooManyCommandOutputLines (limit : N)
| NotificationTooLong (limit : N)
| Unterminated (state : UnterminatedState).
#[export] Instance ControlParseError_eq_dec : EqDecision ControlParseError.
Proof. solve_decision. Defined.

Definition is_malformed (e : ControlParseError) : bool :=
  match e with
  | LineTooLong _ | CommandOutputTooLong _ | TooManyCommandOutputLines _
  | NotificationTooLong _ | Unterminated _ | ParserPoisoned => false
  | _ => true
  end.

Definition is_unterminated (e : ControlParseError) : bool :=
  match e with Unterminated _ => true | _ => false end.

Record CommandTag := { tag_timestamp : N; tag_number : N; tag_flags : N }.
#[export] Instance CommandTag_eq_dec : EqDecision CommandTag.
Proof. solve_decision. Defined.

Record PendingCommand := {
  tag : CommandTag;
  output : list bytes;
  output_bytes : N
}.

Inductive ParseState :=
| PStart (matched : nat)
| PRecords
| PPossibleStringTerminator
| PEnded
| PFailed.
#[export] Instance ParseState_eq_dec : EqDecision ParseState.
Proof. solve_decision. Defined.

Record TmuxControlParser := {
  limits : ParserLimits;
  state : ParseState;
  line : bytes;
  pending_command : option PendingCommand
}.

Definition with_limits (l : ParserLimits) : TmuxControlParser :=
  {| limits := l; state := PStart 0; line := []; pending_command := None |}.
Definition parser_new : TmuxControlParser := with_limits default_limits.

Definition set_state (s : ParseState) (p : TmuxControlParser) : TmuxControlParser :=
  {| limits := p.(limits); state := s; line := p.(line); pending_command := p.(pending_command) |}.
Definition set_line (l : bytes) (p : TmuxControlParser) : TmuxControlParser :=
  {| limits := p.(limits); state := p.(state); line := l; pending_command := p.(pending_command) |}.
Definition set_pending (c : option PendingCommand) (p : TmuxControlParser) : TmuxControlParser :=
  {| limits := p.(limits); state := p.(state); line := p.(line); pending_command := c |}.

Definition parser_reset (p : TmuxControlParser) : TmuxControlParser :=
  set_pending None (set_line [] (set_state (PStart 0) p)).

(** The assignments [push] and [finish] make before they return an error. *)
Definition poison (p : TmuxControlParser) : TmuxControlParser :=
  set_pending None (set_line [] (set_state PFailed p)).

(** * Record parsers *)

Abbreviation parsed := (result ControlParseError).

Definition parse_u64 (b : option bytes) (field : string) : parsed N :=
  b ← ok_or b MalformedRecord;
  if bool_decide (b = []) || negb (forallb is_digit b) then Err (InvalidNumber field)
  else ok_or (parse_uint u64_max b) (InvalidNumber field).

Definition parse_command_tag (b : bytes) : parsed CommandTag :=
  let fields := split_on (N.eqb SP) b in
  timestamp ← parse_u64 (fields !! 0%nat) "command timestamp";
  number ← parse_u64 (fields !! 1%nat) "command number";
  flags ← parse_u64 (fields !! 2%nat) "command flags";
  if bool_decide (is_Some (fields !! 3%nat)) then Err MalformedRecord
  else Ok {| tag_timestamp := timestamp; tag_number := number; tag_flags := flags |}.

Definition parse_pane_id (b : bytes) : parsed N :=
  digits ← ok_or (strip_prefix (bs "%") b) InvalidPaneId;
  if bool_decide (digits = []) || negb (forallb is_digit digits) then Err InvalidPaneId
  else ok_or (parse_uint u64_max digits) InvalidPaneId.

Definition parse_single_pane (b : bytes) : parsed N :=
  if existsb (N.eqb SP) b then Err MalformedRecord else parse_pane_id b.

Definition split_once_space (b : bytes) : parsed (bytes * bytes) :=
  index ← ok_or (position (N.eqb SP) b) MalformedRecord;
  Ok (take index b, drop (S index) b).

Definition is_octal (b : byte) : bool := (48 <=? b) && (b <=? 55).

(** [decode_octal]: the loop over [index], as recursion on the rest of the
    slice. *)
Fixpoint decode_octal (b : bytes) : parsed bytes :=
  match b with
  | [] => Ok []
  | 92 :: d0 :: d1 :: d2 :: rest =>
      if is_octal d0 && is_octal d1 && is_octal d2 then
        let value := (d0 - 48) * 64 + (d1 - 48) * 8 + (d2 - 48) in
        if value <=? u8_max then (value ::.) <$> decode_octal rest else Err InvalidOctalEscape
      else Err InvalidOctalEscape
  | 92 :: _ => Err InvalidOctalEscape
  | x :: rest => (x ::.) <$> decode_octal rest
  end.

Definition parse_extended_output (b : bytes) : parsed ControlEvent :=
  separator ← ok_or (find_sub (bs " : ") b) MalformedRecord;
  let header := take separator b in
  let value := drop (separator + 3) b in
  let fields := split_on (N.eqb SP) header in
  pane ← ok_or (fields !! 0%nat) MalformedRecord;
  let age := fields !! 1%nat in
  future_fields ← collect (λ f, if bool_decide (f = []) then Err MalformedRecord else Ok f)
                    (drop 2 fields);
  pane_id ← parse_pane_id pane;
  age_ms ← parse_u64 age "extended-output age";
  payload ← decode_octal value;
  Ok (ExtendedOutput pane_id age_ms future_fields payload).

(** * The parser's methods *)

Definition finish_command (pending : PendingCommand) (status : CommandStatus)
    (p : TmuxControlParser) : TmuxControlParser * parsed (list ControlEvent) :=
  (set_pending None p,
   Ok [Command pending.(tag).(tag_timestamp) pending.(tag).(tag_number)
         pending.(tag).(tag_flags) status pending.(output)]).

(** [line.strip_prefix(word)] holds and the rest parses to [tag]. *)
Definition terminates (word : string) (t : CommandTag) (l : bytes) : bool :=
  match strip_prefix (bs word) l with
  | Some rest => is_ok_and (parse_command_tag rest) (λ t', bool_decide (t' = t))
  | None => false
  end.

Definition bare_keywords : list bytes :=
  [bs "%begin"; bs "%end"; bs "%error"; bs "%output"; bs "%extended-output"; bs "%pause";
   bs "%continue"].

Definition name_char (b : byte) : bool := is_lower b || is_digit b || (b =? 45).

(** The notification part of [process_line]: what a line outside a command
    block denotes once it is known not to open or close one. *)
Definition parse_notification (l : bytes) : parsed (list ControlEvent) :=
  match strip_prefix (bs "%output ") l with
  | Some rest =>
      '(pane, value) ← split_once_space rest;
      pane_id ← parse_pane_id pane;
      payload ← decode_octal value;
      Ok [Output pane_id payload]
  | None =>
  match strip_prefix (bs "%extended-output ") l with
  | Some rest => e ← parse_extended_output rest; Ok [e]
  | None =>
  match strip_prefix (bs "%pause ") l with
  | Some rest => pane_id ← parse_single_pane rest; Ok [Pause pane_id]
  | None =>
  match strip_prefix (bs "%continue ") l with
  | Some rest => pane_id ← parse_single_pane rest; Ok [Continue pane_id]
  | None =>
  if bool_decide (l = bs "%exit") then Ok [Exit None] else
  match strip_prefix (bs "%exit ") l with
  | Some reason => Ok [Exit (if bool_decide (reason = []) then None else Some reason)]
  | None =>
      let body := drop 1 l in
      let '(name, arguments) :=
        match position (N.eqb SP) body with
        | Some index => (take index body, drop (S index) body)
        | None => (body, [])
        end in
      if bool_decide (name = []) || negb (forallb name_char name) then Err MalformedRecord
      else Ok [Notification name arguments]
  end end end end end.

Definition process_line (l : bytes) (p : TmuxControlParser)
    : TmuxControlParser * parsed (list ControlEvent) :=
  match p.(pending_command) with
  | Some pending =>
      if terminates "%end " pending.(tag) l then finish_command pending Success p
      else if terminates "%error " pending.(tag) l then finish_command pending Error p
      else if len pending.(output) =? p.(limits).(max_command_output_lines) then
        (p, Err (TooManyCommandOutputLines p.(limits).(max_command_output_lines)))
      else
        match checked_add usize_max pending.(output_bytes) (len l) with
        | None => (p, Err (CommandOutputTooLong p.(limits).(max_command_output_bytes)))
        | Some n =>
            if p.(limits).(max_command_output_bytes) <? n then
              (p, Err (CommandOutputTooLong p.(limits).(max_command_output_bytes)))
            else
              (set_pending (Some {| tag := pending.(tag);
                                    output := pending.(output) ++ [l];
                                    output_bytes := n |}) p, Ok [])
        end
  | None =>
      match strip_prefix (bs "%begin ") l with
      | Some rest =>
          match parse_command_tag rest with
          | Ok t => (set_pending (Some {| tag := t; output := []; output_bytes := 0 |}) p, Ok [])
          | Err e => (p, Err e)
          end
      | None =>
          if starts_with (bs "%end ") l || starts_with (bs "%error ") l then
            (p, Err UnexpectedCommandTerminator)
          else if bool_decide (l ∈ bare_keywords) then (p, Err MalformedRecord)
          else if negb (starts_with (bs "%") l) then (p, Err MalformedRecord)
          else if p.(limits).(max_notification_bytes) <? len l then
            (p, Err (NotificationTooLong p.(limits).(max_notification_bytes)))
          else (p, parse_notification l)
      end
  end.

(** [while line.last() == Some(&b'\r') { line.pop(); }], on the reversed line. *)
Fixpoint drop_crs (l : bytes) : bytes :=
  match l with
  | x :: l' => if x =? CR then drop_crs l' else l
  | [] => []
  end.
Definition trim_crs (l : bytes) : bytes := reverse (drop_crs (reverse l)).

Definition push_byte (b : byte) (p : TmuxControlParser)
    : TmuxControlParser * parsed (list ControlEvent) :=
  match p.(state) with
  | PStart matched =>
      if negb (b =? default 0 (CONTROL_START !! matched)) then (p, Err (InvalidStartMarker matched))
      else if bool_decide (S matched = length CONTROL_START) then (set_state PRecords p, Ok [Started])
      else (set_state (PStart (S matched)) p, Ok [])
  | PRecords =>
      if bool_decide (p.(line) = []) && (b =? ESC) && bool_decide (p.(pending_command) = None) then
        (set_state PPossibleStringTerminator p, Ok [])
      else if b =? LF then process_line (trim_crs p.(line)) (set_line [] p)
      else if len p.(line) =? p.(limits).(max_line_bytes) then
        (p, Err (LineTooLong p.(limits).(max_line_bytes)))
      else (set_line (p.(line) ++ [b]) p, Ok [])
  | PPossibleStringTerminator =>
      if negb (b =? 92) then (p, Err InvalidStringTerminator)
      else (set_state PEnded p, Ok [Ended])
  | PEnded => (p, Err TrailingData)
  | PFailed => (p, Err ParserPoisoned)
  end.

Fixpoint push_loop (input : bytes) (events : list ControlEvent) (p : TmuxControlParser)
    : TmuxControlParser * parsed (list ControlEvent) :=
  match input with
  | [] => (p, Ok events)
  | b :: input =>
      match push_byte b p with
      | (p', Ok new) => push_loop input (events ++ new) p'
      | (p', Err e) => (poison p', Err e)
      end
  end.

Definition parser_push (input : bytes) (p : TmuxControlParser)
    : TmuxControlParser * parsed (list ControlEvent) :=
  if bool_decide (p.(state) = PFailed) then (p, Err ParserPoisoned)
  else push_loop input [] p.

Definition parser_finish (p : TmuxControlParser) : TmuxControlParser * parsed (list ControlEvent) :=
  match p.(state) with
  | PEnded => (p, Ok [])
  | PFailed => (poison p, Err ParserPoisoned)
  | PStart _ => (poison p, Err (Unterminated UStartMarker))
  | PPossibleStringTerminator => (poison p, Err (Unterminated UStringTerminator))
  | PRecords =>
      if negb (bool_decide (p.(line) = [])) then (poison p, Err (Unterminated URecord))
      else if bool_decide (is_Some p.(pending_command)) then (poison p, Err (Unterminated UCommand))
      else (poison p, Err (Unterminated UControlStream))
  end.

(** * Reachable parsers *)

(** What the buffers of a parser hold while it is used: the line under
    construction and the open command block stay within the limits, the byte
    counter is the size of the collected output (so [checked_add] never
    overflows before a limit is reached), and the index into the start marker
    is in range. *)
Record parser_wf (p : TmuxControlParser) : Prop := {
  wf_line : len p.(line) ≤ p.(limits).(max_line_bytes);
  wf_start : ∀ m, p.(state) = PStart m →
    (m < length CONTROL_START)%nat ∧ p.(line) = [] ∧ p.(pending_command) = None;
  wf_closed : p.(state) = PPossibleStringTerminator ∨ p.(state) = PEnded →
    p.(line) = [] ∧ p.(pending_command) = None;
  wf_pending : ∀ c, p.(pending_command) = Some c →
    len c.(output) ≤ p.(limits).(max_command_output_lines) ∧
    c.(output_bytes) = len (concat c.(output)) ∧
    c.(output_bytes) ≤ p.(limits).(max_command_output_bytes)
}.

Inductive parser_op := OpPush (input : bytes) | OpFinish | OpReset.

Definition run_op (p : TmuxControlParser) (op : parser_op) : TmuxControlParser :=
  match op with
  | OpPush input => (parser_push input p).1
  | OpFinish => (parser_finish p).1
  | OpReset => parser_reset p
  end.

Lemma with_limits_wf l : parser_wf (with_limits l).
Proof. split; simpl; [lia|..]; naive_solver lia. Qed.

Lemma poison_wf p : parser_wf (poison p).
Proof. split; simpl; [lia|..]; naive_solver. Qed.

Lemma parser_reset_wf p : parser_wf (parser_reset p).
Proof. split; simpl; [lia|..]; naive_solver lia. Qed.

Lemma process_line_state l p : (process_line l p).1.(state) = p.(state).
Proof. unfold process_line, finish_command. by repeat case_match. Qed.

Lemma process_line_line l p : (process_line l p).1.(line) = p.(line).
Proof. unfold process_line, finish_command. by repeat case_match. Qed.

Lemma process_line_limits l p : (process_line l p).1.(limits) = p.(limits).
Proof. unfold process_line, finish_command. by repeat case_match. Qed.

Lemma process_line_pending l p c :
  parser_wf p → (process_line l p).1.(pending_command) = Some c →
  len c.(output) ≤ p.(limits).(max_command_output_lines) ∧
  c.(output_bytes) = len (concat c.(output)) ∧
  c.(output_bytes) ≤ p.(limits).(max_command_output_bytes).
Proof.
  intros Hwf. unfold process_line, finish_command, checked_add.
  destruct (p.(pending_command)) as [c0|] eqn:Hc0.
  - destruct (wf_pending p Hwf c0 Hc0) as (H1 & H2 & H3).
    repeat (case_match; simplify_eq/=); try congruence; try (intros; simplify_eq; by split_and!).
    intros [= <-]. simpl. rewrite concat_app, !length_app. simpl. rewrite length_app. simpl.
    split_and!; lia.
  - repeat (case_match; simplify_eq/=); try congruence.
    intros [= <-]. simpl. split_and!; lia.
Qed.

Lemma push_byte_wf b p p' evs :
  parser_wf p → push_byte b p = (p', Ok evs) → parser_wf p'.
Proof.
  intros Hwf. unfold push_byte. destruct (p.(state)) as [m| | | |] eqn:Hst.
  - destruct (wf_start p Hwf m Hst) as (Hm & Hl & Hc).
    case_match; [done|]. case_bool_decide; intros [= <- <-]; split; simpl;
      rewrite ?Hl, ?Hc; simpl; try lia; try naive_solver lia.
  - case_match eqn:H1.
    { intros [= <- <-]. apply andb_prop in H1 as [H1 Hc]. apply andb_prop in H1 as [Hl _].
      apply bool_decide_eq_true in Hc, Hl.
      split; simpl; rewrite ?Hl, ?Hc; simpl; [lia|naive_solver..]. }
    case_match eqn:H2.
    { intros H. assert (p' = (process_line (trim_crs (line p)) (set_line [] p)).1) as -> by by rewrite H.
      assert (parser_wf (set_line [] p)) as Hwf0.
      { destruct Hwf. split; simpl; [lia| |naive_solver..]. rewrite Hst. naive_solver. }
      split; rewrite ?process_line_line, ?process_line_limits, ?process_line_state; simpl;
        rewrite ?Hst; [lia|naive_solver..|].
      intros c Hc. by apply (process_line_pending _ _ _ Hwf0) in Hc. }
    case_match eqn:H3; [done|]. intros [= <- <-]. destruct Hwf.
    split; simpl; rewrite ?Hst; [|naive_solver..]. rewrite length_app. simpl. lia.
  - destruct (wf_closed p Hwf) as [Hl Hc]; [by left|].
    case_match; [done|]. intros [= <- <-].
    split; simpl; rewrite ?Hl, ?Hc; simpl; [lia|naive_solver..].
  - done.
  - done.
Qed.

Lemma push_loop_wf input events p : parser_wf p → parser_wf (push_loop input events p).1.
Proof.
  revert events p; induction input as [|b input IH]; intros events p Hwf; simpl; [done|].
  destruct (push_byte b p) as [p' [evs|e]] eqn:Hb; simpl; [|apply poison_wf].
  apply IH. by eapply push_byte_wf.
Qed.

Lemma run_op_wf p op : parser_wf p → parser_wf (run_op p op).
Proof.
  intros Hwf. destruct op as [input| |]; simpl.
  - unfold parser_push. case_bool_decide; [done|]. by apply push_loop_wf.
  - unfold parser_finish. repeat case_match; simpl; auto using poison_wf.
  - apply parser_reset_wf.
Qed.

(** Whatever bytes a control peer sends, in whatever chunks, and however
    the parser is finished and reset in between, every parser reached from a
    fresh one keeps its buffers inside the configured limits. *)
Theorem reachable_parser_bounded l ops :
  parser_wf (fold_left run_op ops (with_limits l)).
Proof.
  assert (∀ p, parser_wf p → parser_wf (fold_left run_op ops p)) as H.
  { induction ops as [|op ops IH]; simpl; auto using run_op_wf. }
  apply H, with_limits_wf.
Qed.

(** * Chunking *)

Lemma push_byte_limits b p : (push_byte b p).1.(limits) = p.(limits).
Proof.
  unfold push_byte. repeat case_match; try done. by rewrite process_line_limits.
Qed.

Lemma push_byte_ok_not_failed b p p' evs : push_byte b p = (p', Ok evs) → p'.(state) ≠ PFailed.
Proof.
  intros Hb. assert ((push_byte b p).1.(state) ≠ PFailed); [|by rewrite Hb in *].
  revert Hb. unfold push_byte. destruct (p.(state)) eqn:Hst; repeat case_match; simpl; try congruence.
  rewrite process_line_state. simpl. congruence.
Qed.

Lemma push_loop_events input events p :
  push_loop input events p =
    let '(p', r) := push_loop input [] p in (p', (events ++.) <$> r).
Proof.
  revert events p; induction input as [|b input IH]; intros events p; simpl.
  { by rewrite app_nil_r. }
  destruct (push_byte b p) as [p' [new|e]]; [|done].
  rewrite (IH (events ++ new)), (IH new).
  destruct (push_loop input [] p') as [p'' [evs|e]]; simpl_result; by rewrite ?app_assoc.
Qed.

Lemma push_loop_app a b p :
  push_loop (a ++ b) [] p =
    match push_loop a [] p with
    | (p', Ok evs) => push_loop b evs p'
    | (p', Err e) => (p', Err e)
    end.
Proof.
  assert (∀ events, push_loop (a ++ b) events p =
    match push_loop a events p with
    | (p', Ok evs) => push_loop b evs p' | (p', Err e) => (p', Err e) end) as H; [|apply H].
  revert p; induction a as [|x a IH]; intros p events; simpl; [done|].
  destruct (push_byte x p) as [p' [new|e]]; [apply IH|done].
Qed.

Lemma push_loop_not_failed input events p p' evs :
  p.(state) ≠ PFailed → push_loop input events p = (p', Ok evs) → p'.(state) ≠ PFailed.
Proof.
  revert events p; induction input as [|b input IH]; intros events p Hst; simpl; [congruence|].
  destruct (push_byte b p) as [q [new|e]] eqn:Hb; [|done].
  eauto using push_byte_ok_not_failed.
Qed.

Lemma parser_push_loop input p : p.(state) ≠ PFailed → parser_push input p = push_loop input [] p.
Proof. intros H. unfold parser_push. by rewrite bool_decide_eq_false_2. Qed.

(** What a caller that reads its transport in chunks computes: it stops at the
    first error. *)
Fixpoint push_chunks (chunks : list bytes) (p : TmuxControlParser)
    : TmuxControlParser * parsed (list ControlEvent) :=
  match chunks with
  | [] => (p, Ok [])
  | c :: chunks =>
      match parser_push c p with
      | (p', Ok evs) => let '(p'', r) := push_chunks chunks p' in (p'', (evs ++.) <$> r)
      | (p', Err e) => (p', Err e)
      end
  end.

(** The parser is a stream parser: how the transport cuts the bytes into
    chunks changes neither the events nor the error nor the final state. *)
Theorem parser_push_chunks chunks p :
  p.(state) ≠ PFailed → push_chunks chunks p = parser_push (concat chunks) p.
Proof.
  revert p; induction chunks as [|c chunks IH]; intros p Hst.
  { by rewrite parser_push_loop. }
  simpl. rewrite !parser_push_loop, push_loop_app by done.
  destruct (push_loop c [] p) as [p' [evs|e]] eqn:Hc; [|done].
  assert (p'.(state) ≠ PFailed) by eauto using push_loop_not_failed.
  by rewrite IH, parser_push_loop, (push_loop_events _ evs).
Qed.

Lemma parser_push_chunks_witness :
  push_chunks [CONTROL_START; bs "%out"; bs "put %1 a\15"; bs "4b" ++ [LF]] parser_new =
    (set_state PRecords parser_new, Ok [Started; Output 1 (bs "alb")]).
Proof. rewrite (parser_push_chunks _ parser_new) by done. vm_compute. reflexivity. Defined.

(** * Errors *)

(** An error poisons the parser: it reports [ParserPoisoned] for every
    later chunk and at the end of the stream, whatever arrives, until
    [reset] makes it the fresh parser with the same limits. *)
Theorem error_poisons_until_reset input p p' e :
  parser_push input p = (p', Err e) →
  (∀ later, parser_push later p' = (p', Err ParserPoisoned)) ∧
  (parser_finish p').2 = Err ParserPoisoned ∧
  parser_reset p' = with_limits p.(limits).
Proof.
  assert (∀ events q q', push_loop input events q = (q', Err e) →
    q'.(state) = PFailed ∧ q'.(limits) = q.(limits)) as Hloop.
  { induction input as [|b input IH]; intros events q q'; simpl; [done|].
    destruct (push_byte b q) as [r [new|e']] eqn:Hb.
    - intros H. apply IH in H as [? ->]. by rewrite <-(push_byte_limits b q), Hb.
    - intros [= <- <-]. simpl. by rewrite <-(push_byte_limits b q), Hb. }
  intros H. assert (p'.(state) = PFailed ∧ p'.(limits) = p.(limits)) as [Hst Hlim].
  { unfold parser_push in H. case_bool_decide; [by simplify_eq/=|eauto]. }
  split_and!.
  - intros later. unfold parser_push. by rewrite bool_decide_eq_true_2.
  - unfold parser_finish. by rewrite Hst.
  - unfold parser_reset, with_limits, set_pending, set_line, set_state. simpl. by rewrite Hlim.
Qed.

Lemma error_poisons_until_reset_witness :
  parser_push (CONTROL_START ++ bs "junk" ++ [LF]) parser_new =
    (poison parser_new, Err MalformedRecord) ∧
  parser_reset (poison parser_new) = parser_new.
Proof.
  assert (parser_push (CONTROL_START ++ bs "junk" ++ [LF]) parser_new =
    (poison parser_new, Err MalformedRecord)) as H by (vm_compute; reflexivity).
  split; [exact H|]. exact (proj2 (proj2 (error_poisons_until_reset _ _ _ _ H))).
Defined.

(** * The grammar of the event stream *)

Definition is_bracket (e : ControlEvent) : bool :=
  match e with Started | Ended => true | _ => false end.

Definition no_brackets (evs : list ControlEvent) : Prop := Forall (λ e, is_bracket e = false) evs.

(** The events a parser in a given state has emitted since it was fresh. *)
Definition emitted_in (s : ParseState) (evs : list ControlEvent) : Prop :=
  match s with
  | PStart _ => evs = []
  | PRecords | PPossibleStringTerminator => ∃ body, evs = Started :: body ∧ no_brackets body
  | PEnded => ∃ body, evs = Started :: body ++ [Ended] ∧ no_brackets body
  | PFailed => False
  end.

Lemma parse_notification_no_brackets l evs : parse_notification l = Ok evs → no_brackets evs.
Proof.
  unfold parse_notification, parse_extended_output, no_brackets.
  intros H. repeat (result_inv; try case_match); repeat constructor.
Qed.

Lemma process_line_no_brackets l p p' evs :
  process_line l p = (p', Ok evs) → no_brackets evs.
Proof.
  unfold process_line, finish_command.
  intros H. repeat case_match; injection H; intros; subst; try discriminate.
  all: try (by eapply parse_notification_no_brackets).
  all: repeat constructor.
Qed.

Lemma push_byte_emitted b p p' past new :
  emitted_in p.(state) past → push_byte b p = (p', Ok new) → emitted_in p'.(state) (past ++ new).
Proof.
  unfold push_byte. destruct (p.(state)) as [m| | | |] eqn:Hst; simpl; intros Hpast Hb; try done.
  - subst past. repeat case_match; simplify_eq/=; first [done | exists []; by repeat constructor].
  - assert (emitted_in p'.(state) (past ++ []) ∧ new = [] ∨
            p'.(state) = PRecords ∧ no_brackets new) as [[? ->]|[-> Hnew]]; [|done|].
    { rewrite app_nil_r. repeat case_match; simplify_eq/=; rewrite ?Hst; auto.
      right. split; [|by eapply process_line_no_brackets].
      pose proof (process_line_state (trim_crs p.(line)) (set_line [] p)) as E.
      rewrite Hb in E. simpl in E. congruence. }
    destruct Hpast as (body & -> & Hbody). exists (body ++ new). split; [done|].
    by apply Forall_app.
  - destruct Hpast as (body & -> & Hbody). case_match; simplify_eq/=. by exists body.
Qed.

(** Events of one stream are bracketed: nothing before the start marker,
    [Started] exactly once and first, and [Ended] only as the very last event,
    which leaves the parser in the ended state. *)
Theorem events_are_bracketed l input p' evs :
  parser_push input (with_limits l) = (p', Ok evs) → emitted_in p'.(state) evs.
Proof.
  rewrite parser_push_loop by done.
  assert (∀ past p, emitted_in p.(state) past →
    push_loop input past p = (p', Ok evs) → emitted_in p'.(state) evs) as H; [|by apply H].
  induction input as [|b input IH]; intros past p Hp; simpl; [by intros [= <- <-]|].
  destruct (push_byte b p) as [q [new|e]] eqn:Hb; [|done].
  apply IH. by eapply push_byte_emitted.
Qed.

Lemma events_are_bracketed_witness :
  emitted_in PEnded [Started; Exit None; Ended].
Proof.
  assert (parser_push (CONTROL_START ++ bs "%exit" ++ [LF; ESC; 92]) (with_limits default_limits) =
    (set_state PEnded parser_new, Ok [Started; Exit None; Ended])) as H by (vm_compute; reflexivity).
  exact (events_are_bracketed _ _ _ _ H).
Defined.

(** * Output records *)

(** The escaping tmux applies to pane output: a byte for which [esc] holds is
    written as a backslash and three octal digits. *)
Definition encode_byte (esc : byte → bool) (b : byte) : bytes :=
  if esc b then [92; 48 + b / 64; 48 + b / 8 mod 8; 48 + b mod 8] else [b].
Definition encode_octal (esc : byte → bool) (l : bytes) : bytes := mjoin (encode_byte esc <$> l).

Lemma decode_octal_escaped b rest :
  byte_ok b → decode_octal (92 :: 48 + b / 64 :: 48 + b / 8 mod 8 :: 48 + b mod 8 :: rest) =
    (b ::.) <$> decode_octal rest.
Proof.
  unfold byte_ok. intros Hb. cbn [decode_octal]. unfold is_octal, u8_max.
  replace (_ && _ && _) with true by lia.
  replace (_ * 64 + _ + _) with b by lia. by replace (b <=? 255) with true by lia.
Qed.

Lemma decode_octal_plain b rest : b ≠ 92 → decode_octal (b :: rest) = (b ::.) <$> decode_octal rest.
Proof.
  intros Hb. destruct b as [|p]; [done|]. cbn.
  do 7 (destruct p as [p|p|]; try done).
Qed.

Lemma encode_octal_cons esc b l :
  encode_octal esc (b :: l) = encode_byte esc b ++ encode_octal esc l.
Proof. done. Qed.

Lemma decode_encode_octal esc l :
  Forall byte_ok l → esc 92 = true → decode_octal (encode_octal esc l) = Ok l.
Proof.
  intros Hl Hesc. induction Hl as [|b l Hb Hl IH]; [done|].
  rewrite encode_octal_cons. unfold encode_byte. destruct (esc b) eqn:Hb'.
  - cbn [app]. rewrite decode_octal_escaped by done. by rewrite IH.
  - cbn [app]. rewrite decode_octal_plain by congruence. by rewrite IH.
Qed.

Lemma encode_octal_plain esc (P : byte → Prop) l :
  Forall byte_ok l → (∀ b, 48 ≤ b ≤ 57 ∨ b = 92 → P b) → (∀ b, esc b = false → P b) →
  Forall P (encode_octal esc l).
Proof.
  intros Hl HP Hesc. induction Hl as [|b l Hb Hl IH]; [constructor|].
  rewrite encode_octal_cons. apply Forall_app. split; [|done].
  unfold byte_ok in Hb. unfold encode_byte. destruct (esc b) eqn:Hb'; repeat constructor; auto.
  all: apply HP; lia.
Qed.

(** Text bytes of a record reach the line buffer unchanged. *)
Lemma push_loop_text l p :
  p.(state) = PRecords → p.(line) ≠ [] ∨ p.(pending_command) ≠ None ∨ hd_error l ≠ Some ESC →
  Forall (λ b, b ≠ LF) l → len (p.(line) ++ l) ≤ p.(limits).(max_line_bytes) →
  push_loop l [] p = (set_line (p.(line) ++ l) p, Ok []).
Proof.
  intros Hst Hesc Hlf. revert p Hst Hesc. induction Hlf as [|b l Hb _ IH]; intros p Hst Hesc Hlen; simpl.
  { rewrite app_nil_r. by destruct p. }
  assert (push_byte b p = (set_line (p.(line) ++ [b]) p, Ok [])) as ->.
  { unfold push_byte. rewrite Hst. rewrite length_app in Hlen. simpl in Hlen.
    destruct (_ && _ && _) eqn:H1.
    { apply andb_prop in H1 as [[Hl%bool_decide_eq_true He]%andb_prop Hc%bool_decide_eq_true].
      apply N.eqb_eq in He as ->. naive_solver. }
    replace (b =? LF) with false by (symmetry; by apply N.eqb_neq).
    by replace (_ =? _) with false by lia. }
  rewrite IH; simpl.
  - by rewrite <-app_assoc.
  - done.
  - left. by destruct (line p).
  - by rewrite <-app_assoc.
Qed.

Lemma trim_crs_id l x : x ≠ CR → trim_crs (l ++ [x]) = l ++ [x].
Proof.
  intros Hx. unfold trim_crs. rewrite reverse_app. simpl.
  replace (x =? CR) with false by (symmetry; by apply N.eqb_neq).
  by rewrite reverse_cons, reverse_involutive.
Qed.

Definition no_trailing_cr (l : bytes) : Prop := last l ≠ Some CR.

Lemma trim_crs_no_trailing l : no_trailing_cr l → trim_crs l = l.
Proof.
  unfold no_trailing_cr. destruct l as [|x l _] using rev_ind; [done|].
  rewrite last_snoc. intros H. apply trim_crs_id. congruence.
Qed.

Lemma push_byte_lf p :
  p.(state) = PRecords → push_byte LF p = process_line (trim_crs p.(line)) (set_line [] p).
Proof.
  intros Hst. unfold push_byte. rewrite Hst.
  replace (LF =? ESC) with false by done. by rewrite andb_false_r.
Qed.

(** One complete line, terminated by LF. *)
Lemma push_loop_line l events p :
  p.(state) = PRecords → p.(line) = [] → p.(pending_command) ≠ None ∨ hd_error l ≠ Some ESC →
  Forall (λ b, b ≠ LF) l → no_trailing_cr l → len l ≤ p.(limits).(max_line_bytes) →
  push_loop (l ++ [LF]) events p =
    match process_line l p with
    | (p', Ok new) => (p', Ok (events ++ new))
    | (p', Err e) => (poison p', Err e)
    end.
Proof.
  intros Hst Hline Hesc Hlf Hcr Hlen.
  rewrite push_loop_events, push_loop_app, push_loop_text; rewrite ?Hline; [|auto; naive_solver..].
  cbn [push_loop app]. rewrite push_byte_lf by done. cbn [line set_line].
  rewrite trim_crs_no_trailing by done.
  replace (set_line [] (set_line l p)) with p by (by destruct p; simpl in *; subst).
  by destruct (process_line l p) as [p' [new|e]].
Qed.

Lemma Forall_impl_true {A} (f : A → bool) (P : A → Prop) l :
  Forall (λ x, f x = true) l → (∀ x, f x = true → P x) → Forall P l.
Proof. intros H ?. by eapply Forall_impl. Qed.

Lemma parse_pane_id_to_dec n : n ≤ u64_max → parse_pane_id (bs "%" ++ to_dec n) = Ok n.
Proof.
  intros Hn. unfold parse_pane_id. rewrite strip_prefix_app. simpl.
  rewrite bool_decide_eq_false_2 by apply to_dec_nonempty.
  rewrite (proj2 (forallb_Forall _ _) (to_dec_digits n)). simpl.
  by rewrite parse_uint_to_dec.
Qed.

Lemma parse_u64_to_dec n field : n ≤ u64_max → parse_u64 (Some (to_dec n)) field = Ok n.
Proof.
  intros Hn. unfold parse_u64. simpl.
  rewrite bool_decide_eq_false_2 by apply to_dec_nonempty.
  rewrite (proj2 (forallb_Forall _ _) (to_dec_digits n)). simpl.
  by rewrite parse_uint_to_dec.
Qed.

Lemma to_dec_no_space n : Forall (λ b, (SP =? b) = false) (to_dec n).
Proof. eapply Forall_impl_true; [apply to_dec_digits|]. unfold is_digit, SP. intros. lia. Qed.

Definition output_record (esc : byte → bool) (pane_id : N) (payload : bytes) : bytes :=
  bs "%output " ++ (bs "%" ++ to_dec pane_id) ++ [SP] ++ encode_octal esc payload.

Lemma last_Forall {A} (P : A → Prop) l x : Forall P l → last l = Some x → P x.
Proof. intros Hl Hx. apply last_Some_elem_of in Hx. by eapply Forall_forall. Qed.

Lemma output_record_Forall esc id payload (P : byte → Prop) :
  Forall byte_ok payload → (∀ b, 32 ≤ b ≤ 126 → P b) → (∀ b, esc b = false → P b) →
  Forall P (output_record esc id payload).
Proof.
  intros Hp HP Hesc. unfold output_record.
  assert (Forall P (bs "%output ") ∧ Forall P (bs "%")) as [? ?]
    by (split; forall_list ltac:(apply HP; lia)).
  repeat (apply Forall_app; split); [done|done| |forall_list ltac:(apply HP; unfold SP; lia)|].
  - eapply Forall_impl_true; [apply to_dec_digits|]. unfold is_digit. intros; apply HP; lia.
  - apply encode_octal_plain; auto. intros; apply HP; lia.
Qed.

Lemma split_once_space_app a b :
  Forall (λ x, (SP =? x) = false) a → split_once_space (a ++ [SP] ++ b) = Ok (a, b).
Proof.
  intros Ha. unfold split_once_space. cbn [app]. rewrite position_app_first by done.
  cbn [ok_or mbind result_bind]. by rewrite take_app_length, drop_S_app.
Qed.

Lemma process_output_record esc id payload p :
  p.(pending_command) = None → id ≤ u64_max → Forall byte_ok payload → esc 92 = true →
  len (output_record esc id payload) ≤ p.(limits).(max_notification_bytes) →
  process_line (output_record esc id payload) p = (p, Ok [Output id payload]).
Proof.
  intros Hc Hid Hp Hesc Hlen. unfold process_line. rewrite Hc.
  change (strip_prefix (bs "%begin ") (output_record esc id payload)) with (@None bytes).
  change (starts_with (bs "%end ") (output_record esc id payload)) with false.
  change (starts_with (bs "%error ") (output_record esc id payload)) with false.
  change (starts_with (bs "%") (output_record esc id payload)) with true.
  rewrite bool_decide_eq_false_2; cbn [orb negb].
  2:{ unfold bare_keywords. rewrite !elem_of_cons, elem_of_nil. intros H. by destruct_or! H. }
  replace (_ <? _) with false by lia. f_equal.
  unfold parse_notification. unfold output_record at 1. rewrite strip_prefix_app.
  rewrite split_once_space_app by (constructor; [done|apply to_dec_no_space]).
  cbn [mbind result_bind]. rewrite parse_pane_id_to_dec by done.
  cbn [mbind result_bind]. by rewrite decode_encode_octal.
Qed.

(** C6. Pane output survives the wire: whatever bytes a pane prints and
    whichever of them tmux chooses to escape (the backslash and the line
    terminators at least), the record is parsed back to exactly those bytes
    for exactly that pane, and the parser is where it was. *)
Theorem output_record_roundtrip esc id payload p :
  p.(state) = PRecords → p.(line) = [] → p.(pending_command) = None →
  id ≤ u64_max → Forall byte_ok payload → esc 92 = true → esc LF = true → esc CR = true →
  len (output_record esc id payload) ≤ p.(limits).(max_line_bytes) →
  len (output_record esc id payload) ≤ p.(limits).(max_notification_bytes) →
  parser_push (output_record esc id payload ++ [LF]) p = (p, Ok [Output id payload]).
Proof.
  intros Hst Hline Hc Hid Hp Hbs Hlf Hcr Hlen1 Hlen2.
  assert (∀ b, b = LF ∨ b = CR → Forall (λ x, x ≠ b) (output_record esc id payload)) as Hne.
  { intros b Hb. apply output_record_Forall; [done|..].
    - unfold LF, CR in Hb. intros; lia.
    - intros x Hx ->. destruct Hb; congruence. }
  rewrite parser_push_loop by congruence.
  rewrite push_loop_line; auto.
  - by rewrite process_output_record.
  - intros H. by eapply last_Forall in H; [|by apply (Hne CR); right].
Qed.

Definition escape_controls (b : byte) : bool := (b <? 32) || (b =? 92).

Lemma output_record_roundtrip_witness :
  parser_push (output_record escape_controls 7 [104; 92; 10; 13; 255] ++ [LF])
    (set_state PRecords parser_new) =
  (set_state PRecords parser_new, Ok [Output 7 [104; 92; 10; 13; 255]]).
Proof.
  apply (output_record_roundtrip escape_controls 7 [104; 92; 10; 13; 255]); try done.
  repeat constructor.
Defined.

(** * Command blocks *)

Definition print_tag (t : CommandTag) : bytes :=
  to_dec t.(tag_timestamp) ++ [SP] ++ to_dec t.(tag_number) ++ [SP] ++ to_dec t.(tag_flags).

Definition tag_ok (t : CommandTag) : Prop :=
  t.(tag_timestamp) ≤ u64_max ∧ t.(tag_number) ≤ u64_max ∧ t.(tag_flags) ≤ u64_max.

Definition terminator (s : CommandStatus) : string :=
  match s with Success => "%end " | Error => "%error " end.

Definition command_block (s : CommandStatus) (t : CommandTag) (ls : list bytes) : bytes :=
  (bs "%begin " ++ print_tag t ++ [LF]) ++ mjoin ((λ l, l ++ [LF]) <$> ls) ++
  (bs (terminator s) ++ print_tag t ++ [LF]).

(** A line that can be command output: any text that is not this block's own
    terminator, including the framing records of another block. *)
Definition payload_line (t : CommandTag) (l : bytes) : Prop :=
  Forall (λ b, b ≠ LF) l ∧ no_trailing_cr l ∧
  terminates "%end " t l = false ∧ terminates "%error " t l = false.

Lemma split_on_app_space a b :
  Forall (λ x, (SP =? x) = false) a → split_on (N.eqb SP) (a ++ [SP] ++ b) = a :: split_on (N.eqb SP) b.
Proof. intros Ha. by apply split_on_app. Qed.

Lemma parse_command_tag_print t : tag_ok t → parse_command_tag (print_tag t) = Ok t.
Proof.
  intros (H1 & H2 & H3). unfold parse_command_tag, print_tag.
  rewrite !split_on_app_space, split_on_none by apply to_dec_no_space.
  cbn [lookup list_lookup]. rewrite !parse_u64_to_dec by done. cbn. by destruct t.
Qed.

Lemma print_tag_Forall t (P : byte → Prop) :
  P SP → (∀ b, is_digit b = true → P b) → Forall P (print_tag t).
Proof.
  intros Hsp Hd. unfold print_tag.
  repeat (apply Forall_app; split); try (by apply Forall_singleton);
    (eapply Forall_impl_true; [apply to_dec_digits|done]).
Qed.

Lemma tag_line_no_lf (w : bytes) t b :
  Forall (λ x, x ≠ b) w → b ≠ SP → is_digit b = false → Forall (λ x, x ≠ b) (w ++ print_tag t).
Proof.
  intros Hw Hsp Hd. apply Forall_app. split; [done|]. apply print_tag_Forall; [done|].
  intros x Hx ->. congruence.
Qed.

Lemma push_payload_lines ls t o n p :
  p.(state) = PRecords → p.(line) = [] → Forall (payload_line t) ls →
  Forall (λ l, len l ≤ p.(limits).(max_line_bytes)) ls →
  len o + len ls ≤ p.(limits).(max_command_output_lines) →
  n + len (concat ls) ≤ p.(limits).(max_command_output_bytes) →
  p.(limits).(max_command_output_bytes) ≤ usize_max →
  push_loop (mjoin ((λ l, l ++ [LF]) <$> ls)) []
    (set_pending (Some {| tag := t; output := o; output_bytes := n |}) p) =
  (set_pending (Some {| tag := t; output := o ++ ls; output_bytes := n + len (concat ls) |}) p, Ok []).
Proof.
  intros Hst Hline Hpl. revert o n. induction Hpl as [|l ls (Hlf & Hcr & Hend & Herr) _ IH];
    intros o n Hlen Hlines Hbytes Husize.
  { simpl. rewrite app_nil_r. by rewrite N.add_0_r. }
  apply Forall_cons in Hlen as [Hl Hlen]. simpl in Hlines, Hbytes. rewrite length_app in Hbytes.
  cbn [fmap list_fmap mjoin list_join]. rewrite push_loop_app, push_loop_line; simpl; auto.
  unfold process_line at 1. cbn [pending_command set_pending tag output output_bytes limits].
  rewrite Hend, Herr. replace (_ =? _) with false by lia.
  unfold checked_add. replace (_ <=? usize_max) with true by lia.
  replace (_ <? _) with false by lia.
  change (set_pending ?c (set_pending _ p)) with (set_pending c p).
  rewrite IH; auto; rewrite ?length_app; simpl; [|lia..].
  by rewrite <-app_assoc, Nat2N.inj_add, N.add_assoc.
Qed.

Lemma process_begin t p :
  p.(pending_command) = None → tag_ok t →
  process_line (bs "%begin " ++ print_tag t) p =
    (set_pending (Some {| tag := t; output := []; output_bytes := 0 |}) p, Ok []).
Proof.
  intros Hc Ht. unfold process_line. rewrite Hc, strip_prefix_app.
  by rewrite parse_command_tag_print.
Qed.

Lemma process_terminator s t o n p :
  tag_ok t →
  process_line (bs (terminator s) ++ print_tag t)
    (set_pending (Some {| tag := t; output := o; output_bytes := n |}) p) =
  (set_pending None p,
   Ok [Command t.(tag_timestamp) t.(tag_number) t.(tag_flags) s o]).
Proof.
  intros Ht. unfold process_line. cbn [pending_command set_pending tag output].
  assert (∀ w, terminates w t (bs w ++ print_tag t) = true) as Htrue.
  { intros w. unfold terminates. rewrite strip_prefix_app, parse_command_tag_print by done.
    cbn. by rewrite bool_decide_eq_true_2. }
  destruct s; cbn [terminator].
  - by rewrite Htrue.
  - change (terminates "%end " t (bs "%error " ++ print_tag t)) with false. by rewrite Htrue.
Qed.

(** C1. Command replies are framed by their own tag only: between a
    [%begin] and the [%end] or [%error] with the same tag, every line is
    delivered verbatim as output, even a line that is itself a complete record
    of a nested control client, and nothing else is reported, as long as the
    lines, their number and their total stay within the limits of the parser. *)
Theorem command_block_framing s t ls p :
  p.(state) = PRecords → p.(line) = [] → p.(pending_command) = None →
  tag_ok t → Forall (payload_line t) ls →
  Forall (λ l, len l ≤ p.(limits).(max_line_bytes)) ls →
  7 + len (print_tag t) ≤ p.(limits).(max_line_bytes) →
  len ls ≤ p.(limits).(max_command_output_lines) →
  len (concat ls) ≤ p.(limits).(max_command_output_bytes) →
  p.(limits).(max_command_output_bytes) ≤ usize_max →
  parser_push (command_block s t ls) p =
    (p, Ok [Command t.(tag_timestamp) t.(tag_number) t.(tag_flags) s ls]).
Proof.
  intros Hst Hline Hc Ht Hpl Hlen Htag Hlines Hbytes Husize.
  assert (∀ w b, Forall (λ x, x ≠ b) (bs w) → b ≠ SP → is_digit b = false →
    Forall (λ x, x ≠ b) (bs w ++ print_tag t)) as Hne by eauto using tag_line_no_lf.
  assert (∀ w, Forall (λ x, x ≠ CR) (bs w) → no_trailing_cr (bs w ++ print_tag t)) as Hcr.
  { intros w Hw H. by eapply last_Forall in H; [|by apply Hne]. }
  rewrite parser_push_loop by congruence. unfold command_block.
  rewrite !(app_assoc (bs _)), push_loop_app, push_loop_line, process_begin; auto.
  2:{ apply Hne; [forall_list ltac:(done)|done..]. }
  2:{ apply Hcr. forall_list ltac:(done). }
  2:{ rewrite length_app. change (length (bs "%begin ")) with 7%nat. lia. }
  cbn [app]. rewrite push_loop_app, (push_payload_lines _ t [] 0) by (simpl; auto; lia).
  cbn [app]. rewrite push_loop_line; simpl; auto.
  - rewrite process_terminator by done. simpl. destruct p; simpl in *; by subst.
  - apply Hne; [destruct s; forall_list ltac:(done)|done..].
  - apply Hcr. destruct s; forall_list ltac:(done).
  - rewrite length_app. destruct s; simpl; lia.
Qed.

Lemma command_block_framing_witness :
  parser_push (command_block Error {| tag_timestamp := 5; tag_number := 6; tag_flags := 1 |}
      [bs "%begin 1 2 3"; bs "%end 1 2 3"; bs "%exit"; [ESC; 92]]) (set_state PRecords parser_new) =
    (set_state PRecords parser_new,
     Ok [Command 5 6 1 Error [bs "%begin 1 2 3"; bs "%end 1 2 3"; bs "%exit"; [ESC; 92]]]).
Proof.
  apply (command_block_framing Error {| tag_timestamp := 5; tag_number := 6; tag_flags := 1 |});
    try done.
  - repeat (apply Forall_cons; split); [..|by apply Forall_nil];
      (split_and!; [forall_list ltac:(done)|done|reflexivity|reflexivity]).
  - by repeat constructor.
Defined.
