(* ===== verification/TmuxGateway.v ===== *)
(** The router that splits a direct PTY source around an embedded
    [tmux -CC] stream ([src/src/tmux_gateway.rs]).

    One iteration of the [while] loop of [TmuxGatewayRouter::push] is
    [gateway_iter]; [gateway_loop] is the loop, with fuel, and [gateway_push]
    the method.  The loop can reconsider a byte without consuming it (twice at
    most), so it runs with fuel three times the length of the input. *)

From S2P Require Import Prelude TmuxControl.
Local Open Scope N_scope.

(** * Data *)

Definition TMUX_CONTROL_START_MARKER : bytes := ESC :: bs "P1000p".

Inductive GatewayFailure :=
| TransportEof
| MissingExit
| MissingTerminator
| TerminatorTimeout
| Protocol (message : bytes).

Inductive GatewayEvent :=
| DirectOutput (output : bytes)
| ConnectionStarted (connection_id : N)
| Control (connection_id : N) (event : ControlEvent)
| ConnectionEnded (connection_id : N)
| ConnectionFailed (connection_id : N) (reason : GatewayFailure).

Inductive GatewayLifecycleState := Direct | ControlMode | AwaitingTerminator | Recovering.

Inductive GatewayError :=
| ConnectionIdExhausted
| ControlError (connection_id : N) (source : ControlParseError)
| UnterminatedControl (connection_id : N) (source : ControlParseError).

Record ActiveControl := {
  connection_id : N;
  parser : TmuxControlParser;
  current_record : bytes;
  saw_exit : bool;
  terminator_escape_seen : bool;
  recovering : bool
}.

Record TmuxGatewayRouter := {
  marker_prefix : bytes;
  active : option ActiveControl;
  next_connection_id : N
}.

Definition with_first_connection_id (id : N) : TmuxGatewayRouter :=
  {| marker_prefix := []; active := None; next_connection_id := id |}.
Definition router_new : TmuxGatewayRouter := with_first_connection_id 1.

Definition active_connection (r : TmuxGatewayRouter) : option N := connection_id <$> r.(active).

Definition lifecycle_state (r : TmuxGatewayRouter) : GatewayLifecycleState :=
  match r.(active) with
  | None => Direct
  | Some a => if a.(recovering) then Recovering
              else if a.(saw_exit) then AwaitingTerminator else ControlMode
  end.

(** The [Display] text of a parser error, which [Protocol] carries. *)
Definition unterminated_name (s : UnterminatedState) : bytes :=
  match s with
  | UStartMarker => bs "StartMarker" | URecord => bs "Record" | UCommand => bs "Command"
  | UControlStream => bs "ControlStream" | UStringTerminator => bs "StringTerminator"
  end.

Definition error_to_string (e : ControlParseError) : bytes :=
  match e with
  | InvalidStartMarker offset =>
      bs "invalid tmux control-mode start marker at byte " ++ to_dec (N.of_nat offset)
  | InvalidStringTerminator => bs "invalid tmux control-mode string terminator"
  | TrailingData => bs "bytes followed the tmux control-mode string terminator"
  | ParserPoisoned => bs "the parser must be reset after an error"
  | MalformedRecord => bs "malformed tmux control record"
  | InvalidNumber field => bs "invalid numeric " ++ bs field ++ bs " in tmux control record"
  | UnexpectedCommandTerminator => bs "tmux command terminator appeared without a command block"
  | InvalidPaneId => bs "invalid tmux pane id"
  | InvalidOctalEscape => bs "invalid tmux octal escape"
  | LineTooLong limit => bs "tmux control line exceeded " ++ to_dec limit ++ bs " bytes"
  | CommandOutputTooLong limit => bs "tmux command output exceeded " ++ to_dec limit ++ bs " bytes"
  | TooManyCommandOutputLines limit =>
      bs "tmux command output exceeded " ++ to_dec limit ++ bs " lines"
  | NotificationTooLong limit => bs "tmux notification exceeded " ++ to_dec limit ++ bs " bytes"
  | Unterminated s => bs "unterminated tmux control-mode " ++ unterminated_name s
  end.

(** * The loop *)

(** The locals of [push]: the router, the events and the pending direct bytes. *)
Record loop_state := {
  router : TmuxGatewayRouter;
  events : list GatewayEvent;
  direct : bytes
}.

Inductive iteration :=
| Consumed (s : loop_state)
| Reconsider (s : loop_state)
| Failure (r : TmuxGatewayRouter) (e : GatewayError).

Definition emit_direct (events : list GatewayEvent) (direct : bytes) : list GatewayEvent :=
  if bool_decide (direct = []) then events else events ++ [DirectOutput direct].

(** [self.active = None; self.next_connection_id = id]. *)
Definition release (id : N) (r : TmuxGatewayRouter) : TmuxGatewayRouter :=
  {| marker_prefix := r.(marker_prefix); active := None; next_connection_id := id |}.
Definition set_active (a : ActiveControl) (r : TmuxGatewayRouter) : TmuxGatewayRouter :=
  {| marker_prefix := r.(marker_prefix); active := Some a;
     next_connection_id := r.(next_connection_id) |}.
Definition set_prefix (m : bytes) (r : TmuxGatewayRouter) : TmuxGatewayRouter :=
  {| marker_prefix := m; active := r.(active); next_connection_id := r.(next_connection_id) |}.

Definition control_events (id : N) (l : list ControlEvent) : list GatewayEvent := Control id <$> l.

(** [start_connection]: an error leaves [next_connection_id] alone. *)
Definition start_connection (events : list GatewayEvent) (r : TmuxGatewayRouter)
    : result GatewayError (TmuxGatewayRouter * list GatewayEvent) :=
  let id := r.(next_connection_id) in
  match checked_add u64_max id 1 with
  | None => Err ConnectionIdExhausted
  | Some next =>
      match parser_push TMUX_CONTROL_START_MARKER parser_new with
      | (_, Err source) => Err (ControlError id source)
      | (p, Ok parsed) =>
          Ok ({| marker_prefix := r.(marker_prefix);
                 active := Some {| connection_id := id; parser := p; current_record := [];
                                   saw_exit := false; terminator_escape_seen := false;
                                   recovering := false |};
                 next_connection_id := next |},
              events ++ [ConnectionStarted id] ++ control_events id parsed)
      end
  end.

Definition iter_recovering (a : ActiveControl) (b : byte) (s : loop_state) : iteration :=
  if a.(terminator_escape_seen) && (b =? 92) then
    Consumed {| router := release a.(connection_id) s.(router);
                events := s.(events) ++ [ConnectionEnded a.(connection_id)];
                direct := s.(direct) |}
  else
    Consumed {| router := set_active
                  {| connection_id := a.(connection_id); parser := a.(parser);
                     current_record := a.(current_record); saw_exit := a.(saw_exit);
                     terminator_escape_seen := b =? ESC; recovering := a.(recovering) |} s.(router);
                events := s.(events); direct := s.(direct) |}.

Definition is_ended (e : ControlEvent) : bool := match e with Ended => true | _ => false end.
Definition is_exit (e : ControlEvent) : bool := match e with Exit _ => true | _ => false end.

Definition iter_control (a : ActiveControl) (b : byte) (s : loop_state) : iteration :=
  let id := a.(connection_id) in
  let escape_seen := a.(terminator_escape_seen) || (a.(saw_exit) && (b =? ESC)) in
  let record := a.(current_record) ++ [b] in
  match parser_push [b] a.(parser) with
  | (p, Err source) =>
      let reason := if a.(saw_exit) then MissingTerminator else Protocol (error_to_string source) in
      let events := s.(events) ++ [ConnectionFailed id reason] in
      let returned_to_direct_transport :=
        a.(saw_exit) ||
        match head record with Some x => negb (x =? 37) && negb (x =? ESC) | None => false end in
      if returned_to_direct_transport then
        Consumed {| router := release id s.(router); events := events;
                    direct := s.(direct) ++ record |}
      else
        Consumed {| router := set_active
                      {| connection_id := id; parser := p; current_record := [];
                         saw_exit := false; terminator_escape_seen := false;
                         recovering := true |} s.(router);
                    events := events; direct := s.(direct) |}
  | (p, Ok parsed) =>
      let exit := a.(saw_exit) || existsb is_exit parsed in
      let events := s.(events) ++ control_events id parsed in
      if existsb is_ended parsed then
        Consumed {| router := release id s.(router);
                    events := events ++ [if exit then ConnectionEnded id
                                         else ConnectionFailed id MissingExit];
                    direct := s.(direct) |}
      else
        Consumed {| router := set_active
                      {| connection_id := id; parser := p;
                         current_record := if b =? LF then [] else record;
                         saw_exit := exit; terminator_escape_seen := escape_seen;
                         recovering := a.(recovering) |} s.(router);
                    events := events; direct := s.(direct) |}
  end.

Definition iter_direct (b : byte) (s : loop_state) : iteration :=
  let r := s.(router) in
  if b =? default 0 (TMUX_CONTROL_START_MARKER !! length r.(marker_prefix)) then
    let prefix := r.(marker_prefix) ++ [b] in
    if bool_decide (length prefix = length TMUX_CONTROL_START_MARKER) then
      match start_connection (emit_direct s.(events) s.(direct)) (set_prefix [] r) with
      | Ok (r', events) => Consumed {| router := r'; events := events; direct := [] |}
      | Err e => Failure (set_prefix [] r) e
      end
    else Consumed {| router := set_prefix prefix r; events := s.(events); direct := s.(direct) |}
  else if bool_decide (r.(marker_prefix) = []) then
    Consumed {| router := r; events := s.(events); direct := s.(direct) ++ [b] |}
  else
    Reconsider {| router := set_prefix [] r; events := s.(events);
                  direct := s.(direct) ++ r.(marker_prefix) |}.

Definition gateway_iter (b : byte) (s : loop_state) : iteration :=
  match s.(router).(active) with
  | Some a =>
      if a.(recovering) then iter_recovering a b s
      else if a.(saw_exit) && negb a.(terminator_escape_seen) && negb (b =? ESC) then
        Reconsider {| router := release a.(connection_id) s.(router);
                      events := s.(events) ++ [ConnectionFailed a.(connection_id) MissingTerminator];
                      direct := s.(direct) |}
      else iter_control a b s
  | None => iter_direct b s
  end.

Fixpoint gateway_loop (fuel : nat) (input : bytes) (s : loop_state)
    : option (result (TmuxGatewayRouter * GatewayError) loop_state) :=
  match input with
  | [] => Some (Ok s)
  | b :: rest =>
      match fuel with
      | O => None
      | S fuel =>
          match gateway_iter b s with
          | Consumed s' => gateway_loop fuel rest s'
          | Reconsider s' => gateway_loop fuel input s'
          | Failure r e => Some (Err (r, e))
          end
      end
  end.

Definition gateway_push (input : bytes) (r : TmuxGatewayRouter)
    : option (TmuxGatewayRouter * result GatewayError (list GatewayEvent)) :=
  match gateway_loop (3 * length input) input {| router := r; events := []; direct := [] |} with
  | None => None
  | Some (Ok s) => Some (s.(router), Ok (emit_direct s.(events) s.(direct)))
  | Some (Err (r', e)) => Some (r', Err e)
  end.

(** * The end of the source *)

Definition finish_direct (r : TmuxGatewayRouter)
    : TmuxGatewayRouter * result GatewayError bytes :=
  match r.(active) with
  | Some a =>
      if a.(recovering) then (r, Err (UnterminatedControl a.(connection_id) ParserPoisoned))
      else
        let '(p, res) := parser_finish a.(parser) in
        let r' := set_active {| connection_id := a.(connection_id); parser := p;
                                current_record := a.(current_record); saw_exit := a.(saw_exit);
                                terminator_escape_seen := a.(terminator_escape_seen);
                                recovering := a.(recovering) |} r in
        match res with
        | Ok _ => (r', Ok [])
        | Err source => (r', Err (UnterminatedControl a.(connection_id) source))
        end
  | None => (set_prefix [] r, Ok r.(marker_prefix))
  end.

Definition finish_transport (r : TmuxGatewayRouter) : TmuxGatewayRouter * list GatewayEvent :=
  match r.(active) with
  | Some a =>
      (set_prefix [] (release a.(connection_id) r),
       if a.(recovering) then [ConnectionEnded a.(connection_id)]
       else [ConnectionFailed a.(connection_id)
               (if a.(saw_exit) then MissingTerminator else TransportEof)])
  | None =>
      (set_prefix [] r,
       if bool_decide (r.(marker_prefix) = []) then [] else [DirectOutput r.(marker_prefix)])
  end.

Definition expire_termination (r : TmuxGatewayRouter) : TmuxGatewayRouter * list GatewayEvent :=
  match r.(active) with
  | None => (r, [])
  | Some a =>
      if negb a.(saw_exit) then (r, [])
      else (release a.(connection_id) r, [ConnectionFailed a.(connection_id) TerminatorTimeout])
  end.

(** * Termination

    An iteration that reconsiders its byte removes the active connection or
    the retained marker prefix, so a byte is examined three times at most. *)

Definition pending_work (s : loop_state) : nat :=
  (if s.(router).(active) is Some _ then 1 else 0) +
  (if bool_decide (s.(router).(marker_prefix) = []) then 0 else 1).

Lemma pending_work_le s : (pending_work s ≤ 2)%nat.
Proof. unfold pending_work. repeat case_match; lia. Qed.

Lemma reconsider_decreases b s s' :
  gateway_iter b s = Reconsider s' → (pending_work s' < pending_work s)%nat.
Proof.
  unfold gateway_iter, iter_recovering, iter_control, iter_direct, pending_work.
  intros H. repeat case_match; simplify_eq/=; try lia.
Qed.

(** What the loop does with one byte, all its iterations together. *)
Definition gateway_byte (b : byte) (s : loop_state) : iteration :=
  match gateway_iter b s with
  | Reconsider s1 =>
      match gateway_iter b s1 with
      | Reconsider s2 => gateway_iter b s2
      | i => i
      end
  | i => i
  end.

Lemma gateway_byte_settles b s s' : gateway_byte b s ≠ Reconsider s'.
Proof.
  unfold gateway_byte. pose proof (pending_work_le s).
  destruct (gateway_iter b s) as [|s1|] eqn:H1; try done. apply reconsider_decreases in H1.
  destruct (gateway_iter b s1) as [|s2|] eqn:H2; try done. apply reconsider_decreases in H2.
  intros H3%reconsider_decreases. lia.
Qed.

(** The loop as structural recursion on its input. *)
Fixpoint gateway_run (input : bytes) (s : loop_state)
    : result (TmuxGatewayRouter * GatewayError) loop_state :=
  match input with
  | [] => Ok s
  | b :: rest =>
      match gateway_byte b s with
      | Consumed s' | Reconsider s' => gateway_run rest s'
      | Failure r e => Err (r, e)
      end
  end.

Lemma gateway_loop_run fuel input s :
  (pending_work s + 3 * length input ≤ fuel + 2)%nat →
  gateway_loop fuel input s = Some (gateway_run input s).
Proof.
  revert input s; induction fuel as [fuel IH] using lt_wf_ind; intros input s Hf.
  destruct input as [|b rest]; [by destruct fuel|]. simpl in Hf.
  assert (∃ n i, (n ≤ pending_work s ∧ n < fuel)%nat ∧ gateway_byte b s = i ∧
    gateway_loop fuel (b :: rest) s =
      match i with Consumed s' => gateway_loop (fuel - S n) rest s'
      | Reconsider s' => gateway_loop (fuel - S n) (b :: rest) s'
      | Failure r e => Some (Err (r, e)) end) as (n & i & Hn & Hi & ->).
  { unfold gateway_byte. pose proof (pending_work_le s).
    destruct (gateway_iter b s) as [s1|s1|] eqn:H1.
    2: apply reconsider_decreases in H1 as Hd1;
       destruct (gateway_iter b s1) as [s2|s2|] eqn:H2.
    3: apply reconsider_decreases in H2 as Hd2.
    1: exists 0%nat, (Consumed s1). 2: exists 1%nat, (Consumed s2). 3: exists 2%nat, (gateway_iter b s2).
    4: exists 1%nat, (Failure r e). 5: exists 0%nat, (Failure r e).
    all: split; [lia|split; [done|]].
    all: destruct fuel as [|[|[|fuel]]]; try lia; simpl; rewrite ?H1; simpl; rewrite ?H2; simpl;
         rewrite ?Nat.sub_0_r; try done. }
  simpl gateway_run. rewrite Hi. destruct i as [s'|s'|]; [| |done].
  - apply IH; [lia|]. pose proof (pending_work_le s'). simpl. lia.
  - by apply gateway_byte_settles in Hi.
Qed.

Lemma gateway_push_run input r :
  gateway_push input r =
    Some match gateway_run input {| router := r; events := []; direct := [] |} with
         | Ok s => (s.(router), Ok (emit_direct s.(events) s.(direct)))
         | Err (r', e) => (r', Err e)
         end.
Proof.
  unfold gateway_push. rewrite gateway_loop_run.
  - by destruct (gateway_run _ _) as [s|[r' e]].
  - pose proof (pending_work_le {| router := r; events := []; direct := [] |}). lia.
Qed.

(** [push] terminates on every chunk and from every state: the loop never
    runs out of the three iterations per byte it is given. *)
Theorem gateway_push_terminates input r : is_Some (gateway_push input r).
Proof. rewrite gateway_push_run. by eexists. Qed.

(** * Direct output and the start marker *)

Abbreviation marker := TMUX_CONTROL_START_MARKER.

Definition occurs (l : bytes) : Prop := ∃ pre post, l = pre ++ marker ++ post.

(** A router with no connection retains a proper prefix of the marker. *)
Definition direct_router (r : TmuxGatewayRouter) : Prop :=
  r.(active) = None ∧ ∃ k, (k < length marker)%nat ∧ r.(marker_prefix) = take k marker.

Lemma marker_escape i : marker !! i = Some ESC → i = 0%nat.
Proof. do 8 (destruct i as [|i]; [done|]). done. Qed.

Lemma marker_lookup_lt k : (k < length marker)%nat → ∃ x, marker !! k = Some x.
Proof. apply lookup_lt_is_Some_2. Qed.

Lemma marker_take_S k x : marker !! k = Some x → take (S k) marker = take k marker ++ [x].
Proof. apply take_S_r. Qed.

(** The marker cannot begin strictly inside a copy of one of its prefixes. *)
Lemma marker_no_overlap k pre l post :
  (k ≤ length marker)%nat → take k marker ++ l = pre ++ marker ++ post → pre ≠ [] →
  (k ≤ length pre)%nat.
Proof.
  intros Hk Heq Hpre. destruct (decide (k ≤ length pre)%nat) as [|Hlt]; [done|exfalso].
  assert (marker !! length pre = Some ESC) as H%marker_escape; [|by destruct pre].
  assert ((take k marker ++ l) !! length pre = Some ESC) as H'.
  { rewrite Heq, lookup_app_r, Nat.sub_diag by lia. done. }
  rewrite lookup_app_l in H' by (rewrite length_take; lia).
  by apply lookup_take_Some in H' as [? _].
Qed.

Definition direct_state (evs : list GatewayEvent) (d : bytes) (k : nat) (id : N) : loop_state :=
  {| router := {| marker_prefix := take k marker; active := None; next_connection_id := id |};
     events := evs; direct := d |}.

(** The outcome of a byte that extends the retained prefix. *)
Definition extend_prefix (evs : list GatewayEvent) (d : bytes) (k : nat) (id : N) : iteration :=
  if bool_decide (S k = length marker) then
    match start_connection (emit_direct evs d)
            {| marker_prefix := []; active := None; next_connection_id := id |} with
    | Ok (r', evs') => Consumed {| router := r'; events := evs'; direct := [] |}
    | Err e => Failure {| marker_prefix := []; active := None; next_connection_id := id |} e
    end
  else Consumed (direct_state evs d (S k) id).

Lemma gateway_iter_direct b evs d k id :
  (k < length marker)%nat →
  gateway_iter b (direct_state evs d k id) =
    if b =? default 0 (marker !! k) then extend_prefix evs d k id
    else match k with
         | O => Consumed (direct_state evs (d ++ [b]) 0 id)
         | S _ => Reconsider (direct_state evs (d ++ take k marker) 0 id)
         end.
Proof.
  intros Hk. unfold gateway_iter, iter_direct. cbn [direct_state router active marker_prefix].
  rewrite length_take_le by lia. destruct (marker_lookup_lt k Hk) as [x Hx].
  destruct (b =? default 0 (marker !! k)) eqn:Hb; [|by destruct k].
  rewrite Hx in Hb. apply N.eqb_eq in Hb. simpl in Hb. subst b.
  rewrite <-(marker_take_S k x Hx), length_take_le by lia. unfold extend_prefix.
  case_bool_decide; [|done]. cbn [set_prefix router events direct active next_connection_id].
  by destruct (start_connection _ _) as [[r' evs']|e].
Qed.

(** One byte of direct text: it extends the retained prefix, or releases the
    prefix and starts over with itself. *)
Lemma gateway_byte_direct b evs d k id :
  (k < length marker)%nat →
  gateway_byte b (direct_state evs d k id) =
    if b =? default 0 (marker !! k) then extend_prefix evs d k id
    else if b =? ESC then Consumed (direct_state evs (d ++ take k marker) 1 id)
    else Consumed (direct_state evs (d ++ take k marker ++ [b]) 0 id).
Proof.
  intros Hk. unfold gateway_byte. rewrite gateway_iter_direct by done.
  destruct (b =? default 0 (marker !! k)) eqn:Hb.
  { unfold extend_prefix. repeat case_match; done. }
  destruct k as [|k].
  - change ((b =? ESC) = false) in Hb. by rewrite Hb.
  - rewrite gateway_iter_direct by (simpl; lia).
    change (b =? default 0 (marker !! 0%nat)) with (b =? ESC).
    destruct (b =? ESC); [done|]. by rewrite <-app_assoc.
Qed.

Definition output_bytes (evs : list GatewayEvent) : bytes :=
  mjoin ((λ e, match e with DirectOutput d => d | _ => [] end) <$> evs).

Lemma occurs_cons x l : occurs l → occurs (x :: l).
Proof. intros (pre & post & ->). by exists (x :: pre), post. Qed.

Lemma occurs_app l1 l2 : occurs l2 → occurs (l1 ++ l2).
Proof. intros (pre & post & ->). exists (l1 ++ pre), post. by rewrite app_assoc. Qed.

Lemma gateway_run_text input evs d k id :
  (k < length marker)%nat → ¬ occurs (take k marker ++ input) →
  ∃ d' k', (k' < length marker)%nat ∧
    gateway_run input (direct_state evs d k id) = Ok (direct_state evs d' k' id) ∧
    d' ++ take k' marker = d ++ take k marker ++ input.
Proof.
  revert d k; induction input as [|b input IH]; intros d k Hk Hno.
  { exists d, k. by rewrite app_nil_r. }
  cbn [gateway_run]. rewrite gateway_byte_direct by done.
  destruct (marker_lookup_lt k Hk) as [x Hx]. rewrite Hx. change (default 0 (Some x)) with x.
  destruct (N.eqb_spec b x) as [->|Hb].
  - assert (take k marker ++ x :: input = take (S k) marker ++ input) as E.
    { by rewrite (marker_take_S k x Hx), <-app_assoc. }
    rewrite E in *. unfold extend_prefix. case_bool_decide as HS.
    + exfalso. apply Hno. rewrite HS, firstn_all. by exists [], input.
    + apply IH; [lia|done].
  - destruct (N.eqb_spec b ESC) as [->|He].
    + destruct (IH (d ++ take k marker) 1%nat) as (d' & k' & ? & -> & E); [simpl; lia| |].
      { intros H. apply Hno. by apply occurs_app. }
      exists d', k'. by rewrite E, <-app_assoc.
    + destruct (IH (d ++ take k marker ++ [b]) 0%nat) as (d' & k' & ? & -> & E); [simpl; lia| |].
      { intros H. apply Hno. by apply occurs_app, occurs_cons. }
      exists d', k'. by rewrite E, <-!app_assoc.
Qed.

Lemma emit_direct_nil d : output_bytes (emit_direct [] d) = d.
Proof. unfold emit_direct. case_bool_decide; subst; [done|]. apply app_nil_r. Qed.

Lemma direct_router_state r :
  direct_router r → ∃ k, (k < length marker)%nat ∧
    {| router := r; events := []; direct := [] |} = direct_state [] [] k r.(next_connection_id).
Proof.
  intros (Ha & k & Hk & Hm). exists k. split; [done|]. destruct r; simpl in *; by subst.
Qed.

(** Ordinary output passes through untouched: while the text seen so far
    holds no start marker, the bytes delivered plus the bytes retained are
    exactly the bytes received, only [DirectOutput] is reported and no
    connection opens. *)
Theorem text_passes_through r input :
  direct_router r → ¬ occurs (r.(marker_prefix) ++ input) →
  ∃ r' evs, gateway_push input r = Some (r', Ok evs) ∧ direct_router r' ∧
    r'.(next_connection_id) = r.(next_connection_id) ∧
    Forall (λ e, ∃ d, e = DirectOutput d) evs ∧
    output_bytes evs ++ r'.(marker_prefix) = r.(marker_prefix) ++ input.
Proof.
  intros Hr Hno. rewrite gateway_push_run.
  destruct (direct_router_state r Hr) as (k & Hk & E). rewrite E.
  assert (r.(marker_prefix) = take k marker) as Hm
    by (injection E as ->; done).
  rewrite Hm in *.
  destruct (gateway_run_text input [] [] k r.(next_connection_id) Hk Hno) as (d & k' & Hk' & -> & E').
  eexists _, _. split; [done|]. simpl. split_and!; [by split; [|exists k']|done| |].
  - unfold emit_direct. case_bool_decide; repeat constructor. by eexists.
  - by rewrite emit_direct_nil.
Qed.

Lemma text_passes_through_witness :
  ¬ occurs (ESC :: bs "P100" ++ [ESC] ++ bs "P1000") ∧
  ∃ r', gateway_push (ESC :: bs "P100" ++ [ESC] ++ bs "P1000") router_new =
    Some (r', Ok [DirectOutput (ESC :: bs "P100")]) ∧ r'.(marker_prefix) = ESC :: bs "P1000".
Proof.
  assert (¬ occurs (ESC :: bs "P100" ++ [ESC] ++ bs "P1000")) as H.
  { intros (pre & post & E). apply (f_equal length) in E as L.
    rewrite !length_app in L. simpl in L.
    do 5 (destruct pre as [|? pre]; [discriminate E|]; apply (f_equal tail) in E; simpl in E).
    simpl in L. lia. }
  split; [exact H|].
  destruct (text_passes_through router_new _ (conj eq_refl
    (ex_intro _ 0%nat (conj (Nat.lt_0_succ _) eq_refl))) H) as (r' & evs & E & _).
  exists r'. vm_compute in E. injection E as <- <-. split; vm_compute; reflexivity.
Defined.

(** * Events accumulate *)

(** Direct output one byte at a time, so that two ways of cutting the same
    output into [DirectOutput] events are equal. *)
Definition flatten (evs : list GatewayEvent) : list GatewayEvent :=
  evs ≫= λ e, match e with DirectOutput d => (λ b, DirectOutput [b]) <$> d | e => [e] end.

Lemma flatten_app l1 l2 : flatten (l1 ++ l2) = flatten l1 ++ flatten l2.
Proof. apply bind_app. Qed.

Lemma flatten_emit evs d :
  flatten (emit_direct evs d) = flatten evs ++ ((λ b, DirectOutput [b]) <$> d).
Proof.
  unfold emit_direct. case_bool_decide; subst.
  - by rewrite app_nil_r.
  - rewrite flatten_app. cbn. by rewrite app_nil_r.
Qed.

Definition total (s : loop_state) : list GatewayEvent :=
  flatten s.(events) ++ ((λ b, DirectOutput [b]) <$> s.(direct)).

Lemma flatten_emit_total s : flatten (emit_direct s.(events) s.(direct)) = total s.
Proof. apply flatten_emit. Qed.

(** Two states of the loop that differ in how output is buffered only; [past]
    is what the second one has reported before. *)
Record same_run (past : list GatewayEvent) (s t : loop_state) : Prop := {
  same_router : s.(router) = t.(router);
  same_total : total s = flatten past ++ total t;
  same_direct : s.(router).(active) ≠ None → s.(direct) = [] ∧ t.(direct) = []
}.

Inductive same_iteration (past : list GatewayEvent) : iteration → iteration → Prop :=
| same_consumed s t : same_run past s t → same_iteration past (Consumed s) (Consumed t)
| same_reconsider s t : same_run past s t → same_iteration past (Reconsider s) (Reconsider t)
| same_failure r e : same_iteration past (Failure r e) (Failure r e).

(** Appending to the events of a state that buffers nothing, and to its
    direct bytes. *)
Lemma same_run_events past r r' e1 e2 d1 d2 new :
  same_run past {| router := r; events := e1; direct := d1 |} {| router := r; events := e2; direct := d2 |} →
  r.(active) ≠ None →
  same_run past {| router := r'; events := e1 ++ new; direct := d1 |}
    {| router := r'; events := e2 ++ new; direct := d2 |}.
Proof.
  intros [_ Ht Hd] Ha. destruct (Hd Ha) as [? ?]; simpl in *; subst. split; [done| |done].
  unfold total in *. simpl in *. rewrite !app_nil_r in *. rewrite !flatten_app, Ht.
  by rewrite <-app_assoc.
Qed.

Lemma same_run_direct past r r' e1 e2 d1 d2 new :
  same_run past {| router := r; events := e1; direct := d1 |} {| router := r; events := e2; direct := d2 |} →
  r'.(active) = None →
  same_run past {| router := r'; events := e1; direct := d1 ++ new |}
    {| router := r'; events := e2; direct := d2 ++ new |}.
Proof.
  intros [_ Ht _] Ha. split; [done| |done]. unfold total in *. simpl in *.
  rewrite !fmap_app, (app_assoc (flatten e1)), Ht. by rewrite <-!app_assoc.
Qed.

Lemma same_run_router past r r' e1 e2 d1 d2 :
  same_run past {| router := r; events := e1; direct := d1 |} {| router := r; events := e2; direct := d2 |} →
  (r'.(active) ≠ None → r.(active) ≠ None) →
  same_run past {| router := r'; events := e1; direct := d1 |}
    {| router := r'; events := e2; direct := d2 |}.
Proof. intros [_ Ht Hd] Ha. split; [done|done|]. simpl in *. auto. Qed.

Lemma start_connection_events evs r :
  start_connection evs r =
    '(r', new) ← start_connection [] r; Ok (r', evs ++ new).
Proof. unfold start_connection. by repeat case_match. Qed.

Lemma gateway_iter_same past b s t :
  same_run past s t → same_iteration past (gateway_iter b s) (gateway_iter b t).
Proof.
  destruct s as [r e1 d1], t as [r2 e2 d2]. intros H. assert (r = r2) as <- by apply H.
  unfold gateway_iter. cbn [router]. destruct (active r) as [a|] eqn:Ha.
  - assert (active r ≠ None) as Ha' by congruence.
    destruct (recovering a).
    { unfold iter_recovering. cbn [router events direct]. case_match; constructor.
      - by eapply same_run_events.
      - by eapply same_run_router. }
    destruct (_ && _ && _).
    { constructor. by eapply same_run_events. }
    unfold iter_control. cbn [router events direct].
    destruct (parser_push [b] (parser a)) as [p [parsed|source]].
    + destruct (existsb is_ended parsed); constructor.
      * rewrite <-!app_assoc. by eapply same_run_events.
      * by eapply same_run_events.
    + destruct (saw_exit a || _); constructor.
      * eapply same_run_direct; [|done]. eapply (same_run_events _ _ r); done.
      * by eapply same_run_events.
  - unfold iter_direct. cbn [router events direct]. destruct (b =? _).
    + case_bool_decide.
      * rewrite (start_connection_events (emit_direct e1 d1)), (start_connection_events (emit_direct e2 d2)).
        destruct (start_connection [] _) as [[r' new]|e]; cbn; [|constructor].
        constructor. destruct H as [_ Ht _]. split; [done| |done]. unfold total in *. simpl in *.
        by rewrite !app_nil_r, !flatten_app, !flatten_emit, Ht, <-!app_assoc.
      * constructor. eapply same_run_router; [done|]. simpl. by rewrite Ha.
    + case_bool_decide; constructor; by eapply same_run_direct.
Qed.

Lemma gateway_byte_same past b s t :
  same_run past s t → same_iteration past (gateway_byte b s) (gateway_byte b t).
Proof.
  intros H. unfold gateway_byte.
  destruct (gateway_iter_same past b s t H) as [s1 t1 H1|s1 t1 H1|]; try by constructor.
  destruct (gateway_iter_same past b s1 t1 H1) as [s2 t2 H2|s2 t2 H2|]; try by constructor.
  by apply gateway_iter_same.
Qed.

Inductive same_result (past : list GatewayEvent) :
    result (TmuxGatewayRouter * GatewayError) loop_state →
    result (TmuxGatewayRouter * GatewayError) loop_state → Prop :=
| same_ok s t : same_run past s t → same_result past (Ok s) (Ok t)
| same_err e : same_result past (Err e) (Err e).

Lemma gateway_run_same past input s t :
  same_run past s t → same_result past (gateway_run input s) (gateway_run input t).
Proof.
  revert s t; induction input as [|b input IH]; intros s t H; simpl; [by constructor|].
  destruct (gateway_byte_same past b s t H); auto. constructor.
Qed.

Lemma gateway_run_app a b s :
  gateway_run (a ++ b) s = (s' ← gateway_run a s; gateway_run b s').
Proof.
  revert s; induction a as [|x a IH]; intros s; simpl; [done|].
  destruct (gateway_byte x s); simpl; auto.
Qed.

(** Direct bytes are buffered only while no connection is active. *)
Definition run_ok (s : loop_state) : Prop := s.(router).(active) ≠ None → s.(direct) = [].

Lemma same_run_refl s : run_ok s → same_run [] s s.
Proof. by split; auto. Qed.

Lemma gateway_run_ok input s s' : run_ok s → gateway_run input s = Ok s' → run_ok s'.
Proof.
  intros Hs H. pose proof (gateway_run_same [] input s s (same_run_refl s Hs)) as Hsame.
  rewrite H in Hsame. inv Hsame. unfold run_ok. intros Ha.
  match goal with X : same_run _ _ _ |- _ => by apply (same_direct _ _ _ X Ha) end.
Qed.

(** Chunk boundaries are invisible: routing a stream in two chunks
    reports the same events as routing it at once (direct output compared byte
    by byte) and ends in the same router, or fails in the same way. *)
Theorem gateway_push_chunks a b r r1 e1 :
  gateway_push a r = Some (r1, Ok e1) →
  match gateway_push b r1 with
  | Some (r2, Ok e2) =>
      ∃ e, gateway_push (a ++ b) r = Some (r2, Ok e) ∧ flatten e = flatten (e1 ++ e2)
  | Some (r2, Err x) => gateway_push (a ++ b) r = Some (r2, Err x)
  | None => False
  end.
Proof.
  rewrite !gateway_push_run, gateway_run_app.
  set (s0 := {| router := r; events := []; direct := [] |}).
  destruct (gateway_run a s0) as [s1|[]] eqn:Ha; [|done]. intros [= <- <-].
  assert (run_ok s1) as Hok by (eapply (gateway_run_ok a s0); [by intros ?|done]).
  assert (same_run (emit_direct s1.(events) s1.(direct)) s1
            {| router := s1.(router); events := []; direct := [] |}) as Hsame.
  { split; [done| |auto]. rewrite flatten_emit_total. by rewrite app_nil_r. }
  cbn [mbind result_bind]. destruct (gateway_run_same _ b _ _ Hsame) as [s t [Hr Ht _]|[r2 x]]; [|done].
  eexists. rewrite Hr. split; [done|].
  by rewrite flatten_emit_total, Ht, flatten_app, (flatten_emit_total t).
Qed.

Lemma gateway_push_chunks_witness :
  match gateway_push (bs "P1000pout") {| marker_prefix := [ESC]; active := None; next_connection_id := 4 |} with
  | Some (_, Ok e2) =>
      ∃ r2 e, gateway_push ((bs "ab" ++ [ESC]) ++ bs "P1000pout") (with_first_connection_id 4) =
        Some (r2, Ok e) ∧ flatten e = flatten ([DirectOutput (bs "ab")] ++ e2)
  | _ => False
  end.
Proof.
  pose proof (gateway_push_chunks (bs "ab" ++ [ESC]) (bs "P1000pout") (with_first_connection_id 4)
    {| marker_prefix := [ESC]; active := None; next_connection_id := 4 |} [DirectOutput (bs "ab")]
    eq_refl) as H.
  destruct (gateway_push (bs "P1000pout") _) as [[r2 [e2|x]]|]; [exact (ex_intro _ r2 H)|vm_compute in H; discriminate|done].
Defined.

(** The router right after a start marker opened connection [id]. *)
Definition opened (id : N) : TmuxGatewayRouter :=
  {| marker_prefix := [];
     active := Some {| connection_id := id; parser := set_state PRecords parser_new;
                       current_record := []; saw_exit := false;
                       terminator_escape_seen := false; recovering := false |};
     next_connection_id := id + 1 |}.

Lemma parser_push_marker :
  parser_push TMUX_CONTROL_START_MARKER parser_new = (set_state PRecords parser_new, Ok [Started]).
Proof. vm_compute. reflexivity. Qed.

Lemma start_connection_opened evs id :
  id < u64_max →
  start_connection evs {| marker_prefix := []; active := None; next_connection_id := id |} =
    Ok (opened id, evs ++ [ConnectionStarted id; Control id Started]).
Proof.
  intros Hid. unfold start_connection. cbn [next_connection_id marker_prefix].
  unfold checked_add. replace (id + 1 <=? u64_max) with true by lia.
  by rewrite parser_push_marker.
Qed.

Lemma gateway_run_marker input evs d k id pre post :
  (k < length marker)%nat → id < u64_max →
  take k marker ++ input = pre ++ marker ++ post → ¬ occurs pre →
  gateway_run input (direct_state evs d k id) =
    gateway_run post {| router := opened id;
                        events := emit_direct evs (d ++ pre) ++ [ConnectionStarted id; Control id Started];
                        direct := [] |}.
Proof.
  intros Hk Hid. revert d k pre Hk. induction input as [|b input IH]; intros d k pre Hk Heq Hno.
  { exfalso. apply (f_equal length) in Heq. rewrite !length_app, length_take in Heq.
    change (length marker) with 7%nat in *. simpl in Heq. lia. }
  cbn [gateway_run]. rewrite gateway_byte_direct by done.
  destruct (marker_lookup_lt k Hk) as [x Hx]. rewrite Hx. change (default 0 (Some x)) with x.
  destruct (N.eqb_spec b x) as [->|Hb].
  - assert (take (S k) marker ++ input = pre ++ marker ++ post) as Heq'.
    { by rewrite (marker_take_S k x Hx), <-app_assoc. }
    unfold extend_prefix. case_bool_decide as HS; [|apply IH; [lia|done|done]].
    rewrite start_connection_opened by done. rewrite HS, firstn_all in Heq'.
    destruct (decide (pre = [])) as [->|Hpre].
    + rewrite app_nil_l in Heq'; apply app_inv_head in Heq' as <-. by rewrite app_nil_r.
    + exfalso. apply Hno. rewrite <-(firstn_all marker) in Heq' at 1.
      apply marker_no_overlap in Heq' as Hlen; [|done..].
      rewrite firstn_all in Heq'. apply (f_equal (take (length marker))) in Heq'.
      rewrite take_app_length, take_app_le in Heq' by done.
      exists [], (drop (length marker) pre). rewrite app_nil_l, Heq' at 1. by rewrite take_drop.
  - assert (pre ≠ []) as Hpre.
    { intros ->. apply (f_equal (lookup k)) in Heq. rewrite lookup_app_r, length_take_le, Nat.sub_diag in Heq
        by (rewrite ?length_take; lia).
      cbn [app] in Heq. rewrite lookup_app_l, Hx in Heq by done. simpl in Heq. congruence. }
    pose proof (marker_no_overlap _ _ _ _ (Nat.lt_le_incl _ _ Hk) Heq Hpre) as Hlen.
    assert (∃ pre', pre = take k marker ++ pre' ∧ b :: input = pre' ++ marker ++ post) as (pre' & -> & E).
    { exists (drop k pre). apply (f_equal (take k)) in Heq as Ht. apply (f_equal (drop k)) in Heq as Hd.
      rewrite take_app_length', (take_app_le pre) in Ht by (rewrite ?length_take; lia).
      rewrite drop_app_length', (drop_app_le pre) in Hd by (rewrite ?length_take; lia).
      split; [by rewrite Ht, take_drop|done]. }
    destruct (N.eqb_spec b ESC) as [->|He].
    + rewrite (IH _ 1%nat pre'); [by rewrite <-app_assoc|simpl; lia|done|].
      intros H. apply Hno. by apply occurs_app.
    + destruct pre' as [|y pre']; [by injection E|]. injection E as -> E.
      rewrite (IH _ 0%nat pre'); [by rewrite <-!app_assoc|simpl; lia|done|].
      intros H. apply Hno. by apply occurs_app, occurs_cons.
Qed.

(** The first start marker opens the connection: the text before it is
    delivered as direct output, the connection is announced under the next id,
    and the bytes after the marker are routed as that connection's stream,
    wherever the marker was cut by earlier chunks. *)
Theorem first_marker_opens_connection r id input pre post :
  direct_router r → r.(next_connection_id) = id → id < u64_max →
  r.(marker_prefix) ++ input = pre ++ marker ++ post → ¬ occurs pre →
  ∃ r' rest, gateway_push post (opened id) = Some (r', rest) ∧
    (∀ evs, rest = Ok evs → ∃ evs', gateway_push input r = Some (r', Ok evs') ∧
       flatten evs' = flatten (emit_direct [] pre ++ [ConnectionStarted id; Control id Started] ++ evs)) ∧
    (∀ e, rest = Err e → gateway_push input r = Some (r', Err e)).
Proof.
  intros Hr Hnext Hid Heq Hno.
  destruct (direct_router_state r Hr) as (k & Hk & E). rewrite Hnext in E.
  assert (r.(marker_prefix) = take k marker) as Hm by (injection E as ->; done).
  rewrite Hm in Heq. rewrite !gateway_push_run, E.
  rewrite (gateway_run_marker _ _ _ _ _ _ _ Hk Hid Heq Hno).
  set (past := emit_direct [] ([] ++ pre) ++ [ConnectionStarted id; Control id Started]).
  destruct (gateway_run_same past post {| router := opened id; events := past; direct := [] |}
              {| router := opened id; events := []; direct := [] |}) as [s t [Hrt Ht _]|[r' x]].
  { split; [done| |done]. unfold total. simpl. by rewrite !app_nil_r. }
  - eexists _, _. split; [done|]. split; [|done]. intros evs [= <-]. eexists. rewrite Hrt.
    split; [done|]. rewrite flatten_emit_total, Ht, app_assoc, flatten_app.
    by rewrite flatten_emit_total.
  - eexists _, _. split; [done|]. split; [done|]. by intros e [= <-].
Qed.

Lemma first_marker_opens_connection_witness :
  ∃ r' evs', gateway_push (ESC :: bs "PP" ++ marker ++ bs "%pause %1" ++ [LF]) router_new =
    Some (r', Ok evs') ∧
    flatten evs' = flatten [DirectOutput (ESC :: bs "PP"); ConnectionStarted 1; Control 1 Started;
                            Control 1 (Pause 1)].
Proof.
  assert (¬ occurs (ESC :: bs "PP")) as H.
  { intros (pre & post & E). apply (f_equal length) in E. rewrite !length_app in E. simpl in E. lia. }
  destruct (first_marker_opens_connection router_new 1
    (ESC :: bs "PP" ++ marker ++ bs "%pause %1" ++ [LF]) (ESC :: bs "PP") (bs "%pause %1" ++ [LF])
    (conj eq_refl (ex_intro _ 0%nat (conj (Nat.lt_0_succ _) eq_refl))) eq_refl eq_refl eq_refl H)
    as (r' & rest & E & Hok & _).
  vm_compute in E. injection E as <- <-. destruct (Hok _ eq_refl) as (evs' & E & F).
  eexists _, evs'. split; [exact E|exact F].
Defined.

(** * The session protocol

    What the router promises to its client, the application loop: an abstract
    state machine of one connection at a time, and every trace of events the
    router reports is a run of it. *)

Inductive session :=
| SClosed
| SOpen (id : N) (exited : bool)
| SRecovering (id : N).

Inductive session_step : session → GatewayEvent → session → Prop :=
| step_output d : session_step SClosed (DirectOutput d) SClosed
| step_started id : session_step SClosed (ConnectionStarted id) (SOpen id false)
| step_control id x e : session_step (SOpen id x) (Control id e) (SOpen id (x || is_exit e))
| step_ended id : session_step (SOpen id true) (ConnectionEnded id) SClosed
| step_missing_exit id : session_step (SOpen id false) (ConnectionFailed id MissingExit) SClosed
| step_eof id : session_step (SOpen id false) (ConnectionFailed id TransportEof) SClosed
| step_missing_terminator id :
    session_step (SOpen id true) (ConnectionFailed id MissingTerminator) SClosed
| step_timeout id : session_step (SOpen id true) (ConnectionFailed id TerminatorTimeout) SClosed
| step_protocol id m : session_step (SOpen id false) (ConnectionFailed id (Protocol m)) SClosed
| step_protocol_live id m :
    session_step (SOpen id false) (ConnectionFailed id (Protocol m)) (SRecovering id)
| step_recovered id : session_step (SRecovering id) (ConnectionEnded id) SClosed.

Inductive session_trace : session → list GatewayEvent → session → Prop :=
| trace_nil s : session_trace s [] s
| trace_cons s1 e s2 l s3 :
    session_step s1 e s2 → session_trace s2 l s3 → session_trace s1 (e :: l) s3.

Lemma session_trace_app s1 l1 s2 l2 s3 :
  session_trace s1 l1 s2 → session_trace s2 l2 s3 → session_trace s1 (l1 ++ l2) s3.
Proof. induction 1; intros; simpl; [done|]. econstructor; eauto. Qed.

Lemma session_trace_snoc s1 l s2 e s3 :
  session_trace s1 l s2 → session_step s2 e s3 → session_trace s1 (l ++ [e]) s3.
Proof. intros. eapply session_trace_app; [done|]. econstructor; [done|constructor]. Qed.

Lemma session_trace_control s l id x evs :
  session_trace s l (SOpen id x) →
  session_trace s (l ++ control_events id evs) (SOpen id (x || existsb is_exit evs)).
Proof.
  revert l x; induction evs as [|e evs IH]; intros l x H; simpl.
  { by rewrite app_nil_r, orb_false_r. }
  rewrite orb_assoc, cons_middle, app_assoc. apply IH.
  eapply session_trace_snoc; [done|constructor].
Qed.

Definition session_of (r : TmuxGatewayRouter) : session :=
  match r.(active) with
  | None => SClosed
  | Some a => if a.(recovering) then SRecovering a.(connection_id)
              else SOpen a.(connection_id) a.(saw_exit)
  end.

(** Recovery clears the exit flag, so the terminator timeout never applies to
    a recovering connection. *)
Definition exit_ok (r : TmuxGatewayRouter) : Prop :=
  ∀ a, r.(active) = Some a → recovering a = true → saw_exit a = false.

Record traced (s0 : session) (s : loop_state) : Prop := {
  traced_events : session_trace s0 s.(events) (session_of s.(router));
  traced_direct : run_ok s;
  traced_exit : exit_ok s.(router)
}.

Lemma session_trace_emit s l d : session_trace s l SClosed → session_trace s (emit_direct l d) SClosed.
Proof.
  intros H. unfold emit_direct. case_bool_decide; [done|].
  eapply session_trace_snoc; [done|constructor].
Qed.

Lemma iter_control_traced s0 a b s s' :
  traced s0 s → s.(router).(active) = Some a → recovering a = false →
  iter_control a b s = Consumed s' → traced s0 s'.
Proof.
  intros [Ht Hd _] Ha Hr. unfold session_of in Ht. rewrite Ha, Hr in Ht.
  unfold run_ok in Hd. rewrite Ha in Hd. specialize (Hd ltac:(done)).
  unfold iter_control. destruct (parser_push [b] (parser a)) as [p [evs|source]].
  - pose proof (session_trace_control _ _ _ _ evs Ht) as Hc.
    case_match; intros [= <-]; split; cbn [events router session_of active release set_active
      recovering connection_id saw_exit direct]; try by intros ?.
    + destruct (_ || _); eapply session_trace_snoc; try done; constructor.
    + by rewrite Hr.
    + intros a' [= <-]. simpl. congruence.
  - case_match; intros [= <-]; split; cbn; try by intros ?.
    + destruct (saw_exit a); eapply session_trace_snoc; try done; constructor.
    + destruct (saw_exit a); [done|]. eapply session_trace_snoc; [done|constructor].
    + by intros a' [= <-].
Qed.

Lemma start_connection_traced s0 evs r r' evs' :
  session_trace s0 evs SClosed → start_connection evs r = Ok (r', evs') →
  session_trace s0 evs' (session_of r').
Proof.
  intros Ht. unfold start_connection. rewrite parser_push_marker. case_match; [|done].
  intros [= <- <-]. cbn [session_of active recovering connection_id saw_exit].
  rewrite cons_middle, app_assoc.
  apply (session_trace_control _ _ (next_connection_id r) false [Started]).
  eapply session_trace_snoc; [done|constructor].
Qed.

Lemma gateway_iter_traced s0 b s s' :
  traced s0 s → gateway_iter b s = Consumed s' ∨ gateway_iter b s = Reconsider s' → traced s0 s'.
Proof.
  intros H. pose proof H as [Ht Hd Hx]. unfold gateway_iter.
  destruct (active (router s)) as [a|] eqn:Ha; unfold session_of in Ht; rewrite Ha in Ht.
  - unfold run_ok in Hd. rewrite Ha in Hd. specialize (Hd ltac:(done)).
    destruct (recovering a) eqn:Hr.
    { unfold iter_recovering. case_match; intros [[= <-]|[=]]; split; cbn; rewrite ?Hr; try by intros ?.
      - eapply session_trace_snoc; [done|constructor].
      - exact Ht.
      - intros a' [= <-] _. exact (Hx a Ha Hr). }
    destruct (_ && _ && _) eqn:Hcond.
    + intros [[=]|[= <-]]. split; cbn; [|by intros ?..].
      destruct (saw_exit a); [|done]. eapply session_trace_snoc; [done|constructor].
    + intros [Hc|Hc]; [by eapply iter_control_traced|].
      unfold iter_control in Hc. by repeat case_match.
  - unfold iter_direct. case_match; case_bool_decide.
    + destruct (start_connection _ _) as [[r' evs']|e] eqn:Hstart; intros [[= <-]|[=]].
      split; [|done|]; simpl.
      * eapply start_connection_traced; [|done]. by apply session_trace_emit.
      * revert Hstart. unfold start_connection. rewrite parser_push_marker. case_match; [|done].
        by intros [= <- <-] a [= <-].
    + intros [[= <-]|[=]]. split; unfold run_ok, session_of, exit_ok; cbn; by rewrite Ha.
    + intros [[= <-]|[=]]. split; unfold run_ok, session_of, exit_ok; cbn; by rewrite Ha.
    + intros [[=]|[= <-]]. split; unfold run_ok, session_of, exit_ok; cbn; by rewrite Ha.
Qed.

Lemma gateway_run_traced s0 input s s' :
  traced s0 s → gateway_run input s = Ok s' → traced s0 s'.
Proof.
  revert s; induction input as [|b input IH]; intros s Hs; simpl; [by intros [= <-]|].
  destruct (gateway_byte b s) as [s1|s1|] eqn:Hb; [|by apply gateway_byte_settles in Hb|done].
  intros H. apply (IH s1); [|done]. revert Hb. unfold gateway_byte.
  destruct (gateway_iter b s) as [t|t|] eqn:H1; [intros [= ->]|..|done].
  { eapply gateway_iter_traced; eauto. }
  assert (traced s0 t) by (eapply gateway_iter_traced; eauto).
  destruct (gateway_iter b t) as [u|u|] eqn:H2; [intros [= ->]|..|done].
  { eapply (gateway_iter_traced _ _ t); eauto. }
  assert (traced s0 u) by (eapply (gateway_iter_traced _ _ t); eauto).
  intros Hu. eapply (gateway_iter_traced _ _ u); eauto.
Qed.

Inductive gateway_op := GPush (input : bytes) | GFinishTransport | GExpireTermination.

(** A successful operation of the router, with the events it reports. *)
Inductive gateway_step : TmuxGatewayRouter → gateway_op → list GatewayEvent → TmuxGatewayRouter → Prop :=
| gstep_push r input r' evs :
    gateway_push input r = Some (r', Ok evs) → gateway_step r (GPush input) evs r'
| gstep_finish r : gateway_step r GFinishTransport (finish_transport r).2 (finish_transport r).1
| gstep_expire r : gateway_step r GExpireTermination (expire_termination r).2 (expire_termination r).1.

Inductive gateway_steps : TmuxGatewayRouter → list GatewayEvent → TmuxGatewayRouter → Prop :=
| gsteps_nil r : gateway_steps r [] r
| gsteps_cons r1 op l1 r2 l2 r3 :
    gateway_step r1 op l1 r2 → gateway_steps r2 l2 r3 → gateway_steps r1 (l1 ++ l2) r3.

Lemma gateway_step_traced r op evs r' :
  exit_ok r → gateway_step r op evs r' → session_trace (session_of r) evs (session_of r') ∧ exit_ok r'.
Proof.
  intros Hx H. destruct H as [r input r' evs Hp|r|r].
  - rewrite gateway_push_run in Hp. destruct (gateway_run _ _) as [s|[]] eqn:Hrun; [|done].
    injection Hp as <- <-.
    apply (gateway_run_traced (session_of r)) in Hrun as [Ht Hd Hx'].
    + split; [|done]. unfold emit_direct. case_bool_decide as Hdir; [done|].
      eapply session_trace_snoc; [done|]. unfold run_ok in Hd. unfold session_of.
      destruct (active (router s)); [by exfalso; apply Hdir, Hd|constructor].
    + split; [constructor|by intros ?|done].
  - unfold finish_transport, session_of. destruct (active r) as [a|] eqn:Ha; simpl.
    + split; [|by intros ?].
      destruct (recovering a), (saw_exit a); (econstructor; [|constructor]); constructor.
    + split; [|intros a; simpl; by rewrite Ha].
      rewrite Ha.
      case_bool_decide; econstructor; constructor.
  - unfold expire_termination. destruct (active r) as [a|] eqn:Ha; simpl; [|by split; [constructor|]].
    destruct (saw_exit a) eqn:He; simpl; [|by split; [constructor|]].
    split; [|by intros ?]. unfold session_of. rewrite Ha. simpl. econstructor; [|constructor].
    destruct (recovering a) eqn:Hr; [|rewrite He; constructor].
    specialize (Hx a Ha Hr). congruence.
Qed.

(** C2. Session protocol: in any sequence of chunks, transport ends and
    terminator timeouts, the events form complete sessions: one connection at
    a time, control events only inside the connection they name, each
    connection closed exactly once, as ended only after [%exit] was seen or
    while recovering, and direct output only between connections. *)
Theorem router_refines_session_protocol id evs r' :
  gateway_steps (with_first_connection_id id) evs r' →
  session_trace SClosed evs (session_of r').
Proof.
  intros H. change SClosed with (session_of (with_first_connection_id id)).
  assert (exit_ok (with_first_connection_id id)) as Hx by by intros ?.
  induction H as [r|r1 op l1 r2 l2 r3 Hs _ IH]; [constructor|].
  apply gateway_step_traced in Hs as [Ht Hx2]; [|done].
  eapply session_trace_app; [done|auto].
Qed.

Lemma router_refines_session_protocol_witness :
  session_trace SClosed
    [DirectOutput (bs "$ "); ConnectionStarted 1; Control 1 Started; Control 1 (Exit None);
     ConnectionFailed 1 MissingTerminator; DirectOutput (bs "x")] SClosed.
Proof.
  pose proof (router_refines_session_protocol 1
    ([DirectOutput (bs "$ "); ConnectionStarted 1; Control 1 Started; Control 1 (Exit None);
      ConnectionFailed 1 MissingTerminator; DirectOutput (bs "x")] ++ [])
    (with_first_connection_id 1)) as H.
  apply H. eapply gsteps_cons; [|constructor].
  apply (gstep_push _ (bs "$ " ++ marker ++ bs "%exit" ++ [LF] ++ bs "x")).
  vm_compute. reflexivity.
Defined.
