(* ===== verification/TmuxLifecycle.v ===== *)
(** Ownership of nested tmux connections ([src/src/tmux_lifecycle.rs]).

    [ConnectionHierarchy] is the map from a connection to the transport it was
    discovered on.  A [BTreeMap] is a [gmap] iterated in key order
    ([btree_keys]).  The recursion of [collect_descendants] is bounded by
    [MAX_CONNECTION_DEPTH]; [collect_descendants] returns [None] when that is
    not enough, and the theorems show that it is for every reachable
    hierarchy. *)

From S2P Require Import Prelude.
Local Open Scope N_scope.

(** * Data *)

Definition MAX_CONNECTIONS : nat := 4096.
Definition MAX_CONNECTION_DEPTH : nat := 64.

Inductive GatewayOrigin :=
| Direct
| Pane (parent_connection_id session_id window_id pane_id : N).
#[export] Instance GatewayOrigin_eq_dec : EqDecision GatewayOrigin.
Proof. solve_decision. Defined.

Inductive GatewayControlAction := GracefulDetach | ForceAbandon.

Definition requires_confirmation (a : GatewayControlAction) : bool :=
  match a with ForceAbandon => true | GracefulDetach => false end.
Definition transport_bytes (a : GatewayControlAction) : option bytes :=
  match a with GracefulDetach => None | ForceAbandon => Some [28] end.

Inductive LifecycleError := DuplicateConnection | MissingParent | TooManyConnections | TooDeep.

Abbreviation ConnectionHierarchy := (gmap N GatewayOrigin).

(** * Operations *)

(** The ancestor loop of [insert]: [remaining] is [MAX_CONNECTION_DEPTH - depth]. *)
Fixpoint check_ancestors (origins : ConnectionHierarchy) (remaining : nat) (ancestor : N)
    : result LifecycleError unit :=
  match remaining with
  | O => Err TooDeep
  | S remaining =>
      match origins !! ancestor with
      | Some Direct => Ok ()
      | Some (Pane parent _ _ _) => check_ancestors origins remaining parent
      | None => Err MissingParent
      end
  end.

Definition insert_connection (connection_id : N) (origin : GatewayOrigin)
    (origins : ConnectionHierarchy) : ConnectionHierarchy * result LifecycleError unit :=
  if bool_decide (is_Some (origins !! connection_id)) then (origins, Err DuplicateConnection)
  else if bool_decide (size origins = MAX_CONNECTIONS) then (origins, Err TooManyConnections)
  else
    match
      match origin with
      | Direct => Ok ()
      | Pane parent _ _ _ =>
          if bool_decide (parent = connection_id) || negb (bool_decide (is_Some (origins !! parent)))
          then Err MissingParent
          else check_ancestors origins (MAX_CONNECTION_DEPTH - 1) parent
      end
    with
    | Ok _ => (<[connection_id := origin]> origins, Ok ())
    | Err e => (origins, Err e)
    end.

Definition contains (connection_id : N) (origins : ConnectionHierarchy) : bool :=
  bool_decide (is_Some (origins !! connection_id)).
Definition connection_count (origins : ConnectionHierarchy) : nat := size origins.
Definition is_empty (origins : ConnectionHierarchy) : bool := bool_decide (size origins = 0%nat).
Definition connection_origin (connection_id : N) (origins : ConnectionHierarchy) : option GatewayOrigin :=
  origins !! connection_id.

Definition is_child_of (origins : ConnectionHierarchy) (parent id : N) : bool :=
  match origins !! id with Some (Pane p _ _ _) => bool_decide (p = parent) | _ => false end.

Definition children (origins : ConnectionHierarchy) (parent : N) : list N :=
  List.filter (is_child_of origins parent) (btree_keys origins).

Fixpoint collect_descendants (fuel : nat) (origins : ConnectionHierarchy) (parent : N)
    : option (list N) :=
  match fuel with
  | O => None
  | S fuel =>
      mjoin <$> mapM (λ child, (.++ [child]) <$> collect_descendants fuel origins child)
                   (children origins parent)
  end.

Definition teardown_order (connection_id : N) (origins : ConnectionHierarchy) : option (list N) :=
  if bool_decide (is_Some (origins !! connection_id)) then
    (.++ [connection_id]) <$> collect_descendants MAX_CONNECTION_DEPTH origins connection_id
  else Some [].

Definition remove_all (ids : list N) (origins : ConnectionHierarchy) : ConnectionHierarchy :=
  foldr delete origins ids.

Definition remove_connection (connection_id : N) (origins : ConnectionHierarchy)
    : option (ConnectionHierarchy * list N) :=
  if bool_decide (is_Some (origins !! connection_id)) then
    descendants ← collect_descendants MAX_CONNECTION_DEPTH origins connection_id;
    let removed := descendants ++ [connection_id] in
    Some (remove_all removed origins, removed)
  else Some (origins, []).

(** [removed.retain(|id| unique.insert(id))]: the first occurrence of each id. *)
Fixpoint retain_unique (seen : list N) (l : list N) : list N :=
  match l with
  | [] => []
  | x :: l => if bool_decide (x ∈ seen) then retain_unique seen l
              else x :: retain_unique (x :: seen) l
  end.

Fixpoint collect_roots (roots : list N) (origins : ConnectionHierarchy) : option (list N) :=
  match roots with
  | [] => Some []
  | root :: roots =>
      if bool_decide (is_Some (origins !! root)) then
        descendants ← collect_descendants MAX_CONNECTION_DEPTH origins root;
        rest ← collect_roots roots origins;
        Some (descendants ++ [root] ++ rest)
      else collect_roots roots origins
  end.

Definition remove_roots (roots : list N) (origins : ConnectionHierarchy)
    : option (ConnectionHierarchy * list N) :=
  collected ← collect_roots roots origins;
  let removed := retain_unique [] collected in
  Some (remove_all removed origins, removed).

Definition in_pane (parent pane : N) (o : GatewayOrigin) : bool :=
  match o with Pane p _ _ q => bool_decide (p = parent) && bool_decide (q = pane) | Direct => false end.
Definition in_window (parent window : N) (o : GatewayOrigin) : bool :=
  match o with Pane p _ w _ => bool_decide (p = parent) && bool_decide (w = window) | Direct => false end.

Definition matching (f : GatewayOrigin → bool) (origins : ConnectionHierarchy) : list N :=
  List.filter (λ id, match origins !! id with Some o => f o | None => false end) (btree_keys origins).

Definition remove_gateway_pane (parent pane : N) (origins : ConnectionHierarchy) :=
  remove_roots (matching (in_pane parent pane) origins) origins.
Definition remove_gateway_window (parent window : N) (origins : ConnectionHierarchy) :=
  remove_roots (matching (in_window parent window) origins) origins.

(** * Well-formed hierarchies *)

Section hierarchy.
Context (m : ConnectionHierarchy).

(** [rooted id n]: [n] steps up from [id] lead to a direct connection. *)
Inductive rooted : N → nat → Prop :=
| rooted_direct id : m !! id = Some Direct → rooted id 0
| rooted_pane id p s w q n : m !! id = Some (Pane p s w q) → rooted p n → rooted id (S n).

(** [descends x y]: [y] is a proper ancestor of [x]. *)
Inductive descends : N → N → Prop :=
| descends_child x s w q y : m !! x = Some (Pane y s w q) → descends x y
| descends_step x z s w q y : m !! x = Some (Pane z s w q) → descends z y → descends x y.

Definition below (x y : N) : Prop := x = y ∨ descends x y.

Record hierarchy_wf : Prop := {
  wf_rooted : ∀ id, is_Some (m !! id) → ∃ n, rooted id n ∧ (n < MAX_CONNECTION_DEPTH)%nat;
  wf_size : (size m ≤ MAX_CONNECTIONS)%nat
}.

Lemma is_child_of_spec p id :
  is_child_of m p id = true ↔ ∃ s w q, m !! id = Some (Pane p s w q).
Proof.
  unfold is_child_of. split.
  - repeat case_match; try done. rewrite bool_decide_eq_true. intros ->. eauto.
  - intros (s & w & q & ->). by rewrite bool_decide_eq_true.
Qed.

Lemma elem_of_children p id : id ∈ children m p ↔ ∃ s w q, m !! id = Some (Pane p s w q).
Proof.
  unfold children. rewrite elem_of_Filter, elem_of_btree_keys, is_child_of_spec. naive_solver.
Qed.

Lemma NoDup_children p : NoDup (children m p).
Proof. apply NoDup_Filter, NoDup_btree_keys. Qed.

Lemma rooted_unique id n1 n2 : rooted id n1 → rooted id n2 → n1 = n2.
Proof.
  intros H. revert n2. induction H as [id Hid|id p s w q n Hid Hp IH]; intros n2 H2; inv H2; try congruence.
  f_equal. apply IH. congruence.
Qed.

Lemma rooted_dom id n : rooted id n → is_Some (m !! id).
Proof. by inversion 1; eexists. Qed.

Lemma descends_rooted x y n : descends x y → rooted x n → ∃ k, rooted y k ∧ (k < n)%nat.
Proof.
  intros H. revert n. induction H as [x s w q y Hx|x z s w q y Hx Hz IH]; intros n Hr;
    inv Hr; simplify_eq; try congruence.
  - eauto with lia.
  - destruct (IH _ ltac:(eassumption)) as (k & ? & ?). eauto with lia.
Qed.

Lemma descends_irrefl x n : rooted x n → ¬ descends x x.
Proof.
  intros Hr Hd. destruct (descends_rooted _ _ _ Hd Hr) as (k & Hk & Hlt).
  pose proof (rooted_unique _ _ _ Hr Hk). lia.
Qed.

Lemma descends_trans x y z : descends x y → descends y z → descends x z.
Proof. induction 1; eauto using descends. Qed.

(** Descent seen from the ancestor. *)
Lemma descends_via_child x p :
  descends x p ↔ ∃ c, c ∈ children m p ∧ below x c.
Proof.
  split.
  - induction 1 as [x s w q p Hx|x z s w q p Hx Hz IH].
    + exists x. split; [apply elem_of_children; eauto|by left].
    + destruct IH as (c & Hc & Hb). exists c. split; [done|]. right.
      destruct Hb as [->|Hb]; [by eapply descends_child|by eapply descends_step].
  - intros (c & (s & w & q & Hc)%elem_of_children & [->|Hb]); [by eapply descends_child|].
    eapply descends_trans; [done|by eapply descends_child].
Qed.

(** The ancestors of a connection form a chain. *)
Lemma below_same_depth x c1 c2 n :
  below x c1 → below x c2 → rooted c1 n → rooted c2 n → c1 = c2.
Proof.
  intros H1 H2 Hr1 Hr2.
  assert (∀ u v, descends u v → rooted u n → rooted v n → False) as Hno.
  { intros u v Huv Hu Hv. destruct (descends_rooted _ _ _ Huv Hu) as (k & Hk & ?).
    pose proof (rooted_unique _ _ _ Hv Hk). lia. }
  destruct H1 as [->|H1]; [destruct H2 as [->|H2]; [done|exfalso; eauto]|].
  revert H2. induction H1 as [x s w q c1 Hx|x z s w q c1 Hx Hz IH]; intros [->|H2].
  - exfalso. eauto using descends.
  - inv H2; simplify_eq; [done|]. exfalso. eauto.
  - exfalso. eauto using descends.
  - inv H2; simplify_eq; [exfalso; eauto|]. apply IH; [done|by right].
Qed.

(** A list in which every element comes after all its descendants. *)
Definition postorder (l : list N) : Prop :=
  ∀ l1 y l2, l = l1 ++ y :: l2 → ∀ x, descends x y → x ∈ l1.

Lemma postorder_nil : postorder [].
Proof. by intros [|??] y l2 [=]. Qed.

Lemma postorder_app l l' : postorder l → postorder l' → postorder (l ++ l').
Proof.
  intros Hl Hl' l1 y l2 Heq x Hx.
  apply app_eq_inv in Heq as [(k & -> & Hk)|(k & -> & Hk)].
  - destruct k as [|z k]; simpl in Hk; [|injection Hk as <- _].
    + exfalso. subst l'. apply (Hl' [] y l2 eq_refl) in Hx. by apply elem_of_nil in Hx.
    + by apply (Hl l1 y k).
  - apply elem_of_app. right. by apply (Hl' k y l2).
Qed.

Lemma postorder_snoc l y : postorder l → (∀ x, descends x y → x ∈ l) → postorder (l ++ [y]).
Proof.
  intros Hl Hy l1 z l2 Heq x Hx. destruct l2 as [|z2 l2 _] using rev_ind.
  - apply app_inj_tail in Heq as [-> ->]. auto.
  - rewrite app_comm_cons, app_assoc in Heq. apply app_inj_tail in Heq as [-> ->].
    by apply (Hl l1 z l2).
Qed.

Lemma postorder_mjoin ls : Forall postorder ls → postorder (mjoin ls).
Proof. induction 1; [apply postorder_nil|]. by apply postorder_app. Qed.

Lemma collect_inv fuel p l :
  collect_descendants fuel m p = Some l →
  ∃ fuel' ks, fuel = S fuel' ∧ l = mjoin ks ∧
    Forall2 (λ c k, ∃ d, collect_descendants fuel' m c = Some d ∧ k = d ++ [c]) (children m p) ks.
Proof.
  destruct fuel as [|fuel]; [done|]. simpl. intros (ks & Hks & ->)%fmap_Some.
  exists fuel, ks. split_and!; [done..|]. apply mapM_Some in Hks.
  eapply Forall2_impl; [done|]. intros c k (d & Hd & ->)%fmap_Some. eauto.
Qed.

Lemma collect_elem_of fuel p l x :
  collect_descendants fuel m p = Some l → x ∈ l ↔ descends x p.
Proof.
  revert p l x. induction fuel as [|fuel IH]; intros p l x; [done|].
  intros (? & ks & [= <-] & -> & Hks)%collect_inv.
  rewrite descends_via_child, list_elem_of_join. split.
  - intros (k & Hx & Hk). apply list_elem_of_lookup in Hk as [i Hi].
    destruct (Forall2_lookup_r _ _ _ _ _ Hks Hi) as (c & Hc & d & Hd & ->).
    exists c. split; [by eapply list_elem_of_lookup_2|].
    apply elem_of_app in Hx as [Hx|Hx%list_elem_of_singleton]; [right|by left]. by eapply IH.
  - intros (c & Hc & Hb). apply list_elem_of_lookup in Hc as [i Hi].
    destruct (Forall2_lookup_l _ _ _ _ _ Hks Hi) as (k & Hk & d & Hd & ->).
    exists (d ++ [c]). split; [|by eapply list_elem_of_lookup_2].
    apply elem_of_app. destruct Hb as [->|Hb]; [right; by apply list_elem_of_singleton|left].
    by eapply IH.
Qed.

Lemma mjoin_NoDup (P : N → N → Prop) cs ks :
  Forall2 (λ c k, NoDup k ∧ ∀ x, x ∈ k → P c x) cs ks → NoDup cs →
  (∀ c1 c2 x, c1 ∈ cs → c2 ∈ cs → P c1 x → P c2 x → c1 = c2) → NoDup (mjoin ks).
Proof.
  induction 1 as [|c k cs ks [Hnd HP] Hks IH]; intros Hcs Hdis; [constructor|].
  apply NoDup_cons in Hcs as [Hc Hcs]. apply NoDup_app. split_and!; [done| |].
  - intros x Hx (k' & Hx' & Hk')%list_elem_of_join.
    apply list_elem_of_lookup in Hk' as [i Hi].
    destruct (Forall2_lookup_r _ _ _ _ _ Hks Hi) as (c' & Hc' & _ & HP').
    apply list_elem_of_lookup_2 in Hc'.
    apply Hc. rewrite (Hdis c c' x (list_elem_of_here _ _) (list_elem_of_further _ _ _ Hc')); auto.
  - apply IH; [done|]. intros c1 c2 x H1 H2. apply Hdis; by apply list_elem_of_further.
Qed.

Lemma collect_NoDup fuel p l n :
  rooted p n → collect_descendants fuel m p = Some l → NoDup l.
Proof.
  revert p l n. induction fuel as [|fuel IH]; intros p l n Hr; [done|].
  intros (? & ks & [= <-] & -> & Hks)%collect_inv.
  assert (∀ c, c ∈ children m p → rooted c (S n)) as Hch.
  { intros c (s & w & q & Hc)%elem_of_children. by eapply rooted_pane. }
  apply (mjoin_NoDup (λ c x, below x c) (children m p)).
  - apply Forall2_same_length_lookup_2; [by eapply Forall2_length|].
    intros i c k Hc Hk. destruct (Forall2_lookup_lr _ _ _ _ _ _ Hks Hc Hk) as (d & Hd & ->).
    apply list_elem_of_lookup_2 in Hc. split.
    + apply NoDup_app. split_and!; [eapply IH; [by apply Hch|done]| |apply NoDup_singleton].
      intros x Hx ->%list_elem_of_singleton.
      eapply collect_elem_of in Hx; [|done]. by eapply descends_irrefl; [apply Hch|].
    + intros x [Hx|Hx%list_elem_of_singleton]%elem_of_app; [right|by left].
      by eapply collect_elem_of.
  - apply NoDup_children.
  - intros c1 c2 x H1 H2 Hb1 Hb2. by eapply (below_same_depth x c1 c2 (S n)); auto.
Qed.

Lemma collect_postorder fuel p l : collect_descendants fuel m p = Some l → postorder l.
Proof.
  revert p l. induction fuel as [|fuel IH]; intros p l; [done|].
  intros (? & ks & [= <-] & -> & Hks)%collect_inv. apply postorder_mjoin.
  eapply Forall2_Forall_r; [done|]. apply Forall_forall. intros c _ k (d & Hd & ->).
  apply postorder_snoc; [by eapply IH|]. intros x Hx. by eapply collect_elem_of.
Qed.

(** The recursion is never deeper than the hierarchy. *)
Lemma collect_total fuel p n :
  hierarchy_wf → rooted p n → (MAX_CONNECTION_DEPTH ≤ fuel + n)%nat →
  is_Some (collect_descendants fuel m p).
Proof.
  intros Hwf. revert p n. induction fuel as [|fuel IH]; intros p n Hr Hf.
  { destruct (wf_rooted Hwf p (rooted_dom _ _ Hr)) as (n' & Hr' & ?).
    pose proof (rooted_unique _ _ _ Hr Hr'). lia. }
  simpl. apply fmap_is_Some, mapM_is_Some, Forall_forall.
  intros c (s & w & q & Hc)%elem_of_children. apply fmap_is_Some. apply (IH c (S n)); [|lia].
  by eapply rooted_pane.
Qed.

End hierarchy.

(** * Insertion *)

Lemma rooted_insert m id o p n :
  m !! id = None → rooted m p n → rooted (<[id := o]> m) p n.
Proof.
  intros Hid. induction 1 as [p Hp|p r s w q n Hp Hr IH].
  - constructor. rewrite lookup_insert_ne; congruence.
  - econstructor; [|done]. rewrite lookup_insert_ne; [done|congruence].
Qed.

Lemma check_ancestors_spec m remaining a r :
  check_ancestors m remaining a = r →
  match r with
  | Ok _ => ∃ n, rooted m a n ∧ (n < remaining)%nat
  | Err TooDeep => ∀ n, rooted m a n → (remaining ≤ n)%nat
  | Err _ => ∀ n, ¬ rooted m a n
  end.
Proof.
  intros <-. revert a. induction remaining as [|k IH]; intros a; simpl; [lia|].
  destruct (m !! a) as [[|p s w q]|] eqn:Ha.
  - exists 0%nat. split; [by constructor|lia].
  - specialize (IH p). destruct (check_ancestors m k p) as [u|[]].
    + destruct IH as (n & Hn & ?). exists (S n). split; [by eapply rooted_pane|lia].
    + intros n Hn. inv Hn; simplify_eq; by eapply IH.
    + intros n Hn. inv Hn; simplify_eq; by eapply IH.
    + intros n Hn. inv Hn; simplify_eq; by eapply IH.
    + intros n Hn. inv Hn; simplify_eq.
      match goal with X : rooted _ _ _ |- _ => apply IH in X end. lia.
  - intros n Hn. inv Hn; congruence.
Qed.

(** The parent an origin needs and how deep it may be. *)
Definition parent_ok (m : ConnectionHierarchy) (id : N) (o : GatewayOrigin) : Prop :=
  match o with
  | Direct => True
  | Pane p _ _ _ => p ≠ id ∧ ∃ n, rooted m p n ∧ (S n < MAX_CONNECTION_DEPTH)%nat
  end.

Lemma insert_connection_ok id o m m' u :
  insert_connection id o m = (m', Ok u) →
  m' = <[id := o]> m ∧ m !! id = None ∧ size m ≠ MAX_CONNECTIONS ∧ parent_ok m id o.
Proof.
  unfold insert_connection. repeat (case_bool_decide; [done|]).
  assert (m !! id = None) by by apply eq_None_not_Some. destruct o as [|p s w q]; cbn [parent_ok].
  { by intros [= <- _]. }
  destruct (bool_decide (p = id) || _) eqn:Hp; [done|].
  apply orb_false_elim in Hp as [Hp%bool_decide_eq_false _].
  destruct (check_ancestors m (MAX_CONNECTION_DEPTH - 1) p) as [|e] eqn:Hc; [|done].
  apply check_ancestors_spec in Hc as (n & Hn & ?). intros [= <- _].
  split_and!; [done..|]. exists n. split; [done|]. lia.
Qed.

Lemma insert_connection_wf id o m : hierarchy_wf m → hierarchy_wf (insert_connection id o m).1.
Proof.
  intros Hwf. destruct (insert_connection id o m) as [m' [u|e]] eqn:Hins; simpl.
  2:{ revert Hins. unfold insert_connection. repeat case_match; by intros [= <- _]. }
  apply insert_connection_ok in Hins as (-> & Hid & Hsize & Hparent).
  destruct Hwf as [Hroot Hle]. split.
  - intros k Hk. destruct (decide (k = id)) as [->|Hne].
    + destruct o as [|p s w q].
      * exists 0%nat. split; [|unfold MAX_CONNECTION_DEPTH; lia]. constructor. by rewrite lookup_insert_eq.
      * destruct Hparent as (Hpid & n & Hn & Hlt). exists (S n). split; [|done].
        eapply rooted_pane; [by rewrite lookup_insert_eq|]. by apply rooted_insert.
    + rewrite lookup_insert_ne in Hk by done. destruct (Hroot k Hk) as (n & Hn & ?).
      exists n. split; [|done]. by apply rooted_insert.
  - rewrite map_size_insert_None by done. lia.
Qed.

(** * Removal *)

Lemma lookup_remove_all ids m k :
  remove_all ids m !! k = if bool_decide (k ∈ ids) then None else m !! k.
Proof.
  induction ids as [|id ids IH]; simpl; [done|].
  destruct (decide (id = k)) as [->|Hne].
  - rewrite lookup_delete_eq, bool_decide_eq_true_2 by set_solver. done.
  - rewrite lookup_delete_ne, IH by done. by repeat case_bool_decide; set_solver.
Qed.

Lemma size_remove_all ids m : (size (remove_all ids m) ≤ size m)%nat.
Proof.
  induction ids as [|id ids IH]; simpl; [done|].
  etrans; [|exact IH]. apply map_subseteq_size, delete_subseteq.
Qed.

Definition closed_down (m : ConnectionHierarchy) (ids : list N) : Prop :=
  ∀ x y, y ∈ ids → descends m x y → x ∈ ids.

Lemma remove_all_wf ids m : hierarchy_wf m → closed_down m ids → hierarchy_wf (remove_all ids m).
Proof.
  intros [Hroot Hsize] Hcl. split; [|etrans; [apply size_remove_all|done]].
  intros k [o Hk]. rewrite lookup_remove_all in Hk. case_bool_decide as Hin; [done|].
  destruct (Hroot k (ex_intro _ o Hk)) as (n & Hn & Hlt). exists n. split; [|done].
  clear Hk Hlt o. induction Hn as [k Hk|k p s w q n Hk Hp IH].
  - constructor. by rewrite lookup_remove_all, bool_decide_eq_false_2.
  - eapply rooted_pane; [by rewrite lookup_remove_all, bool_decide_eq_false_2|].
    apply IH. intros Hin'. apply Hin, (Hcl k p); [done|]. by eapply descends_child.
Qed.

Lemma collect_closed_down m fuel id l :
  collect_descendants fuel m id = Some l → closed_down m (l ++ [id]).
Proof.
  intros Hc x y [Hy|Hy%list_elem_of_singleton]%elem_of_app Hxy; apply elem_of_app; left;
    rewrite (collect_elem_of m _ _ _ x Hc).
  - eapply descends_trans; [done|]. by rewrite <-(collect_elem_of m _ _ _ y Hc).
  - by subst.
Qed.

Lemma wf_collect m id :
  hierarchy_wf m → is_Some (m !! id) → ∃ l, collect_descendants MAX_CONNECTION_DEPTH m id = Some l
    ∧ NoDup (l ++ [id]) ∧ postorder m (l ++ [id]) ∧ ∀ x, x ∈ l ++ [id] ↔ below m x id.
Proof.
  intros Hwf Hid. destruct (wf_rooted m Hwf id Hid) as (n & Hn & Hlt).
  destruct (collect_total m MAX_CONNECTION_DEPTH id n Hwf Hn) as [l Hl]; [lia|].
  exists l. pose proof (λ x, collect_elem_of m _ _ _ x Hl) as Hin. split_and!; [done| | |].
  - apply NoDup_app. split_and!; [by eapply collect_NoDup| |apply NoDup_singleton].
    intros x Hx ->%list_elem_of_singleton. apply Hin in Hx. by eapply descends_irrefl.
  - apply postorder_snoc; [by eapply collect_postorder|]. intros x. apply Hin.
  - intros x. rewrite elem_of_app, list_elem_of_singleton, Hin. unfold below. tauto.
Qed.

Lemma remove_connection_total m id : hierarchy_wf m → is_Some (remove_connection id m).
Proof.
  intros Hwf. unfold remove_connection. case_bool_decide as Hid; [|by eexists].
  destruct (wf_collect m id Hwf Hid) as (l & -> & _). by eexists.
Qed.

Lemma teardown_total m id : hierarchy_wf m → is_Some (teardown_order id m).
Proof.
  intros Hwf. unfold teardown_order. case_bool_decide as Hid; [|by eexists].
  destruct (wf_collect m id Hwf Hid) as (l & -> & _). by eexists.
Qed.

Lemma retain_unique_NoDup seen l :
  NoDup l → (∀ x, x ∈ l → x ∉ seen) → retain_unique seen l = l.
Proof.
  intros Hl. revert seen. induction Hl as [|x l Hx Hl IH]; intros seen Hseen; simpl; [done|].
  rewrite bool_decide_eq_false_2 by (apply Hseen; left). f_equal. apply IH.
  intros y Hy [->|Hs]%elem_of_cons; [done|]. by apply (Hseen y); [right|].
Qed.

(** Removal of sibling roots. *)
Definition siblings (m : ConnectionHierarchy) (roots : list N) : Prop :=
  ∃ p, ∀ r, r ∈ roots → ∃ s w q, m !! r = Some (Pane p s w q).

Lemma collect_roots_spec m roots :
  hierarchy_wf m → siblings m roots → NoDup roots →
  ∃ l, collect_roots roots m = Some l ∧ NoDup l ∧ postorder m l ∧
       ∀ x, x ∈ l ↔ ∃ r, r ∈ roots ∧ below m x r.
Proof.
  intros Hwf [p Hsib] Hnd. induction Hnd as [|r roots Hr Hnd IH].
  { exists []. split_and!; [done|constructor|apply postorder_nil|]. set_solver. }
  destruct IH as (rest & Hrest & Hndr & Hpost & Hin); [intros; apply Hsib; by right|].
  destruct (Hsib r (list_elem_of_here _ _)) as (s & w & q & Hroot).
  destruct (wf_collect m r Hwf (ex_intro _ _ Hroot)) as (l & Hl & Hndl & Hpostl & Hinl).
  exists ((l ++ [r]) ++ rest). cbn [collect_roots]. rewrite bool_decide_eq_true_2 by by eexists.
  rewrite Hl. cbn. rewrite Hrest. split_and!; [by rewrite <-app_assoc| | |].
  - apply NoDup_app. split_and!; [done| |done].
    intros x Hx%Hinl (r' & Hr' & Hx')%Hin. apply Hr.
    destruct (Hsib r' (list_elem_of_further _ _ _ Hr')) as (s' & w' & q' & Hroot').
    destruct (wf_rooted m Hwf r (ex_intro _ _ Hroot)) as (n & Hn & _).
    assert (r = r') as ->; [|done]. apply (below_same_depth m x r r' n); [done..|].
    inv Hn; simplify_eq. by eapply rooted_pane.
  - by apply postorder_app.
  - intros x. rewrite elem_of_app, Hinl, Hin. set_solver.
Qed.

(** What a destroyed pane or window must remove. *)
Definition removes_exactly (f : GatewayOrigin → bool) (m : ConnectionHierarchy)
    (r : option (ConnectionHierarchy * list N)) : Prop :=
  ∃ m' removed, r = Some (m', removed) ∧ hierarchy_wf m' ∧ NoDup removed ∧ postorder m removed ∧
    (∀ x, x ∈ removed ↔ ∃ root o, m !! root = Some o ∧ f o = true ∧ below m x root) ∧
    (∀ k, m' !! k = if bool_decide (k ∈ removed) then None else m !! k).

Lemma elem_of_matching f m id : id ∈ matching f m ↔ ∃ o, m !! id = Some o ∧ f o = true.
Proof.
  unfold matching. rewrite elem_of_Filter, elem_of_btree_keys.
  destruct (m !! id) as [o|]; naive_solver.
Qed.

Lemma remove_matching f m :
  hierarchy_wf m → (∃ p, ∀ o, f o = true → ∃ s w q, o = Pane p s w q) →
  removes_exactly f m (remove_roots (matching f m) m).
Proof.
  intros Hwf [p Hf]. destruct (collect_roots_spec m (matching f m)) as (l & Hl & Hnd & Hpost & Hin).
  - done.
  - exists p. intros r (o & Hr & Ho)%elem_of_matching. destruct (Hf o Ho) as (s & w & q & ->). eauto.
  - apply NoDup_Filter, NoDup_btree_keys.
  - unfold remove_roots. rewrite Hl. simpl.
    rewrite retain_unique_NoDup by set_solver.
    exists (remove_all l m), l. split_and!; [done| |done|done| |].
    + apply remove_all_wf; [done|]. intros x y (r & Hr & Hy)%Hin Hxy. apply Hin.
      exists r. split; [done|]. right. destruct Hy as [->|Hy]; [done|by eapply descends_trans].
    + intros x. rewrite Hin. setoid_rewrite elem_of_matching. naive_solver.
    + intros k. apply lookup_remove_all.
Qed.

Lemma in_pane_pane parent pane o :
  in_pane parent pane o = true → ∃ s w q, o = Pane parent s w q.
Proof. destruct o; simpl; [done|]. intros [->%bool_decide_eq_true _]%andb_true_iff. eauto. Qed.

Lemma in_window_pane parent window o :
  in_window parent window o = true → ∃ s w q, o = Pane parent s w q.
Proof. destruct o; simpl; [done|]. intros [->%bool_decide_eq_true _]%andb_true_iff. eauto. Qed.

(** * Reachable hierarchies *)

Inductive hierarchy_step (m : ConnectionHierarchy) : ConnectionHierarchy → Prop :=
| step_insert id o : hierarchy_step m (insert_connection id o m).1
| step_remove id m' removed :
    remove_connection id m = Some (m', removed) → hierarchy_step m m'
| step_pane parent pane m' removed :
    remove_gateway_pane parent pane m = Some (m', removed) → hierarchy_step m m'
| step_window parent window m' removed :
    remove_gateway_window parent window m = Some (m', removed) → hierarchy_step m m'.

Lemma hierarchy_step_wf m m' : hierarchy_step m m' → hierarchy_wf m → hierarchy_wf m'.
Proof.
  destruct 1 as [id o|id m' rm Hr|p q m' rm Hr|p q m' rm Hr]; intros Hwf.
  - by apply insert_connection_wf.
  - revert Hr. unfold remove_connection. case_bool_decide as Hid; [|by intros [= <- _]].
    destruct (wf_collect m id Hwf Hid) as (l & Hl & _). rewrite Hl. intros [= <- _].
    apply remove_all_wf; [done|]. by eapply collect_closed_down.
  - destruct (remove_matching (in_pane p q) m Hwf) as (m2 & rm2 & Heq & ? & _).
    { exists p. apply in_pane_pane. }
    unfold remove_gateway_pane in Hr. congruence.
  - destruct (remove_matching (in_window p q) m Hwf) as (m2 & rm2 & Heq & ? & _).
    { exists p. apply in_window_pane. }
    unfold remove_gateway_window in Hr. congruence.
Qed.

Definition hierarchy_reachable (m : ConnectionHierarchy) : Prop := rtc hierarchy_step ∅ m.

Lemma hierarchy_wf_empty : hierarchy_wf ∅.
Proof. split; [|rewrite map_size_empty; unfold MAX_CONNECTIONS; lia]. intros id [? H]. by rewrite lookup_empty in H. Qed.

Lemma reachable_wf m : hierarchy_reachable m → hierarchy_wf m.
Proof.
  intros H. assert (∀ a b, rtc hierarchy_step a b → hierarchy_wf a → hierarchy_wf b) as Hgen.
  { induction 1; eauto using hierarchy_step_wf. }
  eapply Hgen; [done|]. apply hierarchy_wf_empty.
Qed.

(** * Properties *)

(** C17. Every hierarchy reached from the empty one by insertions and removals is
    a forest of at most [MAX_CONNECTIONS] connections, each at most
    [MAX_CONNECTION_DEPTH] levels deep with all its ancestors present, and on
    such a hierarchy the recursive traversals of tear-down and removal end
    within [MAX_CONNECTION_DEPTH] nested calls. *)
Theorem reachable_hierarchies_are_forests m :
  hierarchy_reachable m →
  (size m ≤ MAX_CONNECTIONS)%nat ∧
  (∀ id, is_Some (m !! id) → ∃ n, rooted m id n ∧ (n < MAX_CONNECTION_DEPTH)%nat) ∧
  (∀ id, is_Some (teardown_order id m) ∧ is_Some (remove_connection id m)) ∧
  (∀ parent x, is_Some (remove_gateway_pane parent x m) ∧ is_Some (remove_gateway_window parent x m)).
Proof.
  intros Hwf%reachable_wf. split_and!; [by destruct Hwf..| |].
  - intros id. split; [by apply teardown_total|by apply remove_connection_total].
  - intros parent x. split.
    + destruct (remove_matching (in_pane parent x) m Hwf) as (? & ? & H & _);
        [exists parent; apply in_pane_pane|by eexists].
    + destruct (remove_matching (in_window parent x) m Hwf) as (? & ? & H & _);
        [exists parent; apply in_window_pane|by eexists].
Qed.

(** Tear-down and removal of a connection visit the connection and exactly
    its descendants, each once, every connection after all the connections
    below it (deepest first, the connection itself last); removal takes
    exactly these out and leaves every other connection where it was. *)
Theorem teardown_is_deepest_first m id :
  hierarchy_reachable m → is_Some (m !! id) →
  ∃ l, teardown_order id m = Some (l ++ [id]) ∧
    NoDup (l ++ [id]) ∧ (∀ x, x ∈ l ↔ descends m x id) ∧ postorder m (l ++ [id]) ∧
    ∃ m', remove_connection id m = Some (m', l ++ [id]) ∧ hierarchy_wf m' ∧
      (∀ k, below m k id → m' !! k = None) ∧ (∀ k, ¬ below m k id → m' !! k = m !! k).
Proof.
  intros Hwf%reachable_wf Hid. destruct (wf_collect m id Hwf Hid) as (l & Hl & Hnd & Hpost & Hin).
  exists l. unfold teardown_order, remove_connection. rewrite bool_decide_eq_true_2, Hl by done.
  split_and!; [done|done| |done|].
  - intros x. by eapply collect_elem_of.
  - exists (remove_all (l ++ [id]) m). split_and!; [done| | |].
    + apply remove_all_wf; [done|]. by eapply collect_closed_down.
    + intros k Hk. by rewrite lookup_remove_all, bool_decide_eq_true_2 by by apply Hin.
    + intros k Hk. by rewrite lookup_remove_all, bool_decide_eq_false_2 by by rewrite Hin.
Qed.

(** When a pane (or a whole window) of a connection is destroyed, the
    connections removed are exactly the ones carried by that pane (window)
    and their descendants, each once and children before parents, and no
    remaining connection loses its parent. *)
Theorem destroyed_transport_orphans_nobody m parent x :
  hierarchy_reachable m →
  removes_exactly (in_pane parent x) m (remove_gateway_pane parent x m) ∧
  removes_exactly (in_window parent x) m (remove_gateway_window parent x m).
Proof.
  intros Hwf%reachable_wf. split; apply remove_matching; try done; exists parent.
  - apply in_pane_pane.
  - apply in_window_pane.
Qed.

(** Each outcome of [insert] happens exactly under its condition (checked in
    the order duplicate, capacity, parent, depth), and an insertion that fails
    leaves the hierarchy alone. *)
Theorem insertion_outcomes m id o :
  hierarchy_reachable m →
  let '(m', r) := insert_connection id o m in
  match r with
  | Err DuplicateConnection => is_Some (m !! id) ∧ m' = m
  | Err TooManyConnections => m !! id = None ∧ size m = MAX_CONNECTIONS ∧ m' = m
  | Err MissingParent =>
      m !! id = None ∧ (size m < MAX_CONNECTIONS)%nat ∧ m' = m ∧
      ∃ p s w q, o = Pane p s w q ∧ m !! p = None
  | Err TooDeep =>
      m !! id = None ∧ (size m < MAX_CONNECTIONS)%nat ∧ m' = m ∧
      ∃ p s w q, o = Pane p s w q ∧ rooted m p (MAX_CONNECTION_DEPTH - 1)
  | Ok _ =>
      m !! id = None ∧ (size m < MAX_CONNECTIONS)%nat ∧ m' = <[id := o]> m ∧
      ∀ p s w q, o = Pane p s w q → ∃ n, rooted m p n ∧ (n < MAX_CONNECTION_DEPTH - 1)%nat
  end.
Proof.
  intros Hwf%reachable_wf. unfold insert_connection.
  case_bool_decide as Hid; [done|]. apply eq_None_not_Some in Hid.
  case_bool_decide as Hsize; [done|].
  assert (size m < MAX_CONNECTIONS)%nat by (pose proof (wf_size m Hwf); lia).
  destruct o as [|p s w q]; [done|].
  destruct (bool_decide (p = id) || _) eqn:Hp.
  { split_and!; [done..|]. exists p, s, w, q. split; [done|].
    apply orb_true_iff in Hp as [->%bool_decide_eq_true|Hp%negb_true_iff%bool_decide_eq_false]; [done|].
    by apply eq_None_not_Some. }
  apply orb_false_elim in Hp as [_ Hp%negb_false_iff%bool_decide_eq_true].
  destruct (wf_rooted m Hwf p Hp) as (n & Hn & Hlt).
  pose proof (check_ancestors_spec m (MAX_CONNECTION_DEPTH - 1) p _ eq_refl) as Hspec.
  destruct (check_ancestors _ _ p) as [u|[]]; cbn zeta iota.
  - split_and!; [done..|]. intros ???? [= <- <- <- <-]. done.
  - by destruct (Hspec n).
  - by destruct (Hspec n).
  - by destruct (Hspec n).
  - split_and!; [done..|]. exists p, s, w, q. split; [done|].
    pose proof (Hspec n Hn). by replace (MAX_CONNECTION_DEPTH - 1)%nat with n by lia.
Qed.

(** * Witnesses *)

(** Connection 2 runs in pane 7 of window 5 of connection 1, and connection 3
    in a pane of connection 2. *)
Definition example_hierarchy : ConnectionHierarchy :=
  (insert_connection 3 (Pane 2 1 1 1)
    (insert_connection 2 (Pane 1 4 5 7)
      (insert_connection 1 Direct ∅).1).1).1.

Lemma example_hierarchy_reachable : hierarchy_reachable example_hierarchy.
Proof. unfold example_hierarchy. do 3 (eapply rtc_r; [|apply step_insert]). apply rtc_refl. Qed.

Lemma reachable_hierarchies_are_forests_witness :
  size example_hierarchy = 3%nat ∧ ∃ n, rooted example_hierarchy 3 n ∧ (n < MAX_CONNECTION_DEPTH)%nat.
Proof.
  split; [by vm_compute|].
  exact (proj1 (proj2 (reachable_hierarchies_are_forests _ example_hierarchy_reachable)) 3 ltac:(by eexists)).
Defined.

Lemma teardown_is_deepest_first_witness :
  teardown_order 1 example_hierarchy = Some [3; 2; 1] ∧
  ∃ l, teardown_order 1 example_hierarchy = Some (l ++ [1]) ∧ NoDup (l ++ [1]).
Proof.
  split; [by vm_compute|].
  destruct (teardown_is_deepest_first _ 1 example_hierarchy_reachable) as (l & Hl & Hnd & _);
    [by eexists|]. exists l. by split.
Defined.

Lemma destroyed_transport_orphans_nobody_witness :
  snd <$> remove_gateway_window 1 5 example_hierarchy = Some [3; 2] ∧
  removes_exactly (in_window 1 5) example_hierarchy (remove_gateway_window 1 5 example_hierarchy).
Proof.
  split; [by vm_compute|].
  exact (proj2 (destroyed_transport_orphans_nobody _ 1 5 example_hierarchy_reachable)).
Defined.

Lemma insertion_outcomes_witness :
  (insert_connection 9 (Pane 8 0 0 0) example_hierarchy).2 = Err MissingParent ∧
  (size example_hierarchy < MAX_CONNECTIONS)%nat.
Proof.
  pose proof (insertion_outcomes _ 9 (Pane 8 0 0 0) example_hierarchy_reachable) as H.
  assert (insert_connection 9 (Pane 8 0 0 0) example_hierarchy
          = (example_hierarchy, Err MissingParent)) as E by (by vm_compute).
  rewrite E in H |- *. split; [done|]. by destruct H as (_ & ? & _).
Defined.
