(* ===== verification/Clipboard.v ===== *)
(** The clipboard ring and the system clipboard ([src/src/clipboard.rs]).

    The ring keeps the newest [INTERNAL_CLIPBOARD_CAPACITY] texts in a
    [VecDeque], oldest first, with [idx] selecting one of them.  The native
    system clipboard (crate [arboard]) is a parameter; the terminal clipboard
    is the OSC 52 sequence queued for the host terminal. *)

From S2P Require Import Prelude.
Local Open Scope N_scope.

Abbreviation text := (list N) (only parsing).

(** * The clipboard ring *)

Definition INTERNAL_CLIPBOARD_CAPACITY : nat := 10.
Definition OSC52_PREFIX : bytes := ESC :: bs "]52;c;".
Definition OSC52_SUFFIX : bytes := ESC :: bs "\".

Inductive ClipboardRegister := Internal | System.
Inductive SystemClipboardProvider := Native | Osc52.

Definition register_to_string (r : ClipboardRegister) : bytes :=
  match r with Internal => [34] | System => bs "+" end.
Definition register_from_str (s : bytes) : option ClipboardRegister :=
  if bool_decide (s = [34]) then Some Internal
  else if bool_decide (s = bs "+") then Some System else None.
Definition provider_to_string (p : SystemClipboardProvider) : bytes :=
  match p with Native => bs "native" | Osc52 => bs "osc52" end.
Definition provider_from_str (s : bytes) : option SystemClipboardProvider :=
  if bool_decide (s = bs "native") then Some Native
  else if bool_decide (s = bs "osc52") then Some Osc52 else None.

Record Clipboard := { clip_idx : nat; clipboards : list text }.

Definition clipboard_default : Clipboard := {| clip_idx := 0; clipboards := [] |}.

Definition clip_size (c : Clipboard) : nat := length (clipboards c).

Definition clip_get (c : Clipboard) : option text := clipboards c !! clip_idx c.

Definition clip_put (t : text) (c : Clipboard) : Clipboard :=
  let kept :=
    if (INTERNAL_CLIPBOARD_CAPACITY <=? clip_size c)%nat then tail (clipboards c) else clipboards c in
  {| clip_idx := length kept; clipboards := kept ++ [t] |}.

Definition clip_prev (c : Clipboard) : Clipboard * bool :=
  if (clip_size c <=? clip_idx c + 1)%nat then (c, false)
  else ({| clip_idx := clip_idx c + 1; clipboards := clipboards c |}, true).

Definition clip_next (c : Clipboard) : Clipboard * bool :=
  if (clip_idx c =? 0)%nat then (c, false)
  else ({| clip_idx := clip_idx c - 1; clipboards := clipboards c |}, true).

Definition clip_index (c : Clipboard) : nat := clip_idx c.

Definition clip_entries (c : Clipboard) : list text := reverse (clipboards c).

Definition selected_index (c : Clipboard) : option nat :=
  match clipboards c with [] => None | _ => Some (clip_size c - clip_idx c)%nat end.

Definition select_index (index : nat) (c : Clipboard) : Clipboard * bool :=
  if ((index =? 0) || (clip_size c <? index))%nat then (c, false)
  else ({| clip_idx := clip_size c - index; clipboards := clipboards c |}, true).

Definition clip_clear (c : Clipboard) : Clipboard := {| clip_idx := 0; clipboards := [] |}.

(** * The system clipboard *)

Definition TABLE : bytes := bs "ABCDEFGHIJKLMNOPQRSTUVWXYZabcdefghijklmnopqrstuvwxyz0123456789+/".

Definition table_at (i : N) : byte := nth (N.to_nat i) TABLE 0.

Definition base64_chunk (chunk : bytes) : bytes :=
  let first := nth 0 chunk 0 in
  let second := nth 1 chunk 0 in
  let third := nth 2 chunk 0 in
  [ table_at (N.shiftr first 2);
    table_at (N.lor (N.shiftl (N.land first 3) 4) (N.shiftr second 4));
    (if (1 <? length chunk)%nat
     then table_at (N.lor (N.shiftl (N.land second 15) 2) (N.shiftr third 6)) else 61);
    (if (2 <? length chunk)%nat then table_at (N.land third 63) else 61) ].

Definition encode_base64 (input : bytes) : bytes := mjoin (base64_chunk <$> chunks 3 input).

Definition osc52_write (t : text) : bytes := OSC52_PREFIX ++ encode_base64 t ++ OSC52_SUFFIX.

Section system.

(** The native clipboard: opening it, and reading, writing and clearing it. *)
Context {Handle Failure : Type}.
Inductive ArboardError := ContentNotAvailable | Other (e : Failure).
Record Arboard := {
  arboard_new : result ArboardError Handle;
  arboard_get_text : Handle → Handle * result ArboardError text;
  arboard_set_text : text → Handle → Handle * result ArboardError unit;
  arboard_clear : Handle → Handle * result ArboardError unit
}.
Inductive ClipboardError :=
| OpenFailed (e : ArboardError)
| ReadFailed (e : ArboardError)
| WriteFailed (e : ArboardError)
| ClearFailed (e : ArboardError)
| Osc52WriteOnly.

Record SystemClipboard := { native : option Handle; pending_terminal_writes : list bytes }.

Definition system_default : SystemClipboard := {| native := None; pending_terminal_writes := [] |}.

Definition set_native (h : Handle) (s : SystemClipboard) : SystemClipboard :=
  {| native := Some h; pending_terminal_writes := pending_terminal_writes s |}.
Definition push_write (b : bytes) (s : SystemClipboard) : SystemClipboard :=
  {| native := native s; pending_terminal_writes := pending_terminal_writes s ++ [b] |}.

Context (lib : Arboard).

(** The handle, opened on first use. *)
Definition open_native (s : SystemClipboard) : result ClipboardError Handle :=
  match native s with
  | Some h => Ok h
  | None => match arboard_new lib with Ok h => Ok h | Err e => Err (OpenFailed e) end
  end.

Definition system_read (p : SystemClipboardProvider) (s : SystemClipboard)
    : SystemClipboard * result ClipboardError (option text) :=
  match p with
  | Native =>
      match open_native s with
      | Err e => (s, Err e)
      | Ok h =>
          let (h', r) := arboard_get_text lib h in
          (set_native h' s,
           match r with
           | Ok t => Ok (Some t)
           | Err ContentNotAvailable => Ok None
           | Err e => Err (ReadFailed e)
           end)
      end
  | Osc52 => (s, Err Osc52WriteOnly)
  end.

Definition system_write (p : SystemClipboardProvider) (t : text) (s : SystemClipboard)
    : SystemClipboard * result ClipboardError unit :=
  match p with
  | Native =>
      match open_native s with
      | Err e => (s, Err e)
      | Ok h =>
          let (h', r) := arboard_set_text lib t h in
          (set_native h' s, match r with Ok _ => Ok () | Err e => Err (WriteFailed e) end)
      end
  | Osc52 => (push_write (osc52_write t) s, Ok ())
  end.

Definition system_clear (p : SystemClipboardProvider) (s : SystemClipboard)
    : SystemClipboard * result ClipboardError unit :=
  match p with
  | Native =>
      match open_native s with
      | Err e => (s, Err e)
      | Ok h =>
          let (h', r) := arboard_clear lib h in
          (set_native h' s, match r with Ok _ => Ok () | Err e => Err (ClearFailed e) end)
      end
  | Osc52 => (push_write (OSC52_PREFIX ++ OSC52_SUFFIX) s, Ok ())
  end.

Definition take_terminal_writes (s : SystemClipboard) : SystemClipboard * list bytes :=
  ({| native := native s; pending_terminal_writes := [] |}, pending_terminal_writes s).

End system.
Arguments ArboardError : clear implicits.
Arguments Arboard : clear implicits.
Arguments ClipboardError : clear implicits.
Arguments SystemClipboard : clear implicits.

(** * The ring as users see it: newest first, with a cursor *)

Record Ring := { ring : list text; cursor : nat }.

Inductive ClipOp := OpPut (t : text) | OpPrev | OpNext | OpSelect (index : nat) | OpClear.

Definition ring_step (op : ClipOp) (r : Ring) : Ring * bool :=
  let at_ i := {| ring := ring r; cursor := i |} in
  match op with
  | OpPut t => ({| ring := take INTERNAL_CLIPBOARD_CAPACITY (t :: ring r); cursor := 0 |}, true)
  | OpPrev => if decide (0 < cursor r)%nat then (at_ (cursor r - 1)%nat, true) else (r, false)
  | OpNext => if decide (cursor r + 1 < length (ring r))%nat then (at_ (cursor r + 1)%nat, true) else (r, false)
  | OpSelect i => if decide (1 ≤ i ≤ length (ring r))%nat then (at_ (i - 1)%nat, true) else (r, false)
  | OpClear => ({| ring := []; cursor := 0 |}, true)
  end.

Definition clip_step (op : ClipOp) (c : Clipboard) : Clipboard * bool :=
  match op with
  | OpPut t => (clip_put t c, true)
  | OpPrev => clip_prev c
  | OpNext => clip_next c
  | OpSelect i => select_index i c
  | OpClear => (clip_clear c, true)
  end.

Fixpoint run_ops {S} (step : ClipOp → S → S * bool) (ops : list ClipOp) (s : S) : S * list bool :=
  match ops with
  | [] => (s, [])
  | op :: ops =>
      let (s', b) := step op s in
      let (s'', bs) := run_ops step ops s' in (s'', b :: bs)
  end.

Definition clip_abs (c : Clipboard) : Ring :=
  {| ring := reverse (clipboards c); cursor := clip_size c - 1 - clip_idx c |}.

Definition clip_wf (c : Clipboard) : Prop :=
  (clip_size c ≤ INTERNAL_CLIPBOARD_CAPACITY)%nat ∧
  (clipboards c = [] ∧ clip_idx c = 0%nat ∨ (clip_idx c < clip_size c)%nat).

Lemma take_reverse_tail {A} n (l : list A) :
  length l = S n → take n (reverse l) = reverse (tail l).
Proof.
  destruct l as [|y l]; simpl; [done|]. intros [= <-]. rewrite reverse_cons.
  by rewrite <-(length_reverse l), take_app_length.
Qed.

Lemma clip_step_refines op c :
  clip_wf c →
  let (c', b) := clip_step op c in
  clip_wf c' ∧ ring_step op (clip_abs c) = (clip_abs c', b).
Proof.
  destruct c as [i l]. unfold clip_wf, clip_size. simpl. intros [Hcap Hidx].
  destruct op as [t| | |k|]; cbn [clip_step ring_step]; cbv zeta.
  - unfold clip_put, clip_abs, clip_size. cbn [clipboards clip_idx].
    set (kept := if (_ <=? _)%nat then _ else _).
    assert (length kept < INTERNAL_CLIPBOARD_CAPACITY)%nat as Hk.
    { subst kept. unfold clip_size. cbn [clipboards].
      destruct (Nat.leb_spec INTERNAL_CLIPBOARD_CAPACITY (length l)); [|lia].
      destruct l; cbn [length tail] in *; unfold INTERNAL_CLIPBOARD_CAPACITY in *; lia. }
    split; [rewrite length_app; cbn [length]; lia|]. cbn [ring]. do 2 f_equal.
    + rewrite reverse_app. cbn. change 9%nat with (INTERNAL_CLIPBOARD_CAPACITY - 1)%nat.
      f_equal. subst kept. unfold clip_size. cbn [clipboards].
      destruct (Nat.leb_spec INTERNAL_CLIPBOARD_CAPACITY (length l)) as [Hle|Hle].
      * apply take_reverse_tail. unfold INTERNAL_CLIPBOARD_CAPACITY in *. lia.
      * apply take_ge. rewrite length_reverse. lia.
    + rewrite length_app. simpl. lia.
  - unfold clip_prev, clip_abs, clip_size. cbn [clip_idx clipboards ring cursor].
    destruct (Nat.leb_spec (length l) (i + 1)); case_decide; try lia.
    + done.
    + split; [cbn; lia|]. cbn. do 2 f_equal. lia.
  - unfold clip_next, clip_abs, clip_size. cbn [clip_idx clipboards ring cursor]. rewrite length_reverse.
    destruct (Nat.eqb_spec i 0); case_decide; try lia.
    + done.
    + split; [cbn; lia|]. cbn. do 2 f_equal. lia.
  - unfold select_index, clip_abs, clip_size. cbn [clip_idx clipboards ring cursor]. rewrite length_reverse.
    destruct ((_ =? _)%nat || _) eqn:Hk; case_decide; try lia.
    + done.
    + split; [cbn; lia|]. cbn. do 2 f_equal. lia.
  - unfold clip_abs, clip_size. cbn. split; [split; [lia|by left]|done].
Qed.

Lemma run_ops_refines ops c :
  clip_wf c →
  let (c', out) := run_ops clip_step ops c in
  clip_wf c' ∧ run_ops ring_step ops (clip_abs c) = (clip_abs c', out).
Proof.
  revert c. induction ops as [|op ops IH]; intros c Hwf; simpl; [done|].
  pose proof (clip_step_refines op c Hwf) as Hs. destruct (clip_step op c) as [c1 b].
  destruct Hs as [Hwf1 ->]. specialize (IH c1 Hwf1).
  destruct (run_ops clip_step ops c1) as [c2 out]. destruct IH as [? ->]. done.
Qed.

Lemma clip_queries c :
  clip_wf c →
  clip_get c = ring (clip_abs c) !! cursor (clip_abs c) ∧
  clip_entries c = ring (clip_abs c) ∧
  selected_index c = (if decide (ring (clip_abs c) = []) then None else Some (S (cursor (clip_abs c)))).
Proof.
  intros [_ Hidx]. unfold clip_get, clip_entries, selected_index, clip_abs, clip_size in *.
  cbn [ring cursor]. destruct Hidx as [[Hl Hi]|Hi].
  - by rewrite Hl, Hi.
  - destruct (clipboards c) as [|t l] eqn:Hc; [simpl in *; lia|]. rewrite <-Hc in *.
    split_and!; [|done|].
    + rewrite reverse_lookup by lia. f_equal. lia.
    + rewrite decide_False; [f_equal; lia|]. intros H%(f_equal length).
      rewrite length_reverse in H. simpl in H. lia.
Qed.

(** * Base 64, read back as in RFC 4648 *)

Definition sextet (c : byte) : option N := N.of_nat <$> position (N.eqb c) TABLE.

Definition group_first (s0 s1 : N) : byte := N.lor (N.shiftl s0 2) (N.shiftr s1 4).
Definition group_second (s1 s2 : N) : byte := N.lor (N.shiftl (N.land s1 15) 4) (N.shiftr s2 2).
Definition group_third (s2 s3 : N) : byte := N.lor (N.shiftl (N.land s2 3) 6) s3.

Fixpoint decode_base64 (l : bytes) : option bytes :=
  match l with
  | [] => Some []
  | c0 :: c1 :: c2 :: c3 :: rest =>
      s0 ← sextet c0; s1 ← sextet c1;
      if bool_decide (c2 = 61) then
        if bool_decide (c3 = 61) && bool_decide (rest = []) then Some [group_first s0 s1] else None
      else
        s2 ← sextet c2;
        if bool_decide (c3 = 61) then
          if bool_decide (rest = []) then Some [group_first s0 s1; group_second s1 s2] else None
        else
          s3 ← sextet c3;
          (λ r, group_first s0 s1 :: group_second s1 s2 :: group_third s2 s3 :: r) <$> decode_base64 rest
  | _ => None
  end.

Definition base64_char (c : byte) : Prop := c = 61 ∨ is_Some (sextet c).

Definition below_n (n : nat) : list N := N.of_nat <$> seq 0 n.

Lemma below_n_spec n a : a < N.of_nat n → a ∈ below_n n.
Proof. intros H. apply list_elem_of_fmap. exists (N.to_nat a). split; [lia|]. apply elem_of_seq. lia. Qed.

(** Properties of bytes checked on all of them. *)
Lemma all_bytes (f : N → bool) : forallb f (below_n 256) = true → ∀ a, a < 256 → f a = true.
Proof. intros H a Ha. apply forallb_Forall in H. rewrite Forall_forall in H. apply H, below_n_spec. lia. Qed.

Lemma all_byte_pairs (f : N → N → bool) :
  forallb (λ a, forallb (f a) (below_n 256)) (below_n 256) = true →
  ∀ a b, a < 256 → b < 256 → f a b = true.
Proof. intros H a b Ha Hb. by apply (all_bytes (f a)); [apply (all_bytes (λ a, forallb (f a) _))|]. Qed.

Lemma sextet_table_at i : i < 64 → sextet (table_at i) = Some i.
Proof.
  intros Hi. assert (forallb (λ i, bool_decide (sextet (table_at i) = Some i)) (below_n 64) = true) as H
    by (vm_compute; reflexivity).
  apply forallb_Forall in H. rewrite Forall_forall in H.
  specialize (H i (below_n_spec 64 i Hi)). by apply bool_decide_eq_true in H.
Qed.

Lemma table_at_not_pad i : i < 64 → table_at i ≠ 61.
Proof. intros Hi Heq. apply sextet_table_at in Hi. by rewrite Heq in Hi. Qed.

Definition sextet2 (a b : byte) : N := N.lor (N.shiftl (N.land a 3) 4) (N.shiftr b 4).
Definition sextet3 (b c : byte) : N := N.lor (N.shiftl (N.land b 15) 2) (N.shiftr c 6).

Lemma sextet1_bound a : a < 256 → N.shiftr a 2 < 64.
Proof. intros Ha. apply N.ltb_lt. revert a Ha. apply all_bytes. vm_compute. reflexivity. Qed.
Lemma sextet4_bound a : a < 256 → N.land a 63 < 64.
Proof. intros Ha. apply N.ltb_lt. revert a Ha. apply all_bytes. vm_compute. reflexivity. Qed.
Lemma sextet2_bound a b : a < 256 → b < 256 → sextet2 a b < 64.
Proof. intros Ha Hb. apply N.ltb_lt. revert a b Ha Hb. apply all_byte_pairs. vm_compute. reflexivity. Qed.
Lemma sextet3_bound a b : a < 256 → b < 256 → sextet3 a b < 64.
Proof. intros Ha Hb. apply N.ltb_lt. revert a b Ha Hb. apply all_byte_pairs. vm_compute. reflexivity. Qed.

Lemma group_first_sextets a b : a < 256 → b < 256 → group_first (N.shiftr a 2) (sextet2 a b) = a.
Proof. intros Ha Hb. apply N.eqb_eq. revert a b Ha Hb. apply all_byte_pairs. vm_compute. reflexivity. Qed.
Lemma group_third_sextets b c : b < 256 → c < 256 → group_third (sextet3 b c) (N.land c 63) = c.
Proof. intros Ha Hb. apply N.eqb_eq. revert b c Ha Hb. apply all_byte_pairs. vm_compute. reflexivity. Qed.

Lemma group_second_sextets a b c :
  a < 256 → b < 256 → c < 256 → group_second (sextet2 a b) (sextet3 b c) = b.
Proof.
  intros Ha Hb Hc.
  assert (N.land (sextet2 a b) 15 = N.shiftr b 4) as H2.
  { apply N.eqb_eq. revert a b Ha Hb. apply all_byte_pairs. vm_compute. reflexivity. }
  assert (N.shiftr (sextet3 b c) 2 = N.land b 15) as H3.
  { clear H2. apply N.eqb_eq. revert b c Hb Hc. apply all_byte_pairs. vm_compute. reflexivity. }
  unfold group_second. rewrite H2, H3. clear H2 H3 Ha Hc. apply N.eqb_eq.
  revert b Hb. apply all_bytes. vm_compute. reflexivity.
Qed.

Ltac sextet_bounds :=
  first [apply sextet1_bound | apply sextet2_bound | apply sextet3_bound | apply sextet4_bound]; lia.

Lemma base64_table i : i < 64 → base64_char (table_at i).
Proof. intros Hi. right. by rewrite sextet_table_at. Qed.

Ltac base64_chars := first [by left | apply base64_table; sextet_bounds].

Lemma decode_chunk chunk rest :
  (0 < length chunk ≤ 3)%nat → Forall byte_ok chunk → (length chunk < 3 → rest = [])%nat →
  decode_base64 (base64_chunk chunk ++ rest) = (chunk ++.) <$> decode_base64 rest ∧
  Forall base64_char (base64_chunk chunk).
Proof.
  intros Hlen Hok Hrest.
  destruct chunk as [|a [|b [|c [|]]]]; simpl in Hlen; try lia;
    repeat match goal with H : Forall _ (_ :: _) |- _ => inv H end; unfold byte_ok in *;
    unfold base64_chunk; cbn [nth length]; change (1 <? 1)%nat with false; change (2 <? 1)%nat with false;
    change (1 <? 2)%nat with true; change (2 <? 2)%nat with false; change (1 <? 3)%nat with true;
    change (2 <? 3)%nat with true; cbv iota; cbn [app decode_base64];
    try rewrite Hrest by (simpl; lia);
    fold (sextet2 a 0); try fold (sextet2 a b); try fold (sextet3 b 0); try fold (sextet3 b c).
  - rewrite !sextet_table_at by sextet_bounds.
    simpl. rewrite group_first_sextets by lia. split; [done|].
    forall_list base64_chars.
  - rewrite !sextet_table_at by sextet_bounds.
    cbn. rewrite bool_decide_eq_false_2 by (apply table_at_not_pad; sextet_bounds). cbn.
    rewrite group_first_sextets, group_second_sextets by lia. split; [done|].
    forall_list base64_chars.
  - rewrite !sextet_table_at
      by sextet_bounds.
    cbn. rewrite !bool_decide_eq_false_2
      by (apply table_at_not_pad; sextet_bounds). cbn.
    rewrite group_first_sextets, group_second_sextets, group_third_sextets by lia.
    split; [by destruct (decode_base64 rest)|].
    forall_list base64_chars.
Qed.

Lemma encode_base64_step l :
  l ≠ [] → encode_base64 l = base64_chunk (take 3 l) ++ encode_base64 (drop 3 l).
Proof. intros Hl. unfold encode_base64. rewrite chunks_cons by (done || lia). done. Qed.

Lemma encode_base64_spec l :
  Forall byte_ok l →
  decode_base64 (encode_base64 l) = Some l ∧ Forall base64_char (encode_base64 l) ∧
  length (encode_base64 l) = (4 * ((length l + 2) / 3))%nat.
Proof.
  remember (length l) as n eqn:Hn. revert l Hn.
  induction n as [n IH] using (well_founded_induction Nat.lt_wf_0); intros l -> Hok.
  destruct (decide (l = [])) as [->|Hl]; [split_and!; [done|constructor|done]|].
  assert (0 < length l)%nat by (destruct l; [done|simpl; lia]).
  rewrite encode_base64_step by done.
  destruct (IH (length (drop 3 l)) ltac:(rewrite length_drop; lia) (drop 3 l) eq_refl) as (Hd & Hc & Hlen).
  { by apply Forall_drop. }
  destruct (decode_chunk (take 3 l) (encode_base64 (drop 3 l))) as [Hdec Hchars].
  - rewrite length_take. lia.
  - by apply Forall_take.
  - rewrite length_take. intros. by rewrite drop_ge by lia.
  - rewrite Hdec, Hd. simpl fmap. rewrite take_drop. split_and!; [done|by apply Forall_app|].
    rewrite length_app, Hlen, length_drop. change (length (base64_chunk _)) with 4%nat.
    replace (length l + 2)%nat with (length l - 1 + 1 * 3)%nat by lia.
    rewrite Nat.div_add by lia. destruct (decide (3 ≤ length l)%nat) as [H3|H3].
    + replace (length l - 3 + 2)%nat with (length l - 1)%nat by lia. lia.
    + replace (length l - 3 + 2)%nat with 2%nat by lia.
      rewrite !Nat.div_small by lia. lia.
Qed.

Lemma base64_char_printable c : base64_char c → is_ascii_control c = false ∧ c < 128.
Proof.
  intros [->|[i Hi]]; [done|]. unfold sextet in Hi. apply fmap_Some in Hi as (j & Hj & _).
  apply position_Some in Hj as (x & Heq & Hx & _). apply N.eqb_eq in Hx as <-.
  assert (c ∈ TABLE) as Hin by (rewrite Heq; set_solver). clear Heq.
  assert (Forall (λ c, (negb (is_ascii_control c) && (c <? 128)) = true) TABLE) as Hall.
  { apply forallb_Forall. vm_compute. reflexivity. }
  rewrite Forall_forall in Hall. specialize (Hall c Hin). apply andb_true_iff in Hall as [H1 H2].
  apply negb_true_iff in H1. split; [done|lia].
Qed.

(** * Properties *)

(** C21. Whatever sequence of operations is applied to a fresh clipboard, it
    behaves as a list of texts ordered newest first, cut to the
    [INTERNAL_CLIPBOARD_CAPACITY] newest, with a cursor: every operation
    returns what the list specification returns, and the selected text, the
    entries and the one-based selected index are those of the list. *)
Theorem clipboard_refines_ring ops :
  let (c, out) := run_ops clip_step ops clipboard_default in
  let (r, out') := run_ops ring_step ops {| ring := []; cursor := 0 |} in
  out = out' ∧ (clip_size c ≤ INTERNAL_CLIPBOARD_CAPACITY)%nat ∧
  clip_get c = ring r !! cursor r ∧ clip_entries c = ring r ∧
  selected_index c = (if decide (ring r = []) then None else Some (S (cursor r))).
Proof.
  pose proof (run_ops_refines ops clipboard_default) as H.
  change (clip_abs clipboard_default) with {| ring := []; cursor := 0 |} in H.
  destruct (run_ops clip_step ops clipboard_default) as [c out].
  destruct H as [Hwf ->]; [split; [cbn; lia|by left]|].
  destruct (clip_queries c Hwf) as (? & ? & ?). by destruct Hwf.
Qed.

(** A text written to the terminal clipboard is queued, after what was queued
    before and without opening the native clipboard, as one OSC 52 sequence
    whose payload holds only printable ASCII characters (so nothing in the
    text can end the sequence early), is exactly [4 * ceil (n / 3)] characters
    long, and decodes as RFC 4648 base 64 to the text itself. *)
Theorem osc52_write_roundtrip {H F} (lib : Arboard H F) (s : SystemClipboard H) t :
  Forall byte_ok t →
  ∃ payload s',
    system_write lib Osc52 t s = (s', Ok ()) ∧ native s' = native s ∧
    take_terminal_writes s' =
      ({| native := native s; pending_terminal_writes := [] |},
       pending_terminal_writes s ++ [OSC52_PREFIX ++ payload ++ OSC52_SUFFIX]) ∧
    Forall (λ c, is_ascii_control c = false ∧ c < 128) payload ∧
    length payload = (4 * ((length t + 2) / 3))%nat ∧
    decode_base64 payload = Some t.
Proof.
  intros Hok. destruct (encode_base64_spec t Hok) as (Hd & Hc & Hlen).
  exists (encode_base64 t), (push_write (osc52_write t) s). split_and!; try done.
  eapply Forall_impl; [exact Hc|]. apply base64_char_printable.
Qed.

Lemma osc52_write_roundtrip_witness :
  osc52_write (bs "Lector") = OSC52_PREFIX ++ bs "TGVjdG9y" ++ OSC52_SUFFIX ∧
  ∃ payload, Forall (λ c, is_ascii_control c = false ∧ c < 128) payload ∧
    decode_base64 payload = Some (bs "Lector").
Proof.
  split; [vm_compute; reflexivity|].
  pose (lib := {| arboard_new := Ok (); arboard_get_text h := (h, Err ContentNotAvailable);
                  arboard_set_text _ h := (h, Ok ()); arboard_clear h := (h, Ok ()) |}
               : Arboard unit unit).
  assert (Forall byte_ok (bs "Lector")) as Hok by (unfold byte_ok; forall_list lia).
  destruct (osc52_write_roundtrip lib system_default (bs "Lector") Hok)
    as (payload & s' & _ & _ & _ & Hc & _ & Hd).
  exists payload. by split.
Defined.
