(* ===== verification/Terminal.v ===== *)
(** Terminal vocabulary shared by the components ([src/src/terminal.rs]):
    geometry, mouse modes and the events a terminal engine emits. *)

From S2P Require Import Prelude.
Local Open Scope N_scope.

Record TerminalGeometry := { rows : N; cols : N; cell_width_px : N; cell_height_px : N }.
#[export] Instance TerminalGeometry_eq_dec : EqDecision TerminalGeometry.
Proof. solve_decision. Defined.

Definition geometry_new (rows cols cell_width_px cell_height_px : N) : TerminalGeometry :=
  {| rows := (if rows =? 0 then 1 else rows); cols := (if cols =? 0 then 1 else cols);
     cell_width_px := cell_width_px; cell_height_px := cell_height_px |}.
Definition from_cells (rows cols : N) : TerminalGeometry := geometry_new rows cols 0 0.
Definition from_grid_pixels (rows cols width_px height_px : N) : TerminalGeometry :=
  let rows := N.max rows 1 in
  let cols := N.max cols 1 in
  geometry_new rows cols (width_px / cols) (height_px / rows).
Definition width_px (g : TerminalGeometry) : N := sat_mul u32_max (cell_width_px g) (cols g).
Definition height_px (g : TerminalGeometry) : N := sat_mul u32_max (cell_height_px g) (rows g).

Inductive MouseProtocol := NoMouse | Press | PressRelease | ButtonMotion | AnyMotion.
#[export] Instance MouseProtocol_eq_dec : EqDecision MouseProtocol.
Proof. solve_decision. Defined.

Inductive MouseEncoding := DefaultEncoding | Utf8Encoding | Sgr.
#[export] Instance MouseEncoding_eq_dec : EqDecision MouseEncoding.
Proof. solve_decision. Defined.

Inductive ClipboardLocation := Standard | Selection | Primary.
#[export] Instance ClipboardLocation_eq_dec : EqDecision ClipboardLocation.
Proof. solve_decision. Defined.

Record ClipboardContent := { mime : bytes; data : bytes }.
#[export] Instance ClipboardContent_eq_dec : EqDecision ClipboardContent.
Proof. solve_decision. Defined.

Inductive ProgressState := ProgressRemove | ProgressSet | ProgressError | Indeterminate | Pause.
#[export] Instance ProgressState_eq_dec : EqDecision ProgressState.
Proof. solve_decision. Defined.

Inductive TerminalQuery := Enquiry | XtVersion | Size | ColorScheme | DeviceAttributes | ClipboardQuery.
#[export] Instance TerminalQuery_eq_dec : EqDecision TerminalQuery.
Proof. solve_decision. Defined.

(** Strings are their UTF-8 bytes. *)
Inductive TerminalEvent :=
| Bell
| TitleChanged (title : bytes)
| WorkingDirectoryChanged (directory : bytes)
| ClipboardWrite (location : ClipboardLocation) (contents : list ClipboardContent)
| DesktopNotification (title body : bytes)
| ProgressReport (state : ProgressState) (progress : option N)
| Query (query : TerminalQuery)
| PtyReply (reply : bytes)
| UnknownSequence (content : bytes) (truncated : bool).
#[export] Instance TerminalEvent_eq_dec : EqDecision TerminalEvent.
Proof. solve_decision. Defined.
