(* ===== verification/Writer.v ===== *)
(** The interface of [std::io::Write] that the output path relies on.

    [Writer W] gives the two operations on a writer state [W]; [WriterLaws W]
    is their documented contract, stated with what the writer has accepted so
    far ([written]), how much of it is known to be flushed ([flushed]), and a
    bound on how often it may still answer [Interrupted] ([interrupts]).
    [ScriptedWriter] is a concrete implementation of the interface. *)

From S2P Require Import Prelude.
Local Open Scope N_scope.

Inductive IoErrorKind := Interrupted | WouldBlock | WriteZero | OtherIoError (code : N).
#[export] Instance IoErrorKind_eq_dec : EqDecision IoErrorKind.
Proof. solve_decision. Defined.

Class Writer (W : Type) := {
  writer_write : bytes → W → W * result IoErrorKind N;
  writer_flush : W → W * result IoErrorKind unit
}.

Class WriterLaws (W : Type) `{Writer W} := {
  written : W → bytes;
  flushed : W → N;
  interrupts : W → nat;
  writer_write_ok buf w w' n :
    writer_write buf w = (w', Ok n) →
    n ≤ len buf ∧ written w' = written w ++ take (N.to_nat n) buf ∧ flushed w' = flushed w;
  writer_write_err buf w w' e :
    writer_write buf w = (w', Err e) → written w' = written w ∧ flushed w' = flushed w;
  writer_flush_ok w w' :
    writer_flush w = (w', Ok ()) → written w' = written w ∧ flushed w' = len (written w);
  writer_flush_err w w' e :
    writer_flush w = (w', Err e) → written w' = written w ∧ flushed w ≤ flushed w';
  writer_write_interrupts buf w w' r :
    writer_write buf w = (w', r) →
    if decide (r = Err Interrupted) then (interrupts w' < interrupts w)%nat
    else (interrupts w' ≤ interrupts w)%nat;
  writer_flush_interrupts w w' r :
    writer_flush w = (w', r) →
    if decide (r = Err Interrupted) then (interrupts w' < interrupts w)%nat
    else (interrupts w' ≤ interrupts w)%nat
}.

(** * A scripted writer

    The script gives the outcome of the next calls: [Ok n] accepts at most [n]
    bytes, [Err e] fails; after the script every call succeeds in full. *)

Record ScriptedWriter := {
  script : list (result IoErrorKind N);
  accepted : bytes;
  flushed_bytes : N
}.

Definition scripted_write (buf : bytes) (w : ScriptedWriter) : ScriptedWriter * result IoErrorKind N :=
  match script w with
  | [] => ({| script := []; accepted := accepted w ++ buf; flushed_bytes := flushed_bytes w |}, Ok (len buf))
  | Ok n :: rest =>
      let n := N.min n (len buf) in
      ({| script := rest; accepted := accepted w ++ take (N.to_nat n) buf; flushed_bytes := flushed_bytes w |}, Ok n)
  | Err e :: rest => ({| script := rest; accepted := accepted w; flushed_bytes := flushed_bytes w |}, Err e)
  end.

Definition scripted_flush (w : ScriptedWriter) : ScriptedWriter * result IoErrorKind unit :=
  match script w with
  | Err e :: rest => ({| script := rest; accepted := accepted w; flushed_bytes := flushed_bytes w |}, Err e)
  | s => ({| script := tail s; accepted := accepted w; flushed_bytes := len (accepted w) |}, Ok ())
  end.

#[export] Instance scripted_writer : Writer ScriptedWriter :=
  {| writer_write := scripted_write; writer_flush := scripted_flush |}.

#[export, program] Instance scripted_writer_laws : WriterLaws ScriptedWriter := {|
  written := accepted; flushed := flushed_bytes; interrupts w := length (script w)
|}.
Next Obligation.
  intros buf [[|[k|e] sc] acc sy] w' n; cbn; intros [= <- <-]; cbn; split_and!; try done; try lia.
  by rewrite Nat2N.id, take_ge by lia.
Qed.
Next Obligation. intros buf [[|[k|k] sc] acc sy] w' e; cbn; intros [= <- <-]; done. Qed.
Next Obligation. intros [[|[k|k] sc] acc sy] w'; cbn; intros [= <-]; done. Qed.
Next Obligation. intros [[|[k|k] sc] acc sy] w' e; cbn; intros [= <- <-]; done. Qed.
Next Obligation.
  intros buf [[|[k|k] sc] acc sy] w' r; cbn; intros [= <- <-]; case_decide; try done; cbn; lia.
Qed.
Next Obligation.
  intros [[|[k|k] sc] acc sy] w' r; cbn; intros [= <- <-]; case_decide; try done; cbn; lia.
Qed.
