(* ===== verification/OutputScheduler.v ===== *)
(** Serialized, bounded output to the physical terminal
    ([src/src/output_scheduler.rs]).

    The scheduler never looks inside the scene and the view frames a render
    carries, so their types [Scene] and [Frame] are parameters, with the two
    accessors the code calls.  The output stream is any [Writer]; the loops of
    [drain_ready] take fuel and [drain_terminates] gives an amount that is
    enough. *)

From S2P Require Import Prelude Terminal Writer.
Local Open Scope N_scope.

(** * Constants and small types *)

Definition SYNCHRONIZED_OUTPUT_START : bytes := ESC :: bs "[?2026h".
Definition SYNCHRONIZED_OUTPUT_END : bytes := ESC :: bs "[?2026l".
Definition CONTROL_BACKLOG_LIMIT_BYTES : N := 64 * 1024.

Record OutputSchedulerConfig := {
  latency_budget_ms : N;
  synchronization_timeout_ms : N;
  synchronization_hard_timeout_ms : N;
  write_budget_bytes : N;
  maximum_pending_bytes : N
}.
Definition default_config : OutputSchedulerConfig := {|
  latency_budget_ms := 0;
  synchronization_timeout_ms := 100;
  synchronization_hard_timeout_ms := 2000;
  write_budget_bytes := 64 * 1024;
  maximum_pending_bytes := 2 * 1024 * 1024
|}.

Inductive ScheduledOutputClass := Control.
#[export] Instance ScheduledOutputClass_eq_dec : EqDecision ScheduledOutputClass.
Proof. solve_decision. Defined.

Inductive EnqueueOutcome := Queued | ReplacedObsoleteRender | DroppedForCapacity.

Inductive ActiveTransactionKind := ControlKind | RenderKind | EffectKind | BellKind.
#[export] Instance ActiveTransactionKind_eq_dec : EqDecision ActiveTransactionKind.
Proof. solve_decision. Defined.

Inductive ApplicationSynchronization :=
| Active (started_ms last_activity_ms : N)
| IgnoringUntilClose.

Inductive TerminalEventKind :=
| KBell | KTitle | KWorkingDirectory | KClipboard | KNotification | KProgress | KQuery | KReply | KUnknown.
#[export] Instance TerminalEventKind_eq_dec : EqDecision TerminalEventKind.
Proof. solve_decision. Defined.

Record ScheduledTerminalEffect := { owner : N; event : TerminalEvent }.
Record PendingBytes := { pb_class : ScheduledOutputClass; pb_bytes : bytes }.
Record OutputTransaction := { resize : option TerminalGeometry; tx_bytes : bytes }.

(** * Terminal effects *)

Definition terminal_event_kind (e : TerminalEvent) : TerminalEventKind :=
  match e with
  | Bell => KBell
  | TitleChanged _ => KTitle
  | WorkingDirectoryChanged _ => KWorkingDirectory
  | ClipboardWrite _ _ => KClipboard
  | DesktopNotification _ _ => KNotification
  | ProgressReport _ _ => KProgress
  | Query _ => KQuery
  | PtyReply _ => KReply
  | UnknownSequence _ _ => KUnknown
  end.

Definition write_osc (code : N) (value : bytes) : bytes :=
  ESC :: bs "]" ++ to_dec code ++ bs ";" ++
  List.filter (λ b, (32 <=? b) && negb (b =? 127)) value ++ ESC :: bs "\".

Definition progress_state_code (s : ProgressState) : N :=
  match s with
  | ProgressRemove => 0 | ProgressSet => 1 | ProgressError => 2 | Indeterminate => 3 | Pause => 4
  end.

Definition encode_terminal_effect (e : TerminalEvent) : bytes :=
  match e with
  | TitleChanged title => write_osc 2 title
  | WorkingDirectoryChanged directory => write_osc 7 directory
  | ProgressReport state progress =>
      ESC :: bs "]9;4;" ++ to_dec (progress_state_code state) ++
      match progress with Some p => bs ";" ++ to_dec (N.min p 100) | None => [] end ++ ESC :: bs "\"
  | Bell => [BEL]
  | _ => []
  end.

Fixpoint sum_bytes {A} (f : A → N) (l : list A) : N :=
  match l with [] => 0 | x :: l => f x + sum_bytes f l end.

Definition terminal_event_retained_bytes (e : TerminalEvent) : N :=
  let payload :=
    match e with
    | TitleChanged v | WorkingDirectoryChanged v => len v
    | ClipboardWrite _ contents =>
        sum_bytes (λ c, sat_add usize_max (len (mime c)) (len (data c))) contents
    | DesktopNotification title body => sat_add usize_max (len title) (len body)
    | PtyReply b => len b
    | UnknownSequence b _ => len b
    | Bell | ProgressReport _ _ | Query _ => 0
    end in
  sat_add usize_max payload 16.

(** [str::is_char_boundary]. *)
Definition is_char_boundary (s : bytes) (index : nat) : bool :=
  if (index =? 0)%nat then true else
  match s !! index with
  | None => (index =? length s)%nat
  | Some b => negb (is_cont b)
  end.

Fixpoint last_boundary (s : bytes) (index : nat) : nat :=
  if is_char_boundary s index then index else
  match index with O => O | S i => last_boundary s i end.

Definition truncate_string (value : bytes) (maximum : N) : bytes :=
  if len value <=? maximum then value
  else take (last_boundary value (N.to_nat maximum)) value.

Fixpoint bound_contents (remaining : N) (contents : list ClipboardContent) : list ClipboardContent :=
  match contents with
  | [] => []
  | c :: rest =>
      let m := truncate_string (mime c) remaining in
      let remaining := remaining - len m in
      let d := take (N.to_nat remaining) (data c) in
      {| mime := m; data := d |} :: bound_contents (remaining - len d) rest
  end.

Definition bound_terminal_effect (e : TerminalEvent) (maximum : N) : TerminalEvent :=
  let limit := maximum - 16 in
  match e with
  | TitleChanged v => TitleChanged (truncate_string v limit)
  | WorkingDirectoryChanged v => WorkingDirectoryChanged (truncate_string v limit)
  | ClipboardWrite loc contents =>
      ClipboardWrite loc
        (List.filter (λ c, negb (bool_decide (mime c = [])) || negb (bool_decide (data c = [])))
           (bound_contents limit contents))
  | DesktopNotification title body =>
      let t := truncate_string title limit in
      DesktopNotification t (truncate_string body (limit - len t))
  | PtyReply b => PtyReply (take (N.to_nat limit) b)
  | UnknownSequence b tr => UnknownSequence (take (N.to_nat limit) b) tr
  | Bell | ProgressReport _ _ | Query _ => e
  end.

(** * Synchronized-output markers *)

Definition contains_synchronization_marker (source : bytes) : bool :=
  bool_decide (is_Some (find_sub SYNCHRONIZED_OUTPUT_START source)) ||
  bool_decide (is_Some (find_sub SYNCHRONIZED_OUTPUT_END source)).

(** The bytes appended by [append_without_synchronization_markers]; [offset]
    moves by at least one byte at each turn, so the length is enough fuel. *)
Fixpoint strip_markers_aux (fuel : nat) (source : bytes) : bytes :=
  match fuel with
  | O => []
  | S fuel =>
      match position (N.eqb ESC) source with
      | None => source
      | Some i =>
          let remaining := drop i source in
          take i source ++
          match strip_prefix SYNCHRONIZED_OUTPUT_START remaining with
          | Some rest => strip_markers_aux fuel rest
          | None =>
              match strip_prefix SYNCHRONIZED_OUTPUT_END remaining with
              | Some rest => strip_markers_aux fuel rest
              | None => take 1 remaining ++ strip_markers_aux fuel (drop 1 remaining)
              end
          end
      end
  end.
Definition without_synchronization_markers (source : bytes) : bytes :=
  strip_markers_aux (S (length source)) source.

(** * State *)

Section scheduler.
Context {Scene Frame : Type} (scene_geometry : Scene → TerminalGeometry) (frame_view_id : Frame → N).

Record RenderBatch := { transactions : list OutputTransaction; predicted : Scene }.

Record PresentedAccessibilityBundle := {
  active_view : option N;
  active_label : option bytes;
  active_label_tracks_terminal_title : bool;
  frames : list Frame
}.
Definition bundle_default : PresentedAccessibilityBundle :=
  {| active_view := None; active_label := None; active_label_tracks_terminal_title := false; frames := [] |}.

Record CompletedRender := {
  cr_predicted : Scene;
  cr_geometry : TerminalGeometry;
  cr_accessibility : PresentedAccessibilityBundle
}.

#[projections(primitive)]
Record DrainReport := {
  bytes_written : N;
  completed_renders : list CompletedRender;
  completed_effects : list ScheduledTerminalEffect;
  blocked : bool;
  write_budget_exhausted : bool;
  synchronization_timed_out : bool;
  application_synchronization_bypass_completed : option N
}.
Definition report_default : DrainReport := {|
  bytes_written := 0; completed_renders := []; completed_effects := []; blocked := false;
  write_budget_exhausted := false; synchronization_timed_out := false;
  application_synchronization_bypass_completed := None
|}.

Record PendingRender := {
  batch : RenderBatch;
  byte_len : N;
  pr_generation : N;
  pr_accessibility : PresentedAccessibilityBundle
}.

Record TrackedRender := {
  tr_predicted : Scene;
  tr_generation : N;
  tr_accessibility : PresentedAccessibilityBundle
}.

Record ActiveTransaction := {
  kind : ActiveTransactionKind;
  at_bytes : bytes;
  offset : N;
  completed_render : option TrackedRender;
  at_effects : list ScheduledTerminalEffect
}.

(** [transaction.offset.saturating_add(written)]. *)
Definition advance (k : N) (t : ActiveTransaction) : ActiveTransaction :=
  {| kind := kind t; at_bytes := at_bytes t; offset := sat_add usize_max (offset t) k;
     completed_render := completed_render t; at_effects := at_effects t |}.
#[local] Arguments advance : simpl never.

Definition remaining (t : ActiveTransaction) : bytes := drop (N.to_nat (offset t)) (at_bytes t).

#[projections(primitive)]
Record OutputScheduler := {
  config : OutputSchedulerConfig;
  synchronized_output_supported : bool;
  pending_bytes : list PendingBytes;
  pending_render : option PendingRender;
  pending_effects : list ScheduledTerminalEffect;
  pending_bells : N;
  pending_since_ms : option N;
  active : list ActiveTransaction;
  awaiting_flush_renders : list TrackedRender;
  awaiting_flush_effects : list ScheduledTerminalEffect;
  flush_required : bool;
  waiting_for_writable : bool;
  application_synchronization : option ApplicationSynchronization;
  bypass_next_render : bool;
  application_synchronization_bypass_generation : option N;
  next_render_generation : N;
  synchronization_timeout_release_generation : option N;
  needs_reconciliation : bool
}.

Definition scheduler_new (c : OutputSchedulerConfig) (supported : bool) : OutputScheduler := {|
  config := c;
  synchronized_output_supported := supported;
  pending_bytes := []; pending_render := None; pending_effects := []; pending_bells := 0;
  pending_since_ms := None; active := []; awaiting_flush_renders := []; awaiting_flush_effects := [];
  flush_required := false; waiting_for_writable := false; application_synchronization := None;
  bypass_next_render := false; application_synchronization_bypass_generation := None;
  next_render_generation := 1; synchronization_timeout_release_generation := None;
  needs_reconciliation := false
|}.

(** * Accounting *)

Definition transaction_bytes (t : ActiveTransaction) : N := len (at_bytes t) - offset t.

Definition render_bytes (s : OutputScheduler) : N :=
  match pending_render s with Some r => byte_len r | None => 0 end.

Definition total_pending_bytes (s : OutputScheduler) : N :=
  let active := sum_bytes transaction_bytes (active s) in
  let queued := sum_bytes (λ p, len (pb_bytes p)) (pending_bytes s) in
  let effects := sum_bytes (λ e, terminal_event_retained_bytes (event e)) (pending_effects s) in
  sat_add usize_max
    (sat_add usize_max (sat_add usize_max (sat_add usize_max active queued) (render_bytes s)) effects)
    (pending_bells s).

Definition pending_effect_count (s : OutputScheduler) : N :=
  len (pending_effects s) + len (awaiting_flush_effects s) + sum_bytes (λ t, len (at_effects t)) (active s).

Definition retained_effect_bytes (s : OutputScheduler) : N :=
  sum_bytes (λ e, terminal_event_retained_bytes (event e))
    (pending_effects s ++ awaiting_flush_effects s ++ mjoin (at_effects <$> active s)).

Definition is_control (t : ActiveTransaction) : bool := bool_decide (kind t = ControlKind).

Definition control_bytes (s : OutputScheduler) : N :=
  sat_add usize_max (sum_bytes (λ p, len (pb_bytes p)) (pending_bytes s))
    (sum_bytes transaction_bytes (List.filter is_control (active s))).

Definition render_batch_byte_len (b : RenderBatch) (supported : bool) : option N :=
  total ← foldl (λ acc t, total ← acc; checked_add usize_max total (len (tx_bytes t)))
            (Some 0) (transactions b);
  checked_add usize_max total
    (if supported then len SYNCHRONIZED_OUTPUT_START + len SYNCHRONIZED_OUTPUT_END else 0).

Definition bundle_view_ids (b : PresentedAccessibilityBundle) : list N :=
  match active_view b with Some v => [v] | None => [] end ++ (frame_view_id <$> frames b).

(** [sort_unstable] and [dedup]. *)
Definition sorted_unique (l : list N) : list N := merge_sort N.le (remove_dups l).

Definition retained_accessibility_view_ids (s : OutputScheduler) : list N :=
  sorted_unique
    (match pending_render s with Some r => bundle_view_ids (pr_accessibility r) | None => [] end ++
     mjoin ((λ r, bundle_view_ids (tr_accessibility r)) <$>
              (omap completed_render (active s) ++ awaiting_flush_renders s))).

Definition has_render_work (s : OutputScheduler) : bool :=
  bool_decide (is_Some (pending_render s)) || negb (bool_decide (awaiting_flush_renders s = [])) ||
  existsb (λ t, bool_decide (kind t = RenderKind)) (active s).

Definition has_started_render_work (s : OutputScheduler) : bool :=
  negb (bool_decide (awaiting_flush_renders s = [])) ||
  existsb (λ t, bool_decide (kind t = RenderKind) && (0 <? offset t)) (active s).

(** * Enqueueing *)

Definition note_pending (now_ms : N) (s : OutputScheduler) : OutputScheduler :=
  s <| pending_since_ms := Some (default now_ms (pending_since_ms s)) |>.

(** A render chosen as the boundary of a timeout release or of a bypass. *)
Definition is_boundary (s : OutputScheduler) (generation : N) : bool :=
  bool_decide (synchronization_timeout_release_generation s = Some generation) ||
  bool_decide (application_synchronization_bypass_generation s = Some generation).

Definition keeps_for_control (s : OutputScheduler) (t : ActiveTransaction) : bool :=
  (0 <? offset t) || is_control t ||
  match completed_render t with Some r => is_boundary s (tr_generation r) | None => false end.

Definition discard_visual_work (s : OutputScheduler) : OutputScheduler :=
  s <| pending_render :=
         match pending_render s with
         | Some r => if is_boundary s (pr_generation r) then Some r else None
         | None => None
         end |>
    <| pending_effects := [] |>
    <| pending_bells := 0 |>
    <| active := List.filter (keeps_for_control s) (active s) |>.

Definition append_pending (class : ScheduledOutputClass) (b : bytes) (maximum : N)
    (queue : list PendingBytes) : list PendingBytes :=
  match last queue with
  | Some l =>
      if bool_decide (pb_class l = class) && (sat_add usize_max (len (pb_bytes l)) (len b) <=? maximum)
      then removelast queue ++ [{| pb_class := class; pb_bytes := pb_bytes l ++ b |}]
      else queue ++ [{| pb_class := class; pb_bytes := b |}]
  | None => queue ++ [{| pb_class := class; pb_bytes := b |}]
  end.

Definition push_bytes (class : ScheduledOutputClass) (b : bytes) (now_ms : N) (s : OutputScheduler)
    : OutputScheduler :=
  let s := note_pending now_ms s in
  s <| pending_bytes := append_pending class b (maximum_pending_bytes (config s)) (pending_bytes s) |>.

Definition exceeds (extra : N) (s : OutputScheduler) : bool :=
  maximum_pending_bytes (config s) <? sat_add usize_max (total_pending_bytes s) extra.

Definition enqueue_bytes (class : ScheduledOutputClass) (b : bytes) (now_ms : N) (s : OutputScheduler)
    : OutputScheduler :=
  if bool_decide (b = []) then s else
  if (CONTROL_BACKLOG_LIMIT_BYTES <? len b) ||
     (CONTROL_BACKLOG_LIMIT_BYTES <? sat_add usize_max (control_bytes s) (len b)) then s else
  if exceeds (len b) s then
    let s := discard_visual_work s in
    if exceeds (len b) s then s else push_bytes class b now_ms s
  else push_bytes class b now_ms s.

Definition prepare_for_lifecycle_cleanup (s : OutputScheduler) : OutputScheduler :=
  let s :=
    s <| pending_bytes := [] |>
      <| pending_render := None |>
      <| pending_effects := [] |>
      <| pending_bells := 0 |>
      <| active := List.filter (λ t, 0 <? offset t) (active s) |>
      <| awaiting_flush_renders := [] |>
      <| application_synchronization := None |>
      <| bypass_next_render := false |>
      <| application_synchronization_bypass_generation := None |>
      <| synchronization_timeout_release_generation := None |> in
  match active s, awaiting_flush_renders s, awaiting_flush_effects s with
  | [], [], [] => s <| pending_since_ms := None |>
  | _, _, _ => s
  end.

(** [iter().position(f)] followed by [remove]: the first match and the rest. *)
Fixpoint take_first {A} (f : A → bool) (l : list A) : option (A * list A) :=
  match l with
  | [] => None
  | x :: l => if f x then Some (x, l) else
              match take_first f l with Some (y, l) => Some (y, x :: l) | None => None end
  end.

Definition is_unstarted_render (t : ActiveTransaction) : bool :=
  bool_decide (kind t = RenderKind) && (offset t =? 0).

Definition is_unstarted_bell (t : ActiveTransaction) : bool :=
  bool_decide (kind t = BellKind) && (offset t =? 0).

(** The loop that turns unstarted bell transactions back into pending bells. *)
Fixpoint reclaim_bells (l : list ActiveTransaction) (bells : N) : list ActiveTransaction * N :=
  match l with
  | [] => ([], bells)
  | t :: l =>
      if is_unstarted_bell t then reclaim_bells l (sat_add usize_max bells (len (at_bytes t)))
      else let (l, bells) := reclaim_bells l bells in (t :: l, bells)
  end.

Definition generation_is (g : option N) (r : N) : bool := bool_decide (g = Some r).

(** What the renders replaced by a new one were responsible for. *)
Definition replaces (g : option N) (pending : option PendingRender) (replaced : option ActiveTransaction)
    : bool :=
  match pending with Some r => generation_is g (pr_generation r) | None => false end ||
  match replaced with
  | Some t => match completed_render t with Some r => generation_is g (tr_generation r) | None => false end
  | None => false
  end.

Definition next_generation (g : N) : N := N.max (wrapping_add u64_max g 1) 1.

(** Takes the replaced renders out of the queues; unstarted bells that were
    queued behind an active one go back to the pending bells. *)
Definition remove_obsolete_renders (now_ms : N) (s : OutputScheduler) : OutputScheduler :=
  let s := s <| pending_render := None |> in
  match take_first is_unstarted_render (active s) with
  | None => s
  | Some (_, others) =>
      s <| active := fst (reclaim_bells others (pending_bells s)) |>
        <| pending_bells := snd (reclaim_bells others (pending_bells s)) |>
        <| pending_since_ms := Some (now_ms - latency_budget_ms (config s)) |>
  end.

Definition replaceable_active_bytes (s : OutputScheduler) : N :=
  match take_first is_unstarted_render (active s) with Some (t, _) => len (at_bytes t) | None => 0 end.

Definition enqueue_render_with_accessibility (b : RenderBatch)
    (accessibility : PresentedAccessibilityBundle) (now_ms : N) (s : OutputScheduler)
    : OutputScheduler * EnqueueOutcome :=
  let bypass_requested := bypass_next_render s in
  let s := s <| bypass_next_render := false |> in
  match render_batch_byte_len b (synchronized_output_supported s) with
  | None => (s, DroppedForCapacity)
  | Some new_bytes =>
      let retained := total_pending_bytes s - render_bytes s - replaceable_active_bytes s in
      if (maximum_pending_bytes (config s) <? new_bytes) ||
         (maximum_pending_bytes (config s) <? sat_add usize_max retained new_bytes)
      then (s, DroppedForCapacity)
      else
        let replaced := fst <$> take_first is_unstarted_render (active s) in
        let replaces_timeout_release :=
          replaces (synchronization_timeout_release_generation s) (pending_render s) replaced in
        let replaces_bypass :=
          replaces (application_synchronization_bypass_generation s) (pending_render s) replaced in
        let outcome :=
          if bool_decide (is_Some (pending_render s)) || bool_decide (is_Some replaced)
          then ReplacedObsoleteRender else Queued in
        let s := remove_obsolete_renders now_ms s in
        let generation := next_render_generation s in
        let s := s <| next_render_generation := next_generation generation |>
                   <| synchronization_timeout_release_generation :=
                        if replaces_timeout_release then Some generation
                        else synchronization_timeout_release_generation s |>
                   <| application_synchronization_bypass_generation :=
                        if bypass_requested || replaces_bypass then Some generation
                        else application_synchronization_bypass_generation s |> in
        let s := note_pending now_ms s in
        (s <| pending_render := Some {| batch := b; byte_len := new_bytes; pr_generation := generation;
                                        pr_accessibility := accessibility |} |>, outcome)
  end.

Definition enqueue_render (b : RenderBatch) (now_ms : N) (s : OutputScheduler) :=
  enqueue_render_with_accessibility b bundle_default now_ms s.

Definition same_effect (o : N) (k : TerminalEventKind) (e : ScheduledTerminalEffect) : bool :=
  (owner e =? o) && bool_decide (terminal_event_kind (event e) = k).

Definition keeps_for_effect (o : N) (k : TerminalEventKind) (t : ActiveTransaction) : bool :=
  negb (offset t =? 0) || negb (bool_decide (kind t = EffectKind)) ||
  negb (existsb (same_effect o k) (at_effects t)).

(** Only the newest unstarted title or working directory of an owner is kept. *)
Definition supersede_effects (o : N) (k : TerminalEventKind) (s : OutputScheduler) : OutputScheduler :=
  match k with
  | KTitle | KWorkingDirectory =>
      s <| pending_effects := List.filter (λ e, negb (same_effect o k e)) (pending_effects s) |>
        <| active := List.filter (keeps_for_effect o k) (active s) |>
  | _ => s
  end.

Definition drop_oldest_effect (o : N) (k : TerminalEventKind) (retained : N) (s : OutputScheduler)
    : OutputScheduler :=
  if maximum_pending_bytes (config s) <? sat_add usize_max (retained_effect_bytes s) retained then
    match take_first (same_effect o k) (pending_effects s) with
    | Some (_, rest) => s <| pending_effects := rest |>
    | None => s
    end
  else s.

Definition enqueue_terminal_effect (o : N) (e : TerminalEvent) (now_ms : N) (s : OutputScheduler)
    : OutputScheduler :=
  let e := bound_terminal_effect e (maximum_pending_bytes (config s)) in
  let k := terminal_event_kind e in
  let s := supersede_effects o k s in
  let retained := terminal_event_retained_bytes e in
  let s := drop_oldest_effect o k retained s in
  if exceeds retained s then s
  else
    let s := note_pending now_ms s in
    s <| pending_effects := pending_effects s ++ [{| owner := o; event := e |}] |>.

Definition wrapper_bytes : N :=
  sat_add usize_max (len SYNCHRONIZED_OUTPUT_START) (len SYNCHRONIZED_OUTPUT_END).

Definition set_synchronized_output_supported (supported : bool) (s : OutputScheduler) : OutputScheduler :=
  let s :=
    match pending_render s with
    | Some r =>
        if bool_decide (supported ≠ synchronized_output_supported s) then
          s <| pending_render := Some {|
                 batch := batch r;
                 byte_len := if supported then sat_add usize_max (byte_len r) wrapper_bytes
                             else byte_len r - wrapper_bytes;
                 pr_generation := pr_generation r;
                 pr_accessibility := pr_accessibility r |} |>
        else s
    | None => s
    end in
  s <| synchronized_output_supported := supported |>.

Definition enqueue_bell (count now_ms : N) (s : OutputScheduler) : OutputScheduler :=
  if count =? 0 then s else
  let retained := N.min count (maximum_pending_bytes (config s) - total_pending_bytes s) in
  if retained =? 0 then s else
  let s := note_pending now_ms s in
  s <| pending_bells := sat_add usize_max (pending_bells s) retained |>.

(** * Application synchronization *)

Definition observe_application_synchronization (synchronized opened activity : bool) (now_ms : N)
    (s : OutputScheduler) : OutputScheduler :=
  if synchronized then
    match application_synchronization s with
    | Some IgnoringUntilClose =>
        if opened then
          s <| application_synchronization := Some (Active now_ms now_ms) |>
            <| synchronization_timeout_release_generation := None |>
        else s
    | Some (Active started last) =>
        if activity then s <| application_synchronization := Some (Active started now_ms) |> else s
    | None => s <| application_synchronization := Some (Active now_ms now_ms) |>
    end
  else
    s <| application_synchronization := None |>
      <| bypass_next_render := false |>
      <| synchronization_timeout_release_generation := None |>.

Definition set_application_synchronization (synchronized opened : bool) (now_ms : N) (s : OutputScheduler) :=
  observe_application_synchronization synchronized opened true now_ms s.
Definition set_application_synchronized (synchronized : bool) (now_ms : N) (s : OutputScheduler) :=
  set_application_synchronization synchronized false now_ms s.

Definition set_application_synchronization_bypassed (bypassed : bool) (s : OutputScheduler)
    : OutputScheduler :=
  s <| bypass_next_render := bypassed && bool_decide (is_Some (application_synchronization s)) |>.

Definition synchronization_deadline (s : OutputScheduler) : option N :=
  match application_synchronization s with
  | Some (Active started last) =>
      Some (N.min (sat_add u128_max last (synchronization_timeout_ms (config s)))
                  (sat_add u128_max started (synchronization_hard_timeout_ms (config s))))
  | _ => None
  end.

Definition application_synchronization_holds_output (s : OutputScheduler) : bool :=
  match application_synchronization s with Some (Active _ _) => true | _ => false end.
Definition application_synchronization_is_ignored (s : OutputScheduler) : bool :=
  match application_synchronization s with Some IgnoringUntilClose => true | _ => false end.

Definition front_started (s : OutputScheduler) : bool :=
  match active s with t :: _ => 0 <? offset t | [] => false end.
Definition front_unstarted (s : OutputScheduler) : bool :=
  match active s with t :: _ => offset t =? 0 | [] => false end.

Definition min_option (a b : option N) : option N :=
  match a, b with Some x, Some y => Some (N.min x y) | Some x, None => Some x | None, b => b end.

(** No transaction is queued or active. *)
Definition nothing_queued (s : OutputScheduler) : bool :=
  bool_decide (pending_bytes s = []) && bool_decide (pending_render s = None) &&
  bool_decide (pending_effects s = []) && (pending_bells s =? 0).

Definition next_deadline_ms (s : OutputScheduler) : option N :=
  if waiting_for_writable s then None else
  if bool_decide (active s = []) && nothing_queued s && negb (flush_required s)
  then synchronization_deadline s else
  let holds_unstarted :=
    application_synchronization_holds_output s &&
    bool_decide (application_synchronization_bypass_generation s = None) && front_unstarted s in
  if (negb (bool_decide (active s = [])) || flush_required s) && negb holds_unstarted then Some 0 else
  if bool_decide (application_synchronization_bypass_generation s = None) &&
     bool_decide (is_Some (synchronization_deadline s))
  then synchronization_deadline s
  else min_option (sat_add u128_max (latency_budget_ms (config s)) <$> pending_since_ms s)
         (synchronization_deadline s).

(** * Draining *)

Definition start_transaction (k : ActiveTransactionKind) (b : bytes) (r : option TrackedRender)
    (effects : list ScheduledTerminalEffect) : ActiveTransaction :=
  {| kind := k; at_bytes := b; offset := 0; completed_render := r; at_effects := effects |}.

Definition activate_bytes (p : PendingBytes) : ActiveTransaction :=
  start_transaction (match pb_class p with Control => ControlKind end) (pb_bytes p) None [].

Definition activate_effect (e : ScheduledTerminalEffect) : ActiveTransaction :=
  start_transaction EffectKind (encode_terminal_effect (event e)) None [e].

Definition rendered_bytes (supported : bool) (b : RenderBatch) : bytes :=
  let wrapped :=
    (if supported then SYNCHRONIZED_OUTPUT_START else []) ++
    mjoin ((λ t, without_synchronization_markers (tx_bytes t)) <$> transactions b) ++
    (if supported then SYNCHRONIZED_OUTPUT_END else []) in
  match supported, transactions b with
  | false, [t] =>
      if contains_synchronization_marker (tx_bytes t)
      then without_synchronization_markers (tx_bytes t) else tx_bytes t
  | _, _ => wrapped
  end.

Definition activate_render (supported : bool) (r : PendingRender) : ActiveTransaction :=
  start_transaction RenderKind (rendered_bytes supported (batch r))
    (Some {| tr_predicted := predicted (batch r); tr_generation := pr_generation r;
             tr_accessibility := pr_accessibility r |}) [].

Definition activate_pending (s : OutputScheduler) : OutputScheduler :=
  match active s with
  | _ :: _ => s
  | [] =>
      s <| active :=
             (activate_bytes <$> pending_bytes s) ++
             (activate_effect <$> pending_effects s) ++
             match pending_render s with
             | Some r => [activate_render (synchronized_output_supported s) r]
             | None => []
             end ++
             (if 0 <? pending_bells s
              then [start_transaction BellKind (repeat BEL (N.to_nat (pending_bells s))) None []] else []) |>
        <| pending_bytes := [] |>
        <| pending_effects := [] |>
        <| pending_render := None |>
        <| pending_bells := 0 |>
        <| pending_since_ms := None |>
  end.

Definition fail (s : OutputScheduler) : OutputScheduler :=
  s <| active := [] |>
    <| awaiting_flush_renders := [] |>
    <| awaiting_flush_effects := [] |>
    <| flush_required := false |>
    <| waiting_for_writable := false |>
    <| pending_bytes := [] |>
    <| pending_render := None |>
    <| pending_effects := [] |>
    <| pending_bells := 0 |>
    <| pending_since_ms := None |>
    <| application_synchronization := None |>
    <| bypass_next_render := false |>
    <| application_synchronization_bypass_generation := None |>
    <| synchronization_timeout_release_generation := None |>
    <| needs_reconciliation := true |>.

Definition complete (r : TrackedRender) : CompletedRender :=
  {| cr_predicted := tr_predicted r; cr_geometry := scene_geometry (tr_predicted r);
     cr_accessibility := tr_accessibility r |}.

Definition complete_render (sr : OutputScheduler * DrainReport) (r : TrackedRender)
    : OutputScheduler * DrainReport :=
  let (s, report) := sr in
  let releases := generation_is (synchronization_timeout_release_generation s) (tr_generation r) in
  let completes := generation_is (application_synchronization_bypass_generation s) (tr_generation r) in
  let report := report <| completed_renders := completed_renders report ++ [complete r] |> in
  let '(s, report) :=
    if releases then
      (s <| synchronization_timeout_release_generation := None |>,
       report <| synchronization_timed_out := true |>)
    else (s, report) in
  if completes then
    (s <| application_synchronization_bypass_generation := None |>,
     report <| application_synchronization_bypass_completed := Some (tr_generation r) |>)
  else (s, report).

Definition complete_awaiting_renders (s : OutputScheduler) (report : DrainReport)
    : OutputScheduler * DrainReport :=
  let (s, report) :=
    foldl complete_render (s <| awaiting_flush_renders := [] |>, report) (awaiting_flush_renders s) in
  (s <| awaiting_flush_effects := [] |>,
   report <| completed_effects := completed_effects report ++ awaiting_flush_effects s |>).

(** The transaction at the front is completely written. *)
Definition retire (t : ActiveTransaction) (rest : list ActiveTransaction) (s : OutputScheduler)
    : OutputScheduler :=
  s <| active := rest |>
    <| awaiting_flush_renders := awaiting_flush_renders s ++ option_list (completed_render t) |>
    <| awaiting_flush_effects := awaiting_flush_effects s ++ at_effects t |>.

Definition completes_bypass (s : OutputScheduler) (t : ActiveTransaction) : bool :=
  match completed_render t with
  | Some r => generation_is (application_synchronization_bypass_generation s) (tr_generation r)
  | None => false
  end.

Fixpoint retire_written (l : list ActiveTransaction) (reached : bool) (s : OutputScheduler)
    : OutputScheduler :=
  match l with
  | t :: rest =>
      if negb reached && bool_decide (remaining t = []) then
        retire_written rest (completes_bypass s t) (retire t rest s)
      else s
  | [] => s
  end.

Section output.
Context {W : Type} `{Writer W}.

Inductive FlushResult := Flushed | FlushBlocked | FlushFailed (e : IoErrorKind).

Fixpoint flush_writer (fuel : nat) (w : W) (s : OutputScheduler) (report : DrainReport)
    : option (W * OutputScheduler * DrainReport * FlushResult) :=
  match fuel with
  | O => None
  | S fuel =>
      match writer_flush w with
      | (w, Ok _) =>
          let (s, report) := complete_awaiting_renders (s <| flush_required := false |>) report in
          Some (w, s, report, Flushed)
      | (w, Err Interrupted) => flush_writer fuel w s report
      | (w, Err WouldBlock) =>
          Some (w, s <| waiting_for_writable := true |>, report <| blocked := true |>, FlushBlocked)
      | (w, Err e) => Some (w, fail s, report, FlushFailed e)
      end
  end.

Inductive WriteResult := WriteDone (reached : bool) | WriteBlocked | WriteFailed (e : IoErrorKind).

Fixpoint write_loop (fuel : nat) (budget : N) (started_only : bool)
    (w : W) (s : OutputScheduler) (report : DrainReport)
    : option (W * OutputScheduler * DrainReport * WriteResult) :=
  match fuel with
  | O => None
  | S fuel =>
      if budget <=? bytes_written report then Some (w, s, report, WriteDone false) else
      match active s with
      | [] => Some (w, s, report, WriteDone false)
      | t :: rest =>
          if started_only && (offset t =? 0) then Some (w, s, report, WriteDone false) else
          if bool_decide (remaining t = []) then
            if completes_bypass s t then Some (w, retire t rest s, report, WriteDone true)
            else write_loop fuel budget started_only w (retire t rest s) report
          else
            let chunk := take (N.to_nat (budget - bytes_written report)) (remaining t) in
            match writer_write chunk w with
            | (w, Ok n) =>
                if n =? 0 then Some (w, fail s, report, WriteFailed WriteZero) else
                write_loop fuel budget started_only w
                  (s <| active := advance n t :: rest |>
                     <| flush_required := true |>)
                  (report <| bytes_written := sat_add usize_max (bytes_written report) n |>)
            | (w, Err Interrupted) => write_loop fuel budget started_only w s report
            | (w, Err WouldBlock) =>
                Some (w, s <| waiting_for_writable := true |>, report <| blocked := true |>, WriteBlocked)
            | (w, Err e) => Some (w, fail s, report, WriteFailed e)
            end
      end
  end.

Definition find_release_generation (s : OutputScheduler) : option N :=
  match pending_render s with
  | Some r => Some (pr_generation r)
  | None =>
      match last (omap completed_render (active s)) with
      | Some r => Some (tr_generation r)
      | None => tr_generation <$> last (awaiting_flush_renders s)
      end
  end.

(** The application's hold: [None] when the drain stops there, otherwise
    whether only a transaction that has already started may be written. *)
Definition application_hold (now_ms : N) (force : bool) (s : OutputScheduler) (report : DrainReport)
    : option (OutputScheduler * DrainReport * bool) :=
  match application_synchronization s with
  | Some (Active started last) =>
      let idle := sat_add u128_max last (synchronization_timeout_ms (config s)) <=? now_ms in
      let hard := sat_add u128_max started (synchronization_hard_timeout_ms (config s)) <=? now_ms in
      let timed_out := idle || hard in
      let holding :=
        negb force && negb timed_out &&
        bool_decide (application_synchronization_bypass_generation s = None) in
      if holding && negb (front_started s) then None else
      if timed_out then
        let release := find_release_generation s in
        Some (s <| application_synchronization := Some IgnoringUntilClose |>
                <| synchronization_timeout_release_generation := release |>,
              (if bool_decide (release = None)
               then report <| synchronization_timed_out := true |> else report), holding)
      else Some (s, report, holding)
  | _ => Some (s, report, false)
  end.

Definition latency_holds (now_ms : N) (force : bool) (s : OutputScheduler) : bool :=
  negb force && bool_decide (active s = []) &&
  match pending_since_ms s with
  | Some started => now_ms <? sat_add u128_max started (latency_budget_ms (config s))
  | None => false
  end.

Definition finish_drain (w : W) (s : OutputScheduler) (report : DrainReport)
    : W * OutputScheduler * result IoErrorKind DrainReport :=
  let (s, report) :=
    if flush_required s then (s, report) else complete_awaiting_renders s report in
  (w, s, Ok (report <| write_budget_exhausted :=
               negb (bool_decide (active s = []) && nothing_queued s) |>)).

Definition flush_if_required (fuel : nat) (w : W) (s : OutputScheduler) (report : DrainReport) :=
  if flush_required s then flush_writer fuel w s report else Some (w, s, report, Flushed).

Definition write_pending (fuel : nat) (started_only : bool) (w : W) (s : OutputScheduler)
    (report : DrainReport) : option (W * OutputScheduler * result IoErrorKind DrainReport) :=
  let s := activate_pending s in
  '(w, s, report, r) ← write_loop fuel (N.max (write_budget_bytes (config s)) 1) started_only w s report;
  match r with
  | WriteFailed e => Some (w, s, Err e)
  | WriteBlocked => Some (w, s, Ok report)
  | WriteDone reached =>
      let s := retire_written (active s) reached s in
      '(w, s, report, f) ← flush_if_required fuel w s report;
      match f with
      | FlushFailed e => Some (w, s, Err e)
      | FlushBlocked => Some (w, s, Ok report)
      | Flushed => Some (finish_drain w s report)
      end
  end.

Definition drain_ready (fuel : nat) (now_ms : N) (force : bool) (w : W) (s : OutputScheduler)
    : option (W * OutputScheduler * result IoErrorKind DrainReport) :=
  let report := report_default in
  if needs_reconciliation s || (waiting_for_writable s && negb force) then Some (w, s, Ok report) else
  let s := if force then s <| waiting_for_writable := false |> else s in
  '(w, s, report, f) ← flush_if_required fuel w s report;
  match f with
  | FlushFailed e => Some (w, s, Err e)
  | FlushBlocked => Some (w, s, Ok report)
  | Flushed =>
      match application_hold now_ms force s report with
      | None => Some (w, s, Ok report)
      | Some (s, report, started_only) =>
          if latency_holds now_ms force s then Some (w, s, Ok report)
          else write_pending fuel started_only w s report
      end
  end.

End output.

Definition recover (s : OutputScheduler) : OutputScheduler :=
  s <| needs_reconciliation := false |> <| waiting_for_writable := false |>.
Definition notify_writable (s : OutputScheduler) : OutputScheduler :=
  s <| waiting_for_writable := false |>.

(** * Progress of the active queue *)

Definition transaction_ok (t : ActiveTransaction) : Prop :=
  offset t ≤ len (at_bytes t) ∧ len (at_bytes t) ≤ usize_max.

(** [advanced l n out l']: writing [out] finishes the first [n] transactions of
    [l] and may write a first part of the next one, leaving [l']. *)
Inductive advanced : list ActiveTransaction → nat → bytes → list ActiveTransaction → Prop :=
| advanced_stop l : advanced l 0 [] l
| advanced_part t l k :
    transaction_ok t → k ≤ len (remaining t) →
    advanced (t :: l) 0 (take (N.to_nat k) (remaining t)) (advance k t :: l)
| advanced_done t l n out l' :
    advanced l n out l' → advanced (t :: l) (S n) (remaining t ++ out) l'.

Definition renders_of (l : list ActiveTransaction) : list TrackedRender := omap completed_render l.
Definition effects_of (l : list ActiveTransaction) : list ScheduledTerminalEffect :=
  mjoin (at_effects <$> l).

(** Only the transaction at the front has started. *)
Definition queue_ok (l : list ActiveTransaction) : Prop :=
  Forall transaction_ok l ∧ Forall (λ t, offset t = 0) (tail l).

Lemma len_remaining t : len (remaining t) = len (at_bytes t) - offset t.
Proof. unfold remaining. rewrite length_drop. lia. Qed.

Lemma advance_exact t k :
  transaction_ok t → k ≤ len (remaining t) →
  offset (advance k t) = offset t + k ∧ transaction_ok (advance k t).
Proof. intros [Ho Hl]. rewrite len_remaining. unfold transaction_ok, advance, sat_add. cbn. lia. Qed.

Lemma remaining_advance t k :
  transaction_ok t → k ≤ len (remaining t) → remaining (advance k t) = drop (N.to_nat k) (remaining t).
Proof.
  intros Hok Hk. destruct (advance_exact t k Hok Hk) as [He _]. unfold remaining.
  rewrite He. cbn. rewrite drop_drop. f_equal. lia.
Qed.

Lemma advance_advance t k1 k2 : advance k2 (advance k1 t) = advance (k1 + k2) t.
Proof. unfold advance, sat_add. cbn. f_equal. lia. Qed.

Lemma advanced_trans l n1 out1 l1 n2 out2 l2 :
  advanced l n1 out1 l1 → advanced l1 n2 out2 l2 → advanced l (n1 + n2) (out1 ++ out2) l2.
Proof.
  induction 1 as [l|t l k Hok Hk|t l n out l' H IH]; intros H2; simpl.
  - done.
  - inversion H2 as [|t' l3 k2 Hok2 Hk2|t' l3 n out l' H3]; subst; simpl.
    + rewrite app_nil_r. by constructor.
    + rewrite remaining_advance in * by done. rewrite length_drop in Hk2.
      rewrite take_take_drop. replace (N.to_nat k + N.to_nat k2)%nat with (N.to_nat (k + k2)) by lia.
      rewrite advance_advance. constructor; [done|lia].
    + rewrite remaining_advance, app_assoc, take_drop by done. by constructor.
  - rewrite <-app_assoc. constructor. auto.
Qed.

Lemma renders_of_cons t l : renders_of (t :: l) = option_list (completed_render t) ++ renders_of l.
Proof. unfold renders_of. simpl. by destruct (completed_render t). Qed.
Lemma effects_of_cons t l : effects_of (t :: l) = at_effects t ++ effects_of l.
Proof. done. Qed.

Lemma advanced_receipts l n out l' m :
  advanced l n out l' →
  renders_of (take (n + m) l) = renders_of (take n l) ++ renders_of (take m l') ∧
  effects_of (take (n + m) l) = effects_of (take n l) ++ effects_of (take m l').
Proof.
  induction 1 as [l|t l k Hok Hk|t l n out l' H [IH1 IH2]]; cbn [Nat.add take].
  - done.
  - destruct m; [done|]. cbn [take]. by rewrite !renders_of_cons, !effects_of_cons.
  - by rewrite !renders_of_cons, !effects_of_cons, IH1, IH2, !app_assoc.
Qed.

Lemma advanced_queue_ok l n out l' : advanced l n out l' → queue_ok l → queue_ok l'.
Proof.
  induction 1 as [l|t l k Hok Hk|t l n out l' H IH]; intros [Hall H0]; simpl in *.
  - done.
  - apply Forall_cons in Hall as [_ Hall]. split; [|done]. constructor; [|done].
    by apply advance_exact.
  - apply Forall_cons in Hall as [_ Hall]. apply IH. split; [done|].
    destruct l; [constructor|]. by inv H0.
Qed.

Lemma sum_bytes_app {A} (f : A → N) l1 l2 : sum_bytes f (l1 ++ l2) = sum_bytes f l1 + sum_bytes f l2.
Proof. induction l1; simpl; lia. Qed.

Lemma sum_bytes_filter {A} (f : A → N) g l : sum_bytes f (List.filter g l) ≤ sum_bytes f l.
Proof. induction l; simpl; [lia|]. case_match; simpl; lia. Qed.

Lemma advanced_bytes l n out l' :
  advanced l n out l' → sum_bytes transaction_bytes l' + len out = sum_bytes transaction_bytes l.
Proof.
  induction 1 as [l|t l k Hok Hk|t l n out l' H IH]; simpl.
  - lia.
  - unfold transaction_bytes. destruct (advance_exact t k Hok Hk) as [-> _]. rewrite length_take.
    pose proof (len_remaining t). change (at_bytes (advance k t)) with (at_bytes t).
    destruct Hok. lia.
  - rewrite length_app. unfold transaction_bytes at 2. pose proof (len_remaining t). lia.
Qed.

Lemma advanced_control_bytes l n out l' :
  advanced l n out l' →
  sum_bytes transaction_bytes (List.filter is_control l') ≤
  sum_bytes transaction_bytes (List.filter is_control l).
Proof.
  induction 1 as [l|t l k Hok Hk|t l n out l' H IH]; simpl.
  - lia.
  - change (is_control (advance k t)) with (is_control t). destruct (is_control t); simpl; [|lia].
    unfold transaction_bytes. destruct (advance_exact t k Hok Hk) as [-> _]. change (at_bytes (advance k t)) with (at_bytes t).
    destruct Hok. lia.
  - destruct (is_control t); simpl; lia.
Qed.

(** Nothing but what a drain changes: the active queue, what awaits a flush and
    the two flags. *)
Definition with_output (s : OutputScheduler) (l : list ActiveTransaction)
    (renders : list TrackedRender) (effects : list ScheduledTerminalEffect) (flush waiting : bool)
    : OutputScheduler :=
  s <| active := l |>
    <| awaiting_flush_renders := renders |>
    <| awaiting_flush_effects := effects |>
    <| flush_required := flush |>
    <| waiting_for_writable := waiting |>.

Definition retired (s : OutputScheduler) (n : nat) (l' : list ActiveTransaction) (flush waiting : bool)
    : OutputScheduler :=
  with_output s l' (awaiting_flush_renders s ++ renders_of (take n (active s)))
    (awaiting_flush_effects s ++ effects_of (take n (active s))) flush waiting.

Lemma retired_0 s l' f wt :
  retired s 0 l' f wt = with_output s l' (awaiting_flush_renders s) (awaiting_flush_effects s) f wt.
Proof. unfold retired, renders_of, effects_of. simpl. by rewrite !app_nil_r. Qed.

Lemma retired_stop s : s = retired s 0 (active s) (flush_required s) (waiting_for_writable s).
Proof. unfold retired, renders_of, effects_of. simpl. by rewrite !app_nil_r. Qed.

Lemma retired_retire s t rest n l' f wt :
  active s = t :: rest →
  retired (retire t rest s) n l' f wt = retired s (S n) l' f wt.
Proof.
  intros Ha. unfold retired, renders_of, effects_of. rewrite Ha. cbn -[app].
  rewrite <-!app_assoc. by destruct (completed_render t).
Qed.

Lemma retired_retired s n1 out l1 f1 w1 n2 l2 f2 w2 :
  advanced (active s) n1 out l1 →
  retired (retired s n1 l1 f1 w1) n2 l2 f2 w2 = retired s (n1 + n2) l2 f2 w2.
Proof.
  intros Ha. destruct (advanced_receipts _ _ _ _ n2 Ha) as [Hr He].
  unfold retired at 1 3. rewrite Hr, He, !app_assoc. done.
Qed.

Lemma retire_written_spec l reached s :
  active s = l →
  ∃ n l', advanced l n [] l' ∧
    retire_written l reached s = retired s n l' (flush_required s) (waiting_for_writable s).
Proof.
  revert reached s. induction l as [|t l IH]; intros reached s Ha; simpl.
  { exists 0%nat, []. split; [constructor|]. rewrite <-Ha. apply retired_stop. }
  destruct (negb reached && _) eqn:Hb.
  - apply andb_true_iff in Hb as [_ Hb%bool_decide_eq_true].
    destruct (IH (completes_bypass s t) (retire t l s) eq_refl) as (n & l' & Hadv & ->).
    exists (S n), l'. split; [|by rewrite retired_retire].
    change [] with (@nil N ++ []). rewrite <-Hb at 1. by constructor.
  - exists 0%nat, (t :: l). split; [constructor|]. rewrite <-Ha. apply retired_stop.
Qed.

(** * What one drain does *)

Definition with_boundaries (s : OutputScheduler) (release bypass : option N) : OutputScheduler :=
  s <| synchronization_timeout_release_generation := release |>
    <| application_synchronization_bypass_generation := bypass |>.

(** [g'] is [g] with the generations of [l] removed. *)
Definition settles (g : option N) (l : list TrackedRender) (g' : option N) : Prop :=
  g' = None ∨ g' = g ∧ Forall (λ r, g ≠ Some (tr_generation r)) l.

Lemma settles_nil g : settles g [] g.
Proof. right. split; [done|constructor]. Qed.

Lemma complete_render_fold s report l :
  let (s', report') := foldl complete_render (s, report) l in
  ∃ release bypass,
    settles (synchronization_timeout_release_generation s) l release ∧
    settles (application_synchronization_bypass_generation s) l bypass ∧
    s' = with_boundaries s release bypass ∧
    completed_renders report' = completed_renders report ++ (complete <$> l) ∧
    completed_effects report' = completed_effects report ∧ bytes_written report' = bytes_written report.
Proof.
  revert s report. induction l as [|r l IH]; intros s report; cbn [foldl].
  { eexists _, _. split_and!; [apply settles_nil..| | |done|done]; [done|by rewrite app_nil_r]. }
  destruct (complete_render (s, report) r) as [s1 report1] eqn:H1. specialize (IH s1 report1).
  destruct (foldl complete_render (s1, report1) l) as [s' report'].
  destruct IH as (rel & byp & Hrel & Hbyp & -> & Hren & Heff & Hbw).
  revert H1. unfold complete_render, generation_is.
  case_bool_decide as Hr; case_bool_decide as Hb; intros [= <- <-]; cbn in *;
    exists rel, byp; unfold settles in *; rewrite !Forall_cons, Hren, <-app_assoc;
    (split_and!; [naive_solver..| | | |]); try done.
Qed.

Lemma complete_awaiting_spec s report s' report' :
  complete_awaiting_renders s report = (s', report') →
  ∃ release bypass,
    settles (synchronization_timeout_release_generation s) (awaiting_flush_renders s) release ∧
    settles (application_synchronization_bypass_generation s) (awaiting_flush_renders s) bypass ∧
    s' = with_boundaries
           (with_output s (active s) [] [] (flush_required s) (waiting_for_writable s)) release bypass ∧
    completed_renders report' = completed_renders report ++ (complete <$> awaiting_flush_renders s) ∧
    completed_effects report' = completed_effects report ++ awaiting_flush_effects s ∧
    bytes_written report' = bytes_written report.
Proof.
  unfold complete_awaiting_renders.
  pose proof (complete_render_fold (s <| awaiting_flush_renders := [] |>) report (awaiting_flush_renders s)) as H.
  destruct (foldl _ _ _) as [s1 report1]. destruct H as (rel & byp & Hrel & Hbyp & -> & Hren & Heff & Hbw).
  intros [= <- <-]. exists rel, byp. split_and!; [done|done|done|exact Hren| |exact Hbw].
  cbn. by f_equal.
Qed.

Section output_proofs.
Context {W : Type} `{WW : Writer W} `{!WriterLaws W}.
Implicit Types w : W.

Lemma flush_writer_spec fuel w s report w' s' report' r :
  flush_writer fuel w s report = Some (w', s', report', r) →
  written w' = written w ∧
  match r with
  | Flushed => flushed w' = len (written w) ∧
               complete_awaiting_renders (s <| flush_required := false |>) report = (s', report')
  | FlushBlocked => s' = s <| waiting_for_writable := true |> ∧ report' = report <| blocked := true |>
                    ∧ flushed w ≤ flushed w'
  | FlushFailed e => s' = fail s
  end.
Proof.
  revert w. induction fuel as [|fuel IH]; intros w; simpl; [done|].
  destruct (writer_flush w) as [w1 [u|[]]] eqn:Hf.
  - destruct (complete_awaiting_renders _ report) as [s1 r1] eqn:Hc.
    destruct u. apply writer_flush_ok in Hf as [Hw Hfl]. intros [= <- <- <- <-]. done.
  - apply writer_flush_err in Hf as [Hw Hfl]. intros H%IH. rewrite Hw in H.
    destruct H as [H1 H2]. split; [done|]. destruct r; [done| |done].
    destruct H2 as (-> & -> & ?). split_and!; [done..|lia].
  - apply writer_flush_err in Hf as [Hw Hfl]. by intros [= <- <- <- <-].
  - apply writer_flush_err in Hf as [Hw Hfl]. by intros [= <- <- <- <-].
  - apply writer_flush_err in Hf as [Hw Hfl]. by intros [= <- <- <- <-].
Qed.

(** What writing does to the writer, the state and the report. *)
Definition wrote (w : W) (s : OutputScheduler) (report : DrainReport)
    (w' : W) (s' : OutputScheduler) (report' : DrainReport) (out : bytes) : Prop :=
  written w' = written w ++ out ∧ flushed w' = flushed w ∧
  ∃ n l' f, advanced (active s) n out l' ∧ s' = retired s n l' f (waiting_for_writable s) ∧
    report' = report <| bytes_written := bytes_written report + len out |> ∧
    (f = true ∨ f = flush_required s ∧ out = []).

Lemma wrote_nothing w s report : wrote w s report w s report [].
Proof.
  split_and!; [by rewrite app_nil_r|done|]. exists 0%nat, (active s), (flush_required s).
  split_and!; [constructor|apply retired_stop| |by right]. cbn. by rewrite N.add_0_r.
Qed.

Lemma wrote_trans w s report w1 s1 report1 out1 w2 s2 report2 out2 :
  wrote w s report w1 s1 report1 out1 → wrote w1 s1 report1 w2 s2 report2 out2 →
  wrote w s report w2 s2 report2 (out1 ++ out2).
Proof.
  intros (Hw1 & Hf1 & n1 & l1 & f1 & Ha1 & -> & -> & Hfl1) (Hw2 & Hf2 & n2 & l2 & f2 & Ha2 & -> & -> & Hfl2).
  split_and!; [by rewrite Hw2, Hw1, app_assoc|congruence|].
  exists (n1 + n2)%nat, l2, f2. split_and!.
  - by eapply advanced_trans.
  - by apply (retired_retired _ _ out1).
  - cbn. by rewrite length_app, Nat2N.inj_add, N.add_assoc.
  - destruct Hfl2 as [Hf2'|[Hf2' ->]]; [by left|]. rewrite app_nil_r. destruct Hfl1 as [Hf1'|[Hf1' ->]].
    + left. by rewrite Hf2'.
    + right. by rewrite Hf2'.
Qed.

Lemma wrote_fail w s report w1 s1 report1 out : wrote w s report w1 s1 report1 out → fail s1 = fail s.
Proof. by intros (_ & _ & n1 & l1 & f1 & _ & -> & _). Qed.

Lemma wrote_ok w s report w1 s1 report1 out :
  wrote w s report w1 s1 report1 out → queue_ok (active s) → queue_ok (active s1).
Proof. intros (_ & _ & n1 & l1 & f1 & Ha & -> & _). by eapply advanced_queue_ok. Qed.

(** Dropping the first transaction once it is completely written. *)
Lemma wrote_retire w s report t rest :
  active s = t :: rest → remaining t = [] → wrote w s report w (retire t rest s) report [].
Proof.
  intros Ha Hr. split_and!; [by rewrite app_nil_r|done|]. exists 1%nat, rest, (flush_required s).
  rewrite Ha. split_and!; [| | |by right].
  - rewrite <-Hr, <-(app_nil_r (remaining t)). repeat constructor.
  - rewrite <-(retired_retire s t rest 0) by done. exact (retired_stop (retire t rest s)).
  - cbn. by rewrite N.add_0_r.
Qed.

(** One successful write. *)
Lemma wrote_chunk budget w s report t rest n w1 :
  active s = t :: rest → transaction_ok t → bytes_written report < budget → budget ≤ usize_max →
  writer_write (take (N.to_nat (budget - bytes_written report)) (remaining t)) w = (w1, Ok n) →
  let report1 := report <| bytes_written := sat_add usize_max (bytes_written report) n |> in
  bytes_written report1 ≤ budget ∧ ∃ out, len out = n ∧
    wrote w s report w1 (s <| active := advance n t :: rest |> <| flush_required := true |>) report1 out.
Proof.
  intros Ha Ht Hb Hmax Hw. destruct (writer_write_ok _ _ _ _ Hw) as (Hn & Hwr & Hfl).
  rewrite length_take in Hn. rewrite take_take in Hwr.
  replace (N.to_nat n `min` N.to_nat (budget - bytes_written report))%nat with (N.to_nat n) in Hwr by lia.
  cbn. split; [unfold sat_add; lia|]. exists (take (N.to_nat n) (remaining t)).
  assert (len (take (N.to_nat n) (remaining t)) = n) as Hlen by (rewrite length_take; lia).
  split_and!; [done..|]. split_and!; [done..|].
  exists 0%nat, (advance n t :: rest), true. rewrite Ha, Hlen, retired_0.
  split_and!; [|done| |by left].
  - constructor; [done|lia].
  - replace (sat_add usize_max (bytes_written report) n) with (bytes_written report + n)
      by (unfold sat_add; lia). done.
Qed.

Lemma write_loop_spec fuel budget started_only w s report w' s' report' r :
  write_loop fuel budget started_only w s report = Some (w', s', report', r) →
  queue_ok (active s) → bytes_written report ≤ budget → budget ≤ usize_max →
  ∃ out w1 s1 report1,
    wrote w s report w1 s1 report1 out ∧ bytes_written report1 ≤ budget ∧
    written w' = written w1 ∧ flushed w' = flushed w1 ∧
    match r with
    | WriteDone _ => s' = s1 ∧ report' = report1
    | WriteBlocked => s' = s1 <| waiting_for_writable := true |> ∧ report' = report1 <| blocked := true |>
    | WriteFailed _ => s' = fail s
    end.
Proof.
  intros Hrun Hok Hbw Hmax. revert w s report Hrun Hok Hbw.
  induction fuel as [|fuel IH]; intros w s report Hrun Hok Hbw; [done|]. cbn [write_loop] in Hrun.
  assert (∀ b, Some (w, s, report, WriteDone b) = Some (w', s', report', r) →
    ∃ out w1 s1 report1, wrote w s report w1 s1 report1 out ∧ bytes_written report1 ≤ budget ∧
      written w' = written w1 ∧ flushed w' = flushed w1 ∧
      match r with
      | WriteDone _ => s' = s1 ∧ report' = report1
      | WriteBlocked => s' = s1 <| waiting_for_writable := true |> ∧ report' = report1 <| blocked := true |>
      | WriteFailed _ => s' = fail s
      end) as Hstop.
  { intros b [= <- <- <- <-]. exists [], w, s, report. split_and!; try done. apply wrote_nothing. }
  destruct (N.leb_spec budget (bytes_written report)) as [Hbud|Hbud]; [eauto|].
  destruct (active s) as [|t rest] eqn:Ha; [eauto|].
  destruct (started_only && _); [eauto|].
  (* the rest of the loop, after a step that [wrote] *)
  assert (∀ w1 s1 report1 out1, wrote w s report w1 s1 report1 out1 → bytes_written report1 ≤ budget →
    write_loop fuel budget started_only w1 s1 report1 = Some (w', s', report', r) →
    ∃ out w1 s1 report1, wrote w s report w1 s1 report1 out ∧ bytes_written report1 ≤ budget ∧
      written w' = written w1 ∧ flushed w' = flushed w1 ∧
      match r with
      | WriteDone _ => s' = s1 ∧ report' = report1
      | WriteBlocked => s' = s1 <| waiting_for_writable := true |> ∧ report' = report1 <| blocked := true |>
      | WriteFailed _ => s' = fail s
      end) as Hnext.
  { intros w1 s1 report1 out1 Hw1 Hb1 H1. apply IH in H1 as (out & w2 & s2 & report2 & Hw2 & Hb2 & Hwr & Hfl & Hr).
    - exists (out1 ++ out), w2, s2, report2. split_and!; [by eapply wrote_trans|done..|].
      destruct r; [done..|]. by rewrite Hr, (wrote_fail _ _ _ _ _ _ _ Hw1).
    - eapply wrote_ok; [done|]. by rewrite Ha.
    - done. }
  case_bool_decide as Hrem.
  { pose proof (wrote_retire w s report t rest Ha Hrem) as Hret.
    destruct (completes_bypass s t); [|by eapply Hnext].
    injection Hrun as <- <- <- <-. exists [], w, (retire t rest s), report. by split_and!. }
  destruct (writer_write _ w) as [w1 [n|[]]] eqn:Hwrite.
  - destruct (wrote_chunk budget w s report t rest n w1) as (Hb1 & out1 & Hn & Hw1); try done.
    { by destruct Hok as [Hok%Forall_inv _]. }
    destruct (N.eqb_spec n 0) as [H0|_]; [|by eapply Hnext].
    injection Hrun as <- <- <- <-. eexists _, w1, _, _. split_and!; [exact Hw1|exact Hb1|done..].
  - apply writer_write_err in Hwrite as [Hwr Hfl]. eapply (Hnext w1 s report []); [|done..].
    split_and!; [by rewrite app_nil_r|done|exact (proj2 (proj2 (wrote_nothing w s report)))].
  - apply writer_write_err in Hwrite as [Hwr Hfl]. injection Hrun as <- <- <- <-.
    exists [], w, s, report. split_and!; try done. apply wrote_nothing.
  - apply writer_write_err in Hwrite as [Hwr Hfl]. injection Hrun as <- <- <- <-.
    exists [], w, s, report. split_and!; try done. apply wrote_nothing.
  - apply writer_write_err in Hwrite as [Hwr Hfl]. injection Hrun as <- <- <- <-.
    exists [], w, s, report. split_and!; try done. apply wrote_nothing.
Qed.

Lemma retire_written_wrote w s report reached :
  wrote w s report w (retire_written (active s) reached s) report [].
Proof.
  destruct (retire_written_spec (active s) reached s eq_refl) as (n & l' & Ha & ->).
  split_and!; [by rewrite app_nil_r|done|]. exists n, l', (flush_required s).
  split_and!; [done|done| |by right]. cbn. by rewrite N.add_0_r.
Qed.

(** Receipts are only given for work that is completely written and flushed. *)
Definition synced (w : W) (s : OutputScheduler) : Prop :=
  flush_required s = false → flushed w = len (written w).

Definition delivers (w : W) (s : OutputScheduler) (report : DrainReport)
    (w' : W) (s' : OutputScheduler) (report' : DrainReport) (out : bytes) : Prop :=
  written w' = written w ++ out ∧ (synced w s → synced w' s') ∧
  (flushed w ≤ flushed w' ∨ flushed w' = len (written w')) ∧
  ∃ n l' reported later reported_effects later_effects f wt release bypass,
    advanced (active s) n out l' ∧
    s' = with_boundaries (with_output s l' later later_effects f wt) release bypass ∧
    awaiting_flush_renders s ++ renders_of (take n (active s)) = reported ++ later ∧
    awaiting_flush_effects s ++ effects_of (take n (active s)) = reported_effects ++ later_effects ∧
    completed_renders report' = completed_renders report ++ (complete <$> reported) ∧
    completed_effects report' = completed_effects report ++ reported_effects ∧
    settles (synchronization_timeout_release_generation s) reported release ∧
    settles (application_synchronization_bypass_generation s) reported bypass ∧
    bytes_written report' = bytes_written report + len out ∧
    (synced w s → reported ≠ [] ∨ reported_effects ≠ [] → flushed w' = len (written w')).

Lemma synced_wrote w s report w1 s1 report1 out :
  synced w s → wrote w s report w1 s1 report1 out → synced w1 s1.
Proof.
  intros Hs (Hw & Hf & n & l' & f & _ & -> & _ & Hfl) H1. cbn in H1.
  destruct Hfl as [->|[-> ->]]; [done|]. rewrite Hw, Hf, app_nil_r. auto.
Qed.

(** Written, then blocked: nothing is reported. *)
Lemma delivers_blocked w s report w1 s1 report1 out w2 :
  wrote w s report w1 s1 report1 out → written w2 = written w1 → flushed w1 ≤ flushed w2 →
  (flush_required s1 = false → flushed w2 = flushed w1) →
  delivers w s report w2 (s1 <| waiting_for_writable := true |>) (report1 <| blocked := true |>) out.
Proof.
  intros Hwr Hw2 Hf2 Heq. pose proof (λ Hs, synced_wrote _ _ _ _ _ _ _ Hs Hwr) as Hs1.
  destruct Hwr as (Hw & Hf & n & l' & f & Ha & -> & -> & Hfl).
  split_and!; [congruence| |left; lia|].
  - intros Hs H0. rewrite Heq, Hw2 by done. by apply Hs1.
  - exists n, l', [], (awaiting_flush_renders s ++ renders_of (take n (active s))), [],
      (awaiting_flush_effects s ++ effects_of (take n (active s))), f, true,
      (synchronization_timeout_release_generation s), (application_synchronization_bypass_generation s).
    split_and!; try done.
    + cbn. by rewrite app_nil_r.
    + cbn. by rewrite app_nil_r.
    + apply settles_nil.
    + apply settles_nil.
    + naive_solver.
Qed.

Lemma delivers_complete w s report w1 s1 report1 out w2 s2 report2 :
  wrote w s report w1 s1 report1 out → written w2 = written w1 →
  (synced w s → flushed w2 = len (written w2)) → (flushed w ≤ flushed w2 ∨ flushed w2 = len (written w2)) →
  complete_awaiting_renders (s1 <| flush_required := false |>) report1 = (s2, report2) →
  delivers w s report w2 s2 report2 out ∧ awaiting_flush_renders s2 = [] ∧ awaiting_flush_effects s2 = [].
Proof.
  intros (Hw & Hf & n & l' & f & Ha & -> & -> & Hfl) Hw2 Hf2 Hmono Hc.
  apply complete_awaiting_spec in Hc as (rel & byp & Hrel & Hbyp & -> & Hren & Heff & Hbw).
  split; [|done]. split_and!; [congruence|by intros Hs _; apply Hf2|done|].
  exists n, l', (awaiting_flush_renders s ++ renders_of (take n (active s))), [],
    (awaiting_flush_effects s ++ effects_of (take n (active s))), [], false, (waiting_for_writable s), rel, byp.
  split_and!; rewrite ?app_nil_r; try done. intros Hs _. by apply Hf2.
Qed.

Lemma complete_awaiting_idem s report :
  awaiting_flush_renders s = [] → awaiting_flush_effects s = [] →
  complete_awaiting_renders s report = (s, report).
Proof.
  intros Hr He. unfold complete_awaiting_renders. rewrite Hr. cbn [foldl].
  change (awaiting_flush_effects (s <| awaiting_flush_renders := [] |>)) with (awaiting_flush_effects s).
  rewrite He, app_nil_r. f_equal. transitivity (s <| awaiting_flush_renders := awaiting_flush_renders s |>
                           <| awaiting_flush_effects := awaiting_flush_effects s |>); [|done].
  by rewrite Hr, He.
Qed.

Lemma fail_wrote_activate s : fail (activate_pending s) = fail s.
Proof. unfold activate_pending. by case_match. Qed.

Lemma write_pending_spec fuel started_only w s report w' s' res :
  write_pending fuel started_only w s report = Some (w', s', res) →
  queue_ok (active (activate_pending s)) → bytes_written report = 0 →
  write_budget_bytes (config s) ≤ usize_max →
  match res with
  | Err _ => s' = fail s ∧ ∃ out, written w' = written w ++ out
  | Ok report' =>
      ∃ out, len out ≤ N.max (write_budget_bytes (config s)) 1 ∧
        delivers w (activate_pending s) report w' s' report' out
  end.
Proof.
  unfold write_pending. intros Hrun Hok Hbw Hmax.
  set (s0 := activate_pending s) in *.
  assert (config s0 = config s) as Hcfg by (unfold s0, activate_pending; by case_match).
  rewrite Hcfg in Hrun. apply bind_Some in Hrun as ([[[w1 s1] report1] r] & Hloop & Hrun).
  apply write_loop_spec in Hloop as (out & w2 & s2 & report2 & Hwr & Hb2 & Hww & Hff & Hr);
    [|done|lia|unfold usize_max, u64_max in *; lia].
  assert (len out ≤ N.max (write_budget_bytes (config s)) 1) as Hlen.
  { destruct Hwr as (_ & _ & n & l' & f & _ & _ & -> & _). cbn in Hb2. lia. }
  destruct r as [reached| |e].
  - destruct Hr as [-> ->].
    assert (wrote w s0 report w1 (retire_written (active s2) reached s2) report2 out) as Hwr2.
    { rewrite <-(app_nil_r out). eapply wrote_trans; [exact Hwr|].
      destruct (retire_written_wrote w2 s2 report2 reached) as (_ & _ & H).
      split_and!; [by rewrite app_nil_r|done|exact H]. }
    set (s3 := retire_written (active s2) reached s2) in *.
    apply bind_Some in Hrun as ([[[w4 s4] report4] fl] & Hflush & Hrun).
    unfold flush_if_required in Hflush. destruct (flush_required s3) eqn:Hfr.
    + apply flush_writer_spec in Hflush as [Hw4 Hfl]. destruct fl as [| |e].
      * destruct Hfl as [Hf4 Hc]. rewrite <-Hw4 in Hf4.
        destruct (delivers_complete _ _ _ _ _ _ _ _ _ _ Hwr2 Hw4 (λ _, Hf4) (or_intror Hf4) Hc) as (Hd & H1 & H2).
        unfold finish_drain in Hrun. rewrite complete_awaiting_idem in Hrun by done.
        destruct (flush_required s4); injection Hrun as <- <- <-; by exists out.
      * destruct Hfl as (-> & -> & Hle). injection Hrun as <- <- <-. exists out. split; [done|].
        eapply delivers_blocked; try done. congruence.
      * injection Hrun as <- <- <-. subst s4. split.
        { rewrite (wrote_fail _ _ _ _ _ _ _ Hwr2). apply fail_wrote_activate. }
        exists out. rewrite Hw4. by destruct Hwr2.
    + injection Hflush as <- <- <- <-. unfold finish_drain in Hrun. rewrite Hfr in Hrun.
      destruct (complete_awaiting_renders s3 report2) as [s5 report5] eqn:Hc.
      assert (s3 = s3 <| flush_required := false |>) as E by (by rewrite <-Hfr).
      rewrite E in Hc.
      assert (synced w s0 → flushed w1 = len (written w1)) as Hf1
        by (intros Hs; by apply (synced_wrote _ _ _ _ _ _ _ Hs Hwr2)).
      assert (flushed w ≤ flushed w1) as Hm1 by (destruct Hwr2 as (_ & -> & _); lia).
      injection Hrun as <- <- <-. exists out. split; [done|].
      by destruct (delivers_complete _ _ _ _ _ _ _ _ _ _ Hwr2 eq_refl Hf1 (or_introl Hm1) Hc) as (Hd & _ & _).
  - destruct Hr as [-> ->]. injection Hrun as <- <- <-. exists out. split; [done|].
    eapply delivers_blocked; [exact Hwr|done|lia|done].
  - subst s1. injection Hrun as <- <- <-. split.
    { unfold s0. apply fail_wrote_activate. }
    exists out. rewrite Hww. by destruct Hwr.
Qed.

(** The flush at the start of a drain reports all that awaits it, or nothing. *)
Definition flush_stage (w : W) (s : OutputScheduler) (report : DrainReport)
    (w' : W) (s' : OutputScheduler) (report' : DrainReport) : Prop :=
  written w' = written w ∧ (synced w s → synced w' s') ∧ bytes_written report' = bytes_written report ∧
  ∃ f wt,
    (∃ release bypass,
      settles (synchronization_timeout_release_generation s) (awaiting_flush_renders s) release ∧
      settles (application_synchronization_bypass_generation s) (awaiting_flush_renders s) bypass ∧
      s' = with_boundaries (with_output s (active s) [] [] f wt) release bypass ∧
      completed_renders report' = completed_renders report ++ (complete <$> awaiting_flush_renders s) ∧
      completed_effects report' = completed_effects report ++ awaiting_flush_effects s ∧
      flushed w' = len (written w')) ∨
    (s' = with_output s (active s) (awaiting_flush_renders s) (awaiting_flush_effects s) f wt ∧
     completed_renders report' = completed_renders report ∧
     completed_effects report' = completed_effects report).

Lemma flush_if_required_spec fuel w s report w' s' report' r :
  flush_if_required fuel w s report = Some (w', s', report', r) →
  match r with
  | FlushFailed _ => s' = fail s ∧ written w' = written w
  | _ => flush_stage w s report w' s' report'
  end.
Proof.
  unfold flush_if_required. intros Hrun. destruct (flush_required s) eqn:Hfr.
  - apply flush_writer_spec in Hrun as [Hw Hr]. destruct r as [| |e].
    + destruct Hr as [Hf Hc]. apply complete_awaiting_spec in Hc as (rel & byp & Hrel & Hbyp & -> & Hren & Heff & Hbw).
      split_and!; [done|intros _ _; congruence|done|]. exists false, (waiting_for_writable s). left.
      exists rel, byp. split_and!; try done. congruence.
    + destruct Hr as (-> & -> & Hf). split_and!; [done| |done|].
      * unfold synced. cbn. congruence.
      * exists (flush_required s), true. by right.
    + done.
  - injection Hrun as <- <- <- <-. split_and!; [done..|].
    exists (flush_required s), (waiting_for_writable s). by right.
Qed.

Lemma application_hold_spec now_ms force s report s' report' started_only :
  application_hold now_ms force s report = Some (s', report', started_only) →
  completed_renders report' = completed_renders report ∧
  completed_effects report' = completed_effects report ∧ bytes_written report' = bytes_written report ∧
  ∃ sync release,
    s' = s <| application_synchronization := sync |>
           <| synchronization_timeout_release_generation := release |> ∧
    (release = synchronization_timeout_release_generation s ∨ release = find_release_generation s).
Proof.
  assert (∀ b, Some (s, report, b) = Some (s', report', started_only) →
    completed_renders report' = completed_renders report ∧
    completed_effects report' = completed_effects report ∧ bytes_written report' = bytes_written report ∧
    ∃ sync release, s' = s <| application_synchronization := sync |>
                           <| synchronization_timeout_release_generation := release |> ∧
      (release = synchronization_timeout_release_generation s ∨ release = find_release_generation s))
    as Hsame.
  { intros b [= <- <- <-]. split_and!; try done.
    exists (application_synchronization s), (synchronization_timeout_release_generation s). by split; [|left]. }
  unfold application_hold. destruct (application_synchronization s) as [[started last|]|] eqn:Hs; [|apply Hsame..].
  destruct (_ && negb (front_started s)); [done|].
  destruct (_ || _); [|apply Hsame]. intros [= <- <- <-].
  split_and!; [by case_bool_decide..|]. exists (Some IgnoringUntilClose), (find_release_generation s). split; [done|by right].
Qed.

(** What one drain does to the writer, the queue and the receipts. *)
Definition drained (w : W) (s : OutputScheduler) (w' : W) (s' : OutputScheduler) (report : DrainReport)
    : Prop :=
  ∃ l n out reported reported_effects,
    (l = active s ∨ l = active (activate_pending s)) ∧
    advanced l n out (active s') ∧
    written w' = written w ++ out ∧ bytes_written report = len out ∧
    len out ≤ N.max (write_budget_bytes (config s)) 1 ∧
    awaiting_flush_renders s ++ renders_of (take n l) = reported ++ awaiting_flush_renders s' ∧
    awaiting_flush_effects s ++ effects_of (take n l) = reported_effects ++ awaiting_flush_effects s' ∧
    completed_renders report = complete <$> reported ∧
    completed_effects report = reported_effects ∧
    (synced w s → reported ≠ [] ∨ reported_effects ≠ [] → len (written w) ≤ flushed w') ∧
    (synced w s →
     (length (awaiting_flush_renders s) < length reported)%nat ∨
     (length (awaiting_flush_effects s) < length reported_effects)%nat →
     flushed w' = len (written w')).

Lemma drained_nothing w s s' report :
  active s' = active s → awaiting_flush_renders s' = awaiting_flush_renders s →
  awaiting_flush_effects s' = awaiting_flush_effects s →
  bytes_written report = 0 → completed_renders report = [] → completed_effects report = [] →
  drained w s w s' report.
Proof.
  intros Ha Hr He Hb Hcr Hce. exists (active s), 0%nat, [], [], []. rewrite Ha, Hr, He.
  split_and!; try done; [by left|constructor|by rewrite app_nil_r|cbn; lia|by rewrite app_nil_r..| |].
  - naive_solver.
  - simpl. lia.
Qed.

Lemma activate_flush_required s : flush_required (activate_pending s) = flush_required s.
Proof. unfold activate_pending. by case_match. Qed.

(** The state between the flush stage and the writes. *)
Lemma activate_after_flush s (l : list ActiveTransaction) renders effects f wt release bypass sync release' :
  l = active s →
  let s1 := with_boundaries (with_output s l renders effects f wt) release bypass in
  let s2 := s1 <| application_synchronization := sync |>
               <| synchronization_timeout_release_generation := release' |> in
  active (activate_pending s2) = active (activate_pending s) ∧
  awaiting_flush_renders (activate_pending s2) = renders ∧
  awaiting_flush_effects (activate_pending s2) = effects.
Proof.
  intros ->. cbv zeta. unfold activate_pending. cbn. destruct (active s) eqn:Ha; split_and!; try done.
Qed.

Lemma drained_compose w s w1 s1 report1 s2 report2 w' s' report' out :
  flush_stage w s report_default w1 s1 report1 →
  completed_renders report2 = completed_renders report1 →
  completed_effects report2 = completed_effects report1 → bytes_written report2 = bytes_written report1 →
  (∃ sync release, s2 = s1 <| application_synchronization := sync |>
                           <| synchronization_timeout_release_generation := release |>) →
  len out ≤ N.max (write_budget_bytes (config s)) 1 →
  delivers w1 (activate_pending s2) report2 w' s' report' out →
  drained w s w' s' report'.
Proof.
  intros (Hw1 & Hsy & Hb1 & f & wt & Hstage) Hr2 He2 Hb2 (sync & rel2 & ->) Hlen
    (Hw' & _ & Hmono & n & l' & rep & later & repe & latere & f' & wt' & relx & bypx & Ha & -> & Hrens & Heffs
     & Hcr & Hce & _ & _ & Hbw & Hfl).
  match type of Ha with advanced (active ?t) _ _ _ =>
    assert (synced w s → synced w1 t) as Hsy2 by (intros H H0; apply Hsy; [done|]; by rewrite activate_flush_required in H0)
  end.
  clear Hsy. exists (active (activate_pending s)), n, out.
  destruct Hstage as [(rel & byp & _ & _ & -> & Hc1 & He1 & Hf1)|(-> & Hc1 & He1)].
  - destruct (activate_after_flush s (active s) [] [] f wt rel byp sync rel2 eq_refl) as (E1 & E2 & E3).
    rewrite E1 in *. rewrite E2, E3 in *. cbn in Hrens, Heffs.
    exists (awaiting_flush_renders s ++ rep), (awaiting_flush_effects s ++ repe).
    rewrite Hcr, Hce, Hr2, He2, Hc1, He1, fmap_app.
    split_and!; try done; [by right|congruence|cbn in *; lia
      |cbn; rewrite <-app_assoc; by f_equal|cbn; rewrite <-app_assoc; by f_equal| |].
    + intros _ _. rewrite Hw', length_app in Hmono. rewrite Hw1 in *. lia.
    + rewrite !length_app. intros Hs H. apply Hfl; [by apply Hsy2|]. destruct rep, repe; simpl in *; auto; lia.
  - destruct (activate_after_flush s (active s) (awaiting_flush_renders s) (awaiting_flush_effects s) f wt
      (synchronization_timeout_release_generation s) (application_synchronization_bypass_generation s)
      sync rel2 eq_refl) as (E1 & E2 & E3). cbv zeta in E1, E2, E3.
    change (with_boundaries (with_output ?a ?b ?c ?d ?e ?g) _ _) with (with_output a b c d e g) in E1, E2, E3.
    rewrite E1 in *. rewrite E2, E3 in *.
    exists rep, repe. rewrite Hcr, Hce, Hr2, He2, Hc1, He1.
    split_and!; try done; [by right|congruence|cbn in *; lia| |].
    + intros Hs H. rewrite (Hfl (Hsy2 Hs) H), Hw', length_app, Hw1. lia.
    + intros Hs H. apply Hfl; [by apply Hsy2|]. destruct rep, repe; simpl in *; auto; lia.
Qed.

Lemma drained_flush_only w s w1 s1 report1 s2 report2 :
  flush_stage w s report_default w1 s1 report1 →
  completed_renders report2 = completed_renders report1 →
  completed_effects report2 = completed_effects report1 → bytes_written report2 = bytes_written report1 →
  (∃ sync release, s2 = s1 <| application_synchronization := sync |>
                           <| synchronization_timeout_release_generation := release |>) →
  drained w s w1 s2 report2.
Proof.
  intros (Hw1 & _ & Hb1 & f & wt & Hstage) Hr2 He2 Hb2 (sync & rel2 & ->).
  exists (active s), 0%nat, []. rewrite Hr2, He2, Hb2, Hb1.
  destruct Hstage as [(rel & byp & _ & _ & -> & Hc1 & He1 & Hf1)|(-> & Hc1 & He1)]; rewrite Hc1, He1.
  - exists (awaiting_flush_renders s), (awaiting_flush_effects s).
    split_and!; try done; [by left|apply advanced_stop|by rewrite app_nil_r|cbn; lia|].
    intros _ _. rewrite <-Hw1, <-Hf1. lia.
  - exists [], []. split_and!; try done;
      [by left|apply advanced_stop|by rewrite app_nil_r|cbn; lia|cbn; by rewrite app_nil_r..| |].
    + naive_solver.
    + simpl. lia.
Qed.

Lemma drain_ready_spec fuel now_ms force w s w' s' res :
  drain_ready fuel now_ms force w s = Some (w', s', res) →
  queue_ok (active (activate_pending s)) → write_budget_bytes (config s) ≤ usize_max →
  match res with
  | Err _ => s' = fail s ∧ ∃ out, written w' = written w ++ out
  | Ok report => drained w s w' s' report ∧ (synced w s → synced w' s')
  end.
Proof.
  unfold drain_ready. intros Hrun Hok Hmax.
  destruct (needs_reconciliation s || _).
  { injection Hrun as <- <- <-. split; [by apply drained_nothing|done]. }
  set (s0 := if force then _ else s) in *.
  assert (∃ wt, s0 = s <| waiting_for_writable := wt |>) as [wt0 Es0].
  { unfold s0. destruct force; [by eexists|]. by exists (waiting_for_writable s). }
  clearbody s0. apply bind_Some in Hrun as ([[[w1 s1] report1] fl] & Hflush & Hrun).
  apply flush_if_required_spec in Hflush.
  destruct fl as [| |e].
  - assert (flush_stage w s report_default w1 s1 report1) as Hstage.
    { rewrite Es0 in Hflush. destruct Hflush as (? & ? & ? & f & wt & H). split_and!; [done..|].
      exists f, wt. exact H. }
    assert (synced w s → synced w1 s1) as Hsync1 by (by destruct Hstage as (_ & ? & _)).
    destruct (application_hold now_ms force s1 report1) as [[[s2 report2] started_only]|] eqn:Hhold.
    2:{ injection Hrun as <- <- <-. split; [|done]. eapply drained_flush_only; try done.
        by exists (application_synchronization s1), (synchronization_timeout_release_generation s1). }
    apply application_hold_spec in Hhold as (Hr2 & He2 & Hb2 & sync & rel & Hs2 & _).
    assert (synced w s → synced w1 s2) as Hsync2 by (by rewrite Hs2).
    destruct (latency_holds now_ms force s2).
    { injection Hrun as <- <- <-. split; [|done]. eapply drained_flush_only; try done. eauto. }
    assert (active (activate_pending s2) = active (activate_pending s) ∧ config s2 = config s ∧ fail s2 = fail s)
      as (E1 & E2 & E3).
    { rewrite Hs2. destruct Hstage as (_ & _ & _ & f & wt & [(r1 & b1 & _ & _ & -> & _)|(-> & _)]);
        (split; [|done]); unfold activate_pending; cbn; destruct (active s) eqn:Ha; try done. }
    pose proof (write_pending_spec _ _ _ _ _ _ _ _ Hrun) as Hw. rewrite E1, E2 in Hw.
    specialize (Hw Hok ltac:(rewrite Hb2; by destruct Hstage as (_ & _ & -> & _)) Hmax).
    destruct res as [report|e].
    + destruct Hw as (out & Hlen & Hd). split.
      2:{ intros Hs. apply Hd. intros H0. rewrite activate_flush_required in H0. by apply Hsync2. }
      eapply drained_compose; try done. eauto.
    + destruct Hw as (-> & out & Hout). split; [done|]. exists out. destruct Hstage as (Hw1 & _). congruence.
  - injection Hrun as <- <- <-.
    assert (flush_stage w s report_default w1 s1 report1) as Hstage.
    { rewrite Es0 in Hflush. destruct Hflush as (? & ? & ? & f & wt & H). split_and!; [done..|].
      exists f, wt. exact H. }
    split; [|by destruct Hstage as (_ & ? & _)]. eapply drained_flush_only; try done.
    by exists (application_synchronization s1), (synchronization_timeout_release_generation s1).
  - injection Hrun as <- <- <-. destruct Hflush as [-> Hw]. rewrite Es0. split; [done|].
    exists []. by rewrite app_nil_r.
Qed.

End output_proofs.

(** * The invariant of the scheduler *)

Definition raw_total (s : OutputScheduler) : N :=
  sum_bytes transaction_bytes (active s) + sum_bytes (λ p, len (pb_bytes p)) (pending_bytes s) +
  render_bytes s + sum_bytes (λ e, terminal_event_retained_bytes (event e)) (pending_effects s) +
  pending_bells s.

Definition raw_batch (b : RenderBatch) : N := sum_bytes (λ t, len (tx_bytes t)) (transactions b).

Definition wrapper (supported : bool) : N := if supported then 16 else 0.

(** Switching synchronized output on adds a wrapper to a render already queued. *)
Definition allowance (s : OutputScheduler) : N :=
  match pending_render s with Some _ => wrapper (synchronized_output_supported s) | None => 16 end.

Definition raw_control (s : OutputScheduler) : N :=
  sum_bytes (λ p, len (pb_bytes p)) (pending_bytes s) +
  sum_bytes transaction_bytes (List.filter is_control (active s)).

Definition live_generations (s : OutputScheduler) : list N :=
  option_list (pr_generation <$> pending_render s) ++ (tr_generation <$> renders_of (active s)) ++
  (tr_generation <$> awaiting_flush_renders s).

Definition boundary_live (g : option N) (s : OutputScheduler) : Prop :=
  ∀ x, g = Some x → x ∈ live_generations s.

Definition is_render (t : ActiveTransaction) : bool := bool_decide (kind t = RenderKind).

(** Only render transactions carry a render, and there is at most one. *)
Definition renders_only (l : list ActiveTransaction) : Prop :=
  Forall (λ t, is_Some (completed_render t) → kind t = RenderKind) l ∧
  (length (List.filter is_render l) ≤ 1)%nat.

Record scheduler_inv (s : OutputScheduler) : Prop := {
  inv_config : maximum_pending_bytes (config s) + 16 < usize_max ∧ write_budget_bytes (config s) ≤ usize_max;
  inv_total : raw_total s ≤ maximum_pending_bytes (config s) + allowance s;
  inv_control : raw_control s ≤ CONTROL_BACKLOG_LIMIT_BYTES;
  inv_queue : queue_ok (active s);
  inv_kinds : renders_only (active s);
  inv_render : ∀ r, pending_render s = Some r →
    byte_len r = raw_batch (batch r) + wrapper (synchronized_output_supported s);
  inv_release : boundary_live (synchronization_timeout_release_generation s) s;
  inv_bypass : boundary_live (application_synchronization_bypass_generation s) s
}.

Lemma total_raw s : total_pending_bytes s = N.min usize_max (raw_total s).
Proof. unfold total_pending_bytes, raw_total, sat_add. lia. Qed.

Lemma exceeds_false extra s :
  maximum_pending_bytes (config s) + 16 < usize_max →
  exceeds extra s = false → raw_total s + extra ≤ maximum_pending_bytes (config s).
Proof. unfold exceeds. rewrite total_raw. unfold sat_add. lia. Qed.

Lemma allowance_le s : allowance s ≤ 16.
Proof. unfold allowance, wrapper. repeat case_match; lia. Qed.

Lemma queue_ok_filter f l : queue_ok l → queue_ok (List.filter f l).
Proof.
  intros [Hok H0]. split.
  - clear H0. induction Hok as [|t l Ht Hl IH]; simpl; [constructor|]. case_match; [by constructor|done].
  - destruct l as [|t l]; [constructor|]. simpl in *. clear Hok.
    assert (Forall (λ t, offset t = 0) (List.filter f l)) as Hl.
    { induction H0 as [|u l Hu Hl IH]; simpl; [constructor|]. case_match; [by constructor|done]. }
    case_match; simpl; [done|]. by destruct Hl.
Qed.

Lemma renders_only_filter f l : renders_only l → renders_only (List.filter f l).
Proof.
  intros [H H1]. split.
  - rewrite Forall_forall in H |- *. intros x [Hx _]%elem_of_Filter. auto.
  - etrans; [|exact H1]. clear. induction l as [|t l IH]; simpl; [done|].
    destruct (f t); simpl; destruct (is_render t); simpl; lia.
Qed.

Lemma elem_of_renders_of r l : r ∈ renders_of l ↔ ∃ t, t ∈ l ∧ completed_render t = Some r.
Proof. unfold renders_of. apply list_elem_of_omap. Qed.

Lemma elem_of_live x s :
  x ∈ live_generations s ↔
    (∃ r, pending_render s = Some r ∧ pr_generation r = x) ∨
    (∃ t r, t ∈ active s ∧ completed_render t = Some r ∧ tr_generation r = x) ∨
    (∃ r, r ∈ awaiting_flush_renders s ∧ tr_generation r = x).
Proof.
  unfold live_generations. rewrite !elem_of_app, !list_elem_of_fmap.
  setoid_rewrite elem_of_renders_of. destruct (pending_render s); simpl; set_solver.
Qed.

(** What the invariant says of states that only lost work. *)
Lemma inv_shrink s s' :
  scheduler_inv s → config s' = config s →
  synchronized_output_supported s' = synchronized_output_supported s →
  (pending_render s' = None ∨ pending_render s' = pending_render s) →
  raw_total s' ≤ raw_total s → raw_control s' ≤ raw_control s →
  queue_ok (active s') → renders_only (active s') →
  boundary_live (synchronization_timeout_release_generation s') s' →
  boundary_live (application_synchronization_bypass_generation s') s' → scheduler_inv s'.
Proof.
  intros [Hc Ht Hctl Hq Hk Hr Hrel Hbyp] Ec Es Ep Hle Hlec Hq' Hk' Hrel' Hbyp'. split; try done.
  - by rewrite Ec.
  - etrans; [exact Hle|]. etrans; [exact Ht|]. rewrite Ec. apply N.add_le_mono_l.
    pose proof (allowance_le s). unfold allowance in *. rewrite Es. destruct Ep as [->| ->]; [done|].
    by case_match.
  - lia.
  - intros r H. rewrite Es. apply Hr. destruct Ep as [Ep|Ep]; congruence.
Qed.

Lemma set_since_inv since s : scheduler_inv s → scheduler_inv (s <| pending_since_ms := since |>).
Proof. by intros []. Qed.

Lemma append_pending_sum class b m l :
  sum_bytes (λ p, len (pb_bytes p)) (append_pending class b m l) = sum_bytes (λ p, len (pb_bytes p)) l + len b.
Proof.
  unfold append_pending. destruct (last l) as [q|] eqn:Hq.
  - apply last_Some in Hq as [l' ->]. destruct (_ && _).
    + rewrite removelast_last, !sum_bytes_app. simpl. rewrite length_app. lia.
    + rewrite !sum_bytes_app. simpl. lia.
  - rewrite sum_bytes_app. simpl. lia.
Qed.

#[local] Arguments append_pending : simpl never.

Lemma push_bytes_inv class b now_ms s :
  scheduler_inv s → raw_total s + len b ≤ maximum_pending_bytes (config s) →
  raw_control s + len b ≤ CONTROL_BACKLOG_LIMIT_BYTES → scheduler_inv (push_bytes class b now_ms s).
Proof.
  intros [Hc Ht Hctl Hq Hk Hr Hrel Hbyp] Hb Hcb. unfold push_bytes. split; try done.
  - unfold raw_total, render_bytes in *. destruct s. cbn in *. rewrite append_pending_sum. lia.
  - unfold raw_control in *. destruct s. cbn in *. rewrite append_pending_sum. lia.
Qed.

Lemma control_filter_le (f : ActiveTransaction → bool) l :
  sum_bytes transaction_bytes (List.filter is_control (List.filter f l)) ≤
  sum_bytes transaction_bytes (List.filter is_control l).
Proof.
  induction l as [|t l IH]; simpl; [lia|].
  destruct (f t); simpl; destruct (is_control t); simpl; lia.
Qed.

Lemma discard_visual_inv s : scheduler_inv s → scheduler_inv (discard_visual_work s).
Proof.
  intros Hinv. pose proof Hinv as [Hc Ht Hctl Hq Hk Hr Hrel Hbyp].
  assert (∀ x, is_boundary s x = true → x ∈ live_generations s → x ∈ live_generations (discard_visual_work s))
    as Hkeep.
  { intros x Hx. rewrite !elem_of_live. intros [(r & Hp & <-)|[(t & r & Hin & Ht' & <-)|H]].
    - left. exists r. split; [|done]. cbn. rewrite Hp. by rewrite Hx.
    - right. left. exists t, r. split_and!; [|done|done]. cbn. apply elem_of_Filter. split; [done|].
      unfold keeps_for_control. rewrite Ht', Hx. by rewrite orb_true_r.
    - right. by right. }
  apply (inv_shrink s); try done.
  - cbn. case_match; [|by left]. case_match; [by right|by left].
  - pose proof (sum_bytes_filter transaction_bytes (keeps_for_control s) (active s)).
    unfold raw_total, render_bytes. destruct s; cbn in *. repeat case_match; simplify_eq; lia.
  - pose proof (control_filter_le (keeps_for_control s) (active s)). unfold raw_control. destruct s; cbn in *. lia.
  - cbn. by apply queue_ok_filter.
  - cbn. by apply renders_only_filter.
  - intros x Hx. apply Hkeep; [|by apply Hrel]. unfold is_boundary. cbn in Hx.
    by rewrite bool_decide_eq_true_2.
  - intros x Hx. apply Hkeep; [|by apply Hbyp]. unfold is_boundary. cbn in Hx.
    by rewrite orb_true_iff; right; apply bool_decide_eq_true_2.
Qed.

Lemma enqueue_bytes_inv class b now_ms s :
  scheduler_inv s → scheduler_inv (enqueue_bytes class b now_ms s).
Proof.
  intros Hinv. unfold enqueue_bytes. case_bool_decide as Hb; [done|].
  destruct (_ || _) eqn:Hlim; [done|]. apply orb_false_elim in Hlim as [_ Hlim].
  assert (raw_control s + len b ≤ CONTROL_BACKLOG_LIMIT_BYTES) as Hctl.
  { pose proof (inv_control s Hinv). unfold control_bytes, raw_control, sat_add in *.
    unfold CONTROL_BACKLOG_LIMIT_BYTES, usize_max, u64_max in *. lia. }
  destruct (exceeds (len b) s) eqn:Hex.
  - pose proof (discard_visual_inv s Hinv) as Hinv'.
    destruct (exceeds (len b) (discard_visual_work s)) eqn:Hex'; [done|].
    apply push_bytes_inv; [done| |].
    + apply exceeds_false; [|done]. apply Hinv'.
    + pose proof (control_filter_le (keeps_for_control s) (active s)). unfold raw_control in *. destruct s; cbn in *. lia.
  - apply push_bytes_inv; [done| |done]. apply exceeds_false; [|done]. apply Hinv.
Qed.

Lemma cleanup_inv s : scheduler_inv s → scheduler_inv (prepare_for_lifecycle_cleanup s).
Proof.
  intros Hinv. pose proof Hinv as [Hc Ht Hctl Hq Hk Hr Hrel Hbyp].
  unfold prepare_for_lifecycle_cleanup. cbv zeta.
  match goal with |- scheduler_inv (match active ?s1 with _ => _ end) =>
    assert (scheduler_inv s1) as Hs1; [|by repeat case_match; try apply set_since_inv] end.
  apply (inv_shrink s); try done.
  - by left.
  - pose proof (sum_bytes_filter transaction_bytes (λ t, 0 <? offset t) (active s)).
    unfold raw_total, render_bytes. destruct s; cbn in *. lia.
  - pose proof (control_filter_le (λ t, 0 <? offset t) (active s)). unfold raw_control. destruct s; cbn in *. lia.
  - cbn. by apply queue_ok_filter.
  - cbn. by apply renders_only_filter.
Qed.

(** ** Renders *)

Lemma take_first_Some {A} (f : A → bool) l x rest :
  take_first f l = Some (x, rest) → ∃ l1 l2, l = l1 ++ x :: l2 ∧ rest = l1 ++ l2 ∧ f x = true.
Proof.
  revert rest. induction l as [|y l IH]; intros rest; simpl; [done|]. destruct (f y) eqn:Hy.
  - intros [= -> ->]. by exists [], rest.
  - destruct (take_first f l) as [[z rest']|]; [|done]. intros [= -> <-].
    destruct (IH _ eq_refl) as (l1 & l2 & -> & -> & Hx). by exists (y :: l1), l2.
Qed.

Lemma queue_ok_remove l1 t l2 : queue_ok (l1 ++ t :: l2) → queue_ok (l1 ++ l2).
Proof.
  intros [Hok H0]. apply Forall_app in Hok as [H1 H2]. split.
  - apply Forall_app. split; [done|]. by inv H2.
  - destruct l1 as [|u l1]; simpl in *.
    + destruct l2; [constructor|]. by inv H0.
    + apply Forall_app in H0 as [H0 H3]. apply Forall_app. split; [done|]. by inv H3.
Qed.

Lemma reclaim_bells_spec l bells :
  fst (reclaim_bells l bells) = List.filter (λ t, negb (is_unstarted_bell t)) l ∧
  sum_bytes transaction_bytes (fst (reclaim_bells l bells)) + snd (reclaim_bells l bells) ≤
  sum_bytes transaction_bytes l + bells.
Proof.
  revert bells. induction l as [|t l IH]; intros bells; simpl; [split; [done|lia]|].
  destruct (is_unstarted_bell t) eqn:Hb; simpl.
  - destruct (IH (sat_add usize_max bells (len (at_bytes t)))) as [-> Hle]. split; [done|].
    assert (transaction_bytes t = len (at_bytes t)).
    { unfold is_unstarted_bell in Hb. unfold transaction_bytes. lia. }
    etrans; [exact Hle|]. unfold sat_add. lia.
  - specialize (IH bells). destruct (reclaim_bells l bells) as [l' b']. simpl in *.
    destruct IH as [-> Hle]. split; [done|]. lia.
Qed.

Definition replaced_by_render (s : OutputScheduler) (x : N) : bool :=
  replaces (Some x) (pending_render s) (fst <$> take_first is_unstarted_render (active s)).

Lemma remove_obsolete_live now_ms s x :
  renders_only (active s) → x ∈ live_generations s →
  replaced_by_render s x = true ∨
  ∃ r, ((∃ t, t ∈ active (remove_obsolete_renders now_ms s) ∧ completed_render t = Some r) ∨
        r ∈ awaiting_flush_renders s) ∧ tr_generation r = x.
Proof.
  intros Hk. rewrite elem_of_live. unfold replaced_by_render, replaces, remove_obsolete_renders, generation_is.
  change (active (s <| pending_render := None |>)) with (active s).
  change (pending_bells (s <| pending_render := None |>)) with (pending_bells s).
  intros [(r & Hp & <-)|[(t & r & Hin & Ht & <-)|(r & Hin & <-)]].
  - left. rewrite Hp. by rewrite bool_decide_eq_true_2.
  - destruct (take_first is_unstarted_render (active s)) as [[u others]|] eqn:Hf; cbn.
    + destruct (reclaim_bells_spec others (pending_bells s)) as [E _]. rewrite E.
      apply take_first_Some in Hf as (l1 & l2 & Ha & -> & Hu). rewrite Ha in Hin.
      apply elem_of_app in Hin as [Hin|[->|Hin]%elem_of_cons].
      2:{ left. rewrite Ht. by rewrite (bool_decide_eq_true_2 _ eq_refl), orb_true_r. }
      all: right; exists r; split; [|done]; left; exists t; split; [|done]; apply elem_of_Filter;
        split; [set_solver|]; unfold is_unstarted_bell;
        rewrite (proj1 (Forall_forall _ _) (proj1 Hk) t); [done|rewrite Ha; set_solver|by eexists].
    + right. exists r. split; [|done]. left. by exists t.
  - right. exists r. split; [by right|done].
Qed.

Lemma remove_obsolete_totals now_ms s :
  let s' := remove_obsolete_renders now_ms s in
  raw_total s' + render_bytes s + replaceable_active_bytes s ≤ raw_total s ∧ raw_control s' ≤ raw_control s ∧
  (queue_ok (active s) → queue_ok (active s')) ∧ (renders_only (active s) → renders_only (active s')).
Proof.
  cbv zeta. unfold replaceable_active_bytes, remove_obsolete_renders.
  change (active (s <| pending_render := None |>)) with (active s).
  change (pending_bells (s <| pending_render := None |>)) with (pending_bells s).
  destruct (take_first is_unstarted_render (active s)) as [[u others]|] eqn:Hf.
  - destruct (reclaim_bells_spec others (pending_bells s)) as [E Hle].
    apply take_first_Some in Hf as (l1 & l2 & Ha & -> & Hu).
    assert (transaction_bytes u = len (at_bytes u) ∧ is_control u = false) as [Eu Eu'].
    { unfold is_unstarted_render, transaction_bytes, is_control in *. case_bool_decide as Hku; [|done].
      split; [lia|]. by rewrite Hku. }
    assert (raw_control s = sum_bytes (λ p, len (pb_bytes p)) (pending_bytes s) +
              sum_bytes transaction_bytes (List.filter is_control (l1 ++ l2))) as Hctl.
    { unfold raw_control. rewrite Ha, !List.filter_app. simpl. by rewrite Eu'. }
    assert (sum_bytes transaction_bytes (active s) = sum_bytes transaction_bytes (l1 ++ l2) + len (at_bytes u)) as Hsum.
    { rewrite Ha, !sum_bytes_app. simpl. lia. }
    pose proof (control_filter_le (λ t, negb (is_unstarted_bell t)) (l1 ++ l2)) as Hcf. rewrite <-E in Hcf.
    split_and!.
    + unfold raw_total, render_bytes in *. destruct s; cbn in *. lia.
    + rewrite Hctl. unfold raw_control. destruct s; cbn in *. lia.
    + intros Hq. cbn. rewrite E. apply queue_ok_filter. rewrite Ha in Hq. by eapply queue_ok_remove.
    + intros Hk. cbn. rewrite E. apply renders_only_filter. rewrite Ha in Hk. destruct Hk as [Hk H1].
      split; [rewrite !Forall_app, ?Forall_cons in *; tauto|].
      etrans; [|exact H1]. rewrite !List.filter_app, !length_app. simpl. case_match; simpl; lia.
  - split_and!; [|done..]. unfold raw_total, render_bytes. destruct s; cbn in *. lia.
Qed.

Lemma render_batch_byte_len_Some b supported n :
  render_batch_byte_len b supported = Some n → n = raw_batch b + wrapper supported.
Proof.
  unfold render_batch_byte_len, raw_batch. intros (total & Hfold & Hn)%bind_Some.
  assert (∀ l acc t, foldl (λ acc t, total ← acc; checked_add usize_max total (len (tx_bytes t))) acc l = Some t →
    ∃ a, acc = Some a ∧ t = a + sum_bytes (λ t, len (tx_bytes t)) l) as Hgen.
  { clear. induction l as [|x l IH]; intros acc t; simpl; [intros ->; exists t; split; [done|lia]|].
    intros (a & Ha & ->)%IH. apply bind_Some in Ha as (a0 & -> & Ha). exists a0. split; [done|].
    unfold checked_add in Ha. case_match; simplify_eq. lia. }
  apply Hgen in Hfold as (a & [= <-] & ->). unfold checked_add in Hn. case_match; simplify_eq.
  unfold wrapper. destruct supported; cbn; lia.
Qed.


Lemma set_bypass_next_inv x s : scheduler_inv s → scheduler_inv (s <| bypass_next_render := x |>).
Proof. by intros []. Qed.

(** A boundary generation stays live when a new render is accepted. *)
Lemma render_boundary_live now_ms s generation g moved (t : OutputScheduler) :
  renders_only (active s) → boundary_live g s →
  active t = active (remove_obsolete_renders now_ms s) →
  awaiting_flush_renders t = awaiting_flush_renders s →
  pr_generation <$> pending_render t = Some generation →
  (∀ x, g = Some x → replaced_by_render s x = true → moved = true) →
  boundary_live (if moved then Some generation else g) t.
Proof.
  intros Hk Hg Ha Hw Hp Hmoved x Hx. apply elem_of_live. destruct moved.
  - injection Hx as <-. left. apply fmap_Some in Hp as (r & Hr & ->). eauto.
  - destruct (remove_obsolete_live now_ms s x Hk (Hg x Hx)) as [Hrep|(r & Hr & <-)].
    + by specialize (Hmoved x Hx Hrep).
    + rewrite Ha, Hw. right. naive_solver.
Qed.

Lemma enqueue_render_inv b acc now_ms s :
  scheduler_inv s → scheduler_inv (enqueue_render_with_accessibility b acc now_ms s).1.
Proof.
  intros Hinv. unfold enqueue_render_with_accessibility. cbv zeta.
  set (s0 := s <| bypass_next_render := false |>).
  assert (scheduler_inv s0) as Hinv0 by by apply set_bypass_next_inv.
  destruct (render_batch_byte_len b _) as [n|] eqn:Hlen; [|done].
  destruct (_ || _) eqn:Hcap; [done|]. apply orb_false_elim in Hcap as [_ Hcap].
  cbn [fst]. clearbody s0. clear Hinv. destruct Hinv0 as [Hc Ht Hctl Hq Hk Hr Hrel Hbyp].
  apply render_batch_byte_len_Some in Hlen.
  destruct (remove_obsolete_totals now_ms s0) as (Htot & Hctl' & Hq' & Hk').
  set (s1 := remove_obsolete_renders now_ms s0) in *.
  assert (config s1 = config s0 ∧ synchronized_output_supported s1 = synchronized_output_supported s0 ∧
          awaiting_flush_renders s1 = awaiting_flush_renders s0 ∧ pending_render s1 = None ∧
          synchronization_timeout_release_generation s1 = synchronization_timeout_release_generation s0 ∧
          application_synchronization_bypass_generation s1 = application_synchronization_bypass_generation s0)
    as (E1 & E2 & E3 & E4 & E5 & E6).
  { unfold s1, remove_obsolete_renders. by repeat case_match. }
  assert (raw_total s1 + n ≤ maximum_pending_bytes (config s0)) as Hn.
  { rewrite total_raw in Hcap. pose proof (allowance_le s0). unfold sat_add in Hcap.
    unfold usize_max, u64_max in *. lia. }
  split.
  - rewrite <-E1 in Hc. exact Hc.
  - match goal with |- raw_total ?t ≤ _ => assert (raw_total t = raw_total s1 + n) as Et end.
    { unfold raw_total, render_bytes. rewrite E4. destruct s1; cbn. lia. }
    rewrite Et. etrans; [exact Hn|]. rewrite <-E1. apply N.le_add_r.
  - etrans; [|exact Hctl]. etrans; [|exact Hctl']. done.
  - by apply Hq'.
  - by apply Hk'.
  - intros r [= <-]. rewrite <-E2 in Hlen. exact Hlen.
  - rewrite <-E5 in Hrel.
    apply (render_boundary_live now_ms s0 (next_render_generation s1)
             (synchronization_timeout_release_generation s1)); try done.
    intros x Hx Hrep. rewrite <-E5, Hx. exact Hrep.
  - rewrite <-E6 in Hbyp.
    apply (render_boundary_live now_ms s0 (next_render_generation s1)
             (application_synchronization_bypass_generation s1)); try done.
    intros x Hx Hrep. rewrite <-E6, Hx. apply orb_true_iff. right. exact Hrep.
Qed.


(** ** Effects, bells and the other operations *)

Lemma supersede_inv o k s : scheduler_inv s → scheduler_inv (supersede_effects o k s).
Proof.
  intros Hinv. pose proof Hinv as [Hc Ht Hctl Hq Hk Hr Hrel Hbyp].
  assert (scheduler_inv
    (s <| pending_effects := List.filter (λ e, negb (same_effect o k e)) (pending_effects s) |>
       <| active := List.filter (keeps_for_effect o k) (active s) |>)) as Hs'; [|by destruct k].
  assert (∀ g, boundary_live g s → boundary_live g
    (s <| pending_effects := List.filter (λ e, negb (same_effect o k e)) (pending_effects s) |>
       <| active := List.filter (keeps_for_effect o k) (active s) |>)) as Hlive.
  { intros g Hg x Hx. apply Hg, elem_of_live in Hx. apply elem_of_live.
    destruct Hx as [H|[(t & r & Hin & Hr' & <-)|H]]; [by left| |by right; right].
    right. left. exists t, r. split_and!; [|done|done]. cbn. apply elem_of_Filter. split; [done|].
    unfold keeps_for_effect. rewrite (proj1 (Forall_forall _ _) (proj1 Hk) t Hin ltac:(by eexists)).
    cbn. by rewrite orb_true_r. }
  apply (inv_shrink s); try done.
  - by right.
  - pose proof (sum_bytes_filter transaction_bytes (keeps_for_effect o k) (active s)).
    pose proof (sum_bytes_filter (λ e, terminal_event_retained_bytes (event e))
                  (λ e, negb (same_effect o k e)) (pending_effects s)).
    unfold raw_total, render_bytes. destruct s; cbn in *. lia.
  - pose proof (control_filter_le (keeps_for_effect o k) (active s)). unfold raw_control. destruct s; cbn in *. lia.
  - cbn. by apply queue_ok_filter.
  - cbn. by apply renders_only_filter.
  - by apply Hlive.
  - by apply Hlive.
Qed.

Lemma drop_oldest_inv o k n s : scheduler_inv s → scheduler_inv (drop_oldest_effect o k n s).
Proof.
  intros Hinv. unfold drop_oldest_effect. destruct (_ <? _); [|done].
  destruct (take_first _ _) as [[e rest]|] eqn:Hf; [|done].
  apply take_first_Some in Hf as (l1 & l2 & He & -> & _).
  apply (inv_shrink s); try done; try apply Hinv; [by right|].
  unfold raw_total, render_bytes. destruct s; cbn in *. rewrite He, !sum_bytes_app. simpl. lia.
Qed.

Lemma enqueue_effect_inv o e now_ms s :
  scheduler_inv s → scheduler_inv (enqueue_terminal_effect o e now_ms s).
Proof.
  intros Hinv. unfold enqueue_terminal_effect. cbv zeta.
  set (e' := bound_terminal_effect e _).
  set (s1 := drop_oldest_effect _ _ _ _).
  assert (scheduler_inv s1) as Hs1 by by apply drop_oldest_inv, supersede_inv.
  clearbody s1. destruct (exceeds _ s1) eqn:Hex; [done|]. destruct Hs1 as [Hc Ht Hctl Hq Hk Hr Hrel Hbyp].
  apply exceeds_false in Hex; [|by apply Hc]. split; try done.
  etrans; [|apply N.le_add_r]. etrans; [|exact Hex].
  unfold raw_total, render_bytes. destruct s1; cbn in *. rewrite sum_bytes_app. simpl. lia.
Qed.

Lemma set_supported_inv b s : scheduler_inv s → scheduler_inv (set_synchronized_output_supported b s).
Proof.
  intros [Hc Ht Hctl Hq Hk Hr Hrel Hbyp]. unfold set_synchronized_output_supported.
  assert (wrapper_bytes = 16) as Hw by (by vm_compute).
  destruct (pending_render s) as [r|] eqn:Hp.
  - pose proof (Hr r eq_refl) as Hlen. case_bool_decide as Hb.
    + assert (synchronized_output_supported s = negb b) as Hs
        by (by destruct b, (synchronized_output_supported s)).
      assert (b = true → byte_len r ≤ usize_max - 16) as Hmax.
      { intros ->. unfold raw_total, render_bytes, allowance in Ht. rewrite Hp, Hs in Ht. rewrite Hs in Hlen.
        unfold wrapper in *. cbn in *. lia. }
      rewrite Hs in Hlen. unfold allowance in Ht. rewrite Hp, Hs in Ht. rewrite Hw.
      split; try done.
      * unfold allowance. cbn. unfold raw_total, render_bytes in *. rewrite Hp in Ht.
        unfold sat_add, wrapper in *. destruct s, b; cbn in *; lia.
      * intros r' [= <-]. cbn. rewrite Hlen in Hmax |- *. unfold sat_add, wrapper, usize_max, u64_max in *.
        destruct b; [specialize (Hmax eq_refl)|]; cbn in *; lia.
      * intros x Hx. specialize (Hrel x Hx). revert Hrel. rewrite !elem_of_live, Hp. cbn. naive_solver.
      * intros x Hx. specialize (Hbyp x Hx). revert Hbyp. rewrite !elem_of_live, Hp. cbn. naive_solver.
    + subst b. split; try done.
      intros r' Hr'. apply Hr. rewrite <-Hp. exact Hr'.
  - split; try done.
    + unfold allowance in *. rewrite Hp in Ht. destruct s; cbn in *. subst. exact Ht.
    + intros r Hr'. change (pending_render s = Some r) in Hr'. congruence.
Qed.

Lemma enqueue_bell_inv n now_ms s : scheduler_inv s → scheduler_inv (enqueue_bell n now_ms s).
Proof.
  intros Hinv. unfold enqueue_bell. cbv zeta. destruct (n =? 0); [done|].
  destruct (N.eqb_spec (N.min n (maximum_pending_bytes (config s) - total_pending_bytes s)) 0) as [|Hne]; [done|].
  destruct Hinv as [Hc Ht Hctl Hq Hk Hr Hrel Hbyp]. rewrite total_raw in *. split; try done.
  etrans; [|apply N.le_add_r].
  unfold raw_total, render_bytes, sat_add in *. destruct s; cbn in *. lia.
Qed.

Lemma observe_sync_inv b o a now_ms s :
  scheduler_inv s → scheduler_inv (observe_application_synchronization b o a now_ms s).
Proof.
  intros [Hc Ht Hctl Hq Hk Hr Hrel Hbyp]. unfold observe_application_synchronization.
  repeat case_match; by split.
Qed.

Lemma recover_inv s : scheduler_inv s → scheduler_inv (recover s).
Proof. by intros []. Qed.
Lemma notify_writable_inv s : scheduler_inv s → scheduler_inv (notify_writable s).
Proof. by intros []. Qed.

Lemma fail_inv s : scheduler_inv s → scheduler_inv (fail s).
Proof.
  intros [Hc Ht Hctl Hq Hk Hr Hrel Hbyp]. split; try done.
  - unfold raw_total, render_bytes. cbn. lia.
  - split; [constructor|cbn; lia].
Qed.

Lemma new_inv c b :
  maximum_pending_bytes c + 16 < usize_max → write_budget_bytes c ≤ usize_max → scheduler_inv (scheduler_new c b).
Proof.
  intros H1 H2. split; try done.
  - unfold raw_total, render_bytes. cbn. lia.
  - split; [constructor|cbn; lia].
Qed.


(** ** Activation *)

Lemma strip_markers_aux_length fuel l : (length (strip_markers_aux fuel l) ≤ length l)%nat.
Proof.
  revert l. induction fuel as [|fuel IH]; intros l; [simpl; lia|]. cbn [strip_markers_aux].
  destruct (position _ l) as [i|] eqn:Hi; [|done]. apply position_lt in Hi as Hlt.
  rewrite length_app, length_take.
  destruct (strip_prefix SYNCHRONIZED_OUTPUT_START (drop i l)) as [rest|] eqn:H1.
  { apply strip_prefix_Some, (f_equal length) in H1. rewrite length_app, length_drop in H1.
    pose proof (IH rest). lia. }
  destruct (strip_prefix SYNCHRONIZED_OUTPUT_END (drop i l)) as [rest|] eqn:H2.
  { apply strip_prefix_Some, (f_equal length) in H2. rewrite length_app, length_drop in H2.
    pose proof (IH rest). lia. }
  rewrite length_app, length_take. pose proof (IH (drop 1 (drop i l))) as H. rewrite !length_drop in H. rewrite length_drop. lia.
Qed.

Lemma without_markers_length l : len (without_synchronization_markers l) ≤ len l.
Proof. pose proof (strip_markers_aux_length (S (length l)) l). unfold without_synchronization_markers. lia. Qed.

Lemma stripped_transactions_length ts :
  len (mjoin ((λ t, without_synchronization_markers (tx_bytes t)) <$> ts)) ≤
  sum_bytes (λ t, len (tx_bytes t)) ts.
Proof.
  induction ts as [|t ts IH]; [simpl; lia|].
  change (mjoin ((λ t, without_synchronization_markers (tx_bytes t)) <$> t :: ts)) with
    (without_synchronization_markers (tx_bytes t) ++
     mjoin ((λ t, without_synchronization_markers (tx_bytes t)) <$> ts)).
  rewrite length_app. pose proof (without_markers_length (tx_bytes t)). cbn [sum_bytes]. lia.
Qed.

Lemma rendered_bytes_length supported b : len (rendered_bytes supported b) ≤ raw_batch b + wrapper supported.
Proof.
  pose proof (stripped_transactions_length (transactions b)) as Hs.
  assert (len ((if supported then SYNCHRONIZED_OUTPUT_START else []) ++
    mjoin ((λ t, without_synchronization_markers (tx_bytes t)) <$> transactions b) ++
    (if supported then SYNCHRONIZED_OUTPUT_END else [])) ≤ raw_batch b + wrapper supported) as Hw.
  { rewrite !length_app. unfold raw_batch, wrapper. destruct supported; cbn [length]; [|lia].
    change (length SYNCHRONIZED_OUTPUT_START) with 8%nat. change (length SYNCHRONIZED_OUTPUT_END) with 8%nat. lia. }
  unfold rendered_bytes. destruct supported; [done|].
  destruct (transactions b) as [|t [|]] eqn:Hb; [done| |done].
  unfold raw_batch. rewrite Hb. simpl. pose proof (without_markers_length (tx_bytes t)). case_match; lia.
Qed.

Lemma filter_length_le {A} (f : A → bool) l : (length (List.filter f l) ≤ length l)%nat.
Proof. induction l; simpl; [lia|]. case_match; simpl; lia. Qed.

Lemma write_osc_length code v : code < 10 → len (write_osc code v) ≤ len v + 6.
Proof.
  intros Hc. unfold write_osc. rewrite length_cons, !length_app, length_cons.
  pose proof (filter_length_le (λ b, (32 <=? b) && negb (b =? 127)) v).
  assert (length (to_dec code) ≤ 1)%nat by (apply to_dec_aux_length; simpl; lia).
  change (length (bs "]")) with 1%nat. change (length (bs ";")) with 1%nat. change (length (bs "\")) with 1%nat. lia.
Qed.

Lemma encode_effect_length e :
  terminal_event_retained_bytes e < usize_max →
  len (encode_terminal_effect e) ≤ terminal_event_retained_bytes e.
Proof.
  intros H. destruct e as [|v|v| | |st p| | |]; try apply N.le_0_l.
  - change (terminal_event_retained_bytes Bell) with 16. cbn. lia.
  - pose proof (write_osc_length 2 v). unfold terminal_event_retained_bytes, sat_add, encode_terminal_effect in *. lia.
  - pose proof (write_osc_length 7 v). unfold terminal_event_retained_bytes, sat_add, encode_terminal_effect in *. lia.
  - change (terminal_event_retained_bytes (ProgressReport st p)) with 16.
    unfold encode_terminal_effect. rewrite length_cons, !length_app, length_cons.
    change (length (bs "]9;4;")) with 5%nat. change (length (bs "\")) with 1%nat.
    assert (length (to_dec (progress_state_code st)) ≤ 1)%nat by (apply to_dec_aux_length; destruct st; simpl; lia).
    destruct p as [p|]; [|simpl; lia]. rewrite length_app. change (length (bs ";")) with 1%nat.
    assert (length (to_dec (N.min p 100)) ≤ 3)%nat by (apply to_dec_aux_length; simpl; lia). lia.
Qed.

Lemma sum_bytes_fmap {A B} (f : B → N) (g : A → B) l : sum_bytes f (g <$> l) = sum_bytes (λ x, f (g x)) l.
Proof. induction l as [|x l IH]; [done|]. rewrite fmap_cons. simpl. lia. Qed.

Lemma sum_bytes_mono {A} (f g : A → N) l : (∀ x, x ∈ l → f x ≤ g x) → sum_bytes f l ≤ sum_bytes g l.
Proof.
  induction l as [|x l IH]; intros H; simpl; [lia|].
  pose proof (H x (list_elem_of_here _ _)). specialize (IH (λ y Hy, H y (list_elem_of_further _ _ _ Hy))). lia.
Qed.

Lemma sum_bytes_member {A} (f : A → N) l x : x ∈ l → f x ≤ sum_bytes f l.
Proof. induction 1; simpl; lia. Qed.

Lemma raw_total_bound s : scheduler_inv s → raw_total s < usize_max.
Proof. intros [Hc Ht _ _ _ _ _ _]. pose proof (allowance_le s). lia. Qed.

Definition activated (s : OutputScheduler) : list ActiveTransaction :=
  (activate_bytes <$> pending_bytes s) ++
  (activate_effect <$> pending_effects s) ++
  match pending_render s with
  | Some r => [activate_render (synchronized_output_supported s) r]
  | None => []
  end ++
  (if 0 <? pending_bells s
   then [start_transaction BellKind (repeat BEL (N.to_nat (pending_bells s))) None []] else []).

Lemma activated_total s :
  scheduler_inv s → sum_bytes transaction_bytes (activated s) + sum_bytes transaction_bytes (active s) ≤ raw_total s.
Proof.
  intros Hinv. pose proof (raw_total_bound s Hinv) as Hb.
  unfold activated. rewrite !sum_bytes_app, !sum_bytes_fmap.
  assert (sum_bytes (λ p, transaction_bytes (activate_bytes p)) (pending_bytes s)
          = sum_bytes (λ p, len (pb_bytes p)) (pending_bytes s)) as ->.
  { induction (pending_bytes s) as [|p l IH]; simpl; [done|]. rewrite IH. unfold transaction_bytes. simpl. lia. }
  assert (sum_bytes (λ e, transaction_bytes (activate_effect e)) (pending_effects s)
          ≤ sum_bytes (λ e, terminal_event_retained_bytes (event e)) (pending_effects s)) as He.
  { apply sum_bytes_mono. intros e He. unfold transaction_bytes. simpl. rewrite N.sub_0_r.
    apply encode_effect_length. pose proof (sum_bytes_member (λ e, terminal_event_retained_bytes (event e)) _ e He).
    unfold raw_total in Hb. simpl in *. lia. }
  assert (sum_bytes transaction_bytes match pending_render s with
            | Some r => [activate_render (synchronized_output_supported s) r] | None => [] end ≤ render_bytes s) as Hr.
  { unfold render_bytes. destruct (pending_render s) as [r|] eqn:Hp; simpl; [|lia].
    rewrite (inv_render s Hinv r Hp). unfold transaction_bytes. simpl.
    pose proof (rendered_bytes_length (synchronized_output_supported s) (batch r)). lia. }
  assert (sum_bytes transaction_bytes (if 0 <? pending_bells s
            then [start_transaction BellKind (repeat BEL (N.to_nat (pending_bells s))) None []] else [])
          ≤ pending_bells s) as Hbell.
  { generalize (pending_bells s) as n. intros n. destruct (0 <? n); [|apply N.le_0_l].
    unfold transaction_bytes. cbn [sum_bytes start_transaction at_bytes offset].
    rewrite repeat_length. lia. }
  unfold raw_total. lia.
Qed.

Lemma activated_fresh s : Forall (λ t, offset t = 0) (activated s).
Proof.
  unfold activated. rewrite !Forall_app, !Forall_fmap. split_and!.
  - apply Forall_forall. done.
  - apply Forall_forall. done.
  - case_match; repeat constructor.
  - case_match; repeat constructor.
Qed.

Lemma activated_renders_only s : renders_only (activated s).
Proof.
  split.
  - unfold activated. rewrite !Forall_app, !Forall_fmap. split_and!.
    + apply Forall_forall. by intros p _ [? [=]].
    + apply Forall_forall. by intros p _ [? [=]].
    + case_match; repeat constructor.
    + case_match; repeat constructor. by intros [? [=]].
  - unfold activated. rewrite !List.filter_app, !length_app.
    assert (List.filter is_render (activate_bytes <$> pending_bytes s) = []) as ->
      by (induction (pending_bytes s) as [|[[] ?] l IH]; [done|exact IH]).
    assert (List.filter is_render (activate_effect <$> pending_effects s) = []) as ->
      by (induction (pending_effects s) as [|e l IH]; [done|exact IH]).
    destruct (pending_render s), (0 <? pending_bells s); simpl; lia.
Qed.

Lemma activated_ok s : scheduler_inv s → queue_ok (activated s).
Proof.
  intros Hinv. pose proof (activated_fresh s) as H0. split.
  - apply Forall_forall. intros t Ht. rewrite Forall_forall in H0. specialize (H0 t Ht).
    pose proof (sum_bytes_member transaction_bytes _ t Ht). pose proof (activated_total s Hinv).
    pose proof (raw_total_bound s Hinv). unfold transaction_ok, transaction_bytes in *. lia.
  - destruct (activated s); [constructor|]. by inv H0.
Qed.

Lemma activate_control s :
  sum_bytes transaction_bytes (List.filter is_control (activated s)) =
  sum_bytes (λ p, len (pb_bytes p)) (pending_bytes s).
Proof.
  unfold activated. rewrite !List.filter_app, !sum_bytes_app.
  assert (sum_bytes transaction_bytes (List.filter is_control (activate_bytes <$> pending_bytes s))
          = sum_bytes (λ p, len (pb_bytes p)) (pending_bytes s)) as ->.
  { induction (pending_bytes s) as [|p l IH]; [done|]. rewrite fmap_cons. simpl.
    assert (is_control (activate_bytes p) = true) as -> by (by destruct p as [[] ?]).
    simpl. rewrite IH. unfold transaction_bytes. simpl. lia. }
  assert (List.filter is_control (activate_effect <$> pending_effects s) = []) as ->.
  { by induction (pending_effects s). }
  repeat case_match; simpl; lia.
Qed.

Lemma activate_pending_eq s :
  active s = [] →
  activate_pending s =
    s <| active := activated s |> <| pending_bytes := [] |> <| pending_effects := [] |>
      <| pending_render := None |> <| pending_bells := 0 |> <| pending_since_ms := None |>.
Proof. intros Ha. unfold activate_pending, activated. by rewrite Ha. Qed.

Lemma activate_pending_inv s : scheduler_inv s → scheduler_inv (activate_pending s).
Proof.
  intros Hinv. destruct (active s) as [|t l] eqn:Ha; [|unfold activate_pending; by rewrite Ha].
  rewrite activate_pending_eq by done. pose proof (activated_total s Hinv) as Htot.
  pose proof (activate_control s) as Hctl'. pose proof Hinv as [Hc Ht Hctl Hq Hk Hr Hrel Hbyp].
  assert (∀ g, boundary_live g s → boundary_live g
    (s <| active := activated s |> <| pending_bytes := [] |> <| pending_effects := [] |>
      <| pending_render := None |> <| pending_bells := 0 |> <| pending_since_ms := None |>)) as Hlive.
  { intros g Hg x Hx. apply Hg, elem_of_live in Hx. apply elem_of_live.
    destruct Hx as [(r & Hr' & <-)|[(t & r & Hin & _)|H]]; [|rewrite Ha in Hin; set_solver|by right; right].
    right. left. eexists (activate_render (synchronized_output_supported s) r), _.
    split_and!; [|done|done]. cbn. unfold activated. rewrite Hr'. set_solver. }
  apply (inv_shrink s); try done.
  - by left.
  - rewrite Ha in Htot. unfold raw_total, render_bytes in *. cbn in *. lia.
  - unfold raw_control in *. cbn. rewrite Hctl'. lia.
  - by apply activated_ok.
  - by apply activated_renders_only.
  - by apply Hlive.
  - by apply Hlive.
Qed.


(** ** Draining *)

Lemma advanced_length l n out l' : advanced l n out l' → (length l' + n = length l)%nat.
Proof. induction 1; simpl; lia. Qed.

Lemma advanced_renders l n out l' :
  advanced l n out l' → renders_of l = renders_of (take n l) ++ renders_of l'.
Proof.
  intros Ha. destruct (advanced_receipts _ _ _ _ (length l) Ha) as [Hr _].
  apply advanced_length in Ha. rewrite (take_ge l (n + length l)), (take_ge l' (length l)) in Hr by lia. exact Hr.
Qed.

Lemma advanced_renders_only l n out l' : advanced l n out l' → renders_only l → renders_only l'.
Proof.
  induction 1 as [l|t l k Hok Hk|t l n out l' H IH]; intros [Hl H1].
  - done.
  - apply Forall_cons in Hl as [Ht Hl]. split.
    + apply Forall_cons. split; [exact Ht|exact Hl].
    + cbn [List.filter] in *. change (is_render (advance k t)) with (is_render t).
      by destruct (is_render t).
  - apply Forall_cons in Hl as [_ Hl]. apply IH. split; [done|]. simpl in H1. case_match; simpl in *; lia.
Qed.

(** A boundary stays live, or its render has been reported. *)
Lemma settled_live g g' s n out l' reported later effects f wt release bypass :
  boundary_live g s → settles g reported g' → advanced (active s) n out l' →
  awaiting_flush_renders s ++ renders_of (take n (active s)) = reported ++ later →
  boundary_live g' (with_boundaries (with_output s l' later effects f wt) release bypass).
Proof.
  intros Hg [->|[-> Hset]] Ha Hrec x Hx; [done|]. specialize (Hg x Hx). subst g.
  assert (∀ r, r ∈ awaiting_flush_renders s ++ renders_of (take n (active s)) →
    tr_generation r = x → r ∈ later) as Hlater.
  { intros r. rewrite Hrec, elem_of_app. intros [Hr|Hr] <-; [|done]. exfalso.
    rewrite Forall_forall in Hset. by apply (Hset r). }
  unfold live_generations in *. rewrite (advanced_renders _ _ _ _ Ha) in Hg.
  change (pending_render (with_boundaries (with_output s l' later effects f wt) release bypass)) with (pending_render s).
  change (active (with_boundaries (with_output s l' later effects f wt) release bypass)) with l'.
  change (awaiting_flush_renders (with_boundaries (with_output s l' later effects f wt) release bypass)) with later.
  rewrite fmap_app in Hg.
  assert (∀ r, r ∈ awaiting_flush_renders s ++ renders_of (take n (active s)) → x = tr_generation r →
    x ∈ option_list (pr_generation <$> pending_render s) ++ (tr_generation <$> renders_of l') ++
        (tr_generation <$> later)) as Hmoved.
  { intros r Hr Hxr. apply elem_of_app. right. apply elem_of_app. right. apply list_elem_of_fmap.
    exists r. split; [done|]. by apply Hlater. }
  apply elem_of_app in Hg as [Hg|[Hg|(r & Hxr & Hr)%list_elem_of_fmap]%elem_of_app].
  - apply elem_of_app. by left.
  - apply elem_of_app in Hg as [(r & Hxr & Hr)%list_elem_of_fmap|Hg].
    + apply (Hmoved r); [|done]. apply elem_of_app. by right.
    + apply elem_of_app. right. apply elem_of_app. by left.
  - apply (Hmoved r); [|done]. apply elem_of_app. by left.
Qed.

Lemma advanced_inv s n out l' reported later effects f wt release bypass :
  scheduler_inv s → advanced (active s) n out l' →
  awaiting_flush_renders s ++ renders_of (take n (active s)) = reported ++ later →
  settles (synchronization_timeout_release_generation s) reported release →
  settles (application_synchronization_bypass_generation s) reported bypass →
  scheduler_inv (with_boundaries (with_output s l' later effects f wt) release bypass).
Proof.
  intros Hinv Ha Hrec Hrel Hbyp. apply (inv_shrink s); try done.
  - by right.
  - pose proof (advanced_bytes _ _ _ _ Ha). unfold raw_total, render_bytes. destruct s; cbn in *. lia.
  - pose proof (advanced_control_bytes _ _ _ _ Ha). unfold raw_control. destruct s; cbn in *. lia.
  - eapply advanced_queue_ok; [exact Ha|]. by apply inv_queue.
  - eapply advanced_renders_only; [exact Ha|]. by apply inv_kinds.
  - eapply settled_live; [by apply inv_release|done..].
  - eapply settled_live; [by apply inv_bypass|done..].
Qed.

Lemma find_release_live s : boundary_live (find_release_generation s) s.
Proof.
  intros x Hx. apply elem_of_live. unfold find_release_generation in Hx.
  destruct (pending_render s) as [r|]; [injection Hx as <-; eauto|].
  destruct (last (omap completed_render (active s))) as [r|] eqn:Hl.
  - injection Hx as <-. right. left. apply last_Some_elem_of in Hl.
    apply list_elem_of_omap in Hl as (t & Ht & Hr). eauto.
  - apply fmap_Some in Hx as (r & Hr & ->). right. right. exists r. split; [|done]. by apply last_Some_elem_of.
Qed.

Section output_inv.
Context {W : Type} `{WW : Writer W} `{!WriterLaws W}.

Lemma drain_ready_inv fuel now_ms force (w : W) s w' s' res :
  drain_ready fuel now_ms force w s = Some (w', s', res) → scheduler_inv s → scheduler_inv s'.
Proof.
  unfold drain_ready. intros Hrun Hinv.
  destruct (needs_reconciliation s || _); [by injection Hrun as <- <- <-|].
  set (s0 := if force then _ else s) in *.
  assert (scheduler_inv s0) as Hinv0 by (unfold s0; destruct force; [by destruct Hinv|done]).
  clearbody s0. apply bind_Some in Hrun as ([[[w1 s1] report1] fl] & Hflush & Hrun).
  apply flush_if_required_spec in Hflush.
  assert (match fl with FlushFailed _ => True | _ => scheduler_inv s1 ∧ bytes_written report1 = 0 end)
    as Hs1.
  { destruct fl; [| |done]; destruct Hflush as (_ & _ & Hb & f & wt & [(r1 & b1 & Hr & Hy & -> & _)|(-> & _)]);
      (split_and!; [|done..]).
    1,3: apply (advanced_inv s0 0 [] (active s0) (awaiting_flush_renders s0) [] [] f wt r1 b1);
      [done|apply advanced_stop|done..].
    all: apply (advanced_inv s0 0 [] (active s0) [] (awaiting_flush_renders s0) (awaiting_flush_effects s0) f wt
           (synchronization_timeout_release_generation s0) (application_synchronization_bypass_generation s0));
      [done|apply advanced_stop|by rewrite app_nil_r|apply settles_nil..]. }
  destruct fl as [| |e]; [|by injection Hrun as <- <- <-; destruct Hs1|].
  2:{ injection Hrun as <- <- <-. destruct Hflush as [-> _]. by apply fail_inv. }
  destruct Hs1 as (Hinv1 & Hb1).
  destruct (application_hold now_ms force s1 report1) as [[[s2 report2] started_only]|] eqn:Hhold;
    [|by injection Hrun as <- <- <-].
  apply application_hold_spec in Hhold as (_ & _ & Hb2 & sync & rel & -> & Hrel).
  match type of Hrun with (if latency_holds _ _ ?t then _ else _) = _ => set (s2 := t) in * end.
  assert (scheduler_inv s2) as Hinv2.
  { destruct Hinv1 as [Hc Ht Hctl Hq Hk Hr Hrl Hbyp]. split; try done.
    destruct Hrel as [->| ->]; [done|]. intros x Hx. exact (find_release_live s1 x Hx). }
  destruct (latency_holds now_ms force s2); [by injection Hrun as <- <- <-|].
  apply write_pending_spec in Hrun; [|apply inv_queue; by apply activate_pending_inv|by rewrite Hb2
    |by apply inv_config].
  destruct res as [report|e].
  - destruct Hrun as (out & _ & _ & _ & _ & n & l' & rep & later & repe & latere & f & wt & r & b & Ha & -> & Hrec & _
      & _ & _ & Hsr & Hsb & _ & _).
    eapply advanced_inv; [by apply activate_pending_inv|done..].
  - destruct Hrun as [-> _]. by apply fail_inv.
Qed.

End output_inv.


(** ** Termination *)

Lemma activate_active_cong s s' :
  active s' = active s → pending_bytes s' = pending_bytes s → pending_effects s' = pending_effects s →
  pending_render s' = pending_render s → pending_bells s' = pending_bells s →
  synchronized_output_supported s' = synchronized_output_supported s →
  active (activate_pending s') = active (activate_pending s).
Proof.
  intros Ha Hb He Hr Hbe Hs. unfold activate_pending. rewrite Ha.
  destruct (active s) as [|t l] eqn:Ha'; [|congruence]. cbn [active]. by rewrite Hb, He, Hr, Hbe, Hs.
Qed.

Section output_termination.
Context {W : Type} `{WW : Writer W} `{!WriterLaws W}.
Implicit Types w : W.

Lemma flush_writer_total fuel w s report :
  (interrupts w < fuel)%nat →
  ∃ w' s' report' r, flush_writer fuel w s report = Some (w', s', report', r) ∧
    (interrupts w' ≤ interrupts w)%nat.
Proof.
  revert w. induction fuel as [|fuel IH]; intros w Hf; [lia|]. cbn [flush_writer].
  destruct (writer_flush w) as [w1 r] eqn:Hfl. apply writer_flush_interrupts in Hfl.
  destruct r as [u|e].
  - destruct (complete_awaiting_renders _ report). eexists _, _, _, _. split; [done|]. by case_decide.
  - destruct e; case_decide; try done; try (eexists _, _, _, _; by split).
    destruct (IH w1) as (w' & s' & report' & r & -> & Hle); [lia|].
    eexists _, _, _, _. split; [done|lia].
Qed.

Lemma write_loop_total fuel budget started_only w s report :
  (interrupts w + length (active s) + N.to_nat (budget - bytes_written report) < fuel)%nat →
  budget ≤ usize_max →
  ∃ w' s' report' r, write_loop fuel budget started_only w s report = Some (w', s', report', r) ∧
    (interrupts w' ≤ interrupts w)%nat.
Proof.
  intros Hf Hmax. revert w s report Hf. induction fuel as [|fuel IH]; intros w s report Hf; [lia|].
  cbn [write_loop]. destruct (N.leb_spec budget (bytes_written report)) as [Hb|Hb]; [eexists _, _, _, _; by split|].
  destruct (active s) as [|t rest] eqn:Ha; [eexists _, _, _, _; by split|].
  destruct (started_only && _); [eexists _, _, _, _; by split|].
  simpl in Hf. case_bool_decide as Hr.
  - destruct (completes_bypass s t); [eexists _, _, _, _; by split|].
    destruct (IH w (retire t rest s) report) as (w' & s' & report' & r & -> & Hle); [cbn; lia|].
    eexists _, _, _, _. by split.
  - destruct (writer_write _ w) as [w1 [n|e]] eqn:Hw; apply writer_write_interrupts in Hw; case_decide; try done.
    + destruct (N.eqb_spec n 0) as [|Hn]; [eexists _, _, _, _; by split|].
      edestruct IH as (w' & s' & report' & r & -> & Hle); [|eexists _, _, _, _; split; [done|lia]].
      cbn [active bytes_written]. unfold sat_add. cbn. lia.
    + destruct e; try done. destruct (IH w1 s report) as (w' & s' & report' & r & -> & Hle).
      { rewrite Ha. simpl. lia. }
      eexists _, _, _, _. split; [done|lia].
    + destruct e; try done; eexists _, _, _, _; by split.
Qed.

Lemma flush_if_required_total fuel w s report :
  (interrupts w < fuel)%nat →
  ∃ w' s' report' r, flush_if_required fuel w s report = Some (w', s', report', r) ∧
    (interrupts w' ≤ interrupts w)%nat.
Proof.
  intros Hf. unfold flush_if_required. destruct (flush_required s).
  - by apply flush_writer_total.
  - eexists _, _, _, _. by split.
Qed.

Lemma write_pending_total fuel started_only w s report :
  (interrupts w + length (active (activate_pending s)) +
   N.to_nat (N.max (write_budget_bytes (config s)) 1) < fuel)%nat →
  write_budget_bytes (config s) ≤ usize_max →
  is_Some (write_pending fuel started_only w s report).
Proof.
  intros Hf Hmax. unfold write_pending. cbv zeta.
  assert (config (activate_pending s) = config s) as Ec by (unfold activate_pending; by case_match).
  rewrite Ec.
  destruct (write_loop_total fuel (N.max (write_budget_bytes (config s)) 1) started_only w
              (activate_pending s) report) as (w1 & s1 & report1 & r & -> & Hle);
    [lia|unfold usize_max, u64_max in *; lia|]. simpl.
  destruct r; [|by eexists..].
  destruct (flush_if_required_total fuel w1 (retire_written (active s1) reached s1) report1)
    as (w2 & s2 & report2 & fl & -> & _); [lia|]. simpl. destruct fl; by eexists.
Qed.

Lemma drain_ready_total fuel now_ms force w s :
  (interrupts w + length (active (activate_pending s)) +
   N.to_nat (N.max (write_budget_bytes (config s)) 1) < fuel)%nat →
  write_budget_bytes (config s) ≤ usize_max →
  is_Some (drain_ready fuel now_ms force w s).
Proof.
  intros Hf Hmax. unfold drain_ready. destruct (needs_reconciliation s || _); [by eexists|].
  set (s0 := if force then _ else s).
  assert (∃ wt, s0 = s <| waiting_for_writable := wt |>) as [wt0 Es0].
  { unfold s0. destruct force; [by eexists|]. by exists (waiting_for_writable s). }
  clearbody s0. cbv zeta.
  destruct (flush_if_required_total fuel w s0 report_default) as (w1 & s1 & report1 & fl & Hfl & Hle); [lia|].
  rewrite Hfl. cbn [mbind option_bind]. destruct fl; [|by eexists..].
  apply flush_if_required_spec in Hfl.
  destruct (application_hold now_ms force s1 report1) as [[[s2 report2] so]|] eqn:Hh; [|by eexists].
  apply application_hold_spec in Hh as (_ & _ & _ & sync & rel & Es2 & _).
  assert (active (activate_pending s2) = active (activate_pending s) ∧ config s2 = config s) as [Ea Ec].
  { rewrite Es2. destruct Hfl as (_ & _ & _ & f & wt & [(r1 & b1 & _ & _ & -> & _)|(-> & _)]); rewrite Es0;
      (split; [by apply activate_active_cong|done]). }
  destruct (latency_holds now_ms force s2); [by eexists|].
  apply write_pending_total; rewrite ?Ea, ?Ec; [lia|done].
Qed.

End output_termination.


(** * Runs of the scheduler *)

(** Every operation other than draining. *)
Inductive SchedulerOp :=
| OpBytes (class : ScheduledOutputClass) (b : bytes) (now_ms : N)
| OpCleanup
| OpRender (b : RenderBatch) (accessibility : PresentedAccessibilityBundle) (now_ms : N)
| OpEffect (o : N) (e : TerminalEvent) (now_ms : N)
| OpSupported (supported : bool)
| OpBell (count now_ms : N)
| OpSynchronization (synchronized opened activity : bool) (now_ms : N)
| OpBypass (bypassed : bool)
| OpRecover
| OpWritable.

Definition run_op (op : SchedulerOp) (s : OutputScheduler) : OutputScheduler :=
  match op with
  | OpBytes class b now_ms => enqueue_bytes class b now_ms s
  | OpCleanup => prepare_for_lifecycle_cleanup s
  | OpRender b acc now_ms => (enqueue_render_with_accessibility b acc now_ms s).1
  | OpEffect o e now_ms => enqueue_terminal_effect o e now_ms s
  | OpSupported b => set_synchronized_output_supported b s
  | OpBell n now_ms => enqueue_bell n now_ms s
  | OpSynchronization b o a now_ms => observe_application_synchronization b o a now_ms s
  | OpBypass b => set_application_synchronization_bypassed b s
  | OpRecover => recover s
  | OpWritable => notify_writable s
  end.

Lemma run_op_inv op s : scheduler_inv s → scheduler_inv (run_op op s).
Proof.
  destruct op; simpl.
  - apply enqueue_bytes_inv.
  - apply cleanup_inv.
  - apply enqueue_render_inv.
  - apply enqueue_effect_inv.
  - apply set_supported_inv.
  - apply enqueue_bell_inv.
  - apply observe_sync_inv.
  - apply set_bypass_next_inv.
  - apply recover_inv.
  - apply notify_writable_inv.
Qed.

Definition config_ok (c : OutputSchedulerConfig) : Prop :=
  maximum_pending_bytes c + 16 < usize_max ∧ write_budget_bytes c ≤ usize_max.

(** States reached by any interleaving of operations and drains, on any writer. *)
Inductive reachable {W} `{Writer W} : W → OutputScheduler → Prop :=
| reachable_new w c supported : config_ok c → reachable w (scheduler_new c supported)
| reachable_op w s op : reachable w s → reachable w (run_op op s)
| reachable_drain w s fuel now_ms force w' s' res :
    reachable w s → drain_ready fuel now_ms force w s = Some (w', s', res) → reachable w' s'.

Lemma reachable_inv {W} `{WW : Writer W} `{!WriterLaws W} (w : W) s : reachable w s → scheduler_inv s.
Proof.
  induction 1 as [w c b [H1 H2]|w s op _ IH|w s fuel now_ms force w' s' res _ IH Hd].
  - by apply new_inv.
  - by apply run_op_inv.
  - by eapply drain_ready_inv.
Qed.

(** ** Operations and started transactions *)

Definition keeps_front (s s' : OutputScheduler) : Prop :=
  ∀ t rest, active s = t :: rest → 0 < offset t → ∃ rest', active s' = t :: rest' ∧ rest' `sublist_of` rest.

Lemma keeps_front_same s s' : active s' = active s → keeps_front s s'.
Proof. intros H t rest Ht _. exists rest. by rewrite H. Qed.

Lemma sublist_filter {A} (f : A → bool) l : List.filter f l `sublist_of` l.
Proof. induction l; simpl; [constructor|]. case_match; by constructor. Qed.

Lemma keeps_front_filter f s s' :
  active s' = List.filter f (active s) → (∀ t, 0 < offset t → f t = true) → keeps_front s s'.
Proof.
  intros H Hf t rest Ht Ho. exists (List.filter f rest). split; [|apply sublist_filter].
  rewrite H, Ht. simpl. by rewrite Hf.
Qed.

Lemma keeps_front_trans s1 s2 s3 : keeps_front s1 s2 → keeps_front s2 s3 → keeps_front s1 s3.
Proof.
  intros H1 H2 t rest Ht Ho. destruct (H1 t rest Ht Ho) as (r2 & Hr2 & Hs2).
  destruct (H2 t r2 Hr2 Ho) as (r3 & Hr3 & Hs3). exists r3. split; [done|by etrans].
Qed.

Lemma remove_obsolete_keeps_front now_ms s : keeps_front s (remove_obsolete_renders now_ms s).
Proof.
  intros t rest Ht Ho. unfold remove_obsolete_renders.
  change (active (s <| pending_render := None |>)) with (active s).
  change (pending_bells (s <| pending_render := None |>)) with (pending_bells s).
  destruct (take_first is_unstarted_render (active s)) as [[u others]|] eqn:Hf.
  - cbn [active]. destruct (reclaim_bells_spec others (pending_bells s)) as [E _].
    rewrite Ht in Hf. simpl in Hf.
    assert (is_unstarted_render t = false) as Hu by (unfold is_unstarted_render; lia). rewrite Hu in Hf.
    destruct (take_first is_unstarted_render rest) as [[v r]|] eqn:Hf'; [|done]. injection Hf as <- <-.
    exists (List.filter (λ t, negb (is_unstarted_bell t)) r). split.
    + etrans; [exact E|]. simpl.
      assert (is_unstarted_bell t = false) as -> by (unfold is_unstarted_bell; lia). done.
    + apply take_first_Some in Hf' as (l1 & l2 & -> & -> & _). etrans; [apply sublist_filter|].
      apply sublist_app; [done|]. by apply sublist_cons.
  - by exists rest.
Qed.

Lemma run_op_keeps_front op s : keeps_front s (run_op op s).
Proof.
  destruct op as [class b now| |b acc now|o e now|b|n now|b o a now|b| |]; cbn [run_op].
  - unfold enqueue_bytes. repeat case_match; try by apply keeps_front_same.
    all: apply (keeps_front_filter (keeps_for_control s)); [done|].
    all: intros t Ho; unfold keeps_for_control; by rewrite (proj2 (N.ltb_lt _ _) Ho).
  - apply (keeps_front_filter (λ t, 0 <? offset t)); [|intros t Ho; by apply N.ltb_lt].
    unfold prepare_for_lifecycle_cleanup. cbv zeta. by repeat case_match.
  - unfold enqueue_render_with_accessibility. cbv zeta. set (s0 := s <| bypass_next_render := false |>).
    repeat case_match; try by apply keeps_front_same.
    all: intros t rest Ht Ho;
    exact (remove_obsolete_keeps_front now s0 t rest Ht Ho).
  - assert (∀ k, keeps_front s (supersede_effects o k s)) as Hs.
    { intros k. unfold supersede_effects. case_match; try by apply keeps_front_same.
      all: eapply keeps_front_filter; [done|]; intros t Ho; unfold keeps_for_effect;
        by rewrite (proj2 (N.eqb_neq _ _)) by lia. }
    unfold enqueue_terminal_effect. cbv zeta. eapply keeps_front_trans; [apply Hs|].
    apply keeps_front_same. unfold drop_oldest_effect. by repeat case_match.
  - apply keeps_front_same. unfold set_synchronized_output_supported. by repeat case_match.
  - apply keeps_front_same. unfold enqueue_bell. by repeat case_match.
  - apply keeps_front_same. unfold observe_application_synchronization. by repeat case_match.
  - by apply keeps_front_same.
  - by apply keeps_front_same.
  - by apply keeps_front_same.
Qed.


(** ** Markers *)

Lemma find_sub_None p l i : p ≠ [] → find_sub p l = None → strip_prefix p (drop i l) = None.
Proof.
  intros Hp. revert i. induction l as [|x l IH]; intros i Hf; simpl in Hf.
  - rewrite drop_nil. destruct p; [done|]. done.
  - destruct (starts_with p (x :: l)) eqn:Hs; [done|]. apply fmap_None in Hf.
    destruct i as [|i]; simpl; [|by apply IH].
    apply starts_with_false in Hs. by apply strip_prefix_None.
Qed.

Lemma no_marker_drop l i :
  contains_synchronization_marker l = false →
  strip_prefix SYNCHRONIZED_OUTPUT_START (drop i l) = None ∧
  strip_prefix SYNCHRONIZED_OUTPUT_END (drop i l) = None.
Proof.
  unfold contains_synchronization_marker. intros H. apply orb_false_elim in H as [H1 H2].
  apply bool_decide_eq_false, eq_None_not_Some in H1. apply bool_decide_eq_false, eq_None_not_Some in H2.
  split; by apply find_sub_None.
Qed.

Lemma strip_markers_aux_id fuel l i :
  contains_synchronization_marker l = false → (length l < fuel + i)%nat →
  strip_markers_aux fuel (drop i l) = drop i l.
Proof.
  intros Hm. revert i. induction fuel as [|fuel IH]; intros i Hf.
  { rewrite drop_ge by lia. done. }
  cbn [strip_markers_aux]. destruct (position _ (drop i l)) as [k|] eqn:Hk; [|done].
  rewrite drop_drop. destruct (no_marker_drop l (i + k) Hm) as [-> ->].
  rewrite drop_drop, IH by lia. rewrite <-(drop_drop l 1 (i + k)), take_drop.
  by rewrite <-(drop_drop l k i), take_drop.
Qed.

Lemma without_markers_id l :
  contains_synchronization_marker l = false → without_synchronization_markers l = l.
Proof. intros H. unfold without_synchronization_markers. by apply (strip_markers_aux_id _ l 0 H); lia. Qed.

(** * Properties *)

Definition wrap_synchronized (supported : bool) (b : bytes) : bytes :=
  if supported then SYNCHRONIZED_OUTPUT_START ++ b ++ SYNCHRONIZED_OUTPUT_END else b.

Lemma rendered_bytes_eq supported b :
  rendered_bytes supported b =
  wrap_synchronized supported (mjoin ((λ t, without_synchronization_markers (tx_bytes t)) <$> transactions b)).
Proof.
  unfold rendered_bytes, wrap_synchronized. destruct supported; [done|].
  destruct (transactions b) as [|t [|u l]]; [done| |by rewrite app_nil_r].
  change (mjoin ((λ t, without_synchronization_markers (tx_bytes t)) <$> [t])) with
    (without_synchronization_markers (tx_bytes t) ++ []).
  rewrite app_nil_r. destruct (contains_synchronization_marker (tx_bytes t)) eqn:Hm; [done|].
  by rewrite without_markers_id.
Qed.

(** C3. A drain that does not fail writes, in queue order, the remaining bytes of
    the active transactions (those queued before the drain, or the pending
    work activated by it): some first transactions completely, then possibly a
    first part of the next one, which stays at the front with its progress
    recorded.  Nothing is skipped, repeated or interleaved, and at most the
    write budget is written.  Every render and effect is reported in order,
    once, only after all its bytes have been written and a flush after them
    has succeeded; those not reported yet keep waiting for a flush. *)
Theorem drain_writes_whole_transactions_in_order {W} `{WW : Writer W} `{!WriterLaws W}
    fuel now_ms force (w w' : W) s s' report :
  reachable w s → drain_ready fuel now_ms force w s = Some (w', s', Ok report) →
  drained w s w' s' report ∧ (synced w s → synced w' s').
Proof.
  intros Hr Hd. pose proof (reachable_inv w s Hr) as Hinv.
  exact (drain_ready_spec _ _ _ _ _ _ _ _ Hd
    (inv_queue _ (activate_pending_inv s Hinv)) (proj2 (inv_config s Hinv))).
Qed.

(** C4. No operation but draining touches a transaction that has started: it
    stays at the front of the queue, unchanged, nothing is put before it, and
    the transactions behind it can only be dropped.  In particular a newer
    render, a full queue of control bytes or a lifecycle clean-up never cuts a
    partly written escape sequence. *)
Theorem started_transactions_are_kept op s t rest :
  active s = t :: rest → 0 < offset t →
  ∃ rest', active (run_op op s) = t :: rest' ∧ rest' `sublist_of` rest.
Proof. apply run_op_keeps_front. Qed.

(** C22. In every reachable state the bytes held for output are at most the
    configured maximum plus the sixteen bytes of one synchronized-output
    wrapper, and the control backlog is at most 64 KiB. *)
Theorem reachable_output_is_bounded {W} `{WW : Writer W} `{!WriterLaws W} (w : W) s :
  reachable w s →
  total_pending_bytes s ≤ maximum_pending_bytes (config s) + 16 ∧
  control_bytes s ≤ CONTROL_BACKLOG_LIMIT_BYTES ∧
  (pending_render s ≠ None → synchronized_output_supported s = false →
   total_pending_bytes s ≤ maximum_pending_bytes (config s)).
Proof.
  intros Hr. pose proof (reachable_inv w s Hr) as [Hc Ht Hctl _ _ _ _ _]. rewrite total_raw.
  pose proof (allowance_le s). unfold control_bytes, raw_control, sat_add in *. split_and!; [lia|lia|].
  intros Hp Hs. unfold allowance in Ht. rewrite Hs in Ht. destruct (pending_render s); [cbn in Ht; lia|done].
Qed.

(** The render that a timeout release or a compositor bypass waits for is
    never lost: in every reachable state the recorded generation belongs to a
    render that is pending, active or waiting for its flush. *)
Theorem boundary_renders_are_live {W} `{WW : Writer W} `{!WriterLaws W} (w : W) s :
  reachable w s →
  (∀ g, synchronization_timeout_release_generation s = Some g → g ∈ live_generations s) ∧
  (∀ g, application_synchronization_bypass_generation s = Some g → g ∈ live_generations s).
Proof. intros Hr. pose proof (reachable_inv w s Hr) as Hinv. split; apply Hinv. Qed.

(** C23. A drain always ends, on any writer that answers [Interrupted] finitely
    often: the number of interruptions, of active transactions and of budget
    bytes together bound its loop turns. *)
Theorem drain_terminates {W} `{WW : Writer W} `{!WriterLaws W} fuel now_ms force (w : W) s :
  reachable w s →
  (interrupts w + length (active (activate_pending s)) +
   N.to_nat (N.max (write_budget_bytes (config s)) 1) < fuel)%nat →
  is_Some (drain_ready fuel now_ms force w s).
Proof. intros Hr Hf. apply drain_ready_total; [done|]. apply (inv_config s (reachable_inv w s Hr)). Qed.

Lemma accepted_fits now_ms s n :
  scheduler_inv s →
  (maximum_pending_bytes (config s) <?
     sat_add usize_max (total_pending_bytes s - render_bytes s - replaceable_active_bytes s) n) = false →
  raw_total (remove_obsolete_renders now_ms s) + n ≤ maximum_pending_bytes (config s).
Proof.
  intros Hinv Hcap. destruct (remove_obsolete_totals now_ms s) as (Htot & _).
  pose proof (inv_config s Hinv) as [Hc _]. pose proof (raw_total_bound s Hinv).
  rewrite total_raw in Hcap. unfold sat_add in Hcap. unfold usize_max, u64_max in *. lia.
Qed.

Lemma take_first_None {A} (f : A → bool) l : take_first f l = None ↔ ∀ x, x ∈ l → f x = false.
Proof.
  induction l as [|x l IH]; simpl; [set_solver|]. destruct (f x) eqn:Hx.
  - split; [done|]. intros H. specialize (H x (list_elem_of_here _ _)). congruence.
  - destruct (take_first f l) as [[y r]|].
    + split; [done|]. intros H. destruct IH as [_ IH]. discriminate IH. set_solver.
    + set_solver.
Qed.

Lemma take_first_is_Some s :
  is_Some (fst <$> take_first is_unstarted_render (active s)) ↔
  ∃ t, t ∈ active s ∧ kind t = RenderKind ∧ offset t = 0.
Proof.
  assert (∀ t, is_unstarted_render t = true ↔ kind t = RenderKind ∧ offset t = 0) as Hf.
  { intros t. unfold is_unstarted_render. rewrite andb_true_iff, bool_decide_eq_true, N.eqb_eq. done. }
  setoid_rewrite <-Hf. rewrite fmap_is_Some. split.
  - intros [[x r] H]. apply take_first_Some in H as (l1 & l2 & -> & _ & Hx). exists x. set_solver.
  - intros (t & Ht & Hu). destruct (take_first is_unstarted_render (active s)) eqn:H; [by eexists|].
    rewrite take_first_None in H. specialize (H t Ht). congruence.
Qed.

(** No unstarted render is left once the replaced one is gone. *)
Lemma remove_obsolete_started now_ms s t :
  renders_only (active s) → t ∈ active (remove_obsolete_renders now_ms s) → kind t = RenderKind → 0 < offset t.
Proof.
  intros [_ H1]. unfold remove_obsolete_renders.
  change (active (s <| pending_render := None |>)) with (active s).
  change (pending_bells (s <| pending_render := None |>)) with (pending_bells s).
  destruct (take_first is_unstarted_render (active s)) as [[u others]|] eqn:Hf; cbn [active]; intros Ht Hk.
  - destruct (reclaim_bells_spec others (pending_bells s)) as [E _].
    assert (t ∈ others) as Hto by (change (t ∈ (reclaim_bells others (pending_bells s)).1) in Ht;
      rewrite E in Ht; apply elem_of_Filter in Ht; tauto).
    apply take_first_Some in Hf as (l1 & l2 & Ha & -> & Hu). exfalso.
    assert (List.filter is_render (l1 ++ l2) = []) as Hnil.
    { rewrite Ha, List.filter_app in H1. simpl in H1.
      assert (is_render u = true) as Hur.
      { unfold is_unstarted_render, is_render in *. by destruct (bool_decide (kind u = RenderKind)). }
      rewrite Hur, length_app in H1. simpl in H1. rewrite List.filter_app.
      destruct (List.filter is_render l1), (List.filter is_render l2); simpl in *; try done; lia. }
    assert (t ∈ List.filter is_render (l1 ++ l2)) as Hin.
    { apply elem_of_Filter. split; [done|]. unfold is_render. by apply bool_decide_eq_true. }
    rewrite Hnil in Hin. by apply elem_of_nil in Hin.
  - rewrite take_first_None in Hf. change (t ∈ active s) in Ht. specialize (Hf t Ht).
    unfold is_unstarted_render in Hf. rewrite Hk in Hf. simpl in Hf. lia.
Qed.

(** A render is either refused, leaving the queues alone, when it would exceed
    the configured maximum, or becomes the one pending render, carrying its
    own accessibility state; then no older render that has not started
    remains queued, and the outcome says whether one was replaced. *)
Theorem newest_render_replaces_unstarted {W} `{WW : Writer W} `{!WriterLaws W}
    (w : W) s b accessibility now_ms :
  reachable w s →
  let (s', outcome) := enqueue_render_with_accessibility b accessibility now_ms s in
  match outcome with
  | DroppedForCapacity => s' = s <| bypass_next_render := false |>
  | _ =>
      (∃ r, pending_render s' = Some r ∧ batch r = b ∧ pr_accessibility r = accessibility ∧
            pr_generation r = next_render_generation s) ∧
      (∀ t, t ∈ active s' → kind t = RenderKind → 0 < offset t) ∧
      total_pending_bytes s' ≤ maximum_pending_bytes (config s') ∧
      awaiting_flush_renders s' = awaiting_flush_renders s ∧
      (outcome = ReplacedObsoleteRender ↔
        pending_render s ≠ None ∨ ∃ t, t ∈ active s ∧ kind t = RenderKind ∧ offset t = 0)
  end.
Proof.
  intros Hr. pose proof (reachable_inv w s Hr) as Hinv.
  unfold enqueue_render_with_accessibility. cbv zeta. set (s0 := s <| bypass_next_render := false |>).
  assert (scheduler_inv s0) as Hinv0 by by apply set_bypass_next_inv.
  destruct (render_batch_byte_len b _) as [n|] eqn:Hlen; [|done].
  destruct (_ || _) eqn:Hcap; [done|]. apply orb_false_elim in Hcap as [_ Hcap].
  pose proof (accepted_fits now_ms s0 n Hinv0 Hcap) as Hfit.
  set (s1 := remove_obsolete_renders now_ms s0) in *.
  assert (config s1 = config s0 ∧ awaiting_flush_renders s1 = awaiting_flush_renders s0 ∧
          pending_render s1 = None ∧ next_render_generation s1 = next_render_generation s0) as (E1 & E2 & E3 & E4).
  { unfold s1, remove_obsolete_renders. by repeat case_match. }
  match goal with |- context [note_pending now_ms ?t] => set (s2 := t) end.
  match goal with |- context [total_pending_bytes ?t] => set (s3 := t) end.
  assert ((∃ r, pending_render s3 = Some r ∧ batch r = b ∧ pr_accessibility r = accessibility ∧
            pr_generation r = next_render_generation s) ∧
      (∀ t, t ∈ active s3 → kind t = RenderKind → 0 < offset t) ∧
      total_pending_bytes s3 ≤ maximum_pending_bytes (config s3) ∧
      awaiting_flush_renders s3 = awaiting_flush_renders s) as (H1 & H2 & H3 & H4).
  { split_and!.
    - eexists. split; [done|]. split_and!; [done|done|]. exact E4.
    - intros t Ht. exact (remove_obsolete_started now_ms s0 t (inv_kinds s0 Hinv0) Ht).
    - assert (raw_total s3 = raw_total s1 + n) as Et.
      { unfold raw_total, render_bytes. rewrite E3. unfold s3, s2. clearbody s1. destruct s1; cbn. lia. }
      rewrite total_raw, Et. etrans; [apply N.le_min_r|]. etrans; [exact Hfit|]. by rewrite <-E1.
    - exact E2. }
  clearbody s3. destruct (bool_decide (is_Some (pending_render s0)) || _) eqn:Hout; cbv iota.
  - apply orb_true_iff in Hout. split_and!; try done.
    split; [|done]. intros _. destruct Hout as [Hp%bool_decide_eq_true|Ha%bool_decide_eq_true].
    + left. by apply not_eq_None_Some.
    + right. by apply (take_first_is_Some s0).
  - apply orb_false_elim in Hout as [Hp%bool_decide_eq_false Ha%bool_decide_eq_false].
    split_and!; try done. split; [done|]. intros [H|H]; exfalso.
    + apply Hp. by apply not_eq_None_Some.
    + apply Ha. by apply (take_first_is_Some s0).
Qed.

(** While an application holds its synchronized update open (not timed out, no
    bypass, nothing already started) an unforced drain writes nothing and
    leaves the queued work where it is. *)
Theorem synchronized_update_is_held {W} `{WW : Writer W} `{!WriterLaws W}
    fuel now_ms (w w' : W) s s' report started_ms last_activity_ms :
  application_synchronization s = Some (Active started_ms last_activity_ms) →
  (∀ deadline, synchronization_deadline s = Some deadline → now_ms < deadline) →
  application_synchronization_bypass_generation s = None → front_started s = false →
  drain_ready fuel now_ms false w s = Some (w', s', Ok report) →
  written w' = written w ∧ bytes_written report = 0 ∧ active s' = active s ∧
  pending_bytes s' = pending_bytes s ∧ pending_render s' = pending_render s ∧
  pending_effects s' = pending_effects s ∧ pending_bells s' = pending_bells s.
Proof.
  intros Hs Hdl Hb Hfront. unfold drain_ready. intros Hrun.
  destruct (needs_reconciliation s || _); [by injection Hrun as <- <- <-|].
  apply bind_Some in Hrun as ([[[w1 s1] report1] fl] & Hflush & Hrun).
  apply flush_if_required_spec in Hflush.
  destruct fl as [| |e]; [| |done].
  - assert (application_hold now_ms false s1 report1 = None) as Hhold.
    { assert (application_synchronization s1 = Some (Active started_ms last_activity_ms) ∧
              application_synchronization_bypass_generation s1 = None ∧
              front_started s1 = false ∧ config s1 = config s) as (E1 & E2 & E3 & E4).
      { destruct Hflush as (_ & _ & _ & f & wt & [(r1 & b1 & _ & Hb1 & -> & _)|(-> & _)]); split_and!; try done.
        cbn. rewrite Hb in Hb1. destruct Hb1 as [->|[-> _]]; done. }
      unfold application_hold. rewrite E1, E2, E3, E4. unfold synchronization_deadline in Hdl. rewrite Hs in Hdl.
      specialize (Hdl _ eq_refl).
      destruct (N.leb_spec (sat_add u128_max last_activity_ms (synchronization_timeout_ms (config s))) now_ms); [lia|].
      destruct (N.leb_spec (sat_add u128_max started_ms (synchronization_hard_timeout_ms (config s))) now_ms); [lia|].
      done. }
    rewrite Hhold in Hrun. injection Hrun as <- <- <-.
    destruct Hflush as (Hw & _ & Hbw & f & wt & [(r1 & b1 & _ & _ & -> & _)|(-> & _)]); done.
  - injection Hrun as <- <- <-.
    destruct Hflush as (Hw & _ & Hbw & f & wt & [(r1 & b1 & _ & _ & -> & _)|(-> & _)]); done.
Qed.

(** Waking up at the announced deadline makes progress: a drain at that time
    first flushes what is required, and then is not stopped by the
    application's hold; unless it ends an abandoned hold it is not stopped by
    the latency budget either. *)
Theorem deadline_makes_progress now_ms s deadline report :
  next_deadline_ms s = Some deadline → deadline ≤ now_ms →
  waiting_for_writable s = false ∧
  (flush_required s = true ∨
   ∃ s' report' started_only,
     application_hold now_ms false s report = Some (s', report', started_only) ∧
     (latency_holds now_ms false s' = false ∨
      application_synchronization_holds_output s = true ∧
      application_synchronization s' = Some IgnoringUntilClose)).
Proof.
  unfold next_deadline_ms. destruct (waiting_for_writable s); [done|]. intros Hd Hnow. split; [done|].
  destruct (flush_required s) eqn:Hfr; [by left|]. right.
  assert (∀ d, synchronization_deadline s = Some d → d ≤ now_ms →
    ∃ s' report' started_only,
      application_hold now_ms false s report = Some (s', report', started_only) ∧
      application_synchronization_holds_output s = true ∧
      application_synchronization s' = Some IgnoringUntilClose) as Htimeout.
  { intros d Hsd Hle. unfold synchronization_deadline, application_hold, application_synchronization_holds_output in *.
    destruct (application_synchronization s) as [[started last|]|]; [|done..]. injection Hsd as <-.
    assert ((sat_add u128_max last (synchronization_timeout_ms (config s)) <=? now_ms) ||
            (sat_add u128_max started (synchronization_hard_timeout_ms (config s)) <=? now_ms) = true) as ->
      by (apply orb_true_iff; rewrite !N.leb_le; lia).
    simpl. eexists _, _, _. by split. }
  assert (∀ s' report' so, application_hold now_ms false s report = Some (s', report', so) →
    active s' = active s ∧ pending_since_ms s' = pending_since_ms s ∧ config s' = config s) as Hframe.
  { intros s' report' so H. apply application_hold_spec in H as (_ & _ & _ & sync & rel & -> & _). done. }
  destruct (_ && _ && _) eqn:Hidle.
  { destruct (Htimeout deadline Hd Hnow) as (s' & report' & so & H & ? & ?). exists s', report', so. eauto. }
  destruct ((_ || false) && _) eqn:Hactive.
  { injection Hd as <-. apply andb_true_iff in Hactive as [Ha Hh]. rewrite orb_false_r in Ha.
    apply negb_true_iff, bool_decide_eq_false in Ha. apply negb_true_iff in Hh.
    destruct (application_hold now_ms false s report) as [[[s' report'] so]|] eqn:Hhold.
    - exists s', report', so. split; [done|]. left. destruct (Hframe _ _ _ eq_refl) as (Ea & _).
      unfold latency_holds. by rewrite Ea, bool_decide_eq_false_2.
    - exfalso. revert Hhold Hh. unfold application_hold, application_synchronization_holds_output.
      destruct (application_synchronization s) as [[started last|]|]; [|done..].
      unfold front_unstarted, front_started. destruct (active s) as [|t rest]; [done|].
      repeat case_match; try done. simpl in *. lia. }
  destruct (_ && bool_decide (is_Some _)) eqn:Hsync.
  { destruct (Htimeout deadline Hd Hnow) as (s' & report' & so & H & ? & ?). exists s', report', so. eauto. }
  destruct (application_hold now_ms false s report) as [[[s' report'] so]|] eqn:Hhold.
  - destruct (latency_holds now_ms false s') eqn:Hlat; [|exists s', report', so; eauto].
    destruct (Hframe _ _ _ eq_refl) as (_ & Ep & Ec). unfold latency_holds in Hlat. rewrite Ep, Ec in Hlat.
    apply andb_true_iff in Hlat as [_ Hlat]. destruct (pending_since_ms s) as [p|]; [|done].
    apply N.ltb_lt in Hlat. simpl in Hd. unfold sat_add in Hd, Hlat. destruct (synchronization_deadline s) as [d|] eqn:Hsd.
    + injection Hd as <-. destruct (Htimeout d eq_refl) as (s2 & report2 & so2 & H & ? & ?); [lia|].
      exists s2, report2, so2. split; [exact H|]. by right.
    + injection Hd as <-. lia.
  - exfalso. revert Hhold Hsync. unfold application_hold, synchronization_deadline.
    destruct (application_synchronization s) as [[started last|]|]; [|done..].
    destruct (bool_decide (application_synchronization_bypass_generation s = None)); [done|].
    rewrite !andb_false_r. simpl. by case_match.
Qed.

(** A render is written as its transactions with every synchronized-output
    marker taken out, wrapped once in markers of the scheduler's own when the
    terminal supports them; the shortcut for a single transaction gives the
    same bytes, and a batch without markers is written unchanged. *)
Theorem render_bytes_are_wrapped_once supported b :
  rendered_bytes supported b =
    wrap_synchronized supported
      (mjoin ((λ t, without_synchronization_markers (tx_bytes t)) <$> transactions b)) ∧
  (Forall (λ t, contains_synchronization_marker (tx_bytes t) = false) (transactions b) →
   rendered_bytes supported b = wrap_synchronized supported (mjoin (tx_bytes <$> transactions b))).
Proof.
  split; [apply rendered_bytes_eq|]. intros Hall. rewrite rendered_bytes_eq. f_equal. f_equal.
  induction Hall as [|t l Ht Hl IH]; [done|]. rewrite !fmap_cons. f_equal; [by apply without_markers_id|done].
Qed.

(** Whatever text an application puts in a title, directory or progress
    report, its physical encoding is empty, a bell, or one operating-system
    command whose body holds no control byte, so it cannot end early or start
    another sequence. *)
Theorem effect_encoding_is_one_sequence e :
  encode_terminal_effect e = [] ∨ encode_terminal_effect e = [BEL] ∨
  ∃ body, encode_terminal_effect e = ESC :: bs "]" ++ body ++ ESC :: bs "\" ∧
    Forall (λ b, is_ascii_control b = false) body.
Proof.
  assert (∀ n, Forall (λ b, is_ascii_control b = false) (to_dec n)) as Hdec.
  { intros n. eapply Forall_impl; [apply to_dec_digits|]. unfold is_digit, is_ascii_control. simpl. intros x. lia. }
  assert (∀ code v, ∃ body, write_osc code v = ESC :: bs "]" ++ body ++ ESC :: bs "\" ∧
    Forall (λ b, is_ascii_control b = false) body) as Hosc.
  { intros code v. exists (to_dec code ++ bs ";" ++ List.filter (λ b, (32 <=? b) && negb (b =? 127)) v).
    split; [unfold write_osc; by rewrite <-!app_assoc|]. rewrite !Forall_app. split_and!; [done|by forall_list done|].
    apply Forall_forall. intros x [_ Hx]%elem_of_Filter. unfold is_ascii_control. lia. }
  destruct e as [|v|v| | |st p| | |]; try by left.
  - right. by left.
  - right. right. apply Hosc.
  - right. right. apply Hosc.
  - right. right. unfold encode_terminal_effect.
    exists (bs "9;4;" ++ to_dec (progress_state_code st) ++
            match p with Some p => bs ";" ++ to_dec (N.min p 100) | None => [] end).
    split; [by rewrite <-!app_assoc|]. rewrite !Forall_app. split_and!; [by forall_list done|done|].
    destruct p; [|constructor]. apply Forall_app. split; [by forall_list done|done].
Qed.

End scheduler.

(** * Limits shown by examples *)

(** Taking a marker out can join the bytes around it into a new one, which
    stays in the output: the stripping is not repeated. *)
Example stripping_can_leave_a_marker :
  contains_synchronization_marker
    (without_synchronization_markers (ESC :: bs "[?20" ++ SYNCHRONIZED_OUTPUT_START ++ bs "26h")) = true.
Proof. vm_compute. reflexivity. Qed.

(** * Witnesses *)

Section witnesses.

Definition small_config : OutputSchedulerConfig := {|
  latency_budget_ms := 0; synchronization_timeout_ms := 100; synchronization_hard_timeout_ms := 2000;
  write_budget_bytes := 8; maximum_pending_bytes := 64
|}.
Definition example_batch (b : bytes) : @RenderBatch unit :=
  {| transactions := [{| resize := None; tx_bytes := b |}]; predicted := tt |}.
Definition example_geometry (_ : unit) : TerminalGeometry := from_cells 24 80.
Definition example_writer : ScriptedWriter :=
  {| script := [Ok 2; Err Interrupted; Ok 4]; accepted := []; flushed_bytes := 0 |}.

(** A queued control sequence, then a held render that bypasses the hold. *)
Definition example_state : @OutputScheduler unit N :=
  run_op (OpRender (example_batch (bs "frame")) bundle_default 1)
    (run_op (OpBypass true)
      (run_op (OpSynchronization true true true 0)
        (run_op (OpBytes Control (bs "ctl") 0) (scheduler_new small_config true)))).

Lemma example_reachable : reachable example_geometry example_writer example_state.
Proof. unfold example_state. do 4 apply reachable_op. apply reachable_new. split; by vm_compute. Qed.

Lemma drain_writes_whole_transactions_in_order_witness :
  ∃ w' s' report, drain_ready example_geometry 40 2 false example_writer example_state = Some (w', s', Ok report) ∧
    accepted w' = bs "ctl" ++ take 5 SYNCHRONIZED_OUTPUT_START ∧
    drained example_geometry example_writer example_state w' s' report.
Proof.
  destruct (drain_ready example_geometry 40 2 false example_writer example_state)
    as [[[w' s'] [report|e]]|] eqn:E; [|by vm_compute in E..].
  exists w', s', report. split; [done|]. split.
  - vm_compute in E. by injection E as <- _ _.
  - exact (proj1 (drain_writes_whole_transactions_in_order example_geometry 40 2 false _ _ _ _ _ example_reachable E)).
Defined.

Lemma started_transactions_are_kept_witness :
  ∃ t rest, active (run_op OpCleanup
      (example_state <| active := [advance 3 (start_transaction ControlKind (bs "partial") None []);
                                   start_transaction BellKind [BEL] None []] |>)) = t :: rest ∧ rest `sublist_of`
    [start_transaction BellKind [BEL] None []].
Proof.
  set (s := example_state <| active := _ |>).
  destruct (started_transactions_are_kept OpCleanup s (advance 3 (start_transaction ControlKind (bs "partial") None []))
    [start_transaction BellKind [BEL] None []] eq_refl ltac:(by vm_compute)) as (rest & H & Hs).
  eexists _, rest. by split.
Defined.

Lemma reachable_output_is_bounded_witness :
  total_pending_bytes example_state = 24 ∧ total_pending_bytes example_state ≤ 64 + 16.
Proof.
  split; [by vm_compute|]. exact (proj1 (reachable_output_is_bounded example_geometry _ _ example_reachable)).
Defined.

Lemma boundary_renders_are_live_witness :
  application_synchronization_bypass_generation example_state = Some 1 ∧ 1 ∈ live_generations example_state.
Proof.
  split; [by vm_compute|].
  apply (proj2 (boundary_renders_are_live example_geometry _ _ example_reachable)). by vm_compute.
Defined.

Lemma drain_terminates_witness :
  is_Some (drain_ready example_geometry 40 2 false example_writer example_state).
Proof. apply (drain_terminates example_geometry); [apply example_reachable|]. apply Nat.ltb_lt. by vm_compute. Defined.

Lemma newest_render_replaces_unstarted_witness :
  let (s', outcome) := enqueue_render_with_accessibility (example_batch (bs "newer")) bundle_default 2 example_state in
  outcome = ReplacedObsoleteRender ∧ ∃ r, pending_render s' = Some r ∧ batch r = example_batch (bs "newer").
Proof.
  pose proof (newest_render_replaces_unstarted example_geometry _ _ (example_batch (bs "newer")) bundle_default 2
                example_reachable) as H.
  destruct (enqueue_render_with_accessibility _ _ 2 example_state) as [s' outcome] eqn:E.
  assert (outcome = ReplacedObsoleteRender) as -> by (vm_compute in E; by injection E as _ <-).
  split; [done|]. destruct H as ((r & Hr & Hb & _) & _). exists r. by split.
Defined.

Lemma synchronized_update_is_held_witness :
  ∃ w' s' report,
    drain_ready example_geometry 40 5 false example_writer
      (run_op (OpSynchronization true true true 0) (run_op (OpBell 3 0) (@scheduler_new unit N small_config true)))
      = Some (w', s', Ok report) ∧ accepted w' = [] ∧ pending_bells s' = 3.
Proof.
  destruct (drain_ready example_geometry 40 5 false example_writer
    (run_op (OpSynchronization true true true 0) (run_op (OpBell 3 0) (scheduler_new small_config true))))
    as [[[w' s'] [report|e]]|] eqn:E; [|by vm_compute in E..].
  exists w', s', report. split; [done|].
  edestruct (synchronized_update_is_held (Frame:=N) example_geometry 40 5 example_writer w') as (Hw & _ & _ & _ & _ & _ & Hb);
    [| | | |exact E|by split].
  - by vm_compute.
  - intros d Hd. vm_compute in Hd. injection Hd as <-. by vm_compute.
  - by vm_compute.
  - by vm_compute.
Defined.

Lemma deadline_makes_progress_witness :
  next_deadline_ms example_state = Some 0 ∧ waiting_for_writable example_state = false.
Proof.
  assert (next_deadline_ms example_state = Some 0) as H by (by vm_compute).
  split; [exact H|]. exact (proj1 (deadline_makes_progress 1 example_state 0 report_default H ltac:(by vm_compute))).
Defined.

End witnesses.
