(* ===== verification/TmuxLayout.v ===== *)
(** Parsing of tmux's window layouts (src/src/tmux_panes.rs, [TmuxLayout]):
    nested splits of a window into panes, the dividers between them, floating
    panes above them, and the borders drawn from the dividers.

    The parser's byte offset is the input left to read.  [parse_node] recurses
    on the depth that is left, so the bound of the code is the bound of the
    recursion; the loop over children carries fuel, of which there is more than
    nodes can be parsed ([parse_list_fuel]). *)

From S2P Require Import Prelude Terminal.
Local Open Scope N_scope.
#[local] Set Warnings "-register-all".

Definition MAX_LAYOUT_DEPTH : nat := 64.
Definition MAX_LAYOUT_NODES : nat := 4096.

(** * Data *)

(** A pane of the layout: its [GridPoint] origin ([i32]) and its size ([u16]). *)
Record LayoutPane := { pane_id : N; origin_row : Z; origin_col : Z; pane_rows : N; pane_cols : N }.
#[export] Instance LayoutPane_eq_dec : EqDecision LayoutPane.
Proof. solve_decision. Defined.

Inductive SplitKind := LeftRight | TopBottom.
#[export] Instance SplitKind_eq_dec : EqDecision SplitKind.
Proof. solve_decision. Defined.

Record Divider := { kind : SplitKind; divider_row : Z; divider_col : Z; divider_length : N }.

Record TmuxLayout := { panes : list LayoutPane; dividers : list Divider }.

Inductive LayoutError :=
| Malformed
| TooComplex
| DuplicatePane (id : N)
| ChildOutsideParent
| InvalidPartition.

Record NodeRect := { rx : N; ry : N; rwidth : N; rheight : N }.
#[export] Instance NodeRect_eq_dec : EqDecision NodeRect.
Proof. solve_decision. Defined.

Definition contains (parent child : NodeRect) : bool :=
  (rx parent <=? rx child) && (ry parent <=? ry child) &&
  (rx child + rwidth child <=? rx parent + rwidth parent) &&
  (ry child + rheight child <=? ry parent + rheight parent).

Record LayoutParser := {
  rest : bytes;
  nodes : nat;
  parsed_panes : list LayoutPane;
  parsed_dividers : list Divider
}.

Record ParsedNode := { rect : NodeRect; floating : bool }.

(** * The parser *)

Definition P (A : Type) : Type := LayoutParser → result LayoutError (A * LayoutParser).
#[export] Instance P_ret : MRet P := λ A a s, Ok (a, s).
#[export] Instance P_bind : MBind P := λ A B f m s, '(a, s) ← m s; f a s.

Definition fail {A} (e : LayoutError) : P A := λ _, Err e.
Definition lift {A} (r : result LayoutError A) : P A := λ s, a ← r; Ok (a, s).
Definition gets {A} (f : LayoutParser → A) : P A := λ s, Ok (f s, s).
Definition peek : P (option byte) := gets (λ s, head (rest s)).
(** [self.offset += 1]. *)
Definition advance : P unit := λ s, Ok (tt, s <| rest := tail (rest s) |>).
Definition modify (f : LayoutParser → LayoutParser) : P unit := λ s, Ok (tt, f s).

Fixpoint span_digits (l : bytes) : bytes * bytes :=
  match l with
  | b :: l' => if is_digit b then let '(ds, r) := span_digits l' in (b :: ds, r) else ([], l)
  | [] => ([], [])
  end.

Definition number_u64 : P N := λ s,
  let '(ds, r) := span_digits (rest s) in
  if bool_decide (ds = []) then Err Malformed else
  n ← ok_or (parse_digits u64_max ds) Malformed; Ok (n, s <| rest := r |>).

Definition number_u16 : P N :=
  n ← number_u64; if n <=? u16_max then mret n else fail Malformed.

Definition expect (expected : byte) : P unit :=
  b ← peek; if bool_decide (b = Some expected) then advance else fail Malformed.

Section children.
Context (close : byte).

(** The loop of [parse_children]. *)
Fixpoint parse_list (fuel : nat) (node : P ParsedNode) : P (list ParsedNode) :=
  match fuel with
  | O => fail TooComplex
  | S fuel =>
      child ← node;
      b ← peek;
      if bool_decide (b = Some close) then advance ;; mret [child]
      else if bool_decide (b = Some 44) then
        advance ;; children ← parse_list fuel node; mret (child :: children)
      else fail Malformed
  end.
End children.

(** [tiled.windows(2)]. *)
Fixpoint pairs {A} (l : list A) : list (A * A) :=
  match l with
  | x :: (y :: _) as l' => (x, y) :: pairs l'
  | _ => []
  end.

Definition valid_partition (kind : SplitKind) (rect : NodeRect) (tiled : list NodeRect) : bool :=
  match kind with
  | LeftRight =>
      match head tiled with
      | Some c => (rx c =? rx rect) && (ry c =? ry rect) && (rheight c =? rheight rect)
      | None => false
      end &&
      match last tiled with
      | Some c => rx c + rwidth c =? rx rect + rwidth rect
      | None => false
      end &&
      forallb (λ '(a, b), (ry b =? ry rect) && (rheight b =? rheight rect) &&
                          (rx a + rwidth a + 1 =? rx b)) (pairs tiled)
  | TopBottom =>
      match head tiled with
      | Some c => (rx c =? rx rect) && (ry c =? ry rect) && (rwidth c =? rwidth rect)
      | None => false
      end &&
      match last tiled with
      | Some c => ry c + rheight c =? ry rect + rheight rect
      | None => false
      end &&
      forallb (λ '(a, b), (rx b =? rx rect) && (rwidth b =? rwidth rect) &&
                          (ry a + rheight a + 1 =? ry b)) (pairs tiled)
  end.

Definition divider_before (k : SplitKind) (rect next : NodeRect) : Divider :=
  match k with
  | LeftRight => {| kind := k; divider_row := Z.of_N (ry rect); divider_col := Z.of_N (rx next - 1);
                    divider_length := rheight rect |}
  | TopBottom => {| kind := k; divider_row := Z.of_N (ry next - 1); divider_col := Z.of_N (rx rect);
                    divider_length := rwidth rect |}
  end.

(** What [parse_children] does once the children are parsed: the flag it
    returns and the dividers it adds. *)
Definition finish_children (kind : SplitKind) (rect' : NodeRect) (children : list ParsedNode)
    : result LayoutError (bool * list Divider) :=
  if (length children <? 2)%nat then Err Malformed else
  let tiled := rect <$> List.filter (λ c, negb (floating c)) children in
  let has_floating := negb (length tiled =? length children)%nat in
  if negb has_floating && (length tiled <? 2)%nat then Err Malformed else
  if has_floating && (length tiled <=? 1)%nat then
    if match head tiled with Some c => bool_decide (c ≠ rect') | None => false end
    then Err InvalidPartition else Ok (bool_decide (tiled = []), [])
  else if negb (valid_partition kind rect' tiled) then Err InvalidPartition
  else Ok (false, (λ '(_, next), divider_before kind rect' next) <$> pairs tiled).

Section parser.
Context (floating_ids : gset N).

Definition parse_children (node : P ParsedNode) (rect : NodeRect) (kind : SplitKind) (close : byte)
    : P bool :=
  advance ;;
  children ← parse_list close (S MAX_LAYOUT_NODES) node;
  '(flag, ds) ← lift (finish_children kind rect children);
  modify (λ s, s <| parsed_dividers := parsed_dividers s ++ ds |>) ;;
  mret flag.

(** [depth_left] is [MAX_LAYOUT_DEPTH + 1 - depth]. *)
Fixpoint parse_node (depth_left : nat) (parent : option NodeRect) : P ParsedNode :=
  match depth_left with
  | O => fail TooComplex
  | S depth_left =>
      count ← gets nodes;
      if (count =? MAX_LAYOUT_NODES)%nat then fail TooComplex else
      modify (λ s, s <| nodes := S (nodes s) |>) ;;
      width ← number_u16;
      expect 120 ;;
      height ← number_u16;
      expect 44 ;;
      x ← number_u16;
      expect 44 ;;
      y ← number_u16;
      if (width =? 0) || (height =? 0) then fail Malformed else
      let rect := {| rx := x; ry := y; rwidth := width; rheight := height |} in
      if match parent with Some parent => negb (contains parent rect) | None => false end
      then fail ChildOutsideParent else
      b ← peek;
      floating ←
        match b with
        | Some 123 => parse_children (parse_node depth_left (Some rect)) rect LeftRight 125
        | Some 91 => parse_children (parse_node depth_left (Some rect)) rect TopBottom 93
        | Some 44 =>
            advance ;;
            id ← number_u64;
            modify (λ s, s <| parsed_panes := parsed_panes s ++
              [{| pane_id := id; origin_row := Z.of_N y; origin_col := Z.of_N x;
                  pane_rows := height; pane_cols := width |}] |>) ;;
            mret (bool_decide (id ∈ floating_ids))
        | _ => fail Malformed
        end;
       mret {| rect := rect; floating := floating |}
  end.
End parser.

Definition parser_new (body : bytes) : LayoutParser :=
  {| rest := body; nodes := 0; parsed_panes := []; parsed_dividers := [] |}.

(** The loop over the floating panes. *)
Fixpoint parse_floating (fuel : nat) : P unit :=
  match fuel with
  | O => fail TooComplex
  | S fuel =>
      parse_node ∅ (S MAX_LAYOUT_DEPTH) None ;;
      r ← gets rest;
      if bool_decide (r = []) then mret tt else expect 44 ;; parse_floating fuel
  end.

(** The first pane whose identifier was already inserted. *)
Fixpoint duplicate_pane (seen : gset N) (l : list LayoutPane) : option N :=
  match l with
  | [] => None
  | p :: l => if bool_decide (pane_id p ∈ seen) then Some (pane_id p)
              else duplicate_pane ({[pane_id p]} ∪ seen) l
  end.

Definition check_unique (l : list LayoutPane) : result LayoutError unit :=
  match duplicate_pane ∅ l with Some id => Err (DuplicatePane id) | None => Ok tt end.

(** [str::split_once] for a one-byte separator. *)
Definition split_once (c : byte) (l : bytes) : option (bytes * bytes) :=
  match position (N.eqb c) l with Some i => Some (take i l, drop (S i) l) | None => None end.

Definition is_hexdigit (b : byte) : bool :=
  is_digit b || ((97 <=? b) && (b <=? 102)) || ((65 <=? b) && (b <=? 70)).

Definition mem (c : byte) (l : bytes) : bool := existsb (N.eqb c) l.

(** The body and the bytes between the angle brackets, if there are any. *)
Definition split_body (body : bytes) : result LayoutError (bytes * option bytes) :=
  match split_once 60 body with
  | Some (body, floating) =>
      floating ← ok_or (strip_suffix [62] floating) Malformed;
      if mem 60 body || mem 62 body || bool_decide (floating = []) || mem 60 floating || mem 62 floating
      then Err Malformed else Ok (body, Some floating)
  | None => if mem 62 body then Err Malformed else Ok (body, None)
  end.

Definition floating_panes (floating_body : option bytes) : result LayoutError (list LayoutPane) :=
  match floating_body with
  | None => Ok []
  | Some body =>
      '(_, s) ← parse_floating (S MAX_LAYOUT_NODES) (parser_new body);
      if bool_decide (parsed_panes s = []) then Err Malformed else Ok (parsed_panes s)
  end.

Definition pane_by_id (l : list LayoutPane) : gmap N LayoutPane :=
  foldl (λ m p, <[pane_id p := p]> m) ∅ l.

Definition layout_parse (layout : bytes) : result LayoutError TmuxLayout :=
  '(checksum, body) ← ok_or (split_once 44 layout) Malformed;
  if negb (length checksum =? 4)%nat || negb (forallb is_hexdigit checksum) then Err Malformed else
  '(body, floating_body) ← split_body body;
  floats ← floating_panes floating_body;
  _ ← check_unique floats;
  let floating_ids : gset N := list_to_set (pane_id <$> floats) in
  '(_, s) ← parse_node floating_ids (S MAX_LAYOUT_DEPTH) None (parser_new body);
  if bool_decide (rest s ≠ []) || bool_decide (parsed_panes s = []) then Err Malformed else
  _ ← check_unique (parsed_panes s);
  if negb (forallb (λ f, bool_decide (pane_by_id (parsed_panes s) !! pane_id f = Some f)) floats)
  then Err Malformed else
  Ok {| panes := List.filter (λ p, bool_decide (pane_id p ∉ floating_ids)) (parsed_panes s) ++ reverse floats;
        dividers := parsed_dividers s |}.

(** [TmuxLayout::pane]. *)
Definition layout_pane (id : N) (l : TmuxLayout) : option LayoutPane :=
  List.find (λ p, pane_id p =? id) (panes l).

(** * Borders

    [border_snapshot] returns the graphemes of its cells; the snapshot's cells
    are otherwise default ones, no row is wrapped and the cursor is hidden. *)

Definition NORTH : N := 1.
Definition SOUTH : N := 2.
Definition WEST : N := 4.
Definition EAST : N := 8.

Definition i32_max : Z := 2147483647.
(** [i32::saturating_add] of a non-negative number. *)
Definition saturating_add_i32 (a : Z) (b : N) : Z := Z.min i32_max (a + Z.of_N b).

Definition or_bits (masks : list (list N)) (row col : nat) (bits : N) : list (list N) :=
  alter (alter (λ mask, N.lor mask bits) col) row masks.

Definition draw_offset (g : TerminalGeometry) (d : Divider) (masks : list (list N)) (offset : nat)
    : list (list N) :=
  let '(row, col, bits) :=
    match kind d with
    | LeftRight => (saturating_add_i32 (divider_row d) (N.of_nat offset), divider_col d, N.lor NORTH SOUTH)
    | TopBottom => (divider_row d, saturating_add_i32 (divider_col d) (N.of_nat offset), N.lor WEST EAST)
    end in
  if bool_decide (0 ≤ row ∧ 0 ≤ col ∧ row < Z.of_N (rows g) ∧ col < Z.of_N (cols g))%Z
  then or_bits masks (Z.to_nat row) (Z.to_nat col) bits else masks.

Definition draw_divider (g : TerminalGeometry) (masks : list (list N)) (d : Divider) : list (list N) :=
  foldl (draw_offset g d) masks (seq 0 (N.to_nat (divider_length d))).

Definition cell_at {A} (m : list (list A)) (row col : nat) : option A := line ← m !! row; line !! col.
Definition occupied (masks : list (list N)) (row col : nat) : bool :=
  match cell_at masks row col with Some mask => negb (mask =? 0) | None => false end.

(** The second pass: every cell is visited once, and its neighbours are looked
    up in the [occupied] table made before. *)
Definition join_neighbours (masks : list (list N)) : list (list N) :=
  imap (λ row line, imap (λ col mask,
    if mask =? 0 then mask else
    N.lor (N.lor (N.lor (N.lor mask
      (if (0 <? row)%nat && occupied masks (row - 1) col then NORTH else 0))
      (if occupied masks (row + 1) col then SOUTH else 0))
      (if (0 <? col)%nat && occupied masks row (col - 1) then WEST else 0))
      (if occupied masks row (col + 1) then EAST else 0)) line) masks.

Definition border_character (mask : N) : bytes :=
  match mask with
  | 0 => bs ""
  | 1 | 2 | 3 => bs "│"
  | 4 | 8 | 12 => bs "─"
  | 10 => bs "┌"
  | 6 => bs "┐"
  | 9 => bs "└"
  | 5 => bs "┘"
  | 14 => bs "┬"
  | 13 => bs "┴"
  | 11 => bs "├"
  | 7 => bs "┤"
  | _ => bs "┼"
  end.

Definition border_masks (g : TerminalGeometry) (l : TmuxLayout) : list (list N) :=
  foldl (draw_divider g) (replicate (N.to_nat (rows g)) (replicate (N.to_nat (cols g)) 0)) (dividers l).

Definition border_snapshot (g : TerminalGeometry) (l : TmuxLayout) : list (list bytes) :=
  List.map (List.map border_character) (join_neighbours (border_masks g l)).

Example parse_two :
  layout_parse (bs "b25f,80x24,0,0{40x24,0,0,1,39x24,41,0[39x12,41,0,2,39x11,41,13,3]}") =
  Ok {| panes := [ {| pane_id := 1; origin_row := 0; origin_col := 0; pane_rows := 24; pane_cols := 40 |};
                   {| pane_id := 2; origin_row := 0; origin_col := 41; pane_rows := 12; pane_cols := 39 |};
                   {| pane_id := 3; origin_row := 13; origin_col := 41; pane_rows := 11; pane_cols := 39 |} ];
        dividers := [ {| kind := TopBottom; divider_row := 12; divider_col := 41; divider_length := 39 |};
                      {| kind := LeftRight; divider_row := 0; divider_col := 40; divider_length := 24 |} ] |}.
Proof. vm_compute. reflexivity. Qed.

(** * Cells *)

(** The number of list elements that satisfy a test. *)
Fixpoint count {A} (f : A → bool) (l : list A) : nat :=
  match l with [] => 0 | x :: l => ((if f x then 1 else 0) + count f l)%nat end.

Definition within (lo len : N) (v : Z) : bool := (Z.of_N lo <=? v)%Z && (v <? Z.of_N (lo + len))%Z.

Definition in_rect (row col : Z) (r : NodeRect) : bool :=
  within (ry r) (rheight r) row && within (rx r) (rwidth r) col.

Definition pane_covers (row col : Z) (p : LayoutPane) : bool :=
  (origin_row p <=? row)%Z && (row <? origin_row p + Z.of_N (pane_rows p))%Z &&
  (origin_col p <=? col)%Z && (col <? origin_col p + Z.of_N (pane_cols p))%Z.

Definition divider_covers (row col : Z) (d : Divider) : bool :=
  match kind d with
  | LeftRight => (col =? divider_col d)%Z && (divider_row d <=? row)%Z &&
                 (row <? divider_row d + Z.of_N (divider_length d))%Z
  | TopBottom => (row =? divider_row d)%Z && (divider_col d <=? col)%Z &&
                 (col <? divider_col d + Z.of_N (divider_length d))%Z
  end.

(** How many panes and dividers cover a cell. *)
Definition cover (ps : list LayoutPane) (ds : list Divider) (row col : Z) : nat :=
  (count (pane_covers row col) ps + count (divider_covers row col) ds)%nat.

Definition b2n (b : bool) : nat := if b then 1%nat else 0%nat.

Lemma count_app {A} (f : A → bool) l1 l2 : count f (l1 ++ l2) = (count f l1 + count f l2)%nat.
Proof. induction l1 as [|x l1 IH]; simpl; lia. Qed.

Lemma count_fmap {A B} (f : B → bool) (g : A → B) l : count f (g <$> l) = count (λ x, f (g x)) l.
Proof. induction l as [|x l IH]; [done|]. rewrite fmap_cons. simpl. by rewrite IH. Qed.

Lemma count_ext {A} (f g : A → bool) l : (∀ x, x ∈ l → f x = g x) → count f l = count g l.
Proof.
  induction l as [|x l IH]; intros H; [done|]. simpl. rewrite H, IH; [done| |].
  - intros y Hy. apply H. by apply list_elem_of_further.
  - apply list_elem_of_here.
Qed.

Lemma count_none {A} (f : A → bool) l : (∀ x, x ∈ l → f x = false) → count f l = 0%nat.
Proof. intros H. rewrite (count_ext f (λ _, false)) by done. clear H. by induction l. Qed.

Lemma cover_app ps1 ps2 ds1 ds2 row col :
  cover (ps1 ++ ps2) (ds1 ++ ds2) row col = (cover ps1 ds1 row col + cover ps2 ds2 row col)%nat.
Proof. unfold cover. rewrite !count_app. lia. Qed.

(** ** A chain of intervals with one position between neighbours *)

Lemma pairs_cons {A} (x y : A) l : pairs (x :: y :: l) = (x, y) :: pairs (y :: l).
Proof. done. Qed.

Lemma pairs_fmap {A B} (f : A → B) l : pairs (f <$> l) = (λ '(a, b), (f a, f b)) <$> pairs l.
Proof.
  induction l as [|x [|y l] IH]; [done..|]. cbn [fmap list_fmap] in *. rewrite pairs_cons, IH.
  by rewrite pairs_cons, fmap_cons.
Qed.

Lemma pairs_elem {A} (x y : A) l : (x, y) ∈ pairs l → x ∈ l ∧ y ∈ l.
Proof.
  induction l as [|a [|b l] IH]; [by intros ?%elem_of_nil..|]. rewrite pairs_cons, elem_of_cons.
  intros [[= -> ->]|H]; [split; auto using list_elem_of_here, list_elem_of_further|].
  destruct (IH H). split; by apply list_elem_of_further.
Qed.

Lemma chain_cover (l : list (N * N)) a len R v :
  forallb (λ '((a, la), (b, _)), a + la + 1 =? b) (pairs ((a, len) :: l)) = true →
  Forall (λ i, 0 < i.2) ((a, len) :: l) →
  (∃ i, last ((a, len) :: l) = Some i ∧ i.1 + i.2 = R) →
  a + len ≤ R ∧
  (count (λ i, within i.1 i.2 v) ((a, len) :: l) +
   count (λ '(_, (b, _)), v =? Z.of_N (b - 1))%Z (pairs ((a, len) :: l)))%nat = b2n (within a (R - a) v).
Proof.
  revert a len. induction l as [|[b lb] l IH]; intros a len Hc Hp (i & Hi & HR).
  - cbn in Hi. injection Hi as <-. cbn in *. split; [lia|]. replace (R - a) with len by lia.
    by destruct (within a len v).
  - rewrite pairs_cons in Hc |- *. cbn [forallb] in Hc. apply andb_true_iff in Hc as [Hab Hc].
    apply Forall_cons in Hp as [Ha Hp]. destruct (IH b lb Hc Hp) as [Hle IHc].
    { exists i. split; [|done]. by rewrite <-Hi. }
    cbn [fst snd] in *. apply N.eqb_eq in Hab.
    split; [lia|]. cbn [count fst snd] in *. revert IHc.
    generalize (count (λ i, within i.1 i.2 v) l)
      (count (λ '(_, (b, _)), v =? Z.of_N (b - 1))%Z (pairs ((b, lb) :: l))).
    unfold within, b2n. intros n m IHc.
    repeat match goal with
    | |- context [if ?b then _ else _] => destruct b eqn:?
    | H : context [if ?b then _ else _] |- _ => destruct b eqn:?
    end; lia.
Qed.

(** ** A valid partition covers its rectangle exactly once *)

Definition start_of (k : SplitKind) (r : NodeRect) : N := match k with LeftRight => rx r | TopBottom => ry r end.
Definition length_of (k : SplitKind) (r : NodeRect) : N :=
  match k with LeftRight => rwidth r | TopBottom => rheight r end.
Definition cross_start (k : SplitKind) (r : NodeRect) : N := match k with LeftRight => ry r | TopBottom => rx r end.
Definition cross_length (k : SplitKind) (r : NodeRect) : N :=
  match k with LeftRight => rheight r | TopBottom => rwidth r end.
Definition along {A} (k : SplitKind) (row col : A) : A := match k with LeftRight => col | TopBottom => row end.
Definition across {A} (k : SplitKind) (row col : A) : A := match k with LeftRight => row | TopBottom => col end.

Definition positive_rect (r : NodeRect) : Prop := 0 < rwidth r ∧ 0 < rheight r.

Lemma in_rect_split k r row col :
  in_rect row col r = within (cross_start k r) (cross_length k r) (across k row col) &&
                      within (start_of k r) (length_of k r) (along k row col).
Proof. destruct k; [done|]. apply andb_comm. Qed.

Lemma divider_before_covers k r next row col :
  divider_covers row col (divider_before k r next) =
  within (cross_start k r) (cross_length k r) (across k row col) &&
  (along k row col =? Z.of_N (start_of k next - 1))%Z.
Proof. apply eq_true_iff_eq. unfold divider_covers, within. destruct k; cbn [kind divider_before divider_row divider_col divider_length across along start_of cross_start cross_length]; lia. Qed.

Lemma valid_partition_spec k r c l :
  valid_partition k r (c :: l) = true →
  Forall (λ x, cross_start k x = cross_start k r ∧ cross_length k x = cross_length k r) (c :: l) ∧
  start_of k c = start_of k r ∧
  (∃ x, last (c :: l) = Some x ∧ start_of k x + length_of k x = start_of k r + length_of k r) ∧
  forallb (λ '(a, b), start_of k a + length_of k a + 1 =? start_of k b) (pairs (c :: l)) = true.
Proof.
  intros H.
  assert (∃ x, last (c :: l) = Some x) as [x Hx] by (apply last_is_Some; done).
  assert (start_of k c = start_of k r ∧ cross_start k c = cross_start k r ∧ cross_length k c = cross_length k r ∧
    start_of k x + length_of k x = start_of k r + length_of k r ∧
    Forall (λ '(a, b), cross_start k b = cross_start k r ∧ cross_length k b = cross_length k r ∧
      start_of k a + length_of k a + 1 = start_of k b) (pairs (c :: l))) as (Hs & Hc1 & Hc2 & Hl & Hp).
  { unfold valid_partition in H. destruct k; rewrite Hx in H; cbn [head] in H;
      rewrite !andb_true_iff, !N.eqb_eq, forallb_Forall in H; destruct H as ((((H1 & H2) & H3) & H4) & H5);
      (split_and!; [done..|]); (eapply Forall_impl; [exact H5|]); intros [a b]; simpl;
      rewrite !andb_true_iff, !N.eqb_eq; tauto. }
  split_and!; [|done|by exists x|].
  - constructor; [done|]. clear -Hp. revert c Hp. induction l as [|b l IH]; intros c Hp; [constructor|].
    rewrite pairs_cons in Hp. apply Forall_cons in Hp as [(? & ? & ?) Hp]. constructor; [done|by apply (IH b)].
  - apply forallb_Forall. eapply Forall_impl; [exact Hp|]. intros [a b]. rewrite N.eqb_eq. tauto.
Qed.

Lemma partition_cover k r tiled row col :
  valid_partition k r tiled = true → Forall positive_rect tiled →
  (count (in_rect row col) tiled +
   count (divider_covers row col) ((λ '(_, next), divider_before k r next) <$> pairs tiled))%nat =
  b2n (in_rect row col r).
Proof.
  intros Hv Hpos. destruct tiled as [|c l]; [by destruct k|].
  apply valid_partition_spec in Hv as (Hcross & Hstart & (x & Hx & Hend) & Hchain).
  set (w := within (cross_start k r) (cross_length k r) (across k row col)).
  rewrite count_fmap, (count_ext (in_rect row col) (λ y, w && within (start_of k y) (length_of k y) (along k row col))),
    (count_ext _ (λ '(_, next), w && (along k row col =? Z.of_N (start_of k next - 1))%Z)); cycle 1.
  { intros [a b] _. apply divider_before_covers. }
  { intros y Hy. rewrite Forall_forall in Hcross. destruct (Hcross y Hy) as [H1 H2].
    by rewrite (in_rect_split k), H1, H2. }
  rewrite (in_rect_split k). fold w. destruct w; cycle 1.
  { rewrite !count_none; [done|by intros []|done]. }
  set (f := λ y, (start_of k y, length_of k y)).
  destruct (chain_cover (f <$> l) (start_of k c) (length_of k c) (start_of k r + length_of k r) (along k row col))
    as [Hle Hcount].
  - change ((start_of k c, length_of k c) :: (f <$> l)) with (f <$> (c :: l)). rewrite pairs_fmap. apply forallb_Forall, Forall_fmap. apply forallb_Forall in Hchain.
    eapply Forall_impl; [exact Hchain|]. by intros [a b].
  - change ((start_of k c, length_of k c) :: (f <$> l)) with (f <$> (c :: l)). apply Forall_fmap. eapply Forall_impl; [exact Hpos|]. intros y []. by destruct k.
  - change ((start_of k c, length_of k c) :: (f <$> l)) with (f <$> (c :: l)). rewrite fmap_last, Hx. by exists (f x).
  - change ((start_of k c, length_of k c) :: (f <$> l)) with (f <$> (c :: l)) in Hcount. rewrite pairs_fmap, !count_fmap in Hcount. cbn [fst snd f] in Hcount.
    rewrite Hstart in Hcount. replace (start_of k r + length_of k r - start_of k r) with (length_of k r) in Hcount by lia.
    simpl andb. rewrite <-Hcount. f_equal. apply count_ext. by intros [a b].
Qed.

(** * What the parser builds *)

Lemma P_bind_Ok {A B} (m : P A) (f : A → P B) s s' b :
  (m ≫= f) s = Ok (b, s') → ∃ a s1, m s = Ok (a, s1) ∧ f a s1 = Ok (b, s').
Proof.
  unfold mbind at 1, P_bind. intros H. apply bind_Ok in H as ([a s1] & H1 & H2). eauto.
Qed.

Lemma fail_Ok {A} e s (a : A) s' : fail e s = Ok (a, s') → False.
Proof. done. Qed.

(** Nothing parsed: the input and the node count may change. *)
Definition same_output (s s' : LayoutParser) : Prop :=
  parsed_panes s' = parsed_panes s ∧ parsed_dividers s' = parsed_dividers s ∧ nodes s' = nodes s.

#[export] Instance same_output_preorder : PreOrder same_output.
Proof. split; [done|]. intros s1 s2 s3 (? & ? & ?) (? & ? & ?). split_and!; congruence. Qed.

Lemma number_u64_output s n s' : number_u64 s = Ok (n, s') → same_output s s'.
Proof.
  unfold number_u64. destruct (span_digits (rest s)) as [ds r]. destruct (bool_decide _); [done|].
  intros H. result_inv. done.
Qed.

Lemma P_mret_Ok {A} (a : A) s b s' : (mret a : P A) s = Ok (b, s') → b = a ∧ s' = s.
Proof. by intros [= <- <-]. Qed.

Lemma number_u16_output s n s' : number_u16 s = Ok (n, s') → same_output s s' ∧ n ≤ u16_max.
Proof.
  intros (m & s1 & H1 & H2)%P_bind_Ok. destruct (N.leb_spec m u16_max); [|by apply fail_Ok in H2].
  apply P_mret_Ok in H2 as [-> ->]. by apply number_u64_output in H1.
Qed.

Lemma peek_Ok s b s' : peek s = Ok (b, s') → b = head (rest s) ∧ s' = s.
Proof. by intros [= <- <-]. Qed.

Lemma advance_output s u s' : advance s = Ok (u, s') → same_output s s'.
Proof. by intros [= _ <-]. Qed.

Lemma expect_output b s u s' : expect b s = Ok (u, s') → same_output s s'.
Proof.
  intros (c & s1 & [-> ->]%peek_Ok & H)%P_bind_Ok. destruct (bool_decide _); [|done].
  by apply advance_output in H.
Qed.

Definition pane_inside (r : NodeRect) (p : LayoutPane) : Prop :=
  (Z.of_N (ry r) ≤ origin_row p ∧ origin_row p + Z.of_N (pane_rows p) ≤ Z.of_N (ry r + rheight r) ∧
   Z.of_N (rx r) ≤ origin_col p ∧ origin_col p + Z.of_N (pane_cols p) ≤ Z.of_N (rx r + rwidth r) ∧
   0 < Z.of_N (pane_rows p) ∧ 0 < Z.of_N (pane_cols p))%Z.

Lemma pane_inside_mono r r' p : contains r r' = true → pane_inside r' p → pane_inside r p.
Proof. unfold contains, pane_inside. lia. Qed.

Section cells.
Context (floating_ids : gset N).

Definition is_tiled (p : LayoutPane) : bool := bool_decide (pane_id p ∉ floating_ids).
Definition tiled_panes : list LayoutPane → list LayoutPane := List.filter is_tiled.

Lemma tiled_app l1 l2 : tiled_panes (l1 ++ l2) = tiled_panes l1 ++ tiled_panes l2.
Proof. unfold tiled_panes. induction l1; simpl; [done|]. case_match; simpl; by f_equal. Qed.

(** A node that is not floating has every cell of its rectangle in exactly one
    tiled pane or divider; a floating one has neither. *)
Definition covers_node (n : ParsedNode) (ps : list LayoutPane) (ds : list Divider) : Prop :=
  if floating n then tiled_panes ps = [] ∧ ds = []
  else tiled_panes ps ≠ [] ∧ ∀ row col, cover (tiled_panes ps) ds row col = b2n (in_rect row col (rect n)).

Definition node_parsed (parent : option NodeRect) (s : LayoutParser) (n : ParsedNode) (s' : LayoutParser) : Prop :=
  ∃ ps ds, parsed_panes s' = parsed_panes s ++ ps ∧ parsed_dividers s' = parsed_dividers s ++ ds ∧
    positive_rect (rect n) ∧ match parent with Some r => contains r (rect n) = true | None => True end ∧
    Forall (pane_inside (rect n)) ps ∧ covers_node n ps ds.

Definition tiled_rects (children : list ParsedNode) : list NodeRect :=
  rect <$> List.filter (λ c, negb (floating c)) children.

Definition list_parsed (r : NodeRect) (s : LayoutParser) (children : list ParsedNode) (s' : LayoutParser) : Prop :=
  ∃ ps ds, parsed_panes s' = parsed_panes s ++ ps ∧ parsed_dividers s' = parsed_dividers s ++ ds ∧
    Forall (λ c, positive_rect (rect c)) children ∧ Forall (pane_inside r) ps ∧
    (∀ row col, cover (tiled_panes ps) ds row col = count (in_rect row col) (tiled_rects children)) ∧
    (tiled_rects children = [] → tiled_panes ps = [] ∧ ds = []) ∧
    (tiled_rects children ≠ [] → tiled_panes ps ≠ []).

Lemma parse_list_parsed close fuel (node : P ParsedNode) r s children s' :
  (∀ s n s', node s = Ok (n, s') → node_parsed (Some r) s n s') →
  parse_list close fuel node s = Ok (children, s') → list_parsed r s children s'.
Proof.
  intros Hnode. revert s children s'. induction fuel as [|fuel IH]; intros s children s' H; [done|].
  cbn [parse_list] in H. apply P_bind_Ok in H as (c & s1 & Hc & H).
  apply Hnode in Hc as (ps & ds & Hps & Hds & Hpos & Hin & Hinside & Hcov).
  apply P_bind_Ok in H as (b & s2 & [-> ->]%peek_Ok & H).
  assert (Forall (pane_inside r) ps) as Hinside'
    by (eapply Forall_impl; [exact Hinside|]; intros p; by apply pane_inside_mono).
  destruct (bool_decide _) in H; [|destruct (bool_decide _) in H; [|done]].
  - apply P_bind_Ok in H as (u & s2 & (Hp2 & Hd2 & _)%advance_output & [-> ->]%P_mret_Ok).
    exists ps, ds. rewrite Hp2, Hd2. split_and!; [done|done|by constructor|done| | |].
    + intros row col. unfold covers_node in Hcov. unfold tiled_rects. simpl. destruct (floating c); simpl.
      * destruct Hcov as [-> ->]. done.
      * destruct Hcov as [_ ->]. unfold b2n. by destruct (in_rect _ _ _).
    + unfold tiled_rects, covers_node in *. simpl. by destruct (floating c).
    + unfold tiled_rects, covers_node in *. simpl. by destruct (floating c), Hcov.
  - apply P_bind_Ok in H as (u & s2 & (Hp2 & Hd2 & _)%advance_output & H).
    apply P_bind_Ok in H as (cs & s3 & (ps' & ds' & Hps' & Hds' & Hpos' & Hin' & Hcov' & Hnil & Hsome)%IH & [-> ->]%P_mret_Ok).
    exists (ps ++ ps'), (ds ++ ds'). rewrite Hps', Hds', Hp2, Hd2, Hps, Hds, !app_assoc.
    split_and!; [done|done|by constructor|by apply Forall_app| | |].
    + intros row col. rewrite tiled_app, cover_app, Hcov'. unfold tiled_rects. simpl.
      unfold covers_node in Hcov. destruct (floating c); simpl.
      * destruct Hcov as [-> ->]. done.
      * destruct Hcov as [_ ->]. unfold b2n. by destruct (in_rect _ _ _).
    + unfold tiled_rects, covers_node in *. simpl. destruct (floating c); [|done].
      intros [Hn ->]%Hnil. destruct Hcov as [Ht ->]. by rewrite tiled_app, Ht, Hn.
    + unfold tiled_rects, covers_node in *. rewrite tiled_app. simpl. destruct (floating c); simpl.
      * intros ?%Hsome [_ ?]%app_nil. done.
      * intros _ [? _]%app_nil. by destruct Hcov.
Qed.

Lemma finish_children_covers k r children flag ds' :
  finish_children k r children = Ok (flag, ds') → Forall (λ c, positive_rect (rect c)) children →
  if flag then tiled_rects children = [] ∧ ds' = []
  else tiled_rects children ≠ [] ∧
       ∀ row col, (count (in_rect row col) (tiled_rects children) +
                   count (divider_covers row col) ds')%nat = b2n (in_rect row col r).
Proof.
  intros H Hpos. unfold finish_children in H. destruct (_ <? 2)%nat; [done|]. cbv zeta in H.
  fold (tiled_rects children) in H.
  assert (Forall positive_rect (tiled_rects children)) as Hpos'.
  { unfold tiled_rects. apply Forall_fmap. rewrite Forall_forall in Hpos |- *. intros c [Hc _]%elem_of_Filter.
    by apply Hpos. }
  destruct (negb (negb _) && _); [done|].
  destruct (_ && (_ <=? 1)%nat) eqn:Hone.
  - apply andb_true_iff in Hone as [_ Hone]. apply Nat.leb_le in Hone.
    destruct (tiled_rects children) as [|c [|c' l]]; cbn [head] in H; [|case_bool_decide as Hne|by simpl in Hone; lia].
    + by injection H as <- <-.
    + done.
    + injection H as <- <-. subst c. split; [done|]. intros row col. simpl. unfold b2n.
      by destruct (in_rect row col r).
  - destruct (negb _) eqn:Hv in H; [done|]. apply negb_false_iff in Hv. injection H as <- <-. split.
    + intros Hnil. rewrite Hnil in Hv. by destruct k.
    + intros row col. by apply partition_cover.
Qed.

Lemma parse_children_parsed node r k close s flag s' :
  positive_rect r → (∀ s n s', node s = Ok (n, s') → node_parsed (Some r) s n s') →
  parse_children node r k close s = Ok (flag, s') →
  node_parsed None s {| rect := r; floating := flag |} s'.
Proof.
  intros Hr Hnode H. apply P_bind_Ok in H as (u & s1 & (Hp1 & Hd1 & _)%advance_output & H).
  apply P_bind_Ok in H as (cs & s2 & Hlist & H).
  apply (parse_list_parsed _ _ _ r) in Hlist as (ps & ds & Hps & Hds & Hpos & Hin & Hcov & Hnil & Hsome); [|done].
  apply P_bind_Ok in H as ([flag' ds'] & s3 & H3 & H).
  unfold lift in H3. apply bind_Ok in H3 as ([f d] & Hfin & [= -> -> ->]).
  apply P_bind_Ok in H as ([] & s4 & [= <-] & [-> ->]%P_mret_Ok).
  apply finish_children_covers in Hfin; [|done].
  exists ps, (ds ++ ds'). destruct s3; cbn in *. rewrite Hds, Hps, Hp1, Hd1, app_assoc. split_and!; [done..|].
  unfold covers_node; cbn. destruct flag'.
  - destruct Hfin as [Ht ->]. destruct (Hnil Ht) as [-> ->]. done.
  - destruct Hfin as [Ht Hfin]. split; [by apply Hsome|].
    intros row col. rewrite <-(app_nil_r (tiled_panes ps)), cover_app, Hcov, <-Hfin. unfold cover. simpl. done.
Qed.

(** What follows the geometry of a node. *)
Definition node_body (d : nat) (r : NodeRect) : P bool := λ s,
  match head (rest s) with
  | Some 123 => parse_children (parse_node floating_ids d (Some r)) r LeftRight 125
  | Some 91 => parse_children (parse_node floating_ids d (Some r)) r TopBottom 93
  | Some 44 =>
      advance ;;
      id ← number_u64;
      modify (λ s, s <| parsed_panes := parsed_panes s ++
        [{| pane_id := id; origin_row := Z.of_N (ry r); origin_col := Z.of_N (rx r);
            pane_rows := rheight r; pane_cols := rwidth r |}] |>) ;;
      mret (bool_decide (id ∈ floating_ids))
  | _ => fail Malformed
  end s.

Lemma parse_node_inv d parent s n s' :
  parse_node floating_ids (S d) parent s = Ok (n, s') →
  ∃ s1, parsed_panes s1 = parsed_panes s ∧ parsed_dividers s1 = parsed_dividers s ∧
    nodes s1 = S (nodes s) ∧ nodes s ≠ MAX_LAYOUT_NODES ∧ positive_rect (rect n) ∧
    match parent with Some r => contains r (rect n) = true | None => True end ∧
    node_body d (rect n) s1 = Ok (floating n, s').
Proof.
  cbn [parse_node]. intros (cnt & s0 & [= <- <-] & H)%P_bind_Ok.
  destruct (Nat.eqb_spec (nodes s) MAX_LAYOUT_NODES) as [|Hmax]; [done|].
  apply P_bind_Ok in H as (u1 & s1 & [= _ <-] & H).
  apply P_bind_Ok in H as (w & s2 & [Hw _]%number_u16_output & H).
  apply P_bind_Ok in H as (u3 & s3 & H3%expect_output & H).
  apply P_bind_Ok in H as (h & s4 & [Hh _]%number_u16_output & H).
  apply P_bind_Ok in H as (u5 & s5 & H5%expect_output & H).
  apply P_bind_Ok in H as (x & s6 & [Hx _]%number_u16_output & H).
  apply P_bind_Ok in H as (u7 & s7 & H7%expect_output & H).
  apply P_bind_Ok in H as (y & s8 & [Hy _]%number_u16_output & H).
  assert (same_output (s <| nodes := S (nodes s) |>) s8) as Hsame.
  { transitivity s7; [|done]. transitivity s6; [|done]. transitivity s5; [|done]. transitivity s4; [|done].
    transitivity s3; [|done]. by transitivity s2. }
  clear -H Hmax Hsame. destruct s as [rs k ps ds], Hsame as (Hp & Hd & Hn); cbn in Hp, Hd, Hn, Hmax |- *.
  destruct (_ || _) eqn:Hpos in H; [done|]. cbv zeta in H.
  destruct (match parent with Some _ => _ | None => _ end) eqn:Hpar in H; [done|].
  apply P_bind_Ok in H as (b & s9 & [-> ->]%peek_Ok & H).
  apply P_bind_Ok in H as (fl & s10 & H10 & [-> ->]%P_mret_Ok).
  exists s8. split_and!; [done..| | |exact H10].
  - unfold positive_rect; cbn. lia.
  - destruct parent; [|done]. by apply negb_false_iff in Hpar.
Qed.

Lemma node_body_pane d r s fl s' :
  node_body d r s = Ok (fl, s') → 
  (∃ k close, parse_children (parse_node floating_ids d (Some r)) r k close s = Ok (fl, s')) ∨
  ∃ id, nodes s' = nodes s ∧ parsed_dividers s' = parsed_dividers s ∧ fl = bool_decide (id ∈ floating_ids) ∧
    parsed_panes s' = parsed_panes s ++
      [{| pane_id := id; origin_row := Z.of_N (ry r); origin_col := Z.of_N (rx r);
          pane_rows := rheight r; pane_cols := rwidth r |}].
Proof.
  unfold node_body. intros H. destruct (head (rest s)) as [c|]; [|done].
  repeat match type of H with (match ?x with _ => _ end) _ = _ => destruct x end; try done; try (left; by eauto).
  right. apply P_bind_Ok in H as (u10 & s11 & (Hp11 & Hd11 & Hn11)%advance_output & H).
  apply P_bind_Ok in H as (id & s12 & (Hp12 & Hd12 & Hn12)%number_u64_output & H).
  apply P_bind_Ok in H as (u12 & s13 & [= _ <-] & [-> ->]%P_mret_Ok).
  exists id. destruct s12; cbn in *. split_and!; congruence.
Qed.

Lemma parse_node_parsed depth_left parent s n s' :
  parse_node floating_ids depth_left parent s = Ok (n, s') → node_parsed parent s n s'.
Proof.
  revert parent s n s'. induction depth_left as [|d IH]; intros parent s n s' H; [done|].
  apply parse_node_inv in H as (s1 & Hp & Hd & _ & _ & Hr & Hpar & H).
  destruct n as [r fl]; cbn [rect floating] in *.
  assert (node_parsed None s1 {| rect := r; floating := fl |} s') as (ps & ds & H1 & H2 & H3 & _ & H4 & H5);
    [|exists ps, ds; rewrite <-Hp, <-Hd; by split_and!].
  apply node_body_pane in H as [(k & close & H)|(id & _ & Hd' & -> & Hp')].
  { apply parse_children_parsed in H; [done..|]. intros. by apply IH. }
  eexists [_], []. rewrite Hp', Hd', app_nil_r. split_and!; [done..| |].
  - constructor; [|done]. clear -Hr. unfold pane_inside, positive_rect in *; cbn in *. lia.
  - unfold covers_node, tiled_panes, is_tiled; cbn. case_bool_decide as Hin.
    + by rewrite bool_decide_eq_false_2 by tauto.
    + rewrite bool_decide_eq_true_2 by done. split; [done|]. intros row col. unfold cover, pane_covers, in_rect, within; cbn.
      unfold b2n. repeat case_match; lia.
Qed.

(** ** The loops end: every node counts *)

Definition counts (node : P ParsedNode) : Prop := ∀ s n s',
  node s = Ok (n, s') →
  (nodes s < nodes s' ∧ (nodes s ≤ MAX_LAYOUT_NODES → nodes s' ≤ MAX_LAYOUT_NODES))%nat.

Lemma parse_list_counts close fuel node s cs s' :
  counts node → parse_list close fuel node s = Ok (cs, s') →
  (nodes s < nodes s' ∧ (nodes s ≤ MAX_LAYOUT_NODES → nodes s' ≤ MAX_LAYOUT_NODES))%nat.
Proof.
  intros Hnode. revert s cs s'. induction fuel as [|fuel IH]; intros s cs s' H; [done|].
  cbn [parse_list] in H. apply P_bind_Ok in H as (c & s1 & Hc%Hnode & H).
  apply P_bind_Ok in H as (b & s2 & [-> ->]%peek_Ok & H).
  destruct (bool_decide _) in H; [|destruct (bool_decide _) in H; [|done]];
    apply P_bind_Ok in H as (u & s2 & (_ & _ & Hn)%advance_output & H).
  - apply P_mret_Ok in H as [_ ->]. lia.
  - apply P_bind_Ok in H as (cs' & s3 & H%IH & [_ ->]%P_mret_Ok). lia.
Qed.

Lemma parse_node_counts d parent : counts (parse_node floating_ids d parent).
Proof.
  revert parent. induction d as [|d IH]; intros parent s n s' H; [done|].
  apply parse_node_inv in H as (s1 & _ & _ & Hn & Hmax & _ & _ & H).
  apply node_body_pane in H as [(k & close & H)|(id & Hn' & _)]; [|lia].
  apply P_bind_Ok in H as (u & s2 & (_ & _ & Hn2)%advance_output & H).
  apply P_bind_Ok in H as (cs & s3 & H3%parse_list_counts & H); [|apply IH].
  apply P_bind_Ok in H as ([flag ds] & s4 & H4 & H).
  unfold lift in H4. apply bind_Ok in H4 as ([f ds'] & _ & [= _ _ <-]).
  apply P_bind_Ok in H as (v & s5 & [= _ <-] & [_ ->]%P_mret_Ok). destruct s3; cbn in *. lia.
Qed.

(** Fuel beyond the nodes that are left changes nothing. *)
Lemma parse_list_fuel close d parent f1 f2 s :
  (nodes s ≤ MAX_LAYOUT_NODES)%nat → (MAX_LAYOUT_NODES - nodes s < f1)%nat → (MAX_LAYOUT_NODES - nodes s < f2)%nat →
  parse_list close f1 (parse_node floating_ids d parent) s = parse_list close f2 (parse_node floating_ids d parent) s.
Proof.
  revert f2 s. induction f1 as [|f1 IH]; intros [|f2] s Hs H1 H2; [lia..|].
  cbn [parse_list]. unfold mbind, P_bind. destruct (parse_node floating_ids d parent s) as [[c s1]|] eqn:Hc; [|done].
  apply parse_node_counts in Hc as [Hlt Hle]. specialize (Hle Hs). cbn. case_bool_decide; [done|]. case_bool_decide; [|done].
  cbn. rewrite (IH f2); [done|destruct s1; cbn in *; unfold MAX_LAYOUT_NODES in *; lia..].
Qed.
End cells.

(** ** Unique panes *)

Lemma duplicate_pane_None seen l :
  duplicate_pane seen l = None → NoDup (pane_id <$> l) ∧ Forall (λ p, pane_id p ∉ seen) l.
Proof.
  revert seen. induction l as [|p l IH]; intros seen H; [by repeat constructor|].
  cbn [duplicate_pane] in H. case_bool_decide as Hp; [done|]. destruct (IH _ H) as [Hnd Hall].
  rewrite fmap_cons. split.
  - constructor; [|done]. intros (q & Hq & Hin)%list_elem_of_fmap. rewrite Forall_forall in Hall.
    specialize (Hall q Hin). set_solver.
  - constructor; [done|]. eapply Forall_impl; [exact Hall|]. set_solver.
Qed.

Lemma check_unique_Ok l u : check_unique l = Ok u → NoDup (pane_id <$> l).
Proof.
  unfold check_unique. destruct (duplicate_pane ∅ l) eqn:H; [done|]. intros _.
  by apply duplicate_pane_None in H as [H _].
Qed.

Lemma pane_by_id_elem l id p : pane_by_id l !! id = Some p → p ∈ l.
Proof.
  unfold pane_by_id.
  assert (∀ m, foldl (λ (m : gmap N LayoutPane) p, <[pane_id p := p]> m) m l !! id = Some p → p ∈ l ∨ m !! id = Some p)
    as H.
  { induction l as [|q l IH]; intros m Hm; [by right|]. cbn [foldl] in Hm.
    destruct (IH _ Hm) as [|[[_ <-]|[_ H]]%lookup_insert_Some];
      auto using list_elem_of_here, list_elem_of_further. }
  intros [|Hm]%H; [done|]. by rewrite lookup_empty in Hm.
Qed.

Lemma NoDup_fmap_filter {A B} (f : A → B) g l : NoDup (f <$> l) → NoDup (f <$> List.filter g l).
Proof.
  induction l as [|x l IH]; [done|]. rewrite fmap_cons, NoDup_cons. intros [Hx Hl]. simpl.
  destruct (g x); [|by apply IH]. rewrite fmap_cons. constructor; [|by apply IH].
  intros (y & Hy & [Hin _]%elem_of_Filter)%list_elem_of_fmap. apply Hx. apply list_elem_of_fmap. eauto.
Qed.

(** ** Layouts as tmux prints them *)

(** A window without floating panes. *)
Inductive LayoutTree :=
| Leaf (r : NodeRect) (id : N)
| Split (r : NodeRect) (k : SplitKind) (children : list LayoutTree).

Section tree_ind.
Context (Q : LayoutTree → Prop) (HLeaf : ∀ r id, Q (Leaf r id))
  (HSplit : ∀ r k children, Forall Q children → Q (Split r k children)).

Fixpoint LayoutTree_ind' (t : LayoutTree) : Q t :=
  match t with
  | Leaf r id => HLeaf r id
  | Split r k children =>
      HSplit r k children
        ((fix go l : Forall Q l :=
            match l with [] => Forall_nil_2 _ | t :: l => Forall_cons_2 _ _ _ (LayoutTree_ind' t) (go l) end)
           children)
  end.
End tree_ind.

Definition tree_rect (t : LayoutTree) : NodeRect := match t with Leaf r _ | Split r _ _ => r end.

Fixpoint tree_depth (t : LayoutTree) : nat :=
  match t with Leaf _ _ => 0 | Split _ _ cs => S (list_max (List.map tree_depth cs)) end.

Fixpoint tree_nodes (t : LayoutTree) : nat :=
  match t with Leaf _ _ => 1 | Split _ _ cs => S (list_sum (List.map tree_nodes cs)) end.

Fixpoint tree_panes (t : LayoutTree) : list LayoutPane :=
  match t with
  | Leaf r id => [{| pane_id := id; origin_row := Z.of_N (ry r); origin_col := Z.of_N (rx r);
                     pane_rows := rheight r; pane_cols := rwidth r |}]
  | Split _ _ cs => concat (List.map tree_panes cs)
  end.

Fixpoint tree_dividers (t : LayoutTree) : list Divider :=
  match t with
  | Leaf _ _ => []
  | Split r k cs => concat (List.map tree_dividers cs) ++
                    ((λ '(_, next), divider_before k r next) <$> pairs (List.map tree_rect cs))
  end.

Definition rect_ok (r : NodeRect) : bool :=
  (0 <? rwidth r) && (0 <? rheight r) && (rwidth r <=? u16_max) && (rheight r <=? u16_max) &&
  (rx r <=? u16_max) && (ry r <=? u16_max).

(** Children partition their parent. *)
Fixpoint tree_ok (t : LayoutTree) : bool :=
  rect_ok (tree_rect t) &&
  match t with
  | Leaf _ id => id <=? u64_max
  | Split r k cs =>
      (2 <=? length cs)%nat && forallb (λ c, contains r (tree_rect c)) cs &&
      valid_partition k r (List.map tree_rect cs) && forallb tree_ok cs
  end.

Fixpoint join_comma (l : list bytes) : bytes :=
  match l with
  | [] => []
  | [x] => x
  | x :: l => x ++ 44 :: join_comma l
  end.

Definition print_rect (r : NodeRect) : bytes :=
  to_dec (rwidth r) ++ 120 :: to_dec (rheight r) ++ 44 :: to_dec (rx r) ++ 44 :: to_dec (ry r).

Fixpoint print_tree (t : LayoutTree) : bytes :=
  match t with
  | Leaf r id => print_rect r ++ 44 :: to_dec id
  | Split r LeftRight cs => print_rect r ++ 123 :: join_comma (List.map print_tree cs) ++ [125]
  | Split r TopBottom cs => print_rect r ++ 91 :: join_comma (List.map print_tree cs) ++ [93]
  end.

Definition no_digit (l : bytes) : Prop := match l with b :: _ => is_digit b = false | [] => True end.

Lemma span_digits_app ds l :
  Forall (λ d, is_digit d = true) ds → no_digit l → span_digits (ds ++ l) = (ds, l).
Proof.
  intros Hds Hl. induction Hds as [|d ds Hd _ IH]; simpl.
  - destruct l as [|b l]; [done|]. simpl in *. by rewrite Hl.
  - by rewrite Hd, IH.
Qed.

Section printed.
Context (ps : list LayoutPane) (ds : list Divider) (k : nat).
Abbreviation at_ l := {| rest := l; nodes := k; parsed_panes := ps; parsed_dividers := ds |}.

Lemma number_u64_printed n l :
  n ≤ u64_max → no_digit l → number_u64 (at_ (to_dec n ++ l)) = Ok (n, at_ l).
Proof.
  intros Hn Hl. unfold number_u64. cbn [rest].
  rewrite span_digits_app by auto using to_dec_digits.
  rewrite bool_decide_eq_false_2 by apply to_dec_nonempty. by rewrite parse_digits_to_dec.
Qed.

Lemma number_u16_printed n l :
  n ≤ u16_max → no_digit l → number_u16 (at_ (to_dec n ++ l)) = Ok (n, at_ l).
Proof.
  intros Hn Hl. unfold number_u16, mbind, P_bind.
  rewrite number_u64_printed by (done || (unfold u16_max, u64_max in *; lia)). simpl.
  by rewrite (proj2 (N.leb_le _ _) Hn).
Qed.
End printed.

Lemma P_bind_run {A B} (m : P A) (f : A → P B) s a s' :
  m s = Ok (a, s') → (m ≫= f) s = f a s'.
Proof. intros H. unfold mbind at 1, P_bind. by rewrite H. Qed.

Ltac p_step := erewrite P_bind_run by (first [reflexivity | apply number_u16_printed; first [lia|done]
  | apply number_u64_printed; first [lia|done]]); cbv beta.

Lemma parse_node_header ids d parent r tl k ps ds :
  rect_ok r = true → match parent with Some r' => contains r' r = true | None => True end →
  (k < MAX_LAYOUT_NODES)%nat → no_digit tl →
  parse_node ids (S d) parent
    {| rest := print_rect r ++ tl; nodes := k; parsed_panes := ps; parsed_dividers := ds |} =
  (floating ←
     match head tl with
     | Some 123 => parse_children (parse_node ids d (Some r)) r LeftRight 125
     | Some 91 => parse_children (parse_node ids d (Some r)) r TopBottom 93
     | Some 44 =>
         advance ;;
         id ← number_u64;
         modify (λ s, s <| parsed_panes := parsed_panes s ++
           [{| pane_id := id; origin_row := Z.of_N (ry r); origin_col := Z.of_N (rx r);
               pane_rows := rheight r; pane_cols := rwidth r |}] |>) ;;
         mret (bool_decide (id ∈ ids))
     | _ => fail Malformed
     end;
   mret {| rect := r; floating := floating |})
    {| rest := tl; nodes := S k; parsed_panes := ps; parsed_dividers := ds |}.
Proof.
  intros Hr Hpar Hk Htl. unfold rect_ok in Hr. cbn [parse_node]. p_step.
  cbn [nodes]. rewrite (proj2 (Nat.eqb_neq k MAX_LAYOUT_NODES)) by lia. p_step.
  unfold print_rect. rewrite <-!app_assoc. cbn [app]. rewrite <-!app_assoc. cbn [app]. rewrite <-!app_assoc. cbn [app].
  unfold modify at 1. cbn [rest nodes parsed_panes parsed_dividers].
  do 7 p_step. rewrite (proj2 (N.eqb_neq (rwidth r) 0)), (proj2 (N.eqb_neq (rheight r) 0)) by lia.
  cbn [orb]. cbv zeta. destruct r as [x y w h]; cbn [rx ry rwidth rheight] in *.
  assert (match parent with Some parent => negb (contains parent {| rx := x; ry := y; rwidth := w; rheight := h |})
    | None => false end = false) as -> by (destruct parent; [by apply negb_false_iff|done]).
  by p_step.
Qed.

Definition tree_read (t : LayoutTree) : Prop := ∀ d parent k ps ds l,
  tree_ok t = true → (tree_depth t < d)%nat → (k + tree_nodes t ≤ MAX_LAYOUT_NODES)%nat →
  match parent with Some r => contains r (tree_rect t) = true | None => True end → no_digit l →
  parse_node ∅ d parent {| rest := print_tree t ++ l; nodes := k; parsed_panes := ps; parsed_dividers := ds |} =
  Ok ({| rect := tree_rect t; floating := false |},
      {| rest := l; nodes := k + tree_nodes t; parsed_panes := ps ++ tree_panes t;
         parsed_dividers := ds ++ tree_dividers t |}).

Definition tiled_node (t : LayoutTree) : ParsedNode := {| rect := tree_rect t; floating := false |}.

Lemma parse_list_printed close r d fuel cs k ps ds l :
  cs ≠ [] → (length cs ≤ fuel)%nat → Forall tree_read cs → forallb tree_ok cs = true →
  forallb (λ c, contains r (tree_rect c)) cs = true →
  (list_max (List.map tree_depth cs) < d)%nat → (k + list_sum (List.map tree_nodes cs) ≤ MAX_LAYOUT_NODES)%nat →
  close ≠ 44 → is_digit close = false →
  parse_list close fuel (parse_node ∅ d (Some r))
    {| rest := join_comma (List.map print_tree cs) ++ close :: l; nodes := k; parsed_panes := ps;
       parsed_dividers := ds |} =
  Ok (List.map tiled_node cs,
      {| rest := l; nodes := k + list_sum (List.map tree_nodes cs);
         parsed_panes := ps ++ concat (List.map tree_panes cs);
         parsed_dividers := ds ++ concat (List.map tree_dividers cs) |}).
Proof.
  intros Hne Hfuel Hread. revert fuel k ps ds Hne Hfuel.
  induction Hread as [|c cs Hc Hcs IH]; intros fuel k ps ds Hne Hfuel Hok Hin Hd Hk Hclose Hdig; [done|].
  destruct fuel as [|fuel]; [simpl in Hfuel; lia|].
  cbn [forallb List.map list_max list_sum foldr] in *. apply andb_true_iff in Hok as [Hok Hoks].
  apply andb_true_iff in Hin as [Hin Hins].
  cbn [parse_list]. destruct cs as [|c' cs].
  - cbn [List.map join_comma].
    erewrite P_bind_run by (apply Hc; [done|lia|simpl in Hk; lia|done|done]). cbv beta. p_step.
    cbn [rest head]. rewrite bool_decide_eq_true_2 by done. p_step. unfold mret, P_ret. cbn.
    by rewrite !Nat.add_0_r, !app_nil_r.
  - change (join_comma (print_tree c :: List.map print_tree (c' :: cs))) with
      (print_tree c ++ 44 :: join_comma (List.map print_tree (c' :: cs))).
    rewrite <-app_assoc. cbn [app].
    erewrite P_bind_run by (apply Hc; [done|lia|simpl in Hk |- *; lia|done|done]). cbv beta. p_step.
    cbn [rest head]. rewrite bool_decide_eq_false_2 by congruence. rewrite bool_decide_eq_true_2 by done. p_step.
    cbn [rest nodes parsed_panes parsed_dividers tail].
    assert (c' :: cs ≠ []) as Hnil by done.
    assert (length (c' :: cs) ≤ fuel)%nat as Hf by (cbn [length] in Hfuel |- *; lia).
    assert (list_max (List.map tree_depth (c' :: cs)) < d)%nat as Hd' by (unfold list_max; lia).
    assert (k + tree_nodes c + list_sum (List.map tree_nodes (c' :: cs)) ≤ MAX_LAYOUT_NODES)%nat as Hk'
      by (unfold list_sum; lia).
    etransitivity; [exact (P_bind_run _ _ _ _ _ (IH fuel (k + tree_nodes c)%nat _ _ Hnil Hf
      Hoks Hins Hd' Hk' Hclose Hdig))|].
    unfold mret, P_ret. do 3 f_equal; [unfold list_sum; lia|by rewrite <-app_assoc..].
Qed.

Lemma finish_children_tiled k r cs :
  (2 ≤ length cs)%nat → valid_partition k r (List.map tree_rect cs) = true →
  finish_children k r (List.map tiled_node cs) =
  Ok (false, (λ '(_, next), divider_before k r next) <$> pairs (List.map tree_rect cs)).
Proof.
  intros Hlen Hv. unfold finish_children. rewrite length_map.
  rewrite (proj2 (Nat.ltb_ge _ _) Hlen). cbv zeta.
  assert (rect <$> List.filter (λ c, negb (floating c)) (List.map tiled_node cs) = List.map tree_rect cs) as ->
    by (clear; induction cs as [|c cs IH]; [done|]; cbn; by f_equal).
  rewrite length_map, Nat.eqb_refl. simpl negb. cbn [andb]. rewrite (proj2 (Nat.ltb_ge _ _) Hlen). by rewrite Hv.
Qed.

Lemma parse_children_printed close r d cs k kd ps ds l op :
  tree_ok (Split r kd cs) = true → Forall tree_read cs →
  (list_max (List.map tree_depth cs) < d)%nat → (k + list_sum (List.map tree_nodes cs) ≤ MAX_LAYOUT_NODES)%nat →
  close ≠ 44 → is_digit close = false →
  parse_children (parse_node ∅ d (Some r)) r kd close
    {| rest := op :: join_comma (List.map print_tree cs) ++ close :: l; nodes := k; parsed_panes := ps;
       parsed_dividers := ds |} =
  Ok (false,
      {| rest := l; nodes := k + list_sum (List.map tree_nodes cs);
         parsed_panes := ps ++ tree_panes (Split r kd cs);
         parsed_dividers := ds ++ tree_dividers (Split r kd cs) |}).
Proof.
  intros Hok Hread Hd Hk Hclose Hdig. cbn [tree_ok] in Hok. rewrite !andb_true_iff in Hok.
  destruct Hok as (_ & ((Hlen & Hin) & Hv) & Hoks). apply Nat.leb_le in Hlen.
  assert (length cs ≤ list_sum (List.map tree_nodes cs))%nat as Hle.
  { clear. induction cs as [|c cs IH]; [done|]. cbn. assert (0 < tree_nodes c)%nat by (destruct c; simpl; lia).
    unfold list_sum in *. lia. }
  unfold parse_children. p_step. cbn [rest nodes parsed_panes parsed_dividers tail].
  assert (cs ≠ []) as Hne by (intros ->; simpl in Hlen; lia).
  assert (length cs ≤ S MAX_LAYOUT_NODES)%nat as Hfuel by lia.
  etransitivity; [exact (P_bind_run _ _ _ _ _ (parse_list_printed close r d _ cs k ps ds l Hne Hfuel Hread
    Hoks Hin Hd Hk Hclose Hdig))|].
  cbv beta. erewrite P_bind_run by (unfold lift; by rewrite finish_children_tiled). cbv beta iota.
  p_step. unfold mret, P_ret. cbn. by rewrite <-app_assoc.
Qed.

Lemma tree_reads t : tree_read t.
Proof.
  induction t as [r id|r kd cs IH] using LayoutTree_ind'; intros d parent k ps ds l Hok Hd Hk Hpar Hl;
    (destruct d as [|d]; [lia|]).
  - cbn in Hok, Hk. apply andb_true_iff in Hok as [Hr Hid]. cbn [print_tree]. rewrite <-app_assoc. cbn [app].
    rewrite parse_node_header by (done || lia). cbn [head].
    etransitivity; [apply (P_bind_run _ _ _ false {| rest := l; nodes := S k;
      parsed_panes := ps ++ tree_panes (Leaf r id); parsed_dividers := ds |})|].
    + p_step. cbn [rest nodes parsed_panes parsed_dividers tail].
      etransitivity; [apply P_bind_run, number_u64_printed; [lia|done]|]. cbv beta. p_step. unfold mret, P_ret. by rewrite bool_decide_eq_false_2 by set_solver.
    + unfold mret, P_ret. cbn [tree_rect tree_nodes tree_panes tree_dividers]. by rewrite Nat.add_1_r, app_nil_r.
  - assert (rect_ok r = true) as Hr by (cbn in Hok; by apply andb_true_iff in Hok as [Hr _]).
    cbn [tree_depth] in Hd. cbn [tree_nodes] in Hk |- *.
    destruct kd; cbn [print_tree]; rewrite <-app_assoc; cbn [app]; rewrite <-app_assoc; cbn [app];
      (rewrite parse_node_header by (done || lia)); cbn [head];
      (erewrite P_bind_run by (apply parse_children_printed; [done|done|lia|lia|done|done]));
      unfold mret, P_ret; rewrite <-Nat.add_succ_comm; done.
Qed.

(** ** The window a layout describes *)

(** The geometry at the front of a layout's body, [<width>x<height>,<x>,<y>]. *)
Definition header (body : bytes) : option NodeRect :=
  let '(w, l) := span_digits body in
  let '(h, l) := span_digits (tail l) in
  let '(x, l) := span_digits (tail l) in
  let '(y, _) := span_digits (tail l) in
  w ← parse_digits u64_max w; h ← parse_digits u64_max h;
  x ← parse_digits u64_max x; y ← parse_digits u64_max y;
  Some {| rx := x; ry := y; rwidth := w; rheight := h |}.

(** The body of a layout and its bracketed list of floating panes: what
    follows the checksum. *)
Definition layout_parts (layout : bytes) : option (bytes * option bytes) :=
  '(_, body) ← split_once 44 layout;
  match split_body body with Ok parts => Some parts | Err _ => None end.

Lemma number_u64_read s n s' :
  number_u64 s = Ok (n, s') →
  ∃ ds, span_digits (rest s) = (ds, rest s') ∧ parse_digits u64_max ds = Some n.
Proof.
  unfold number_u64. destruct (span_digits (rest s)) as [ds r]. destruct (bool_decide _); [done|].
  intros H. result_inv. exists ds. by destruct s.
Qed.

Lemma number_u16_read s n s' :
  number_u16 s = Ok (n, s') →
  ∃ ds, span_digits (rest s) = (ds, rest s') ∧ parse_digits u64_max ds = Some n.
Proof.
  intros (m & s1 & H1 & H2)%P_bind_Ok. destruct (m <=? u16_max); [|by apply fail_Ok in H2].
  apply P_mret_Ok in H2 as [-> ->]. by apply number_u64_read.
Qed.

Lemma expect_read b s u s' : expect b s = Ok (u, s') → rest s' = tail (rest s).
Proof.
  intros (c & s1 & [-> ->]%peek_Ok & H)%P_bind_Ok. destruct (bool_decide _); [|done].
  injection H as _ <-. by destruct s.
Qed.

Lemma parse_node_header_read ids d parent s n s' :
  parse_node ids d parent s = Ok (n, s') → header (rest s) = Some (rect n).
Proof.
  destruct d as [|d]; [done|]. cbn [parse_node]. intros (cnt & s0 & [= <- <-] & H)%P_bind_Ok.
  destruct (Nat.eqb_spec (nodes s) MAX_LAYOUT_NODES) as [|Hmax]; [done|].
  apply P_bind_Ok in H as (u1 & s1 & [= _ <-] & H).
  apply P_bind_Ok in H as (w & s2 & (dw & Hw & Ew)%number_u16_read & H).
  apply P_bind_Ok in H as (u3 & s3 & H3%expect_read & H).
  apply P_bind_Ok in H as (h & s4 & (dh & Hh & Eh)%number_u16_read & H).
  apply P_bind_Ok in H as (u5 & s5 & H5%expect_read & H).
  apply P_bind_Ok in H as (x & s6 & (dx & Hx & Ex)%number_u16_read & H).
  apply P_bind_Ok in H as (u7 & s7 & H7%expect_read & H).
  apply P_bind_Ok in H as (y & s8 & (dy & Hy & Ey)%number_u16_read & H).
  assert (header (rest s) = Some {| rx := x; ry := y; rwidth := w; rheight := h |}) as ->.
  { unfold header. replace (span_digits (rest s)) with (dw, rest s2) by (rewrite <-Hw; by destruct s).
    by rewrite <-H3, Hh, <-H5, Hx, <-H7, Hy, Ew, Eh, Ex, Ey. }
  clear -H. destruct (_ || _) in H; [done|]. cbv zeta in H. destruct (match parent with Some _ => _ | None => _ end) in H; [done|].
  apply P_bind_Ok in H as (b & s9 & [-> ->]%peek_Ok & H).
  by apply P_bind_Ok in H as (fl & s10 & H10 & [-> ->]%P_mret_Ok).
Qed.

Lemma split_body_plain body : mem 60 body = false → ∀ b fl, split_body body = Ok (b, fl) → fl = None.
Proof.
  intros Hmem b fl. unfold split_body, split_once.
  replace (position (N.eqb 60) body) with (@None nat); [by destruct (mem 62 body); intros [= <- <-]|].
  symmetry. unfold mem in Hmem. apply position_None. apply Forall_forall. intros x Hx.
  destruct (N.eqb 60 x) eqn:E; [|done]. rewrite <-not_true_iff_false, existsb_exists in Hmem.
  destruct Hmem. exists x. split; [by apply list_elem_of_In|done].
Qed.

Lemma split_once_plain c d l a b : split_once d l = Some (a, b) → mem c l = false → mem c b = false.
Proof.
  unfold split_once, mem. destruct (position _ l) as [i|]; [|done]. intros [= <- <-] Hmem.
  rewrite <-not_true_iff_false, existsb_exists in Hmem |- *. intros (x & Hx & Hcx). apply Hmem. exists x.
  split; [|done]. apply list_elem_of_In. apply list_elem_of_In in Hx.
  rewrite <-(take_drop (S i) l). apply elem_of_app. by right.
Qed.

(** The floating panes are the ones at the end. *)
Lemma floats_filtered floats ps :
  NoDup (pane_id <$> floats) →
  let l := List.filter (λ p, bool_decide (pane_id p ∉ (list_to_set (pane_id <$> floats) : gset N))) ps in
  List.filter (λ p, bool_decide (pane_id p ∉ pane_id <$> floats)) (l ++ reverse floats) = l.
Proof.
  intros _ l. rewrite List.filter_app.
  assert (List.filter (λ p, bool_decide (pane_id p ∉ pane_id <$> floats)) (reverse floats) = []) as ->.
  { assert (Forall (λ p, bool_decide (pane_id p ∉ pane_id <$> floats) = false) (reverse floats)) as H.
    { apply Forall_forall. intros p Hp. apply bool_decide_eq_false. intros Hn. apply Hn. apply list_elem_of_fmap.
      exists p. by rewrite elem_of_reverse in Hp. }
    clear l. induction H as [|p l Hp _ IH]; [done|]. simpl. by rewrite Hp. }
  rewrite app_nil_r. subst l. induction ps as [|p ps IH]; [done|]. simpl.
  destruct (bool_decide (pane_id p ∉ list_to_set _)) eqn:E; [|done]. simpl. rewrite bool_decide_eq_true_2; [by f_equal|].
  apply bool_decide_eq_true in E. by rewrite elem_of_list_to_set in E.
Qed.

(** * Properties *)

(** C8. An accepted layout describes the window whose geometry it begins
    with, and the panes that float in it are those of its bracketed list (none
    if it has no bracket).  They come last, in reverse order; the panes before
    them are the ones that do not float.  These and the dividers partition the
    window: every cell of its rectangle lies in exactly one of them and no cell
    outside does; only when every pane floats is there nothing to tile, and
    then there are no dividers either.  Every pane has a cell and lies inside
    the window, and no pane appears twice. *)
Theorem layout_partitions_window layout L :
  layout_parse layout = Ok L →
  ∃ body bracket root floats,
    layout_parts layout = Some (body, bracket) ∧ header body = Some root ∧
    floating_panes bracket = Ok floats ∧ (mem 60 layout = false → floats = []) ∧
    let tiled := List.filter (λ p, bool_decide (pane_id p ∉ pane_id <$> floats)) (panes L) in
    panes L = tiled ++ reverse floats ∧ positive_rect root ∧
    Forall (pane_inside root) (panes L) ∧ NoDup (pane_id <$> panes L) ∧
    if decide (tiled = []) then dividers L = []
    else ∀ row col, cover tiled (dividers L) row col = b2n (in_rect row col root).
Proof.
  unfold layout_parse. intros H. result_inv.
  match goal with H : floating_panes _ = Ok ?f |- _ => rename f into floats, H into Hfloats end.
  match goal with H : split_body _ = Ok (?b, ?f) |- _ => rename b into body, f into bracket, H into Hbody end.
  match goal with H : split_once _ _ = Some (?c, ?b) |- _ => rename b into text, H into Htext end.
  match goal with H : parse_node _ _ _ _ = Ok (?n, ?s) |- _ => rename n into root, s into s', H into Hnode end.
  match goal with H : check_unique floats = _ |- _ => apply check_unique_Ok in H; rename H into Hfl end.
  match goal with H : check_unique (parsed_panes s') = _ |- _ => apply check_unique_Ok in H; rename H into Hps end.
  match goal with H : negb (forallb _ _) = false |- _ => rename H into Hin end.
  apply negb_false_iff, forallb_Forall in Hin.
  pose proof (parse_node_header_read _ _ _ _ _ _ Hnode) as Hheader.
  apply parse_node_parsed in Hnode as (ps & ds & Hp & Hd & Hpos & _ & Hinside & Hcov). cbn in Hp, Hd, Hheader.
  exists body, bracket, (rect root), floats. unfold layout_parts. rewrite Htext. cbn [mbind option_bind]. rewrite Hbody.
  do 3 (split; [done|]). split.
  { intros Hplain. assert (bracket = None) as ->.
    { eapply split_body_plain; [|exact Hbody]. by eapply split_once_plain. }
    by injection Hfloats as <-. }
  cbn zeta. cbn [panes dividers]. rewrite Hp in *. rewrite Hd.
  rewrite floats_filtered by done. fold (tiled_panes (list_to_set (pane_id <$> floats)) ps).
  assert (Forall (λ f, f ∈ ps) floats) as Hfin.
  { eapply Forall_impl; [exact Hin|]. intros f Hf. apply bool_decide_eq_true in Hf.
    by apply pane_by_id_elem in Hf. }
  split_and!; [done|done| | |].
  - rewrite Forall_forall in Hinside, Hfin |- *. intros p [[Hpin _]%elem_of_Filter|Hpin]%elem_of_app; [auto|].
    rewrite elem_of_reverse in Hpin. auto.
  - rewrite fmap_app, NoDup_app, fmap_reverse. split_and!.
    + by apply NoDup_fmap_filter.
    + intros id (p & -> & [_ Hp']%elem_of_Filter)%list_elem_of_fmap. rewrite elem_of_reverse.
      apply bool_decide_eq_true in Hp'. by rewrite elem_of_list_to_set in Hp'.
    + by rewrite reverse_Permutation.
  - unfold covers_node in Hcov. destruct (floating root), Hcov as [Ht Hc]; [by rewrite decide_True|by rewrite decide_False].
Qed.

Lemma print_tree_plain t : Forall (λ b, b ≠ 60 ∧ b ≠ 62) (print_tree t).
Proof.
  assert (∀ n, Forall (λ b, b ≠ 60 ∧ b ≠ 62) (to_dec n)) as Hdec.
  { intros n. eapply Forall_impl; [apply to_dec_digits|]. intros b Hb. unfold is_digit in Hb. lia. }
  assert (∀ r, Forall (λ b, b ≠ 60 ∧ b ≠ 62) (print_rect r)) as Hrect.
  { intros r. unfold print_rect. repeat (apply Forall_app; split; [done|]; apply Forall_cons; split; [done|]). done. }
  induction t as [r id|r k cs IH] using LayoutTree_ind'; simpl.
  - apply Forall_app; split; [done|]. by constructor.
  - assert (Forall (λ b, b ≠ 60 ∧ b ≠ 62) (join_comma (List.map print_tree cs))) as Hj.
    { clear Hdec Hrect. induction IH as [|c cs Hc _ IH]; [constructor|]. cbn [List.map join_comma].
      destruct cs as [|c' cs]; [done|]. apply Forall_app; split; [done|]. constructor; [done|]. exact IH. }
    destruct k; (apply Forall_app; split; [done|]; constructor; [done|]; apply Forall_app; split; [done|]; by repeat constructor).
Qed.

Lemma mem_false c l : mem c l = false ↔ Forall (λ b, b ≠ c) l.
Proof.
  unfold mem. induction l as [|b l IH]; simpl; [split; [constructor|done]|].
  rewrite orb_false_iff, IH, Forall_cons, N.eqb_neq. naive_solver.
Qed.

Lemma split_once_none c l : Forall (λ b, b ≠ c) l → split_once c l = None.
Proof.
  intros H. unfold split_once. rewrite (proj2 (position_None _ l)); [done|].
  eapply Forall_impl; [exact H|]. intros b Hb. cbn. apply N.eqb_neq. congruence.
Qed.

Lemma duplicate_pane_NoDup seen l :
  NoDup (pane_id <$> l) → Forall (λ p, pane_id p ∉ seen) l → duplicate_pane seen l = None.
Proof.
  revert seen. induction l as [|p l IH]; intros seen Hnd Hall; [done|].
  rewrite fmap_cons in Hnd. apply NoDup_cons in Hnd as [Hp Hnd]. apply Forall_cons in Hall as [Hs Hall].
  cbn [duplicate_pane]. rewrite bool_decide_eq_false_2 by done. apply IH; [done|].
  rewrite Forall_forall in Hall |- *. intros q Hq Hin. specialize (Hall q Hq).
  apply elem_of_union in Hin as [Heq%elem_of_singleton|Hin]; [|done]. apply Hp. apply list_elem_of_fmap. eauto.
Qed.

Lemma filter_no_floating l : List.filter (λ p, bool_decide (pane_id p ∉ (∅ : gset N))) l = l.
Proof.
  induction l as [|p l IH]; [done|]. cbn [List.filter]. rewrite bool_decide_eq_true_2 by apply not_elem_of_empty. by f_equal.
Qed.

Lemma tree_panes_nonempty t : tree_ok t = true → tree_panes t ≠ [].
Proof.
  induction t as [r id|r k cs IH] using LayoutTree_ind'; [done|]. cbn [tree_ok tree_panes].
  rewrite !andb_true_iff. intros (_ & ((Hlen & _) & _) & Hok). apply Nat.leb_le in Hlen.
  destruct cs as [|c cs]; [simpl in Hlen; lia|]. cbn in Hok |- *. apply andb_true_iff in Hok as [Hok _].
  apply Forall_cons in IH as [Hc _]. specialize (Hc Hok). by destruct (tree_panes c).
Qed.

(** ** Borders *)

Lemma cell_at_or_bits m r' c' bits r c :
  cell_at (or_bits m r' c' bits) r c =
  (λ v, if decide (r = r' ∧ c = c') then N.lor v bits else v) <$> cell_at m r c.
Proof.
  unfold cell_at, or_bits. destruct (decide (r = r')) as [->|Hr].
  - rewrite list_lookup_alter_eq. destruct (m !! r') as [line|]; [|done]. cbn.
    destruct (decide (c = c')) as [->|Hc].
    + rewrite list_lookup_alter_eq. destruct (line !! c'); [|done]. cbn. by rewrite decide_True.
    + rewrite list_lookup_alter_ne by done. destruct (line !! c); [|done]. cbn. rewrite decide_False by tauto. done.
  - rewrite list_lookup_alter_ne by done. destruct (m !! r ≫= _); [|done]. cbn. rewrite decide_False by tauto. done.
Qed.

Definition divider_bits (d : Divider) : N :=
  match kind d with LeftRight => N.lor NORTH SOUTH | TopBottom => N.lor WEST EAST end.

Lemma cell_at_draw_divider g d m r c :
  (Z.of_nat r < Z.of_N (rows g))%Z → (Z.of_nat c < Z.of_N (cols g))%Z →
  (Z.of_N (rows g) ≤ i32_max)%Z → (Z.of_N (cols g) ≤ i32_max)%Z →
  cell_at (draw_divider g m d) r c =
  (λ v, if divider_covers (Z.of_nat r) (Z.of_nat c) d then N.lor v (divider_bits d) else v) <$> cell_at m r c.
Proof.
  intros Hr Hc Hrows Hcols. unfold draw_divider.
  assert (∀ n, cell_at (foldl (draw_offset g d) m (seq 0 n)) r c =
    (λ v, if divider_covers (Z.of_nat r) (Z.of_nat c)
               {| kind := kind d; divider_row := divider_row d; divider_col := divider_col d;
                  divider_length := N.of_nat n |}
          then N.lor v (divider_bits d) else v) <$> cell_at m r c) as H.
  { induction n as [|n IH].
    - cbn. destruct (cell_at m r c); [|done]. cbn. unfold divider_covers; cbn.
      destruct (kind d); case_match; try done; lia.
    - rewrite seq_S, foldl_app. cbn [foldl Nat.add]. unfold draw_offset at 1. unfold divider_covers, divider_bits in *.
      destruct (kind d) eqn:Hk; cbn [kind divider_row divider_col divider_length] in *; cbv zeta;
        (case_bool_decide as Hin; [rewrite cell_at_or_bits|]); rewrite IH;
        (destruct (cell_at m r c) as [v|]; [|done]); cbn; f_equal; unfold saturating_add_i32 in *;
        repeat case_match; try done; try lia;
        by rewrite <-N.lor_assoc. }
  rewrite H, N2Nat.id. by destruct d.
Qed.

Definition covered (k : SplitKind) (ds : list Divider) (row col : Z) : bool :=
  existsb (λ d, bool_decide (kind d = k) && divider_covers row col d) ds.

(** Every window tmux can print without floating panes, nested to a depth of
    at most 64 with at most 4096 nodes, parses: the panes come out in tmux's
    order with their geometry, and the dividers are those between
    neighbouring children.  The bound on the loop over children is never the
    reason a layout is refused. *)
Theorem printed_layouts_parse checksum t :
  length checksum = 4%nat → forallb is_hexdigit checksum = true → tree_ok t = true →
  (tree_depth t ≤ MAX_LAYOUT_DEPTH)%nat → (tree_nodes t ≤ MAX_LAYOUT_NODES)%nat →
  NoDup (pane_id <$> tree_panes t) →
  layout_parse (checksum ++ 44 :: print_tree t) = Ok {| panes := tree_panes t; dividers := tree_dividers t |} ∧
  ∀ ids close d parent f1 f2 s, (nodes s ≤ MAX_LAYOUT_NODES)%nat →
    (MAX_LAYOUT_NODES - nodes s < f1)%nat → (MAX_LAYOUT_NODES - nodes s < f2)%nat →
    parse_list close f1 (parse_node ids d parent) s = parse_list close f2 (parse_node ids d parent) s.
Proof.
  intros Hlen Hhex Hok Hdepth Hnodes Hnd. split; [|intros *; apply parse_list_fuel].
  assert (split_once 44 (checksum ++ 44 :: print_tree t) = Some (checksum, print_tree t)) as Hsplit.
  { unfold split_once. rewrite position_app_first; [by rewrite take_app_length, drop_S_app| |done].
    eapply Forall_impl; [by apply forallb_Forall|]. intros b Hb. apply N.eqb_neq. intros <-. done. }
  assert (split_body (print_tree t) = Ok (print_tree t, None)) as Hbody.
  { pose proof (print_tree_plain t) as Hp. apply Forall_and in Hp as [H60 H62]. unfold split_body.
    rewrite split_once_none by done. by rewrite (proj2 (mem_false _ _) H62). }
  unfold layout_parse. rewrite Hsplit. cbn [ok_or mbind result_bind]. rewrite Hlen, Hhex. cbn [negb orb Nat.eqb].
  rewrite Hbody. cbn [floating_panes mbind result_bind check_unique duplicate_pane].
  pose proof (tree_reads t (S MAX_LAYOUT_DEPTH) None 0%nat [] [] [] Hok ltac:(lia) ltac:(lia) I I) as Hread.
  rewrite app_nil_r in Hread. change (list_to_set (pane_id <$> [])) with (∅ : gset N).
  change (parser_new (print_tree t)) with {| rest := print_tree t; nodes := 0; parsed_panes := []; parsed_dividers := [] |}.
  rewrite Hread. cbn [mbind result_bind rest parsed_panes parsed_dividers app].
  rewrite (bool_decide_eq_false_2 (tree_panes t = [])) by by apply tree_panes_nonempty.
  rewrite bool_decide_eq_false_2 by auto. cbn [orb].
  unfold check_unique. rewrite duplicate_pane_NoDup; [|done|apply Forall_forall; intros p _; apply not_elem_of_empty].
  cbn [forallb negb mbind result_bind]. by rewrite reverse_nil, app_nil_r, filter_no_floating.
Qed.

Lemma cell_at_draw_none g d m r c : cell_at m r c = None → cell_at (draw_divider g m d) r c = None.
Proof.
  intros H. unfold draw_divider. generalize (seq 0 (N.to_nat (divider_length d))). intros l. revert m H.
  induction l as [|o l IH]; intros m H; [done|]. cbn [foldl]. apply IH. unfold draw_offset.
  destruct (kind d); cbv zeta; (case_bool_decide; [|done]); by rewrite cell_at_or_bits, H.
Qed.

(** The bits a cell has before its neighbours are joined. *)
Definition own_bits (ds : list Divider) (r c : nat) : N :=
  N.lor (if covered LeftRight ds (Z.of_nat r) (Z.of_nat c) then N.lor NORTH SOUTH else 0)
        (if covered TopBottom ds (Z.of_nat r) (Z.of_nat c) then N.lor WEST EAST else 0).

Lemma own_bits_cons d ds r c :
  own_bits (d :: ds) r c =
  N.lor (if divider_covers (Z.of_nat r) (Z.of_nat c) d then divider_bits d else 0) (own_bits ds r c).
Proof.
  unfold own_bits, covered, divider_bits. cbn [existsb].
  destruct (divider_covers _ _ d), (kind d); simpl; by repeat case_match.
Qed.

Lemma border_masks_at g l r c :
  rows g ≤ u16_max → cols g ≤ u16_max →
  cell_at (border_masks g l) r c =
  if bool_decide (N.of_nat r < rows g ∧ N.of_nat c < cols g) then Some (own_bits (dividers l) r c) else None.
Proof.
  intros Hrows Hcols. unfold border_masks.
  set (start := replicate _ _).
  assert (cell_at start r c = if bool_decide (N.of_nat r < rows g ∧ N.of_nat c < cols g) then Some 0 else None) as Hstart.
  { unfold start, cell_at. case_bool_decide as Hin.
    - rewrite lookup_replicate_2 by lia. cbn. by rewrite lookup_replicate_2 by lia.
    - destruct (decide (r < N.to_nat (rows g))%nat).
      + rewrite lookup_replicate_2 by done. cbn. apply lookup_replicate_None. lia.
      + by rewrite (proj1 (lookup_replicate_None (N.to_nat (rows g)) (replicate (N.to_nat (cols g)) 0) r)) by lia. }
  case_bool_decide as Hin.
  - assert (∀ ds m v, cell_at m r c = Some v →
      cell_at (foldl (draw_divider g) m ds) r c = Some (N.lor v (own_bits ds r c))) as H.
    { induction ds as [|d ds IH]; intros m v Hm.
      - cbn [foldl]. by rewrite N.lor_0_r.
      - cbn [foldl]. rewrite (IH _ (if divider_covers (Z.of_nat r) (Z.of_nat c) d then N.lor v (divider_bits d) else v)).
        + rewrite own_bits_cons. destruct (divider_covers _ _ d); [by rewrite N.lor_assoc|done].
        + unfold u16_max in *. rewrite cell_at_draw_divider by (unfold i32_max; lia). by rewrite Hm. }
    by rewrite (H _ _ 0).
  - generalize dependent start. generalize (dividers l). intros ds. induction ds as [|d ds IH]; intros m Hm; [done|].
    cbn [foldl]. apply IH. by apply cell_at_draw_none.
Qed.

(** A cell of the screen that some divider covers. *)
Definition bordered (g : TerminalGeometry) (l : TmuxLayout) (r c : nat) : bool :=
  bool_decide (N.of_nat r < rows g ∧ N.of_nat c < cols g) &&
  existsb (divider_covers (Z.of_nat r) (Z.of_nat c)) (dividers l).

Lemma own_bits_zero ds r c : (own_bits ds r c =? 0) = negb (existsb (divider_covers (Z.of_nat r) (Z.of_nat c)) ds).
Proof.
  unfold own_bits. assert (existsb (divider_covers (Z.of_nat r) (Z.of_nat c)) ds =
    covered LeftRight ds (Z.of_nat r) (Z.of_nat c) || covered TopBottom ds (Z.of_nat r) (Z.of_nat c)) as ->.
  { unfold covered. induction ds as [|d ds IH]; [done|]. cbn [existsb]. rewrite IH.
    destruct (kind d), (divider_covers _ _ d); simpl; rewrite ?orb_true_r; done. }
  by destruct (covered LeftRight _ _ _), (covered TopBottom _ _ _).
Qed.

Lemma occupied_masks g l r c :
  rows g ≤ u16_max → cols g ≤ u16_max → occupied (border_masks g l) r c = bordered g l r c.
Proof.
  intros Hr Hc. unfold occupied, bordered. rewrite border_masks_at by done.
  case_bool_decide; [|done]. by rewrite own_bits_zero, negb_involutive.
Qed.

Lemma cell_at_join m r c :
  cell_at (join_neighbours m) r c =
  (λ mask, if mask =? 0 then mask else
    N.lor (N.lor (N.lor (N.lor mask
      (if (0 <? r)%nat && occupied m (r - 1) c then NORTH else 0))
      (if occupied m (r + 1) c then SOUTH else 0))
      (if (0 <? c)%nat && occupied m r (c - 1) then WEST else 0))
      (if occupied m r (c + 1) then EAST else 0)) <$> cell_at m r c.
Proof.
  unfold join_neighbours, cell_at. rewrite list_lookup_imap.
  destruct (m !! r) as [line|]; [|done]. cbn. by rewrite list_lookup_imap.
Qed.

(** The border layer draws exactly the dividers: a cell of the screen shows a
    line glyph just when some divider covers it, and then the glyph has an
    arm in each direction in which the divider runs or a bordered cell
    follows, so lines meet without gaps. *)
Theorem borders_draw_dividers g l r c :
  rows g ≤ u16_max → cols g ≤ u16_max → N.of_nat r < rows g → N.of_nat c < cols g →
  ∃ mask, cell_at (border_snapshot g l) r c = Some (border_character mask) ∧ mask < 16 ∧
    (border_character mask = [] ↔ bordered g l r c = false) ∧
    (bordered g l r c = true →
     let vertical := covered LeftRight (dividers l) (Z.of_nat r) (Z.of_nat c) in
     let horizontal := covered TopBottom (dividers l) (Z.of_nat r) (Z.of_nat c) in
     N.testbit mask 0 = vertical || ((0 <? r)%nat && bordered g l (r - 1) c) ∧
     N.testbit mask 1 = vertical || bordered g l (r + 1) c ∧
     N.testbit mask 2 = horizontal || ((0 <? c)%nat && bordered g l r (c - 1)) ∧
     N.testbit mask 3 = horizontal || bordered g l r (c + 1)).
Proof.
  intros Hrows Hcols Hr Hc.
  assert (cell_at (border_snapshot g l) r c =
    border_character <$> cell_at (join_neighbours (border_masks g l)) r c) as ->.
  { unfold border_snapshot, cell_at. change (@List.map ?A ?B) with (@fmap list _ A B).
    rewrite list_lookup_fmap. destruct (join_neighbours _ !! r) as [line|]; [|done]. cbn.
    by rewrite list_lookup_fmap. }
  rewrite cell_at_join, border_masks_at, bool_decide_eq_true_2 by done.
  rewrite !occupied_masks by done. cbn [fmap option_fmap option_map].
  eexists. split; [reflexivity|].
  assert (bordered g l r c = negb (own_bits (dividers l) r c =? 0)) as ->.
  { unfold bordered. by rewrite own_bits_zero, negb_involutive, bool_decide_eq_true_2. }
  unfold own_bits. generalize ((0 <? r)%nat && bordered g l (r - 1) c), (bordered g l (r + 1) c),
    ((0 <? c)%nat && bordered g l r (c - 1)), (bordered g l r (c + 1)),
    (covered LeftRight (dividers l) (Z.of_nat r) (Z.of_nat c)),
    (covered TopBottom (dividers l) (Z.of_nat r) (Z.of_nat c)).
  intros [] [] [] [] [] []; vm_compute; naive_solver.
Qed.

(** * Witnesses *)

Definition three_panes : LayoutTree :=
  Split {| rx := 0; ry := 0; rwidth := 80; rheight := 24 |} LeftRight
    [Leaf {| rx := 0; ry := 0; rwidth := 40; rheight := 24 |} 1;
     Split {| rx := 41; ry := 0; rwidth := 39; rheight := 24 |} TopBottom
       [Leaf {| rx := 41; ry := 0; rwidth := 39; rheight := 12 |} 2;
        Leaf {| rx := 41; ry := 13; rwidth := 39; rheight := 11 |} 3]].

Definition three_panes_layout : TmuxLayout :=
  {| panes := tree_panes three_panes; dividers := tree_dividers three_panes |}.

(** A floating pane above a window with one tiled pane. *)
Lemma layout_partitions_window_witness :
  ∃ L, layout_parse (bs "b25f,80x24,0,0{80x24,0,0,1,10x5,3,3,2}<10x5,3,3,2>") = Ok L ∧
    pane_id <$> panes L = [1; 2] ∧ cover (take 1 (panes L)) (dividers L) 4 5 = 1%nat.
Proof.
  destruct (layout_parse (bs "b25f,80x24,0,0{80x24,0,0,1,10x5,3,3,2}<10x5,3,3,2>")) as [L|] eqn:E;
    [|by vm_compute in E].
  destruct (layout_partitions_window _ _ E) as (body & bracket & root & floats & Hp & Hr & Hf & _ & _ & _ & _ & _ & Hcov).
  exists L. vm_compute in E. injection E as <-. split_and!; [done..|].
  vm_compute in Hp. injection Hp as <- <-. vm_compute in Hr. injection Hr as <-. vm_compute in Hf. injection Hf as <-.
  specialize (Hcov 4%Z 5%Z). exact Hcov.
Defined.

(** A window in which every pane floats has nothing to tile. *)
Example nothing_tiled :
  (λ l, (pane_id <$> panes l, dividers l)) <$>
    layout_parse (bs "b25f,80x24,0,0{40x24,0,0,1,10x5,3,3,2}<10x5,3,3,2,40x24,0,0,1>") = Ok ([1; 2], []).
Proof. vm_compute. reflexivity. Qed.

Lemma printed_layouts_parse_witness :
  layout_parse (bs "b25f,80x24,0,0{40x24,0,0,1,39x24,41,0[39x12,41,0,2,39x11,41,13,3]}") = Ok three_panes_layout.
Proof.
  assert (bs "b25f,80x24,0,0{40x24,0,0,1,39x24,41,0[39x12,41,0,2,39x11,41,13,3]}" =
    bs "b25f" ++ 44 :: print_tree three_panes) as -> by (vm_compute; reflexivity).
  refine (proj1 (printed_layouts_parse (bs "b25f") three_panes _ _ _ _ _ _)).
  1-3: vm_compute; reflexivity.
  1,2: apply Nat.leb_le; vm_compute; reflexivity.
  apply (bool_decide_unpack (NoDup _)). vm_compute. exact I.
Defined.

Lemma borders_draw_dividers_witness :
  ∃ mask, cell_at (border_snapshot (from_cells 24 80) three_panes_layout) 12 40 = Some (border_character mask) ∧
    bordered (from_cells 24 80) three_panes_layout 12 40 = true ∧ N.testbit mask 3 = true.
Proof.
  destruct (borders_draw_dividers (from_cells 24 80) three_panes_layout 12 40) as (mask & H & _ & _ & Harms);
    [vm_compute; congruence|vm_compute; congruence|vm_compute; reflexivity|vm_compute; reflexivity|].
  assert (bordered (from_cells 24 80) three_panes_layout 12 40 = true) as Hb by (vm_compute; reflexivity).
  exists mask. split_and!; [done|done|].
  destruct (Harms Hb) as (_ & _ & _ & ->). vm_compute. reflexivity.
Defined.
