(* ===== verification/TmuxInput.v ===== *)
(** Input and reports sent to a tmux pane ([src/src/tmux_input.rs]).

    A mouse event of the [terminput] crate is the record of what the code
    reads of it: the kind, the position and whether each of the three
    modifiers is set. *)

From S2P Require Import Prelude Terminal TmuxLayout.
Local Open Scope N_scope.

Definition MAX_SEND_KEYS_COMMAND_BYTES : N := 4096.

Inductive TmuxInputError := CommandPrefixTooLong.

(** * Commands *)

Definition hex_digit (v : N) : byte := if v <=? 9 then 48 + v else 97 + v - 10.

Definition hex_pair (b : byte) : bytes := [hex_digit (N.shiftr b 4); hex_digit (N.land b 15)].

(** The arguments of one command: a space before every byte but the first. *)
Definition hex_arguments (chunk : bytes) : bytes :=
  match chunk with
  | [] => []
  | b :: rest => hex_pair b ++ mjoin ((λ b, SP :: hex_pair b) <$> rest)
  end.

Definition send_keys_prefix (pane_id : N) : bytes := bs "send-keys -H -t %" ++ to_dec pane_id ++ [SP].

Definition checked_sub (a b : N) : option N := if b <=? a then Some (a - b) else None.

Definition encode_send_keys (pane_id : N) (input : bytes) : result TmuxInputError (list bytes) :=
  match input with
  | [] => Ok []
  | _ =>
      let prefix := send_keys_prefix pane_id in
      available ← ok_or (checked_sub MAX_SEND_KEYS_COMMAND_BYTES (len prefix + 1)) CommandPrefixTooLong;
      let chunk_bytes := available / 3 in
      if chunk_bytes =? 0 then Err CommandPrefixTooLong else
      Ok ((λ chunk, prefix ++ hex_arguments chunk ++ [LF]) <$> chunks (N.to_nat chunk_bytes) input)
  end.

Definition refresh_client_command (g : TerminalGeometry) : bytes :=
  bs "refresh-client -C " ++ to_dec (N.max (cols g) 1) ++ bs "x" ++ to_dec (N.max (rows g) 1) ++ [LF].

Definition continue_pane_command (pane_id : N) : bytes :=
  bs "refresh-client -A '%" ++ to_dec pane_id ++ bs ":continue'" ++ [LF].
Definition pause_pane_command (pane_id : N) : bytes :=
  bs "refresh-client -A '%" ++ to_dec pane_id ++ bs ":pause'" ++ [LF].

(** * Colour reports *)

Definition OSC : bytes := ESC :: bs "]".
Definition ST : bytes := ESC :: bs "\".

(** How many bytes the inner loop takes, from after the introducer to the end
    of the terminator; [None] when the terminator is missing. *)
Fixpoint report_end (l : bytes) : option nat :=
  match l with
  | [] => None
  | b :: rest =>
      if b =? BEL then Some 1%nat
      else if (b =? ESC) && starts_with (bs "\") rest then Some 2%nat
      else S <$> report_end rest
  end.

Definition report_eligible (report : bytes) : bool :=
  (starts_with (OSC ++ bs "10;") report || starts_with (OSC ++ bs "11;") report) &&
  (len report <=? 256) &&
  negb (existsb (λ b, (b =? 39) || (b =? LF) || (b =? CR)) report).

Definition report_command (pane_id : N) (report : bytes) : bytes :=
  bs "refresh-client -r '%" ++ to_dec pane_id ++ bs ":" ++ report ++ bs "'" ++ [LF].

(** The outer loop on what is left of the replies.  Every turn consumes at least
    the introducer, so the length is enough fuel. *)
Fixpoint report_loop (fuel : nat) (pane_id : N) (replies : bytes) : list bytes :=
  match fuel with
  | O => []
  | S fuel =>
      match find_sub OSC replies with
      | None => []
      | Some start =>
          let from := drop start replies in
          match report_end (drop 2 from) with
          | None => []
          | Some n =>
              let report := take (2 + n) from in
              (if report_eligible report then [report_command pane_id report] else []) ++
              report_loop fuel pane_id (drop (2 + n) from)
          end
      end
  end.

Definition refresh_client_report_commands (pane_id : N) (replies : bytes) : list bytes :=
  report_loop (S (length replies)) pane_id replies.

(** * Mouse *)

Inductive MouseButton := LeftButton | RightButton | MiddleButton | UnknownButton.
Inductive ScrollDirection := ScrollUp | ScrollDown | ScrollLeft | ScrollRight.
Inductive MouseEventKind :=
| Down (button : MouseButton)
| Up (button : MouseButton)
| Drag (button : MouseButton)
| Moved
| Scroll (direction : ScrollDirection).

Record MouseEvent := {
  mouse_kind : MouseEventKind; column : N; row : N; shift : bool; alt : bool; ctrl : bool
}.

Definition i32_min : Z := -2147483648.
Definition i32_max : Z := 2147483647.
Definition checked_sub_i32 (a b : Z) : option Z :=
  if bool_decide (i32_min ≤ a - b ≤ i32_max)%Z then Some (a - b)%Z else None.

Definition is_up (k : MouseEventKind) : bool := match k with Up _ => true | _ => false end.

Definition protocol_reports (p : MouseProtocol) (k : MouseEventKind) : bool :=
  match k with
  | Down _ | Scroll _ => negb (bool_decide (p = NoMouse))
  | Up _ => negb (bool_decide (p = NoMouse) || bool_decide (p = Press))
  | Drag _ => bool_decide (p = ButtonMotion) || bool_decide (p = AnyMotion)
  | Moved => bool_decide (p = AnyMotion)
  end.

Definition button_code (k : MouseEventKind) : N :=
  match k with
  | Down (LeftButton | UnknownButton) | Up (LeftButton | UnknownButton) => 0
  | Down MiddleButton | Up MiddleButton => 1
  | Down RightButton | Up RightButton => 2
  | Drag (LeftButton | UnknownButton) => 32
  | Drag MiddleButton => 33
  | Drag RightButton => 34
  | Moved => 35
  | Scroll ScrollUp => 64
  | Scroll ScrollDown => 65
  | Scroll ScrollLeft => 66
  | Scroll ScrollRight => 67
  end.

Definition add_modifiers (e : MouseEvent) (code : N) : N :=
  code + (if shift e then 4 else 0) + (if alt e then 8 else 0) + (if ctrl e then 16 else 0).

Definition push_utf8_scalar (out : bytes) (value : N) : option bytes :=
  c ← char_from_u32 value; Some (out ++ utf8_encode c).

Definition u8_try_from (v : N) : option byte := if v <=? 255 then Some v else None.

Definition encode_mouse (e : MouseEvent) (row col : N) (encoding : MouseEncoding) : option bytes :=
  let code := add_modifiers e (button_code (mouse_kind e)) in
  match encoding with
  | Sgr =>
      Some (ESC :: bs "[<" ++ to_dec code ++ bs ";" ++ to_dec (col + 1) ++ bs ";" ++ to_dec (row + 1) ++
            (if is_up (mouse_kind e) then bs "m" else bs "M"))
  | DefaultEncoding | Utf8Encoding =>
      let code := if is_up (mouse_kind e) then add_modifiers e 3 else code in
      code ← checked_add u32_max code 32;
      col ← checked_add u32_max col 33;
      row ← checked_add u32_max row 33;
      let out := ESC :: bs "[M" in
      match encoding with
      | DefaultEncoding =>
          a ← u8_try_from code; b ← u8_try_from col; c ← u8_try_from row; Some (out ++ [a; b; c])
      | _ =>
          out ← push_utf8_scalar out code; out ← push_utf8_scalar out col; push_utf8_scalar out row
      end
  end.

Definition translate_mouse (e : MouseEvent) (p : LayoutPane) (protocol : MouseProtocol)
    (encoding : MouseEncoding) : option bytes :=
  if negb (protocol_reports protocol (mouse_kind e)) then None else
  col ← checked_sub_i32 (Z.of_N (column e)) (origin_col p);
  row ← checked_sub_i32 (Z.of_N (row e)) (origin_row p);
  if bool_decide (col < 0 ∨ row < 0 ∨ Z.of_N (pane_cols p) ≤ col ∨ Z.of_N (pane_rows p) ≤ row)%Z then None
  else encode_mouse e (Z.to_N row) (Z.to_N col) encoding.

(** * The commands read back *)

Definition hex_value (c : byte) : option N :=
  if is_digit c then Some (c - 48) else if (97 <=? c) && (c <=? 102) then Some (c - 87) else None.

Definition decode_pair (p : bytes) : option byte :=
  match p with
  | [h; l] => a ← hex_value h; b ← hex_value l; Some (16 * a + b)
  | _ => None
  end.

(** What tmux receives from one [send-keys -H] command. *)
Definition decode_send_keys (pane_id : N) (command : bytes) : option bytes :=
  arguments ← strip_prefix (send_keys_prefix pane_id) command;
  arguments ← strip_suffix [LF] arguments;
  mapM decode_pair (split_on (N.eqb SP) arguments).

(** * Lemmas on hexadecimal arguments *)

Lemma byte_cases (P : byte → Prop) `{∀ b, Decision (P b)} :
  forallb (λ b, bool_decide (P (N.of_nat b))) (seq 0 256) = true → ∀ b, byte_ok b → P b.
Proof.
  intros Hall b Hb. apply forallb_Forall in Hall. rewrite Forall_forall in Hall.
  specialize (Hall (N.to_nat b)). rewrite N2Nat.id in Hall. apply (bool_decide_eq_true_1 (P b)), Hall.
  apply elem_of_seq. unfold byte_ok in Hb. lia.
Qed.

Definition printable (b : byte) : Prop := is_ascii_control b = false ∧ b < 128.

Lemma hex_pair_decode b : byte_ok b → decode_pair (hex_pair b) = Some b.
Proof. revert b. apply (byte_cases (λ b, decode_pair (hex_pair b) = Some b)). vm_compute. reflexivity. Qed.

Lemma hex_pair_printable b : byte_ok b → Forall (λ c, printable c ∧ N.eqb SP c = false) (hex_pair b).
Proof.
  revert b. unfold printable.
  apply (byte_cases (λ b, Forall (λ c, (is_ascii_control c = false ∧ c < 128) ∧ N.eqb SP c = false) (hex_pair b))).
  vm_compute. reflexivity.
Qed.

Lemma hex_arguments_cons b b' rest :
  hex_arguments (b :: b' :: rest) = hex_pair b ++ SP :: hex_arguments (b' :: rest).
Proof. done. Qed.

Lemma hex_arguments_split chunk :
  chunk ≠ [] → Forall byte_ok chunk → split_on (N.eqb SP) (hex_arguments chunk) = hex_pair <$> chunk.
Proof.
  intros Hne Hok. destruct chunk as [|b rest]; [done|]. clear Hne.
  revert b Hok. induction rest as [|b' rest IH]; intros b Hok; inv Hok.
  - change (hex_arguments [b]) with (hex_pair b ++ []). rewrite app_nil_r. apply split_on_none. eapply Forall_impl; [by apply hex_pair_printable|]. by intros ? [].
  - rewrite hex_arguments_cons, split_on_app; [|eapply Forall_impl; [by apply hex_pair_printable|]; by intros ? []|done].
    by rewrite IH.
Qed.

Lemma hex_arguments_printable chunk : Forall byte_ok chunk → Forall printable (hex_arguments chunk).
Proof.
  assert (∀ b, byte_ok b → Forall printable (hex_pair b)) as Hp.
  { intros b Hb. eapply Forall_impl; [by apply hex_pair_printable|]. by intros ? []. }
  intros Hok. destruct chunk as [|b rest]; [constructor|]. inv Hok.
  apply Forall_app. split; [by apply Hp|]. induction H2 as [|b' rest Hb' _ IH]; [constructor|].
  change (mjoin ((λ b, SP :: hex_pair b) <$> b' :: rest)) with
    ((SP :: hex_pair b') ++ mjoin ((λ b, SP :: hex_pair b) <$> rest)).
  apply Forall_app. split; [|done]. constructor; [done|by apply Hp].
Qed.

Lemma hex_arguments_length chunk : (length (hex_arguments chunk) ≤ 3 * length chunk)%nat.
Proof.
  destruct chunk as [|b rest]; [done|]. unfold hex_arguments. rewrite length_app. simpl.
  assert (length (mjoin ((λ b, SP :: hex_pair b) <$> rest)) = 3 * length rest)%nat as ->; [|lia].
  induction rest as [|b' rest IH]; [done|].
  change (mjoin ((λ b, SP :: hex_pair b) <$> b' :: rest)) with
    ((SP :: hex_pair b') ++ mjoin ((λ b, SP :: hex_pair b) <$> rest)).
  rewrite length_app, IH. simpl. lia.
Qed.

Lemma decode_encoded pane chunk :
  chunk ≠ [] → Forall byte_ok chunk →
  decode_send_keys pane (send_keys_prefix pane ++ hex_arguments chunk ++ [LF]) = Some chunk.
Proof.
  intros Hne Hok. unfold decode_send_keys. rewrite strip_prefix_app. simpl.
  rewrite strip_suffix_app. simpl. rewrite hex_arguments_split by done.
  clear Hne. induction Hok as [|b rest Hb _ IH]; [done|]. rewrite fmap_cons. cbn [mapM].
  rewrite hex_pair_decode, IH by done. done.
Qed.

Lemma send_keys_prefix_length pane : pane ≤ u64_max → (length (send_keys_prefix pane) ≤ 38)%nat.
Proof.
  intros Hp. unfold send_keys_prefix. rewrite !length_app. pose proof (to_dec_length_u64 pane Hp).
  change (length (bs "send-keys -H -t %")) with 17%nat. simpl. lia.
Qed.

Lemma to_dec_printable n : Forall printable (to_dec n).
Proof.
  eapply Forall_impl; [apply to_dec_digits|]. unfold printable, is_digit, is_ascii_control. simpl.
  intros x Hx. split; lia.
Qed.

(** * Lemmas on colour reports *)

Lemma report_end_bound l n : report_end l = Some n → (0 < n ≤ length l)%nat.
Proof.
  revert n. induction l as [|b rest IH]; intros n; simpl; [done|]. destruct (b =? BEL); [intros [= <-]; lia|].
  destruct ((b =? ESC) && _) eqn:Hs.
  - intros [= <-]. apply andb_true_iff in Hs as [_ Hs]. apply starts_with_spec in Hs as [r ->]. simpl. lia.
  - intros (k & Hk & ->)%fmap_Some. apply IH in Hk. lia.
Qed.

Lemma report_loop_fuel f1 f2 pane l :
  (length l < f1)%nat → (length l < f2)%nat → report_loop f1 pane l = report_loop f2 pane l.
Proof.
  revert f2 l. induction f1 as [|f1 IH]; intros f2 l H1 H2; [lia|]. destruct f2 as [|f2]; [lia|].
  cbn [report_loop]. destruct (find_sub OSC l) as [start|]; [|done]. cbv zeta.
  destruct (report_end (drop 2 (drop start l))) as [n|] eqn:Hn; [|done]. f_equal.
  apply report_end_bound in Hn. rewrite !length_drop in Hn.
  apply IH; rewrite !length_drop; lia.
Qed.

Lemma refresh_unfold pane l :
  refresh_client_report_commands pane l =
  match find_sub OSC l with
  | None => []
  | Some start =>
      let from := drop start l in
      match report_end (drop 2 from) with
      | None => []
      | Some n =>
          (if report_eligible (take (2 + n) from) then [report_command pane (take (2 + n) from)] else []) ++
          refresh_client_report_commands pane (drop (2 + n) from)
      end
  end.
Proof.
  unfold refresh_client_report_commands at 1. cbn [report_loop].
  destruct (find_sub OSC l) as [start|]; [|done]. cbv zeta.
  destruct (report_end (drop 2 (drop start l))) as [n|] eqn:Hn; [|done]. f_equal.
  apply report_end_bound in Hn. rewrite !length_drop in Hn.
  apply report_loop_fuel; rewrite !length_drop; lia.
Qed.

Lemma find_OSC_after pre rest : find_sub OSC pre = None → find_sub OSC (pre ++ OSC ++ rest) = Some (length pre).
Proof.
  induction pre as [|x pre IH]; intros H; [done|].
  assert (starts_with OSC (x :: pre) = false ∧ find_sub OSC pre = None) as [Hs Hf].
  { simpl in H. destruct (starts_with OSC (x :: pre)); [done|]. by apply fmap_None in H. }
  change (find_sub OSC ((x :: pre) ++ OSC ++ rest)) with
    (if starts_with OSC (x :: pre ++ OSC ++ rest) then Some 0%nat else S <$> find_sub OSC (pre ++ OSC ++ rest)).
  assert (starts_with OSC (x :: pre ++ OSC ++ rest) = false) as ->.
  { apply starts_with_false in Hs. apply starts_with_false. intros [r Hr]. apply Hs.
    destruct pre as [|y pre]; [by inv Hr|]. exists pre. by inv Hr. }
  by rewrite IH.
Qed.

Lemma report_end_body body term rest :
  Forall (λ b, b ≠ BEL ∧ b ≠ ESC) body → term = [BEL] ∨ term = ST →
  report_end (body ++ term ++ rest) = Some (length body + length term)%nat.
Proof.
  intros Hbody Hterm. induction Hbody as [|b body [Hb He] _ IH].
  - by destruct Hterm as [->| ->].
  - cbn [app report_end length]. rewrite (proj2 (N.eqb_neq b BEL) Hb), (proj2 (N.eqb_neq b ESC) He). simpl.
    by rewrite IH.
Qed.

Lemma chunk_budget k :
  k ≤ 38 → k + 1 ≤ 4096 ∧ 0 < (4096 - (k + 1)) / 3 ∧ 3 * ((4096 - (k + 1)) / 3) ≤ 4096 - (k + 1).
Proof.
  intros Hk. split_and!; [lia| |apply N.Div0.mul_div_le].
  enough (1 ≤ (4096 - (k + 1)) / 3) by lia. apply N.div_le_lower_bound; lia.
Qed.

Lemma send_chunks_ok n input : (0 < n)%nat → Forall byte_ok input →
  Forall (λ c, c ≠ [] ∧ Forall byte_ok c ∧ (length c ≤ n)%nat) (chunks n input).
Proof.
  intros Hn Hok. pose proof (chunks_lengths n input Hn) as Hl.
  pose proof (chunks_concat n input Hn) as Hc.
  rewrite Forall_forall in Hl |- *. intros c Hin. destruct (Hl c Hin).
  split_and!; [by destruct c; [simpl in *; lia|]| |lia].
  rewrite Forall_forall in Hok |- *. intros b Hb. apply Hok. rewrite <-Hc.
  apply list_elem_of_join. eauto.
Qed.

Lemma send_keys_ok pane input :
  pane ≤ u64_max → Forall byte_ok input →
  ∃ commands, encode_send_keys pane input = Ok commands ∧
    mjoin <$> mapM (decode_send_keys pane) commands = Some input ∧
    Forall (λ c, len c ≤ MAX_SEND_KEYS_COMMAND_BYTES ∧
                 ∃ line, c = line ++ [LF] ∧ Forall printable line) commands.
Proof.
  intros Hp Hok. unfold encode_send_keys. destruct (decide (input = [])) as [->|Hne].
  { exists []. split_and!; [done|done|constructor]. }
  pose proof (send_keys_prefix_length pane Hp) as Hlen.
  destruct (chunk_budget (len (send_keys_prefix pane)) ltac:(clear -Hlen; lia)) as (Hfit & Hn & H3).
  unfold MAX_SEND_KEYS_COMMAND_BYTES, checked_sub.
  rewrite (proj2 (N.leb_le _ _) Hfit).
  replace (match input with [] => _ | _ :: _ => _ end) with
    (let n := (4096 - (len (send_keys_prefix pane) + 1)) / 3 in
     if n =? 0 then Err CommandPrefixTooLong else
     Ok ((λ chunk, send_keys_prefix pane ++ hex_arguments chunk ++ [LF]) <$> chunks (N.to_nat n) input))
    by (by destruct input).
  cbv zeta. set (n := (4096 - (len (send_keys_prefix pane) + 1)) / 3) in *. clearbody n.
  exists ((λ chunk, send_keys_prefix pane ++ hex_arguments chunk ++ [LF]) <$> chunks (N.to_nat n) input).
  assert (0 < N.to_nat n)%nat as Hnn by (clear -Hn; lia).
  pose proof (send_chunks_ok (N.to_nat n) input Hnn Hok) as Hch.
  split_and!.
  - by rewrite (proj2 (N.eqb_neq n 0)) by (clear -Hn; lia).
  - apply fmap_Some. exists (chunks (N.to_nat n) input). split; [|by rewrite chunks_concat].
    induction Hch as [|c cs (Hc & Hb & _) _ IH]; [done|]. rewrite fmap_cons. cbn [mapM].
    rewrite decode_encoded by done. by rewrite IH.
  - apply Forall_fmap. eapply Forall_impl; [exact Hch|]. intros c (Hc & Hb & Hcl). cbv beta. split.
    + rewrite !length_app. pose proof (hex_arguments_length c) as Hh. change (length [LF]) with 1%nat.
      clear -Hh Hcl Hfit H3. lia.
    + exists (send_keys_prefix pane ++ hex_arguments c). split; [by rewrite <-app_assoc|]. apply Forall_app. split.
      * unfold send_keys_prefix. rewrite !Forall_app. split_and!; [|apply to_dec_printable|];
          unfold printable; forall_list ltac:(by split).
      * by apply hex_arguments_printable.
Qed.

(** * Properties *)

(** Input of any length and content is split into [send-keys -H] commands of
    at most 4096 bytes, each one line of printable ASCII, from which the hex
    arguments give back exactly the input, in order; the encoding never
    fails. *)
Theorem send_keys_roundtrip pane input :
  pane ≤ u64_max → Forall byte_ok input →
  ∃ commands, encode_send_keys pane input = Ok commands ∧
    mjoin <$> mapM (decode_send_keys pane) commands = Some input ∧
    Forall (λ c, len c ≤ MAX_SEND_KEYS_COMMAND_BYTES ∧
                 ∃ line, c = line ++ [LF] ∧ Forall printable line) commands.
Proof. apply send_keys_ok. Qed.

(** A colour report in the shadow terminal's replies (an OSC ended by BEL or
    ST) is forwarded, in order, exactly when it answers OSC 10 or 11, is at
    most 256 bytes long and holds no quote or line break; what surrounds it
    is dropped.  Every forwarded command is therefore one quoted line. *)
Theorem color_reports_are_forwarded pane pre body term rest :
  find_sub OSC pre = None → Forall (λ b, b ≠ BEL ∧ b ≠ ESC) body → term = [BEL] ∨ term = ST →
  refresh_client_report_commands pane (pre ++ OSC ++ body ++ term ++ rest) =
    (let report := OSC ++ body ++ term in
     if report_eligible report then [report_command pane report] else []) ++
    refresh_client_report_commands pane rest ∧
  refresh_client_report_commands pane pre = [] ∧
  (report_eligible (OSC ++ body ++ term) = true ↔
     (bs "10;" `prefix_of` body ++ term ∨ bs "11;" `prefix_of` body ++ term) ∧
     len (OSC ++ body ++ term) ≤ 256 ∧ Forall (λ b, b ≠ 39 ∧ b ≠ LF ∧ b ≠ CR) body).
Proof.
  intros Hpre Hbody Hterm. split_and!.
  - rewrite refresh_unfold, find_OSC_after by done. cbv zeta. rewrite drop_app_length.
    change (drop 2 (OSC ++ body ++ term ++ rest)) with (body ++ term ++ rest).
    rewrite report_end_body by done.
    assert (2 + (length body + length term) = length (OSC ++ body ++ term))%nat as ->
      by (rewrite !length_app; done).
    replace (OSC ++ body ++ term ++ rest) with ((OSC ++ body ++ term) ++ rest) by (by rewrite <-!app_assoc).
    by rewrite take_app_length, drop_app_length.
  - rewrite refresh_unfold. by rewrite Hpre.
  - unfold report_eligible. rewrite !andb_true_iff, orb_true_iff, negb_true_iff, N.leb_le.
    assert (∀ p, starts_with (OSC ++ p) (OSC ++ body ++ term) = true ↔ p `prefix_of` body ++ term) as Hsw.
    { intros p. rewrite starts_with_spec. split; [intros [r Hr]|intros [r Hr]]; exists r.
      - rewrite <-app_assoc in Hr. by apply app_inv_head in Hr.
      - by rewrite Hr, <-app_assoc. }
    rewrite !Hsw.
    assert (existsb (λ b, (b =? 39) || (b =? LF) || (b =? CR)) (OSC ++ body ++ term) = false ↔
      Forall (λ b, b ≠ 39 ∧ b ≠ LF ∧ b ≠ CR) body) as ->; [|tauto].
    rewrite !existsb_app.
    assert (existsb (λ b, (b =? 39) || (b =? LF) || (b =? CR)) term = false) as -> by by destruct Hterm as [->| ->].
    simpl. rewrite orb_false_r. clear. induction body as [|b body IH]; simpl; [split; [constructor|done]|].
    rewrite orb_false_iff, IH, Forall_cons. split; intros [H1 H2]; (split; [|done]); lia.
Qed.

Definition mouse_bytes (encoding : MouseEncoding) (up : bool) (code col row : N) (out : bytes) : Prop :=
  match encoding with
  | Sgr => out = ESC :: bs "[<" ++ to_dec code ++ bs ";" ++ to_dec (col + 1) ++ bs ";" ++ to_dec (row + 1) ++
                 (if up then bs "m" else bs "M")
  | DefaultEncoding => out = ESC :: bs "[M" ++ [code + 32; col + 33; row + 33] ∧ Forall byte_ok out
  | Utf8Encoding => ∃ coords, out = ESC :: bs "[M" ++ coords ∧
                      utf8_decode coords = Some [code + 32; col + 33; row + 33]
  end.

(** The button code: the older encodings do not say which button came up. *)
Definition reported_code (e : MouseEvent) (encoding : MouseEncoding) : N :=
  (match encoding, mouse_kind e with
   | Sgr, k => button_code k
   | _, Up _ => 3
   | _, k => button_code k
   end) + (if shift e then 4 else 0) + (if alt e then 8 else 0) + (if ctrl e then 16 else 0).

Lemma push_three up code col row c' l' r' x y out :
  c' = code + 32 ∧ l' = col + 33 ∧ r' = row + 33 →
  push_utf8_scalar (ESC :: bs "[M") c' = Some x → push_utf8_scalar x l' = Some y →
  push_utf8_scalar y r' = Some out → mouse_bytes Utf8Encoding up code col row out.
Proof.
  intros (-> & -> & ->). unfold push_utf8_scalar.
  intros (x' & Hx' & [= <-])%bind_Some (y' & Hy' & [= <-])%bind_Some (z' & Hz' & [= <-])%bind_Some.
  assert (∀ v v', char_from_u32 v = Some v' → v' = v) as Hsame
    by (intros v v'; unfold char_from_u32; by case_match; intros [= <-]).
  pose proof (Hsame _ _ Hx'). pose proof (Hsame _ _ Hy'). pose proof (Hsame _ _ Hz'). subst x' y' z'.
  exists (utf8_encode (code + 32) ++ utf8_encode (col + 33) ++ utf8_encode (row + 33)).
  split; [by rewrite <-!app_assoc|]. rewrite !utf8_decode_encode by done.
  rewrite <-(app_nil_r (utf8_encode (row + 33))), utf8_decode_encode by done. done.
Qed.

Lemma encode_mouse_spec e row col encoding out :
  encode_mouse e row col encoding = Some out →
  reported_code e encoding < 128 ∧
  mouse_bytes encoding (is_up (mouse_kind e)) (reported_code e encoding) col row out.
Proof.
  assert (∀ c, c ≤ 67 → add_modifiers e c < 128) as Hmod.
  { intros c Hc. unfold add_modifiers. destruct (shift e), (alt e), (ctrl e); lia. }
  assert (add_modifiers e (button_code (mouse_kind e)) < 128) as Hcode.
  { apply Hmod. destruct (mouse_kind e) as [[]|[]|[]| |[]]; simpl; lia. }
  assert (add_modifiers e 3 < 128) as Hup by (apply Hmod; lia).
  assert (reported_code e encoding = (if is_up (mouse_kind e) then
      match encoding with Sgr => add_modifiers e (button_code (mouse_kind e)) | _ => add_modifiers e 3 end
    else add_modifiers e (button_code (mouse_kind e)))) as Hcode'
    by (unfold reported_code, is_up, add_modifiers; by destruct encoding, (mouse_kind e)).
  assert (reported_code e encoding < 128) as Hc
    by (rewrite Hcode'; destruct (is_up _); [by destruct encoding|done]).
  intros H. split; [done|]. revert H. unfold encode_mouse.
  destruct (is_up (mouse_kind e)), encoding; rewrite <-?Hcode'; clear Hcode';
    set (code := reported_code e _) in *; clearbody code;
    try (intros [= <-]; done); cbv zeta.
  1,3: intros (a & Ha & (b & Hb & (c & Hcc & (x & Hx & (y & Hy & (z & Hz & [= <-])%bind_Some)%bind_Some)%bind_Some)%bind_Some)%bind_Some)%bind_Some;
    unfold checked_add, u8_try_from in *; repeat case_match; simplify_eq;
    (split; [done|]); unfold byte_ok; bs_compute; repeat constructor; lia.
  all: intros (a & Ha & (b & Hb & (c & Hcc & (x & Hx & (y & Hy & Hz)%bind_Some)%bind_Some)%bind_Some)%bind_Some)%bind_Some;
    eapply push_three; [|exact Hx|exact Hy|exact Hz];
    unfold checked_add in *; repeat (case_match; simplify_eq); done.
Qed.

(** A mouse event is reported to a pane exactly when the pane's mouse protocol
    asks for its kind and it lies inside the pane, and then with coordinates
    relative to the pane; it can only be lost beyond that when the older
    encodings cannot represent a coordinate, never in the SGR encoding. *)
Theorem mouse_reports_are_pane_local e p protocol encoding :
  column e ≤ u16_max → row e ≤ u16_max →
  (i32_min / 2 ≤ origin_row p ≤ i32_max / 2)%Z → (i32_min / 2 ≤ origin_col p ≤ i32_max / 2)%Z →
  let inside :=
    (origin_col p ≤ Z.of_N (column e) < origin_col p + Z.of_N (pane_cols p) ∧
     origin_row p ≤ Z.of_N (row e) < origin_row p + Z.of_N (pane_rows p))%Z in
  (∀ out, translate_mouse e p protocol encoding = Some out →
     protocol_reports protocol (mouse_kind e) = true ∧ inside ∧
     ∃ pane_col pane_row, Z.of_N (column e) = (origin_col p + Z.of_N pane_col)%Z ∧
       Z.of_N (row e) = (origin_row p + Z.of_N pane_row)%Z ∧ reported_code e encoding < 128 ∧
       mouse_bytes encoding (is_up (mouse_kind e)) (reported_code e encoding) pane_col pane_row out) ∧
  (protocol_reports protocol (mouse_kind e) = true → inside → encoding = Sgr →
   is_Some (translate_mouse e p protocol encoding)).
Proof.
  intros Hc Hr Hor Hoc inside. unfold translate_mouse.
  assert (checked_sub_i32 (Z.of_N (column e)) (origin_col p) = Some (Z.of_N (column e) - origin_col p)%Z) as ->.
  { unfold checked_sub_i32. rewrite bool_decide_eq_true_2; [done|].
    unfold i32_min, i32_max, u16_max in *. lia. }
  assert (checked_sub_i32 (Z.of_N (row e)) (origin_row p) = Some (Z.of_N (row e) - origin_row p)%Z) as ->.
  { unfold checked_sub_i32. rewrite bool_decide_eq_true_2; [done|].
    unfold i32_min, i32_max, u16_max in *. lia. }
  simpl. split.
  - intros out. destruct (protocol_reports protocol (mouse_kind e)); [|done]. simpl.
    case_bool_decide as Hin; [done|]. intros [Hcode Hb]%encode_mouse_spec.
    split_and!; [done|unfold inside; lia|]. eexists _, _. split_and!; [| |done|exact Hb]; lia.
  - intros -> Hin ->. simpl. rewrite bool_decide_eq_false_2 by (unfold inside in Hin; lia).
    unfold encode_mouse. by eexists.
Qed.

Lemma send_keys_roundtrip_witness :
  ∃ commands, encode_send_keys 7 (bs "hi" ++ [27; 255; 0]) = Ok commands ∧
    mjoin <$> mapM (decode_send_keys 7) commands = Some (bs "hi" ++ [27; 255; 0]).
Proof.
  destruct (send_keys_roundtrip 7 (bs "hi" ++ [27; 255; 0])) as (cs & H1 & H2 & _).
  - unfold u64_max. lia.
  - unfold byte_ok. bs_compute. repeat constructor; lia.
  - exists cs. by split.
Defined.

Lemma color_reports_are_forwarded_witness :
  refresh_client_report_commands 3 (bs "xx" ++ OSC ++ bs "11;rgb:00/00/00" ++ ST ++ bs "yy") =
  [report_command 3 (OSC ++ bs "11;rgb:00/00/00" ++ ST)].
Proof.
  destruct (color_reports_are_forwarded 3 (bs "xx") (bs "11;rgb:00/00/00") ST (bs "yy")) as (H & _).
  - by vm_compute.
  - unfold BEL, ESC. forall_list ltac:(by split).
  - by right.
  - rewrite H. by vm_compute.
Defined.

Lemma mouse_reports_are_pane_local_witness :
  let e := Build_MouseEvent (Down LeftButton) 12 7 false false false in
  let p := Build_LayoutPane 1 0 5 10 20 in
  is_Some (translate_mouse e p Press Sgr).
Proof.
  cbv zeta. set (e := Build_MouseEvent _ _ _ _ _ _). set (p := Build_LayoutPane _ _ _ _ _).
  assert (column e ≤ u16_max ∧ row e ≤ u16_max ∧ (i32_min / 2 ≤ origin_row p ≤ i32_max / 2)%Z ∧
    (i32_min / 2 ≤ origin_col p ≤ i32_max / 2)%Z) as (H1 & H2 & H3 & H4) by (by vm_compute).
  destruct (mouse_reports_are_pane_local e p Press Sgr H1 H2 H3 H4) as [_ H].
  apply H; [done| |done]. by vm_compute.
Defined.
