(* ===== verification/TmuxModel.v ===== *)
(** The topology of one tmux server as the control connection reports it
    (src/src/tmux_model.rs): sessions, windows, panes, options and key bindings.

    [TmuxTopology] is the state of the struct of the same name.  The methods
    that may fail half-way run in the monad [M], which keeps the state reached
    when an error is returned, as [&mut self] does; [replace_inventory] builds
    a fresh topology and installs it only when every line was accepted.
    Strings are their UTF-8 bytes; numeric identifiers are the numbers inside
    [SessionId], [WindowId] and [PaneId]. *)

From S2P Require Import Prelude.
Local Open Scope N_scope.

(** * Commands *)

(** Rust's escapes for tab and newline inside a string literal. *)
Fixpoint unescape (l : bytes) : bytes :=
  match l with
  | 92 :: 116 :: l => TAB :: unescape l
  | 92 :: 110 :: l => LF :: unescape l
  | b :: l => b :: unescape l
  | [] => []
  end.
Definition rs (s : string) : bytes := unescape (bs s).

Definition INVENTORY_COMMANDS : list bytes :=
  rs <$> ["list-sessions -F 'S\t#{session_id}\t#{session_name}'\n";
    "list-windows -a -F 'W\t#{session_id}\t#{window_id}\t#{window_index}\t#{window_active}\t#{window_layout}\t#{window_visible_layout}\t#{window_flags}\t#{window_name}'\n";
    "list-panes -a -F 'P\t#{window_id}\t#{pane_id}\t#{pane_index}\t#{pane_active}\t#{pane_left}\t#{pane_top}\t#{pane_width}\t#{pane_height}\t#{pane_dead}\t#{cursor_x}\t#{cursor_y}\t#{cursor_flag}\t#{cursor_shape}\t#{alternate_on}\t#{pane_in_mode}\t#{pane_mode}\t#{history_size}\t#{pane_title}'\n";
    "display-message -p -F 'A\t#{session_id}\t#{host}'\n";
    "display-message -p -F 'O\tbase-index\t#{base-index}'\n";
    "display-message -p -F 'O\tpane-base-index\t#{pane-base-index}'\n";
    "display-message -p -F 'C\tclient_name\t#{client_name}'\n";
    "display-message -p -F 'O\tprefix\t#{prefix}'\n";
    "display-message -p -F 'O\tprefix2\t#{prefix2}'\n";
    "display-message -p -F 'O\tkey-table\t#{key-table}'\n";
    "display-message -p -F 'O\trepeat-time\t#{repeat-time}'\n";
    "list-keys -a\n"]%string.

Definition INVENTORY_REPLY_COUNT : nat := length INVENTORY_COMMANDS.

(** * State *)

(** A place of a window: its session and the index there. *)
Definition WindowLink : Type := N * N.

Record Session := {
  session_id : N;
  session_name : bytes;
  session_windows : gmap N N;
  active_window : option N
}.

Record Window := {
  window_id : N;
  window_name : bytes;
  links : gset (N * N);
  active_pane : option N;
  layout : bytes;
  visible_layout : bytes;
  flags : bytes
}.

Record Pane := {
  pane_id : N;
  pane_window : N;
  pane_index : N;
  title : bytes;
  left : N;
  top : N;
  width : N;
  height : N;
  dead : bool;
  cursor_x : N;
  cursor_y : N;
  cursor_visible : bool;
  cursor_shape : bytes;
  alternate_on : bool;
  pane_in_mode : N;
  mode : bytes;
  history_size : N
}.

#[export] Instance Pane_eq_dec : EqDecision Pane.
Proof. solve_decision. Defined.

(** Pane state sampled around a capture. *)
Record PaneCaptureMetadata := {
  meta_pane_id : N;
  meta_left : N;
  meta_top : N;
  meta_width : N;
  meta_height : N;
  meta_dead : bool;
  meta_cursor_x : N;
  meta_cursor_y : N;
  meta_cursor_visible : bool;
  meta_cursor_shape : bytes;
  meta_alternate_on : bool;
  meta_pane_in_mode : N;
  meta_history_size : N
}.

Definition capture_basis_matches (a b : PaneCaptureMetadata) : bool :=
  (meta_pane_id a =? meta_pane_id b) && (meta_width a =? meta_width b) &&
  (meta_height a =? meta_height b) && Bool.eqb (meta_alternate_on a) (meta_alternate_on b) &&
  (meta_pane_in_mode a =? meta_pane_in_mode b).

Record TmuxBinding := { table : bytes; key : bytes; repeatable : bool; command : bytes }.

Inductive ReconcileOutcome := Applied | Ignored | ResyncRequired.

Inductive TopologyError :=
| MalformedInventory
| InvalidId (kind : string)
| InvalidNumber (field : string)
| InvalidUtf8 (field : string)
| ContradictoryInventory (what : string)
| InvalidLabel
| MalformedNotification.

Record TmuxTopology := {
  connection_id : N;
  label : bytes;
  host : option bytes;
  sessions : gmap N Session;
  windows : gmap N Window;
  panes : gmap N Pane;
  attached_session : option N;
  options : gmap bytes bytes;
  client_info : gmap bytes bytes;
  bindings : gmap bytes TmuxBinding;
  key_tables : gmap bytes (gmap bytes TmuxBinding);
  needs_resync : bool
}.

Definition topology_new (connection_id : N) : TmuxTopology := {|
  connection_id := connection_id; label := bs "tmux " ++ to_dec connection_id; host := None;
  sessions := ∅; windows := ∅; panes := ∅; attached_session := None; options := ∅;
  client_info := ∅; bindings := ∅; key_tables := ∅; needs_resync := false
|}.

Definition empty_session (id : N) : Session :=
  {| session_id := id; session_name := []; session_windows := ∅; active_window := None |}.
Definition empty_window (id : N) : Window :=
  {| window_id := id; window_name := []; links := ∅; active_pane := None; layout := [];
     visible_layout := []; flags := [] |}.
Definition empty_pane (id window_id : N) : Pane :=
  {| pane_id := id; pane_window := window_id; pane_index := 0; title := []; left := 0; top := 0;
     width := 0; height := 0; dead := false; cursor_x := 0; cursor_y := 0; cursor_visible := true;
     cursor_shape := bs "default"; alternate_on := false; pane_in_mode := 0; mode := [];
     history_size := 0 |}.

(** * Methods that change the topology and may fail *)

Definition M (A : Type) : Type := TmuxTopology → TmuxTopology * result TopologyError A.

#[export] Instance M_ret : MRet M := λ A a t, (t, Ok a).
#[export] Instance M_bind : MBind M := λ A B f m t,
  match m t with (t, Ok a) => f a t | (t, Err e) => (t, Err e) end.

Definition fail {A} (e : TopologyError) : M A := λ t, (t, Err e).
Definition lift {A} (r : result TopologyError A) : M A := λ t, (t, r).
Definition gets {A} (f : TmuxTopology → A) : M A := λ t, (t, Ok (f t)).
Definition modify (f : TmuxTopology → TmuxTopology) : M unit := λ t, (f t, Ok tt).

(** * Fields *)

Definition text (l : bytes) (field : string) : result TopologyError bytes :=
  if utf8_valid l then Ok l else Err (InvalidUtf8 field).

Definition number (l : bytes) (field : string) : result TopologyError N :=
  s ← text l field; ok_or (parse_uint u32_max s) (InvalidNumber field).

Definition boolean (l : bytes) (field : string) : result TopologyError bool :=
  match l with
  | [48] => Ok false
  | [49] => Ok true
  | _ => Err (InvalidNumber field)
  end.

Definition parse_cursor_shape (l : bytes) : result TopologyError bytes :=
  shape ← text l "cursor shape";
  Ok (if bool_decide (shape = []) then bs "default" else shape).

Definition is_tab (b : byte) : bool := b =? TAB.
Definition is_space (b : byte) : bool := b =? SP.

Definition split_inventory (line : bytes) (fields : nat) : result TopologyError (list bytes) :=
  let parts := splitn fields is_tab line in
  if negb (length parts =? fields)%nat || negb (length (nth 0 parts []) =? 1)%nat
  then Err MalformedInventory else Ok parts.

Definition split_first (l : bytes) : result TopologyError (bytes * bytes) :=
  index ← ok_or (position is_space l) MalformedNotification;
  if (index =? 0)%nat || (S index =? length l)%nat then Err MalformedNotification
  else Ok (take index l, drop (S index) l).

Definition single_field (l : bytes) : result TopologyError bytes :=
  if bool_decide (l = []) || existsb is_space l then Err MalformedNotification else Ok l.

Definition parse_id (l : bytes) (prefix : byte) (kind : string) : result TopologyError N :=
  digits ← ok_or (strip_prefix [prefix] l) (InvalidId kind);
  if bool_decide (digits = []) || negb (forallb is_digit digits) then Err (InvalidId kind) else
  s ← text digits "id";
  ok_or (parse_uint u64_max s) (InvalidId kind).
Definition parse_session_id (l : bytes) : result TopologyError N := parse_id l 36 "session".
Definition parse_window_id (l : bytes) : result TopologyError N := parse_id l 64 "window".
Definition parse_pane_id (l : bytes) : result TopologyError N := parse_id l 37 "pane".

Definition set_label (label' : bytes) (t : TmuxTopology) : TmuxTopology * result TopologyError unit :=
  let label' := trim label' in
  if bool_decide (label' = []) || (256 <? len label') || existsb is_control_char (str_chars label')
  then (t, Err InvalidLabel) else (t <| label := label' |>, Ok tt).

(** * Maps *)

(** [entry(k).or_insert_with(..)]: the map afterwards. *)
Definition or_insert {A} (k : N) (v : A) (m : gmap N A) : gmap N A :=
  match m !! k with Some _ => m | None => <[k := v]> m end.

(** * Key bindings *)

Definition validate_binding (table key command : bytes) : result TopologyError unit :=
  if bool_decide (table = []) || (128 <? len table) || bool_decide (key = []) || (128 <? len key) ||
     bool_decide (command = []) || (64 * 1024 <? len command) ||
     existsb (λ b, (b =? 0) || (b =? CR) || (b =? LF) || (b =? TAB)) table ||
     existsb (λ b, (b =? 0) || (b =? CR) || (b =? LF)) key ||
     existsb (λ b, (b =? 0) || (b =? CR) || (b =? LF)) command
  then Err MalformedInventory else Ok tt.

(** The lexer's state is the input left to read. *)
Fixpoint skip_whitespace (input : bytes) : bytes :=
  match input with
  | b :: rest => if is_ascii_whitespace b then skip_whitespace rest else input
  | [] => []
  end.

(** The loop of [LegacyBindingLexer::next]: the token and what follows it. *)
Fixpoint lex_token (quote : option byte) (token input : bytes) : result TopologyError (bytes * bytes) :=
  let finish :=
    if bool_decide (is_Some quote) || bool_decide (token = []) then Err MalformedInventory
    else Ok (token, input) in
  match input with
  | [] => finish
  | b :: rest =>
      if bool_decide (quote = None) && is_ascii_whitespace b then finish
      else if b =? 92 then
        match rest with
        | escaped :: rest => lex_token quote (token ++ [escaped]) rest
        | [] => Err MalformedInventory
        end
      else if ((b =? 39) || (b =? 34)) && bool_decide (quote = Some b) then lex_token None token rest
      else if ((b =? 39) || (b =? 34)) && bool_decide (quote = None) then lex_token (Some b) token rest
      else lex_token quote (token ++ [b]) rest
  end.

Definition lexer_next (input : bytes) : result TopologyError (option bytes * bytes) :=
  let input := skip_whitespace input in
  match input with
  | [] => Ok (None, [])
  | _ => '(token, rest) ← lex_token None [] input; Ok (Some token, rest)
  end.

(** [lexer.next()?.ok_or(MalformedInventory)?]. *)
Definition lexer_token (input : bytes) : result TopologyError (bytes * bytes) :=
  '(token, rest) ← lexer_next input;
  token ← ok_or token MalformedInventory; Ok (token, rest).

Definition lexer_remainder (input : bytes) : result TopologyError bytes :=
  let rest := skip_whitespace input in
  if bool_decide (rest = []) then Err MalformedInventory else Ok rest.

Definition insert_binding (b : TmuxBinding) : M unit :=
  t ← gets id;
  if bool_decide (table b = bs "prefix") then
    modify (λ t, t <| bindings := <[key b := b]> (bindings t) |>) ;;
    if decide (is_Some (bindings t !! key b))
    then fail (ContradictoryInventory "duplicate key-table binding") else mret tt
  else
    let previous := default ∅ (key_tables t !! table b) in
    modify (λ t, t <| key_tables := <[table b := <[key b := b]> previous]> (key_tables t) |>) ;;
    if decide (is_Some (previous !! key b))
    then fail (ContradictoryInventory "duplicate key-table binding") else mret tt.

(** * Inventory records *)

Definition count_tabs (line : bytes) : nat := length (List.filter is_tab line).

Definition inventory_session (line : bytes) : M unit :=
  fields ← lift (split_inventory line 3);
  id ← lift (parse_session_id (nth 1 fields []));
  name ← lift (text (nth 2 fields []) "session name");
  known ← gets (λ t, bool_decide (is_Some (sessions t !! id)));
  modify (λ t, t <| sessions := <[id := {| session_id := id; session_name := name;
                       session_windows := ∅; active_window := None |}]> (sessions t) |>) ;;
  if (known : bool) then fail (ContradictoryInventory "duplicate session id") else mret tt.

Definition inventory_window (line : bytes) : M unit :=
  fields ← lift (split_inventory line 9);
  session_id ← lift (parse_session_id (nth 1 fields []));
  window_id ← lift (parse_window_id (nth 2 fields []));
  index ← lift (number (nth 3 fields []) "window index");
  active ← lift (boolean (nth 4 fields []) "window active");
  layout' ← lift (text (nth 5 fields []) "window layout");
  visible_layout' ← lift (text (nth 6 fields []) "window visible layout");
  flags' ← lift (text (nth 7 fields []) "window flags");
  name ← lift (text (nth 8 fields []) "window name");
  session ← gets (λ t, sessions t !! session_id);
  session ← lift (ok_or session (ContradictoryInventory "window references missing session"));
  modify (λ t, t <| sessions := <[session_id :=
    session <| session_windows := <[index := window_id]> (session_windows session) |>]> (sessions t) |>) ;;
  if decide (is_Some (session_windows session !! index))
  then fail (ContradictoryInventory "duplicate window index") else
  (if (active : bool) then
     modify (λ t, t <| sessions := alter (λ s, s <| active_window := Some window_id |>) session_id
                                     (sessions t) |>)
   else mret tt) ;;
  modify (λ t, t <| windows := or_insert window_id
    {| window_id := window_id; window_name := name; links := ∅; active_pane := None;
       layout := layout'; visible_layout := visible_layout'; flags := flags' |} (windows t) |>) ;;
  window ← gets (λ t, default (empty_window window_id) (windows t !! window_id));
  if bool_decide (window_name window ≠ name) || bool_decide (layout window ≠ layout') ||
     bool_decide (visible_layout window ≠ visible_layout')
  then fail (ContradictoryInventory "linked window metadata differs") else
  modify (λ t, t <| windows := alter (λ w, w <| flags := flags' |>
                                            <| links := links w ∪ {[(session_id, index)]} |>)
                                 window_id (windows t) |>).

Definition parse_pane (line : bytes) : result TopologyError (Pane * bool) :=
  let tab_count := count_tabs line in
  let named_mode := (18 <=? tab_count)%nat in
  let extended := (17 <=? tab_count)%nat in
  fields ← split_inventory line (if named_mode then 19 else if extended then 18 else 11);
  let field n := nth n fields [] in
  window_id ← parse_window_id (field 1%nat);
  pane_id ← parse_pane_id (field 2%nat);
  index ← number (field 3%nat) "pane index";
  left ← number (field 5%nat) "pane left";
  top ← number (field 6%nat) "pane top";
  width ← number (field 7%nat) "pane width";
  height ← number (field 8%nat) "pane height";
  dead ← boolean (field 9%nat) "pane dead";
  cursor_x ← (if extended then number (field 10%nat) "cursor x" else Ok 0);
  cursor_y ← (if extended then number (field 11%nat) "cursor y" else Ok 0);
  cursor_visible ← (if extended then boolean (field 12%nat) "cursor visible" else Ok true);
  cursor_shape ← (if extended then parse_cursor_shape (field 13%nat) else Ok (bs "default"));
  alternate_on ← (if extended then boolean (field 14%nat) "alternate screen" else Ok false);
  pane_in_mode ← (if extended then number (field 15%nat) "pane mode" else Ok 0);
  mode ← (if named_mode then text (field 16%nat) "pane mode name" else Ok []);
  history_size ← (if extended then number (field (if named_mode then 17 else 16)%nat) "history size"
                  else Ok 0);
  title ← text (field (if named_mode then 18 else if extended then 17 else 10)%nat) "pane title";
  active ← boolean (field 4%nat) "pane active";
  Ok ({| pane_id := pane_id; pane_window := window_id; pane_index := index; title := title;
         left := left; top := top; width := width; height := height; dead := dead;
         cursor_x := cursor_x; cursor_y := cursor_y; cursor_visible := cursor_visible;
         cursor_shape := cursor_shape; alternate_on := alternate_on; pane_in_mode := pane_in_mode;
         mode := mode; history_size := history_size |}, active).

Definition inventory_pane (line : bytes) : M unit :=
  '(pane, active) ← lift (parse_pane line);
  window ← gets (λ t, windows t !! pane_window pane);
  _ ← lift (ok_or window (ContradictoryInventory "pane references missing window"));
  (if (active : bool) then
     modify (λ t, t <| windows := alter (λ w, w <| active_pane := Some (pane_id pane) |>)
                                    (pane_window pane) (windows t) |>)
   else mret tt) ;;
  existing ← gets (λ t, panes t !! pane_id pane);
  match existing with
  | Some existing =>
      if decide (existing = pane) then mret tt
      else fail (ContradictoryInventory "linked pane metadata differs")
  | None => modify (λ t, t <| panes := <[pane_id pane := pane]> (panes t) |>)
  end.

Definition inventory_attached (line : bytes) : M unit :=
  let has_host := (2 <=? count_tabs line)%nat in
  fields ← lift (split_inventory line (if has_host then 3 else 2));
  id ← lift (parse_session_id (nth 1 fields []));
  previous ← gets attached_session;
  modify (λ t, t <| attached_session := Some id |>) ;;
  if decide (is_Some previous) then fail (ContradictoryInventory "multiple attached records") else
  if has_host then
    host' ← lift (text (nth 2 fields []) "server host");
    if (256 <? len host') || existsb is_control_char (str_chars host') then fail MalformedInventory else
    modify (λ t, t <| host := if bool_decide (host' = []) then None else Some host' |>)
  else mret tt.

Definition inventory_key_value (line : bytes) (option : bool) : M unit :=
  fields ← lift (split_inventory line 3);
  if bool_decide (nth 1 fields [] = []) then fail MalformedInventory else
  key ← lift (text (nth 1 fields []) "metadata key");
  value ← lift (text (nth 2 fields []) "metadata value");
  previous ← gets (λ t, (if option then options t else client_info t) !! key);
  modify (λ t, if option then t <| options := <[key := value]> (options t) |>
               else t <| client_info := <[key := value]> (client_info t) |>) ;;
  if decide (is_Some previous) then fail (ContradictoryInventory "duplicate metadata key") else mret tt.

Definition inventory_binding (line : bytes) : M unit :=
  let has_table := (4 <=? count_tabs line)%nat in
  fields ← lift (split_inventory line (if has_table then 5 else 4));
  table ← lift (if has_table then text (nth 1 fields []) "binding table" else Ok (bs "prefix"));
  let key_index := ((if has_table then 1 else 0) + 1)%nat in
  let repeat_index := (key_index + 1)%nat in
  let command_index := (repeat_index + 1)%nat in
  key ← lift (text (nth key_index fields []) "binding key");
  command ← lift (text (nth command_index fields []) "binding command");
  _ ← lift (validate_binding table key command);
  repeatable ← lift (boolean (nth repeat_index fields []) "binding repeatable");
  insert_binding {| table := table; key := key; repeatable := repeatable; command := command |}.

Definition parse_legacy_binding (line : bytes) : result TopologyError TmuxBinding :=
  '(first, rest) ← lexer_next line;
  if bool_decide (first ≠ Some (bs "bind-key")) then Err MalformedInventory else
  '(token, rest) ← lexer_token rest;
  let repeatable := bool_decide (token = bs "-r") in
  '(token, rest) ← (if repeatable then lexer_token rest else Ok (token, rest));
  '(table, rest) ←
    (if bool_decide (token = bs "-T") then lexer_token rest
     else if bool_decide (token = bs "-n") then Ok (bs "root", rest)
     else Err MalformedInventory);
  '(key, rest) ← lexer_token rest;
  command ← lexer_remainder rest;
  table ← text table "binding table";
  key ← text key "binding key";
  command ← text command "binding command";
  _ ← validate_binding table key command;
  Ok {| table := table; key := key; repeatable := repeatable; command := command |}.

Definition inventory_legacy_binding (line : bytes) : M unit :=
  b ← lift (parse_legacy_binding line); insert_binding b.

Definition apply_inventory_line (line : bytes) : M unit :=
  match head line with
  | Some 83 => inventory_session line
  | Some 87 => inventory_window line
  | Some 80 => inventory_pane line
  | Some 65 => inventory_attached line
  | Some 79 => inventory_key_value line true
  | Some 67 => inventory_key_value line false
  | Some 66 => inventory_binding line
  | Some 98 => inventory_legacy_binding line
  | _ => fail MalformedInventory
  end.

Fixpoint apply_inventory_lines (lines : list bytes) : M unit :=
  match lines with
  | [] => mret tt
  | line :: lines => apply_inventory_line line ;; apply_inventory_lines lines
  end.

Definition validate_inventory (t : TmuxTopology) : result TopologyError unit :=
  if match attached_session t with
     | Some attached => bool_decide (sessions t !! attached = None)
     | None => false
     end then Err (ContradictoryInventory "attached session is missing")
  else if forallb (λ id, match panes t !! id with
                         | Some pane => bool_decide (is_Some (windows t !! pane_window pane))
                         | None => true
                         end) (btree_keys (panes t))
  then Ok tt else Err (ContradictoryInventory "pane window is missing").

Definition replace_inventory (lines : list bytes) (t : TmuxTopology)
    : TmuxTopology * result TopologyError unit :=
  let next := (topology_new (connection_id t)) <| label := label t |> in
  match apply_inventory_lines lines next with
  | (next, Ok _) =>
      match validate_inventory next with
      | Ok _ => (next, Ok tt)
      | Err e => (t, Err e)
      end
  | (_, Err e) => (t, Err e)
  end.

(** * Notifications *)

Definition require_resync : M ReconcileOutcome :=
  modify (λ t, t <| needs_resync := true |>) ;; mret ResyncRequired.

Definition resync_if (missing : bool) : M ReconcileOutcome :=
  if missing then require_resync else mret Applied.

Definition missing {A} (m : gmap N A) (k : N) : bool := bool_decide (m !! k = None).

Definition session_changed (arguments : bytes) : M ReconcileOutcome :=
  '(id, name) ← lift (split_first arguments);
  id ← lift (parse_session_id id);
  name ← lift (text name "session name");
  unknown ← gets (λ t, missing (sessions t) id);
  modify (λ t, t <| sessions := alter (λ s, s <| session_name := name |>) id
                                  (or_insert id (empty_session id) (sessions t)) |>
                 <| attached_session := Some id |>) ;;
  resync_if unknown.

Definition session_renamed (arguments : bytes) : M ReconcileOutcome :=
  attached ← gets attached_session;
  match attached with
  | None => require_resync
  | Some id =>
      name ← lift (text arguments "session name");
      unknown ← gets (λ t, missing (sessions t) id);
      if (unknown : bool) then require_resync else
      modify (λ t, t <| sessions := alter (λ s, s <| session_name := name |>) id (sessions t) |>) ;;
      mret Applied
  end.

Definition session_window_changed (arguments : bytes) : M ReconcileOutcome :=
  '(session, window) ← lift (split_first arguments);
  session_id ← lift (parse_session_id session);
  window ← lift (single_field window);
  window_id ← lift (parse_window_id window);
  missing_session ← gets (λ t, missing (sessions t) session_id);
  missing_window ← gets (λ t, missing (windows t) window_id);
  modify (λ t, t <| sessions := alter (λ s, s <| active_window := Some window_id |>) session_id
                                  (or_insert session_id (empty_session session_id) (sessions t)) |>
                 <| windows := or_insert window_id (empty_window window_id) (windows t) |>) ;;
  resync_if (missing_session || missing_window).

(** The new name is read before the entry is made: a name that is not UTF-8
    changes nothing. *)
Definition window_renamed (arguments : bytes) : M ReconcileOutcome :=
  '(window, name) ← lift (split_first arguments);
  window_id ← lift (parse_window_id window);
  unknown ← gets (λ t, missing (windows t) window_id);
  name ← lift (text name "window name");
  modify (λ t, t <| windows := alter (λ w, w <| window_name := name |>) window_id
                                 (or_insert window_id (empty_window window_id) (windows t)) |>) ;;
  resync_if unknown.

Definition window_pane_changed (arguments : bytes) : M ReconcileOutcome :=
  '(window, pane) ← lift (split_first arguments);
  window_id ← lift (parse_window_id window);
  pane ← lift (single_field pane);
  pane_id ← lift (parse_pane_id pane);
  missing_window ← gets (λ t, missing (windows t) window_id);
  missing_pane ← gets (λ t, missing (panes t) pane_id);
  modify (λ t, t <| windows := alter (λ w, w <| active_pane := Some pane_id |>) window_id
                                 (or_insert window_id (empty_window window_id) (windows t)) |>
                 <| panes := or_insert pane_id (empty_pane pane_id window_id) (panes t) |>) ;;
  resync_if (missing_window || missing_pane).

Definition window_add (arguments : bytes) : M ReconcileOutcome :=
  window ← lift (single_field arguments);
  window_id ← lift (parse_window_id window);
  modify (λ t, t <| windows := or_insert window_id (empty_window window_id) (windows t) |>) ;;
  require_resync.

(** [session.windows.retain(..)] and the active window of one session. *)
Definition forget_window (window_id : N) (s : Session) : Session :=
  let active := active_window s in
  s <| session_windows := filter (λ kv, kv.2 ≠ window_id) (session_windows s) |>
    <| active_window := if bool_decide (active = Some window_id) then None else active |>.

Definition remove_window (window_id : N) (t : TmuxTopology) : TmuxTopology :=
  t <| windows := delete window_id (windows t) |>
    <| panes := filter (λ kv, pane_window kv.2 ≠ window_id) (panes t) |>
    <| sessions := forget_window window_id <$> sessions t |>.

Definition remove_pane (pane_id : N) (t : TmuxTopology) : TmuxTopology :=
  t <| panes := delete pane_id (panes t) |>
    <| windows := (λ w, if bool_decide (active_pane w = Some pane_id)
                        then w <| active_pane := None |> else w) <$> windows t |>.

Definition close_attached_window (arguments : bytes) : M ReconcileOutcome :=
  window ← lift (single_field arguments);
  window_id ← lift (parse_window_id window);
  attached ← gets attached_session;
  match attached with
  | None => require_resync
  | Some session_id =>
      modify (λ t, t <| sessions := alter (forget_window window_id) session_id (sessions t) |>) ;;
      modify (λ t, t <| windows := alter (λ w, w <| links :=
                          filter (λ link, link.1 ≠ session_id) (links w) |>) window_id (windows t) |>) ;;
      unlinked ← gets (λ t, match windows t !! window_id with
                            | Some w => bool_decide (links w = ∅)
                            | None => false
                            end);
      (if (unlinked : bool) then modify (remove_window window_id) else mret tt) ;;
      mret Applied
  end.

Definition unlinked_window_close (arguments : bytes) : M ReconcileOutcome :=
  window ← lift (single_field arguments);
  window_id ← lift (parse_window_id window);
  linked ← gets (λ t, match windows t !! window_id with
                      | Some w => bool_decide (links w ≠ ∅)
                      | None => false
                      end);
  if (linked : bool) then require_resync else
  modify (remove_window window_id) ;; mret Applied.

Definition apply_layout_change (arguments : bytes) : M ReconcileOutcome :=
  let fields := splitn 4 is_space arguments in
  let next n := ok_or (fields !! n) MalformedNotification in
  window ← lift (next 0%nat);
  window_id ← lift (parse_window_id window);
  layout' ← lift (next 1%nat);
  layout' ← lift (text layout' "window layout");
  visible' ← lift (next 2%nat);
  visible' ← lift (text visible' "window visible layout");
  flags' ← lift (next 3%nat);
  flags' ← lift (text flags' "window flags");
  unknown ← gets (λ t, missing (windows t) window_id);
  modify (λ t, t <| windows :=
    alter (λ w, w <| layout := layout' |> <| visible_layout := visible' |> <| flags := flags' |>)
      window_id (or_insert window_id (empty_window window_id) (windows t)) |>) ;;
  resync_if unknown.

Definition pane_exited (arguments : bytes) : M ReconcileOutcome :=
  pane ← lift (single_field arguments);
  pane_id ← lift (parse_pane_id pane);
  modify (remove_pane pane_id) ;; mret Applied.

Definition apply_notification (name arguments : bytes) : M ReconcileOutcome :=
  let named s := bool_decide (name = bs s) in
  if named "sessions-changed" then require_resync
  else if named "session-changed" then session_changed arguments
  else if named "session-renamed" then session_renamed arguments
  else if named "session-window-changed" then session_window_changed arguments
  else if named "window-renamed" || named "unlinked-window-renamed" then window_renamed arguments
  else if named "window-pane-changed" then window_pane_changed arguments
  else if named "window-add" || named "unlinked-window-add" then window_add arguments
  else if named "window-close" then close_attached_window arguments
  else if named "unlinked-window-close" then unlinked_window_close arguments
  else if named "layout-change" then apply_layout_change arguments ;; require_resync
  else if named "pane-mode-changed" then require_resync
  else if named "pane-exited" then pane_exited arguments
  else mret Ignored.

(** * The other methods *)

Definition mark_resync_required (t : TmuxTopology) : TmuxTopology := t <| needs_resync := true |>.

Definition clear_native_copy_mode (pane_id : N) (t : TmuxTopology) : TmuxTopology :=
  t <| panes := alter (λ p, if bool_decide (mode p = bs "copy-mode")
                            then p <| pane_in_mode := 0 |> <| mode := [] |> else p)
                  pane_id (panes t) |>.

Definition update_pane_capture_metadata (m : PaneCaptureMetadata) : M unit :=
  pane ← gets (λ t, panes t !! meta_pane_id m);
  _ ← lift (ok_or pane (ContradictoryInventory "pane capture metadata references a missing pane"));
  modify (λ t, t <| panes := alter (λ p,
    p <| left := meta_left m |> <| top := meta_top m |> <| width := meta_width m |>
      <| height := meta_height m |> <| dead := meta_dead m |> <| cursor_x := meta_cursor_x m |>
      <| cursor_y := meta_cursor_y m |> <| cursor_visible := meta_cursor_visible m |>
      <| cursor_shape := meta_cursor_shape m |> <| alternate_on := meta_alternate_on m |>
      <| pane_in_mode := meta_pane_in_mode m |> <| history_size := meta_history_size m |>)
    (meta_pane_id m) (panes t) |>).

Definition pane_capture_metadata_command (pane_id : N) : bytes :=
  bs "display-message -p -t %" ++ to_dec pane_id ++
  rs " -F 'R\t#{pane_id}\t#{pane_left}\t#{pane_top}\t#{pane_width}\t#{pane_height}\t#{pane_dead}\t#{cursor_x}\t#{cursor_y}\t#{cursor_flag}\t#{cursor_shape}\t#{alternate_on}\t#{pane_in_mode}\t#{history_size}'\n".

Definition parse_pane_capture_metadata (line : bytes) (expected_pane_id : N)
    : result TopologyError PaneCaptureMetadata :=
  fields ← split_inventory line 14;
  let field n := nth n fields [] in
  if bool_decide (field 0%nat ≠ bs "R") then Err MalformedInventory else
  pane_id ← parse_pane_id (field 1%nat);
  if bool_decide (pane_id ≠ expected_pane_id)
  then Err (ContradictoryInventory "pane capture metadata names a different pane") else
  left ← number (field 2%nat) "pane left";
  top ← number (field 3%nat) "pane top";
  width ← number (field 4%nat) "pane width";
  height ← number (field 5%nat) "pane height";
  dead ← boolean (field 6%nat) "pane dead";
  cursor_x ← number (field 7%nat) "cursor x";
  cursor_y ← number (field 8%nat) "cursor y";
  cursor_visible ← boolean (field 9%nat) "cursor visible";
  cursor_shape ← parse_cursor_shape (field 10%nat);
  alternate_on ← boolean (field 11%nat) "alternate screen";
  pane_in_mode ← number (field 12%nat) "pane mode";
  history_size ← number (field 13%nat) "history size";
  Ok {| meta_pane_id := pane_id; meta_left := left; meta_top := top; meta_width := width;
        meta_height := height; meta_dead := dead; meta_cursor_x := cursor_x;
        meta_cursor_y := cursor_y; meta_cursor_visible := cursor_visible;
        meta_cursor_shape := cursor_shape; meta_alternate_on := alternate_on;
        meta_pane_in_mode := pane_in_mode; meta_history_size := history_size |}.

(** * Queries *)

Record TmuxLocation := {
  at_session_id : N;
  at_session_name : bytes;
  at_window_id : N;
  at_window_index : N;
  at_window_name : bytes;
  at_pane_id : option N;
  at_pane_index : option N;
  at_pane_count : N
}.

Definition window_title (l : TmuxLocation) : bytes :=
  match at_pane_index l with
  | Some pane_index =>
      if 1 <? at_pane_count l then
        to_dec (at_window_index l) ++ bs "." ++ to_dec pane_index ++ bs ": " ++ at_window_name l
      else to_dec (at_window_index l) ++ bs ": " ++ at_window_name l
  | None => to_dec (at_window_index l) ++ bs ": " ++ at_window_name l
  end.

Definition accessible_title (l : TmuxLocation) : bytes :=
  bs "tmux, " ++ at_session_name l ++ bs ", " ++ window_title l.

Definition attached_active_pane (t : TmuxTopology) : option N :=
  attached ← attached_session t;
  session ← sessions t !! attached;
  active ← active_window session;
  window ← windows t !! active;
  active_pane window.

Definition attached_location (t : TmuxTopology) : option TmuxLocation :=
  attached ← attached_session t;
  session ← sessions t !! attached;
  window_id ← active_window session;
  window_index ← List.find (λ index, bool_decide (session_windows session !! index = Some window_id))
                   (btree_keys (session_windows session));
  window ← windows t !! window_id;
  let pane_index := id ← active_pane window; pane_index <$> panes t !! id in
  Some {| at_session_id := session_id session; at_session_name := session_name session;
          at_window_id := window_id; at_window_index := window_index;
          at_window_name := window_name window; at_pane_id := active_pane window;
          at_pane_index := pane_index;
          at_pane_count := N.of_nat (size (filter (λ kv, pane_window kv.2 = window_id) (panes t))) |}.

Definition binding_in_table (table key : bytes) (t : TmuxTopology) : option TmuxBinding :=
  if bool_decide (table = bs "prefix") then bindings t !! key
  else keys ← key_tables t !! table; keys !! key.

Definition has_key_table (table : bytes) (t : TmuxTopology) : bool :=
  bool_decide (table = bs "prefix") && negb (bool_decide (bindings t = ∅)) ||
  bool_decide (is_Some (key_tables t !! table)).

Definition for_each {A} (f : A → bytes) (m : gmap N A) : bytes :=
  mjoin ((λ id, from_option f [] (m !! id)) <$> btree_keys m).

Definition debug_dump (t : TmuxTopology) : bytes :=
  bs "connection " ++ to_dec (connection_id t) ++ bs ": " ++ label t ++ [LF] ++
  for_each (λ s,
    bs "session $" ++ to_dec (session_id s) ++
    (if bool_decide (attached_session t = Some (session_id s)) then bs " [attached]" else []) ++
    bs ": " ++ session_name s ++ [LF] ++
    mjoin ((λ index,
      match session_windows s !! index ≫= λ id, windows t !! id with
      | Some w =>
          bs "  window @" ++ to_dec (window_id w) ++ bs " index " ++ to_dec index ++ bs ": " ++
          window_name w ++ [LF] ++
          for_each (λ p,
            if bool_decide (pane_window p = window_id w) then
              bs "    pane %" ++ to_dec (pane_id p) ++ bs " index " ++ to_dec (pane_index p) ++
              bs ": " ++ title p ++ [LF]
            else []) (panes t)
      | None => []
      end) <$> btree_keys (session_windows s))) (sessions t).

(** * Consistency *)

Definition lists (t : TmuxTopology) (session index window : N) : Prop :=
  ∃ s, sessions t !! session = Some s ∧ session_windows s !! index = Some window.
Definition linked (t : TmuxTopology) (session index window : N) : Prop :=
  ∃ w, windows t !! window = Some w ∧ (session, index) ∈ links w.

(** Objects are stored under their own identifiers; every pane lies in a known
    window; a session lists a window exactly where the window says it is
    linked; active windows are known; bindings are valid and stored under
    their own table and key. *)
Record consistent (t : TmuxTopology) : Prop := {
  session_ids : ∀ k s, sessions t !! k = Some s → session_id s = k;
  window_ids : ∀ k w, windows t !! k = Some w → window_id w = k;
  pane_ids : ∀ k p, panes t !! k = Some p → pane_id p = k;
  pane_windows : ∀ k p, panes t !! k = Some p → is_Some (windows t !! pane_window p);
  links_agree : ∀ s i w, lists t s i w ↔ linked t s i w;
  active_windows : ∀ k s w, sessions t !! k = Some s → active_window s = Some w →
    is_Some (windows t !! w);
  prefix_bindings : ∀ k b, bindings t !! k = Some b →
    key b = k ∧ table b = bs "prefix" ∧ validate_binding (table b) (key b) (command b) = Ok tt;
  table_bindings : ∀ tb m k b, key_tables t !! tb = Some m → m !! k = Some b →
    tb ≠ bs "prefix" ∧ key b = k ∧ table b = tb ∧
    validate_binding (table b) (key b) (command b) = Ok tt
}.

Definition attached_known (t : TmuxTopology) : Prop :=
  ∀ s, attached_session t = Some s → is_Some (sessions t !! s).

(** ** Maps *)

Lemma lookup_or_insert {A} (m : gmap N A) k v j :
  or_insert k v m !! j = if decide (j = k) then Some (default v (m !! k)) else m !! j.
Proof.
  unfold or_insert. destruct (decide (j = k)) as [->|Hne]; destruct (m !! k) eqn:E; simpl.
  - done.
  - by rewrite lookup_insert_eq.
  - done.
  - by rewrite lookup_insert_ne.
Qed.

Lemma lookup_ensure {A} (f : A → A) (m : gmap N A) k v j :
  alter f k (or_insert k v m) !! j =
  if decide (j = k) then Some (f (default v (m !! k))) else m !! j.
Proof.
  destruct (decide (j = k)) as [->|Hne].
  - by rewrite lookup_alter_eq, lookup_or_insert, decide_True by done.
  - by rewrite lookup_alter_ne, lookup_or_insert, decide_False by done.
Qed.

Lemma or_insert_known {A} k (v : A) m : is_Some (m !! k) → or_insert k v m = m.
Proof. intros [x Hx]. unfold or_insert. by rewrite Hx. Qed.

Lemma or_insert_alter_id {A} k (v : A) m : or_insert k v m = alter id k (or_insert k v m).
Proof. apply map_eq. intros j. destruct (decide (j = k)) as [->|];
  [rewrite lookup_alter_eq; by destruct (or_insert _ _ _ !! k)|by rewrite lookup_alter_ne]. Qed.

Lemma missing_false {A} (m : gmap N A) k : missing m k = false → is_Some (m !! k).
Proof. unfold missing. rewrite bool_decide_eq_false. apply not_eq_None_Some. Qed.

Lemma dom_ensure {A} (f : A → A) (m : gmap N A) k v :
  dom (alter f k (or_insert k v m)) = {[k]} ∪ dom m.
Proof.
  apply set_eq. intros j. rewrite elem_of_dom, lookup_ensure, elem_of_union, elem_of_singleton, elem_of_dom.
  destruct (decide (j = k)) as [->|Hne]; [|naive_solver]. split; [by left|by eexists].
Qed.

Lemma dom_or_insert {A} (m : gmap N A) k v : dom (or_insert k v m) = {[k]} ∪ dom m.
Proof. by rewrite or_insert_alter_id, dom_ensure. Qed.

(** ** Updates that keep a topology consistent *)

Lemma ensure_window_consistent f w t :
  (∀ x, window_id (f x) = window_id x) → (∀ x, links (f x) = links x) → consistent t →
  consistent (t <| windows := alter f w (or_insert w (empty_window w) (windows t)) |>).
Proof.
  intros Hid Hlinks [Hs Hw Hp Hpw Hl Ha Hb Ht].
  assert (∀ k, is_Some (windows t !! k) →
    is_Some (alter f w (or_insert w (empty_window w) (windows t)) !! k)) as Hmono.
  { intros k Hk. rewrite lookup_ensure. destruct (decide (k = w)); [by eexists|done]. }
  split; cbn; try done.
  - intros k x. rewrite lookup_ensure. destruct (decide (k = w)) as [->|]; [|apply Hw].
    intros [= <-]. rewrite Hid. destruct (windows t !! w) eqn:E; [by apply Hw|done].
  - eauto.
  - intros s i k. rewrite (Hl s i k). unfold linked; cbn. setoid_rewrite lookup_ensure.
    destruct (decide (k = w)) as [->|]; [|done]. split.
    + intros (x & Hx & Hin). rewrite Hx. eexists. split; [done|]. simpl. by rewrite Hlinks.
    + intros (x & [= <-] & Hin). rewrite Hlinks in Hin. destruct (windows t !! w) as [x|]; [by exists x|].
      cbn in Hin. set_solver.
  - eauto.
Qed.

Lemma ensure_session_consistent f k t :
  (∀ x, session_id (f x) = session_id x) → (∀ x, session_windows (f x) = session_windows x) →
  (∀ x w, active_window (f x) = Some w → active_window x = Some w ∨ is_Some (windows t !! w)) →
  consistent t →
  consistent (t <| sessions := alter f k (or_insert k (empty_session k) (sessions t)) |>).
Proof.
  intros Hid Hwin Hact [Hs Hw Hp Hpw Hl Ha Hb Ht].
  split; cbn; try done.
  - intros j x. rewrite lookup_ensure. destruct (decide (j = k)) as [->|]; [|apply Hs].
    intros [= <-]. rewrite Hid. destruct (sessions t !! k) eqn:E; [by apply Hs|done].
  - intros s i w. rewrite <-(Hl s i w). unfold lists; cbn. setoid_rewrite lookup_ensure.
    destruct (decide (s = k)) as [->|]; [|done]. split.
    + intros (x & [= <-] & Hin). rewrite Hwin in Hin. destruct (sessions t !! k) as [x|]; [by exists x|].
      cbn in Hin. by rewrite lookup_empty in Hin.
    + intros (x & Hx & Hin). rewrite Hx. eexists. split; [done|]. simpl. by rewrite Hwin.
  - intros j x w. rewrite lookup_ensure. destruct (decide (j = k)) as [->|]; [|apply Ha].
    intros [= <-] [Hx|Hx]%Hact; [|done]. destruct (sessions t !! k) eqn:E; [by eapply Ha|done].
Qed.

Lemma ensure_pane_consistent p w t :
  is_Some (windows t !! w) → consistent t →
  consistent (t <| panes := or_insert p (empty_pane p w) (panes t) |>).
Proof.
  intros Hknown [Hs Hw Hp Hpw Hl Ha Hb Ht]. split; cbn; try done;
    intros j x; rewrite lookup_or_insert; (destruct (decide (j = p)) as [->|]; [|eauto]);
    intros [= <-]; (destruct (panes t !! p) eqn:E; simpl; [eauto|done]).
Qed.

Lemma alter_pane_consistent f p t :
  (∀ x, pane_id (f x) = pane_id x) → (∀ x, pane_window (f x) = pane_window x) → consistent t →
  consistent (t <| panes := alter f p (panes t) |>).
Proof.
  intros Hid Hwin [Hs Hw Hp Hpw Hl Ha Hb Ht]. split; cbn; try done;
    intros j x; (destruct (decide (j = p)) as [->|]; [rewrite lookup_alter_eq|rewrite lookup_alter_ne by done; eauto]);
    intros (y & Hy & ->)%fmap_Some; rewrite ?Hid, ?Hwin; eauto.
Qed.

Lemma remove_pane_consistent p t : consistent t → consistent (remove_pane p t).
Proof.
  intros [Hs Hw Hp Hpw Hl Ha Hb Ht]. unfold remove_pane.
  set (f := λ w : Window, if bool_decide (active_pane w = Some p) then w <| active_pane := None |> else w).
  assert (∀ x, window_id (f x) = window_id x) as Hid by (intros x; unfold f; by case_bool_decide).
  assert (∀ x, links (f x) = links x) as Hlinks by (intros x; unfold f; by case_bool_decide).
  clearbody f. split; cbn; try done.
  - intros k x. rewrite lookup_fmap. intros (y & Hy & ->)%fmap_Some. rewrite Hid. eauto.
  - intros k x [_ Hx]%lookup_delete_Some. eauto.
  - intros k x [_ Hx]%lookup_delete_Some. rewrite lookup_fmap. apply fmap_is_Some. eauto.
  - intros s i w. rewrite (Hl s i w). unfold linked; cbn. setoid_rewrite lookup_fmap. split.
    + intros (x & -> & Hin). eexists. split; [done|]. simpl. by rewrite Hlinks.
    + intros (x & (y & Hy & ->)%fmap_Some & Hin). rewrite Hlinks in Hin. eauto.
  - intros k x w Hk Hw'. rewrite lookup_fmap. apply fmap_is_Some. eauto.
Qed.

Lemma lookup_forget w s i x :
  session_windows (forget_window w s) !! i = Some x ↔ session_windows s !! i = Some x ∧ x ≠ w.
Proof. unfold forget_window; cbn. by rewrite map_lookup_filter_Some. Qed.

Lemma active_forget w s x :
  active_window (forget_window w s) = Some x ↔ active_window s = Some x ∧ x ≠ w.
Proof.
  unfold forget_window; cbn. case_bool_decide as H; [rewrite H|]; naive_solver.
Qed.

(** The window leaves one session: its links there go with it. *)
Definition unlink_window (session window : N) (t : TmuxTopology) : TmuxTopology :=
  t <| sessions := alter (forget_window window) session (sessions t) |>
    <| windows := alter (λ w, w <| links := filter (λ link, link.1 ≠ session) (links w) |>) window
                    (windows t) |>.

Lemma lists_remove w t k i x : lists (remove_window w t) k i x ↔ lists t k i x ∧ x ≠ w.
Proof.
  unfold lists, remove_window; cbn. setoid_rewrite lookup_fmap. split.
  - intros (y & (z & Hz & ->)%fmap_Some & Hin). apply lookup_forget in Hin as [Hin Hne]. eauto.
  - intros ((y & Hy & Hin) & Hne). rewrite Hy. eexists. split; [done|]. by apply lookup_forget.
Qed.

Lemma lists_unlink s w t k i x :
  lists (unlink_window s w t) k i x ↔ lists t k i x ∧ (k = s → x ≠ w).
Proof.
  unfold lists, unlink_window; cbn.
  destruct (decide (k = s)) as [->|]; [rewrite lookup_alter_eq|rewrite lookup_alter_ne by done; naive_solver].
  split.
  - intros (y & (z & Hz & ->)%fmap_Some & Hin). apply lookup_forget in Hin as [Hin Hne]. eauto.
  - intros ((y & Hy & Hin) & Hne). rewrite Hy. eexists. split; [done|]. apply lookup_forget. auto.
Qed.

(** Dropping a window that no session but those rewritten lists. *)
Lemma remove_window_consistent w t : consistent t → consistent (remove_window w t).
Proof.
  intros [Hs Hw Hp Hpw Hl Ha Hb Ht]. unfold remove_window. split; cbn; try done.
  - intros k x. rewrite lookup_fmap. intros (y & Hy & ->)%fmap_Some. exact (Hs _ _ Hy).
  - intros k x [_ Hx]%lookup_delete_Some. eauto.
  - intros k x [Hx _]%map_lookup_filter_Some. eauto.
  - intros k x [Hx Hne]%map_lookup_filter_Some. simpl in Hne. rewrite lookup_delete_ne by done. eauto.
  - intros s i x. etrans; [apply (lists_remove w t)|]. rewrite (Hl s i x). unfold linked; cbn.
    split; [intros ((y & Hy & Hin) & Hne)|intros (y & [Hne Hy]%lookup_delete_Some & Hin); by eauto].
    exists y. split; [by apply lookup_delete_Some|done].
  - intros k y x. rewrite lookup_fmap. intros (z & Hz & ->)%fmap_Some [Hx Hne]%active_forget.
    rewrite lookup_delete_ne by done. eauto.
Qed.

Lemma unlink_window_consistent s w t : consistent t → consistent (unlink_window s w t).
Proof.
  intros [Hs Hw Hp Hpw Hl Ha Hb Ht]. unfold unlink_window.
  assert (∀ g k, is_Some (windows t !! k) → is_Some (alter (g : Window → Window) w (windows t) !! k)) as Hmono.
  { intros g k Hk. destruct (decide (k = w)) as [->|];
      [rewrite lookup_alter_eq; by apply fmap_is_Some|by rewrite lookup_alter_ne]. }
  split; cbn; try done.
  - intros k x. destruct (decide (k = s)) as [->|]; [rewrite lookup_alter_eq|rewrite lookup_alter_ne by done; eauto].
    intros (y & Hy & ->)%fmap_Some. exact (Hs _ _ Hy).
  - intros k x. destruct (decide (k = w)) as [->|]; [rewrite lookup_alter_eq|rewrite lookup_alter_ne by done; eauto].
    intros (y & Hy & ->)%fmap_Some. exact (Hw _ _ Hy).
  - eauto.
  - intros s' i x. etrans; [apply (lists_unlink s w t)|]. rewrite (Hl s' i x). unfold linked; cbn.
    destruct (decide (x = w)) as [->|]; [rewrite lookup_alter_eq|rewrite lookup_alter_ne by done; naive_solver].
    split.
    + intros ((y & Hy & Hin) & Hne). rewrite Hy. eexists. split; [done|]. cbn.
      apply elem_of_filter. split; [intros Heq; by apply Hne|done].
    + intros (y & (z & Hz & ->)%fmap_Some & Hin). cbn in Hin. apply elem_of_filter in Hin as [Hne Hin].
      split; [eauto|]. intros ->. by contradict Hne.
  - intros k y x. destruct (decide (k = s)) as [->|]; [rewrite lookup_alter_eq|rewrite lookup_alter_ne by done; eauto].
    intros (z & Hz & ->)%fmap_Some [Hx Hne]%active_forget. eauto.
Qed.

(** ** Runs of fallible methods *)

Lemma run_lift {A B} (r : result TopologyError A) (f : A → M B) t :
  (lift r ≫= f) t = match r with Ok a => f a t | Err e => (t, Err e) end.
Proof. by destruct r. Qed.
Lemma run_gets {A B} (g : TmuxTopology → A) (f : A → M B) t : (gets g ≫= f) t = f (g t) t.
Proof. done. Qed.
Lemma run_modify {B} g (f : unit → M B) t : (modify g ≫= f) t = f tt (g t).
Proof. done. Qed.
Lemma run_assoc {A B C} (m : M A) (f : A → M B) (g : B → M C) t :
  ((m ≫= f) ≫= g) t = (m ≫= λ x, f x ≫= g) t.
Proof. unfold mbind, M_bind. by destruct (m t) as [? []]. Qed.

Lemma run_Ok {A B} (m : M A) (f : A → M B) t t' b :
  (m ≫= f) t = (t', Ok b) → ∃ t1 a, m t = (t1, Ok a) ∧ f a t1 = (t', Ok b).
Proof. unfold mbind, M_bind. destruct (m t) as [t1 []]; intros H; [eauto|congruence]. Qed.

(** What a notification leaves alone. *)
Record same_settings (t t' : TmuxTopology) : Prop := {
  same_connection : connection_id t' = connection_id t;
  same_label : label t' = label t;
  same_host : host t' = host t;
  same_options : options t' = options t;
  same_client_info : client_info t' = client_info t;
  same_bindings : bindings t' = bindings t;
  same_key_tables : key_tables t' = key_tables t
}.

Definition no_new_objects (t t' : TmuxTopology) : Prop :=
  dom (sessions t') ⊆ dom (sessions t) ∧ dom (windows t') ⊆ dom (windows t) ∧
  dom (panes t') ⊆ dom (panes t).

(** What each outcome of a notification tells the caller. *)
Definition outcome_ok (t t' : TmuxTopology) (r : result TopologyError ReconcileOutcome) : Prop :=
  match r with
  | Err _ | Ok Ignored => t' = t
  | Ok Applied => no_new_objects t t' ∧ needs_resync t' = needs_resync t
  | Ok ResyncRequired => needs_resync t' = true
  end.

Definition reconciled (t : TmuxTopology) (out : TmuxTopology * result TopologyError ReconcileOutcome) : Prop :=
  outcome_ok t out.1 out.2 ∧ same_settings t out.1 ∧ (consistent t → consistent out.1) ∧
  (attached_known t → attached_known out.1).

Lemma reconciled_err t e : reconciled t (t, Err e).
Proof. split_and!; [done|by split|done..]. Qed.

Lemma consistent_eq t t' : consistent t → t = t' → consistent t'.
Proof. by intros H <-. Qed.

Lemma consistent_resync b t : consistent t → consistent (t <| needs_resync := b |>).
Proof. by intros []. Qed.

Lemma consistent_attached a t : consistent t → consistent (t <| attached_session := a |>).
Proof. by intros []. Qed.

Lemma reconciled_resync t t' :
  same_settings t t' → (consistent t → consistent t') → (attached_known t → attached_known t') →
  reconciled t (require_resync t').
Proof.
  intros [] Hc Ha. split_and!; [done|by split| |done].
  intros H. by apply (consistent_resync true), Hc.
Qed.

Lemma reconciled_resync_if (b : bool) t t' :
  same_settings t t' → (consistent t → consistent t') → (attached_known t → attached_known t') →
  (b = false → no_new_objects t t' ∧ needs_resync t' = needs_resync t) →
  reconciled t (resync_if b t').
Proof.
  intros Hs Hc Ha Hb. destruct b; [by apply reconciled_resync|]. split_and!; [by apply Hb|done..].
Qed.

(** Runs the reading part of a handler: an error there leaves the topology
    alone. *)
Ltac read_step :=
  first [ rewrite run_gets
        | rewrite run_assoc
        | rewrite run_lift;
          match goal with
          | |- reconciled _ (match ?r with _ => _ end) => destruct r as [?|]; [|apply reconciled_err]
          end
        | rewrite run_modify ]; cbv beta.

Lemma session_changed_reconciles args t : reconciled t (session_changed args t).
Proof.
  unfold session_changed. read_step. destruct a as [id name]. do 4 read_step.
  apply reconciled_resync_if.
  - by split.
  - intros Hc. by apply consistent_attached, (ensure_session_consistent (λ s, s <| session_name := a0 |>)); auto.
  - intros _ s [= <-]. cbn. rewrite lookup_ensure, decide_True by done. by eexists.
  - intros Hk. split; [|done]. unfold no_new_objects; cbn. rewrite dom_ensure.
    apply missing_false, elem_of_dom in Hk. set_solver.
Qed.

Lemma session_renamed_reconciles args t : reconciled t (session_renamed args t).
Proof.
  unfold session_renamed. read_step. destruct (attached_session t) as [k|] eqn:Hk;
    [|by apply reconciled_resync].
  do 2 read_step. destruct (missing (sessions t) k) eqn:Hm; [by apply reconciled_resync|]. read_step.
  apply missing_false in Hm. rewrite <-(or_insert_known k (empty_session k) (sessions t)) by done.
  apply (reconciled_resync_if false).
  - by split.
  - intros Hc. apply (ensure_session_consistent (λ s, s <| session_name := a |>)); auto.
  - intros Hatt s Hs. cbn in Hs |- *. rewrite lookup_ensure. destruct (decide (s = k)); [by eexists|auto].
  - intros _. split; [|done]. unfold no_new_objects; cbn. rewrite dom_ensure.
    apply elem_of_dom in Hm. set_solver.
Qed.

Lemma session_window_changed_reconciles args t : reconciled t (session_window_changed args t).
Proof.
  unfold session_window_changed. read_step. destruct a as [s w]. do 6 read_step.
  apply reconciled_resync_if.
  - by split.
  - intros Hc.
    eapply consistent_eq; [apply (ensure_session_consistent (λ x, x <| active_window := Some a1 |>) a
                (t <| windows := or_insert a1 (empty_window a1) (windows t) |>)); auto|reflexivity].
    + intros x v [= <-]. right. cbn. rewrite lookup_or_insert, decide_True by done. by eexists.
    + rewrite or_insert_alter_id. by apply ensure_window_consistent.
  - intros Hatt k Hk. cbn in Hk |- *. rewrite lookup_ensure. destruct (decide (k = a)); [by eexists|auto].
  - intros [Hs Hw]%orb_false_iff. split; [|done]. unfold no_new_objects; cbn.
    rewrite dom_ensure, dom_or_insert.
    apply missing_false, elem_of_dom in Hs. apply missing_false, elem_of_dom in Hw. set_solver.
Qed.

Lemma window_renamed_reconciles args t : reconciled t (window_renamed args t).
Proof.
  unfold window_renamed. read_step. destruct a as [w name]. do 4 read_step.
  apply reconciled_resync_if; [by split| |done|].
  - intros Hc. by apply (ensure_window_consistent (λ x, x <| window_name := a0 |>)).
  - intros Hw. split; [|done]. unfold no_new_objects; cbn. rewrite dom_ensure.
    apply missing_false, elem_of_dom in Hw. set_solver.
Qed.

Lemma window_pane_changed_reconciles args t : reconciled t (window_pane_changed args t).
Proof.
  unfold window_pane_changed. read_step. destruct a as [w p]. do 6 read_step.
  apply reconciled_resync_if; [by split| |done|].
  - intros Hc. eapply consistent_eq; [apply (ensure_pane_consistent a1 a (t <| windows :=
      alter (λ x, x <| active_pane := Some a1 |>) a (or_insert a (empty_window a) (windows t)) |>))|reflexivity].
    + cbn. rewrite lookup_ensure, decide_True by done. by eexists.
    + by apply (ensure_window_consistent (λ x, x <| active_pane := Some a1 |>)).
  - intros [Hw Hp]%orb_false_iff. split; [|done]. unfold no_new_objects; cbn.
    rewrite dom_ensure, dom_or_insert.
    apply missing_false, elem_of_dom in Hw. apply missing_false, elem_of_dom in Hp. set_solver.
Qed.

Lemma window_add_reconciles args t : reconciled t (window_add args t).
Proof.
  unfold window_add. do 3 read_step. apply reconciled_resync; [by split| |done].
  intros Hc. rewrite or_insert_alter_id. by apply ensure_window_consistent.
Qed.

Lemma attached_fmap (f : Session → Session) m (k : N) :
  is_Some (m !! k) → is_Some ((f <$> m : gmap N Session) !! k).
Proof. rewrite lookup_fmap. apply fmap_is_Some. Qed.

Lemma is_Some_alter {A} (f : A → A) (m : gmap N A) j k : is_Some (m !! k) → is_Some (alter f j m !! k).
Proof.
  destruct (decide (k = j)) as [->|]; [rewrite lookup_alter_eq; apply fmap_is_Some|by rewrite lookup_alter_ne].
Qed.

Lemma remove_window_reconciles w t t' :
  same_settings t t' → (consistent t → consistent t') → (attached_known t → attached_known t') →
  no_new_objects t t' → needs_resync t' = needs_resync t →
  reconciled t (remove_window w t', Ok Applied).
Proof.
  intros [] Hc Ha (Hs & Hw & Hp) Hr. split_and!.
  - split; [|done]. unfold no_new_objects; cbn. rewrite dom_fmap, dom_delete.
    split_and!; [done|set_solver|]. etrans; [|exact Hp]. apply dom_filter_subseteq.
  - by split.
  - intros H. by apply remove_window_consistent, Hc.
  - intros H k Hk. cbn. apply attached_fmap. by apply Ha.
Qed.

Lemma no_new_refl t : no_new_objects t t.
Proof. by split_and!. Qed.

Lemma unlink_window_no_new s w t : no_new_objects t (unlink_window s w t).
Proof. unfold no_new_objects, unlink_window; cbn. by rewrite !dom_alter_L. Qed.

Lemma close_attached_window_run args w t :
  single_field args = Ok args → parse_window_id args = Ok w →
  close_attached_window args t =
  match attached_session t with
  | None => require_resync t
  | Some s =>
      let t' := unlink_window s w t in
      (if match windows t' !! w with Some w => bool_decide (links w = ∅) | None => false end
       then remove_window w t' else t', Ok Applied)
  end.
Proof.
  intros Hs Hw. unfold close_attached_window. rewrite run_lift, Hs, run_lift, Hw, run_gets.
  destruct (attached_session t) as [s|]; [|done]. rewrite !run_modify, run_gets.
  cbv zeta. match goal with |- (_ ≫= _) ?x = _ => change x with (unlink_window s w t) end.
  by destruct (match windows _ !! w with Some _ => _ | None => _ end).
Qed.

Lemma single_field_same args a : single_field args = Ok a → a = args.
Proof. unfold single_field. by destruct (_ || _); intros [= ->]. Qed.

Lemma close_attached_window_reconciles args t : reconciled t (close_attached_window args t).
Proof.
  destruct (single_field args) as [a|] eqn:Ha; [|unfold close_attached_window; rewrite run_lift, Ha; apply reconciled_err].
  pose proof (single_field_same _ _ Ha) as ->.
  destruct (parse_window_id args) as [w|] eqn:Hw;
    [|unfold close_attached_window; rewrite run_lift, Ha, run_lift, Hw; apply reconciled_err].
  rewrite (close_attached_window_run _ _ _ Ha Hw).
  destruct (attached_session t) as [s|]; [|by apply reconciled_resync]. cbv zeta.
  pose proof (unlink_window_consistent s w t) as Hc.
  assert (same_settings t (unlink_window s w t)) as Hset by by split.
  assert (attached_known t → attached_known (unlink_window s w t)) as Hatt
    by (intros H k Hk; apply is_Some_alter; by apply H).
  pose proof (unlink_window_no_new s w t) as Hnew.
  destruct (match windows _ !! w with Some _ => _ | None => _ end).
  - by apply remove_window_reconciles.
  - by split_and!.
Qed.

Lemma unlinked_window_close_reconciles args t : reconciled t (unlinked_window_close args t).
Proof.
  unfold unlinked_window_close. do 3 read_step.
  destruct (match windows t !! _ with Some _ => _ | None => _ end); [by apply reconciled_resync|].
  rewrite run_modify. apply remove_window_reconciles; [by split|done|done|apply no_new_refl|done].
Qed.

Lemma apply_layout_change_reconciles args t : reconciled t (apply_layout_change args t).
Proof.
  unfold apply_layout_change. cbv zeta. do 10 read_step.
  apply reconciled_resync_if; [by split| |done|].
  - intros Hc. by apply (ensure_window_consistent
      (λ w, w <| layout := _ |> <| visible_layout := _ |> <| flags := _ |>)).
  - intros Hw. split; [|done]. unfold no_new_objects; cbn. rewrite dom_ensure.
    apply missing_false, elem_of_dom in Hw. set_solver.
Qed.

Lemma then_resync_reconciles (m : M ReconcileOutcome) t :
  reconciled t (m t) → reconciled t ((m ;; require_resync) t).
Proof.
  intros (Ho & Hs & Hc & Ha). unfold mbind, M_bind. destruct (m t) as [t' [o|e]]; [|done].
  by apply reconciled_resync.
Qed.

Lemma pane_exited_reconciles args t : reconciled t (pane_exited args t).
Proof.
  unfold pane_exited. do 3 read_step. split_and!.
  - split; [|done]. unfold no_new_objects; cbn. rewrite dom_fmap, dom_delete. set_solver.
  - by split.
  - apply remove_pane_consistent.
  - done.
Qed.

Lemma apply_notification_reconciles name args t : reconciled t (apply_notification name args t).
Proof.
  unfold apply_notification. cbv zeta.
  repeat match goal with |- context [if ?b then _ else _] => destruct b end;
    auto using reconciled_resync, session_changed_reconciles, session_renamed_reconciles,
      session_window_changed_reconciles, window_renamed_reconciles, window_pane_changed_reconciles,
      window_add_reconciles, close_attached_window_reconciles, unlinked_window_close_reconciles,
      then_resync_reconciles, apply_layout_change_reconciles, pane_exited_reconciles;
    try (by apply reconciled_resync).
  split_and!; [done|by split|done|done].
Qed.

(** ** Inventories *)

(** Follows a successful run through its fallible reads and its updates. *)
Ltac run_inv H :=
  repeat first
    [ rewrite run_lift in H;
      match type of H with
      | match ?r with _ => _ end = _ => destruct r eqn:?; [|discriminate H]
      end
    | rewrite run_gets in H | rewrite run_modify in H | rewrite run_assoc in H ];
  cbv beta in H.

Lemma mret_Ok {A} (a b : A) t t' : (mret a : M A) t = (t', Ok b) → t' = t.
Proof. by intros [= <- _]. Qed.

Lemma modify_Ok f b t t' : modify f t = (t', Ok b) → t' = f t.
Proof. by intros [= <- _]. Qed.

Lemma run_ret {A B} (a : A) (f : A → M B) t : (mret a ≫= f) t = f a t.
Proof. done. Qed.

Lemma alter_or_insert_new {A} (f : A → A) (m : gmap N A) k v :
  m !! k = None → alter f k (or_insert k v m) = <[k := f v]> m.
Proof.
  intros Hk. apply map_eq. intros j. rewrite lookup_ensure, Hk.
  destruct (decide (j = k)) as [->|]; [by rewrite lookup_insert_eq|by rewrite lookup_insert_ne].
Qed.

Lemma fail_not_Ok {A} e t t' (a : A) : fail e t = (t', Ok a) → False.
Proof. done. Qed.

Lemma inventory_session_consistent line t t' u :
  inventory_session line t = (t', Ok u) → consistent t → consistent t'.
Proof.
  intros H Hc. unfold inventory_session in H. run_inv H.
  destruct (bool_decide _) eqn:Hknown; [by apply fail_not_Ok in H|]. apply mret_Ok in H as ->.
  apply bool_decide_eq_false, eq_None_not_Some in Hknown.
  eapply consistent_eq; [apply (ensure_session_consistent (λ s, s <| session_name := a1 |>) a0 t); auto|].
  by rewrite alter_or_insert_new.
Qed.

(** One more place for a window: the session lists it and the window is linked. *)
Lemma add_link_consistent s S i w (x : Window) fS fW t :
  consistent t → sessions t !! s = Some S → session_windows S !! i = None →
  session_id (fS S) = session_id S → session_windows (fS S) = <[i := w]> (session_windows S) →
  (active_window (fS S) = active_window S ∨ active_window (fS S) = Some w) →
  window_id x = w → links x = ∅ →
  (∀ y, window_id (fW y) = window_id y) → (∀ y, links (fW y) = links y ∪ {[(s, i)]}) →
  consistent (t <| sessions := <[s := fS S]> (sessions t) |>
                <| windows := alter fW w (or_insert w x (windows t)) |>).
Proof.
  intros [Hs Hw Hp Hpw Hl Ha Hb Ht] HS Hi HidS HwS HaS Hx Hlx HidW HlW.
  assert (∀ k, is_Some (windows t !! k) → is_Some (alter fW w (or_insert w x (windows t)) !! k)) as Hmono.
  { intros k Hk. rewrite lookup_ensure. destruct (decide (k = w)); [by eexists|done]. }
  split; cbn; try done.
  - intros k y. destruct (decide (k = s)) as [->|].
    + rewrite lookup_insert_eq. intros [= <-]. rewrite HidS. eauto.
    + rewrite lookup_insert_ne by done. eauto.
  - intros k y. rewrite lookup_ensure. destruct (decide (k = w)) as [->|]; [|eauto].
    intros [= <-]. rewrite HidW. destruct (windows t !! w) eqn:E; simpl; eauto.
  - eauto.
  - intros s' i' k.
    trans (lists t s' i' k ∨ (s' = s ∧ i' = i ∧ k = w)); [|rewrite (Hl s' i' k)]; unfold lists, linked; cbn.
    + destruct (decide (s' = s)) as [->|].
      * rewrite lookup_insert_eq, HS. split.
        -- intros (y & [= <-] & Hy). rewrite HwS in Hy. apply lookup_insert_Some in Hy as [[-> ->]|[Hne Hy]]; [by right|].
           left. eauto.
        -- intros [(y & [= <-] & Hy)|(_ & -> & ->)]; eexists; (split; [done|]); rewrite HwS.
           ++ rewrite lookup_insert_ne; [done|congruence].
           ++ apply lookup_insert_eq.
      * rewrite lookup_insert_ne by done. naive_solver.
    + rewrite lookup_ensure. destruct (decide (k = w)) as [->|]; [|naive_solver]. split.
      * intros [(y & Hy & Hin)|(-> & -> & _)].
        -- rewrite Hy. eexists. split; [done|]. simpl. rewrite HlW. set_solver.
        -- eexists. split; [done|]. rewrite HlW. set_solver.
      * intros (y & [= <-] & Hin). rewrite HlW in Hin. apply elem_of_union in Hin as [Hin|Hin].
        -- destruct (windows t !! w) as [y|]; simpl in Hin; [left; by exists y|]. rewrite Hlx in Hin. set_solver.
        -- apply elem_of_singleton in Hin. right. by injection Hin as -> ->.
  - intros k y v. destruct (decide (k = s)) as [->|]; [rewrite lookup_insert_eq|rewrite lookup_insert_ne by done; eauto].
    intros [= <-] Hv. destruct HaS as [HaS|HaS]; rewrite HaS in Hv; [eauto|]. injection Hv as <-.
    rewrite lookup_ensure, decide_True by done. by eexists.
Qed.

Lemma inventory_window_consistent line t t' u :
  inventory_window line t = (t', Ok u) → consistent t → consistent t'.
Proof.
  intros H Hc. unfold inventory_window in H. run_inv H.
  repeat match goal with H : ok_or _ _ = Ok _ |- _ => apply ok_or_Ok in H end.
  destruct (decide _) as [|Hfree]; [by apply fail_not_Ok in H|]. apply eq_None_not_Some in Hfree.
  set (x := Build_Window _ _ _ _ _ _ _) in H.
  set (fW := λ w, w <| flags := _ |> <| links := links w ∪ _ |>) in H.
  set (set_windows := λ S, S <| session_windows := <[a2 := a1]> (session_windows S) |>).
  set (fS := λ S, if a3 then (set_windows S) <| active_window := Some a1 |> else set_windows S).
  eapply consistent_eq; [apply (add_link_consistent a0 a8 a2 a1 x fS fW t)|]; try done.
  1,2: unfold fS; by destruct a3.
  { unfold fS. destruct a3; auto. }
  destruct a3; rewrite ?run_ret, ?run_modify, run_gets in H;
    (match type of H with (if ?b then _ else _) _ = _ => destruct b end; [by apply fail_not_Ok in H|]);
    apply modify_Ok in H as ->; [|done]. cbn. by rewrite alter_insert_eq.
Qed.

Lemma alter_window_consistent f w t :
  is_Some (windows t !! w) → (∀ x, window_id (f x) = window_id x) → (∀ x, links (f x) = links x) →
  consistent t → consistent (t <| windows := alter f w (windows t) |>).
Proof.
  intros Hw Hid Hl Hc. rewrite <-(or_insert_known w (empty_window w) (windows t)) by done.
  by apply ensure_window_consistent.
Qed.

Lemma new_pane_consistent p t :
  is_Some (windows t !! pane_window p) → consistent t →
  consistent (t <| panes := <[pane_id p := p]> (panes t) |>).
Proof.
  intros Hw [Hs Hwi Hp Hpw Hl Ha Hb Ht]. split; cbn; try done;
    intros k x [[<- <-]|[_ Hx]]%lookup_insert_Some; eauto.
Qed.

Lemma inventory_pane_consistent line t t' u :
  inventory_pane line t = (t', Ok u) → consistent t → consistent t'.
Proof.
  intros H Hc. unfold inventory_pane in H. run_inv H. destruct a as [p active]. run_inv H.
  match goal with H : ok_or _ _ = Ok _ |- _ => apply ok_or_Ok in H; rename H into Hw end.
  set (t1 := if active then t <| windows := alter (λ w, w <| active_pane := Some (pane_id p) |>)
                                  (pane_window p) (windows t) |> else t).
  assert (consistent t1) as H1.
  { unfold t1. destruct active; [|done]. apply alter_window_consistent; eauto. }
  assert (is_Some (windows t1 !! pane_window p)) as Hw1.
  { unfold t1. destruct active; cbn; [apply is_Some_alter|]; eauto. }
  assert ((existing ← gets (λ t, panes t !! pane_id p);
    match existing with
    | Some existing => if decide (existing = p) then mret tt
                       else fail (ContradictoryInventory "linked pane metadata differs")
    | None => modify (λ t, t <| panes := <[pane_id p := p]> (panes t) |>)
    end) t1 = (t', Ok u)) as H' by (by destruct active).
  clear H. rewrite run_gets in H'. destruct (panes t1 !! pane_id p).
  - destruct (decide _); [|by apply fail_not_Ok in H']. by apply mret_Ok in H' as ->.
  - apply modify_Ok in H' as ->. by apply new_pane_consistent.
Qed.

Lemma consistent_host h t : consistent t → consistent (t <| host := h |>).
Proof. by intros []. Qed.
Lemma consistent_options o t : consistent t → consistent (t <| options := o |>).
Proof. by intros []. Qed.
Lemma consistent_client_info o t : consistent t → consistent (t <| client_info := o |>).
Proof. by intros []. Qed.

Lemma inventory_attached_consistent line t t' u :
  inventory_attached line t = (t', Ok u) → consistent t → consistent t'.
Proof.
  intros H Hc. unfold inventory_attached in H. run_inv H.
  destruct (decide _); [by apply fail_not_Ok in H|].
  destruct (2 <=? count_tabs line)%nat.
  - run_inv H. match type of H with (if ?b then _ else _) _ = _ => destruct b end; [by apply fail_not_Ok in H|].
    apply modify_Ok in H as ->. by apply consistent_host, consistent_attached.
  - apply mret_Ok in H as ->. by apply consistent_attached.
Qed.

Lemma inventory_key_value_consistent line o t t' u :
  inventory_key_value line o t = (t', Ok u) → consistent t → consistent t'.
Proof.
  intros H Hc. unfold inventory_key_value in H. run_inv H.
  destruct (bool_decide _); [by apply fail_not_Ok in H|]. run_inv H.
  destruct (decide _); [by apply fail_not_Ok in H|]. apply mret_Ok in H as ->.
  destruct o; [by apply consistent_options|by apply consistent_client_info].
Qed.

Lemma insert_binding_consistent b t t' u :
  validate_binding (table b) (key b) (command b) = Ok tt →
  insert_binding b t = (t', Ok u) → consistent t → consistent t'.
Proof.
  intros Hv H [Hs Hw Hp Hpw Hl Ha Hb Ht]. unfold insert_binding in H. run_inv H.
  destruct (bool_decide _) eqn:Hprefix; run_inv H;
    (destruct (decide _); [by apply fail_not_Ok in H|]); apply mret_Ok in H as ->; split; cbn; try done.
  - apply bool_decide_eq_true in Hprefix. intros k b' [[<- <-]|[_ Hk]]%lookup_insert_Some; eauto.
  - apply bool_decide_eq_false in Hprefix.
    intros tb m k b' [[<- <-]|[_ Hm]]%lookup_insert_Some Hk; [|eauto].
    apply lookup_insert_Some in Hk as [[<- <-]|[_ Hk]]; [done|].
    destruct (key_tables t !! table b) as [m|] eqn:E; [by eapply Ht|]. simpl in Hk. by rewrite lookup_empty in Hk.
Qed.

Lemma inventory_binding_consistent line t t' u :
  inventory_binding line t = (t', Ok u) → consistent t → consistent t'.
Proof.
  intros H. unfold inventory_binding in H. cbv zeta in H. run_inv H.
  revert H. apply insert_binding_consistent. cbn. by destruct a3.
Qed.

Lemma parse_legacy_binding_valid line b :
  parse_legacy_binding line = Ok b → validate_binding (table b) (key b) (command b) = Ok tt.
Proof.
  unfold parse_legacy_binding. intros H.
  repeat (result_inv; repeat match goal with
    | H : (match ?p with (_, _) => _ end) = Ok _ |- _ => destruct p end).
  all: cbn; by match goal with H : validate_binding _ _ _ = Ok ?u |- _ => destruct u; exact H end.
Qed.

Lemma inventory_legacy_binding_consistent line t t' u :
  inventory_legacy_binding line t = (t', Ok u) → consistent t → consistent t'.
Proof.
  intros H. unfold inventory_legacy_binding in H. run_inv H. revert H.
  apply insert_binding_consistent. by eapply parse_legacy_binding_valid.
Qed.

Lemma apply_inventory_line_consistent line t t' u :
  apply_inventory_line line t = (t', Ok u) → consistent t → consistent t'.
Proof.
  unfold apply_inventory_line. intros H.
  repeat match type of H with (match ?x with _ => _ end) _ = _ => destruct x end;
    first [ by apply fail_not_Ok in H
          | by eapply inventory_session_consistent | by eapply inventory_window_consistent
          | by eapply inventory_pane_consistent | by eapply inventory_attached_consistent
          | by eapply inventory_key_value_consistent | by eapply inventory_binding_consistent
          | by eapply inventory_legacy_binding_consistent ].
Qed.

Lemma apply_inventory_lines_consistent lines t t' u :
  apply_inventory_lines lines t = (t', Ok u) → consistent t → consistent t'.
Proof.
  revert t. induction lines as [|line lines IH]; intros t H Hc; cbn [apply_inventory_lines] in H.
  - by apply mret_Ok in H as ->.
  - apply run_Ok in H as (t1 & [] & H1 & H2). eauto using apply_inventory_line_consistent.
Qed.

Lemma new_consistent id : consistent (topology_new id).
Proof.
  split; cbn; intros *; rewrite ?lookup_empty; try done.
  unfold lists, linked; cbn. setoid_rewrite lookup_empty. naive_solver.
Qed.

Lemma consistent_label l t : consistent t → consistent (t <| label := l |>).
Proof. by intros []. Qed.

Lemma replace_inventory_consistent lines t : consistent t → consistent (replace_inventory lines t).1.
Proof.
  intros Hc. unfold replace_inventory. cbv zeta.
  destruct (apply_inventory_lines _ _) as [next [u|e]] eqn:E; [|done].
  destruct (validate_inventory next); [|done]. eapply apply_inventory_lines_consistent; [exact E|].
  by apply consistent_label, new_consistent.
Qed.

Lemma replace_inventory_attached lines t :
  attached_known t → attached_known (replace_inventory lines t).1.
Proof.
  intros Hc. unfold replace_inventory. cbv zeta.
  destruct (apply_inventory_lines _ _) as [next [u|e]]; [|done].
  destruct (validate_inventory next) eqn:E; [|done]. intros s Hs. cbn in Hs. unfold validate_inventory in E.
  rewrite Hs in E. destruct (bool_decide _) eqn:Hb; [done|].
  by apply bool_decide_eq_false, not_eq_None_Some in Hb.
Qed.

(** An inventory keeps the identity and the label of the connection. *)
Definition keeps_identity {A} (m : M A) : Prop :=
  ∀ t, connection_id (m t).1 = connection_id t ∧ label (m t).1 = label t.

Lemma keeps_bind {A B} (m : M A) (f : A → M B) :
  keeps_identity m → (∀ a, keeps_identity (f a)) → keeps_identity (m ≫= f).
Proof.
  intros Hm Hf t. unfold mbind, M_bind. specialize (Hm t). destruct (m t) as [t' [a|e]]; [|done].
  destruct (Hf a t'), Hm. simpl in *. split; congruence.
Qed.
Lemma keeps_lift {A} (r : result TopologyError A) : keeps_identity (lift r).
Proof. done. Qed.
Lemma keeps_gets {A} (f : TmuxTopology → A) : keeps_identity (gets f).
Proof. done. Qed.
Lemma keeps_fail {A} e : keeps_identity (@fail A e).
Proof. done. Qed.
Lemma keeps_ret {A} (a : A) : keeps_identity (mret a : M A).
Proof. done. Qed.
Lemma keeps_modify f :
  (∀ t, connection_id (f t) = connection_id t ∧ label (f t) = label t) → keeps_identity (modify f).
Proof. done. Qed.
Lemma keeps_if {A} (b : bool) (m n : M A) :
  keeps_identity m → keeps_identity n → keeps_identity (if b then m else n).
Proof. by destruct b. Qed.
Lemma keeps_decide {A} P `{Decision P} (m n : M A) :
  keeps_identity m → keeps_identity n → keeps_identity (if decide P then m else n).
Proof. by destruct (decide P). Qed.
Create HintDb keeps.
#[local] Hint Resolve keeps_lift keeps_gets keeps_fail keeps_ret : keeps.

Ltac keeps :=
  repeat first
    [ progress intros
    | match goal with
      | |- keeps_identity (match ?x with _ => _ end) => destruct x
      | |- keeps_identity (_ ≫= _) => apply keeps_bind
      | |- keeps_identity (if _ then _ else _) => first [apply keeps_if | apply keeps_decide]
      end
    | match goal with |- keeps_identity (modify _) => apply keeps_modify end
    | solve [auto 2 with keeps] | done ].

Lemma insert_binding_keeps b : keeps_identity (insert_binding b).
Proof. unfold insert_binding. keeps. Qed.
#[local] Hint Resolve insert_binding_keeps : keeps.

Lemma apply_inventory_line_keeps line : keeps_identity (apply_inventory_line line).
Proof.
  unfold apply_inventory_line, inventory_session, inventory_window, inventory_pane, inventory_attached,
    inventory_key_value, inventory_binding, inventory_legacy_binding. keeps.
Qed.

Lemma apply_inventory_lines_keeps lines : keeps_identity (apply_inventory_lines lines).
Proof.
  induction lines; cbn [apply_inventory_lines]; keeps; auto using apply_inventory_line_keeps.
Qed.

Lemma replace_inventory_identity lines t :
  connection_id (replace_inventory lines t).1 = connection_id t ∧
  label (replace_inventory lines t).1 = label t.
Proof.
  unfold replace_inventory. cbv zeta.
  set (start := (topology_new _) <| label := _ |>).
  destruct (apply_inventory_lines_keeps lines start) as [Hc Hl].
  destruct (apply_inventory_lines lines start) as [next [u|e]]; [|done].
  by destruct (validate_inventory next).
Qed.

Lemma clear_native_copy_mode_consistent p t : consistent t → consistent (clear_native_copy_mode p t).
Proof. apply alter_pane_consistent; intros x; by case_bool_decide. Qed.

Lemma update_pane_capture_metadata_consistent m t :
  consistent t → consistent (update_pane_capture_metadata m t).1.
Proof.
  intros Hc. unfold update_pane_capture_metadata. rewrite run_gets, run_lift.
  destruct (ok_or _ _); [|done]. by apply alter_pane_consistent.
Qed.

Lemma set_label_consistent l t : consistent t → consistent (set_label l t).1.
Proof. unfold set_label. destruct (_ || _); [done|]. apply consistent_label. Qed.

(** ** Key bindings as tmux prints them *)

(** [lexeme quote printed token]: the ways to print a token from inside the
    given quotes: plain bytes, escaped bytes and quoted stretches. *)
Inductive lexeme : option byte → bytes → bytes → Prop :=
| lex_end : lexeme None [] []
| lex_plain b r t :
    is_ascii_whitespace b = false → b ≠ 92 → b ≠ 39 → b ≠ 34 →
    lexeme None r t → lexeme None (b :: r) (b :: t)
| lex_quoted c b r t : b ≠ 92 → b ≠ c → lexeme (Some c) r t → lexeme (Some c) (b :: r) (b :: t)
| lex_escape q b r t : lexeme q r t → lexeme q (92 :: b :: r) (b :: t)
| lex_open c r t : c = 39 ∨ c = 34 → lexeme (Some c) r t → lexeme None (c :: r) t
| lex_close c r t : c = 39 ∨ c = 34 → lexeme None r t → lexeme (Some c) (c :: r) t.

Lemma lex_token_lexeme q r t acc rest :
  lexeme q r t → acc ++ t ≠ [] → lex_token q acc (r ++ SP :: rest) = Ok (acc ++ t, SP :: rest).
Proof.
  intros H. revert acc. induction H as [|b r t Hws H1 H2 H3 _ IH|c b r t H1 H2 _ IH|q b r t _ IH
    |c r t Hc _ IH|c r t Hc _ IH]; intros acc Hne.
  - rewrite app_nil_r in *. cbn [app lex_token]. simpl. by rewrite bool_decide_eq_false_2.
  - cbn [app lex_token]. rewrite Hws, (proj2 (N.eqb_neq _ _) H1), (proj2 (N.eqb_neq _ _) H2),
      (proj2 (N.eqb_neq _ _) H3). simpl. rewrite IH by (by destruct acc). by rewrite <-app_assoc.
  - cbn [app lex_token]. rewrite (proj2 (N.eqb_neq _ _) H1).
    rewrite (bool_decide_eq_false_2 (Some c = Some b)) by congruence.
    rewrite !(bool_decide_eq_false_2 (Some c = None)) by done. simpl. rewrite ?andb_false_r.
    rewrite IH by (by destruct acc). by rewrite <-app_assoc.
  - cbn [app lex_token]. rewrite andb_false_r. simpl. rewrite IH by (by destruct acc). by rewrite <-app_assoc.
  - cbn [app lex_token]. rewrite (bool_decide_eq_false_2 (None = Some c)) by done.
    rewrite (bool_decide_eq_true_2 (@None byte = None)) by done.
    destruct Hc as [-> | ->]; simpl; by apply IH.
  - cbn [app lex_token]. rewrite (bool_decide_eq_true_2 (Some c = Some c)) by done.
    destruct Hc as [-> | ->]; simpl; by apply IH.
Qed.

Lemma lexeme_head q r t : lexeme q r t → q = None → t ≠ [] → ∃ b r', r = b :: r' ∧ is_ascii_whitespace b = false.
Proof.
  intros H Hq Ht. destruct H as [|b r t Hws| |q b r t|c r t Hc|]; try done; eexists _, _; (split; [done|]).
  - done.
  - done.
  - by destruct Hc as [-> | ->].
Qed.

Lemma lexer_token_lexeme r t rest :
  lexeme None r t → t ≠ [] → lexer_token (SP :: r ++ SP :: rest) = Ok (t, SP :: rest).
Proof.
  intros H Ht. destruct (lexeme_head _ _ _ H eq_refl Ht) as (b & r' & -> & Hb).
  unfold lexer_token, lexer_next. cbn [skip_whitespace app].
  change (is_ascii_whitespace SP) with true. cbv iota. rewrite Hb.
  pose proof (lex_token_lexeme None _ t [] rest H Ht) as Hl. cbn [app] in Hl. by rewrite Hl.
Qed.

(** * Properties *)

(** Every topology a connection can have: an error keeps what the method left. *)
Inductive reachable (id : N) : TmuxTopology → Prop :=
| reach_new : reachable id (topology_new id)
| reach_label t l : reachable id t → reachable id (set_label l t).1
| reach_inventory t lines : reachable id t → reachable id (replace_inventory lines t).1
| reach_notification t name args : reachable id t → reachable id (apply_notification name args t).1
| reach_mark t : reachable id t → reachable id (mark_resync_required t)
| reach_clear t p : reachable id t → reachable id (clear_native_copy_mode p t)
| reach_capture t m : reachable id t → reachable id (update_pane_capture_metadata m t).1.

(** C7. Whatever inventories, notifications and captures arrive, accepted or
    rejected, the topology stays consistent: objects are stored under their
    own identifiers, every pane's window and every active window is known,
    sessions and windows agree on every link, the attached session is known,
    and every binding is valid and stored under its table and key. *)
Theorem reachable_topologies_are_consistent id t :
  reachable id t → consistent t ∧ attached_known t ∧ connection_id t = id.
Proof.
  intros H. induction H as [|t l _ (Hc & Ha & Hid)|t lines _ (Hc & Ha & Hid)|t name args _ (Hc & Ha & Hid)
    |t _ (Hc & Ha & Hid)|t p _ (Hc & Ha & Hid)|t m _ (Hc & Ha & Hid)].
  - split_and!; [apply new_consistent|done|done].
  - split_and!; [by apply set_label_consistent| |]; unfold set_label; by destruct (_ || _).
  - split_and!; [by apply replace_inventory_consistent|by apply replace_inventory_attached|].
    destruct (replace_inventory_identity lines t). congruence.
  - destruct (apply_notification_reconciles name args t) as (_ & Hs & Hc' & Ha').
    split_and!; [auto|auto|]. by rewrite (same_connection _ _ Hs).
  - split_and!; [by apply (consistent_resync true)|done|done].
  - split_and!; [by apply clear_native_copy_mode_consistent|done|done].
  - split_and!; [by apply update_pane_capture_metadata_consistent| |]; unfold update_pane_capture_metadata;
      rewrite run_gets, run_lift; by destruct (ok_or _ _).
Qed.

(** C24. A rejected label, inventory, notification or capture leaves the topology
    exactly as it was, and so does an ignored notification.  A notification
    that was applied without asking for a resync introduced no session, window
    or pane and left the resync flag alone; one that asks for a resync sets the
    flag.  So an object the topology does not know only ever enters it together
    with the flag (closing an unknown object is applied: there is nothing to
    learn about it).  No notification touches the connection's settings,
    options or bindings. *)
Theorem rejected_input_changes_nothing t l lines name args m :
  (∀ e, (set_label l t).2 = Err e → (set_label l t).1 = t) ∧
  (∀ e, (replace_inventory lines t).2 = Err e → (replace_inventory lines t).1 = t) ∧
  (∀ e, (update_pane_capture_metadata m t).2 = Err e → (update_pane_capture_metadata m t).1 = t) ∧
  let '(t', r) := apply_notification name args t in
  same_settings t t' ∧
  match r with
  | Err _ | Ok Ignored => t' = t
  | Ok Applied => no_new_objects t t' ∧ needs_resync t' = needs_resync t
  | Ok ResyncRequired => needs_resync t' = true
  end.
Proof.
  split_and!.
  - intros e. unfold set_label. by destruct (_ || _).
  - intros e. unfold replace_inventory. cbv zeta.
    destruct (apply_inventory_lines _ _) as [? []]; [|done]. by destruct (validate_inventory _).
  - intros e. unfold update_pane_capture_metadata. rewrite run_gets, run_lift. by destruct (ok_or _ _).
  - destruct (apply_notification_reconciles name args t) as (Ho & Hs & _).
    destruct (apply_notification name args t) as [t' r]. by split.
Qed.

Definition attached_to (session : N) (w : Window) : bool :=
  forallb (λ link, link.1 =? session) (elements (links w)).

(** Closing a window of the attached session takes it out of that session
    only.  When no other session links it, the window and its panes go, no
    session lists it or has it active, and every other window, pane, listing
    and active window stays; otherwise the window keeps its panes and exactly
    its links from the other sessions. *)
Theorem closing_a_window_is_exact t args w W s :
  attached_session t = Some s → windows t !! w = Some W →
  single_field args = Ok args → parse_window_id args = Ok w →
  let '(t', r) := apply_notification (bs "window-close") args t in
  let gone := attached_to s W in
  r = Ok Applied ∧
  (∀ k, windows t' !! k = if decide (k = w) then
     if gone then None else Some (W <| links := filter (λ link, link.1 ≠ s) (links W) |>)
   else windows t !! k) ∧
  (∀ k p, panes t' !! k = Some p ↔ panes t !! k = Some p ∧ (gone = true → pane_window p ≠ w)) ∧
  (∀ k i x, lists t' k i x ↔ lists t k i x ∧ (k = s ∨ gone = true → x ≠ w)) ∧
  (∀ k S', sessions t' !! k = Some S' → ∃ S, sessions t !! k = Some S ∧ session_name S' = session_name S ∧
     ∀ x, active_window S' = Some x ↔ active_window S = Some x ∧ (k = s ∨ gone = true → x ≠ w)).
Proof.
  intros Hs HW Ha Hw. change (apply_notification _ args) with (close_attached_window args).
  rewrite (close_attached_window_run _ _ _ Ha Hw), Hs. cbv zeta.
  set (W' := W <| links := filter (λ link, link.1 ≠ s) (links W) |>).
  assert (windows (unlink_window s w t) !! w = Some W') as HW'
    by (unfold unlink_window; cbn; by rewrite lookup_alter_eq, HW).
  rewrite HW'.
  assert (bool_decide (links W' = ∅) = attached_to s W) as ->.
  { apply eq_true_iff_eq. unfold attached_to. rewrite bool_decide_eq_true, forallb_Forall, Forall_forall.
    unfold W'; cbn. setoid_rewrite elem_of_elements. setoid_rewrite N.eqb_eq. split.
    - intros He x Hx. destruct (decide (x.1 = s)) as [|Hne]; [done|]. exfalso.
      assert (x ∈ (∅ : gset (N * N))) as Hx' by (rewrite <-He; by apply elem_of_filter). set_solver.
    - intros Hall. apply set_eq. intros x. rewrite elem_of_filter. split; [|set_solver].
      intros [Hne Hx]. by apply Hall in Hx. }
  pose proof (lists_unlink s w t) as Hlists.
  destruct (attached_to s W); split_and!; try done.
  - intros k. cbn. destruct (decide (k = w)) as [->|]; [by rewrite lookup_delete_eq|].
    by rewrite lookup_delete_ne, lookup_alter_ne by done.
  - intros k p. cbn. rewrite map_lookup_filter_Some. simpl. naive_solver.
  - intros k i x. rewrite lists_remove, Hlists. naive_solver.
  - intros k S'. cbn. rewrite lookup_fmap. intros (S & HS & ->)%fmap_Some.
    apply lookup_alter_Some in HS as [(<- & S0 & HS & ->)|[Hne HS]].
    + exists S0. split_and!; [done|done|]. intros x. rewrite !active_forget. naive_solver.
    + exists S. split_and!; [done|done|]. intros x. rewrite active_forget. naive_solver.
  - intros k. cbn. destruct (decide (k = w)) as [->|]; [by rewrite lookup_alter_eq, HW|by rewrite lookup_alter_ne].
  - intros k p. cbn. naive_solver.
  - intros k i x. rewrite Hlists. naive_solver.
  - intros k S' HS. cbn in HS. apply lookup_alter_Some in HS as [(<- & S0 & HS & ->)|[Hne HS]].
    + exists S0. split_and!; [done|done|]. intros x. rewrite active_forget. naive_solver.
    + exists S'. split_and!; [done|done|]. naive_solver.
Qed.

(** A key binding is read back from every way tmux prints it: the table and
    the key from any mixture of plain, escaped and quoted bytes, the repeat
    flag, and the command byte for byte; a [-n] binding lies in the root
    table. *)
Theorem legacy_binding_roundtrip b (root : bool) pt pk :
  validate_binding (table b) (key b) (command b) = Ok tt →
  utf8_valid (table b) = true → utf8_valid (key b) = true → utf8_valid (command b) = true →
  skip_whitespace (command b) = command b →
  lexeme None pt (table b) → lexeme None pk (key b) →
  (root = true → table b = bs "root") →
  parse_legacy_binding
    (bs "bind-key" ++ (if repeatable b then bs " -r" else []) ++
     (if root then bs " -n" else bs " -T " ++ pt) ++ SP :: pk ++ SP :: command b) = Ok b.
Proof.
  intros Hv Hut Huk Huc Hcmd Ht Hk Hroot. destruct b as [tb k rep cmd]; cbn [table key repeatable command] in *.
  assert (tb ≠ [] ∧ k ≠ [] ∧ cmd ≠ []) as (Htb & Hkn & Hcn).
  { unfold validate_binding in Hv. destruct (_ || _) eqn:E in Hv; [done|].
    rewrite !orb_false_iff, !bool_decide_eq_false in E. naive_solver. }
  assert (∀ rest, lexer_next (bs "bind-key" ++ SP :: rest) = Ok (Some (bs "bind-key"), SP :: rest)) as Hbind
    by (intros rest; bs_compute; by vm_compute).
  assert (∀ rest, lexer_token (bs " -r" ++ SP :: rest) = Ok (bs "-r", SP :: rest)) as Hr
    by (intros rest; by vm_compute).
  assert (∀ rest, lexer_token (bs " -n" ++ SP :: rest) = Ok (bs "-n", SP :: rest)) as Hn
    by (intros rest; by vm_compute).
  assert (∀ rest, lexer_token (bs " -T" ++ SP :: rest) = Ok (bs "-T", SP :: rest)) as HT
    by (intros rest; by vm_compute).
  assert (lexer_remainder (SP :: cmd) = Ok cmd) as Hrem.
  { unfold lexer_remainder. cbn [skip_whitespace]. change (is_ascii_whitespace SP) with true. cbv iota.
    by rewrite Hcmd, bool_decide_eq_false_2. }
  assert (text tb "binding table" = Ok tb ∧ text k "binding key" = Ok k ∧ text cmd "binding command" = Ok cmd)
    as (H1 & H2 & H3) by (unfold text; by rewrite Hut, Huk, Huc).
  set (rest := pk ++ SP :: cmd).
  assert (lexer_token (SP :: rest) = Ok (k, SP :: cmd)) as Hkey by by apply lexer_token_lexeme.
  set (options := if root then bs " -n" else bs " -T " ++ pt).
  assert (∃ token rest', lexer_token (options ++ SP :: rest) = Ok (token, rest') ∧ token ≠ bs "-r" ∧
    (if bool_decide (token = bs "-T") then lexer_token rest'
     else if bool_decide (token = bs "-n") then Ok (bs "root", rest')
     else Err MalformedInventory) = Ok (tb, SP :: rest)) as (token & rest' & Hopt & Hne & Htable).
  { unfold options. destruct root.
    - eexists _, _. split; [apply Hn|]. split; [done|]. by rewrite Hroot.
    - exists (bs "-T"), (SP :: pt ++ SP :: rest). split; [exact (HT (pt ++ SP :: rest))|].
      split; [done|]. by apply lexer_token_lexeme. }
  assert (∃ tail, options ++ SP :: rest = SP :: tail) as [tail Htail] by (destruct root; by eexists).
  unfold parse_legacy_binding. destruct rep; cbv iota.
  - change (bs "bind-key" ++ bs " -r" ++ options ++ SP :: rest) with
      (bs "bind-key" ++ SP :: (bs "-r" ++ options ++ SP :: rest)).
    rewrite Hbind. unfold mbind, result_bind. rewrite bool_decide_eq_false_2 by auto.
    change (SP :: bs "-r" ++ options ++ SP :: rest) with (bs " -r" ++ options ++ SP :: rest).
    rewrite Htail, Hr, <-Htail. rewrite (bool_decide_eq_true_2 (bs "-r" = bs "-r")) by done.
    by rewrite Hopt, Htable, Hkey, Hrem, H1, H2, H3, Hv.
  - change (bs "bind-key" ++ [] ++ options ++ SP :: rest) with (bs "bind-key" ++ options ++ SP :: rest).
    rewrite Htail, Hbind, <-Htail. unfold mbind, result_bind. rewrite bool_decide_eq_false_2 by auto.
    rewrite Hopt. rewrite (bool_decide_eq_false_2 (token = bs "-r")) by done.
    by rewrite Htable, Hkey, Hrem, H1, H2, H3, Hv.
Qed.

(** * Examples *)

Definition sample_inventory : list bytes :=
  rs <$> ["S\t$1\tmain"; "S\t$2\tside"; "W\t$1\t@1\t0\t1\tlay\tlay\t*\tshell";
          "W\t$1\t@2\t1\t0\tlay\tlay\t-\tedit"; "W\t$2\t@2\t0\t1\tlay\tlay\t*\tedit";
          "P\t@1\t%1\t0\t1\t0\t0\t80\t24\t0\ttop"; "P\t@2\t%2\t0\t1\t0\t0\t80\t24\t0\tvi";
          "A\t$1\thost"; "O\tprefix\tC-b"; "bind-key -r -T prefix 'C-o' rotate-window -D"]%string.

Definition sample : TmuxTopology := (replace_inventory sample_inventory (topology_new 7)).1.

Definition notified (t : TmuxTopology) (events : list (string * string)) : TmuxTopology :=
  foldl (λ t event, (apply_notification (bs event.1) (bs event.2) t).1) t events.

Lemma reachable_notified id t events : reachable id t → reachable id (notified t events).
Proof.
  revert t. induction events as [|[name args] events IH]; intros t Ht; [done|].
  apply IH. by apply reach_notification.
Qed.

Example sample_is_accepted :
  (replace_inventory sample_inventory (topology_new 7)).2 = Ok tt ∧
  (accessible_title <$> attached_location sample) = Some (bs "tmux, main, 0: shell") ∧
  (command <$> binding_in_table (bs "prefix") (bs "C-o") sample) = Some (bs "rotate-window -D").
Proof. vm_compute. done. Qed.

Lemma reachable_topologies_are_consistent_witness :
  consistent (notified sample [("window-close", "@1"); ("pane-exited", "%2")]%string).
Proof.
  refine (proj1 (reachable_topologies_are_consistent 7 _ _)).
  apply reachable_notified, reach_inventory, reach_new.
Defined.

Lemma closing_a_window_is_exact_witness :
  let '(t', r) := apply_notification (bs "window-close") (bs "@1") sample in
  r = Ok Applied ∧ windows t' !! 1 = None ∧ panes t' !! 1 = None.
Proof.
  assert (attached_to 1 <$> windows sample !! 1 = Some true) as E by (vm_compute; reflexivity).
  apply fmap_Some in E as (W & EW & Hgone).
  assert (attached_session sample = Some 1) as H1 by (vm_compute; reflexivity).
  assert (single_field (bs "@1") = Ok (bs "@1")) as H2 by (vm_compute; reflexivity).
  assert (parse_window_id (bs "@1") = Ok 1) as H3 by (vm_compute; reflexivity).
  assert (pane_window <$> panes sample !! 1 = Some 1) as HP by (vm_compute; reflexivity).
  pose proof (closing_a_window_is_exact sample (bs "@1") 1 W 1 H1 EW H2 H3) as H.
  revert EW H1 HP H. generalize sample. intros t EW H1 HP H.
  destruct (apply_notification (bs "window-close") (bs "@1") t) as [t' r].
  cbv zeta in H. rewrite <-Hgone in H. destruct H as (Hr & Hw & Hp & _).
  split_and!; [done|by rewrite (Hw 1), decide_True by done|].
  apply eq_None_not_Some. intros [p Hpp]. apply Hp in Hpp as [Hpp Hne].
  rewrite Hpp in HP. injection HP as HP. by apply Hne.
Defined.

Lemma legacy_binding_roundtrip_witness :
  parse_legacy_binding (bs "bind-key -r -T 'prefix' \; select-pane -t :.+") =
  Ok {| table := bs "prefix"; key := bs ";"; repeatable := true; command := bs "select-pane -t :.+" |}.
Proof.
  apply (legacy_binding_roundtrip
    {| table := bs "prefix"; key := bs ";"; repeatable := true; command := bs "select-pane -t :.+" |}
    false (bs "'prefix'") (bs "\;")); try (vm_compute; reflexivity); cbn [table key].
  - apply (lex_open 39); [by left|]. bs_compute. do 6 (apply lex_quoted; [done..|]).
    apply lex_close; [by left|]. apply lex_end.
  - apply lex_escape, lex_end.
  - done.
Defined.

(** A pane that moves to another window before its old window closes is removed
    with the old window, and stays the new window's active pane. *)
Example moved_pane_is_lost :
  let t := notified sample [("window-pane-changed", "@2 %1"); ("window-close", "@1");
                            ("session-window-changed", "$1 @2")]%string in
  attached_active_pane t = Some 1 ∧ panes t !! 1 = None ∧ needs_resync t = false.
Proof. vm_compute. done. Qed.
