(* ===== verification/TerminalInput.v ===== *)
(** Key events at Lector's terminal boundary (src/src/terminal_input.rs): the
    text and control codes a key stands for, Kitty's associated text, and the
    bytes a legacy application receives for an extended key encoding.

    Key events come from the [terminput] crate; what the code reads of them is
    [KeyEvent].  [normalize_case] and the Xterm encoder of that crate are
    parameters.  A Rust string is the list of its characters. *)

From S2P Require Import Prelude.
Local Open Scope N_scope.

(** * Key events *)

Inductive KeyCode :=
| Char (c : N)
| Enter | Backspace | Tab | Esc | Delete | Insert
| Left | Right | Up | Down | Home | End_ | PageUp | PageDown | KeypadBegin
| F (n : N)
| OtherKey (n : N).
#[export] Instance KeyCode_eq_dec : EqDecision KeyCode.
Proof. solve_decision. Defined.

Inductive KeyEventKind := Press | Repeat | Release.
#[export] Instance KeyEventKind_eq_dec : EqDecision KeyEventKind.
Proof. solve_decision. Defined.

Record KeyModifiers := {
  shift : bool; ctrl : bool; alt : bool; super : bool; hyper : bool; meta : bool
}.
#[export] Instance KeyModifiers_eq_dec : EqDecision KeyModifiers.
Proof. solve_decision. Defined.

Definition no_modifiers : KeyModifiers :=
  {| shift := false; ctrl := false; alt := false; super := false; hyper := false; meta := false |}.
Definition only_shift : KeyModifiers := no_modifiers <| shift := true |>.

Record KeyEvent := { code : KeyCode; modifiers : KeyModifiers; event_kind : KeyEventKind; keypad : bool }.

Record KeyInput := {
  event : KeyEvent;
  associated_text : option (list N);
  alternate_text : option (list N)
}.

(** * Kitty's text fields *)

Definition is_semicolon (b : byte) : bool := b =? 59.
Definition is_colon (b : byte) : bool := b =? 58.
Definition CSI : bytes := ESC :: bs "[".

Definition kitty_body (raw : bytes) : option bytes :=
  body ← strip_prefix CSI raw;
  body ← strip_suffix (bs "u") body;
  if utf8_valid body then Some body else None.

Definition text_codepoint (s : bytes) : option N :=
  v ← parse_uint u32_max s;
  ch ← char_from_u32 v;
  if is_control_char ch then None else Some ch.

Definition valid_modifiers (s : bytes) : bool :=
  match s with
  | [] => true
  | _ =>
      match split_on is_colon s with
      | [m] => bool_decide (is_Some (parse_uint u16_max m))
      | [m; kind] => bool_decide (is_Some (parse_uint u16_max m)) && bool_decide (is_Some (parse_uint u8_max kind))
      | _ => false
      end
  end.

Definition kitty_associated_text (raw : bytes) : option (list N) :=
  body ← kitty_body raw;
  match split_on is_semicolon body with
  | [key_codes; modifiers; text] =>
      if bool_decide (text = []) then None else
      codes ← mapM (parse_uint u32_max) (split_on is_colon key_codes);
      if negb ((1 <=? length codes) && (length codes <=? 3))%nat then None else
      if negb (valid_modifiers modifiers) then None else
      result ← mapM text_codepoint (split_on is_colon text);
      if bool_decide (result = []) then None else Some result
  | _ => None
  end.

Definition kitty_alternate_text (e : KeyEvent) (raw : bytes) : option (list N) :=
  if negb (shift (modifiers e)) then None else
  body ← kitty_body raw;
  key_codes ← head (split_on is_semicolon body);
  match split_on is_colon key_codes with
  | first :: second :: _ =>
      _ ← parse_uint u32_max first;
      alternate ← parse_uint u32_max second;
      ch ← char_from_u32 alternate;
      if is_control_char ch then None else Some [ch]
  | _ => None
  end.

Definition key_input_new (e : KeyEvent) (raw : bytes) : KeyInput :=
  {| event := e; associated_text := kitty_associated_text raw; alternate_text := kitty_alternate_text e raw |}.

(** * Control codes and legacy sequences *)

Definition to_ascii_lowercase (c : N) : N := to_lower c.

Definition legacy_control_code (ch : N) : option byte :=
  let c := to_ascii_lowercase ch in
  if (c =? 64) || (c =? 32) || (c =? 50) then Some 0
  else if in_range 97 122 c then Some (c - 97 + 1)
  else if (c =? 91) || (c =? 51) then Some 27
  else if (c =? 92) || (c =? 52) then Some 28
  else if (c =? 93) || (c =? 53) then Some 29
  else if (c =? 94) || (c =? 54) then Some 30
  else if (c =? 95) || (c =? 55) || (c =? 47) then Some 31
  else if (c =? 63) || (c =? 56) then Some 127
  else None.

Definition SS3 (final : string) : bytes := ESC :: bs "O" ++ bs final.

Definition application_cursor_sequence (c : KeyCode) : option bytes :=
  match c with
  | Left => Some (SS3 "D") | Right => Some (SS3 "C") | Up => Some (SS3 "A")
  | Down => Some (SS3 "B") | Home => Some (SS3 "H") | End_ => Some (SS3 "F")
  | _ => None
  end.

Definition application_keypad_sequence (c : KeyCode) : option bytes :=
  match c with
  | Char 48 | Insert => Some (SS3 "p")
  | Char 49 | End_ => Some (SS3 "q")
  | Char 50 | Down => Some (SS3 "r")
  | Char 51 | PageDown => Some (SS3 "s")
  | Char 52 | Left => Some (SS3 "t")
  | Char 53 | KeypadBegin => Some (SS3 "u")
  | Char 54 | Right => Some (SS3 "v")
  | Char 55 | Home => Some (SS3 "w")
  | Char 56 | Up => Some (SS3 "x")
  | Char 57 | PageUp => Some (SS3 "y")
  | Char 46 | Delete => Some (SS3 "n")
  | Char 47 => Some (SS3 "o")
  | Char 42 => Some (SS3 "j")
  | Char 45 => Some (SS3 "m")
  | Char 43 => Some (SS3 "k")
  | Enter => Some (SS3 "M")
  | Char 61 => Some (SS3 "X")
  | Char 44 => Some (SS3 "l")
  | _ => None
  end.

Definition is_extended_key_encoding (e : KeyEvent) (raw : bytes) : bool :=
  let csi_body :=
    match strip_prefix CSI raw with Some body => Some body | None => strip_prefix [155] raw end in
  negb (bool_decide (event_kind e = Press)) ||
  match csi_body with Some body => ends_with (bs "u") body || existsb is_colon body | None => false end ||
  match strip_prefix (CSI ++ bs "27;") raw with Some body => ends_with (bs "~") body | None => false end.

Definition is_release (k : KeyInput) : bool := bool_decide (event_kind (event k) = Release).

(** * What a key stands for *)

Section terminput.
Context (normalize_case : KeyEvent → KeyEvent) (encode_xterm : KeyEvent → option bytes).

Definition normalized_event (k : KeyInput) : KeyEvent := normalize_case (event k).

Definition key_text (k : KeyInput) : option (list N) :=
  match associated_text k with
  | Some text => Some text
  | None =>
      let e := normalized_event k in
      let m := modifiers e in
      match (if bool_decide (m = only_shift) then alternate_text k else None) with
      | Some text => Some text
      | None =>
          if ctrl m || alt m || meta m || super m || hyper m then None else
          match code e with Char ch => Some [ch] | _ => None end
      end
  end.

Definition control_code (k : KeyInput) : option byte :=
  let e := normalized_event k in
  let m := modifiers e in
  if negb (ctrl m) || (alt m || meta m || super m || hyper m) then None else
  match code e with Char ch => legacy_control_code ch | _ => None end.

Definition legacy_child_bytes (k : KeyInput) (raw : bytes) (application_cursor application_keypad : bool) : bytes :=
  if negb (is_extended_key_encoding (event k) raw) then raw else
  if is_release k then [] else
  let e := (normalized_event k) <| event_kind := Press |> in
  let m := modifiers e in
  if super m || hyper m then [] else
  let m := if meta m then m <| meta := false |> <| alt := true |> else m in
  let e := e <| modifiers := m |> in
  let escape := if alt m then [ESC] else [] in
  match (match associated_text k with Some text => Some text | None => alternate_text k end), ctrl m with
  | Some text, false => escape ++ mjoin (utf8_encode <$> text)
  | _, _ =>
      match (if ctrl m then match code e with Char ch => legacy_control_code ch | _ => None end else None) with
      | Some control => escape ++ [control]
      | None =>
          let plain := bool_decide (m = no_modifiers) in
          match (if application_keypad && keypad e && plain then application_keypad_sequence (code e) else None) with
          | Some sequence => sequence
          | None =>
              match (if application_cursor && negb (keypad e) && plain
                     then application_cursor_sequence (code e) else None) with
              | Some sequence => sequence
              | None => default [] (encode_xterm e)
              end
          end
      end
  end.
End terminput.

(** * Properties *)

(** How Kitty's protocol reports a key with associated text. *)
Definition print_kitty_key (codes : list N) (m : N) (kind : option N) (text : list N) : bytes :=
  CSI ++ join 59 [join 58 (to_dec <$> codes);
                  to_dec m ++ match kind with Some k => 58 :: to_dec k | None => [] end;
                  join 58 (to_dec <$> text)] ++ bs "u".

Lemma to_dec_Forall (Q : byte → Prop) n : (∀ b, is_digit b = true → Q b) → Forall Q (to_dec n).
Proof. intros H. eapply Forall_impl; [apply to_dec_digits|]. auto. Qed.

Lemma join_Forall (Q : byte → Prop) sep l : Q sep → Forall (Forall Q) l → Forall Q (join sep l).
Proof.
  intros Hs Hl. induction Hl as [|x l Hx Hl IH]; [constructor|]. destruct l as [|y l]; [done|].
  change (join sep (x :: y :: l)) with (x ++ sep :: join sep (y :: l)). apply Forall_app. split; [done|].
  by constructor.
Qed.

Lemma join_decimals_Forall (Q : byte → Prop) l :
  (∀ b, is_digit b = true → Q b) → Q 58 → Forall Q (join 58 (to_dec <$> l)).
Proof.
  intros H Hs. apply join_Forall; [done|]. apply Forall_fmap, Forall_true. intros n. by apply to_dec_Forall.
Qed.

Lemma split_decimals l : l ≠ [] → split_on is_colon (join 58 (to_dec <$> l)) = to_dec <$> l.
Proof.
  intros Hl. apply split_on_join; [by destruct l|done|]. apply Forall_fmap, Forall_true. intros n.
  apply to_dec_Forall. unfold is_digit, is_colon. lia.
Qed.

Lemma mapM_to_dec (f : bytes → option N) l :
  Forall (λ n, f (to_dec n) = Some n) l → mapM f (to_dec <$> l) = Some l.
Proof. induction 1 as [|n l Hn _ IH]; [done|]. rewrite fmap_cons. cbn [mapM]. by rewrite Hn; simpl; rewrite IH. Qed.

Lemma kitty_text_printed codes m kind text :
  (1 ≤ length codes ≤ 3)%nat → Forall (λ c, c ≤ u32_max) codes → m ≤ u16_max →
  match kind with Some k => k ≤ u8_max | None => True end →
  text ≠ [] → Forall (λ c, char_from_u32 c = Some c ∧ is_control_char c = false) text →
  kitty_associated_text (print_kitty_key codes m kind text) = Some text.
Proof.
  intros Hlen Hcodes Hm Hkind Hne Htext.
  set (mods := to_dec m ++ match kind with Some k => 58 :: to_dec k | None => [] end).
  assert (∀ Q : byte → Prop, (∀ b, is_digit b = true → Q b) → Q 58 → Forall Q mods) as Hmods.
  { intros Q Hd Hc. apply Forall_app. split; [by apply to_dec_Forall|]. destruct kind; [|constructor].
    constructor; [done|by apply to_dec_Forall]. }
  set (fields := [join 58 (to_dec <$> codes); mods; join 58 (to_dec <$> text)]).
  assert (kitty_body (print_kitty_key codes m kind text) = Some (join 59 fields)) as Hbody.
  { unfold kitty_body, print_kitty_key. fold mods. fold fields. rewrite strip_prefix_app. cbn [mbind option_bind].
    rewrite strip_suffix_app. cbn [mbind option_bind]. unfold utf8_valid.
    rewrite utf8_decode_ascii; [by rewrite bool_decide_eq_true_2|].
    apply join_Forall; [done|]. repeat constructor;
      [apply join_decimals_Forall|apply Hmods|apply join_decimals_Forall]; unfold is_digit; try done; lia. }
  assert (split_on is_semicolon (join 59 fields) = fields) as Hsplit.
  { apply split_on_join; [done..|].
    repeat constructor; [apply join_decimals_Forall|apply Hmods|apply join_decimals_Forall];
      unfold is_digit, is_semicolon; try done; lia. }
  assert (valid_modifiers mods = true) as Hv.
  { unfold valid_modifiers. destruct mods eqn:E; [done|]. rewrite <-E. unfold mods. destruct kind as [k|].
    - change (to_dec m ++ 58 :: to_dec k) with (join 58 [to_dec m; to_dec k]).
      change [to_dec m; to_dec k] with (to_dec <$> [m; k]). rewrite split_decimals by done.
      change (to_dec <$> [m; k]) with [to_dec m; to_dec k]. cbv iota.
      rewrite !parse_uint_to_dec by done. by rewrite !bool_decide_eq_true_2 by done.
    - rewrite app_nil_r. change (to_dec m) with (join 58 (to_dec <$> [m])). rewrite split_decimals by done.
      change (to_dec <$> [m]) with [to_dec m]. cbv iota.
      rewrite !parse_uint_to_dec by done. by rewrite !bool_decide_eq_true_2 by done. }
  unfold kitty_associated_text. rewrite Hbody. cbn [mbind option_bind]. rewrite Hsplit. unfold fields.
  rewrite bool_decide_eq_false_2.
  2: { destruct text as [|c text]; [done|]. pose proof (to_dec_nonempty c) as Hc. rewrite fmap_cons.
    destruct (to_dec <$> text) as [|x l]; [exact Hc|]. change (join 58 (to_dec c :: x :: l)) with (to_dec c ++ 58 :: join 58 (x :: l)).
    by destruct (to_dec c). }
  assert (codes ≠ []) as Hcn by (intros ->; simpl in Hlen; lia). rewrite !split_decimals by done.
  rewrite (mapM_to_dec (parse_uint u32_max) codes)
    by (eapply Forall_impl; [exact Hcodes|]; intros c; apply parse_uint_to_dec).
  cbn [mbind option_bind]. rewrite (proj2 (Nat.leb_le _ _)), (proj2 (Nat.leb_le _ _)) by lia. rewrite Hv. cbn [andb negb].
  rewrite mapM_to_dec; [cbn [mbind option_bind]; by rewrite bool_decide_eq_false_2|].
  eapply Forall_impl; [exact Htext|]. intros c [Hc Hcc]. unfold text_codepoint.
  rewrite parse_uint_to_dec; [cbn [mbind option_bind]; rewrite Hc; cbn; by rewrite Hcc|].
  unfold char_from_u32 in Hc. destruct (_ || _) eqn:E in Hc; [unfold u32_max; lia|done].
Qed.

(** C16. A key that Kitty reports with associated text stands for exactly that
    text, whatever its key codes, modifiers and event kind; when no Control,
    Super or Hyper is held, a legacy application receives the text's UTF-8
    bytes, after one Escape when Alt or Meta is held, and nothing of the
    extended encoding; of the release of the key it receives nothing. *)
Theorem kitty_text_reaches_legacy_child normalize_case encode_xterm codes m kind text e cursor pad :
  (1 ≤ length codes ≤ 3)%nat → Forall (λ c, c ≤ u32_max) codes → m ≤ u16_max →
  match kind with Some k => k ≤ u8_max | None => True end →
  text ≠ [] → Forall (λ c, char_from_u32 c = Some c ∧ is_control_char c = false) text →
  let raw := print_kitty_key codes m kind text in
  let k := key_input_new e raw in
  let mods := modifiers (normalize_case e) in
  key_text normalize_case k = Some text ∧
  (event_kind e ≠ Release → ctrl mods = false → super mods = false → hyper mods = false →
   legacy_child_bytes normalize_case encode_xterm k raw cursor pad =
     (if alt mods || meta mods then [ESC] else []) ++ mjoin (utf8_encode <$> text)) ∧
  (event_kind e = Release → legacy_child_bytes normalize_case encode_xterm k raw cursor pad = []).
Proof.
  intros Hlen Hcodes Hm Hkind Hne Htext raw k mods.
  assert (associated_text k = Some text) as Hassoc by by apply kitty_text_printed.
  assert (is_extended_key_encoding e raw = true) as Hext.
  { unfold is_extended_key_encoding, raw, print_kitty_key. rewrite strip_prefix_app.
    rewrite orb_true_iff. left. rewrite orb_true_iff. right. apply orb_true_iff. left.
    unfold ends_with. by rewrite strip_suffix_app, bool_decide_eq_true_2. }
  split_and!.
  - unfold key_text. by rewrite Hassoc.
  - intros Hrel Hctrl Hsuper Hhyper. unfold legacy_child_bytes. change (event k) with e. rewrite Hext.
    unfold is_release. change (event k) with e. rewrite bool_decide_eq_false_2 by done.
    change (negb true) with false. cbv iota zeta.
    change (modifiers ((normalized_event normalize_case k) <| event_kind := Press |>)) with mods.
    rewrite Hsuper, Hhyper, Hassoc. cbn [orb].
    destruct mods as [sh ct al su hy me]; cbn in *. subst. by destruct me, al.
  - intros Hrel. unfold legacy_child_bytes. change (event k) with e. rewrite Hext.
    unfold is_release. change (event k) with e. by rewrite bool_decide_eq_true_2.
Qed.

Lemma kitty_text_reaches_legacy_child_witness :
  let e := {| code := Char 101; modifiers := no_modifiers <| alt := true |>; event_kind := Press; keypad := false |} in
  let raw := CSI ++ bs "101;3;233u" in
  legacy_child_bytes id (λ _, None) (key_input_new e raw) raw false false = ESC :: utf8_encode 233.
Proof.
  set (e := {| code := Char 101; modifiers := _; event_kind := Press; keypad := false |}).
  change (CSI ++ bs "101;3;233u") with (print_kitty_key [101] 3 None [233]).
  destruct (kitty_text_reaches_legacy_child id (λ _, None) [101] 3 None [233] e false false) as (_ & H & _).
  - simpl. lia.
  - repeat constructor; unfold u32_max; lia.
  - unfold u16_max. lia.
  - exact I.
  - done.
  - repeat constructor; vm_compute; reflexivity.
  - apply H; done.
Defined.
