(* ===== verification/LineEditor.v ===== *)
(** The single-line editor behind Lector's prompts (src/src/line_editor.rs):
    byte and key input, grapheme-wise movement and deletion, word motions, and
    browsing of the history.

    A Rust string is the list of its characters, and an offset into one counts
    characters instead of UTF-8 bytes.  Grapheme segmentation belongs to the
    [unicode_segmentation] crate and [char::is_alphanumeric] to Unicode's
    tables: both are parameters.  Indexing out of range panics in the code; the
    invariant [editor_ok] keeps every index in range. *)

From S2P Require Import Prelude TerminalInput.
Local Open Scope nat_scope.

(** * Data *)

Inductive InputState := Normal | Esc | Csi | Ss3.
#[export] Instance InputState_eq_dec : EqDecision InputState.
Proof. solve_decision. Defined.

Inductive EditorAction := NoAction | Changed | Submit | Bell.
#[export] Instance EditorAction_eq_dec : EqDecision EditorAction.
Proof. solve_decision. Defined.

Record LineEditor := {
  input : list N;
  cursor : nat;
  state : InputState;
  csi_buf : bytes;
  history : list (list N);
  history_index : option nat;
  history_draft : list N
}.

Definition editor_new : LineEditor :=
  {| input := []; cursor := 0; state := Normal; csi_buf := []; history := [];
     history_index := None; history_draft := [] |}.

(** * Text and history set from outside *)

Definition editor_clear (e : LineEditor) : LineEditor :=
  e <| input := [] |> <| cursor := 0 |> <| history_index := None |> <| history_draft := [] |>.

Definition commit_history_entry (line : list N) (e : LineEditor) : LineEditor :=
  let ignored :=
    bool_decide (trim_chars line = []) || bool_decide (head line = Some SP) ||
    bool_decide (last (history e) = Some line) in
  let e := if negb ignored then e <| history := history e ++ [line] |> else e in
  e <| history_index := None |> <| history_draft := [] |>.

Definition commit_history (e : LineEditor) : LineEditor := commit_history_entry (input e) e.

Definition set_history (h : list (list N)) (e : LineEditor) : LineEditor :=
  e <| history := h |> <| history_index := None |> <| history_draft := [] |>.

Section editor.
Context (graphemes : list N → list (list N)) (is_alphanumeric : N → bool) (normalize_case : KeyEvent → KeyEvent).

Definition len_graphemes (e : LineEditor) : nat := length (graphemes (input e)).

(** [grapheme_indices(true).nth(char_index)], and the end of the text past it. *)
Definition byte_index (e : LineEditor) (char_index : nat) : nat :=
  if (char_index <? len_graphemes e) then length (mjoin (take char_index (graphemes (input e))))
  else length (input e).

(** [String::replace_range] with an empty replacement. *)
Definition remove_range (first last : nat) (s : list N) : list N := take first s ++ drop last s.

Definition is_word_grapheme (g : list N) : bool :=
  match head g with Some ch => is_alphanumeric ch || (ch =? 95)%N | None => false end.

(** * Movement *)

Definition move_left (e : LineEditor) : LineEditor :=
  if 0 <? cursor e then e <| cursor := cursor e - 1 |> else e.

Definition move_right (e : LineEditor) : LineEditor :=
  if cursor e <? len_graphemes e then e <| cursor := cursor e + 1 |> else e.

(** [while idx > 0 && p(graphemes[idx - 1]) { idx -= 1 }] *)
Fixpoint skip_left (p : list N → bool) (gs : list (list N)) (idx : nat) : nat :=
  match idx with
  | O => O
  | S i => if p (nth i gs []) then skip_left p gs i else idx
  end.

Definition move_word_left (e : LineEditor) : LineEditor :=
  if cursor e =? 0 then e else
  let gs := graphemes (input e) in
  let idx := skip_left (λ g, negb (is_word_grapheme g)) gs (Nat.min (cursor e) (length gs)) in
  e <| cursor := skip_left is_word_grapheme gs idx |>.

(** [while idx < len && p(graphemes[idx]) { idx += 1 }], given the graphemes from [idx] on. *)
Fixpoint skip_right (p : list N → bool) (rest : list (list N)) (idx : nat) : nat :=
  match rest with
  | [] => idx
  | g :: rest => if p g then skip_right p rest (S idx) else idx
  end.

Definition move_word_right (e : LineEditor) : LineEditor :=
  let gs := graphemes (input e) in
  if length gs <=? cursor e then e else
  let idx := skip_right (λ g, negb (is_word_grapheme g)) (drop (cursor e) gs) (cursor e) in
  e <| cursor := skip_right is_word_grapheme (drop idx gs) idx |>.

(** * Edits *)

(** The loop of [insert_str]: counts graphemes until one ends at [inserted_end] or later. *)
Fixpoint cursor_covering (inserted_end : nat) (gs : list (list N)) (start count : nat) : nat :=
  match gs with
  | [] => count
  | g :: gs =>
      if inserted_end <=? start + length g then S count
      else cursor_covering inserted_end gs (start + length g) (S count)
  end.

Definition insert_str (s : list N) (e : LineEditor) : LineEditor :=
  let index := byte_index e (cursor e) in
  let e := e <| input := take index (input e) ++ s ++ drop index (input e) |> in
  e <| cursor := cursor_covering (index + length s) (graphemes (input e)) 0 0 |>.

Definition backspace (e : LineEditor) : LineEditor :=
  if cursor e =? 0 then e else
  let start := cursor e - 1 in
  e <| input := remove_range (byte_index e start) (byte_index e (cursor e)) (input e) |>
    <| cursor := start |>.

Definition delete (e : LineEditor) : LineEditor * bool :=
  if len_graphemes e <=? cursor e then (e, false) else
  (e <| input := remove_range (byte_index e (cursor e)) (byte_index e (cursor e + 1)) (input e) |>, true).

Definition erase_word_left (e : LineEditor) : LineEditor * bool :=
  if cursor e =? 0 then (e, false) else
  let original := cursor e in
  let e := move_word_left e in
  let start := cursor e in
  if start =? original then (e, false) else
  (e <| input := remove_range (byte_index e start) (byte_index e original) (input e) |>, true).

Definition handle_text (text : list N) (e : LineEditor) : LineEditor * EditorAction :=
  match text with [] => (e, NoAction) | _ => (insert_str text e, Changed) end.

Definition handle_backspace (e : LineEditor) : LineEditor * EditorAction :=
  if (cursor e =? 0) && bool_decide (input e = []) then (e, Bell)
  else if cursor e =? 0 then (e, NoAction)
  else (backspace e, Changed).

(** * History *)

Definition show_entry (i : nat) (e : LineEditor) : LineEditor :=
  let e := e <| history_index := Some i |> <| input := nth i (history e) [] |> in
  e <| cursor := len_graphemes e |>.

Definition history_up (e : LineEditor) : LineEditor * bool :=
  match history e with
  | [] => (e, false)
  | _ =>
      match history_index e with
      | Some 0 => (show_entry 0 e, true)
      | Some idx => (show_entry (idx - 1) e, true)
      | None => (show_entry (length (history e) - 1) (e <| history_draft := input e |>), true)
      end
  end.

Definition history_down (e : LineEditor) : LineEditor * bool :=
  match history_index e with
  | None => (e, false)
  | Some idx =>
      if length (history e) <=? idx + 1 then
        let e := e <| history_index := None |> <| input := history_draft e |> in
        (e <| cursor := len_graphemes e |>, true)
      else (show_entry (idx + 1) e, true)
  end.

(** [if changed { Changed } else { other }] *)
Definition report (other : EditorAction) (r : LineEditor * bool) : LineEditor * EditorAction :=
  (r.1, if r.2 then Changed else other).

Definition handle_history_up (e : LineEditor) : LineEditor * EditorAction := report Bell (history_up e).
Definition handle_history_down (e : LineEditor) : LineEditor * EditorAction := report Bell (history_down e).

(** * Byte input *)

Definition to_start (e : LineEditor) : LineEditor := e <| cursor := 0 |>.
Definition to_end (e : LineEditor) : LineEditor := e <| cursor := len_graphemes e |>.

Definition handle_byte (b : byte) (e : LineEditor) : LineEditor * EditorAction :=
  match b with
  | 27%N => (e <| state := Esc |>, NoAction)
  | 1%N => (to_start e, Changed)
  | 5%N => (to_end e, Changed)
  | 16%N => handle_history_up e
  | 14%N => handle_history_down e
  | 23%N => report Bell (erase_word_left e)
  | 13%N | 10%N => (e, Submit)
  | 127%N | 8%N => handle_backspace e
  | _ => if (b <? 128)%N && negb (is_ascii_control b) then (insert_str [b] e, Changed) else (e, NoAction)
  end.

Definition handle_esc (b : byte) (e : LineEditor) : LineEditor * EditorAction :=
  match b with
  | 91%N => (e <| state := Csi |> <| csi_buf := [] |>, NoAction)
  | 79%N => (e <| state := Ss3 |>, NoAction)
  | 98%N => (move_word_left e <| state := Normal |>, Changed)
  | 102%N => (move_word_right e <| state := Normal |>, Changed)
  | 127%N | 8%N =>
      let '(e, changed) := erase_word_left e in
      (e <| state := Normal |>, if changed then Changed else Bell)
  | _ => (e <| state := Normal |>, NoAction)
  end.

(** The loop of [parse_csi_param] up to its [break]. *)
Fixpoint csi_digits (l : bytes) (value : N) (saw_digit : bool) : N * bool :=
  match l with
  | [] => (value, saw_digit)
  | b :: l =>
      if is_digit b then csi_digits l (sat_add u16_max (sat_mul u16_max value 10) (b - 48)%N) true
      else if (b =? 59)%N then (value, saw_digit)
      else csi_digits l value saw_digit
  end.

Definition parse_csi_param (e : LineEditor) : option N :=
  let '(value, saw_digit) := csi_digits (csi_buf e) 0%N false in
  if saw_digit then Some value else None.

Definition handle_csi_tilde (e : LineEditor) : LineEditor * bool :=
  match parse_csi_param e with
  | Some 1%N | Some 7%N => (to_start e, true)
  | Some 4%N | Some 8%N => (to_end e, true)
  | Some 3%N => delete e
  | _ => (e, false)
  end.

Definition is_csi_final (b : byte) : bool := in_range 64 126 b.

Definition handle_csi (b : byte) (e : LineEditor) : LineEditor * EditorAction :=
  let e := e <| csi_buf := csi_buf e ++ [b] |> in
  if negb (is_csi_final b) then (e, NoAction) else
  let e := e <| state := Normal |> in
  let '(e, action) :=
    match b with
    | 68%N => (move_left e, Changed)
    | 67%N => (move_right e, Changed)
    | 65%N => handle_history_up e
    | 66%N => handle_history_down e
    | 72%N => (to_start e, Changed)
    | 70%N => (to_end e, Changed)
    | 126%N => report NoAction (handle_csi_tilde e)
    | _ => (e, NoAction)
    end in
  (e <| csi_buf := [] |>, action).

Definition handle_ss3 (b : byte) (e : LineEditor) : LineEditor * EditorAction :=
  let e := e <| state := Normal |> in
  match b with
  | 68%N => (move_left e, Changed)
  | 67%N => (move_right e, Changed)
  | 65%N => handle_history_up e
  | 66%N => handle_history_down e
  | 72%N => (to_start e, Changed)
  | 70%N => (to_end e, Changed)
  | _ => (e, NoAction)
  end.

Definition dispatch_byte (b : byte) (e : LineEditor) : LineEditor * EditorAction :=
  match state e with
  | Normal => handle_byte b e
  | Esc => handle_esc b e
  | Csi => handle_csi b e
  | Ss3 => handle_ss3 b e
  end.

Fixpoint byte_loop (l : bytes) (action : EditorAction) (e : LineEditor) : LineEditor * EditorAction :=
  match l with
  | [] => (e, action)
  | b :: l =>
      let '(e, action) := dispatch_byte b e in
      match action with Submit => (e, action) | _ => byte_loop l action e end
  end.

Definition handle_bytes (l : bytes) (e : LineEditor) : LineEditor * EditorAction := byte_loop l NoAction e.

(** * Key input *)

Definition handle_key_input (key : KeyInput) (e : LineEditor) : LineEditor * EditorAction :=
  if is_release key then (e, NoAction) else
  match key_text normalize_case key with
  | Some text => handle_text text e
  | None =>
      match control_code normalize_case key with
      | Some control => handle_byte control e
      | None =>
          let ev := normalized_event normalize_case key in
          let m := modifiers ev in
          let word_modifier := ctrl m || alt m || meta m in
          match code ev with
          | Enter => (e, Submit)
          | Backspace => if word_modifier then report Bell (erase_word_left e) else handle_backspace e
          | Delete => report Bell (delete e)
          | Left => (if word_modifier then move_word_left e else move_left e, Changed)
          | Right => (if word_modifier then move_word_right e else move_right e, Changed)
          | Up => handle_history_up e
          | Down => handle_history_down e
          | Home => (to_start e, Changed)
          | End_ => (to_end e, Changed)
          | Char ch =>
              if alt m || meta m then
                match to_ascii_lowercase ch with
                | 98%N => (move_word_left e, Changed)
                | 102%N => (move_word_right e, Changed)
                | _ => (e, NoAction)
                end
              else (e, NoAction)
          | _ => (e, NoAction)
          end
      end
  end.
End editor.

(** * What segmentation promises

    The rules of Unicode's UAX 29 decide a boundary from the text before it and
    the one character after it: cutting a text at a boundary keeps the
    boundaries before the cut, and appending text only adds boundaries. *)

Class Segmentation (graphemes : list N → list (list N)) := {
  graphemes_concat s : mjoin (graphemes s) = s;
  graphemes_truncate s k : graphemes (mjoin (take k (graphemes s))) = take k (graphemes s);
  graphemes_monotone p s : length (graphemes p) ≤ length (graphemes (p ++ s))
}.

(** One grapheme per character, as in text without combining marks. *)
Definition singletons (s : list N) : list (list N) := (λ c, [c]) <$> s.

#[export] Instance singletons_segmentation : Segmentation singletons.
Proof.
  assert (∀ s, mjoin (singletons s) = s) as Hconcat by (induction s; simpl; congruence).
  split; [done| |].
  - intros s k. unfold singletons. by rewrite <-fmap_take, Hconcat.
  - intros p s. unfold singletons. rewrite !length_fmap, length_app. lia.
Qed.

(** * Properties *)

Section laws.
Context (graphemes : list N → list (list N)) `{!Segmentation graphemes}.
Context (is_alphanumeric : N → bool) (normalize_case : KeyEvent → KeyEvent).
Implicit Types e : LineEditor.

Local Abbreviation gs e := (graphemes (input e)).

(** The text on the two sides of the cursor. *)
Definition before (e : LineEditor) : list N := mjoin (take (cursor e) (graphemes (input e))).
Definition after (e : LineEditor) : list N := mjoin (drop (cursor e) (graphemes (input e))).

Lemma join_split n (l : list (list N)) : mjoin (take n l) ++ mjoin (drop n l) = mjoin l.
Proof. rewrite <-join_app. by rewrite take_drop. Qed.

Lemma byte_index_eq e i : byte_index graphemes e i = length (mjoin (take i (gs e))).
Proof.
  unfold byte_index, len_graphemes. destruct (i <? _) eqn:H; [done|].
  rewrite take_ge by lia. by rewrite graphemes_concat.
Qed.

Lemma input_split e i : input e = mjoin (take i (gs e)) ++ mjoin (drop i (gs e)).
Proof. by rewrite join_split, graphemes_concat. Qed.

Lemma take_byte_index e i : take (byte_index graphemes e i) (input e) = mjoin (take i (gs e)).
Proof. rewrite byte_index_eq. rewrite (input_split e i) at 2. by rewrite take_app_length. Qed.

Lemma drop_byte_index e i : drop (byte_index graphemes e i) (input e) = mjoin (drop i (gs e)).
Proof. rewrite byte_index_eq. rewrite (input_split e i) at 2. by rewrite drop_app_length. Qed.

Lemma remove_graphemes e i j :
  remove_range (byte_index graphemes e i) (byte_index graphemes e j) (input e) =
  mjoin (take i (gs e)) ++ mjoin (drop j (gs e)).
Proof. unfold remove_range. by rewrite take_byte_index, drop_byte_index. Qed.

(** Graphemes in front of an edit remain counted after it. *)
Lemma front_graphemes s i t : i ≤ length (graphemes s) → i ≤ length (graphemes (mjoin (take i (graphemes s)) ++ t)).
Proof.
  intros Hi. etransitivity; [|apply graphemes_monotone]. rewrite graphemes_truncate, length_take. lia.
Qed.

Lemma cursor_covering_spec target l start count :
  let n := cursor_covering target l start count - count in
  count ≤ cursor_covering target l start count ≤ count + length l ∧
  (∀ m, m < n → m = 0 ∨ start + length (mjoin (take m l)) < target) ∧
  (target ≤ start + length (mjoin l) → l ≠ [] → target ≤ start + length (mjoin (take n l))).
Proof.
  revert start count. induction l as [|g l IH]; intros start count; cbn [cursor_covering].
  - split_and!; [simpl; lia..| |done]. lia.
  - destruct (target <=? start + length g) eqn:H.
    + replace (S count - count) with 1 by lia. split_and!; [simpl; lia..|lia|].
      intros _ _. simpl. rewrite app_nil_r. lia.
    + specialize (IH (start + length g) (S count)) as (Hb & Hlt & Hge).
      set (r := cursor_covering _ _ _ _) in *. replace (r - count) with (S (r - S count)) by lia.
      split_and!; [simpl; lia..| |].
      * intros [|m] Hm; [by left|right]. simpl. rewrite length_app.
        destruct (Hlt m) as [->|]; [lia| |lia]. simpl. lia.
      * intros Ht _. simpl in *. rewrite length_app in *. destruct l as [|g' l]; [simpl in *; lia|].
        specialize (Hge ltac:(lia) ltac:(done)). lia.
Qed.

Lemma skip_left_spec p l i :
  i ≤ length l →
  skip_left p l i ≤ i ∧
  Forall (λ g, p g = true) (drop (skip_left p l i) (take i l)) ∧
  (skip_left p l i = 0 ∨ p (nth (skip_left p l i - 1) l []) = false).
Proof.
  induction i as [|i IH]; intros Hi; [simpl; split_and!; [lia|constructor|by left]|]. cbn [skip_left].
  destruct (p (nth i l [])) eqn:Hp.
  - destruct (IH ltac:(lia)) as (Hle & Hall & Hend). split_and!; [lia| |done].
    destruct (lookup_lt_is_Some_2 l i ltac:(lia)) as [g Hg].
    rewrite (take_S_r _ _ g) by done. rewrite drop_app_le by (rewrite length_take; lia).
    apply Forall_app. split; [done|]. constructor; [|constructor]. by erewrite nth_lookup_Some in Hp.
  - split_and!; [done| |].
    + by rewrite drop_ge by (rewrite length_take; lia).
    + right. by replace (S i - 1) with i by lia.
Qed.

Lemma skip_right_spec p l i : i ≤ skip_right p l i ≤ i + length l.
Proof.
  revert i. induction l as [|g l IH]; intros i; simpl; [lia|]. destruct (p g); [|lia]. specialize (IH (S i)). lia.
Qed.

(** ** Well-formed editors *)

Definition editor_ok (e : LineEditor) : Prop :=
  cursor e ≤ length (gs e) ∧ (∀ i, history_index e = Some i → i < length (history e)).

(** Whatever is done to the cursor and the state, the other parts stay in order. *)
Lemma editor_ok_cursor e c : editor_ok e → c ≤ length (gs e) → editor_ok (e <| cursor := c |>).
Proof. intros (_ & Hh) Hc. by destruct e. Qed.

Lemma editor_ok_state e st : editor_ok e → editor_ok (e <| state := st |>).
Proof. by destruct e. Qed.

Lemma editor_ok_csi_buf e l : editor_ok e → editor_ok (e <| csi_buf := l |>).
Proof. by destruct e. Qed.

Lemma editor_ok_input e s c :
  editor_ok e → c ≤ length (graphemes s) → editor_ok (e <| input := s |> <| cursor := c |>).
Proof. intros (_ & Hh) Hc. by destruct e. Qed.

Lemma editor_ok_no_index e h d : editor_ok e → editor_ok (e <| history := h |> <| history_index := None |> <| history_draft := d |>).
Proof. intros (Hc & _). by destruct e. Qed.

Lemma editor_ok_shown e i : editor_ok e → i < length (history e) → editor_ok (show_entry graphemes i e).
Proof. intros _ Hi. destruct e. split; [done|]. by intros j [= <-]. Qed.

Lemma editor_ok_draft e d : editor_ok e → editor_ok (e <| history_draft := d |>).
Proof. by destruct e. Qed.

Lemma editor_ok_clear e : editor_ok e → editor_ok (editor_clear e).
Proof. intros _. destruct e. split; [apply Nat.le_0_l|done]. Qed.

Lemma editor_ok_commit line e : editor_ok e → editor_ok (commit_history_entry line e).
Proof. intros (Hc & _). unfold commit_history_entry. by destruct (negb _), e. Qed.

Lemma editor_ok_set_history h e : editor_ok e → editor_ok (set_history h e).
Proof. apply editor_ok_no_index. Qed.

Create HintDb editor.
#[local] Hint Resolve editor_ok_state editor_ok_csi_buf editor_ok_draft editor_ok_clear editor_ok_commit editor_ok_set_history : editor.

Lemma editor_ok_to_start e : editor_ok e → editor_ok (to_start e).
Proof. intros. apply editor_ok_cursor; [done|lia]. Qed.
Lemma editor_ok_to_end e : editor_ok e → editor_ok (to_end graphemes e).
Proof. intros. by apply editor_ok_cursor. Qed.

Lemma editor_ok_move_left e : editor_ok e → editor_ok (move_left e).
Proof. intros H. unfold move_left. destruct (0 <? _); [|done]. apply editor_ok_cursor; [done|]. destruct H. lia. Qed.

Lemma editor_ok_move_right e : editor_ok e → editor_ok (move_right graphemes e).
Proof.
  intros H. unfold move_right, len_graphemes. destruct (_ <? _) eqn:Hc; [|done].
  apply editor_ok_cursor; [done|]. lia.
Qed.

(** Where a leftward word motion ends. *)
Definition word_start (e : LineEditor) : nat :=
  skip_left (is_word_grapheme is_alphanumeric) (gs e)
    (skip_left (λ g, negb (is_word_grapheme is_alphanumeric g)) (gs e) (Nat.min (cursor e) (length (gs e)))).

Lemma move_word_left_eq e : move_word_left graphemes is_alphanumeric e =
  if cursor e =? 0 then e else e <| cursor := word_start e |>.
Proof. done. Qed.

Lemma word_start_le e : word_start e ≤ cursor e ∧ word_start e ≤ length (gs e).
Proof.
  unfold word_start.
  pose proof (skip_left_spec (λ g, negb (is_word_grapheme is_alphanumeric g)) (gs e)
    (Nat.min (cursor e) (length (gs e))) ltac:(lia)) as [H1 _].
  set (i := skip_left (λ g, negb _) _ _) in *. clearbody i.
  pose proof (skip_left_spec (is_word_grapheme is_alphanumeric) (gs e) i ltac:(lia)) as [H2 _]. lia.
Qed.

Lemma editor_ok_move_word_left e : editor_ok e → editor_ok (move_word_left graphemes is_alphanumeric e).
Proof.
  intros H. rewrite move_word_left_eq. destruct (_ =? 0); [done|]. apply editor_ok_cursor; [done|]. apply word_start_le.
Qed.

Lemma editor_ok_move_word_right e : editor_ok e → editor_ok (move_word_right graphemes is_alphanumeric e).
Proof.
  intros H. unfold move_word_right. destruct (_ <=? _) eqn:Hc; [done|]. apply editor_ok_cursor; [done|].
  set (i := skip_right (λ g, negb _) _ _).
  pose proof (skip_right_spec (λ g, negb (is_word_grapheme is_alphanumeric g)) (drop (cursor e) (gs e)) (cursor e)) as H1.
  fold i in H1. clearbody i. rewrite length_drop in H1.
  pose proof (skip_right_spec (is_word_grapheme is_alphanumeric) (drop i (gs e)) i) as H2.
  rewrite length_drop in H2. lia.
Qed.

Lemma insert_str_eq s e : insert_str graphemes s e =
  let t := before e ++ s ++ after e in
  e <| input := t |> <| cursor := cursor_covering (length (before e ++ s)) (graphemes t) 0 0 |>.
Proof.
  unfold insert_str, before, after. rewrite length_app, take_byte_index, drop_byte_index, byte_index_eq. by destruct e.
Qed.

Lemma editor_ok_insert_str s e : editor_ok e → editor_ok (insert_str graphemes s e).
Proof.
  intros H. rewrite insert_str_eq. apply editor_ok_input; [done|].
  apply (cursor_covering_spec (length (before e ++ s)) (graphemes (before e ++ s ++ after e)) 0 0).
Qed.

Lemma backspace_eq e : cursor e ≠ 0 → backspace graphemes e =
  e <| input := mjoin (take (cursor e - 1) (gs e)) ++ after e |> <| cursor := cursor e - 1 |>.
Proof. intros H. unfold backspace. rewrite (proj2 (Nat.eqb_neq _ _)) by done. by rewrite remove_graphemes. Qed.

Lemma editor_ok_backspace e : editor_ok e → editor_ok (backspace graphemes e).
Proof.
  intros H. destruct (decide (cursor e = 0)) as [Hc|Hc].
  - unfold backspace. by rewrite (proj2 (Nat.eqb_eq _ _)) by done.
  - rewrite backspace_eq by done. apply editor_ok_input; [done|]. apply front_graphemes. destruct H. lia.
Qed.

Lemma delete_eq e : delete graphemes e =
  if length (gs e) <=? cursor e then (e, false)
  else (e <| input := before e ++ mjoin (drop (cursor e + 1) (gs e)) |>, true).
Proof. unfold delete. by rewrite remove_graphemes. Qed.

Lemma editor_ok_delete e : editor_ok e → editor_ok (delete graphemes e).1.
Proof.
  intros H. rewrite delete_eq. destruct (_ <=? _) eqn:Hc; [done|].
  pose proof (editor_ok_input e (before e ++ mjoin (drop (cursor e + 1) (gs e))) (cursor e) H) as Hok.
  destruct e. apply Hok, front_graphemes. cbn in *. lia.
Qed.

Lemma erase_word_left_eq e : erase_word_left graphemes is_alphanumeric e =
  if (cursor e =? 0) || (word_start e =? cursor e) then (e, false)
  else (e <| input := mjoin (take (word_start e) (gs e)) ++ after e |> <| cursor := word_start e |>, true).
Proof.
  unfold erase_word_left. rewrite move_word_left_eq. destruct (cursor e =? 0) eqn:Hc; [done|].
  cbn [orb]. set (e' := e <| cursor := word_start e |>). cbv zeta.
  change (cursor e') with (word_start e). destruct (word_start e =? cursor e) eqn:Hw.
  - apply Nat.eqb_eq in Hw. unfold e'. rewrite Hw. by destruct e.
  - rewrite remove_graphemes. by destruct e.
Qed.

Lemma editor_ok_erase_word_left e : editor_ok e → editor_ok (erase_word_left graphemes is_alphanumeric e).1.
Proof.
  intros H. rewrite erase_word_left_eq. destruct (_ || _) eqn:Hc; [done|]. apply editor_ok_input; [done|].
  apply front_graphemes, word_start_le.
Qed.

Lemma editor_ok_history_up e : editor_ok e → editor_ok (history_up graphemes e).1.
Proof.
  intros H. unfold history_up. destruct (history e) as [|x h] eqn:Hh; [done|].
  assert (∀ i, history_index e = Some i → i < length (history e)) as Hi by apply H.
  destruct (history_index e) as [[|i]|] eqn:Hidx; cbn [fst].
  - apply editor_ok_shown; [done|]. rewrite Hh. simpl. lia.
  - specialize (Hi _ eq_refl). apply editor_ok_shown; [done|]. lia.
  - apply editor_ok_shown; [auto with editor|]. destruct e. cbn in *. subst. simpl. lia.
Qed.

Lemma editor_ok_history_down e : editor_ok e → editor_ok (history_down graphemes e).1.
Proof.
  intros H. unfold history_down. destruct (history_index e) as [i|] eqn:Hidx; [|done].
  destruct (_ <=? _) eqn:Hl; cbn [fst].
  - by destruct e.
  - apply editor_ok_shown; [done|]. lia.
Qed.

#[local] Hint Resolve editor_ok_to_start editor_ok_to_end editor_ok_move_left editor_ok_move_right
  editor_ok_move_word_left editor_ok_move_word_right editor_ok_insert_str editor_ok_backspace editor_ok_delete
  editor_ok_erase_word_left editor_ok_history_up editor_ok_history_down : editor.

(** ** Handlers *)

Local Abbreviation HANDLE_BYTE := (handle_byte graphemes is_alphanumeric).
Local Abbreviation HANDLE_KEY := (handle_key_input graphemes is_alphanumeric normalize_case).
Local Abbreviation HANDLE_BYTES := (handle_bytes graphemes is_alphanumeric).

Lemma editor_ok_handle_text s e : editor_ok e → editor_ok (handle_text graphemes s e).1.
Proof. intros H. destruct s; simpl; auto with editor. Qed.

Lemma editor_ok_handle_backspace e : editor_ok e → editor_ok (handle_backspace graphemes e).1.
Proof. intros H. unfold handle_backspace. repeat case_match; simpl; auto with editor. Qed.

#[local] Hint Resolve editor_ok_handle_text editor_ok_handle_backspace : editor.

Lemma editor_ok_handle_byte b e : editor_ok e → editor_ok (HANDLE_BYTE b e).1.
Proof. intros H. unfold handle_byte, handle_history_up, handle_history_down. repeat case_match; cbn [fst report]; auto with editor. Qed.

Lemma editor_ok_handle_esc b e : editor_ok e → editor_ok (handle_esc graphemes is_alphanumeric b e).1.
Proof.
  intros H. unfold handle_esc. pose proof (editor_ok_erase_word_left e H) as He. destruct (erase_word_left _ _ e) as [e' c].
  repeat case_match; cbn [fst] in *; auto with editor.
Qed.

Lemma editor_ok_handle_csi_tilde e : editor_ok e → editor_ok (handle_csi_tilde graphemes e).1.
Proof. intros H. unfold handle_csi_tilde. repeat case_match; cbn [fst]; auto with editor. Qed.

Lemma editor_ok_handle_csi b e : editor_ok e → editor_ok (handle_csi graphemes b e).1.
Proof.
  intros H. unfold handle_csi. set (e1 := e <| csi_buf := _ |>).
  assert (editor_ok e1) as H1 by auto with editor. destruct (negb (is_csi_final b)); [done|].
  apply (editor_ok_state _ Normal) in H1. cbv zeta. set (e2 := e1 <| state := Normal |>) in *.
  set (r := match b with 68%N => _ | _ => _ end).
  assert (editor_ok r.1) as Hr; [|destruct r; by apply editor_ok_csi_buf].
  pose proof (editor_ok_handle_csi_tilde e2 H1). clearbody e2. unfold r, handle_history_up, handle_history_down.
  repeat case_match; cbn [fst report]; auto with editor.
Qed.

Lemma editor_ok_handle_ss3 b e : editor_ok e → editor_ok (handle_ss3 graphemes b e).1.
Proof.
  intros H. unfold handle_ss3, handle_history_up, handle_history_down.
  repeat case_match; cbn [fst report]; auto with editor.
Qed.

Lemma editor_ok_handle_bytes l e : editor_ok e → editor_ok (HANDLE_BYTES l e).1.
Proof.
  unfold handle_bytes. generalize NoAction. revert e. induction l as [|b l IH]; intros e a H; [done|]. cbn [byte_loop].
  assert (editor_ok (dispatch_byte graphemes is_alphanumeric b e).1) as Hd.
  { unfold dispatch_byte. destruct (state e); [by apply editor_ok_handle_byte|by apply editor_ok_handle_esc|
      by apply editor_ok_handle_csi|by apply editor_ok_handle_ss3]. }
  destruct (dispatch_byte _ _ b e) as [e' a']. destruct a'; by try apply IH.
Qed.

Lemma editor_ok_handle_key_input key e : editor_ok e → editor_ok (HANDLE_KEY key e).1.
Proof.
  intros H. unfold handle_key_input. destruct (is_release key); [done|].
  destruct (key_text _ _) as [text|]; [by apply editor_ok_handle_text|].
  destruct (control_code _ _) as [b|]; [by apply editor_ok_handle_byte|]. cbv zeta.
  unfold handle_history_up, handle_history_down. repeat case_match; cbn [fst report]; auto with editor.
Qed.

(** What the program does to an editor. *)
Inductive EditorOp :=
| OpClear | OpCommit | OpCommitEntry (line : list N) | OpSetHistory (h : list (list N))
| OpBytes (l : bytes) | OpKey (key : KeyInput) | OpText (text : list N).

Definition apply_op (e : LineEditor) (op : EditorOp) : LineEditor :=
  match op with
  | OpClear => editor_clear e
  | OpCommit => commit_history e
  | OpCommitEntry line => commit_history_entry line e
  | OpSetHistory h => set_history h e
  | OpBytes l => (HANDLE_BYTES l e).1
  | OpKey key => (HANDLE_KEY key e).1
  | OpText text => (handle_text graphemes text e).1
  end.

(** C25. Whatever sequence of bytes, keys, texts, commits, history replacements
    and clears an editor has seen, its cursor stands on a grapheme boundary of
    its text (never past the last one) and the history entry it shows exists,
    so that no operation indexes out of range. *)
Theorem reachable_editors_are_well_formed ops :
  let e := foldl apply_op editor_new ops in
  cursor e ≤ len_graphemes graphemes e ∧
  (∀ i, history_index e = Some i → i < length (history e)).
Proof.
  change (editor_ok (foldl apply_op editor_new ops)). revert ops. apply rev_ind.
  - by split; [apply Nat.le_0_l|].
  - intros op ops IH. rewrite foldl_app. simpl. unfold commit_history.
    destruct op; simpl; unfold commit_history; auto using editor_ok_handle_bytes, editor_ok_handle_key_input with editor.
Qed.

(** ** Browsing the history *)

Local Abbreviation up e := (handle_history_up graphemes e).1.
Local Abbreviation down e := (handle_history_down graphemes e).1.

(** The editor showing entry [i], with the text it had kept aside. *)
Definition browsing (e : LineEditor) (i : nat) : LineEditor := show_entry graphemes i (e <| history_draft := input e |>).
Definition browsed (e : LineEditor) : LineEditor :=
  e <| cursor := length (graphemes (input e)) |> <| history_draft := input e |>.

Lemma up_first e : history_index e = None → history e ≠ [] → up e = browsing e (length (history e) - 1).
Proof. intros Hi Hne. unfold handle_history_up, history_up. rewrite Hi. destruct (history e) eqn:E; [done|]. by destruct e; cbn in *; subst. Qed.

Lemma up_browsing e i : history e ≠ [] → up (browsing e i) = browsing e (i - 1).
Proof.
  intros Hne. destruct e as [? ? ? ? h ? ?]. unfold handle_history_up, history_up, browsing. cbn in *. destruct h; [done|].
  by destruct i.
Qed.

Lemma down_browsing e i : i + 1 < length (history e) → down (browsing e i) = browsing e (i + 1).
Proof.
  intros Hi. unfold handle_history_down, history_down. destruct e as [? ? ? ? h ? ?]. cbn in *.
  by rewrite (proj2 (Nat.leb_gt _ _)) by done.
Qed.

Lemma down_last e i : history_index e = None → length (history e) ≤ i + 1 → down (browsing e i) = browsed e.
Proof.
  intros He Hi. unfold handle_history_down, history_down. destruct e as [? ? ? ? h ? ?]. cbn in *.
  subst. by rewrite (proj2 (Nat.leb_le _ _)) by done.
Qed.

Lemma ups_browsing e k : history_index e = None → history e ≠ [] →
  Nat.iter (S k) (λ e, up e) e = browsing e (length (history e) - S k).
Proof.
  intros Hi Hne. induction k as [|k IH]; [by apply up_first|]. rewrite Nat.iter_succ, IH, up_browsing by done.
  f_equal. lia.
Qed.

Lemma downs_browsing e m i : history_index e = None → i < length (history e) → length (history e) - i ≤ m →
  Nat.iter m (λ e, down e) (browsing e i) = browsed e.
Proof.
  intros He. revert i. induction m as [|m IH]; intros i Hi Hm; [lia|].
  destruct (decide (length (history e) - i ≤ m)) as [Hm'|Hm'].
  - rewrite Nat.iter_succ, IH by done. unfold browsed, handle_history_down, history_down. destruct e. cbn in *. by subst.
  - rewrite Nat.iter_succ_r. destruct (decide (i + 1 < length (history e))).
    + rewrite down_browsing by done. apply IH; lia.
    + rewrite down_last by (done || lia). assert (m = 0) as -> by lia. done.
Qed.

(** From an editor that is not browsing, [k] presses of Up show the [k]-th
    last entry of the history (the oldest one when there are fewer), whole and
    with the cursor at its end, and [k] presses of Down then bring back the
    text that was being typed; the history itself is untouched. *)
Theorem browsing_restores_the_draft e k :
  history_index e = None → history e ≠ [] → 0 < k →
  let e1 := Nat.iter k (λ e, up e) e in
  let e2 := Nat.iter k (λ e, down e) e1 in
  (Some (input e1) = history e !! (length (history e) - k) ∧
   history_index e1 = Some (length (history e) - k) ∧ cursor e1 = len_graphemes graphemes e1 ∧
   history e1 = history e) ∧
  e2 = e <| cursor := len_graphemes graphemes e |> <| history_draft := input e |>.
Proof.
  intros Hi Hne Hk e1 e2. destruct k as [|k]; [lia|].
  assert (e1 = browsing e (length (history e) - S k)) as He1 by by apply ups_browsing.
  assert (0 < length (history e)) by (destruct (history e); [done|simpl; lia]).
  split.
  - rewrite He1. destruct e as [? ? ? ? h ? ?]. cbn in *. split_and!; try done.
    destruct (lookup_lt_is_Some_2 h (length h - S k) ltac:(lia)) as [x Hx]. rewrite Hx. f_equal. by apply nth_lookup_Some.
  - unfold e2. rewrite He1. apply downs_browsing; [done|lia..].
Qed.

(** ** Editing *)

Lemma prefix_longer (a b t : list N) : a `prefix_of` t → b `prefix_of` t → length a ≤ length b → a `prefix_of` b.
Proof.
  intros Ha Hb Hl. destruct (prefix_weak_total _ _ _ Ha Hb) as [|H]; [done|]. by rewrite (prefix_length_eq _ _ H Hl).
Qed.

Lemma typed_text s e : s ≠ [] →
  let e' := insert_str graphemes s e in
  input e' = before e ++ s ++ after e ∧
  (∃ extra, before e' = before e ++ s ++ extra) ∧
  ∀ n, n < cursor e' → length (mjoin (take n (gs e'))) < length (before e ++ s).
Proof.
  intros Hs. rewrite insert_str_eq. cbv zeta. set (t := before e ++ s ++ after e).
  pose proof (cursor_covering_spec (length (before e ++ s)) (graphemes t) 0 0) as (_ & Hlt & Hge).
  set (c := cursor_covering _ _ 0 0) in *. rewrite graphemes_concat, Nat.sub_0_r in *.
  assert (t ≠ []) as Ht by (unfold t; by destruct (before e), s).
  assert (graphemes t ≠ []) as Hgt by (intros H; by rewrite <-(graphemes_concat t), H in Ht).
  specialize (Hge ltac:(unfold t; rewrite !length_app; lia) Hgt). simpl in Hge.
  change (before (e <| input := t |> <| cursor := c |>)) with (mjoin (take c (graphemes t))).
  split_and!; [done| |].
  - destruct (prefix_longer (before e ++ s) (mjoin (take c (graphemes t))) t) as [extra ->]; [| |done|].
    + exists (after e). unfold t. by rewrite app_assoc.
    + exists (mjoin (drop c (graphemes t))). by rewrite join_split, graphemes_concat.
    + exists extra. by rewrite app_assoc.
  - intros n Hn. destruct (Hlt n Hn) as [->|H]; [|done]. rewrite length_app. destruct s; simpl; [done|lia].
Qed.

Lemma word_before e : cursor e ≤ length (gs e) → ∃ w separators,
  take (cursor e) (gs e) = take (word_start e) (gs e) ++ w ++ separators ∧
  Forall (λ g, is_word_grapheme is_alphanumeric g = true) w ∧
  Forall (λ g, is_word_grapheme is_alphanumeric g = false) separators ∧
  (∀ l' g, take (word_start e) (gs e) = l' ++ [g] → is_word_grapheme is_alphanumeric g = false).
Proof.
  intros Hc. unfold word_start. rewrite Nat.min_l by done. set (p := is_word_grapheme is_alphanumeric).
  pose proof (skip_left_spec (λ g, negb (p g)) (gs e) (cursor e) Hc) as (Hi & Hsep & _).
  set (i := skip_left _ _ (cursor e)) in *. clearbody i.
  pose proof (skip_left_spec p (gs e) i ltac:(lia)) as (Hj & Hw & Hend). set (j := skip_left _ _ i) in *. clearbody j.
  exists (drop j (take i (gs e))), (drop i (take (cursor e) (gs e))). split_and!.
  - rewrite <-(take_drop i (take (cursor e) (gs e))) at 1. rewrite take_take, Nat.min_l by done.
    rewrite app_assoc. f_equal. rewrite <-(take_drop j (take i (gs e))) at 1. by rewrite take_take, Nat.min_l by done.
  - done.
  - eapply Forall_impl; [exact Hsep|]. intros g Hg. by apply negb_true_iff.
  - intros l' g Hl. destruct Hend as [->|Hend]; [by destruct l'|].
    assert (length (take j (gs e)) = S (length l')) as Hlen by (rewrite Hl, length_app; simpl; lia).
    rewrite length_take in Hlen.
    assert (gs e !! (j - 1) = Some g) as Hg.
    { rewrite <-(lookup_take_lt _ j) by lia. rewrite Hl, lookup_app_r by lia. by replace (j - 1 - length l') with 0 by lia. }
    by rewrite (nth_lookup_Some _ _ _ _ Hg) in Hend.
Qed.

(** C15. An edit acts exactly at the cursor.  Typing a text puts it between the
    two sides of the cursor and leaves the cursor after the fewest graphemes
    that hold the typed text; Backspace and Delete remove the one grapheme
    before or after the cursor; erasing a word removes the word and the
    separators between it and the cursor, and nothing else. *)
Theorem edits_act_at_the_cursor e :
  cursor e ≤ len_graphemes graphemes e →
  (∀ s, s ≠ [] →
    let e' := (handle_text graphemes s e).1 in
    input e' = before e ++ s ++ after e ∧
    (∃ extra, before e' = before e ++ s ++ extra) ∧
    ∀ n, n < cursor e' → length (mjoin (take n (gs e'))) < length (before e ++ s)) ∧
  (∀ l g, take (cursor e) (gs e) = l ++ [g] →
    let e' := (handle_backspace graphemes e).1 in
    input e' = mjoin l ++ after e ∧ cursor e' = length l) ∧
  (∀ g l, drop (cursor e) (gs e) = g :: l →
    let e' := (delete graphemes e).1 in
    input e' = before e ++ mjoin l ∧ cursor e' = cursor e) ∧
  (∃ l w separators,
    take (cursor e) (gs e) = l ++ w ++ separators ∧
    Forall (λ g, is_word_grapheme is_alphanumeric g = true) w ∧
    Forall (λ g, is_word_grapheme is_alphanumeric g = false) separators ∧
    (∀ l' g, l = l' ++ [g] → is_word_grapheme is_alphanumeric g = false) ∧
    let e' := (erase_word_left graphemes is_alphanumeric e).1 in
    input e' = mjoin l ++ after e ∧ cursor e' = length l).
Proof.
  intros Hc. unfold len_graphemes in Hc. split_and!.
  - intros s Hs. cbv zeta. replace (handle_text graphemes s e).1 with (insert_str graphemes s e) by by destruct s.
    by apply typed_text.
  - intros l g Hl. assert (cursor e = S (length l)) as Hcl.
    { apply (f_equal length) in Hl. rewrite length_take, length_app in Hl. simpl in Hl. lia. }
    unfold handle_backspace. rewrite (proj2 (Nat.eqb_neq _ _)) by lia. cbn [andb fst].
    rewrite backspace_eq by lia. assert (take (cursor e - 1) (gs e) = l) as ->; [|split; [done|cbn; lia]].
    rewrite <-(Nat.min_l (cursor e - 1) (cursor e)) by lia. rewrite <-take_take, Hl.
    replace (cursor e - 1) with (length l) by lia. apply take_app_length.
  - intros g l Hl. assert (length (gs e) - cursor e = S (length l)) by (apply (f_equal length) in Hl; by rewrite length_drop in Hl).
    rewrite delete_eq. rewrite (proj2 (Nat.leb_gt _ _)) by lia.
    cbn [fst]. rewrite <-drop_drop, Hl. by destruct e.
  - destruct (word_before e Hc) as (w & seps & Hsplit & Hw & Hs & Hend).
    exists (take (word_start e) (gs e)), w, seps. cbv zeta. rewrite erase_word_left_eq.
    split_and!; try done.
    + destruct (_ || _) eqn:H; [cbn [fst]|by destruct e]. assert (word_start e = cursor e) as ->; [|by apply input_split].
      pose proof (word_start_le e). lia.
    + rewrite length_take. pose proof (word_start_le e). destruct (_ || _) eqn:Hz; cbn; lia.
Qed.
End laws.

(** * Witnesses *)

Definition ascii_alphanumeric (c : N) : bool := is_digit c || is_lower (to_lower c).

Lemma reachable_editors_are_well_formed_witness :
  let e := foldl (apply_op singletons ascii_alphanumeric id) editor_new
             [OpText (bs "read me"); OpCommit; OpClear; OpBytes (ESC :: bs "[A" ++ [23%N] ++ bs "x")] in
  input e = bs "read x" ∧ cursor e ≤ len_graphemes singletons e.
Proof.
  split; [vm_compute; reflexivity|].
  apply (reachable_editors_are_well_formed singletons ascii_alphanumeric id).
Defined.

Lemma browsing_restores_the_draft_witness :
  let e := set_history [bs "one"; bs "two"] (handle_text singletons (bs "draft") editor_new).1 in
  let e1 := Nat.iter 2 (λ e, (handle_history_up singletons e).1) e in
  let e2 := Nat.iter 2 (λ e, (handle_history_down singletons e).1) e1 in
  input e1 = bs "one" ∧ input e2 = bs "draft".
Proof.
  set (e := set_history _ _).
  destruct (browsing_restores_the_draft singletons e 2) as [(H1 & _) H2]; [reflexivity|done|lia|]. cbv zeta in *.
  split; [|rewrite H2; reflexivity]. apply (inj Some). etransitivity; [exact H1|reflexivity].
Defined.

Lemma edits_act_at_the_cursor_witness :
  let e := (handle_bytes singletons ascii_alphanumeric (bs "go there" ++ ESC :: bs "bX") editor_new).1 in
  (0 < cursor e ≤ len_graphemes singletons e ∧ before singletons e = bs "go X" ∧ after singletons e = bs "there") ∧
  input (handle_text singletons (bs "YZ") e).1 = bs "go XYZthere".
Proof.
  set (e := (handle_bytes _ _ _ _).1). assert (cursor e = 4) as Hc by (vm_compute; reflexivity).
  assert (len_graphemes singletons e = 9) as Hl by (vm_compute; reflexivity).
  split; [rewrite Hc, Hl; split_and!; [lia|lia|vm_compute; reflexivity..]|].
  destruct (edits_act_at_the_cursor singletons ascii_alphanumeric e) as [H _]; [lia|].
  destruct (H (bs "YZ") ltac:(done)) as [-> _]. vm_compute. reflexivity.
Defined.
