(* ===== verification/TerminalProtocol.v ===== *)
(** Probing of the physical terminal and routing of its replies
    (src/src/terminal_protocol.rs): the capability profile and what changes it,
    the broker that takes the replies to Lector's startup queries out of the
    input, the fence that ends a session, the per-owner reply queues, and the
    policy for terminal effects.

    Strings are their UTF-8 bytes.  [infocmp] and the environment are
    arguments.  The loop of [ingest] carries the length of its buffer as fuel;
    in a well-formed broker it stops by itself after at most two turns
    ([probe_byte_eq]). *)

From S2P Require Import Prelude Terminal.
Local Open Scope N_scope.

Definition PROBE_INACTIVITY_TIMEOUT_MS : N := 50.
Definition MAX_PROBE_REPLY_BYTES : N := 4096.
Definition SHUTDOWN_FENCE_QUERY : bytes := ESC :: bs "[c".

Inductive ColorScheme := Light | Dark.
#[export] Instance ColorScheme_eq_dec : EqDecision ColorScheme.
Proof. solve_decision. Defined.

(** * Terminfo *)

Record TerminfoCapabilities := {
  terminfo_color_count : option N;
  terminfo_true_color : bool;
  terminfo_hyperlinks : bool;
  terminfo_synchronized_output : bool;
  terminfo_kitty_keyboard : bool;
  terminfo_kitty_graphics : bool
}.

Definition terminfo_default : TerminfoCapabilities :=
  {| terminfo_color_count := None; terminfo_true_color := false; terminfo_hyperlinks := false;
     terminfo_synchronized_output := false; terminfo_kitty_keyboard := false; terminfo_kitty_graphics := false |}.

(** [str::lines]: the text up to each line feed, without one carriage return
    before it; nothing for an empty last line. *)
Definition strip_cr (l : bytes) : bytes := default l (strip_suffix [CR] l).
Definition str_lines (s : bytes) : list bytes :=
  let parts := split_on (λ b, b =? LF) s in
  match last parts with
  | Some [] => strip_cr <$> removelast parts
  | Some l => (strip_cr <$> removelast parts) ++ [l]
  | None => []
  end.

(** [str::trim_end_matches(',')] *)
Fixpoint drop_commas (l : bytes) : bytes :=
  match l with 44 :: l => drop_commas l | _ => l end.
Definition trim_end_commas (l : bytes) : bytes := reverse (drop_commas (reverse l)).

Definition infocmp_line (line : bytes) (r : TerminfoCapabilities) : TerminfoCapabilities :=
  let r :=
    match (value ← strip_prefix (bs "colors#") line; value ← strip_suffix (bs ",") value; parse_uint u16_max value) with
    | Some value => r <| terminfo_color_count := Some value |>
    | None => r
    end in
  let capability := trim_end_commas line in
  let name :=
    match split_once (λ b, (b =? 61) || (b =? 35)) capability with Some (name, _) => name | None => capability end in
  if bool_decide (name = bs "Tc") || bool_decide (name = bs "RGB") then r <| terminfo_true_color := true |>
  else if bool_decide (name = bs "Sync") then r <| terminfo_synchronized_output := true |>
  else if bool_decide (name = bs "Su") then r <| terminfo_kitty_keyboard := true |>
  else if bool_decide (name = bs "Gfx") then r <| terminfo_kitty_graphics := true |>
  else if bool_decide (name = bs "OSC8") then r <| terminfo_hyperlinks := true |>
  else r.

Definition from_infocmp (output : bytes) : TerminfoCapabilities :=
  foldl (λ r line, infocmp_line line r) terminfo_default (trim <$> str_lines output).

(** * Explicit overrides *)

Record CapabilityOverrides := {
  override_color_count : option N;
  override_true_color : option bool;
  override_hyperlinks : option bool;
  override_synchronized_output : option bool;
  override_kitty_keyboard : option bool;
  override_kitty_graphics : option bool;
  override_focus_reporting : option bool;
  override_clipboard_read : option bool
}.

Definition overrides_default : CapabilityOverrides :=
  {| override_color_count := None; override_true_color := None; override_hyperlinks := None;
     override_synchronized_output := None; override_kitty_keyboard := None; override_kitty_graphics := None;
     override_focus_reporting := None; override_clipboard_read := None |}.

Definition parse_explicit_bool (key value : bytes) : result bytes bool :=
  let v := to_lower <$> trim value in
  if bool_decide (v ∈ [bs "1"; bs "true"; bs "yes"; bs "on"]) then Ok true
  else if bool_decide (v ∈ [bs "0"; bs "false"; bs "no"; bs "off"]) then Ok false
  else Err (key ++ bs " must be one of true/false, yes/no, on/off, or 1/0").

Definition apply_pair (key value : bytes) (r : CapabilityOverrides) : result bytes CapabilityOverrides :=
  if bool_decide (key = bs "LECTOR_OUTER_COLORS") then
    match parse_uint u16_max value with
    | Some n => Ok (r <| override_color_count := Some n |>)
    | None => Err (bs "LECTOR_OUTER_COLORS must be an integer from 0 through 65535")
    end
  else
    parsed ← parse_explicit_bool key value;
    if bool_decide (key = bs "LECTOR_OUTER_TRUE_COLOR") then Ok (r <| override_true_color := Some parsed |>)
    else if bool_decide (key = bs "LECTOR_OUTER_HYPERLINKS") then Ok (r <| override_hyperlinks := Some parsed |>)
    else if bool_decide (key = bs "LECTOR_OUTER_SYNC") then Ok (r <| override_synchronized_output := Some parsed |>)
    else if bool_decide (key = bs "LECTOR_OUTER_KITTY_KEYBOARD") then Ok (r <| override_kitty_keyboard := Some parsed |>)
    else if bool_decide (key = bs "LECTOR_OUTER_KITTY_GRAPHICS") then Ok (r <| override_kitty_graphics := Some parsed |>)
    else if bool_decide (key = bs "LECTOR_OUTER_FOCUS") then Ok (r <| override_focus_reporting := Some parsed |>)
    else if bool_decide (key = bs "LECTOR_OUTER_CLIPBOARD_READ") then Ok (r <| override_clipboard_read := Some parsed |>)
    else Err (bs "unknown capability override " ++ key).

Fixpoint pairs_loop (pairs : list (bytes * bytes)) (r : CapabilityOverrides) : result bytes CapabilityOverrides :=
  match pairs with
  | [] => Ok r
  | (key, value) :: pairs => r ← apply_pair key value r; pairs_loop pairs r
  end.

Definition from_pairs (pairs : list (bytes * bytes)) : result bytes CapabilityOverrides :=
  pairs_loop pairs overrides_default.

Definition KEYS : list bytes :=
  [bs "LECTOR_OUTER_COLORS"; bs "LECTOR_OUTER_TRUE_COLOR"; bs "LECTOR_OUTER_HYPERLINKS"; bs "LECTOR_OUTER_SYNC";
   bs "LECTOR_OUTER_KITTY_KEYBOARD"; bs "LECTOR_OUTER_KITTY_GRAPHICS"; bs "LECTOR_OUTER_FOCUS";
   bs "LECTOR_OUTER_CLIPBOARD_READ"].

(** [env] is [std::env::var]. *)
Definition from_environment (env : bytes → option bytes) : result bytes CapabilityOverrides :=
  from_pairs (omap (λ key, (λ value, (key, value)) <$> env key) KEYS).

(** * The physical profile *)

Record ProbeReport := {
  report_geometry : option TerminalGeometry;
  report_color_scheme : option ColorScheme;
  report_synchronized_output : option bool;
  report_kitty_keyboard : option bool;
  report_kitty_graphics : option bool;
  report_focus_reporting : option bool;
  report_clipboard_read : option bool
}.

Definition report_default : ProbeReport :=
  {| report_geometry := None; report_color_scheme := None; report_synchronized_output := None;
     report_kitty_keyboard := None; report_kitty_graphics := None; report_focus_reporting := None;
     report_clipboard_read := None |}.

Record PhysicalTerminalProfile := {
  geometry : TerminalGeometry;
  color_count : N;
  true_color : bool;
  color_scheme : option ColorScheme;
  hyperlinks : bool;
  synchronized_output : bool;
  kitty_keyboard : bool;
  kitty_graphics : bool;
  focus_reporting : bool;
  clipboard_read : bool
}.

Definition conservative (g : TerminalGeometry) : PhysicalTerminalProfile :=
  {| geometry := g; color_count := 8; true_color := false; color_scheme := None; hyperlinks := false;
     synchronized_output := false; kitty_keyboard := false; kitty_graphics := false; focus_reporting := false;
     clipboard_read := false |}.

Definition apply_terminfo (t : TerminfoCapabilities) (p : PhysicalTerminalProfile) : PhysicalTerminalProfile :=
  {| geometry := geometry p;
     color_count := default (color_count p) (terminfo_color_count t);
     true_color := true_color p || terminfo_true_color t;
     color_scheme := color_scheme p;
     hyperlinks := hyperlinks p || terminfo_hyperlinks t;
     synchronized_output := synchronized_output p || terminfo_synchronized_output t;
     kitty_keyboard := kitty_keyboard p || terminfo_kitty_keyboard t;
     kitty_graphics := kitty_graphics p || terminfo_kitty_graphics t;
     focus_reporting := focus_reporting p;
     clipboard_read := clipboard_read p |}.

Definition apply_option (target : bool) (value : option bool) : bool := default target value.

Definition apply_probe (r : ProbeReport) (p : PhysicalTerminalProfile) : PhysicalTerminalProfile :=
  {| geometry := default (geometry p) (report_geometry r);
     color_count := color_count p;
     true_color := true_color p;
     color_scheme := match report_color_scheme r with Some scheme => Some scheme | None => color_scheme p end;
     hyperlinks := hyperlinks p;
     synchronized_output := apply_option (synchronized_output p) (report_synchronized_output r);
     kitty_keyboard := apply_option (kitty_keyboard p) (report_kitty_keyboard r);
     kitty_graphics := apply_option (kitty_graphics p) (report_kitty_graphics r);
     focus_reporting := apply_option (focus_reporting p) (report_focus_reporting r);
     clipboard_read := apply_option (clipboard_read p) (report_clipboard_read r) |}.

Definition apply_overrides (o : CapabilityOverrides) (p : PhysicalTerminalProfile) : PhysicalTerminalProfile :=
  {| geometry := geometry p;
     color_count := default (color_count p) (override_color_count o);
     true_color := apply_option (true_color p) (override_true_color o);
     color_scheme := color_scheme p;
     hyperlinks := apply_option (hyperlinks p) (override_hyperlinks o);
     synchronized_output := apply_option (synchronized_output p) (override_synchronized_output o);
     kitty_keyboard := apply_option (kitty_keyboard p) (override_kitty_keyboard o);
     kitty_graphics := apply_option (kitty_graphics p) (override_kitty_graphics o);
     focus_reporting := apply_option (focus_reporting p) (override_focus_reporting o);
     clipboard_read := apply_option (clipboard_read p) (override_clipboard_read o) |}.

(** The profile [main] sets up before the probes: [terminfo] is what
    [TerminfoCapabilities::detect] found for TERM, [env] the environment. *)
Definition startup_profile (g : TerminalGeometry) (terminfo : option TerminfoCapabilities)
    (env : bytes → option bytes) : result bytes PhysicalTerminalProfile :=
  let p := conservative g in
  let p := match terminfo with Some t => apply_terminfo t p | None => p end in
  let p :=
    match env (bs "COLORTERM") with
    | Some value =>
        if bool_decide (to_lower <$> value ∈ [bs "truecolor"; bs "24bit"]) then p <| true_color := true |> else p
    | None => p
    end in
  overrides ← from_environment env;
  Ok (apply_overrides overrides p).

(** * Recognizing replies *)

Definition is_final_byte (b : byte) : bool := in_range 64 126 b.

(** Length of the first string sequence: [l] is what follows the introducer,
    [index] its place. *)
Fixpoint string_end (l : bytes) (index : nat) : option nat :=
  match l with
  | [] => None
  | b :: rest =>
      if b =? BEL then Some (index + 1)%nat
      else if (b =? ESC) && bool_decide (head rest = Some 92) then Some (index + 2)%nat
      else string_end rest (index + 1)
  end.

Definition is_string_introducer (b : byte) : bool := (b =? 93) || (b =? 80) || (b =? 95).

Definition complete_escape_len (l : bytes) : option nat :=
  match l with
  | _ :: second :: rest =>
      if second =? 91 then (λ i, (i + 3)%nat) <$> position is_final_byte rest
      else if is_string_introducer second then string_end rest 2
      else Some 2%nat
  | _ => None
  end.

Definition utf8_text (s : bytes) : option bytes := if utf8_valid s then Some s else None.
Definition is_semicolon (b : byte) : bool := b =? 59.
Definition is_slash (b : byte) : bool := b =? 47.

Definition parse_mode_report (sequence : bytes) : option (N * N) :=
  text ← utf8_text sequence;
  body ← strip_prefix (ESC :: bs "[?") text;
  body ← strip_suffix (bs "$y") body;
  '(mode, state) ← split_once is_semicolon body;
  mode ← parse_uint u16_max mode;
  state ← parse_uint u8_max state;
  Some (mode, state).

Definition parse_kitty_keyboard_report (sequence : bytes) : option N :=
  text ← utf8_text sequence;
  body ← strip_prefix (ESC :: bs "[?") text;
  body ← strip_suffix (bs "u") body;
  parse_uint u8_max body.

Definition parse_size_report (sequence : bytes) : option (N * N * N) :=
  text ← utf8_text sequence;
  body ← strip_prefix (ESC :: bs "[") text;
  body ← strip_suffix (bs "t") body;
  match split_on is_semicolon body with
  | [kind; first; second] =>
      kind ← parse_uint u8_max kind;
      first ← parse_uint u32_max first;
      second ← parse_uint u32_max second;
      Some (kind, first, second)
  | _ => None
  end.

Definition parse_color_report (sequence : bytes) : option (N * N * N * N) :=
  body ← strip_prefix (ESC :: bs "]") sequence;
  body ← match strip_suffix [ESC; 92] body with Some body => Some body | None => strip_suffix [BEL] body end;
  text ← utf8_text body;
  i ← find_sub (bs ";rgb:") text;
  match split_on is_slash (drop (i + 5) text) with
  | [red; green; blue] =>
      red ← parse_hex_uint u16_max red;
      green ← parse_hex_uint u16_max green;
      blue ← parse_hex_uint u16_max blue;
      slot ← parse_uint u8_max (take i text);
      Some (slot, red, green, blue)
  | _ => None
  end.

Definition is_primary_device_attributes_reply (sequence : bytes) : bool :=
  let body :=
    match strip_prefix (ESC :: bs "[?") sequence with
    | Some body => Some body
    | None => strip_prefix (155 :: bs "?") sequence
    end in
  match (body ← body; strip_suffix (bs "c") body) with
  | None => false
  | Some body =>
      negb (bool_decide (body = [])) &&
      forallb (λ parameter, negb (bool_decide (parameter = [])) && forallb is_digit parameter)
        (split_on is_semicolon body)
  end.

Definition is_other_device_attributes_reply (sequence : bytes) : bool :=
  starts_with (ESC :: bs "[>") sequence && ends_with (bs "c") sequence ||
  starts_with (ESC :: bs "P!|") sequence && ends_with [ESC; 92] sequence.

Definition is_clipboard_reply (sequence : bytes) : bool :=
  starts_with (ESC :: bs "]52;") sequence && (ends_with [ESC; 92] sequence || ends_with [BEL] sequence).

(** * The startup probe broker *)

Inductive OversizedSequence := Csi | String (previous_was_escape : bool).
#[export] Instance OversizedSequence_eq_dec : EqDecision OversizedSequence.
Proof. solve_decision. Defined.

Definition from_prefix (prefix : bytes) : option OversizedSequence :=
  match prefix !! 1%nat with
  | Some b =>
      if b =? 91 then Some Csi
      else if is_string_introducer b then Some (String (bool_decide (last prefix = Some ESC)))
      else None
  | None => None
  end.

(** The sequence after the byte, and whether the byte completes it. *)
Definition oversized_consume (b : byte) (o : OversizedSequence) : OversizedSequence * bool :=
  match o with
  | Csi => (Csi, is_final_byte b)
  | String previous_was_escape => (String (b =? ESC), (b =? BEL) || previous_was_escape && (b =? 92))
  end.

(** [ProbePolicy] holds one flag, the reading of the clipboard. *)
Record ProbePolicy := { probe_clipboard_read : bool }.
Definition safe : ProbePolicy := {| probe_clipboard_read := false |}.

Record StartupProbeBroker := {
  profile : PhysicalTerminalProfile;
  report : ProbeReport;
  policy : ProbePolicy;
  last_activity_at_ms : N;
  started : bool;
  finished : bool;
  pending : bytes;
  discarding_oversized : option OversizedSequence;
  malformed_replies : N;
  pixel_width : option N;
  pixel_height : option N;
  foreground_luminance : option N;
  background_luminance : option N;
  primary_device_attributes_received : bool
}.

Definition broker_new (p : PhysicalTerminalProfile) (policy : ProbePolicy) (started_at_ms : N) : StartupProbeBroker :=
  {| profile := p; report := report_default; policy := policy; last_activity_at_ms := started_at_ms;
     started := false; finished := false; pending := []; discarding_oversized := None; malformed_replies := 0;
     pixel_width := None; pixel_height := None; foreground_luminance := None; background_luminance := None;
     primary_device_attributes_received := false |}.

Definition startup_queries (s : StartupProbeBroker) : StartupProbeBroker * bytes :=
  if started s then (s, []) else
  let osc body := ESC :: bs "]" ++ bs body ++ [ESC; 92] in
  let csi body := ESC :: bs "[" ++ bs body in
  (s <| started := true |>,
   csi ">c" ++ csi "=c" ++ csi "14t" ++ csi "16t" ++ csi "18t" ++ csi "?1004$p" ++ csi "?2026$p" ++ csi "?u" ++
   osc "10;?" ++ osc "11;?" ++
   (if probe_clipboard_read (policy s) then osc "52;c;?" else []) ++ csi "c").

(** Recording what a reply says: [self.profile.apply_probe(&self.report)]. *)
Definition record_report (r : ProbeReport) (s : StartupProbeBroker) : StartupProbeBroker :=
  s <| report := r |> <| profile := apply_probe r (profile s) |>.

Definition resolve_color_scheme (s : StartupProbeBroker) : StartupProbeBroker :=
  match foreground_luminance s, background_luminance s with
  | Some foreground, Some background =>
      record_report ((report s) <| report_color_scheme := Some (if background <? foreground then Dark else Light) |>) s
  | _, _ => s
  end.

Definition report_foreground (luminance : N) (s : StartupProbeBroker) : StartupProbeBroker :=
  resolve_color_scheme (s <| foreground_luminance := Some luminance |>).
Definition report_background (luminance : N) (s : StartupProbeBroker) : StartupProbeBroker :=
  resolve_color_scheme (s <| background_luminance := Some luminance |>).

Definition set_geometry (g : TerminalGeometry) (s : StartupProbeBroker) : StartupProbeBroker :=
  s <| profile := (profile s) <| geometry := g |> |>.

(** [u16::try_from(v).unwrap_or(u16::MAX)] *)
Definition to_u16_saturating (v : N) : N := if v <=? u16_max then v else u16_max.

(** The cell size a text-area size in pixels gives when no cell size is known. *)
Definition infer_cell_size (s : StartupProbeBroker) : StartupProbeBroker :=
  let g := geometry (profile s) in
  let g :=
    match pixel_width s with
    | Some width => if (cell_width_px g =? 0) && (0 <? cols g) then g <| cell_width_px := width / cols g |> else g
    | None => g
    end in
  let g :=
    match pixel_height s with
    | Some height => if (cell_height_px g =? 0) && (0 <? rows g) then g <| cell_height_px := height / rows g |> else g
    | None => g
    end in
  set_geometry g s.

Definition store_size (kind first second : N) (s : StartupProbeBroker) : option StartupProbeBroker :=
  let g := geometry (profile s) in
  match kind with
  | 4 => Some (s <| pixel_height := Some first |> <| pixel_width := Some second |>)
  | 6 => Some (set_geometry (g <| cell_height_px := first |> <| cell_width_px := second |>) s)
  | 8 => Some (set_geometry (g <| rows := to_u16_saturating first |> <| cols := to_u16_saturating second |>) s)
  | _ => None
  end.

Definition size_report (kind first second : N) (s : StartupProbeBroker) : StartupProbeBroker * bool :=
  match store_size kind first second s with
  | None => (s, false)
  | Some s =>
      let s := infer_cell_size s in
      (s <| report := (report s) <| report_geometry := Some (geometry (profile s)) |> |>, true)
  end.

Definition consume_reply (sequence : bytes) (s : StartupProbeBroker) : StartupProbeBroker * bool :=
  match parse_mode_report sequence with
  | Some (mode, state) =>
      match mode with
      | 1004 => (record_report ((report s) <| report_focus_reporting := Some ((state =? 1) || (state =? 3)) |>) s, true)
      | 2026 => (record_report ((report s) <| report_synchronized_output := Some ((1 <=? state) && (state <=? 4)) |>) s, true)
      | _ => (s, false)
      end
  | None =>
  match parse_kitty_keyboard_report sequence with
  | Some _ => (record_report ((report s) <| report_kitty_keyboard := Some true |>) s, true)
  | None =>
  match parse_size_report sequence with
  | Some (kind, first, second) => size_report kind first second s
  | None =>
  match parse_color_report sequence with
  | Some (slot, red, green, blue) =>
      let luminance := red * 299 + green * 587 + blue * 114 in
      match slot with
      | 10 => (report_foreground luminance s, true)
      | 11 => (report_background luminance s, true)
      | _ => (s, false)
      end
  | None =>
      if is_primary_device_attributes_reply sequence
      then (s <| primary_device_attributes_received := true |> <| finished := true |>, true)
      else if is_other_device_attributes_reply sequence then (s, true)
      else if probe_clipboard_read (policy s) && is_clipboard_reply sequence
      then (record_report ((report s) <| report_clipboard_read := Some true |>) s, true)
      else (s, false)
  end end end end.

(** The inner loop of [ingest]. *)
Fixpoint drain_pending (fuel : nat) (s : StartupProbeBroker) (output : bytes) : StartupProbeBroker * bytes :=
  match fuel with
  | O => (s, output)
  | S fuel =>
      match pending s with
      | [] => (s, output)
      | b :: rest =>
          if negb (b =? ESC) then drain_pending fuel (s <| pending := rest |>) (output ++ [b]) else
          match complete_escape_len (pending s) with
          | None =>
              if MAX_PROBE_REPLY_BYTES <? len (pending s) then
                (s <| discarding_oversized := from_prefix (pending s) |> <| pending := [] |>
                   <| malformed_replies := sat_add usize_max (malformed_replies s) 1 |>, output)
              else (s, output)
          | Some sequence_len =>
              let sequence := take sequence_len (pending s) in
              let s := s <| pending := drop sequence_len (pending s) |> in
              if MAX_PROBE_REPLY_BYTES <? len sequence then
                drain_pending fuel (s <| malformed_replies := sat_add usize_max (malformed_replies s) 1 |>) output
              else
                let '(s, consumed) := consume_reply sequence s in
                drain_pending fuel s (if consumed then output else output ++ sequence)
          end
      end
  end.

Definition probe_byte (b : byte) (s : StartupProbeBroker) (output : bytes) : StartupProbeBroker * bytes :=
  match discarding_oversized s with
  | Some discarding =>
      let '(discarding, complete) := oversized_consume b discarding in
      (s <| discarding_oversized := if complete then None else Some discarding |>, output)
  | None =>
      let s := s <| pending := pending s ++ [b] |> in
      drain_pending (S (length (pending s))) s output
  end.

Fixpoint probe_loop (input : bytes) (s : StartupProbeBroker) (output : bytes) : StartupProbeBroker * bytes :=
  match input with
  | [] => (s, output)
  | b :: input => let '(s, output) := probe_byte b s output in probe_loop input s output
  end.

Definition ingest (input : bytes) (now_ms : N) (s : StartupProbeBroker) : StartupProbeBroker * bytes :=
  let s := match input with [] => s | _ => s <| last_activity_at_ms := now_ms |> end in
  probe_loop input s [].

(** Nothing of a reply is left to wait for. *)
Definition at_rest (s : StartupProbeBroker) : bool :=
  finished s && bool_decide (pending s = []) && bool_decide (discarding_oversized s = None).

Definition finish_if_timed_out (now_ms : N) (s : StartupProbeBroker) : StartupProbeBroker * bytes :=
  if now_ms - last_activity_at_ms s <=? PROBE_INACTIVITY_TIMEOUT_MS then (s, []) else
  if at_rest s then (s, []) else
  (s <| finished := true |> <| discarding_oversized := None |> <| pending := [] |>, pending s).

Definition next_deadline_ms (s : StartupProbeBroker) : option N :=
  if at_rest s then None
  else Some (sat_add u128_max (last_activity_at_ms s) (PROBE_INACTIVITY_TIMEOUT_MS + 1)).

Definition outstanding_primary_device_attributes_replies (s : StartupProbeBroker) : N :=
  if started s && negb (primary_device_attributes_received s) then 1 else 0.

(** * The shutdown fence *)

Record ShutdownFenceBroker := {
  fence_pending : bytes;
  replies_to_ignore : N;
  observed_replies : N;
  matched : bool
}.

Definition fence_new (replies_to_ignore : N) : ShutdownFenceBroker :=
  {| fence_pending := []; replies_to_ignore := replies_to_ignore; observed_replies := 0; matched := false |}.

Definition is_introducer (b : byte) : bool := (b =? ESC) || (b =? 155).

Definition restart_after_invalid_sequence (b : byte) (s : ShutdownFenceBroker) : ShutdownFenceBroker :=
  s <| fence_pending := if is_introducer b then [b] else [] |>.

Definition ingest_byte (b : byte) (s : ShutdownFenceBroker) : ShutdownFenceBroker * bool :=
  if matched s then (s, true) else
  if bool_decide (fence_pending s = []) then
    (if is_introducer b then s <| fence_pending := [b] |> else s, false)
  else
  let s := s <| fence_pending := fence_pending s ++ [b] |> in
  if bool_decide (fence_pending s = [ESC]) then (s, false) else
  if starts_with [ESC] (fence_pending s) && negb (bool_decide (fence_pending s !! 1%nat = Some 91)) then
    (restart_after_invalid_sequence b s, false)
  else
  let parameter_start := if starts_with (ESC :: bs "[") (fence_pending s) then 2 else 1 in
  if len (fence_pending s) <=? parameter_start then (s, false) else
  if MAX_PROBE_REPLY_BYTES <? len (fence_pending s) then (restart_after_invalid_sequence b s, false) else
  (* the last byte of the buffer, just pushed *)
  if negb (is_final_byte b) then (s, false) else
  let s :=
    if is_primary_device_attributes_reply (fence_pending s) then
      let s := s <| observed_replies := sat_add usize_max (observed_replies s) 1 |> in
      if replies_to_ignore s <? observed_replies s then s <| matched := true |> else s
    else s in
  let s := s <| fence_pending := [] |> in
  (s, matched s).

(** * Replies to applications *)

Section broker.
Context {Owner : Type} `{Countable Owner}.

Definition ApplicationReplyBroker : Type := gmap Owner bytes.

Definition broker_queue (owner : Owner) (reply : bytes) (s : ApplicationReplyBroker) : ApplicationReplyBroker :=
  <[owner := default [] (s !! owner) ++ reply]> s.

Definition broker_take (owner : Owner) (s : ApplicationReplyBroker) : ApplicationReplyBroker * bytes :=
  (delete owner s, default [] (s !! owner)).
End broker.

(** * Policies towards applications *)

Record VirtualTerminalProfile := {
  virtual_geometry : TerminalGeometry;
  virtual_color_scheme : ColorScheme;
  enquiry : bytes;
  version : bytes;
  da_conformance : N;
  da_features : list N;
  da_device_type : N;
  da_firmware_version : N;
  da_unit_id : N;
  virtual_clipboard_read : bool
}.

(** [pkg_version] is CARGO_PKG_VERSION of the build. *)
Definition lector (pkg_version : bytes) (g : TerminalGeometry) (scheme : ColorScheme) : VirtualTerminalProfile :=
  {| virtual_geometry := g; virtual_color_scheme := scheme; enquiry := bs "lector";
     version := bs "Lector " ++ pkg_version; da_conformance := 64; da_features := [22; 28]; da_device_type := 41;
     da_firmware_version := 301; da_unit_id := 0; virtual_clipboard_read := false |}.

Inductive EffectDisposition := Model | LocalClipboard | Internal | Drop.

Definition disposition (e : TerminalEvent) : EffectDisposition :=
  match e with
  | Bell | TitleChanged _ | WorkingDirectoryChanged _ | ProgressReport _ _ => Model
  | ClipboardWrite _ _ => LocalClipboard
  | Query _ | PtyReply _ => Internal
  | DesktopNotification _ _ | UnknownSequence _ _ => Drop
  end.

(** * Complete escape sequences *)

Lemma string_end_bound l i n : string_end l i = Some n → (i < n ≤ i + length l)%nat.
Proof.
  revert i. induction l as [|b l IH]; intros i; cbn [string_end]; [done|].
  destruct (b =? BEL); [intros [= <-]; simpl; lia|].
  destruct ((b =? ESC) && _) eqn:H; [intros [= <-]; destruct l; [by rewrite andb_false_r in H|simpl; lia]|].
  intros Hn%IH. simpl. lia.
Qed.

Lemma string_end_app l l' i n : string_end l i = Some n → string_end (l ++ l') i = Some n.
Proof.
  revert i. induction l as [|b l IH]; intros i; cbn [string_end app]; [done|].
  destruct (b =? BEL); [done|]. destruct (b =? ESC); cbn [andb]; [|apply IH].
  destruct l as [|c l]; cbn [head app]; [done|]. destruct (bool_decide _); [done|apply IH].
Qed.

(** One more byte ends a string that has not ended when it is a BEL, or a
    backslash after an Escape. *)
Lemma string_end_snoc l b i : string_end l i = None →
  string_end (l ++ [b]) i =
  if (b =? BEL) || bool_decide (last l = Some ESC) && (b =? 92) then Some (i + length l + 1)%nat else None.
Proof.
  revert i. induction l as [|c l IH]; intros i; cbn [string_end app].
  - intros _. cbn [head last length]. rewrite !bool_decide_eq_false_2 by done. rewrite andb_false_r. cbn [andb].
    rewrite orb_false_r. destruct (b =? BEL); f_equal; lia.
  - destruct (c =? BEL); [done|]. destruct l as [|d l].
    + intros _. cbn [head last length app string_end]. rewrite !(bool_decide_eq_false_2 (None = Some _)) by done.
      rewrite !andb_false_r. destruct (N.eqb_spec c ESC) as [->|Hc]; cbn [andb].
      * rewrite (bool_decide_eq_true_2 (Some ESC = Some ESC)) by done. cbn [andb].
        destruct (N.eqb_spec b 92) as [Hb|Hb].
        { rewrite bool_decide_eq_true_2 by congruence. rewrite orb_true_r. f_equal. lia. }
        { rewrite bool_decide_eq_false_2 by congruence. rewrite orb_false_r. destruct (b =? BEL); f_equal; lia. }
      * rewrite (bool_decide_eq_false_2 (Some c = Some ESC)) by congruence. cbn [andb]. rewrite orb_false_r.
        destruct (b =? BEL); f_equal; lia.
    + cbn [app head]. destruct ((c =? ESC) && _); [done|]. intros Hn.
      change (d :: l ++ [b]) with ((d :: l) ++ [b]). rewrite IH by done.
      change (last (c :: d :: l)) with (last (d :: l)). destruct (_ || _); [|done]. f_equal. simpl. lia.
Qed.

Lemma complete_escape_len_bound l n : complete_escape_len l = Some n → (2 ≤ n ≤ length l)%nat.
Proof.
  destruct l as [|x [|y l]]; [done..|]. cbn [complete_escape_len length]. destruct (y =? 91).
  - intros H. apply fmap_Some in H as (i & Hi & ->). apply position_lt in Hi. lia.
  - destruct (is_string_introducer y); [|intros [= <-]; lia]. intros Hn%string_end_bound. lia.
Qed.

Lemma position_app_Some f l l' i : position f l = Some i → position f (l ++ l') = Some i.
Proof.
  revert i. induction l as [|x l IH]; intros i; cbn [position app]; [done|]. destruct (f x); [done|].
  intros H. apply fmap_Some in H as (j & Hj & ->). by rewrite (IH j).
Qed.

Lemma complete_escape_len_app l l' n : complete_escape_len l = Some n → complete_escape_len (l ++ l') = Some n.
Proof.
  destruct l as [|x [|y l]]; [done..|]. cbn [complete_escape_len app]. destruct (y =? 91).
  - intros H. apply fmap_Some in H as (i & Hi & ->). by rewrite (position_app_Some _ _ _ i).
  - destruct (is_string_introducer y); [|done]. apply string_end_app.
Qed.

(** A prefix that is cut off has a kind of sequence to discard. *)
Lemma from_prefix_Some p : complete_escape_len p = None → (2 ≤ length p)%nat → ∃ o, from_prefix p = Some o.
Proof.
  destruct p as [|x [|y p]]; cbn [complete_escape_len length]; [lia..|]. intros H _. unfold from_prefix. cbn.
  destruct (y =? 91); [eauto|]. destruct (is_string_introducer y); [eauto|done].
Qed.

(** Discarding follows the sequence that is discarded byte by byte. *)
Lemma discard_step p b o : complete_escape_len p = None → from_prefix p = Some o →
  complete_escape_len (p ++ [b]) = (if (oversized_consume b o).2 then Some (S (length p)) else None) ∧
  from_prefix (p ++ [b]) = Some (oversized_consume b o).1.
Proof.
  destruct p as [|x [|y p]]; [done..|]. unfold from_prefix. cbn [complete_escape_len app].
  change ((x :: y :: p) !! 1%nat) with (Some y). change ((x :: y :: p ++ [b]) !! 1%nat) with (Some y). cbv iota.
  destruct (y =? 91) eqn:Hy.
  - intros Hp [= <-]. split; [|done]. cbn [oversized_consume snd].
    assert (position is_final_byte p = None) as Hnone by (by destruct (position is_final_byte p)).
    destruct (is_final_byte b) eqn:Hb.
    + apply position_None in Hnone. rewrite (position_app_first is_final_byte p b []) by done. cbn. f_equal. lia.
    + assert (position is_final_byte (p ++ [b]) = None) as ->; [|done].
      apply position_None, Forall_app. split; [by apply position_None|by repeat constructor].
  - destruct (is_string_introducer y) eqn:Hi; [|done]. intros Hp [= <-]. cbn [oversized_consume fst snd].
    rewrite string_end_snoc by done. split.
    + assert (bool_decide (last (y :: p) = Some ESC) = bool_decide (last p = Some ESC)) as ->.
      { destruct p as [|z p]; [|done]. rewrite !bool_decide_eq_false_2; [done..|]. intros [= ->]. done. }
      destruct (_ || _); [|done]. f_equal. simpl. lia.
    + f_equal. f_equal. 
      change (x :: y :: p ++ [b]) with ((x :: y :: p) ++ [b]). rewrite last_snoc.
      destruct (N.eqb_spec b ESC) as [->|Hb]; [by rewrite bool_decide_eq_true_2|].
      rewrite bool_decide_eq_false_2; [done|]. congruence.
Qed.

(** With one byte more a sequence is complete with that byte or not at all. *)
Lemma complete_escape_len_snoc p b n :
  complete_escape_len p = None → complete_escape_len (p ++ [b]) = Some n → n = S (length p).
Proof.
  intros Hp Hn. destruct (decide (length p = 1)%nat) as [H1|H1].
  - apply complete_escape_len_bound in Hn. rewrite length_app in Hn. simpl in Hn. lia.
  - assert (2 ≤ length p)%nat as H2.
    { apply complete_escape_len_bound in Hn. rewrite length_app in Hn. simpl in Hn. lia. }
    destruct (from_prefix_Some p Hp H2) as [o Ho]. destruct (discard_step p b o Hp Ho) as [Hs _].
    rewrite Hs in Hn. destruct (oversized_consume b o).2; by simplify_eq.
Qed.

(** * The probe broker's input *)

(** Which complete sequences are replies to Lector's own queries. *)
Definition is_probe_reply (clipboard : bool) (sequence : bytes) : bool :=
  match parse_mode_report sequence with
  | Some (mode, _) => (mode =? 1004) || (mode =? 2026)
  | None =>
  match parse_kitty_keyboard_report sequence with
  | Some _ => true
  | None =>
  match parse_size_report sequence with
  | Some (kind, _, _) => (kind =? 4) || (kind =? 6) || (kind =? 8)
  | None =>
  match parse_color_report sequence with
  | Some (slot, _, _, _) => (slot =? 10) || (slot =? 11)
  | None =>
      is_primary_device_attributes_reply sequence || is_other_device_attributes_reply sequence ||
      clipboard && is_clipboard_reply sequence
  end end end end.

(** The parts of the broker that decide where input goes. *)
Definition same_input (s s' : StartupProbeBroker) : Prop :=
  pending s' = pending s ∧ discarding_oversized s' = discarding_oversized s ∧ policy s' = policy s ∧
  malformed_replies s' = malformed_replies s ∧ last_activity_at_ms s' = last_activity_at_ms s.

Lemma resolve_color_scheme_same s : same_input s (resolve_color_scheme s).
Proof. unfold resolve_color_scheme. destruct (foreground_luminance s), (background_luminance s); by destruct s. Qed.

Lemma infer_cell_size_same s : same_input s (infer_cell_size s).
Proof. by destruct s. Qed.

Lemma size_report_same kind first second s :
  same_input s (size_report kind first second s).1 ∧
  (size_report kind first second s).2 = (kind =? 4) || (kind =? 6) || (kind =? 8).
Proof.
  unfold size_report.
  assert (match store_size kind first second s with
          | Some s' => same_input s s' ∧ (kind =? 4) || (kind =? 6) || (kind =? 8) = true
          | None => (kind =? 4) || (kind =? 6) || (kind =? 8) = false
          end) as H.
  { unfold store_size. repeat case_match; simplify_eq; try done; split; by destruct s. }
  destruct (store_size kind first second s) as [s'|]; cbn [fst snd]; [|by rewrite H]. destruct H as [H ->]. split; [|done].
  revert H. generalize (infer_cell_size_same s'). generalize (infer_cell_size s').
  intros s2. destruct s, s', s2; unfold same_input; cbn; intuition congruence.
Qed.

Lemma consume_reply_same t s :
  same_input s (consume_reply t s).1 ∧ (consume_reply t s).2 = is_probe_reply (probe_clipboard_read (policy s)) t.
Proof.
  unfold consume_reply, is_probe_reply. destruct (parse_mode_report t) as [[mode st]|].
  { repeat case_match; by split; destruct s. }
  destruct (parse_kitty_keyboard_report t); [by split; destruct s|].
  destruct (parse_size_report t) as [[[kind first] second]|]; [apply size_report_same|].
  destruct (parse_color_report t) as [[[[slot r] g] b]|].
  { set (l := r * 299 + g * 587 + b * 114). clearbody l.
    assert (same_input s (report_foreground l s)) by
      (pose proof (resolve_color_scheme_same (s <| foreground_luminance := Some l |>)); by destruct s).
    assert (same_input s (report_background l s)) by
      (pose proof (resolve_color_scheme_same (s <| background_luminance := Some l |>)); by destruct s).
    repeat case_match; by split; try (by destruct s). }
  destruct (is_primary_device_attributes_reply t); [by split; destruct s|].
  destruct (is_other_device_attributes_reply t); [by split|].
  destruct (_ && _); by split; destruct s.
Qed.

Definition broker_ok (s : StartupProbeBroker) : Prop :=
  match discarding_oversized s with
  | Some _ => pending s = []
  | None => pending s = [] ∨ head (pending s) = Some ESC ∧ complete_escape_len (pending s) = None
  end ∧ len (pending s) ≤ MAX_PROBE_REPLY_BYTES.

(** What a byte does when no sequence is being discarded, with [p] the buffer
    including it. *)
Definition pending_step (p : bytes) (s : StartupProbeBroker) (output : bytes) : StartupProbeBroker * bytes :=
  match complete_escape_len p with
  | None =>
      if MAX_PROBE_REPLY_BYTES <? len p then
        (s <| discarding_oversized := from_prefix p |> <| pending := [] |>
           <| malformed_replies := sat_add usize_max (malformed_replies s) 1 |>, output)
      else (s <| pending := p |>, output)
  | Some _ =>
      let s := s <| pending := [] |> in
      if MAX_PROBE_REPLY_BYTES <? len p then (s <| malformed_replies := sat_add usize_max (malformed_replies s) 1 |>, output)
      else let '(s, consumed) := consume_reply p s in (s, if consumed then output else output ++ p)
  end.

Lemma drain_pending_nil fuel s output : pending s = [] → drain_pending fuel s output = (s, output).
Proof. intros H. destruct fuel; [done|]. cbn [drain_pending]. by rewrite H. Qed.

Lemma escape_head b s : broker_ok s → discarding_oversized s = None →
  bool_decide (pending s = []) && negb (b =? ESC) = false → head (pending s ++ [b]) = Some ESC.
Proof.
  intros [Hp _] Hd Hplain. rewrite Hd in Hp. destruct Hp as [Hnil|[Hh _]]; [|by destruct (pending s)].
  rewrite Hnil in Hplain |- *. rewrite bool_decide_eq_true_2 in Hplain by done. cbn [andb] in Hplain.
  apply negb_false_iff, N.eqb_eq in Hplain. by subst.
Qed.

(** In a well-formed broker the loop of [ingest] never runs out of fuel: it
    stops by itself after at most two turns. *)
Lemma probe_byte_eq b s output : broker_ok s → discarding_oversized s = None →
  probe_byte b s output =
  if bool_decide (pending s = []) && negb (b =? ESC) then (s, output ++ [b])
  else pending_step (pending s ++ [b]) s output.
Proof.
  intros [Hp Hlen] Hd. unfold probe_byte. rewrite Hd in Hp |- *. cbv zeta.
  set (p := pending s ++ [b]). set (sp := s <| pending := p |>).
  assert (pending sp = p) as Hsp by by destruct s.
  assert (∀ x, (sp <| pending := x |>) = s <| pending := x |>) as Hset by by destruct s.
  destruct (bool_decide (pending s = []) && negb (b =? ESC)) eqn:Hplain.
  - apply andb_true_iff in Hplain as [Hnil%bool_decide_eq_true Hb].
    assert (p = [b]) as Hpb by (unfold p; by rewrite Hnil). rewrite Hsp, Hpb. cbn [length drain_pending].
    rewrite Hsp, Hpb, Hb, Hset. assert (s <| pending := [] |> = s) as -> by (destruct s; cbn in *; by subst).
    destruct s; cbn in *; by subst.
  - assert (head p = Some ESC) as Hhead by (apply escape_head; [split; [by rewrite Hd|done]|done..]).
    destruct p as [|x p'] eqn:Hpe; [done|]. injection Hhead as ->. rewrite <-Hpe in *.
    cbn [drain_pending]. rewrite Hsp, Hpe. rewrite N.eqb_refl. cbn [negb]. rewrite <-Hpe.
    unfold pending_step. destruct (complete_escape_len p) as [n|] eqn:Hn.
    + assert (n = length p) as ->.
      { destruct Hp as [Hnil|[_ Hnone]].
        - apply complete_escape_len_bound in Hn. unfold p in Hn. rewrite Hnil in Hn. simpl in Hn. lia.
        - unfold p in Hn |- *. apply complete_escape_len_snoc in Hn; [|done]. rewrite Hn, length_app. simpl. lia. }
      rewrite firstn_all, skipn_all, Hset. destruct (MAX_PROBE_REPLY_BYTES <? len p) eqn:Hmax.
      * rewrite drain_pending_nil by by destruct s. by destruct s.
      * pose proof (consume_reply_same p (s <| pending := [] |>)) as [(Hpend & _) _].
        destruct (consume_reply p (s <| pending := [] |>)) as [s' consumed]. cbn [fst] in Hpend.
        rewrite drain_pending_nil; [done|]. rewrite Hpend. by destruct s.
    + destruct (MAX_PROBE_REPLY_BYTES <? len p); [f_equal; by destruct s|]. unfold sp. by rewrite Hpe.
Qed.

Lemma same_input_ok s s' : same_input s s' → broker_ok s → broker_ok s'.
Proof. intros (Hp & Hd & _). unfold broker_ok. by rewrite Hp, Hd. Qed.

Lemma pending_step_ok p s output :
  discarding_oversized s = None → head p = Some ESC → broker_ok (pending_step p s output).1.
Proof.
  intros Hd Hh. unfold pending_step. destruct (complete_escape_len p) as [n|] eqn:Hn.
  - assert (broker_ok (s <| pending := [] |>)) as Hok.
    { destruct s; cbn in *. subst. split; [by left|done]. }
    destruct (_ <? _); [by destruct s|].
    pose proof (consume_reply_same p (s <| pending := [] |>)) as [Hsame _].
    destruct (consume_reply p _) as [s' c]. by apply (same_input_ok (s <| pending := [] |>)).
  - destruct (MAX_PROBE_REPLY_BYTES <? len p) eqn:Hmax; cbn [fst].
    + destruct (from_prefix_Some p) as [o Ho]; [done|unfold MAX_PROBE_REPLY_BYTES in *; lia|].
      destruct s; cbn in *. rewrite Ho. by split.
    + destruct s; cbn in *. subst. split; [by right|]. cbn. lia.
Qed.

Lemma probe_byte_ok b s output : broker_ok s → broker_ok (probe_byte b s output).1.
Proof.
  intros Hok. destruct (discarding_oversized s) as [o|] eqn:Hd.
  - unfold probe_byte. rewrite Hd. destruct (oversized_consume b o) as [o' c].
    destruct Hok as [Hp Hlen]. rewrite Hd in Hp. destruct s; cbn in *. subst. destruct c; by split; [try by left|].
  - rewrite probe_byte_eq by done. destruct (_ && _) eqn:Hplain; [done|].
    apply pending_step_ok; [done|by apply escape_head].
Qed.

Lemma probe_loop_ok l s output : broker_ok s → broker_ok (probe_loop l s output).1.
Proof.
  revert s output. induction l as [|b l IH]; intros s output Hok; cbn [probe_loop]; [done|].
  pose proof (probe_byte_ok b s output Hok). destruct (probe_byte b s output) as [s' o']. by apply IH.
Qed.

(** What the program does to the broker of a session. *)
Inductive BrokerOp := OpQueries | OpIngest (input : bytes) (now_ms : N) | OpTimeout (now_ms : N).

Definition apply_broker_op (s : StartupProbeBroker) (op : BrokerOp) : StartupProbeBroker :=
  match op with
  | OpQueries => (startup_queries s).1
  | OpIngest input now_ms => (ingest input now_ms s).1
  | OpTimeout now_ms => (finish_if_timed_out now_ms s).1
  end.

Lemma apply_broker_op_ok s op : broker_ok s → broker_ok (apply_broker_op s op).
Proof.
  intros Hok. destruct op as [|input now|now]; cbn [apply_broker_op].
  - unfold startup_queries. destruct (started s); by destruct s.
  - unfold ingest. apply probe_loop_ok. by destruct input, s.
  - unfold finish_if_timed_out. destruct (_ <=? _); [done|]. destruct (at_rest s); [done|]. destruct s. by split; [left|].
Qed.

Definition reachable_broker (s : StartupProbeBroker) : Prop :=
  ∃ p policy t ops, s = foldl apply_broker_op (broker_new p policy t) ops.

Lemma reachable_broker_ok s : reachable_broker s → broker_ok s.
Proof.
  intros (p & policy & t & ops & ->). revert ops. apply rev_ind; [by split; [left|]|].
  intros op ops IH. rewrite foldl_app. by apply apply_broker_op_ok.
Qed.

(** ** Chunks: the time of the last activity and the output so far play no part *)

Definition touch (a : N) (s : StartupProbeBroker) : StartupProbeBroker := s <| last_activity_at_ms := a |>.
Definition on_state {A} (f : StartupProbeBroker → StartupProbeBroker) (r : StartupProbeBroker * A) := (f r.1, r.2).

Lemma resolve_color_scheme_touch a s : resolve_color_scheme (touch a s) = touch a (resolve_color_scheme s).
Proof. destruct s. unfold resolve_color_scheme. cbn. by repeat case_match. Qed.

Lemma size_report_touch a kind first second s :
  size_report kind first second (touch a s) = on_state (touch a) (size_report kind first second s).
Proof.
  unfold size_report.
  assert (store_size kind first second (touch a s) = touch a <$> store_size kind first second s) as ->.
  { unfold store_size. change (profile (touch a s)) with (profile s). repeat case_match; try done; by destruct s. }
  destruct (store_size kind first second s) as [s'|]; [|done]. by destruct s'.
Qed.

Lemma consume_reply_touch a t s : consume_reply t (touch a s) = on_state (touch a) (consume_reply t s).
Proof.
  unfold consume_reply. destruct (parse_mode_report t) as [[mode st]|]; [by repeat case_match; destruct s|].
  destruct (parse_kitty_keyboard_report t); [by destruct s|].
  destruct (parse_size_report t) as [[[kind first] second]|]; [apply size_report_touch|].
  destruct (parse_color_report t) as [[[[slot r] g] b]|].
  { cbv zeta. generalize (r * 299 + g * 587 + b * 114). intros l.
    assert (report_foreground l (touch a s) = touch a (report_foreground l s)) as -> by
      (unfold report_foreground; rewrite <-resolve_color_scheme_touch; by destruct s).
    assert (report_background l (touch a s) = touch a (report_background l s)) as -> by
      (unfold report_background; rewrite <-resolve_color_scheme_touch; by destruct s).
    by repeat case_match. }
  change (policy (touch a s)) with (policy s).
  destruct (is_primary_device_attributes_reply t); [by destruct s|].
  destruct (is_other_device_attributes_reply t); [done|]. destruct (_ && _); by destruct s.
Qed.

Lemma drain_pending_touch a fuel s output :
  drain_pending fuel (touch a s) output = on_state (touch a) (drain_pending fuel s output).
Proof.
  revert s output. induction fuel as [|fuel IH]; intros s output; [done|]. cbn [drain_pending].
  change (pending (touch a s)) with (pending s). destruct (pending s) as [|b rest] eqn:Hp; [done|].
  destruct (negb (b =? ESC)); [by rewrite <-IH; destruct s|].
  destruct (complete_escape_len (b :: rest)) as [n|]; [|by destruct (_ <? _); destruct s]. cbv zeta.
  destruct (_ <? _); [by rewrite <-IH; destruct s|].
  assert ((touch a s) <| pending := drop n (b :: rest) |> = touch a (s <| pending := drop n (b :: rest) |>)) as -> by by destruct s.
  rewrite consume_reply_touch. destruct (consume_reply _ _) as [s' c]. cbn [on_state fst snd]. apply IH.
Qed.

Lemma drain_pending_output o1 fuel s output :
  drain_pending fuel s (o1 ++ output) = ((drain_pending fuel s output).1, o1 ++ (drain_pending fuel s output).2).
Proof.
  revert s output. induction fuel as [|fuel IH]; intros s output; [done|]. cbn [drain_pending].
  destruct (pending s) as [|b rest]; [done|].
  destruct (negb (b =? ESC)); [by rewrite <-app_assoc, IH|].
  destruct (complete_escape_len (b :: rest)) as [n|]; [|by destruct (_ <? _)]. cbv zeta.
  destruct (_ <? _); [apply IH|]. destruct (consume_reply _ _) as [s' []]; [apply IH|]. rewrite <-app_assoc. apply IH.
Qed.

Lemma probe_byte_touch a b s output : probe_byte b (touch a s) output = on_state (touch a) (probe_byte b s output).
Proof.
  unfold probe_byte. change (discarding_oversized (touch a s)) with (discarding_oversized s).
  destruct (discarding_oversized s); [destruct (oversized_consume _ _); by destruct s|].
  cbv zeta. rewrite <-drain_pending_touch. by destruct s.
Qed.

Lemma probe_byte_output o1 b s output :
  probe_byte b s (o1 ++ output) = ((probe_byte b s output).1, o1 ++ (probe_byte b s output).2).
Proof.
  unfold probe_byte. destruct (discarding_oversized s); [by destruct (oversized_consume _ _)|]. apply drain_pending_output.
Qed.

Lemma probe_loop_touch a l s output : probe_loop l (touch a s) output = on_state (touch a) (probe_loop l s output).
Proof.
  revert s output. induction l as [|b l IH]; intros s output; [done|]. cbn [probe_loop]. rewrite probe_byte_touch.
  destruct (probe_byte b s output). apply IH.
Qed.

Lemma probe_loop_output o1 l s output :
  probe_loop l s (o1 ++ output) = ((probe_loop l s output).1, o1 ++ (probe_loop l s output).2).
Proof.
  revert s output. induction l as [|b l IH]; intros s output; [done|]. cbn [probe_loop]. rewrite probe_byte_output.
  destruct (probe_byte b s output). apply IH.
Qed.

Lemma probe_loop_app l1 l2 s output :
  probe_loop (l1 ++ l2) s output = let '(s, output) := probe_loop l1 s output in probe_loop l2 s output.
Proof.
  revert s output. induction l1 as [|b l1 IH]; intros s output; [done|]. cbn [probe_loop app].
  destruct (probe_byte b s output). apply IH.
Qed.

(** Reads of the terminal, each with its time. *)
Fixpoint ingest_all (reads : list (N * bytes)) (s : StartupProbeBroker) : StartupProbeBroker * bytes :=
  match reads with
  | [] => (s, [])
  | (now_ms, input) :: reads =>
      let '(s, output) := ingest input now_ms s in
      let '(s, rest) := ingest_all reads s in (s, output ++ rest)
  end.

Lemma ingest_all_eq reads s : ∃ a,
  ingest_all reads s = on_state (touch a) (probe_loop (mjoin (snd <$> reads)) s []).
Proof.
  assert (∀ s, touch (last_activity_at_ms s) s = s) as Hself by by intros [].
  assert (∀ s a b, touch a (touch b s) = touch a s) as Htwice by by intros [].
  revert s. induction reads as [|[now input] reads IH]; intros s.
  - exists (last_activity_at_ms s). cbn [probe_loop mjoin list_join fmap list_fmap ingest_all]. unfold on_state. cbn [fst snd]. by rewrite Hself.
  - cbn [ingest_all fmap list_fmap mjoin list_join snd]. fold (snd <$> reads). fold (mjoin (snd <$> reads)).
    assert (∃ b, ingest input now s = on_state (touch b) (probe_loop input s [])) as [b ->].
    { unfold ingest. destruct input as [|x input].
      - exists (last_activity_at_ms s). cbn [probe_loop mjoin list_join fmap list_fmap ingest_all]. unfold on_state. cbn [fst snd]. by rewrite Hself.
      - exists now. change (s <| last_activity_at_ms := now |>) with (touch now s). apply probe_loop_touch. }
    rewrite probe_loop_app. destruct (probe_loop input s []) as [s1 o1]. cbn [on_state fst snd].
    destruct (IH (touch b s1)) as [a ->]. exists a. rewrite probe_loop_touch.
    rewrite <-(app_nil_r o1), (probe_loop_output o1 (mjoin (snd <$> reads)) s1 []), app_nil_r.
    unfold on_state. cbn [fst snd]. by rewrite Htwice.
Qed.

(** ** Streams of whole sequences *)

(** A byte of text, or one complete escape sequence. *)
Definition token_ok (t : bytes) : Prop :=
  (∃ b, t = [b] ∧ b ≠ ESC) ∨ (head t = Some ESC ∧ complete_escape_len t = Some (length t)).

(** Text, and sequences of acceptable length that are no reply to Lector, are the user's input. *)
Definition is_input (clipboard : bool) (t : bytes) : bool :=
  bool_decide (head t ≠ Some ESC) || (len t <=? MAX_PROBE_REPLY_BYTES) && negb (is_probe_reply clipboard t).

Definition token_state (s : StartupProbeBroker) (t : bytes) : StartupProbeBroker :=
  if bool_decide (head t ≠ Some ESC) then s
  else if MAX_PROBE_REPLY_BYTES <? len t then s <| malformed_replies := sat_add usize_max (malformed_replies s) 1 |>
  else (consume_reply t s).1.

Definition idle (s : StartupProbeBroker) : Prop := pending s = [] ∧ discarding_oversized s = None.

Lemma idle_ok s : idle s → broker_ok s.
Proof. intros [Hp Hd]. unfold broker_ok. rewrite Hp, Hd. split; [by left|]. unfold MAX_PROBE_REPLY_BYTES. simpl. lia. Qed.

Lemma idle_token s t : idle s → idle (token_state s t) ∧ policy (token_state s t) = policy s.
Proof.
  intros [Hp Hd]. unfold token_state. destruct (bool_decide _); [done|]. destruct (_ <? _); [by destruct s|].
  destruct (consume_reply_same t s) as [(Hp' & Hd' & Hpol & _) _]. split; [|done]. split; congruence.
Qed.

(** Where the broker is after a proper prefix of a sequence. *)
Definition after_prefix (p : bytes) (s s' : StartupProbeBroker) : Prop :=
  if MAX_PROBE_REPLY_BYTES <? len p then
    ∃ o, from_prefix p = Some o ∧
      s' = s <| discarding_oversized := Some o |> <| pending := [] |>
             <| malformed_replies := sat_add usize_max (malformed_replies s) 1 |>
  else s' = s <| pending := p |>.

Lemma after_prefix_step p b s s' output :
  idle s → head (p ++ [b]) = Some ESC → complete_escape_len p = None → after_prefix p s s' →
  let '(s2, output2) := probe_byte b s' output in
  if bool_decide (complete_escape_len (p ++ [b]) = None) then after_prefix (p ++ [b]) s s2 ∧ output2 = output
  else s2 = token_state s (p ++ [b]) ∧
    output2 = output ++ (if is_input (probe_clipboard_read (policy s)) (p ++ [b]) then p ++ [b] else []).
Proof.
  intros [Hnil Hidle] Hh Hp Hs'. unfold token_state, is_input. rewrite !(bool_decide_eq_false_2 (head (p ++ [b]) ≠ Some ESC)) by (intros Hn; by apply Hn).
  cbn [orb]. unfold after_prefix in Hs'. destruct (MAX_PROBE_REPLY_BYTES <? len p) eqn:Hmax.
  - destruct Hs' as (o & Ho & ->). destruct (discard_step p b o Hp Ho) as [Hc Ho'].
    assert ((MAX_PROBE_REPLY_BYTES <? len (p ++ [b])) = true) as Hmax' by (rewrite length_app; lia).
    unfold probe_byte. destruct s as [? ? ? ? ? ? pend disc ? ? ? ? ? ?]. cbn in Hnil, Hidle |- *. subst.
    rewrite Hc. destruct (oversized_consume b o) as [o' c]. cbn [snd fst] in *. destruct c.
    + rewrite bool_decide_eq_false_2 by done. rewrite Hmax'. rewrite (proj2 (N.leb_gt _ _)) by lia.
      cbn [andb]. by rewrite app_nil_r.
    + rewrite bool_decide_eq_true_2 by done. split; [|done]. unfold after_prefix. rewrite Hmax'. by exists o'.
  - assert (pending s' = p) as Hps' by (rewrite Hs'; by destruct s).
    assert (discarding_oversized s' = None) as Hd' by (rewrite Hs'; by destruct s).
    assert (broker_ok s') as Hok.
    { unfold broker_ok. rewrite Hd', Hps'. split; [|lia]. destruct p as [|x p]; [by left|right]. by split. }
    rewrite probe_byte_eq by done. rewrite Hps'.
    assert (bool_decide (p = []) && negb (b =? ESC) = false) as ->.
    { destruct p as [|x p]; [|done]. injection Hh as ->. done. }
    unfold pending_step. assert (s' <| pending := [] |> = s) as -> by (rewrite Hs'; destruct s; cbn in *; by subst).
    destruct (complete_escape_len (p ++ [b])) as [n|] eqn:Hn.
    + rewrite bool_decide_eq_false_2 by done. cbv zeta. destruct (MAX_PROBE_REPLY_BYTES <? len (p ++ [b])) eqn:Hmax'.
      * rewrite (proj2 (N.leb_gt _ _)) by lia. cbn [andb]. by rewrite app_nil_r.
      * rewrite (proj2 (N.leb_le _ _)) by lia. cbn [andb].
        destruct (consume_reply_same (p ++ [b]) s) as [_ Hc]. destruct (consume_reply (p ++ [b]) s) as [s2 c].
        cbn [fst snd] in *. split; [done|]. rewrite <-Hc. by destruct c; [rewrite app_nil_r|].
    + rewrite bool_decide_eq_true_2 by done. unfold after_prefix.
      destruct (MAX_PROBE_REPLY_BYTES <? len (p ++ [b])) eqn:Hmax'; [|split; [rewrite Hs'; by destruct s|done]].
      split; [|done]. destruct (from_prefix_Some (p ++ [b])) as [o Ho]; [done|unfold MAX_PROBE_REPLY_BYTES in *; lia|].
      exists o. split; [done|]. rewrite Ho, Hs'. by destruct s.
Qed.

Lemma probe_loop_prefix p s output : idle s → (p = [] ∨ head p = Some ESC) → complete_escape_len p = None →
  ∃ s', probe_loop p s output = (s', output) ∧ after_prefix p s s'.
Proof.
  intros Hidle. induction p as [|b p IH] using rev_ind; intros Hh Hp.
  - exists s. split; [done|]. unfold after_prefix. cbn. destruct Hidle. destruct s; cbn in *. by subst.
  - assert (complete_escape_len p = None) as Hp'.
    { destruct (complete_escape_len p) as [n|] eqn:Hn; [|done].
      by rewrite (complete_escape_len_app _ [b] _ Hn) in Hp. }
    destruct Hh as [Hh|Hh]; [by destruct p|].
    destruct IH as (s' & Hloop & Hs'); [destruct p; [by left|by right]|done|].
    rewrite probe_loop_app, Hloop. cbn [probe_loop].
    pose proof (after_prefix_step p b s s' output Hidle Hh Hp' Hs') as H.
    destruct (probe_byte b s' output) as [s2 o2]. rewrite bool_decide_eq_true_2 in H by done.
    destruct H as [H ->]. eauto.
Qed.

Lemma probe_loop_token t s output : idle s → token_ok t →
  probe_loop t s output =
  (token_state s t, output ++ (if is_input (probe_clipboard_read (policy s)) t then t else [])).
Proof.
  intros Hidle [(b & -> & Hb)|[Hh Ht]].
  - cbn [probe_loop]. rewrite probe_byte_eq; [|by apply idle_ok|apply Hidle].
    rewrite (proj1 Hidle). rewrite bool_decide_eq_true_2 by done. rewrite (proj2 (N.eqb_neq b ESC)) by done.
    cbn [andb negb]. unfold token_state, is_input.
    by rewrite bool_decide_eq_true_2 by (cbn; congruence).
  - destruct (exists_last (l := t)) as (p & b & ->); [by destruct t|].
    assert (complete_escape_len p = None) as Hp.
    { destruct (complete_escape_len p) as [n|] eqn:Hn; [|done]. pose proof (complete_escape_len_bound _ _ Hn).
      rewrite (complete_escape_len_app _ [b] _ Hn), length_app in Ht. simplify_eq. simpl in *. lia. }
    destruct (probe_loop_prefix p s output Hidle) as (s' & Hloop & Hs'); [destruct p; [by left|by right]|done|].
    rewrite probe_loop_app, Hloop. cbn [probe_loop].
    pose proof (after_prefix_step p b s s' output Hidle Hh Hp Hs') as H.
    destruct (probe_byte b s' output) as [s2 o2]. rewrite bool_decide_eq_false_2 in H by by rewrite Ht.
    by destruct H as [-> ->].
Qed.

Lemma probe_loop_tokens ts s output : idle s → Forall token_ok ts →
  probe_loop (mjoin ts) s output =
  (foldl token_state s ts, output ++ mjoin (List.filter (is_input (probe_clipboard_read (policy s))) ts)).
Proof.
  intros Hidle Hts. revert s output Hidle. induction Hts as [|t ts Ht _ IH]; intros s output Hidle.
  - cbn. by rewrite app_nil_r.
  - cbn [mjoin list_join]. fold (mjoin ts). rewrite probe_loop_app, probe_loop_token by done.
    destruct (idle_token s t Hidle) as [Hidle' Hpol]. rewrite IH by done. rewrite Hpol. cbn [foldl List.filter].
    f_equal. rewrite <-app_assoc. f_equal. by destruct (is_input _ t).
Qed.

(** C5. However the terminal's input is cut into reads, the broker takes out
    exactly the replies to Lector's own queries (and oversized sequences) and
    hands on everything else, in order and byte for byte; each reply updates
    the profile in its turn, and nothing is held back after a whole sequence. *)
Theorem probe_replies_are_removed_exactly reads ts s :
  Forall token_ok ts → mjoin (snd <$> reads) = mjoin ts → pending s = [] → discarding_oversized s = None →
  let '(s', output) := ingest_all reads s in
  output = mjoin (List.filter (is_input (probe_clipboard_read (policy s))) ts) ∧
  s' <| last_activity_at_ms := last_activity_at_ms s |> = foldl token_state s ts ∧
  pending s' = [] ∧ discarding_oversized s' = None.
Proof.
  intros Hts Hreads Hp Hd. assert (idle s) as Hidle by done. destruct (ingest_all_eq reads s) as [a ->].
  rewrite Hreads, probe_loop_tokens by done. unfold on_state. cbn [fst snd app].
  assert (idle (foldl token_state s ts) ∧ last_activity_at_ms (foldl token_state s ts) = last_activity_at_ms s) as [[Hp' Hd'] Ha].
  { clear Hts Hreads Hp Hd. revert s Hidle. induction ts as [|t ts IH]; intros s Hidle; [done|]. cbn [foldl].
    destruct (IH (token_state s t)) as [H1 H2]; [by apply idle_token|]. split; [done|]. rewrite H2.
    unfold token_state. destruct (bool_decide _); [done|]. destruct (_ <? _); [done|]. apply consume_reply_same. }
  split_and!; [done| |done|done]. rewrite <-Ha. by destruct (foldl token_state s ts).
Qed.

Lemma probe_replies_are_removed_exactly_witness :
  let s := broker_new (conservative (from_cells 24 80)) safe 0 in
  let sync := ESC :: bs "[?2026;2$y" in
  let up := ESC :: bs "[A" in
  let '(s', output) := ingest_all [(1, bs "a" ++ ESC :: bs "[?20"); (2, bs "26;2$y" ++ [ESC]); (3, bs "[A")] s in
  output = bs "a" ++ up ∧ synchronized_output (profile s') = true.
Proof.
  set (s := broker_new _ _ _). set (sync := ESC :: bs "[?2026;2$y"). set (up := ESC :: bs "[A").
  pose proof (probe_replies_are_removed_exactly [(1, bs "a" ++ ESC :: bs "[?20"); (2, bs "26;2$y" ++ [ESC]); (3, bs "[A")]
    [bs "a"; sync; up] s) as H. cbv zeta.
  destruct (ingest_all _ s) as [s' output]. destruct H as (-> & Hs' & _).
  - apply Forall_cons. split; [by left; exists 97|]. apply Forall_cons.
    split; [right; split; vm_compute; reflexivity|]. apply Forall_singleton. right; split; vm_compute; reflexivity.
  - vm_compute. reflexivity.
  - reflexivity.
  - reflexivity.
  - split; [vm_compute; reflexivity|].
    assert (profile s' = profile (s' <| last_activity_at_ms := last_activity_at_ms s |>)) as -> by by destruct s'.
    rewrite Hs'. vm_compute. reflexivity.
Defined.

(** C26. A reachable broker never keeps input for good, and never keeps much: it
    holds back at most one unfinished escape sequence of at most 4096 bytes and
    none while it discards an oversized one; nothing is held once there is no
    deadline; before the deadline the timeout does nothing, and from the
    deadline on it hands the held bytes over and leaves nothing to wait for. *)
Theorem held_input_is_released s :
  reachable_broker s → last_activity_at_ms s + PROBE_INACTIVITY_TIMEOUT_MS < u128_max →
  (pending s = [] ∨ head (pending s) = Some ESC ∧ complete_escape_len (pending s) = None) ∧
  (is_Some (discarding_oversized s) → pending s = []) ∧
  len (pending s) ≤ MAX_PROBE_REPLY_BYTES ∧
  match next_deadline_ms s with
  | None => finished s = true ∧ idle s
  | Some deadline =>
      (∀ now, now < deadline → finish_if_timed_out now s = (s, [])) ∧
      (∀ now, deadline ≤ now →
        let '(s', output) := finish_if_timed_out now s in
        output = pending s ∧ finished s' = true ∧ idle s' ∧ next_deadline_ms s' = None)
  end.
Proof.
  intros Hr Ht. destruct (reachable_broker_ok s Hr) as [Hp Hlen]. split_and!; [| |done|].
  { destruct (discarding_oversized s); [by left|done]. }
  { intros [d Hd]. by rewrite Hd in Hp. }
  unfold next_deadline_ms. destruct (at_rest s) eqn:Hrest.
  - unfold at_rest in Hrest. apply andb_true_iff in Hrest as [[Hf Hp']%andb_true_iff Hd].
    by apply bool_decide_eq_true in Hp', Hd.
  - unfold sat_add. split.
    + intros now Hnow. unfold finish_if_timed_out.
      by rewrite (proj2 (N.leb_le _ _)) by (unfold PROBE_INACTIVITY_TIMEOUT_MS in *; lia).
    + intros now Hnow. unfold finish_if_timed_out. rewrite Hrest.
      rewrite (proj2 (N.leb_gt _ _)) by (unfold PROBE_INACTIVITY_TIMEOUT_MS in *; lia). by split_and!.
Qed.

Lemma held_input_is_released_witness :
  let s := (ingest (ESC :: bs "[4;48") 7 (broker_new (conservative (from_cells 24 80)) safe 0)).1 in
  next_deadline_ms s = Some 58 ∧ (finish_if_timed_out 60 s).2 = ESC :: bs "[4;48".
Proof.
  set (s := (ingest _ 7 _).1).
  destruct (held_input_is_released s) as (_ & _ & _ & H).
  - exists (conservative (from_cells 24 80)), safe, 0, [OpIngest (ESC :: bs "[4;48") 7]. reflexivity.
  - vm_compute. reflexivity.
  - assert (next_deadline_ms s = Some 58) as Hd by (vm_compute; reflexivity). split; [exact Hd|].
    rewrite Hd in H. destruct H as [_ H]. specialize (H 60 ltac:(lia)).
    destruct (finish_if_timed_out 60 s) as [s' output]. destruct H as [-> _]. vm_compute. reflexivity.
Defined.

(** * The shutdown fence *)

(** What a terminal can send in front of the fence's reply: bytes that open
    nothing, an Escape with another byte, and control sequences. *)
Inductive FenceItem :=
| Plain (b : byte)
| Escaped (b : byte)
| Control (introducer parameters : bytes) (final : byte).

Definition item_bytes (i : FenceItem) : bytes :=
  match i with
  | Plain b => [b]
  | Escaped b => [ESC; b]
  | Control introducer parameters final => introducer ++ parameters ++ [final]
  end.

Definition item_ok (i : FenceItem) : Prop :=
  match i with
  | Plain b => is_introducer b = false
  | Escaped b => is_introducer b = false ∧ b ≠ 91
  | Control introducer parameters final =>
      (introducer = [155] ∨ introducer = ESC :: bs "[") ∧ Forall (λ b, is_final_byte b = false) parameters ∧
      is_final_byte final = true ∧ len (item_bytes i) ≤ MAX_PROBE_REPLY_BYTES
  end.

Definition is_fence_reply (i : FenceItem) : bool := is_primary_device_attributes_reply (item_bytes i).

(** Feeding bytes one at a time, with the answer to each. *)
Fixpoint feed (l : bytes) (s : ShutdownFenceBroker) : ShutdownFenceBroker * list bool :=
  match l with
  | [] => (s, [])
  | b :: l =>
      let '(s, answer) := ingest_byte b s in
      let '(s, answers) := feed l s in (s, answer :: answers)
  end.

Lemma feed_app l1 l2 s :
  feed (l1 ++ l2) s =
  let '(s, a1) := feed l1 s in let '(s, a2) := feed l2 s in (s, a1 ++ a2).
Proof.
  revert s. induction l1 as [|b l1 IH]; intros s; cbn [feed app]; [by destruct (feed l2 s)|].
  destruct (ingest_byte b s) as [s1 a]. rewrite IH. destruct (feed l1 s1) as [s2 a1]. by destruct (feed l2 s2).
Qed.

(** A reply has to open with an introducer. *)
Lemma short_is_no_reply l : head l ≠ Some ESC → head l ≠ Some 155 → is_primary_device_attributes_reply l = false.
Proof.
  intros H1 H2. unfold is_primary_device_attributes_reply.
  assert (∀ x p, head l ≠ Some x → strip_prefix (x :: p) l = None) as H.
  { intros x p Hx. destruct l as [|y l]; [done|]. cbn. destruct (N.eqb_spec x y); [by subst|done]. }
  by rewrite !H.
Qed.

(** The state between items, after [n] of the replies that count. *)
Definition fence_at (n : N) (ignore : N) : ShutdownFenceBroker :=
  {| fence_pending := []; replies_to_ignore := ignore; observed_replies := n; matched := false |}.

Definition collecting (p : bytes) (n ignore : N) : ShutdownFenceBroker := (fence_at n ignore) <| fence_pending := p |>.

Definition is_control_introducer (l : bytes) : Prop := l = [155] ∨ l = ESC :: bs "[".

(** A byte that continues an open control sequence is collected; a final one ends it. *)
Lemma ingest_byte_collecting introducer p b n ignore :
  is_control_introducer introducer → len (introducer ++ p ++ [b]) ≤ MAX_PROBE_REPLY_BYTES →
  ingest_byte b (collecting (introducer ++ p) n ignore) =
  let s := collecting (introducer ++ p ++ [b]) n ignore in
  if negb (is_final_byte b) then (s, false) else
  let s :=
    if is_primary_device_attributes_reply (introducer ++ p ++ [b]) then
      let s := s <| observed_replies := sat_add usize_max n 1 |> in
      if ignore <? sat_add usize_max n 1 then s <| matched := true |> else s
    else s in
  (s <| fence_pending := [] |>, matched s).
Proof.
  intros Hi Hlen. unfold ingest_byte. change (matched (collecting (introducer ++ p) n ignore)) with false.
  change (fence_pending (collecting (introducer ++ p) n ignore)) with (introducer ++ p).
  rewrite bool_decide_eq_false_2 by by destruct Hi as [->| ->].
  rewrite <-app_assoc. set (q := introducer ++ p ++ [b]) in *. cbv zeta.
  change ((collecting (introducer ++ p) n ignore) <| fence_pending := q |>) with (collecting q n ignore).
  change (fence_pending (collecting q n ignore)) with q.
  rewrite (bool_decide_eq_false_2 (q = [ESC])) by (unfold q; destruct Hi as [->| ->]; [done|by destruct p]).
  assert (starts_with [ESC] q && negb (bool_decide (q !! 1%nat = Some 91)) = false) as ->.
  { unfold q. destruct Hi as [->| ->]; [by rewrite andb_false_iff; left|].
    change (((ESC :: bs "[") ++ p ++ [b]) !! 1%nat) with (Some 91). by rewrite bool_decide_eq_true_2, andb_false_r. }
  assert ((if starts_with (ESC :: bs "[") q then 2 else 1) = len introducer) as ->.
  { unfold q. destruct Hi as [->| ->]; [done|].
    by rewrite (proj2 (starts_with_spec _ _)) by by exists (p ++ [b]). }
  rewrite (proj2 (N.leb_gt (len q) _)) by (unfold q; rewrite !length_app; simpl; lia).
  rewrite (proj2 (N.ltb_ge _ _)) by done. destruct (negb (is_final_byte b)); [done|].
  destruct (is_primary_device_attributes_reply q); [|done].
  change (observed_replies (collecting q n ignore)) with n. cbn -[sat_add N.ltb usize_max]. by destruct (ignore <? sat_add usize_max n 1).
Qed.

Lemma feed_parameters introducer parameters p n ignore :
  is_control_introducer introducer → Forall (λ b, is_final_byte b = false) parameters →
  len (introducer ++ p ++ parameters) ≤ MAX_PROBE_REPLY_BYTES →
  feed parameters (collecting (introducer ++ p) n ignore) =
  (collecting (introducer ++ p ++ parameters) n ignore, replicate (length parameters) false).
Proof.
  intros Hi Hparams. revert p. induction Hparams as [|b l Hb _ IH]; intros p Hlen; [by rewrite app_nil_r|].
  cbn [feed length replicate]. rewrite ingest_byte_collecting; [|done|rewrite !length_app in *; simpl in *; lia].
  rewrite Hb. cbn [negb]. cbv zeta. rewrite IH by by rewrite <-app_assoc. by rewrite <-app_assoc.
Qed.

Lemma feed_introducer introducer n ignore : is_control_introducer introducer →
  feed introducer (fence_at n ignore) = (collecting introducer n ignore, replicate (length introducer) false).
Proof. by intros [->| ->]. Qed.

Lemma ingest_byte_escaped b n ignore : is_introducer b = false → b ≠ 91 →
  ingest_byte b (collecting [ESC] n ignore) = (fence_at n ignore, false).
Proof.
  intros Hb Hb'. unfold ingest_byte. change (matched (collecting [ESC] n ignore)) with false.
  change (fence_pending (collecting [ESC] n ignore)) with [ESC]. rewrite bool_decide_eq_false_2 by done.
  cbv zeta. change ((collecting [ESC] n ignore) <| fence_pending := [ESC] ++ [b] |>) with (collecting [ESC; b] n ignore).
  change (fence_pending (collecting [ESC; b] n ignore)) with [ESC; b]. rewrite (bool_decide_eq_false_2 ([ESC; b] = [ESC])) by done.
  change (starts_with [ESC] [ESC; b]) with true. change ([ESC; b] !! 1%nat) with (Some b).
  rewrite (bool_decide_eq_false_2 (Some b = Some 91)) by congruence. cbn [negb andb].
  unfold restart_after_invalid_sequence. by rewrite Hb.
Qed.

(** What an item does to the fence once [n] replies have counted, and the answer to its last byte. *)
Definition after_reply (reply : bool) (n ignore : N) : ShutdownFenceBroker * bool :=
  if reply then
    let s := fence_at (n + 1) ignore in
    if ignore <? n + 1 then (s <| matched := true |>, true) else (s, false)
  else (fence_at n ignore, false).

Lemma feed_item i n ignore : item_ok i → n < usize_max →
  let '(s, answer) := after_reply (is_fence_reply i) n ignore in
  feed (item_bytes i) (fence_at n ignore) = (s, replicate (length (item_bytes i) - 1) false ++ [answer]).
Proof.
  intros Hi Hn. destruct i as [b|b|introducer parameters final]; unfold is_fence_reply; cbn [item_bytes].
  - rewrite short_is_no_reply; [|intros [= ->]; done..]. cbn [after_reply feed]. unfold ingest_byte. cbn.
    cbn in Hi. by rewrite Hi.
  - destruct Hi as [Hb Hb'].
    assert (is_primary_device_attributes_reply [ESC; b] = false) as ->.
    { unfold is_primary_device_attributes_reply.
      by rewrite !(proj2 (strip_prefix_None _ _)) by (intros [r [=]]; congruence). }
    cbn [after_reply feed]. change (ingest_byte ESC (fence_at n ignore)) with (collecting [ESC] n ignore, false).
    cbv iota beta. by rewrite ingest_byte_escaped.
  - destruct Hi as (Hintro & Hparams & Hfinal & Hlen). cbn [item_bytes] in Hlen.
    rewrite feed_app, feed_introducer by done. rewrite feed_app.
    pose proof (feed_parameters introducer parameters [] n ignore Hintro Hparams) as Hp.
    rewrite app_nil_r in Hp. cbn [app] in Hp. rewrite Hp by (rewrite !length_app in *; simpl in *; lia).
    cbn [feed]. rewrite ingest_byte_collecting by done. rewrite Hfinal. cbn [negb]. cbv zeta.
    assert (sat_add usize_max n 1 = n + 1) as -> by (unfold sat_add; lia).
    assert (length (introducer ++ parameters ++ [final]) - 1 = length introducer + length parameters)%nat as ->
      by (rewrite !length_app; simpl; lia).
    unfold after_reply. destruct (is_primary_device_attributes_reply _); [destruct (ignore <? n + 1)|];
      by rewrite replicate_add, <-app_assoc.
Qed.

Definition replies (items : list FenceItem) : N := len (List.filter is_fence_reply items).

Lemma feed_items items n ignore : Forall item_ok items → n + replies items ≤ ignore → ignore < usize_max →
  feed (mjoin (item_bytes <$> items)) (fence_at n ignore) =
  (fence_at (n + replies items) ignore, replicate (length (mjoin (item_bytes <$> items))) false).
Proof.
  intros Hitems. revert n. induction Hitems as [|i items Hi _ IH]; intros n Hn Husize.
  - cbn. by rewrite N.add_0_r.
  - cbn [fmap list_fmap mjoin list_join]. fold (item_bytes <$> items). fold (mjoin (item_bytes <$> items)).
    pose proof (feed_item i n ignore Hi ltac:(lia)) as Hfeed. rewrite feed_app.
    assert (length (item_bytes i) ≠ 0%nat) as Hne by (destruct i as [| |? ? ?]; simpl; rewrite ?length_app; simpl; lia).
    unfold replies in Hn |- *. cbn [List.filter] in Hn |- *. unfold after_reply in Hfeed.
    rewrite length_app, replicate_add.
    assert (replicate (length (item_bytes i)) false = replicate (length (item_bytes i) - 1) false ++ [false]) as Hrep.
    { change [false] with (replicate 1 false). rewrite <-replicate_add. f_equal. lia. }
    destruct (is_fence_reply i).
    + cbn [length] in Hn |- *. rewrite (proj2 (N.ltb_ge _ _)) in Hfeed by lia. rewrite Hfeed, IH by (unfold replies; lia).
      rewrite Hrep. unfold replies. f_equal. f_equal. lia.
    + rewrite Hfeed, IH by done. by rewrite Hrep.
Qed.

(** The shutdown fence ignores exactly the replies it was told to ignore
    and stops at the next one: whatever focus events, keys and other control
    sequences come in between, it answers no to every byte before the last one
    of that reply, and yes there, so that no byte after the fence is read. *)
Theorem fence_stops_at_its_reply ignore items reply :
  Forall item_ok items → replies items = ignore → ignore < usize_max →
  item_ok reply → is_fence_reply reply = true →
  let stream := mjoin (item_bytes <$> items) ++ item_bytes reply in
  let '(s, answers) := feed stream (fence_new ignore) in
  answers = replicate (length stream - 1) false ++ [true] ∧
  matched s = true ∧ observed_replies s = ignore + 1.
Proof.
  intros Hitems Hcount Husize Hreply Hr stream. unfold stream. rewrite feed_app.
  change (fence_new ignore) with (fence_at 0 ignore). rewrite feed_items; [|done|lia|done].
  rewrite N.add_0_l, Hcount. pose proof (feed_item reply ignore ignore Hreply Husize) as Hfeed.
  rewrite Hr in Hfeed. unfold after_reply in Hfeed. rewrite (proj2 (N.ltb_lt _ _)) in Hfeed by lia. rewrite Hfeed.
  split_and!; [|done|done]. rewrite app_assoc, <-replicate_add, length_app. f_equal. f_equal.
  destruct reply as [| |? ? ?]; simpl; rewrite ?length_app; simpl; lia.
Qed.

Lemma fence_stops_at_its_reply_witness :
  let focus_out := Control (ESC :: bs "[") [] 79 in
  let da introducer := Control introducer (bs "?62;22") 99 in
  let stream := bs "q" ++ ESC :: bs "[?62;22c" ++ ESC :: bs "[O" ++ 155 :: bs "?62;22c" in
  (feed stream (fence_new 1)).2 = replicate (length stream - 1) false ++ [true] ∧
  item_ok focus_out ∧ is_fence_reply (da [155]) = true.
Proof.
  set (focus_out := Control _ [] 79). set (da := λ introducer, Control introducer _ 99).
  assert (∀ i, is_control_introducer i → item_ok (da i)) as Hda.
  { intros i Hi. split_and!; [done|by repeat constructor|done|].
    destruct Hi as [->| ->]; vm_compute; discriminate. }
  assert (item_ok focus_out) as Hfocus.
  { split_and!; [by right|constructor|done|vm_compute; discriminate]. }
  split; [|split; [exact Hfocus|vm_compute; reflexivity]].
  pose proof (fence_stops_at_its_reply 1 [Plain 113; da (ESC :: bs "["); focus_out] (da [155])) as H.
  cbv zeta. assert (bs "q" ++ ESC :: bs "[?62;22c" ++ ESC :: bs "[O" ++ 155 :: bs "?62;22c" =
    mjoin (item_bytes <$> [Plain 113; da (ESC :: bs "["); focus_out]) ++ item_bytes (da [155])) as -> by reflexivity.
  cbv zeta in H. destruct (feed _ (fence_new 1)) as [s answers]. destruct H as [-> _].
  - apply Forall_cons. split; [reflexivity|]. apply Forall_cons. split; [apply Hda; by right|]. by apply Forall_singleton.
  - vm_compute. reflexivity.
  - done.
  - apply Hda. by left.
  - vm_compute. reflexivity.
  - done.
Defined.

(** * Precedence of the profile's sources *)

(** In the order of [apply_terminfo] and [apply_overrides] an override wins. *)
Lemma override_wins t o p b : override_synchronized_output o = Some b →
  synchronized_output (apply_overrides o (apply_terminfo t p)) = b.
Proof. intros H. cbn. by rewrite H. Qed.

(** Probe replies come later, and win over the overrides: with
    LECTOR_OUTER_SYNC=off, a terminal that reports mode 2026 turns synchronized
    output on. *)
Example probe_beats_override :
  let env key := if bool_decide (key = bs "LECTOR_OUTER_SYNC") then Some (bs "off") else None in
  match startup_profile (from_cells 24 80) None env with
  | Ok p => synchronized_output (profile (ingest (ESC :: bs "[?2026;2$y") 1 (broker_new p safe 0)).1)
  | Err _ => false
  end = true.
Proof. vm_compute. reflexivity. Qed.

(** * Replies to applications *)

(** Replies queued for an owner come out once, joined in order, and touch no other owner. *)
Lemma broker_take_queue {Owner} `{Countable Owner} (o o' : Owner) l s :
  (broker_take o (foldl (λ s r, broker_queue o r s) s l)).2 = default [] (s !! o) ++ mjoin l ∧
  (o ≠ o' → broker_take o' (foldl (λ s r, broker_queue o r s) s l) =
    ((broker_take o' (foldl (λ s r, broker_queue o r s) s l)).1, default [] (s !! o'))) ∧
  (broker_take o (broker_take o s).1).2 = [].
Proof.
  split_and!.
  - revert s. induction l as [|r l IH]; intros s; [by rewrite app_nil_r|]. cbn [foldl]. rewrite IH.
    assert (broker_queue o r s !! o = Some (default [] (s !! o) ++ r)) as -> by exact (lookup_insert_eq (M := gmap Owner) s o _).
    change (mjoin (r :: l)) with (r ++ mjoin l). cbn [default]. by rewrite app_assoc.
  - intros Ho. unfold broker_take. cbn. f_equal. revert s. induction l as [|r l IH]; intros s; [done|].
    cbn [foldl]. rewrite IH. f_equal. exact (lookup_insert_ne (M := gmap Owner) s o o' _ Ho).
  - cbn. change (default [] (delete o s !! o) = []). by rewrite (lookup_delete_eq (M := gmap Owner) s o : delete o s !! o = None).
Qed.
