(* ===== verification/SpeechSupervisor.v ===== *)
(** The supervisor of the speech server process (src/src/speech/supervisor.rs):
    deferred start, buffering of speech before it, restart after a crash,
    replacement at run time, and the handle through which the event loop
    terminates a blocked worker.

    The supervisor runs on the speech worker; the event loop uses the handle
    at the same time.  Every lock of the handle is a point where the event loop
    may have acted before ([lock]): the environment says how.  The process
    factory, the drivers and the clock are the interface [ProcessFactory]; the
    log of a [World] records what is done to processes.  A speech rate is the
    32 bits of its [f32]; times are nanoseconds. *)

From S2P Require Import Prelude.
Local Open Scope N_scope.

Definition CRASH_WINDOW : N := 30 * 1000000000.
Definition MAX_EVENTS : N := 32.
Definition MAX_PENDING_SPEECH_ITEMS : N := 32.
Definition MAX_PENDING_SPEECH_BYTES : N := 256 * 1024.
Definition MAX_PENDING_SPEECH_ITEM_BYTES : N := 64 * 1024.
Definition TRUNCATION_SUFFIX : bytes := SP :: utf8_encode 8230 ++ bs " speech truncated".

(** * Data *)

Inductive SpeechServerSpec := Native | Process (program : bytes) (args : list bytes).

Inductive SupervisorEvent :=
| Fatal (message : bytes)
| Reconfigured (spec : SpeechServerSpec)
| ReconfigureFailed (message : bytes).

(** Requests a driver serves. *)
Inductive Request := Speak (text : bytes) (interrupt : bool) | Stop | SetRate (bits : N).

(** An [anyhow::Error]: its text, and whether the process is lost with it. *)
Record DriverError := { message : bytes; is_transport_failure : bool }.
Definition anyhow (m : bytes) : DriverError := {| message := m; is_transport_failure := false |}.
Definition with_context (context : bytes) (e : DriverError) : DriverError :=
  {| message := context ++ bs ": " ++ message e; is_transport_failure := is_transport_failure e |}.

Record HandleState := {
  events : list SupervisorEvent;
  owned_terminators : gset N;
  notifier : bool;
  shutting_down : bool
}.

Definition handle_new : HandleState :=
  {| events := []; owned_terminators := ∅; notifier := false; shutting_down := false |}.

(** What happens to processes, by generation: the factory is asked for one, it
    starts, its terminator is called, it serves a request, it is reaped.
    [Wake] is a call of the notifier. *)
Inductive Effect :=
| Attempt (generation : N) | Start (generation : N) | Terminate (generation : N)
| Call (generation : N) (request : Request) | Reap (generation : N) | Wake.

(** What the event loop does with the handle. *)
Inductive HandleOp := TakeEvents | TerminateAll | SetNotifier.

Inductive SpawnOutcome :=
| NotStarted (e : DriverError)
| DiedAfterStart (e : DriverError)
| Ready.

Class ProcessFactory (E : Type) := {
  factory_spawn : SpeechServerSpec → E → E * SpawnOutcome;
  driver_call : N → Request → E → E * option DriverError;
  clock : E → E * N;
  event_loop : E → E * list HandleOp
}.

Record Supervisor := {
  spec : SpeechServerSpec;
  active : option N;
  desired_rate : N;
  pending_speech : list (bytes * bool);
  pending_speech_bytes : N;
  started : bool;
  startup_error : option bytes;
  fatal_error : option bytes;
  last_crash : option N;
  next_generation : N
}.

Definition RATE_ONE : N := 1065353216.

Definition supervisor_new (sp : SpeechServerSpec) : Supervisor :=
  {| spec := sp; active := None; desired_rate := RATE_ONE; pending_speech := []; pending_speech_bytes := 0;
     started := false; startup_error := None; fatal_error := None; last_crash := None; next_generation := 1 |}.

(** [f32::is_finite]: the exponent is not all ones. *)
Definition is_finite (bits : N) : bool := negb (N.land (N.shiftr bits 23) 255 =? 255).

(** * Buffered text *)

(** [str::is_char_boundary] *)
Definition is_char_boundary (text : bytes) (i : nat) : bool :=
  match text !! i with
  | Some b => (i =? 0)%nat || negb (is_cont b)
  | None => (i =? length text)%nat
  end.

Fixpoint floor_char_boundary (text : bytes) (i : nat) : nat :=
  if is_char_boundary text i then i else
  match i with O => O | S i => floor_char_boundary text i end.

Definition bounded_text (text : bytes) (limit : N) : bytes :=
  if len text <=? limit then text else
  let prefix_limit := limit - len TRUNCATION_SUFFIX in
  let stop := floor_char_boundary text (N.to_nat (N.min prefix_limit (len text))) in
  take stop text ++ TRUNCATION_SUFFIX.

(** The loop of [buffer_speech] that makes room. *)
Fixpoint evict (text_len : N) (pending : list (bytes * bool)) (pending_bytes : N) : list (bytes * bool) * N :=
  match pending with
  | [] => ([], pending_bytes)
  | stale :: rest =>
      if (len pending =? MAX_PENDING_SPEECH_ITEMS) || (MAX_PENDING_SPEECH_BYTES <? sat_add usize_max pending_bytes text_len)
      then evict text_len rest (pending_bytes - len stale.1)
      else (pending, pending_bytes)
  end.

Definition buffer_speech (text : bytes) (interrupt : bool) (s : Supervisor) : Supervisor :=
  let s := if interrupt then s <| pending_speech := [] |> <| pending_speech_bytes := 0 |> else s in
  let text := bounded_text text MAX_PENDING_SPEECH_ITEM_BYTES in
  let '(pending, pending_bytes) := evict (len text) (pending_speech s) (pending_speech_bytes s) in
  s <| pending_speech_bytes := sat_add usize_max pending_bytes (len text) |>
    <| pending_speech := pending ++ [(text, interrupt)] |>.

Definition restart_allowed (last_crash : option N) (now : N) : bool :=
  match last_crash with
  | None => true
  | Some last_crash => (last_crash <=? now) && (CRASH_WINDOW <=? now - last_crash)
  end.

(** * The handle, shared with the event loop *)

Section supervisor.
Context {E : Type} `{ProcessFactory E}.

Record World := { handle : HandleState; log : list Effect; env : E }.

Definition record (e : Effect) (w : World) : World := w <| log := log w ++ [e] |>.
Definition set_handle (h : HandleState) (w : World) : World := w <| handle := h |>.

(** [SupervisorHandle::terminate] *)
Definition terminate (w : World) : World :=
  let w := set_handle ((handle w) <| shutting_down := true |>) w in
  w <| log := log w ++ (Terminate <$> elements (owned_terminators (handle w))) |>.

Definition handle_op (w : World) (op : HandleOp) : World :=
  match op with
  | TakeEvents => set_handle ((handle w) <| events := [] |>) w
  | TerminateAll => terminate w
  | SetNotifier =>
      let w := set_handle ((handle w) <| notifier := true |>) w in
      match events (handle w) with [] => w | _ => record Wake w end
  end.

(** The worker gets the lock after whatever the event loop did before. *)
Definition lock (w : World) : World :=
  let '(e, ops) := event_loop (env w) in foldl handle_op (w <| env := e |>) ops.

Definition register_child (g : N) (w : World) : World :=
  let w := lock w in
  if shutting_down (handle w) then record (Terminate g) w
  else set_handle ((handle w) <| owned_terminators := {[g]} ∪ owned_terminators (handle w) |>) w.

Definition unregister_child (g : N) (w : World) : World :=
  let w := lock w in
  set_handle ((handle w) <| owned_terminators := owned_terminators (handle w) ∖ {[g]} |>) w.

Definition is_shutting_down (w : World) : World * bool :=
  let w := lock w in (w, shutting_down (handle w)).

Definition push_event (ev : SupervisorEvent) (w : World) : World :=
  let w := lock w in
  let kept := if len (events (handle w)) =? MAX_EVENTS then tail (events (handle w)) else events (handle w) in
  let w := set_handle ((handle w) <| events := kept ++ [ev] |>) w in
  if notifier (handle w) then record Wake w else w.

(** Dropping a [ManagedProcess]: its terminator, the reaping by its driver, its ownership. *)
Definition drop_process (g : N) (w : World) : World :=
  unregister_child g (record (Reap g) (record (Terminate g) w)).

Definition drop_option (p : option N) (w : World) : World :=
  match p with Some g => drop_process g w | None => w end.

(** * Processes *)

Definition SHUTTING_DOWN : DriverError := anyhow (bs "speech supervisor is shutting down").

(** A request to the process [g]. *)
Definition drive (g : N) (r : Request) (w : World) : World * option DriverError :=
  let '(e, failure) := driver_call g r (env w) in
  (record (Call g r) (w <| env := e |>), failure).

(** The factory's [spawn], with the ownership of generation [g]. *)
Definition spawn (sp : SpeechServerSpec) (g : N) (w : World) : World * option DriverError :=
  let '(e, outcome) := factory_spawn sp (env w) in
  let w := record (Attempt g) (w <| env := e |>) in
  match outcome with
  | NotStarted error => (unregister_child g w, Some error)
  | DiedAfterStart error =>
      (unregister_child g (record (Reap g) (register_child g (record (Start g) w))), Some error)
  | Ready => (register_child g (record (Start g) w), None)
  end.

Definition spawn_ready (sp : SpeechServerSpec) (s : Supervisor) (w : World)
    : Supervisor * World * result DriverError N :=
  let '(w, down) := is_shutting_down w in
  if down then (s, w, Err SHUTTING_DOWN) else
  let generation := next_generation s in
  let s := s <| next_generation := wrapping_add u64_max (next_generation s) 1 |> in
  let '(w, failure) := spawn sp generation w in
  match failure with
  | Some error => (s, w, Err error)
  | None =>
      let '(w, down) := is_shutting_down w in
      if down then (s, drop_process generation w, Err SHUTTING_DOWN) else
      let '(w, failure) := drive generation (SetRate (desired_rate s)) w in
      match failure with
      | Some error => (s, drop_process generation w, Err (with_context (bs "restore speech rate") error))
      | None => (s, w, Ok generation)
      end
  end.

Definition enter_fatal (m : bytes) (s : Supervisor) (w : World) : Supervisor * World :=
  match fatal_error s with
  | Some _ => (s, w)
  | None => (s <| fatal_error := Some m |>, push_event (Fatal m) w)
  end.

Definition recover_after_transport_failure (failure : bytes) (s : Supervisor) (w : World)
    : Supervisor * World * option DriverError :=
  let '(e, now) := clock (env w) in
  let w := w <| env := e |> in
  let may_restart := restart_allowed (last_crash s) now in
  let w := drop_option (active s) w in
  let s := s <| active := None |> in
  if negb may_restart then
    let m := failure ++ bs "; a second speech transport failure occurred within 30 seconds" in
    let '(s, w) := enter_fatal m s w in (s, w, Some (anyhow m))
  else
  let s := s <| last_crash := Some now |> in
  let '(s, w, spawned) := spawn_ready (spec s) s w in
  match spawned with
  | Ok g => (s <| active := Some g |>, w, None)
  | Err error =>
      let m := failure ++ bs "; restarting the speech server failed: " ++ message error in
      let '(s, w) := enter_fatal m s w in (s, w, Some (anyhow m))
  end.

(** [Some error] for an unavailable server. *)
Definition ensure_available (s : Supervisor) : option DriverError :=
  match fatal_error s, active s with
  | Some m, _ => Some (anyhow m)
  | None, None => Some (anyhow (bs "speech server is not active"))
  | None, Some _ => None
  end.

Definition call_active (operation : bytes) (r : Request) (s : Supervisor) (w : World)
    : Supervisor * World * option DriverError :=
  match ensure_available s, active s with
  | None, Some g =>
      let '(w, failure) := drive g r w in
      match failure with
      | None => (s, w, None)
      | Some error =>
          if negb (is_transport_failure error) then (s, w, Some error) else
          let m := bs "speech " ++ operation ++ bs " transport failure: " ++ message error in
          let '(s, w, recovery) := recover_after_transport_failure m s w in
          (s, w, match recovery with Some e => Some e | None => Some error end)
      end
  | e, _ => (s, w, e)
  end.

(** The loop of [flush_pending_speech], over the items left. *)
Fixpoint flush_loop (items : list (bytes * bool)) (s : Supervisor) (w : World)
    : Supervisor * World * option DriverError :=
  match items with
  | [] => (s, w, None)
  | (text, interrupt) :: rest =>
      let s := s <| pending_speech := rest |> <| pending_speech_bytes := pending_speech_bytes s - len text |> in
      let '(s, w, failure) := call_active (bs "speak") (Speak text interrupt) s w in
      match failure with
      | Some error =>
          if bool_decide (is_Some (fatal_error s))
          then (s <| pending_speech := [] |> <| pending_speech_bytes := 0 |>, w, Some error)
          else flush_loop rest s w
      | None => flush_loop rest s w
      end
  end.

Definition flush_pending_speech (s : Supervisor) (w : World) : Supervisor * World * option DriverError :=
  flush_loop (pending_speech s) s w.

(** * The driver's methods *)

Definition startup (s : Supervisor) (w : World) : Supervisor * World * option DriverError :=
  if started s then (s, w, ensure_available s) else
  match startup_error s with
  | Some m => (s, w, Some (anyhow m))
  | None =>
      let '(s, w, first) := spawn_ready (spec s) s w in
      match first with
      | Ok g => flush_pending_speech (s <| active := Some g |> <| started := true |>) w
      | Err first_error =>
          let '(s, w, second) := spawn_ready (spec s) s w in
          match second with
          | Ok g => flush_pending_speech (s <| active := Some g |> <| started := true |>) w
          | Err second_error =>
              let m := bs "speech server startup failed twice; first attempt: " ++ message first_error ++
                       bs "; retry: " ++ message second_error in
              (s <| startup_error := Some m |>, w, Some (anyhow m))
          end
      end
  end.

Definition reconfigure (sp : SpeechServerSpec) (s : Supervisor) (w : World)
    : Supervisor * World * option DriverError :=
  if negb (started s) then
    match startup_error s with
    | Some _ => (s, w, Some (anyhow (bs "speech server startup has already failed; configuration is closed")))
    | None => (s <| spec := sp |>, w, None)
    end
  else
  match ensure_available s with
  | Some error => (s, w, Some error)
  | None =>
      let '(s, w, candidate) := spawn_ready sp s w in
      match candidate with
      | Ok g =>
          let old := active s in
          let s := s <| active := Some g |> <| spec := sp |> in
          (s, push_event (Reconfigured sp) (drop_option old w), None)
      | Err error =>
          let m := bs "replace speech server: " ++ message error in
          (s, push_event (ReconfigureFailed m) w, Some (anyhow m))
      end
  end.

Definition speak (text : bytes) (interrupt : bool) (s : Supervisor) (w : World)
    : Supervisor * World * option DriverError :=
  if bool_decide (text = []) then (s, w, None)
  else if negb (started s) then
    match startup_error s with
    | Some m => (s, w, Some (anyhow m))
    | None => (buffer_speech text interrupt s, w, None)
    end
  else call_active (bs "speak") (Speak text interrupt) s w.

Definition stop (s : Supervisor) (w : World) : Supervisor * World * option DriverError :=
  if negb (started s) then (s <| pending_speech := [] |> <| pending_speech_bytes := 0 |>, w, None)
  else call_active (bs "stop") Stop s w.

Definition set_rate (rate : N) (s : Supervisor) (w : World) : Supervisor * World * option DriverError :=
  if negb (is_finite rate) then (s, w, Some (anyhow (bs "speech rate must be finite"))) else
  let s := s <| desired_rate := rate |> in
  if negb (started s) then (s, w, None) else call_active (bs "set_rate") (SetRate rate) s w.

Definition shutdown (w : World) : World := terminate w.

(** Dropping the supervisor. *)
Definition drop_supervisor (s : Supervisor) (w : World) : Supervisor * World :=
  (s <| active := None |>, drop_option (active s) w).
End supervisor.
#[global] Arguments World : clear implicits.

(** * Processes are accounted for *)

(** The processes started and not reaped, if the log makes sense: a process is
    started once at a time, and asked or reaped only while it lives. *)
Definition monitor_step (m : option (gset N)) (e : Effect) : option (gset N) :=
  live ← m;
  match e with
  | Start g => if bool_decide (g ∈ live) then None else Some ({[g]} ∪ live)
  | Reap g => if bool_decide (g ∈ live) then Some (live ∖ {[g]}) else None
  | Call g _ => if bool_decide (g ∈ live) then Some live else None
  | Attempt _ | Terminate _ | Wake => Some live
  end.

Definition monitor (l : list Effect) : option (gset N) := foldl monitor_step (Some ∅) l.

Definition is_attempt (e : Effect) : bool := match e with Attempt _ => true | _ => false end.
Definition attempts (l : list Effect) : N := len (List.filter is_attempt l).

Definition active_set (s : Supervisor) : gset N := match active s with Some g => {[g]} | None => ∅ end.

Section accounting.
Context {E : Type} `{ProcessFactory E}.
Implicit Types w : World E.

(** [live]: the processes that run; [R]: those whose owner is registered with
    the handle, as far as the worker is concerned. *)
Definition world_ok (live R : gset N) (w : World E) : Prop :=
  monitor (log w) = Some live ∧
  owned_terminators (handle w) ⊆ R ∧
  (shutting_down (handle w) = false → R ⊆ owned_terminators (handle w)) ∧
  (shutting_down (handle w) = true → ∀ g, g ∈ R → Terminate g ∈ log w).

Lemma monitor_snoc l e : monitor (l ++ [e]) = monitor_step (monitor l) e.
Proof. unfold monitor. by rewrite foldl_app. Qed.

Lemma monitor_terminates l gs : monitor (l ++ (Terminate <$> gs)) = monitor l.
Proof.
  revert l. induction gs as [|g gs IH]; intros l; [by rewrite app_nil_r|].
  rewrite fmap_cons, cons_middle, app_assoc, IH, monitor_snoc. by destruct (monitor l).
Qed.

(** Recording an effect: what the log makes of it, and what stays. *)
Lemma record_ok live live' R e w :
  world_ok live R w → monitor_step (Some live) e = Some live' → world_ok live' R (record e w).
Proof.
  intros (Hm & Ho & Hn & Hs) He. split_and!; [|done|done|].
  - change (log (record e w)) with (log w ++ [e]). by rewrite monitor_snoc, Hm.
  - intros Hd g Hg. apply elem_of_app. left. by apply Hs.
Qed.

Lemma env_ok live R e w : world_ok live R w → world_ok live R (w <| env := e |>).
Proof. by destruct w. Qed.

Lemma terminate_ok live R w : world_ok live R w → world_ok live R (terminate w).
Proof.
  intros (Hm & Ho & Hn & Hs). destruct w as [h l e]. unfold terminate, world_ok in *. cbn in *. split_and!.
  - by rewrite monitor_terminates.
  - done.
  - done.
  - intros _ g Hg. apply elem_of_app. destruct (shutting_down h) eqn:Hd; [left; by apply Hs|right].
    apply list_elem_of_fmap. exists g. split; [done|]. apply elem_of_elements. by apply Hn.
Qed.

Lemma handle_op_ok live R w op : world_ok live R w → world_ok live R (handle_op w op).
Proof.
  intros Hw. destruct op; cbn [handle_op].
  - by destruct w.
  - by apply terminate_ok.
  - assert (world_ok live R (set_handle ((handle w) <| notifier := true |>) w)) as Hw' by by destruct w.
    case_match; [done|]. by eapply record_ok.
Qed.

Lemma lock_ok live R w : world_ok live R w → world_ok live R (lock w).
Proof.
  intros Hw. unfold lock. destruct (event_loop (env w)) as [e ops].
  apply (env_ok live R e) in Hw. revert Hw. generalize (w <| env := e |>). clear w.
  induction ops as [|op ops IH]; intros w Hw; [done|]. cbn [foldl]. by apply IH, handle_op_ok.
Qed.

Lemma register_ok live R g w : world_ok live R w → world_ok live ({[g]} ∪ R) (register_child g w).
Proof.
  intros Hw%lock_ok. unfold register_child. destruct (shutting_down (handle (lock w))) eqn:Hd.
  - destruct Hw as (Hm & Ho & Hn & Hs). split_and!.
    + change (log (record (Terminate g) (lock w))) with (log (lock w) ++ [Terminate g]). by rewrite monitor_snoc, Hm.
    + change (owned_terminators (handle (lock w)) ⊆ {[g]} ∪ R). set_solver.
    + intros Hd'. change (shutting_down (handle (lock w)) = false) in Hd'. congruence.
    + intros _ g' Hg'. apply elem_of_app. apply elem_of_union in Hg' as [->%elem_of_singleton|Hg'].
      * right. by left.
      * left. by apply Hs.
  - destruct Hw as (Hm & Ho & Hn & Hs). specialize (Hn Hd). destruct (lock w) as [h l e]. cbn in *. split_and!; cbn.
    + done.
    + set_solver.
    + set_solver.
    + intros Hd'. destruct h. cbn in *. congruence.
Qed.

Lemma unregister_ok live R g w : world_ok live R w → world_ok live (R ∖ {[g]}) (unregister_child g w).
Proof.
  intros Hw%lock_ok. unfold unregister_child. destruct Hw as (Hm & Ho & Hn & Hs). destruct (lock w) as [h l e].
  cbn in *. split_and!; cbn; [done|set_solver|set_solver|]. intros Hd g' Hg'. apply Hs; [done|set_solver].
Qed.

Lemma is_shutting_down_ok live R w : world_ok live R w → world_ok live R (is_shutting_down w).1.
Proof. apply lock_ok. Qed.

Lemma push_event_ok live R ev w : world_ok live R w → world_ok live R (push_event ev w).
Proof.
  intros Hw%lock_ok. unfold push_event. generalize (if len (events (handle (lock w))) =? MAX_EVENTS
    then tail (events (handle (lock w))) else events (handle (lock w))). intros kept. cbv zeta.
  assert (world_ok live R (set_handle ((handle (lock w)) <| events := kept ++ [ev] |>) (lock w))) as Hw'
    by by destruct (lock w).
  case_match; [|done]. by eapply record_ok.
Qed.

Lemma drop_process_ok live R g w : g ∈ live → world_ok live R w → world_ok (live ∖ {[g]}) (R ∖ {[g]}) (drop_process g w).
Proof.
  intros Hg Hw. unfold drop_process. apply unregister_ok.
  eapply (record_ok live); [by eapply record_ok|]. cbn. by rewrite bool_decide_eq_true_2.
Qed.

Lemma drive_ok live R g r w : g ∈ live → world_ok live R w → world_ok live R (drive g r w).1.
Proof.
  intros Hg Hw. unfold drive. destruct (driver_call g r (env w)) as [e f]. cbn [fst].
  eapply record_ok; [by apply env_ok|]. cbn. by rewrite bool_decide_eq_true_2.
Qed.

Lemma spawn_ok A sp g w : g ∉ A → world_ok A A w →
  let '(w', failure) := spawn sp g w in
  match failure with None => world_ok ({[g]} ∪ A) ({[g]} ∪ A) w' | Some _ => world_ok A A w' end.
Proof.
  intros Hg Hw. unfold spawn. destruct (factory_spawn sp (env w)) as [e outcome].
  assert (world_ok A A (record (Attempt g) (w <| env := e |>))) as Ha by (eapply record_ok; [by apply env_ok|done]).
  assert (world_ok ({[g]} ∪ A) ({[g]} ∪ A) (register_child g (record (Start g) (record (Attempt g) (w <| env := e |>))))) as Hr.
  { apply register_ok. eapply record_ok; [exact Ha|]. cbn. by rewrite bool_decide_eq_false_2. }
  assert (A ∖ {[g]} = A) as HA by set_solver. assert (({[g]} ∪ A) ∖ {[g]} = A) as HA' by set_solver.
  destruct outcome; cbv zeta.
  - rewrite <-HA at 2. by apply unregister_ok.
  - rewrite <-HA' at 2. apply unregister_ok. eapply record_ok; [exact Hr|]. cbn.
    rewrite bool_decide_eq_true_2 by set_solver. by rewrite HA'.
  - done.
Qed.

Lemma spawn_ready_ok A sp s w : next_generation s ∉ A → world_ok A A w →
  let '(s', w', r) := spawn_ready sp s w in
  match r with Ok g => g = next_generation s ∧ world_ok ({[g]} ∪ A) ({[g]} ∪ A) w' | Err _ => world_ok A A w' end.
Proof.
  intros Hg Hw. unfold spawn_ready. pose proof (is_shutting_down_ok _ _ _ Hw) as Hw1.
  destruct (is_shutting_down w) as [w1 d]. destruct d; [done|]. cbv zeta.
  pose proof (spawn_ok A sp (next_generation s) w1 Hg Hw1) as Hw2. set (g := next_generation s) in *. clearbody g.
  destruct (spawn sp g w1) as [w2 f]. destruct f; [done|].
  pose proof (is_shutting_down_ok _ _ _ Hw2) as Hw3. destruct (is_shutting_down w2) as [w3 d]. cbn [fst] in Hw3.
  assert (∀ w, world_ok ({[g]} ∪ A) ({[g]} ∪ A) w → world_ok A A (drop_process g w)) as Hdrop.
  { intros w' Hw'. assert (({[g]} ∪ A) ∖ {[g]} = A) as <- by set_solver. apply drop_process_ok; [set_solver|done]. }
  destruct d; [by apply Hdrop|]. assert (g ∈ {[g]} ∪ A) as Hlive by set_solver.
  match goal with |- context [drive g ?r w3] =>
    pose proof (drive_ok _ _ g r w3 Hlive Hw3) as Hw4; destruct (drive g r w3) as [w4 f] end.
  destruct f; [by apply Hdrop|done].
Qed.

(** ** What the worker does

    The log without what the event loop can add to it. *)
Definition is_work (e : Effect) : bool := match e with Terminate _ | Wake => false | _ => true end.
Definition work (l : list Effect) : list Effect := List.filter is_work l.
Definition worked (w w' : World E) (k : list Effect) : Prop := work (log w') = work (log w) ++ k.

Lemma work_app l1 l2 : work (l1 ++ l2) = work l1 ++ work l2.
Proof. apply List.filter_app. Qed.

Lemma worked_refl w : worked w w [].
Proof. unfold worked. by rewrite app_nil_r. Qed.

Lemma worked_trans w1 w2 w3 k1 k2 : worked w1 w2 k1 → worked w2 w3 k2 → worked w1 w3 (k1 ++ k2).
Proof. unfold worked. intros H1 H2. by rewrite H2, H1, app_assoc. Qed.

Lemma worked_record e w : worked w (record e w) (work [e]).
Proof. unfold worked. change (log (record e w)) with (log w ++ [e]). apply work_app. Qed.

Lemma worked_env e w : worked w (w <| env := e |>) [].
Proof. unfold worked. by rewrite app_nil_r. Qed.

Lemma work_terminates gs : work (Terminate <$> gs) = [].
Proof. by induction gs. Qed.

Lemma worked_handle_op w op : worked w (handle_op w op) [].
Proof.
  unfold worked. rewrite app_nil_r. destruct op; [done| |].
  - change (log (handle_op w TerminateAll)) with (log w ++ (Terminate <$> elements (owned_terminators (handle w)))).
    by rewrite work_app, work_terminates, app_nil_r.
  - cbn [handle_op]. case_match; [done|].
    change (work (log w ++ [Wake]) = work (log w)). by rewrite work_app, app_nil_r.
Qed.

Lemma worked_lock w : worked w (lock w) [].
Proof.
  unfold lock. destruct (event_loop (env w)) as [e ops].
  apply (worked_trans _ _ _ [] [] (worked_env e w)). generalize (w <| env := e |>). clear w.
  induction ops as [|op ops IH]; intros w; [apply worked_refl|].
  exact (worked_trans _ _ _ [] [] (worked_handle_op w op) (IH _)).
Qed.

Lemma worked_register g w : worked w (register_child g w) [].
Proof.
  unfold register_child. destruct (shutting_down (handle (lock w))).
  - exact (worked_trans _ _ _ [] [] (worked_lock w) (worked_record (Terminate g) _)).
  - exact (worked_lock w).
Qed.

Lemma worked_unregister g w : worked w (unregister_child g w) [].
Proof. exact (worked_lock w). Qed.

Lemma worked_push_event ev w : worked w (push_event ev w) [].
Proof.
  unfold push_event. generalize (if len (events (handle (lock w))) =? MAX_EVENTS
    then tail (events (handle (lock w))) else events (handle (lock w))). intros kept. cbv zeta.
  case_match; [|exact (worked_lock w)].
  refine (worked_trans _ (set_handle _ (lock w)) _ [] [] _ (worked_record Wake _)). exact (worked_lock w).
Qed.

Lemma worked_drop g w : worked w (drop_process g w) [Reap g].
Proof.
  unfold drop_process. refine (worked_trans _ _ _ [Reap g] [] _ (worked_unregister g _)).
  exact (worked_trans _ _ _ [] [Reap g] (worked_record (Terminate g) w) (worked_record (Reap g) _)).
Qed.

Lemma worked_drive g r w : worked w (drive g r w).1 [Call g r].
Proof.
  unfold drive. destruct (driver_call g r (env w)) as [e f].
  exact (worked_trans _ _ _ [] [Call g r] (worked_env e w) (worked_record (Call g r) _)).
Qed.

Lemma worked_spawn sp g w : let '(w', failure) := spawn sp g w in
  ∃ k, worked w w' k ∧
  match failure with None => k = [Attempt g; Start g] | Some _ => k = [Attempt g] ∨ k = [Attempt g; Start g; Reap g] end.
Proof.
  unfold spawn. destruct (factory_spawn sp (env w)) as [e outcome].
  pose proof (worked_trans _ _ _ [] [Attempt g] (worked_env e w) (worked_record (Attempt g) _)) as Ha.
  set (w1 := record (Attempt g) _) in *. clearbody w1.
  pose proof (worked_trans _ _ _ _ _ (worked_record (Start g) w1) (worked_register g _)) as Hs.
  pose proof (worked_trans _ _ _ _ _ Ha Hs) as Has. destruct outcome; cbv zeta.
  - exists [Attempt g]. split; [|by left]. exact (worked_trans _ _ _ _ [] Ha (worked_unregister g w1)).
  - exists [Attempt g; Start g; Reap g]. split; [|by right].
    refine (worked_trans _ _ _ [Attempt g; Start g; Reap g] [] _ (worked_unregister g _)).
    exact (worked_trans _ _ _ _ _ Has (worked_record (Reap g) _)).
  - exists [Attempt g; Start g]. by split.
Qed.

(** A replacement process is asked for at most once, and asked only for the rate. *)
Lemma worked_spawn_ready sp s w : let '(s', w', r) := spawn_ready sp s w in
  let g := next_generation s in
  ∃ k, worked w w' k ∧
  match r with
  | Ok g' => g' = g ∧ k = [Attempt g; Start g; Call g (SetRate (desired_rate s))]
  | Err _ => k ∈ [[]; [Attempt g]; [Attempt g; Start g; Reap g];
                  [Attempt g; Start g; Call g (SetRate (desired_rate s)); Reap g]]
  end ∧
  s' = (if bool_decide (k = []) then s else s <| next_generation := wrapping_add u64_max (next_generation s) 1 |>).
Proof.
  unfold spawn_ready. pose proof (worked_lock w : worked w (is_shutting_down w).1 []) as H1.
  destruct (is_shutting_down w) as [w1 d]. cbn [fst] in H1. destruct d.
  { exists []. split_and!; [done|left|done]. }
  cbv zeta. pose proof (worked_spawn sp (next_generation s) w1) as H2. set (g := next_generation s) in *.
  destruct (spawn sp g w1) as [w2 f]. destruct H2 as (k2 & H2 & Hk2).
  pose proof (worked_trans _ _ _ _ _ H1 H2) as H12. cbn [app] in H12. destruct f as [error|].
  { exists k2. split_and!; [done| |by destruct Hk2 as [-> | ->]].
    destruct Hk2 as [-> | ->]; [right; left|right; right; left]. }
  subst k2. pose proof (worked_lock w2 : worked w2 (is_shutting_down w2).1 []) as H3.
  destruct (is_shutting_down w2) as [w3 d]. cbn [fst] in H3.
  pose proof (worked_trans _ _ _ _ _ H12 H3) as H13. cbn [app] in H13. destruct d.
  { exists [Attempt g; Start g; Reap g]. split_and!; [|by right; right; left|done].
    exact (worked_trans _ _ _ _ _ H13 (worked_drop g w3)). }
  change (desired_rate (s <| next_generation := wrapping_add u64_max g 1 |>)) with (desired_rate s).
  pose proof (worked_drive g (SetRate (desired_rate s)) w3) as H4.
  destruct (drive g (SetRate (desired_rate s)) w3) as [w4 f]. cbn [fst] in H4.
  pose proof (worked_trans _ _ _ _ _ H13 H4) as H14. cbn [app] in H14. destruct f.
  - exists [Attempt g; Start g; Call g (SetRate (desired_rate s)); Reap g].
    split_and!; [|by right; right; right; left|done]. exact (worked_trans _ _ _ _ _ H14 (worked_drop g w4)).
  - exists [Attempt g; Start g; Call g (SetRate (desired_rate s))]. by split_and!.
Qed.

(** ** The supervisor's operations *)

Definition sup_ok (s : Supervisor) (w : World E) : Prop :=
  next_generation s = 1 + attempts (log w) ∧
  (∀ g, g ∈ active_set s → g < next_generation s) ∧
  world_ok (active_set s) (active_set s) w.

Lemma attempts_work l : attempts (work l) = attempts l.
Proof. unfold attempts, work. induction l as [|[] l IH]; simpl in *; lia. Qed.

Lemma attempts_app l1 l2 : attempts (l1 ++ l2) = attempts l1 + attempts l2.
Proof. unfold attempts. rewrite List.filter_app, length_app. lia. Qed.

(** Counts over concrete lists of effects. *)
Ltac attempts_lia := unfold attempts in *; cbn [List.filter is_attempt length] in *; lia.

Lemma worked_attempts w w' k : worked w w' k → attempts (log w') = attempts (log w) + attempts k.
Proof. intros Hw. rewrite <-(attempts_work (log w')), Hw, attempts_app, attempts_work. done. Qed.

(** From one pair of states to the next the log grows, and unless 2^64
    generations have been used up the invariant is kept. *)
Definition step_ok (s : Supervisor) (w : World E) (s' : Supervisor) (w' : World E) : Prop :=
  ((∃ k, worked w w' k) ∧ (started s = true → started s' = true)) ∧
  (sup_ok s w → attempts (log w') < u64_max → sup_ok s' w').

Lemma step_ok_trans s1 w1 s2 w2 s3 w3 : step_ok s1 w1 s2 w2 → step_ok s2 w2 s3 w3 → step_ok s1 w1 s3 w3.
Proof.
  intros [[[k1 H1] Hst1] Hok1] [[[k2 H2] Hst2] Hok2]. split; [split; [exists (k1 ++ k2); by eapply worked_trans|auto]|].
  intros Hs Hb. apply Hok2; [|done]. apply Hok1; [done|]. rewrite (worked_attempts _ _ _ H2) in Hb. lia.
Qed.

(** Steps that leave the processes alone. *)
Lemma step_ok_quiet s w s' w' :
  worked w w' [] → active s' = active s → next_generation s' = next_generation s → started s' = started s →
  (∀ A, world_ok A A w → world_ok A A w') → step_ok s w s' w'.
Proof.
  intros Hw Ha Hn Hst Hok. split; [split; [by exists []|by rewrite Hst]|]. intros (Hg & Hlt & Hwo) _. unfold sup_ok, active_set in *.
  rewrite Ha, Hn. split_and!; [|done|by apply Hok]. rewrite (worked_attempts _ _ _ Hw). attempts_lia.
Qed.

Lemma step_ok_refl s s' w :
  active s' = active s → next_generation s' = next_generation s → started s' = started s → step_ok s w s' w.
Proof. intros. apply step_ok_quiet; [apply worked_refl|done..]. Qed.

Lemma step_ok_push_event s s' ev w :
  active s' = active s → next_generation s' = next_generation s → started s' = started s →
  step_ok s w s' (push_event ev w).
Proof. intros. apply step_ok_quiet; [apply worked_push_event|done..|]. intros A. apply push_event_ok. Qed.

Lemma step_ok_drop_active s s' w :
  active s' = None → next_generation s' = next_generation s → started s' = started s →
  step_ok s w s' (drop_option (active s) w).
Proof.
  intros Ha Hn Hst. destruct (active s) as [g|] eqn:Hg; cbn [drop_option].
  - split; [split; [exists [Reap g]; apply worked_drop|by rewrite Hst]|]. intros (Hgen & Hlt & Hwo) _. unfold sup_ok, active_set in *.
    rewrite Ha, Hn, Hg in *. split_and!.
    + rewrite (worked_attempts _ _ _ (worked_drop g w)). attempts_lia.
    + intros g' []%not_elem_of_empty.
    + assert (({[g]} : gset N) ∖ {[g]} = ∅) as <- by set_solver. apply drop_process_ok; [set_solver|done].
  - apply step_ok_refl; [by rewrite Ha, Hg|done..].
Qed.

(** Spawning: on failure nothing stays; on success the candidate runs beside
    the active process until the caller installs it. *)
Lemma spawn_ready_step sp s w : let '(s', w', r) := spawn_ready sp s w in
  match r with
  | Err _ => step_ok s w s' w'
  | Ok g => (∃ k, worked w w' k) ∧ ∃ n, s' = (s <| next_generation := n |>) ∧
      (sup_ok s w → attempts (log w') < u64_max →
       n = 1 + attempts (log w') ∧ g < n ∧ (g ∉ active_set s) ∧ world_ok ({[g]} ∪ active_set s) ({[g]} ∪ active_set s) w')
  end.
Proof.
  pose proof (worked_spawn_ready sp s w) as Hk. pose proof (spawn_ready_ok (active_set s) sp s w) as Hok.
  destruct (spawn_ready sp s w) as [[s' w'] r]. destruct Hk as (k & Hk & Hr & Hs').
  assert (∀ a, attempts k = a → a = 0 ∨ a = 1 → sup_ok s w → attempts (log w') < u64_max →
    wrapping_add u64_max (next_generation s) a = 1 + attempts (log w')) as Hgen.
  { intros a Ha H01 (Hg & _) Hb. rewrite (worked_attempts _ _ _ Hk) in *. unfold wrapping_add. rewrite Hg, Ha in *.
    rewrite N.mod_small by lia. lia. }
  assert (∀ s w, sup_ok s w → next_generation s ∉ active_set s) as Hfresh.
  { intros s0 w0 (_ & Hlt & _) Hin. specialize (Hlt _ Hin). lia. }
  destruct r as [g|error].
  - destruct Hr as [-> Hkk]. split; [by eexists|]. exists (wrapping_add u64_max (next_generation s) 1).
    split; [by subst k|]. intros Hs Hb. specialize (Hgen 1 ltac:(by subst k) ltac:(lia) Hs Hb).
    destruct Hs as (Hg & Hlt & Hwo). destruct (Hok ltac:(by eapply Hfresh) Hwo) as [_ Hwo'].
    split_and!; [done| |by eapply Hfresh|done].
    rewrite Hgen, Hg. rewrite (worked_attempts _ _ _ Hk). subst k. attempts_lia.
  - split; [split; [by eexists|subst s'; by destruct (bool_decide _)]|]. intros Hs Hb. pose proof Hs as (Hg & Hlt & Hwo).
    specialize (Hok ltac:(by eapply Hfresh) Hwo). unfold sup_ok, active_set in *.
    destruct (decide (k = [])) as [Hnil|Hne].
    + rewrite bool_decide_eq_true_2 in Hs' by done. subst s' k. split_and!; [|done|done].
      rewrite (worked_attempts _ _ _ Hk). attempts_lia.
    + rewrite bool_decide_eq_false_2 in Hs' by done. subst s'.
      assert (attempts k = 1) as Hk1.
      { rewrite !list_elem_of_cons in Hr || rewrite !elem_of_cons in Hr. destruct Hr as [->|[->|[->|[->|Hr]]]]; [done..|].
        by apply elem_of_nil in Hr. }
      specialize (Hgen 1 Hk1 ltac:(lia) Hs Hb). split_and!; [exact Hgen| |exact Hok].
      intros g Hgin. change (g < wrapping_add u64_max (next_generation s) 1). rewrite Hgen.
      specialize (Hlt g Hgin). rewrite (worked_attempts _ _ _ Hk). lia.
Qed.

(** Installing a candidate when no process is active. *)
Lemma spawn_install sp s s2 w : active s = None → let '(s', w', r) := spawn_ready sp s w in
  match r with
  | Err _ => step_ok s w s' w'
  | Ok g => active s2 = Some g → next_generation s2 = next_generation s' → (started s' = true → started s2 = true) →
            step_ok s w s2 w'
  end.
Proof.
  intros Ha. pose proof (spawn_ready_step sp s w) as Hsp. destruct (spawn_ready sp s w) as [[s' w'] r].
  destruct r as [g|error]; [|done]. destruct Hsp as (Hk & n & -> & Hn). intros Ha2 Hn2 Hst. split; [done|].
  intros Hs Hb. destruct (Hn Hs Hb) as (-> & Hg & _ & Hwo). unfold sup_ok, active_set in *. rewrite Ha2, Hn2.
  rewrite Ha in Hwo. assert ({[g]} ∪ ∅ = ({[g]} : gset N)) as Heq by set_solver. rewrite Heq in Hwo.
  split_and!; [done| |done]. by intros g' ->%elem_of_singleton.
Qed.

Lemma enter_fatal_step m s w : let '(s', w') := enter_fatal m s w in step_ok s w s' w'.
Proof.
  unfold enter_fatal. destruct (fatal_error s); [by apply step_ok_refl|]. by apply step_ok_push_event.
Qed.

Lemma recover_step failure s w :
  let '(s', w', _) := recover_after_transport_failure failure s w in step_ok s w s' w'.
Proof.
  unfold recover_after_transport_failure. destruct (clock (env w)) as [e now]. cbv zeta.
  assert (step_ok s w s (w <| env := e |>)) as He.
  { apply step_ok_quiet; [apply worked_env|done..|]. intros A. apply env_ok. }
  set (w1 := w <| env := e |>) in *. clearbody w1.
  pose proof (step_ok_trans _ _ _ _ _ _ He (step_ok_drop_active s (s <| active := None |>) w1 eq_refl eq_refl eq_refl)) as Hd.
  set (w2 := drop_option (active s) w1) in *. clearbody w2. set (s2 := s <| active := None |>) in *.
  assert (active s2 = None) as Hs2 by done. clearbody s2.
  destruct (negb (restart_allowed (last_crash s) now)).
  { match goal with |- context [enter_fatal ?m s2 w2] => pose proof (enter_fatal_step m s2 w2) as Hf; destruct (enter_fatal m s2 w2) as [s3 w3] end.
    by eapply step_ok_trans. }
  match goal with |- context [spawn_ready _ ?s w2] => set (s3 := s) end.
  assert (step_ok s w s3 w2) as Hd'.
  { eapply step_ok_trans; [exact Hd|]. by apply step_ok_refl. }
  assert (active s3 = None) as Hs3 by done. clearbody s3.
  pose proof (λ s2, spawn_install (spec s3) s3 s2 w2 Hs3) as Hsp.
  destruct (spawn_ready (spec s3) s3 w2) as [[s4 w4] r]. destruct r as [g|error].
  - eapply step_ok_trans; [exact Hd'|]. by apply Hsp.
  - specialize (Hsp s3). match goal with |- context [enter_fatal ?m s4 w4] => pose proof (enter_fatal_step m s4 w4) as Hf; destruct (enter_fatal m s4 w4) as [s5 w5] end.
    eapply step_ok_trans; [exact Hd'|]. by eapply step_ok_trans.
Qed.

Lemma call_active_step operation r s w : let '(s', w', _) := call_active operation r s w in step_ok s w s' w'.
Proof.
  unfold call_active. destruct (ensure_available s) as [error|] eqn:Hav; [by apply step_ok_refl|].
  destruct (active s) as [g|] eqn:Ha; [|by apply step_ok_refl].
  assert (step_ok s w s (drive g r w).1) as Hd.
  { split; [split; [exists [Call g r]; apply worked_drive|done]|]. intros (Hg & Hlt & Hwo) _. unfold sup_ok, active_set in *.
    rewrite Ha in *. split_and!; [|done|apply drive_ok; [set_solver|done]].
    rewrite (worked_attempts _ _ _ (worked_drive g r w)). attempts_lia. }
  destruct (drive g r w) as [w1 f]. cbn [fst] in Hd. destruct f as [error|]; [|done].
  destruct (negb (is_transport_failure error)); [done|]. cbv zeta.
  match goal with |- context [recover_after_transport_failure ?m s w1] => pose proof (recover_step m s w1) as Hr;
    destruct (recover_after_transport_failure m s w1) as [[s2 w2] f] end.
  by eapply step_ok_trans.
Qed.

Lemma flush_loop_step items s w : let '(s', w', _) := flush_loop items s w in step_ok s w s' w'.
Proof.
  revert s w. induction items as [|[text interrupt] items IH]; intros s w; cbn [flush_loop]; [by apply step_ok_refl|].
  cbv zeta. set (s1 := s <| pending_speech := items |> <| pending_speech_bytes := _ |>).
  assert (step_ok s w s1 w) as H1 by by apply step_ok_refl. clearbody s1.
  pose proof (call_active_step (bs "speak") (Speak text interrupt) s1 w) as H2.
  destruct (call_active _ _ s1 w) as [[s2 w2] f]. pose proof (step_ok_trans _ _ _ _ _ _ H1 H2) as H12.
  specialize (IH s2 w2). destruct f as [error|]; [case_bool_decide|].
  - eapply step_ok_trans; [exact H12|]. by apply step_ok_refl.
  - destruct (flush_loop items s2 w2) as [[s3 w3] f]. by eapply step_ok_trans.
  - destruct (flush_loop items s2 w2) as [[s3 w3] f]. by eapply step_ok_trans.
Qed.

Lemma startup_step s w : active s = None ∨ started s = true →
  let '(s', w', _) := startup s w in step_ok s w s' w'.
Proof.
  intros Hcase. unfold startup. destruct (started s) eqn:Hst; [by apply step_ok_refl|]. destruct Hcase as [Ha|]; [|done].
  destruct (startup_error s); [by apply step_ok_refl|].
  pose proof (λ s2, spawn_install (spec s) s s2 w Ha) as H1.
  assert (∀ s' r, (spawn_ready (spec s) s w).1.1 = s' → (spawn_ready (spec s) s w).2 = Err r → active s' = None) as Ha1.
  { intros s' r <- Hr. pose proof (worked_spawn_ready (spec s) s w) as Hk. destruct (spawn_ready (spec s) s w) as [[s1 w1] r1].
    destruct Hk as (k & _ & _ & ->). cbn. by destruct (bool_decide (k = [])). }
  destruct (spawn_ready (spec s) s w) as [[s1 w1] r1]. cbn [fst snd] in Ha1. destruct r1 as [g|first_error].
  - unfold flush_pending_speech. set (s2 := s1 <| active := Some g |> <| started := true |>).
    assert (step_ok s w s2 w1) as H2 by by apply H1. clearbody s2.
    pose proof (flush_loop_step (pending_speech s2) s2 w1) as H3. destruct (flush_loop (pending_speech s2) s2 w1) as [[s3 w3] f].
    by eapply step_ok_trans.
  - specialize (Ha1 s1 first_error eq_refl eq_refl). specialize (H1 s).
    pose proof (λ s2, spawn_install (spec s1) s1 s2 w1 Ha1) as H2.
    destruct (spawn_ready (spec s1) s1 w1) as [[s2 w2] r2]. destruct r2 as [g|second_error].
    + unfold flush_pending_speech. set (s3 := s2 <| active := Some g |> <| started := true |>).
      assert (step_ok s1 w1 s3 w2) as H3 by by apply H2. clearbody s3.
      pose proof (flush_loop_step (pending_speech s3) s3 w2) as H4. destruct (flush_loop (pending_speech s3) s3 w2) as [[s4 w4] f].
      eapply step_ok_trans; [exact H1|]. by eapply step_ok_trans.
    + specialize (H2 s1). eapply step_ok_trans; [exact H1|]. eapply step_ok_trans; [exact H2|]. by apply step_ok_refl.
Qed.

(** What the program does with a supervisor: its driver methods on the worker,
    and the event loop's use of the handle between them. *)
Inductive SupervisorOp :=
| OStart | OConfigure (sp : SpeechServerSpec) | OSpeak (text : bytes) (interrupt : bool) | OStop
| OSetRate (rate : N) | OShutdown | OEventLoop (op : HandleOp).

Definition run_op (st : Supervisor * World E) (op : SupervisorOp) : Supervisor * World E :=
  let '(s, w) := st in
  match op with
  | OStart => (startup s w).1
  | OConfigure sp => (reconfigure sp s w).1
  | OSpeak text interrupt => (speak text interrupt s w).1
  | OStop => (stop s w).1
  | OSetRate rate => (set_rate rate s w).1
  | OShutdown => (s, shutdown w)
  | OEventLoop op => (s, handle_op w op)
  end.

Definition world_new (e : E) : World E := {| handle := handle_new; log := []; env := e |}.

Lemma reconfigure_step sp s w : let '(s', w', _) := reconfigure sp s w in step_ok s w s' w'.
Proof.
  unfold reconfigure. destruct (negb (started s)); [destruct (startup_error s); by apply step_ok_refl|].
  destruct (ensure_available s); [by apply step_ok_refl|].
  pose proof (spawn_ready_step sp s w) as Hsp. destruct (spawn_ready sp s w) as [[s1 w1] r]. destruct r as [g|error].
  - destruct Hsp as ([k Hk] & n & -> & Hn). cbv zeta. set (s1 := s <| next_generation := n |>) in *.
    change (active s1) with (active s). set (s2 := s1 <| active := Some g |> <| spec := sp |>).
    eapply (step_ok_trans _ _ s2 (drop_option (active s) w1)); [|by apply step_ok_push_event].
    split; [split; [|done]|].
    + destruct (active s) as [old|]; [|by exists k]. eexists. by eapply worked_trans; [|apply worked_drop].
    + intros Hs Hb. assert (attempts (log w1) < u64_max) as Hb1.
      { destruct (active s) as [old|]; [|done]. cbn [drop_option] in Hb.
        rewrite (worked_attempts _ _ _ (worked_drop old w1)) in Hb. attempts_lia. }
      destruct (Hn Hs Hb1) as (Hn' & Hg & Hnew & Hwo). unfold sup_ok, active_set in *.
      change (active s2) with (Some g). change (next_generation s2) with n. split_and!.
      * rewrite Hn'. destruct (active s) as [old|]; [|done]. cbn [drop_option].
        rewrite (worked_attempts _ _ _ (worked_drop old w1)). attempts_lia.
      * by intros g' ->%elem_of_singleton.
      * destruct (active s) as [old|]; cbn [drop_option].
        { assert (({[g]} ∪ {[old]}) ∖ {[old]} = ({[g]} : gset N)) as Heq by set_solver.
          rewrite <-Heq at 1 2. apply drop_process_ok; [set_solver|done]. }
        { assert ({[g]} ∪ ∅ = ({[g]} : gset N)) as <- by set_solver. done. }
  - by eapply step_ok_trans; [exact Hsp|apply step_ok_push_event].
Qed.

Lemma world_op_step s w w' : worked w w' [] → (∀ A, world_ok A A w → world_ok A A w') → step_ok s w s w'.
Proof. intros Hw Hok. by apply step_ok_quiet. Qed.

Lemma spawn_ready_active sp s w : let '(s', _, _) := spawn_ready sp s w in active s' = active s ∧ started s' = started s.
Proof.
  pose proof (worked_spawn_ready sp s w) as Hk. destruct (spawn_ready sp s w) as [[s1 w1] r1].
  destruct Hk as (k & _ & _ & ->). by destruct (bool_decide (k = [])).
Qed.

(** Before the start there is no process. *)
Definition deferred (s : Supervisor) : Prop := started s = false → active s = None.

Lemma step_ok_deferred s w s' w' : started s = true → step_ok s w s' w' → deferred s'.
Proof. intros Hs [[_ Hst] _] Hs'. by rewrite Hst in Hs'. Qed.

Lemma startup_deferred s w : deferred s → deferred (startup s w).1.1.
Proof.
  intros Hd. destruct (started s) eqn:Hs; [unfold startup; by rewrite Hs|]. specialize (Hd Hs).
  assert (∀ s0 w0 g, deferred (flush_pending_speech (s0 <| active := Some g |> <| started := true |>) w0).1.1) as Hflush.
  { intros s0 w0 g. unfold flush_pending_speech. set (s1 := s0 <| active := Some g |> <| started := true |>).
    pose proof (flush_loop_step (pending_speech s1) s1 w0) as Hf.
    assert (started s1 = true) as Hs1 by done. clearbody s1.
    destruct (flush_loop _ s1 w0) as [[s2 w2] r]. by eapply step_ok_deferred. }
  unfold startup. rewrite Hs. destruct (startup_error s); [by intros _|].
  pose proof (spawn_ready_active (spec s) s w) as H1. destruct (spawn_ready (spec s) s w) as [[s1 w1] [g|e1]]; [apply Hflush|].
  pose proof (spawn_ready_active (spec s1) s1 w1) as H2.
  destruct (spawn_ready (spec s1) s1 w1) as [[s2 w2] [g|e2]]; [apply Hflush|]. intros _.
  change (active s2 = None). destruct H1, H2. congruence.
Qed.

Lemma call_step operation r s w : let '(s', w') := (call_active operation r s w).1 in
  step_ok s w s' w'.
Proof. pose proof (call_active_step operation r s w) as Hc. by destruct (call_active operation r s w) as [[s' w'] f]. Qed.

Lemma run_op_step s w op : deferred s →
  let '(s', w') := run_op (s, w) op in step_ok s w s' w' ∧ deferred s'.
Proof.
  intros Hst. destruct (run_op (s, w) op) as [s' w'] eqn:Hrun.
  assert (step_ok s w s' w' ∧ (started s = false → deferred s')) as [Hstep Hd].
  2: { split; [done|]. destruct (started s) eqn:Hs; [by eapply step_ok_deferred|auto]. }
  destruct op as [|sp|text interrupt| |rate| |op]; cbn [run_op] in Hrun.
  - assert (active s = None ∨ started s = true) as Hcase by (unfold deferred in Hst; destruct (started s); auto).
    pose proof (startup_step s w Hcase) as Hstep. pose proof (startup_deferred s w Hst) as Hd.
    destruct (startup s w) as [[s1 w1] r]. cbn [fst] in *. by simplify_eq.
  - pose proof (reconfigure_step sp s w) as Hstep. split; [destruct (reconfigure sp s w) as [[s1 w1] r]; by simplify_eq/=|].
    intros Hs. unfold reconfigure in Hrun. rewrite Hs in Hrun. cbn [negb] in Hrun. unfold deferred in *.
    destruct (startup_error s); simplify_eq/=; auto.
  - unfold speak in Hrun. destruct (bool_decide (text = [])); [simplify_eq/=; split; [by apply step_ok_refl|done]|].
    destruct (started s) eqn:Hs; cbn [negb] in Hrun.
    + split; [|done]. pose proof (call_step (bs "speak") (Speak text interrupt) s w) as Hc. by rewrite Hrun in Hc.
    + destruct (startup_error s); simplify_eq/=; [split; [by apply step_ok_refl|done]|].
      unfold buffer_speech. set (s1 := if interrupt then _ else s).
      assert (active s1 = active s ∧ next_generation s1 = next_generation s ∧ started s1 = started s) as (Ha & Hn & Hst1)
        by (unfold s1; by destruct interrupt). clearbody s1. cbv zeta. destruct (evict _ _ _) as [p b].
      split; [by apply step_ok_refl|]. intros _ Hs2. change (active s1 = None). rewrite Ha. by apply Hst.
  - unfold stop in Hrun. destruct (started s) eqn:Hs; cbn [negb] in Hrun.
    + split; [|done]. pose proof (call_step (bs "stop") Stop s w) as Hc. by rewrite Hrun in Hc.
    + simplify_eq/=. split; [by apply step_ok_refl|]. intros _ _. by apply Hst.
  - unfold set_rate in Hrun. destruct (negb (is_finite rate)); [simplify_eq/=; split; [by apply step_ok_refl|done]|].
    destruct (started s) eqn:Hs; cbn [negb] in Hrun; cbv zeta in Hrun.
    + change (started (s <| desired_rate := rate |>)) with (started s) in Hrun. rewrite Hs in Hrun. cbn [negb] in Hrun.
      split; [|done]. eapply (step_ok_trans _ _ (s <| desired_rate := rate |>) w); [by apply step_ok_refl|].
      pose proof (call_step (bs "set_rate") (SetRate rate) (s <| desired_rate := rate |>) w) as Hc. by rewrite Hrun in Hc.
    + change (started (s <| desired_rate := rate |>)) with (started s) in Hrun. rewrite Hs in Hrun. cbn [negb] in Hrun.
      simplify_eq/=. split; [by apply step_ok_refl|]. intros _ _. by apply Hst.
  - simplify_eq. split; [|done]. apply world_op_step; [apply (worked_handle_op w TerminateAll)|]. intros A. apply terminate_ok.
  - simplify_eq. split; [|done]. apply world_op_step; [apply worked_handle_op|]. intros A. apply handle_op_ok.
Qed.

Lemma run_ops_step ops s w : deferred s →
  let '(s', w') := foldl run_op (s, w) ops in step_ok s w s' w' ∧ deferred s'.
Proof.
  revert s w. induction ops as [|op ops IH]; intros s w Hd; cbn [foldl]; [split; [by apply step_ok_refl|done]|].
  pose proof (run_op_step s w op Hd) as H1. destruct (run_op (s, w) op) as [s1 w1]. destruct H1 as [H1 Hd1].
  specialize (IH s1 w1 Hd1). destruct (foldl run_op (s1, w1) ops) as [s2 w2]. destruct IH as [H2 Hd2].
  split; [by eapply step_ok_trans|done].
Qed.

(** C9. No speech process is ever lost.  However the factory, the drivers and
    the event loop behave, after any run of fewer than 2^64 process starts the
    only process that is running is the active one, every request went to a
    process that was running, the handle can terminate the active process
    unless it has already been told to shut down, in which case the process
    has been sent its termination, and dropping the supervisor leaves none. *)
Theorem no_process_is_lost sp e ops :
  let '(s, w) := foldl run_op (supervisor_new sp, world_new e) ops in
  attempts (log w) < u64_max →
  monitor (log w) = Some (active_set s) ∧
  (shutting_down (handle w) = false → owned_terminators (handle w) = active_set s) ∧
  (shutting_down (handle w) = true → ∀ g, active s = Some g → Terminate g ∈ log w) ∧
  monitor (log (drop_supervisor s w).2) = Some ∅.
Proof.
  pose proof (run_ops_step ops (supervisor_new sp) (world_new e) ltac:(done)) as Hrun.
  destruct (foldl run_op _ ops) as [s w]. destruct Hrun as [[_ Hok] _]. intros Hb.
  destruct Hok as (Hn & Hlt & Hwo); [|done|].
  { split_and!; [done|by intros g []%not_elem_of_empty|]. by split_and!. }
  pose proof (step_ok_drop_active s (s <| active := None |>) w eq_refl eq_refl eq_refl) as [_ Hdrop].
  pose proof Hwo as (Hm & Ho & Hns & Hsd). split_and!.
  - done.
  - intros Hs. apply set_eq. specialize (Hns Hs). set_solver.
  - intros Hs g Hg. apply Hsd; [done|]. unfold active_set. rewrite Hg. set_solver.
  - destruct (active s) as [g|] eqn:Ha.
    + assert (attempts (log (drop_process g w)) < u64_max) as Hb'.
      { rewrite (worked_attempts _ _ _ (worked_drop g w)). attempts_lia. }
      cbn [drop_option] in Hdrop. destruct (Hdrop (conj Hn (conj Hlt Hwo)) Hb') as (_ & _ & Hm' & _).
      unfold drop_supervisor. rewrite Ha. exact Hm'.
    + unfold drop_supervisor. rewrite Ha. unfold active_set in Hm. by rewrite Ha in Hm.
Qed.

(** * Crashes *)

(** A supervisor that has given up. *)
Definition gave_up (s : Supervisor) : Prop := started s = true ∧ active s = None ∧ is_Some (fatal_error s).

Lemma gave_up_ensure s : gave_up s → ∃ error, ensure_available s = Some error.
Proof. intros (_ & _ & m & Hm). unfold ensure_available. rewrite Hm. eauto. Qed.

Lemma gave_up_call operation r s w : gave_up s → (call_active operation r s w).1 = (s, w).
Proof. intros [error He]%gave_up_ensure. unfold call_active. by rewrite He. Qed.

Lemma gave_up_op s w op : gave_up s → let '(s', w') := run_op (s, w) op in gave_up s' ∧ worked w w' [].
Proof.
  intros Hg. pose proof Hg as (Hs & Ha & Hf). destruct (gave_up_ensure s Hg) as [error He].
  destruct op as [|sp|text interrupt| |rate| |op]; cbn [run_op].
  - unfold startup. rewrite Hs. split; [done|apply worked_refl].
  - unfold reconfigure. rewrite Hs, He. split; [done|apply worked_refl].
  - unfold speak. rewrite Hs. cbn [negb]. destruct (bool_decide _); [split; [done|apply worked_refl]|].
    rewrite gave_up_call by done. split; [done|apply worked_refl].
  - unfold stop. rewrite Hs. cbn [negb]. rewrite gave_up_call by done. split; [done|apply worked_refl].
  - unfold set_rate. destruct (negb (is_finite rate)); [split; [done|apply worked_refl]|]. cbv zeta.
    change (started (s <| desired_rate := rate |>)) with (started s). rewrite Hs. cbn [negb].
    rewrite gave_up_call by done. split; [done|apply worked_refl].
  - split; [done|apply (worked_handle_op w TerminateAll)].
  - split; [done|apply worked_handle_op].
Qed.

Lemma gave_up_ops ops s w : gave_up s → let '(s', w') := foldl run_op (s, w) ops in gave_up s' ∧ worked w w' [].
Proof.
  revert s w. induction ops as [|op ops IH]; intros s w Hg; cbn [foldl]; [split; [done|apply worked_refl]|].
  pose proof (gave_up_op s w op Hg) as H1. destruct (run_op (s, w) op) as [s1 w1]. destruct H1 as [Hg1 Hw1].
  specialize (IH s1 w1 Hg1). destruct (foldl run_op (s1, w1) ops) as [s2 w2]. destruct IH as [Hg2 Hw2].
  split; [done|]. exact (worked_trans _ _ _ [] [] Hw1 Hw2).
Qed.

Lemma worked_enter_fatal m s w : let '(s', w') := enter_fatal m s w in
  worked w w' [] ∧ is_Some (fatal_error s') ∧ active s' = active s ∧ started s' = started s ∧ last_crash s' = last_crash s.
Proof.
  unfold enter_fatal. destruct (fatal_error s) eqn:Hf.
  - split_and!; [apply worked_refl|by rewrite Hf|done..].
  - split_and!; [apply worked_push_event|by eexists|done..].
Qed.

(** What a restart does to processes: nothing when the program shuts down, a
    failed attempt, or a new process asked for the desired rate and nothing
    else. *)
Definition restart_work (g rate : N) (ok : bool) (k : list Effect) : Prop :=
  if ok then k = [Attempt g; Start g; Call g (SetRate rate)]
  else k ∈ [[]; [Attempt g]; [Attempt g; Start g; Reap g]; [Attempt g; Start g; Call g (SetRate rate); Reap g]].

(** Thirty seconds have passed since the last crash. *)
Definition window_over (last_crash : option N) (now : N) : Prop :=
  match last_crash with None => True | Some t => t + 30 * 1000000000 ≤ now end.

Lemma restart_allowed_spec last_crash now :
  if restart_allowed last_crash now then window_over last_crash now else ¬ window_over last_crash now.
Proof. unfold restart_allowed, window_over, CRASH_WINDOW. destruct last_crash as [t|]; [|done]. destruct (_ && _) eqn:Hr; lia. Qed.

Lemma recover_outcome failure s w g : started s = true → active s = Some g →
  let now := (clock (env w)).2 in
  let '(s', w', error) := recover_after_transport_failure failure s w in
  ∃ k, worked w w' (Reap g :: k) ∧
  if restart_allowed (last_crash s) now then
    last_crash s' = Some now ∧
    ((fatal_error s' = fatal_error s ∧ active s' = Some (next_generation s) ∧ error = None ∧
      restart_work (next_generation s) (desired_rate s) true k) ∨
     (gave_up s' ∧ error ≠ None ∧ restart_work (next_generation s) (desired_rate s) false k))
  else gave_up s' ∧ error ≠ None ∧ k = [].
Proof.
  intros Hst Ha. unfold recover_after_transport_failure. destruct (clock (env w)) as [e now]. cbv zeta. cbn [snd].
  rewrite Ha. cbn [drop_option].
  pose proof (worked_trans _ _ _ _ _ (worked_env e w) (worked_drop g (w <| env := e |>))) as Hd. cbn [app] in Hd.
  set (w2 := drop_process g _) in *. clearbody w2. destruct (restart_allowed (last_crash s) now); cbn [negb].
  - match goal with |- context [spawn_ready (spec ?s3) ?s3 w2] => set (s2 := s3) end.
    assert (spec s2 = spec s ∧ desired_rate s2 = desired_rate s ∧ next_generation s2 = next_generation s ∧
      fatal_error s2 = fatal_error s ∧ started s2 = started s ∧ last_crash s2 = Some now ∧ active s2 = None)
      as (_ & Hrate & Hgen & Hfat & Hst2 & Hlc & Ha2) by done. clearbody s2.
    pose proof (worked_spawn_ready (spec s2) s2 w2) as Hk.
    destruct (spawn_ready (spec s2) s2 w2) as [[s4 w4] r]. destruct Hk as (k & Hk & Hr & Hs4).
    pose proof (worked_trans _ _ _ _ _ Hd Hk) as Hdk. cbn [app] in Hdk. rewrite Hgen, Hrate in Hr.
    assert (last_crash s4 = Some now ∧ fatal_error s4 = fatal_error s ∧ started s4 = true ∧ active s4 = None) as (Hlc4 & Hf4 & Hst4 & Ha4).
    { subst s4. destruct s2. cbn in *. destruct (bool_decide (k = [])); cbn; split_and!; congruence. }
    destruct r as [g'|error].
    + destruct Hr as [-> ->]. eexists. split; [exact Hdk|]. split; [done|]. left. by split_and!.
    + match goal with |- context [enter_fatal ?m s4 w4] => pose proof (worked_enter_fatal m s4 w4) as Hf;
        destruct (enter_fatal m s4 w4) as [s5 w5] end.
      destruct Hf as (Hw5 & Hfat5 & Ha5 & Hst5 & Hlc5). exists k. split.
      { pose proof (worked_trans _ _ _ _ _ Hdk Hw5) as Hfin. by rewrite app_nil_r in Hfin. }
      split; [congruence|]. right. split_and!; [|done|done].
      split_and!; [congruence|congruence|done].
  - match goal with |- context [enter_fatal ?m ?s3 w2] => pose proof (worked_enter_fatal m s3 w2) as Hf;
      destruct (enter_fatal m s3 w2) as [s5 w5] end.
    destruct Hf as (Hw5 & Hfat5 & Ha5 & Hst5 & Hlc5). exists []. split.
    { exact (worked_trans _ _ _ _ _ Hd Hw5). }
    split_and!; [|done|done]. split_and!; [|done|done]. by rewrite Hst5.
Qed.

(** C13. A request is sent once and never repeated: when its process is lost
    the process is reaped, and at most one replacement is started, which is
    asked for nothing but the desired rate.  A replacement is only attempted
    when the last crash is at least thirty seconds back; otherwise, or when it
    fails, the supervisor gives up for good: no later operation starts or asks
    any process.  A failure that is not the process's leaves everything as it was. *)
Theorem crashes_follow_the_restart_policy operation r s w g :
  started s = true → fatal_error s = None → active s = Some g →
  let '(e, failure) := driver_call g r (env w) in
  let now := (clock e).2 in
  let g' := next_generation s in
  let '(s', w', error) := call_active operation r s w in
  match failure with
  | None => worked w w' [Call g r] ∧ s' = s ∧ error = None
  | Some cause =>
      error ≠ None ∧
      if negb (is_transport_failure cause) then worked w w' [Call g r] ∧ s' = s
      else ∃ k, worked w w' (Call g r :: Reap g :: k) ∧
        ((window_over (last_crash s) now ∧ last_crash s' = Some now ∧
          fatal_error s' = None ∧ active s' = Some g' ∧ restart_work g' (desired_rate s) true k) ∨
         ((window_over (last_crash s) now ∧ restart_work g' (desired_rate s) false k ∨
           ¬ window_over (last_crash s) now ∧ k = []) ∧
          gave_up s' ∧
          ∀ ops, let '(s2, w2) := foldl run_op (s', w') ops in gave_up s2 ∧ worked w' w2 []))
  end.
Proof.
  intros Hst Hf Ha. unfold call_active, ensure_available. rewrite Hf, Ha.
  pose proof (worked_drive g r w) as Hd. unfold drive in *. destruct (driver_call g r (env w)) as [e failure].
  cbn [fst] in Hd. destruct failure as [cause|]; [|done].
  destruct (negb (is_transport_failure cause)); [done|]. cbv zeta.
  match goal with |- context [recover_after_transport_failure ?m s ?w1] =>
    pose proof (recover_outcome m s w1 g Hst Ha) as Hr; set (w2 := w1) in *;
    destruct (recover_after_transport_failure m s w2) as [[s' w'] error] end.
  change (env w2) with e in Hr. cbv zeta in Hr. destruct Hr as (k & Hk & Hr).
  split; [by destruct error|]. exists k. split; [exact (worked_trans _ _ _ _ _ Hd Hk)|].
  pose proof (restart_allowed_spec (last_crash s) (clock e).2) as Hspec.
  destruct (restart_allowed (last_crash s) (clock e).2).
  - destruct Hr as (Hlc & [(Hfat & Hact & _ & Hwork)|(Hg & _ & Hwork)]).
    + left. by rewrite Hfat.
    + right. split_and!; [by left|done|]. intros ops. by apply gave_up_ops.
  - destruct Hr as (Hg & _ & ->). right. split_and!; [by right|done|]. intros ops. by apply gave_up_ops.
Qed.
End accounting.

(** * Buffered speech *)

Lemma is_cont_low b : b < 64 → is_cont (128 + b) = true.
Proof. unfold is_cont. lia. Qed.

Lemma is_cont_lead b : 192 ≤ b → is_cont b = false.
Proof. unfold is_cont. lia. Qed.

(** A character is one byte that starts it and bytes that continue it. *)
Lemma utf8_encode_shape c : ∃ b conts, utf8_encode c = b :: conts ∧ is_cont b = false ∧ Forall (λ b, is_cont b = true) conts.
Proof.
  assert (∀ x, is_cont (128 + x mod 64) = true) as Hlow by (intros x; apply is_cont_low, N.mod_lt; lia).
  unfold utf8_encode. destruct (N.ltb_spec c 128); [|destruct (c <? 2048); [|destruct (c <? 65536)]]; eexists _, _; (split; [done|]).
  - split; [unfold is_cont; lia|constructor].
  - split; [apply is_cont_lead; lia|by repeat constructor].
  - split; [apply is_cont_lead; lia|by repeat constructor].
  - split; [apply is_cont_lead; lia|by repeat constructor].
Qed.

Definition encode (chars : list N) : bytes := mjoin (utf8_encode <$> chars).

(** The boundaries of a text are the ends of its prefixes. *)
Lemma char_boundaries chars i :
  is_char_boundary (encode chars) i = true ↔ ∃ k, (k ≤ length chars)%nat ∧ i = length (encode (take k chars)).
Proof.
  revert i. induction chars as [|c chars IH]; intros i.
  - unfold is_char_boundary. cbn. split.
    + intros Hi. exists 0%nat. split; [done|]. by apply Nat.eqb_eq.
    + intros (k & Hk & ->). destruct k; [done|simpl in Hk; lia].
  - destruct (utf8_encode_shape c) as (b & conts & Hc & Hb & Hconts).
    assert (∀ l, encode (c :: l) = b :: conts ++ encode l) as Henc by (intros l; unfold encode; cbn; by rewrite Hc).
    rewrite Henc. destruct i as [|i].
    { split; [|done]. intros _. exists 0%nat. split; [lia|done]. }
    assert (is_char_boundary (b :: conts ++ encode chars) (S i) = true ↔
      ∃ j, i = (length conts + j)%nat ∧ is_char_boundary (encode chars) j = true) as ->.
    { unfold is_char_boundary at 1. change ((b :: conts ++ encode chars) !! S i) with ((conts ++ encode chars) !! i). cbn [length].
      destruct (decide (i < length conts)%nat) as [Hlt|Hge].
      - rewrite lookup_app_l by done. destruct (lookup_lt_is_Some_2 conts i Hlt) as [x Hx]. rewrite Hx.
        rewrite Forall_lookup in Hconts. rewrite (Hconts i x Hx). split; [done|]. intros (j & -> & _). lia.
      - rewrite lookup_app_r by lia. rewrite length_app. replace i with (length conts + (i - length conts))%nat at 2 3 by lia.
        set (j := (i - length conts)%nat). unfold is_char_boundary. split.
        + intros Hbd. exists j. split; [lia|]. destruct (encode chars !! j) as [x|] eqn:Hx.
          * cbn in Hbd. rewrite Hbd. by rewrite orb_true_r.
          * apply Nat.eqb_eq in Hbd. apply Nat.eqb_eq. lia.
        + intros (j' & Hj' & Hbd). assert (j' = j) as -> by lia. destruct (encode chars !! j) as [x|] eqn:Hx.
          * cbn. apply orb_true_iff in Hbd as [Hj0%Nat.eqb_eq|Hbd]; [|done].
            rewrite Hj0 in Hx. destruct chars as [|c' chars']; [done|].
            destruct (utf8_encode_shape c') as (b' & conts' & Hc' & Hb' & _). unfold encode in Hx. cbn in Hx.
            rewrite Hc' in Hx. simplify_eq/=. by rewrite Hb'.
          * apply Nat.eqb_eq in Hbd. apply Nat.eqb_eq. lia. }
    split.
    + intros (j & -> & Hj). apply IH in Hj as (k & Hk & ->). exists (S k). split; [simpl; lia|].
      cbn [take]. rewrite Henc. simpl. rewrite length_app. lia.
    + intros (k & Hk & Hi). destruct k as [|k]; [done|]. cbn [take] in Hi. rewrite Henc in Hi. simpl in Hi, Hk.
      rewrite length_app in Hi. exists (length (encode (take k chars))). split; [lia|].
      apply IH. exists k. split; [lia|done].
Qed.

Lemma floor_char_boundary_spec t i :
  let j := floor_char_boundary t i in
  (j ≤ i)%nat ∧ is_char_boundary t j = true ∧ ∀ m, (j < m ≤ i)%nat → is_char_boundary t m = false.
Proof.
  induction i as [|i IH]; cbn [floor_char_boundary].
  - assert (is_char_boundary t 0 = true) as -> by (unfold is_char_boundary; by destruct t).
    cbn. split_and!; [done|unfold is_char_boundary; by destruct t|lia].
  - destruct (is_char_boundary t (S i)) eqn:Hb; cbn; [split_and!; [done|done|lia]|].
    destruct IH as (Hle & Hj & Hm). split_and!; [lia|done|]. intros m Hm'.
    destruct (decide (m = S i)) as [->|]; [done|]. apply Hm. lia.
Qed.

Lemma encode_app l1 l2 : encode (l1 ++ l2) = encode l1 ++ encode l2.
Proof. unfold encode. by rewrite fmap_app, join_app. Qed.

(** A text that is too long keeps as many whole characters as fit before the suffix. *)
Lemma bounded_text_spec chars limit : len TRUNCATION_SUFFIX ≤ limit →
  let t := encode chars in
  len (bounded_text t limit) ≤ limit ∧
  if len t <=? limit then bounded_text t limit = t
  else ∃ k, (k < length chars)%nat ∧ bounded_text t limit = encode (take k chars) ++ TRUNCATION_SUFFIX ∧
    limit < len (encode (take (S k) chars) ++ TRUNCATION_SUFFIX).
Proof.
  intros Hl t. unfold bounded_text. destruct (len t <=? limit) eqn:Ht; [split; [lia|done]|].
  set (i := N.to_nat (N.min (limit - len TRUNCATION_SUFFIX) (len t))).
  destruct (floor_char_boundary_spec t i) as (Hle & Hb & Hmax). set (j := floor_char_boundary t i) in *.
  apply char_boundaries in Hb as (k & Hk & Hj).
  assert (take j t = encode (take k chars)) as Htake.
  { rewrite Hj. unfold t. rewrite <-(take_drop k chars) at 2. by rewrite encode_app, take_app_length. }
  cbv zeta. rewrite Htake. split; [rewrite length_app; lia|].
  assert (k < length chars)%nat as Hk'.
  { destruct (decide (k = length chars)) as [->|]; [|lia]. rewrite take_ge in Hj by done. fold t in Hj. lia. }
  exists k. split_and!; [done|done|].
  assert ((j < length (encode (take (S k) chars)))%nat) as Hlong.
  { destruct (lookup_lt_is_Some_2 chars k Hk') as [c Hc]. rewrite (take_S_r _ _ c) by done.
    rewrite encode_app, length_app, <-Hj. destruct (utf8_encode_shape c) as (b & conts & Hcc & _).
    unfold encode. cbn. rewrite Hcc. simpl. lia. }
  rewrite length_app.
  destruct (decide (length (encode (take (S k) chars)) ≤ i)%nat) as [Hi|Hi]; [|lia].
  specialize (Hmax (length (encode (take (S k) chars))) ltac:(lia)).
  assert (is_char_boundary t (length (encode (take (S k) chars))) = true); [|congruence].
  apply char_boundaries. exists (S k). split; [lia|done].
Qed.

Definition total_bytes (l : list (bytes * bool)) : N := foldr (λ p n, len p.1 + n) 0 l.

Lemma total_bytes_app l1 l2 : total_bytes (l1 ++ l2) = total_bytes l1 + total_bytes l2.
Proof. induction l1 as [|p l1 IH]; simpl; lia. Qed.

(** The buffer before the start, with its byte count. *)
Definition buffer_ok (pending : list (bytes * bool)) (pending_bytes : N) : Prop :=
  pending_bytes = total_bytes pending ∧ total_bytes pending ≤ MAX_PENDING_SPEECH_BYTES ∧
  len pending ≤ MAX_PENDING_SPEECH_ITEMS ∧ Forall (λ p, len p.1 ≤ MAX_PENDING_SPEECH_ITEM_BYTES) pending.

Lemma evict_spec n pending pending_bytes : buffer_ok pending pending_bytes → n ≤ MAX_PENDING_SPEECH_ITEM_BYTES →
  ∃ dropped kept, pending = dropped ++ kept ∧ evict n pending pending_bytes = (kept, total_bytes kept) ∧
  len kept < MAX_PENDING_SPEECH_ITEMS ∧ total_bytes kept + n ≤ MAX_PENDING_SPEECH_BYTES ∧
  (∀ l p, dropped = l ++ [p] →
    len (p :: kept) = MAX_PENDING_SPEECH_ITEMS ∨ MAX_PENDING_SPEECH_BYTES < total_bytes (p :: kept) + n).
Proof.
  intros (-> & Hb & Hl & Hf) Hn. induction pending as [|p pending IH].
  - exists [], []. split_and!; [done|done|done|unfold MAX_PENDING_SPEECH_BYTES, MAX_PENDING_SPEECH_ITEM_BYTES in *; cbn; lia|].
    by intros [] ?.
  - cbn [evict]. unfold sat_add.
    destruct ((len (p :: pending) =? MAX_PENDING_SPEECH_ITEMS) || (MAX_PENDING_SPEECH_BYTES <? N.min usize_max (total_bytes (p :: pending) + n))) eqn:Hc.
    + assert (total_bytes (p :: pending) - len p.1 = total_bytes pending) as -> by (simpl; lia).
      apply Forall_cons in Hf as [_ Hf].
      destruct IH as (dropped & kept & -> & He & Hk & Hkb & Hlast); [simpl in Hb; lia|simpl in Hl; lia|done|].
      exists (p :: dropped), kept. split_and!; [done|done|done|done|]. intros l q Hd.
      destruct l as [|p' l]; cbn [app] in Hd; injection Hd as -> ->; [|by eapply Hlast].
      apply orb_true_iff in Hc as [Hc%N.eqb_eq|Hc%N.ltb_lt]; [by left|right].
      clear -Hc. cbn [app] in Hc. lia.
    + apply orb_false_iff in Hc as [Hc1 Hc2]. exists [], (p :: pending). split_and!; [done|done| | |by intros [] ?].
      * apply N.eqb_neq in Hc1. lia.
      * apply N.ltb_ge in Hc2. unfold usize_max, u64_max, MAX_PENDING_SPEECH_BYTES in *. lia.
Qed.

(** Speech asked for before the server runs is kept within its bounds: at
    most 32 items of at most 64 KiB each and 256 KiB together, with an exact
    byte count.  An interrupting text replaces all; any other is put last, and
    the oldest items go only while it does not fit.  A long text is cut after
    the last whole character that leaves room for the truncation mark. *)
Theorem buffered_speech_stays_bounded chars interrupt s :
  buffer_ok (pending_speech s) (pending_speech_bytes s) →
  let t := encode chars in
  let s' := buffer_speech t interrupt s in
  buffer_ok (pending_speech s') (pending_speech_bytes s') ∧
  (∃ dropped kept item,
    (if interrupt then [] else pending_speech s) = dropped ++ kept ∧
    pending_speech s' = kept ++ [(item, interrupt)] ∧
    (∀ l p, dropped = l ++ [p] → len (p :: kept) = MAX_PENDING_SPEECH_ITEMS ∨
      MAX_PENDING_SPEECH_BYTES < total_bytes ((p :: kept) ++ [(item, interrupt)])) ∧
    if len t <=? MAX_PENDING_SPEECH_ITEM_BYTES then item = t
    else ∃ k, item = encode (take k chars) ++ TRUNCATION_SUFFIX ∧ len item ≤ MAX_PENDING_SPEECH_ITEM_BYTES ∧
      MAX_PENDING_SPEECH_ITEM_BYTES < len (encode (take (S k) chars) ++ TRUNCATION_SUFFIX)) ∧
  active s' = active s ∧ started s' = started s ∧ desired_rate s' = desired_rate s.
Proof.
  intros Hok t s'. unfold s', buffer_speech. set (s0 := if interrupt then _ else s).
  assert (buffer_ok (pending_speech s0) (pending_speech_bytes s0)) as Hok0.
  { unfold s0. destruct interrupt; [|done]. split_and!; [done|done|done|constructor]. }
  assert (pending_speech s0 = if interrupt then [] else pending_speech s) as Hp0 by (unfold s0; by destruct interrupt).
  assert (active s0 = active s ∧ started s0 = started s ∧ desired_rate s0 = desired_rate s) as Hsame
    by (unfold s0; by destruct interrupt).
  destruct (bounded_text_spec chars MAX_PENDING_SPEECH_ITEM_BYTES) as [Hlen Htext]; [vm_compute; discriminate|].
  fold t in Hlen, Htext. set (item := bounded_text t MAX_PENDING_SPEECH_ITEM_BYTES) in *. clearbody s0 item.
  destruct (evict_spec (len item) _ _ Hok0 Hlen) as (dropped & kept & Hd & He & Hk & Hkb & Hlast).
  cbv zeta. rewrite He. destruct Hok0 as (_ & _ & _ & Hf). rewrite Hd in Hf. apply Forall_app in Hf as [_ Hf].
  set (s1 := s0 <| pending_speech_bytes := _ |> <| pending_speech := _ |>).
  assert (pending_speech s1 = kept ++ [(item, interrupt)] ∧
    pending_speech_bytes s1 = sat_add usize_max (total_bytes kept) (len item)) as [-> ->] by done.
  split_and!; [|exists dropped, kept, item|apply Hsame..].
  - unfold buffer_ok, sat_add. rewrite total_bytes_app, length_app.
    assert (total_bytes [(item, interrupt)] = len item) as -> by (cbn [total_bytes foldr fst]; lia).
    split_and!; [|done| |apply Forall_app; split; [done|by apply Forall_singleton]].
    + unfold usize_max, u64_max, MAX_PENDING_SPEECH_BYTES in *. lia.
    + cbn [length]. lia.
  - split_and!; [by rewrite <-Hp0|done| |].
    + intros l p Hlp. destruct (Hlast l p Hlp) as [Hx|Hx]; [by left|right].
      change ((p :: kept) ++ [(item, interrupt)]) with (p :: kept ++ [(item, interrupt)]).
      cbn [total_bytes foldr] in Hx |- *. fold (total_bytes kept) in Hx. fold (total_bytes (kept ++ [(item, interrupt)])).
      rewrite total_bytes_app. cbn [total_bytes foldr fst]. lia.
    + destruct (len t <=? MAX_PENDING_SPEECH_ITEM_BYTES); [done|]. destruct Htext as (k & _ & Hi & Hm). exists k.
      by rewrite Hi in Hlen |- *.
Qed.

(** * A scripted environment

    The scripts give the outcomes of the next spawns, requests and clock
    readings, and what the event loop does before the next locks; after a
    script everything succeeds and nothing happens. *)
Record ScriptedSpeech := {
  spawns : list SpawnOutcome;
  replies : list (option DriverError);
  times : list N;
  turns : list (list HandleOp)
}.

#[export] Instance scripted_factory : ProcessFactory ScriptedSpeech := {|
  factory_spawn _ e := (e <| spawns := tail (spawns e) |>, default Ready (head (spawns e)));
  driver_call _ _ e := (e <| replies := tail (replies e) |>, default None (head (replies e)));
  clock e := (e <| times := tail (times e) |>, default 0 (head (times e)));
  event_loop e := (e <| turns := tail (turns e) |>, default [] (head (turns e)))
|}.

Definition closed_pipe : DriverError := {| message := bs "closed"; is_transport_failure := true |}.

(** The event loop shuts down while the first process is being started. *)
Definition interrupted_start : ScriptedSpeech :=
  {| spawns := []; replies := []; times := []; turns := [[]; [TerminateAll]] |}.

Example interrupted_start_leaves_nothing :
  log (run_op (supervisor_new Native, world_new interrupted_start) OStart).2 =
  [Attempt 1; Start 1; Terminate 1; Terminate 1; Reap 1].
Proof. vm_compute. reflexivity. Qed.

Lemma no_process_is_lost_witness :
  let run := foldl run_op (supervisor_new Native, world_new interrupted_start) [OSpeak (bs "hi") false; OStart] in
  monitor (log run.2) = Some ∅ ∧ Terminate 1 ∈ log run.2.
Proof.
  pose proof (no_process_is_lost Native interrupted_start [OSpeak (bs "hi") false; OStart]) as H. cbv zeta.
  destruct (foldl run_op _ _) as [s w] eqn:Hrun. destruct H as (Hm & _).
  - assert (attempts (log (s, w).2) = 1) as Ha by (rewrite <-Hrun; vm_compute; reflexivity). simpl in Ha. rewrite Ha. done.
  - assert (active (s, w).1 = None) as Ha by (rewrite <-Hrun; vm_compute; reflexivity). simpl in Ha.
    unfold active_set in Hm. rewrite Ha in Hm. split; [exact Hm|].
    assert (log (s, w).2 = [Attempt 1; Start 1; Terminate 1; Terminate 1; Reap 1]) as -> by (rewrite <-Hrun; vm_compute; reflexivity).
    right. right. left.
Defined.

Lemma crashes_follow_the_restart_policy_witness :
  let e := {| spawns := []; replies := [None; Some closed_pipe; None; Some closed_pipe];
              times := [5 * 1000000000; 20 * 1000000000]; turns := [] |} in
  let st := foldl run_op (supervisor_new Native, world_new e) [OStart; OSpeak (bs "one") false] in
  last_crash st.1 = Some (5 * 1000000000) ∧ active st.1 = Some 2 ∧
  gave_up (call_active (bs "speak") (Speak (bs "two") false) st.1 st.2).1.1.
Proof.
  set (e := {| spawns := []; replies := _; times := _; turns := _ |}). cbv zeta.
  set (st := foldl run_op _ _).
  assert (last_crash st.1 = Some (5 * 1000000000)) as Hlc by (vm_compute; reflexivity).
  assert (active st.1 = Some 2) as Ha by (vm_compute; reflexivity). split_and!; [exact Hlc|exact Ha|].
  pose proof (crashes_follow_the_restart_policy (bs "speak") (Speak (bs "two") false) st.1 st.2 2
    ltac:(vm_compute; reflexivity) ltac:(vm_compute; reflexivity) Ha) as H.
  assert (driver_call 2 (Speak (bs "two") false) (env st.2) =
    ({| spawns := []; replies := []; times := [20 * 1000000000]; turns := [] |}, Some closed_pipe)) as Hd by (vm_compute; reflexivity).
  rewrite Hd in H. cbv zeta in H. destruct (call_active _ _ st.1 st.2) as [[s' w'] error]. destruct H as [_ (k & _ & H)].
  destruct H as [(Hyes & _)|(_ & Hg & _)]; [|exact Hg]. exfalso.
  change (window_over (last_crash st.1) (20 * 1000000000)) in Hyes. rewrite Hlc in Hyes. cbn in Hyes. lia.
Defined.

Lemma buffered_speech_stays_bounded_witness :
  let s := buffer_speech (bs "first") false (supervisor_new Native) in
  pending_speech (buffer_speech (bs "second") false s) = [(bs "first", false); (bs "second", false)] ∧
  buffer_ok (pending_speech (buffer_speech (bs "second") false s)) (pending_speech_bytes (buffer_speech (bs "second") false s)).
Proof.
  set (s := buffer_speech (bs "first") false (supervisor_new Native)).
  split; [vm_compute; reflexivity|]. change (bs "second") with (encode (bs "second")).
  apply (buffered_speech_stays_bounded (bs "second") false s).
  split_and!; [vm_compute; reflexivity|vm_compute; discriminate|vm_compute; discriminate|].
  apply Forall_singleton. vm_compute. discriminate.
Defined.
