(* ===== verification/ReviewParser.v ===== *)
(** The command parser of review mode (src/src/review/parser.rs): counts,
    registers, operators, text objects, prefixes and visual mode of a vi-like
    key language.

    [to_digit] and [usize] arithmetic are exact: counts are capped at
    [MAX_COUNT] at every digit.  Words, directions and registers are those of
    src/src/review/document.rs and src/src/clipboard.rs. *)

From S2P Require Import Prelude Clipboard.
Local Open Scope N_scope.

Definition MAX_COUNT : N := 10000.

(** * Data *)

Inductive WordStyle := Word | BigWord.
Inductive WordMove := ForwardStart | BackwardStart | ForwardEnd.
Inductive SearchDirection := SearchForward | SearchBackward.
Inductive FindDirection := Forward | Backward.

Inductive Motion :=
| MLeft | MDown | MUp | MRight | LineStart | FirstNonblank | LineEnd
| MWord (move : WordMove) (style : WordStyle)
| DocumentStart | DocumentEnd | MatchingBrace
| Find (direction : FindDirection) (till : bool) (target : N)
| RepeatFind (reverse : bool)
| Prompt (forward : bool).

Inductive TextObject := ObjectWord (style : WordStyle) (around : bool).
Inductive VisualKind := Character | Line.
Inductive ViewportPlacement := Top | Center | Bottom.

Inductive Command :=
| CNone | Bell | Exit
| Move (m : Motion) (count : N)
| ScrollPage (forward : bool) (count : N)
| RepositionViewport (placement : ViewportPlacement) (line : option N) (first_nonblank : bool)
| YankMotion (m : Motion) (count : N) (register : option ClipboardRegister)
| YankLine (count : N) (register : option ClipboardRegister)
| YankTextObject (o : TextObject) (count : N) (register : option ClipboardRegister)
| StartVisual (kind : VisualKind)
| CancelVisual
| MoveVisual (m : Motion) (count : N)
| YankVisual (register : option ClipboardRegister)
| StartSearch (direction : SearchDirection)
| RepeatSearch (reverse : bool) (count : N).

Inductive Key := Char (c : N) | Escape | Enter | Backspace | Left | Down | Up | Right | Ctrl (c : N) | Unknown.

Inductive Prefix :=
| PNone | PG | PZ | PBracket (forward : bool) | PFind (direction : FindDirection) (till : bool).

Inductive OperatorState :=
| ONone
| Yank (count : N) (register : option ClipboardRegister) (prefix : Prefix) (motion_count : option N)
       (text_object_around : option bool).

Record Parser := {
  count : option N;
  prefix : Prefix;
  operator : OperatorState;
  visual : option VisualKind;
  register : option ClipboardRegister;
  awaiting_register : bool
}.

Definition parser_default : Parser :=
  {| count := None; prefix := PNone; operator := ONone; visual := None; register := None; awaiting_register := false |}.

(** * Counts and simple motions *)

Definition push_digit (value : option N) (digit : N) : N :=
  N.min (sat_add usize_max (sat_mul usize_max (default 0 value) 10) (digit - 48)) MAX_COUNT.

Definition multiply_counts (left right : N) : N := N.min (sat_mul usize_max left right) MAX_COUNT.

Definition add_count (digit : N) (p : Parser) : Parser := p <| count := Some (push_digit (count p) digit) |>.

(** [self.count.take().unwrap_or(1).max(1)] *)
Definition taken_count (c : option N) : N := N.max (default 1 c) 1.

Definition reset_pending (p : Parser) : Parser :=
  p <| count := None |> <| prefix := PNone |> <| operator := ONone |> <| register := None |>
    <| awaiting_register := false |>.

Definition finish (c : Command) (p : Parser) : Parser * Command := (reset_pending p, c).
Definition bell (p : Parser) : Parser * Command := finish Bell p.

(** A character as a number. *)
Definition ch (s : string) : N := match bs s with [c] => c | _ => 0 end.

Definition motion_for_key (k : Key) : option Motion :=
  match k with
  | Left => Some MLeft | Down => Some MDown | Up => Some MUp | Right => Some MRight
  | Char c =>
      if c =? ch "h" then Some MLeft
      else if c =? ch "j" then Some MDown
      else if c =? ch "k" then Some MUp
      else if c =? ch "l" then Some MRight
      else if c =? ch "0" then Some LineStart
      else if c =? ch "^" then Some FirstNonblank
      else if c =? ch "$" then Some LineEnd
      else if c =? ch "w" then Some (MWord ForwardStart Word)
      else if c =? ch "W" then Some (MWord ForwardStart BigWord)
      else if c =? ch "b" then Some (MWord BackwardStart Word)
      else if c =? ch "B" then Some (MWord BackwardStart BigWord)
      else if c =? ch "e" then Some (MWord ForwardEnd Word)
      else if c =? ch "E" then Some (MWord ForwardEnd BigWord)
      else if c =? ch "G" then Some DocumentEnd
      else if c =? ch "%" then Some MatchingBrace
      else if c =? ch ";" then Some (RepeatFind false)
      else if c =? ch "," then Some (RepeatFind true)
      else None
  | _ => None
  end.

(** A digit that continues or opens a count. *)
Definition is_count_digit (c : N) (pending : option N) : bool :=
  is_digit c && (negb (c =? ch "0") || bool_decide (is_Some pending)).

(** [f], [F], [t] and [T]. *)
Definition find_key (c : N) : option Prefix :=
  if c =? ch "f" then Some (PFind Forward false)
  else if c =? ch "F" then Some (PFind Backward false)
  else if c =? ch "t" then Some (PFind Forward true)
  else if c =? ch "T" then Some (PFind Backward true)
  else None.

(** The motion that a prefix and the key after it make. *)
Definition prefixed_motion (pre : Prefix) (k : Key) : option Motion :=
  match pre, k with
  | PG, Char c => if c =? ch "g" then Some DocumentStart else None
  | PBracket forward, Char c => if c =? ch "p" then Some (Prompt forward) else None
  | PFind direction till, Char target => Some (Find direction till target)
  | _, _ => None
  end.

(** * The modes *)

(* The doubled quote of the register key: *)
Definition QUOTE : N := 34.

(** A key that leads to another one, in normal and in visual mode. *)
Definition start_prefix (c : N) : option Prefix :=
  if c =? ch "g" then Some PG
  else if c =? ch "z" then Some PZ
  else if c =? ch "[" then Some (PBracket false)
  else if c =? ch "]" then Some (PBracket true)
  else find_key c.

Definition page (forward : bool) (p : Parser) : Parser * Command :=
  finish (ScrollPage forward (taken_count (count p))) p.

Definition move_or_bell (make : Motion → N → Command) (k : Key) (p : Parser) : Parser * Command :=
  match motion_for_key k with
  | Some m => finish (make m (taken_count (count p))) p
  | None => bell p
  end.

Definition feed_normal (k : Key) (p : Parser) : Parser * Command :=
  match k with
  | Char c =>
      if is_count_digit c (count p) then (add_count c p, CNone)
      else if c =? ch "q" then finish Exit p
      else if c =? QUOTE then (p <| awaiting_register := true |>, CNone)
      else if c =? ch "y" then
        (p <| count := None |> <| register := None |>
           <| operator := Yank (taken_count (count p)) (register p) PNone None None |>, CNone)
      else if c =? ch "v" then finish (StartVisual Character) (p <| visual := Some Character |>)
      else if c =? ch "V" then finish (StartVisual Line) (p <| visual := Some Line |>)
      else match start_prefix c with
      | Some pre => (p <| prefix := pre |>, CNone)
      | None =>
          if c =? ch "/" then finish (StartSearch SearchForward) p
          else if c =? ch "?" then finish (StartSearch SearchBackward) p
          else if c =? ch "n" then finish (RepeatSearch false (taken_count (count p))) p
          else if c =? ch "N" then finish (RepeatSearch true (taken_count (count p))) p
          else move_or_bell Move k p
      end
  | Ctrl c =>
      if c =? ch "b" then page false p
      else if c =? ch "f" then page true p
      else if c =? ch "u" then page false p
      else if c =? ch "d" then page true p
      else move_or_bell Move k p
  | _ => move_or_bell Move k p
  end.

Definition feed_visual (k : Key) (p : Parser) : Parser * Command :=
  match k with
  | Char c =>
      if is_count_digit c (count p) then (add_count c p, CNone)
      else if c =? ch "y" then finish (YankVisual (register p)) (p <| visual := None |>)
      else if c =? QUOTE then (p <| awaiting_register := true |>, CNone)
      else if (c =? ch "v") || (c =? ch "V") then finish CancelVisual (p <| visual := None |>)
      else match start_prefix c with
      | Some pre => (p <| prefix := pre |>, CNone)
      | None => move_or_bell MoveVisual k p
      end
  | _ => move_or_bell MoveVisual k p
  end.

Definition viewport_key (k : Key) : option (ViewportPlacement * bool) :=
  match k with
  | Enter => Some (Top, true)
  | Char c =>
      if c =? ch "t" then Some (Top, false)
      else if c =? ch "z" then Some (Center, false)
      else if c =? ch "." then Some (Center, true)
      else if c =? ch "b" then Some (Bottom, false)
      else if c =? ch "-" then Some (Bottom, true)
      else None
  | _ => None
  end.

Definition feed_prefix (k : Key) (p : Parser) : Parser * Command :=
  let pre := prefix p in
  let pending_count := count p in
  let p := p <| prefix := PNone |> <| count := None |> in
  match pre with
  | PZ =>
      match viewport_key k with
      | Some (placement, first_nonblank) => finish (RepositionViewport placement pending_count first_nonblank) p
      | None => bell p
      end
  | _ =>
      match prefixed_motion pre k with
      | None => bell p
      | Some m =>
          match visual p with
          | Some _ => finish (MoveVisual m (taken_count pending_count)) p
          | None => finish (Move m (taken_count pending_count)) p
          end
      end
  end.

Definition object_key (k : Key) : option WordStyle :=
  match k with
  | Char c => if c =? ch "w" then Some Word else if c =? ch "W" then Some BigWord else None
  | _ => None
  end.

Definition feed_operator (k : Key) (p : Parser) : Parser * Command :=
  match operator p with
  | ONone => (p, CNone)  (* unreachable: the caller checks *)
  | Yank n reg pre motion_count around =>
      let total := multiply_counts n (default 1 motion_count) in
      match k with
      | Char c =>
          if is_count_digit c motion_count
          then (p <| operator := Yank n reg pre (Some (push_digit motion_count c)) around |>, CNone)
          else
          match around, pre with
          | Some around, _ =>
              match object_key k with
              | Some style => finish (YankTextObject (ObjectWord style around) total reg) p
              | None => bell p
              end
          | None, PNone =>
              if c =? ch "y" then finish (YankLine total reg) p
              else if c =? ch "i" then (p <| operator := Yank n reg pre motion_count (Some false) |>, CNone)
              else if c =? ch "a" then (p <| operator := Yank n reg pre motion_count (Some true) |>, CNone)
              else if c =? ch "g" then (p <| operator := Yank n reg PG motion_count around |>, CNone)
              else if c =? ch "[" then (p <| operator := Yank n reg (PBracket false) motion_count around |>, CNone)
              else if c =? ch "]" then (p <| operator := Yank n reg (PBracket true) motion_count around |>, CNone)
              else match find_key c with
              | Some f => (p <| operator := Yank n reg f motion_count around |>, CNone)
              | None =>
                  match motion_for_key k with
                  | Some m => finish (YankMotion m total reg) p
                  | None => bell p
                  end
              end
          | None, _ =>
              match prefixed_motion pre k with
              | Some m => finish (YankMotion m total reg) p
              | None => bell p
              end
          end
      | _ =>
          match around, pre with
          | None, PNone =>
              match motion_for_key k with
              | Some m => finish (YankMotion m total reg) p
              | None => bell p
              end
          | _, _ => bell p
          end
      end
  end.

Definition feed_register (k : Key) (p : Parser) : Parser * Command :=
  let p := p <| awaiting_register := false |> in
  match k with
  | Char c =>
      if c =? QUOTE then (p <| register := Some Internal |>, CNone)
      else if c =? ch "+" then (p <| register := Some System |>, CNone)
      else bell p
  | _ => bell p
  end.

(** * The parser *)

Definition has_operator (p : Parser) : bool := match operator p with ONone => false | _ => true end.
Definition has_prefix (p : Parser) : bool := match prefix p with PNone => false | _ => true end.

Definition escape (p : Parser) : Parser * Command :=
  match visual p with
  | Some _ => (reset_pending (p <| visual := None |>), CancelVisual)
  | None =>
      if bool_decide (is_Some (count p)) || has_prefix p || has_operator p || bool_decide (is_Some (register p)) ||
         awaiting_register p
      then (reset_pending p, CNone)
      else (p, Bell)
  end.

Definition feed (k : Key) (p : Parser) : Parser * Command :=
  match k with
  | Escape => escape p
  | _ =>
      if awaiting_register p then feed_register k p
      else if has_operator p then feed_operator k p
      else if has_prefix p then feed_prefix k p
      else match visual p with Some _ => feed_visual k p | None => feed_normal k p end
  end.

Fixpoint feed_all (ks : list Key) (p : Parser) : Parser * list Command :=
  match ks with
  | [] => (p, [])
  | k :: ks => let '(p, c) := feed k p in let '(p, cs) := feed_all ks p in (p, c :: cs)
  end.

(** * The language of commands

    A phrase is an optional register, an optional count, and a body; [meaning]
    is the command it stands for. *)

Definition motion_keys (m : Motion) : list Key :=
  Char <$>
  match m with
  | MLeft => [ch "h"] | MDown => [ch "j"] | MUp => [ch "k"] | MRight => [ch "l"]
  | LineStart => [ch "0"] | FirstNonblank => [ch "^"] | LineEnd => [ch "$"]
  | MWord ForwardStart Word => [ch "w"] | MWord ForwardStart BigWord => [ch "W"]
  | MWord BackwardStart Word => [ch "b"] | MWord BackwardStart BigWord => [ch "B"]
  | MWord ForwardEnd Word => [ch "e"] | MWord ForwardEnd BigWord => [ch "E"]
  | DocumentStart => [ch "g"; ch "g"] | DocumentEnd => [ch "G"] | MatchingBrace => [ch "%"]
  | Find Forward false c => [ch "f"; c] | Find Backward false c => [ch "F"; c]
  | Find Forward true c => [ch "t"; c] | Find Backward true c => [ch "T"; c]
  | RepeatFind false => [ch ";"] | RepeatFind true => [ch ","]
  | Prompt false => [ch "["; ch "p"] | Prompt true => [ch "]"; ch "p"]
  end.

Inductive Body :=
| BMotion (m : Motion)
| BViewport (placement : ViewportPlacement) (first_nonblank : bool)
| BPage (forward : bool)
| BYankMotion (motion_count : option N) (m : Motion)
| BYankLine (motion_count : option N)
| BYankObject (motion_count : option N) (around : bool) (style : WordStyle)
| BVisual (kind : VisualKind)
| BSearch (direction : SearchDirection)
| BRepeatSearch (reverse : bool)
| BExit
| BYankVisual
| BCancelVisual.

Definition count_keys (c : option N) : list Key := match c with Some n => Char <$> to_dec n | None => [] end.

Definition register_keys (r : option ClipboardRegister) : list Key :=
  match r with
  | None => []
  | Some Internal => [Char QUOTE; Char QUOTE]
  | Some System => [Char QUOTE; Char (ch "+")]
  end.

Definition viewport_keys (placement : ViewportPlacement) (first_nonblank : bool) : Key :=
  match placement, first_nonblank with
  | Top, false => Char (ch "t") | Top, true => Enter
  | Center, false => Char (ch "z") | Center, true => Char (ch ".")
  | Bottom, false => Char (ch "b") | Bottom, true => Char (ch "-")
  end.

Definition body_keys (b : Body) : list Key :=
  match b with
  | BMotion m => motion_keys m
  | BViewport placement first_nonblank => [Char (ch "z"); viewport_keys placement first_nonblank]
  | BPage forward => [Ctrl (if forward then ch "f" else ch "b")]
  | BYankMotion mc m => Char (ch "y") :: count_keys mc ++ motion_keys m
  | BYankLine mc => Char (ch "y") :: count_keys mc ++ [Char (ch "y")]
  | BYankObject mc around style =>
      Char (ch "y") :: count_keys mc ++
      [Char (if around then ch "a" else ch "i"); Char (match style with Word => ch "w" | BigWord => ch "W" end)]
  | BVisual Character => [Char (ch "v")] | BVisual Line => [Char (ch "V")]
  | BSearch SearchForward => [Char (ch "/")] | BSearch SearchBackward => [Char (ch "?")]
  | BRepeatSearch reverse => [Char (if reverse then ch "N" else ch "n")]
  | BExit => [Char (ch "q")]
  | BYankVisual => [Char (ch "y")]
  | BCancelVisual => [Char (ch "v")]
  end.

(** A count as it is understood: capped, and one when it is not given. *)
Definition capped (c : option N) : option N := N.min MAX_COUNT <$> c.
Definition times (c : option N) : N := default 1 (capped c).

Definition meaning (vis : option VisualKind) (r : option ClipboardRegister) (c : option N) (b : Body)
    : Command * option VisualKind :=
  match b with
  | BMotion m => (match vis with Some _ => MoveVisual m (times c) | None => Move m (times c) end, vis)
  | BViewport placement first_nonblank => (RepositionViewport placement (capped c) first_nonblank, vis)
  | BPage forward => (ScrollPage forward (times c), vis)
  | BYankMotion mc m => (YankMotion m (N.min (times c * times mc) MAX_COUNT) r, vis)
  | BYankLine mc => (YankLine (N.min (times c * times mc) MAX_COUNT) r, vis)
  | BYankObject mc around style => (YankTextObject (ObjectWord style around) (N.min (times c * times mc) MAX_COUNT) r, vis)
  | BVisual kind => (StartVisual kind, Some kind)
  | BSearch direction => (StartSearch direction, vis)
  | BRepeatSearch reverse => (RepeatSearch reverse (times c), vis)
  | BExit => (Exit, vis)
  | BYankVisual => (YankVisual r, None)
  | BCancelVisual => (CancelVisual, None)
  end.

Definition count_ok (c : option N) : Prop := match c with Some n => 0 < n | None => True end.

(** What a motion cannot follow: [0] after a count is a digit of it, and after
    an operator a target that is a digit is taken for a count. *)
Definition motion_ok (c : option N) (operator : bool) (m : Motion) : Prop :=
  match m with
  | LineStart => c = None
  | Find _ _ target => operator = true → is_count_digit target c = false
  | _ => True
  end.

Definition phrase_ok (vis : option VisualKind) (c : option N) (b : Body) : Prop :=
  count_ok c ∧
  match b with
  | BMotion m => motion_ok c false m
  | BViewport _ _ => True
  | BYankMotion mc m => vis = None ∧ count_ok mc ∧ motion_ok mc true m
  | BYankLine mc | BYankObject mc _ _ => vis = None ∧ count_ok mc
  | BPage _ | BVisual _ | BSearch _ | BRepeatSearch _ | BExit => vis = None
  | BYankVisual | BCancelVisual => is_Some vis
  end.

Definition resting (vis : option VisualKind) : Parser := parser_default <| visual := vis |>.

(** * Properties *)

Lemma feed_all_app ks1 ks2 p :
  feed_all (ks1 ++ ks2) p =
  let '(p, cs1) := feed_all ks1 p in let '(p, cs2) := feed_all ks2 p in (p, cs1 ++ cs2).
Proof.
  revert p. induction ks1 as [|k ks1 IH]; intros p; cbn [feed_all app]; [by destruct (feed_all ks2 p)|].
  destruct (feed k p) as [p1 c]. rewrite IH. destruct (feed_all ks1 p1) as [p2 cs1]. by destruct (feed_all ks2 p2).
Qed.

(** ** Counts *)

Lemma push_digit_capped v d : is_digit d = true →
  push_digit (Some (N.min MAX_COUNT v)) d = N.min MAX_COUNT (10 * v + (d - 48)).
Proof.
  intros Hd. unfold push_digit, sat_add, sat_mul, is_digit in *. cbn [default from_option]. unfold id.
  unfold usize_max, u64_max, MAX_COUNT in *. lia.
Qed.

Lemma push_digit_first d : is_digit d = true → push_digit None d = N.min MAX_COUNT (d - 48).
Proof.
  intros Hd. unfold push_digit, sat_add, sat_mul, is_digit in *. cbn [default from_option]. unfold id.
  unfold usize_max, u64_max, MAX_COUNT in *. lia.
Qed.

(** The value of a count grows with its digits. *)
Lemma fold_digits v ds : Forall (λ d, is_digit d = true) ds →
  foldl (λ c d, Some (push_digit c d)) (Some (N.min MAX_COUNT v)) ds = Some (N.min MAX_COUNT (digits_value v ds)).
Proof.
  intros Hds. revert v. induction Hds as [|d ds Hd _ IH]; intros v; [done|]. cbn [foldl digits_value].
  by rewrite push_digit_capped, IH.
Qed.

(** A count is printed without leading zeros. *)
Lemma to_dec_aux_head fuel n : 0 < n → n < 10 ^ N.of_nat fuel →
  ∃ d ds, to_dec_aux fuel n [] = d :: ds ∧ d ≠ 48.
Proof.
  revert n. induction fuel as [|fuel IH]; intros n Hn Hlt; [simpl in Hlt; lia|]. cbn [to_dec_aux].
  destruct (N.ltb_spec n 10).
  - eexists _, _. split; [done|]. rewrite N.mod_small by done. lia.
  - destruct (IH (n / 10)) as (d & ds & Hd & Hne).
    + apply N.div_str_pos. lia.
    + apply N.Div0.div_lt_upper_bound. rewrite Nat2N.inj_succ, N.pow_succ_r' in Hlt. done.
    + rewrite to_dec_aux_app, Hd. eexists _, _. split; [done|done].
Qed.

Lemma to_dec_head n : 0 < n → ∃ d ds, to_dec n = d :: ds ∧ d ≠ 48 ∧ Forall (λ d, is_digit d = true) (d :: ds).
Proof.
  intros Hn. destruct (to_dec_aux_head (S (N.to_nat (N.size n))) n Hn (to_dec_fuel n)) as (d & ds & Hd & Hne).
  exists d, ds. split_and!; [done|done|]. rewrite <-Hd. apply (to_dec_digits n).
Qed.

Lemma count_value n : 0 < n →
  foldl (λ c d, Some (push_digit c d)) None (to_dec n) = Some (N.min MAX_COUNT n).
Proof.
  intros Hn. destruct (to_dec_head n Hn) as (d & ds & Hd & Hne & Hdigits). pose proof (to_dec_value n) as Hv.
  rewrite Hd in Hv |- *. apply Forall_cons in Hdigits as [Hd1 Hds]. cbn [foldl].
  rewrite push_digit_first, fold_digits by done. f_equal. f_equal. by rewrite <-Hv.
Qed.

(** Reading a count through a step that takes count digits, whatever holds the count. *)
Lemma feed_digits (put : option N → Parser) :
  (∀ c d, is_count_digit d c = true → feed (Char d) (put c) = (put (Some (push_digit c d)), CNone)) →
  ∀ c, count_ok c → feed_all (count_keys c) (put None) = (put (capped c), replicate (length (count_keys c)) CNone).
Proof.
  intros Hput [n|] Hn; [|done]. unfold count_keys, capped. cbn [fmap option_fmap option_map].
  rewrite <-(count_value n Hn). destruct (to_dec_head n Hn) as (d & ds & -> & Hne & Hdigits).
  assert (∀ ds c, is_Some c → Forall (λ d, is_digit d = true) ds →
    feed_all (Char <$> ds) (put c) = (put (foldl (λ c d, Some (push_digit c d)) c ds), replicate (length (Char <$> ds)) CNone)) as Hrest.
  { clear -Hput. intros ds. induction ds as [|d ds IH]; intros c Hc Hds; [done|]. apply Forall_cons in Hds as [Hd Hds].
    rewrite fmap_cons. cbn [feed_all foldl length replicate]. rewrite Hput.
    - by rewrite IH.
    - unfold is_count_digit. rewrite Hd, (bool_decide_eq_true_2 _ Hc). by rewrite orb_true_r. }
  apply Forall_cons in Hdigits as [Hd Hds]. rewrite fmap_cons. cbn [feed_all foldl length replicate]. rewrite Hput.
  - by rewrite Hrest.
  - unfold is_count_digit. rewrite Hd. by rewrite (proj2 (N.eqb_neq d _)) by done.
Qed.

(** ** Bodies *)

(** The parser with a register and a count read. *)
Definition ready (vis : option VisualKind) (r : option ClipboardRegister) (c : option N) : Parser :=
  (resting vis) <| count := c |> <| register := r |>.

(** The parser after [y], with the count of the motion read. *)
Definition yanking (n : N) (r : option ClipboardRegister) (mc : option N) : Parser :=
  (resting None) <| operator := Yank n r PNone mc None |>.

Definition answers (ks : list Key) (c : Command) : list Command := replicate (length ks - 1) CNone ++ [c].

Lemma feed_motion vis r c m : motion_ok c false m →
  feed_all (motion_keys m) (ready vis r c) =
  (resting vis, answers (motion_keys m)
    (match vis with Some _ => MoveVisual m (taken_count c) | None => Move m (taken_count c) end)).
Proof.
  intros Hm. destruct m as [| | | | | | |[] []| | | |[] [] target|[]|[]]; cbn in Hm; subst; by destruct vis.
Qed.

Lemma feed_yank_motion n r mc m : motion_ok mc true m →
  feed_all (motion_keys m) (yanking n r mc) =
  (resting None, answers (motion_keys m) (YankMotion m (multiply_counts n (default 1 mc)) r)).
Proof.
  intros Hm. destruct m as [| | | | | | |[] []| | | |direction till target|[]|[]]; cbn in Hm; subst; try done.
  assert (∀ d b, feed (Char target) ((resting None) <| operator := Yank n r (PFind d b) mc None |>) =
    (resting None, YankMotion (Find d b target) (multiply_counts n (default 1 mc)) r)) as Hfind.
  { intros d b. change (feed_operator (Char target) ((resting None) <| operator := Yank n r (PFind d b) mc None |>) =
      (resting None, YankMotion (Find d b target) (multiply_counts n (default 1 mc)) r)).
    unfold feed_operator. change (operator ((resting None) <| operator := Yank n r (PFind d b) mc None |>)) with (Yank n r (PFind d b) mc None).
    cbv iota zeta. by rewrite Hm. }
  assert (∀ f d b, motion_keys (Find d b target) = [Char f; Char target] → feed (Char f) (yanking n r mc) =
      ((resting None) <| operator := Yank n r (PFind d b) mc None |>, CNone) →
    feed_all (motion_keys (Find d b target)) (yanking n r mc) =
      (resting None, answers (motion_keys (Find d b target)) (YankMotion (Find d b target) (multiply_counts n (default 1 mc)) r))) as Hboth.
  { intros f d b -> Hf. cbn [feed_all]. rewrite Hf. by rewrite Hfind. }
  destruct direction, till; by eapply Hboth.
Qed.

Lemma feed_register_keys vis r : feed_all (register_keys r) (resting vis) =
  (ready vis r None, replicate (length (register_keys r)) CNone).
Proof. by destruct r as [[]|], vis. Qed.

Lemma feed_count vis r c : count_ok c →
  feed_all (count_keys c) (ready vis r None) = (ready vis r (capped c), replicate (length (count_keys c)) CNone).
Proof.
  apply (feed_digits (λ c, ready vis r c)). intros c' d Hd.
  destruct vis as [kind|].
  - change (feed_visual (Char d) (ready (Some kind) r c') = (ready (Some kind) r (Some (push_digit c' d)), CNone)).
    unfold feed_visual. change (count (ready (Some kind) r c')) with c'. by rewrite Hd.
  - change (feed_normal (Char d) (ready None r c') = (ready None r (Some (push_digit c' d)), CNone)).
    unfold feed_normal. change (count (ready None r c')) with c'. by rewrite Hd.
Qed.

Lemma feed_yank_count n r c : count_ok c →
  feed_all (count_keys c) (yanking n r None) = (yanking n r (capped c), replicate (length (count_keys c)) CNone).
Proof.
  apply (feed_digits (λ c, yanking n r c)). intros c' d Hd.
  change (feed_operator (Char d) (yanking n r c') = (yanking n r (Some (push_digit c' d)), CNone)).
  unfold feed_operator. change (operator (yanking n r c')) with (Yank n r PNone c' None). cbv iota zeta. by rewrite Hd.
Qed.

Lemma taken_capped c : count_ok c → taken_count (capped c) = times c.
Proof. unfold taken_count, times, capped, MAX_COUNT. destruct c; cbn; unfold id; lia. Qed.

Lemma multiply_times c mc : multiply_counts (times c) (default 1 (capped mc)) = N.min (times c * times mc) MAX_COUNT.
Proof.
  unfold multiply_counts, sat_mul. change (default 1 (capped mc)) with (times mc).
  generalize (times c * times mc). intros x. unfold usize_max, u64_max, MAX_COUNT. lia.
Qed.

(** Reading [keys] without an answer and then the rest. *)
Lemma feed_then ks1 ks2 p1 p2 p3 c : ks2 ≠ [] →
  feed_all ks1 p1 = (p2, replicate (length ks1) CNone) → feed_all ks2 p2 = (p3, answers ks2 c) →
  feed_all (ks1 ++ ks2) p1 = (p3, answers (ks1 ++ ks2) c).
Proof.
  intros Hne H1 H2. rewrite feed_all_app, H1, H2. unfold answers. rewrite app_assoc, <-replicate_add, length_app.
  do 3 f_equal. destruct ks2; [done|]. simpl. lia.
Qed.

Lemma motion_keys_ne m : motion_keys m ≠ [].
Proof. by destruct m as [| | | | | | |[] []| | | |[] []|[]|[]]. Qed.

Lemma feed_body vis r c b : phrase_ok vis c b →
  feed_all (body_keys b) (ready vis r (capped c)) =
  (resting (meaning vis r c b).2, answers (body_keys b) (meaning vis r c b).1).
Proof.
  intros [Hc Hb]. pose proof (taken_capped c Hc) as Ht.
  assert (∀ mc rest cmd, vis = None → count_ok mc → rest ≠ [] →
    feed_all rest (yanking (times c) r (capped mc)) = (resting None, answers rest cmd) →
    feed_all (Char (ch "y") :: count_keys mc ++ rest) (ready vis r (capped c)) =
    (resting None, answers (Char (ch "y") :: count_keys mc ++ rest) cmd)) as Hyank.
  { intros mc rest cmd -> Hmc Hne Hrest. change (Char (ch "y") :: count_keys mc ++ rest) with ([Char (ch "y")] ++ count_keys mc ++ rest).
    eapply feed_then; [by destruct (count_keys mc)| |by eapply feed_then; [done|apply feed_yank_count|]].
    cbn [feed_all]. assert (feed (Char (ch "y")) (ready None r (capped c)) = (yanking (taken_count (capped c)) r None, CNone)) as -> by done.
    by rewrite Ht. }
  destruct b as [m|placement nb|forward|mc m|mc|mc around style|kind|dir|reverse| | | ]; cbn [body_keys meaning fst snd].
  - rewrite feed_motion, Ht; [done|]. destruct m; try done; cbn in *; by subst.
  - by destruct placement, nb, vis.
  - subst vis. rewrite <-Ht. by destruct forward.
  - destruct Hb as (-> & Hmc & Hm). apply Hyank; [done|done|apply motion_keys_ne|].
    rewrite feed_yank_motion, multiply_times; [done|].
    destruct m; try done; cbn in *; [by subst|]. intros Hop. rewrite <-(Hm Hop). unfold is_count_digit. by destruct mc.
  - destruct Hb as [-> Hmc]. apply Hyank; [done|done|done|]. by rewrite <-multiply_times.
  - destruct Hb as [-> Hmc]. apply Hyank; [done|done|done|]. rewrite <-multiply_times. by destruct around, style.
  - subst vis. by destruct kind.
  - subst vis. by destruct dir.
  - subst vis. rewrite <-Ht. by destruct reverse.
  - by subst vis.
  - destruct Hb as [k ->]. done.
  - destruct Hb as [k ->]. done.
Qed.

(** C14. The key language is read back: from a parser at rest, in normal or in
    visual mode, the keys of every phrase give no command before the last key
    and there exactly the phrase's command, with its register, with counts
    capped at ten thousand and the two counts of a yank multiplied; the parser
    is then at rest again, in the mode the command leaves it in. *)
Theorem phrases_are_read_back vis r c b : phrase_ok vis c b →
  let keys := register_keys r ++ count_keys c ++ body_keys b in
  feed_all keys (resting vis) = (resting (meaning vis r c b).2, answers keys (meaning vis r c b).1).
Proof.
  intros Hok keys. assert (body_keys b ≠ []) as Hne by (destruct b as [m| | | | | |[]|[]| | | | ]; [apply motion_keys_ne|done..]).
  unfold keys. eapply feed_then; [by destruct (count_keys c)|apply feed_register_keys|].
  eapply feed_then; [done|apply feed_count, Hok|by apply feed_body].
Qed.

Lemma phrases_are_read_back_witness :
  (feed_all [Char QUOTE; Char (ch "+"); Char (ch "3"); Char (ch "y"); Char (ch "2"); Char (ch "t"); Char (ch ";")] parser_default).2 =
  [CNone; CNone; CNone; CNone; CNone; CNone; YankMotion (Find Forward true (ch ";")) 6 (Some System)].
Proof.
  pose proof (phrases_are_read_back None (Some System) (Some 3) (BYankMotion (Some 2) (Find Forward true (ch ";")))) as H.
  assert (phrase_ok None (Some 3) (BYankMotion (Some 2) (Find Forward true (ch ";")))) as Hok.
  { split_and!; cbn; [lia|done|lia|done]. }
  specialize (H Hok). cbv zeta in H.
  change [Char QUOTE; Char (ch "+"); Char (ch "3"); Char (ch "y"); Char (ch "2"); Char (ch "t"); Char (ch ";")] with
    (register_keys (Some System) ++ count_keys (Some 3) ++ body_keys (BYankMotion (Some 2) (Find Forward true (ch ";")))).
  change parser_default with (resting None). rewrite H. vm_compute. reflexivity.
Defined.

(** The target of a find is any character, except after an operator: [yf3] does
    not yank to the next 3, the digit is read as a count and the find waits on. *)
Example find_target_digit_is_a_count :
  (feed_all [Char (ch "f"); Char (ch "3")] parser_default).2 = [CNone; Move (Find Forward false (ch "3")) 1] ∧
  (feed_all [Char (ch "y"); Char (ch "f"); Char (ch "3")] parser_default).2 = [CNone; CNone; CNone].
Proof. by vm_compute. Qed.

(** ** Whatever is typed *)

Definition count_in (c : option N) : Prop := match c with Some n => 1 ≤ n ≤ MAX_COUNT | None => True end.

Definition parser_ok (p : Parser) : Prop :=
  count_in (count p) ∧
  match operator p with
  | ONone => True
  | Yank n _ _ mc _ => 1 ≤ n ≤ MAX_COUNT ∧ count_in mc
  end.

(** The counts a command carries. *)
Definition command_counts (c : Command) : list N :=
  match c with
  | Move _ n | ScrollPage _ n | YankMotion _ n _ | YankLine n _ | YankTextObject _ n _ | MoveVisual _ n
  | RepeatSearch _ n => [n]
  | RepositionViewport _ (Some n) _ => [n]
  | _ => []
  end.

Definition command_ok (c : Command) : Prop := Forall (λ n, 1 ≤ n ≤ MAX_COUNT) (command_counts c).

Definition answer_ok (r : Parser * Command) : Prop :=
  parser_ok r.1 ∧ command_ok r.2 ∧ (r.2 ≠ CNone → r.1 = resting (visual r.1)).

Lemma reset_pending_eq p : reset_pending p = resting (visual p).
Proof. by destruct p. Qed.

Lemma finish_ok c p : command_ok c → answer_ok (finish c p).
Proof. intros Hc. unfold finish. rewrite reset_pending_eq. by split_and!. Qed.

Lemma bell_ok p : answer_ok (bell p).
Proof. apply finish_ok. constructor. Qed.

Lemma pending_ok p : parser_ok p → answer_ok (p, CNone).
Proof. intros Hp. split_and!; [done|constructor|done]. Qed.

Lemma taken_count_in c : count_in c → 1 ≤ taken_count c ≤ MAX_COUNT.
Proof. unfold taken_count, MAX_COUNT. destruct c; cbn; unfold id, MAX_COUNT; lia. Qed.

Lemma push_digit_in c d : count_in c → is_count_digit d c = true → count_in (Some (push_digit c d)).
Proof.
  unfold is_count_digit, push_digit, sat_add, sat_mul, is_digit. change (ch "0") with 48.
  destruct c as [n|]; cbn; unfold id, usize_max, u64_max, MAX_COUNT; intros Hc Hd; [lia|].
  rewrite orb_false_r in Hd. lia.
Qed.

Lemma multiply_counts_in n mc : 1 ≤ n ≤ MAX_COUNT → count_in mc → 1 ≤ multiply_counts n (default 1 mc) ≤ MAX_COUNT.
Proof.
  unfold multiply_counts, sat_mul. intros Hn Hm.
  assert (1 ≤ default 1 mc) as Hd by (destruct mc; cbn in *; unfold id; lia).
  assert (1 ≤ n * default 1 mc) by nia. generalize dependent (n * default 1 mc). intros x Hx.
  unfold usize_max, u64_max, MAX_COUNT. lia.
Qed.

Lemma one_count_ok n c : command_counts c = [n] → 1 ≤ n ≤ MAX_COUNT → command_ok c.
Proof. intros Hc Hn. unfold command_ok. rewrite Hc. by apply Forall_singleton. Qed.

Lemma move_or_bell_ok make k p : (∀ m n, command_counts (make m n) = [n]) → parser_ok p → answer_ok (move_or_bell make k p).
Proof.
  intros Hmake [Hc _]. unfold move_or_bell. destruct (motion_for_key k) as [m|]; [|apply bell_ok].
  apply finish_ok. eapply one_count_ok; [apply Hmake|]. by apply taken_count_in.
Qed.

Lemma page_ok forward p : parser_ok p → answer_ok (page forward p).
Proof. intros [Hc _]. apply finish_ok. eapply one_count_ok; [done|]. by apply taken_count_in. Qed.

Lemma add_count_ok c p : parser_ok p → is_count_digit c (count p) = true → answer_ok (add_count c p, CNone).
Proof. intros [Hc Ho] Hd. apply pending_ok. split; [by apply push_digit_in|done]. Qed.

Create HintDb review.
#[local] Hint Resolve finish_ok bell_ok pending_ok move_or_bell_ok page_ok add_count_ok : review.

(** Commands without a count, and states with the same pending numbers. *)
Lemma finish_plain_ok c p : command_counts c = [] → answer_ok (finish c p).
Proof. intros Hc. apply finish_ok. unfold command_ok. rewrite Hc. constructor. Qed.

Lemma same_pending_ok p p' : parser_ok p → count p' = count p → operator p' = operator p → answer_ok (p', CNone).
Proof. intros Hp Hc Ho. apply pending_ok. unfold parser_ok. by rewrite Hc, Ho. Qed.

Lemma finish_counted_ok (make : N → Command) n p : (∀ n, command_counts (make n) = [n]) → 1 ≤ n ≤ MAX_COUNT →
  answer_ok (finish (make n) p).
Proof. intros Hm Hn. apply finish_ok. by eapply one_count_ok. Qed.

Ltac answer :=
  solve [assumption | apply bell_ok | by apply finish_plain_ok | by eapply same_pending_ok | by apply page_ok
        | by apply move_or_bell_ok | by apply add_count_ok].

Lemma feed_normal_ok k p : parser_ok p → answer_ok (feed_normal k p).
Proof.
  intros Hp. pose proof Hp as [Hc Ho]. pose proof (taken_count_in _ Hc) as Ht.
  assert (∀ reverse, answer_ok (finish (RepeatSearch reverse (taken_count (count p))) p)) as Hrep.
  { intros reverse. by apply (finish_counted_ok (RepeatSearch reverse)). }
  assert (answer_ok (p <| count := None |> <| register := None |>
    <| operator := Yank (taken_count (count p)) (register p) PNone None None |>, CNone)) as Hyank.
  { apply pending_ok. by split. }
  unfold feed_normal. destruct k as [c| | | | | | | |c| ]; try answer.
  - repeat (case_match; try answer); apply Hrep.
  - repeat (case_match; try answer).
Qed.

Lemma feed_visual_ok k p : parser_ok p → answer_ok (feed_visual k p).
Proof. intros Hp. unfold feed_visual. destruct k; try answer. repeat (case_match; try answer). Qed.

Lemma feed_prefix_ok k p : parser_ok p → answer_ok (feed_prefix k p).
Proof.
  intros [Hc Ho]. pose proof (taken_count_in _ Hc) as Ht. unfold feed_prefix. cbv zeta.
  set (p' := p <| prefix := PNone |> <| count := None |>).
  assert (∀ m, answer_ok (match visual p' with
    | Some _ => finish (MoveVisual m (taken_count (count p))) p' | None => finish (Move m (taken_count (count p))) p' end)) as Hm.
  { intros m. destruct (visual p'); [by apply (finish_counted_ok (MoveVisual m))|by apply (finish_counted_ok (Move m))]. }
  assert (∀ placement nb, answer_ok (finish (RepositionViewport placement (count p) nb) p')) as Hv.
  { intros placement nb. destruct (count p) as [n|]; [|by apply finish_plain_ok].
    by apply (finish_counted_ok (λ n, RepositionViewport placement (Some n) nb)). }
  clearbody p'. destruct (prefix p); try (destruct (prefixed_motion _ k); [apply Hm|apply bell_ok]).
  destruct (viewport_key k) as [[placement nb]|]; [apply Hv|apply bell_ok].
Qed.

Lemma feed_operator_ok k p : parser_ok p → answer_ok (feed_operator k p).
Proof.
  intros Hp. pose proof Hp as [Hc Ho]. unfold feed_operator. destruct (operator p) as [|n r pre mc around] eqn:Hop; [answer|].
  destruct Ho as [Hn Hmc]. pose proof (multiply_counts_in n mc Hn Hmc) as Ht. cbv zeta. set (total := multiply_counts n (default 1 mc)) in *.
  assert (∀ pre' mc' around', count_in mc' → answer_ok (p <| operator := Yank n r pre' mc' around' |>, CNone)) as Hwait.
  { intros. apply pending_ok. by split. }
  assert (∀ m, answer_ok (finish (YankMotion m total r) p)) as Hm.
  { intros m. by apply (finish_counted_ok (λ n, YankMotion m n r)). }
  assert (∀ o, answer_ok (finish (YankTextObject o total r) p)) as Hobj.
  { intros o. by apply (finish_counted_ok (λ n, YankTextObject o n r)). }
  assert (answer_ok (finish (YankLine total r) p)) as Hline by by apply (finish_counted_ok (λ n, YankLine n r)).
  clearbody total.
  assert (∀ k, answer_ok (match motion_for_key k with Some m => finish (YankMotion m total r) p | None => bell p end)) as Hsimple.
  { intros k'. destruct (motion_for_key k'); [apply Hm|apply bell_ok]. }
  assert (∀ k, answer_ok (match around, pre with
    | None, PNone => match motion_for_key k with Some m => finish (YankMotion m total r) p | None => bell p end
    | _, _ => bell p
    end)) as Hother by (intros k'; destruct around, pre; (apply Hsimple || apply bell_ok)).
  destruct k as [c| | | | | | | |c| ]; [|apply Hother..].
  destruct (is_count_digit c mc) eqn:Hd; [by apply Hwait, push_digit_in|].
  destruct around as [around|]; [destruct (object_key _); [apply Hobj|answer]|].
  destruct pre; try (destruct (prefixed_motion _ _); [apply Hm|answer]).
  repeat (case_match; try answer; try apply Hm; try by apply Hwait).
Qed.

Lemma feed_register_ok k p : parser_ok p → answer_ok (feed_register k p).
Proof. intros Hp. unfold feed_register. destruct k; try answer. cbv zeta. repeat (case_match; try answer). Qed.

(** With nothing pending in normal mode, the parser is the initial one. *)
Lemma nothing_pending p : visual p = None →
  bool_decide (is_Some (count p)) || has_prefix p || has_operator p || bool_decide (is_Some (register p)) ||
    awaiting_register p = false → p = parser_default.
Proof.
  unfold has_prefix, has_operator. destruct p as [c pre o v r a]; cbn. intros ->. intros Hpend.
  apply orb_false_iff in Hpend as [Hpend ->]. apply orb_false_iff in Hpend as [Hpend Hr].
  apply orb_false_iff in Hpend as [Hpend Ho]. apply orb_false_iff in Hpend as [Hc Hpre].
  apply bool_decide_eq_false, eq_None_not_Some in Hc, Hr. subst. by destruct pre, o.
Qed.

Lemma escape_ok p : parser_ok p → answer_ok (escape p).
Proof.
  intros Hp. unfold escape. destruct (visual p) eqn:Hv; [by apply (finish_plain_ok CancelVisual)|].
  destruct (_ || _) eqn:Hpend; [by apply (finish_plain_ok CNone)|].
  rewrite (nothing_pending p Hv Hpend). by split_and!; [|constructor|].
Qed.

Lemma escape_settles p : (escape (escape p).1).1 = parser_default.
Proof.
  unfold escape at 2. destruct (visual p) eqn:Hv; [by destruct p|].
  destruct (_ || _) eqn:Hpend; [by destruct p; cbn in *; subst|]. by rewrite (nothing_pending p Hv Hpend).
Qed.

Lemma feed_ok k p : parser_ok p → answer_ok (feed k p).
Proof.
  intros Hp. unfold feed. destruct (awaiting_register p), (has_operator p), (has_prefix p), (visual p), k;
    auto using feed_register_ok, feed_operator_ok, feed_prefix_ok, feed_visual_ok, feed_normal_ok, escape_ok.
Qed.

Lemma feed_all_ok ks p : parser_ok p → parser_ok (feed_all ks p).1.
Proof.
  revert p. induction ks as [|k ks IH]; intros p Hp; [done|]. cbn [feed_all].
  destruct (feed_ok k p Hp) as [H1 _]. destruct (feed k p) as [p1 c]. specialize (IH p1 H1). by destruct (feed_all ks p1).
Qed.

(** Whatever has been typed, every command a key completes carries counts
    between one and ten thousand and leaves nothing pending: no count, prefix,
    operator or register of it reaches the next command.  Two presses of
    Escape bring the parser back to its initial state from anywhere. *)
Theorem commands_leave_nothing_pending ks k :
  let p := (feed_all ks parser_default).1 in
  let '(p', c) := feed k p in
  Forall (λ n, 1 ≤ n ≤ MAX_COUNT) (command_counts c) ∧
  (c ≠ CNone → p' = resting (visual p')) ∧
  (feed_all [Escape; Escape] p').1 = parser_default.
Proof.
  intros p. assert (parser_ok p) as Hp by by apply feed_all_ok. pose proof (feed_ok k p Hp) as Hf.
  destruct (feed k p) as [p' c]. destruct Hf as (_ & Hc & Hrest). split_and!; [done|done|].
  cbn [feed_all feed]. pose proof (escape_settles p') as Hs. destruct (escape p') as [p1 c1]. cbn [fst] in Hs. by destruct (escape p1).
Qed.
