(* ===== verification/Stabilization.v ===== *)
(** When a change of the screen is settled enough to be read out
    (src/src/app.rs, [StabilizationProfile] and [stabilization_decision]): the
    quiet window learned for every reading context, the deadlines of the burst
    of output in progress, and the decision to commit it.

    A profile belongs to a view and one of its screens; [StabilizationProfiles]
    is the map of the application, whose methods on it are [note_pty_update] and
    the ones after it.  Times are milliseconds ([u128]), delays are [u16]. *)

From S2P Require Import Prelude.
Local Open Scope N_scope.

Definition DIFF_DELAY : N := 30.
Definition MAX_DIFF_DELAY : N := 300.
Definition MIN_ADAPTIVE_DIFF_DELAY : N := 8.
Definition MAX_ADAPTIVE_DIFF_DELAY : N := 60.
Definition ADAPTIVE_DIFF_MARGIN : N := 4.
Definition ADAPTIVE_DIFF_DECAY : N := 2.
Definition ADAPTIVE_DIFF_CLEAN_BURSTS : N := 3.
Definition LATE_CONTINUATION_WINDOW_MS : N := 100.
Definition SEMANTIC_INPUT_REPAINT_SETTLE_MS : N := 120.

(** * Data *)

Inductive ScreenIdentity := PrimaryScreen | AlternateScreen.
#[export] Instance ScreenIdentity_eq_dec : EqDecision ScreenIdentity.
Proof. solve_decision. Defined.

Record AccessibilityContext := { view_id : N; screen : ScreenIdentity }.
#[export] Instance AccessibilityContext_eq_dec : EqDecision AccessibilityContext.
Proof. solve_decision. Defined.
#[export] Instance AccessibilityContext_countable : Countable AccessibilityContext.
Proof.
  refine (inj_countable' (λ c, (view_id c, bool_decide (screen c = PrimaryScreen)))
    (λ p, {| view_id := p.1; screen := if p.2 : bool then PrimaryScreen else AlternateScreen |}) _).
  by intros [v []].
Defined.

Record PresentedUpdateStatus := {
  context : option AccessibilityContext;
  finalization_pending : bool;
  application_transaction_open : bool;
  explicitly_stable : bool;
  completes_linear_output_record : bool;
  prompt_transaction_open : bool;
  parser_continuation : bool;
  adaptive_quiet_trainable : bool;
  structural_semantic_input_repaint : bool
}.

(** What the two functions below read of an [UpdateSummary]; a changed range of
    rows is its first and last row ([u16]). *)
Record UpdateSummary := {
  output_report_structural : bool;
  update_parser_continuation : bool;
  cursor_operations_after_last_line_feed : N;
  line_feed_boundaries : N;
  changed_rows : list (N * N);
  screen_before : ScreenIdentity;
  screen_after : ScreenIdentity;
  semantic_input_boundary : bool
}.

Definition adaptive_quiet_is_trainable (update : UpdateSummary) : bool :=
  negb (output_report_structural update) && negb (update_parser_continuation update) &&
  bool_decide (screen_before update = screen_after update) && negb (bool_decide (changed_rows update = [])).

Definition hinted_rows (rows : list (N * N)) : N :=
  fold_left (λ count r, sat_add usize_max count (sat_add u16_max (r.2 - r.1) 1)) rows 0.

(** [semantic_input_active] is what the view answers. *)
Definition structural_semantic_input_repaint_needs_settling
    (semantic_input_active : bool) (update : UpdateSummary) : bool :=
  if negb (output_report_structural update) || semantic_input_boundary update || negb semantic_input_active
  then false
  else if 0 <? hinted_rows (changed_rows update) then hinted_rows (changed_rows update) =? 1
  else (line_feed_boundaries update =? 0) && (cursor_operations_after_last_line_feed update <=? 1).

Record StabilizationBurst := { first_output_ms : N; last_output_ms : N; burst_delay_ms : N }.

Inductive StabilizationCommitReason := ExplicitlyStable | LinearOutputRecord | QuietWindow | HardDeadline.
#[export] Instance StabilizationCommitReason_eq_dec : EqDecision StabilizationCommitReason.
Proof. solve_decision. Defined.

Definition trains_adaptive_quiet (r : StabilizationCommitReason) (update : PresentedUpdateStatus) : bool :=
  bool_decide (r = QuietWindow) && adaptive_quiet_trainable update && negb (prompt_transaction_open update).

Inductive StabilizationDecision :=
| BlockedByApplicationTransaction
| WaitUntil (deadline_ms : N)
| Commit (reason : StabilizationCommitReason).

Definition deadline_ms (d : StabilizationDecision) (now_ms : N) : option N :=
  match d with
  | BlockedByApplicationTransaction => None
  | WaitUntil deadline => Some deadline
  | Commit _ => Some now_ms
  end.

(** * The decision *)

Definition stabilization_input_is_recent (now_ms : N) (last_input_ms : option N) : bool :=
  match last_input_ms with Some input => now_ms - input <=? MAX_DIFF_DELAY | None => false end.

Definition stabilization_decision (now_ms : N) (burst : StabilizationBurst)
    (update : PresentedUpdateStatus) (transaction_open : bool) : StabilizationDecision :=
  if transaction_open then BlockedByApplicationTransaction else
  let hard_deadline := sat_add u128_max (first_output_ms burst) MAX_DIFF_DELAY in
  if prompt_transaction_open update && (now_ms <? hard_deadline) then WaitUntil hard_deadline else
  let semantic_repaint_deadline :=
    N.min (sat_add u128_max (first_output_ms burst) SEMANTIC_INPUT_REPAINT_SETTLE_MS) hard_deadline in
  if structural_semantic_input_repaint update && (now_ms <? semantic_repaint_deadline)
  then WaitUntil semantic_repaint_deadline else
  if explicitly_stable update then Commit ExplicitlyStable else
  if completes_linear_output_record update then Commit LinearOutputRecord else
  if parser_continuation update then
    (if hard_deadline <=? now_ms then Commit HardDeadline else WaitUntil hard_deadline)
  else
  let quiet_deadline := sat_add u128_max (last_output_ms burst) (burst_delay_ms burst) in
  if quiet_deadline <=? now_ms then Commit QuietWindow
  else if hard_deadline <=? now_ms then Commit HardDeadline
  else WaitUntil (N.min quiet_deadline hard_deadline).

(** * The profile of a context *)

Record StabilizationProfile := {
  delay_ms : N;
  learned_floor_ms : N;
  maximum_gap_ms : N;
  clean_bursts : N;
  burst_adaptive_quiet_trainable : bool;
  late_raise_checkpoint : option (N * N);
  burst_first_output_ms : option N;
  burst_last_output_ms : option N;
  last_ordinary_finalized_ms : option N;
  last_ordinary_output_ms : option N
}.

Definition default_profile : StabilizationProfile := {|
  delay_ms := DIFF_DELAY; learned_floor_ms := MIN_ADAPTIVE_DIFF_DELAY; maximum_gap_ms := 0;
  clean_bursts := 0; burst_adaptive_quiet_trainable := true; late_raise_checkpoint := None;
  burst_first_output_ms := None; burst_last_output_ms := None;
  last_ordinary_finalized_ms := None; last_ordinary_output_ms := None
|}.

Definition get_or_insert {A} (o : option A) (a : A) : option A := Some (default a o).

(** The first part of [observe_output]: one output that is not trainable spoils
    the burst. *)
Definition note_trainable (trainable : bool) (p : StabilizationProfile) : StabilizationProfile :=
  p <| burst_adaptive_quiet_trainable :=
    match burst_first_output_ms p with
    | None => trainable
    | Some _ => burst_adaptive_quiet_trainable p && trainable
    end |>.

(** The second part: output soon after a finished burst, without input since,
    raises the quiet window at once. *)
Definition late_continuation (now_ms : N) (last_input_ms : option N) (p : StabilizationProfile) : option N :=
  finalized ← last_ordinary_finalized_ms p;
  previous_output ← last_ordinary_output_ms p;
  if (finalized <? now_ms) && (now_ms - finalized <=? LATE_CONTINUATION_WINDOW_MS) &&
     match last_input_ms with None => true | Some input => input <? finalized end &&
     burst_adaptive_quiet_trainable p
  then Some previous_output else None.

Definition raise_window (now_ms previous_output : N) (p : StabilizationProfile) : StabilizationProfile :=
  let late_gap := now_ms - previous_output in
  let raised := N.min (sat_add u128_max late_gap ADAPTIVE_DIFF_MARGIN) MAX_ADAPTIVE_DIFF_DELAY in
  p <| late_raise_checkpoint := get_or_insert (late_raise_checkpoint p) (delay_ms p, learned_floor_ms p) |>
    <| delay_ms := N.max (delay_ms p) raised |>
    <| learned_floor_ms := N.max (learned_floor_ms p) raised |>
    <| clean_bursts := 0 |>
    <| last_ordinary_finalized_ms := None |>
    <| last_ordinary_output_ms := None |>.

(** The third part: gaps and limits of the burst. *)
Definition extend_burst (now_ms : N) (p : StabilizationProfile) : StabilizationProfile :=
  p <| maximum_gap_ms :=
       match burst_last_output_ms p with
       | Some previous => N.max (maximum_gap_ms p) (N.min (now_ms - previous) MAX_ADAPTIVE_DIFF_DELAY)
       | None => maximum_gap_ms p
       end |>
    <| burst_first_output_ms := get_or_insert (burst_first_output_ms p) now_ms |>
    <| burst_last_output_ms := Some now_ms |>.

Definition observe_output (now_ms : N) (last_input_ms : option N) (trainable : bool)
    (p : StabilizationProfile) : StabilizationProfile :=
  let p := note_trainable trainable p in
  let p := match late_continuation now_ms last_input_ms p with
           | Some previous_output => raise_window now_ms previous_output p
           | None => p
           end in
  extend_burst now_ms p.

Definition clamp (lo hi v : N) : N := N.min hi (N.max lo v).

(** The ordinary branch of [finish_burst]: the window learns. *)
Definition train (now_ms last_output : N) (p : StabilizationProfile) : StabilizationProfile :=
  let observed_target :=
    clamp MIN_ADAPTIVE_DIFF_DELAY MAX_ADAPTIVE_DIFF_DELAY
      (sat_add u16_max (maximum_gap_ms p) ADAPTIVE_DIFF_MARGIN) in
  let p := p <| learned_floor_ms := N.max (learned_floor_ms p) observed_target |>
             <| clean_bursts := sat_add u8_max (clean_bursts p) 1 |> in
  let p :=
    if ADAPTIVE_DIFF_CLEAN_BURSTS <=? clean_bursts p then
      let p := if observed_target <? learned_floor_ms p
               then p <| learned_floor_ms := N.max (learned_floor_ms p - 1) observed_target |> else p in
      p <| delay_ms := N.max (delay_ms p - ADAPTIVE_DIFF_DECAY) (learned_floor_ms p) |> <| clean_bursts := 0 |>
    else p in
  p <| last_ordinary_finalized_ms := Some now_ms |>
    <| last_ordinary_output_ms := Some last_output |>
    <| late_raise_checkpoint := None |>.

Definition roll_back (p : StabilizationProfile) : StabilizationProfile :=
  match late_raise_checkpoint p with
  | Some (delay, floor) => p <| delay_ms := delay |> <| learned_floor_ms := floor |>
  | None => p
  end <| late_raise_checkpoint := None |>.

Definition finish_burst (now_ms last_output : N) (ordinary : bool) (p : StabilizationProfile)
    : StabilizationProfile :=
  let p :=
    if ordinary && burst_adaptive_quiet_trainable p then train now_ms last_output p
    else (roll_back p) <| clean_bursts := 0 |>
           <| last_ordinary_finalized_ms := None |> <| last_ordinary_output_ms := None |> in
  p <| maximum_gap_ms := 0 |> <| burst_adaptive_quiet_trainable := true |>
    <| burst_first_output_ms := None |> <| burst_last_output_ms := None |>.

Definition burst (p : StabilizationProfile) : option StabilizationBurst :=
  last ← burst_last_output_ms p;
  Some {| first_output_ms := default last (burst_first_output_ms p);
          last_output_ms := last;
          burst_delay_ms := if burst_adaptive_quiet_trainable p then delay_ms p
                            else N.max (delay_ms p) DIFF_DELAY |}.

Definition rebase_burst_deadline (now_ms : N) (p : StabilizationProfile) : StabilizationProfile :=
  p <| burst_first_output_ms := Some now_ms |> <| burst_last_output_ms := Some now_ms |>.

Definition cancel_burst_context (p : StabilizationProfile) : StabilizationProfile :=
  (roll_back p) <| maximum_gap_ms := 0 |> <| clean_bursts := 0 |>
    <| burst_adaptive_quiet_trainable := true |>
    <| burst_first_output_ms := None |> <| burst_last_output_ms := None |>
    <| last_ordinary_finalized_ms := None |> <| last_ordinary_output_ms := None |>.

Definition reset_context (p : StabilizationProfile) : StabilizationProfile := default_profile.

(** * The profiles of the application *)

Definition StabilizationProfiles : Type := gmap AccessibilityContext StabilizationProfile.

(** [entry(context).or_default()], then a change of the profile. *)
Definition update_profile (c : AccessibilityContext) (f : StabilizationProfile → StabilizationProfile)
    (m : StabilizationProfiles) : StabilizationProfiles := <[c := f (default default_profile (m !! c))]> m.

Definition cancel_stabilization_bursts (m : StabilizationProfiles) : StabilizationProfiles :=
  cancel_burst_context <$> m.

Definition note_pty_update (c : AccessibilityContext) (now_ms : N) (last_stdin_update : option N)
    (screen_context_changed trainable : bool) (m : StabilizationProfiles) : StabilizationProfiles :=
  let m := if screen_context_changed then cancel_stabilization_bursts m else m in
  update_profile c (observe_output now_ms last_stdin_update trainable) m.

Definition stabilization_burst (c : AccessibilityContext) (m : StabilizationProfiles)
    : option StabilizationBurst := p ← m !! c; burst p.

Definition rebase_stabilization_burst_deadline (c : AccessibilityContext) (now_ms : N)
    (m : StabilizationProfiles) : StabilizationProfiles := update_profile c (rebase_burst_deadline now_ms) m.

Definition finish_stabilization_burst (c : AccessibilityContext) (now_ms last_output : N)
    (ordinary reset : bool) (m : StabilizationProfiles) : StabilizationProfiles :=
  update_profile c (λ p, if reset then reset_context p else finish_burst now_ms last_output ordinary p) m.

Definition prune_retired (contains_view_id : N → bool) (m : StabilizationProfiles) : StabilizationProfiles :=
  filter (λ kp, contains_view_id (view_id kp.1) = true) m.

(** * Invariant *)

Definition in_window (v : N) : Prop := MIN_ADAPTIVE_DIFF_DELAY ≤ v ≤ MAX_ADAPTIVE_DIFF_DELAY.

(** A profile at time [now]: its windows are between 8 and 60 milliseconds, its
    counters are small, and a burst is open exactly when both its ends are
    known. *)
Record profile_ok (now : N) (p : StabilizationProfile) : Prop := {
  ok_delay : in_window (delay_ms p);
  ok_floor : in_window (learned_floor_ms p);
  ok_gap : maximum_gap_ms p ≤ MAX_ADAPTIVE_DIFF_DELAY;
  ok_clean : clean_bursts p < ADAPTIVE_DIFF_CLEAN_BURSTS;
  ok_checkpoint d f : late_raise_checkpoint p = Some (d, f) →
    in_window d ∧ in_window f ∧ is_Some (burst_first_output_ms p);
  ok_burst : match burst_first_output_ms p, burst_last_output_ms p with
             | Some first, Some last => first ≤ last ≤ now
             | None, None => maximum_gap_ms p = 0 ∧ burst_adaptive_quiet_trainable p = true
             | _, _ => False
             end;
  ok_ordinary : match last_ordinary_finalized_ms p, last_ordinary_output_ms p with
                | Some finalized, Some output => output ≤ finalized ≤ now
                | None, None => True
                | _, _ => False
                end
}.

Definition at_rest (p : StabilizationProfile) : Prop := burst_first_output_ms p = None.

(** The window that counts: the one before a raise that is still provisional. *)
Definition committed_window (p : StabilizationProfile) : N * N :=
  default (delay_ms p, learned_floor_ms p) (late_raise_checkpoint p).

Ltac unfold_windows :=
  unfold in_window, MIN_ADAPTIVE_DIFF_DELAY, MAX_ADAPTIVE_DIFF_DELAY, ADAPTIVE_DIFF_MARGIN, ADAPTIVE_DIFF_DECAY,
    ADAPTIVE_DIFF_CLEAN_BURSTS, clamp, sat_add, u8_max, u16_max, DIFF_DELAY in *.

Lemma profile_ok_later now now' p : now ≤ now' → profile_ok now p → profile_ok now' p.
Proof.
  intros Hle [? ? ? ? ? Hb Ho]. constructor; try assumption.
  - destruct (burst_first_output_ms p), (burst_last_output_ms p); try done. lia.
  - destruct (last_ordinary_finalized_ms p), (last_ordinary_output_ms p); try done. lia.
Qed.

Lemma default_profile_ok now : profile_ok now default_profile.
Proof. constructor; cbn; unfold_windows; try done; try lia. Qed.

Lemma late_continuation_burst now input p o :
  late_continuation now input p = Some o →
  ∃ f, last_ordinary_finalized_ms p = Some f ∧ last_ordinary_output_ms p = Some o ∧
       burst_adaptive_quiet_trainable p = true.
Proof.
  unfold late_continuation.
  destruct (last_ordinary_finalized_ms p) as [f|]; [|done].
  destruct (last_ordinary_output_ms p) as [o'|]; [|done]. cbn.
  destruct (burst_adaptive_quiet_trainable p); [|by rewrite andb_false_r].
  case_match; [|done]. intros [= ->]. by eexists.
Qed.

(** [observe_output] keeps the window that counts. *)
Lemma committed_observe now input trainable p :
  committed_window (observe_output now input trainable p) = committed_window p.
Proof.
  unfold observe_output. destruct (late_continuation _ _ _).
  - by destruct p as [? ? ? ? ? [?|] ? ? ? ?].
  - done.
Qed.

Lemma roll_back_window p :
  (delay_ms (roll_back p), learned_floor_ms (roll_back p)) = committed_window p.
Proof. unfold roll_back, committed_window. by destruct (late_raise_checkpoint p) as [[]|]. Qed.

Lemma note_trainable_ok now trainable p :
  profile_ok now p →
  profile_ok now (extend_burst now (note_trainable trainable p)).
Proof.
  destruct p as [delay floor gap clean tr ck first last fin out].
  intros [Hd Hfl Hg Hc Hck Hb Ho]. cbn in *. constructor; cbn; try done.
  - destruct last; unfold_windows; lia.
  - intros d f Heq. destruct (Hck _ _ Heq) as (? & ? & ?). by split_and!.
  - destruct first, last; cbn; try done. all: lia.
Qed.

Lemma raise_window_ok now o p f :
  profile_ok now p → last_ordinary_finalized_ms p = Some f → last_ordinary_output_ms p = Some o →
  profile_ok now (extend_burst now (raise_window now o p)).
Proof.
  destruct p as [delay floor gap clean tr ck first last fin out].
  intros [Hd Hfl Hg Hc Hck Hb Ho]. cbn in *. intros -> ->. constructor; cbn; try done.
  - unfold_windows. lia.
  - unfold_windows. lia.
  - destruct last; unfold_windows; lia.
  - intros d f0 [= Heq]. destruct ck as [[d1 f1]|]; cbn in Heq; simplify_eq.
    + destruct (Hck _ _ eq_refl) as (? & ? & ?). by split_and!.
    + by split_and!.
  - destruct first, last; cbn; try done. all: lia.
Qed.

Lemma extend_note_late now trainable o p :
  extend_burst now (raise_window now o (note_trainable trainable p)) =
  (extend_burst now (raise_window now o p)) <| burst_adaptive_quiet_trainable :=
    burst_adaptive_quiet_trainable (note_trainable trainable p) |>.
Proof. by destruct p. Qed.

Lemma profile_ok_trainable now b p :
  profile_ok now p → burst_first_output_ms p ≠ None →
  profile_ok now (p <| burst_adaptive_quiet_trainable := b |>).
Proof.
  destruct p as [delay floor gap clean tr ck [first|] last fin out]; [|done].
  by intros [Hd Hfl Hg Hc Hck Hb Ho] _.
Qed.

Lemma observe_output_ok now now' input trainable p :
  profile_ok now p → now ≤ now' → profile_ok now' (observe_output now' input trainable p).
Proof.
  intros Hok Hle. apply (profile_ok_later _ now') in Hok; [|done]. unfold observe_output.
  destruct (late_continuation _ _ _) as [o|] eqn:Hlate; [|by apply note_trainable_ok].
  apply late_continuation_burst in Hlate as (f & Hfin & Hout & _).
  rewrite extend_note_late. apply profile_ok_trainable; [|by destruct p].
  by apply (raise_window_ok now' o p f).
Qed.

Lemma train_ok now last p :
  profile_ok now p → last ≤ now →
  in_window (delay_ms (train now last p)) ∧ in_window (learned_floor_ms (train now last p)) ∧
  clean_bursts (train now last p) < ADAPTIVE_DIFF_CLEAN_BURSTS.
Proof.
  destruct p as [delay floor gap clean tr ck first last' fin out].
  intros [Hd Hfl Hg Hc _ _ _] Hl. unfold train. cbn -[N.ltb N.leb N.max N.min N.sub N.add] in *.
  destruct (ADAPTIVE_DIFF_CLEAN_BURSTS <=? _) eqn:Hclean; cbn -[N.ltb N.leb N.max N.min N.sub N.add].
  2: { unfold_windows. lia. }
  destruct (_ <? _) eqn:Htarget; cbn -[N.ltb N.leb N.max N.min N.sub N.add]; unfold_windows; lia.
Qed.

Lemma committed_ok now p : profile_ok now p → in_window (committed_window p).1 ∧ in_window (committed_window p).2.
Proof.
  intros [Hd Hfl _ _ Hck _ _]. unfold committed_window.
  destruct (late_raise_checkpoint p) as [[d f]|]; [|done]. by destruct (Hck _ _ eq_refl) as (? & ? & _).
Qed.

Lemma roll_back_ok now p :
  profile_ok now p → in_window (delay_ms (roll_back p)) ∧ in_window (learned_floor_ms (roll_back p)).
Proof. intros Hok. pose proof (roll_back_window p) as Hw. apply committed_ok in Hok. by rewrite <-Hw in Hok. Qed.

Lemma finish_burst_ok now now' last ordinary p :
  profile_ok now p → now ≤ now' → last ≤ now' → profile_ok now' (finish_burst now' last ordinary p).
Proof.
  intros Hok Hle Hl. unfold finish_burst.
  destruct (ordinary && burst_adaptive_quiet_trainable p).
  - destruct (train_ok now' last p) as (? & ? & ?); [by apply (profile_ok_later now)|done|].
    constructor; by cbn.
  - destruct (roll_back_ok now p Hok) as [? ?].
    constructor; try done; by destruct p as [? ? ? ? ? [[]|] ? ? ? ?].
Qed.

Lemma rebase_ok now now' p :
  profile_ok now p → now ≤ now' → profile_ok now' (rebase_burst_deadline now' p).
Proof.
  intros Hok Hle. apply (profile_ok_later _ _ _ Hle) in Hok as [? ? ? ? Hck ? ?].
  constructor; cbn; try done.
  - intros d f Heq. destruct (Hck _ _ Heq) as (? & ? & _). by split_and!.
Qed.

Lemma cancel_ok now p : profile_ok now p → profile_ok now (cancel_burst_context p).
Proof.
  intros Hok. destruct (roll_back_ok now p Hok) as [? ?]. unfold cancel_burst_context.
  constructor; try done; by destruct p as [? ? ? ? ? [[]|] ? ? ? ?].
Qed.

(** * Runs of the application *)

(** The profiles at a time of the clock, which never goes back.  A burst is
    finished with the time of its last output. *)
Inductive profiles_step : N * StabilizationProfiles → N * StabilizationProfiles → Prop :=
| step_output now now' m c input changed trainable :
    now ≤ now' → profiles_step (now, m) (now', note_pty_update c now' input changed trainable m)
| step_rebase now now' m c :
    now ≤ now' → profiles_step (now, m) (now', rebase_stabilization_burst_deadline c now' m)
| step_finish now now' m c b ordinary reset :
    now ≤ now' → stabilization_burst c m = Some b →
    profiles_step (now, m) (now', finish_stabilization_burst c now' (last_output_ms b) ordinary reset m)
| step_cancel now m : profiles_step (now, m) (now, cancel_stabilization_bursts m)
| step_prune now m live : profiles_step (now, m) (now, prune_retired live m).

Definition profiles_reachable (s : N * StabilizationProfiles) : Prop := ∃ now, rtc profiles_step (now, ∅) s.

Definition profiles_ok (s : N * StabilizationProfiles) : Prop := map_Forall (λ _, profile_ok s.1) s.2.

Lemma profiles_ok_later now now' m : now ≤ now' → profiles_ok (now, m) → profiles_ok (now', m).
Proof. intros Hle Hm c p Hp. by eapply profile_ok_later, Hm. Qed.

Lemma update_profile_ok now c f m :
  profiles_ok (now, m) → (∀ p, profile_ok now p → profile_ok now (f p)) → profiles_ok (now, update_profile c f m).
Proof.
  intros Hm Hf. apply map_Forall_insert_2; [|done]. apply Hf.
  destruct (m !! c) eqn:Hc; [by apply (Hm c)|apply default_profile_ok].
Qed.

Lemma cancel_bursts_ok now m : profiles_ok (now, m) → profiles_ok (now, cancel_stabilization_bursts m).
Proof. intros Hm. apply map_Forall_fmap. intros c p Hp. by apply cancel_ok, (Hm c). Qed.

Lemma burst_times now p b :
  profile_ok now p → burst p = Some b → first_output_ms b ≤ last_output_ms b ≤ now ∧ in_window (burst_delay_ms b).
Proof.
  intros [Hd _ _ _ _ Hb _]. unfold burst.
  destruct (burst_last_output_ms p) as [l|]; [|done]. cbn. intros [= <-]. cbn.
  destruct (burst_first_output_ms p) as [f|]; [|done]. cbn. split; [done|].
  case_match; [done|]. unfold_windows. lia.
Qed.

Lemma profiles_step_ok s s' : profiles_step s s' → profiles_ok s → profiles_ok s'.
Proof.
  destruct 1 as [now now' m c input changed trainable Hle|now now' m c Hle|now now' m c b ord reset Hle Hb|now m|now m live];
    intros Hok.
  - apply update_profile_ok.
    + apply (profiles_ok_later now); [done|]. destruct changed; [by apply cancel_bursts_ok|done].
    + intros p Hp. by eapply observe_output_ok.
  - apply update_profile_ok; [by eapply profiles_ok_later|]. intros p Hp. by eapply rebase_ok.
  - unfold stabilization_burst in Hb. destruct (m !! c) as [p|] eqn:Hc; [|done].
    destruct (burst_times now p b) as [[_ ?] _]; [by apply (Hok c)|done|].
    apply update_profile_ok; [by eapply profiles_ok_later|]. intros q Hq.
    destruct reset; [apply default_profile_ok|]. eapply finish_burst_ok; [done|done|lia].
  - by apply cancel_bursts_ok.
  - intros c p Hp. apply map_lookup_filter_Some in Hp as [Hp _]. by apply (Hok c).
Qed.

Lemma profiles_reachable_ok s : profiles_reachable s → profiles_ok s.
Proof.
  intros [now Hr]. assert (profiles_ok (now, ∅)) as H0 by apply map_Forall_empty.
  induction Hr as [s|s1 s2 s3 Hs _ IH]; [done|]. by eapply IH, profiles_step_ok.
Qed.

(** * Learning *)

Definition observe (o : N * option N * bool) (p : StabilizationProfile) : StabilizationProfile :=
  observe_output o.1.1 o.1.2 o.2 p.

(** The outputs of a burst, in order. *)
Definition observe_all (os : list (N * option N * bool)) (p : StabilizationProfile) : StabilizationProfile :=
  fold_left (λ p o, observe o p) os p.

Lemma observe_all_cons o os p : observe_all (o :: os) p = observe_all os (observe o p).
Proof. done. Qed.

Lemma committed_observe_all os p : committed_window (observe_all os p) = committed_window p.
Proof.
  revert p. induction os as [|o os IH]; intros p; [done|]. rewrite observe_all_cons, IH. apply committed_observe.
Qed.

Lemma observe_trainable o p :
  burst_adaptive_quiet_trainable (observe o p) =
    (if burst_first_output_ms p is Some _ then burst_adaptive_quiet_trainable p && o.2 else o.2).
Proof. unfold observe, observe_output. by destruct (late_continuation _ _ _), p as [? ? ? ? ? ? []]. Qed.

Lemma observe_first o p : is_Some (burst_first_output_ms (observe o p)).
Proof. unfold observe, observe_output. destruct (late_continuation _ _ _), p as [? ? ? ? ? ? []]; eauto. Qed.

Lemma observe_all_spoilt os p :
  is_Some (burst_first_output_ms p) →
  burst_adaptive_quiet_trainable (observe_all os p) = burst_adaptive_quiet_trainable p && forallb snd os.
Proof.
  revert p. induction os as [|o os IH]; intros p [f Hf]; cbn [forallb]; [by rewrite andb_true_r|].
  rewrite observe_all_cons, IH by apply observe_first. by rewrite observe_trainable, Hf, <-andb_assoc.
Qed.

Lemma observe_all_trainable os p :
  burst_first_output_ms p = None → os ≠ [] →
  burst_adaptive_quiet_trainable (observe_all os p) = forallb snd os.
Proof.
  intros Hf. destruct os as [|o os]; [done|]. intros _. cbn [forallb].
  rewrite observe_all_cons, observe_all_spoilt by apply observe_first. by rewrite observe_trainable, Hf.
Qed.

(** A burst that was not ordinary, or in which one output was structural,
    teaches nothing: however many outputs it had, and although the quiet window
    may have been raised while it lasted, after it the window and its floor are
    exactly what they were before; the same holds when the burst is cancelled. *)
Theorem nontraining_bursts_teach_nothing p os now last ordinary :
  burst_first_output_ms p = None → late_raise_checkpoint p = None →
  os ≠ [] → ordinary && forallb snd os = false →
  let after := finish_burst now last ordinary (observe_all os p) in
  let cancelled := cancel_burst_context (observe_all os p) in
  (delay_ms after, learned_floor_ms after) = (delay_ms p, learned_floor_ms p) ∧
  (delay_ms cancelled, learned_floor_ms cancelled) = (delay_ms p, learned_floor_ms p) ∧
  late_raise_checkpoint after = None ∧ burst after = None.
Proof.
  intros Hrest Hck Hos Hord after cancelled.
  pose proof (committed_observe_all os p) as Hcommitted.
  replace (committed_window p) with (delay_ms p, learned_floor_ms p) in Hcommitted
    by (unfold committed_window; by rewrite Hck).
  rewrite <-roll_back_window in Hcommitted.
  subst after cancelled. unfold finish_burst. rewrite observe_all_trainable, Hord by done.
  split_and!; [exact Hcommitted|exact Hcommitted| |done].
  by destruct (observe_all os p) as [? ? ? ? ? [[]|] ? ? ? ?].
Qed.

(** One output at [out], finished as an ordinary burst at [fin]. *)
Definition quiet_burst (b : N * N) (p : StabilizationProfile) : StabilizationProfile :=
  finish_burst b.2 b.1 true (observe_output b.1 None true p).

(** Every burst begins more than the continuation window after the last one. *)
Fixpoint spaced (finalized : option N) (bs : list (N * N)) : Prop :=
  match bs with
  | [] => True
  | b :: rest =>
      match finalized with Some f => f + LATE_CONTINUATION_WINDOW_MS < b.1 | None => True end ∧
      spaced (Some b.2) rest
  end.

Definition windows_below (bound : N) (p : StabilizationProfile) : Prop :=
  delay_ms p ≤ bound ∧ learned_floor_ms p ≤ bound ∧
  MIN_ADAPTIVE_DIFF_DELAY ≤ delay_ms p ∧ MIN_ADAPTIVE_DIFF_DELAY ≤ learned_floor_ms p.

(** A profile between bursts. *)
Definition resting (p : StabilizationProfile) : Prop :=
  burst_first_output_ms p = None ∧ burst_last_output_ms p = None ∧ maximum_gap_ms p = 0 ∧
  clean_bursts p < ADAPTIVE_DIFF_CLEAN_BURSTS.

Lemma spaced_not_late b p :
  match last_ordinary_finalized_ms p with Some f => f + LATE_CONTINUATION_WINDOW_MS < b | None => True end →
  late_continuation b None (note_trainable true p) = None.
Proof.
  unfold late_continuation. destruct p as [? ? ? ? ? ? ? ? [f|] [o|]]; cbn; try done.
  intros Hf. unfold LATE_CONTINUATION_WINDOW_MS in *.
  destruct (f <? b) eqn:H1; [|done]. destruct (b - f <=? 100) eqn:H2; [lia|done].
Qed.

(** What one such burst does to a resting profile. *)
Lemma quiet_burst_step bound b p :
  resting p → windows_below bound p →
  match last_ordinary_finalized_ms p with Some f => f + LATE_CONTINUATION_WINDOW_MS < b.1 | None => True end →
  let q := quiet_burst b p in
  resting q ∧ last_ordinary_finalized_ms q = Some b.2 ∧
  if clean_bursts p + 1 =? ADAPTIVE_DIFF_CLEAN_BURSTS
  then clean_bursts q = 0 ∧ windows_below (N.max MIN_ADAPTIVE_DIFF_DELAY (bound - 1)) q
  else clean_bursts q = clean_bursts p + 1 ∧ windows_below bound q.
Proof.
  intros (Hf & Hl & Hg & Hc) Hw Hsp. unfold quiet_burst, observe_output.
  rewrite spaced_not_late by done. unfold windows_below, resting in *.
  destruct p as [delay floor gap clean tr ck first last fin out].
  cbn -[N.ltb N.leb N.max N.min N.sub N.add] in *. subst first last gap.
  unfold finish_burst, train. cbn -[N.ltb N.leb N.max N.min N.sub N.add N.eqb].
  unfold_windows.
  destruct (3 <=? N.min 255 (clean + 1)) eqn:Hcl; cbn -[N.ltb N.leb N.max N.min N.sub N.add N.eqb].
  - destruct (clean + 1 =? 3) eqn:Hc3; [|lia].
    destruct (_ <? _) eqn:Htarget; cbn -[N.ltb N.leb N.max N.min N.sub N.add N.eqb]; split_and!; try done; lia.
  - destruct (clean + 1 =? 3) eqn:Hc3; [lia|]. split_and!; try done; lia.
Qed.

Lemma quiet_bursts_lower bs bound p :
  resting p → windows_below bound p → spaced (last_ordinary_finalized_ms p) bs →
  let q := fold_left (λ p b, quiet_burst b p) bs p in
  resting q ∧ windows_below (N.max MIN_ADAPTIVE_DIFF_DELAY (bound - (clean_bursts p + len bs) / 3)) q.
Proof.
  revert bound p. induction bs as [|b bs IH]; intros bound p Hr Hw Hsp; cbn [fold_left].
  - split; [done|]. destruct Hr as (_ & _ & _ & Hc). unfold windows_below in *.
    cbn [length]. unfold_windows. replace ((clean_bursts p + N.of_nat 0) / 3) with 0; [lia|].
    symmetry. apply N.div_small. lia.
  - destruct Hsp as [Hsp1 Hsp2].
    destruct (quiet_burst_step bound b p Hr Hw Hsp1) as (Hr' & Hfin & Hstep).
    rewrite <-Hfin in Hsp2. cbn [length].
    destruct (clean_bursts p + 1 =? ADAPTIVE_DIFF_CLEAN_BURSTS) eqn:Hc; destruct Hstep as [Hclean Hw'].
    + destruct (IH _ _ Hr' Hw' Hsp2) as [? Hq]. split; [done|]. rewrite Hclean in Hq.
      eapply (eq_rect _ (λ b, windows_below b _)); [exact Hq|].
      unfold_windows. apply N.eqb_eq in Hc.
      replace (clean_bursts p + N.of_nat (S (length bs))) with (0 + N.of_nat (length bs) + 1 * 3) by lia.
      rewrite N.div_add by lia. lia.
    + destruct (IH _ _ Hr' Hw' Hsp2) as [? Hq]. split; [done|]. rewrite Hclean in Hq.
      eapply (eq_rect _ (λ b, windows_below b _)); [exact Hq|].
      f_equal. f_equal. f_equal. lia.
Qed.

(** The quiet window recovers: whatever it has been raised to, after 156
    ordinary bursts of one output each, none of them a late continuation, it
    and its floor are back at the minimum of eight milliseconds. *)
Theorem quiet_windows_recover now p bs :
  profile_ok now p → at_rest p → spaced (last_ordinary_finalized_ms p) bs → (156 ≤ length bs)%nat →
  let q := fold_left (λ p b, quiet_burst b p) bs p in
  delay_ms q = MIN_ADAPTIVE_DIFF_DELAY ∧ learned_floor_ms q = MIN_ADAPTIVE_DIFF_DELAY ∧
  burst_first_output_ms q = None.
Proof.
  intros [Hd Hfl Hg Hc _ Hb _] Hrest Hsp Hlen q. unfold at_rest in Hrest. rewrite Hrest in Hb.
  destruct (burst_last_output_ms p) eqn:Hlast; [done|]. destruct Hb as [Hgap _].
  destruct (quiet_bursts_lower bs MAX_ADAPTIVE_DIFF_DELAY p) as [Hr Hw]; [| |done|].
  - by split_and!.
  - unfold windows_below. unfold_windows. lia.
  - fold q in Hr, Hw. destruct Hr as (? & _). unfold windows_below in Hw.
    assert (52 ≤ (clean_bursts p + len bs) / 3) by (apply N.div_le_lower_bound; lia).
    unfold_windows. split_and!; [lia|lia|done].
Qed.

(** * Commits *)

Definition hard_deadline (b : StabilizationBurst) : N := sat_add u128_max (first_output_ms b) MAX_DIFF_DELAY.

Lemma semantic_before_hard b :
  N.min (sat_add u128_max (first_output_ms b) SEMANTIC_INPUT_REPAINT_SETTLE_MS) (hard_deadline b) =
  sat_add u128_max (first_output_ms b) SEMANTIC_INPUT_REPAINT_SETTLE_MS.
Proof. unfold hard_deadline, sat_add, SEMANTIC_INPUT_REPAINT_SETTLE_MS, MAX_DIFF_DELAY. lia. Qed.

Lemma decision_after_hard now b u :
  hard_deadline b ≤ now → ∃ r, stabilization_decision now b u false = Commit r.
Proof.
  intros Hh. unfold stabilization_decision. rewrite semantic_before_hard. fold (hard_deadline b).
  pose proof (semantic_before_hard b). destruct (now <? hard_deadline b) eqn:?; [lia|].
  destruct (now <? sat_add _ _ SEMANTIC_INPUT_REPAINT_SETTLE_MS) eqn:?; [lia|].
  rewrite !andb_false_r. replace (hard_deadline b <=? now) with true by lia.
  repeat case_match; eauto.
Qed.

(** A wait is for a later time before the hard deadline, and is not shortened. *)
Lemma wait_is_constant now b u t :
  stabilization_decision now b u false = WaitUntil t →
  now < t ≤ hard_deadline b ∧ ∀ now', now ≤ now' < t → stabilization_decision now' b u false = WaitUntil t.
Proof.
  unfold stabilization_decision. rewrite semantic_before_hard. fold (hard_deadline b).
  pose proof (semantic_before_hard b).
  generalize dependent (sat_add u128_max (first_output_ms b) SEMANTIC_INPUT_REPAINT_SETTLE_MS).
  generalize (sat_add u128_max (last_output_ms b) (burst_delay_ms b)) as q. generalize (hard_deadline b) as h.
  intros h q s Hs.
  destruct (prompt_transaction_open u), (structural_semantic_input_repaint u), (explicitly_stable u),
    (completes_linear_output_record u), (parser_continuation u); cbn [andb].
  all: repeat case_match; intros [= <-]; (split; [lia|intros now' Hn']).
  all: repeat case_match; try done; try (f_equal; lia); lia.
Qed.

(** Without the gate of a semantic repaint, one wait is enough. *)
Lemma wait_then_commit now b u t :
  structural_semantic_input_repaint u = false ∨
    sat_add u128_max (first_output_ms b) SEMANTIC_INPUT_REPAINT_SETTLE_MS ≤ now →
  stabilization_decision now b u false = WaitUntil t → ∃ r, stabilization_decision t b u false = Commit r.
Proof.
  intros Hgate Hw. destruct (N.le_gt_cases (hard_deadline b) t) as [|Ht]; [by apply decision_after_hard|].
  revert Hw. unfold stabilization_decision. rewrite semantic_before_hard. fold (hard_deadline b).
  revert Hgate Ht. generalize (sat_add u128_max (first_output_ms b) SEMANTIC_INPUT_REPAINT_SETTLE_MS) as s.
  generalize (sat_add u128_max (last_output_ms b) (burst_delay_ms b)) as q. generalize (hard_deadline b) as h.
  intros h q s Hgate Ht.
  destruct (prompt_transaction_open u), (structural_semantic_input_repaint u), (explicitly_stable u),
    (completes_linear_output_record u), (parser_continuation u); cbn [andb].
  all: destruct Hgate; try done.
  all: repeat case_match; intros [= <-]; eauto; lia.
Qed.

(** C12. Settled output is committed and in time: while the application keeps a
    transaction open nothing is; otherwise the decision is to commit or to wait
    for a later time, at most 300 milliseconds after the first output; until
    then it stays the same, and at that time it is to commit, at the latest
    after one more such wait. *)
Theorem settled_output_is_committed now b u :
  stabilization_decision now b u true = BlockedByApplicationTransaction ∧
  ((∃ r, stabilization_decision now b u false = Commit r) ∨
   ∃ t, stabilization_decision now b u false = WaitUntil t ∧ now < t ≤ hard_deadline b ∧
     (∀ now', now ≤ now' < t → stabilization_decision now' b u false = WaitUntil t) ∧
     ((∃ r, stabilization_decision t b u false = Commit r) ∨
      ∃ t', stabilization_decision t b u false = WaitUntil t' ∧ t < t' ≤ hard_deadline b ∧
            ∃ r, stabilization_decision t' b u false = Commit r)) ∧
  (hard_deadline b ≤ now → ∃ r, stabilization_decision now b u false = Commit r).
Proof.
  split; [done|]. split; [|apply decision_after_hard].
  destruct (stabilization_decision now b u false) as [|t|r] eqn:Hd; [|right|left; by exists r].
  { exfalso. revert Hd. unfold stabilization_decision. repeat case_match; done. }
  exists t. split; [done|]. destruct (wait_is_constant _ _ _ _ Hd) as [Hlt Hconst]. do 2 (split; [done|]).
  destruct (decide (structural_semantic_input_repaint u = false ∨
    sat_add u128_max (first_output_ms b) SEMANTIC_INPUT_REPAINT_SETTLE_MS ≤ now)) as [Hg|Hg].
  { left. by apply (wait_then_commit now). }
  destruct (stabilization_decision t b u false) as [|t'|r] eqn:Hd'; [|right|left; by exists r].
  { exfalso. revert Hd'. unfold stabilization_decision. repeat case_match; done. }
  exists t'. split; [done|]. destruct (wait_is_constant _ _ _ _ Hd') as [Hlt' _]. split; [done|].
  apply (wait_then_commit t); [|done]. right.
  destruct (N.le_gt_cases (sat_add u128_max (first_output_ms b) SEMANTIC_INPUT_REPAINT_SETTLE_MS) t)
    as [|Hts]; [done|exfalso].
  assert (stabilization_decision t b u false = WaitUntil t) as Hd2.
  { revert Hd Hg Hts. pose proof (semantic_before_hard b). unfold stabilization_decision.
    rewrite semantic_before_hard. fold (hard_deadline b).
    destruct (structural_semantic_input_repaint u); [|by intros; exfalso; eauto].
    destruct (prompt_transaction_open u); cbn [andb].
    all: repeat case_match; intros [= <-] Hg Hts; try lia; try (exfalso; apply Hg; right; lia). }
  rewrite Hd' in Hd2. simplify_eq. lia.
Qed.

(** Every profile the application can reach has a quiet window and a floor
    between 8 and 60 milliseconds (so no conversion to [u16] truncates), and the
    burst in progress, if any, begins before it ends and ends before the present
    time, with a delay between 8 and 60 milliseconds. *)
Theorem reachable_windows_are_bounded now m c p :
  profiles_reachable (now, m) → m !! c = Some p →
  in_window (delay_ms p) ∧ in_window (learned_floor_ms p) ∧ maximum_gap_ms p ≤ MAX_ADAPTIVE_DIFF_DELAY ∧
  (late_raise_checkpoint p ≠ None → burst p ≠ None) ∧
  ∀ b, burst p = Some b → first_output_ms b ≤ last_output_ms b ≤ now ∧ in_window (burst_delay_ms b).
Proof.
  intros Hr%profiles_reachable_ok Hp. apply Hr in Hp as Hok. destruct (Hok) as [Hd Hfl Hg Hc Hck Hb Ho].
  split_and!; try done.
  - destruct (late_raise_checkpoint p) as [[d f]|]; [|done]. intros _.
    destruct (Hck _ _ eq_refl) as (_ & _ & [f' Hf']). rewrite Hf' in Hb. unfold burst.
    by destruct (burst_last_output_ms p).
  - intros b Hburst. by apply (burst_times now p).
Qed.

(** * Witnesses *)

Lemma nontraining_bursts_teach_nothing_witness :
  let p := finish_burst 108 100 true (observe_output 100 None true
             (default_profile <| delay_ms := MIN_ADAPTIVE_DIFF_DELAY |>)) in
  let os := [(125, None, true); (126, None, false)] in
  delay_ms (observe_all (take 1 os) p) = 29 ∧ delay_ms (finish_burst 156 126 true (observe_all os p)) = 8.
Proof.
  intros p os. split; [reflexivity|].
  assert (burst_first_output_ms p = None) as H1 by reflexivity.
  assert (late_raise_checkpoint p = None) as H2 by reflexivity.
  destruct (nontraining_bursts_teach_nothing p os 156 126 true H1 H2 ltac:(discriminate) eq_refl) as [H _].
  change (delay_ms p) with 8 in H. by inversion H.
Defined.

Definition spaced_bursts (n : nat) : list (N * N) := (λ i, (1000 * N.of_nat i, 1000 * N.of_nat i + 60)) <$> seq 1 n.

Definition raised_profile : StabilizationProfile :=
  default_profile <| delay_ms := 60 |> <| learned_floor_ms := 60 |>.

Lemma quiet_windows_recover_witness :
  spaced None (spaced_bursts 156) ∧
  delay_ms (fold_left (λ p b, quiet_burst b p) (spaced_bursts 156) raised_profile) = MIN_ADAPTIVE_DIFF_DELAY.
Proof.
  assert (spaced None (spaced_bursts 156)) as Hsp by (vm_compute; repeat split).
  assert (profile_ok 0 raised_profile) as Hok.
  { constructor; cbn; unfold_windows; try done; lia. }
  assert (156 ≤ length (spaced_bursts 156))%nat as Hlen by (apply Nat.leb_le; reflexivity).
  split; [exact Hsp|].
  exact (proj1 (quiet_windows_recover 0 raised_profile (spaced_bursts 156) Hok eq_refl Hsp Hlen)).
Defined.

Lemma reachable_windows_are_bounded_witness :
  let c := {| view_id := 1; screen := PrimaryScreen |} in
  profiles_reachable (125, note_pty_update c 125 None false true (note_pty_update c 100 None false true ∅)) ∧
  ∃ p, note_pty_update c 125 None false true (note_pty_update c 100 None false true ∅) !! c = Some p ∧
       maximum_gap_ms p = 25 ∧ in_window (delay_ms p).
Proof.
  intros c.
  assert (profiles_reachable (125, note_pty_update c 125 None false true (note_pty_update c 100 None false true ∅)))
    as Hr.
  { exists 0. eapply rtc_l; [by apply (step_output 0 100)|]. eapply rtc_l; [by apply (step_output 100 125)|].
    apply rtc_refl. }
  split; [done|]. eexists. split; [reflexivity|]. split; [reflexivity|].
  by eapply (reachable_windows_are_bounded _ _ c); [exact Hr|reflexivity].
Defined.
