(* ===== verification/OutputBatch.v ===== *)
(** What the application gathers of one read of its pseudo-terminals before it
    acts on it (src/src/app.rs, src/src/app/pty.rs): adjacent output of one pane
    is joined ([TmuxGatewayOutputCoalescer]), and the updates of the screen are
    merged per surface until the batch is presented
    ([PendingPresentationBatch]).

    The coalescer works on the events of the gateway router.  The batch never
    looks inside an [UpdateSummary]: its type and [UpdateSummary::merge] are
    variables of the section. *)

From S2P Require Import Prelude TmuxControl TmuxGateway.
Local Open Scope N_scope.

Definition TMUX_PANE_OUTPUT_COALESCE_LIMIT_BYTES : N := 64 * 1024.

(** * The coalescer *)

Definition ordinary_tmux_output_metadata (e : GatewayEvent) : option ((N * N) * N) :=
  match e with
  | Control connection (Output pane payload) => Some ((connection, pane), len payload)
  | _ => None
  end.

(** [None] is the [unreachable!] of the code. *)
Definition append_ordinary_tmux_output (pending incoming : GatewayEvent) : option GatewayEvent :=
  match pending, incoming with
  | Control connection (Output pane pending_bytes), Control _ (Output _ incoming_bytes) =>
      Some (Control connection (Output pane (pending_bytes ++ incoming_bytes)))
  | _, _ => None
  end.

(** [route_gateway_event]: the event that stays pending, and the two that are
    ready; [None] is a panic. *)
Definition route_gateway_event (pending : option GatewayEvent) (event : GatewayEvent)
    : option (option GatewayEvent * (option GatewayEvent * option GatewayEvent)) :=
  match ordinary_tmux_output_metadata event with
  | Some (key, incoming_len) =>
      if TMUX_PANE_OUTPUT_COALESCE_LIMIT_BYTES <? incoming_len then
        Some (match pending with
              | Some _ => (None, (pending, Some event))
              | None => (None, (Some event, None))
              end)
      else
      match pending with
      | Some p =>
          '(pending_key, pending_len) ← ordinary_tmux_output_metadata p;
          if bool_decide (pending_key = key) &&
             (sat_add usize_max pending_len incoming_len <=? TMUX_PANE_OUTPUT_COALESCE_LIMIT_BYTES)
          then joined ← append_ordinary_tmux_output p event; Some (Some joined, (None, None))
          else Some (Some event, (pending, None))
      | None => Some (Some event, (None, None))
      end
  | None =>
      Some (match pending with
            | Some _ => (None, (pending, Some event))
            | None => (None, (Some event, None))
            end)
  end.

(** [handle_tmux_gateway_events]: the events in the order the handler gets
    them, with the pending tail flushed at the end. *)
Fixpoint coalesce (pending : option GatewayEvent) (events : list GatewayEvent) : option (list GatewayEvent) :=
  match events with
  | [] => Some (option_list pending)
  | event :: events =>
      '(pending, (first, second)) ← route_gateway_event pending event;
      rest ← coalesce pending events;
      Some (option_list first ++ option_list second ++ rest)
  end.

(** [handle_tmux_gateway_events] with a handler that may fail: the first error
    ends it. *)
Fixpoint handle_all {S E} (handle : S → GatewayEvent → result E S) (s : S) (events : list GatewayEvent)
    : result E S :=
  match events with
  | [] => Ok s
  | event :: events => s ← handle s event; handle_all handle s events
  end.

Definition handle_tmux_gateway_events {S E} (handle : S → GatewayEvent → result E S) (s : S)
    (events : list GatewayEvent) : option (result E S) :=
  delivered ← coalesce None events; Some (handle_all handle s delivered).

(** ** What is delivered *)

(** The bytes and other events, in order. *)
Inductive Atom :=
| PaneByte (connection pane : N) (b : byte)
| OtherEvent (e : GatewayEvent).

Definition atoms_of (e : GatewayEvent) : list Atom :=
  match e with
  | Control connection (Output pane payload) => PaneByte connection pane <$> payload
  | _ => [OtherEvent e]
  end.
Definition atoms (events : list GatewayEvent) : list Atom := mjoin (atoms_of <$> events).

Definition joinable (e1 e2 : GatewayEvent) : bool :=
  match ordinary_tmux_output_metadata e1, ordinary_tmux_output_metadata e2 with
  | Some (k1, l1), Some (k2, l2) =>
      bool_decide (k1 = k2) && (l1 + l2 <=? TMUX_PANE_OUTPUT_COALESCE_LIMIT_BYTES)
  | _, _ => false
  end.

Fixpoint no_joinable (events : list GatewayEvent) : Prop :=
  match events with
  | e1 :: (e2 :: _) as rest => joinable e1 e2 = false ∧ no_joinable rest
  | _ => True
  end.

Definition pending_ok (pending : option GatewayEvent) : Prop :=
  match pending with
  | Some e => ∃ c p l, e = Control c (Output p l) ∧ len l ≤ TMUX_PANE_OUTPUT_COALESCE_LIMIT_BYTES
  | None => True
  end.

Lemma atoms_app l1 l2 : atoms (l1 ++ l2) = atoms l1 ++ atoms l2.
Proof. unfold atoms. by rewrite fmap_app, join_app. Qed.

Lemma atoms_cons e l : atoms (e :: l) = atoms_of e ++ atoms l.
Proof. done. Qed.

Lemma metadata_inv e k l : ordinary_tmux_output_metadata e = Some (k, l) →
  ∃ payload, e = Control k.1 (Output k.2 payload) ∧ l = len payload.
Proof. destruct e as [| |c []| |]; try done. intros [= <- <-]. by eexists. Qed.

(** An event that is joined to nothing. *)
Definition solid (e : GatewayEvent) : Prop := ∀ x, joinable x e = false ∧ joinable e x = false.

(** What [route_gateway_event] does, as a relation: the pending event before,
    the event, the pending event after, and what is ready. *)
Inductive route : option GatewayEvent → GatewayEvent → option GatewayEvent → list GatewayEvent → Prop :=
| route_solid pending e : solid e → route pending e None (option_list pending ++ [e])
| route_joined c p l l' :
    len l + len l' ≤ TMUX_PANE_OUTPUT_COALESCE_LIMIT_BYTES →
    route (Some (Control c (Output p l))) (Control c (Output p l')) (Some (Control c (Output p (l ++ l')))) []
| route_kept prev e : pending_ok (Some e) → joinable prev e = false → route (Some prev) e (Some e) [prev]
| route_first e : pending_ok (Some e) → route None e (Some e) [].

Lemma solid_other e : ordinary_tmux_output_metadata e = None → solid e.
Proof.
  intros He x. unfold joinable. rewrite He. by destruct (ordinary_tmux_output_metadata x) as [[]|].
Qed.

Lemma solid_oversized e k l :
  ordinary_tmux_output_metadata e = Some (k, l) → TMUX_PANE_OUTPUT_COALESCE_LIMIT_BYTES < l → solid e.
Proof.
  intros He Hl x. unfold joinable. rewrite He. destruct (ordinary_tmux_output_metadata x) as [[k' l']|]; [|done].
  split; apply andb_false_iff; right; apply N.leb_gt; lia.
Qed.

Lemma route_spec pending e :
  pending_ok pending →
  ∃ pending' first second, route_gateway_event pending e = Some (pending', (first, second)) ∧
    route pending e pending' (option_list first ++ option_list second).
Proof.
  intros Hp. unfold route_gateway_event.
  destruct (ordinary_tmux_output_metadata e) as [[k l]|] eqn:He.
  2: { apply solid_other in He. destruct pending as [p|]; eexists _, _, _; (split; [done|]);
         by apply route_solid. }
  destruct (_ <? l) eqn:Hl.
  { apply N.ltb_lt in Hl. pose proof (solid_oversized e k l He Hl).
    destruct pending as [p|]; eexists _, _, _; (split; [done|]); by apply route_solid. }
  apply N.ltb_ge in Hl. apply metadata_inv in He as (payload & -> & ->).
  assert (pending_ok (Some (Control k.1 (Output k.2 payload)))) as Hok by (by eexists _, _, _).
  destruct pending as [p|]; [|eexists _, _, _; split; [done|by apply route_first]].
  destruct Hp as (c & pane & pl & -> & Hpl). cbn [ordinary_tmux_output_metadata mbind option_bind].
  assert (sat_add usize_max (len pl) (len payload) = len pl + len payload) as ->.
  { unfold sat_add, usize_max, u64_max, TMUX_PANE_OUTPUT_COALESCE_LIMIT_BYTES in *. lia. }
  destruct (_ && _) eqn:Hj.
  - apply andb_true_iff in Hj as [Hk%bool_decide_eq_true Hle%N.leb_le]. subst k.
    eexists _, _, _. split; [done|]. by apply route_joined.
  - eexists _, _, _. split; [done|]. apply route_kept; [done|]. unfold joinable. cbn.
    by destruct k.
Qed.

(** [h] begins with the payload of [e]. *)
Definition extends (e h : GatewayEvent) : Prop :=
  h = e ∨ ∃ c p l l', e = Control c (Output p l) ∧ h = Control c (Output p (l ++ l')).

Lemma joinable_extends x e h : joinable x e = false → extends e h → joinable x h = false.
Proof.
  intros Hx [->|(c & p & l & l' & -> & ->)]; [done|]. revert Hx. unfold joinable. cbn.
  destruct (ordinary_tmux_output_metadata x) as [[k n]|]; [|done].
  intros [Hk|Hn]%andb_false_iff; apply andb_false_iff; [by left|right].
  apply N.leb_gt in Hn. apply N.leb_gt. rewrite length_app. lia.
Qed.

Lemma extends_joined c p l l' h :
  extends (Control c (Output p (l ++ l'))) h → extends (Control c (Output p l)) h.
Proof.
  intros [->|(c' & p' & l1 & l2 & [= <- <- <-] & ->)]; right; eexists _, _, _, _; (split; [done|]); [done|].
  by rewrite <-(assoc_L (++)).
Qed.

Lemma no_joinable_cons e out :
  no_joinable out → match out with [] => True | h :: _ => joinable e h = false end → no_joinable (e :: out).
Proof. by destruct out. Qed.

(** The events are delivered, none of two neighbours could have been joined, and
    the first one delivered begins with the first one there was. *)
Lemma coalesce_spec pending events :
  pending_ok pending →
  ∃ out, coalesce pending events = Some out ∧ no_joinable out ∧
    atoms out = atoms (option_list pending ++ events) ∧
    match option_list pending ++ events, out with
    | [], [] => True
    | e :: _, h :: _ => extends e h
    | _, _ => False
    end ∧
    Forall (λ e, pending_ok (Some e) ∨ e ∈ events) out.
Proof.
  revert pending. induction events as [|e events IH]; intros pending Hp.
  { exists (option_list pending). split_and!; [done|by destruct pending|by rewrite app_nil_r| |].
    - destruct pending; [by left|done].
    - destruct pending; [|done]. apply Forall_singleton. by left. }
  destruct (route_spec pending e Hp) as (pending' & first & second & Hroute & Hr).
  cbn [coalesce]. rewrite Hroute. cbn [mbind option_bind].
  assert (pending_ok pending') as Hp'.
  { destruct Hr; try done. eexists _, _, _. split; [done|]. rewrite length_app. lia. }
  destruct (IH pending' Hp') as (rest & Hrest & Hno & Hatoms & Hhead & Hbound).
  rewrite Hrest. cbn [mbind option_bind]. eexists. split; [done|]. rewrite (assoc_L (++)).
  assert (Forall (λ e', pending_ok (Some e') ∨ e' ∈ e :: events) rest) as Hb.
  { eapply Forall_impl; [exact Hbound|]. intros x [|]; [by left|right; by constructor]. }
  destruct Hr as [pending e He|c p l l' Hle|prev e He Hj|e He].
  - cbn [option_list option_rect app] in Hatoms, Hhead.
    assert (no_joinable (e :: rest)) as Hno'.
    { apply no_joinable_cons; [done|]. destruct rest as [|h rest]; [done|]. by apply He. }
    destruct pending as [prev|]; cbn [option_list option_rect app]; split_and!; try done.
    + split; [apply He|done].
    + by rewrite !atoms_cons, Hatoms.
    + by left.
    + constructor; [by left|]. constructor; [right; constructor|done].
    + by rewrite !atoms_cons, Hatoms.
    + by left.
    + constructor; [right; constructor|done].
  - cbn [option_list option_rect app] in *. split_and!; try done.
    + rewrite Hatoms, !atoms_cons. cbn. by rewrite fmap_app, (assoc_L (++)).
    + destruct rest; [done|]. by eapply extends_joined.
  - cbn [option_list option_rect app] in *. split_and!.
    + destruct rest as [|h rest]; [done|]. apply no_joinable_cons; [done|]. by eapply joinable_extends.
    + by rewrite !atoms_cons, Hatoms.
    + by left.
    + constructor; [by left|done].
  - cbn [option_list option_rect app] in *. split_and!; try done.
Qed.

(** C18. Joining output loses, reorders and delays nothing: whatever events one
    read produced, the handler gets exactly the same bytes for every pane and
    the same other events in the same order before the read is over; no output
    that was joined exceeds 64 KiB, and no two neighbours that could have been
    joined remain. *)
Theorem coalescing_preserves_output events :
  ∃ delivered, coalesce None events = Some delivered ∧ atoms delivered = atoms events ∧
    no_joinable delivered ∧
    Forall (λ e, (∃ connection pane payload, e = Control connection (Output pane payload) ∧
                    len payload ≤ TMUX_PANE_OUTPUT_COALESCE_LIMIT_BYTES) ∨ e ∈ events) delivered.
Proof.
  destruct (coalesce_spec None events I) as (out & Hout & Hno & Hatoms & _ & Hb).
  exists out. by split_and!.
Qed.

(** * The presentation batch *)

Section batch.
Context {Update : Type} (merge : Update → Update → Update).

Record PendingPanePresentation := { pane_connection : N; pane : N; update : Update }.

Record PendingPresentationBatch := {
  root_update : option Update;
  first_pane_update : option PendingPanePresentation;
  additional_pane_updates : list PendingPanePresentation;
  bell_count : N;
  authoritative_scene_required : bool
}.

Definition default_batch : PendingPresentationBatch := {|
  root_update := None; first_pane_update := None; additional_pane_updates := [];
  bell_count := 0; authoritative_scene_required := false
|}.

Definition has_scene_work (b : PendingPresentationBatch) : bool :=
  authoritative_scene_required b || bool_decide (is_Some (root_update b)) ||
  bool_decide (is_Some (first_pane_update b)) || negb (bool_decide (additional_pane_updates b = [])) ||
  negb (bell_count b =? 0).

Definition add_bells (bells : N) (b : PendingPresentationBatch) : PendingPresentationBatch :=
  b <| bell_count := sat_add usize_max (bell_count b) bells |>.

Definition push_root (u : Update) (bells : N) (b : PendingPresentationBatch) : PendingPresentationBatch :=
  let b := add_bells bells b in
  if authoritative_scene_required b then b else
  match root_update b with
  | Some pending => b <| root_update := Some (merge pending u) |>
  | None => b <| root_update := Some u |>
  end.

Definition is_pane (connection p : N) (pending : PendingPanePresentation) : bool :=
  (pane_connection pending =? connection) && (pane pending =? p).

Definition merge_pane (u : Update) (pending : PendingPanePresentation) : PendingPanePresentation :=
  pending <| update := merge (update pending) u |>.

(** [iter_mut().find(..)] and a merge there, or a push at the end. *)
Fixpoint merge_or_push (connection p : N) (u : Update) (l : list PendingPanePresentation)
    : list PendingPanePresentation :=
  match l with
  | [] => [{| pane_connection := connection; pane := p; update := u |}]
  | pending :: l =>
      if is_pane connection p pending then merge_pane u pending :: l
      else pending :: merge_or_push connection p u l
  end.

Definition push_pane (connection p : N) (u : Update) (bells : N) (b : PendingPresentationBatch)
    : PendingPresentationBatch :=
  let b := add_bells bells b in
  if authoritative_scene_required b then b else
  match first_pane_update b with
  | None => b <| first_pane_update := Some {| pane_connection := connection; pane := p; update := u |} |>
  | Some pending =>
      if is_pane connection p pending then b <| first_pane_update := Some (merge_pane u pending) |>
      else b <| additional_pane_updates := merge_or_push connection p u (additional_pane_updates b) |>
  end.

Definition require_authoritative_scene (bells : N) (b : PendingPresentationBatch) : PendingPresentationBatch :=
  (add_bells bells b) <| authoritative_scene_required := true |> <| root_update := None |>
    <| first_pane_update := None |> <| additional_pane_updates := [] |>.

Definition pane_updates (b : PendingPresentationBatch) : list PendingPanePresentation :=
  option_list (first_pane_update b) ++ additional_pane_updates b.

(** What is pushed between the beginning of a batch and its presentation. *)
Inductive BatchOp :=
| PushRoot (u : Update) (bells : N)
| PushPane (connection p : N) (u : Update) (bells : N)
| RequireScene (bells : N).

Definition batch_op (o : BatchOp) (b : PendingPresentationBatch) : PendingPresentationBatch :=
  match o with
  | PushRoot u bells => push_root u bells b
  | PushPane connection p u bells => push_pane connection p u bells b
  | RequireScene bells => require_authoritative_scene bells b
  end.

Definition run_batch (os : list BatchOp) : PendingPresentationBatch :=
  fold_left (λ b o, batch_op o b) os default_batch.

(** ** Reference: one fold of the updates per surface *)

Definition surface_of (o : BatchOp) : option (option (N * N)) :=
  match o with
  | PushRoot _ _ => Some None
  | PushPane connection p _ _ => Some (Some (connection, p))
  | RequireScene _ => None
  end.
Definition update_of (o : BatchOp) : option Update :=
  match o with PushRoot u _ => Some u | PushPane _ _ u _ => Some u | RequireScene _ => None end.
Definition bells_of (o : BatchOp) : N :=
  match o with PushRoot _ b => b | PushPane _ _ _ b => b | RequireScene b => b end.
Definition is_require (o : BatchOp) : bool := match o with RequireScene _ => true | _ => false end.

Definition merged (s : option (N * N)) (os : list BatchOp) : option Update :=
  fold_left (λ acc o,
    if bool_decide (surface_of o = Some s) then
      match acc, update_of o with
      | Some a, Some u => Some (merge a u)
      | None, u => u
      | a, None => a
      end
    else acc) os None.

(** The panes in the order of their first update. *)
Definition panes_in_order (os : list BatchOp) : list (N * N) :=
  fold_left (λ acc o,
    match surface_of o with
    | Some (Some k) => if bool_decide (k ∈ acc) then acc else acc ++ [k]
    | _ => acc
    end) os [].

Definition total_bells (os : list BatchOp) : N := fold_left (λ n o, sat_add usize_max n (bells_of o)) os 0.

Definition pane_key (p : PendingPanePresentation) : N * N := (pane_connection p, pane p).

Fixpoint update_for (k : N * N) (l : list PendingPanePresentation) : option Update :=
  match l with
  | [] => None
  | p :: l => if bool_decide (pane_key p = k) then Some (update p) else update_for k l
  end.

Lemma is_pane_key c p x : is_pane c p x = bool_decide (pane_key x = (c, p)).
Proof.
  unfold is_pane, pane_key. case_bool_decide as Hk.
  - injection Hk as -> ->. by rewrite !N.eqb_refl.
  - apply andb_false_iff. destruct (pane_connection x =? c) eqn:H1; [|by left].
    right. apply N.eqb_neq. intros H2. apply Hk. apply N.eqb_eq in H1. by subst.
Qed.

Lemma merge_or_push_keys c p u l :
  pane_key <$> merge_or_push c p u l =
    if bool_decide ((c, p) ∈ pane_key <$> l) then pane_key <$> l else (pane_key <$> l) ++ [(c, p)].
Proof.
  induction l as [|x l IH]; [done|]. cbn [merge_or_push fmap list_fmap]. rewrite is_pane_key.
  destruct (decide (pane_key x = (c, p))) as [Hx|Hx].
  - rewrite !bool_decide_eq_true_2 by (try rewrite Hx; try constructor; done). cbn. by destruct x.
  - rewrite (bool_decide_eq_false_2 (pane_key x = _)) by done. cbn [fmap list_fmap]. rewrite IH. clear IH. destruct (decide ((c, p) ∈ pane_key <$> l)) as [Hin|Hin].
    + by rewrite !bool_decide_eq_true_2 by (try constructor; done).
    + rewrite !bool_decide_eq_false_2; [done|by intros [|]%elem_of_cons|done].
Qed.

Lemma merge_or_push_update c p u l k :
  update_for k (merge_or_push c p u l) =
    if bool_decide (k = (c, p)) then Some (default u ((λ a, merge a u) <$> update_for k l)) else update_for k l.
Proof.
  induction l as [|x l IH]; cbn [merge_or_push update_for].
  - cbn. by repeat case_bool_decide.
  - rewrite is_pane_key. destruct (decide (pane_key x = (c, p))) as [Hx|Hx].
    + rewrite (bool_decide_eq_true_2 (pane_key x = (c, p))) by done. cbn [update_for].
      replace (pane_key (merge_pane u x)) with (pane_key x) by (by destruct x). rewrite Hx.
      destruct (decide (k = (c, p))) as [->|Hk].
      * rewrite !bool_decide_eq_true_2 by done. by destruct x.
      * by rewrite !bool_decide_eq_false_2 by congruence.
    + rewrite (bool_decide_eq_false_2 (pane_key x = (c, p))) by done. cbn [update_for].
      destruct (decide (pane_key x = k)) as [<-|Hk].
      * rewrite !bool_decide_eq_true_2 by done. by rewrite bool_decide_eq_false_2.
      * by rewrite !(bool_decide_eq_false_2 (pane_key x = k)) by done.
Qed.

(** Nothing is pending after a pane as long as there is no first one. *)
Definition batch_ok (b : PendingPresentationBatch) : Prop :=
  first_pane_update b = None → additional_pane_updates b = [].

Lemma push_pane_updates c p u bells b :
  batch_ok b → authoritative_scene_required b = false →
  batch_ok (push_pane c p u bells b) ∧
  pane_updates (push_pane c p u bells b) = merge_or_push c p u (pane_updates b).
Proof.
  destruct b as [r [f|] l n a]; cbn; intros Hok ->; unfold push_pane, pane_updates; cbn.
  - destruct (is_pane c p f) eqn:Hf; cbn; split; try done; by rewrite Hf.
  - unfold batch_ok in Hok. cbn in Hok. by rewrite Hok.
Qed.

(** The state of a batch after [os], in terms of the reference. *)
Record batch_refines (os : list BatchOp) (b : PendingPresentationBatch) : Prop := {
  br_ok : batch_ok b;
  br_bells : bell_count b = total_bells os;
  br_required : authoritative_scene_required b = existsb is_require os;
  br_surfaces :
    if existsb is_require os then root_update b = None ∧ pane_updates b = []
    else root_update b = merged None os ∧ pane_key <$> pane_updates b = panes_in_order os ∧
         ∀ k, update_for k (pane_updates b) = merged (Some k) os
}.

Lemma merged_snoc s os o :
  merged s (os ++ [o]) =
    if bool_decide (surface_of o = Some s) then
      match merged s os, update_of o with
      | Some a, Some u => Some (merge a u)
      | None, u => u
      | a, None => a
      end
    else merged s os.
Proof. unfold merged. rewrite fold_left_app. cbn [fold_left]. by destruct (fold_left _ os None). Qed.

Lemma panes_snoc os o :
  panes_in_order (os ++ [o]) =
    match surface_of o with
    | Some (Some k) => if bool_decide (k ∈ panes_in_order os) then panes_in_order os else panes_in_order os ++ [k]
    | _ => panes_in_order os
    end.
Proof. unfold panes_in_order. by rewrite fold_left_app. Qed.

Lemma batch_op_refines os b o : batch_refines os b → batch_refines (os ++ [o]) (batch_op o b).
Proof.
  intros [Hok Hbells Hreq Hs].
  assert (bell_count (batch_op o b) = sat_add usize_max (bell_count b) (bells_of o)) as Hb.
  { destruct o; cbn; unfold push_root, push_pane; repeat case_match; by destruct b. }
  assert (total_bells (os ++ [o]) = sat_add usize_max (total_bells os) (bells_of o)) as Ht
    by (unfold total_bells; by rewrite fold_left_app).
  rewrite Hbells, <-Ht in Hb. clear Ht Hbells.
  assert (existsb is_require (os ++ [o]) = existsb is_require os || is_require o) as He
    by (rewrite existsb_app; cbn; by rewrite orb_false_r).
  destruct (existsb is_require os) eqn:Hex.
  - destruct Hs as [Hr Hp]. destruct b as [r f l n a]. cbn in Hreq, Hr. subst a r.
    constructor; [by destruct o|done|by rewrite He; destruct o|by rewrite He; destruct o].
  - destruct Hs as (Hr & Hk & Hu). destruct o as [u bells|c p u bells|bells].
    + destruct b as [r f l n a]. cbn in Hreq, Hr. subst a.
      constructor; [by destruct r|done|rewrite He; by destruct r|].
      rewrite He. cbn [is_require orb]. rewrite merged_snoc, panes_snoc. cbn [surface_of update_of].
      rewrite bool_decide_eq_true_2 by done. split_and!.
      * rewrite <-Hr. by destruct r.
      * rewrite <-Hk. by destruct r.
      * intros k. rewrite merged_snoc. cbn. rewrite <-Hu. by destruct r.
    + destruct (push_pane_updates c p u bells b) as [Hok' Hp]; [done|done|].
      constructor; [done|done| |].
      * rewrite He. cbn. unfold push_pane.
        repeat case_match; by destruct b.
      * rewrite He. cbn [is_require orb batch_op]. rewrite Hp, merge_or_push_keys, Hk, panes_snoc, merged_snoc.
        cbn [surface_of]. split_and!; [|done|].
        -- rewrite <-Hr. unfold push_pane. repeat case_match; by destruct b.
        -- intros k. rewrite merge_or_push_update, Hu, merged_snoc. cbn [surface_of update_of].
           repeat case_bool_decide; simplify_eq; try done. destruct (merged (Some (c, p)) os); reflexivity.
    + constructor; [done|done|by rewrite He|by rewrite He].
Qed.

(** C19. Between the beginning of a batch and its presentation, the updates of
    every surface are merged in the order they came, the panes are kept in the
    order of their first update, and the bells are counted; once a complete
    scene is required the updates are dropped, also the ones that follow, but
    the bells are not. *)
Theorem batches_merge_per_surface os :
  let b := run_batch os in
  bell_count b = total_bells os ∧
  authoritative_scene_required b = existsb is_require os ∧
  if existsb is_require os then root_update b = None ∧ pane_updates b = []
  else root_update b = merged None os ∧ pane_key <$> pane_updates b = panes_in_order os ∧
       ∀ k, update_for k (pane_updates b) = merged (Some k) os.
Proof.
  assert (batch_refines os (run_batch os)) as [_ ? ? ?]; [|done].
  induction os as [|o os IH] using rev_ind; [by constructor|].
  unfold run_batch. rewrite fold_left_app. by apply batch_op_refines.
Qed.
End batch.
