(* ===== verification/TmuxPrefix.v ===== *)
(** Key names and binding commands of tmux (src/src/tmux_prefix.rs): the name
    tmux gives to a key, the bytes of a named key, and which binding commands
    are executed as they are and which are replaced by an action of Lector.

    Strings are their UTF-8 bytes.  [normalize_case] of the crate [terminput]
    is a parameter of [tmux_key_name]. *)

From S2P Require Import Prelude TerminalInput TmuxModel.
Local Open Scope N_scope.

(** * String operations *)

Definition nonempty (s : bytes) : bool := negb (bool_decide (s = [])).

(** [str::split_ascii_whitespace]. *)
Definition split_ascii_whitespace (s : bytes) : list bytes :=
  List.filter nonempty (split_on is_ascii_whitespace s).

Fixpoint trim_start_matches (f : byte → bool) (s : bytes) : bytes :=
  match s with
  | b :: rest => if f b then trim_start_matches f rest else s
  | [] => []
  end.
(** [str::trim_matches] with a predicate that only ASCII characters satisfy. *)
Definition trim_matches (f : byte → bool) (s : bytes) : bytes :=
  reverse (trim_start_matches f (reverse (trim_start_matches f s))).

(** [str::split] at every occurrence of the two bytes [a b], from the left. *)
Fixpoint split_pair (a b : byte) (s : bytes) : list bytes :=
  match s with
  | x :: rest =>
      match rest with
      | y :: rest' =>
          if (x =? a) && (y =? b) then [] :: split_pair a b rest'
          else match split_pair a b rest with
               | hd :: tl => (x :: hd) :: tl
               | [] => [[x]]
               end
      | [] => [[x]]
      end
  | [] => [[]]
  end.

Definition is_quote (b : byte) : bool := (b =? 39) || (b =? 34).
(** The bytes that may not occur in a command: NUL, CR and LF. *)
Definition is_unsafe (b : byte) : bool := (b =? 0) || (b =? CR) || (b =? LF).
Definition contains_byte (b : byte) (s : bytes) : bool := existsb (N.eqb b) s.

(** * Binding commands *)

Inductive BindingAction :=
| Execute (command : bytes)
| OpenReview (page_up : bool)
| Detach
| Confirm (prompt command : bytes)
| SendPrefix
| ChooseSession
| ChooseWindow
| ChoosePane
| CommandPrompt
| SetKeyTable (command table : bytes) (persistent : bool).

Inductive PrefixError := UnsafeCommand.

Definition valid_key_table (table : bytes) : option bytes :=
  if nonempty table && (len table <=? 128) &&
     negb (existsb (λ b, is_ascii_control b || (b =? 92) || (b =? 59) || (b =? 39) || (b =? 34)) table)
  then Some table else None.

(** The table a word of [switch-client] names, given the words after it. *)
Definition switch_client_table (word : bytes) (rest : list bytes) : option bytes :=
  if bool_decide (word = bs "-T") then head rest
  else table ← strip_prefix (bs "-T") word; if nonempty table then Some table else None.

Definition key_table_option (word : bytes) (rest : list bytes) : option bytes :=
  if bool_decide (word = bs "key-table") then head rest else None.

(** The loops over [words.iter().enumerate().skip(1)]: the last valid table wins. *)
Fixpoint scan_words (f : bytes → list bytes → option bytes) (persistent : bool) (words : list bytes)
    (transition : option (bytes * bool)) : option (bytes * bool) :=
  match words with
  | [] => transition
  | word :: rest =>
      scan_words f persistent rest
        (match f word rest ≫= valid_key_table with
         | Some table => Some (table, persistent)
         | None => transition
         end)
  end.

Definition scan_segment (transition : option (bytes * bool)) (segment : bytes) : option (bytes * bool) :=
  match List.filter nonempty (trim_matches is_quote <$> split_ascii_whitespace segment) with
  | [] => transition
  | program :: words =>
      if bool_decide (program = bs "switch-client") then scan_words switch_client_table false words transition
      else if bool_decide (program = bs "set") || bool_decide (program = bs "set-option")
      then scan_words key_table_option true words transition
      else transition
  end.

Definition configured_key_table (command : bytes) : option (bytes * bool) :=
  foldl scan_segment None (mjoin (split_on is_semicolon <$> split_pair 92 59 command)).

Definition confirm_candidate (command : bytes) : option bytes :=
  List.find (λ candidate, ends_with candidate command) [bs "kill-pane"; bs "kill-window"].

Definition choose_tree_argument (letter : byte) (command : bytes) : bool :=
  existsb (contains_byte letter) (tail (split_ascii_whitespace command)).

Definition classify_binding (command : bytes) : result PrefixError BindingAction :=
  let command := trim command in
  if bool_decide (command = []) || existsb is_unsafe command then Err UnsafeCommand else
  if bool_decide (command = bs "send-prefix") then Ok SendPrefix else
  if bool_decide (command = bs "detach-client") then Ok Detach else
  if bool_decide (command = bs "copy-mode") then Ok (OpenReview false) else
  if bool_decide (command = bs "copy-mode -u") then Ok (OpenReview true) else
  if starts_with (bs "choose-tree ") command && choose_tree_argument 115 command then Ok ChooseSession else
  if starts_with (bs "choose-tree ") command && choose_tree_argument 119 command then Ok ChooseWindow else
  if bool_decide (command = bs "command-prompt") || starts_with (bs "command-prompt ") command
  then Ok CommandPrompt else
  if bool_decide (command = bs "display-panes") || starts_with (bs "display-panes ") command
  then Ok ChoosePane else
  match (if starts_with (bs "confirm-before ") command then confirm_candidate command else None) with
  | Some candidate => Ok (Confirm command candidate)
  | None =>
      match configured_key_table command with
      | Some (table, persistent) => Ok (SetKeyTable command table persistent)
      | None => Ok (Execute command)
      end
  end.

Definition is_shell_mark (b : byte) : bool := is_quote b || (b =? 92) || (b =? 59).

Definition command_may_change_key_configuration (command : bytes) : bool :=
  existsb (λ word, bool_decide (trim_matches is_shell_mark word ∈
      [bs "source-file"; bs "bind"; bs "bind-key"; bs "unbind"; bs "unbind-key"; bs "set"; bs "set-option"]))
    (split_ascii_whitespace command).

(** * Windows by index *)

Inductive SelectWindowScope :=
| NotApplicable
| Resolved (command : bytes)
| Missing (index : N).

Definition scope_select_window_command (t : TmuxTopology) (command : bytes) : SelectWindowScope :=
  match split_ascii_whitespace command with
  | [program; flag; raw_target] =>
      if negb (bool_decide (program = bs "select-window") && bool_decide (flag = bs "-t")) then NotApplicable else
      let target := trim_matches is_quote raw_target in
      match parse_uint u32_max (default target (strip_prefix (bs ":=") target)) with
      | None => NotApplicable
      | Some index =>
          match (attached ← attached_session t; sessions t !! attached) with
          | None => NotApplicable
          | Some session =>
              match session_windows session !! index with
              | Some window => Resolved (bs "select-window -t @" ++ to_dec window)
              | None => Missing index
              end
          end
      end
  | _ => NotApplicable
  end.

(** * Keys *)

Section key_names.
Context (normalize_case : KeyEvent → KeyEvent).

Definition tmux_key_name (e : KeyEvent) : option bytes :=
  let e := normalize_case e in
  let m := modifiers e in
  let is_char := match code e with Char _ => true | _ => false end in
  let name :=
    (if ctrl m then bs "C-" else []) ++
    (if alt m || meta m then bs "M-" else []) ++
    (if super m then bs "Super-" else []) ++
    (if hyper m then bs "Hyper-" else []) ++
    (if negb is_char && shift m then bs "S-" else []) in
  key ← match code e with
        | Char 32 => Some (bs "Space")
        | Char c => Some (utf8_encode c)
        | Backspace => Some (bs "BSpace")
        | Delete => Some (bs "DC")
        | Esc => Some (bs "Escape")
        | Enter => Some (bs "Enter")
        | Tab => Some (bs "Tab")
        | Up => Some (bs "Up")
        | Down => Some (bs "Down")
        | Left => Some (bs "Left")
        | Right => Some (bs "Right")
        | Home => Some (bs "Home")
        | End_ => Some (bs "End")
        | PageUp => Some (bs "PPage")
        | PageDown => Some (bs "NPage")
        | Insert => Some (bs "IC")
        | F number => Some (bs "F" ++ to_dec number)
        | KeypadBegin | OtherKey _ => None
        end;
  Some (name ++ key).
End key_names.

(** The only character of a string. *)
Definition single_char (s : bytes) : option N := match str_chars s with [c] => Some c | _ => None end.

Definition control_byte (character : N) : option byte :=
  let c := to_ascii_lowercase character in
  if (c =? 64) || (c =? 32) || (c =? 50) then Some 0
  else if in_range 97 122 c then Some (c - 97 + 1)
  else if (c =? 91) || (c =? 51) then Some 27
  else if (c =? 92) || (c =? 52) then Some 28
  else if (c =? 93) || (c =? 53) then Some 29
  else if (c =? 94) || (c =? 54) then Some 30
  else if (c =? 95) || (c =? 55) || (c =? 47) then Some 31
  else if (c =? 63) || (c =? 56) then Some 127
  else None.

(** A name without the prefix [M-]. *)
Definition plain_key_bytes (name : bytes) : option bytes :=
  match strip_prefix (bs "C-") name with
  | Some rest =>
      character ← if bool_decide (rest = bs "Space") then Some 32 else single_char rest;
      byte ← control_byte character;
      Some [byte]
  | None =>
      if bool_decide (name = bs "Space") then Some [SP] else
      character ← single_char name;
      Some (utf8_encode character)
  end.

Fixpoint tmux_key_bytes (name : bytes) : option bytes :=
  match name with
  | a :: (b :: rest) =>
      if (a =? 77) && (b =? 45) then keys ← tmux_key_bytes rest; Some (ESC :: keys)
      else plain_key_bytes name
  | _ => plain_key_bytes name
  end.

Example key_bytes_examples :
  (tmux_key_bytes (bs "C-b"), tmux_key_bytes (bs "M-C-a"), tmux_key_bytes (bs "C-M-a"), tmux_key_bytes (bs "Enter"),
   tmux_key_bytes (bs "M-Space")) = (Some [2], Some [27; 1], None, None, Some [27; 32]).
Proof. vm_compute. reflexivity. Qed.
Example classify_examples :
  (classify_binding (bs " kill-pane "), classify_binding (bs "confirm-before -p x kill-window"),
   classify_binding (bs "set -g key-table 'off' \; switch-client -Tcopy"), classify_binding (bs "choose-tree -Zw"))
  = (Ok (Execute (bs "kill-pane")), Ok (Confirm (bs "confirm-before -p x kill-window") (bs "kill-window")),
     Ok (SetKeyTable (bs "set -g key-table 'off' \; switch-client -Tcopy") (bs "copy") false), Ok ChooseWindow).
Proof. vm_compute. reflexivity. Qed.

(** * Lemmas *)

Lemma utf8_encode_first c :
  utf8_encode c = [c] ∨ ∃ b rest, utf8_encode c = b :: rest ∧ 192 ≤ b.
Proof.
  unfold utf8_encode. destruct (c <? 128); [by left|right].
  destruct (c <? 2048); [eexists _, _; split; [done|lia]|].
  destruct (c <? 65536); eexists _, _; (split; [done|lia]).
Qed.

Lemma single_char_encode c : char_from_u32 c = Some c → single_char (utf8_encode c) = Some c.
Proof.
  intros Hc. unfold single_char, str_chars.
  rewrite <-(app_nil_r (utf8_encode c)), utf8_decode_encode by done. done.
Qed.

(** A single character is none of the names of several. *)
Lemma encode_not_prefixed c a b rest :
  a < 128 → strip_prefix (a :: b :: rest) (utf8_encode c) = None ∧ utf8_encode c ≠ a :: b :: rest.
Proof.
  intros Ha. destruct (utf8_encode_first c) as [->|(x & l & -> & Hx)]; cbn.
  - split; [|done]. by destruct (a =? c).
  - split; [|intros [= -> _]; lia]. by replace (a =? x) with false by lia.
Qed.

Lemma tmux_key_bytes_char c :
  tmux_key_bytes (utf8_encode c) = plain_key_bytes (utf8_encode c).
Proof.
  destruct (utf8_encode_first c) as [->|(x & l & -> & Hx)]; [done|].
  destruct l as [|y l]; [done|]. cbn. by replace (x =? 77) with false by lia.
Qed.

Lemma plain_char c : char_from_u32 c = Some c → plain_key_bytes (utf8_encode c) = Some (utf8_encode c).
Proof.
  intros Hc. unfold plain_key_bytes.
  assert (strip_prefix (bs "C-") (utf8_encode c) = None) as -> by (apply (encode_not_prefixed c 67); lia).
  rewrite bool_decide_eq_false_2 by (apply (encode_not_prefixed c 83); lia).
  by rewrite single_char_encode.
Qed.

Lemma plain_control c :
  char_from_u32 c = Some c →
  plain_key_bytes (bs "C-" ++ (if c =? 32 then bs "Space" else utf8_encode c)) =
    (λ b, [b]) <$> legacy_control_code c.
Proof.
  intros Hc. unfold plain_key_bytes. rewrite strip_prefix_app.
  change (legacy_control_code c) with (control_byte c).
  destruct (N.eqb_spec c 32) as [->|Hne]; [reflexivity|].
  rewrite bool_decide_eq_false_2 by (apply (encode_not_prefixed c 83); lia).
  rewrite single_char_encode by done. cbn [mbind option_bind]. by destruct (control_byte c).
Qed.

Lemma name_of_char nc e c :
  code (nc e) = Char c → super (modifiers (nc e)) = false → hyper (modifiers (nc e)) = false →
  tmux_key_name nc e = Some ((if ctrl (modifiers (nc e)) then bs "C-" else []) ++
    (if alt (modifiers (nc e)) || meta (modifiers (nc e)) then bs "M-" else []) ++
    (if c =? 32 then bs "Space" else utf8_encode c)).
Proof.
  intros Hc Hs Hh. unfold tmux_key_name. rewrite Hc, Hs, Hh.
  assert (match c with 32 => Some (bs "Space") | c => Some (utf8_encode c) end =
          Some (if c =? 32 then bs "Space" else utf8_encode c)) as Hm.
  { destruct (N.eqb_spec c 32) as [->|Hne]; [done|]. by repeat case_match. }
  rewrite Hm. cbn [mbind option_bind negb andb app]. by rewrite <-!(assoc_L (++)), !app_nil_l.
Qed.

(** * Properties *)

(** The name Lector gives to a character key is read back as the bytes that
    key sends: the control code of the terminal input encoding with Control, the
    character's UTF-8 encoding without, and an escape before either with Alt or
    Meta.  (Control together with Alt is named [C-M-x], which is not read
    back.) *)
Theorem key_names_are_read_back nc e c :
  let m := modifiers (nc e) in
  code (nc e) = Char c → char_from_u32 c = Some c →
  super m = false → hyper m = false → ctrl m && (alt m || meta m) = false →
  ∃ name, tmux_key_name nc e = Some name ∧
    tmux_key_bytes name =
      (keys ← if ctrl m then (λ b, [b]) <$> legacy_control_code c else Some (utf8_encode c);
       Some (if alt m || meta m then ESC :: keys else keys)).
Proof.
  intros m Hc Hv Hs Hh Hx. eexists. split; [by apply name_of_char|]. fold m. rename c into ch.
  destruct (ctrl m); cbn [andb] in Hx.
  - rewrite Hx, app_nil_l.
    replace (tmux_key_bytes _) with (plain_key_bytes (bs "C-" ++ (if ch =? 32 then bs "Space" else utf8_encode ch)))
      by done.
    rewrite plain_control by done. by destruct (legacy_control_code ch).
  - rewrite app_nil_l. destruct (alt m || meta m).
    + change (tmux_key_bytes (bs "M-" ++ ?l)) with (keys ← tmux_key_bytes l; Some (ESC :: keys)).
      destruct (N.eqb_spec ch 32) as [->|Hne]; [done|]. by rewrite tmux_key_bytes_char, plain_char.
    + rewrite app_nil_l. destruct (N.eqb_spec ch 32) as [->|Hne]; [done|].
      by rewrite tmux_key_bytes_char, plain_char.
Qed.

Definition carried_commands (a : BindingAction) : list bytes :=
  match a with Execute c => [c] | Confirm _ c => [c] | SetKeyTable c _ _ => [c] | _ => [] end.

Definition safe_command (c : bytes) : Prop := c ≠ [] ∧ Forall (λ b, is_unsafe b = false) c.

Definition valid_table (table : bytes) : Prop :=
  table ≠ [] ∧ len table ≤ 128 ∧
  Forall (λ b, is_ascii_control b = false ∧ b ≠ 92 ∧ b ≠ 59 ∧ is_quote b = false) table.

Lemma valid_key_table_spec table t : valid_key_table table = Some t → t = table ∧ valid_table t.
Proof.
  unfold valid_key_table. destruct (_ && _) eqn:Hv; [|done]. intros [= <-]. split; [done|].
  apply andb_true_iff in Hv as [[Hne%negb_true_iff%bool_decide_eq_false Hlen%N.leb_le]%andb_true_iff Hb].
  apply negb_true_iff, existsb_false in Hb. split_and!; [done|done|].
  eapply Forall_impl; [exact Hb|]. intros b H. cbv beta in H. unfold is_quote.
  rewrite !orb_false_iff in H. destruct H as [[[[H H1] H2] H3] H4].
  repeat match goal with H : (_ =? _) = false |- _ => apply N.eqb_neq in H end.
  split_and!; [done|done|done|]. apply orb_false_iff. by rewrite !N.eqb_neq.
Qed.

Definition transition_ok (transition : option (bytes * bool)) : Prop :=
  match transition with Some (table, _) => valid_table table | None => True end.

Lemma scan_words_ok f persistent words transition :
  transition_ok transition → transition_ok (scan_words f persistent words transition).
Proof.
  revert transition. induction words as [|w rest IH]; intros tr Htr; [done|]. cbn. apply IH.
  destruct (f w rest) as [table|]; cbn; [|done].
  destruct (valid_key_table table) as [t|] eqn:Ht; [|done].
  by apply valid_key_table_spec in Ht as [_ ?].
Qed.

Lemma configured_key_table_ok command : transition_ok (configured_key_table command).
Proof.
  unfold configured_key_table.
  assert (∀ segs tr, transition_ok tr → transition_ok (foldl scan_segment tr segs)) as Hgen; [|by apply Hgen].
  induction segs as [|s segs IH]; intros tr Htr; [done|]. cbn. apply IH. unfold scan_segment.
  destruct (List.filter _ _) as [|program words]; [done|].
  repeat case_match; try done; by apply scan_words_ok.
Qed.

Definition action_ok (a : BindingAction) : Prop :=
  match a with
  | Execute c => safe_command c
  | Confirm _ c => c = bs "kill-pane" ∨ c = bs "kill-window"
  | SetKeyTable c table _ => safe_command c ∧ valid_table table
  | _ => True
  end.

Lemma classify_ok command :
  if bool_decide (trim command = []) || existsb is_unsafe (trim command)
  then classify_binding command = Err UnsafeCommand
  else ∃ a, classify_binding command = Ok a ∧ action_ok a.
Proof.
  unfold classify_binding.
  destruct (bool_decide (trim command = []) || existsb is_unsafe (trim command)) eqn:Hu; [done|].
  assert (safe_command (trim command)) as Hsafe.
  { apply orb_false_iff in Hu as [Hne%bool_decide_eq_false Hs%existsb_false]. by split. }
  pose proof (configured_key_table_ok (trim command)) as Htable. clear Hu.
  assert (∀ c, confirm_candidate (trim command) = Some c → c = bs "kill-pane" ∨ c = bs "kill-window") as Hconf.
  { intros c Hc. unfold confirm_candidate in Hc. apply find_some in Hc as [Hin _].
    destruct Hin as [<-|[<-|[]]]; [by left|by right]. }
  destruct (confirm_candidate (trim command)) as [c|]; [specialize (Hconf c eq_refl)|clear Hconf].
  all: destruct (configured_key_table (trim command)) as [[table persistent]|].
  all: repeat case_match; simplify_eq; eexists; (split; [reflexivity|]); cbn; auto.
Qed.

(** C20. What a binding makes Lector do is safe to send: every command an action
    carries is one nonempty line without NUL, CR or LF, the only commands run
    after a confirmation are [kill-pane] and [kill-window], a key table has a
    nonempty name of at most 128 bytes without control characters, backslashes,
    semicolons and quotes; and a command is rejected exactly when it is blank or
    has a NUL, CR or LF inside. *)
Theorem binding_commands_are_safe command :
  (∀ a, classify_binding command = Ok a →
     Forall safe_command (carried_commands a) ∧
     (∀ prompt c, a = Confirm prompt c → c = bs "kill-pane" ∨ c = bs "kill-window") ∧
     (∀ c table persistent, a = SetKeyTable c table persistent → valid_table table)) ∧
  (classify_binding command = Err UnsafeCommand ↔ ¬ safe_command (trim command)).
Proof.
  pose proof (classify_ok command) as Hc.
  assert (∀ c, c = bs "kill-pane" ∨ c = bs "kill-window" → safe_command c) as Hkill.
  { intros c [->| ->]; (split; [done|]); by apply existsb_false. }
  destruct (bool_decide (trim command = []) || existsb is_unsafe (trim command)) eqn:Hu.
  { rewrite Hc. split; [intros a Ha; discriminate Ha|]. split; [|done]. intros _ [Hne Hs].
    apply orb_true_iff in Hu as [Hu%bool_decide_eq_true|Hu]; [done|].
    apply existsb_false in Hs. congruence. }
  destruct Hc as (a & -> & Ha). split.
  - intros ? [= <-]. split_and!.
    + destruct a; cbn in *; try constructor; try done; try apply Ha; by apply Hkill.
    + intros prompt c ->. apply Ha.
    + intros c table persistent ->. apply Ha.
  - split; [done|]. intros Hns. exfalso. apply Hns.
    apply orb_false_iff in Hu as [Hne%bool_decide_eq_false Hs%existsb_false]. by split.
Qed.

Lemma trim_start_matches_app f q y :
  Forall (λ b, f b = true) q → Forall (λ b, f b = false) y → trim_start_matches f (q ++ y) = y.
Proof.
  intros Hq Hy. induction Hq as [|b q Hb _ IH]; cbn; [|by rewrite Hb].
  destruct Hy as [|b y Hb _]; cbn; [done|by rewrite Hb].
Qed.

Lemma trim_matches_app f q y q' :
  Forall (λ b, f b = true) q → Forall (λ b, f b = false) y → y ≠ [] → Forall (λ b, f b = true) q' →
  trim_matches f (q ++ y ++ q') = y.
Proof.
  intros Hq Hy Hne Hq'. unfold trim_matches.
  assert (trim_start_matches f (q ++ y ++ q') = y ++ q') as ->.
  { induction Hq as [|b q Hb _ IH]; cbn; [|by rewrite Hb].
    destruct Hy as [|b y Hb _]; [done|]. cbn. by rewrite Hb. }
  rewrite reverse_app, trim_start_matches_app; [apply reverse_involutive| |]; by apply Forall_reverse.
Qed.

Lemma select_window_words target :
  target ≠ [] → Forall (λ b, is_ascii_whitespace b = false) target →
  split_ascii_whitespace (bs "select-window -t " ++ target) = [bs "select-window"; bs "-t"; target].
Proof.
  intros Hne Ht. unfold split_ascii_whitespace.
  change (bs "select-window -t " ++ target) with (bs "select-window" ++ SP :: (bs "-t" ++ SP :: target)).
  rewrite split_on_app by (done || by repeat constructor).
  rewrite split_on_app by (done || by repeat constructor).
  rewrite split_on_none by done. cbn. unfold nonempty. by rewrite bool_decide_eq_false_2.
Qed.

Lemma digit_plain b : is_digit b = true → is_ascii_whitespace b = false ∧ is_quote b = false ∧ b ≠ 58.
Proof. unfold is_digit, is_ascii_whitespace, is_quote. lia. Qed.

Lemma strip_index index : strip_prefix (bs ":=") (to_dec index) = None.
Proof.
  pose proof (to_dec_digits index) as Hd. destruct (to_dec index) as [|d ds]; [done|].
  apply Forall_inv in Hd. apply digit_plain in Hd as (_ & _ & Hd). cbn.
  destruct d as [|p]; [done|]. by repeat (destruct p as [p|p|]; try done).
Qed.

(** A [select-window] command by index is sent with the identity the window
    has in the attached session: for every index, quoted or not, with or without
    [:=], it becomes the command for exactly the window at that index of that
    session, or is reported missing when there is none; and no other command is
    ever rewritten to a window that is not in the attached session. *)
Theorem windows_are_selected_by_identity t sid s :
  attached_session t = Some sid → sessions t !! sid = Some s →
  (∀ quote prefix index, quote ∈ [[]; [39]; [34]] → prefix ∈ [[]; bs ":="] → index ≤ u32_max →
     scope_select_window_command t
       (bs "select-window -t " ++ quote ++ prefix ++ to_dec index ++ quote) =
     match session_windows s !! index with
     | Some w => Resolved (bs "select-window -t @" ++ to_dec w)
     | None => Missing index
     end) ∧
  ∀ command c, scope_select_window_command t command = Resolved c →
    ∃ index w, session_windows s !! index = Some w ∧ c = bs "select-window -t @" ++ to_dec w.
Proof.
  intros Hatt Hs. split.
  - intros quote prefix index Hq Hp Hi. unfold scope_select_window_command.
    assert (Forall (λ b, is_ascii_whitespace b = false ∧ is_quote b = true) quote) as Hq'.
    { repeat (apply elem_of_cons in Hq as [->|Hq]; [repeat constructor|]). by apply elem_of_nil in Hq. }
    assert (Forall (λ b, is_ascii_whitespace b = false ∧ is_quote b = false) (prefix ++ to_dec index)) as Hb.
    { apply Forall_app. split.
      - repeat (apply elem_of_cons in Hp as [->|Hp]; [repeat constructor|]). by apply elem_of_nil in Hp.
      - eapply Forall_impl; [apply to_dec_digits|]. intros b Hd. by destruct (digit_plain b Hd) as (? & ? & _). }
    rewrite (assoc_L (++) prefix), select_window_words.
    + rewrite !bool_decide_eq_true_2 by done. cbn [andb negb].
      rewrite trim_matches_app.
      * assert (default (prefix ++ to_dec index) (strip_prefix (bs ":=") (prefix ++ to_dec index)) = to_dec index) as ->.
        { apply elem_of_cons in Hp as [->|Hp%list_elem_of_singleton]; [by rewrite app_nil_l, strip_index|].
          by rewrite Hp, strip_prefix_app. }
        rewrite parse_uint_to_dec by done. cbn. rewrite Hatt. cbn. by rewrite Hs.
      * by eapply Forall_impl; [exact Hq'|intros ? []].
      * by eapply Forall_impl; [exact Hb|intros ? []].
      * intros [_ ?]%app_eq_nil. by apply (to_dec_nonempty index).
      * by eapply Forall_impl; [exact Hq'|intros ? []].
    + intros [_ [[_ ?]%app_eq_nil _]%app_eq_nil]%app_eq_nil. by apply (to_dec_nonempty index).
    + rewrite !Forall_app. apply Forall_app in Hb as [Hb1 Hb2].
      split_and!; eapply Forall_impl; try done; by intros ? [].
  - intros command c. unfold scope_select_window_command. repeat case_match; try done.
    intros [= <-]. repeat match goal with H : context [attached_session t] |- _ => rewrite Hatt in H; cbn in H end.
    simplify_eq. eauto.
Qed.

Definition example_topology : TmuxTopology :=
  (topology_new 1) <| attached_session := Some 5 |>
    <| sessions := {[5 := {| session_id := 5; session_name := bs "s"; session_windows := {[2 := 9]};
                             active_window := Some 9 |}]} |>.

Lemma windows_are_selected_by_identity_witness :
  scope_select_window_command example_topology (bs "select-window -t ':=2'") = Resolved (bs "select-window -t @9") ∧
  scope_select_window_command example_topology (bs "select-window -t ':=3'") = Missing 3.
Proof.
  destruct (windows_are_selected_by_identity example_topology 5
    {| session_id := 5; session_name := bs "s"; session_windows := {[2 := 9]}; active_window := Some 9 |}
    eq_refl eq_refl) as [H _].
  split.
  - apply (H [39] (bs ":=") 2); [set_solver|set_solver|done].
  - apply (H [39] (bs ":=") 3); [set_solver|set_solver|done].
Defined.

Lemma key_names_are_read_back_witness :
  let e := {| code := Char 97; modifiers := no_modifiers <| ctrl := true |>; event_kind := Press; keypad := false |} in
  ∃ name, tmux_key_name id e = Some name ∧ tmux_key_bytes name = Some [1].
Proof. intros e. exact (key_names_are_read_back id e 97 eq_refl eq_refl eq_refl eq_refl eq_refl). Defined.
