(* ===== verification/TmuxCommands.v ===== *)
(** Commands to tmux (src/src/app.rs, src/src/app/pty.rs): the queue of pending
    commands, their route through nested connections to the transport they are
    written on, and the replies every connection then expects.

    [App] holds the fields of the application this part reads and writes.  A
    connection of the application is the first one with its id
    ([find_connection]).  [DynWrite] is the writer a command is written on. *)

From S2P Require Import Prelude Terminal TmuxInput TmuxModel TmuxPrefix TmuxLifecycle.
Local Open Scope N_scope.

Definition TMUX_EXPECTED_REPLY_LIMIT : N := 512.
Definition TMUX_ROUTED_COMMAND_LIMIT_BYTES : N := 1024 * 1024.
Definition TMUX_ROUTED_COMMAND_LIMIT_COUNT : N := 4096.
Definition TMUX_FLOW_RETRY_BASE_MS : N := 100.
Definition TMUX_FLOW_RETRY_MAX_MS : N := 2000.

(** * Data *)

Inductive ExpectedTmuxReply :=
| Inventory
| FlowControlPolicy
| FlowControlVerification
| Bootstrap (pane : N) (line_flags : bool)
| PaneResyncProbe (pane : N)
| PaneResyncCapture (pane : N)
| PaneResyncPendingEscape (pane : N)
| PaneResyncVerify (pane : N)
| PaneResyncContinue (pane : N)
| PanePause (pane : N)
| PaneContinue (pane : N)
| Ignored
| UserCommand (description : bytes) (show_success : bool).

Inductive PendingTmuxCommandKind := Ordinary | Resize | Input (pane : N).
#[export] Instance PendingTmuxCommandKind_eq_dec : EqDecision PendingTmuxCommandKind.
Proof. solve_decision. Defined.

Record PendingTmuxCommand := {
  command_connection : N;
  command_bytes : bytes;
  command_replies : list ExpectedTmuxReply;
  kind : PendingTmuxCommandKind
}.

Inductive TmuxFlowStatus := Running | Resynchronizing | ResyncFailed.
#[export] Instance TmuxFlowStatus_eq_dec : EqDecision TmuxFlowStatus.
Proof. solve_decision. Defined.

Inductive TmuxResyncLimitation := KittyImages | ParserContinuation | SemanticMetadata.
#[export] Instance TmuxResyncLimitation_eq_dec : EqDecision TmuxResyncLimitation.
Proof. solve_decision. Defined.

(** A [BTreeSet] of the three limitations is a list without repetition. *)
Record TmuxPaneFlowState := {
  status : TmuxFlowStatus;
  is_paused : bool;
  pause_requested : bool;
  resume_requested : bool;
  resync_requested : bool;
  resync_in_flight : bool;
  final_resync_requested : bool;
  resync_after_ms : option N;
  recapture_hard_deadline_ms : option N;
  last_extended_output_age_ms : option N;
  skipped_incremental_bytes : N;
  resync_count : N;
  resync_failures : N;
  consecutive_resync_failures : N;
  resync_failure_announced : bool;
  limitations : list TmuxResyncLimitation
}.

Record PendingTmuxPaneCapture := {
  capture_metadata : PaneCaptureMetadata;
  capture_output : option (list bytes);
  pending_escape : bytes;
  line_flags : bool;
  parser_continuation_available : bool;
  capture_failed : bool
}.

(** The fields of [TmuxConnectionState] that commands, replies and pane flow use. *)
Record TmuxConnectionState := {
  id : N;
  topology : TmuxTopology;
  expected_replies : list ExpectedTmuxReply;
  pane_flow : gmap N TmuxPaneFlowState;
  pending_pane_captures : gmap N PendingTmuxPaneCapture
}.

Record App := {
  tmux_hierarchy : ConnectionHierarchy;
  tmux_connections : list TmuxConnectionState;
  pending_tmux_commands : list PendingTmuxCommand
}.

Fixpoint position_of (connection : N) (cs : list TmuxConnectionState) : option nat :=
  match cs with
  | [] => None
  | c :: cs => if id c =? connection then Some O else S <$> position_of connection cs
  end.
Definition find_connection (connection : N) (a : App) : option TmuxConnectionState :=
  i ← position_of connection (tmux_connections a); tmux_connections a !! i.
(** [iter_mut().find(..)] and a change of the connection found. *)
Definition update_connection (connection : N) (f : TmuxConnectionState → TmuxConnectionState) (a : App) : App :=
  match position_of connection (tmux_connections a) with
  | Some i => a <| tmux_connections := alter f i (tmux_connections a) |>
  | None => a
  end.

(** * The queue *)

Definition push_command (c : PendingTmuxCommand) (a : App) : App :=
  a <| pending_tmux_commands := pending_tmux_commands a ++ [c] |>.

Definition ordinary (connection : N) (text : bytes) (replies : list ExpectedTmuxReply) : PendingTmuxCommand :=
  {| command_connection := connection; command_bytes := text; command_replies := replies; kind := Ordinary |}.

(** Input for the pane the last command writes to is appended to that command. *)
Definition queue_tmux_input (connection pane : N) (input : bytes) (a : App) : App :=
  if bool_decide (input = []) then a else
  let fresh := {| command_connection := connection; command_bytes := input; command_replies := [];
                  kind := Input pane |} in
  match last (pending_tmux_commands a) with
  | Some c =>
      if (command_connection c =? connection) && bool_decide (kind c = Input pane)
      then a <| pending_tmux_commands :=
               take (length (pending_tmux_commands a) - 1) (pending_tmux_commands a) ++
               [c <| command_bytes := command_bytes c ++ input |>] |>
      else push_command fresh a
  | None => push_command fresh a
  end.

Definition queue_tmux_inventory (connection : N) (a : App) : App :=
  foldl (λ a text, push_command (ordinary connection text [Inventory]) a) a INVENTORY_COMMANDS.

(** A resize that still waits is replaced where it is. *)
Fixpoint replace_resize (connection : N) (text : bytes) (cs : list PendingTmuxCommand)
    : option (list PendingTmuxCommand) :=
  match cs with
  | [] => None
  | c :: cs =>
      if (command_connection c =? connection) && bool_decide (kind c = Resize)
      then Some (c <| command_bytes := text |> :: cs)
      else (c ::.) <$> replace_resize connection text cs
  end.

Definition queue_tmux_resize (connection : N) (g : TerminalGeometry) (a : App) : App :=
  match replace_resize connection (refresh_client_command g) (pending_tmux_commands a) with
  | Some cs => a <| pending_tmux_commands := cs |>
  | None =>
      push_command {| command_connection := connection; command_bytes := refresh_client_command g;
                      command_replies := [Ignored]; kind := Resize |} a
  end.

Definition queue_tmux_command (connection : N) (command : bytes) (show_success : bool) (a : App)
    : App * result PrefixError unit :=
  match classify_binding command with
  | Err e => (a, Err e)
  | Ok _ =>
      (push_command (ordinary connection (command ++ [LF]) [UserCommand command show_success]) a, Ok ())
  end.
Definition queue_tmux_user_command (connection : N) (command : bytes) := queue_tmux_command connection command false.
Definition queue_tmux_prompt_command (connection : N) (command : bytes) := queue_tmux_command connection command true.

(** * Routes *)

(** Commands on their way, each with the replies it brings to the connection it
    is sent to. *)
Abbreviation Encoded := (list (bytes * list ExpectedTmuxReply)).

Inductive RouteError := EncodeError (e : TmuxInputError) | NestingDepth.

Definition total_bytes (commands : Encoded) : option N :=
  foldl (λ total c, t ← total; checked_add usize_max t (len c.1)) (Some 0) commands.

Definition route_is_bounded (commands : Encoded) : bool :=
  (N.of_nat (length commands) <=? TMUX_ROUTED_COMMAND_LIMIT_COUNT) &&
  match total_bytes commands with Some total => total <=? TMUX_ROUTED_COMMAND_LIMIT_BYTES | None => false end.

Definition encode_input (pane : N) (input : bytes) : result RouteError Encoded :=
  match encode_send_keys pane input with
  | Ok commands => Ok ((λ c, (c, [Ignored])) <$> commands)
  | Err e => Err (EncodeError e)
  end.

(** The [for] loop that encodes every command for the pane of the parent. *)
Definition encode_for_parent (pane : N) (commands : Encoded) : result RouteError Encoded :=
  match collect (λ c, encode_input pane c.1) commands with
  | Ok parts => Ok (mjoin parts)
  | Err e => Err e
  end.

Definition all_replies (commands : Encoded) : list ExpectedTmuxReply := mjoin (snd <$> commands).

(** A connection index and the replies it is to expect. *)
Abbreviation Additions := (list (nat * list ExpectedTmuxReply)).

Definition added_at (additions : Additions) (i : nat) : N :=
  foldl (λ n a, if (a.1 =? i)%nat then n + N.of_nat (length a.2) else n) 0 additions.

Definition reply_backlog_exceeded (cs : list TmuxConnectionState) (additions : Additions) : bool :=
  existsb (λ a,
    match cs !! a.1 with
    | Some c => TMUX_EXPECTED_REPLY_LIMIT <?
                sat_add usize_max (N.of_nat (length (expected_replies c))) (added_at additions a.1)
    | None => false
    end) additions.

Definition extend_replies (rs : list ExpectedTmuxReply) (c : TmuxConnectionState) : TmuxConnectionState :=
  c <| expected_replies := expected_replies c ++ rs |>.

Definition extend_all (additions : Additions) (cs : list TmuxConnectionState) : list TmuxConnectionState :=
  foldl (λ cs a, alter (extend_replies a.2) a.1 cs) cs additions.

(** The loop of [route_tmux_command], from the connection outwards; it makes 65
    turns at most. *)
Fixpoint route_loop (turns : nat) (connection : N) (encoded : Encoded) (additions : Additions) (a : App)
    : App * result RouteError (option (N * list bytes)) :=
  match turns with
  | O => (a, Err NestingDepth)
  | S turns =>
      match position_of connection (tmux_connections a) with
      | None => (a, Ok None)
      | Some index =>
          let additions := additions ++ [(index, all_replies encoded)] in
          match connection_origin connection (tmux_hierarchy a) with
          | Some Direct =>
              if reply_backlog_exceeded (tmux_connections a) additions then (a, Ok None)
              else (a <| tmux_connections := extend_all additions (tmux_connections a) |>,
                    Ok (Some (connection, fst <$> encoded)))
          | Some (Pane parent _ _ pane) =>
              match encode_for_parent pane encoded with
              | Err e => (a, Err e)
              | Ok encoded =>
                  if negb (route_is_bounded encoded) then (a, Ok None)
                  else route_loop turns parent encoded additions a
              end
          | None => (a, Ok None)
          end
      end
  end.

Definition ROUTE_TURNS : nat := 65.

Definition route_tmux_command (c : PendingTmuxCommand) (a : App)
    : App * result RouteError (option (N * list bytes)) :=
  match position_of (command_connection c) (tmux_connections a) with
  | None => (a, Ok None)
  | Some _ =>
      match (match kind c with
             | Input pane => encode_input pane (command_bytes c)
             | Ordinary | Resize => Ok [(command_bytes c, command_replies c)]
             end) with
      | Err e => (a, Err e)
      | Ok encoded =>
          if negb (route_is_bounded encoded) then (a, Ok None)
          else route_loop ROUTE_TURNS (command_connection c) encoded [] a
      end
  end.

Fixpoint direct_transport_loop (turns : nat) (connection : N) (m : ConnectionHierarchy) : option N :=
  match turns with
  | O => None
  | S turns =>
      match connection_origin connection m with
      | Some Direct => Some connection
      | Some (Pane parent _ _ _) => direct_transport_loop turns parent m
      | None => None
      end
  end.
Definition direct_transport_for (connection : N) (a : App) : option N :=
  direct_transport_loop ROUTE_TURNS connection (tmux_hierarchy a).

(** * Pane flow of commands in flight and discarded *)

Definition tmux_flow_retry_delay_ms (consecutive_failures : N) : N :=
  let exponent := N.min (consecutive_failures - 1) 5 in
  N.min (sat_mul u128_max TMUX_FLOW_RETRY_BASE_MS (N.shiftl 1 exponent)) TMUX_FLOW_RETRY_MAX_MS.

Definition resync_pane (r : ExpectedTmuxReply) : option N :=
  match r with
  | PaneResyncProbe pane | PaneResyncCapture pane | PaneResyncPendingEscape pane | PaneResyncVerify pane => Some pane
  | _ => None
  end.

Definition update_flow (pane : N) (f : TmuxPaneFlowState → TmuxPaneFlowState) (c : TmuxConnectionState)
    : TmuxConnectionState := c <| pane_flow := alter f pane (pane_flow c) |>.

Definition mark_in_flight (r : ExpectedTmuxReply) (c : TmuxConnectionState) : TmuxConnectionState :=
  match resync_pane r with
  | Some pane => update_flow pane (λ flow, flow <| resync_in_flight := true |>) c
  | None => c
  end.

Definition mark_tmux_flow_commands_in_flight (connection : N) (replies : list ExpectedTmuxReply) (a : App) : App :=
  update_connection connection (λ c, foldl (λ c r, mark_in_flight r c) c replies) a.

(** What a discarded command had asked of a pane: pause, resume, resync. *)
Definition discarded_action (r : ExpectedTmuxReply) : option (N * (bool * bool * bool)) :=
  match r with
  | PanePause pane => Some (pane, (true, false, false))
  | PaneContinue pane => Some (pane, (false, true, false))
  | PaneResyncContinue pane => Some (pane, (false, true, true))
  | PaneResyncProbe pane | PaneResyncCapture pane | PaneResyncPendingEscape pane | PaneResyncVerify pane =>
      Some (pane, (false, false, true))
  | _ => None
  end.

Definition or_action (x y : bool * bool * bool) : bool * bool * bool :=
  (x.1.1 || y.1.1, x.1.2 || y.1.2, x.2 || y.2).

Definition discarded_actions (replies : list ExpectedTmuxReply) : gmap N (bool * bool * bool) :=
  foldl (λ actions r,
    match discarded_action r with
    | Some (pane, action) => <[pane := or_action (default (false, false, false) (actions !! pane)) action]> actions
    | None => actions
    end) ∅ replies.

Definition recover_flow (now_ms : N) (action : bool * bool * bool) (flow : TmuxPaneFlowState) : TmuxPaneFlowState :=
  let '(pause, resume, resync) := action in
  let flow := if pause : bool then flow <| is_paused := false |> <| pause_requested := false |> else flow in
  let flow := if resume : bool then flow <| resume_requested := false |> else flow in
  let flow := if resync : bool then flow <| resync_requested := false |> <| resync_in_flight := false |>
                                         <| final_resync_requested := false |> else flow in
  if bool_decide (status flow = Running) then flow else
  let failures := sat_add u32_max (consecutive_resync_failures flow) 1 in
  flow <| recapture_hard_deadline_ms := None |>
       <| consecutive_resync_failures := failures |>
       <| resync_failures := sat_add u64_max (resync_failures flow) 1 |>
       <| resync_after_ms := Some (sat_add u128_max now_ms (tmux_flow_retry_delay_ms failures)) |>.

Definition recover_pane (now_ms : N) (actions : gmap N (bool * bool * bool)) (c : TmuxConnectionState) (pane : N)
    : TmuxConnectionState :=
  match actions !! pane with
  | Some action =>
      let c := if action.2 : bool then c <| pending_pane_captures := delete pane (pending_pane_captures c) |> else c in
      update_flow pane (recover_flow now_ms action) c
  | None => c
  end.

Definition recover_discarded_tmux_flow_command (now_ms connection : N) (replies : list ExpectedTmuxReply) (a : App)
    : App :=
  let actions := discarded_actions replies in
  update_connection connection (λ c, foldl (recover_pane now_ms actions) c (btree_keys actions)) a.

(** * Writing the queue *)

(** [write_all] and [flush] of the [dyn Write] a transport is written on. *)
Class DynWrite (W E : Type) := {
  write_all : bytes → W → W * result E unit;
  flush : W → W * result E unit
}.

Inductive DrainError (E : Type) := Route (e : RouteError) | Io (e : E).
Arguments Route {E} e.
Arguments Io {E} e.

Section drain.
Context {W E : Type} `{DynWrite W E}.

(** Writes stop at the first error. *)
Fixpoint write_each (chunks : list bytes) (w : W) : W * result E unit :=
  match chunks with
  | [] => (w, Ok ())
  | chunk :: chunks =>
      let '(w, r) := write_all chunk w in
      match r with Ok _ => write_each chunks w | Err e => (w, Err e) end
  end.

(** The loop of [drain_tmux_commands_for] over as many commands as were queued;
    the flag tells whether something was written.  The code reads the clock anew
    for each command that is discarded; one reading stands for all of a drain,
    which only the times of retries depend on. *)
Fixpoint drain_loop (queued : nat) (now_ms transport : N) (wrote : bool) (a : App) (w : W)
    : App * W * result (DrainError E) bool :=
  match queued with
  | O => (a, w, Ok wrote)
  | S queued =>
      match pending_tmux_commands a with
      | [] => (a, w, Ok wrote)
      | command :: rest =>
          let a := a <| pending_tmux_commands := rest |> in
          if negb (bool_decide (direct_transport_for (command_connection command) a = Some transport))
          then drain_loop queued now_ms transport wrote (push_command command a) w
          else
          let '(a, routed) := route_tmux_command command a in
          match routed with
          | Err e => (a, w, Err (Route e))
          | Ok None =>
              drain_loop queued now_ms transport wrote
                (recover_discarded_tmux_flow_command now_ms (command_connection command)
                   (command_replies command) a) w
          | Ok (Some (_, encoded)) =>
              let a := mark_tmux_flow_commands_in_flight (command_connection command) (command_replies command) a in
              let '(w, written) := write_each encoded w in
              match written with
              | Err e => (a, w, Err (Io e))
              | Ok _ => drain_loop queued now_ms transport (wrote || negb (bool_decide (encoded = []))) a w
              end
          end
      end
  end.

Definition drain_tmux_commands_for (now_ms transport : N) (a : App) (w : W)
    : App * W * result (DrainError E) unit :=
  let '(a, w, r) := drain_loop (length (pending_tmux_commands a)) now_ms transport false a w in
  match r with
  | Err e => (a, w, Err e)
  | Ok false => (a, w, Ok ())
  | Ok true =>
      let '(w, flushed) := flush w in
      (a, w, match flushed with Ok _ => Ok () | Err e => Err (Io e) end)
  end.
End drain.

(** * What arrives *)

(** The complete lines of a stream, with their line feeds: the commands tmux
    reads on the standard input of a control client. *)
Definition lines (s : bytes) : list bytes :=
  let parts := split_on (N.eqb LF) s in (λ l, l ++ [LF]) <$> take (length parts - 1) parts.

(** What reaches the pane at the end of [panes], the first of them a pane of the
    server behind the transport, when [s] is written on it: every server reads
    its lines and types their [send-keys] arguments into the next pane. *)
Fixpoint delivered (panes : list N) (s : bytes) : option bytes :=
  match panes with
  | [] => Some s
  | pane :: panes => typed ← mapM (decode_send_keys pane) (lines s); delivered panes (mjoin typed)
  end.

Definition is_line (c : bytes) : Prop := ∃ line, c = line ++ [LF] ∧ Forall (λ b, (LF =? b) = false) line.

Lemma lines_join cs : Forall is_line cs → lines (mjoin cs) = cs.
Proof.
  intros Hcs.
  assert (∃ ls, cs = (λ l, l ++ [LF]) <$> ls ∧ Forall (Forall (λ b, (LF =? b) = false)) ls) as (ls & -> & Hls).
  { induction Hcs as [|c cs (line & -> & Hl) _ (ls & -> & Hls)]; [by exists []|].
    exists (line :: ls). split; [done|by constructor]. }
  clear Hcs. unfold lines.
  assert (split_on (N.eqb LF) (mjoin ((λ l, l ++ [LF]) <$> ls)) = ls ++ [[]]) as ->.
  { induction Hls as [|line ls Hl _ IH]; [done|]. cbn [mjoin list_join fmap list_fmap].
    rewrite <-(assoc_L (++)). cbn [app]. rewrite split_on_app by done. cbn [app]. f_equal. exact IH. }
  rewrite length_app. cbn [length]. by rewrite Nat.add_sub, take_app_length.
Qed.

Lemma delivered_app p1 p2 s : delivered (p1 ++ p2) s = delivered p1 s ≫= delivered p2.
Proof.
  revert s. induction p1 as [|p p1 IH]; intros s; [done|]. cbn.
  destruct (mapM _ _); [apply IH|done].
Qed.

(** Commands whose bytes are bytes, each one line for a pane and one reply. *)
Definition bytes_ok (commands : Encoded) : Prop := Forall (λ c, Forall byte_ok c.1) commands.
Definition one_reply_each (commands : Encoded) : Prop := Forall (λ c, is_line c.1 ∧ c.2 = [Ignored]) commands.

Lemma printable_line line : Forall printable line →
  Forall byte_ok (line ++ [LF]) ∧ is_line (line ++ [LF]).
Proof.
  intros Hl. split.
  - apply Forall_app. split; [|repeat constructor; unfold byte_ok, LF; lia].
    eapply Forall_impl; [exact Hl|]. intros b [_ Hb]. unfold byte_ok. lia.
  - exists line. split; [done|]. eapply Forall_impl; [exact Hl|]. intros b [Hb _].
    apply N.eqb_neq. intros <-. done.
Qed.

Lemma encode_input_ok pane input :
  pane ≤ u64_max → Forall byte_ok input →
  ∃ commands, encode_input pane input = Ok commands ∧ bytes_ok commands ∧ one_reply_each commands ∧
    mjoin <$> mapM (decode_send_keys pane) (fst <$> commands) = Some input.
Proof.
  intros Hp Hi. destruct (send_keys_ok pane input Hp Hi) as (cs & Hcs & Hdec & Hl).
  unfold encode_input. rewrite Hcs. eexists. split; [done|].
  assert (fst <$> ((λ c : bytes, (c, [Ignored])) <$> cs) = cs) as ->.
  { rewrite <-list_fmap_compose. apply list_fmap_id. }
  split_and!; [| |done]; apply Forall_fmap; eapply Forall_impl; try exact Hl;
    intros c (_ & line & -> & Hpr); by destruct (printable_line line Hpr).
Qed.

Lemma encode_for_parent_ok pane commands :
  pane ≤ u64_max → bytes_ok commands →
  ∃ out, encode_for_parent pane commands = Ok out ∧ bytes_ok out ∧ one_reply_each out ∧
    mjoin <$> mapM (decode_send_keys pane) (fst <$> out) = Some (mjoin (fst <$> commands)).
Proof.
  intros Hp Hc. unfold encode_for_parent.
  induction Hc as [|c cs Hc _ IH]; [exists []; by repeat constructor|].
  destruct IH as (out & Hout & Hb & Ho & Hd). cbn [collect].
  destruct (encode_input_ok pane c.1 Hp Hc) as (cmds & -> & Hb1 & Ho1 & Hd1).
  destruct (collect _ cs) as [parts|e]; [|done]. cbn. injection Hout as <-.
  eexists. split; [done|]. cbn. split_and!; [by apply Forall_app|by apply Forall_app|].
  rewrite fmap_app, mapM_app. cbn [fmap list_fmap] in *.
  destruct (mapM _ (fst <$> cmds)) as [r1|]; [|done]. cbn in Hd1.
  destruct (mapM _ (fst <$> mjoin parts)) as [r2|]; [|done]. cbn in *. simplify_eq.
  by rewrite join_app, Hd, Hd1.
Qed.

(** What one pane receives of a list of lines. *)
Lemma delivered_one pane out s :
  one_reply_each out → mjoin <$> mapM (decode_send_keys pane) (fst <$> out) = Some s →
  delivered [pane] (mjoin (fst <$> out)) = Some s.
Proof.
  intros Ho Hd. cbn. rewrite lines_join.
  - by destruct (mapM _ _).
  - apply Forall_fmap. eapply Forall_impl; [exact Ho|]. by intros ? [].
Qed.

Lemma one_reply_count out :
  one_reply_each out → all_replies out = replicate (length (lines (mjoin (fst <$> out)))) Ignored.
Proof.
  intros Ho. rewrite lines_join, length_fmap.
  - unfold all_replies. induction Ho as [|c cs [_ Hc] _ IH]; [done|].
    change (c.2 ++ mjoin (snd <$> cs) = Ignored :: replicate (length cs) Ignored). by rewrite Hc, IH.
  - apply Forall_fmap. eapply Forall_impl; [exact Ho|]. by intros ? [].
Qed.

(** * Routes *)

(** The connections from [c] to its transport, each with the panes that lead to
    it from there. *)
Inductive stations (m : ConnectionHierarchy) : N → list (N * list N) → Prop :=
| station_direct c : m !! c = Some Direct → stations m c [(c, [])]
| station_pane c p s w q k panes sts :
    m !! c = Some (Pane p s w q) → stations m p ((k, panes) :: sts) →
    stations m c ((c, panes ++ [q]) :: (k, panes) :: sts).

Definition panes_of (sts : list (N * list N)) : list N := default [] (snd <$> head sts).

Definition panes_ok (m : ConnectionHierarchy) : Prop :=
  ∀ c p s w q, m !! c = Some (Pane p s w q) → q ≤ u64_max.

Lemma stations_cons m c sts : stations m c sts → ∃ panes rest, sts = (c, panes) :: rest.
Proof. destruct 1; eauto. Qed.

Lemma stations_rooted m c sts : stations m c sts → rooted m c (length sts - 1).
Proof.
  induction 1 as [c Hc|c p s w q k panes sts Hc _ IH]; [by constructor|].
  cbn in *. econstructor; [done|]. by rewrite Nat.sub_0_r in *.
Qed.

(** The stations of a connection are the tails of the list. *)
Lemma stations_tail m c sts k panes :
  stations m c sts → (k, panes) ∈ sts → ∃ sts', stations m k ((k, panes) :: sts') ∧ ((k, panes) :: sts') `suffix_of` sts.
Proof.
  induction 1 as [c Hc|c p s w q k' panes' sts Hc Hsts IH]; intros Hin.
  - apply list_elem_of_singleton in Hin as [= -> ->]. exists []. split; [by constructor|done].
  - apply elem_of_cons in Hin as [[= -> ->]|Hin].
    + eexists. split; [by econstructor|done].
    + destruct (IH Hin) as (sts' & ? & ?). eexists. split; [done|]. by apply suffix_cons_r.
Qed.

Lemma stations_NoDup m c sts : stations m c sts → NoDup (fst <$> sts).
Proof.
  intros Hsts. induction Hsts as [c Hc|c p s w q k panes sts Hc Hsts IH]; [apply NoDup_singleton|].
  rewrite fmap_cons. apply NoDup_cons_2; [|exact IH]. cbn [fst]. intros ((k', panes') & Hk & Hin)%list_elem_of_fmap.
  cbn in Hk. subst k'.
  destruct (stations_tail _ _ _ _ _ Hsts Hin) as (sts' & Hsts' & Hsuf).
  apply stations_rooted in Hsts'. apply suffix_length in Hsuf.
  apply stations_rooted in Hsts as Hr. assert (rooted m c (S (length ((k, panes) :: sts) - 1))) as Hc'
    by (by econstructor).
  pose proof (rooted_unique _ _ _ _ Hsts' Hc'). cbn in *. lia.
Qed.

(** One connection on a route: its index, and the commands sent to it. *)
Definition station_added (written : list bytes) (cs : list TmuxConnectionState)
    (st : N * list N) (add : nat * list ExpectedTmuxReply) (level : Encoded) : Prop :=
  position_of st.1 cs = Some add.1 ∧ add.2 = all_replies level ∧
  delivered st.2 (mjoin written) = Some (mjoin (fst <$> level)).

Lemma route_loop_ok turns connection encoded additions a a' root written :
  panes_ok (tmux_hierarchy a) → bytes_ok encoded →
  route_loop turns connection encoded additions a = (a', Ok (Some (root, written))) →
  ∃ sts adds levels,
    stations (tmux_hierarchy a) connection sts ∧ (fst <$> last sts) = Some root ∧
    length adds = length sts ∧ length levels = length sts ∧ head levels = Some encoded ∧
    Forall one_reply_each (tail levels) ∧
    (∀ i st add level, sts !! i = Some st → adds !! i = Some add → levels !! i = Some level →
       station_added written (tmux_connections a) st add level) ∧
    reply_backlog_exceeded (tmux_connections a) (additions ++ adds) = false ∧
    a' = a <| tmux_connections := extend_all (additions ++ adds) (tmux_connections a) |>.
Proof.
  intros Hpanes. revert connection encoded additions.
  induction turns as [|turns IH]; intros connection encoded additions Hb; [done|]. cbn [route_loop].
  destruct (position_of connection _) as [index|] eqn:Hpos; [|done].
  unfold connection_origin. destruct (tmux_hierarchy a !! connection) as [[|p s w q]|] eqn:Ho; [| |done].
  - destruct (reply_backlog_exceeded _ _) eqn:Hback; [done|]. intros [= <- <- <-].
    exists [(connection, [])], [(index, all_replies encoded)], [encoded].
    split_and!; try done; [by constructor|].
    intros [|i] st add level Hst Hadd Hlev; [|done]. cbn in *. simplify_eq. by split_and!.
  - destruct (encode_for_parent_ok q encoded) as (out & -> & Hb' & Ho' & Hd); [by eapply Hpanes|done|].
    destruct (negb (route_is_bounded out)); [done|]. intros Hr.
    destruct (IH p out _ Hb' Hr) as (sts & adds & levels & Hsts & Hroot & Hla & Hll & Hhd & Hone & Hadd & Hback & Ha').
    destruct (stations_cons _ _ _ Hsts) as (panes & rest & ->).
    destruct levels as [|level levels]; [done|]. injection Hhd as ->. destruct adds as [|add adds]; [done|].
    exists ((connection, panes ++ [q]) :: (p, panes) :: rest), ((index, all_replies encoded) :: add :: adds),
      (encoded :: out :: levels).
    split_and!; try done.
    + by econstructor.
    + cbn in *. lia.
    + cbn in *. lia.
    + by constructor.
    + intros [|i] st ad level Hst Had Hlev; [|by eapply Hadd]. cbn in Hst, Had, Hlev. simplify_eq.
      split_and!; [done|done|]. cbn [snd]. rewrite delivered_app.
      destruct (Hadd 0%nat _ _ _ eq_refl eq_refl eq_refl) as (_ & _ & Hdel).
      cbn [snd] in Hdel. rewrite Hdel. cbn [mbind option_bind].
      by apply delivered_one.
    + by rewrite <-(assoc_L (++)) in Hback.
    + by rewrite <-(assoc_L (++)) in Ha'.
Qed.

(** The connection itself is the first station. *)
Lemma station_first m c sts i panes : stations m c sts → sts !! i = Some (c, panes) → i = 0%nat.
Proof.
  intros Hsts Hi. pose proof (stations_NoDup _ _ _ Hsts) as Hnd.
  destruct (stations_cons _ _ _ Hsts) as (panes' & rest & ->).
  eapply (proj1 (NoDup_alt _) Hnd i 0%nat c); [|done]. by rewrite list_lookup_fmap, Hi.
Qed.

(** * The replies of every connection *)

#[local] Arguments extend_replies : simpl never.

Definition replies_at (adds : Additions) (i : nat) : list ExpectedTmuxReply :=
  mjoin (snd <$> List.filter (λ add, (add.1 =? i)%nat) adds).

Lemma extend_replies_app rs rs' c : extend_replies rs' (extend_replies rs c) = extend_replies (rs ++ rs') c.
Proof. destruct c. unfold extend_replies. cbn. by rewrite (assoc_L (++)). Qed.

Lemma extend_replies_nil c : extend_replies [] c = c.
Proof. destruct c. unfold extend_replies. cbn. by rewrite app_nil_r. Qed.

Lemma extend_all_lookup adds cs i :
  extend_all adds cs !! i = extend_replies (replies_at adds i) <$> cs !! i.
Proof.
  revert cs. unfold extend_all, replies_at. induction adds as [|[j rs] adds IH]; intros cs; cbn.
  - destruct (cs !! i) as [c|]; [|done]. cbn. by rewrite extend_replies_nil.
  - rewrite IH. destruct (Nat.eqb_spec j i) as [->|Hne].
    + rewrite list_lookup_alter_eq. destruct (cs !! i) as [c|]; [|reflexivity].
      cbn. by rewrite extend_replies_app.
    + by rewrite list_lookup_alter_ne.
Qed.

Lemma position_of_ids k cs cs' : id <$> cs = id <$> cs' → position_of k cs = position_of k cs'.
Proof.
  revert cs'. induction cs as [|c cs IH]; intros [|c' cs'] Heq; try done. cbn in *.
  injection Heq as Hc Hcs. by rewrite Hc, (IH cs').
Qed.

Lemma position_of_lookup k cs i : position_of k cs = Some i → ∃ c, cs !! i = Some c ∧ id c = k.
Proof.
  revert i. induction cs as [|c cs IH]; intros i; [done|]. cbn.
  destruct (N.eqb_spec (id c) k) as [Hc|_]; [intros [= <-]; by exists c|].
  destruct (position_of k cs) as [j|]; [|done]. intros [= <-]. by apply IH.
Qed.

Lemma extend_all_ids adds cs : id <$> extend_all adds cs = id <$> cs.
Proof.
  apply list_eq. intros i. rewrite !list_lookup_fmap, extend_all_lookup. by destruct (cs !! i).
Qed.

Lemma find_connection_extend adds a k i :
  position_of k (tmux_connections a) = Some i →
  find_connection k (a <| tmux_connections := extend_all adds (tmux_connections a) |>) =
    extend_replies (replies_at adds i) <$> find_connection k a.
Proof.
  intros Hi. unfold find_connection. cbn [tmux_connections].
  change (tmux_connections (a <| tmux_connections := ?x |>)) with x.
  rewrite (position_of_ids k _ (tmux_connections a)) by apply extend_all_ids.
  rewrite Hi. cbn. apply extend_all_lookup.
Qed.

Lemma replies_at_nil adds i : i ∉ fst <$> adds → replies_at adds i = [].
Proof.
  unfold replies_at. induction adds as [|[j rs] adds IH]; [done|]. cbn.
  intros Hi. apply not_elem_of_cons in Hi as [Hne Hi].
  rewrite (proj2 (Nat.eqb_neq j i)) by done. by apply IH.
Qed.

Lemma replies_at_unique adds i rs : NoDup (fst <$> adds) → (i, rs) ∈ adds → replies_at adds i = rs.
Proof.
  intros Hnd Hin. induction adds as [|[j rs'] adds IH]; [by apply elem_of_nil in Hin|].
  cbn in Hnd. apply NoDup_cons in Hnd as [Hj Hnd]. apply elem_of_cons in Hin as [[= <- <-]|Hin].
  - unfold replies_at. cbn. rewrite Nat.eqb_refl. cbn.
    replace (mjoin _) with (replies_at adds i) by done. by rewrite replies_at_nil, app_nil_r.
  - assert (j ≠ i) by (intros ->; apply Hj, list_elem_of_fmap; by exists (i, rs)).
    unfold replies_at. cbn. rewrite (proj2 (Nat.eqb_neq j i)) by done. by apply IH.
Qed.

(** The additions of a route are for different connections. *)
Lemma adds_NoDup cs (sts : list (N * list N)) (adds : Additions) :
  NoDup (fst <$> sts) → length adds = length sts →
  (∀ i st add, sts !! i = Some st → adds !! i = Some add → position_of st.1 cs = Some add.1) →
  NoDup (fst <$> adds).
Proof.
  intros Hnd Hlen Hpos. apply NoDup_alt. intros i j x Hi Hj.
  rewrite list_lookup_fmap in Hi, Hj. apply fmap_Some in Hi as (ai & Hi & ->). apply fmap_Some in Hj as (aj & Hj & Hx).
  apply lookup_lt_Some in Hi as Hli. apply lookup_lt_Some in Hj as Hlj. rewrite Hlen in Hli, Hlj.
  apply lookup_lt_is_Some in Hli as [si Hsi]. apply lookup_lt_is_Some in Hlj as [sj Hsj].
  pose proof (Hpos _ _ _ Hsi Hi) as H1. pose proof (Hpos _ _ _ Hsj Hj) as H2. rewrite <-Hx in H2.
  apply position_of_lookup in H1 as (c1 & Hc1 & Hk1). apply position_of_lookup in H2 as (c2 & Hc2 & Hk2).
  eapply (proj1 (NoDup_alt _) Hnd i j si.1); rewrite list_lookup_fmap.
  - by rewrite Hsi.
  - rewrite Hsj. cbn. f_equal. congruence.
Qed.

Definition input_panes (k : PendingTmuxCommandKind) : list N := match k with Input pane => [pane] | _ => [] end.

Definition command_ok (c : PendingTmuxCommand) : Prop :=
  Forall byte_ok (command_bytes c) ∧ match kind c with Input pane => pane ≤ u64_max | _ => True end.

(** What a command becomes for the connection it is queued on. *)
Lemma encode_command_ok c :
  command_ok c →
  ∃ encoded, (match kind c with
              | Input pane => encode_input pane (command_bytes c)
              | Ordinary | Resize => Ok [(command_bytes c, command_replies c)]
              end) = Ok encoded ∧ bytes_ok encoded ∧
    delivered (input_panes (kind c)) (mjoin (fst <$> encoded)) = Some (command_bytes c) ∧
    all_replies encoded =
      match kind c with
      | Input _ => replicate (length (lines (mjoin (fst <$> encoded)))) Ignored
      | _ => command_replies c
      end.
Proof.
  intros [Hb Hp].
  assert (bytes_ok [(command_bytes c, command_replies c)] ∧
          mjoin (fst <$> [(command_bytes c, command_replies c)]) = command_bytes c ∧
          all_replies [(command_bytes c, command_replies c)] = command_replies c) as (H1 & H2 & H3).
  { split_and!; [by constructor|apply app_nil_r|apply app_nil_r]. }
  destruct (kind c) as [| |pane].
  - eexists. split; [done|]. by rewrite H2, H3.
  - eexists. split; [done|]. by rewrite H2, H3.
  - destruct (encode_input_ok pane (command_bytes c) Hp Hb) as (cmds & -> & Hb' & Ho & Hd).
    exists cmds. split_and!; [done|done|by apply delivered_one|by apply one_reply_count].
Qed.

(** ** Outcomes of a route *)

Lemma lookup_aligned {A B} (l1 : list A) (l2 : list B) i x :
  length l2 = length l1 → l1 !! i = Some x → is_Some (l2 !! i).
Proof. intros Hl Hi. apply lookup_lt_is_Some. rewrite Hl. by eapply lookup_lt_Some. Qed.

Definition reply_count (c : TmuxConnectionState) : N := N.of_nat (length (expected_replies c)).
Definition replies_bounded (a : App) : Prop :=
  Forall (λ c, reply_count c ≤ TMUX_EXPECTED_REPLY_LIMIT) (tmux_connections a).

Lemma added_at_replies adds i : added_at adds i = N.of_nat (length (replies_at adds i)).
Proof.
  unfold added_at, replies_at.
  assert (∀ n, foldl (λ (n : N) (a : nat * list ExpectedTmuxReply),
      if (a.1 =? i)%nat then n + N.of_nat (length a.2) else n) n adds =
    n + N.of_nat (length (mjoin (snd <$> List.filter (λ add, (add.1 =? i)%nat) adds)))) as Hgen; [|apply Hgen].
  induction adds as [|[j rs] adds IH]; intros n; cbn; [lia|]. rewrite IH.
  destruct (j =? i)%nat; [|done]. rewrite fmap_cons, join_cons, length_app. cbn [snd]. lia.
Qed.

Lemma backlog_bounded a adds :
  replies_bounded a → reply_backlog_exceeded (tmux_connections a) adds = false →
  replies_bounded (a <| tmux_connections := extend_all adds (tmux_connections a) |>).
Proof.
  intros Hb Hback. apply Forall_lookup. intros i c Hc.
  change (extend_all adds (tmux_connections a) !! i = Some c) in Hc.
  rewrite extend_all_lookup in Hc. apply fmap_Some in Hc as (c0 & Hc0 & ->).
  pose proof (Forall_lookup_1 _ _ _ _ Hb Hc0) as Hb0. unfold reply_count in *.
  change (expected_replies (extend_replies (replies_at adds i) c0)) with (expected_replies c0 ++ replies_at adds i).
  destruct (decide (i ∈ fst <$> adds)) as [Hin|Hin]; [|by rewrite replies_at_nil, app_nil_r].
  apply list_elem_of_fmap in Hin as ([j rs] & Hj & Hin). cbn in Hj. subst j.
  apply existsb_false in Hback. rewrite Forall_forall in Hback. specialize (Hback _ Hin).
  cbv beta in Hback. cbn [fst] in Hback.
  rewrite Hc0, added_at_replies in Hback. apply N.ltb_ge in Hback.
  rewrite length_app. unfold sat_add, usize_max, u64_max, TMUX_EXPECTED_REPLY_LIMIT in *. cbn [fst]. lia.
Qed.

(** A route changes nothing but the replies, and these only when it succeeds,
    within its bounds. *)
Definition route_bounded (a a' : App) (r : result RouteError (option (N * list bytes))) : Prop :=
  match r with
  | Ok (Some (_, written)) =>
      tmux_hierarchy a' = tmux_hierarchy a ∧ pending_tmux_commands a' = pending_tmux_commands a ∧
      N.of_nat (length written) ≤ TMUX_ROUTED_COMMAND_LIMIT_COUNT ∧
      len (mjoin written) ≤ TMUX_ROUTED_COMMAND_LIMIT_BYTES ∧
      (replies_bounded a → replies_bounded a')
  | _ => a' = a
  end.

Lemma total_bytes_sum commands t : total_bytes commands = Some t → len (mjoin (fst <$> commands)) = t.
Proof.
  unfold total_bytes.
  assert (∀ n, foldl (λ (total : option N) (c : bytes * list ExpectedTmuxReply),
      t ← total; checked_add usize_max t (len c.1)) (Some n) commands = Some t →
    n + len (mjoin (fst <$> commands)) = t) as Hgen; [|apply (Hgen 0)].
  induction commands as [|c cs IH]; intros n; cbn [foldl fmap list_fmap].
  - intros [= ->]. cbn. lia.
  - cbn [mbind option_bind]. unfold checked_add at 2. destruct (_ <=? _).
    + intros Ht%IH. change (mjoin (c.1 :: cs.*1)) with (c.1 ++ mjoin cs.*1). rewrite length_app. lia.
    + intros Hn. exfalso. revert Hn. clear. induction cs; [done|]. by cbn.
Qed.

Lemma route_is_bounded_spec commands :
  route_is_bounded commands = true →
  N.of_nat (length (fst <$> commands)) ≤ TMUX_ROUTED_COMMAND_LIMIT_COUNT ∧
  len (mjoin (fst <$> commands)) ≤ TMUX_ROUTED_COMMAND_LIMIT_BYTES.
Proof.
  unfold route_is_bounded. intros [Hc%N.leb_le Ht]%andb_true_iff. rewrite length_fmap. split; [done|].
  destruct (total_bytes commands) as [t|] eqn:Hs; [|done]. apply N.leb_le in Ht.
  by rewrite (total_bytes_sum _ _ Hs).
Qed.

Lemma route_loop_bounded turns connection encoded additions a :
  route_is_bounded encoded = true →
  route_bounded a (route_loop turns connection encoded additions a).1
    (route_loop turns connection encoded additions a).2.
Proof.
  revert connection encoded additions. induction turns as [|turns IH]; intros connection encoded additions Hr; [done|].
  cbn [route_loop]. destruct (position_of _ _) as [index|]; [|done].
  destruct (connection_origin _ _) as [[|p s w q]|]; [| |done].
  - destruct (reply_backlog_exceeded _ _) eqn:Hback; [done|]. cbn.
    destruct (route_is_bounded_spec _ Hr). split_and!; try done. intros Hb. by apply backlog_bounded.
  - destruct (encode_for_parent q encoded) as [out|e]; [|done].
    destruct (route_is_bounded out) eqn:Hout; [|done]. by apply IH.
Qed.

(** A route is all or nothing, and bounded: a command that is not routed
    leaves the connections, the queue and the hierarchy as they were; one that
    is routed is written in at most 4096 pieces of together at most a mebibyte,
    and no connection ever waits for more than 512 replies. *)
Theorem routes_are_all_or_nothing command a :
  let '(a', r) := route_tmux_command command a in
  match r with
  | Ok (Some (_, written)) =>
      tmux_hierarchy a' = tmux_hierarchy a ∧ pending_tmux_commands a' = pending_tmux_commands a ∧
      N.of_nat (length written) ≤ TMUX_ROUTED_COMMAND_LIMIT_COUNT ∧
      len (mjoin written) ≤ TMUX_ROUTED_COMMAND_LIMIT_BYTES ∧
      (Forall (λ c, reply_count c ≤ TMUX_EXPECTED_REPLY_LIMIT) (tmux_connections a) →
       Forall (λ c, reply_count c ≤ TMUX_EXPECTED_REPLY_LIMIT) (tmux_connections a'))
  | _ => a' = a
  end.
Proof.
  unfold route_tmux_command.
  destruct (position_of _ _); [|done].
  destruct (match kind command with Input _ => _ | _ => _ end) as [encoded|e]; [|done].
  destruct (route_is_bounded encoded) eqn:Hr; [|done]. cbn [negb].
  pose proof (route_loop_bounded ROUTE_TURNS (command_connection command) encoded [] a Hr) as Hb.
  by destruct (route_loop _ _ _ _ _) as [a' r].
Qed.

(** C10. What is routed arrives.  When a command is routed, the written bytes,
    read by the server behind the transport and typed by every server on the way
    into the pane of the next, are for the command's own connection exactly its
    bytes (for input: for its pane exactly the input).  And every connection on
    the way then expects exactly one reply for every command line it receives,
    after the replies it already expected; the command's own connection expects
    the replies queued with it; no other connection expects more. *)
Theorem routed_commands_arrive command a a' root written :
  panes_ok (tmux_hierarchy a) → command_ok command →
  route_tmux_command command a = (a', Ok (Some (root, written))) →
  ∃ sts, stations (tmux_hierarchy a) (command_connection command) sts ∧ (fst <$> last sts) = Some root ∧
    delivered (panes_of sts ++ input_panes (kind command)) (mjoin written) = Some (command_bytes command) ∧
    (∀ k panes, (k, panes) ∈ sts → ∃ stream replies c,
       delivered panes (mjoin written) = Some stream ∧
       find_connection k a = Some c ∧ find_connection k a' = Some (extend_replies replies c) ∧
       (k = command_connection command → (∀ pane, kind command ≠ Input pane) → replies = command_replies command) ∧
       (k ≠ command_connection command ∨ (∃ pane, kind command = Input pane) →
          replies = replicate (length (lines stream)) Ignored)) ∧
    ∀ k, k ∉ fst <$> sts → find_connection k a' = find_connection k a.
Proof.
  intros Hpanes Hok. unfold route_tmux_command. destruct (position_of _ _); [|done].
  destruct (encode_command_ok command Hok) as (encoded & -> & Hb & Hdel & Hrep).
  destruct (negb (route_is_bounded encoded)); [done|]. intros Hr.
  destruct (route_loop_ok _ _ _ _ _ _ _ _ Hpanes Hb Hr)
    as (sts & adds & levels & Hsts & Hroot & Hla & Hll & Hhd & Hone & Hadd & _ & ->).
  cbn [app]. exists sts. split_and!; [done|done| | |].
  - destruct (stations_cons _ _ _ Hsts) as (panes & rest & ->). 
    change (panes_of ((command_connection command, panes) :: rest)) with panes.
    destruct levels as [|level levels]; [done|]. injection Hhd as ->. destruct adds as [|add adds]; [done|].
    rewrite delivered_app. destruct (Hadd 0%nat _ _ _ eq_refl eq_refl eq_refl) as (_ & _ & Hd). cbn [snd] in Hd.
    rewrite Hd. exact Hdel.
  - intros k panes [i Hi]%list_elem_of_lookup.
    destruct (lookup_aligned _ _ _ _ Hla Hi) as [add Hai]. destruct (lookup_aligned _ _ _ _ Hll Hi) as [level Hli].
    destruct (Hadd _ _ _ _ Hi Hai Hli) as (Hpos & Hsnd & Hd). cbn [fst snd] in Hpos, Hd.
    destruct (position_of_lookup _ _ _ Hpos) as (c & Hc & _).
    exists (mjoin (fst <$> level)), (all_replies level), c.
    assert (find_connection k a = Some c) as Hfind by (unfold find_connection; by rewrite Hpos).
    split_and!; [done|done| | |].
    + rewrite (find_connection_extend _ _ _ _ Hpos), Hfind. cbn. do 2 f_equal. rewrite <-Hsnd.
      apply replies_at_unique.
      * eapply adds_NoDup; [by eapply stations_NoDup|done|].
        intros j st ad Hj Haj.
        destruct (lookup_aligned _ _ _ _ Hll Hj) as [lv Hlj].
        by destruct (Hadd _ _ _ _ Hj Haj Hlj) as (? & _).
      * destruct add. by eapply list_elem_of_lookup_2.
    + intros -> Hkind. pose proof (station_first _ _ _ _ _ Hsts Hi) as ->.
      destruct levels; [done|]. injection Hhd as ->. injection Hli as ->. rewrite Hrep.
      destruct (kind command) as [| |pane]; [done|done|]. by destruct (Hkind pane).
    + intros Hother. destruct i as [|i].
      * destruct levels; [done|]. injection Hhd as ->. injection Hli as ->.
        destruct (stations_cons _ _ _ Hsts) as (panes' & rest & ->). injection Hi as <- <-.
        destruct Hother as [?|[pane Hpane]]; [done|]. by rewrite Hrep, Hpane.
      * apply one_reply_count. rewrite Forall_forall in Hone. destruct levels as [|lv levels]; [done|].
        cbn in Hone, Hli. eapply (proj1 (Forall_lookup _ _)); [|exact Hli]. by apply Forall_forall.
  - intros k Hk. unfold find_connection.
    change (tmux_connections (a <| tmux_connections := ?x |>)) with x.
    rewrite (position_of_ids k _ (tmux_connections a)) by apply extend_all_ids.
    destruct (position_of k (tmux_connections a)) as [i|] eqn:Hpos; [|done]. cbn.
    rewrite extend_all_lookup, replies_at_nil.
    + destruct (tmux_connections a !! i) as [c|]; [|done]. cbn. by rewrite extend_replies_nil.
    + intros (add & -> & [j Hj]%list_elem_of_lookup)%list_elem_of_fmap.
      destruct (lookup_aligned _ _ _ _ (eq_sym Hla) Hj) as [st Hst].
      destruct (lookup_aligned _ _ _ _ Hll Hst) as [lv Hlj].
      destruct (Hadd _ _ _ _ Hst Hj Hlj) as (Hp & _).
      apply position_of_lookup in Hp as (c1 & Hc1 & Hk1). apply position_of_lookup in Hpos as (c2 & Hc2 & Hk2).
      apply Hk, list_elem_of_fmap. exists st. split; [congruence|]. by eapply list_elem_of_lookup_2.
Qed.

Lemma route_loop_ends turns connection encoded additions a n :
  panes_ok (tmux_hierarchy a) → bytes_ok encoded → rooted (tmux_hierarchy a) connection n → (n < turns)%nat →
  is_ok (route_loop turns connection encoded additions a).2 = true.
Proof.
  intros Hpanes. revert connection encoded additions n.
  induction turns as [|turns IH]; intros connection encoded additions n Hb Hr Hn; [lia|]. cbn [route_loop].
  destruct (position_of _ _) as [index|]; [|done]. unfold connection_origin.
  destruct Hr as [c Hc|c p s w q n Hc Hp]; rewrite Hc.
  - by destruct (reply_backlog_exceeded _ _).
  - destruct (encode_for_parent_ok q encoded) as (out & -> & Hb' & _); [by eapply Hpanes|done|].
    destruct (negb (route_is_bounded out)); [done|]. eapply IH; [done|done|lia].
Qed.

Lemma direct_transport_rooted turns connection m n :
  rooted m connection n → (n < turns)%nat →
  ∃ root, direct_transport_loop turns connection m = Some root ∧ m !! root = Some Direct.
Proof.
  intros Hr. revert turns. induction Hr as [c Hc|c p s w q n Hc Hp IH]; intros [|turns] Hn; try lia;
    cbn; unfold connection_origin; rewrite Hc; [by eexists|]. apply IH. lia.
Qed.

(** Routing ends without an error: in every hierarchy the application can
    reach, every connection has a direct transport, found within the 65 turns of
    the loop, and routing a command is never given up for its nesting depth or
    because it cannot be encoded. *)
Theorem routing_never_fails a command :
  hierarchy_reachable (tmux_hierarchy a) → panes_ok (tmux_hierarchy a) → command_ok command →
  (∃ routed, (route_tmux_command command a).2 = Ok routed) ∧
  ∀ connection, is_Some (tmux_hierarchy a !! connection) →
    ∃ root, direct_transport_for connection a = Some root ∧ tmux_hierarchy a !! root = Some Direct.
Proof.
  intros Hwf%reachable_wf Hpanes Hok. split.
  - unfold route_tmux_command. destruct (position_of _ _) as [i|] eqn:Hi; [|by eexists].
    destruct (encode_command_ok command Hok) as (encoded & -> & Hb & _).
    destruct (negb (route_is_bounded encoded)); [by eexists|].
    destruct (tmux_hierarchy a !! command_connection command) as [o|] eqn:Ho.
    + destruct (wf_rooted _ Hwf (command_connection command)) as (n & Hr & Hn); [by eexists|].
      pose proof (route_loop_ends ROUTE_TURNS (command_connection command) encoded [] a n Hpanes Hb Hr) as He.
      destruct (route_loop ROUTE_TURNS _ _ _ _) as [a' [routed|e]]; [by eexists|].
      unfold ROUTE_TURNS, MAX_CONNECTION_DEPTH in *. discriminate He. lia.
    + unfold ROUTE_TURNS. cbn [route_loop]. rewrite Hi. unfold connection_origin. rewrite Ho. by eexists.
  - intros connection Hc. destruct (wf_rooted _ Hwf connection Hc) as (n & Hr & Hn).
    apply (direct_transport_rooted _ _ _ n); [done|]. unfold ROUTE_TURNS, MAX_CONNECTION_DEPTH in *. lia.
Qed.

(** * The order of the queue *)

Definition set_pending (q : list PendingTmuxCommand) (a : App) : App := a <| pending_tmux_commands := q |>.

Lemma route_loop_set_pending turns connection encoded additions q a :
  route_loop turns connection encoded additions (set_pending q a) =
    let '(a', r) := route_loop turns connection encoded additions a in (set_pending q a', r).
Proof.
  revert connection encoded additions. induction turns as [|turns IH]; intros; [done|].
  cbn [route_loop]. change (tmux_connections (set_pending q a)) with (tmux_connections a).
  change (tmux_hierarchy (set_pending q a)) with (tmux_hierarchy a).
  destruct (position_of _ _); [|done]. destruct (connection_origin _ _) as [[|p s w r]|]; [| |done].
  - by destruct (reply_backlog_exceeded _ _).
  - destruct (encode_for_parent _ _); [|done]. destruct (negb _); [done|]. apply IH.
Qed.

Lemma route_set_pending command q a :
  route_tmux_command command (set_pending q a) =
    let '(a', r) := route_tmux_command command a in (set_pending q a', r).
Proof.
  unfold route_tmux_command. change (tmux_connections (set_pending q a)) with (tmux_connections a).
  destruct (position_of _ _); [|done].
  destruct (match kind command with Input _ => _ | _ => _ end) as [encoded|e]; [|done].
  destruct (negb _); [done|]. apply route_loop_set_pending.
Qed.

Lemma update_connection_set_pending k f q a :
  update_connection k f (set_pending q a) = set_pending q (update_connection k f a).
Proof.
  unfold update_connection. change (tmux_connections (set_pending q a)) with (tmux_connections a).
  by destruct (position_of _ _).
Qed.

Lemma update_connection_hierarchy k f a : tmux_hierarchy (update_connection k f a) = tmux_hierarchy a.
Proof. unfold update_connection. by destruct (position_of _ _). Qed.

Lemma route_hierarchy command a : tmux_hierarchy (route_tmux_command command a).1 = tmux_hierarchy a.
Proof.
  unfold route_tmux_command. destruct (position_of _ _); [|done].
  destruct (match kind command with Input _ => _ | _ => _ end) as [encoded|e]; [|done].
  destruct (route_is_bounded encoded) eqn:Hr; [|done]. cbn [negb].
  pose proof (route_loop_bounded ROUTE_TURNS (command_connection command) encoded [] a Hr) as Hb.
  unfold route_bounded in Hb. destruct (route_loop _ _ _ _ _) as [a' [[[]|]|]]; cbn in *; by destruct_and? Hb; subst.
Qed.

Section order.
Context {W E : Type} `{DynWrite W E}.

(** Reference: commands routed and written one after the other, without a queue. *)
Fixpoint write_commands (now_ms : N) (commands : list PendingTmuxCommand) (wrote : bool) (a : App) (w : W)
    : App * W * result (DrainError E) bool :=
  match commands with
  | [] => (a, w, Ok wrote)
  | command :: commands =>
      let '(a, routed) := route_tmux_command command a in
      match routed with
      | Err e => (a, w, Err (Route e))
      | Ok None =>
          write_commands now_ms commands wrote
            (recover_discarded_tmux_flow_command now_ms (command_connection command) (command_replies command) a) w
      | Ok (Some (_, encoded)) =>
          let a := mark_tmux_flow_commands_in_flight (command_connection command) (command_replies command) a in
          let '(w, written) := write_each encoded w in
          match written with
          | Err e => (a, w, Err (Io e))
          | Ok _ => write_commands now_ms commands (wrote || negb (bool_decide (encoded = []))) a w
          end
      end
  end.

Definition owned (transport : N) (m : ConnectionHierarchy) (c : PendingTmuxCommand) : bool :=
  bool_decide (direct_transport_loop ROUTE_TURNS (command_connection c) m = Some transport).

Lemma drain_loop_order todo kept now_ms transport wrote a w :
  let '(a1, w1, r1) := drain_loop (length todo) now_ms transport wrote (set_pending (todo ++ kept) a) w in
  let '(a2, w2, r2) := write_commands now_ms (List.filter (owned transport (tmux_hierarchy a)) todo) wrote a w in
  w1 = w2 ∧ r1 = r2 ∧ tmux_connections a1 = tmux_connections a2 ∧ tmux_hierarchy a1 = tmux_hierarchy a ∧
  (is_ok r1 = true → a1 = set_pending (kept ++ List.filter (λ c, negb (owned transport (tmux_hierarchy a) c)) todo) a2).
Proof.
  revert kept wrote a w. induction todo as [|c todo IH]; intros kept wrote a w.
  - cbn. by rewrite app_nil_r.
  - cbn [length drain_loop app]. change (pending_tmux_commands (set_pending ?q a)) with q. cbv iota beta.
    change ((set_pending (c :: todo ++ kept) a) <| pending_tmux_commands := todo ++ kept |>)
      with (set_pending (todo ++ kept) a).
    change (direct_transport_for (command_connection c) (set_pending (todo ++ kept) a))
      with (direct_transport_loop ROUTE_TURNS (command_connection c) (tmux_hierarchy a)).
    cbn [List.filter]. change (bool_decide (direct_transport_loop ROUTE_TURNS (command_connection c) (tmux_hierarchy a) =
      Some transport)) with (owned transport (tmux_hierarchy a) c).
    destruct (owned transport (tmux_hierarchy a) c); cbn [negb].
    2: { change (push_command c (set_pending (todo ++ kept) a)) with (set_pending ((todo ++ kept) ++ [c]) a).
         rewrite <-(assoc_L (++)). specialize (IH (kept ++ [c]) wrote a w).
         by rewrite <-(assoc_L (++) kept) in IH. }
    rewrite route_set_pending. cbn [write_commands].
    pose proof (route_hierarchy c a) as Hh. destruct (route_tmux_command c a) as [a' r]. cbn [fst] in Hh.
    rewrite <-Hh. destruct r as [[[root encoded]|]|e]; [| |by split_and!].
    + unfold mark_tmux_flow_commands_in_flight. rewrite update_connection_set_pending.
      destruct (write_each encoded w) as [w' [[]|e]].
      * rewrite <-(update_connection_hierarchy (command_connection c)
          (λ c0, foldl (λ c r, mark_in_flight r c) c0 (command_replies c)) a'). apply IH.
      * split_and!; try done. change (tmux_hierarchy (set_pending ?q ?x)) with (tmux_hierarchy x).
        apply update_connection_hierarchy.
    + unfold recover_discarded_tmux_flow_command. rewrite update_connection_set_pending.
      pose proof (update_connection_hierarchy (command_connection c)
        (λ c0, foldl (recover_pane now_ms (discarded_actions (command_replies c))) c0
                 (btree_keys (discarded_actions (command_replies c)))) a') as Hu.
      rewrite <-Hu. apply IH.
Qed.

(** C11. Draining a transport writes, in the order they were queued, exactly the
    commands of the connections behind that transport: the bytes written, the
    outcome and the connections are those of routing and writing these commands
    one after the other, and after success the commands of other transports are
    still queued, in their order, and no others. *)
Theorem draining_is_first_in_first_out now_ms transport a w :
  let '(a1, w1, r1) := drain_loop (length (pending_tmux_commands a)) now_ms transport false a w in
  let mine := owned transport (tmux_hierarchy a) in
  let '(a2, w2, r2) := write_commands now_ms (List.filter mine (pending_tmux_commands a)) false a w in
  w1 = w2 ∧ r1 = r2 ∧ tmux_connections a1 = tmux_connections a2 ∧
  (is_ok r1 = true →
     pending_tmux_commands a1 = List.filter (λ c, negb (mine c)) (pending_tmux_commands a)).
Proof.
  pose proof (drain_loop_order (pending_tmux_commands a) [] now_ms transport false a w) as Hd.
  rewrite app_nil_r in Hd. replace (set_pending (pending_tmux_commands a) a) with a in Hd by (by destruct a).
  destruct (drain_loop _ _ _ _ _ _) as [[a1 w1] r1]. cbv zeta.
  destruct (write_commands _ _ _ _ _) as [[a2 w2] r2].
  destruct Hd as (? & ? & ? & _ & Hp). split_and!; try done. intros Hok. by rewrite (Hp Hok).
Qed.
End order.

(** * Commands of bindings and prompts *)

Lemma lines_safe c : Forall (λ b, is_unsafe b = false) c → lines (c ++ [LF]) = [c ++ [LF]].
Proof.
  intros Hc. rewrite <-(app_nil_r (c ++ [LF])) at 1. apply (lines_join [c ++ [LF]]). constructor; [|done].
  exists c. split; [done|]. eapply Forall_impl; [exact Hc|]. intros b Hb. unfold is_unsafe in Hb.
  apply orb_false_iff in Hb as [_ Hb]. by rewrite N.eqb_sym.
Qed.

(** A command without surrounding blanks, such as any command of a binding,
    is either rejected, and nothing changes, or queued as exactly one command
    line with exactly one expected reply. *)
Theorem trimmed_commands_are_one_line connection command show_success a :
  trim command = command →
  let '(a', r) := queue_tmux_command connection command show_success a in
  match r with
  | Err UnsafeCommand => a' = a ∧ (command = [] ∨ Exists (λ b, is_unsafe b = true) command)
  | Ok _ => ∃ c, a' = push_command c a ∧ command_connection c = connection ∧
              lines (command_bytes c) = [command ++ [LF]] ∧ length (command_replies c) = 1%nat
  end.
Proof.
  intros Htrim. unfold queue_tmux_command. pose proof (classify_ok command) as Hc. rewrite Htrim in Hc.
  destruct (bool_decide (command = []) || existsb is_unsafe command) eqn:Hu.
  - rewrite Hc. split; [done|]. apply orb_true_iff in Hu as [Hu%bool_decide_eq_true|Hu]; [by left|right].
    apply existsb_exists in Hu as (b & Hin & Hb). apply Exists_exists. exists b. split; [|done].
    by apply list_elem_of_In.
  - destruct Hc as (act & -> & _). eexists. split_and!; [done|done| |done]. cbn.
    apply lines_safe, existsb_false. by apply orb_false_iff in Hu as [_ Hu].
Qed.

(** The command that is checked is the trimmed one, but the command that is sent
    is not: with a line feed at its end (which a paste into the command prompt
    can bring) an accepted command becomes two lines, the second of them empty,
    with one expected reply. *)
Theorem trailing_line_feed_is_sent a :
  ∃ c, queue_tmux_prompt_command 1 (bs "kill-pane" ++ [LF]) a = (push_command c a, Ok ()) ∧
    lines (command_bytes c) = [bs "kill-pane" ++ [LF]; [LF]] ∧ length (command_replies c) = 1%nat.
Proof. eexists. split; [|split]; reflexivity. Qed.

(** * Witnesses *)

Definition example_routes : ConnectionHierarchy :=
  (insert_connection 2 (Pane 1 0 0 7) (insert_connection 1 Direct ∅).1).1.

Definition example_connection (k : N) : TmuxConnectionState :=
  {| id := k; topology := topology_new k; expected_replies := []; pane_flow := ∅; pending_pane_captures := ∅ |}.

Definition example_app : App :=
  {| tmux_hierarchy := example_routes; tmux_connections := [example_connection 1; example_connection 2];
     pending_tmux_commands := [] |}.

Definition example_command : PendingTmuxCommand := ordinary 2 (bs "ls" ++ [LF]) [Inventory].

Lemma example_routes_lookup c p s w q :
  example_routes !! c = Some (Pane p s w q) → c = 2 ∧ p = 1 ∧ q = 7.
Proof.
  assert (example_routes = <[2 := Pane 1 0 0 7]> (<[1 := Direct]> ∅)) as -> by (by vm_compute).
  rewrite !lookup_insert. repeat case_decide; intros; simplify_eq; done.
Qed.

Lemma example_panes_ok : panes_ok example_routes.
Proof. intros c p s w q (_ & _ & ->)%example_routes_lookup. unfold u64_max. lia. Qed.

Lemma example_command_ok : command_ok example_command.
Proof. split; [vm_compute; repeat constructor|done]. Qed.

Definition example_written : list bytes :=
  [bs "send-keys -H -t %7 6c 73 0a" ++ [LF]].

Lemma example_route :
  route_tmux_command example_command example_app =
    ({| tmux_hierarchy := example_routes;
        tmux_connections := [extend_replies [Ignored] (example_connection 1);
                             extend_replies [Inventory] (example_connection 2)];
        pending_tmux_commands := [] |}, Ok (Some (1, example_written))).
Proof. vm_compute. reflexivity. Qed.

Lemma routed_commands_arrive_witness :
  delivered [7] (mjoin example_written) = Some (bs "ls" ++ [LF]).
Proof.
  destruct (routed_commands_arrive example_command example_app _ 1 example_written example_panes_ok
    example_command_ok example_route) as (sts & Hsts & _ & Hd & _).
  assert (panes_of sts = [7]) as Hp.
  { inversion Hsts as [c Hc|c p s w q k panes rest Hc Hrest Heq]; subst; [discriminate Hc|].
    apply example_routes_lookup in Hc as (_ & -> & ->).
    inversion Hrest as [c Hc|c p' s' w' q' k' panes' rest' Hc Hrest' Heq]; subst; [done|discriminate Hc]. }
  rewrite Hp in Hd. exact Hd.
Defined.

Lemma routing_never_fails_witness :
  ∃ root, direct_transport_for 2 example_app = Some root ∧ example_routes !! root = Some Direct.
Proof.
  refine (proj2 (routing_never_fails example_app example_command _ example_panes_ok example_command_ok) 2 _).
  - eapply rtc_l; [apply (step_insert _ 1 Direct)|]. eapply rtc_l; [apply (step_insert _ 2 (Pane 1 0 0 7))|].
    apply rtc_refl.
  - eexists. vm_compute. reflexivity.
Defined.

Lemma trimmed_commands_are_one_line_witness :
  ∃ c, (queue_tmux_command 1 (bs "kill-pane") false example_app).1 = push_command c example_app ∧
       lines (command_bytes c) = [bs "kill-pane" ++ [LF]].
Proof.
  pose proof (trimmed_commands_are_one_line 1 (bs "kill-pane") false example_app eq_refl) as H.
  change (queue_tmux_command 1 (bs "kill-pane") false example_app) with
    (push_command (ordinary 1 (bs "kill-pane" ++ [LF]) [UserCommand (bs "kill-pane") false]) example_app,
     @Ok PrefixError unit ()) in *.
  destruct H as (c & Hc & _ & Hl & _). exists c. split; [exact Hc|exact Hl].
Defined.
