(* ===== verification/RowRanges.v ===== *)
(** Ranges of screen rows: the damage of an update and the rows that changed
    ([normalize_row_ranges] and [merge_row_ranges] of src/src/terminal.rs,
    [append_dirty_row] and the normalisation of src/crates/lector-ghostty).

    A [RangeInclusive<u16>] is the pair of its first and last row.  The main
    fact is that a normalised list is the only one of its set of rows, so every
    way of merging gives the same list. *)

From S2P Require Import Prelude.
Local Open Scope N_scope.

Abbreviation range := (N * N)%type (only parsing).

(** * Definitions *)

(** [range.start() <= &previous.end().saturating_add(1)]. *)
Definition touches (previous r : range) : bool := r.1 <=? sat_add u16_max previous.2 1.
Definition extend (previous r : range) : range := (previous.1, N.max previous.2 r.2).

(** [ranges.windows(2).all(..)]. *)
Fixpoint row_ranges_are_normalized (ranges : list range) : bool :=
  match ranges with
  | a :: (b :: _) as rest => (sat_add u16_max a.2 1 <? b.1) && row_ranges_are_normalized rest
  | _ => true
  end.

Definition append_sorted_row_range (target : list range) (r : range) : list range :=
  match last target with
  | Some previous =>
      if touches previous r then <[pred (length target) := extend previous r]> target else target ++ [r]
  | None => target ++ [r]
  end.

(** The loop on [read] of [coalesce_sorted_row_ranges], in place: the ranges
    below [write] are the result so far. *)
Definition coalesce_step (st : list range * nat) (read : nat) : list range * nat :=
  let '(ranges, write) := st in
  match ranges !! read with
  | None => st
  | Some r =>
      match write with
      | S w =>
          match ranges !! w with
          | Some previous =>
              if touches previous r then (<[w := extend previous r]> ranges, write)
              else (if bool_decide (write = read) then ranges else <[write := r]> ranges, S write)
          | None => st
          end
      | O => (if bool_decide (write = read) then ranges else <[write := r]> ranges, S write)
      end
  end.
Definition coalesce_sorted_row_ranges (ranges : list range) : list range :=
  let '(ranges, write) := fold_left coalesce_step (seq 0 (length ranges)) (ranges, 0%nat) in
  take write ranges.

Definition start_le (a b : range) : Prop := a.1 ≤ b.1.
#[export] Instance start_le_dec a b : Decision (start_le a b).
Proof. unfold start_le. apply _. Defined.

(** [sort_unstable_by_key] on the first rows. *)
Definition normalize_row_ranges (ranges : list range) : list range :=
  coalesce_sorted_row_ranges (merge_sort start_le ranges).

Definition start_at (l : list range) (i : nat) : N := match l !! i with Some r => r.1 | None => 0 end.

(** The backwards merge; [write] is [left + right] at every turn, so the loop
    ends with it. *)
Fixpoint merge_backwards (write left right : nat) (target source : list range) : list range :=
  match write with
  | O => target
  | S write =>
      if bool_decide (right = 0%nat) ||
         (bool_decide (0 < left)%nat && (start_at source (right - 1) <? start_at target (left - 1)))
      then
        let left := (left - 1)%nat in
        merge_backwards write left right
          (if bool_decide (write = left) then target
           else match target !! left with Some r => <[write := r]> target | None => target end) source
      else
        let right := (right - 1)%nat in
        merge_backwards write left right
          (match source !! right with Some r => <[write := r]> target | None => target end) source
  end.

Definition normalized_or_normalize (ranges : list range) : list range :=
  if row_ranges_are_normalized ranges then ranges else normalize_row_ranges ranges.

Definition merge_row_ranges (target source : list range) : list range :=
  let target := normalized_or_normalize target in
  let source := normalized_or_normalize source in
  match head source, last target with
  | None, _ => target
  | _, None => source
  | Some first, Some final =>
      if final.1 <=? first.1 then fold_left append_sorted_row_range source target
      else
        let left := length target in
        let right := length source in
        let target := target ++ replicate right (0, 0) in
        coalesce_sorted_row_ranges (merge_backwards (left + right) left right target source)
  end.

(** The engine's side: the rows of one refresh, in increasing order, and the
    ranges of several refreshes. *)
Definition append_dirty_row (ranges : list range) (row : N) : list range :=
  match last ranges with
  | Some previous =>
      if row <=? sat_add u16_max previous.2 1
      then <[pred (length ranges) := (previous.1, N.max row previous.2)]> ranges
      else ranges ++ [(row, row)]
  | None => ranges ++ [(row, row)]
  end.
Definition engine_normalize_row_ranges (ranges : list range) : list range :=
  fold_left append_sorted_row_range (merge_sort start_le ranges) [].

(** [TerminalDamage] and [RenderDamageSnapshot]. *)
Inductive TerminalDamage := DamageNone | DamageRows (rows : list range) | DamageFull.
#[export] Instance TerminalDamage_eq_dec : EqDecision TerminalDamage.
Proof. solve_decision. Defined.

Definition is_dirty (d : TerminalDamage) : bool := negb (bool_decide (d = DamageNone)).

Definition merge_damage (d1 d2 : TerminalDamage) : TerminalDamage :=
  match d1, d2 with
  | DamageFull, _ | _, DamageFull => DamageFull
  | DamageNone, damage | damage, DamageNone => damage
  | DamageRows rows1, DamageRows rows2 => DamageRows (merge_row_ranges rows1 rows2)
  end.

Definition engine_merge_damage (d1 d2 : TerminalDamage) : TerminalDamage :=
  match d1, d2 with
  | DamageFull, _ | _, DamageFull => DamageFull
  | DamageNone, damage | damage, DamageNone => damage
  | DamageRows rows1, DamageRows rows2 => DamageRows (engine_normalize_row_ranges (rows1 ++ rows2))
  end.

(** [row.try_into().unwrap_or(u16::MAX)]. *)
Definition row_index (row : N) : N := N.min u16_max row.
Definition damage_changed_rows (d : TerminalDamage) (row_count : N) : list range :=
  match d with
  | DamageNone => []
  | DamageRows rows => rows
  | DamageFull => if 0 <? row_count then [(0, row_index (row_count - 1))] else []
  end.
Definition full_row_range (rows : N) : list range := if 0 <? rows then [(0, rows - 1)] else [].

Example merge_in_place :
  merge_row_ranges [(1, 2); (9, 9)] [(0, 0); (4, 4); (8, 8)] = [(0, 2); (4, 4); (8, 9)].
Proof. reflexivity. Qed.
Example merge_appends : merge_row_ranges [(1, 2); (9, 9)] [(9, 10); (12, 12)] = [(1, 2); (9, 10); (12, 12)].
Proof. reflexivity. Qed.

(** * Sets of rows *)

Definition range_ok (r : range) : Prop := r.1 ≤ r.2 ∧ r.2 ≤ u16_max.
Definition row_in (row : N) (r : range) : Prop := r.1 ≤ row ≤ r.2.
Definition covered (row : N) (l : list range) : Prop := Exists (row_in row) l.
(** At least one row lies between two consecutive ranges. *)
Definition gap (a b : range) : Prop := a.2 + 1 < b.1.

Lemma covered_app row l1 l2 : covered row (l1 ++ l2) ↔ covered row l1 ∨ covered row l2.
Proof. apply Exists_app. Qed.
Lemma covered_cons row r l : covered row (r :: l) ↔ row_in row r ∨ covered row l.
Proof. apply Exists_cons. Qed.
Lemma covered_nil row : covered row [] ↔ False.
Proof. apply Exists_nil. Qed.
Lemma covered_perm row l1 l2 : l1 ≡ₚ l2 → covered row l1 ↔ covered row l2.
Proof. intros H. unfold covered. by rewrite H. Qed.

Lemma touches_spec p r : range_ok r → touches p r = true ↔ ¬ gap p r.
Proof. unfold touches, gap, sat_add, range_ok. rewrite N.leb_le. lia. Qed.

Lemma append_snoc l p r :
  append_sorted_row_range (l ++ [p]) r =
    if touches p r then l ++ [extend p r] else l ++ [p; r].
Proof.
  unfold append_sorted_row_range. rewrite last_snoc. destruct (touches p r).
  - rewrite length_app. cbn. rewrite Nat.add_1_r. cbn.
    by rewrite insert_app_r_alt, Nat.sub_diag by lia.
  - by rewrite <-app_assoc.
Qed.

Lemma row_ranges_are_normalized_spec l :
  Forall range_ok l → row_ranges_are_normalized l = true ↔ Sorted gap l.
Proof.
  induction 1 as [|a l Ha Hl IH]; [by split|].
  destruct Hl as [|b l Hb Hl].
  { split; [repeat constructor|done]. }
  change (row_ranges_are_normalized (a :: b :: l))
    with ((sat_add u16_max a.2 1 <? b.1) && row_ranges_are_normalized (b :: l)).
  rewrite andb_true_iff, IH, N.ltb_lt. unfold range_ok, sat_add in *. split.
  - intros [H1 H2]. constructor; [done|]. constructor. unfold gap. lia.
  - intros H. inv H. match goal with H : HdRel _ _ _ |- _ => inv H end. unfold gap in *. split; [lia|done].
Qed.

Lemma Sorted_snoc (R : range → range → Prop) l p r : Sorted R (l ++ [p]) → R p r → Sorted R (l ++ [p; r]).
Proof.
  induction l as [|a l IH]; cbn; intros H HR.
  - repeat constructor. done.
  - inv H. constructor; [auto|]. destruct l; cbn in *; match goal with H : HdRel _ _ _ |- _ => inv H end;
      by constructor.
Qed.

Lemma Sorted_gap_extend l p q :
  Sorted gap (l ++ [p]) → p.1 = q.1 → Sorted gap (l ++ [q]).
Proof.
  induction l as [|a l IH]; cbn; intros H Hq; [repeat constructor|].
  inv H. constructor; [auto|].
  destruct l; cbn in *; match goal with H : HdRel _ _ _ |- _ => inv H end; constructor; [|done].
  unfold gap in *. by rewrite <-Hq.
Qed.

(** Appending ranges with increasing first rows. *)
Lemma append_all_spec source target :
  Sorted gap target → Forall range_ok target → Forall range_ok source → Sorted start_le source →
  (∀ p r, last target = Some p → head source = Some r → p.1 ≤ r.1) →
  let result := fold_left append_sorted_row_range source target in
  Sorted gap result ∧ Forall range_ok result ∧
  ∀ row, covered row result ↔ covered row target ∨ covered row source.
Proof.
  cbv zeta. revert target. induction source as [|r source IH]; intros target Hg Ht Hs Hsorted Hhd.
  { cbn. split_and!; [done..|]. intros row. rewrite covered_nil. tauto. }
  inv Hs. inv Hsorted. cbn [fold_left].
  assert (∀ r' : range, head source = Some r' → r.1 ≤ r'.1) as Hnext.
  { intros r' Hr'. destruct source; [done|]. injection Hr' as ->.
    match goal with H : HdRel _ _ _ |- _ => by inv H end. }
  destruct target as [|p target _] using rev_ind.
  { change (append_sorted_row_range [] r) with [r].
    edestruct (IH [r]) as (? & ? & Hc); [repeat constructor|by constructor|done|done| |].
    { intros p r' [= <-] Hr'. by apply Hnext. }
    split_and!; [done..|]. intros row. rewrite Hc, !covered_cons, covered_nil. tauto. }
  specialize (Hhd p r). rewrite last_snoc in Hhd. specialize (Hhd eq_refl eq_refl).
  apply Forall_app in Ht as [Ht Hp]. inv Hp. rewrite append_snoc.
  destruct (touches p r) eqn:E.
  - edestruct (IH (target ++ [extend p r])) as (? & ? & Hc); [by eapply Sorted_gap_extend|..| |].
    + apply Forall_app; split; [done|]. constructor; [|done]. unfold range_ok in *; cbn. lia.
    + done.
    + done.
    + intros q r'. rewrite last_snoc. intros [= <-] Hr'. cbn.
      transitivity r.1; [done|]. by apply Hnext.
    + split_and!; [done..|]. intros row. rewrite Hc, !covered_app, !covered_cons, !covered_nil.
      unfold row_in, extend, touches, sat_add, range_ok in *. cbn. apply N.leb_le in E.
      assert (p.1 ≤ row ≤ N.max p.2 r.2 ↔ p.1 ≤ row ≤ p.2 ∨ r.1 ≤ row ≤ r.2) by lia. tauto.
  - edestruct (IH (target ++ [p; r])) as (? & ? & Hc).
    + apply Sorted_snoc; [done|].
      unfold touches, gap, sat_add, range_ok in *. apply N.leb_gt in E. lia.
    + apply Forall_app; split; [done|]. constructor; [done|]. by constructor.
    + done.
    + done.
    + intros q r'. replace (target ++ [p; r]) with ((target ++ [p]) ++ [r]) by by rewrite <-app_assoc.
      rewrite last_snoc. intros [= <-] Hr'. by apply Hnext.
    + split_and!; [done..|]. intros row. rewrite Hc, !covered_app, !covered_cons, !covered_nil. tauto.
Qed.

(** * The loops *)

Lemma coalesce_is_append ranges :
  coalesce_sorted_row_ranges ranges = fold_left append_sorted_row_range ranges [].
Proof.
  unfold coalesce_sorted_row_ranges.
  assert (∀ n, (n ≤ length ranges)%nat →
    let '(ranges', write) := fold_left coalesce_step (seq 0 n) (ranges, 0%nat) in
    take write ranges' = fold_left append_sorted_row_range (take n ranges) [] ∧
    drop n ranges' = drop n ranges ∧ length ranges' = length ranges ∧ (write ≤ n)%nat) as H.
  { induction n as [|n IH]; intros Hn; [cbn; split_and!; done|].
    specialize (IH ltac:(lia)). rewrite seq_S, fold_left_app. cbn [fold_left Nat.add].
    destruct (fold_left coalesce_step (seq 0 n) (ranges, 0%nat)) as [ranges' write].
    destruct IH as (Htake & Hdrop & Hlen & Hw).
    destruct (lookup_lt_is_Some_2 ranges n ltac:(lia)) as [r Hr].
    assert (ranges' !! n = Some r) as Hr'.
    { pose proof (lookup_drop ranges' n 0) as H1. pose proof (lookup_drop ranges n 0) as H2.
      rewrite Nat.add_0_r in H1, H2. by rewrite <-H1, Hdrop, H2. }
    assert (drop (S n) ranges' = drop (S n) ranges) as Hdrop1.
    { replace (S n) with (n + 1)%nat by lia. by rewrite <-!drop_drop, Hdrop. }
    assert (∀ x w, (w ≤ n)%nat → drop (S n) (<[w := x]> ranges') = drop (S n) ranges) as Hdrop'.
    { intros x w Hw'. rewrite drop_insert_lt by lia.
      done. }
    rewrite (take_S_r ranges n r) by done. rewrite fold_left_app, <-Htake. cbn [fold_left].
    unfold coalesce_step. rewrite Hr'.
    assert (∀ l, take (S write) (if bool_decide (write = n) then ranges' else <[write := r]> ranges')
              = take write ranges' ++ [r] ∧
            drop (S n) (if bool_decide (write = n) then ranges' else <[write := r]> ranges') = drop (S n) ranges ∧
            length (if bool_decide (write = n) then ranges' else <[write := r]> ranges') = length ranges ∧
            (S write ≤ S n)%nat ∧ l = l :> list range) as Hpush.
    { intros l. destruct (decide (write = n)) as [->|Hne].
      - rewrite bool_decide_eq_true_2 by done. split_and!; try done. by apply take_S_r.
      - rewrite bool_decide_eq_false_2 by done. split_and!; [|by apply Hdrop'|by rewrite length_insert|lia|done].
        rewrite (take_S_r _ write r); [by rewrite take_insert_ge by lia|].
        apply list_lookup_insert_eq. lia. }
    specialize (Hpush []) as (? & ? & ? & ? & _).
    destruct write as [|w]; [by split_and!|].
    destruct (lookup_lt_is_Some_2 ranges' w ltac:(lia)) as [p Hp]. rewrite Hp.
    rewrite (take_S_r ranges' w p), append_snoc by done. destruct (touches p r).
    - split_and!; [|apply Hdrop'; lia|by rewrite length_insert|lia].
      rewrite (take_S_r _ w (extend p r)); [by rewrite take_insert_ge by lia|].
      apply list_lookup_insert_eq. lia.
    - split_and!; try done. etransitivity; [eassumption|]. rewrite (take_S_r ranges' w p) by done.
      by rewrite <-app_assoc. }
  specialize (H (length ranges) ltac:(lia)).
  destruct (fold_left coalesce_step _ _) as [ranges' write]. destruct H as (-> & _).
  by rewrite firstn_all.
Qed.

Lemma start_at_last (l : list range) n r : l !! n = Some r → start_at l n = r.1.
Proof. unfold start_at. by intros ->. Qed.

Lemma sorted_last_max (l : list range) r x : StronglySorted start_le (l ++ [r]) → x ∈ l → start_le x r.
Proof. intros Hs Hx. eapply StronglySorted_app_1_elem_of; [done..|]. by apply list_elem_of_singleton. Qed.

#[export] Instance start_le_trans : Transitive start_le.
Proof. intros x y z. unfold start_le. lia. Qed.
#[export] Instance start_le_total : Total start_le.
Proof. intros x y. unfold start_le. lia. Qed.

Lemma StronglySorted_snoc (l : list range) x :
  StronglySorted start_le l → Forall (λ y, start_le y x) l → StronglySorted start_le (l ++ [x]).
Proof.
  intros Hs Hx. apply StronglySorted_app_2; [|done|repeat constructor].
  intros a b Ha ->%list_elem_of_singleton. by eapply Forall_forall in Hx.
Qed.

Lemma merge_backwards_spec left right target source :
  (left + right ≤ length target)%nat → (right ≤ length source)%nat →
  StronglySorted start_le (take left target) → StronglySorted start_le (take right source) →
  ∃ m, merge_backwards (left + right) left right target source = m ++ drop (left + right) target ∧
       m ≡ₚ take left target ++ take right source ∧ StronglySorted start_le m.
Proof.
  remember (left + right)%nat as write eqn:Hw. revert left right target Hw.
  induction write as [|write IH]; intros left right target Hw Ht Hs Hsl Hsr.
  { exists []. assert (left = 0%nat ∧ right = 0%nat) as [-> ->] by lia. cbn. by rewrite drop_0. }
  cbn [merge_backwards].
  destruct (_ || _) eqn:Etake.
  - assert (0 < left)%nat as Hl.
    { apply orb_true_iff in Etake as [E|E]; [apply bool_decide_eq_true in E; lia|].
      apply andb_true_iff in E as [E _]. by apply bool_decide_eq_true in E. }
    destruct left as [|left]; [lia|]. rewrite Nat.sub_succ, Nat.sub_0_r in *.
    destruct (lookup_lt_is_Some_2 target left ltac:(lia)) as [r Hr]. rewrite Hr.
    rewrite (take_S_r target left r) in * by done.
    set (target' := if bool_decide (write = left) then target else <[write := r]> target).
    assert (length target' = length target ∧ take left target' = take left target ∧
            drop write target' = r :: drop (S write) target) as (Hlen & Htk & Hdr).
    { unfold target'. destruct (decide (write = left)) as [->|Hne].
      - rewrite bool_decide_eq_true_2 by done. split_and!; try done. by apply drop_S.
      - rewrite bool_decide_eq_false_2 by done. rewrite length_insert, take_insert_ge by lia.
        split_and!; try done. rewrite (drop_S _ r) by (apply list_lookup_insert_eq; lia).
        by rewrite drop_insert_lt by lia. }
    destruct (IH left right target') as (m & -> & Hp & Hsm); [lia|lia|lia| |done|].
    { rewrite Htk. by eapply StronglySorted_app_1_l. }
    exists (m ++ [r]). rewrite Hdr, Htk, <-app_assoc in *. split_and!; [done|..].
    + rewrite Hp. rewrite <-!app_assoc. apply Permutation_app_head.
      apply Permutation_app_comm.
    + apply StronglySorted_snoc; [done|]. rewrite Hp. apply Forall_app. split.
      * apply Forall_forall. intros x Hx. by eapply sorted_last_max.
      * apply orb_true_iff in Etake as [E|E].
        { apply bool_decide_eq_true in E as ->. constructor. }
        apply andb_true_iff in E as [_ E]. apply N.ltb_lt in E.
        destruct right as [|right]; [constructor|]. rewrite Nat.sub_succ, Nat.sub_0_r in E.
        destruct (lookup_lt_is_Some_2 source right ltac:(lia)) as [q Hq].
        rewrite (start_at_last _ _ _ Hq), (start_at_last _ _ _ Hr) in E.
        rewrite (take_S_r source right q) in * by done. apply Forall_forall. intros x Hx.
        assert (start_le x q) as Hxq.
        { apply elem_of_app in Hx as [Hx|Hx]; [by eapply sorted_last_max|].
          apply list_elem_of_singleton in Hx as ->. unfold start_le. lia. }
        unfold start_le in *. lia.
  - apply orb_false_iff in Etake as [E1 E2]. apply bool_decide_eq_false in E1.
    destruct right as [|right]; [lia|]. rewrite Nat.sub_succ, Nat.sub_0_r in *.
    destruct (lookup_lt_is_Some_2 source right ltac:(lia)) as [q Hq]. rewrite Hq.
    rewrite (take_S_r source right q) in * by done.
    destruct (IH left right (<[write := q]> target)) as (m & -> & Hp & Hsm).
    + lia.
    + rewrite length_insert. lia.
    + lia.
    + rewrite take_insert_ge by lia. done.
    + by eapply StronglySorted_app_1_l.
    + rewrite take_insert_ge in Hp by lia.
      rewrite (drop_S _ q) by (apply list_lookup_insert_eq; lia). rewrite drop_insert_lt by lia.
      exists (m ++ [q]). rewrite <-app_assoc. split_and!; [done|..].
      * by rewrite Hp, <-app_assoc.
      * apply StronglySorted_snoc; [done|]. rewrite Hp. apply Forall_app. split.
        -- destruct left as [|left]; [constructor|]. rewrite Nat.sub_succ, Nat.sub_0_r in E2.
           rewrite bool_decide_eq_true_2 in E2 by lia. cbn in E2. apply N.ltb_ge in E2.
           destruct (lookup_lt_is_Some_2 target left ltac:(lia)) as [p Hp'].
           rewrite (start_at_last _ _ _ Hq), (start_at_last _ _ _ Hp') in E2.
           rewrite (take_S_r target left p) in * by done. apply Forall_forall. intros x Hx.
           assert (start_le x p) as Hxp.
           { apply elem_of_app in Hx as [Hx|Hx]; [by eapply sorted_last_max|].
             apply list_elem_of_singleton in Hx as ->. unfold start_le. lia. }
           unfold start_le in *. lia.
        -- apply Forall_forall. intros x Hx. by eapply sorted_last_max.
Qed.

(** * A normalised list is determined by its rows *)

Lemma Sorted_gap_strong l : Forall range_ok l → Sorted gap l → StronglySorted gap l.
Proof.
  induction 1 as [|a l Ha Hl IH]; intros Hs; [constructor|]. inv Hs.
  constructor; [auto|]. destruct l as [|b l]; [constructor|].
  match goal with H : HdRel _ _ _ |- _ => inv H end. constructor; [done|].
  inv Hl. specialize (IH ltac:(done)). inv IH.
  match goal with H : Forall (gap b) l |- _ => eapply Forall_impl; [exact H|] end.
  intros c Hc. unfold gap, range_ok in *. lia.
Qed.

Lemma covered_above a l row : Forall (gap a) l → covered row l → a.2 + 1 < row.
Proof. intros Hl (r & Hr & Hin)%Exists_exists. eapply Forall_forall in Hl; [|done]. unfold gap, row_in in *. lia. Qed.

Lemma normalized_unique l1 l2 :
  Forall range_ok l1 → Forall range_ok l2 → Sorted gap l1 → Sorted gap l2 →
  (∀ row, covered row l1 ↔ covered row l2) → l1 = l2.
Proof.
  intros H1 H2 S1%Sorted_gap_strong S2%Sorted_gap_strong; [|done..].
  revert l2 H2 S2. induction S1 as [|[a b] l1 S1 IH Ha]; intros l2 H2 S2 Hc.
  - destruct S2 as [|[c d] l2 S2 Hb]; [done|]. inv H2. exfalso. specialize (Hc c).
    rewrite covered_nil, covered_cons in Hc. apply Hc. left. unfold row_in, range_ok in *; cbn in *. lia.
  - destruct S2 as [|[c d] l2 S2 Hb].
    { inv H1. exfalso. specialize (Hc a).
      rewrite covered_nil, covered_cons in Hc. apply Hc. left. unfold row_in, range_ok in *; cbn in *. lia. }
    inv H1. inv H2.
    assert (∀ row, row_in row (a, b) ∨ (covered row l1 ∧ b + 1 < row) ↔
                   row_in row (c, d) ∨ (covered row l2 ∧ d + 1 < row)) as Hc'.
    { intros row. specialize (Hc row). rewrite !covered_cons in Hc.
      pose proof (covered_above _ _ row Ha). pose proof (covered_above _ _ row Hb). cbn in *. tauto. }
    unfold row_in, range_ok in *. cbn in *.
    assert (a = c) as -> by (pose proof (Hc' a); pose proof (Hc' c); lia).
    assert (b = d) as ->.
    { destruct (N.lt_trichotomy b d) as [Hlt|[->|Hlt]]; [|done|].
      - specialize (Hc' (b + 1)). lia.
      - specialize (Hc' (d + 1)). lia. }
    f_equal. apply IH; [done..|]. intros row.
    specialize (Hc' row). pose proof (covered_above _ _ row Ha). pose proof (covered_above _ _ row Hb). cbn in *.
    split; intros Hr; [destruct Hc' as [Hc' _]|destruct Hc' as [_ Hc']];
      (destruct Hc' as [?|[? _]]; [right; by auto|lia|done]).
Qed.

(** * Normalisation and merging *)

Lemma start_sorted_perm l : StronglySorted start_le (merge_sort start_le l) ∧ merge_sort start_le l ≡ₚ l.
Proof. split; [apply (StronglySorted_merge_sort start_le)|apply merge_sort_Permutation]. Qed.

Lemma coalesced l m :
  m ≡ₚ l → StronglySorted start_le m → Forall range_ok l →
  let result := fold_left append_sorted_row_range m [] in
  Sorted gap result ∧ Forall range_ok result ∧ ∀ row, covered row result ↔ covered row l.
Proof.
  intros Hp Hs Hl. destruct (append_all_spec m []) as (? & ? & Hc); cbn; try done.
  { by rewrite Hp. }
  { by apply StronglySorted_Sorted. }
  split_and!; [done..|]. intros row. rewrite Hc, covered_nil, (covered_perm row m l) by done. tauto.
Qed.

Lemma normalize_spec l :
  Forall range_ok l →
  Sorted gap (normalize_row_ranges l) ∧ Forall range_ok (normalize_row_ranges l) ∧
  ∀ row, covered row (normalize_row_ranges l) ↔ covered row l.
Proof.
  intros Hl. unfold normalize_row_ranges. rewrite coalesce_is_append.
  destruct (start_sorted_perm l). by apply coalesced.
Qed.

Lemma normalized_or_normalize_spec l :
  Forall range_ok l →
  Sorted gap (normalized_or_normalize l) ∧ Forall range_ok (normalized_or_normalize l) ∧
  ∀ row, covered row (normalized_or_normalize l) ↔ covered row l.
Proof.
  intros Hl. unfold normalized_or_normalize. destruct (row_ranges_are_normalized l) eqn:E.
  - split_and!; [by apply row_ranges_are_normalized_spec|done|done].
  - by apply normalize_spec.
Qed.

Lemma Sorted_gap_start l : Forall range_ok l → Sorted gap l → StronglySorted start_le l.
Proof.
  intros Hl Hs%Sorted_gap_strong; [|done]. induction Hs as [|a l Hs IH Ha]; [constructor|].
  inv Hl. constructor; [auto|]. eapply Forall_impl; [exact Ha|]. intros b Hb. unfold gap, start_le, range_ok in *. lia.
Qed.

Lemma merge_row_ranges_spec target source :
  Forall range_ok target → Forall range_ok source →
  Sorted gap (merge_row_ranges target source) ∧ Forall range_ok (merge_row_ranges target source) ∧
  ∀ row, covered row (merge_row_ranges target source) ↔ covered row target ∨ covered row source.
Proof.
  intros (Ht & Htok & Htc)%normalized_or_normalize_spec (Hs & Hsok & Hsc)%normalized_or_normalize_spec.
  unfold merge_row_ranges.
  set (t := normalized_or_normalize target) in *. set (s := normalized_or_normalize source) in *.
  assert (∀ l, Sorted gap l ∧ Forall range_ok l ∧ (∀ row, covered row l ↔ covered row t ∨ covered row s) →
    Sorted gap l ∧ Forall range_ok l ∧ ∀ row, covered row l ↔ covered row target ∨ covered row source) as Hgoal.
  { intros l (? & ? & Hc). split_and!; [done..|]. intros row. by rewrite Hc, Htc, Hsc. }
  apply Hgoal. clear Hgoal Htc Hsc.
  destruct (head s) as [first|] eqn:Ehead.
  2:{ destruct s; [|done]. split_and!; [done..|]. intros row. rewrite covered_nil. tauto. }
  destruct (last t) as [final|] eqn:Elast.
  2:{ apply last_None in Elast as ->. split_and!; [done..|]. intros row. rewrite covered_nil. tauto. }
  destruct (N.leb_spec final.1 first.1).
  { apply append_all_spec; [done..| |].
    - by apply StronglySorted_Sorted, Sorted_gap_start.
    - intros p r. rewrite Elast, Ehead. by intros [= ->] [= ->]. }
  rewrite coalesce_is_append.
  destruct (merge_backwards_spec (length t) (length s) (t ++ replicate (length s) (0, 0)) s)
    as (m & -> & Hp & Hm).
  - by rewrite length_app, length_replicate.
  - done.
  - rewrite take_app_length. by apply Sorted_gap_start.
  - rewrite firstn_all. by apply Sorted_gap_start.
  - rewrite take_app_length, firstn_all in Hp.
    rewrite drop_ge, app_nil_r by (rewrite length_app, length_replicate; lia).
    destruct (coalesced (t ++ s) m) as (? & ? & Hc); [done|done|by apply Forall_app|].
    split_and!; [done..|]. intros row. by rewrite Hc, covered_app.
Qed.

Lemma engine_normalize_spec l :
  Forall range_ok l →
  Sorted gap (engine_normalize_row_ranges l) ∧ Forall range_ok (engine_normalize_row_ranges l) ∧
  ∀ row, covered row (engine_normalize_row_ranges l) ↔ covered row l.
Proof. intros Hl. destruct (start_sorted_perm l). by apply coalesced. Qed.

Lemma merge_row_ranges_ok l r :
  Forall range_ok l → Forall range_ok r → Forall range_ok (merge_row_ranges l r).
Proof. intros Hl Hr. by apply merge_row_ranges_spec. Qed.
Lemma merge_row_ranges_rows l r row :
  Forall range_ok l → Forall range_ok r →
  covered row (merge_row_ranges l r) ↔ covered row l ∨ covered row r.
Proof. intros Hl Hr. by apply merge_row_ranges_spec. Qed.

Lemma merge_row_ranges_unique l r m :
  Forall range_ok l → Forall range_ok r → Forall range_ok m → Sorted gap m →
  (∀ row, covered row m ↔ covered row l ∨ covered row r) → merge_row_ranges l r = m.
Proof.
  intros Hl Hr Hm Hs Hc. destruct (merge_row_ranges_spec l r) as (? & ? & Hc'); [done..|].
  apply normalized_unique; [done..|]. intros row. by rewrite Hc, Hc'.
Qed.

Lemma merge_row_ranges_comm l r :
  Forall range_ok l → Forall range_ok r → merge_row_ranges l r = merge_row_ranges r l.
Proof.
  intros Hl Hr. destruct (merge_row_ranges_spec r l) as (? & ? & Hc); [done..|].
  apply merge_row_ranges_unique; [done..|]. intros row. rewrite Hc. tauto.
Qed.

Lemma merge_row_ranges_assoc l r s :
  Forall range_ok l → Forall range_ok r → Forall range_ok s →
  merge_row_ranges (merge_row_ranges l r) s = merge_row_ranges l (merge_row_ranges r s).
Proof.
  intros Hl Hr Hs. pose proof (merge_row_ranges_ok l r Hl Hr). pose proof (merge_row_ranges_ok r s Hr Hs).
  destruct (merge_row_ranges_spec l (merge_row_ranges r s)) as (? & ? & Hc); [done..|].
  apply merge_row_ranges_unique; [done..|]. intros row.
  rewrite Hc, !merge_row_ranges_rows by done. tauto.
Qed.

Lemma merge_row_ranges_normalized l r :
  Forall range_ok l → Forall range_ok r → merge_row_ranges l (merge_row_ranges [] r) = merge_row_ranges l r.
Proof.
  intros Hl Hr. pose proof (merge_row_ranges_ok [] r ltac:(constructor) Hr).
  destruct (merge_row_ranges_spec l r) as (? & ? & Hc); [done..|].
  apply merge_row_ranges_unique; [done..|]. intros row.
  rewrite Hc, (merge_row_ranges_rows [] r), covered_nil by (done || constructor). tauto.
Qed.

(** Rows changed by several updates are kept as the one normalised list of
    their union: sorted, disjoint, not adjacent, whatever the grouping, the
    order and the state of the lists merged; the engine's own normalisation,
    which sorts and rebuilds instead of merging in place, gives the same. *)
Theorem merged_rows_are_the_canonical_union l r s :
  Forall range_ok l → Forall range_ok r → Forall range_ok s →
  row_ranges_are_normalized (merge_row_ranges l r) = true ∧
  (∀ row, covered row (merge_row_ranges l r) ↔ covered row l ∨ covered row r) ∧
  merge_row_ranges l r = merge_row_ranges r l ∧
  merge_row_ranges (merge_row_ranges l r) s = merge_row_ranges l (merge_row_ranges r s) ∧
  merge_row_ranges l r = engine_normalize_row_ranges (l ++ r).
Proof.
  intros Hl Hr Hs. destruct (merge_row_ranges_spec l r) as (Hg & Hok & Hc); [done..|]. split_and!.
  - by apply row_ranges_are_normalized_spec.
  - done.
  - by apply merge_row_ranges_comm.
  - by apply merge_row_ranges_assoc.
  - destruct (engine_normalize_spec (l ++ r)) as (? & ? & Hc'); [by apply Forall_app|].
    apply merge_row_ranges_unique; [done..|]. intros row. by rewrite Hc', covered_app.
Qed.

Lemma merged_rows_are_the_canonical_union_witness :
  merge_row_ranges [(4, 6); (1, 2)] [(3, 3)] = engine_normalize_row_ranges ([(4, 6); (1, 2)] ++ [(3, 3)]).
Proof.
  refine (proj2 (proj2 (proj2 (proj2 (merged_rows_are_the_canonical_union _ _ [] _ _ _)))));
    repeat constructor; vm_compute; discriminate.
Defined.

(** * Damage *)

Definition damage_ok (d : TerminalDamage) : Prop :=
  match d with DamageRows rows => Forall range_ok rows | _ => True end.
(** Row [row] of [row_count] is redrawn. *)
Definition damages (row_count row : N) (d : TerminalDamage) : Prop :=
  covered row (damage_changed_rows d row_count).

Lemma merge_damage_ok d1 d2 : damage_ok d1 → damage_ok d2 → damage_ok (merge_damage d1 d2).
Proof. destruct d1, d2; cbn; auto using merge_row_ranges_ok. Qed.

Lemma full_rows_covered row_count row :
  row_count ≤ u16_max + 1 → covered row (damage_changed_rows DamageFull row_count) ↔ row < row_count.
Proof.
  intros Hc. cbn. destruct (N.ltb_spec 0 row_count).
  - rewrite covered_cons, covered_nil. unfold row_in, row_index. cbn. lia.
  - rewrite covered_nil. lia.
Qed.

(** Damage of consecutive updates is a commutative monoid, both in the engine
    and in the summary, and never loses a row that either update redraws. *)
Theorem damage_accumulates d1 d2 d3 row_count row :
  damage_ok d1 → damage_ok d2 → damage_ok d3 → row_count ≤ u16_max + 1 → row < row_count →
  merge_damage d1 d2 = merge_damage d2 d1 ∧
  merge_damage (merge_damage d1 d2) d3 = merge_damage d1 (merge_damage d2 d3) ∧
  merge_damage d1 d2 = engine_merge_damage d1 d2 ∧
  (damages row_count row (merge_damage d1 d2) ↔ damages row_count row d1 ∨ damages row_count row d2) ∧
  (is_dirty (merge_damage d1 d2) = is_dirty d1 || is_dirty d2).
Proof.
  intros H1 H2 H3 Hn Hrow. unfold damages. split_and!.
  - destruct d1, d2; cbn in *; try done. by rewrite merge_row_ranges_comm.
  - destruct d1, d2, d3; cbn in *; try done. by rewrite merge_row_ranges_assoc.
  - destruct d1 as [|l|], d2 as [|r|]; cbn in *; try done. f_equal.
    by apply (merged_rows_are_the_canonical_union l r []).
  - destruct d1, d2; cbn [merge_damage]; rewrite ?full_rows_covered by done; cbn [damage_changed_rows] in *;
      rewrite ?covered_nil; cbn in *; rewrite ?merge_row_ranges_rows by done; tauto.
  - by destruct d1, d2.
Qed.

(** * The rows of one refresh *)

Lemma append_dirty_row_range ranges row : append_dirty_row ranges row = append_sorted_row_range ranges (row, row).
Proof.
  unfold append_dirty_row, append_sorted_row_range, touches, extend. cbn.
  destruct (last ranges); [|done]. by rewrite N.max_comm.
Qed.

(** The rows a refresh visits, from the top down, become the normalised list
    of exactly these rows. *)
Theorem dirty_rows_are_recorded (visited : list N) :
  StronglySorted N.le visited → Forall (λ row, row ≤ u16_max) visited →
  let ranges := fold_left append_dirty_row visited [] in
  row_ranges_are_normalized ranges = true ∧ ∀ row, covered row ranges ↔ row ∈ visited.
Proof.
  intros Hs Hv. cbv zeta.
  assert (∀ acc, fold_left append_dirty_row visited acc
            = fold_left append_sorted_row_range ((λ row, (row, row)) <$> visited) acc) as ->.
  { clear. induction visited as [|row visited IH]; intros acc; cbn; [done|].
    by rewrite append_dirty_row_range, IH. }
  destruct (append_all_spec ((λ row, (row, row)) <$> visited) []) as (Hg & Hok & Hc); [constructor|constructor|..].
  - apply Forall_fmap. eapply Forall_impl; [exact Hv|]. intros row Hrow. by split.
  - apply StronglySorted_Sorted. clear Hv. induction Hs as [|a l Hs IH Ha]; cbn; constructor; [done|].
    apply Forall_fmap. eapply Forall_impl; [exact Ha|]. done.
  - done.
  - split; [by apply row_ranges_are_normalized_spec|]. intros row. rewrite Hc, covered_nil.
    unfold covered. rewrite Exists_fmap, Exists_exists. unfold row_in. cbn. split.
    + intros [[]|(r & Hr & H1)]. by replace row with r by (apply N.le_antisymm; tauto).
    + intros Hr. right. exists row. by split.
Qed.
