(* ===== verification/Screen.v ===== *)
(** The screen of a terminal as everything above the engine sees it: cells,
    rows and snapshots (the snapshot types of src/crates/lector-ghostty,
    [TerminalSnapshot] of src/src/terminal.rs) and the text read from them.

    The text of cells is the list of its characters; rows and columns are [N].
    The engine that fills the cells is not modelled. *)

From S2P Require Import Prelude Terminal.
Local Open Scope N_scope.

(** * Cells *)

Inductive Color := ColorDefault | Indexed (index : N) | Rgb (red green blue : N).
#[export] Instance Color_eq_dec : EqDecision Color.
Proof. solve_decision. Defined.

Inductive UnderlineStyle := UnderlineNone | UnderlineSingle | UnderlineDouble | UnderlineCurly | UnderlineDotted | UnderlineDashed.
#[export] Instance UnderlineStyle_eq_dec : EqDecision UnderlineStyle.
Proof. solve_decision. Defined.

Record Style := {
  foreground : Color; background : Color; underline_color : Color;
  style_bold : bool; style_dim : bool; style_italic : bool; blink : bool; style_inverse : bool;
  invisible : bool; strikethrough : bool; overline : bool; style_underline : UnderlineStyle
}.
#[export] Instance Style_eq_dec : EqDecision Style.
Proof. solve_decision. Defined.
Definition default_style : Style := {|
  foreground := ColorDefault; background := ColorDefault; underline_color := ColorDefault;
  style_bold := false; style_dim := false; style_italic := false; blink := false; style_inverse := false;
  invisible := false; strikethrough := false; overline := false; style_underline := UnderlineNone |}.

Record Cell := {
  grapheme : list N; width : N; continuation : bool; style : Style; hyperlink : option (list N)
}.
#[export] Instance Cell_eq_dec : EqDecision Cell.
Proof. solve_decision. Defined.
Definition default_cell : Cell :=
  {| grapheme := []; width := 1; continuation := false; style := default_style; hyperlink := None |}.

Definition contents (c : Cell) : list N := grapheme c.
Definition has_contents (c : Cell) : bool := negb (bool_decide (grapheme c = [])).
Definition is_wide (c : Cell) : bool := (width c =? 2) && negb (continuation c).
Definition is_wide_continuation (c : Cell) : bool := continuation c.
Definition fgcolor (c : Cell) : Color := foreground (style c).
Definition bgcolor (c : Cell) : Color := background (style c).
Definition bold (c : Cell) : bool := style_bold (style c).
Definition dim (c : Cell) : bool := style_dim (style c).
Definition italic (c : Cell) : bool := style_italic (style c).
Definition underline (c : Cell) : bool := negb (bool_decide (style_underline (style c) = UnderlineNone)).
Definition inverse (c : Cell) : bool := style_inverse (style c).

(** * Rows *)

Record Row := { cells : list Cell; wrapped : bool }.
#[export] Instance Row_eq_dec : EqDecision Row.
Proof. solve_decision. Defined.

(** The loop over the cells: the output and the spaces that are pending. *)
Definition append_cell (st : list N * nat) (c : Cell) : list N * nat :=
  let '(output, pending_spaces) := st in
  if continuation c then st
  else if bool_decide (grapheme c = []) then (output, S pending_spaces)
  else (output ++ replicate pending_spaces SP ++ grapheme c, 0%nat).
Definition append_contents_range_to (r : Row) (output : list N) (start width : N) : list N :=
  let end_ := N.min (sat_add usize_max start width) (len (cells r)) in
  let start := N.min start end_ in
  let range := take (N.to_nat (end_ - start)) (drop (N.to_nat start) (cells r)) in
  (fold_left append_cell range (output, 0%nat)).1.
Definition append_contents_to (r : Row) (output : list N) : list N :=
  append_contents_range_to r output 0 (len (cells r)).
Definition row_text (r : Row) : list N := append_contents_to r [].

(** * Snapshots *)

Inductive CursorShape := CursorBar | CursorBlock | CursorUnderline | CursorBlockHollow.
#[export] Instance CursorShape_eq_dec : EqDecision CursorShape.
Proof. solve_decision. Defined.

Record Cursor := { cursor_row : N; cursor_col : N; visible : bool; shape : CursorShape }.
#[export] Instance Cursor_eq_dec : EqDecision Cursor.
Proof. solve_decision. Defined.
Definition default_cursor : Cursor :=
  {| cursor_row := 0; cursor_col := 0; visible := false; shape := CursorBlock |}.

Inductive ScreenIdentity := PrimaryScreen | AlternateScreen.
#[export] Instance ScreenIdentity_eq_dec : EqDecision ScreenIdentity.
Proof. solve_decision. Defined.

Record TerminalModes := {
  application_keypad : bool; application_cursor : bool; bracketed_paste : bool;
  synchronized_output : bool; focus_reporting : bool; kitty_keyboard_flags : N;
  mouse_protocol : MouseProtocol; mouse_encoding : MouseEncoding
}.
Definition default_modes : TerminalModes := {|
  application_keypad := false; application_cursor := false; bracketed_paste := false;
  synchronized_output := false; focus_reporting := false; kitty_keyboard_flags := 0;
  mouse_protocol := NoMouse; mouse_encoding := DefaultEncoding |}.

(** Positions are ordered by row, then by column. *)
Record HistoryPosition := { row : N; col : N }.
#[export] Instance HistoryPosition_eq_dec : EqDecision HistoryPosition.
Proof. solve_decision. Defined.
Definition position_lt (p q : HistoryPosition) : bool :=
  (row p <? row q) || ((row p =? row q) && (col p <? col q)).
Definition position_le (p q : HistoryPosition) : bool := negb (position_lt q p).

Inductive SemanticKind := PromptStart | InputStart | CommandStart | CommandFinished (exit_code : option Z).
#[export] Instance SemanticKind_eq_dec : EqDecision SemanticKind.
Proof. solve_decision. Defined.
Record SemanticMark := { kind : SemanticKind; mark_position : HistoryPosition; mark_alternate_screen : bool }.

Inductive Viewport := Live | Scrollback (offset : N).
#[export] Instance Viewport_eq_dec : EqDecision Viewport.
Proof. solve_decision. Defined.

Record TerminalSnapshot := {
  rows : list Row; scrollback : list Row; cursor : Cursor; geometry : TerminalGeometry;
  screen : ScreenIdentity; modes : TerminalModes; title : option bytes; working_directory : option bytes;
  semantic_marks : list SemanticMark; history_origin : N; scrollback_extent : N; viewport : Viewport
}.
(** [try_into().unwrap_or(u16::MAX)]. *)
Definition to_u16 (n : N) : N := N.min u16_max n.

Definition size (s : TerminalSnapshot) : N * N :=
  (to_u16 (len (rows s)), match head (rows s) with Some r => to_u16 (len (cells r)) | None => 0 end).
Definition cell (s : TerminalSnapshot) (row col : N) : option Cell :=
  r ← rows s !! N.to_nat row; cells r !! N.to_nat col.
Definition row_wrapped (s : TerminalSnapshot) (row : N) : bool :=
  match rows s !! N.to_nat row with Some r => wrapped r | None => false end.
Definition cursor_position (s : TerminalSnapshot) : N * N := (cursor_row (cursor s), cursor_col (cursor s)).
Definition alternate_screen (s : TerminalSnapshot) : bool := bool_decide (screen s = AlternateScreen).
Definition hide_cursor (s : TerminalSnapshot) : bool := negb (visible (cursor s)).

Definition append_row_contents (r : Row) (start width : N) (output : list N) : list N :=
  append_contents_range_to r output start width.
Definition row_contents (r : Row) (start width : N) : list N := append_row_contents r start width [].

(** [while contents.ends_with(c) { contents.pop(); }]. *)
Fixpoint drop_while_eq (c : N) (l : list N) : list N :=
  match l with x :: l' => if x =? c then drop_while_eq c l' else l | [] => [] end.
Definition pop_trailing (c : N) (l : list N) : list N := reverse (drop_while_eq c (reverse l)).

Definition contents_step (st : list N * bool) (r : Row) : list N * bool :=
  let '(contents, wrapping) := st in
  let row_start := length contents in
  let contents := append_contents_to r contents in
  let contents := if bool_decide (length contents = row_start) && wrapping then contents ++ [LF] else contents in
  let contents := if wrapped r then contents else contents ++ [LF] in
  (contents, wrapped r).
Definition screen_contents (s : TerminalSnapshot) : list N :=
  pop_trailing LF (fold_left contents_step (rows s) ([], false)).1.

Definition snapshot_rows (s : TerminalSnapshot) (start width : N) : list (list N) :=
  (λ r, row_contents r start width) <$> rows s.

(** The loop on [row_index] of [contents_between], over the rows that exist. *)
Definition between_step (s : TerminalSnapshot) (start_row start_col end_row end_col : N)
    (contents : list N) (row_index : N) (r : Row) : list N :=
  let cols := (size s).2 in
  let contents :=
    if row_index =? start_row then append_row_contents r start_col (cols - start_col) contents
    else if row_index =? end_row then append_row_contents r 0 end_col contents
    else append_row_contents r 0 cols contents in
  if negb (row_index =? end_row) && negb (wrapped r) then contents ++ [LF] else contents.
Fixpoint between_loop (s : TerminalSnapshot) (start_row start_col end_row end_col : N) (count : nat)
    (row_index : N) (contents : list N) : list N :=
  match count with
  | O => contents
  | S count =>
      match rows s !! N.to_nat row_index with
      | None => contents
      | Some r =>
          between_loop s start_row start_col end_row end_col count (row_index + 1)
            (between_step s start_row start_col end_row end_col contents row_index r)
      end
  end.
Definition contents_between (s : TerminalSnapshot) (start_row start_col end_row end_col : N) : list N :=
  if start_row <? end_row then
    between_loop s start_row start_col end_row end_col (N.to_nat (end_row - start_row + 1)) start_row []
  else if (start_row =? end_row) && (start_col <? end_col) then
    match rows s !! N.to_nat start_row with
    | Some r => append_row_contents r start_col (end_col - start_col) []
    | None => []
    end
  else [].

(** [str::trim_end]. *)
Definition trim_end_chars (l : list N) : list N := reverse (trim_start (reverse l)).

Definition contents_full_step (s : TerminalSnapshot) (out : list N) (r : Row) : list N :=
  let row_start := length out in
  let out := append_row_contents r 0 (size s).2 out in
  let trimmed_row_len := length (trim_end_chars (drop row_start out)) in
  take (row_start + trimmed_row_len) out ++ [LF].
Definition contents_full (s : TerminalSnapshot) : list N := fold_left (contents_full_step s) (rows s) [].

Definition has_visible_non_whitespace_content (s : TerminalSnapshot) : bool :=
  existsb (λ r, existsb (λ c, negb (continuation c) && existsb (λ ch, negb (is_whitespace_char ch)) (grapheme c))
    (cells r)) (rows s).

(** * The text of a row *)

Definition blank (c : Cell) : bool := bool_decide (grapheme c = []).
Definition visible_cells (l : list Cell) : list Cell := List.filter (λ c, negb (continuation c)) l.
(** What a cell shows: its grapheme, or a space. *)
Definition shown (c : Cell) : list N := if blank c then [SP] else grapheme c.
Definition shown_text (l : list Cell) : list N := mjoin (shown <$> l).

Lemma shown_text_app l1 l2 : shown_text (l1 ++ l2) = shown_text l1 ++ shown_text l2.
Proof. unfold shown_text. by rewrite fmap_app, join_app. Qed.
Lemma shown_text_blank l : Forall (λ c, blank c = true) l → shown_text l = replicate (length l) SP.
Proof. induction 1 as [|c l Hc Hl IH]; [done|]. change (shown c ++ shown_text l = SP :: replicate (length l) SP).
  unfold shown. by rewrite Hc, IH. Qed.

(** The loop keeps the text up to the last cell that is not blank, and counts
    the blanks after it. *)
Lemma append_cells_spec l output l0 :
  Forall (λ c, blank c = true) l0 →
  let '(out, pending) := fold_left append_cell l (output, length l0) in
  ∃ l1 l2, l0 ++ visible_cells l = l1 ++ l2 ∧ Forall (λ c, blank c = true) l2 ∧
    (∀ c, last l1 = Some c → blank c = false) ∧ out = output ++ shown_text l1 ∧ pending = length l2.
Proof.
  revert output l0. induction l as [|c l IH]; intros output l0 H0; cbn [fold_left].
  { exists [], l0. split_and!; cbn; [by rewrite app_nil_r|done|done|by rewrite app_nil_r|done]. }
  unfold visible_cells in *. cbn [List.filter append_cell]. destruct (continuation c); [by apply IH|].
  cbn [negb]. change (bool_decide (grapheme c = [])) with (blank c).
  destruct (blank c) eqn:Hc.
  - specialize (IH output (l0 ++ [c])). rewrite length_app, Nat.add_1_r in IH. cbn in IH.
    rewrite <-app_assoc in IH. apply IH. apply Forall_app. by repeat constructor.
  - specialize (IH (output ++ replicate (length l0) SP ++ grapheme c) [] ltac:(constructor)). cbn in IH.
    destruct (fold_left append_cell l _) as [out pending]. destruct IH as (l1 & l2 & Hl & H2 & H1 & -> & ->).
    exists (l0 ++ c :: l1), l2. rewrite Hl, <-app_assoc. split_and!; [done|done| | |reflexivity].
    + intros c'. change (c :: l1) with ([c] ++ l1). rewrite app_assoc.
      destruct l1 as [|c1 l1 _] using rev_ind.
      * rewrite app_nil_r, last_snoc. by intros [= <-].
      * rewrite app_assoc, last_snoc. intros [= <-]. apply (H1 c1). by rewrite last_snoc.
    + rewrite shown_text_app, (shown_text_blank l0) by done. change (shown_text (c :: l1)) with (shown c ++ shown_text l1).
      unfold shown. by rewrite Hc, <-!app_assoc.
Qed.

(** The cells of a row that a range selects. *)
Definition cell_range (r : Row) (start width : N) : list Cell :=
  let end_ := N.min (sat_add usize_max start width) (len (cells r)) in
  let start := N.min start end_ in
  take (N.to_nat (end_ - start)) (drop (N.to_nat start) (cells r)).

(** The text of a range of cells is what the cells show, wide characters once,
    up to the last cell with contents: blank cells before it are spaces, and
    blank cells after it are left out. *)
Theorem range_text_is_what_is_shown r output start width :
  ∃ l1 l2, visible_cells (cell_range r start width) = l1 ++ l2 ∧ Forall (λ c, blank c = true) l2 ∧
    (∀ c, last l1 = Some c → blank c = false) ∧
    append_contents_range_to r output start width = output ++ shown_text l1.
Proof.
  unfold append_contents_range_to. fold (cell_range r start width).
  pose proof (append_cells_spec (cell_range r start width) output [] ltac:(constructor)) as H. cbn in H.
  destruct (fold_left append_cell _ _) as [out pending].
  destruct H as (l1 & l2 & Hl & H2 & H1 & -> & _). by exists l1, l2.
Qed.

Lemma range_text_shape r output start width :
  ∃ l1 l2, visible_cells (cell_range r start width) = l1 ++ l2 ∧ Forall (λ c, blank c = true) l2 ∧
    append_contents_range_to r output start width = output ++ shown_text l1.
Proof.
  unfold append_contents_range_to. fold (cell_range r start width).
  pose proof (append_cells_spec (cell_range r start width) output [] ltac:(constructor)) as H. cbn in H.
  destruct (fold_left append_cell _ _) as [out pending].
  destruct H as (l1 & l2 & Hl & H2 & H1 & -> & _). by exists l1, l2.
Qed.

(** * Blank screens *)

Definition all_whitespace (l : list N) : Prop := Forall (λ c, is_whitespace_char c = true) l.
Lemma all_whitespace_app l1 l2 : all_whitespace (l1 ++ l2) ↔ all_whitespace l1 ∧ all_whitespace l2.
Proof. apply Forall_app. Qed.
Lemma all_whitespace_LF : all_whitespace [LF] ↔ True.
Proof. split; [done|]. by repeat constructor. Qed.

Lemma trim_start_blank l : trim_start l = [] ↔ all_whitespace l.
Proof.
  induction l as [|c l IH]; cbn; [split; [constructor|done]|]. unfold all_whitespace. rewrite Forall_cons.
  destruct (is_whitespace_char c); [rewrite IH; unfold all_whitespace; tauto|]. split; [done|]. by intros [? _].
Qed.
Lemma trim_start_suffix l : ∃ l1, l = l1 ++ trim_start l ∧ all_whitespace l1.
Proof.
  induction l as [|c l (l1 & IH & Hl)]; cbn; [exists []; split; [done|constructor]|]. destruct (is_whitespace_char c) eqn:E.
  - exists (c :: l1). cbn. rewrite <-IH. split; [done|]. by constructor.
  - exists []. split; [done|constructor].
Qed.
Lemma trim_chars_blank l : trim_chars l = [] ↔ all_whitespace l.
Proof.
  unfold trim_chars. destruct (trim_start_suffix l) as (l1 & Hl & H1).
  transitivity (trim_start (reverse (trim_start l)) = []).
  { split; [|by intros ->]. intros H. apply (f_equal reverse) in H. by rewrite reverse_involutive in H. }
  rewrite trim_start_blank. unfold all_whitespace. rewrite Forall_reverse.
  rewrite Hl at 2. change (Forall _ (l1 ++ ?x)) with (all_whitespace (l1 ++ x)).
  rewrite all_whitespace_app. unfold all_whitespace in *. tauto.
Qed.

Lemma pop_trailing_blank l : all_whitespace (pop_trailing LF l) ↔ all_whitespace l.
Proof.
  unfold pop_trailing, all_whitespace. rewrite Forall_reverse.
  rewrite <-(reverse_involutive l) at 2. rewrite Forall_reverse.
  induction (reverse l) as [|c l' IH]; cbn; [done|]. destruct (N.eqb_spec c LF) as [->|]; [|done].
  rewrite IH, Forall_cons. split; [|by intros []]. done.
Qed.

Definition row_blank (r : Row) : Prop := Forall (λ c, all_whitespace (grapheme c)) (visible_cells (cells r)).

Lemma shown_blank l : all_whitespace (shown_text l) ↔ Forall (λ c, all_whitespace (grapheme c)) l.
Proof.
  induction l as [|c l IH]; [split; constructor|]. rewrite Forall_cons.
  change (shown_text (c :: l)) with (shown c ++ shown_text l). rewrite all_whitespace_app, IH.
  unfold shown, blank. case_bool_decide as E; [|done]. rewrite E.
  assert (all_whitespace [SP]) by (by repeat constructor).
  assert (all_whitespace []) by constructor. tauto.
Qed.

Lemma append_contents_to_blank r output :
  len (cells r) ≤ usize_max →
  all_whitespace (append_contents_to r output) ↔ all_whitespace output ∧ row_blank r.
Proof.
  intros Hr. unfold append_contents_to.
  destruct (range_text_shape r output 0 (len (cells r))) as (l1 & l2 & Hl & H2 & ->).
  rewrite all_whitespace_app, shown_blank. unfold row_blank.
  assert (visible_cells (cells r) = l1 ++ l2) as ->.
  { rewrite <-Hl. f_equal. unfold cell_range, sat_add.
    replace (N.min (N.min usize_max (0 + len (cells r))) (len (cells r))) with (len (cells r)) by lia.
    rewrite N.min_0_l, N.sub_0_r, Nat2N.id. cbn. by rewrite firstn_all. }
  rewrite Forall_app. assert (Forall (λ c, all_whitespace (grapheme c)) l2); [|tauto].
  eapply Forall_impl; [exact H2|]. intros c Hc. unfold blank in Hc. apply bool_decide_eq_true in Hc as ->. constructor.
Qed.

Lemma contents_blank l st :
  Forall (λ r, len (cells r) ≤ usize_max) l →
  all_whitespace (fold_left contents_step l st).1 ↔ all_whitespace st.1 ∧ Forall row_blank l.
Proof.
  intros Hl. revert st. induction Hl as [|r l Hr Hl IH]; intros [out wrapping]; cbn [fold_left].
  { rewrite Forall_nil. tauto. }
  rewrite IH, Forall_cons. unfold contents_step. cbn.
  assert (∀ b x, all_whitespace (if b : bool then x ++ [LF] else x) ↔ all_whitespace x) as Hlf.
  { intros [] x; [|done]. rewrite all_whitespace_app, all_whitespace_LF. tauto. }
  assert (∀ b x, all_whitespace (if b : bool then x else x ++ [LF]) ↔ all_whitespace x) as Hlf'.
  { intros [] x; [done|]. rewrite all_whitespace_app, all_whitespace_LF. tauto. }
  rewrite Hlf', Hlf, append_contents_to_blank by done. tauto.
Qed.

(** The rows of a snapshot are no longer than a vector may be. *)
Definition snapshot_ok (s : TerminalSnapshot) : Prop := Forall (λ r, len (cells r) ≤ usize_max) (rows s).

Lemma row_visible_spec r :
  existsb (λ c, negb (continuation c) && existsb (λ ch, negb (is_whitespace_char ch)) (grapheme c)) (cells r) = false
    ↔ row_blank r.
Proof.
  rewrite existsb_false. unfold row_blank, visible_cells.
  induction (cells r) as [|c l IH]; cbn; [by split|]. rewrite Forall_cons, IH.
  assert (existsb (λ ch, negb (is_whitespace_char ch)) (grapheme c) = false ↔ all_whitespace (grapheme c)) as Hc.
  { rewrite existsb_false. apply Forall_iff. intros x. by destruct (is_whitespace_char x). }
  destruct (continuation c); cbn; [tauto|]. rewrite Forall_cons, Hc. tauto.
Qed.

(** The scan of the cells answers as the text of the whole screen would. *)
Theorem blankness_needs_no_text s :
  snapshot_ok s →
  has_visible_non_whitespace_content s = negb (bool_decide (trim_chars (screen_contents s) = [])).
Proof.
  intros Hs. apply eq_true_iff_eq. rewrite negb_true_iff, bool_decide_eq_false, trim_chars_blank.
  unfold screen_contents. rewrite pop_trailing_blank, contents_blank by done. cbn.
  assert (has_visible_non_whitespace_content s = false ↔ Forall row_blank (rows s)) as H.
  { unfold has_visible_non_whitespace_content. rewrite existsb_false.
    apply Forall_iff. intros r. apply row_visible_spec. }
  assert (all_whitespace []) by constructor.
  destruct (has_visible_non_whitespace_content s); [|naive_solver].
  split; [|done]. intros _ [_ Hf]. by apply H in Hf.
Qed.
