(* ===== verification/TerminalUpdate.v ===== *)
(** What one write did to a terminal, and how the facts of several writes are
    put together ([UpdateSummary] of src/src/terminal.rs): the printed text as
    it is read out, the operation hints of the renderer, counters, damage.

    Printed text and the text of write runs are lists of characters; a counter
    is a [usize], a row or column a [u16]. *)

From S2P Require Import Prelude Terminal Screen RowRanges.
Local Open Scope N_scope.

(** * Data *)

Inductive PrintBoundary := Continue | LineFeed | CarriageReturn.
#[export] Instance PrintBoundary_eq_dec : EqDecision PrintBoundary.
Proof. solve_decision. Defined.

Record PrintedRun := { text : list N; boundary : PrintBoundary }.
#[export] Instance PrintedRun_eq_dec : EqDecision PrintedRun.
Proof. solve_decision. Defined.

Inductive TerminalOperation :=
| ScrollUp (top bottom count : N)
| ScrollDown (top bottom count : N)
| InsertLines (row bottom count : N)
| DeleteLines (row bottom count : N)
| InsertChars (row col count : N)
| DeleteChars (row col count : N)
| EraseChars (row col count : N)
| WriteRun (row col : N) (text : list N).
#[export] Instance TerminalOperation_eq_dec : EqDecision TerminalOperation.
Proof. solve_decision. Defined.

Record TerminalEffects := { bells : N; title_changed : bool; events : list TerminalEvent }.
Definition default_effects : TerminalEffects := {| bells := 0; title_changed := false; events := [] |}.

Record UpdateSummary := {
  effects : TerminalEffects;
  damage : TerminalDamage;
  pty_replies : bytes;
  printed_runs : list PrintedRun;
  output_report_structural : bool;
  parser_continuation : bool;
  operations : list TerminalOperation;
  cursor_operations : N;
  cursor_operations_after_last_line_feed : N;
  line_feed_boundaries : N;
  scroll_operations : N;
  history_changed : bool;
  changed_rows : list (N * N);
  cursor_before : Cursor;
  cursor_after : Cursor;
  screen_before : ScreenIdentity;
  screen_after : ScreenIdentity;
  synchronized_output : bool;
  synchronized_output_opened : bool;
  synchronized_output_closed : bool;
  semantic_input_boundary : bool;
  cursor_visibility_restored : bool;
  batch_count : N
}.

Definition default_summary : UpdateSummary := {|
  effects := default_effects; damage := DamageNone; pty_replies := []; printed_runs := [];
  output_report_structural := false; parser_continuation := false; operations := [];
  cursor_operations := 0; cursor_operations_after_last_line_feed := 0; line_feed_boundaries := 0;
  scroll_operations := 0; history_changed := false; changed_rows := [];
  cursor_before := default_cursor; cursor_after := default_cursor;
  screen_before := PrimaryScreen; screen_after := PrimaryScreen;
  synchronized_output := false; synchronized_output_opened := false; synchronized_output_closed := false;
  semantic_input_boundary := false; cursor_visibility_restored := false; batch_count := 0 |}.

(** * Printed runs *)

(** One turn of [append_printed_runs]. *)
Definition append_printed_run (target : list PrintedRun) (run : PrintedRun) : list PrintedRun :=
  let final := pred (length target) in
  let push_or_extend :=
    match last target with
    | Some previous =>
        if bool_decide (boundary run = Continue)
        then <[final := {| text := text previous ++ text run; boundary := boundary previous |}]> target
        else target ++ [run]
    | None => target ++ [run]
    end in
  if bool_decide (boundary run = LineFeed) && bool_decide (text run = []) then
    match last target with
    | Some previous =>
        if bool_decide (boundary previous = CarriageReturn) && bool_decide (text previous = [])
        then <[final := {| text := text previous; boundary := LineFeed |}]> target
        else push_or_extend
    | None => push_or_extend
    end
  else push_or_extend.
Definition append_printed_runs (target source : list PrintedRun) : list PrintedRun :=
  fold_left append_printed_run source target.

(** [text.rfind('\n').map_or(0, |index| index + 1)]. *)
Fixpoint line_start (l : list N) : nat :=
  match l with
  | [] => 0
  | c :: l' =>
      if bool_decide (LF ∈ l') then S (line_start l') else if c =? LF then 1 else 0
  end.

Definition printed_text_step (text_so_far : list N) (run : PrintedRun) : list N :=
  match boundary run with
  | Continue => text_so_far
  | LineFeed => if bool_decide (text_so_far = []) then text_so_far else text_so_far ++ [LF]
  | CarriageReturn => take (line_start text_so_far) text_so_far
  end ++ text run.
Definition printed_text (u : UpdateSummary) : list N := fold_left printed_text_step (printed_runs u) [].

Fixpoint returns_are_prefixes (content_since_line_feed : bool) (runs : list PrintedRun) : bool :=
  match runs with
  | [] => true
  | run :: runs =>
      let continue content := returns_are_prefixes (content || negb (bool_decide (text run = []))) runs in
      match boundary run with
      | Continue => continue content_since_line_feed
      | LineFeed => continue false
      | CarriageReturn => if content_since_line_feed then false else continue content_since_line_feed
      end
  end.
Definition residual_carriage_returns_are_record_prefixes (u : UpdateSummary) : bool :=
  returns_are_prefixes (negb (cursor_col (cursor_before u) =? 0)) (printed_runs u).

Definition has_linear_output_report (u : UpdateSummary) : bool :=
  (0 <? batch_count u) && negb (output_report_structural u) && negb (parser_continuation u) &&
  bool_decide (screen_before u = PrimaryScreen) && bool_decide (screen_after u = PrimaryScreen).
Definition completes_linear_output_record (u : UpdateSummary) : bool :=
  has_linear_output_report u && residual_carriage_returns_are_record_prefixes u &&
  match last (printed_runs u) with
  | Some run => bool_decide (boundary run = LineFeed) && bool_decide (text run = [])
  | None => false
  end.

(** * Operations *)

Definition MAX_COALESCED_WRITE_RUN_COLUMNS : N := 256.
Definition MAX_COALESCED_WRITE_RUN_BYTES : N := MAX_COALESCED_WRITE_RUN_COLUMNS * 4.

(** [str::len]. *)
Definition utf8_len (l : list N) : N := len (mjoin (utf8_encode <$> l)).
Definition is_ascii_text (l : list N) : bool := forallb (λ c, c <? 128) l.

Definition write_run_end_col (col : N) (text : list N) : N :=
  let columns := if is_ascii_text text then utf8_len text else len text in
  sat_add u16_max col (to_u16 columns).

Definition append_terminal_write_run_chunk (target : list TerminalOperation) (row col : N) (text : list N)
  : list TerminalOperation :=
  match last target with
  | Some (WriteRun previous_row previous_col previous_text) =>
      if (previous_row =? row) &&
         (previous_col / MAX_COALESCED_WRITE_RUN_COLUMNS =? col / MAX_COALESCED_WRITE_RUN_COLUMNS) &&
         match checked_add usize_max (utf8_len previous_text) (utf8_len text) with
         | Some n => n <=? MAX_COALESCED_WRITE_RUN_BYTES
         | None => false
         end &&
         (write_run_end_col previous_col previous_text =? col)
      then <[pred (length target) := WriteRun previous_row previous_col (previous_text ++ text)]> target
      else target ++ [WriteRun row col text]
  | _ => target ++ [WriteRun row col text]
  end.

(** The loop over the characters: [chunk] are those since [chunk_start], in
    reverse order. *)
Definition chunk_limit_at (chunk_col : N) : N :=
  MAX_COALESCED_WRITE_RUN_COLUMNS - chunk_col mod MAX_COALESCED_WRITE_RUN_COLUMNS.
Fixpoint write_run_loop (target : list TerminalOperation) (row chunk_col chunk_columns chunk_limit : N)
    (chunk text : list N) : list TerminalOperation :=
  match text with
  | [] => append_terminal_write_run_chunk target row chunk_col (reverse chunk)
  | c :: rest =>
      if chunk_columns =? chunk_limit then
        let target := append_terminal_write_run_chunk target row chunk_col (reverse chunk) in
        let chunk_col := sat_add u16_max chunk_col (to_u16 chunk_columns) in
        if chunk_col =? u16_max then append_terminal_write_run_chunk target row chunk_col text
        else write_run_loop target row chunk_col (sat_add usize_max 0 1) (chunk_limit_at chunk_col) [c] rest
      else write_run_loop target row chunk_col (sat_add usize_max chunk_columns 1) chunk_limit (c :: chunk) rest
  end.
Definition append_terminal_write_run (target : list TerminalOperation) (row col : N) (text : list N)
  : list TerminalOperation :=
  if bool_decide (text = []) || (col =? u16_max) then append_terminal_write_run_chunk target row col text
  else write_run_loop target row col 0 (chunk_limit_at col) [] text.

Definition append_terminal_operation (target : list TerminalOperation) (operation : TerminalOperation)
  : list TerminalOperation :=
  match operation with
  | WriteRun row col text => append_terminal_write_run target row col text
  | operation => target ++ [operation]
  end.
Definition append_terminal_operations (target source : list TerminalOperation) : list TerminalOperation :=
  fold_left append_terminal_operation source target.

(** * Merging *)

Definition merge (self next : UpdateSummary) : UpdateSummary :=
  if batch_count next =? 0 then self else
  let first := batch_count self =? 0 in
  {| cursor_before := if first then cursor_before next else cursor_before self;
     screen_before := if first then screen_before next else screen_before self;
     cursor_after := cursor_after next;
     screen_after := screen_after next;
     synchronized_output := synchronized_output next;
     synchronized_output_opened := synchronized_output_opened self || synchronized_output_opened next;
     synchronized_output_closed := synchronized_output_closed next;
     semantic_input_boundary := semantic_input_boundary next;
     cursor_visibility_restored := cursor_visibility_restored next;
     batch_count := sat_add usize_max (batch_count self) (batch_count next);
     effects := {|
       bells := sat_add usize_max (bells (effects self)) (bells (effects next));
       title_changed := title_changed (effects self) || title_changed (effects next);
       events := events (effects self) ++ events (effects next) |};
     pty_replies := pty_replies self ++ pty_replies next;
     output_report_structural := output_report_structural self || output_report_structural next;
     parser_continuation := parser_continuation next;
     printed_runs := append_printed_runs (printed_runs self) (printed_runs next);
     operations := append_terminal_operations (operations self) (operations next);
     cursor_operations := sat_add usize_max (cursor_operations self) (cursor_operations next);
     cursor_operations_after_last_line_feed :=
       if 0 <? line_feed_boundaries next then cursor_operations_after_last_line_feed next
       else sat_add usize_max (cursor_operations_after_last_line_feed self)
                              (cursor_operations_after_last_line_feed next);
     line_feed_boundaries := sat_add usize_max (line_feed_boundaries self) (line_feed_boundaries next);
     scroll_operations := sat_add usize_max (scroll_operations self) (scroll_operations next);
     history_changed := history_changed self || history_changed next;
     changed_rows := merge_row_ranges (changed_rows self) (changed_rows next);
     damage := merge_damage (damage self) (damage next) |}.

Example carriage_return_line_feed_across_updates :
  append_printed_runs [{| text := [97]; boundary := Continue |}; {| text := []; boundary := CarriageReturn |}]
    [{| text := []; boundary := LineFeed |}; {| text := [98]; boundary := Continue |}]
  = [{| text := [97]; boundary := Continue |}; {| text := [98]; boundary := LineFeed |}].
Proof. reflexivity. Qed.

(** * Linear records *)

(** The text of the runs when no carriage return erases anything. *)
Definition record_step (text_so_far : list N) (run : PrintedRun) : list N :=
  match boundary run with
  | LineFeed => if bool_decide (text_so_far = []) then text_so_far else text_so_far ++ [LF]
  | _ => text_so_far
  end ++ text run.
Definition record_text (runs : list PrintedRun) : list N := fold_left record_step runs [].

Lemma line_start_snoc l : line_start (l ++ [LF]) = S (length l).
Proof.
  induction l as [|c l IH]; cbn; [done|].
  rewrite bool_decide_eq_true_2, IH; [done|]. apply elem_of_app. right. by apply list_elem_of_singleton.
Qed.

Lemma returns_are_prefixes_spec content runs t :
  returns_are_prefixes content runs = true → (content = false → line_start t = length t) →
  fold_left printed_text_step runs t = fold_left record_step runs t.
Proof.
  revert content t. induction runs as [|run runs IH]; intros content t; cbn [returns_are_prefixes fold_left]; [done|].
  assert (∀ content' t', returns_are_prefixes (content' || negb (bool_decide (text run = []))) runs = true →
    (content' = false → line_start t' = length t') →
    fold_left printed_text_step runs (t' ++ text run) = fold_left record_step runs (t' ++ text run)) as Hnext.
  { intros content' t' H Ht. eapply IH; [exact H|]. intros [H1 H2]%orb_false_iff.
    apply negb_false_iff, bool_decide_eq_true in H2 as ->. rewrite app_nil_r. by apply Ht. }
  unfold printed_text_step at 2, record_step at 2. intros Hr Ht. destruct (boundary run).
  - by eapply Hnext.
  - eapply Hnext; [exact Hr|]. intros _.
    destruct (decide (t = [])) as [->|E]; [done|]. rewrite bool_decide_eq_false_2 by done.
    rewrite line_start_snoc, length_app. cbn. lia.
  - destruct content; [done|]. rewrite Ht, firstn_all by done. by eapply Hnext.
Qed.

Lemma completed_record_text u :
  completes_linear_output_record u = true → printed_text u = record_text (printed_runs u).
Proof.
  unfold completes_linear_output_record. rewrite !andb_true_iff. intros ((_ & Hr) & _).
  unfold printed_text, record_text. by eapply returns_are_prefixes_spec.
Qed.

(** When a record is finalised as soon as its line feed arrives, without
    waiting for the screen to be quiet, the text read out is every printed run
    in order, none erased by a carriage return, and it stops at a line end. *)
Theorem linear_records_lose_nothing u :
  completes_linear_output_record u = true →
  printed_text u = record_text (printed_runs u) ∧
  (printed_text u = [] ∨ ∃ t, printed_text u = t ++ [LF]).
Proof.
  intros Hc. split; [by apply completed_record_text|].
  unfold completes_linear_output_record in Hc. rewrite !andb_true_iff in Hc. destruct Hc as (_ & Hlast).
  - unfold printed_text. destruct (last (printed_runs u)) as [run|] eqn:E; [|done].
    apply last_Some in E as (runs & ->). apply andb_true_iff in Hlast as [Hb Ht].
    apply bool_decide_eq_true in Hb, Ht. rewrite fold_left_app. cbn [fold_left]. unfold printed_text_step at 1 3.
    rewrite Hb, Ht, app_nil_r. case_bool_decide as E; [by left|]. right. by eexists.
Qed.

Definition record_example : UpdateSummary :=
  default_summary <| batch_count := 1 |>
    <| printed_runs := [{| text := bs "ok"; boundary := Continue |}; {| text := []; boundary := LineFeed |}] |>.
Lemma linear_records_lose_nothing_witness :
  completes_linear_output_record record_example = true ∧ printed_text record_example = bs "ok" ++ [LF].
Proof.
  split; [reflexivity|].
  exact (eq_trans (proj1 (linear_records_lose_nothing record_example eq_refl)) eq_refl).
Defined.

(** * Write runs *)

Inductive placement := Place (row col ch : N) | Other (operation : TerminalOperation).
(** The characters of a run, from the one at offset [i]; columns saturate as in
    the code. *)
Fixpoint place_run (row col i : N) (text : list N) : list placement :=
  match text with
  | [] => []
  | c :: text => Place row (sat_add u16_max col i) c :: place_run row col (i + 1) text
  end.
Definition placed_by (operation : TerminalOperation) : list placement :=
  match operation with WriteRun row col text => place_run row col 0 text | o => [Other o] end.
Definition placed (ops : list TerminalOperation) : list placement := mjoin (placed_by <$> ops).

Lemma placed_app l1 l2 : placed (l1 ++ l2) = placed l1 ++ placed l2.
Proof. unfold placed. by rewrite fmap_app, join_app. Qed.
Lemma placed_single o : placed [o] = placed_by o.
Proof. unfold placed. cbn. by rewrite app_nil_r. Qed.
Lemma place_run_app row col i t1 t2 :
  place_run row col i (t1 ++ t2) = place_run row col i t1 ++ place_run row col (i + len t1) t2.
Proof.
  revert i. induction t1 as [|c t1 IH]; intros i; cbn; [by rewrite N.add_0_r|].
  rewrite IH. do 2 f_equal. f_equal. lia.
Qed.
Lemma place_run_shift row col k i t : place_run row (sat_add u16_max col k) i t = place_run row col (k + i) t.
Proof.
  revert i. induction t as [|c t IH]; intros i; cbn; [done|]. rewrite IH. f_equal; [|by rewrite N.add_assoc].
  f_equal. unfold sat_add. lia.
Qed.

Lemma utf8_len_ascii t : is_ascii_text t = true → utf8_len t = len t.
Proof.
  induction t as [|c t IH]; [done|]. cbn [is_ascii_text forallb]. intros [Hc Ht]%andb_true_iff.
  change (utf8_len (c :: t)) with (len (utf8_encode c ++ mjoin (utf8_encode <$> t))).
  rewrite length_app, Nat2N.inj_add. fold (utf8_len t). rewrite IH by done.
  unfold utf8_encode. rewrite Hc. cbn [length]. lia.
Qed.
Lemma write_run_end_col_spec col t : write_run_end_col col t = sat_add u16_max col (len t).
Proof.
  unfold write_run_end_col. destruct (is_ascii_text t) eqn:E; [rewrite utf8_len_ascii by done|];
    unfold sat_add, to_u16; lia.
Qed.

(** A run stays within one block of columns, unless it lies in the last block,
    where columns saturate. *)
Definition in_block (o : TerminalOperation) : Prop :=
  match o with WriteRun _ col text => col < 65280 → col mod 256 + len text ≤ 256 | _ => True end.

Lemma append_chunk_spec target row col t :
  let result := append_terminal_write_run_chunk target row col t in
  placed result = placed target ++ place_run row col 0 t ∧
  (Forall in_block target → (col < 65280 → col mod 256 + len t ≤ 256) → Forall in_block result).
Proof.
  cbv zeta. unfold append_terminal_write_run_chunk.
  assert (placed (target ++ [WriteRun row col t]) = placed target ++ place_run row col 0 t ∧
    (Forall in_block target → (col < 65280 → col mod 256 + len t ≤ 256) →
     Forall in_block (target ++ [WriteRun row col t]))) as Hpush.
  { split; [by rewrite placed_app, placed_single|]. intros Ht Hc. apply Forall_app. by repeat constructor. }
  destruct (last target) as [[]|] eqn:E; try exact Hpush.
  destruct (_ && _) eqn:Ec; [|exact Hpush]. clear Hpush.
  apply last_Some in E as (l & ->). rewrite length_app. cbn [length]. rewrite Nat.add_1_r. cbn [pred].
  rewrite insert_app_r_alt, Nat.sub_diag by lia. cbn.
  rewrite !andb_true_iff, !N.eqb_eq, write_run_end_col_spec in Ec. destruct Ec as (((-> & Hb) & _) & He).
  rewrite !placed_app, !placed_single. cbn [placed_by]. split.
  - rewrite place_run_app, <-app_assoc. do 2 f_equal. rewrite <-He, place_run_shift. f_equal. lia.
  - intros [Hl Hp]%Forall_app Hc. apply Forall_app. split; [done|]. apply Forall_inv in Hp. constructor; [|constructor].
    cbn in *. unfold MAX_COALESCED_WRITE_RUN_COLUMNS in Hb. intros Hlt. rewrite length_app, Nat2N.inj_add.
    unfold sat_add, u16_max in He.
    pose proof (N.div_mod col0 256 ltac:(lia)). pose proof (N.div_mod col 256 ltac:(lia)).
    pose proof (N.Div0.div_le_mono 65280 col 256). change (65280 / 256) with 255 in *.
    destruct (N.ltb_spec col 65280) as [|Hge]; [lia|]. lia.
Qed.

Lemma chunk_limit_pos col : 0 < chunk_limit_at col ≤ 256.
Proof. unfold chunk_limit_at, MAX_COALESCED_WRITE_RUN_COLUMNS. pose proof (N.mod_lt col 256 ltac:(lia)). lia. Qed.

Lemma write_run_loop_spec target row col limit chunk t :
  limit = chunk_limit_at col → len chunk ≤ limit →
  let result := write_run_loop target row col (len chunk) limit chunk t in
  placed result = placed target ++ place_run row col 0 (reverse chunk ++ t) ∧
  (Forall in_block target → Forall in_block result).
Proof.
  cbv zeta. revert target col limit chunk. induction t as [|c t IH]; intros target col limit chunk Hl Hc;
    cbn [write_run_loop].
  - rewrite app_nil_r. destruct (append_chunk_spec target row col (reverse chunk)) as [Hp Hb].
    split; [done|]. intros Ht. apply Hb; [done|]. rewrite length_reverse. intros _. subst limit.
    unfold chunk_limit_at, MAX_COALESCED_WRITE_RUN_COLUMNS in Hc. pose proof (N.mod_lt col 256 ltac:(lia)). lia.
  - pose proof (chunk_limit_pos col). destruct (N.eqb_spec (len chunk) limit) as [Heq|Hne].
    + destruct (append_chunk_spec target row col (reverse chunk)) as [Hp Hb].
      set (target' := append_terminal_write_run_chunk target row col (reverse chunk)) in *.
      assert (Forall in_block target → Forall in_block target') as Hb'.
      { intros Ht. apply Hb; [done|]. rewrite length_reverse. intros _. subst limit.
        unfold chunk_limit_at, MAX_COALESCED_WRITE_RUN_COLUMNS in Hc. pose proof (N.mod_lt col 256 ltac:(lia)). lia. }
      assert (sat_add u16_max col (to_u16 (len chunk)) = sat_add u16_max col (len chunk)) as ->
        by (unfold sat_add, to_u16; lia).
      assert (placed target' ++ place_run row (sat_add u16_max col (len chunk)) 0 (c :: t)
              = placed target ++ place_run row col 0 (reverse chunk ++ c :: t)) as Hjoin.
      { rewrite Hp, place_run_shift, place_run_app, length_reverse, <-app_assoc. do 3 f_equal. lia. }
      destruct (N.eqb_spec (sat_add u16_max col (len chunk)) u16_max) as [Hmax|_].
      * destruct (append_chunk_spec target' row (sat_add u16_max col (len chunk)) (c :: t)) as [Hp' Hb2].
        split; [by rewrite Hp'|]. intros Ht. apply Hb2; [by apply Hb'|]. rewrite Hmax. unfold u16_max. lia.
      * destruct (IH target' (sat_add u16_max col (len chunk)) (chunk_limit_at (sat_add u16_max col (len chunk))) [c])
          as [Hp' Hb2]; [done|cbn; pose proof (chunk_limit_pos (sat_add u16_max col (len chunk))); lia|].
        change (len [c]) with 1 in *. change (sat_add usize_max 0 1) with 1. split; [by rewrite Hp'|]. auto.
    + assert (sat_add usize_max (len chunk) 1 = len (c :: chunk)) as ->.
      { cbn [length]. unfold sat_add, usize_max, u64_max. lia. }
      destruct (IH target col limit (c :: chunk)) as [Hp' Hb2]; [done|cbn [length]; lia|].
      rewrite Hp', reverse_cons, <-app_assoc. by split.
Qed.

Lemma append_operations_spec target source :
  placed (append_terminal_operations target source) = placed target ++ placed source ∧
  (Forall in_block target → Forall in_block (append_terminal_operations target source)).
Proof.
  unfold append_terminal_operations. revert target.
  induction source as [|o source IH]; intros target; cbn [fold_left]; [by rewrite app_nil_r|].
  assert (placed (append_terminal_operation target o) = placed target ++ placed_by o ∧
    (Forall in_block target → Forall in_block (append_terminal_operation target o))) as [Hp Hb].
  { assert (∀ o', in_block o' → placed (target ++ [o']) = placed target ++ placed_by o' ∧
      (Forall in_block target → Forall in_block (target ++ [o']))) as Hpush.
    { intros o' Ho. rewrite placed_app, placed_single. split; [done|]. intros. apply Forall_app. by repeat constructor. }
    destruct o; cbn [append_terminal_operation]; try by apply Hpush.
    unfold append_terminal_write_run. destruct (_ || _) eqn:E.
    - destruct (append_chunk_spec target row col text0) as [Hp Hb]. split; [done|]. intros Ht. apply Hb; [done|].
      intros Hlt. apply orb_true_iff in E as [E|E].
      + apply bool_decide_eq_true in E as ->. cbn. pose proof (N.mod_lt col 256 ltac:(lia)). lia.
      + apply N.eqb_eq in E as ->. unfold u16_max in Hlt. lia.
    - destruct (write_run_loop_spec target row col (chunk_limit_at col) [] text0) as [Hp Hb];
        [done|apply N.le_0_l|]. by split. }
  destruct (IH (append_terminal_operation target o)) as [Hp' Hb']. split; [|auto].
  rewrite Hp', Hp, <-app_assoc. done.
Qed.

(** Splitting and joining write hints changes no character and no column: the
    merged hints place exactly what the hints of the two updates place, in
    order; and no run grows over the boundary of its block of 256 columns. *)
Theorem merged_hints_place_the_same_characters target source :
  placed (append_terminal_operations target source) = placed target ++ placed source ∧
  (Forall in_block target → Forall in_block (append_terminal_operations target source)).
Proof. apply append_operations_spec. Qed.

Lemma merged_hints_place_the_same_characters_witness :
  Forall in_block (append_terminal_operations [WriteRun 0 250 (bs "abc")] [WriteRun 0 253 (bs "defgh")]) ∧
  append_terminal_operations [WriteRun 0 250 (bs "abc")] [WriteRun 0 253 (bs "defgh")]
    = [WriteRun 0 250 (bs "abcdef"); WriteRun 0 256 (bs "gh")].
Proof.
  split; [|reflexivity].
  refine (proj2 (merged_hints_place_the_same_characters _ _) _). repeat constructor. vm_compute. discriminate.
Defined.

(** * Merging summaries *)

Definition counters_ok (u : UpdateSummary) : Prop :=
  bells (effects u) ≤ usize_max ∧ cursor_operations u ≤ usize_max ∧
  cursor_operations_after_last_line_feed u ≤ usize_max ∧ line_feed_boundaries u ≤ usize_max ∧
  scroll_operations u ≤ usize_max ∧ batch_count u ≤ usize_max.
Definition summary_ok (u : UpdateSummary) : Prop :=
  Forall range_ok (changed_rows u) ∧ damage_ok (damage u) ∧ counters_ok u ∧
  (batch_count u = 0 → u = default_summary).
(** The summary without its printed runs and hints, whose joining depends on
    what was joined before. *)
Definition facts (u : UpdateSummary) : UpdateSummary := (u <| printed_runs := [] |>) <| operations := [] |>.

Lemma sat_add_assoc m a b c : sat_add m (sat_add m a b) c = sat_add m a (sat_add m b c).
Proof. unfold sat_add. lia. Qed.
Lemma sat_add_0_l m a : a ≤ m → sat_add m 0 a = a.
Proof. unfold sat_add. lia. Qed.
Lemma sat_add_le m a b : sat_add m a b ≤ m.
Proof. unfold sat_add. lia. Qed.
Lemma sat_add_pos a b : (0 <? sat_add usize_max a b) = (0 <? a) || (0 <? b).
Proof. unfold sat_add, usize_max, u64_max. lia. Qed.
Lemma sat_add_zero a b : (sat_add usize_max a b =? 0) = (a =? 0) && (b =? 0).
Proof. unfold sat_add, usize_max, u64_max. lia. Qed.

Lemma merge_ok a b : summary_ok a → summary_ok b → summary_ok (merge a b).
Proof.
  intros (Ha & Da & Ca & Na) (Hb & Db & Cb & Nb). unfold merge.
  destruct (N.eqb_spec (batch_count b) 0) as [|Hne]; [by repeat split; try apply Ca|].
  unfold summary_ok, counters_ok in *. cbn. split_and!; try apply sat_add_le.
  - by apply merge_row_ranges_ok.
  - by apply merge_damage_ok.
  - destruct (0 <? _); [tauto|apply sat_add_le].
  - unfold sat_add, usize_max, u64_max. lia.
Qed.

Lemma damage_assoc d1 d2 d3 :
  damage_ok d1 → damage_ok d2 → damage_ok d3 →
  merge_damage (merge_damage d1 d2) d3 = merge_damage d1 (merge_damage d2 d3).
Proof. destruct d1, d2, d3; cbn; intros; try done. by rewrite merge_row_ranges_assoc. Qed.

(** However a sequence of updates is grouped, the accumulated facts are the
    same: a view may merge one by one, the batch of the event loop several at a
    time.  Merging nothing changes nothing. *)
Theorem merging_is_associative a b c :
  summary_ok a → summary_ok b → summary_ok c →
  facts (merge (merge a b) c) = facts (merge a (merge b c)) ∧ merge a default_summary = a.
Proof.
  intros (Ha & Da & Ca & _) (Hb & Db & Cb & Nb) (Hc & Dc & Cc & _). split; [|done].
  destruct (N.eqb_spec (batch_count c) 0) as [Ec|Ec]; [unfold merge at 1 4; by rewrite Ec|].
  assert (batch_count (merge b c) ≠ 0) as Ebc.
  { unfold merge. rewrite (proj2 (N.eqb_neq _ _) Ec). cbn. unfold sat_add, usize_max, u64_max. lia. }
  unfold merge at 1 3. rewrite (proj2 (N.eqb_neq _ _) Ec), (proj2 (N.eqb_neq _ _) Ebc).
  unfold merge. rewrite (proj2 (N.eqb_neq _ _) Ec). unfold facts, counters_ok in *.
  destruct (N.eqb_spec (batch_count b) 0) as [Eb|Eb].
  - rewrite (Nb Eb). cbn. rewrite !sat_add_0_l by tauto.
    f_equal; try done.
    + by destruct (damage c).
    + by destruct (0 <? _).
    + by rewrite merge_row_ranges_normalized.
  - cbn. f_equal; try done; rewrite ?sat_add_assoc, ?orb_assoc, ?app_assoc; try done.
    + by apply damage_assoc.
    + rewrite sat_add_pos. destruct (0 <? line_feed_boundaries b), (0 <? line_feed_boundaries c); cbn;
        by rewrite ?sat_add_assoc.
    + by apply merge_row_ranges_assoc.
    + by rewrite sat_add_zero, (proj2 (N.eqb_neq _ _) Eb), andb_false_r.
    + by rewrite sat_add_zero, (proj2 (N.eqb_neq _ _) Eb), andb_false_r.
Qed.

Lemma merging_is_associative_witness :
  facts (merge (merge record_example default_summary) record_example)
    = facts (merge record_example (merge default_summary record_example)).
Proof.
  assert (summary_ok record_example ∧ summary_ok default_summary) as [H1 H2].
  { unfold summary_ok, counters_ok. cbn. unfold usize_max, u64_max. split_and!; (constructor || lia || done). }
  exact (proj1 (merging_is_associative record_example default_summary record_example H1 H2 H1)).
Defined.

(** Printed runs are different: once a line feed has taken in the text after
    it, a carriage return merged before it is no longer seen as its pair.  The
    view therefore merges the updates of the engine one at a time. *)
Example grouping_printed_runs_matters :
  let run t b := {| text := t; boundary := b |} in
  let a := [run [97] Continue; run [] CarriageReturn] in
  let b := [run [] LineFeed] in
  let c := [run [98] Continue] in
  append_printed_runs (append_printed_runs a b) c ≠ append_printed_runs a (append_printed_runs b c).
Proof. discriminate. Qed.
