(* ===== verification/StreamObserver.v ===== *)
(** The observer of the terminal's byte stream (src/crates/lector-ghostty/src/lib.rs,
    [StreamObserver]): while the engine interprets the bytes, a second parser
    reports print, control and escape callbacks to the observer, which records
    the printed text, hints of cell operations and whether the output was plain
    lines of text.

    The parser (crate [vte]) is not modelled: the observer is run on any
    sequence of its callbacks, with [Raw b] for the byte that the update loop
    shows the observer before it gives it to the parser. *)

From S2P Require Import Prelude Terminal Screen RowRanges TerminalUpdate.
Local Open Scope N_scope.

(** * State *)

Record StreamObserver := {
  events : list SemanticKind;
  printed_runs : list PrintedRun;
  current_print : list N;
  output_report_structural : bool;
  raw_escape_pending : bool;
  raw_utf8_continuations : N;
  raw_utf8_next_min : N;
  raw_utf8_next_max : N;
  operations : list TerminalOperation;
  operation_rows : N;
  operation_cols : N;
  operation_row : N;
  operation_col : N;
  scroll_region : option (N * N);
  origin_mode : bool;
  left_right_margin_mode : bool;
  autowrap : bool;
  observed_alternate_screen : bool;
  operation_reliable : bool;
  last_printed : option N;
  cursor_operations : N;
  cursor_operations_after_last_line_feed : N;
  scroll_operations : N;
  history_cleared : bool;
  history_changed : bool;
  active_hyperlink : option bytes;
  clipboard_read_queries : list bytes;
  default_color_queries : list N;
  synchronized_output_boundary : option bool;
  cursor_visibility_boundary : option bool;
  semantic_input_boundary : bool
}.

Definition default_observer : StreamObserver := {|
  events := []; printed_runs := []; current_print := []; output_report_structural := false;
  raw_escape_pending := false; raw_utf8_continuations := 0; raw_utf8_next_min := 0; raw_utf8_next_max := 0;
  operations := []; operation_rows := 0; operation_cols := 0; operation_row := 0; operation_col := 0;
  scroll_region := None; origin_mode := false; left_right_margin_mode := false; autowrap := false;
  observed_alternate_screen := false; operation_reliable := false; last_printed := None;
  cursor_operations := 0; cursor_operations_after_last_line_feed := 0; scroll_operations := 0;
  history_cleared := false; history_changed := false; active_hyperlink := None;
  clipboard_read_queries := []; default_color_queries := []; synchronized_output_boundary := None;
  cursor_visibility_boundary := None; semantic_input_boundary := false |}.

(** Parameters of a control sequence: each is a non-empty list of
    subparameters ([u16]). *)
Abbreviation Params := (list (list N)) (only parsing).

Inductive Callback :=
| Raw (byte : N)
| Print (character : N)
| Execute (byte : N)
| Hook
| OscDispatch (params : list bytes)
| CsiDispatch (params : list (list N)) (intermediates : bytes) (ignore : bool) (action : N)
| EscDispatch (intermediates : bytes) (byte : N).

(** * Small steps *)

Definition begin_update (snapshot : TerminalSnapshot) (o : StreamObserver) : StreamObserver :=
  let o := o <| operations := [] |> in
  let o := o <| semantic_input_boundary := false |> in
  let o := o <| output_report_structural :=
    alternate_screen snapshot || negb (visible (cursor snapshot)) || Screen.synchronized_output (modes snapshot) ||
    application_keypad (modes snapshot) || application_cursor (modes snapshot) ||
    negb (bool_decide (mouse_protocol (modes snapshot) = NoMouse)) ||
    bool_decide (is_Some (scroll_region o)) || origin_mode o || left_right_margin_mode o |> in
  let o := o <| operation_rows := to_u16 (len (rows snapshot)) |> in
  let o := o <| operation_cols := match head (rows snapshot) with Some r => to_u16 (len (cells r)) | None => 0 end |> in
  let o := o <| operation_row := cursor_row (cursor snapshot) |> in
  let o := o <| operation_col := cursor_col (cursor snapshot) |> in
  let o := o <| observed_alternate_screen := alternate_screen snapshot |> in
  let o := o <| operation_reliable := (0 <? operation_rows o) && (0 <? operation_cols o) |> in
  match scroll_region o with
  | Some (top, bottom) =>
      if (operation_rows o <=? top) || (operation_rows o <=? bottom) then o <| scroll_region := None |> else o
  | None => o
  end.

Definition scroll_bounds (o : StreamObserver) : N * N :=
  default (0, operation_rows o - 1) (scroll_region o).

Definition parameter (params : Params) (index : nat) (default_value : N) : N :=
  match params !! index ≫= head with
  | Some value => if value =? 0 then default_value else value
  | None => default_value
  end.
Definition count (params : Params) : N := parameter params 0 1.

Definition record_cursor_operation (o : StreamObserver) : StreamObserver :=
  (o <| cursor_operations := sat_add usize_max (cursor_operations o) 1 |>)
     <| cursor_operations_after_last_line_feed := sat_add usize_max (cursor_operations_after_last_line_feed o) 1 |>.

Definition private_modes_are_output_neutral (params : Params) : bool :=
  forallb (λ value, value =? 2004) (mjoin params) && (len (mjoin params) =? 1).

Definition mark_visible_output (o : StreamObserver) : StreamObserver := o <| semantic_input_boundary := false |>.
Definition mark_structural_output (o : StreamObserver) : StreamObserver :=
  (o <| output_report_structural := true |>) <| semantic_input_boundary := false |>.

(** The expected continuation bytes after the first byte of a character: how
    many, and the range of the next one. *)
Definition utf8_expectation (byte : N) : N * N * N :=
  if in_range 194 223 byte then (1, 128, 191)
  else if byte =? 224 then (2, 160, 191)
  else if in_range 225 236 byte || in_range 238 239 byte then (2, 128, 191)
  else if byte =? 237 then (2, 128, 159)
  else if byte =? 240 then (3, 144, 191)
  else if in_range 241 243 byte then (3, 128, 191)
  else if byte =? 244 then (3, 128, 143)
  else (0, 0, 0).
Definition set_utf8_expectation (e : N * N * N) (o : StreamObserver) : StreamObserver :=
  let '(continuations, next_min, next_max) := e in
  ((o <| raw_utf8_continuations := continuations |>) <| raw_utf8_next_min := next_min |>)
    <| raw_utf8_next_max := next_max |>.
Definition observe_raw_byte (byte : N) (o : StreamObserver) : StreamObserver :=
  if (0 <? raw_utf8_continuations o) && in_range (raw_utf8_next_min o) (raw_utf8_next_max o) byte then
    (set_utf8_expectation (raw_utf8_continuations o - 1, 128, 191) o) <| raw_escape_pending := false |>
  else
    let o := o <| raw_utf8_continuations := 0 |> in
    let o := if (byte =? 159) || (raw_escape_pending o && (byte =? 95)) then mark_structural_output o else o in
    let o := o <| raw_escape_pending := byte =? ESC |> in
    set_utf8_expectation (utf8_expectation byte) o.

Definition push_operation (operation : TerminalOperation) (o : StreamObserver) : StreamObserver :=
  o <| operations := operations o ++ [operation] |>.
Definition unreliable (o : StreamObserver) : StreamObserver := o <| operation_reliable := false |>.

Definition record_write (character : N) (o : StreamObserver) : StreamObserver :=
  if operation_cols o <=? operation_col o then unreliable o
  else if operation_col o =? operation_cols o - 1 then
    unreliable (if negb (observed_alternate_screen o) && (operation_row o =? operation_rows o - 1)
                then o <| history_changed := true |> else o)
  else if negb (character <? 128) then unreliable o
  else
    let push := push_operation (WriteRun (operation_row o) (operation_col o) [character]) o in
    let o :=
      match last (operations o) with
      | Some (WriteRun row col text) =>
          if (row =? operation_row o) && (sat_add u16_max col (to_u16 (utf8_len text)) =? operation_col o)
          then o <| operations := <[pred (length (operations o)) := WriteRun row col (text ++ [character])]> (operations o) |>
          else push
      | _ => push
      end in
    (o <| operation_col := sat_add u16_max (operation_col o) 1 |>) <| last_printed := Some character |>.

Definition record_erase (row col count : N) (o : StreamObserver) : StreamObserver :=
  let count := N.min count (operation_cols o - col) in
  if (0 <? count) && (row <? operation_rows o) then push_operation (EraseChars row col count) o else o.

Definition line_feed (o : StreamObserver) : StreamObserver :=
  let '(top, bottom) := scroll_bounds o in
  if operation_row o =? bottom then
    let o := if negb (observed_alternate_screen o) && (top =? 0) && (bottom =? operation_rows o - 1)
             then o <| history_changed := true |> else o in
    push_operation (ScrollUp top bottom 1) o
  else o <| operation_row := N.min (sat_add u16_max (operation_row o) 1) (operation_rows o - 1) |>.

Definition has_boundary_events (o : StreamObserver) : bool :=
  negb (bool_decide (events o = [])) || negb (bool_decide (clipboard_read_queries o = [])) ||
  negb (bool_decide (default_color_queries o = [])) ||
  bool_decide (is_Some (synchronized_output_boundary o)) || bool_decide (is_Some (cursor_visibility_boundary o)).

(** [take_..]: the value and the observer without it. *)
Definition take_synchronized_output_boundary (o : StreamObserver) : option bool * StreamObserver :=
  (synchronized_output_boundary o, o <| synchronized_output_boundary := None |>).
Definition take_cursor_visibility_boundary (o : StreamObserver) : option bool * StreamObserver :=
  (cursor_visibility_boundary o, o <| cursor_visibility_boundary := None |>).
Definition take_clipboard_read_queries (o : StreamObserver) : list bytes * StreamObserver :=
  (clipboard_read_queries o, o <| clipboard_read_queries := [] |>).
Definition take_default_color_queries (o : StreamObserver) : list N * StreamObserver :=
  (default_color_queries o, o <| default_color_queries := [] |>).
Definition take_semantic_events (o : StreamObserver) : list SemanticKind * StreamObserver :=
  (events o, o <| events := [] |>).
Definition take_history_checkpoint_change (o : StreamObserver) : bool * StreamObserver :=
  (history_changed o || history_cleared o, (o <| history_changed := false |>) <| history_cleared := false |>).

Definition flush_print (o : StreamObserver) : StreamObserver :=
  if bool_decide (current_print o = []) then o
  else (o <| printed_runs := printed_runs o ++ [{| text := current_print o; boundary := Continue |}] |>)
         <| current_print := [] |>.

Definition push_boundary (b : PrintBoundary) (o : StreamObserver) : StreamObserver :=
  let o := flush_print o in
  let o := if bool_decide (b = LineFeed) then o <| cursor_operations_after_last_line_feed := 0 |> else o in
  let push := o <| printed_runs := printed_runs o ++ [{| text := []; boundary := b |}] |> in
  if bool_decide (b = LineFeed) then
    match last (printed_runs o) with
    | Some previous =>
        if bool_decide (text previous = []) && bool_decide (boundary previous = CarriageReturn)
        then o <| printed_runs := <[pred (length (printed_runs o)) := {| text := text previous; boundary := LineFeed |}]>
                                    (printed_runs o) |>
        else push
    | None => push
    end
  else push.

Record StreamUpdate := {
  update_printed_runs : list PrintedRun;
  update_output_report_structural : bool;
  update_semantic_input_boundary : bool;
  update_operations : list TerminalOperation;
  update_cursor_operations : N;
  update_cursor_operations_after_last_line_feed : N;
  update_scroll_operations : N;
  update_history_changed : bool
}.

Definition take_update (snapshot : TerminalSnapshot) (o : StreamObserver) : StreamUpdate * StreamObserver :=
  let o := flush_print o in
  let '(changed, o) := take_history_checkpoint_change o in
  let kept := operation_reliable o && (operation_row o =? cursor_row (cursor snapshot)) &&
              (operation_col o =? cursor_col (cursor snapshot)) in
  ({| update_printed_runs := printed_runs o;
      update_output_report_structural := output_report_structural o;
      update_semantic_input_boundary := semantic_input_boundary o;
      update_operations := if kept then operations o else [];
      update_cursor_operations := cursor_operations o;
      update_cursor_operations_after_last_line_feed := cursor_operations_after_last_line_feed o;
      update_scroll_operations := scroll_operations o;
      update_history_changed := changed |},
   ((((((o <| printed_runs := [] |>) <| output_report_structural := false |>) <| semantic_input_boundary := false |>)
     <| operations := [] |>) <| cursor_operations := 0 |>) <| cursor_operations_after_last_line_feed := 0 |>)
     <| scroll_operations := 0 |>).

(** * Callbacks *)

(** [vte::Perform::print]. *)
Definition print (character : N) (o : StreamObserver) : StreamObserver :=
  let o := mark_visible_output o in
  let o := o <| current_print := current_print o ++ [character] |> in
  record_write character o.

Definition execute (byte : N) (o : StreamObserver) : StreamObserver :=
  let o := flush_print o in
  if byte =? 8 then
    let o := record_cursor_operation (mark_structural_output o) in
    o <| operation_col := operation_col o - 1 |>
  else if byte =? CR then
    (push_boundary CarriageReturn (mark_visible_output o)) <| operation_col := 0 |>
  else if byte =? LF then line_feed (push_boundary LineFeed (mark_visible_output o))
  else if (byte =? 11) || (byte =? 12) then line_feed (push_boundary LineFeed (mark_structural_output o))
  else if byte =? TAB then unreliable (mark_structural_output o)
  else if (byte =? 0) || (byte =? BEL) then o
  else mark_structural_output o.

Definition hook (o : StreamObserver) : StreamObserver := mark_structural_output (flush_print o).

(** [str::parse::<i32>]. *)
Definition parse_i32 (s : bytes) : option Z :=
  match s with
  | 45 :: ds => (λ v, - Z.of_N v)%Z <$> parse_digits 2147483648 ds
  | _ => Z.of_N <$> parse_uint 2147483647 s
  end.

(** OSC commands that do not address text cells. *)
Definition neutral_osc (command : bytes) : bool :=
  bool_decide (command ∈ bs <$> ["0"; "1"; "2"; "4"; "7"; "8"; "9"; "10"; "11"; "12"; "52"]%string).

Definition semantic_kind (marker : bytes) (rest : list bytes) : option SemanticKind :=
  if bool_decide (marker = bs "A") then Some PromptStart
  else if bool_decide (marker = bs "B") then Some InputStart
  else if bool_decide (marker = bs "C") then Some CommandStart
  else if bool_decide (marker = bs "D") then
    Some (CommandFinished (value ← head rest; if utf8_valid value then parse_i32 value else None))
  else None.

Definition clipboard_query (params : list bytes) : option bytes :=
  match params with
  | [command; location; question] =>
      if bool_decide (command = bs "52") && bool_decide (question = bs "?") then Some location else None
  | _ => None
  end.
Definition color_query (params : list bytes) : option N :=
  match params with
  | [command; question] =>
      if bool_decide (question = bs "?") then
        if bool_decide (command = bs "10") then Some 10 else if bool_decide (command = bs "11") then Some 11 else None
      else None
  | _ => None
  end.

Definition osc_dispatch (params : list bytes) (o : StreamObserver) : StreamObserver :=
  let o := flush_print o in
  match clipboard_query params with
  | Some location => o <| clipboard_read_queries := clipboard_read_queries o ++ [location] |>
  | None =>
  match color_query params with
  | Some query => o <| default_color_queries := default_color_queries o ++ [query] |>
  | None =>
  if bool_decide (head params = Some (bs "8")) then
    let uri := join 59 (drop 2 params) in
    o <| active_hyperlink := if bool_decide (uri = []) then None else if utf8_valid uri then Some uri else None |>
  else
    match params with
    | command :: marker :: rest =>
        if bool_decide (command = bs "133") then
          match semantic_kind marker rest with
          | Some kind =>
              (o <| semantic_input_boundary := bool_decide (kind = InputStart) |>) <| events := events o ++ [kind] |>
          | None => o <| semantic_input_boundary := false |>
          end
        else if neutral_osc command then o else mark_structural_output o
    | [command] => if neutral_osc command then o else mark_structural_output o
    | [] => mark_structural_output o
    end
  end
  end.

(** One private mode of [CSI ? .. h] and [CSI ? .. l]. *)
Definition input_mode (value : N) : bool :=
  bool_decide (value ∈ [1; 12; 66; 67; 1000; 1002; 1003; 1004; 1005; 1006; 1015; 1016; 2004]).
Definition private_mode (enabled : bool) (o : StreamObserver) (value : N) : StreamObserver :=
  if value =? 6 then o <| origin_mode := enabled |>
  else if value =? 7 then o <| autowrap := enabled |>
  else if value =? 69 then o <| left_right_margin_mode := enabled |>
  else if (value =? 47) || (value =? 1047) || (value =? 1049) then
    unreliable ((o <| observed_alternate_screen := enabled |>) <| scroll_region := None |>)
  else if value =? 25 then o <| cursor_visibility_boundary := Some enabled |>
  else if value =? 2026 then o <| synchronized_output_boundary := Some enabled |>
  else if input_mode value then o
  else unreliable o.

(** The action of a control sequence is a letter or sign; [sign action c]. *)
Definition sign (action : N) (c : string) : bool := bool_decide ([action] = bs c).

(** The rows [first], [first + 1], .. erased whole. *)
Fixpoint erase_rows (n : nat) (first : N) (o : StreamObserver) : StreamObserver :=
  match n with
  | O => o
  | S n => erase_rows n (first + 1) (record_erase first 0 (operation_cols o) o)
  end.
Fixpoint repeat_write (n : nat) (character : N) (o : StreamObserver) : StreamObserver :=
  match n with O => o | S n => repeat_write n character (record_write character o) end.

Definition erase_line (mode : N) (o : StreamObserver) : StreamObserver :=
  if mode =? 0 then record_erase (operation_row o) (operation_col o) (operation_cols o - operation_col o) o
  else if mode =? 1 then record_erase (operation_row o) 0 (sat_add u16_max (operation_col o) 1) o
  else if mode =? 2 then record_erase (operation_row o) 0 (operation_cols o) o
  else unreliable o.
Definition erase_display (mode : N) (o : StreamObserver) : StreamObserver :=
  if mode =? 0 then
    let o := record_erase (operation_row o) (operation_col o) (operation_cols o - operation_col o) o in
    let first := sat_add u16_max (operation_row o) 1 in
    erase_rows (N.to_nat (operation_rows o - first)) first o
  else if mode =? 1 then
    let o := erase_rows (N.to_nat (operation_row o)) 0 o in
    record_erase (operation_row o) 0 (sat_add u16_max (operation_col o) 1) o
  else if mode =? 2 then erase_rows (N.to_nat (operation_rows o)) 0 o
  else if mode =? 3 then o
  else unreliable o.

Definition set_scroll_region (params : Params) (o : StreamObserver) : StreamObserver :=
  let top := parameter params 0 1 - 1 in
  let bottom := N.min (parameter params 1 (operation_rows o) - 1) (operation_rows o - 1) in
  if (top <? bottom) && (bottom <? operation_rows o) then
    let o := o <| scroll_region :=
      if negb (top =? 0) || negb (bottom =? operation_rows o - 1) then Some (top, bottom) else None |> in
    (o <| operation_row := if origin_mode o then top else 0 |>) <| operation_col := 0 |>
  else unreliable o.

Definition scroll (up : bool) (params : Params) (o : StreamObserver) : StreamObserver :=
  let o := o <| scroll_operations := scroll_operations o + 1 |> in
  let '(top, bottom) := scroll_bounds o in
  let o := if up && negb (observed_alternate_screen o) && (top =? 0) && (bottom =? operation_rows o - 1)
           then o <| history_changed := true |> else o in
  push_operation ((if up then ScrollUp else ScrollDown) top bottom (count params)) o.

Definition edit_lines (insert : bool) (params : Params) (o : StreamObserver) : StreamObserver :=
  let '(_, bottom) := scroll_bounds o in
  if operation_row o <=? bottom
  then push_operation ((if insert then InsertLines else DeleteLines) (operation_row o) bottom (count params)) o
  else o.

Definition move_row_up (n : N) (o : StreamObserver) := o <| operation_row := operation_row o - n |>.
Definition move_row_down (n : N) (o : StreamObserver) :=
  o <| operation_row := N.min (sat_add u16_max (operation_row o) n) (operation_rows o - 1) |>.
Definition set_col (c : N) (o : StreamObserver) := o <| operation_col := N.min c (operation_cols o - 1) |>.

Definition position_cursor (params : Params) (o : StreamObserver) : StreamObserver :=
  let row := parameter params 0 1 - 1 in
  let row := if origin_mode o then sat_add u16_max row (scroll_bounds o).1 else row in
  let o := o <| operation_row := N.min row (operation_rows o - 1) |> in
  set_col (parameter params 1 1 - 1) o.

(** [match action] for sequences without intermediates. *)
Definition csi_action (params : Params) (action : N) (o : StreamObserver) : StreamObserver :=
  let moved := record_cursor_operation o in
  if sign action "A" then move_row_up (count params) moved
  else if sign action "B" then move_row_down (count params) moved
  else if sign action "C" then set_col (sat_add u16_max (operation_col moved) (count params)) moved
  else if sign action "D" then moved <| operation_col := operation_col moved - count params |>
  else if sign action "E" then (move_row_down (count params) moved) <| operation_col := 0 |>
  else if sign action "F" then (move_row_up (count params) moved) <| operation_col := 0 |>
  else if sign action "G" || sign action "`" then set_col (parameter params 0 1 - 1) moved
  else if sign action "H" || sign action "f" then position_cursor params moved
  else if sign action "d" then
    moved <| operation_row := N.min (parameter params 0 1 - 1) (operation_rows moved - 1) |>
  else if sign action "r" && negb (left_right_margin_mode o) then set_scroll_region params o
  else if sign action "S" || sign action "T" then scroll (sign action "S") params o
  else if sign action "L" || sign action "M" then edit_lines (sign action "L") params o
  else if sign action "@" then push_operation (InsertChars (operation_row o) (operation_col o) (count params)) o
  else if sign action "P" then push_operation (DeleteChars (operation_row o) (operation_col o) (count params)) o
  else if sign action "X" then record_erase (operation_row o) (operation_col o) (count params) o
  else if sign action "K" then erase_line (parameter params 0 0) o
  else if sign action "J" then erase_display (parameter params 0 0) o
  else if sign action "b" then
    match last_printed o with
    | Some character => repeat_write (N.to_nat (count params)) character o
    | None => unreliable o
    end
  else if sign action "m" || sign action "n" || sign action "c" then o
  else unreliable o.

Definition csi_dispatch (params : Params) (intermediates : bytes) (ignore : bool) (action : N) (o : StreamObserver)
  : StreamObserver :=
  let o := flush_print o in
  let set_or_reset := sign action "h" || sign action "l" in
  let private := bool_decide (intermediates = bs "?") in
  let output_neutral_private_mode :=
    negb ignore && private && set_or_reset && private_modes_are_output_neutral params in
  let plain_neutral :=
    negb ignore && bool_decide (intermediates = []) && (sign action "m" || sign action "n" || sign action "c") in
  let o := if negb plain_neutral && negb output_neutral_private_mode then mark_structural_output o else o in
  if private && set_or_reset then fold_left (private_mode (sign action "h")) (mjoin params) o
  else if bool_decide (intermediates = []) then
    let o := if sign action "J" && bool_decide (head params ≫= head = Some 3)
             then (o <| history_cleared := true |>) <| history_changed := true |> else o in
    csi_action params action o
  else unreliable o.

Definition reverse_index (o : StreamObserver) : StreamObserver :=
  let '(top, bottom) := scroll_bounds o in
  if operation_row o =? top then push_operation (ScrollDown top bottom 1) o
  else o <| operation_row := operation_row o - 1 |>.

Definition esc_dispatch (intermediates : bytes) (byte : N) (o : StreamObserver) : StreamObserver :=
  let o := mark_structural_output (flush_print o) in
  if negb (bool_decide (intermediates = [])) then unreliable o
  else if sign byte "D" then line_feed o
  else if sign byte "E" then line_feed (o <| operation_col := 0 |>)
  else if sign byte "M" then reverse_index o
  else if sign byte "c" then
    unreliable ((((o <| scroll_region := None |>) <| origin_mode := false |>) <| left_right_margin_mode := false |>)
      <| autowrap := true |>)
  else o.

Definition callback (o : StreamObserver) (c : Callback) : StreamObserver :=
  match c with
  | Raw byte => observe_raw_byte byte o
  | Print character => print character o
  | Execute byte => execute byte o
  | Hook => hook o
  | OscDispatch params => osc_dispatch params o
  | CsiDispatch params intermediates ignore action => csi_dispatch params intermediates ignore action o
  | EscDispatch intermediates byte => esc_dispatch intermediates byte o
  end.
Definition observe (o : StreamObserver) (cs : list Callback) : StreamObserver := fold_left callback cs o.

(** * From the observer to the summary *)

(** [UpdateSnapshot]: what the engine reports of one write; the fields that
    [take_update] supplies are kept together. *)
Record UpdateSnapshot := {
  snapshot_effects : list TerminalEvent;
  snapshot_pty_replies : bytes;
  stream : StreamUpdate;
  snapshot_parser_continuation : bool;
  snapshot_damage : TerminalDamage;
  snapshot_changed_rows : list (N * N);
  snapshot_cursor_before : Cursor;
  snapshot_cursor_after : Cursor;
  alternate_screen_before : bool;
  alternate_screen_after : bool;
  snapshot_synchronized_output : bool;
  snapshot_synchronized_output_closed : bool;
  snapshot_cursor_visibility_restored : bool
}.

Definition ghostty_screen_identity (alternate : bool) : ScreenIdentity :=
  if alternate then AlternateScreen else PrimaryScreen.
Definition is_pty_reply (e : TerminalEvent) : bool := match e with PtyReply _ => true | _ => false end.
Definition is_bell (e : TerminalEvent) : bool := match e with Bell => true | _ => false end.
Definition is_title_change (e : TerminalEvent) : bool := match e with TitleChanged _ => true | _ => false end.
Definition is_line_feed (r : PrintedRun) : bool := bool_decide (boundary r = LineFeed).

(** The engine clears the input boundary when it is in the middle of a
    sequence. *)
Definition normalize_ghostty_update (u : UpdateSnapshot) : UpdateSummary :=
  let effects := List.filter (λ e, negb (is_pty_reply e)) (snapshot_effects u) in
  let s := stream u in
  {| TerminalUpdate.effects := {|
       bells := len (List.filter is_bell effects);
       title_changed := existsb is_title_change effects;
       TerminalUpdate.events := effects |};
     TerminalUpdate.pty_replies := snapshot_pty_replies u;
     TerminalUpdate.damage := snapshot_damage u;
     TerminalUpdate.printed_runs := update_printed_runs s;
     TerminalUpdate.output_report_structural := update_output_report_structural s;
     TerminalUpdate.parser_continuation := snapshot_parser_continuation u;
     TerminalUpdate.operations := update_operations s;
     TerminalUpdate.cursor_operations := update_cursor_operations s;
     TerminalUpdate.cursor_operations_after_last_line_feed := update_cursor_operations_after_last_line_feed s;
     TerminalUpdate.line_feed_boundaries := len (List.filter is_line_feed (update_printed_runs s));
     TerminalUpdate.scroll_operations := update_scroll_operations s;
     TerminalUpdate.history_changed := update_history_changed s;
     TerminalUpdate.changed_rows := snapshot_changed_rows u;
     TerminalUpdate.cursor_before := snapshot_cursor_before u;
     TerminalUpdate.cursor_after := snapshot_cursor_after u;
     TerminalUpdate.screen_before := ghostty_screen_identity (alternate_screen_before u);
     TerminalUpdate.screen_after := ghostty_screen_identity (alternate_screen_after u);
     TerminalUpdate.synchronized_output := snapshot_synchronized_output u;
     TerminalUpdate.synchronized_output_opened := false;
     TerminalUpdate.synchronized_output_closed := snapshot_synchronized_output_closed u;
     TerminalUpdate.semantic_input_boundary :=
       update_semantic_input_boundary s && negb (snapshot_parser_continuation u);
     TerminalUpdate.cursor_visibility_restored := snapshot_cursor_visibility_restored u;
     TerminalUpdate.batch_count := 1 |}.

(** * Queries the engine answers for itself *)

Inductive ColorScheme := Light | Dark.
Definition is_ascii_alphanumeric (b : byte) : bool := is_digit b || is_lower b || is_upper b.
(** One turn of [answer_clipboard_queries]: the event and the reply. *)
Definition answer_clipboard_query (sink : list TerminalEvent * bytes) (location : bytes) : list TerminalEvent * bytes :=
  let '(events, pty_replies) := sink in
  let events := events ++ [Query ClipboardQuery] in
  if (16 <? len location) || negb (forallb is_ascii_alphanumeric location) then (events, pty_replies)
  else (events, pty_replies ++ [ESC] ++ bs "]52;" ++ location ++ bs ";" ++ [ESC] ++ bs "\").
Definition answer_clipboard_queries (sink : list TerminalEvent * bytes) (o : StreamObserver)
  : (list TerminalEvent * bytes) * StreamObserver :=
  let '(queries, o) := take_clipboard_read_queries o in
  (fold_left answer_clipboard_query queries sink, o).

Definition answer_default_color_query (scheme : ColorScheme) (pty_replies : bytes) (query : N) : bytes :=
  let light := match scheme with Light => true | Dark => false end in
  let white := bs "rgb:ffff/ffff/ffff" in
  let black := bs "rgb:0000/0000/0000" in
  let color :=
    if ((query =? 10) && light) || ((query =? 11) && negb light) then Some black
    else if ((query =? 10) && negb light) || ((query =? 11) && light) then Some white
    else None in
  match color with
  | Some color => pty_replies ++ [ESC] ++ bs "]" ++ to_dec query ++ bs ";" ++ color ++ [ESC] ++ bs "\"
  | None => pty_replies
  end.
Definition answer_default_color_queries (scheme : ColorScheme) (pty_replies : bytes) (o : StreamObserver)
  : bytes * StreamObserver :=
  let '(queries, o) := take_default_color_queries o in
  (fold_left (answer_default_color_query scheme) queries pty_replies, o).

(** * Hints stay within the grid *)

Definition op_in_grid (R C : N) (o : TerminalOperation) : Prop :=
  match o with
  | ScrollUp top bottom _ | ScrollDown top bottom _ => top ≤ bottom < R
  | InsertLines row bottom _ | DeleteLines row bottom _ => row ≤ bottom < R
  | InsertChars row col _ | DeleteChars row col _ => row < R ∧ col < C
  | EraseChars row col count => row < R ∧ 0 < count ∧ col + count ≤ C
  | WriteRun row col text => row < R ∧ col + len text < C ∧ is_ascii_text text = true ∧ text ≠ []
  end.
Definition region_in (R : N) (region : option (N * N)) : Prop :=
  match region with Some (top, bottom) => top < bottom < R | None => True end.

Record grid (R C : N) (o : StreamObserver) : Prop := {
  grid_rows : operation_rows o = R;
  grid_cols : operation_cols o = C;
  grid_row : operation_row o < R;
  grid_col : operation_col o < C;
  grid_region : region_in R (scroll_region o);
  grid_operations : Forall (op_in_grid R C) (operations o)
}.

Section Grid.
Context (R C : N) (HR : 0 < R ≤ u16_max) (HC : 0 < C ≤ u16_max).
Local Abbreviation ok := (grid R C).

Lemma scroll_bounds_ok o : ok o → (scroll_bounds o).1 ≤ (scroll_bounds o).2 < R.
Proof.
  intros [Hr _ _ _ Hreg _]. unfold scroll_bounds. destruct (scroll_region o) as [[t b]|]; cbn in *; lia.
Qed.

Lemma push_operation_ok op o : ok o → op_in_grid R C op → ok (push_operation op o).
Proof. intros [] Hop. split; try done. apply Forall_app. by repeat constructor. Qed.

Lemma at_row r o : ok o → r < R → ok (o <| operation_row := r |>).
Proof. intros []. by split. Qed.
Lemma at_col c o : ok o → c < C → ok (o <| operation_col := c |>).
Proof. intros []. by split. Qed.
Lemma at_region g o : ok o → region_in R g → ok (o <| scroll_region := g |>).
Proof. intros []. by split. Qed.

Lemma record_erase_ok r c n o : ok o → ok (record_erase r c n o).
Proof.
  intros Hok. unfold record_erase. destruct (_ && _) eqn:E; [|done].
  apply andb_true_iff in E as [E1%N.ltb_lt E2%N.ltb_lt].
  apply push_operation_ok; [done|]. destruct Hok. cbn. lia.
Qed.

Lemma record_write_ok c o : ok o → ok (record_write c o).
Proof.
  intros Hok. pose proof Hok as [Hr Hc Hrow Hcol Hreg Hops]. unfold record_write.
  destruct (_ <=? _); [by split|].
  destruct (N.eqb_spec (operation_col o) (operation_cols o - 1)) as [|Hne]; [destruct (_ && _); by split|].
  destruct (N.ltb_spec c 128) as [Hascii|]; [|by split]. cbn [negb].
  match goal with |- context [?x <| operation_col := _ |>] => set (o' := x) end.
  assert (ok o' ∧ operation_col o' = operation_col o) as [Ho' Hcol'].
  { assert (ok (push_operation (WriteRun (operation_row o) (operation_col o) [c]) o)) as Hpush.
    { apply push_operation_ok; [done|]. cbn. apply N.ltb_lt in Hascii. rewrite Hascii. split_and!; try done; lia. }
    unfold o'. destruct (last (operations o)) as [[]|] eqn:E; try by split.
    destruct (_ && _) eqn:Em; [|by split]. split; [|done].
    apply andb_true_iff in Em as [Em1%N.eqb_eq Em2%N.eqb_eq].
    apply last_Some in E as (l & E). rewrite E in Hops |- *. apply Forall_app in Hops as [Hl Hw].
    apply Forall_inv in Hw as (H1 & H2 & H3 & H4).
    split; try done. cbn. rewrite length_app, Nat.add_1_r. cbn [pred].
    rewrite insert_app_r_alt, Nat.sub_diag by lia. apply Forall_app. split; [done|]. constructor; [|done].
    rewrite (utf8_len_ascii _ H3) in Em2. unfold sat_add, to_u16, u16_max in *.
    split_and!; [done| | |by destruct text].
    - rewrite length_app. cbn. lia.
    - unfold is_ascii_text in *. rewrite forallb_app, H3. cbn. apply N.ltb_lt in Hascii. by rewrite Hascii. }
  destruct Ho'. split; try done. cbn. unfold sat_add, u16_max in *. lia.
Qed.

Lemma line_feed_ok o : ok o → ok (line_feed o).
Proof.
  intros Hok. pose proof (scroll_bounds_ok o Hok) as Hb. unfold line_feed. destruct (scroll_bounds o) as [t b].
  destruct (_ =? _).
  - destruct (_ && _); apply push_operation_ok; try exact Hb; [|done]. by destruct Hok.
  - apply at_row; [done|]. destruct Hok. lia.
Qed.

Lemma flush_print_ok o : ok o → ok (flush_print o).
Proof. intros []. unfold flush_print. case_bool_decide; by split. Qed.
Lemma push_boundary_ok b o : ok o → ok (push_boundary b o).
Proof.
  intros [? ? ? ? ? ?]%flush_print_ok. unfold push_boundary.
  destruct (bool_decide (b = LineFeed)); cbn; [destruct (last _)|]; repeat case_match; by split.
Qed.
Lemma observe_raw_byte_ok b o : ok o → ok (observe_raw_byte b o).
Proof.
  intros []. unfold observe_raw_byte. destruct (_ && _); [by split|]. cbn.
  destruct (_ || _), (utf8_expectation b) as [[? ?] ?]; by split.
Qed.
Lemma private_mode_ok enabled o value : ok o → ok (private_mode enabled o value).
Proof. intros []. unfold private_mode. repeat case_match; by split. Qed.
Lemma private_modes_ok enabled values o : ok o → ok (fold_left (private_mode enabled) values o).
Proof. revert o. induction values; intros; cbn; auto using private_mode_ok. Qed.
Lemma erase_rows_ok n first o : ok o → ok (erase_rows n first o).
Proof. revert first o. induction n; intros; cbn; auto using record_erase_ok. Qed.
Lemma repeat_write_ok n c o : ok o → ok (repeat_write n c o).
Proof. revert o. induction n; intros; cbn; auto using record_write_ok. Qed.
Lemma osc_dispatch_ok params o : ok o → ok (osc_dispatch params o).
Proof. intros []%flush_print_ok. unfold osc_dispatch. repeat case_match; by split. Qed.

Lemma set_scroll_region_ok params o : ok o → ok (set_scroll_region params o).
Proof.
  intros Hok. unfold set_scroll_region.
  generalize (parameter params 0 1 - 1) (N.min (parameter params 1 (operation_rows o) - 1) (operation_rows o - 1)).
  intros top bottom. destruct (_ && _) eqn:E; [|by destruct Hok].
  apply andb_true_iff in E as [E1%N.ltb_lt E2%N.ltb_lt]. pose proof Hok as [Hr _ _ _ _ _].
  apply at_col; [|lia]. apply at_row.
  - apply at_region; [done|]. case_match; [|done]. cbn. lia.
  - destruct (origin_mode _); lia.
Qed.

Lemma scroll_ok up params o : ok o → ok (scroll up params o).
Proof.
  intros Hok. pose proof (scroll_bounds_ok o Hok) as Hb. unfold scroll.
  change (scroll_bounds (o <| scroll_operations := scroll_operations o + 1 |>)) with (scroll_bounds o).
  destruct (scroll_bounds o) as [t b]. apply push_operation_ok; [|by destruct up].
  destruct (_ && _); by destruct Hok.
Qed.
Lemma edit_lines_ok insert params o : ok o → ok (edit_lines insert params o).
Proof.
  intros Hok. pose proof (scroll_bounds_ok o Hok) as Hb. unfold edit_lines.
  destruct (scroll_bounds o) as [t b]. destruct (N.leb_spec (operation_row o) b); [|done].
  apply push_operation_ok; [done|]. destruct insert; cbn in *; lia.
Qed.
Lemma set_col_ok c o : ok o → ok (set_col c o).
Proof. intros Hok. apply at_col; [done|]. destruct Hok. lia. Qed.
Lemma position_cursor_ok params o : ok o → ok (position_cursor params o).
Proof.
  intros Hok. apply set_col_ok, at_row; [done|]. destruct Hok.
  lia.
Qed.
Lemma move_row_up_ok n o : ok o → ok (move_row_up n o).
Proof. intros Hok. apply at_row; [done|]. destruct Hok. lia. Qed.
Lemma move_row_down_ok n o : ok o → ok (move_row_down n o).
Proof. intros Hok. apply at_row; [done|]. destruct Hok. lia. Qed.
Lemma erase_line_ok m o : ok o → ok (erase_line m o).
Proof. intros Hok. unfold erase_line. repeat case_match; auto using record_erase_ok. by destruct Hok. Qed.
Lemma erase_display_ok m o : ok o → ok (erase_display m o).
Proof. intros Hok. unfold erase_display. repeat case_match; auto using record_erase_ok, erase_rows_ok. by destruct Hok. Qed.
Lemma record_cursor_operation_ok o : ok o → ok (record_cursor_operation o).
Proof. intros []. by split. Qed.
Lemma reverse_index_ok o : ok o → ok (reverse_index o).
Proof.
  intros Hok. pose proof (scroll_bounds_ok o Hok) as Hb. unfold reverse_index.
  destruct (scroll_bounds o) as [t b]. destruct (_ =? _); [by apply push_operation_ok|].
  apply at_row; [done|]. destruct Hok. lia.
Qed.

Lemma csi_action_ok params action o : ok o → ok (csi_action params action o).
Proof.
  intros Hok. pose proof (record_cursor_operation_ok o Hok) as Hm. unfold csi_action.
  set (moved := record_cursor_operation o) in *. clearbody moved.
  assert (∀ o', ok o' → ok (unreliable o')) as Hun by (intros o' []; by split).
  assert (0 < C) as HC0 by apply HC.
  repeat (match goal with |- grid _ _ (if ?b then _ else _) => destruct b end);
    auto using set_col_ok, move_row_up_ok, move_row_down_ok, position_cursor_ok, set_scroll_region_ok, scroll_ok,
      edit_lines_ok, record_erase_ok, erase_line_ok, erase_display_ok, at_col.
  - apply at_col; [done|]. destruct Hm. lia.
  - apply at_row; [done|]. destruct Hm. lia.
  - apply push_operation_ok; [done|]. by destruct Hok.
  - apply push_operation_ok; [done|]. by destruct Hok.
  - destruct (last_printed o); auto using repeat_write_ok.
Qed.

Lemma callback_ok o c : ok o → ok (callback o c).
Proof.
  assert (∀ o', ok o' → ok (unreliable o')) as Hun by (intros o' []; by split).
  assert (∀ o', ok o' → ok (mark_structural_output o')) as Hst by (intros o' []; by split).
  assert (∀ o', ok o' → ok (mark_visible_output o')) as Hvis by (intros o' []; by split).
  assert (0 < C) as HC0 by apply HC.
  intros Hok. destruct c; cbn [callback].
  - by apply observe_raw_byte_ok.
  - apply record_write_ok. by destruct Hok.
  - unfold execute. apply flush_print_ok in Hok. revert Hok. generalize (flush_print o). clear o. intros o Hok.
    repeat (match goal with |- grid _ _ (if ?b then _ else _) => destruct b end);
      auto using line_feed_ok, push_boundary_ok, at_col.
    apply at_col; [by apply record_cursor_operation_ok, Hst|]. destruct Hok. enough (operation_col o - 1 < C) by done. lia.
  - apply Hst. by apply flush_print_ok.
  - by apply osc_dispatch_ok.
  - unfold csi_dispatch. apply flush_print_ok in Hok. revert Hok. generalize (flush_print o). clear o. intros o Hok.
    match goal with |- context [if ?b then mark_structural_output o else o] =>
      set (o' := if b then mark_structural_output o else o) end.
    assert (ok o') as Ho' by (unfold o'; destruct (_ && _); auto). clearbody o'.
    destruct (_ && _); [by apply private_modes_ok|].
    destruct (bool_decide _); [|auto]. apply csi_action_ok. destruct (_ && _); by destruct Ho'.
  - unfold esc_dispatch. apply flush_print_ok, Hst in Hok. revert Hok.
    generalize (mark_structural_output (flush_print o)). clear o. intros o Hok.
    repeat (match goal with |- grid _ _ (if ?b then _ else _) => destruct b end);
      auto using line_feed_ok, reverse_index_ok, at_col. apply Hun. by destruct Hok.
Qed.

Lemma observe_ok cs o : ok o → ok (observe o cs).
Proof. unfold observe. revert o. induction cs; intros; cbn; auto using callback_ok. Qed.
End Grid.

(** A region of the observer is a proper one for ever; [begin_update] drops it
    when it does not fit the screen any more. *)
Definition proper_region (o : StreamObserver) : Prop :=
  match scroll_region o with Some (top, bottom) => top < bottom | None => True end.
(** The screen of a snapshot and the cursor in it. *)
Definition grid_of (s : TerminalSnapshot) (R C : N) : Prop :=
  R = len (rows s) ∧ 0 < R ≤ u16_max ∧ 0 < C ≤ u16_max ∧ Forall (λ r, len (cells r) = C) (rows s) ∧
  cursor_row (cursor s) < R ∧ cursor_col (cursor s) < C.

Lemma begin_update_ok R C s o : grid_of s R C → proper_region o → grid R C (begin_update s o).
Proof.
  intros (-> & HR & HC & Hw & Hr & Hc) Hp.
  assert (match head (rows s) with Some r => to_u16 (len (cells r)) | None => 0 end = C) as Hcols.
  { destruct (rows s) as [|r l]; [cbn in *; lia|]. apply Forall_inv in Hw. cbn. unfold to_u16. lia. }
  assert (to_u16 (len (rows s)) = len (rows s)) as Hrows by (unfold to_u16; lia).
  unfold begin_update.
  match goal with |- context [?x <| operation_reliable := _ |>] =>
    assert (operation_rows x = len (rows s) ∧ operation_cols x = C ∧ operation_row x = cursor_row (cursor s) ∧
      operation_col x = cursor_col (cursor s) ∧ operations x = [] ∧ scroll_region x = scroll_region o) as Hx
      by (split_and!; done);
    set (o1 := x) in *; clearbody o1
  end.
  destruct Hx as (H1 & H2 & H3 & H4 & H5 & H6). unfold proper_region in Hp. rewrite <-H6 in Hp.
  cbv zeta.
  match goal with |- context [scroll_region ?x] => change (scroll_region x) with (scroll_region o1) end.
  rewrite <-H3 in Hr. rewrite <-H4 in Hc.
  assert (Forall (op_in_grid (len (rows s)) C) (operations o1)) as Hops by (rewrite H5; constructor).
  destruct (scroll_region o1) as [[t b]|] eqn:E.
  - match goal with |- grid _ _ (if ?c then _ else _) => destruct c eqn:Ec end.
    + split; [exact H1|exact H2|exact Hr|exact Hc|exact I|exact Hops].
    + apply orb_false_iff in Ec as [E1%N.leb_gt E2%N.leb_gt].
      split; [exact H1|exact H2|exact Hr|exact Hc| |exact Hops].
      change (region_in (len (rows s)) (scroll_region o1)). rewrite E. cbn. rewrite <-H1. by split.
  - split; [exact H1|exact H2|exact Hr|exact Hc| |exact Hops].
    change (region_in (len (rows s)) (scroll_region o1)). by rewrite E.
Qed.

Lemma grid_proper R C o : grid R C o → proper_region o.
Proof. intros []. unfold proper_region. destruct (scroll_region o) as [[t b]|]; [|done]. cbn in *. lia. Qed.

(** The life of an observer: updates of a screen, each with any callbacks. *)
Inductive observer_reachable : StreamObserver → Prop :=
| reach_default : observer_reachable default_observer
| reach_update o before after R C cs :
    observer_reachable o → grid_of before R C →
    observer_reachable (take_update after (observe (begin_update before o) cs)).2.

Lemma take_update_region after o : scroll_region (take_update after o).2 = scroll_region o.
Proof. unfold take_update, flush_print. by case_bool_decide. Qed.

Lemma reachable_proper o : observer_reachable o → proper_region o.
Proof.
  induction 1 as [|o before after R C cs _ IH Hg]; [done|]. unfold proper_region. rewrite take_update_region.
  apply (grid_proper R C), observe_ok; [apply Hg|apply Hg|]. by apply begin_update_ok.
Qed.

Lemma take_update_operations after o R C :
  grid R C o → Forall (op_in_grid R C) (update_operations (take_update after o).1).
Proof.
  intros [_ _ _ _ _ Hops]%flush_print_ok. unfold take_update. cbn. by case_match.
Qed.

(** Whatever the application writes, the hints of an update name only cells of
    the screen it was written to: scrolled and edited regions are inside it,
    erased cells too, and a written run is ASCII, one column per character, and
    never reaches the right margin, where the engine alone knows of wrapping. *)
Theorem hints_stay_within_the_grid o before after R C cs :
  observer_reachable o → grid_of before R C →
  Forall (op_in_grid R C) (update_operations (take_update after (observe (begin_update before o) cs)).1).
Proof.
  intros Ho Hg. apply take_update_operations, observe_ok; [apply Hg|apply Hg|].
  apply begin_update_ok; [done|]. by apply reachable_proper.
Qed.

Definition example_row : Row := {| cells := replicate 4 default_cell; wrapped := false |}.
Definition example_screen : TerminalSnapshot := {|
  rows := [example_row; example_row]; scrollback := []; cursor := default_cursor <| visible := true |>;
  geometry := from_cells 2 4; screen := PrimaryScreen; modes := default_modes; title := None;
  working_directory := None; semantic_marks := []; history_origin := 0; scrollback_extent := 0; viewport := Live |}.
Lemma example_grid : grid_of example_screen 2 4.
Proof. unfold grid_of. cbn. unfold u16_max. split_and!; try lia; repeat constructor. Qed.

Lemma hints_stay_within_the_grid_witness :
  Forall (op_in_grid 2 4) (update_operations
    (take_update (example_screen <| cursor := {| cursor_row := 0; cursor_col := 2; visible := false; shape := CursorBlock |} |>)
      (observe (begin_update example_screen default_observer) [Print 97; Print 98])).1) ∧
  update_operations
    (take_update (example_screen <| cursor := {| cursor_row := 0; cursor_col := 2; visible := false; shape := CursorBlock |} |>)
      (observe (begin_update example_screen default_observer) [Print 97; Print 98])).1 = [WriteRun 0 0 [97; 98]].
Proof.
  split; [|reflexivity].
  exact (hints_stay_within_the_grid default_observer example_screen _ 2 4 _ reach_default example_grid).
Defined.

(** * The report does not depend on the cut *)

(** What the callbacks mean for the printed text and the counters. *)
Inductive item := Char (c : N) | Return | Feed | CursorOperation.
Definition cursor_action (action : N) : bool :=
  existsb (sign action) ["A"; "B"; "C"; "D"; "E"; "F"; "G"; "`"; "H"; "f"; "d"]%string.
Definition items_of (c : Callback) : list item :=
  match c with
  | Print c => [Char c]
  | Execute byte =>
      if byte =? 8 then [CursorOperation]
      else if byte =? CR then [Return]
      else if (byte =? LF) || (byte =? 11) || (byte =? 12) then [Feed]
      else []
  | CsiDispatch params intermediates ignore action =>
      if bool_decide (intermediates = []) && cursor_action action then [CursorOperation] else []
  | _ => []
  end.
Definition items (cs : list Callback) : list item := mjoin (items_of <$> cs).

Definition atom (i : item) : list PrintedRun :=
  match i with
  | Char c => [{| text := [c]; boundary := Continue |}]
  | Return => [{| text := []; boundary := CarriageReturn |}]
  | Feed => [{| text := []; boundary := LineFeed |}]
  | CursorOperation => []
  end.
Definition atoms (is_ : list item) : list PrintedRun := mjoin (atom <$> is_).
Definition feeds (is_ : list item) : N := len (List.filter (λ i, match i with Feed => true | _ => false end) is_).
Definition cursor_count (is_ : list item) : N :=
  len (List.filter (λ i, match i with CursorOperation => true | _ => false end) is_).
(** Cursor operations after the last line feed. *)
Definition after_feed (n : N) (i : item) : N :=
  match i with Feed => 0 | CursorOperation => n + 1 | _ => n end.
Definition after_last_feed (is_ : list item) : N := fold_left after_feed is_ 0.

Definition returned : PrintedRun := {| text := []; boundary := CarriageReturn |}.
(** No carriage return directly after another. *)
Fixpoint single_returns (l : list PrintedRun) : bool :=
  match l with
  | a :: (b :: _) as l' => negb (bool_decide (a = returned) && bool_decide (b = returned)) && single_returns l'
  | _ => true
  end.

Lemma items_app cs1 cs2 : items (cs1 ++ cs2) = items cs1 ++ items cs2.
Proof. unfold items. by rewrite fmap_app, join_app. Qed.
Lemma update_atoms_app l1 l2 : atoms (l1 ++ l2) = atoms l1 ++ atoms l2.
Proof. unfold atoms. by rewrite fmap_app, join_app. Qed.
Lemma append_runs_app t l1 l2 :
  append_printed_runs t (l1 ++ l2) = append_printed_runs (append_printed_runs t l1) l2.
Proof. apply fold_left_app. Qed.
Lemma feeds_app l1 l2 : feeds (l1 ++ l2) = feeds l1 + feeds l2.
Proof. unfold feeds. rewrite List.filter_app, length_app. lia. Qed.
Lemma cursor_count_app l1 l2 : cursor_count (l1 ++ l2) = cursor_count l1 + cursor_count l2.
Proof. unfold cursor_count. rewrite List.filter_app, length_app. lia. Qed.

(** ** Functions that leave the report alone *)

Definition report (o : StreamObserver) :=
  (printed_runs o, current_print o, cursor_operations o, cursor_operations_after_last_line_feed o).

Lemma report_record_write c o : report (record_write c o) = report o.
Proof. unfold record_write. repeat case_match; done. Qed.
Lemma report_record_erase r c n o : report (record_erase r c n o) = report o.
Proof. unfold record_erase. by case_match. Qed.
Lemma report_erase_rows n first o : report (erase_rows n first o) = report o.
Proof. revert first o. induction n; intros; cbn; [done|]. by rewrite IHn, report_record_erase. Qed.
Lemma report_repeat_write n c o : report (repeat_write n c o) = report o.
Proof. revert o. induction n; intros; cbn; [done|]. by rewrite IHn, report_record_write. Qed.
Lemma report_private_modes enabled values o : report (fold_left (private_mode enabled) values o) = report o.
Proof.
  revert o. induction values as [|v values IH]; intros; cbn; [done|]. rewrite IH.
  unfold private_mode. repeat case_match; done.
Qed.
Lemma report_line_feed o : report (line_feed o) = report o.
Proof. unfold line_feed. repeat case_match; done. Qed.
Lemma report_raw b o : report (observe_raw_byte b o) = report o.
Proof. unfold observe_raw_byte, set_utf8_expectation. repeat case_match; done. Qed.
Lemma report_erase_line m o : report (erase_line m o) = report o.
Proof. unfold erase_line. repeat case_match; rewrite ?report_record_erase; done. Qed.
Lemma report_erase_display m o : report (erase_display m o) = report o.
Proof. unfold erase_display. repeat case_match; rewrite ?report_erase_rows, ?report_record_erase, ?report_erase_rows; done. Qed.
Lemma report_set_scroll_region params o : report (set_scroll_region params o) = report o.
Proof. unfold set_scroll_region. by case_match. Qed.
Lemma report_scroll up params o : report (scroll up params o) = report o.
Proof. unfold scroll. repeat case_match; done. Qed.
Lemma report_edit_lines insert params o : report (edit_lines insert params o) = report o.
Proof. unfold edit_lines. repeat case_match; done. Qed.

Lemma sign_true action c : sign action c = true → [action] = bs c.
Proof. apply bool_decide_eq_true. Qed.
(** Actions count as cursor operations or leave the report alone. *)
Lemma report_csi_action params action o :
  report (csi_action params action o) = report (if cursor_action action then record_cursor_operation o else o).
Proof.
  destruct (cursor_action action) eqn:E.
  - unfold cursor_action in E. apply existsb_exists in E as (c & Hc%list_elem_of_In & E%sign_true).
    repeat (apply elem_of_cons in Hc as [->|Hc]; [vm_compute in E; injection E as ->; reflexivity|]).
    by apply elem_of_nil in Hc.
  - unfold cursor_action in E. cbn [existsb] in E. rewrite !orb_false_iff in E.
    destruct E as (E1 & E2 & E3 & E4 & E5 & E6 & E7 & E8 & E9 & E10 & E11 & _).
    unfold csi_action. rewrite E1, E2, E3, E4, E5, E6, E7, E8, E9, E10, E11. cbn [orb].
    repeat match goal with
    | |- report (if ?b then _ else _) = _ => destruct b
    | |- report (match ?x with Some _ => _ | None => _ end) = _ => destruct x
    end;
      rewrite ?report_set_scroll_region, ?report_scroll, ?report_edit_lines, ?report_record_erase, ?report_erase_line,
        ?report_erase_display, ?report_repeat_write; reflexivity.
Qed.

(** ** The report of a sequence of callbacks *)

Definition pending (o : StreamObserver) : list PrintedRun := printed_runs (flush_print o).
Definition merged (l : list PrintedRun) : list PrintedRun := append_printed_runs [] l.
Definition fed : PrintedRun := {| text := []; boundary := LineFeed |}.

(** What holds of the report after the atoms [A] of an update, when the updates
    before it had the atoms [A0]. *)
Record reports (A0 A : list PrintedRun) (o : StreamObserver) : Prop := {
  reports_runs : append_printed_runs (merged A0) (pending o) = merged (A0 ++ A);
  reports_return : ∀ rs, current_print o = [] → printed_runs o = rs ++ [returned] →
    ∃ A', A = A' ++ [returned] ∧ append_printed_runs (merged A0) rs = merged (A0 ++ A')
}.

Lemma report_runs o o' :
  report o' = report o → printed_runs o' = printed_runs o ∧ current_print o' = current_print o.
Proof. by intros [= -> -> _ _]. Qed.
Lemma pending_report o o' : report o' = report o → pending o' = pending o.
Proof.
  unfold report, pending, flush_print. intros [= H1 H2 _ _]. rewrite H2, H1.
  case_bool_decide; cbn; by rewrite ?H1.
Qed.
Lemma reports_same A0 A o o' : report o' = report o → reports A0 A o → reports A0 A o'.
Proof.
  intros H [Hr Hret]. split; [by rewrite (pending_report _ _ H)|].
  injection H as H1 H2 _ _. by rewrite H1, H2.
Qed.

Lemma flush_current o : current_print (flush_print o) = [].
Proof. unfold flush_print. by case_bool_decide. Qed.
Lemma flush_idempotent o : flush_print (flush_print o) = flush_print o.
Proof. unfold flush_print at 1. by rewrite flush_current, bool_decide_eq_true_2. Qed.
Lemma flush_reports A0 A o : reports A0 A o → reports A0 A (flush_print o).
Proof.
  intros [Hr Hret]. split; [unfold pending; by rewrite flush_idempotent|].
  intros rs _. unfold flush_print. case_bool_decide as E; [by apply Hret|].
  intros H. change (printed_runs o ++ [{| text := current_print o; boundary := Continue |}] = rs ++ [returned]) in H.
  apply app_inj_tail in H as [_ H]. discriminate.
Qed.

Lemma append_run_cont Z p b :
  append_printed_run (Z ++ [p]) {| text := b; boundary := Continue |} =
    Z ++ [{| text := text p ++ b; boundary := boundary p |}].
Proof.
  unfold append_printed_run. rewrite last_snoc, length_app, Nat.add_1_r. cbn [boundary pred].
  rewrite (bool_decide_eq_false_2 (Continue = LineFeed)), (bool_decide_eq_true_2 (Continue = Continue)) by done.
  cbn [andb]. by rewrite insert_app_r_alt, Nat.sub_diag by lia.
Qed.
Lemma append_run_extend Z a b :
  append_printed_run (append_printed_run Z {| text := a; boundary := Continue |}) {| text := b; boundary := Continue |}
    = append_printed_run Z {| text := a ++ b; boundary := Continue |}.
Proof.
  destruct Z as [|p Z _] using rev_ind; [done|]. rewrite !append_run_cont. cbn. by rewrite app_assoc.
Qed.

Lemma merged_all_snoc A a : merged (A ++ [a]) = append_printed_run (merged A) a.
Proof. unfold merged. by rewrite append_runs_app. Qed.

Lemma print_reports A0 A c o :
  reports A0 A o → reports A0 (A ++ [{| text := [c]; boundary := Continue |}]) (print c o).
Proof.
  intros [Hr Hret].
  assert (printed_runs (print c o) = printed_runs o ∧ current_print (print c o) = current_print o ++ [c]) as [H1 H2].
  { unfold print. cbv zeta.
    match goal with |- context [record_write c ?x] => pose proof (report_runs _ _ (report_record_write c x)) as [-> ->] end.
    done. }
  assert (current_print o ++ [c] ≠ []) as Hne by by destruct (current_print o).
  split.
  - rewrite app_assoc, merged_all_snoc, <-Hr. unfold pending, flush_print. rewrite H1, H2.
    rewrite bool_decide_eq_false_2 by done.
    match goal with |- context [printed_runs (?x <| current_print := [] |>)] =>
      change (printed_runs (x <| current_print := [] |>)) with (printed_runs x) end.
    match goal with |- context [printed_runs (?x <| printed_runs := ?y |>)] =>
      change (printed_runs (x <| printed_runs := y |>)) with y end.
    case_bool_decide as E.
    + rewrite E, append_runs_app. done.
    + match goal with |- context [printed_runs (?x <| current_print := [] |>)] =>
        change (printed_runs (x <| current_print := [] |>)) with (printed_runs x) end.
      match goal with |- context [printed_runs (?x <| printed_runs := ?y |>)] =>
        change (printed_runs (x <| printed_runs := y |>)) with y end.
      rewrite !append_runs_app. cbn [append_printed_runs fold_left]. by rewrite append_run_extend.
  - intros rs. rewrite H2. done.
Qed.

Lemma push_return_runs o : report (push_boundary CarriageReturn o)
  = (pending o ++ [returned], [], cursor_operations o, cursor_operations_after_last_line_feed o).
Proof.
  unfold push_boundary. rewrite (bool_decide_eq_false_2 (CarriageReturn = LineFeed)) by done.
  cbv zeta iota. pose proof (flush_current o) as Hc. unfold pending. revert Hc. unfold flush_print.
  case_bool_decide as E; intros _; [|done]. rewrite <-E at 2. done.
Qed.

Lemma report_fed o runs :
  report (((flush_print o) <| cursor_operations_after_last_line_feed := 0 |>) <| printed_runs := runs |>)
    = (runs, [], cursor_operations o, 0).
Proof.
  assert (cursor_operations (flush_print o) = cursor_operations o) as Hc by (unfold flush_print; by case_bool_decide).
  transitivity (runs, current_print (flush_print o), cursor_operations (flush_print o), 0); [done|].
  by rewrite flush_current, Hc.
Qed.

Lemma push_feed_runs o : report (push_boundary LineFeed o)
  = (match last (pending o) with
     | Some previous =>
         if bool_decide (previous = returned) then <[pred (length (pending o)) := fed]> (pending o)
         else pending o ++ [fed]
     | None => pending o ++ [fed]
     end, [], cursor_operations o, 0).
Proof.
  unfold push_boundary. rewrite (bool_decide_eq_true_2 (LineFeed = LineFeed)) by done.
  change (printed_runs ((flush_print o) <| cursor_operations_after_last_line_feed := 0 |>)) with (pending o).
  destruct (last (pending o)) as [[t b]|] eqn:E; [|apply report_fed].
  cbn [text boundary]. destruct (decide (t = [])) as [->|Ht].
  - destruct (decide (b = CarriageReturn)) as [->|Hb].
    + rewrite !bool_decide_eq_true_2 by done. apply report_fed.
    + rewrite (bool_decide_eq_false_2 _ Hb), andb_false_r, bool_decide_eq_false_2 by (intros [= ->]; done).
      apply report_fed.
  - rewrite (bool_decide_eq_false_2 _ Ht). cbn [andb]. rewrite bool_decide_eq_false_2 by (intros [= -> ->]; done).
    apply report_fed.
Qed.

Lemma pending_flushed o : current_print o = [] → pending o = printed_runs o.
Proof. unfold pending, flush_print. intros ->. by rewrite bool_decide_eq_true_2. Qed.

Lemma report_pending o rs n m : report o = (rs, [], n, m) → pending o = rs ∧ printed_runs o = rs.
Proof. intros [= H1 H2 _ _]. by rewrite pending_flushed. Qed.

Lemma append_fed Z : last Z ≠ Some returned → append_printed_run Z fed = Z ++ [fed].
Proof.
  intros HZ. unfold append_printed_run. cbn [text boundary fed].
  rewrite (bool_decide_eq_true_2 (LineFeed = LineFeed)), (bool_decide_eq_true_2 ([] = [])),
    (bool_decide_eq_false_2 (LineFeed = Continue)) by done.
  cbn [andb]. destruct (last Z) as [[t b]|]; [|done]. cbn [text boundary].
  destruct (decide (b = CarriageReturn)) as [->|Hb]; [|by rewrite (bool_decide_eq_false_2 _ Hb)].
  destruct (decide (t = [])) as [->|Ht]; [done|]. by rewrite (bool_decide_eq_false_2 _ Ht), andb_false_r.
Qed.
Lemma append_fed_returned Z : append_printed_run (Z ++ [returned]) fed = Z ++ [fed].
Proof.
  unfold append_printed_run. rewrite last_snoc, length_app, Nat.add_1_r. cbn [text boundary fed returned pred].
  rewrite !bool_decide_eq_true_2 by done. cbn [andb]. by rewrite insert_app_r_alt, Nat.sub_diag by lia.
Qed.
Lemma append_returned Z : append_printed_run Z returned = Z ++ [returned].
Proof. unfold append_printed_run. cbn. by destruct (last Z). Qed.

(** The runs merged from atoms end in a return only if the atoms do. *)
Definition atomic (r : PrintedRun) : Prop := r = returned ∨ r = fed ∨ ∃ c, r = {| text := [c]; boundary := Continue |}.
Lemma merged_last A : Forall atomic A → last (merged A) = Some returned → last A = Some returned.
Proof.
  intros HA. destruct A as [|a A _] using rev_ind; [done|]. apply Forall_app in HA as [HA Ha%Forall_inv].
  rewrite merged_all_snoc, last_snoc. destruct Ha as [->|[->|[c ->]]]; [done|..].
  - intros H. exfalso. destruct (decide (last (merged A) = Some returned)) as [E|E].
    + apply last_Some in E as (Z & E). rewrite E, append_fed_returned, last_snoc in H. discriminate.
    + rewrite append_fed, last_snoc in H by done. discriminate.
  - intros H. exfalso. destruct (merged A) as [|p Z _] using rev_ind.
    + discriminate.
    + rewrite append_run_cont, last_snoc in H. injection H as H _. by destruct (text p).
Qed.

Lemma single_returns_twice A B : single_returns (A ++ returned :: returned :: B) = false.
Proof.
  induction A as [|a A IH]; [done|]. destruct A as [|a' A].
  - cbn. by rewrite andb_false_r.
  - change (negb (bool_decide (a = returned) && bool_decide (a' = returned)) &&
      single_returns ((a' :: A) ++ returned :: returned :: B) = false). by rewrite IH, andb_false_r.
Qed.

Lemma return_reports A0 A o : reports A0 A o → reports A0 (A ++ [returned]) (push_boundary CarriageReturn o).
Proof.
  intros [Hr Hret]. destruct (report_pending _ _ _ _ (push_return_runs o)) as [Hp Hruns]. split. 
  - rewrite Hp, append_runs_app, Hr, app_assoc, merged_all_snoc. done. 
  - intros rs _. rewrite Hruns. intros [<- _]%app_inj_tail. by exists A. 
Qed.

Lemma feed_reports A0 A o :
  Forall atomic (A0 ++ A) → single_returns (A0 ++ A) = true →
  reports A0 A o → reports A0 (A ++ [fed]) (push_boundary LineFeed o).
Proof.
  intros Hat Hs [Hr Hret]%flush_reports.
  destruct (report_pending _ _ _ _ (push_feed_runs o)) as [Hp Hruns]. fold (pending o) in Hret.
  assert (append_printed_runs (merged A0) (pending o) = merged (A0 ++ A)) as Hr'.
  { rewrite <-Hr. unfold pending. by rewrite flush_idempotent. }
  split.
  - rewrite Hp, app_assoc, merged_all_snoc. destruct (last (pending o)) as [p|] eqn:E.
    2:{ by rewrite append_runs_app, Hr'. }
    case_bool_decide as Epr; [|by rewrite append_runs_app, Hr']. subst p.
    apply last_Some in E as (rs & E). destruct (Hret rs (flush_current o) E) as (A' & -> & HA').
    rewrite E, length_app, Nat.add_1_r. cbn [pred]. rewrite insert_app_r_alt, Nat.sub_diag by lia.
    change (<[0%nat:=fed]> [returned]) with [fed].
    rewrite append_runs_app, HA', (app_assoc A0), merged_all_snoc, append_returned, append_fed_returned.
    cbn [append_printed_runs fold_left]. apply append_fed. intros Hl.
    rewrite app_assoc in Hat. apply Forall_app in Hat as [Hat _].
    apply merged_last in Hl; [|done]. apply last_Some in Hl as (B & Hl).
    rewrite app_assoc, Hl, <-app_assoc in Hs. cbn in Hs. by rewrite single_returns_twice in Hs.
  - intros rs _. rewrite Hruns. destruct (last (pending o)) as [p|] eqn:E; [|by intros [_ ?]%app_inj_tail].
    case_bool_decide; [|by intros [_ ?]%app_inj_tail]. apply last_Some in E as (l & ->).
    rewrite length_app, Nat.add_1_r. cbn [pred]. rewrite insert_app_r_alt, Nat.sub_diag by lia.
    by intros [_ ?]%app_inj_tail.
Qed.

(** ** Every callback *)

Definition step_report (o o' : StreamObserver) (is_ : list item) : Prop :=
  match is_ with
  | [] => report o' = report o ∨ report o' = report (flush_print o)
  | [Char c] => report o' = report (print c o)
  | [Return] => ∃ o1, report o1 = report (flush_print o) ∧ report o' = report (push_boundary CarriageReturn o1)
  | [Feed] => ∃ o1, report o1 = report (flush_print o) ∧ report o' = report (push_boundary LineFeed o1)
  | [CursorOperation] => report o' = report (record_cursor_operation (flush_print o))
  | _ => False
  end.

Lemma report_structural o : report (mark_structural_output o) = report o.
Proof. done. Qed.
Lemma report_osc params o : report (osc_dispatch params o) = report (flush_print o).
Proof. unfold osc_dispatch. repeat case_match; done. Qed.
Lemma report_cursor o : report (record_cursor_operation o)
  = (printed_runs o, current_print o, sat_add usize_max (cursor_operations o) 1,
     sat_add usize_max (cursor_operations_after_last_line_feed o) 1).
Proof. done. Qed.

Lemma execute_report o byte : step_report o (execute byte o) (items_of (Execute byte)).
Proof.
  unfold execute. cbn [items_of].
  destruct (byte =? 8); [done|]. destruct (byte =? CR); [by exists (mark_visible_output (flush_print o))|].
  destruct (byte =? LF); [by exists (mark_visible_output (flush_print o)); split; [|apply report_line_feed]|]. cbn [orb].
  destruct ((byte =? 11) || (byte =? 12)); [by exists (mark_structural_output (flush_print o)); split; [|apply report_line_feed]|].
  destruct (byte =? TAB); [by right|]. destruct (_ || _); by right.
Qed.

Lemma csi_report o params intermediates ignore action :
  step_report o (csi_dispatch params intermediates ignore action o)
    (items_of (CsiDispatch params intermediates ignore action)).
Proof.
  unfold csi_dispatch. cbn [items_of].
  match goal with |- context [if ?b then mark_structural_output ?o else ?o] =>
    set (o' := if b then mark_structural_output o else o) end.
  assert (report o' = report (flush_print o)) as Ho' by (unfold o'; by destruct (_ && _)). clearbody o'.
  destruct (decide (intermediates = [])) as [->|Hi].
  - rewrite (bool_decide_eq_false_2 ([] = bs "?")), (bool_decide_eq_true_2 ([] = [])) by done. cbn [andb].
    match goal with |- context [csi_action _ _ ?x] => set (o2 := x) end.
    assert (report o2 = report (flush_print o)) as Ho2 by (unfold o2; by destruct (_ && _)). clearbody o2.
    destruct (cursor_action action) eqn:E; cbn [step_report].
    + rewrite report_csi_action, E, !report_cursor. by injection Ho2 as -> -> -> ->.
    + right. by rewrite report_csi_action, E.
  - rewrite (bool_decide_eq_false_2 _ Hi). cbn [andb step_report]. right.
    destruct (_ && _); [by rewrite report_private_modes|done].
Qed.

Lemma esc_report o intermediates byte : report (esc_dispatch intermediates byte o) = report (flush_print o).
Proof.
  unfold esc_dispatch, reverse_index. repeat case_match; rewrite ?report_line_feed; done.
Qed.

Lemma callback_report o c : step_report o (callback o c) (items_of c).
Proof.
  destruct c; cbn [callback].
  - left. apply report_raw.
  - done.
  - apply execute_report.
  - by right.
  - right. apply report_osc.
  - apply csi_report.
  - right. apply esc_report.
Qed.

Lemma step_reports A0 A o o' is_ :
  step_report o o' is_ → Forall atomic (A0 ++ A) → single_returns (A0 ++ A) = true →
  reports A0 A o → reports A0 (A ++ atoms is_) o'.
Proof.
  intros Hs Hat Hsr Hr. pose proof (flush_reports _ _ _ Hr) as Hf.
  destruct is_ as [|[c| | |] [|]]; cbn [step_report] in Hs; try done;
    unfold atoms; cbn [fmap list_fmap atom mjoin list_join app]; rewrite ?app_nil_r.
  - destruct Hs as [H|H]; eapply reports_same; eauto.
  - eapply reports_same; [exact Hs|]. by apply print_reports.
  - destruct Hs as (o1 & H1 & H). eapply reports_same; [exact H|]. apply return_reports. by eapply reports_same.
  - destruct Hs as (o1 & H1 & H). eapply reports_same; [exact H|]. apply feed_reports; [done..|]. by eapply reports_same.
  - eapply reports_same; [exact Hs|]. destruct Hf as [F1 F2]. split; [|exact F2].
    rewrite <-F1. f_equal. unfold pending. rewrite flush_idempotent. unfold flush_print at 1.
    by rewrite bool_decide_eq_true_2 by apply flush_current.
Qed.

(** The counters of an update after the items [I]. *)
Record counts (I : list item) (o : StreamObserver) : Prop := {
  counts_cursor : cursor_operations o = N.min usize_max (cursor_count I);
  counts_after : cursor_operations_after_last_line_feed o = N.min usize_max (after_last_feed I);
  counts_feeds : len (List.filter is_line_feed (pending o)) = feeds I
}.

Lemma after_last_feed_snoc I i : after_last_feed (I ++ [i]) = after_feed (after_last_feed I) i.
Proof. unfold after_last_feed. by rewrite fold_left_app. Qed.
Lemma counts_same I o o' : report o' = report o → counts I o → counts I o'.
Proof.
  intros H [H1 H2 H3]. pose proof (pending_report _ _ H) as Hp. injection H as _ _ E1 E2.
  split; by rewrite ?E1, ?E2, ?Hp.
Qed.
Lemma flush_report o :
  report (flush_print o) = (pending o, [], cursor_operations o, cursor_operations_after_last_line_feed o).
Proof.
  unfold report. rewrite flush_current. unfold pending, flush_print. by case_bool_decide.
Qed.
Lemma print_report c o :
  report (print c o) = (printed_runs o, current_print o ++ [c], cursor_operations o, cursor_operations_after_last_line_feed o).
Proof. unfold print. cbv zeta. by rewrite report_record_write. Qed.

Lemma flush_counts I o : counts I o → counts I (flush_print o).
Proof.
  intros [H1 H2 H3]. pose proof (flush_report o) as H. injection H as _ E1 E2.
  split; [by rewrite E1|by rewrite E2|]. unfold pending. by rewrite flush_idempotent.
Qed.

Definition line_feeds (l : list PrintedRun) : N := len (List.filter is_line_feed l).
Lemma line_feeds_snoc l r : line_feeds (l ++ [r]) = line_feeds l + (if is_line_feed r then 1 else 0).
Proof. unfold line_feeds. rewrite List.filter_app, length_app. cbn. destruct (is_line_feed r); cbn; lia. Qed.
Lemma line_feeds_pending o : line_feeds (pending o) = line_feeds (printed_runs o).
Proof.
  unfold pending, flush_print. case_bool_decide; [done|].
  match goal with |- line_feeds (printed_runs ?x) = _ =>
    change (printed_runs x) with (printed_runs o ++ [{| text := current_print o; boundary := Continue |}]) end.
  rewrite line_feeds_snoc. match goal with |- context [if ?b then 1 else 0] => change b with false end. cbv iota. lia.
Qed.

Lemma pending_of_report o rs cp n m : report o = (rs, cp, n, m) → line_feeds (pending o) = line_feeds rs.
Proof. intros [= <- _ _ _]. apply line_feeds_pending. Qed.

Lemma fed_line_feeds l :
  line_feeds (match last l with
     | Some previous => if bool_decide (previous = returned) then <[pred (length l) := fed]> l else l ++ [fed]
     | None => l ++ [fed]
     end) = line_feeds l + 1.
Proof.
  destruct l as [|p l _] using rev_ind; [done|]. rewrite last_snoc. case_bool_decide as E.
  - subst p. rewrite length_app, Nat.add_1_r. cbn [pred]. rewrite insert_app_r_alt, Nat.sub_diag by lia.
    change (<[0%nat:=fed]> [returned]) with [fed]. rewrite !line_feeds_snoc.
    change (is_line_feed fed) with true. change (is_line_feed returned) with false. cbv iota. lia.
  - by rewrite line_feeds_snoc.
Qed.

Lemma step_counts I o o' is_ : step_report o o' is_ → counts I o → counts (I ++ is_) o'.
Proof.
  intros Hs Hc. pose proof Hc as [H1 H2 H3]. fold (line_feeds (pending o)) in H3.
  assert (∀ i rs cp n m, report o' = (rs, cp, n, m) → n = N.min usize_max (cursor_count (I ++ [i])) →
    m = N.min usize_max (after_last_feed (I ++ [i])) → line_feeds rs = feeds (I ++ [i]) → counts (I ++ [i]) o') as Hmk.
  { intros i rs cp n m H Hn Hm Hl. split.
    - by injection H as _ _ -> _.
    - by injection H as _ _ _ ->.
    - fold (line_feeds (pending o')). by rewrite (pending_of_report _ _ _ _ _ H). }
  destruct is_ as [|i [|]]; [|destruct i as [c| | |]|by destruct i as [c| | |]]; cbn [step_report] in Hs.
  - rewrite app_nil_r. destruct Hs as [H|H]; eapply counts_same; eauto using flush_counts.
  - rewrite print_report in Hs. eapply Hmk; [exact Hs|..];
      rewrite ?cursor_count_app, ?after_last_feed_snoc, ?feeds_app, ?N.add_0_r; try done.
    by rewrite <-line_feeds_pending, H3.
  - destruct Hs as (o1 & Ho1 & Hs). rewrite push_return_runs in Hs.
    rewrite flush_report in Ho1. pose proof (pending_of_report _ _ _ _ _ Ho1) as Hp. injection Ho1 as _ _ E1 E2.
    eapply Hmk; [exact Hs|..];
      rewrite ?cursor_count_app, ?after_last_feed_snoc, ?feeds_app, ?line_feeds_snoc, ?N.add_0_r, ?E1, ?E2; try done.
    by rewrite Hp, H3.
  - destruct Hs as (o1 & Ho1 & Hs). rewrite push_feed_runs in Hs.
    rewrite flush_report in Ho1. pose proof (pending_of_report _ _ _ _ _ Ho1) as Hp. injection Ho1 as _ _ E1 E2.
    eapply Hmk; [exact Hs|..];
      rewrite ?cursor_count_app, ?after_last_feed_snoc, ?feeds_app, ?fed_line_feeds, ?N.add_0_r, ?E1; try done.
    by rewrite Hp, H3.
  - rewrite report_cursor in Hs. pose proof (flush_report o) as Hf. injection Hf as F2 F3 F4.
    eapply Hmk; [exact Hs|..]; rewrite ?cursor_count_app, ?after_last_feed_snoc, ?feeds_app, ?F3, ?F4, ?H1, ?H2, ?N.add_0_r;
      cbn [after_feed]; unfold sat_add.
    + change (cursor_count [CursorOperation]) with 1. lia.
    + lia.
    + fold (pending o). by rewrite H3.
Qed.

(** ** Whole updates *)

Lemma single_returns_prefix A B : single_returns (A ++ B) = true → single_returns A = true.
Proof.
  induction A as [|a A IH]; [done|]. destruct A as [|a' A]; [done|]. cbn [app].
  change (single_returns (a :: a' :: A ++ B)) with
    (negb (bool_decide (a = returned) && bool_decide (a' = returned)) && single_returns ((a' :: A) ++ B)).
  change (single_returns (a :: a' :: A)) with
    (negb (bool_decide (a = returned) && bool_decide (a' = returned)) && single_returns (a' :: A)).
  rewrite !andb_true_iff. intros [-> H]. split; [done|by apply IH].
Qed.

Lemma atoms_atomic is_ : Forall atomic (atoms is_).
Proof.
  induction is_ as [|i is_ IH]; [constructor|]. change (atoms (i :: is_)) with (atom i ++ atoms is_).
  apply Forall_app. split; [|done]. destruct i; cbn; [..|constructor];
    (constructor; [|constructor]); [right; right; by eexists|by left|right; by left].
Qed.

Lemma observe_spec I0 I o cs :
  single_returns (atoms (I0 ++ I ++ items cs)) = true →
  reports (atoms I0) (atoms I) o → counts I o →
  reports (atoms I0) (atoms (I ++ items cs)) (observe o cs) ∧ counts (I ++ items cs) (observe o cs).
Proof.
  revert I o. induction cs as [|c cs IH]; intros I o Hs Hr Hc.
  { change (items []) with (@nil item). by rewrite app_nil_r. }
  change (items (c :: cs)) with (items_of c ++ items cs) in *. rewrite app_assoc in Hs |- *.
  change (observe o (c :: cs)) with (observe (callback o c) cs). apply IH.
  - by rewrite <-!app_assoc in *.
  - rewrite update_atoms_app. eapply step_reports; [apply callback_report| | |done].
    + rewrite <-update_atoms_app. apply atoms_atomic.
    + rewrite <-!app_assoc, !update_atoms_app in Hs. rewrite app_assoc in Hs. by eapply single_returns_prefix.
  - eapply step_counts; [apply callback_report|done].
Qed.

(** A write: the screen before it, the callbacks of its bytes, and the engine's
    screen and report after it. *)
Record Write := {
  before : TerminalSnapshot; callbacks : list Callback; after : TerminalSnapshot; engine : UpdateSnapshot
}.
Fixpoint accumulate (o : StreamObserver) (total : UpdateSummary) (ws : list Write) : UpdateSummary :=
  match ws with
  | [] => total
  | w :: ws =>
      let '(s, o) := take_update (after w) (observe (begin_update (before w) o) (callbacks w)) in
      accumulate o (merge total (normalize_ghostty_update ((engine w) <| stream := s |>))) ws
  end.

(** The total holds the report of the items [I]. *)
Record total_of (I : list item) (u : UpdateSummary) : Prop := {
  total_runs : TerminalUpdate.printed_runs u = merged (atoms I);
  total_cursor : TerminalUpdate.cursor_operations u = N.min usize_max (cursor_count I);
  total_after : TerminalUpdate.cursor_operations_after_last_line_feed u = N.min usize_max (after_last_feed I);
  total_feeds : line_feed_boundaries u = N.min usize_max (feeds I)
}.

Lemma after_last_feed_app I0 I :
  after_last_feed (I0 ++ I) = if 0 <? feeds I then after_last_feed I else after_last_feed I0 + after_last_feed I.
Proof.
  induction I as [|i I IH] using rev_ind; [rewrite app_nil_r; symmetry; apply N.add_0_r|].
  rewrite app_assoc, !after_last_feed_snoc, IH, feeds_app.
  destruct i; change (feeds [_]) with 0 || change (feeds [Feed]) with 1; cbn [after_feed]; rewrite ?N.add_0_r; try done.
  - by replace (0 <? feeds I + 1) with true by lia.
  - destruct (0 <? feeds I); lia.
Qed.

Lemma begin_update_report s o : report (begin_update s o) = report o.
Proof. unfold begin_update. repeat case_match; done. Qed.

Lemma take_update_fresh s o : report (take_update s o).2 = ([], [], 0, 0).
Proof. transitivity (@nil PrintedRun, current_print (flush_print o), 0, 0); [done|]. by rewrite flush_current. Qed.
Lemma fresh_reports I0 o : report o = ([], [], 0, 0) → reports (atoms I0) (atoms []) o ∧ counts [] o.
Proof.
  intros H. pose proof H as H'. injection H' as H1 H2 H3 H4.
  assert (pending o = []) as Hp by by rewrite pending_flushed.
  split; split; rewrite ?Hp, ?H3, ?H4; try done.
  - by rewrite app_nil_r.
  - intros rs _. rewrite H1. intros Hrs. by destruct rs.
Qed.

Lemma take_update_fields s o :
  let u := (take_update s o).1 in
  update_printed_runs u = pending o ∧ update_cursor_operations u = cursor_operations o ∧
  update_cursor_operations_after_last_line_feed u = cursor_operations_after_last_line_feed o.
Proof. pose proof (flush_report o) as H. injection H as _ H3 H4. cbv zeta. split_and!; [done|exact H3|exact H4]. Qed.

Lemma accumulate_spec ws o total I0 :
  report o = ([], [], 0, 0) → total_of I0 total →
  single_returns (atoms (I0 ++ items (mjoin (callbacks <$> ws)))) = true →
  total_of (I0 ++ items (mjoin (callbacks <$> ws))) (accumulate o total ws).
Proof.
  revert o total I0. induction ws as [|w ws IH]; intros o total I0 Ho Ht Hs.
  { change (items (mjoin (callbacks <$> []))) with (@nil item). by rewrite app_nil_r. }
  change (mjoin (callbacks <$> w :: ws)) with (callbacks w ++ mjoin (callbacks <$> ws)) in *.
  rewrite items_app in *. cbn [accumulate].
  set (o1 := observe (begin_update (before w) o) (callbacks w)).
  assert (reports (atoms I0) (atoms (items (callbacks w))) o1 ∧ counts (items (callbacks w)) o1) as [Hr Hc].
  { destruct (fresh_reports I0 (begin_update (before w) o)) as [Hr Hc]; [by rewrite begin_update_report|].
    apply (observe_spec I0 []); [|done|done]. rewrite app_assoc, update_atoms_app in Hs. by apply single_returns_prefix in Hs. }
  destruct (take_update_fields (after w) o1) as (Hruns & Hcur & Haft).
  pose proof (take_update_fresh (after w) o1) as Hfresh.
  destruct (take_update (after w) o1) as [s o2]. cbn [fst snd] in *.
  rewrite app_assoc in *. apply IH; [done| |done].
  destruct Hr as [Hr _], Hc as [C1 C2 C3], Ht as [T1 T2 T3 T4].
  split.
  - transitivity (append_printed_runs (TerminalUpdate.printed_runs total) (update_printed_runs s)); [done|].
    by rewrite T1, Hruns, Hr, update_atoms_app.
  - transitivity (sat_add usize_max (TerminalUpdate.cursor_operations total) (update_cursor_operations s)); [done|].
    rewrite T2, Hcur, C1, cursor_count_app. unfold sat_add. lia.
  - transitivity (if 0 <? line_feeds (update_printed_runs s) then update_cursor_operations_after_last_line_feed s
      else sat_add usize_max (TerminalUpdate.cursor_operations_after_last_line_feed total)
        (update_cursor_operations_after_last_line_feed s)); [done|].
    rewrite Hruns, T3, Haft, C2. fold (line_feeds (pending o1)) in C3. rewrite C3, after_last_feed_app.
    destruct (0 <? feeds _); unfold sat_add; lia.
  - transitivity (sat_add usize_max (line_feed_boundaries total) (line_feeds (update_printed_runs s))); [done|].
    fold (line_feeds (pending o1)) in C3. rewrite Hruns, C3, T4, feeds_app. unfold sat_add. lia.
Qed.

(** The merge of the updates of all the writes, none of them dropped. *)
Definition session (ws : list Write) : UpdateSummary := accumulate default_observer default_summary ws.

(** The merge of what the observer reports of a stretch of output does not
    depend on how it was cut into writes: two sequences of writes that give the
    observer the same callbacks accumulate the same text, line feeds and cursor
    counts.  The one exception is a carriage return directly after another one.
    What the view keeps of the reports, within its bounds, is [Journal]. *)
Theorem report_does_not_depend_on_the_cut ws1 ws2 :
  mjoin (callbacks <$> ws1) = mjoin (callbacks <$> ws2) →
  single_returns (atoms (items (mjoin (callbacks <$> ws1)))) = true →
  TerminalUpdate.printed_runs (session ws1) = TerminalUpdate.printed_runs (session ws2) ∧
  printed_text (session ws1) = printed_text (session ws2) ∧
  line_feed_boundaries (session ws1) = line_feed_boundaries (session ws2) ∧
  TerminalUpdate.cursor_operations (session ws1) = TerminalUpdate.cursor_operations (session ws2) ∧
  TerminalUpdate.cursor_operations_after_last_line_feed (session ws1) =
    TerminalUpdate.cursor_operations_after_last_line_feed (session ws2).
Proof.
  intros Heq Hs.
  assert (∀ ws, single_returns (atoms (items (mjoin (callbacks <$> ws)))) = true →
    total_of (items (mjoin (callbacks <$> ws))) (session ws)) as H.
  { intros ws Hws. by apply (accumulate_spec ws default_observer default_summary []). }
  pose proof (H ws1 Hs) as [A1 A2 A3 A4]. rewrite Heq in *. pose proof (H ws2 Hs) as [B1 B2 B3 B4].
  split_and!; try congruence. unfold printed_text. congruence.
Qed.

Definition quiet_engine : UpdateSnapshot := {|
  snapshot_effects := []; snapshot_pty_replies := []; stream := (take_update example_screen default_observer).1;
  snapshot_parser_continuation := false; snapshot_damage := DamageNone; snapshot_changed_rows := [];
  snapshot_cursor_before := default_cursor; snapshot_cursor_after := default_cursor;
  alternate_screen_before := false; alternate_screen_after := false; snapshot_synchronized_output := false;
  snapshot_synchronized_output_closed := false; snapshot_cursor_visibility_restored := false |}.
Definition write_of (cs : list Callback) : Write :=
  {| before := example_screen; callbacks := cs; after := example_screen; engine := quiet_engine |}.

Lemma report_does_not_depend_on_the_cut_witness :
  printed_text (session [write_of [Print 97; Print 98; Execute CR]; write_of [Execute LF; Print 99]]) =
    printed_text (session [write_of [Print 97]; write_of [Print 98; Execute CR; Execute LF]; write_of [Print 99]]) ∧
  printed_text (session [write_of [Print 97; Print 98; Execute CR]; write_of [Execute LF; Print 99]]) = bs "ab" ++ [LF] ++ bs "c".
Proof.
  split; [|reflexivity].
  destruct (report_does_not_depend_on_the_cut
    [write_of [Print 97; Print 98; Execute CR]; write_of [Execute LF; Print 99]]
    [write_of [Print 97]; write_of [Print 98; Execute CR; Execute LF]; write_of [Print 99]]
    eq_refl eq_refl) as (_ & H & _).
  exact H.
Defined.

(** The exception is real: of [ab CR CR LF] in one write the line is kept, for
    the two joins of a return with its line feed make one record boundary; when
    the line feed comes with the next write, the first return erases the line. *)
Theorem doubled_returns_depend_on_the_cut :
  let whole := session [write_of [Print 97; Print 98; Execute CR; Execute CR; Execute LF]] in
  let cut := session [write_of [Print 97; Print 98; Execute CR; Execute CR]; write_of [Execute LF]] in
  printed_text whole = bs "ab" ++ [LF] ∧ completes_linear_output_record whole = true ∧
  printed_text cut = [] ∧ has_linear_output_report cut = true ∧ completes_linear_output_record cut = false.
Proof. cbv zeta. vm_compute. split_and!; reflexivity. Qed.

(** * Raw bytes *)

Definition observe_raw (o : StreamObserver) (bytes : bytes) : StreamObserver :=
  fold_left (λ o b, observe_raw_byte b o) bytes o.
(** An [ESC] directly before an underscore, given that one may be pending. *)
Fixpoint introduces_apc (pending : bool) (l : bytes) : bool :=
  match l with
  | [] => false
  | b :: l => (pending && (b =? 95)) || introduces_apc (b =? ESC) l
  end.

Definition at_boundary (o : StreamObserver) : Prop := raw_utf8_continuations o = 0.
Definition expects (o : StreamObserver) (n lo hi : N) : Prop :=
  raw_utf8_continuations o = n ∧ raw_utf8_next_min o = lo ∧ raw_utf8_next_max o = hi ∧ raw_escape_pending o = false.

Lemma raw_ascii o b :
  at_boundary o → b < 128 →
  let o' := observe_raw_byte b o in
  at_boundary o' ∧ raw_escape_pending o' = (b =? ESC) ∧
  output_report_structural o' = output_report_structural o || (raw_escape_pending o && (b =? 95)).
Proof.
  intros Ho Hb. cbv zeta. unfold observe_raw_byte. rewrite Ho. cbn [N.ltb andb].
  assert (utf8_expectation b = (0, 0, 0)) as Hexp.
  { unfold utf8_expectation, in_range.
    repeat match goal with |- context [if ?c then _ else _] => replace c with false by lia end. done. }
  assert ((b =? 159) = false) as -> by lia. rewrite Hexp. cbn [orb].
  change (raw_escape_pending (o <| raw_utf8_continuations := 0 |>)) with (raw_escape_pending o).
  destruct (raw_escape_pending o && (b =? 95)); split_and!; try done; by rewrite ?orb_true_r, ?orb_false_r.
Qed.

Lemma raw_lead o b n lo hi :
  at_boundary o → 194 ≤ b ≤ 244 → utf8_expectation b = (n, lo, hi) →
  let o' := observe_raw_byte b o in
  expects o' n lo hi ∧ output_report_structural o' = output_report_structural o.
Proof.
  intros Ho Hb Hexp. cbv zeta. unfold observe_raw_byte. rewrite Ho. cbn [N.ltb andb].
  assert ((b =? 159) = false) as -> by lia. assert ((b =? 95) = false) as -> by lia.
  rewrite andb_false_r, Hexp. cbn [orb set_utf8_expectation]. unfold expects. split_and!; try done.
  change ((b =? ESC) = false). unfold ESC. lia.
Qed.

Lemma raw_continuation o n lo hi b :
  expects o n lo hi → 0 < n → lo ≤ b ≤ hi →
  let o' := observe_raw_byte b o in
  expects o' (n - 1) 128 191 ∧ output_report_structural o' = output_report_structural o.
Proof.
  intros (H1 & H2 & H3 & H4) Hn Hb. cbv zeta. unfold observe_raw_byte. rewrite H1, H2, H3.
  assert ((0 <? n) && in_range lo hi b = true) as -> by (unfold in_range; lia).
  by split_and!.
Qed.

Lemma introduces_skip p b l : b ≠ 95 → b ≠ ESC → introduces_apc p (b :: l) = introduces_apc false l.
Proof.
  intros H1 H2. cbn. assert ((b =? 95) = false) as -> by lia. assert ((b =? ESC) = false) as -> by lia.
  by rewrite andb_false_r.
Qed.

Lemma high_no_introducer x : 128 ≤ x → x ≠ 95 ∧ x ≠ ESC.
Proof. unfold ESC. lia. Qed.

Lemma observe_raw_cons o b l : observe_raw o (b :: l) = observe_raw (observe_raw_byte b o) l.
Proof. done. Qed.

(** The observer sees an APC introducer, which the parser does not report, in
    any bytes; and in well-formed UTF-8 it sees nothing else: a continuation
    byte [9F] of a character is not taken for the 8-bit introducer.  The cut of
    the bytes cannot matter, since the state carries over. *)
Theorem raw_bytes_taint_only_by_introducers l cs o :
  utf8_decode l = Some cs → at_boundary o →
  output_report_structural (observe_raw o l) =
    output_report_structural o || introduces_apc (raw_escape_pending o) l ∧
  at_boundary (observe_raw o l).
Proof.
  revert cs o. induction l as [l IH] using (induction_ltof1 _ (@length N)). unfold ltof in IH.
  intros cs o Hd Ho. destruct l as [|b0 l0]; [by rewrite orb_false_r|].
  cbn [utf8_decode] in Hd. rewrite !observe_raw_cons.
  destruct (N.ltb_spec b0 128) as [Hb0|Hb0].
  { apply fmap_Some in Hd as (cs' & Hd & _). destruct (raw_ascii o b0 Ho Hb0) as (H1 & H2 & H3).
    destruct (IH l0 ltac:(clear; cbn; lia) cs' (observe_raw_byte b0 o) Hd H1) as [-> ?].
    split; [|done]. rewrite H2, H3. cbn. by rewrite orb_assoc. }
  destruct l0 as [|b1 l1]; [done|]. rewrite !observe_raw_cons.
  assert (∀ n lo hi m, utf8_expectation b0 = (n, lo, hi) → 194 ≤ b0 ≤ 244 → lo ≤ b1 ≤ hi → 128 ≤ b1 → 0 < n → m = n - 1 →
    expects (observe_raw_byte b1 (observe_raw_byte b0 o)) m 128 191 ∧
    output_report_structural (observe_raw_byte b1 (observe_raw_byte b0 o)) = output_report_structural o ∧
    introduces_apc (raw_escape_pending o) (b0 :: b1 :: l1) = introduces_apc false l1) as Hlead.
  { intros n lo hi m Hexp Hr0 Hr1 Hb1 Hn ->. destruct (raw_lead o b0 n lo hi Ho Hr0 Hexp) as [He Hs].
    destruct (raw_continuation _ n lo hi b1 He Hn Hr1) as [He' Hs']. split_and!; [done|congruence|].
    rewrite !introduces_skip; unfold ESC; done || lia. }
  destruct (in_range 194 223 b0 && is_cont b1) eqn:E2.
  { apply fmap_Some in Hd as (cs' & Hd & _). unfold in_range, is_cont in E2.
    destruct (Hlead 1 128 191 0) as (He & Hs & Hi); try lia.
    { unfold utf8_expectation, in_range. by replace ((194 <=? b0) && (b0 <=? 223)) with true by lia. }
    destruct (IH l1 ltac:(clear; cbn; lia) cs' _ Hd (proj1 He)) as [Hr ?]. split; [|done].
    rewrite Hi, <-Hs. destruct He as (_ & _ & _ & <-). exact Hr. }
  destruct l1 as [|b2 l2]; [done|].
  destruct (in_range 224 239 b0 && is_cont b2 && _) eqn:E3.
  { apply fmap_Some in Hd as (cs' & Hd & _). unfold in_range, is_cont in E3.
    rewrite !andb_true_iff, !N.leb_le in E3.
    assert (128 ≤ if b0 =? 224 then 160 else 128) by (destruct (b0 =? 224); lia).
    destruct (Hlead 2 (if b0 =? 224 then 160 else 128) (if b0 =? 237 then 159 else 191) 1) as (He & Hs & Hi);
      [|lia|apply E3|eapply N.le_trans; [done|apply E3]|lia|lia|].
    { unfold utf8_expectation, in_range.
      replace ((194 <=? b0) && (b0 <=? 223)) with false by lia.
      destruct (N.eqb_spec b0 224) as [->|]; [done|].
      destruct (N.eqb_spec b0 237) as [->|]; [done|].
      by replace ((225 <=? b0) && (b0 <=? 236) || (238 <=? b0) && (b0 <=? 239)) with true by lia. }
    rewrite !observe_raw_cons. destruct (raw_continuation _ 1 128 191 b2 He ltac:(done) ltac:(tauto)) as [He2 Hs2].
    destruct (IH l2 ltac:(clear; cbn; lia) cs' _ Hd (proj1 He2)) as [Hr ?]. split; [|done].
    rewrite Hi, introduces_skip by (apply high_no_introducer; tauto). rewrite <-Hs, <-Hs2. destruct He2 as (_ & _ & _ & <-). exact Hr. }
  destruct l2 as [|b3 l3]; [done|].
  destruct (in_range 240 244 b0 && is_cont b2 && is_cont b3 && _) eqn:E4; [|done].
  apply fmap_Some in Hd as (cs' & Hd & _). unfold in_range, is_cont in E4.
  rewrite !andb_true_iff, !N.leb_le in E4.
  assert (128 ≤ if b0 =? 240 then 144 else 128) by (destruct (b0 =? 240); lia).
  destruct (Hlead 3 (if b0 =? 240 then 144 else 128) (if b0 =? 244 then 143 else 191) 2) as (He & Hs & Hi);
    [|lia|apply E4|eapply N.le_trans; [done|apply E4]|lia|lia|].
  { unfold utf8_expectation, in_range.
    replace ((194 <=? b0) && (b0 <=? 223)) with false by lia.
    replace (b0 =? 224) with false by lia. replace (b0 =? 237) with false by lia.
    replace ((225 <=? b0) && (b0 <=? 236) || (238 <=? b0) && (b0 <=? 239)) with false by lia.
    destruct (N.eqb_spec b0 240) as [->|]; [done|].
    destruct (N.eqb_spec b0 244) as [->|]; [done|].
    by replace ((241 <=? b0) && (b0 <=? 243)) with true by lia. }
  rewrite !observe_raw_cons. destruct (raw_continuation _ 2 128 191 b2 He ltac:(done) ltac:(tauto)) as [He2 Hs2].
  destruct (raw_continuation _ 1 128 191 b3 He2 ltac:(done) ltac:(tauto)) as [He3 Hs3].
  destruct (IH l3 ltac:(clear; cbn; lia) cs' _ Hd (proj1 He3)) as [Hr ?]. split; [|done].
  rewrite Hi. rewrite (introduces_skip _ b2) by (apply high_no_introducer; tauto).
  rewrite (introduces_skip _ b3) by (apply high_no_introducer; tauto). rewrite <-Hs, <-Hs2, <-Hs3.
  destruct He3 as (_ & _ & _ & <-). exact Hr.
Qed.

Lemma raw_bytes_taint_only_by_introducers_witness :
  output_report_structural (observe_raw default_observer [194; 159; 240; 159; 152; 128]) = false ∧
  output_report_structural (observe_raw default_observer [27; 95]) = true ∧
  output_report_structural (observe_raw default_observer [159]) = true.
Proof.
  split_and!; [..|reflexivity].
  - exact (proj1 (raw_bytes_taint_only_by_introducers [194; 159; 240; 159; 152; 128] [159; 128512] default_observer eq_refl eq_refl)).
  - exact (proj1 (raw_bytes_taint_only_by_introducers [27; 95] [27; 95] default_observer eq_refl eq_refl)).
Defined.

(** * Provenance of the output *)

Definition marks (o : StreamObserver) := (output_report_structural o, semantic_input_boundary o).

Lemma marks_flush o : marks (flush_print o) = marks o.
Proof. unfold flush_print. by case_bool_decide. Qed.
Lemma marks_push_boundary b o : marks (push_boundary b o) = marks o.
Proof. rewrite <-(marks_flush o). unfold push_boundary. repeat case_match; done. Qed.
Lemma marks_record_write c o : marks (record_write c o) = marks o.
Proof. unfold record_write. repeat case_match; done. Qed.
Lemma marks_record_erase r c n o : marks (record_erase r c n o) = marks o.
Proof. unfold record_erase. by case_match. Qed.
Lemma marks_erase_rows n first o : marks (erase_rows n first o) = marks o.
Proof. revert first o. induction n; intros; cbn; [done|]. by rewrite IHn, marks_record_erase. Qed.
Lemma marks_repeat_write n c o : marks (repeat_write n c o) = marks o.
Proof. revert o. induction n; intros; cbn; [done|]. by rewrite IHn, marks_record_write. Qed.
Lemma marks_private_modes enabled values o : marks (fold_left (private_mode enabled) values o) = marks o.
Proof.
  revert o. induction values as [|v values IH]; intros; cbn; [done|]. rewrite IH.
  unfold private_mode. repeat case_match; done.
Qed.
Lemma marks_line_feed o : marks (line_feed o) = marks o.
Proof. unfold line_feed. repeat case_match; done. Qed.
Lemma marks_csi_action params action o : marks (csi_action params action o) = marks o.
Proof.
  assert (∀ m o', marks (erase_line m o') = marks o') as Hline.
  { intros m o'. unfold erase_line. repeat case_match; rewrite ?marks_record_erase; done. }
  assert (∀ m o', marks (erase_display m o') = marks o') as Hdisplay.
  { intros m o'. unfold erase_display. repeat case_match; rewrite ?marks_erase_rows, ?marks_record_erase, ?marks_erase_rows; done. }
  assert (∀ p o', marks (set_scroll_region p o') = marks o') as Hregion by (intros; unfold set_scroll_region; by case_match).
  assert (∀ up p o', marks (scroll up p o') = marks o') as Hscroll by (intros; unfold scroll; repeat case_match; done).
  assert (∀ i p o', marks (edit_lines i p o') = marks o') as Hedit by (intros; unfold edit_lines; repeat case_match; done).
  unfold csi_action.
  repeat match goal with
  | |- marks (if ?b then _ else _) = _ => destruct b
  | |- marks (match ?x with Some _ => _ | None => _ end) = _ => destruct x
  end; rewrite ?Hline, ?Hdisplay, ?Hregion, ?Hscroll, ?Hedit, ?marks_record_erase, ?marks_repeat_write; reflexivity.
Qed.

(** Controls that cannot alter what is displayed. *)
Definition neutral_params (params : list bytes) : bool :=
  bool_decide (is_Some (clipboard_query params)) || bool_decide (is_Some (color_query params)) ||
  bool_decide (head params = Some (bs "8")) ||
  match params with command :: _ => neutral_osc command | [] => false end.
Definition output_neutral (c : Callback) : bool :=
  match c with
  | Raw _ => true
  | Execute byte => (byte =? 0) || (byte =? BEL)
  | OscDispatch params => neutral_params params
  | CsiDispatch params intermediates ignore action =>
      negb ignore &&
      ((bool_decide (intermediates = []) && (sign action "m" || sign action "n" || sign action "c")) ||
       (bool_decide (intermediates = bs "?") && (sign action "h" || sign action "l") &&
        private_modes_are_output_neutral params))
  | _ => false
  end.
Definition input_start (c : Callback) : bool :=
  match c with
  | OscDispatch (command :: marker :: _) => bool_decide (command = bs "133") && bool_decide (marker = bs "B")
  | _ => false
  end.
(** Text, the ends of lines, and the marks of a shell. *)
Definition plain_text (c : Callback) : bool :=
  match c with
  | Print _ => true
  | Execute byte => (byte =? CR) || (byte =? LF)
  | OscDispatch (command :: _ :: _) => bool_decide (command = bs "133")
  | _ => false
  end.

(** What a callback may do to the two marks. *)
Definition marks_step (c : Callback) (before after : bool * bool) : Prop :=
  (after.2 = true → input_start c = true ∨ (before.2 = true ∧ output_neutral c = true)) ∧
  (after.1 = false → before.1 = false ∧ (plain_text c = true ∨ output_neutral c = true)).

Lemma osc_marks params o : marks_step (OscDispatch params) (marks o) (marks (osc_dispatch params o)).
Proof.
  unfold osc_dispatch. rewrite <-(marks_flush o). generalize (flush_print o). clear o. intros o.
  unfold marks_step. cbn [output_neutral input_start plain_text]. unfold neutral_params.
  destruct (clipboard_query params) as [l|]; [rewrite bool_decide_eq_true_2 by done; cbn; intuition done|].
  destruct (color_query params) as [q|]; [rewrite (bool_decide_eq_true_2 (is_Some (Some q))) by done; rewrite orb_true_r; cbn; intuition done|].
  destruct (decide (head params = Some (bs "8"))) as [H8|H8].
  { rewrite !(bool_decide_eq_true_2 _ H8), orb_true_r. cbn. intuition done. }
  rewrite !(bool_decide_eq_false_2 _ H8), !(bool_decide_eq_false_2 (is_Some None)) by (by intros [? ?]). cbn [orb].
  destruct params as [|command [|marker rest]]; [cbn; intuition done|destruct (neutral_osc command); cbn; intuition done|].
  destruct (decide (command = bs "133")) as [->|Hc].
  - rewrite !(bool_decide_eq_true_2 (bs "133" = bs "133")) by done. cbn [andb].
    destruct (semantic_kind marker rest) as [k|] eqn:E; [|cbn; intuition done].
    split; [|cbn; intuition done]. intros Hk. left. change (bool_decide (k = InputStart) = true) in Hk.
    apply bool_decide_eq_true in Hk as ->. unfold semantic_kind in E.
    repeat (case_bool_decide; [congruence || by apply bool_decide_eq_true|]). done.
  - rewrite !(bool_decide_eq_false_2 _ Hc). destruct (neutral_osc command); cbn; intuition done.
Qed.

Lemma csi_marks params intermediates ignore action o :
  marks_step (CsiDispatch params intermediates ignore action) (marks o)
    (marks (csi_dispatch params intermediates ignore action o)).
Proof.
  unfold csi_dispatch. rewrite <-(marks_flush o). generalize (flush_print o). clear o. intros o.
  match goal with |- context [if ?b then mark_structural_output ?o else ?o] =>
    set (o' := if b then mark_structural_output o else o) end.
  match goal with |- marks_step _ _ (marks ?x) => assert (marks x = marks o') as -> end.
  { clearbody o'. match goal with |- marks (if ?b then _ else _) = _ => destruct b end; [by rewrite marks_private_modes|].
    match goal with |- marks (if ?b then _ else _) = _ => destruct b end; [|done].
    rewrite marks_csi_action. by match goal with |- marks (if ?b then _ else _) = _ => destruct b end. }
  unfold o', marks_step. cbn [output_neutral input_start plain_text].
  destruct ignore; cbn [negb andb]; [cbn; intuition done|].
  destruct (bool_decide (intermediates = []) && _); cbn [negb andb orb]; [tauto|].
  destruct (bool_decide (intermediates = bs "?") && _ && _); cbn; intuition done.
Qed.

Lemma execute_marks byte o : marks_step (Execute byte) (marks o) (marks (execute byte o)).
Proof.
  unfold execute. rewrite <-(marks_flush o). generalize (flush_print o). clear o. intros o.
  unfold marks_step. cbn [output_neutral input_start plain_text].
  destruct (N.eqb_spec byte 8) as [->|]; [cbn; intuition done|].
  destruct (N.eqb_spec byte CR) as [->|].
  { match goal with |- context [marks (?x <| operation_col := 0 |>)] =>
      change (marks (x <| operation_col := 0 |>)) with (marks x) end.
    rewrite marks_push_boundary. cbn. intuition done. }
  destruct (N.eqb_spec byte LF) as [->|]; [rewrite marks_line_feed, marks_push_boundary; cbn; intuition done|].
  destruct (_ || _) eqn:E11; [rewrite marks_line_feed, marks_push_boundary; cbn; intuition done|].
  destruct (byte =? TAB); [cbn; intuition done|].
  destruct ((byte =? 0) || (byte =? BEL)); cbn; intuition done.
Qed.

Lemma callback_marks c o : marks_step c (marks o) (marks (callback o c)).
Proof.
  destruct c; cbn [callback].
  - unfold marks_step. cbn [output_neutral input_start plain_text].
    assert (marks (observe_raw_byte byte o) = marks o ∨ marks (observe_raw_byte byte o) = (true, false)) as [-> | ->];
      [|tauto|cbn; intuition done].
    unfold observe_raw_byte, set_utf8_expectation. destruct (_ && _); [by left|].
    destruct (utf8_expectation byte) as [[? ?] ?].
    match goal with |- context [if ?b then mark_structural_output _ else _] => destruct b end; [by right|by left].
  - unfold print. cbv zeta. rewrite marks_record_write. unfold marks_step. cbn. intuition done.
  - apply execute_marks.
  - unfold hook. unfold marks_step. cbn. intuition done.
  - apply osc_marks.
  - apply csi_marks.
  - assert (marks (esc_dispatch intermediates byte o) = (true, false)) as ->.
    { unfold esc_dispatch, reverse_index. repeat case_match; rewrite ?marks_line_feed; done. }
    unfold marks_step. cbn. intuition done.
Qed.

(** What the application is told by the marks of an update is sound.  A prompt
    boundary at its end means that the shell announced its input and that
    nothing but harmless controls came after.  Output that is not structural was
    written to a plain primary screen with a visible cursor, and consists of
    text, line ends and harmless controls only: no cursor addressing, erasing
    or scrolling hides in it. *)
Theorem marks_of_an_update_are_sound s o cs :
  let o' := observe (begin_update s o) cs in
  (semantic_input_boundary o' = true →
     ∃ cs1 mark cs2, cs = cs1 ++ mark :: cs2 ∧ input_start mark = true ∧ forallb output_neutral cs2 = true) ∧
  (output_report_structural o' = false →
     forallb (λ c, plain_text c || output_neutral c) cs = true ∧
     screen s = PrimaryScreen ∧ visible (cursor s) = true ∧ scroll_region o = None ∧ origin_mode o = false).
Proof.
  cbv zeta. split.
  - assert (semantic_input_boundary (begin_update s o) = false) as H0.
    { unfold begin_update. repeat case_match; done. }
    induction cs as [|c cs IH] using rev_ind; [cbn; by rewrite H0|].
    unfold observe. rewrite fold_left_app. cbn [fold_left]. fold (observe (begin_update s o) cs). intros H.
    destruct (callback_marks c (observe (begin_update s o) cs)) as [Hb _].
    destruct (Hb H) as [Hi|[H1 H2]]; [by exists cs, c, []|].
    destruct (IH H1) as (cs1 & mark & cs2 & -> & Hm & Hn). exists cs1, mark, (cs2 ++ [c]).
    split_and!; [by rewrite <-app_assoc|done|]. by rewrite forallb_app, Hn; cbn; rewrite H2.
  - induction cs as [|c cs IH] using rev_ind.
    + intros H. split; [done|]. change (observe (begin_update s o) []) with (begin_update s o) in H.
      assert (output_report_structural (begin_update s o) =
        alternate_screen s || negb (visible (cursor s)) || Screen.synchronized_output (modes s) ||
        application_keypad (modes s) || application_cursor (modes s) ||
        negb (bool_decide (mouse_protocol (modes s) = NoMouse)) ||
        bool_decide (is_Some (scroll_region o)) || origin_mode o || left_right_margin_mode o) as E.
      { unfold begin_update. repeat case_match; done. }
      rewrite E, !orb_false_iff in H. destruct H as ((((((((H1 & H2) & _) & _) & _) & _) & H7) & H8) & _).
      unfold alternate_screen in H1. apply bool_decide_eq_false in H1, H7. split_and!; [..|done].
      * by destruct (screen s).
      * by destruct (visible _).
      * destruct (scroll_region o); [|done]. by destruct H7.
    + unfold observe. rewrite fold_left_app. cbn [fold_left]. fold (observe (begin_update s o) cs). intros H.
      destruct (callback_marks c (observe (begin_update s o) cs)) as [_ Hs].
      destruct (Hs H) as [H1 H2]. destruct (IH H1) as [Hall Hrest]. split; [|done].
      rewrite forallb_app, Hall. cbn. by destruct H2 as [-> | ->]; rewrite ?orb_true_r.
Qed.
