(* ===== verification/ReviewDocument.v ===== *)
(** Review documents (src/src/review/document.rs): a frozen copy of a screen and
    its scrollback, the motions of review mode over it, searching, and the text
    that is yanked from it.

    A cell's text is the list of its characters; a row index is a [usize], a
    column a [u16].  [is_alphanumeric] of the standard library's tables and the
    regular expressions (crate [regex]) are parameters.  Indexing a vector out
    of its range panics in the code; where it can happen the definition returns
    an option whose [None] is the panic. *)

From S2P Require Import Prelude Terminal Screen ReviewParser.
Local Open Scope N_scope.

(** * Data *)

(** [Cell] and [Row] of the document. *)
Record DocumentCell := { text : list N; wide_continuation : bool; cell_style : Style }.
Record DocumentRow := { row_cells : list DocumentCell; row_wraps : bool; row_end : N }.

Record ReviewDocument := {
  doc_rows : list DocumentRow;
  marks : list SemanticMark;
  capture_cols : N;
  doc_alternate_screen : bool;
  flat_text : list N;
  flat_positions : list HistoryPosition;
  positions : list HistoryPosition
}.

(** * Capture *)

Definition capture_cell (source : option Cell) : DocumentCell :=
  {| text := match source with Some c => contents c | None => [] end;
     wide_continuation := match source with Some c => is_wide_continuation c | None => false end;
     cell_style := match source with Some c => style c | None => default_style end |}.
(** The cells of a row, and the column after the last one that shows
    something. *)
Fixpoint capture_row_loop (source : Row) (count : nat) (col : N) (cells : list DocumentCell) (end_ : N)
  : list DocumentCell * N :=
  match count with
  | O => (cells, end_)
  | S count =>
      let cell := capture_cell (Screen.cells source !! N.to_nat col) in
      let end_ := if negb (bool_decide (text cell = [])) || wide_continuation cell
                  then sat_add u16_max col 1 else end_ in
      capture_row_loop source count (col + 1) (cells ++ [cell]) end_
  end.
Definition capture_row (capture_cols : N) (source : Row) : DocumentRow :=
  let '(cells, end_) := capture_row_loop source (N.to_nat capture_cols) 0 [] 0 in
  {| row_cells := cells; row_wraps := wrapped source; row_end := if wrapped source then capture_cols else end_ |}.

(** The columns [0 .. n-1] of a row, as far as its cells go; [None] when a cell
    is missing. *)
Definition columns (r : DocumentRow) (n : N) : option (list (N * DocumentCell)) :=
  mapM (λ col, cell ← row_cells r !! col; Some (N.of_nat col, cell)) (seq 0 (N.to_nat n)).

Definition addressable (row_index : N) (r : DocumentRow) : option (list HistoryPosition) :=
  cols ← columns r (N.max (row_end r) 1);
  Some ((λ c, {| row := row_index; col := c.1 |}) <$> List.filter (λ c, negb (wide_continuation c.2)) cols).

(** What one cell adds to the search text; a position per byte of it. *)
Definition flat_cell (row_index : N) (c : N * DocumentCell) : list N * list HistoryPosition :=
  if wide_continuation c.2 then ([], []) else
  let text := if bool_decide (text c.2 = []) then [SP] else text c.2 in
  (text, replicate (length (mjoin (utf8_encode <$> text))) {| row := row_index; col := c.1 |}).
Definition flat_row (row_index : N) (r : DocumentRow) : option (list N * list HistoryPosition) :=
  cols ← columns r (row_end r);
  let parts := flat_cell row_index <$> cols in
  let newline := if row_wraps r then ([], []) else ([LF], [{| row := row_index; col := 0 |}]) in
  Some (mjoin (fst <$> parts) ++ newline.1, mjoin (snd <$> parts) ++ newline.2).

Definition build_search_text (d : ReviewDocument) : option ReviewDocument :=
  let indexed := imap (λ i r, (N.of_nat i, r)) (doc_rows d) in
  addressables ← mapM (λ p, addressable p.1 p.2) indexed;
  flats ← mapM (λ p, flat_row p.1 p.2) indexed;
  Some (((d <| positions := mjoin addressables |>) <| flat_text := mjoin (fst <$> flats) |>)
          <| flat_positions := mjoin (snd <$> flats) |>).

Definition from_snapshot (snapshot : TerminalSnapshot) (capture_cols : N) : option ReviewDocument :=
  build_search_text {|
    doc_rows := capture_row capture_cols <$> (scrollback snapshot ++ rows snapshot);
    marks := semantic_marks snapshot; capture_cols := capture_cols;
    doc_alternate_screen := alternate_screen snapshot;
    flat_text := []; flat_positions := []; positions := [] |}.

(** * Geometry *)

Definition row_count (d : ReviewDocument) : N := len (doc_rows d).
Definition max_viewport_top (d : ReviewDocument) (height : N) : N := row_count d - N.max height 1.
Definition max_viewport_left (d : ReviewDocument) (width : N) : N :=
  N.max (fold_right N.max 0 (row_end <$> doc_rows d)) 1 - N.max width 1.

Definition doc_row (d : ReviewDocument) (r : N) : option DocumentRow := doc_rows d !! N.to_nat r.
Definition doc_cell (d : ReviewDocument) (r c : N) : option DocumentCell :=
  line ← doc_row d r; row_cells line !! N.to_nat c.
Definition is_wide_at (d : ReviewDocument) (r c : N) : bool :=
  match doc_cell d r c with Some cell => wide_continuation cell | None => false end.
Definition cell_text (d : ReviewDocument) (p : HistoryPosition) : list N :=
  match doc_cell d (row p) (col p) with Some cell => text cell | None => [] end.

Definition line_last_col (d : ReviewDocument) (r : N) : N :=
  match doc_row d r with Some line => row_end line - 1 | None => 0 end.
(** [while col > 0 && the cell is a continuation { col -= 1; }]. *)
Fixpoint leave_wide (d : ReviewDocument) (r : N) (col : nat) : nat :=
  match col with
  | O => O
  | S c => if is_wide_at d r (N.of_nat col) then leave_wide d r c else col
  end.
Definition clamp_col (d : ReviewDocument) (r col : N) : N :=
  N.of_nat (leave_wide d r (N.to_nat (N.min col (line_last_col d r)))).
Definition clamp (d : ReviewDocument) (p : HistoryPosition) : HistoryPosition :=
  let r := N.min (row p) (row_count d - 1) in
  {| row := r; col := clamp_col d r (col p) |}.

Definition line_first_nonblank (d : ReviewDocument) (r : N) : N :=
  match doc_row d r with
  | None => 0
  | Some line =>
      match list_find (λ c, forallb is_whitespace_char (text c) = false ∧ text c ≠ [])
              (take (N.to_nat (row_end line)) (row_cells line)) with
      | Some (i, _) => N.of_nat i
      | None => 0
      end
  end.

(** [(position != original).then_some(position)]. *)
Definition if_moved (original position : HistoryPosition) : option HistoryPosition :=
  if bool_decide (position = original) then None else Some position.

(** * Moving by cells and rows *)

(** [while next <= last && the cell is a continuation { next += 1; }]; [fuel]
    is the number of columns up to [last]. *)
Fixpoint skip_wide (d : ReviewDocument) (r last : N) (fuel : nat) (next : N) : N :=
  match fuel with
  | O => next
  | S fuel => if (next <=? last) && is_wide_at d r next then skip_wide d r last fuel (next + 1) else next
  end.
(** One step to the right or left; [None] when the loop breaks. *)
Definition step_right (d : ReviewDocument) (p : HistoryPosition) : option HistoryPosition :=
  let last := line_last_col d (row p) in
  if last <=? col p then None else
  let next := skip_wide d (row p) last (N.to_nat (last - col p)) (col p + 1) in
  if last <? next then None else Some {| row := row p; col := next |}.
Definition step_left (d : ReviewDocument) (p : HistoryPosition) : option HistoryPosition :=
  if col p =? 0 then None else
  Some {| row := row p; col := N.of_nat (leave_wide d (row p) (N.to_nat (col p - 1))) |}.
Fixpoint step_horizontally (d : ReviewDocument) (forward : bool) (count : nat) (p : HistoryPosition) : HistoryPosition :=
  match count with
  | O => p
  | S count =>
      match (if forward then step_right else step_left) d p with
      | Some p => step_horizontally d forward count p
      | None => p
      end
  end.
Definition move_horizontal (d : ReviewDocument) (p : HistoryPosition) (forward : bool) (count : N)
  : option HistoryPosition :=
  if_moved p (step_horizontally d forward (N.to_nat count) p).

Definition move_vertical (d : ReviewDocument) (p : HistoryPosition) (down : bool) (count : N) : option HistoryPosition :=
  let r := if down then N.min (sat_add usize_max (row p) count) (row_count d - 1) else row p - count in
  if r =? row p then None else Some {| row := r; col := clamp_col d r (col p) |}.

(** * Loops over indices *)

(** [while p(i) { i += 1; }] for at most [fuel] turns, and
    [while i > 0 && p(i) { i -= 1; }]. *)
Fixpoint advance (p : nat → bool) (fuel i : nat) : nat :=
  match fuel with O => i | S fuel => if p i then advance p fuel (S i) else i end.
Fixpoint retreat (p : nat → bool) (i : nat) : nat :=
  match i with O => O | S j => if p i then retreat p j else i end.

(** [iter().position(|value| *value == position)]. *)
Fixpoint index_of (p : HistoryPosition) (l : list HistoryPosition) : option nat :=
  match l with
  | [] => None
  | q :: l => if bool_decide (q = p) then Some 0%nat else S <$> index_of p l
  end.

Definition same_logical_line (d : ReviewDocument) (l r : HistoryPosition) : bool :=
  (row l =? row r) ||
  ((sat_add usize_max (row l) 1 =? row r) && match doc_row d (row l) with Some line => row_wraps line | None => false end).

#[export] Instance WordStyle_eq_dec : EqDecision WordStyle.
Proof. solve_decision. Defined.

Section Words.
Context (is_alphanumeric : N → bool).

Definition word_class (d : ReviewDocument) (p : HistoryPosition) (style : WordStyle) : N :=
  match cell_text d p with
  | [] => 0
  | ch :: _ =>
      if is_whitespace_char ch then 0
      else if bool_decide (style = BigWord) || is_alphanumeric ch || (ch =? 95) then 1
      else 2
  end.

(** The same for the position with an index; loops only use indices of the
    list. *)
Definition class_at (d : ReviewDocument) (style : WordStyle) (i : nat) : N :=
  match positions d !! i with Some p => word_class d p style | None => 0 end.
Definition line_joins (d : ReviewDocument) (i j : nat) : bool :=
  match positions d !! i, positions d !! j with Some p, Some q => same_logical_line d p q | _, _ => false end.
(** [same_word] of the positions [i] and [j]. *)
Definition same_word (d : ReviewDocument) (style : WordStyle) (i j : nat) : bool :=
  line_joins d i j && (class_at d style i =? class_at d style j).

Definition next_word_start (d : ReviewDocument) (p : HistoryPosition) (style : WordStyle) : option HistoryPosition :=
  index ← index_of p (positions d);
  let n := length (positions d) in
  let i := advance (λ i, (i <? n)%nat && same_word d style (i - 1) i) n (S index) in
  let i := advance (λ i, (i <? n)%nat && (class_at d style i =? 0)) n i in
  positions d !! i.

Definition previous_word_start (d : ReviewDocument) (p : HistoryPosition) (style : WordStyle) : option HistoryPosition :=
  index ← index_of p (positions d);
  match index with
  | O => None
  | S i =>
      let i := retreat (λ i, class_at d style i =? 0) i in
      let class := class_at d style i in
      let i := retreat (λ i, (class_at d style (i - 1) =? class) && line_joins d (i - 1) i) i in
      positions d !! i
  end.

Definition next_word_end (d : ReviewDocument) (p : HistoryPosition) (style : WordStyle) : option HistoryPosition :=
  index ← index_of p (positions d);
  let n := length (positions d) in
  let i := advance (λ i, (i <? n)%nat && (class_at d style i =? 0)) n (S index) in
  at_i ← positions d !! i;
  let class := word_class d at_i style in
  let i := advance (λ i, (i + 1 <? n)%nat && (class_at d style (i + 1) =? class) && line_joins d i (i + 1)) n i in
  positions d !! i.

Definition word_step (d : ReviewDocument) (movement : WordMove) (style : WordStyle) (p : HistoryPosition)
  : option HistoryPosition :=
  match movement with
  | ForwardStart => next_word_start d p style
  | BackwardStart => previous_word_start d p style
  | ForwardEnd => next_word_end d p style
  end.
Fixpoint word_steps (d : ReviewDocument) (movement : WordMove) (style : WordStyle) (count : nat) (p : HistoryPosition)
  : option HistoryPosition :=
  match count with
  | O => Some p
  | S count => p ← word_step d movement style p; word_steps d movement style count p
  end.
Definition move_word (d : ReviewDocument) (p : HistoryPosition) (movement : WordMove) (style : WordStyle) (count : N)
  : option HistoryPosition :=
  q ← word_steps d movement style (N.to_nat count) p; if_moved p q.

(** The loop on [word_index] of [inner_word_range]. *)
Fixpoint extend_words (d : ReviewDocument) (style : WordStyle) (class : N) (count : nat) (end_ : nat) : nat :=
  match count with
  | O => end_
  | S count =>
      let n := length (positions d) in
      let end_ := advance (λ e, (e + 1 <? n)%nat && (class_at d style (e + 1) =? class) && line_joins d e (e + 1)) n end_ in
      match count with
      | O => end_
      | S _ =>
          let next := advance (λ i, (i <? n)%nat && (class_at d style i =? 0)) n (end_ + 1) in
          if (n <=? next)%nat then end_ else extend_words d style class count next
      end
  end.
Definition inner_word_range (d : ReviewDocument) (p : HistoryPosition) (style : WordStyle) (around : bool) (count : N)
  : option (HistoryPosition * HistoryPosition) :=
  index ← index_of p (positions d);
  let n := length (positions d) in
  let index :=
    if class_at d style index =? 0 then advance (λ i, (i <? n)%nat && (class_at d style i =? 0)) n index else index in
  at_index ← positions d !! index;
  let class := word_class d at_index style in
  if class =? 0 then None else
  let start := retreat (λ i, (class_at d style (i - 1) =? class) && line_joins d (i - 1) i) index in
  let end_ := extend_words d style class (N.to_nat count) index in
  let '(start, end_) :=
    if around then
      let end1 := pred (advance (λ i, (i <? n)%nat && (class_at d style i =? 0)) n (end_ + 1)) in
      (if bool_decide (end1 = index) then retreat (λ i, class_at d style (i - 1) =? 0) start else start, end1)
    else (start, end_) in
  first ← positions d !! start;
  final ← positions d !! end_;
  Some (first, final).
End Words.

(** * Characters and braces *)

Definition cell_char (d : ReviewDocument) (p : HistoryPosition) : option N := head (cell_text d p).

Definition wraps_at (d : ReviewDocument) (r : nat) : bool :=
  match doc_rows d !! r with Some line => row_wraps line | None => false end.
Definition logical_line_range (d : ReviewDocument) (r : N) : nat * nat :=
  let n := length (doc_rows d) in
  let start := retreat (λ s, wraps_at d (s - 1)) (Nat.min (N.to_nat r) (n - 1)) in
  let end_ := advance (λ e, (e <? n)%nat && wraps_at d (e - 1)) n (Nat.min (N.to_nat (sat_add usize_max r 1)) n) in
  (start, end_).

Definition position_at (r : nat) (c : nat) : HistoryPosition := {| row := N.of_nat r; col := N.of_nat c |}.
(** The positions of the rows [start .. end-1], the columns of each up to its
    end. *)
Definition row_end_at (d : ReviewDocument) (r : nat) : nat :=
  match doc_rows d !! r with Some line => N.to_nat (row_end line) | None => 0 end.
Definition line_positions (d : ReviewDocument) (range : nat * nat) : list HistoryPosition :=
  r ← seq range.1 (range.2 - range.1); position_at r <$> seq 0 (row_end_at d r).

Definition starts_with_char (target : N) (t : list N) : bool := bool_decide (head t = Some target).

Definition adjacent (d : ReviewDocument) (p : HistoryPosition) (forward : bool) : option HistoryPosition :=
  index ← index_of p (positions d);
  if forward then positions d !! S index
  else match index with O => None | S i => positions d !! i end.
Definition previous_position (d : ReviewDocument) (p : HistoryPosition) : option HistoryPosition :=
  index ← index_of p (positions d);
  match index with O => None | S i => positions d !! i end.

Definition find_character (d : ReviewDocument) (p : HistoryPosition) (target : N) (forward till : bool) (count : N)
  : option HistoryPosition :=
  let matches := List.filter (λ candidate,
      starts_with_char target (cell_text d candidate) &&
      (if forward then position_lt p candidate else position_lt candidate p))
    (line_positions d (logical_line_range d (row p))) in
  let matches := if forward then matches else reverse matches in
  found ← matches !! N.to_nat (count - 1);
  found ← (if till then adjacent d found (negb forward) else Some found);
  if_moved p found.

(** [( ) [ ] { }]. *)
Definition mate_of (ch : N) : option (N * bool) :=
  if ch =? 40 then Some (41, true) else if ch =? 91 then Some (93, true) else if ch =? 123 then Some (125, true)
  else if ch =? 41 then Some (40, false) else if ch =? 93 then Some (91, false) else if ch =? 125 then Some (123, false)
  else None.
Definition is_brace (t : option N) : bool := match t with Some ch => bool_decide (is_Some (mate_of ch)) | None => false end.

(** The loop over the candidates. *)
Fixpoint balance (d : ReviewDocument) (ch mate : N) (depth : N) (candidates : list HistoryPosition)
  : option HistoryPosition :=
  match candidates with
  | [] => None
  | candidate :: candidates =>
      let value := cell_char d candidate in
      if bool_decide (value = Some ch) then balance d ch mate (depth + 1) candidates
      else if bool_decide (value = Some mate) then
        if depth =? 0 then Some candidate else balance d ch mate (depth - 1) candidates
      else balance d ch mate depth candidates
  end.
Definition first_brace (d : ReviewDocument) (p : HistoryPosition) : option HistoryPosition :=
  let candidates := List.filter (λ q, (if row q =? row p then col p <=? col q else true) && is_brace (cell_char d q))
    (line_positions d (logical_line_range d (row p))) in
  head candidates.
Definition matching_brace (d : ReviewDocument) (p : HistoryPosition) : option HistoryPosition :=
  start ← first_brace d p;
  ch ← cell_char d start;
  '(mate, forward) ← mate_of ch;
  start_index ← index_of start (positions d);
  if (forward : bool) then balance d ch mate 0 (drop (S start_index) (positions d))
  else balance d ch mate 0 (reverse (take start_index (positions d))).

(** * Prompts and searches *)

Definition prompt (d : ReviewDocument) (p : HistoryPosition) (forward : bool) (count : N) : option HistoryPosition :=
  let candidates := List.filter (λ q, if forward then position_lt p q else position_lt q p)
    (mark_position <$> List.filter (λ m, Bool.eqb (mark_alternate_screen m) (doc_alternate_screen d) &&
                                         bool_decide (kind m = PromptStart)) (marks d)) in
  let candidates := if forward then candidates else reverse candidates in
  clamp d <$> candidates !! N.to_nat (count - 1).

Definition position_for_offset (d : ReviewDocument) (offset : N) : option HistoryPosition :=
  match flat_positions d !! N.to_nat offset with
  | Some p => Some p
  | None => if bool_decide (doc_rows d = []) then None else Some (clamp d {| row := row_count d - 1; col := 0 |})
  end.

(** [found] are the byte offsets at which the matches start, in order; [None]
    when the query is not a regular expression. *)
Definition ordered_matches (matches : list HistoryPosition) (p : HistoryPosition) (direction : SearchDirection)
  : list HistoryPosition :=
  match direction with
  | SearchForward =>
      List.filter (λ c, position_lt p c) matches ++ List.filter (λ c, position_le c p) matches
  | SearchBackward =>
      List.filter (λ c, position_lt c p) (reverse matches) ++ List.filter (λ c, position_le p c) (reverse matches)
  end.
Definition search (d : ReviewDocument) (find_iter : list N → option (list N)) (p : HistoryPosition)
    (direction : SearchDirection) (count : N) : option HistoryPosition :=
  found ← find_iter (flat_text d);
  let matches := omap (position_for_offset d) found in
  if bool_decide (matches = []) then None else
  let ordered := ordered_matches matches p direction in
  target ← ordered !! N.to_nat ((count - 1) mod len ordered);
  if_moved p target.

(** * Yanking *)

(** [while text.ends_with(' ') { text.pop(); }]. *)
Definition drop_trailing_spaces (t : list N) : list N := pop_trailing SP t.

Definition yank_cell (t : list N) (c : DocumentCell) : list N :=
  if wide_continuation c then t else if bool_decide (text c = []) then t ++ [SP] else t ++ text c.
(** One row of the loop; [None] when the row or a cell does not exist. *)
Definition yank_row (d : ReviewDocument) (first final : HistoryPosition) (linewise : bool) (t : list N) (row_index : N)
  : option (list N) :=
  line ← doc_row d row_index;
  let start := if row_index =? row first then col first else 0 in
  let end_ := if row_index =? row final then sat_add u16_max (col final) 1 else row_end line in
  let stop := N.min end_ (row_end line) in
  selected ← mapM (λ c, row_cells line !! c) (seq (N.to_nat start) (N.to_nat stop - N.to_nat start));
  let t := fold_left yank_cell selected t in
  let t := if linewise || negb (row_index =? row final) then drop_trailing_spaces t else t in
  Some (if negb (row_index =? row final) && negb (row_wraps line) then t ++ [LF] else t).
Fixpoint yank_rows (d : ReviewDocument) (first final : HistoryPosition) (linewise : bool) (count : nat) (row_index : N)
    (t : list N) : option (list N) :=
  match count with
  | O => Some t
  | S count => t ← yank_row d first final linewise t row_index; yank_rows d first final linewise count (row_index + 1) t
  end.
(** [Some None] is the code's [None]: nothing to yank. *)
Definition yank_range (d : ReviewDocument) (p q : HistoryPosition) (linewise : bool) : option (option (list N)) :=
  let '(first, final) := if position_le p q then (p, q) else (q, p) in
  let first := if linewise then {| row := row first; col := 0 |} else first in
  let final := if linewise then {| row := row final; col := line_last_col d (row final) |} else final in
  t ← yank_rows d first final linewise (N.to_nat (row final + 1 - row first)) (row first) [];
  let t := if linewise then t ++ [LF] else t in
  Some (if bool_decide (t = []) then None else Some t).

(** * Drawing a row *)

Definition write_color (output : bytes) (color : Color) (is_foreground : bool) : bytes :=
  let selector := to_dec (if is_foreground then 38 else 48) in
  match color with
  | ColorDefault => output
  | Indexed index => output ++ bs ";" ++ selector ++ bs ";5;" ++ to_dec index
  | Rgb red green blue =>
      output ++ bs ";" ++ selector ++ bs ";2;" ++ to_dec red ++ bs ";" ++ to_dec green ++ bs ";" ++ to_dec blue
  end.
Definition write_style (output : bytes) (s : Style) : bytes :=
  let output := output ++ [ESC] ++ bs "[0" in
  let output := if style_bold s then output ++ bs ";1" else output in
  let output := if style_dim s then output ++ bs ";2" else output in
  let output := if style_italic s then output ++ bs ";3" else output in
  let output := if bool_decide (style_underline s = UnderlineNone) then output else output ++ bs ";4" in
  let output := if style_inverse s then output ++ bs ";7" else output in
  write_color (write_color output (foreground s) true) (background s) false ++ bs "m".

Definition format_cell (first_col : N) (st : bytes * Style) (indexed : N * DocumentCell) : bytes * Style :=
  let '(output, style) := st in
  let '(index, cell) := indexed in
  if wide_continuation cell then (if index =? first_col then output ++ [SP] else output, style)
  else
    let '(output, style) :=
      if bool_decide (cell_style cell = style) then (output, style) else (write_style output (cell_style cell), cell_style cell) in
    (output ++ (if bool_decide (text cell = []) then [SP] else mjoin (utf8_encode <$> text cell)), style).
Definition formatted_row (d : ReviewDocument) (absolute_row first_col width : N) : bytes :=
  match doc_row d absolute_row with
  | None => []
  | Some line =>
      let skipped := N.to_nat (N.min first_col (capture_cols d)) in
      let taken := N.to_nat (N.min width (capture_cols d - first_col)) in
      let selected := take taken (drop skipped (imap (λ i c, (N.of_nat i, c)) (row_cells line))) in
      (fold_left (format_cell first_col) selected ([], default_style)).1
  end.

(** * Captured documents *)

(** What the engine promises of the rows it hands out: a wide character starts
    in its own row, and its second cell shows nothing. *)
Definition row_wide_ok (r : Row) : Prop :=
  (∀ c, head (Screen.cells r) = Some c → continuation c = false) ∧
  Forall (λ c, continuation c = true → grapheme c = []) (Screen.cells r).
Definition snapshot_wide_ok (s : TerminalSnapshot) : Prop := Forall row_wide_ok (scrollback s ++ rows s).

Definition cell_at (line : DocumentRow) (c : nat) : DocumentCell :=
  default (capture_cell None) (row_cells line !! c).
Definition addressable_cols (line : DocumentRow) : list nat :=
  List.filter (λ c, negb (wide_continuation (cell_at line c))) (seq 0 (N.to_nat (N.max (row_end line) 1))).
Definition row_positions (i : nat) (line : DocumentRow) : list HistoryPosition :=
  position_at i <$> addressable_cols line.

Record line_ok (cols : N) (line : DocumentRow) : Prop := {
  line_length : len (row_cells line) = cols;
  line_end : row_end line ≤ cols;
  line_first : wide_continuation (cell_at line 0) = false;
  line_wide : ∀ c, wide_continuation (cell_at line c) = true → text (cell_at line c) = []
}.

Record document_ok (d : ReviewDocument) : Prop := {
  ok_cols : 1 ≤ capture_cols d ≤ u16_max;
  ok_rows : Forall (line_ok (capture_cols d)) (doc_rows d);
  ok_positions : positions d = mjoin (imap row_positions (doc_rows d));
  ok_flat : Forall (λ p, p ∈ positions d) (flat_positions d);
  ok_count : row_count d ≤ usize_max
}.

Lemma mapM_total {A B} (f : A → option B) (g : A → B) l :
  Forall (λ x, f x = Some (g x)) l → mapM f l = Some (g <$> l).
Proof. induction 1 as [|x l Hx Hl IH]; cbn; [done|]. by rewrite Hx, IH. Qed.

Lemma capture_row_loop_spec source count col cells end_ :
  let '(cells', end') := capture_row_loop source count col cells end_ in
  cells' = cells ++ ((λ c, capture_cell (Screen.cells source !! c)) <$> seq (N.to_nat col) count) ∧
  (end_ ≤ col → col + N.of_nat count ≤ u16_max → end' ≤ col + N.of_nat count).
Proof.
  revert col cells end_. induction count as [|count IH]; intros col cells end_; cbn [capture_row_loop].
  { cbn [seq fmap list_fmap]. rewrite app_nil_r. cbn. split; [done|]. lia. }
  set (cell := capture_cell (Screen.cells source !! N.to_nat col)).
  set (end2 := if negb (bool_decide (text cell = [])) || wide_continuation cell then sat_add u16_max col 1 else end_).
  specialize (IH (col + 1) (cells ++ [cell]) end2).
  destruct (capture_row_loop source count (col + 1) (cells ++ [cell]) end2) as [cells' end'].
  destruct IH as [-> Hend]. split.
  - rewrite <-app_assoc. f_equal. cbn [seq fmap list_fmap]. cbn [app]. f_equal.
    by replace (N.to_nat (col + 1)) with (S (N.to_nat col)) by lia.
  - intros H1 H2. rewrite Nat2N.inj_succ in *. unfold end2, sat_add in *.
    destruct (negb _ || _); lia.
Qed.

Lemma capture_row_ok cols source : 1 ≤ cols ≤ u16_max → row_wide_ok source → line_ok cols (capture_row cols source).
Proof.
  intros Hcols [Hfirst Hwide]. unfold capture_row.
  pose proof (capture_row_loop_spec source (N.to_nat cols) 0 [] 0) as H.
  destruct (capture_row_loop source (N.to_nat cols) 0 [] 0) as [cells end_]. destruct H as [-> Hend].
  assert (∀ c, wide_continuation (cell_at {| row_cells := [] ++ ((λ c, capture_cell (Screen.cells source !! c)) <$> seq (N.to_nat 0) (N.to_nat cols));
      row_wraps := wrapped source; row_end := if wrapped source then cols else end_ |} c) = true →
    ∃ cell, Screen.cells source !! c = Some cell ∧ continuation cell = true ∧
      cell_at {| row_cells := [] ++ ((λ c, capture_cell (Screen.cells source !! c)) <$> seq (N.to_nat 0) (N.to_nat cols));
      row_wraps := wrapped source; row_end := if wrapped source then cols else end_ |} c = capture_cell (Some cell)) as Hat.
  { intros c. unfold cell_at. cbn [row_cells app]. rewrite list_lookup_fmap.
    destruct (seq (N.to_nat 0) (N.to_nat cols) !! c) as [i|] eqn:E; [|by intros ?]. apply lookup_seq in E as [-> _]. cbn [fmap option_fmap option_map default].
    rewrite Nat.add_0_l. destruct (Screen.cells source !! c) as [cell|]; [|by intros ?]. cbn. intros Hc. by exists cell. }
  split.
  - cbn. rewrite length_fmap, length_seq. lia.
  - cbn. destruct (wrapped source); [lia|]. specialize (Hend ltac:(lia) ltac:(lia)). lia.
  - destruct (wide_continuation _) eqn:E; [|done]. destruct (Hat 0%nat E) as (cell & Hc & Hcont & _).
    specialize (Hfirst cell). rewrite head_lookup in Hfirst. by rewrite (Hfirst Hc) in Hcont.
  - intros c E. destruct (Hat c E) as (cell & Hc & Hcont & ->). cbn.
    eapply Forall_lookup_1 in Hwide; [|exact Hc]. by apply Hwide.
Qed.

Lemma columns_total line n :
  n ≤ len (row_cells line) → columns line n = Some ((λ c, (N.of_nat c, cell_at line c)) <$> seq 0 (N.to_nat n)).
Proof.
  intros Hn. unfold columns. apply mapM_total, Forall_forall. intros c Hc%elem_of_seq. unfold cell_at.
  destruct (lookup_lt_is_Some_2 (row_cells line) c) as [cell ->]; [|done]. lia.
Qed.

Lemma addressable_spec cols i line :
  1 ≤ cols → line_ok cols line → addressable (N.of_nat i) line = Some (row_positions i line).
Proof.
  intros Hcols [Hlen Hend _ _]. unfold addressable. rewrite columns_total by lia.
  cbn. f_equal. unfold row_positions, addressable_cols. unfold position_at.
  induction (seq 0 _) as [|c l IH]; cbn; [done|]. destruct (wide_continuation (cell_at line c)); cbn; [done|].
  by rewrite IH.
Qed.

(** What a row adds to the search text. *)
Definition flat_part (i : nat) (line : DocumentRow) : list N * list HistoryPosition :=
  default ([], []) (flat_row (N.of_nat i) line).

Lemma elem_of_row_positions i line p :
  p ∈ row_positions i line ↔
    row p = N.of_nat i ∧ col p < N.max (row_end line) 1 ∧ wide_continuation (cell_at line (N.to_nat (col p))) = false.
Proof.
  unfold row_positions, addressable_cols. rewrite list_elem_of_fmap. split.
  - intros (c & -> & [Hc%elem_of_seq Hw]%elem_of_Filter). cbn. rewrite Nat2N.id.
    apply negb_true_iff in Hw. split_and!; [done|lia|done].
  - intros (Hr & Hc & Hw). exists (N.to_nat (col p)). split.
    + destruct p; unfold position_at; cbn in *. f_equal; [done|lia].
    + apply elem_of_Filter. split; [apply elem_of_seq; lia|]. by rewrite Hw.
Qed.

Lemma flat_row_spec cols i line :
  line_ok cols line → ∃ t ps, flat_row (N.of_nat i) line = Some (t, ps) ∧ Forall (λ p, p ∈ row_positions i line) ps.
Proof.
  intros Hok. unfold flat_row. rewrite columns_total by (rewrite (line_length _ _ Hok); apply (line_end _ _ Hok)).
  cbn [mbind option_bind]. eexists _, _. split; [reflexivity|]. apply Forall_app. split.
  - apply Forall_forall. intros p (l & Hp & Hl)%list_elem_of_join.
    apply list_elem_of_fmap in Hl as (part & -> & Hl). apply list_elem_of_fmap in Hl as (cell & -> & Hl).
    apply list_elem_of_fmap in Hl as (c & -> & Hc%elem_of_seq). unfold flat_cell in Hp. cbn [fst snd] in Hp.
    destruct (wide_continuation (cell_at line c)) eqn:E; [by apply elem_of_nil in Hp|].
    apply elem_of_replicate in Hp as [-> _]. apply elem_of_row_positions. cbn [row col]. rewrite Nat2N.id.
    split_and!; [done|lia|done].
  - destruct (row_wraps line); cbn; [constructor|]. apply Forall_singleton. apply elem_of_row_positions.
    cbn. split_and!; [done|lia|apply (line_first _ _ Hok)].
Qed.

Lemma elem_of_rows k (lines : list DocumentRow) p :
  p ∈ mjoin (imap (λ i, row_positions (k + i)) lines) ↔ ∃ i line, lines !! i = Some line ∧ p ∈ row_positions (k + i) line.
Proof.
  rewrite list_elem_of_join. split.
  - intros (l & Hp & Hl). apply list_elem_of_lookup in Hl as (i & Hl). rewrite list_lookup_imap in Hl.
    apply fmap_Some in Hl as (line & Hl & ->). by exists i, line.
  - intros (i & line & Hl & Hp). exists (row_positions (k + i) line). split; [done|].
    apply list_elem_of_lookup. exists i. by rewrite list_lookup_imap, Hl.
Qed.

Lemma mapM_indexed {B} (f : N → DocumentRow → option B) (g : nat → DocumentRow → B) lines :
  (∀ i line, lines !! i = Some line → f (N.of_nat i) line = Some (g i line)) →
  mapM (λ p, f p.1 p.2) (imap (λ i r, (N.of_nat i, r)) lines) = Some (imap g lines).
Proof.
  intros H. rewrite (mapM_total _ (λ p, g (N.to_nat p.1) p.2)).
  - f_equal. rewrite fmap_imap. apply imap_ext. intros i line _. cbn. by rewrite Nat2N.id.
  - apply Forall_lookup. intros k p Hk. rewrite list_lookup_imap in Hk. apply fmap_Some in Hk as (line & Hk & ->).
    cbn [fst snd]. rewrite Nat2N.id. by apply H.
Qed.

Lemma from_snapshot_ok s cols :
  1 ≤ cols ≤ u16_max → snapshot_wide_ok s → len (scrollback s ++ rows s) ≤ usize_max →
  ∃ d, from_snapshot s cols = Some d ∧ document_ok d ∧ doc_rows d = capture_row cols <$> (scrollback s ++ rows s).
Proof.
  intros Hcols Hwide Hcount. unfold from_snapshot, build_search_text. cbn [doc_rows].
  set (lines := capture_row cols <$> (scrollback s ++ rows s)) in *.
  assert (Forall (line_ok cols) lines) as Hlines.
  { apply Forall_fmap. eapply Forall_impl; [exact Hwide|]. intros r Hr. by apply capture_row_ok. }
  rewrite (mapM_indexed addressable row_positions).
  2:{ intros i line Hi. eapply addressable_spec; [apply Hcols|]. by eapply Forall_lookup_1. }
  rewrite (mapM_indexed flat_row flat_part).
  2:{ intros i line Hi. destruct (flat_row_spec cols i line) as (t & ps & Hf & _); [by eapply Forall_lookup_1|].
      unfold flat_part. by rewrite Hf. }
  cbn [mbind option_bind]. eexists. split; [reflexivity|]. split; [|done]. split; [done|done|done| |].
  - apply Forall_forall. intros p (l & Hp & Hl)%list_elem_of_join.
    apply list_elem_of_fmap in Hl as (part & -> & Hl). apply list_elem_of_lookup in Hl as (i & Hl).
    rewrite list_lookup_imap in Hl. apply fmap_Some in Hl as (line & Hl & ->).
    destruct (flat_row_spec cols i line) as (t & ps & Hf & Hps); [by eapply Forall_lookup_1|].
    unfold flat_part in Hp. rewrite Hf in Hp. cbn in Hp. eapply Forall_forall in Hps; [|exact Hp].
    apply (elem_of_rows 0). by exists i, line.
  - unfold row_count. cbn. unfold lines. by rewrite length_fmap.
Qed.

(** ** Addressable positions *)

Abbreviation before p q := (position_lt p q = true) (only parsing).

Lemma position_lt_spec p q : position_lt p q = true ↔ row p < row q ∨ (row p = row q ∧ col p < col q).
Proof. unfold position_lt. lia. Qed.
#[export] Instance position_lt_trans : Transitive (λ p q, position_lt p q = true).
Proof. intros p q r. rewrite !position_lt_spec. lia. Qed.
Lemma position_lt_irrefl p : position_lt p p = false.
Proof. unfold position_lt. lia. Qed.
Lemma position_lt_total p q : before p q ∨ p = q ∨ before q p.
Proof.
  destruct p as [r c], q as [r' c']. rewrite !position_lt_spec. cbn.
  destruct (N.lt_trichotomy r r') as [|[->|]]; [tauto| |tauto].
  destruct (N.lt_trichotomy c c') as [|[->|]]; tauto.
Qed.
Lemma position_le_spec p q : position_le p q = true ↔ p = q ∨ before p q.
Proof.
  unfold position_le. rewrite negb_true_iff. destruct (position_lt_total p q) as [H|[->|H]].
  - rewrite H. assert (position_lt q p = false); [|tauto]. unfold position_lt in *. lia.
  - rewrite position_lt_irrefl. tauto.
  - rewrite H. split; [done|]. intros [->|H']; [by rewrite position_lt_irrefl in H|].
    unfold position_lt in *. lia.
Qed.

Lemma doc_cell_at d r c line :
  doc_row d r = Some line → is_wide_at d r c = wide_continuation (cell_at line (N.to_nat c)).
Proof. unfold is_wide_at, doc_cell, cell_at. intros ->. cbn. by destruct (row_cells line !! N.to_nat c). Qed.

Lemma elem_of_positions d p :
  document_ok d →
  p ∈ positions d ↔
    ∃ line, doc_row d (row p) = Some line ∧ col p < N.max (row_end line) 1 ∧ is_wide_at d (row p) (col p) = false.
Proof.
  intros Hd. rewrite (ok_positions d Hd). rewrite (elem_of_rows 0). split.
  - intros (i & line & Hl & (Hr & Hc & Hw)%elem_of_row_positions). exists line.
    assert (doc_row d (row p) = Some line) as Hrow.
    { unfold doc_row. rewrite Hr. cbn. by rewrite Nat2N.id. }
    split_and!; [done|done|]. by rewrite (doc_cell_at d _ _ line).
  - intros (line & Hrow & Hc & Hw). exists (N.to_nat (row p)), line. split; [done|].
    apply elem_of_row_positions. rewrite (doc_cell_at d _ _ line) in Hw by done. split_and!; [cbn; lia|done|done].
Qed.

Lemma row_positions_sorted i line : StronglySorted (λ p q, before p q) (row_positions i line).
Proof.
  unfold row_positions, addressable_cols. generalize (N.to_nat (N.max (row_end line) 1)), 0%nat.
  intros n. induction n as [|n IH]; intros k; cbn; [constructor|].
  assert (Forall (λ q, before (position_at i k) q)
    (position_at i <$> List.filter (λ c, negb (wide_continuation (cell_at line c))) (seq (S k) n))) as Hk.
  { apply Forall_fmap, Forall_forall. intros c [Hc%elem_of_seq _]%elem_of_Filter. cbn.
    apply position_lt_spec. cbn. right. split; [done|lia]. }
  destruct (negb _); [|apply IH]. cbn. constructor; [apply IH|done].
Qed.

Lemma rows_sorted k lines : StronglySorted (λ p q, before p q) (mjoin (imap (λ i, row_positions (k + i)) lines)).
Proof.
  revert k. induction lines as [|line lines IH]; intros k; cbn; [constructor|].
  assert (imap ((λ i, row_positions (k + i)) ∘ S) lines = imap (λ i, row_positions (S k + i)) lines) as ->.
  { apply imap_ext. intros i x _. cbn. by rewrite Nat.add_succ_r. }
  apply StronglySorted_app. split_and!; [|apply row_positions_sorted|apply IH].
  intros p q Hp Hq. apply elem_of_row_positions in Hp as (Hr & _). apply elem_of_rows in Hq as (i & l & _ & Hq).
  apply elem_of_row_positions in Hq as (Hr' & _). apply position_lt_spec. left. lia.
Qed.

Lemma positions_sorted d : document_ok d → StronglySorted (λ p q, before p q) (positions d).
Proof. intros Hd. rewrite (ok_positions d Hd). apply (rows_sorted 0). Qed.

Lemma sorted_lookup (l : list HistoryPosition) i j p q :
  StronglySorted (λ p q, before p q) l → l !! i = Some p → l !! j = Some q → (i < j)%nat ↔ before p q.
Proof.
  intros Hs Hp Hq.
  assert (∀ i j p q, l !! i = Some p → l !! j = Some q → (i < j)%nat → before p q) as Hlt.
  { clear Hp Hq i j p q. induction Hs as [|a l Hs IH Ha]; intros i j p q Hp Hq Hij; [done|].
    destruct j as [|j]; [lia|]. destruct i as [|i].
    - injection Hp as ->. cbn in Hq. by eapply Forall_lookup_1 in Ha.
    - cbn in *. eapply IH; [done..|lia]. }
  split; [by eauto|]. intros Hb. destruct (Nat.lt_trichotomy i j) as [|[->|Hji]]; [done|..].
  - rewrite Hp in Hq. injection Hq as ->. by rewrite position_lt_irrefl in Hb.
  - pose proof (Hlt j i q p Hq Hp Hji) as Hb'. rewrite position_lt_spec in *. lia.
Qed.

Lemma index_of_Some p l i : index_of p l = Some i → l !! i = Some p.
Proof.
  revert i. induction l as [|q l IH]; intros i; cbn; [done|]. case_bool_decide as E.
  - by intros [= <-]; rewrite E.
  - intros (j & Hj & ->)%fmap_Some. by apply IH.
Qed.
Lemma index_of_elem p l : p ∈ l → is_Some (index_of p l).
Proof.
  induction l as [|q l IH]; cbn; [by intros ?%elem_of_nil|].
  destruct (decide (q = p)) as [->|Hne]; [by rewrite bool_decide_eq_true_2|]. rewrite bool_decide_eq_false_2 by done.
  intros [->|Hp]%elem_of_cons; [done|]. by apply fmap_is_Some, IH.
Qed.
Lemma index_of_lookup l i p :
  StronglySorted (λ p q, before p q) l → l !! i = Some p → index_of p l = Some i.
Proof.
  intros Hs Hi. destruct (index_of_elem p l) as [j Hj]; [by eapply list_elem_of_lookup_2|].
  pose proof (index_of_Some _ _ _ Hj) as Hj'. destruct (Nat.lt_trichotomy i j) as [H|[->|H]]; [|done|].
  - apply (sorted_lookup l i j p p) in H; [|done..]. by rewrite position_lt_irrefl in H.
  - apply (sorted_lookup l j i p p) in H; [|done..]. by rewrite position_lt_irrefl in H.
Qed.

(** ** Every motion lands on an addressable position *)

Lemma leave_wide_le d r c : (leave_wide d r c ≤ c)%nat.
Proof. induction c as [|c IH]; cbn [leave_wide]; [done|]. destruct (is_wide_at _ _ _); lia. Qed.
Lemma leave_wide_ok d r c : is_wide_at d r 0 = false → is_wide_at d r (N.of_nat (leave_wide d r c)) = false.
Proof. intros H. induction c as [|c IH]; cbn [leave_wide]; [done|]. by destruct (is_wide_at d r (N.of_nat (S c))) eqn:E. Qed.

Section Motions.
Context (d : ReviewDocument) (Hd : document_ok d).

Lemma doc_row_ok r line : doc_row d r = Some line → line_ok (capture_cols d) line.
Proof. intros H. eapply Forall_lookup_1; [apply (ok_rows d Hd)|exact H]. Qed.
Lemma first_column_is_shown r line : doc_row d r = Some line → is_wide_at d r 0 = false.
Proof. intros H. rewrite (doc_cell_at d r 0 line H). apply (line_first _ _ (doc_row_ok r line H)). Qed.
Lemma position_row p : p ∈ positions d → ∃ line, doc_row d (row p) = Some line.
Proof. intros (line & H & _)%(elem_of_positions d p Hd). by exists line. Qed.

Lemma leave_wide_addressable r c line :
  doc_row d r = Some line → N.of_nat c ≤ line_last_col d r →
  {| row := r; col := N.of_nat (leave_wide d r c) |} ∈ positions d.
Proof.
  intros H Hc. apply (elem_of_positions d _ Hd). exists line. cbn [row col]. split_and!; [done| |].
  - pose proof (leave_wide_le d r c). unfold line_last_col in Hc. rewrite H in Hc. lia.
  - by apply leave_wide_ok, (first_column_is_shown r line).
Qed.
Lemma clamp_col_addressable r c line :
  doc_row d r = Some line → {| row := r; col := clamp_col d r c |} ∈ positions d.
Proof. intros H. eapply leave_wide_addressable; [done|lia]. Qed.
Lemma row_exists r : r < row_count d → ∃ line, doc_row d r = Some line.
Proof. intros H. apply (lookup_lt_is_Some_2 (doc_rows d)). unfold row_count in H. lia. Qed.
Lemma row_exists_inv r line : doc_row d r = Some line → r < row_count d.
Proof. intros H%lookup_lt_Some. unfold row_count. lia. Qed.
Lemma clamp_addressable p : doc_rows d ≠ [] → clamp d p ∈ positions d.
Proof.
  intros Hne. unfold clamp. destruct (row_exists (N.min (row p) (row_count d - 1))) as [line Hline].
  - unfold row_count. destruct (doc_rows d); [done|]. cbn [length]. lia.
  - by apply (clamp_col_addressable _ _ line).
Qed.

Lemma skip_wide_spec r last fuel next :
  last < next + N.of_nat fuel →
  let k := skip_wide d r last fuel next in
  next ≤ k ∧ (k ≤ last → is_wide_at d r k = false) ∧ (∀ c, next ≤ c < k → is_wide_at d r c = true).
Proof.
  revert next. induction fuel as [|fuel IH]; intros next Hf; cbn [skip_wide].
  { split_and!; [done|lia|intros c Hc; lia]. }
  destruct (N.leb_spec next last) as [Hle|Hgt]; cbn [andb].
  2:{ split_and!; [done|lia|intros c Hc; lia]. }
  destruct (is_wide_at d r next) eqn:E; [|split_and!; [done|done|intros c Hc; lia]].
  destruct (IH (next + 1)) as (H1 & H2 & H3); [lia|]. split_and!; [lia|done|].
  intros c Hc. destruct (decide (c = next)) as [->|]; [done|]. apply H3. lia.
Qed.

Lemma step_right_addressable p q : p ∈ positions d → step_right d p = Some q → q ∈ positions d.
Proof.
  intros Hp. unfold step_right. destruct (N.leb_spec (line_last_col d (row p)) (col p)) as [|Hlt]; [done|].
  destruct (skip_wide_spec (row p) (line_last_col d (row p)) (N.to_nat (line_last_col d (row p) - col p)) (col p + 1))
    as (H1 & H2 & _); [lia|].
  destruct (N.ltb_spec (line_last_col d (row p)) (skip_wide d (row p) (line_last_col d (row p))
    (N.to_nat (line_last_col d (row p) - col p)) (col p + 1))) as [|Hle]; [done|].
  intros [= <-]. destruct (position_row p Hp) as [line Hline]. apply (elem_of_positions d _ Hd). exists line.
  cbn [row col]. split_and!; [done| |by apply H2].
  assert (line_last_col d (row p) = row_end line - 1) as HL by (unfold line_last_col; by rewrite Hline).
  rewrite HL in Hlt, Hle |- *. lia.
Qed.
Lemma step_left_addressable p q : p ∈ positions d → step_left d p = Some q → q ∈ positions d.
Proof.
  intros Hp. unfold step_left. destruct (N.eqb_spec (col p) 0) as [|Hne]; [done|]. intros [= <-].
  apply (elem_of_positions d _ Hd) in Hp as (line & Hline & Hc & _).
  apply (leave_wide_addressable _ _ line); [done|]. unfold line_last_col. rewrite Hline. lia.
Qed.
Lemma step_horizontally_addressable fw n p : p ∈ positions d → step_horizontally d fw n p ∈ positions d.
Proof.
  revert p. induction n as [|n IH]; intros p Hp; cbn [step_horizontally]; [done|].
  destruct ((if fw then step_right else step_left) d p) as [q|] eqn:E; [|done]. apply IH.
  destruct fw; [by eapply step_right_addressable|by eapply step_left_addressable].
Qed.
Lemma if_moved_addressable p q r : q ∈ positions d → if_moved p q = Some r → r ∈ positions d.
Proof. unfold if_moved. intros Hq. destruct (bool_decide _); [done|]. by intros [= <-]. Qed.

Lemma move_vertical_addressable p down n q :
  p ∈ positions d → move_vertical d p down n = Some q → q ∈ positions d.
Proof.
  intros Hp. unfold move_vertical. destruct (position_row p Hp) as [line Hline].
  pose proof (row_exists_inv _ _ Hline) as Hlt.
  set (r := if down then N.min (sat_add usize_max (row p) n) (row_count d - 1) else row p - n).
  assert (r < row_count d) as Hr by (unfold r; destruct down; lia).
  destruct (r =? row p); [done|]. intros [= <-]. destruct (row_exists r Hr) as [line' Hline'].
  by apply (clamp_col_addressable _ _ line').
Qed.

Lemma find_character_addressable p target fw till n q :
  find_character d p target fw till n = Some q → q ∈ positions d.
Proof.
  unfold find_character. set (matches := List.filter _ _). set (ordered := if fw then matches else reverse matches).
  destruct (ordered !! N.to_nat (n - 1)) as [found|] eqn:Hfound; [|done]. cbn [mbind option_bind].
  assert (found ∈ positions d) as Hin.
  { apply list_elem_of_lookup_2 in Hfound. assert (found ∈ matches) as Hm.
    { unfold ordered in Hfound. destruct fw; [done|]. by rewrite elem_of_reverse in Hfound. }
    unfold matches in Hm. apply elem_of_Filter in Hm as [Hline Hm].
    apply andb_true_iff in Hm as [Hm _]. unfold starts_with_char in Hm. apply bool_decide_eq_true_1 in Hm.
    unfold line_positions in Hline. apply list_elem_of_bind in Hline as (r & Hline & _).
    apply list_elem_of_fmap in Hline as (c & -> & Hc%elem_of_seq).
    unfold row_end_at in Hc. destruct (doc_rows d !! r) as [line|] eqn:Hr; [|lia].
    assert (doc_row d (N.of_nat r) = Some line) as Hrow by (unfold doc_row; by rewrite Nat2N.id).
    apply (elem_of_positions d _ Hd). exists line. unfold position_at. cbn [row col]. split_and!; [done|lia|].
    unfold cell_text, doc_cell, position_at in Hm. cbn [row col] in Hm. rewrite Hrow in Hm. cbn [mbind option_bind] in Hm.
    rewrite (doc_cell_at d _ _ line) by done.
    destruct (wide_continuation (cell_at line (N.to_nat (N.of_nat c)))) eqn:E; [|done].
    apply (line_wide _ _ (doc_row_ok _ _ Hrow)) in E. unfold cell_at in E.
    destruct (row_cells line !! N.to_nat (N.of_nat c)) as [cell|]; [|done]. cbn in E. by rewrite E in Hm. }
  destruct till; cbn [mbind option_bind]; [|by apply if_moved_addressable].
  unfold adjacent. destruct (index_of found (positions d)) as [i|]; [|done]. cbn [mbind option_bind].
  intros H. destruct fw; cbn [negb] in H.
  - destruct i as [|i]; [done|]. destruct (positions d !! i) as [found'|] eqn:E; [|done].
    apply list_elem_of_lookup_2 in E. by eapply if_moved_addressable.
  - destruct (positions d !! S i) as [found'|] eqn:E; [|done].
    apply list_elem_of_lookup_2 in E. by eapply if_moved_addressable.
Qed.

Lemma balance_elem ch mate depth l q : balance d ch mate depth l = Some q → q ∈ l.
Proof.
  revert depth. induction l as [|c l IH]; intros depth; cbn [balance]; [done|].
  intros H. apply elem_of_cons. repeat case_bool_decide; try (right; by eapply IH).
  destruct (depth =? 0); [left; congruence|right; by eapply IH].
Qed.
Lemma matching_brace_addressable p q : matching_brace d p = Some q → q ∈ positions d.
Proof.
  unfold matching_brace. destruct (first_brace d p) as [start|]; [|done]. cbn [mbind option_bind].
  destruct (cell_char d start) as [ch|]; [|done]. cbn [mbind option_bind].
  destruct (mate_of ch) as [[mate fw]|]; [|done]. cbn [mbind option_bind].
  destruct (index_of start (positions d)) as [i|]; [|done]. cbn [mbind option_bind].
  destruct fw; intros H%balance_elem.
  - apply (elem_of_subseteq (drop (S i) (positions d))); [apply subseteq_drop|done].
  - rewrite elem_of_reverse in H. apply (elem_of_subseteq (take i (positions d))); [apply subseteq_take|done].
Qed.

Lemma prompt_addressable p fw n q : doc_rows d ≠ [] → prompt d p fw n = Some q → q ∈ positions d.
Proof. intros Hne. unfold prompt. intros (m & _ & ->)%fmap_Some. by apply clamp_addressable. Qed.

Lemma position_for_offset_addressable o q : position_for_offset d o = Some q → q ∈ positions d.
Proof.
  unfold position_for_offset. destruct (flat_positions d !! N.to_nat o) as [p|] eqn:E.
  - intros [= <-]. eapply (proj1 (Forall_forall _ _) (ok_flat d Hd)). by eapply list_elem_of_lookup_2.
  - case_bool_decide as Hne; [done|]. intros [= <-]. by apply clamp_addressable.
Qed.
Lemma elem_of_ordered_matches l p direction q : q ∈ ordered_matches l p direction → q ∈ l.
Proof.
  unfold ordered_matches. destruct direction; intros [H|H]%elem_of_app; apply elem_of_Filter in H as [H _];
    [done|done|by rewrite elem_of_reverse in H|by rewrite elem_of_reverse in H].
Qed.
Lemma search_addressable find_iter p direction n q : search d find_iter p direction n = Some q → q ∈ positions d.
Proof.
  unfold search. destruct (find_iter (flat_text d)) as [found|]; [|done]. cbn [mbind option_bind].
  case_bool_decide as Hne; [done|]. set (ordered := ordered_matches _ _ _).
  destruct (ordered !! _) as [target|] eqn:E; [|done]. cbn [mbind option_bind].
  apply if_moved_addressable. apply list_elem_of_lookup_2, elem_of_ordered_matches in E.
  apply list_elem_of_omap in E as (o & _ & Ho). by eapply position_for_offset_addressable.
Qed.

Lemma word_step_addressable al m style p q : word_step al d m style p = Some q → q ∈ positions d.
Proof.
  unfold word_step, next_word_start, previous_word_start, next_word_end.
  destruct m; destruct (index_of p (positions d)) as [i|]; try done; cbn [mbind option_bind].
  - apply list_elem_of_lookup_2.
  - destruct i; [done|]. apply list_elem_of_lookup_2.
  - destruct (positions d !! _); [|done]. cbn [mbind option_bind]. apply list_elem_of_lookup_2.
Qed.
Lemma move_word_addressable al p m style n q :
  p ∈ positions d → move_word al d p m style n = Some q → q ∈ positions d.
Proof.
  intros Hp. unfold move_word. destruct (word_steps al d m style (N.to_nat n) p) as [r|] eqn:E; [|done].
  cbn [mbind option_bind]. apply if_moved_addressable. revert p Hp E. generalize (N.to_nat n). intros k.
  induction k as [|k IH]; intros p Hp; cbn [word_steps]; [by intros [= <-]|].
  destruct (word_step al d m style p) as [p'|] eqn:E; [|done]. cbn [mbind option_bind]. apply IH.
  by eapply word_step_addressable.
Qed.
End Motions.

(** One command of review mode that moves the cursor from [p] to [q]. *)
Inductive motion (is_alphanumeric : N → bool) (d : ReviewDocument) (p q : HistoryPosition) : Prop :=
  | moves_horizontally forward count : move_horizontal d p forward count = Some q → motion is_alphanumeric d p q
  | moves_vertically down count : move_vertical d p down count = Some q → motion is_alphanumeric d p q
  | moves_by_words movement style count :
      move_word is_alphanumeric d p movement style count = Some q → motion is_alphanumeric d p q
  | finds_character target forward till count :
      find_character d p target forward till count = Some q → motion is_alphanumeric d p q
  | matches_brace : matching_brace d p = Some q → motion is_alphanumeric d p q
  | jumps_to_prompt forward count : prompt d p forward count = Some q → motion is_alphanumeric d p q
  | searches find_iter direction count : search d find_iter p direction count = Some q → motion is_alphanumeric d p q
  | jumps r c : clamp d {| row := r; col := c |} = q → motion is_alphanumeric d p q.

(** Capturing a snapshot does not panic, and whatever commands of review mode
    follow, the cursor is on a cell of the document that starts a character:
    inside a row's captured text (or on the first column of an empty row),
    never on the second half of a wide character. *)
Theorem review_cursor_stays_addressable is_alphanumeric s cols p q :
  1 ≤ cols ≤ u16_max → snapshot_wide_ok s → 0 < len (scrollback s ++ rows s) ≤ usize_max →
  ∃ d, from_snapshot s cols = Some d ∧
    (rtc (motion is_alphanumeric d) (clamp d p) q →
     ∃ line, doc_row d (row q) = Some line ∧ col q < N.max (row_end line) 1 ≤ cols ∧ is_wide_at d (row q) (col q) = false).
Proof.
  intros Hcols Hwide Hcount. destruct (from_snapshot_ok s cols) as (d & Hd & Hok & Hrows); [done..|lia|].
  exists d. split; [done|]. intros Hpath.
  assert (doc_rows d ≠ []) as Hne.
  { rewrite Hrows. intros E%(f_equal length). rewrite length_fmap in E. cbn in E. lia. }
  assert (q ∈ positions d) as Hq.
  { cut (clamp d p ∈ positions d); [|by apply clamp_addressable]. revert Hpath. generalize (clamp d p). intros p'.
    induction 1 as [p'|p' p'' q Hstep _ IH]; [done|]. intros Hp'. apply IH.
    destruct Hstep as [fw n H|down n H|m style n H|target fw till n H|H|fw n H|f direction n H|r c <-].
    - unfold move_horizontal in H. eapply if_moved_addressable; [|exact H]. by apply step_horizontally_addressable.
    - by eapply move_vertical_addressable.
    - by eapply move_word_addressable.
    - by eapply find_character_addressable.
    - by eapply matching_brace_addressable.
    - by eapply prompt_addressable.
    - by eapply search_addressable.
    - by apply clamp_addressable. }
  pose proof Hq as (line & Hline & Hc & Hw)%(elem_of_positions d q Hok). exists line. split_and!; [done|done| |done].
  assert (row_end line ≤ cols) as Hend; [|lia].
  unfold doc_row in Hline. rewrite Hrows in Hline. rewrite list_lookup_fmap in Hline.
  apply fmap_Some in Hline as (source & Hsource & ->).
  apply (line_end cols). apply capture_row_ok; [done|]. by eapply Forall_lookup_1.
Qed.

(** ** Words *)

Lemma advance_spec p fuel i n :
  (∀ k, (n ≤ k)%nat → p k = false) → (n ≤ i + fuel)%nat →
  let r := advance p fuel i in (i ≤ r)%nat ∧ p r = false ∧ ∀ k, (i ≤ k < r)%nat → p k = true.
Proof.
  intros Hn. revert i. induction fuel as [|fuel IH]; intros i Hf; cbn [advance].
  { split_and!; [done|apply Hn; lia|intros k Hk; lia]. }
  destruct (p i) eqn:E; [|split_and!; [done|done|intros k Hk; lia]].
  destruct (IH (S i)) as (H1 & H2 & H3); [lia|]. split_and!; [lia|done|].
  intros k Hk. destruct (decide (k = i)) as [->|]; [done|]. apply H3. lia.
Qed.
Lemma retreat_spec p i :
  let r := retreat p i in (r ≤ i)%nat ∧ (r = 0%nat ∨ p r = false) ∧ ∀ k, (r < k ≤ i)%nat → p k = true.
Proof.
  induction i as [|i IH]; cbn [retreat].
  { split_and!; [done|by left|intros k Hk; lia]. }
  destruct (p (S i)) eqn:E; [|split_and!; [done|by right|intros k Hk; lia]].
  destruct IH as (H1 & H2 & H3). split_and!; [lia|done|].
  intros k Hk. destruct (decide (k = S i)) as [->|]; [done|]. apply H3. lia.
Qed.

Section WordSpec.
Context (is_alphanumeric : N → bool) (d : ReviewDocument) (style : WordStyle).
Abbreviation class := (class_at is_alphanumeric d style).
Abbreviation same := (same_word is_alphanumeric d style).
Abbreviation n := (length (positions d)).

(** The [i]-th addressable position starts (ends) a word: it is no blank, and
    the position before (after) it is of another class or another line. *)
Definition starts_word (i : nat) : bool := negb (class i =? 0) && ((i =? 0)%nat || negb (same (i - 1) i)).
Definition ends_word (i : nat) : bool := negb (class i =? 0) && negb (same i (i + 1)).

Lemma class_out i : (n ≤ i)%nat → class i = 0.
Proof. intros H. unfold class_at. by rewrite lookup_ge_None_2. Qed.
Lemma same_out i j : (n ≤ i ∨ n ≤ j)%nat → same i j = false.
Proof.
  intros [H|H]; unfold same_word, line_joins; rewrite (lookup_ge_None_2 _ _ H); [done|].
  by destruct (positions d !! i).
Qed.
Lemma same_class i j : same i j = true → class i = class j.
Proof. unfold same_word. intros [_ H%N.eqb_eq]%andb_true_iff. done. Qed.
Lemma starts_word_cases i :
  (0 < i)%nat → starts_word i = false ↔ class i = 0 ∨ same (i - 1) i = true.
Proof.
  intros Hi. unfold starts_word. rewrite (proj2 (Nat.eqb_neq i 0)) by lia. cbn [orb].
  rewrite andb_false_iff, !negb_false_iff, N.eqb_eq. done.
Qed.
Lemma ends_word_cases i : ends_word i = false ↔ class i = 0 ∨ same i (i + 1) = true.
Proof. unfold ends_word. rewrite andb_false_iff, !negb_false_iff, N.eqb_eq. done. Qed.

(** The first index after [i] where [b] holds. *)
Definition first_after (b : nat → bool) (i j : nat) : Prop :=
  (i < j < n)%nat ∧ b j = true ∧ ∀ k, (i < k < j)%nat → b k = false.

Lemma first_after_unique b i j j' : first_after b i j → first_after b i j' → j = j'.
Proof.
  intros (Hj & Hb & H) (Hj' & Hb' & H'). destruct (Nat.lt_trichotomy j j') as [Hl|[->|Hl]]; [|done|].
  - rewrite H' in Hb; [done|lia].
  - rewrite H in Hb'; [done|lia].
Qed.

Lemma skip_blanks_spec i :
  let r := advance (λ i, (i <? n)%nat && (class i =? 0)) n i in
  (i ≤ r)%nat ∧ ((r < n)%nat → class r ≠ 0) ∧ (∀ k, (i ≤ k < r)%nat → (k < n)%nat ∧ class k = 0).
Proof.
  destruct (advance_spec (λ i, (i <? n)%nat && (class i =? 0)) n i n) as (H1 & H2 & H3).
  { intros k Hk. rewrite (proj2 (Nat.ltb_ge k n)) by done. done. }
  { lia. }
  set (r := advance _ n i) in *. cbn. split_and!; [done| |].
  - intros Hr Hc. rewrite (proj2 (Nat.ltb_lt r n)) in H2 by done. rewrite Hc in H2. done.
  - intros k Hk%H3. apply andb_true_iff in Hk as [?%Nat.ltb_lt ?%N.eqb_eq]. done.
Qed.

Lemma next_start_index i :
  let r := advance (λ i, (i <? n)%nat && (class i =? 0)) n
             (advance (λ i, (i <? n)%nat && same (i - 1) i) n (S i)) in
  (i < r)%nat ∧ ((r < n)%nat → starts_word r = true) ∧ (∀ m, (i < m < r)%nat → starts_word m = false).
Proof.
  destruct (advance_spec (λ i, (i <? n)%nat && same (i - 1) i) n (S i) n) as (H1 & H2 & H3).
  { intros k Hk. by rewrite (proj2 (Nat.ltb_ge k n)). }
  { lia. }
  set (k := advance _ n (S i)) in *. destruct (skip_blanks_spec k) as (H4 & H5 & H6).
  set (r := advance _ n k) in *. cbn. split_and!; [lia| |].
  - intros Hr. destruct (starts_word r) eqn:E; [done|]. apply starts_word_cases in E; [|lia].
    destruct E as [E|E]; [by destruct (H5 Hr)|]. destruct (decide (r = k)) as [Hrk|Hrk].
    + rewrite Hrk in E. rewrite E, (proj2 (Nat.ltb_lt k n)) in H2 by lia. done.
    + apply same_class in E. destruct (H6 (r - 1)%nat) as [_ H7]; [lia|]. rewrite H7 in E. by destruct (H5 Hr).
  - intros m Hm. apply starts_word_cases; [lia|]. destruct (decide (m < k)%nat) as [Hmk|Hmk].
    + right. specialize (H3 m ltac:(lia)). by apply andb_true_iff in H3 as [_ H3].
    + left. apply H6. lia.
Qed.
Lemma next_end_index i :
  let r := advance (λ i, (i <? n)%nat && (class i =? 0)) n (S i) in
  let e := advance (λ k, (k + 1 <? n)%nat && (class (k + 1) =? class r) && line_joins d k (k + 1)) n r in
  (i < e)%nat ∧ ((r < n)%nat → (e < n)%nat ∧ ends_word e = true) ∧ (∀ m, (i < m < e)%nat → ends_word m = false) ∧
  (∀ m, (i < m < r)%nat → ends_word m = false).
Proof.
  destruct (skip_blanks_spec (S i)) as (H4 & H5 & H6). set (r := advance _ n (S i)) in *. cbv zeta.
  destruct (advance_spec (λ k, (k + 1 <? n)%nat && (class (k + 1) =? class r) && line_joins d k (k + 1)) n r n) as (H1 & H2 & H3).
  { intros k Hk. by rewrite (proj2 (Nat.ltb_ge (k + 1) n)) by lia. }
  { lia. }
  set (e := advance _ n r) in *.
  assert (∀ m, (i < m < r)%nat → ends_word m = false) as Hr.
  { intros m Hm. apply ends_word_cases. left. apply H6. lia. }
  assert (∀ m, (r ≤ m ≤ e)%nat → class m = class r) as Hclass.
  { intros m Hm. destruct (decide (m = r)) as [->|]; [done|]. specialize (H3 (m - 1)%nat ltac:(lia)).
    replace (m - 1 + 1)%nat with m in H3 by lia. by apply andb_true_iff in H3 as [[_ H3%N.eqb_eq]%andb_true_iff _]. }
  split_and!; [lia| | |done].
  - intros Hrn. assert (e < n)%nat as Hen.
    { destruct (decide (e < n)%nat) as [|Hen]; [done|]. destruct (decide (e = r)) as [->|]; [lia|].
      specialize (H3 (e - 1)%nat ltac:(lia)). apply andb_true_iff in H3 as [[H3%Nat.ltb_lt _]%andb_true_iff _]. lia. }
    split; [done|]. destruct (ends_word e) eqn:E; [done|]. apply ends_word_cases in E as [E|E].
    + rewrite Hclass in E by lia. by destruct (H5 Hrn).
    + pose proof (same_class _ _ E) as Hc. rewrite (Hclass e) in Hc by lia.
      assert (e + 1 < n)%nat as He1. { destruct (decide (e + 1 < n)%nat); [done|]. rewrite same_out in E by lia. done. }
      unfold same_word in E. apply andb_true_iff in E as [E _].
      rewrite (proj2 (Nat.ltb_lt _ _) He1), <-Hc, N.eqb_refl, E in H2. done.
  - intros m Hm. destruct (decide (m < r)%nat) as [|Hmr]; [apply Hr; lia|]. apply ends_word_cases. right.
    specialize (H3 m ltac:(lia)). apply andb_true_iff in H3 as [[_ H3]%andb_true_iff H3'].
    unfold same_word. rewrite H3', (Hclass m) by lia. apply N.eqb_eq in H3. by rewrite H3, N.eqb_refl.
Qed.
(** Backwards: the last word start before [S i], or the first position. *)
Lemma previous_start_index i :
  let r := retreat (λ i, class i =? 0) i in
  let b := retreat (λ k, (class (k - 1) =? class r) && line_joins d (k - 1) k) r in
  (b ≤ i)%nat ∧ (b = 0%nat ∨ starts_word b = true) ∧ (∀ m, (b < m ≤ i)%nat → starts_word m = false).
Proof.
  destruct (retreat_spec (λ i, class i =? 0) i) as (H1 & H2 & H3). set (r := retreat _ i) in *. cbv zeta.
  destruct (retreat_spec (λ k, (class (k - 1) =? class r) && line_joins d (k - 1) k) r) as (H4 & H5 & H6).
  set (b := retreat _ r) in *.
  assert (∀ m, (b ≤ m ≤ r)%nat → class m = class r) as Hclass.
  { intros m Hm. destruct (decide (m = r)) as [->|]; [done|]. specialize (H6 (S m) ltac:(lia)).
    replace (S m - 1)%nat with m in H6 by lia. by apply andb_true_iff in H6 as [H6%N.eqb_eq _]. }
  split_and!; [lia| |].
  - destruct (decide (b = 0%nat)) as [|Hb]; [by left|]. right. destruct H2 as [|H2]; [lia|].
    destruct H5 as [|H5]; [lia|]. destruct (starts_word b) eqn:E; [done|]. apply starts_word_cases in E; [|lia].
    destruct E as [E|E].
    + rewrite Hclass in E by lia. by rewrite E in H2.
    + pose proof (same_class _ _ E) as Hc. rewrite (Hclass b) in Hc by lia. unfold same_word in E.
      apply andb_true_iff in E as [E _]. by rewrite E, Hc, N.eqb_refl in H5.
  - intros m Hm. apply starts_word_cases; [lia|]. destruct (decide (m ≤ r)%nat) as [Hmr|Hmr].
    + right. specialize (H6 m ltac:(lia)). apply andb_true_iff in H6 as [H6 H7]. unfold same_word.
      apply N.eqb_eq in H6. by rewrite H7, (Hclass m), H6, N.eqb_refl by lia.
    + left. apply N.eqb_eq, H3. lia.
Qed.
End WordSpec.

(** C28. One step of [w], [b] or [e] from the [i]-th addressable position goes to
    the nearest word boundary in its direction: to the first word start after
    it, to the last word start before it (to the first position when there is
    none), to the first word end after it; it goes nowhere exactly when there
    is no boundary.  A word is a maximal run of positions of one class, within
    a logical line, that are not blank. *)
Theorem word_motions_find_the_nearest_boundary is_alphanumeric d style p i :
  document_ok d → positions d !! i = Some p →
  let starts := starts_word is_alphanumeric d style in
  let ends := ends_word is_alphanumeric d style in
  let n := length (positions d) in
  (∃ r, (i < r)%nat ∧ next_word_start is_alphanumeric d p style = positions d !! r ∧
        ((r < n)%nat → starts r = true) ∧ ∀ m, (i < m < r)%nat → starts m = false) ∧
  (previous_word_start is_alphanumeric d p style = None ∧ i = 0%nat ∨
   ∃ r, (r < i)%nat ∧ previous_word_start is_alphanumeric d p style = positions d !! r ∧
        (r = 0%nat ∨ starts r = true) ∧ ∀ m, (r < m < i)%nat → starts m = false) ∧
  (∃ r, (i < r)%nat ∧ next_word_end is_alphanumeric d p style = positions d !! r ∧
        ((r < n)%nat → ends r = true) ∧ ∀ m, (i < m < r)%nat → (m < n)%nat → ends m = false).
Proof.
  intros Hd Hi starts ends n. pose proof (index_of_lookup _ _ _ (positions_sorted d Hd) Hi) as Hindex.
  pose proof (lookup_lt_Some _ _ _ Hi) as Hlt. split_and!.
  - destruct (next_start_index is_alphanumeric d style i) as (H1 & H2 & H3). eexists. split_and!; [exact H1| |exact H2|exact H3].
    unfold next_word_start. by rewrite Hindex.
  - unfold previous_word_start. rewrite Hindex. cbn [mbind option_bind]. destruct i as [|i]; [by left|]. right.
    destruct (previous_start_index is_alphanumeric d style i) as (H1 & H2 & H3).
    eexists. split_and!; [|reflexivity|exact H2|]; [lia|]. intros m Hm. apply H3. lia.
  - destruct (next_end_index is_alphanumeric d style i) as (H1 & H2 & H3 & H4).
    unfold next_word_end. rewrite Hindex. cbn [mbind option_bind].
    set (r := advance _ _ (S i)) in *.
    destruct (positions d !! r) as [at_r|] eqn:E; cbn [mbind option_bind].
    + pose proof (lookup_lt_Some _ _ _ E) as Hr. destruct (H2 Hr) as [H5 H6].
      assert (word_class is_alphanumeric d at_r style = class_at is_alphanumeric d style r) as ->
        by (unfold class_at; by rewrite E).
      eexists. split_and!; [exact H1|reflexivity|done|]. intros m Hm _. by apply H3.
    + exists (Nat.max r n). apply lookup_ge_None in E as Hr. rewrite (lookup_ge_None_2 _ (Nat.max r n)) by (unfold n; lia).
      split_and!; [unfold n; lia|done|unfold n; lia|]. intros m Hm Hmn. apply H4. unfold n in *. lia.
Qed.

(** ** Braces *)

(** How a position counts when [ch] opens and [mate] closes. *)
Definition weight (d : ReviewDocument) (ch mate : N) (p : HistoryPosition) : Z :=
  if bool_decide (cell_char d p = Some ch) then 1 else if bool_decide (cell_char d p = Some mate) then -1 else 0.
Definition total_weight (d : ReviewDocument) (ch mate : N) (l : list HistoryPosition) : Z :=
  fold_right Z.add 0%Z (weight d ch mate <$> l).

Lemma total_weight_app d ch mate l k :
  total_weight d ch mate (l ++ k) = (total_weight d ch mate l + total_weight d ch mate k)%Z.
Proof. unfold total_weight. induction l as [|p l IH]; cbn in *; lia. Qed.
Lemma total_weight_reverse d ch mate l : total_weight d ch mate (reverse l) = total_weight d ch mate l.
Proof.
  induction l as [|p l IH]; [done|]. rewrite reverse_cons, total_weight_app, IH. unfold total_weight. cbn. lia.
Qed.
Lemma total_weight_swap d ch mate l :
  ch ≠ mate → total_weight d mate ch l = (- total_weight d ch mate l)%Z.
Proof.
  intros Hne. induction l as [|p l IH]; [done|]. unfold total_weight, weight in *. cbn in *.
  destruct (decide (cell_char d p = Some ch)) as [E|E], (decide (cell_char d p = Some mate)) as [E'|E'];
    [congruence|..]; repeat (rewrite (bool_decide_eq_true_2 _ E) || rewrite (bool_decide_eq_false_2 _ E) ||
      rewrite (bool_decide_eq_true_2 _ E') || rewrite (bool_decide_eq_false_2 _ E')); lia.
Qed.

(** The search stops at the first mate that is not matched on the way. *)
Lemma balance_Some d ch mate depth l q :
  balance d ch mate depth l = Some q →
  ∃ l1 l2, l = l1 ++ q :: l2 ∧ cell_char d q = Some mate ∧ (Z.of_N depth + total_weight d ch mate l1 = 0)%Z ∧
    ∀ a b, l1 = a ++ b → (0 ≤ Z.of_N depth + total_weight d ch mate a)%Z.
Proof.
  revert depth. induction l as [|c l IH]; intros depth; cbn [balance]; [done|].
  assert (∀ depth', balance d ch mate depth' l = Some q →
    Z.of_N depth' = (Z.of_N depth + weight d ch mate c)%Z →
    ∃ l1 l2, c :: l = l1 ++ q :: l2 ∧ cell_char d q = Some mate ∧ (Z.of_N depth + total_weight d ch mate l1 = 0)%Z ∧
    ∀ a b, l1 = a ++ b → (0 ≤ Z.of_N depth + total_weight d ch mate a)%Z) as Hcons.
  { intros depth' H Hd'. destruct (IH _ H) as (l1 & l2 & -> & Hq & Hsum & Hpre).
    exists (c :: l1), l2. split_and!; [done|done| |].
    - unfold total_weight in *. cbn. lia.
    - intros [|c' a] b Hab; [unfold total_weight; cbn; lia|]. injection Hab as <- ->.
      specialize (Hpre a b eq_refl). unfold total_weight in *. cbn. lia. }
  unfold weight in Hcons. destruct (decide (cell_char d c = Some ch)) as [E|E].
  { rewrite (bool_decide_eq_true_2 _ E) in *. intros H. apply (Hcons _ H). lia. }
  rewrite (bool_decide_eq_false_2 _ E) in *.
  destruct (decide (cell_char d c = Some mate)) as [E'|E'].
  - rewrite (bool_decide_eq_true_2 _ E') in *. destruct (N.eqb_spec depth 0) as [->|Hne].
    + intros [= ->]. exists [], l. split_and!; [done|done|done|]. intros a b Hab. symmetry in Hab.
      apply app_eq_nil in Hab as [-> _]. done.
    + intros H. apply (Hcons _ H). lia.
  - rewrite (bool_decide_eq_false_2 _ E') in *. intros H. apply (Hcons _ H). lia.
Qed.
Lemma balance_stops d ch mate depth l1 q l2 :
  cell_char d q = Some mate → ch ≠ mate → (Z.of_N depth + total_weight d ch mate l1 = 0)%Z →
  (∀ a b, l1 = a ++ b → (0 ≤ Z.of_N depth + total_weight d ch mate a)%Z) →
  balance d ch mate depth (l1 ++ q :: l2) = Some q.
Proof.
  intros Hq Hne. revert depth. induction l1 as [|c l1 IH]; intros depth Hsum Hpre; cbn [app balance].
  - rewrite (bool_decide_eq_false_2 (cell_char d q = Some ch)) by congruence.
    rewrite (bool_decide_eq_true_2 _ Hq). unfold total_weight in Hsum. cbn in Hsum.
    by rewrite (proj2 (N.eqb_eq depth 0)) by lia.
  - assert (∀ depth', Z.of_N depth' = (Z.of_N depth + weight d ch mate c)%Z →
      balance d ch mate depth' (l1 ++ q :: l2) = Some q) as Hcons.
    { intros depth' Hd'. apply IH; [unfold total_weight in *; cbn in *; lia|]. intros a b ->.
      specialize (Hpre (c :: a) b eq_refl). unfold total_weight in *. cbn in Hpre. lia. }
    pose proof (Hpre [c] l1 eq_refl) as H1. unfold total_weight in H1. cbn in H1. unfold weight in *.
    destruct (decide (cell_char d c = Some ch)) as [E|E].
    { rewrite (bool_decide_eq_true_2 _ E) in *. apply Hcons. lia. }
    rewrite (bool_decide_eq_false_2 _ E) in *.
    destruct (decide (cell_char d c = Some mate)) as [E'|E'].
    + rewrite (bool_decide_eq_true_2 _ E') in *. rewrite (proj2 (N.eqb_neq depth 0)) by lia. apply Hcons. lia.
    + rewrite (bool_decide_eq_false_2 _ E') in *. apply Hcons. lia.
Qed.

Lemma mate_of_mate ch mate fw : mate_of ch = Some (mate, fw) → mate_of mate = Some (ch, negb fw) ∧ ch ≠ mate.
Proof.
  unfold mate_of at 1.
  repeat match goal with |- context [ch =? ?n] =>
    let E := fresh "E" in destruct (N.eqb_spec ch n) as [E|E]; [intros [= <- <-]; rewrite E; split; [reflexivity|discriminate]|]
  end.
  done.
Qed.

Lemma drop_middle {A} (l : list A) x k : drop (S (length l)) (l ++ x :: k) = k.
Proof. induction l as [|y l IH]; [done|]. exact IH. Qed.

(** The search back over the same stretch finds where it started. *)
Lemma balance_back d ch mate p m rest :
  ch ≠ mate → cell_char d p = Some ch → total_weight d ch mate m = 0%Z →
  (∀ x y, m = x ++ y → (0 ≤ total_weight d ch mate x)%Z) →
  balance d mate ch 0 (reverse m ++ p :: rest) = Some p.
Proof.
  intros Hne Hp Hsum Hpre. apply balance_stops; [done|congruence| |].
  - rewrite total_weight_swap, total_weight_reverse, Hsum by done. done.
  - intros x y Hxy. assert (m = reverse y ++ reverse x) as Hm by (rewrite <-reverse_app, <-Hxy; by rewrite reverse_involutive).
    rewrite total_weight_swap, <-(total_weight_reverse _ _ _ x) by done.
    pose proof (Hpre _ _ Hm) as H. rewrite Hm, total_weight_app in Hsum. lia.
Qed.

(** A brace that the motion starts from and the brace it goes to lead to each
    other: [%] twice returns to where it began. *)
Theorem matching_braces_pair_up d p q :
  document_ok d → first_brace d p = Some p → matching_brace d p = Some q → first_brace d q = Some q →
  matching_brace d q = Some p.
Proof.
  intros Hd Hp Hmatch Hq. unfold matching_brace in *. rewrite Hp in Hmatch. rewrite Hq. cbn [mbind option_bind] in *.
  destruct (cell_char d p) as [ch|] eqn:Hch; [|done]. cbn [mbind option_bind] in Hmatch.
  destruct (mate_of ch) as [[mate fw]|] eqn:Hmate; [|done]. cbn [mbind option_bind] in Hmatch.
  apply mate_of_mate in Hmate as [Hmate Hne].
  destruct (index_of p (positions d)) as [i|] eqn:Hi; [|done]. cbn [mbind option_bind] in Hmatch.
  pose proof (index_of_Some _ _ _ Hi) as Hpi. pose proof (positions_sorted d Hd) as Hsorted.
  assert (∀ j, positions d !! j = Some q → index_of q (positions d) = Some j) as Hindex by (intros j; by apply index_of_lookup).
  destruct fw; apply balance_Some in Hmatch as (m & rest & Hl & Hqc & Hsum & Hpre); change (Z.of_N 0) with 0%Z in *;
    rewrite Hqc; cbn [mbind option_bind]; rewrite Hmate; cbn [mbind option_bind negb].
  - pose proof (take_drop_middle _ _ _ Hpi) as Hall. rewrite Hl in Hall.
    rewrite (Hindex (S i + length m)%nat).
    2:{ rewrite <-lookup_drop, Hl. by apply list_lookup_middle. }
    cbn [mbind option_bind].
    assert (take (S i + length m) (positions d) = take i (positions d) ++ p :: m) as ->.
    { rewrite <-take_take_drop, Hl, take_app_length, (take_S_r _ _ _ Hpi), <-app_assoc. done. }
    rewrite reverse_app, reverse_cons, <-app_assoc. by apply balance_back.
  - assert (take i (positions d) = reverse rest ++ q :: reverse m) as Hl'.
    { rewrite <-(reverse_involutive (take i (positions d))), Hl, reverse_app, reverse_cons, <-app_assoc. done. }
    assert (length (reverse rest) < i)%nat as Hlt.
    { pose proof (lookup_lt_Some _ _ _ Hpi). apply (f_equal length) in Hl'. rewrite length_take, length_app in Hl'. cbn in Hl'. lia. }
    rewrite (Hindex (length (reverse rest))).
    2:{ rewrite <-(lookup_take_lt _ i), Hl' by done. by apply list_lookup_middle. }
    cbn [mbind option_bind].
    assert (drop (S (length (reverse rest))) (positions d) = reverse m ++ p :: drop (S i) (positions d)) as ->.
    { rewrite <-(take_drop_middle _ _ _ Hpi) at 1. rewrite Hl'. rewrite <-app_assoc. cbn [app].
      apply drop_middle. }
    by apply balance_back.
Qed.

(** ** Yanking *)

Lemma yank_cells_text r l t :
  fold_left yank_cell (snd <$> l) t = t ++ mjoin ((λ c, (flat_cell r c).1) <$> l).
Proof.
  revert t. induction l as [|c l IH]; intros t; cbn; [by rewrite app_nil_r|]. cbn in IH. rewrite IH.
  unfold yank_cell, flat_cell. destruct (wide_continuation c.2); [done|]. case_bool_decide; cbn; by rewrite <-app_assoc.
Qed.

Lemma yank_row_total d first final linewise t r :
  document_ok d → r < row_count d → is_Some (yank_row d first final linewise t r).
Proof.
  intros Hd Hr. destruct (row_exists d r Hr) as [line Hline]. unfold yank_row. rewrite Hline. cbn [mbind option_bind].
  pose proof (doc_row_ok d Hd r line Hline) as Hok.
  set (start := if r =? row first then col first else 0).
  set (end_ := if r =? row final then sat_add u16_max (col final) 1 else row_end line).
  rewrite (mapM_total _ (λ c, cell_at line c)); [by eexists|].
  apply Forall_forall. intros c Hc%elem_of_seq. unfold cell_at.
  destruct (lookup_lt_is_Some_2 (row_cells line) c) as [cell ->]; [|done].
  pose proof (line_length _ _ Hok). pose proof (line_end _ _ Hok). lia.
Qed.
Lemma yank_rows_total d first final linewise n r t :
  document_ok d → r + N.of_nat n ≤ row_count d → is_Some (yank_rows d first final linewise n r t).
Proof.
  intros Hd. revert r t. induction n as [|n IH]; intros r t Hr; cbn [yank_rows]; [by eexists|].
  destruct (yank_row_total d first final linewise t r) as [t' ->]; [done|lia|]. cbn [mbind option_bind]. apply IH. lia.
Qed.

(** Yanking between two addressable positions does not panic and does not
    depend on which of them comes first; within one row it takes, of every
    cell from the one to the other, the text that a search sees there. *)
Theorem yank_takes_what_search_sees d p q linewise :
  document_ok d → p ∈ positions d → q ∈ positions d →
  is_Some (yank_range d p q linewise) ∧
  yank_range d p q linewise = yank_range d q p linewise ∧
  (row p = row q → col p ≤ col q → linewise = false →
   ∀ line, doc_row d (row p) = Some line → col q < row_end line →
   let t := mjoin ((λ c, (flat_cell (row p) (N.of_nat c, cell_at line c)).1) <$>
                     seq (N.to_nat (col p)) (N.to_nat (col q + 1 - col p))) in
   yank_range d p q linewise = Some (if bool_decide (t = []) then None else Some t)).
Proof.
  intros Hd Hp Hq.
  assert (∀ p q, q ∈ positions d → is_Some (
    t ← yank_rows d (if linewise then {| row := row p; col := 0 |} else p)
          (if linewise then {| row := row q; col := line_last_col d (row q) |} else q) linewise
          (N.to_nat (row (if linewise then {| row := row q; col := line_last_col d (row q) |} else q) + 1 -
                     row (if linewise then {| row := row p; col := 0 |} else p)))
          (row (if linewise then {| row := row p; col := 0 |} else p)) [];
    Some (if bool_decide ((if linewise then t ++ [LF] else t) = []) then None else Some (if linewise then t ++ [LF] else t)))) as Htotal.
  { clear p q Hp Hq. intros p q Hq. destruct (position_row d Hd q Hq) as [line Hline]. pose proof (row_exists_inv _ _ _ Hline) as Hlt.
    assert (∀ n, n = N.to_nat (row q + 1 - row p) → ∀ f l, is_Some (yank_rows d f l linewise n (row p) [])) as Hrows.
    { intros n -> f l. destruct (decide (row p ≤ row q)) as [Hle|Hgt]; [apply yank_rows_total; [done|lia]|].
      replace (N.to_nat (row q + 1 - row p)) with 0%nat by lia. by eexists. }
    destruct linewise; cbn [row] in *;
      destruct (Hrows _ eq_refl {| row := row p; col := 0 |} {| row := row q; col := line_last_col d (row q) |}) as [t Ht];
      destruct (Hrows _ eq_refl p q) as [t' Ht']; rewrite ?Ht, ?Ht'; by eexists. }
  split_and!.
  - unfold yank_range. destruct (position_le p q); by apply Htotal.
  - unfold yank_range. destruct (position_lt_total p q) as [H|[->|H]]; [|done|].
    + rewrite (proj2 (position_le_spec p q)) by tauto. unfold position_le at 1. by rewrite H.
    + rewrite (proj2 (position_le_spec q p)) by tauto. unfold position_le at 1. by rewrite H.
  - intros Hrow Hcol -> line Hline Hend t. pose proof (doc_row_ok d Hd _ _ Hline) as Hok.
    assert (position_le p q = true) as Hle by (unfold position_le, position_lt; lia).
    unfold yank_range. rewrite Hle. rewrite <-Hrow. replace (N.to_nat (row p + 1 - row p)) with 1%nat by lia.
    cbn [yank_rows]. unfold yank_row. rewrite Hline. cbn [mbind option_bind]. rewrite <-Hrow, !N.eqb_refl. cbn [negb andb orb].
    pose proof (line_length _ _ Hok). pose proof (line_end _ _ Hok). pose proof (ok_cols d Hd).
    replace (N.min (sat_add u16_max (col q) 1) (row_end line)) with (col q + 1) by (unfold sat_add; lia).
    rewrite (mapM_total _ (λ c, cell_at line c)).
    + cbn [mbind option_bind]. assert (fold_left yank_cell ((λ c, cell_at line c) <$>
        seq (N.to_nat (col p)) (N.to_nat (col q + 1) - N.to_nat (col p))) [] = t) as ->; [|done].
      replace (N.to_nat (col q + 1) - N.to_nat (col p))%nat with (N.to_nat (col q + 1 - col p)) by lia.
      pose proof (yank_cells_text (row p) ((λ c, (N.of_nat c, cell_at line c)) <$>
        seq (N.to_nat (col p)) (N.to_nat (col q + 1 - col p))) []) as H'.
      rewrite <-!list_fmap_compose in H'. exact H'.
    + apply Forall_forall. intros c Hc%elem_of_seq. unfold cell_at.
      destruct (lookup_lt_is_Some_2 (row_cells line) c) as [cell ->]; [|done]. lia.
Qed.

(** ** Searching *)

Lemma filter_partition_perm {A} (f g : A → bool) l :
  (∀ x, g x = negb (f x)) → List.filter f l ++ List.filter g l ≡ₚ l.
Proof.
  intros Hfg. induction l as [|x l IH]; [done|]. cbn. rewrite (Hfg x). destruct (f x); cbn; [by rewrite IH|].
  rewrite <-Permutation_middle. by rewrite IH.
Qed.

(** The counts 1, 2, ... of [n] visit every match once before any of them
    again, those ahead of the cursor in the direction of the search first. *)
Theorem search_cycles_through_the_matches d matches p direction i j a b :
  let ordered := ordered_matches matches p direction in
  ordered ≡ₚ matches ∧
  (ordered !! i = Some a → ordered !! j = Some b →
   let ahead c := match direction with SearchForward => position_lt p c | SearchBackward => position_lt c p end in
   ahead a = false → ahead b = true → (j < i)%nat) ∧
  (∀ find_iter found n q, find_iter (flat_text d) = Some found → matches = omap (position_for_offset d) found →
   search d find_iter p direction n = Some q → q ∈ matches ∧ q ≠ p ∧ ordered !! N.to_nat ((n - 1) mod len ordered) = Some q).
Proof.
  intros ordered. split_and!.
  - unfold ordered, ordered_matches. destruct direction.
    + apply filter_partition_perm. done.
    + rewrite (filter_partition_perm (λ c, position_lt c p)); [apply reverse_Permutation|done].
  - assert (∀ f g l, (∀ x, g x = negb (f x)) → (List.filter f l ++ List.filter g l) !! i = Some a →
      (List.filter f l ++ List.filter g l) !! j = Some b → f a = false → f b = true → (j < i)%nat) as Hsplit.
    { intros f g l Hfg Ha Hb Hfa Hfb. apply lookup_app_Some in Ha as [Ha|[Hi _]].
      - apply list_elem_of_lookup_2, elem_of_Filter in Ha as [_ Ha]. congruence.
      - apply lookup_app_Some in Hb as [Hb|[_ Hb]]; [apply lookup_lt_Some in Hb; lia|].
        apply list_elem_of_lookup_2, elem_of_Filter in Hb as [_ Hb]. rewrite Hfg, Hfb in Hb. done. }
    unfold ordered, ordered_matches. destruct direction; cbv zeta; intros Ha Hb Hfa Hfb.
    + by apply (Hsplit (λ c, position_lt p c) (λ c, position_le c p) matches).
    + by apply (Hsplit (λ c, position_lt c p) (λ c, position_le p c) (reverse matches)).
  - intros find_iter found n q Hf Hm. unfold search. rewrite Hf. cbn [mbind option_bind]. rewrite <-Hm.
    case_bool_decide; [done|]. fold ordered. destruct (ordered !! _) as [target|] eqn:E; [|done]. cbn [mbind option_bind].
    unfold if_moved. case_bool_decide as Hne; [done|]. intros [= <-]. split_and!; [|congruence|done].
    apply list_elem_of_lookup_2 in E. by apply elem_of_ordered_matches in E.
Qed.

(** ** Rows that wrap *)

Definition demo_cell (t : N) : Cell := default_cell <| grapheme := [t] |>.
Definition demo_row (t : list N) (w : bool) : Row := {| Screen.cells := demo_cell <$> t; wrapped := w |}.
Definition demo_snapshot (lines : list Row) : TerminalSnapshot :=
  {| rows := lines; scrollback := []; cursor := default_cursor; geometry := geometry_new (len lines) 2 0 0;
     screen := PrimaryScreen; modes := default_modes; title := None; working_directory := None; semantic_marks := [];
     history_origin := 0; scrollback_extent := 0; viewport := Live |}.
Definition no_document : ReviewDocument :=
  {| doc_rows := []; marks := []; capture_cols := 1; doc_alternate_screen := false; flat_text := [];
     flat_positions := []; positions := [] |}.
Definition demo_document (lines : list Row) : ReviewDocument :=
  default no_document (from_snapshot (demo_snapshot lines) 2).

(** [(a] wraps into [b)]: from the closing brace, on the second row, [%]
    starts from the brace of the first row, before the cursor, and stays where
    it is; on one row of the same text it goes to the opening brace. *)
Theorem brace_on_a_wrapped_row_starts_before_the_cursor :
  let d := demo_document [demo_row [40; 97] true; demo_row [98; 41] false] in
  first_brace d (position_at 1 1) = Some (position_at 0 0) ∧
  matching_brace d (position_at 1 1) = Some (position_at 1 1) ∧
  matching_brace (demo_document [demo_row [40; 41] false]) (position_at 0 1) = Some (position_at 0 0).
Proof. vm_compute. done. Qed.

(** [a] and a space wrap into [b]: a search sees [a b], yanking the line gives
    [ab]. *)
Theorem yanking_across_a_wrap_loses_the_space :
  let d := demo_document [demo_row [97; SP] true; demo_row [98] false] in
  flat_text d = [97; SP; 98; LF] ∧ yank_range d (position_at 0 0) (position_at 1 0) false = Some (Some [97; 98]).
Proof. vm_compute. done. Qed.

(** [a ,,], as [a] and a space that wrap into two commas: the text object of two
    words ends in the middle of the second word, because its characters are
    compared with the class of the first. *)
Theorem second_word_of_another_class_is_cut :
  let d := demo_document [demo_row [97; SP] true; demo_row [44; 44] false] in
  inner_word_range (λ c, c =? 97) d (position_at 0 0) Word false 2 = Some (position_at 0 0, position_at 1 0) ∧
  next_word_end (λ c, c =? 97) d (position_at 0 0) Word = Some (position_at 1 1).
Proof. vm_compute. done. Qed.

(** ** Concrete documents *)

Lemma demo_rows_ok l w : row_wide_ok (demo_row l w).
Proof.
  split.
  - intros c. cbn. destruct l; cbn; [done|]. by intros [= <-].
  - apply Forall_fmap, Forall_forall. by intros t _ ?.
Qed.
Lemma demo_document_ok lines :
  Forall row_wide_ok lines → len lines ≤ usize_max →
  from_snapshot (demo_snapshot lines) 2 = Some (demo_document lines) ∧ document_ok (demo_document lines).
Proof.
  intros Hwide Hlen. destruct (from_snapshot_ok (demo_snapshot lines) 2) as (d & Hd & Hok & _); [done|done|done|].
  unfold demo_document. rewrite Hd. by split.
Qed.

Lemma review_cursor_stays_addressable_witness :
  ∃ d line, from_snapshot (demo_snapshot [demo_row [97; 98] false]) 2 = Some d ∧ doc_row d 0 = Some line ∧ 1 < N.max (row_end line) 1.
Proof.
  destruct (review_cursor_stays_addressable (λ _, false) (demo_snapshot [demo_row [97; 98] false]) 2
    (position_at 9 0) (position_at 0 1)) as (d & Hd & H).
  - done.
  - apply Forall_singleton, demo_rows_ok.
  - done.
  - destruct H as (line & Hline & Hc & _); [|exists d, line; split_and!; [exact Hd|exact Hline|exact (proj1 Hc)]].
    assert (d = demo_document [demo_row [97; 98] false]) as -> by (unfold demo_document; by rewrite Hd).
    eapply rtc_l; [|apply rtc_refl]. apply (moves_horizontally _ _ _ _ true 1). vm_compute. done.
Defined.
Lemma word_motions_find_the_nearest_boundary_witness :
  ∃ r, (0 < r)%nat ∧ next_word_start (λ c, c <? 128) (demo_document [demo_row [97; 98] false; demo_row [99] false])
         (position_at 0 0) Word = positions (demo_document [demo_row [97; 98] false; demo_row [99] false]) !! r.
Proof.
  destruct (word_motions_find_the_nearest_boundary (λ c, c <? 128) (demo_document [demo_row [97; 98] false; demo_row [99] false])
    Word (position_at 0 0) 0) as ((r & Hr & H & _) & _).
  - apply demo_document_ok; [repeat (apply Forall_cons; split; [apply demo_rows_ok|]); apply Forall_nil; done|done].
  - vm_compute. done.
  - by exists r.
Defined.
Lemma matching_braces_pair_up_witness :
  matching_brace (demo_document [demo_row [40; 41] false]) (position_at 0 1) = Some (position_at 0 0).
Proof.
  apply (matching_braces_pair_up (demo_document [demo_row [40; 41] false]) (position_at 0 0) (position_at 0 1)).
  - apply demo_document_ok; [repeat (apply Forall_cons; split; [apply demo_rows_ok|]); apply Forall_nil; done|done].
  - vm_compute. done.
  - vm_compute. done.
  - vm_compute. done.
Defined.
Lemma yank_takes_what_search_sees_witness :
  is_Some (yank_range (demo_document [demo_row [40; 41] false]) (position_at 0 1) (position_at 0 0) true).
Proof.
  apply (yank_takes_what_search_sees (demo_document [demo_row [40; 41] false]) (position_at 0 1) (position_at 0 0) true).
  - apply demo_document_ok; [repeat (apply Forall_cons; split; [apply demo_rows_ok|]); apply Forall_nil; done|done].
  - apply list_elem_of_lookup. exists 1%nat. vm_compute. done.
  - apply list_elem_of_lookup. exists 0%nat. vm_compute. done.
Defined.
