(* ===== verification/Table.v ===== *)
(** Tables on the screen (src/src/table.rs and src/src/table/detection.rs): the
    recognition of a table with delimiters or columns of fixed width, the model
    of its rows and columns, and moving between its cells.

    A view is its snapshot; text is a list of characters.  Rows and columns are
    [u16]s: a row plus a search distance is taken to fit, which holds of every
    screen of at most 65529 rows.  [is_alphabetic] is the standard library's
    and is a parameter.  Detection reads rows only through the snapshot, so the
    snapshot is a section variable of everything below. *)

From S2P Require Import Prelude Terminal Screen.
Local Open Scope N_scope.

(** * The session of table mode *)

Inductive InputMode := NormalMode | TableMode | TableSetupMode.
#[export] Instance InputMode_eq_dec : EqDecision InputMode.
Proof. solve_decision. Defined.

Record SetupState := { setup_header_row : N; tabstops : list N }.
Inductive TabstopChange := Added | Removed.

(** [slice::binary_search] on the sorted tabstops: the index of [col], or where
    it belongs. *)
Definition search_tabstop (stops : list N) (col : N) : nat * bool :=
  let i := length (List.filter (λ s, s <? col) stops) in
  (i, bool_decide (stops !! i = Some col)).
Definition toggle_tabstop (st : SetupState) (col : N) : SetupState * TabstopChange :=
  let '(i, found) := search_tabstop (tabstops st) col in
  if (found : bool) then ((st <| tabstops := delete i (tabstops st) |>), Removed)
  else ((st <| tabstops := take i (tabstops st) ++ col :: drop i (tabstops st) |>), Added).

Record Column := { start_col : N; end_col : N }.
#[export] Instance Column_eq_dec : EqDecision Column.
Proof. solve_decision. Defined.
Record TableModel := {
  top : N; bottom : N; columns : list Column; header_row : option N; delimiter : option N
}.
Record TableState := { table_model : TableModel; current_col : N }.
Record Session := { mode : InputMode; navigation : option TableState; setup : option SetupState }.

Definition default_session : Session := {| mode := NormalMode; navigation := None; setup := None |}.
Definition enter_setup (s : Session) (header : N) : Session * InputMode :=
  ({| mode := TableSetupMode; navigation := None; setup := Some {| setup_header_row := header; tabstops := [] |} |}, mode s).
Definition enter_table (s : Session) (state : TableState) : Session * InputMode :=
  ({| mode := TableMode; navigation := Some state; setup := None |}, mode s).
Definition exit_table (s : Session) : Session * InputMode :=
  ({| mode := NormalMode; navigation := None; setup := None |}, mode s).

Definition current_column (st : TableState) : option Column := columns (table_model st) !! N.to_nat (current_col st).
Definition column_count (m : TableModel) : N := len (columns m).

Definition column_for_col (m : TableModel) (col : N) : N :=
  match list_find (λ c, start_col c ≤ col ∧ col ≤ end_col c) (columns m) with
  | Some (i, _) => N.of_nat i
  | None => 0
  end.
Definition clamp_row (m : TableModel) (row : N) : N :=
  if row <? top m then top m else if bottom m <? row then bottom m else row.

(** * Delimited lines *)

Definition PIPE : N := 124.
(** [str::split] at a character, and [matches(c).count()]. *)
Fixpoint split_chars (c : N) (l : list N) : list (list N) :=
  match l with
  | [] => [[]]
  | x :: l =>
      if x =? c then [] :: split_chars c l else
      match split_chars c l with
      | field :: fields => (x :: field) :: fields
      | [] => [[x]]
      end
  end.
Definition count_char (c : N) (l : list N) : N := len (List.filter (λ x, x =? c) l).
Definition starts_with (c : N) (l : list N) : bool := bool_decide (head l = Some c).
Definition ends_with (c : N) (l : list N) : bool := bool_decide (last l = Some c).

Definition pipe_cell_layout (line : list N) : option (N * N) :=
  let delimiters := count_char PIPE line in
  if delimiters =? 0 then None else
  let leading := if starts_with PIPE line then 1 else 0 in
  let trailing := if ends_with PIPE line then 1 else 0 in
  let cells := delimiters + 1 - leading - trailing in
  if 0 <? cells then Some (leading, cells) else None.
Definition pipe_delimited_cell_text (line : list N) (col_idx : N) : option (list N) :=
  let trimmed := trim_chars line in
  layout ← pipe_cell_layout trimmed;
  let cells := drop (N.to_nat layout.1) (split_chars PIPE trimmed) in
  Some (trim_chars (default [] (cells !! N.to_nat col_idx))).

(** The loop over the characters of a line: finished columns, in a word, the
    whitespace since it. *)
Definition fixed_step (st : N * bool * N) (ch : N) : N * bool * N :=
  let '(columns, in_word, space_run) := st in
  if is_whitespace_char ch then
    if in_word then
      let space_run := space_run + 1 in
      if 2 <=? space_run then (columns + 1, false, space_run) else (columns, in_word, space_run)
    else st
  else (columns, true, 0).
Definition fixed_width_column_count (line : list N) : N :=
  let '(columns, in_word, _) := fold_left fixed_step line (0, false, 0) in
  if (in_word : bool) then columns + 1 else columns.

(** [for offset in 1..column_count]. *)
Definition nearest_matching_column (column_count preferred : N) (matches : N → bool) : N :=
  if column_count =? 0 then 0 else
  let preferred := N.min preferred (column_count - 1) in
  if matches preferred then preferred else
  let at_offset (offset : nat) :=
    let offset := N.of_nat offset in
    if (offset <=? preferred) && matches (preferred - offset) then Some (preferred - offset)
    else let right := preferred + offset in
      if (right <? column_count) && matches right then Some right else None in
  default preferred (head (omap at_offset (seq 1 (N.to_nat column_count - 1)))).

(** [(first..=last).find(p)], and the loops that move a bound while the next
    row satisfies [p]. *)
Definition range_incl (first final : N) : list N := N.of_nat <$> seq (N.to_nat first) (N.to_nat (final + 1 - first)).
Definition find_row (p : N → bool) (first final : N) : option N := head (List.filter p (range_incl first final)).
Fixpoint extend_up (p : N → bool) (top : nat) : nat :=
  match top with O => O | S t => if p (N.of_nat t) then extend_up p t else top end.
Fixpoint extend_down (p : N → bool) (rows : N) (fuel : nat) (bottom : N) : N :=
  match fuel with
  | O => bottom
  | S fuel => if (bottom + 1 <? rows) && p (bottom + 1) then extend_down p rows fuel (bottom + 1) else bottom
  end.

(** Up and down from [row] by [offset], as the searches for a table nearby
    try them. *)
Definition row_near (p : N → bool) (rows row offset : N) : option N :=
  if (offset <=? row) && p (row - offset) then Some (row - offset)
  else let down := row + offset in
    if (down <? rows) && p down then Some down else None.
Definition nearest_row (p : N → bool) (rows row reach : N) : option N :=
  head (omap (row_near p rows row) (range_incl 1 reach)).

Section Surface.
Context (is_alphabetic : N → bool) (view : TerminalSnapshot).
Abbreviation rows := (size view).1.
Abbreviation cols := (size view).2.

(** * Reading rows *)

Definition line (row : N) : list N := contents_between view row 0 row cols.

Definition cell_has_text (row col : N) : bool :=
  match cell view row col with
  | Some c => is_wide_continuation c || negb (bool_decide (trim_chars (contents c) = []))
  | None => false
  end.
Definition row_range_is_blank (row first final : N) : bool :=
  forallb (λ col, negb (cell_has_text row col)) (range_incl first final).
Definition row_is_blank (row : N) : bool :=
  forallb (λ col, negb (cell_has_text row (N.of_nat col))) (seq 0 (N.to_nat cols)).

Definition is_separator_char (ch : N) : bool :=
  (ch =? 45) || (ch =? 61) || (ch =? 43) || (ch =? PIPE) || (ch =? 95) || (ch =? 58) || is_whitespace_char ch.
Definition is_separator_row (row : N) : bool :=
  let trimmed := trim_chars (line row) in
  negb (bool_decide (trimmed = [])) && forallb is_separator_char trimmed.
Definition row_has_letters (row : N) : bool := existsb is_alphabetic (line row).
Definition row_has_fixed_width_columns (row : N) : bool := 2 <=? fixed_width_column_count (line row).
Definition row_is_fixed_width_continuation (row : N) : bool :=
  if row_is_blank row || row_has_fixed_width_columns row then false
  else ((0 <? row) && row_has_fixed_width_columns (row - 1)) ||
       ((row + 1 <? rows) && row_has_fixed_width_columns (row + 1)).

(** * The rows of a table *)

Definition is_banner_row (m : TableModel) (row : N) : bool :=
  if (row <? top m) || (bottom m <? row) || is_separator_row row then false else
  match delimiter m with
  | None => negb (row_has_fixed_width_columns row)
  | Some _ =>
      let trimmed := trim_chars (line row) in
      if negb (starts_with PIPE trimmed && ends_with PIPE trimmed) then false else
      len (take 2 (List.filter (λ col,
        match pipe_delimited_cell_text trimmed (N.of_nat col) with
        | Some text => negb (bool_decide (text = []))
        | None => false
        end) (seq 0 (length (columns m))))) <=? 1
  end.
Definition is_skippable_row (m : TableModel) (row : N) : bool := is_separator_row row || is_banner_row m row.

Definition table_cell_text (m : TableModel) (row col_idx : N) : list N :=
  match (if bool_decide (delimiter m = Some PIPE) then pipe_delimited_cell_text (line row) col_idx else None) with
  | Some text => text
  | None =>
      match columns m !! N.to_nat col_idx with
      | None => []
      | Some column =>
          let end_ := N.min (end_col column) (cols - 1) in
          trim_chars (contents_between view row (start_col column) row (end_ + 1))
      end
  end.
Definition header_text (m : TableModel) (col_idx : N) : option (list N) :=
  header ← header_row m;
  let text := table_cell_text m header col_idx in
  if bool_decide (text = []) then None else Some text.

(** The loops of [prev_data_row] and [next_data_row]; a candidate is looked at
    before the bound is. *)
Fixpoint prev_loop (m : TableModel) (fuel : nat) (candidate : N) : option N :=
  if negb (is_skippable_row m candidate) then Some candidate else
  if candidate =? top m then None else
  match fuel with O => None | S fuel => prev_loop m fuel (candidate - 1) end.
Definition prev_data_row (m : TableModel) (row : N) : option N :=
  if row <=? top m then None else prev_loop m (N.to_nat row) (row - 1).
Fixpoint next_loop (m : TableModel) (fuel : nat) (candidate : N) : option N :=
  if negb (is_skippable_row m candidate) then Some candidate else
  if bottom m <=? candidate then None else
  match fuel with O => None | S fuel => next_loop m fuel (candidate + 1) end.
Definition next_data_row (m : TableModel) (row : N) : option N :=
  if bottom m <=? row then None else next_loop m (N.to_nat (bottom m)) (row + 1).

Fixpoint nearest_loop (m : TableModel) (row : N) (fuel : nat) (offset : N) : option N :=
  match fuel with
  | O => None
  | S fuel =>
      let can_up := sat_add u16_max (top m) offset <=? row in
      let up := row - offset in
      if can_up && ((top m <=? up) && negb (is_skippable_row m up)) then Some up else
      let down := sat_add u16_max row offset in
      let can_down := down <=? bottom m in
      if can_down && negb (is_skippable_row m down) then Some down else
      if can_up || can_down then nearest_loop m row fuel (sat_add u16_max offset 1) else None
  end.
Definition nearest_data_row (m : TableModel) (row : N) : option N :=
  if (top m <=? row) && (row <=? bottom m) && negb (is_skippable_row m row) then Some row
  else nearest_loop m row (S (N.to_nat (row + bottom m))) 1.

Definition nearest_non_empty_col (m : TableModel) (row preferred : N) : N :=
  nearest_matching_column (column_count m) preferred (λ col,
    if bool_decide (delimiter m = Some PIPE) then
      match pipe_delimited_cell_text (line row) col with
      | Some text => negb (bool_decide (text = []))
      | None => false
      end
    else negb (bool_decide (table_cell_text m row col = []))).

(** * Columns *)

Definition column_has_content (top bottom : N) (c : Column) : bool :=
  existsb (λ row, negb (is_separator_row row) && existsb (cell_has_text row) (range_incl (start_col c) (end_col c)))
    (range_incl top bottom).
Definition retain_columns (top bottom : N) (columns : list Column) : list Column :=
  List.filter (column_has_content top bottom) columns.
(** [if columns.len() < 2 { return None; }]. *)
Definition at_least_two (columns : list Column) : option (list Column) :=
  if len columns <? 2 then None else Some columns.

Fixpoint starts_loop (starts : list N) : list Column :=
  match starts with
  | [] => []
  | start :: starts =>
      let rest := starts_loop starts in
      if cols <=? start then rest else
      let end_ := match starts with next_start :: _ => next_start - 1 | [] => cols - 1 end in
      if start <=? end_ then {| start_col := start; end_col := end_ |} :: rest else rest
  end.
Definition columns_from_starts (starts : list N) : list Column :=
  if (cols =? 0) || bool_decide (starts = []) then [] else starts_loop starts.

Fixpoint delimiter_columns (start : N) (positions : list N) : list Column :=
  match positions with
  | [] => let last_col := cols - 1 in
          if start <=? last_col then [{| start_col := start; end_col := last_col |}] else []
  | pos :: positions =>
      (if start <? pos then [{| start_col := start; end_col := pos - 1 |}] else []) ++
      delimiter_columns (sat_add u16_max pos 1) positions
  end.
Definition columns_from_delimiter_positions (positions : list N) : list Column := delimiter_columns 0 positions.
Definition delimiter_positions (row delim : N) : list N :=
  List.filter (λ col, match cell view row col with Some c => bool_decide (contents c = [delim]) | None => false end)
    (N.of_nat <$> seq 0 (N.to_nat cols)).

(** * The header *)

(** From a separator row upwards to the first row with data. *)
Fixpoint header_above (m : TableModel) (fuel : nat) (candidate : N) : option N :=
  if negb (is_skippable_row m candidate) then Some candidate else
  if candidate =? top m then None else
  match fuel with O => None | S fuel => header_above m fuel (candidate - 1) end.
Definition detect_header_row (top bottom : N) (columns : list Column) (delimiter : option N) : option N :=
  if bottom <=? top then None else
  let m := {| top := top; bottom := bottom; columns := columns; header_row := None; delimiter := delimiter |} in
  match head (omap (λ row, if is_separator_row row && (top <? row) then header_above m (N.to_nat row) (row - 1) else None)
                (range_incl top bottom)) with
  | Some row => Some row
  | None => find_row (λ row, negb (is_skippable_row m row) && row_has_letters row) top bottom
  end.

(** * Tables with delimiters *)

Definition row_is_pipe_table_row (row : N) : bool :=
  negb (row_is_blank row) && (is_separator_row row || bool_decide (PIPE ∈ line row)).
Definition row_looks_like_pipe_header (row : N) : bool :=
  let trimmed := trim_chars (line row) in
  if bool_decide (trimmed = []) || is_separator_row row then false else
  if count_char PIPE trimmed <? 1 then false else
  match pipe_cell_layout trimmed with
  | None => false
  | Some (leading, cell_count) =>
      2 <=? len (take 2 (List.filter (λ c, negb (bool_decide (trim_chars c = [])))
                   (take (N.to_nat cell_count) (drop (N.to_nat leading) (split_chars PIPE trimmed)))))
  end.
Definition nearest_pipe_row (row : N) : option N :=
  if rows =? 0 then None else
  if row_is_pipe_table_row row then Some row else nearest_row row_is_pipe_table_row rows row 6.
Definition find_pipe_header_row_in_bounds (top bottom : N) : option N := find_row row_looks_like_pipe_header top bottom.
Definition detect_pipe_columns (top bottom header_row : N) : option (list Column) :=
  let positions := delimiter_positions header_row PIPE in
  if bool_decide (positions = []) then None
  else at_least_two (retain_columns top bottom (columns_from_delimiter_positions positions)).

Definition detect_pipe_table (row : N) : option TableModel :=
  anchor ← nearest_pipe_row row;
  let top := N.of_nat (extend_up row_is_pipe_table_row (N.to_nat anchor)) in
  let bottom := extend_down row_is_pipe_table_row rows (N.to_nat rows) anchor in
  header_row ← find_pipe_header_row_in_bounds top bottom;
  columns ← detect_pipe_columns top bottom header_row;
  columns ← at_least_two columns;
  let header_row := match detect_header_row top bottom columns (Some PIPE) with Some row => Some row | None => Some header_row end in
  Some {| top := top; bottom := bottom; columns := columns; header_row := header_row; delimiter := Some PIPE |}.

(** * Tables of fixed width *)

Definition row_is_fixed_width_candidate (row : N) : bool :=
  if row_is_blank row then false
  else is_separator_row row || row_has_fixed_width_columns row || row_is_fixed_width_continuation row.
Definition row_is_manual_table_row (row : N) : bool :=
  if row_is_blank row then false
  else is_separator_row row || row_has_fixed_width_columns row || row_is_fixed_width_continuation row ||
       bool_decide (PIPE ∈ line row).
Definition nearest_fixed_width_candidate (row : N) : option N :=
  if rows =? 0 then None else nearest_row row_is_fixed_width_candidate rows row 2.

Definition blank_count_at_cut (structural_rows : list N) (cut : N) : N :=
  len (List.filter (λ row, negb (cell_has_text row cut)) structural_rows).
Definition better_cut (structural_rows : list N) (best : option (N * N)) (cut : N) : option (N * N) :=
  let blank_rows := blank_count_at_cut structural_rows cut in
  if blank_rows * 3 <? len structural_rows * 2 then best else
  match best with
  | None => Some (blank_rows, cut)
  | Some (best_blank_rows, best_cut) =>
      if (best_blank_rows <? blank_rows) || ((blank_rows =? best_blank_rows) && (best_cut <? cut))
      then Some (blank_rows, cut) else best
  end.
Definition supported_cut_in_gap (structural_rows : list N) (first final : N) : option N :=
  snd <$> fold_left (better_cut structural_rows) (range_incl first final) None.

Record CutState := { cuts : list N; seen_text : bool; gap_start : option N }.
Definition cut_step (structural_rows : list N) (header_row : N) (st : CutState) (col : N) : CutState :=
  let has_text := cell_has_text header_row col in
  match gap_start st, has_text with
  | Some first, true =>
      let cuts := match supported_cut_in_gap structural_rows first (col - 1) with
                  | Some cut => cuts st ++ [cut]
                  | None => cuts st
                  end in
      {| cuts := cuts; seen_text := true; gap_start := None |}
  | None, false => if seen_text st then st <| gap_start := Some col |> else st
  | None, true => st <| seen_text := true |>
  | Some _, false => st
  end.
Definition supported_header_cuts (structural_rows : list N) (header_row : N) : list N :=
  cuts (fold_left (cut_step structural_rows header_row) (N.of_nat <$> seq 0 (N.to_nat cols))
    {| cuts := []; seen_text := false; gap_start := None |}).
Definition choose_fixed_width_header_row (structural_rows : list N) : option N :=
  head (List.filter (λ row, negb (is_separator_row row || negb (row_has_letters row)) &&
                            (2 <=? len (supported_header_cuts structural_rows row))) structural_rows).

(** [sort_unstable] and [dedup] on numbers. *)
Fixpoint insert_sorted (x : N) (l : list N) : list N :=
  match l with [] => [x] | y :: l' => if x <=? y then x :: l else y :: insert_sorted x l' end.
Definition sort (l : list N) : list N := foldr insert_sorted [] l.
Fixpoint dedup (l : list N) : list N :=
  match l with
  | x :: l' => match l' with y :: _ => if x =? y then dedup l' else x :: dedup l' | [] => [x] end
  | [] => []
  end.

Definition detect_fixed_width_columns_from_header (top bottom : N) (structural_rows : list N) (header_row : N)
  : option (list Column) :=
  if cols =? 0 then None else
  let cuts := supported_header_cuts structural_rows header_row in
  if bool_decide (cuts = []) then None
  else at_least_two (retain_columns top bottom (columns_from_starts (dedup (sort (0 :: cuts))))).

(** The loop over the columns: [run_end] of the blank run at [col], the column
    that has started, the columns that are done. *)
Fixpoint blank_run (mostly_blank : N → bool) (fuel : nat) (col : N) : N :=
  match fuel with
  | O => col
  | S fuel => if (col + 1 <? cols) && mostly_blank (col + 1) then blank_run mostly_blank fuel (col + 1) else col
  end.
Fixpoint blanks_loop (mostly_blank : N → bool) (min_gap_run : N) (header_row : option N) (fuel : nat)
    (col : N) (start : option N) (columns : list Column) : list Column :=
  match fuel with
  | O => columns
  | S fuel =>
      if cols <=? col then
        match start with Some s => columns ++ [{| start_col := s; end_col := cols - 1 |}] | None => columns end
      else if mostly_blank col then
        let run_end := blank_run mostly_blank (N.to_nat cols) col in
        let run_len := run_end - col + 1 in
        let header_blank := match header_row with Some row => row_range_is_blank row col run_end | None => true end in
        if (min_gap_run <=? run_len) && header_blank then
          let columns := match start with
                         | Some s => columns ++ [{| start_col := s; end_col := col - 1 |}]
                         | None => columns
                         end in
          blanks_loop mostly_blank min_gap_run header_row fuel (run_end + 1) None columns
        else
          let start := match start with Some s => Some s | None => Some col end in
          blanks_loop mostly_blank min_gap_run header_row fuel (run_end + 1) start columns
      else
        let start := match start with Some s => Some s | None => Some col end in
        blanks_loop mostly_blank min_gap_run header_row fuel (col + 1) start columns
  end.
Definition detect_fixed_width_columns_from_blanks (top bottom : N) (structural_rows : list N) (header_row : option N)
  : option (list Column) :=
  if (cols =? 0) || bool_decide (structural_rows = []) then None else
  let row_count := len structural_rows in
  let blank_threshold := if row_count <=? 2 then row_count else (row_count * 2 + 2) / 3 in
  let min_gap_run := if row_count <=? 4 then 1 else 2 in
  let mostly_blank col := blank_threshold <=? blank_count_at_cut structural_rows col in
  at_least_two (retain_columns top bottom
    (blanks_loop mostly_blank min_gap_run header_row (S (N.to_nat cols)) 0 None [])).
Definition detect_fixed_width_columns (top bottom : N) (structural_rows : list N) (header_row : option N)
  : option (list Column) :=
  match (h ← header_row; detect_fixed_width_columns_from_header top bottom structural_rows h) with
  | Some columns => Some columns
  | None => detect_fixed_width_columns_from_blanks top bottom structural_rows header_row
  end.

Definition detect_fixed_width_table (row : N) : option TableModel :=
  if (rows =? 0) || (cols =? 0) then None else
  anchor ← (if row_is_fixed_width_candidate row then Some row else nearest_fixed_width_candidate row);
  let top := N.of_nat (extend_up row_is_fixed_width_candidate (N.to_nat anchor)) in
  let bottom := extend_down row_is_fixed_width_candidate rows (N.to_nat rows) anchor in
  let structural_rows :=
    List.filter (λ r, negb (is_separator_row r) && row_has_fixed_width_columns r) (range_incl top bottom) in
  if len structural_rows <? 2 then None else
  let header_hint :=
    match choose_fixed_width_header_row structural_rows with
    | Some r => Some r
    | None => find_row (λ r, negb (is_separator_row r) && row_has_letters r) top bottom
    end in
  columns ← detect_fixed_width_columns top bottom structural_rows header_hint;
  columns ← at_least_two (retain_columns top bottom columns);
  let header_row := detect_header_row top bottom columns None in
  Some {| top := top; bottom := bottom; columns := columns; header_row := header_row; delimiter := None |}.

Definition detect (row : N) : option TableModel :=
  match detect_pipe_table row with Some m => Some m | None => detect_fixed_width_table row end.

Definition detect_manual_from_header (header_row : N) (tabstops : list N) : option TableModel :=
  if (rows =? 0) || (cols =? 0) || (rows <=? header_row) then None else
  let starts := dedup (sort (0 :: List.filter (λ stop, (0 <? stop) && (stop <? cols)) tabstops)) in
  columns ← at_least_two (columns_from_starts starts);
  let top := N.of_nat (extend_up row_is_manual_table_row (N.to_nat header_row)) in
  let bottom := extend_down row_is_manual_table_row rows (N.to_nat rows) header_row in
  columns ← at_least_two (retain_columns top bottom columns);
  Some {| top := top; bottom := bottom; columns := columns; header_row := Some header_row; delimiter := None |}.
End Surface.

(** * Bounds *)

Lemma elem_of_range first final x : x ∈ range_incl first final ↔ first ≤ x ≤ final.
Proof.
  unfold range_incl. rewrite list_elem_of_fmap. split.
  - intros (y & -> & Hy%elem_of_seq). lia.
  - intros H. exists (N.to_nat x). split; [lia|]. apply elem_of_seq. lia.
Qed.
Lemma head_omap {A B} (f : A → option B) l y : head (omap f l) = Some y → ∃ x, x ∈ l ∧ f x = Some y.
Proof.
  intros H. rewrite head_lookup in H. apply list_elem_of_lookup_2, list_elem_of_omap in H. exact H.
Qed.
Lemma find_row_Some p first final x : find_row p first final = Some x → first ≤ x ≤ final ∧ p x = true.
Proof.
  unfold find_row. intros H. rewrite head_lookup in H.
  apply list_elem_of_lookup_2, elem_of_Filter in H as [H%elem_of_range Hp]. done.
Qed.
Lemma extend_up_le p t : (extend_up p t ≤ t)%nat.
Proof. induction t as [|t IH]; cbn; [done|]. destruct (p _); lia. Qed.
Lemma extend_down_bounds p rows fuel b :
  b < rows → b ≤ extend_down p rows fuel b < rows.
Proof.
  revert b. induction fuel as [|fuel IH]; intros b Hb; cbn [extend_down]; [lia|].
  destruct (N.ltb_spec (b + 1) rows); cbn [andb]; [|lia]. destruct (p (b + 1)); [|lia].
  specialize (IH (b + 1)). lia.
Qed.
Lemma nearest_row_bounds p rows row reach x :
  row < rows → nearest_row p rows row reach = Some x → x < rows ∧ p x = true.
Proof.
  intros Hr (o & _ & Ho)%head_omap. unfold row_near in Ho.
  destruct (N.leb_spec o row); cbn [andb] in Ho.
  - destruct (p (row - o)) eqn:E; [injection Ho as <-; split; [lia|done]|].
    destruct (N.ltb_spec (row + o) rows); cbn [andb] in Ho; [|done].
    destruct (p (row + o)) eqn:E'; [|done]. injection Ho as <-. by split; [lia|].
  - destruct (N.ltb_spec (row + o) rows); cbn [andb] in Ho; [|done].
    destruct (p (row + o)) eqn:E'; [|done]. injection Ho as <-. by split; [lia|].
Qed.
Lemma at_least_two_Some l l' : at_least_two l = Some l' → l' = l ∧ 2 ≤ len l.
Proof. unfold at_least_two. destruct (N.ltb_spec (len l) 2); [done|]. by intros [= <-]. Qed.

(** ** Columns in order, apart and on the screen *)

Definition columns_ok (cols : N) (l : list Column) : Prop :=
  StronglySorted (λ a b, end_col a < start_col b) l ∧ Forall (λ c, start_col c ≤ end_col c < cols) l.

Lemma columns_ok_cons cols c l :
  columns_ok cols (c :: l) ↔
    start_col c ≤ end_col c < cols ∧ Forall (λ d, end_col c < start_col d) l ∧ columns_ok cols l.
Proof.
  unfold columns_ok. split.
  - intros [Hs Hf]. apply Forall_cons in Hf as [H1 H2]. inversion_clear Hs. done.
  - intros (H1 & H2 & H3 & H4). split; [by constructor|by constructor].
Qed.
Lemma columns_ok_nil cols : columns_ok cols [].
Proof. split; constructor. Qed.
Lemma columns_ok_filter cols f l : columns_ok cols l → columns_ok cols (List.filter f l).
Proof.
  induction l as [|c l IH]; [done|]. intros (H1 & H2 & H3)%columns_ok_cons. cbn. destruct (f c); [|by apply IH].
  apply columns_ok_cons. split; [done|]. split; [|by apply IH].
  apply Forall_forall. intros d [Hd _]%elem_of_Filter. by eapply Forall_forall in H2.
Qed.
Lemma columns_ok_snoc cols l c :
  columns_ok cols (l ++ [c]) ↔
    columns_ok cols l ∧ Forall (λ d, end_col d < start_col c) l ∧ start_col c ≤ end_col c < cols.
Proof.
  induction l as [|d l IH]; cbn [app].
  - rewrite columns_ok_cons. pose proof (columns_ok_nil cols). rewrite !Forall_nil. tauto.
  - rewrite !columns_ok_cons, IH, Forall_cons, Forall_app, Forall_singleton. tauto.
Qed.

Section Detection.
Context (is_alphabetic : N → bool) (view : TerminalSnapshot).
Abbreviation rows := (size view).1.
Abbreviation cols := (size view).2.

Lemma starts_loop_ok starts :
  StronglySorted N.lt starts → Forall (λ s, s < cols) starts →
  columns_ok cols (starts_loop view starts) ∧
  Forall (λ c, ∀ s, head starts = Some s → s ≤ start_col c) (starts_loop view starts).
Proof.
  induction starts as [|s starts IH]; intros Hs Hf; cbn [starts_loop].
  { split; [apply columns_ok_nil|constructor]. }
  inversion_clear Hs as [|? ? Hs' Hlt]. apply Forall_cons in Hf as [Hs Hf].
  destruct (IH Hs' Hf) as [Hok Hhead]. clear IH.
  rewrite (proj2 (N.leb_gt cols s)) by done.
  assert (Forall (λ c, s < start_col c) (starts_loop view starts)) as Hlater.
  { destruct starts as [|s' starts']; [constructor|]. eapply Forall_impl; [exact Hhead|]. cbn. intros c Hc.
    specialize (Hc s' eq_refl). apply Forall_cons in Hlt as [Hlt _]. lia. }
  assert (Forall (λ c, ∀ s0, Some s = Some s0 → s0 ≤ start_col c) (starts_loop view starts)) as Hafter.
  { eapply Forall_impl; [exact Hlater|]. cbn. intros c Hc s0 [= <-]. lia. }
  destruct starts as [|s' starts'].
  - rewrite (proj2 (N.leb_le s (cols - 1))) by lia. split.
    + apply columns_ok_cons. cbn [start_col end_col]. split_and!; [lia|lia|constructor|apply columns_ok_nil].
    + repeat constructor. cbn [start_col head]. intros s0 [= <-]. lia.
  - apply Forall_cons in Hlt as [Hlt _]. apply Forall_cons in Hf as [Hs2 _].
    rewrite (proj2 (N.leb_le s (s' - 1))) by lia. split.
    + apply columns_ok_cons. cbn [start_col end_col]. split_and!; [lia|lia| |exact Hok].
      eapply Forall_impl; [exact Hhead|]. intros c Hc. specialize (Hc s' eq_refl). lia.
    + constructor; [|exact Hafter]. cbn. intros s0 [= <-]. lia.
Qed.
Lemma columns_from_starts_ok starts :
  StronglySorted N.lt starts → Forall (λ s, s < cols) starts → columns_ok cols (columns_from_starts view starts).
Proof.
  intros Hs Hf. unfold columns_from_starts. destruct (_ || _); [apply columns_ok_nil|]. by apply starts_loop_ok.
Qed.

Lemma delimiter_columns_ok positions start :
  cols ≤ u16_max → StronglySorted N.lt positions → Forall (λ p, start ≤ p + 1 ∧ p < cols) positions → 0 < cols →
  columns_ok cols (delimiter_columns view start positions) ∧
  Forall (λ c, start ≤ start_col c) (delimiter_columns view start positions).
Proof.
  intros Hcols Hs. revert start. induction Hs as [|p positions Hs IH Hp]; intros start Hf Hpos; cbn [delimiter_columns].
  { destruct (N.leb_spec start (cols - 1)); [|split; [apply columns_ok_nil|constructor]]. split.
    - apply columns_ok_cons. cbn [start_col end_col]. split_and!; [lia|lia|constructor|apply columns_ok_nil].
    - repeat constructor. cbn [start_col head]. lia. }
  apply Forall_cons in Hf as [[H1 H2] Hf].
  assert (sat_add u16_max p 1 = p + 1) as -> by (unfold sat_add; lia).
  destruct (IH (p + 1)) as [Hok Hge]; [|done|].
  { apply Forall_forall. intros x Hx. eapply Forall_forall in Hp; [|exact Hx].
    eapply Forall_forall in Hf; [|exact Hx]. cbn in *. lia. }
  assert (Forall (λ c, start ≤ start_col c) (delimiter_columns view (p + 1) positions)) as Hge'.
  { eapply Forall_impl; [exact Hge|]. cbn. intros c Hc. lia. }
  destruct (N.ltb_spec start p); cbn [app]; [|done]. split.
  - apply columns_ok_cons. cbn [start_col end_col]. split_and!; [lia|lia| |done].
    eapply Forall_impl; [exact Hge|]. cbn. intros c Hc. lia.
  - constructor; [cbn [start_col]; lia|done].
Qed.

Lemma seq_sorted k n : StronglySorted N.lt (N.of_nat <$> seq k n).
Proof.
  revert k. induction n as [|n IH]; intros k; cbn; [constructor|]. constructor; [apply IH|].
  apply Forall_fmap, Forall_forall. intros x Hx%elem_of_seq. cbn. lia.
Qed.
Lemma filter_sorted (f : N → bool) l : StronglySorted N.lt l → StronglySorted N.lt (List.filter f l).
Proof.
  induction 1 as [|x l Hs IH Hx]; cbn; [constructor|]. destruct (f x); [|done]. constructor; [done|].
  apply Forall_forall. intros y [Hy _]%elem_of_Filter. by eapply Forall_forall in Hx.
Qed.
Lemma columns_from_delimiters_ok row delim :
  cols ≤ u16_max → 0 < cols →
  columns_ok cols (columns_from_delimiter_positions view (delimiter_positions view row delim)).
Proof.
  intros Hcols Hpos. apply delimiter_columns_ok; [done| | |done].
  - apply filter_sorted, seq_sorted.
  - apply Forall_forall. intros p [(i & -> & Hi%elem_of_seq)%list_elem_of_fmap _]%elem_of_Filter. lia.
Qed.

Lemma insert_sorted_perm x l : insert_sorted x l ≡ₚ x :: l.
Proof.
  induction l as [|y l IH]; cbn; [done|]. destruct (x <=? y); [done|]. rewrite IH. apply Permutation_swap.
Qed.
Lemma sort_perm l : sort l ≡ₚ l.
Proof. induction l as [|x l IH]; cbn; [done|]. by rewrite insert_sorted_perm, IH. Qed.
Lemma insert_sorted_sorted x l : StronglySorted N.le l → StronglySorted N.le (insert_sorted x l).
Proof.
  induction 1 as [|y l Hs IH Hy]; cbn; [by repeat constructor|]. destruct (N.leb_spec x y).
  - constructor; [by constructor|]. constructor; [done|]. eapply Forall_impl; [exact Hy|]. cbn. lia.
  - constructor; [done|]. rewrite insert_sorted_perm. constructor; [lia|done].
Qed.
Lemma sort_sorted l : StronglySorted N.le (sort l).
Proof. induction l as [|x l IH]; cbn; [constructor|]. by apply insert_sorted_sorted. Qed.
Lemma dedup_elem l x : x ∈ dedup l ↔ x ∈ l.
Proof.
  induction l as [|y l IH]; cbn; [done|]. destruct l as [|z l]; [done|]. destruct (N.eqb_spec y z) as [->|].
  - rewrite IH, !elem_of_cons. tauto.
  - rewrite !(elem_of_cons _ x y), IH. done.
Qed.
Lemma dedup_sorted l : StronglySorted N.le l → StronglySorted N.lt (dedup l).
Proof.
  induction 1 as [|y l Hs IH Hy]; cbn; [constructor|]. destruct l as [|z l]; [by repeat constructor|].
  destruct (N.eqb_spec y z) as [|Hne]; [done|]. constructor; [done|]. apply Forall_forall. intros x Hx. rewrite dedup_elem in Hx.
  inversion_clear Hs as [|? ? _ Hz]. apply Forall_cons in Hy as [Hyz _].
  apply elem_of_cons in Hx as [->|Hx]; [lia|]. eapply Forall_forall in Hz; [|exact Hx]. cbn in Hz. lia.
Qed.
Lemma sorted_starts_ok l :
  Forall (λ s, s < cols) l → columns_ok cols (columns_from_starts view (dedup (sort l))).
Proof.
  intros Hl. apply columns_from_starts_ok; [apply dedup_sorted, sort_sorted|].
  apply Forall_forall. intros x Hx. rewrite dedup_elem, sort_perm in Hx. by eapply Forall_forall in Hl.
Qed.

Lemma better_cut_in structural l best b c :
  fold_left (better_cut view structural) l best = Some (b, c) → c ∈ l ∨ ∃ b', best = Some (b', c).
Proof.
  revert best. induction l as [|x l IH]; intros best; cbn [fold_left]; [intros ->; by right; exists b|].
  intros [Hc|[b' Hb]]%IH; [left; by apply elem_of_cons; right|]. unfold better_cut in Hb.
  destruct (_ <? _); [right; by exists b'|]. destruct best as [[b0 c0]|].
  - destruct (_ || _); [injection Hb as _ ->; left; apply elem_of_cons; by left|right; by exists b'].
  - injection Hb as _ ->. left. apply elem_of_cons. by left.
Qed.
Lemma supported_cut_in structural first final c :
  supported_cut_in_gap view structural first final = Some c → first ≤ c ≤ final.
Proof.
  unfold supported_cut_in_gap. intros ([b c'] & H & ->)%fmap_Some. apply better_cut_in in H as [H|[b' H]]; [|done].
  by apply elem_of_range in H.
Qed.
Lemma header_cuts_on_screen structural header :
  Forall (λ c, c < cols) (supported_header_cuts view structural header).
Proof.
  unfold supported_header_cuts.
  assert (∀ l st, Forall (λ c, c < cols) l → Forall (λ c, c < cols) (cuts st) →
    Forall (λ c, c < cols) (cuts (fold_left (cut_step view structural header) l st))) as H.
  { induction l as [|c l IH]; intros st Hl Hst; cbn [fold_left]; [done|].
    apply Forall_cons in Hl as [Hc Hl]. apply IH; [done|]. unfold cut_step.
    destruct (gap_start st) as [first|], (cell_has_text view header c); cbn [cuts]; [|done| |].
    - destruct (supported_cut_in_gap _ _ _ _) as [cut|] eqn:E; [|done]. apply supported_cut_in in E.
      apply Forall_app. split; [done|]. repeat constructor. lia.
    - exact Hst.
    - destruct (seen_text st); exact Hst. }
  apply H; [|constructor]. apply Forall_fmap, Forall_forall. intros x Hx%elem_of_seq. change (N.of_nat x < cols). lia.
Qed.

Lemma blank_run_ge mostly fuel col : col ≤ blank_run view mostly fuel col.
Proof.
  revert col. induction fuel as [|fuel IH]; intros col; cbn [blank_run]; [done|]. destruct (_ && _); [|done].
  specialize (IH (col + 1)). lia.
Qed.

(** What the loop knows before it looks at [col]. *)
Definition blanks_inv (col : N) (start : option N) (columns : list Column) : Prop :=
  columns_ok cols columns ∧
  Forall (λ c, end_col c < match start with Some s => s | None => col end) columns ∧
  match start with Some s => s < col ∧ s < cols | None => True end.

Lemma blanks_inv_advance col col' start columns :
  blanks_inv col start columns → col < cols → col < col' →
  blanks_inv col' (Some (match start with Some s => s | None => col end)) columns.
Proof.
  intros (H1 & H2 & H3) Hcol Hlt. split; [exact H1|]. split; [destruct start; exact H2|]. destruct start; lia.
Qed.
Lemma blanks_loop_ok mostly gap header fuel col start columns :
  blanks_inv col start columns → columns_ok cols (blanks_loop view mostly gap header fuel col start columns).
Proof.
  revert col start columns. induction fuel as [|fuel IH]; intros col start columns Hinv; cbn [blanks_loop]; [apply Hinv|].
  destruct (N.leb_spec cols col) as [Hge|Hlt].
  { destruct start as [s|]; [|apply Hinv]. destruct Hinv as (H1 & H2 & H3).
    apply columns_ok_snoc. cbn [start_col end_col]. split; [exact H1|]. split; [exact H2|lia]. }
  destruct (mostly col); [|].
  - pose proof (blank_run_ge mostly (N.to_nat cols) col) as Hrun.
    set (run_end := blank_run view mostly (N.to_nat cols) col) in *. destruct (_ && _).
    + apply IH. split; [|split; [|done]].
      * destruct start as [s|]; [|apply Hinv]. destruct Hinv as (H1 & H2 & H3).
        apply columns_ok_snoc. cbn [start_col end_col]. split; [exact H1|]. split; [exact H2|lia].
      * destruct Hinv as (H1 & H2 & H3).
        destruct start as [s|]; [apply Forall_app; split; [|by repeat constructor; cbn [end_col]; lia]|];
          (eapply Forall_impl; [exact H2|]); intros c Hc; cbv beta in *; lia.
    + apply IH. assert (col < run_end + 1) as Hcol by lia.
      pose proof (blanks_inv_advance col (run_end + 1) start columns Hinv Hlt Hcol) as H. by destruct start.
  - apply IH. assert (col < col + 1) as Hcol by lia.
    pose proof (blanks_inv_advance col (col + 1) start columns Hinv Hlt Hcol) as H. by destruct start.
Qed.

Lemma fixed_width_columns_ok top bottom structural header l :
  detect_fixed_width_columns view top bottom structural header = Some l → columns_ok cols l.
Proof.
  unfold detect_fixed_width_columns. destruct (h ← header; _) as [l'|] eqn:E.
  - intros [= ->]. destruct header as [h|]; [|done]. cbn [mbind option_bind] in E.
    unfold detect_fixed_width_columns_from_header in E. destruct (N.eqb_spec cols 0) as [|Hne]; [done|].
    case_bool_decide; [done|]. apply at_least_two_Some in E as [-> _]. apply columns_ok_filter, sorted_starts_ok.
    constructor; [lia|]. apply header_cuts_on_screen.
  - unfold detect_fixed_width_columns_from_blanks. destruct (_ || _); [done|].
    intros [-> _]%at_least_two_Some. apply columns_ok_filter, blanks_loop_ok.
    split; [apply columns_ok_nil|]. by split; [constructor|].
Qed.

(** ** Detected tables *)

Record model_ok (m : TableModel) : Prop := {
  rows_in_order : top m ≤ bottom m < rows;
  columns_in_order : columns_ok cols (columns m);
  enough_columns : 2 ≤ len (columns m);
  header_inside : ∀ h, header_row m = Some h → top m ≤ h ≤ bottom m
}.

Lemma header_above_bounds m fuel c h :
  top m ≤ c → header_above view m fuel c = Some h → top m ≤ h ≤ c.
Proof.
  revert c. induction fuel as [|fuel IH]; intros c Hc; cbn [header_above];
    (destruct (negb _); [intros [= <-]; lia|]); destruct (N.eqb_spec c (top m)) as [|Hne]; try done.
  intros H. apply IH in H; lia.
Qed.
Lemma detect_header_bounds t b l delim h :
  detect_header_row is_alphabetic view t b l delim = Some h → t ≤ h ≤ b.
Proof.
  unfold detect_header_row. destruct (b <=? t); [done|].
  destruct (head _) as [h'|] eqn:E.
  - intros [= ->]. apply head_omap in E as (r & Hr & H). apply elem_of_range in Hr.
    destruct (is_separator_row view r); cbn [andb] in H; [|done].
    destruct (N.ltb_spec t r); [|done]. apply header_above_bounds in H; cbn [top] in *; lia.
  - by intros [? _]%find_row_Some.
Qed.

Lemma detect_pipe_table_ok row m :
  row < rows → cols ≤ u16_max → detect_pipe_table is_alphabetic view row = Some m → model_ok m.
Proof.
  intros Hrow Hcols. unfold detect_pipe_table. destruct (nearest_pipe_row view row) as [anchor|] eqn:Ha; [|done].
  cbn [mbind option_bind].
  assert (anchor < rows) as Hanchor.
  { unfold nearest_pipe_row in Ha. destruct (rows =? 0); [done|]. destruct (row_is_pipe_table_row view row).
    - by injection Ha as <-.
    - by apply nearest_row_bounds in Ha as [? _]. }
  pose proof (extend_up_le (row_is_pipe_table_row view) (N.to_nat anchor)) as Hup.
  pose proof (extend_down_bounds (row_is_pipe_table_row view) rows (N.to_nat rows) anchor Hanchor) as Hdown.
  set (t := N.of_nat (extend_up _ _)) in *. set (b := extend_down _ _ _ _) in *.
  destruct (find_pipe_header_row_in_bounds view t b) as [h|] eqn:Hh; [|done]. cbn [mbind option_bind].
  apply find_row_Some in Hh as [Hh _].
  destruct (detect_pipe_columns view t b h) as [l|] eqn:Hl; [|done]. cbn [mbind option_bind].
  destruct (at_least_two l) as [l'|] eqn:Hl'; [|done]. cbn [mbind option_bind]. intros [= <-].
  apply at_least_two_Some in Hl' as [-> Hlen]. split; cbn [top bottom columns header_row].
  - unfold t in *. lia.
  - unfold detect_pipe_columns in Hl. case_bool_decide as Hpos; [done|]. apply at_least_two_Some in Hl as [-> _].
    apply columns_ok_filter, columns_from_delimiters_ok; [done|]. destruct (N.eq_dec cols 0) as [E|]; [|lia].
    exfalso. apply Hpos. unfold delimiter_positions. by rewrite E.
  - done.
  - intros h'. destruct (detect_header_row _ _ _ _ _ _) eqn:E; intros [= <-]; [|done]. by apply detect_header_bounds in E.
Qed.

Lemma detect_fixed_width_table_ok row m :
  row < rows → detect_fixed_width_table is_alphabetic view row = Some m → model_ok m.
Proof.
  intros Hrow. unfold detect_fixed_width_table. destruct (_ || _); [done|].
  destruct (if row_is_fixed_width_candidate view row then _ else _) as [anchor|] eqn:Ha; [|done].
  cbn [mbind option_bind].
  assert (anchor < rows) as Hanchor.
  { destruct (row_is_fixed_width_candidate view row); [by injection Ha as <-|].
    unfold nearest_fixed_width_candidate in Ha. destruct (rows =? 0); [done|]. by apply nearest_row_bounds in Ha as [? _]. }
  pose proof (extend_up_le (row_is_fixed_width_candidate view) (N.to_nat anchor)) as Hup.
  pose proof (extend_down_bounds (row_is_fixed_width_candidate view) rows (N.to_nat rows) anchor Hanchor) as Hdown.
  set (t := N.of_nat (extend_up _ _)) in *. set (b := extend_down _ _ _ _) in *.
  destruct (_ <? 2); [done|]. 
  destruct (detect_fixed_width_columns _ _ _ _ _) as [l|] eqn:Hl; [|done]. cbn [mbind option_bind].
  destruct (at_least_two _) as [l'|] eqn:Hl'; [|done]. cbn [mbind option_bind]. intros [= <-].
  apply at_least_two_Some in Hl' as [-> Hlen]. split; cbn [top bottom columns header_row].
  - unfold t in *. lia.
  - apply fixed_width_columns_ok in Hl. by apply columns_ok_filter.
  - done.
  - intros h'. by apply detect_header_bounds.
Qed.

Lemma detect_manual_ok header stops m :
  detect_manual_from_header view header stops = Some m → model_ok m.
Proof.
  unfold detect_manual_from_header. destruct (N.eqb_spec rows 0) as [|Hr]; [done|].
  destruct (N.eqb_spec cols 0) as [|Hc]; [done|]. destruct (N.leb_spec rows header) as [|Hh]; [done|]. cbn [orb].
  destruct (at_least_two (columns_from_starts _ _)) as [l|] eqn:Hl; [|done]. cbn [mbind option_bind].
  pose proof (extend_up_le (row_is_manual_table_row view) (N.to_nat header)) as Hup.
  pose proof (extend_down_bounds (row_is_manual_table_row view) rows (N.to_nat rows) header Hh) as Hdown.
  set (t := N.of_nat (extend_up _ _)) in *. set (b := extend_down _ _ _ _) in *.
  destruct (at_least_two (retain_columns _ _ _ _)) as [l'|] eqn:Hl'; [|done]. cbn [mbind option_bind]. intros [= <-].
  apply at_least_two_Some in Hl as [-> _]. apply at_least_two_Some in Hl' as [-> Hlen].
  split; cbn [top bottom columns header_row].
  - unfold t in *. lia.
  - apply columns_ok_filter, sorted_starts_ok. constructor; [lia|]. apply Forall_forall.
    intros s [_ [_ Hs%N.ltb_lt]%andb_true_iff]%elem_of_Filter. done.
  - done.
  - intros h [= <-]. unfold t in *. lia.
Qed.
End Detection.

Lemma nearest_matching_column_lt n p f : 0 < n → nearest_matching_column n p f < n.
Proof.
  intros Hn. unfold nearest_matching_column. rewrite (proj2 (N.eqb_neq n 0)) by lia.
  destruct (f _); [lia|]. destruct (head _) as [x|] eqn:E; cbn [default id]; [|lia].
  apply head_omap in E as (o & _ & H). cbv zeta in H.
  destruct (_ && _); [injection H as <-; lia|].
  destruct (N.ltb_spec (N.min p (n - 1) + N.of_nat o) n) as [Hlt|]; cbn [andb] in H; [|done].
  destruct (f _); [injection H as <-; exact Hlt|done].
Qed.
Lemma cols_fit view : (size view).2 ≤ u16_max.
Proof. unfold size. cbn [snd]. destruct (head _); [apply N.le_min_l|done]. Qed.

Lemma detect_ok is_alphabetic view row m :
  row < (size view).1 → detect is_alphabetic view row = Some m → model_ok view m.
Proof.
  intros Hrow Hm. unfold detect in Hm.
  destruct (detect_pipe_table is_alphabetic view row) as [m'|] eqn:E; [injection Hm as ->|].
  - eapply detect_pipe_table_ok; [done|apply cols_fit|done].
  - by eapply detect_fixed_width_table_ok.
Qed.

(** C29. A table that is found, from a row of the screen or from tabstops, lies on
    the screen; its columns are in order, apart from each other and on the
    screen; its header is one of its rows.  It has two columns or more, so that
    the column table mode starts in always exists ([expect] in
    [enter_mode_with_model]). *)
Theorem detected_tables_are_well_formed is_alphabetic view row header stops m :
  row < (size view).1 →
  detect is_alphabetic view row = Some m ∨ detect_manual_from_header view header stops = Some m →
  model_ok view m ∧
  ∀ r preferred, is_Some (current_column {| table_model := m; current_col := nearest_non_empty_col view m r preferred |}).
Proof.
  intros Hrow Hm. assert (model_ok view m) as Hok.
  { destruct Hm as [Hm|Hm]; [by eapply detect_ok|by eapply detect_manual_ok]. }
  split; [done|]. intros r p. unfold current_column. cbn [table_model current_col]. apply lookup_lt_is_Some_2.
  pose proof (enough_columns view m Hok) as Hlen.
  pose proof (nearest_matching_column_lt (column_count m) p (λ col,
    if bool_decide (delimiter m = Some PIPE) then
      match pipe_delimited_cell_text (line view r) col with
      | Some text => negb (bool_decide (text = []))
      | None => false
      end
    else negb (bool_decide (table_cell_text view m r col = [])))) as H.
  unfold nearest_non_empty_col. unfold column_count in *. lia.
Qed.

(** * Rows with data *)

Section Rows.
Context (view : TerminalSnapshot) (m : TableModel).
Abbreviation data r := (negb (is_skippable_row view m r)).

Lemma range_cons first final : first ≤ final → range_incl first final = first :: range_incl (first + 1) final.
Proof.
  intros H. unfold range_incl. replace (N.to_nat (final + 1 - first)) with (S (N.to_nat (final + 1 - (first + 1)))) by lia.
  cbn [seq fmap list_fmap]. f_equal; [lia|]. by replace (N.to_nat (first + 1)) with (S (N.to_nat first)) by lia.
Qed.
Lemma range_snoc first final : first ≤ final → range_incl first final = (if final =? 0 then [] else range_incl first (final - 1)) ++ [final].
Proof.
  intros H. unfold range_incl. replace (N.to_nat (final + 1 - first)) with (S (N.to_nat (final - first))) by lia.
  rewrite seq_S, fmap_app. cbn. destruct (N.eqb_spec final 0) as [->|Hne].
  - replace first with 0 by lia. done.
  - replace (final - 1 + 1 - first) with (final - first) by lia. do 2 f_equal. lia.
Qed.
Lemma range_nil first final : final < first → range_incl first final = [].
Proof. intros H. unfold range_incl. by replace (N.to_nat (final + 1 - first)) with 0%nat by lia. Qed.

Lemma next_data_row_spec row : next_data_row view m row = find_row (λ r, data r) (row + 1) (bottom m).
Proof.
  unfold next_data_row, find_row. destruct (N.leb_spec (bottom m) row) as [Hle|Hlt].
  { rewrite range_nil by lia. done. }
  assert (∀ fuel c, (N.to_nat (bottom m) - N.to_nat c ≤ fuel)%nat → c ≤ bottom m →
    next_loop view m fuel c = head (List.filter (λ r, data r) (range_incl c (bottom m)))) as Hloop; [|apply Hloop; lia].
  induction fuel as [|fuel IH]; intros c Hf Hc; rewrite range_cons by done; cbn [next_loop List.filter];
    (destruct (is_skippable_row view m c); cbn [negb]; [|done]).
  - rewrite (proj2 (N.leb_le (bottom m) c)), range_nil by lia. done.
  - destruct (N.leb_spec (bottom m) c); [by rewrite range_nil by lia|]. apply IH; lia.
Qed.
Lemma prev_data_row_spec row :
  prev_data_row view m row = if row <=? top m then None else last (List.filter (λ r, data r) (range_incl (top m) (row - 1))).
Proof.
  unfold prev_data_row. destruct (N.leb_spec row (top m)) as [Hle|Hlt]; [done|].
  assert (∀ fuel c, (N.to_nat c - N.to_nat (top m) ≤ fuel)%nat → top m ≤ c →
    prev_loop view m fuel c = last (List.filter (λ r, data r) (range_incl (top m) c))) as Hloop; [|apply Hloop; lia].
  induction fuel as [|fuel IH]; intros c Hf Hc; rewrite range_snoc, List.filter_app by done; cbn [prev_loop List.filter];
    (destruct (is_skippable_row view m c); cbn [negb]; [rewrite app_nil_r|by rewrite last_snoc]).
  - replace (top m) with c by lia. rewrite N.eqb_refl. destruct (N.eqb_spec c 0); [done|].
    by rewrite range_nil by lia.
  - destruct (N.eqb_spec c (top m)) as [->|Hne].
    + destruct (N.eqb_spec (top m) 0); [done|]. by rewrite range_nil by lia.
    + rewrite (proj2 (N.eqb_neq c 0)) by lia. apply IH; lia.
Qed.

Lemma find_row_least p first final x :
  find_row p first final = Some x ↔ first ≤ x ≤ final ∧ p x = true ∧ ∀ y, first ≤ y < x → p y = false.
Proof.
  unfold find_row. assert (∀ n f, N.to_nat (final + 1 - f) = n →
    head (List.filter p (range_incl f final)) = Some x ↔ f ≤ x ≤ final ∧ p x = true ∧ ∀ y, f ≤ y < x → p y = false) as H; [|by eapply H].
  induction n as [|n IH]; intros f Hn.
  { rewrite range_nil by lia. split; [done|lia]. }
  rewrite range_cons by lia. cbn [List.filter]. destruct (p f) eqn:E.
  - split; [intros [= <-]; split_and!; [lia|lia|done|lia]|]. intros (H1 & H2 & H3).
    destruct (N.eq_dec x f) as [->|Hne]; [done|]. specialize (H3 f ltac:(lia)). congruence.
  - rewrite IH by lia. split; intros (H1 & H2 & H3).
    + split_and!; [lia|lia|done|]. intros y Hy. destruct (N.eq_dec y f) as [->|]; [done|]. apply H3. lia.
    + destruct (N.eq_dec x f) as [->|]; [congruence|]. split_and!; [lia|lia|done|]. intros y Hy. apply H3. lia.
Qed.
Lemma last_row_greatest p first final x :
  last (List.filter p (range_incl first final)) = Some x ↔ first ≤ x ≤ final ∧ p x = true ∧ ∀ y, x < y ≤ final → p y = false.
Proof.
  assert (∀ n f, N.to_nat (final + 1 - f) = n →
    last (List.filter p (range_incl f final)) = Some x ↔ f ≤ x ≤ final ∧ p x = true ∧ ∀ y, x < y ≤ final → p y = false) as H; [|by eapply H].
  induction n as [|n IH]; intros f Hn.
  { rewrite range_nil by lia. split; [done|lia]. }
  rewrite range_cons by lia. cbn [List.filter]. specialize (IH (f + 1) ltac:(lia)).
  destruct (p f) eqn:E.
  - destruct (List.filter p (range_incl (f + 1) final)) as [|z l] eqn:El.
    + cbn [last]. assert (∀ y, f + 1 ≤ y ≤ final → p y = false) as Hnone.
      { intros y Hy. destruct (p y) eqn:Ey; [|done]. assert (y ∈ ([] : list N)) as []%elem_of_nil.
        rewrite <-El. apply elem_of_Filter. split; [by apply elem_of_range|done]. }
      split; [intros [= <-]; split_and!; [lia|lia|done|intros y Hy; apply Hnone; lia]|]. intros (H1 & H2 & _).
      destruct (N.eq_dec x f) as [->|Hne]; [done|]. rewrite Hnone in H2 by lia. done.
    + change (last (f :: z :: l)) with (last (z :: l)). rewrite IH. split; intros (H1 & H2 & H3).
      * split_and!; [lia|lia|done|done].
      * assert (z ∈ z :: l) as Hz by (apply elem_of_cons; by left). rewrite <-El in Hz.
        apply elem_of_Filter in Hz as [Hz%elem_of_range Hpz]. destruct (N.eq_dec x f) as [->|]; [|split_and!; [lia|lia|done|done]].
        rewrite H3 in Hpz by lia. done.
  - rewrite IH. split; intros (H1 & H2 & H3); (split_and!; [|lia|done|done]); [lia|].
    destruct (N.eq_dec x f) as [->|]; [congruence|lia].
Qed.
End Rows.

(** The next (previous) row is the first row with data after (the last before)
    the row, within the table, and the two moves undo each other: from a row
    with data, down and up again returns to it. *)
Theorem row_moves_visit_the_data_rows view m row r :
  let data r := negb (is_skippable_row view m r) in
  (next_data_row view m row = Some r ↔ row < r ≤ bottom m ∧ data r = true ∧ ∀ y, row < y < r → data y = false) ∧
  (prev_data_row view m row = Some r ↔ top m ≤ r < row ∧ data r = true ∧ ∀ y, r < y < row → data y = false) ∧
  (top m ≤ row → data row = true → next_data_row view m row = Some r → prev_data_row view m r = Some row) ∧
  (row ≤ bottom m → data row = true → prev_data_row view m row = Some r → next_data_row view m r = Some row).
Proof.
  intros data.
  assert (∀ row r, next_data_row view m row = Some r ↔ row < r ≤ bottom m ∧ data r = true ∧ ∀ y, row < y < r → data y = false) as Hnext.
  { clear row r. intros row r. rewrite next_data_row_spec, find_row_least. split; intros (H1 & H2 & H3).
    - split_and!; [lia|lia|done|]. intros y Hy. apply H3. lia.
    - split_and!; [lia|lia|done|]. intros y Hy. apply H3. lia. }
  assert (∀ row r, prev_data_row view m row = Some r ↔ top m ≤ r < row ∧ data r = true ∧ ∀ y, r < y < row → data y = false) as Hprev.
  { clear row r. intros row r. rewrite prev_data_row_spec. destruct (N.leb_spec row (top m)); [split; [done|lia]|].
    rewrite last_row_greatest. split; intros (H1 & H2 & H3).
    - split_and!; [lia|lia|done|]. intros y Hy. apply H3. lia.
    - split_and!; [lia|lia|done|]. intros y Hy. apply H3. lia. }
  split_and!; [apply Hnext|apply Hprev| |].
  - intros Ht Hd (H1 & H2 & H3)%Hnext. apply Hprev. split_and!; [lia|lia|done|done].
  - intros Ht Hd (H1 & H2 & H3)%Hprev. apply Hnext. split_and!; [lia|lia|done|done].
Qed.

(** * The row table mode starts on *)

Lemma nearest_loop_spec view m row fuel offset :
  let data r := negb (is_skippable_row view m r) in
  top m ≤ row ≤ bottom m → bottom m < u16_max → 1 ≤ offset ≤ u16_max → row + bottom m < offset + N.of_nat fuel →
  (∀ y, top m ≤ y ≤ bottom m → (y < row → row - y < offset) → (row ≤ y → y - row < offset) → data y = false) →
  match nearest_loop view m row fuel offset with
  | Some r => top m ≤ r ≤ bottom m ∧ data r = true ∧
      ∀ y, top m ≤ y ≤ bottom m → data y = true → (row - r) + (r - row) ≤ (row - y) + (y - row)
  | None => ∀ y, top m ≤ y ≤ bottom m → data y = false
  end.
Proof.
  intros data Hrow Hb. revert offset. induction fuel as [|fuel IH]; intros offset Ho Hf Hno; cbn [nearest_loop].
  { intros y Hy. apply Hno; lia. }
  assert (∀ r, r ≤ bottom m → (row - r) + (r - row) = offset → top m ≤ r → data r = true →
    top m ≤ r ≤ bottom m ∧ data r = true ∧
    ∀ y, top m ≤ y ≤ bottom m → data y = true → (row - r) + (r - row) ≤ (row - y) + (y - row)) as Hfound.
  { intros r H1 H2 H3 H4. split_and!; [lia|lia|done|]. intros y Hy Hd. rewrite H2.
    destruct (N.le_gt_cases offset ((row - y) + (y - row))) as [|Hlt]; [done|].
    rewrite Hno in Hd; [done|lia|lia|lia]. }
  assert ((sat_add u16_max (top m) offset <=? row) = (offset <=? row - top m)) as ->.
  { unfold sat_add. apply eq_true_iff_eq. rewrite !N.leb_le. lia. }
  assert ((sat_add u16_max row offset <=? bottom m) = (offset <=? bottom m - row)) as ->.
  { unfold sat_add. apply eq_true_iff_eq. rewrite !N.leb_le. lia. }
  destruct (N.leb_spec offset (row - top m)) as [Hup|Hup]; cbn [andb orb].
  - rewrite (proj2 (N.leb_le (top m) (row - offset))) by lia. cbn [andb].
    destruct (data (row - offset)) eqn:E; unfold data in E; rewrite E; [apply Hfound; [lia|lia|lia|exact E]|].
    destruct (N.leb_spec offset (bottom m - row)) as [Hdown|Hdown]; cbn [andb].
    + assert (sat_add u16_max row offset = row + offset) as -> by (unfold sat_add; lia).
      destruct (data (row + offset)) eqn:E'; unfold data in E'; rewrite E'; [apply Hfound; [lia|lia|lia|exact E']|].
      apply IH; [unfold sat_add; lia|unfold sat_add; lia|]. intros y Hy H1 H2. unfold sat_add in *.
      destruct (N.eq_dec y (row - offset)) as [->|]; [done|]. destruct (N.eq_dec y (row + offset)) as [->|]; [done|].
      apply Hno; lia.
    + apply IH; [unfold sat_add; lia|unfold sat_add; lia|]. intros y Hy H1 H2. unfold sat_add in *.
      destruct (N.eq_dec y (row - offset)) as [->|]; [done|]. apply Hno; lia.
  - destruct (N.leb_spec offset (bottom m - row)) as [Hdown|Hdown]; cbn [andb].
    + assert (sat_add u16_max row offset = row + offset) as -> by (unfold sat_add; lia).
      destruct (data (row + offset)) eqn:E'; unfold data in E'; rewrite E'; [apply Hfound; [lia|lia|lia|exact E']|].
      apply IH; [unfold sat_add; lia|unfold sat_add; lia|]. intros y Hy H1 H2. unfold sat_add in *.
      destruct (N.eq_dec y (row + offset)) as [->|]; [done|]. apply Hno; lia.
    + intros y Hy. apply Hno; lia.
Qed.

(** From a row of the table the search finds the nearest row with data of the
    table, and finds one when there is one. *)
Theorem nearest_data_row_is_nearest view m row :
  model_ok view m → top m ≤ row ≤ bottom m →
  let data r := negb (is_skippable_row view m r) in
  match nearest_data_row view m row with
  | Some r => top m ≤ r ≤ bottom m ∧ data r = true ∧
      ∀ y, top m ≤ y ≤ bottom m → data y = true → (row - r) + (r - row) ≤ (row - y) + (y - row)
  | None => ∀ y, top m ≤ y ≤ bottom m → data y = false
  end.
Proof.
  intros Hok Hrow data. unfold nearest_data_row.
  rewrite (proj2 (N.leb_le (top m) row)), (proj2 (N.leb_le row (bottom m))) by lia. cbn [andb].
  destruct (negb (is_skippable_row view m row)) eqn:E.
  - split_and!; [lia|lia|exact E|]. intros y _ _. lia.
  - assert (bottom m < u16_max).
    { pose proof (rows_in_order view m Hok). assert ((size view).1 ≤ u16_max) by (unfold size; apply N.le_min_l). lia. }
    apply nearest_loop_spec; [done|done|split; [done|by vm_compute]|lia|]. intros y Hy H1 H2.
    destruct (N.eq_dec y row) as [->|]; [exact E|]. lia.
Qed.

(** * Tabstops *)

Lemma search_tabstop_split l1 l2 col :
  Forall (λ s, s < col) l1 → Forall (λ s, col ≤ s) l2 →
  search_tabstop (l1 ++ l2) col = (length l1, bool_decide (head l2 = Some col)).
Proof.
  intros H1 H2. unfold search_tabstop.
  assert (List.filter (λ s, s <? col) (l1 ++ l2) = l1) as ->.
  { rewrite List.filter_app. assert (List.filter (λ s, s <? col) l1 = l1) as ->.
    { clear -H1. induction H1 as [|s l Hs _ IH]; [done|]. cbn. rewrite (proj2 (N.ltb_lt s col)) by done. by rewrite IH. }
    assert (List.filter (λ s, s <? col) l2 = []) as ->; [|by rewrite app_nil_r].
    clear -H2. induction H2 as [|s l Hs _ IH]; [done|]. cbn. by rewrite (proj2 (N.ltb_ge s col)). }
  f_equal. rewrite lookup_app_r by done. rewrite Nat.sub_diag. by rewrite head_lookup.
Qed.
Lemma toggle_absent h l1 l2 col :
  Forall (λ s, s < col) l1 → Forall (λ s, col < s) l2 →
  toggle_tabstop {| setup_header_row := h; tabstops := l1 ++ l2 |} col =
    ({| setup_header_row := h; tabstops := l1 ++ col :: l2 |}, Added).
Proof.
  intros H1 H2. unfold toggle_tabstop. cbn [tabstops]. rewrite search_tabstop_split; [|done|].
  - rewrite bool_decide_eq_false_2.
    + rewrite take_app_length, drop_app_length. done.
    + destruct l2 as [|s l2]; [done|]. intros [= ->]. apply Forall_cons in H2 as [H2 _]. lia.
  - eapply Forall_impl; [exact H2|]. cbn. lia.
Qed.
Lemma toggle_present h l1 l2 col :
  Forall (λ s, s < col) l1 → Forall (λ s, col < s) l2 →
  toggle_tabstop {| setup_header_row := h; tabstops := l1 ++ col :: l2 |} col =
    ({| setup_header_row := h; tabstops := l1 ++ l2 |}, Removed).
Proof.
  intros H1 H2. unfold toggle_tabstop. cbn [tabstops]. rewrite search_tabstop_split; [|done|].
  - rewrite bool_decide_eq_true_2 by done. by rewrite delete_middle.
  - constructor; [lia|]. eapply Forall_impl; [exact H2|]. cbn. lia.
Qed.
(** Where a column is, or belongs, in sorted tabstops. *)
Lemma sorted_split stops col :
  StronglySorted N.lt stops →
  ∃ l1 l2, Forall (λ s, s < col) l1 ∧ Forall (λ s, col < s) l2 ∧ (stops = l1 ++ l2 ∨ stops = l1 ++ col :: l2).
Proof.
  induction 1 as [|s stops Hs (l1 & l2 & H1 & H2 & Hl) Hlt]; [exists [], []; split_and!; [done|done|by left]|].
  destruct (N.lt_trichotomy s col) as [Hsc|[->|Hsc]].
  - exists (s :: l1), l2. split_and!; [by constructor|done|]. destruct Hl as [->| ->]; [by left|by right].
  - exists [], stops. split_and!; [constructor|exact Hlt|by right].
  - exists [], (s :: stops). split_and!; [constructor| |by left]. constructor; [done|].
    eapply Forall_impl; [exact Hlt|]. cbn. intros x Hx. lia.
Qed.

Lemma toggle_tabstop_sorted st col :
  StronglySorted N.lt (tabstops st) → StronglySorted N.lt (tabstops (toggle_tabstop st col).1).
Proof.
  destruct st as [h stops]. cbn [tabstops]. intros Hs.
  destruct (sorted_split stops col Hs) as (l1 & l2 & H1 & H2 & [-> | ->]);
    (rewrite toggle_absent by done) || (rewrite toggle_present by done); cbn [fst tabstops];
    apply StronglySorted_app in Hs as (Hcross & Hs1 & Hs2); apply StronglySorted_app.
  - split_and!; [|done|by constructor].
    intros x y Hx [->|Hy]%elem_of_cons; [by eapply Forall_forall in H1|by apply Hcross].
  - inversion_clear Hs2. split_and!; [|done|done].
    intros x y Hx Hy. apply Hcross; [done|]. apply elem_of_cons. by right.
Qed.

(** Tabstops stay sorted and without duplicates; a toggle adds the column when
    it is no tabstop and removes it otherwise, and a second one undoes it. *)
Theorem toggling_a_tabstop_twice_undoes_it st col :
  StronglySorted N.lt (tabstops st) →
  let '(st', change) := toggle_tabstop st col in
  StronglySorted N.lt (tabstops st') ∧
  (∀ s, s ∈ tabstops st' ↔ (s ∈ tabstops st ∧ s ≠ col) ∨ (s = col ∧ change = Added)) ∧
  (change = Removed ↔ col ∈ tabstops st) ∧
  (toggle_tabstop st' col).1 = st.
Proof.
  destruct st as [h stops]. cbn [tabstops]. intros Hs.
  destruct (sorted_split stops col Hs) as (l1 & l2 & H1 & H2 & Hl).
  assert (col ∉ l1 ++ l2) as Hn.
  { intros [H|H]%elem_of_app; [eapply Forall_forall in H1; [|exact H]|eapply Forall_forall in H2; [|exact H]]; cbn in *; lia. }
  destruct Hl as [-> | ->].
  - rewrite toggle_absent by done. cbn [tabstops]. split_and!.
    + pose proof (toggle_tabstop_sorted {| setup_header_row := h; tabstops := l1 ++ l2 |} col Hs) as H.
      by rewrite toggle_absent in H.
    + intros s. rewrite !elem_of_app, elem_of_cons. rewrite elem_of_app in Hn. destruct (N.eq_dec s col) as [->|]; tauto.
    + split; [done|]. intros H. by destruct Hn.
    + by rewrite toggle_present.
  - rewrite toggle_present by done. cbn [tabstops]. split_and!.
    + pose proof (toggle_tabstop_sorted {| setup_header_row := h; tabstops := l1 ++ col :: l2 |} col Hs) as H.
      by rewrite toggle_present in H.
    + intros s. rewrite !elem_of_app, elem_of_cons. rewrite elem_of_app in Hn. split.
      * intros H. left. split; [tauto|]. by intros ->.
      * intros [[[H|[->|H]] Hne]|[_ H]]; [by left|done|by right|done].
    + split; [|done]. intros _. apply elem_of_app. right. apply elem_of_cons. by left.
    + by rewrite toggle_absent.
Qed.

(** * Delimited rows *)

Lemma split_chars_field c field rest :
  c ∉ field → split_chars c (field ++ c :: rest) = field :: split_chars c rest.
Proof.
  induction field as [|x field IH]; intros Hn; cbn [app split_chars]; [by rewrite N.eqb_refl|].
  rewrite not_elem_of_cons in Hn. destruct Hn as [Hx Hn]. rewrite (proj2 (N.eqb_neq x c)) by done. by rewrite IH.
Qed.
Definition delimited (cells : list (list N)) : list N := mjoin ((λ c, c ++ [PIPE]) <$> cells).
Lemma delimited_cons c cells : delimited (c :: cells) = c ++ PIPE :: delimited cells.
Proof. unfold delimited. cbn. by rewrite <-app_assoc. Qed.
Lemma split_delimited cells :
  Forall (λ c, PIPE ∉ c) cells → split_chars PIPE (delimited cells) = cells ++ [[]].
Proof.
  induction 1 as [|c cells Hc _ IH]; [done|]. rewrite delimited_cons, split_chars_field by done. by rewrite IH.
Qed.
Lemma count_char_app c l k : count_char c (l ++ k) = count_char c l + count_char c k.
Proof. unfold count_char. rewrite List.filter_app, length_app. lia. Qed.
Lemma count_delimited cells : Forall (λ c, PIPE ∉ c) cells → count_char PIPE (delimited cells) = len cells.
Proof.
  induction 1 as [|c cells Hc _ IH]; [done|]. rewrite delimited_cons, cons_middle, !count_char_app, IH. assert (count_char PIPE c = 0) as ->.
  { unfold count_char. destruct (List.filter _ c) as [|x l] eqn:E; [done|].
    assert (x ∈ List.filter (λ x, x =? PIPE) c) as [Hx ->%N.eqb_eq]%elem_of_Filter by (rewrite E; apply elem_of_cons; by left).
    done. }
  cbn [length]. change (count_char PIPE [PIPE]) with 1. lia.
Qed.
Lemma trim_start_app_blank a x : all_whitespace a → trim_start (a ++ x) = trim_start x.
Proof. induction 1 as [|c a Hc _ IH]; [done|]. cbn. by rewrite Hc. Qed.
Lemma trim_chars_framed a b c x d :
  all_whitespace a → all_whitespace b → is_whitespace_char c = false → is_whitespace_char d = false →
  trim_chars (a ++ (c :: x ++ [d]) ++ b) = c :: x ++ [d].
Proof.
  intros Ha Hb Hc Hd. unfold trim_chars. rewrite trim_start_app_blank by done. cbn [app trim_start]. rewrite Hc.
  rewrite reverse_cons, !reverse_app, <-!app_assoc. rewrite trim_start_app_blank by (unfold all_whitespace; by apply Forall_reverse).
  change (reverse [d]) with [d]. cbn [app trim_start]. rewrite Hd.
  change (d :: reverse x ++ [c]) with ([d] ++ reverse x ++ [c]). rewrite !reverse_app, reverse_involutive. done.
Qed.

(** A row written with delimiters around every cell is read back cell by cell,
    whatever blanks are around the row and around the cells; beyond the last
    cell there is nothing. *)
Theorem delimited_rows_read_back before after cells i :
  all_whitespace before → all_whitespace after → cells ≠ [] → Forall (λ c, PIPE ∉ c) cells →
  pipe_delimited_cell_text (before ++ (PIPE :: delimited cells) ++ after) i =
    Some (trim_chars (default [] (cells !! N.to_nat i))).
Proof.
  intros Hb Ha Hne Hcells. unfold pipe_delimited_cell_text.
  assert (∃ x, delimited cells = x ++ [PIPE]) as [x Hx].
  { destruct cells as [|c cs _] using rev_ind; [done|]. exists (delimited cs ++ c).
    unfold delimited. rewrite fmap_app, join_app. cbn. by rewrite app_nil_r, app_assoc. }
  assert (trim_chars (before ++ (PIPE :: delimited cells) ++ after) = PIPE :: delimited cells) as ->
    by (rewrite Hx; by apply trim_chars_framed).
  assert (pipe_cell_layout (PIPE :: delimited cells) = Some (1, len cells)) as ->.
  { unfold pipe_cell_layout. change (PIPE :: delimited cells) with ([PIPE] ++ delimited cells).
    rewrite count_char_app, count_delimited by done. change (count_char PIPE [PIPE]) with 1.
    rewrite (proj2 (N.eqb_neq (1 + len cells) 0)) by lia.
    assert (starts_with PIPE ([PIPE] ++ delimited cells) = true) as -> by done.
    assert (ends_with PIPE ([PIPE] ++ delimited cells) = true) as ->.
    { unfold ends_with. rewrite Hx, app_assoc, last_snoc. by apply bool_decide_eq_true_2. }
    replace (1 + len cells + 1 - 1 - 1) with (len cells) by lia.
    destruct (N.ltb_spec 0 (len cells)) as [|Hz]; [done|]. destruct cells; [done|cbn in Hz; lia]. }
  cbn [mbind option_bind fst]. change (split_chars PIPE (PIPE :: delimited cells)) with ([] :: split_chars PIPE (delimited cells)).
  rewrite split_delimited by done. change (drop (N.to_nat 1) ([] :: cells ++ [[]])) with (cells ++ [[]]).
  do 2 f_equal. destruct (decide (N.to_nat i < length cells)%nat) as [Hi|Hi]; [by rewrite lookup_app_l|].
  rewrite lookup_app_r, (lookup_ge_None_2 cells) by lia.
  destruct (N.to_nat i - length cells)%nat; done.
Qed.

(** * Concrete screens *)

Definition char_cell (t : N) : Cell := default_cell <| grapheme := if t =? SP then [] else [t] |>.
Definition text_row (t : list N) : Row := {| Screen.cells := char_cell <$> t; wrapped := false |}.
Definition text_screen (l : list (list N)) : TerminalSnapshot :=
  {| Screen.rows := text_row <$> l; scrollback := []; cursor := default_cursor; geometry := geometry_new (len l) 4 0 0;
     screen := PrimaryScreen; modes := default_modes; title := None; working_directory := None; semantic_marks := [];
     history_origin := 0; scrollback_extent := 0; viewport := Live |}.
Definition ascii_letter (c : N) : bool := in_range 97 122 c.
(** Two rows of a table and two blank ones. *)
Definition small_screen : TerminalSnapshot :=
  text_screen [[97; SP; SP; 98]; [99; SP; SP; 100]; [SP; SP; SP; SP]; [SP; SP; SP; SP]].
Definition small_table : TableModel :=
  {| top := 0; bottom := 1; columns := [{| start_col := 0; end_col := 1 |}; {| start_col := 2; end_col := 3 |}];
     header_row := Some 0; delimiter := None |}.

(** The table is found from a row below it; but the search for the row to start
    on also takes rows outside the table for rows with data, and table mode
    starts on a blank row below the table. *)
Theorem table_mode_starts_outside_the_table :
  detect ascii_letter small_screen 3 = Some small_table ∧
  nearest_data_row small_screen small_table 3 = Some 2 ∧ row_is_blank small_screen 2 = true.
Proof. vm_compute. done. Qed.

Lemma small_table_ok : model_ok small_screen small_table.
Proof. apply (detect_ok ascii_letter small_screen 0); by vm_compute. Qed.

Lemma detected_tables_are_well_formed_witness : model_ok small_screen small_table.
Proof.
  apply (detected_tables_are_well_formed ascii_letter small_screen 0 0 [] small_table); [by vm_compute|].
  left. by vm_compute.
Defined.
Lemma row_moves_visit_the_data_rows_witness : prev_data_row small_screen small_table 1 = Some 0.
Proof.
  apply (row_moves_visit_the_data_rows small_screen small_table 0 1); by vm_compute.
Defined.
Lemma nearest_data_row_is_nearest_witness :
  match nearest_data_row small_screen small_table 1 with Some r => r ≤ 1 | None => False end.
Proof.
  assert (nearest_data_row small_screen small_table 1 = Some 1) as E by (by vm_compute).
  pose proof (nearest_data_row_is_nearest small_screen small_table 1 small_table_ok ltac:(by vm_compute)) as H.
  rewrite E in H. rewrite E. destruct H as [[_ H] _]. exact H.
Defined.
Lemma toggling_a_tabstop_twice_undoes_it_witness :
  (toggle_tabstop (toggle_tabstop {| setup_header_row := 0; tabstops := [2; 9] |} 5).1 5).1 =
    {| setup_header_row := 0; tabstops := [2; 9] |}.
Proof.
  pose proof (toggling_a_tabstop_twice_undoes_it {| setup_header_row := 0; tabstops := [2; 9] |} 5) as H.
  apply H. repeat constructor.
Defined.
Lemma delimited_rows_read_back_witness :
  pipe_delimited_cell_text ([SP] ++ (PIPE :: delimited [[SP; 97]; [98]]) ++ []) 1 = Some [98].
Proof.
  apply (delimited_rows_read_back [SP] [] [[SP; 97]; [98]] 1); [by repeat constructor|constructor|done|].
  by apply (bool_decide_unpack (Forall (λ c, PIPE ∉ c) [[SP; 97]; [98]])).
Defined.
