(* ===== verification/Attributes.v ===== *)
(** The names of colours (src/src/attributes.rs). *)

From S2P Require Import Prelude Screen.
Local Open Scope N_scope.

(** The two tables of the source, perfect hash maps there, in its order. *)
Definition COLORS : list (N * string) := [
  (0, "Black"%string); (1, "Maroon"%string); (2, "Green"%string); (3, "Olive"%string); (4, "Navy"%string);
  (5, "Purple"%string); (6, "Teal"%string); (7, "Silver"%string); (8, "Grey"%string); (9, "Red"%string);
  (10, "Lime"%string); (11, "Yellow"%string); (12, "Blue"%string); (13, "Fuchsia"%string); (14, "Aqua"%string);
  (15, "White"%string); (16, "Grey0"%string); (17, "NavyBlue"%string); (18, "DarkBlue"%string); (19, "Blue3"%string);
  (20, "Blue3"%string); (21, "Blue1"%string); (22, "DarkGreen"%string); (23, "DeepSkyBlue4"%string); (24, "DeepSkyBlue4"%string);
  (25, "DeepSkyBlue4"%string); (26, "DodgerBlue3"%string); (27, "DodgerBlue2"%string); (28, "Green4"%string); (29, "SpringGreen4"%string);
  (30, "Turquoise4"%string); (31, "DeepSkyBlue3"%string); (32, "DeepSkyBlue3"%string); (33, "DodgerBlue1"%string); (34, "Green3"%string);
  (35, "SpringGreen3"%string); (36, "DarkCyan"%string); (37, "LightSeaGreen"%string); (38, "DeepSkyBlue2"%string); (39, "DeepSkyBlue1"%string);
  (40, "Green3"%string); (41, "SpringGreen3"%string); (42, "SpringGreen2"%string); (43, "Cyan3"%string); (44, "DarkTurquoise"%string);
  (45, "Turquoise2"%string); (46, "Green1"%string); (47, "SpringGreen2"%string); (48, "SpringGreen1"%string); (49, "MediumSpringGreen"%string);
  (50, "Cyan2"%string); (51, "Cyan1"%string); (52, "DarkRed"%string); (53, "DeepPink4"%string); (54, "Purple4"%string);
  (55, "Purple4"%string); (56, "Purple3"%string); (57, "BlueViolet"%string); (58, "Orange4"%string); (59, "Grey37"%string);
  (60, "MediumPurple4"%string); (61, "SlateBlue3"%string); (62, "SlateBlue3"%string); (63, "RoyalBlue1"%string); (64, "Chartreuse4"%string);
  (65, "DarkSeaGreen4"%string); (66, "PaleTurquoise4"%string); (67, "SteelBlue"%string); (68, "SteelBlue3"%string); (69, "CornflowerBlue"%string);
  (70, "Chartreuse3"%string); (71, "DarkSeaGreen4"%string); (72, "CadetBlue"%string); (73, "CadetBlue"%string); (74, "SkyBlue3"%string);
  (75, "SteelBlue1"%string); (76, "Chartreuse3"%string); (77, "PaleGreen3"%string); (78, "SeaGreen3"%string); (79, "Aquamarine3"%string);
  (80, "MediumTurquoise"%string); (81, "SteelBlue1"%string); (82, "Chartreuse2"%string); (83, "SeaGreen2"%string); (84, "SeaGreen1"%string);
  (85, "SeaGreen1"%string); (86, "Aquamarine1"%string); (87, "DarkSlateGray2"%string); (88, "DarkRed"%string); (89, "DeepPink4"%string);
  (90, "DarkMagenta"%string); (91, "DarkMagenta"%string); (92, "DarkViolet"%string); (93, "Purple"%string); (94, "Orange4"%string);
  (95, "LightPink4"%string); (96, "Plum4"%string); (97, "MediumPurple3"%string); (98, "MediumPurple3"%string); (99, "SlateBlue1"%string);
  (100, "Yellow4"%string); (101, "Wheat4"%string); (102, "Grey53"%string); (103, "LightSlateGrey"%string); (104, "MediumPurple"%string);
  (105, "LightSlateBlue"%string); (106, "Yellow4"%string); (107, "DarkOliveGreen3"%string); (108, "DarkSeaGreen"%string); (109, "LightSkyBlue3"%string);
  (110, "LightSkyBlue3"%string); (111, "SkyBlue2"%string); (112, "Chartreuse2"%string); (113, "DarkOliveGreen3"%string); (114, "PaleGreen3"%string);
  (115, "DarkSeaGreen3"%string); (116, "DarkSlateGray3"%string); (117, "SkyBlue1"%string); (118, "Chartreuse1"%string); (119, "LightGreen"%string);
  (120, "LightGreen"%string); (121, "PaleGreen1"%string); (122, "Aquamarine1"%string); (123, "DarkSlateGray1"%string); (124, "Red3"%string);
  (125, "DeepPink4"%string); (126, "MediumVioletRed"%string); (127, "Magenta3"%string); (128, "DarkViolet"%string); (129, "Purple"%string);
  (130, "DarkOrange3"%string); (131, "IndianRed"%string); (132, "HotPink3"%string); (133, "MediumOrchid3"%string); (134, "MediumOrchid"%string);
  (135, "MediumPurple2"%string); (136, "DarkGoldenrod"%string); (137, "LightSalmon3"%string); (138, "RosyBrown"%string); (139, "Grey63"%string);
  (140, "MediumPurple2"%string); (141, "MediumPurple1"%string); (142, "Gold3"%string); (143, "DarkKhaki"%string); (144, "NavajoWhite3"%string);
  (145, "Grey69"%string); (146, "LightSteelBlue3"%string); (147, "LightSteelBlue"%string); (148, "Yellow3"%string); (149, "DarkOliveGreen3"%string);
  (150, "DarkSeaGreen3"%string); (151, "DarkSeaGreen2"%string); (152, "LightCyan3"%string); (153, "LightSkyBlue1"%string); (154, "GreenYellow"%string);
  (155, "DarkOliveGreen2"%string); (156, "PaleGreen1"%string); (157, "DarkSeaGreen2"%string); (158, "DarkSeaGreen1"%string); (159, "PaleTurquoise1"%string);
  (160, "Red3"%string); (161, "DeepPink3"%string); (162, "DeepPink3"%string); (163, "Magenta3"%string); (164, "Magenta3"%string);
  (165, "Magenta2"%string); (166, "DarkOrange3"%string); (167, "IndianRed"%string); (168, "HotPink3"%string); (169, "HotPink2"%string);
  (170, "Orchid"%string); (171, "MediumOrchid1"%string); (172, "Orange3"%string); (173, "LightSalmon3"%string); (174, "LightPink3"%string);
  (175, "Pink3"%string); (176, "Plum3"%string); (177, "Violet"%string); (178, "Gold3"%string); (179, "LightGoldenrod3"%string);
  (180, "Tan"%string); (181, "MistyRose3"%string); (182, "Thistle3"%string); (183, "Plum2"%string); (184, "Yellow3"%string);
  (185, "Khaki3"%string); (186, "LightGoldenrod2"%string); (187, "LightYellow3"%string); (188, "Grey84"%string); (189, "LightSteelBlue1"%string);
  (190, "Yellow2"%string); (191, "DarkOliveGreen1"%string); (192, "DarkOliveGreen1"%string); (193, "DarkSeaGreen1"%string); (194, "Honeydew2"%string);
  (195, "LightCyan1"%string); (196, "Red1"%string); (197, "DeepPink2"%string); (198, "DeepPink1"%string); (199, "DeepPink1"%string);
  (200, "Magenta2"%string); (201, "Magenta1"%string); (202, "OrangeRed1"%string); (203, "IndianRed1"%string); (204, "IndianRed1"%string);
  (205, "HotPink"%string); (206, "HotPink"%string); (207, "MediumOrchid1"%string); (208, "DarkOrange"%string); (209, "Salmon1"%string);
  (210, "LightCoral"%string); (211, "PaleVioletRed1"%string); (212, "Orchid2"%string); (213, "Orchid1"%string); (214, "Orange1"%string);
  (215, "SandyBrown"%string); (216, "LightSalmon1"%string); (217, "LightPink1"%string); (218, "Pink1"%string); (219, "Plum1"%string);
  (220, "Gold1"%string); (221, "LightGoldenrod2"%string); (222, "LightGoldenrod2"%string); (223, "NavajoWhite1"%string); (224, "MistyRose1"%string);
  (225, "Thistle1"%string); (226, "Yellow1"%string); (227, "LightGoldenrod1"%string); (228, "Khaki1"%string); (229, "Wheat1"%string);
  (230, "Cornsilk1"%string); (231, "Grey100"%string); (232, "Grey3"%string); (233, "Grey7"%string); (234, "Grey11"%string);
  (235, "Grey15"%string); (236, "Grey19"%string); (237, "Grey23"%string); (238, "Grey27"%string); (239, "Grey30"%string);
  (240, "Grey35"%string); (241, "Grey39"%string); (242, "Grey42"%string); (243, "Grey46"%string); (244, "Grey50"%string);
  (245, "Grey54"%string); (246, "Grey58"%string); (247, "Grey62"%string); (248, "Grey66"%string); (249, "Grey70"%string);
  (250, "Grey74"%string); (251, "Grey78"%string); (252, "Grey82"%string); (253, "Grey85"%string); (254, "Grey89"%string);
  (255, "Grey93"%string)
].
Definition RGB_INDEX : list (string * N) := [
  ("#000000"%string, 0); ("#000080"%string, 4); ("#000087"%string, 18); ("#0000af"%string, 19); ("#0000d7"%string, 20); ("#0000ff"%string, 12);
  ("#00005f"%string, 17); ("#008000"%string, 2); ("#008080"%string, 6); ("#008700"%string, 28); ("#008787"%string, 30); ("#0087af"%string, 31);
  ("#0087d7"%string, 32); ("#0087ff"%string, 33); ("#00875f"%string, 29); ("#00af00"%string, 34); ("#00af87"%string, 36); ("#00afaf"%string, 37);
  ("#00afd7"%string, 38); ("#00afff"%string, 39); ("#00af5f"%string, 35); ("#00d700"%string, 40); ("#00d787"%string, 42); ("#00d7af"%string, 43);
  ("#00d7d7"%string, 44); ("#00d7ff"%string, 45); ("#00d75f"%string, 41); ("#00ff00"%string, 10); ("#00ff87"%string, 48); ("#00ffaf"%string, 49);
  ("#00ffd7"%string, 50); ("#00ffff"%string, 14); ("#00ff5f"%string, 47); ("#005f00"%string, 22); ("#005f87"%string, 24); ("#005faf"%string, 25);
  ("#005fd7"%string, 26); ("#005fff"%string, 27); ("#005f5f"%string, 23); ("#6c6c6c"%string, 242); ("#767676"%string, 243); ("#800000"%string, 1);
  ("#800080"%string, 5); ("#808000"%string, 3); ("#808080"%string, 244); ("#870000"%string, 88); ("#870087"%string, 90); ("#8700af"%string, 91);
  ("#8700d7"%string, 92); ("#8700ff"%string, 93); ("#87005f"%string, 89); ("#878700"%string, 100); ("#878787"%string, 102); ("#8787af"%string, 103);
  ("#8787d7"%string, 104); ("#8787ff"%string, 105); ("#87875f"%string, 101); ("#87af00"%string, 106); ("#87af87"%string, 108); ("#87afaf"%string, 109);
  ("#87afd7"%string, 110); ("#87afff"%string, 111); ("#87af5f"%string, 107); ("#87d700"%string, 112); ("#87d787"%string, 114); ("#87d7af"%string, 115);
  ("#87d7d7"%string, 116); ("#87d7ff"%string, 117); ("#87d75f"%string, 113); ("#87ff00"%string, 118); ("#87ff87"%string, 120); ("#87ffaf"%string, 121);
  ("#87ffd7"%string, 122); ("#87ffff"%string, 123); ("#87ff5f"%string, 119); ("#875f00"%string, 94); ("#875f87"%string, 96); ("#875faf"%string, 97);
  ("#875fd7"%string, 98); ("#875fff"%string, 99); ("#875f5f"%string, 95); ("#8a8a8a"%string, 245); ("#949494"%string, 246); ("#9e9e9e"%string, 247);
  ("#a8a8a8"%string, 248); ("#af0000"%string, 124); ("#af0087"%string, 126); ("#af00af"%string, 127); ("#af00d7"%string, 128); ("#af00ff"%string, 129);
  ("#af005f"%string, 125); ("#af8700"%string, 136); ("#af8787"%string, 138); ("#af87af"%string, 139); ("#af87d7"%string, 140); ("#af87ff"%string, 141);
  ("#af875f"%string, 137); ("#afaf00"%string, 142); ("#afaf87"%string, 144); ("#afafaf"%string, 145); ("#afafd7"%string, 146); ("#afafff"%string, 147);
  ("#afaf5f"%string, 143); ("#afd700"%string, 148); ("#afd787"%string, 150); ("#afd7af"%string, 151); ("#afd7d7"%string, 152); ("#afd7ff"%string, 153);
  ("#afd75f"%string, 149); ("#afff00"%string, 154); ("#afff87"%string, 156); ("#afffaf"%string, 157); ("#afffd7"%string, 158); ("#afffff"%string, 159);
  ("#afff5f"%string, 155); ("#af5f00"%string, 130); ("#af5f87"%string, 132); ("#af5faf"%string, 133); ("#af5fd7"%string, 134); ("#af5fff"%string, 135);
  ("#af5f5f"%string, 131); ("#b2b2b2"%string, 249); ("#121212"%string, 233); ("#bcbcbc"%string, 250); ("#c0c0c0"%string, 7); ("#c6c6c6"%string, 251);
  ("#d0d0d0"%string, 252); ("#d70000"%string, 160); ("#d70087"%string, 162); ("#d700af"%string, 163); ("#d700d7"%string, 164); ("#d700ff"%string, 165);
  ("#d7005f"%string, 161); ("#d78700"%string, 172); ("#d78787"%string, 174); ("#d787af"%string, 175); ("#d787d7"%string, 176); ("#d787ff"%string, 177);
  ("#d7875f"%string, 173); ("#d7af00"%string, 178); ("#d7af87"%string, 180); ("#d7afaf"%string, 181); ("#d7afd7"%string, 182); ("#d7afff"%string, 183);
  ("#d7af5f"%string, 179); ("#d7d700"%string, 184); ("#d7d787"%string, 186); ("#d7d7af"%string, 187); ("#d7d7d7"%string, 188); ("#d7d7ff"%string, 189);
  ("#d7d75f"%string, 185); ("#d7ff00"%string, 190); ("#d7ff87"%string, 192); ("#d7ffaf"%string, 193); ("#d7ffd7"%string, 194); ("#d7ffff"%string, 195);
  ("#d7ff5f"%string, 191); ("#d75f00"%string, 166); ("#d75f87"%string, 168); ("#d75faf"%string, 169); ("#d75fd7"%string, 170); ("#d75fff"%string, 171);
  ("#d75f5f"%string, 167); ("#dadada"%string, 253); ("#e4e4e4"%string, 254); ("#eeeeee"%string, 255); ("#ff0000"%string, 196); ("#ff0087"%string, 198);
  ("#ff00af"%string, 199); ("#ff00d7"%string, 200); ("#ff00ff"%string, 13); ("#ff005f"%string, 197); ("#ff8700"%string, 208); ("#ff8787"%string, 210);
  ("#ff87af"%string, 211); ("#ff87d7"%string, 212); ("#ff87ff"%string, 213); ("#ff875f"%string, 209); ("#ffaf00"%string, 214); ("#ffaf87"%string, 216);
  ("#ffafaf"%string, 217); ("#ffafd7"%string, 218); ("#ffafff"%string, 219); ("#ffaf5f"%string, 215); ("#ffd700"%string, 220); ("#ffd787"%string, 222);
  ("#ffd7af"%string, 223); ("#ffd7d7"%string, 224); ("#ffd7ff"%string, 225); ("#ffd75f"%string, 221); ("#ffff00"%string, 11); ("#ffff87"%string, 228);
  ("#ffffaf"%string, 229); ("#ffffd7"%string, 230); ("#ffffff"%string, 15); ("#ffff5f"%string, 227); ("#ff5f00"%string, 202); ("#ff5f87"%string, 204);
  ("#ff5faf"%string, 205); ("#ff5fd7"%string, 206); ("#ff5fff"%string, 207); ("#ff5f5f"%string, 203); ("#1c1c1c"%string, 234); ("#262626"%string, 235);
  ("#303030"%string, 236); ("#3a3a3a"%string, 237); ("#444444"%string, 238); ("#4e4e4e"%string, 239); ("#080808"%string, 232); ("#585858"%string, 240);
  ("#5f0000"%string, 52); ("#5f0087"%string, 54); ("#5f00af"%string, 55); ("#5f00d7"%string, 56); ("#5f00ff"%string, 57); ("#5f005f"%string, 53);
  ("#5f8700"%string, 64); ("#5f8787"%string, 66); ("#5f87af"%string, 67); ("#5f87d7"%string, 68); ("#5f87ff"%string, 69); ("#5f875f"%string, 65);
  ("#5faf00"%string, 70); ("#5faf87"%string, 72); ("#5fafaf"%string, 73); ("#5fafd7"%string, 74); ("#5fafff"%string, 75); ("#5faf5f"%string, 71);
  ("#5fd700"%string, 76); ("#5fd787"%string, 78); ("#5fd7af"%string, 79); ("#5fd7d7"%string, 80); ("#5fd7ff"%string, 81); ("#5fd75f"%string, 77);
  ("#5fff00"%string, 82); ("#5fff87"%string, 84); ("#5fffaf"%string, 85); ("#5fffd7"%string, 86); ("#5fffff"%string, 87); ("#5fff5f"%string, 83);
  ("#5f5f00"%string, 58); ("#5f5f87"%string, 60); ("#5f5faf"%string, 61); ("#5f5fd7"%string, 62); ("#5f5fff"%string, 63); ("#5f5f5f"%string, 59);
  ("#626262"%string, 241)
].

Definition color_name (i : N) : option bytes :=
  bs ∘ snd <$> List.find (λ e, e.1 =? i) COLORS.
Definition rgb_index (rgb : bytes) : option N :=
  snd <$> List.find (λ e, bool_decide (bs e.1 = rgb)) RGB_INDEX.

(** [{:02X}] and [to_ascii_lowercase]. *)
Definition hex_digit (d : N) : byte := if d <? 10 then 48 + d else 55 + d.
Definition hex2 (n : N) : bytes := [hex_digit (n / 16); hex_digit (n mod 16)].
Definition to_ascii_lowercase (s : bytes) : bytes := (λ c, if is_upper c then c + 32 else c) <$> s.

Definition describe_color (color : Color) : bytes :=
  match color with
  | ColorDefault => bs "default"
  | Indexed i => default (bs "unknown") (color_name i)
  | Rgb r g b =>
      let rgb := bs "#" ++ hex2 r ++ hex2 g ++ hex2 b in
      match (i ← rgb_index (to_ascii_lowercase rgb); color_name i) with
      | Some s => s
      | None => rgb
      end
  end.

(** * The palette *)

(** The 256 colours of xterm: sixteen of its own, a cube of 6 x 6 x 6, a ramp
    of greys. *)
Definition base_palette : list (N * N * N) := [
  (0, 0, 0); (128, 0, 0); (0, 128, 0); (128, 128, 0); (0, 0, 128); (128, 0, 128); (0, 128, 128); (192, 192, 192);
  (128, 128, 128); (255, 0, 0); (0, 255, 0); (255, 255, 0); (0, 0, 255); (255, 0, 255); (0, 255, 255); (255, 255, 255)].
Definition cube_level (n : N) : N := if n =? 0 then 0 else 55 + 40 * n.
Definition palette (i : N) : N * N * N :=
  match base_palette !! N.to_nat i with
  | Some c => c
  | None =>
      if i <? 232 then
        let i := i - 16 in (cube_level (i / 36), cube_level (i / 6 mod 6), cube_level (i mod 6))
      else let grey := 8 + 10 * (i - 232) in (grey, grey, grey)
  end.
Definition rgb_key (c : N * N * N) : bytes :=
  let '(r, g, b) := c in to_ascii_lowercase (bs "#" ++ hex2 r ++ hex2 g ++ hex2 b).

Definition indices : list N := N.of_nat <$> seq 0 256.
Lemma elem_of_indices i : i ∈ indices ↔ i < 256.
Proof.
  unfold indices. rewrite list_elem_of_fmap. split.
  - intros (n & -> & Hn%elem_of_seq). lia.
  - intros H. exists (N.to_nat i). split; [lia|]. apply elem_of_seq. lia.
Qed.

(** Both tables against the palette, by computation. *)
Lemma rgb_index_exact : Forall (λ e, e.2 < 256 ∧ bs e.1 = rgb_key (palette e.2)) RGB_INDEX.
Proof. apply (bool_decide_unpack _). vm_compute. exact I. Qed.
Lemma palette_covered :
  Forall (λ i, is_Some (color_name i) ∧ is_Some (rgb_index (rgb_key (palette i)))) indices.
Proof. apply (bool_decide_unpack _). vm_compute. exact I. Qed.

Lemma hex_digit_inj a b :
  a < 16 → b < 16 → to_ascii_lowercase [hex_digit a] = to_ascii_lowercase [hex_digit b] → a = b.
Proof.
  intros Ha Hb. unfold to_ascii_lowercase, hex_digit. cbn. intros [= H]. revert H. unfold is_upper, in_range.
  destruct (N.ltb_spec a 10), (N.ltb_spec b 10); repeat case_match; lia.
Qed.
Lemma rgb_key_inj r g b r' g' b' :
  r < 256 → g < 256 → b < 256 → r' < 256 → g' < 256 → b' < 256 →
  rgb_key (r, g, b) = rgb_key (r', g', b') → (r, g, b) = (r', g', b').
Proof.
  intros Hr Hg Hb Hr' Hg' Hb' Heq. assert (∀ n, n < 256 → n / 16 < 16 ∧ n mod 16 < 16 ∧ n = 16 * (n / 16) + n mod 16) as Hd.
  { intros n Hn. split_and!; [apply N.Div0.div_lt_upper_bound; lia|by apply N.mod_lt|by apply N.div_mod]. }
  assert (∀ a b c d e f a' b' c' d' e' f' : N,
    to_ascii_lowercase (bs "#" ++ [a; b] ++ [c; d] ++ [e; f]) = to_ascii_lowercase (bs "#" ++ [a'; b'] ++ [c'; d'] ++ [e'; f']) →
    to_ascii_lowercase [a] = to_ascii_lowercase [a'] ∧ to_ascii_lowercase [b] = to_ascii_lowercase [b'] ∧
    to_ascii_lowercase [c] = to_ascii_lowercase [c'] ∧ to_ascii_lowercase [d] = to_ascii_lowercase [d'] ∧
    to_ascii_lowercase [e] = to_ascii_lowercase [e'] ∧ to_ascii_lowercase [f] = to_ascii_lowercase [f']) as Hsplit.
  { intros a0 b0 c0 d0 e0 f0 a1 b1 c1 d1 e1 f1 H. unfold to_ascii_lowercase in *. cbn in *. by injection H as -> -> -> -> -> ->. }
  destruct (Hsplit _ _ _ _ _ _ _ _ _ _ _ _ Heq) as (H1 & H2 & H3 & H4 & H5 & H6).
  apply hex_digit_inj in H1, H2, H3, H4, H5, H6; try (apply Hd; done).
  f_equal; [f_equal|].
  - rewrite (proj2 (proj2 (Hd r ltac:(done)))), (proj2 (proj2 (Hd r' ltac:(done)))). congruence.
  - rewrite (proj2 (proj2 (Hd g ltac:(done)))), (proj2 (proj2 (Hd g' ltac:(done)))). congruence.
  - rewrite (proj2 (proj2 (Hd b ltac:(done)))), (proj2 (proj2 (Hd b' ltac:(done)))). congruence.
Qed.
Lemma palette_bytes : Forall (λ i, let '(r, g, b) := palette i in r < 256 ∧ g < 256 ∧ b < 256) indices.
Proof.
  assert (Forall (λ i, (palette i).1.1 < 256 ∧ (palette i).1.2 < 256 ∧ (palette i).2 < 256) indices) as H.
  { apply (bool_decide_unpack _). vm_compute. exact I. }
  eapply Forall_impl; [exact H|]. cbn. intros i. by destruct (palette i) as [[r g] b].
Qed.

Lemma rgb_index_Some key i : rgb_index key = Some i → i < 256 ∧ key = rgb_key (palette i).
Proof.
  unfold rgb_index. intros ([h j] & Hf & ->)%fmap_Some. apply find_some in Hf as [Hin Heq].
  apply bool_decide_eq_true_1 in Heq. apply list_elem_of_In in Hin.
  pose proof (proj1 (Forall_forall _ _) rgb_index_exact _ Hin) as [H1 H2]. cbn in *. split; [done|]. by rewrite <-Heq.
Qed.

(** Every index of the palette has a name.  A colour given by its components
    is named after a palette colour with just these components, and every
    palette colour is; any other colour is spelled out in hexadecimal, so a
    name is never an approximation. *)
Theorem color_names_are_exact :
  (∀ i, i < 256 → is_Some (color_name i) ∧ is_Some (rgb_index (rgb_key (palette i)))) ∧
  (∀ r g b, r < 256 → g < 256 → b < 256 →
    (∃ i, i < 256 ∧ palette i = (r, g, b) ∧ describe_color (Rgb r g b) = describe_color (Indexed i)) ∨
    ((∀ i, i < 256 → palette i ≠ (r, g, b)) ∧ describe_color (Rgb r g b) = bs "#" ++ hex2 r ++ hex2 g ++ hex2 b)).
Proof.
  assert (∀ i, i < 256 → is_Some (color_name i) ∧ is_Some (rgb_index (rgb_key (palette i)))) as Hcover.
  { intros i Hi. apply (proj1 (Forall_forall _ _) palette_covered i). by apply elem_of_indices. }
  split; [done|]. intros r g b Hr Hg Hb. unfold describe_color.
  change (to_ascii_lowercase (bs "#" ++ hex2 r ++ hex2 g ++ hex2 b)) with (rgb_key (r, g, b)).
  destruct (rgb_index (rgb_key (r, g, b))) as [i|] eqn:E; cbn [mbind option_bind].
  - left. apply rgb_index_Some in E as [Hi Hkey]. exists i.
    pose proof (proj1 (Forall_forall _ _) palette_bytes i (proj2 (elem_of_indices i) Hi)) as Hp.
    cbv beta in Hp. destruct (palette i) as [[r' g'] b'] eqn:Ep. destruct Hp as (H1 & H2 & H3).
    apply rgb_key_inj in Hkey; [|done..]. split_and!; [done|done|].
    destruct (Hcover i Hi) as [[name Hname] _]. by rewrite Hname.
  - right. split; [|done]. intros i Hi Hp. destruct (Hcover i Hi) as [_ [j Hj]]. rewrite Hp in Hj. congruence.
Qed.
