(* ===== verification/Keymap.v ===== *)
(** Actions and key bindings: the names of the actions and their help
    (src/src/commands.rs), and the bindings of the three input modes
    (src/src/keymap.rs).

    The registry of the Lua interpreter, which keeps the functions of bindings
    alive, is the set of the keys it has handed out; [create] is what it hands
    out for a new function, a key that is not in use.  Calling a function is the
    interpreter's. *)

From S2P Require Import Prelude Terminal Screen Table.
Local Open Scope N_scope.

(** * Actions *)

Inductive Action :=
  | ToggleHelp | ToggleAutoRead | ToggleReviewCursorFollowsScreenCursor | ToggleSymbolLevel | SayOverlay
  | OpenLuaRepl | OpenReview | OpenTmuxConnectionChooser | RenameTmuxConnection | OpenTmuxSessionChooser
  | OpenTmuxWindowChooser | OpenTmuxPaneChooser | OpenTmuxCommandPrompt | DetachTmuxConnection
  | ForceAbandonTmuxGateway | PassNextKey | StopSpeaking | RevLinePrev | RevLineNext | RevLinePrevNonBlank
  | RevLineNextNonBlank | RevLineRead | RevCharPrev | RevCharNext | RevCharRead | RevCharReadPhonetic
  | RevWordPrev | RevWordNext | RevWordRead | RevTop | RevBottom | RevFirst | RevLast | RevReadAttributes
  | LeftClick | RightClick | Backspace | Delete | SayTime | SetMark | Copy | Paste | PasteInternal | PasteSystem
  | SayClipboard | SayInternalClipboard | SaySystemClipboard | PreviousClipboard | NextClipboard | ToggleTableMode
  | ToggleStopSpeechOnFocusLoss | StartTableSetupMode | CancelTableSetupMode | CommitTableSetupMode
  | ToggleTableSetupTabstop | ExitTableMode | TableRowPrev | TableRowNext | TableRowTop | TableRowBottom
  | TableColPrev | TableColNext | TableColFirst | TableColLast | TableCellRead | TableHeaderRead
  | ToggleTableHeaderRead | TableWordPrev | TableWordNext | TableWordRead | TableCharPrev | TableCharNext
  | TableCharRead.
#[export] Instance Action_eq_dec : EqDecision Action.
Proof. solve_decision. Defined.

Definition all_actions : list Action := [
  ToggleHelp; ToggleAutoRead; ToggleReviewCursorFollowsScreenCursor; ToggleSymbolLevel; SayOverlay; OpenLuaRepl;
  OpenReview; OpenTmuxConnectionChooser; RenameTmuxConnection; OpenTmuxSessionChooser; OpenTmuxWindowChooser;
  OpenTmuxPaneChooser; OpenTmuxCommandPrompt; DetachTmuxConnection; ForceAbandonTmuxGateway; PassNextKey;
  StopSpeaking; RevLinePrev; RevLineNext; RevLinePrevNonBlank; RevLineNextNonBlank; RevLineRead; RevCharPrev;
  RevCharNext; RevCharRead; RevCharReadPhonetic; RevWordPrev; RevWordNext; RevWordRead; RevTop; RevBottom;
  RevFirst; RevLast; RevReadAttributes; LeftClick; RightClick; Backspace; Delete; SayTime; SetMark; Copy; Paste;
  PasteInternal; PasteSystem; SayClipboard; SayInternalClipboard; SaySystemClipboard; PreviousClipboard;
  NextClipboard; ToggleTableMode; ToggleStopSpeechOnFocusLoss; StartTableSetupMode; CancelTableSetupMode;
  CommitTableSetupMode; ToggleTableSetupTabstop; ExitTableMode; TableRowPrev; TableRowNext; TableRowTop;
  TableRowBottom; TableColPrev; TableColNext; TableColFirst; TableColLast; TableCellRead; TableHeaderRead;
  ToggleTableHeaderRead; TableWordPrev; TableWordNext; TableWordRead; TableCharPrev; TableCharNext; TableCharRead
].
(** The help text and the name of an action. *)
Definition metadata (a : Action) : string * string :=
  match a with
  | ToggleHelp => ("toggle help", "toggle_help")%string
  | ToggleAutoRead => ("toggle auto read", "toggle_auto_read")%string
  | ToggleReviewCursorFollowsScreenCursor => ("toggle whether review cursor follows screen cursor", "toggle_review_cursor_follows_screen_cursor")%string
  | ToggleSymbolLevel => ("toggle symbol level", "toggle_symbol_level")%string
  | SayOverlay => ("say current overlay", "say_overlay")%string
  | OpenLuaRepl => ("open Lua REPL", "open_lua_repl")%string
  | OpenReview => ("enter review mode", "open_review")%string
  | OpenTmuxConnectionChooser => ("open tmux connection chooser", "open_tmux_connection_chooser")%string
  | RenameTmuxConnection => ("rename tmux connection", "rename_tmux_connection")%string
  | OpenTmuxSessionChooser => ("open tmux session chooser", "open_tmux_session_chooser")%string
  | OpenTmuxWindowChooser => ("open tmux window chooser", "open_tmux_window_chooser")%string
  | OpenTmuxPaneChooser => ("open tmux pane chooser", "open_tmux_pane_chooser")%string
  | OpenTmuxCommandPrompt => ("open tmux command prompt", "open_tmux_command_prompt")%string
  | DetachTmuxConnection => ("gracefully detach the active tmux connection", "detach_tmux_connection")%string
  | ForceAbandonTmuxGateway => ("expose a stuck active tmux gateway as raw terminal input", "force_abandon_tmux_gateway")%string
  | PassNextKey => ("forward next key press", "pass_next_key")%string
  | StopSpeaking => ("stop speaking", "stop_speaking")%string
  | RevLinePrev => ("previous line", "review_line_prev")%string
  | RevLineNext => ("next line", "review_line_next")%string
  | RevLinePrevNonBlank => ("previous non blank line", "review_line_prev_non_blank")%string
  | RevLineNextNonBlank => ("next non blank line", "review_line_next_non_blank")%string
  | RevLineRead => ("current line", "review_line_read")%string
  | RevCharPrev => ("previous character", "review_char_prev")%string
  | RevCharNext => ("next character", "review_char_next")%string
  | RevCharRead => ("current character", "review_char_read")%string
  | RevCharReadPhonetic => ("current character phonetically", "review_char_read_phonetic")%string
  | RevWordPrev => ("previous word", "review_word_prev")%string
  | RevWordNext => ("next word", "review_word_next")%string
  | RevWordRead => ("current word", "review_word_read")%string
  | RevTop => ("top", "review_top")%string
  | RevBottom => ("bottom", "review_bottom")%string
  | RevFirst => ("beginning of line", "review_first")%string
  | RevLast => ("end of line", "review_last")%string
  | RevReadAttributes => ("read attributes", "review_read_attributes")%string
  | LeftClick => ("left click at review cursor", "left_click")%string
  | RightClick => ("right click at review cursor", "right_click")%string
  | Backspace => ("backspace", "backspace")%string
  | Delete => ("delete", "delete")%string
  | SayTime => ("say the time", "say_time")%string
  | SetMark => ("set mark", "set_mark")%string
  | Copy => ("copy", "copy")%string
  | Paste => ("paste", "paste")%string
  | PasteInternal => ("paste internal clipboard", "paste_internal")%string
  | PasteSystem => ("paste system clipboard", "paste_system")%string
  | SayClipboard => ("say clipboard", "say_clipboard")%string
  | SayInternalClipboard => ("say internal clipboard", "say_internal_clipboard")%string
  | SaySystemClipboard => ("say system clipboard", "say_system_clipboard")%string
  | PreviousClipboard => ("previous clipboard", "previous_clipboard")%string
  | NextClipboard => ("next clipboard", "next_clipboard")%string
  | ToggleTableMode => ("toggle table mode", "toggle_table_mode")%string
  | ToggleStopSpeechOnFocusLoss => ("toggle stop speech on focus loss", "toggle_stop_speech_on_focus_loss")%string
  | StartTableSetupMode => ("start table setup mode", "start_table_setup_mode")%string
  | CancelTableSetupMode => ("cancel table setup mode", "cancel_table_setup_mode")%string
  | CommitTableSetupMode => ("commit table setup mode", "commit_table_setup_mode")%string
  | ToggleTableSetupTabstop => ("toggle tabstop at review cursor", "toggle_table_setup_tabstop")%string
  | ExitTableMode => ("exit table mode", "exit_table_mode")%string
  | TableRowPrev => ("previous table row", "table_row_prev")%string
  | TableRowNext => ("next table row", "table_row_next")%string
  | TableRowTop => ("top table row", "table_row_top")%string
  | TableRowBottom => ("bottom table row", "table_row_bottom")%string
  | TableColPrev => ("previous table column", "table_col_prev")%string
  | TableColNext => ("next table column", "table_col_next")%string
  | TableColFirst => ("first table column", "table_col_first")%string
  | TableColLast => ("last table column", "table_col_last")%string
  | TableCellRead => ("current table cell", "table_cell_read")%string
  | TableHeaderRead => ("current table header", "table_header_read")%string
  | ToggleTableHeaderRead => ("toggle table header reading", "toggle_table_header_read")%string
  | TableWordPrev => ("previous word in cell", "table_word_prev")%string
  | TableWordNext => ("next word in cell", "table_word_next")%string
  | TableWordRead => ("current word in cell", "table_word_read")%string
  | TableCharPrev => ("previous character in cell", "table_char_prev")%string
  | TableCharNext => ("next character in cell", "table_char_next")%string
  | TableCharRead => ("current character in cell", "table_char_read")%string
  end.
Definition help_text (a : Action) : bytes := bs (metadata a).1.
Definition builtin_action_name (a : Action) : bytes := bs (metadata a).2.
Definition builtin_action_from_name (name : bytes) : option Action :=
  List.find (λ a, bool_decide (builtin_action_name a = name)) all_actions.

Definition uses_presented_view (a : Action) : bool :=
  match a with
  | SayOverlay | ToggleReviewCursorFollowsScreenCursor | OpenReview | RevLinePrev | RevLineNext
  | RevLinePrevNonBlank | RevLineNextNonBlank | RevLineRead | RevCharPrev | RevCharNext | RevCharRead
  | RevCharReadPhonetic | RevWordPrev | RevWordNext | RevWordRead | RevTop | RevBottom | RevFirst | RevLast
  | RevReadAttributes | SetMark | Copy | ToggleTableMode | StartTableSetupMode | CommitTableSetupMode
  | ToggleTableSetupTabstop | TableRowPrev | TableRowNext | TableRowTop | TableRowBottom | TableColPrev
  | TableColNext | TableColFirst | TableColLast | TableCellRead | TableHeaderRead | TableWordPrev | TableWordNext
  | TableWordRead | TableCharPrev | TableCharNext | TableCharRead => true
  | _ => false
  end.

(** * Modes *)

Definition mode_from_prefix (prefix : bytes) : option InputMode :=
  if bool_decide (prefix = bs "normal") then Some NormalMode
  else if bool_decide (prefix = bs "table") then Some TableMode
  else if bool_decide (prefix = bs "table_setup") then Some TableSetupMode
  else None.
Definition mode_str (m : InputMode) : bytes :=
  match m with NormalMode => bs "normal" | TableMode => bs "table" | TableSetupMode => bs "table_setup" end.

Definition COLON : byte := 58.
(** [key.splitn(2, ':')]: the prefix and, when there is a colon, the rest. *)
Definition split_mode_key (key : bytes) : InputMode * bytes :=
  let parts := splitn 2 (λ c, c =? COLON) key in
  let prefix := default [] (parts !! 0%nat) in
  match mode_from_prefix prefix, parts !! 1%nat with
  | Some mode, Some rest => if bool_decide (rest = []) then (NormalMode, key) else (mode, rest)
  | _, _ => (NormalMode, key)
  end.

Inductive KeymapError := InvalidBuiltinPrefix | UnknownAction (value : bytes).
Definition BUILTIN_PREFIX : bytes := bs "lector.".
Definition builtin_action_from_value (value : bytes) : result KeymapError Action :=
  match strip_prefix BUILTIN_PREFIX value with
  | Some name =>
      match builtin_action_from_name name with
      | Some a => Ok a
      | None => Err (UnknownAction value)
      end
  | None => Err InvalidBuiltinPrefix
  end.

(** * Bindings *)

Inductive Binding := Builtin (action : Action) | LuaBinding (help : bytes) (func : N).
#[export] Instance Binding_eq_dec : EqDecision Binding.
Proof. solve_decision. Defined.
Definition binding_help_text (b : Binding) : bytes :=
  match b with Builtin action => help_text action | LuaBinding help _ => help end.

Definition NORMAL_BINDINGS : list (bytes * Action) := [
  (bs "F1", ToggleHelp); (bs "M-'", ToggleAutoRead); (bs "M-" ++ [34], ToggleReviewCursorFollowsScreenCursor);
  (bs "M-s", ToggleSymbolLevel); (bs "M-r", OpenReview); (bs "M-w", SayOverlay); (bs "M-n", PassNextKey);
  (bs "M-x", StopSpeaking); (bs "M-u", RevLinePrev); (bs "M-o", RevLineNext); (bs "M-U", RevLinePrevNonBlank);
  (bs "M-O", RevLineNextNonBlank); (bs "M-i", RevLineRead); (bs "M-m", RevCharPrev); (bs "M-.", RevCharNext);
  (bs "M-,", RevCharRead); (bs "M-<", RevCharReadPhonetic); (bs "M-j", RevWordPrev); (bs "M-l", RevWordNext);
  (bs "M-k", RevWordRead); (bs "M-y", RevTop); (bs "M-p", RevBottom); (bs "M-h", RevFirst); (bs "M-;", RevLast);
  (bs "M-a", RevReadAttributes); (bs "Backspace", Backspace); (bs "C-h", Backspace); (bs "Delete", Delete);
  (bs "F12", SayTime); (bs "M-L", OpenLuaRepl); (bs "M-C", OpenTmuxConnectionChooser); (bs "F5", SetMark);
  (bs "F6", Copy); (bs "F7", Paste); (bs "M-c", SayClipboard); (bs "M-[", PreviousClipboard);
  (bs "M-]", NextClipboard); (bs "M-t", ToggleTableMode); (bs "M-{", LeftClick); (bs "M-}", RightClick);
  (bs "M-T", StartTableSetupMode); (bs "M-g", ToggleStopSpeechOnFocusLoss)
].
Definition TABLE_BINDINGS : list (bytes * Action) := [
  (bs "Esc", ExitTableMode); (bs "M-u", TableRowPrev); (bs "M-o", TableRowNext); (bs "M-i", TableCellRead);
  (bs "j", TableRowNext); (bs "k", TableRowPrev); (bs "g", TableRowTop); (bs "G", TableRowBottom);
  (bs "h", TableColPrev); (bs "l", TableColNext); (bs "^", TableColFirst); (bs "$", TableColLast);
  (bs "i", TableCellRead); (bs "M-j", TableWordPrev); (bs "M-l", TableWordNext); (bs "M-k", TableWordRead);
  (bs "M-m", TableCharPrev); (bs "M-.", TableCharNext); (bs "M-,", TableCharRead); (bs "H", TableHeaderRead);
  (bs "M-h", ToggleTableHeaderRead); (bs "M-H", ToggleTableHeaderRead)
].
Definition TABLE_SETUP_BINDINGS : list (bytes * Action) := [
  (bs "Esc", CancelTableSetupMode); (bs "Enter", CommitTableSetupMode); (bs "t", ToggleTableSetupTabstop);
  (bs "h", RevCharPrev); (bs "l", RevCharNext); (bs "i", RevCharRead); (bs "^", RevFirst); (bs "$", RevLast);
  (bs "w", RevWordNext); (bs "b", RevWordPrev)
].

Record KeyBindings := {
  normal_bindings : gmap bytes Binding;
  table_bindings : gmap bytes Binding;
  table_setup_bindings : gmap bytes Binding;
  registry : gset N
}.
(** [collect] into a map: a later pair replaces an earlier one. *)
Definition default_map (defaults : list (bytes * Action)) : gmap bytes Binding :=
  fold_left (λ m p, <[p.1 := Builtin p.2]> m) defaults ∅.
Definition new_key_bindings : KeyBindings := {|
  normal_bindings := default_map NORMAL_BINDINGS; table_bindings := default_map TABLE_BINDINGS;
  table_setup_bindings := default_map TABLE_SETUP_BINDINGS; registry := ∅ |}.

Definition bindings (k : KeyBindings) (m : InputMode) : gmap bytes Binding :=
  match m with
  | NormalMode => normal_bindings k
  | TableMode => table_bindings k
  | TableSetupMode => table_setup_bindings k
  end.
Definition set_bindings (k : KeyBindings) (m : InputMode) (b : gmap bytes Binding) : KeyBindings :=
  match m with
  | NormalMode => k <| normal_bindings := b |>
  | TableMode => k <| table_bindings := b |>
  | TableSetupMode => k <| table_setup_bindings := b |>
  end.

Definition binding_for_mode (k : KeyBindings) (m : InputMode) (key : bytes) : option Binding :=
  let binding := bindings k m !! key in
  if negb (bool_decide (m = NormalMode)) then
    match binding with Some b => Some b | None => normal_bindings k !! key end
  else binding.

(** [Binding::cleanup]: the function's key goes back to the registry. *)
Definition cleanup (b : Binding) (r : gset N) : gset N :=
  match b with LuaBinding _ func => r ∖ {[ func ]} | Builtin _ => r end.
Definition cleanup_previous (previous : option Binding) (k : KeyBindings) : KeyBindings :=
  match previous with Some b => k <| registry := cleanup b (registry k) |> | None => k end.
Definition replace_binding (k : KeyBindings) (m : InputMode) (key : bytes) (b : Binding) : KeyBindings :=
  cleanup_previous (bindings k m !! key) (set_bindings k m (<[key := b]> (bindings k m))).
Definition set_builtin_binding_for_mode (k : KeyBindings) (m : InputMode) (key : bytes) (a : Action) : KeyBindings :=
  replace_binding k m key (Builtin a).
Definition clear_binding_for_mode (k : KeyBindings) (m : InputMode) (key : bytes) : KeyBindings :=
  cleanup_previous (bindings k m !! key) (set_bindings k m (delete key (bindings k m))).
(** [create] hands out no key when the interpreter fails, and the bindings stay
    as they are. *)
Definition set_lua_binding_for_mode (create : gset N → option N) (k : KeyBindings) (m : InputMode) (key help : bytes)
  : option KeyBindings :=
  func ← create (registry k);
  Some (replace_binding (k <| registry := {[ func ]} ∪ registry k |>) m key (LuaBinding help func)).

(** * Names *)

Lemma all_actions_complete a : a ∈ all_actions.
Proof. apply (bool_decide_unpack _). destruct a; vm_compute; exact I. Qed.

Lemma names_distinct : NoDup (builtin_action_name <$> all_actions).
Proof. apply (bool_decide_unpack _). vm_compute. exact I. Qed.
Lemma builtin_action_name_inj a b : builtin_action_name a = builtin_action_name b → a = b.
Proof.
  intros H. destruct (list_elem_of_lookup_1 _ _ (all_actions_complete a)) as [i Hi].
  destruct (list_elem_of_lookup_1 _ _ (all_actions_complete b)) as [j Hj].
  assert (i = j) as ->; [|congruence]. apply (NoDup_lookup _ i j (builtin_action_name a) names_distinct);
    rewrite list_lookup_fmap; [by rewrite Hi|rewrite Hj, H; done].
Qed.
Lemma action_from_name a : builtin_action_from_name (builtin_action_name a) = Some a.
Proof.
  unfold builtin_action_from_name. destruct (List.find _ all_actions) as [b|] eqn:E.
  - apply find_some in E as [_ E%bool_decide_eq_true_1]. f_equal. by apply builtin_action_name_inj.
  - pose proof (find_none _ _ E a) as H. cbv beta in H. rewrite bool_decide_eq_true_2 in H by done.
    discriminate H. apply list_elem_of_In, all_actions_complete.
Qed.

(** Every action has a name of its own, which leads back to it, also from the
    value a configuration writes; any other value is refused, with the error
    that says what is wrong with it. *)
Theorem action_names_round_trip value :
  (∀ a, builtin_action_from_name (builtin_action_name a) = Some a) ∧
  (∀ a, builtin_action_from_value value = Ok a ↔ value = BUILTIN_PREFIX ++ builtin_action_name a) ∧
  (builtin_action_from_value value = Err InvalidBuiltinPrefix ↔ ∀ rest, value ≠ BUILTIN_PREFIX ++ rest).
Proof.
  split_and!; [apply action_from_name|..].
  - intros a. unfold builtin_action_from_value. split.
    + destruct (strip_prefix _ _) as [name|] eqn:Hp; [|done]. apply strip_prefix_Some in Hp as ->.
      destruct (builtin_action_from_name _) as [b|] eqn:E; [|done]. intros [= ->].
      apply find_some in E as [_ E%bool_decide_eq_true_1]. by rewrite E.
    + intros ->. by rewrite strip_prefix_app, action_from_name.
  - unfold builtin_action_from_value. destruct (strip_prefix _ _) as [name|] eqn:Hp.
    + apply strip_prefix_Some in Hp as ->. split; [by destruct (builtin_action_from_name _)|]. intros H. by destruct (H name).
    + split; [|done]. intros _ rest ->. by rewrite strip_prefix_app in Hp.
Qed.

Lemma mode_of_str m : mode_from_prefix (mode_str m) = Some m.
Proof. by destruct m. Qed.
Lemma mode_str_inv p m : mode_from_prefix p = Some m → p = mode_str m.
Proof. unfold mode_from_prefix. repeat (case_bool_decide; [by intros [= <-]|]). done. Qed.
(** A key is split into a mode and a key in that mode exactly when it is written
    as the name of the mode, a colon and a key; any other is a key of the
    normal mode, as it is. *)
Theorem mode_keys_round_trip key :
  (∀ m rest, rest ≠ [] → split_mode_key (mode_str m ++ COLON :: rest) = (m, rest)) ∧
  (split_mode_key key = (NormalMode, key) ∨
   ∃ m rest, rest ≠ [] ∧ key = mode_str m ++ COLON :: rest ∧ split_mode_key key = (m, rest)).
Proof.
  split.
  - intros m rest Hne. unfold split_mode_key, splitn. rewrite (position_app_first _ (mode_str m)) by (by destruct m; try apply (bool_decide_unpack _)).
    rewrite take_app_length. cbn [lookup list_lookup default id]. rewrite mode_of_str.
    change (mode_str m ++ COLON :: rest) with (mode_str m ++ [COLON] ++ rest). rewrite app_assoc.
    replace (S (length (mode_str m))) with (length (mode_str m ++ [COLON])) by (rewrite length_app; cbn; lia).
    rewrite drop_app_length. by rewrite bool_decide_eq_false_2.
  - unfold split_mode_key, splitn. destruct (position _ key) as [i|] eqn:Ei; cbn [lookup list_lookup default id].
    + destruct (mode_from_prefix (take i key)) as [m|] eqn:Em; [|by left]. case_bool_decide as Hr; [by left|]. right.
      exists m, (drop (S i) key). split_and!; [done| |done]. apply mode_str_inv in Em. rewrite <-Em.
      apply position_Some in Ei as (c & Hc & Hf%N.eqb_eq & _). by rewrite <-Hf.
    + left. by destruct (mode_from_prefix key).
Qed.

(** * Bindings *)

Lemma bindings_set k m b m' : bindings (set_bindings k m b) m' = if decide (m = m') then b else bindings k m'.
Proof. by destruct m, m'. Qed.
Lemma registry_set k m b : registry (set_bindings k m b) = registry k.
Proof. by destruct m. Qed.
Lemma bindings_cleanup previous k m : bindings (cleanup_previous previous k) m = bindings k m.
Proof. destruct previous; [|done]. by destruct m. Qed.
Lemma registry_cleanup previous k :
  registry (cleanup_previous previous k) = match previous with Some b => cleanup b (registry k) | None => registry k end.
Proof. by destruct previous. Qed.

Lemma binding_for_mode_alt k m key :
  binding_for_mode k m key = match bindings k m !! key with Some b => Some b | None => bindings k NormalMode !! key end.
Proof.
  unfold binding_for_mode. destruct (decide (m = NormalMode)) as [->|Hm].
  - rewrite bool_decide_eq_true_2 by done. by destruct (bindings k NormalMode !! key).
  - by rewrite bool_decide_eq_false_2.
Qed.

(** The functions of the bindings are each bound once, and they are what the
    registry keeps alive. *)
Definition bound (k : KeyBindings) (func : N) (m : InputMode) (key : bytes) : Prop :=
  ∃ help, bindings k m !! key = Some (LuaBinding help func).
Record bindings_ok (k : KeyBindings) : Prop := {
  bound_once : ∀ func m key m' key', bound k func m key → bound k func m' key' → m = m' ∧ key = key';
  bound_alive : ∀ func, func ∈ registry k ↔ ∃ m key, bound k func m key
}.

(** Putting [new] at a place, or nothing, with its function freshly registered. *)
Lemma update_ok k m key new r :
  bindings_ok k →
  (∀ help func, new = Some (LuaBinding help func) → func ∉ registry k) →
  r = match new with Some (LuaBinding _ func) => {[ func ]} ∪ registry k | _ => registry k end →
  bindings_ok (cleanup_previous (bindings k m !! key)
    (set_bindings (k <| registry := r |>) m (partial_alter (λ _, new) key (bindings k m)))).
Proof.
  intros [Honce Halive] Hfresh ->.
  set (r := match new with Some (LuaBinding _ func) => {[ func ]} ∪ registry k | _ => registry k end).
  set (k' := cleanup_previous _ _).
  assert (∀ func m' key', bound k' func m' key' ↔
    if decide (m = m' ∧ key = key') then ∃ help, new = Some (LuaBinding help func) else bound k func m' key') as Hbound.
  { intros func m' key'. unfold bound, k'. rewrite bindings_cleanup, bindings_set.
    destruct (decide (m = m')) as [<-|Hm]; [|rewrite decide_False by tauto; by destruct m'].
    destruct (decide (key = key')) as [<-|Hk].
    - rewrite decide_True by done. by rewrite lookup_partial_alter_eq.
    - rewrite decide_False by tauto. by rewrite lookup_partial_alter_ne. }
  assert (∀ func, func ∈ registry k' ↔ func ∈ r ∧ ¬ bound k func m key) as Hreg.
  { intros func. unfold k'. rewrite registry_cleanup, registry_set. cbn [registry].
    destruct (bindings k m !! key) as [[a|h f]|] eqn:E; unfold bound; rewrite E; cbn [cleanup].
    - split; [|tauto]. intros H. split; [done|]. by intros [? ?].
    - rewrite elem_of_difference, elem_of_singleton. split; (intros [H1 H2]; split; [done|]).
      + intros [h' [= _ ->]]. done.
      + intros ->. apply H2. by exists h.
    - split; [|tauto]. intros H. split; [done|]. by intros [? ?]. }
  assert (∀ help func, new = Some (LuaBinding help func) → ¬ ∃ m' key', bound k func m' key') as Hnew.
  { intros help func E Hb. apply Halive in Hb. by destruct (Hfresh help func). }
  assert (∀ func, func ∈ r ↔ (∃ help, new = Some (LuaBinding help func)) ∨ func ∈ registry k) as Hr.
  { intros func. unfold r. destruct new as [[a|h f]|]; [naive_solver| |naive_solver].
    rewrite elem_of_union, elem_of_singleton. naive_solver. }
  split.
  - intros func m1 key1 m2 key2 H1 H2. apply Hbound in H1, H2.
    destruct (decide (m = m1 ∧ key = key1)) as [[<- <-]|H1'], (decide (m = m2 ∧ key = key2)) as [[<- <-]|H2'].
    + done.
    + destruct H1 as [h Eh]. destruct (Hnew h func Eh). by eauto.
    + destruct H2 as [h Eh]. destruct (Hnew h func Eh). by eauto.
    + by eapply Honce.
  - intros func. rewrite Hreg, Hr, Halive. split.
    + intros [[Hh|(m' & key' & Hb)] Hnot].
      * exists m, key. apply Hbound. by rewrite decide_True.
      * exists m', key'. apply Hbound. rewrite decide_False; [done|]. by intros [<- <-].
    + intros (m' & key' & Hb). apply Hbound in Hb. destruct (decide (m = m' ∧ key = key')) as [[<- <-]|Hne].
      * split; [by left|]. destruct Hb as [h Eh]. intros Hb. apply (Hnew h func Eh). by eauto.
      * split; [right; by eauto|]. intros Hb'. apply Hne. by eapply Honce.
Qed.

Inductive binding_step (create : gset N → option N) : KeyBindings → KeyBindings → Prop :=
  | step_builtin k m key a : binding_step create k (set_builtin_binding_for_mode k m key a)
  | step_clear k m key : binding_step create k (clear_binding_for_mode k m key)
  | step_lua k m key help k' : set_lua_binding_for_mode create k m key help = Some k' → binding_step create k k'.

(** Whatever is bound, replaced and cleared, from the default bindings on, the
    registry holds the functions of the current bindings and no others: none
    leaks, and none that is bound has been freed.  A binding that is set is the
    one that is found, one that is cleared uncovers that of the normal mode. *)
Theorem bindings_keep_their_functions create k m key a :
  (∀ r func, create r = Some func → func ∉ r) →
  rtc (binding_step create) new_key_bindings k →
  (∀ func, func ∈ registry k ↔ ∃ m key help, bindings k m !! key = Some (LuaBinding help func)) ∧
  (∀ m', binding_for_mode (set_builtin_binding_for_mode k m key a) m' key =
    if decide (m = m' ∨ (m = NormalMode ∧ bindings k m' !! key = None)) then Some (Builtin a) else binding_for_mode k m' key) ∧
  binding_for_mode (clear_binding_for_mode k m key) m key =
    (if decide (m = NormalMode) then None else bindings k NormalMode !! key).
Proof.
  intros Hcreate Hsteps. split_and!.
  - assert (bindings_ok k) as [_ Halive]; [|exact Halive].
    assert (bindings_ok new_key_bindings) as Hnew.
    { assert (∀ m key b, bindings new_key_bindings m !! key = Some b → ∃ a, b = Builtin a) as Hbuiltin.
      { assert (∀ l (m0 : gmap bytes Binding), (∀ key b, m0 !! key = Some b → ∃ a, b = Builtin a) → ∀ key b,
          fold_left (λ (m : gmap bytes Binding) (p : bytes * Action), <[p.1 := Builtin p.2]> m) l m0 !! key = Some b → ∃ a, b = Builtin a) as Hfold.
        { induction l as [|p l IH]; intros m0 Hm0; cbn [fold_left]; [done|]. apply IH. intros key' b.
          rewrite lookup_insert_Some. intros [[_ <-]|[_ H]]; [by eexists|by eapply Hm0]. }
        intros m' key' b. destruct m'; by apply Hfold. }
      split.
      - intros func m1 key1 m2 key2 [h H] _. apply Hbuiltin in H as [? ?]. done.
      - intros func. split; [by intros ?%elem_of_empty|]. intros (m' & key' & h & H). by apply Hbuiltin in H as [? ?]. }
    clear m key a. revert Hnew. induction Hsteps as [k|k k' k'' Hstep _ IH]; [done|]. intros Hk. apply IH.
    destruct Hstep as [k m key a|k m key|k m key help k' Hset].
    + by apply (update_ok k m key (Some (Builtin a)) (registry k)).
    + by apply (update_ok k m key None (registry k)).
    + unfold set_lua_binding_for_mode in Hset. destruct (create (registry k)) as [func|] eqn:E; [|done].
      injection Hset as <-.
      pose proof (update_ok k m key (Some (LuaBinding help func)) ({[ func ]} ∪ registry k) Hk) as H.
      unfold replace_binding. destruct m; apply H; (intros h f [= <- <-]; by apply Hcreate) || done.
  - intros m'. unfold set_builtin_binding_for_mode, replace_binding. rewrite !binding_for_mode_alt, !bindings_cleanup, !bindings_set.
    destruct (decide (m = m')) as [<-|Hm].
    + rewrite lookup_insert_eq. by rewrite decide_True by (by left).
    + destruct (decide (m = NormalMode)) as [->|Hn].
      * rewrite lookup_insert_eq. destruct (bindings k m' !! key) eqn:E; [by rewrite decide_False by naive_solver|].
        by rewrite decide_True by (by right).
      * by rewrite decide_False by naive_solver.
  - unfold clear_binding_for_mode. rewrite binding_for_mode_alt, !bindings_cleanup, !bindings_set.
    rewrite decide_True, lookup_delete_eq by done. destruct (decide (m = NormalMode)); [by rewrite lookup_delete_eq|done].
Qed.

Lemma bindings_keep_their_functions_witness :
  let create (r : gset N) := Some (fresh r) in
  ∃ k, set_lua_binding_for_mode create new_key_bindings TableMode [106] [] = Some k ∧
       ∀ func, func ∈ registry k ↔ ∃ m key help, bindings k m !! key = Some (LuaBinding help func).
Proof.
  intros create. eexists. split; [reflexivity|].
  apply (bindings_keep_their_functions create _ NormalMode [] ToggleHelp).
  - intros r func [= <-]. apply is_fresh.
  - eapply rtc_l; [|apply rtc_refl]. by eapply step_lua.
Defined.
