(* ===== verification/ReviewCursor.v ===== *)
(** The review cursor: searching the cells of a screen (src/src/ext/mod.rs) and
    moving the cursor over them by characters, words and lines (the cursor's
    methods of src/src/view.rs).

    A view is reduced to what the cursor reads and writes: the snapshot that is
    shown, the cursor, the indentation last reported and the two flags of a
    pending follow.  A screen has at least one row and one column, as the
    geometry of a view guarantees; where the code computes a last column as the
    size minus one, a screen without columns would make it panic. *)

From S2P Require Import Prelude Terminal Screen Table.
Local Open Scope N_scope.

(** * Searching cells *)

(** The cells that [find_cell] visits, row by row. *)
Definition search_area (s : TerminalSnapshot) (row_start col_start row_end col_end : N) : list (N * N) :=
  let row_end := N.min row_end ((size s).1 - 1) in
  let col_end := N.min col_end ((size s).2 - 1) in
  row ← range_incl row_start row_end;
  let first := if row =? row_start then col_start else 0 in
  let final := if row =? row_end then col_end else (size s).2 - 1 in
  pair row <$> range_incl first final.
Definition cell_matches (s : TerminalSnapshot) (matcher : Cell → bool) (p : N * N) : bool :=
  match cell s p.1 p.2 with Some c => matcher c | None => false end.
Definition find_cell (s : TerminalSnapshot) (matcher : Cell → bool) (row_start col_start row_end col_end : N)
  : option (N * N) :=
  head (List.filter (cell_matches s matcher) (search_area s row_start col_start row_end col_end)).
Definition rfind_cell (s : TerminalSnapshot) (matcher : Cell → bool) (row_start col_start row_end col_end : N)
  : option (N * N) :=
  head (List.filter (cell_matches s matcher) (reverse (search_area s row_start col_start row_end col_end))).

Definition is_in_word (c : Cell) : bool := has_contents c && negb (existsb is_whitespace_char (contents c)).
Definition is_highlighted (c : Cell) : bool :=
  bool_decide (bgcolor c = Indexed 11) && bool_decide (fgcolor c = Indexed 0).

Definition find_word_start (s : TerminalSnapshot) (row col : N) : N :=
  let col := match rfind_cell s is_in_word row 0 row col with Some p => p.2 | None => 0 end in
  if col =? 0 then col else
  match rfind_cell s (λ c, negb (is_in_word c)) row 0 row col with Some p => p.2 + 1 | None => 0 end.
Definition find_word_end (s : TerminalSnapshot) (row col : N) : N :=
  let last := (size s).2 - 1 in
  let col := match find_cell s (λ c, negb (is_in_word c)) row col row last with Some p => p.2 | None => last end in
  if col =? last then col else
  match find_cell s is_in_word row col row last with Some p => p.2 - 1 | None => last end.

(** The loop over the columns of a row: the highlights so far, the start of the
    one that is open. *)
Definition highlight_step (s : TerminalSnapshot) (row : N) (st : list (list N) * option N) (col : N)
  : list (list N) * option N :=
  let '(highlights, highlight_start) := st in
  match cell s row col with
  | None => st
  | Some c =>
      let at_end := col =? (size s).2 - 1 in
      match highlight_start with
      | Some start =>
          if negb (is_highlighted c) || at_end then
            let end_ := if is_highlighted c then col + 1 else col in
            (highlights ++ [contents_between s row start row end_], None)
          else st
      | None =>
          if is_highlighted c then
            if at_end then (highlights ++ [contents_between s row col row (col + 1)], None)
            else (highlights, Some col)
          else st
      end
  end.
Definition get_highlights (s : TerminalSnapshot) : list (list N) :=
  fold_left (λ highlights row,
      (fold_left (highlight_step s row) (N.of_nat <$> seq 0 (N.to_nat (size s).2)) (highlights, None)).1)
    (N.of_nat <$> seq 0 (N.to_nat (size s).1)) [].

(** * The cursor of a view *)

Record ReviewView := {
  view_screen : TerminalSnapshot;
  review_cursor_position : N * N;
  review_cursor_indent_level : N;
  review_cursor_follow_pending : bool;
  review_cursor_screen_transition_pending : bool
}.
Definition view_size (v : ReviewView) : N * N := size (view_screen v).
Definition set_review_cursor_position (p : N * N) (v : ReviewView) : ReviewView := v <| review_cursor_position := p |>.
Definition set_review_cursor_row (row : N) (v : ReviewView) : ReviewView :=
  v <| review_cursor_position := (row, (review_cursor_position v).2) |>.
Definition set_review_cursor_col (col : N) (v : ReviewView) : ReviewView :=
  v <| review_cursor_position := ((review_cursor_position v).1, col) |>.
Definition cancel_pending_screen_transition_follow (v : ReviewView) : ReviewView :=
  ((v <| review_cursor_screen_transition_pending := false |>) <| review_cursor_follow_pending := false |>).

Definition line_has_text (s : TerminalSnapshot) (row : N) : bool :=
  match rows s !! N.to_nat row with
  | Some r => existsb (λ c, existsb (λ x, negb (is_whitespace_char x)) (contents c)) (cells r)
  | None => false
  end.

(** [View::follow_application_cursor]: the viewport goes to the live screen, or
    while output is frozen to the one last committed, and the review cursor to
    the cursor of the application. *)
Definition follow_application_cursor (frozen : bool) (live : TerminalSnapshot) (v : ReviewView) : ReviewView :=
  let v := (v <| view_screen := live |>) <| review_cursor_position := cursor_position live |> in
  let v := if negb frozen && line_has_text live (review_cursor_position v).1
           then v <| review_cursor_screen_transition_pending := false |> else v in
  v <| review_cursor_follow_pending := negb frozen && review_cursor_screen_transition_pending v |>.

Definition starts_text (c : Cell) : bool :=
  negb (bool_decide (contents c = [])) && negb (forallb is_whitespace_char (contents c)).
Definition review_cursor_indentation_level (v : ReviewView) : (N * bool) * ReviewView :=
  let row := (review_cursor_position v).1 in
  let indent := match find_cell (view_screen v) starts_text row 0 row ((view_size v).2 - 1) with
                | Some p => p.2
                | None => review_cursor_indent_level v
                end in
  let changed := negb (indent =? review_cursor_indent_level v) in
  ((indent, changed), v <| review_cursor_indent_level := indent |>).

Definition review_cursor_up (skip_blank_lines : bool) (v : ReviewView) : bool * ReviewView :=
  let row := (review_cursor_position v).1 in
  if row =? 0 then (false, v) else
  if negb skip_blank_lines then (true, set_review_cursor_row (row - 1) v) else
  let target := match rfind_cell (view_screen v) is_in_word 0 0 (row - 1) ((view_size v).2 - 1) with
                | Some p => p.1
                | None => row
                end in
  (negb (target =? row), set_review_cursor_row target v).
Definition review_cursor_down (skip_blank_lines : bool) (v : ReviewView) : bool * ReviewView :=
  let row := (review_cursor_position v).1 in
  let last_row := (view_size v).1 - 1 in
  if row =? last_row then (false, v) else
  if negb skip_blank_lines then (true, set_review_cursor_row (row + 1) v) else
  let target := match find_cell (view_screen v) is_in_word (row + 1) 0 last_row ((view_size v).2 - 1) with
                | Some p => p.1
                | None => row
                end in
  (negb (target =? row), set_review_cursor_row target v).

Definition review_cursor_prev_word (v : ReviewView) : bool * ReviewView :=
  let '(row, col) := review_cursor_position v in
  let col := find_word_start (view_screen v) row col in
  if col =? 0 then (false, set_review_cursor_col 0 v)
  else (true, set_review_cursor_col (find_word_start (view_screen v) row (col - 1)) v).
Definition review_cursor_next_word (v : ReviewView) : bool * ReviewView :=
  let last := (view_size v).2 - 1 in
  let '(row, col) := review_cursor_position v in
  let col := find_word_end (view_screen v) row col in
  if last <=? col then (false, v) else (true, set_review_cursor_col (col + 1) v).

Definition review_cursor_left (v : ReviewView) : bool * ReviewView :=
  let '(row, col) := review_cursor_position v in
  if col =? 0 then (false, v) else
  match rfind_cell (view_screen v) (λ c, negb (is_wide_continuation c)) row 0 row (col - 1) with
  | Some p => (true, set_review_cursor_position p v)
  | None => (false, v)
  end.
Definition review_cursor_right (v : ReviewView) : bool * ReviewView :=
  let '(row, col) := review_cursor_position v in
  if (view_size v).2 - 1 <=? col then (false, v) else
  match find_cell (view_screen v) (λ c, negb (is_wide_continuation c)) row (col + 1) row ((view_size v).2 - 1) with
  | Some p => (true, set_review_cursor_position p v)
  | None => (false, v)
  end.

Definition view_line (v : ReviewView) (row : N) : list N := line (view_screen v) row.
Definition view_word (v : ReviewView) (row col : N) : list N :=
  let start := find_word_start (view_screen v) row col in
  let end_ := find_word_end (view_screen v) row col in
  contents_between (view_screen v) row start row (end_ + 1).
Definition view_character (v : ReviewView) (row col : N) : list N :=
  contents_between (view_screen v) row col row (col + 1).

(** * What the searches visit *)

(** Every row has a cell in every column. *)
Definition grid_ok (s : TerminalSnapshot) : Prop :=
  1 ≤ (size s).1 ∧ 1 ≤ (size s).2 ∧ len (rows s) ≤ u16_max ∧ Forall (λ r, len (cells r) = (size s).2) (rows s).
Definition cursor_ok (v : ReviewView) : Prop :=
  (review_cursor_position v).1 < (view_size v).1 ∧ (review_cursor_position v).2 < (view_size v).2.

Lemma grid_cell s row col : grid_ok s → row < (size s).1 → col < (size s).2 → ∃ c, cell s row col = Some c.
Proof.
  intros (_ & _ & Hrows & Hcells) Hr Hc. unfold cell. unfold size in Hr. cbn [fst] in Hr. unfold to_u16 in Hr.
  destruct (lookup_lt_is_Some_2 (rows s) (N.to_nat row)) as [r Er]; [lia|]. rewrite Er. cbn [mbind option_bind].
  eapply Forall_lookup_1 in Hcells; [|exact Er]. cbv beta in Hcells.
  destruct (lookup_lt_is_Some_2 (cells r) (N.to_nat col)) as [c Ec]; [lia|]. by exists c.
Qed.
Lemma cell_bounds s row col c : grid_ok s → cell s row col = Some c → row < (size s).1 ∧ col < (size s).2.
Proof.
  intros (_ & _ & Hrows & Hcells) H. unfold cell in H. destruct (rows s !! N.to_nat row) as [r|] eqn:Er; [|done].
  cbn [mbind option_bind] in H. pose proof (lookup_lt_Some _ _ _ Er). pose proof (lookup_lt_Some _ _ _ H).
  eapply Forall_lookup_1 in Hcells; [|exact Er]. cbv beta in Hcells. split; [|lia].
  unfold size. cbn [fst]. unfold to_u16. lia.
Qed.
Lemma head_filter_Some {A} (f : A → bool) l x : head (List.filter f l) = Some x → x ∈ l ∧ f x = true.
Proof. intros H. rewrite head_lookup in H. by apply list_elem_of_lookup_2, elem_of_Filter in H. Qed.
Lemma find_cell_bounds s f a b c d p :
  grid_ok s → find_cell s f a b c d = Some p → p.1 < (size s).1 ∧ p.2 < (size s).2.
Proof.
  intros Hs [_ H]%head_filter_Some. unfold cell_matches in H.
  destruct (cell s p.1 p.2) eqn:E; [|done]. by eapply cell_bounds.
Qed.
Lemma rfind_cell_bounds s f a b c d p :
  grid_ok s → rfind_cell s f a b c d = Some p → p.1 < (size s).1 ∧ p.2 < (size s).2.
Proof.
  intros Hs [_ H]%head_filter_Some. unfold cell_matches in H.
  destruct (cell s p.1 p.2) eqn:E; [|done]. by eapply cell_bounds.
Qed.

(** Within one row the searches are those of a range of columns. *)
Lemma search_area_row s row b d :
  row < (size s).1 → d < (size s).2 → search_area s row b row d = pair row <$> range_incl b d.
Proof.
  intros Hr Hd. unfold search_area. rewrite (N.min_l row), (N.min_l d) by lia.
  rewrite range_cons, (range_nil (row + 1)) by lia. cbn [mbind list_bind]. rewrite app_nil_r, N.eqb_refl. done.
Qed.
Lemma filter_pair (f : N * N → bool) (row : N) (l : list N) : List.filter f (pair row <$> l) = pair row <$> List.filter (λ c, f (row, c)) l.
Proof. induction l as [|c l IH]; cbn; [done|]. destruct (f (row, c)); cbn; by rewrite IH. Qed.
Lemma head_pair (row : N) (l : list N) (p : N * N) : head (pair row <$> l) = Some p ↔ p.1 = row ∧ head l = Some p.2.
Proof. destruct p as [a b], l; cbn; [naive_solver|]. split; [by intros [= <- <-]|]. by intros [-> [= ->]]. Qed.

Section Rows.
Context (s : TerminalSnapshot) (Hs : grid_ok s) (row : N) (Hrow : row < (size s).1).

(** Whether the cell of a column of the row satisfies [f]. *)
Definition at_col (f : Cell → bool) (c : N) : bool := cell_matches s f (row, c).

Lemma find_row_cell f b d p :
  d < (size s).2 →
  find_cell s f row b row d = Some p ↔ p.1 = row ∧ b ≤ p.2 ≤ d ∧ at_col f p.2 = true ∧ ∀ y, b ≤ y < p.2 → at_col f y = false.
Proof.
  intros Hd. unfold find_cell. rewrite search_area_row by done. rewrite filter_pair, head_pair.
  change (head (List.filter (λ c, cell_matches s f (row, c)) (range_incl b d))) with (find_row (at_col f) b d).
  by rewrite find_row_least.
Qed.
Lemma find_row_cell_None f b d :
  d < (size s).2 → find_cell s f row b row d = None ↔ ∀ y, b ≤ y ≤ d → at_col f y = false.
Proof.
  intros Hd. unfold find_cell. rewrite search_area_row by done. rewrite filter_pair. split.
  - intros H y Hy. destruct (at_col f y) eqn:E; [|done].
    assert (y ∈ List.filter (λ c, cell_matches s f (row, c)) (range_incl b d)) as Hin.
    { apply elem_of_Filter. split; [by apply elem_of_range|done]. }
    destruct (List.filter _ _); [by apply elem_of_nil in Hin|done].
  - intros H. destruct (List.filter (λ c, cell_matches s f (row, c)) (range_incl b d)) as [|y l] eqn:E; [done|].
    assert (y ∈ y :: l) as Hin by (apply elem_of_cons; by left). rewrite <-E in Hin.
    apply elem_of_Filter in Hin as [Hy%elem_of_range Hf]. unfold at_col in H. by rewrite H in Hf.
Qed.
Lemma reverse_filter {A} (f : A → bool) l : List.filter f (reverse l) = reverse (List.filter f l).
Proof.
  induction l as [|x l IH]; [done|]. rewrite reverse_cons, List.filter_app, IH. cbn [List.filter].
  destruct (f x); [by rewrite reverse_cons|by rewrite app_nil_r].
Qed.
Lemma rfind_row_cell f d p :
  d < (size s).2 →
  rfind_cell s f row 0 row d = Some p ↔ p.1 = row ∧ p.2 ≤ d ∧ at_col f p.2 = true ∧ ∀ y, p.2 < y ≤ d → at_col f y = false.
Proof.
  intros Hd. unfold rfind_cell. rewrite search_area_row by done. rewrite <-fmap_reverse, filter_pair, head_pair.
  rewrite reverse_filter, head_reverse.
  change (List.filter (λ c, cell_matches s f (row, c)) (range_incl 0 d)) with (List.filter (at_col f) (range_incl 0 d)).
  rewrite last_row_greatest. split; [intros (H1 & [_ H2] & H3 & H4)|intros (H1 & H2 & H3 & H4)]; split_and!; try done; lia.
Qed.
Lemma rfind_row_cell_None f d :
  d < (size s).2 → rfind_cell s f row 0 row d = None ↔ ∀ y, y ≤ d → at_col f y = false.
Proof.
  intros Hd. unfold rfind_cell. rewrite search_area_row by done. rewrite <-fmap_reverse, filter_pair.
  rewrite reverse_filter. split.
  - intros H y Hy. destruct (at_col f y) eqn:E; [|done].
    assert (y ∈ reverse (List.filter (λ c, cell_matches s f (row, c)) (range_incl 0 d))) as Hin.
    { rewrite elem_of_reverse. apply elem_of_Filter. split; [apply elem_of_range; lia|done]. }
    destruct (reverse _); [by apply elem_of_nil in Hin|done].
  - intros H. assert (List.filter (λ c, cell_matches s f (row, c)) (range_incl 0 d) = []) as ->; [|done].
    destruct (List.filter _ _) as [|y l] eqn:E; [done|].
    assert (y ∈ y :: l) as Hin by (apply elem_of_cons; by left). rewrite <-E in Hin.
    apply elem_of_Filter in Hin as [Hy%elem_of_range Hf]. unfold at_col in H. rewrite H in Hf; [done|lia].
Qed.

(** * Words *)

Definition in_word (c : N) : bool := at_col is_in_word c.
(** A word starts where a cell is in a word and the one before is not. *)
Definition word_starts (c : N) : bool := in_word c && ((c =? 0) || negb (in_word (c - 1))).

Lemma at_col_negb f c : c < (size s).2 → at_col (λ x, negb (f x)) c = negb (at_col f c).
Proof. intros Hc. unfold at_col, cell_matches. cbn. by destruct (grid_cell s row c Hs Hrow Hc) as [x ->]. Qed.

Lemma find_word_start_spec col :
  col < (size s).2 →
  let st := find_word_start s row col in
  st ≤ col ∧ (word_starts st = true ∨ st = 0) ∧ (∀ y, st < y ≤ col → word_starts y = false).
Proof.
  intros Hcol. cbv zeta. unfold find_word_start.
  destruct (rfind_cell s is_in_word row 0 row col) as [p|] eqn:E.
  - apply rfind_row_cell in E as (H1 & H2 & H3 & H4); [|done].
    assert (∀ y, p.2 < y ≤ col → word_starts y = false) as Hafter.
    { intros y Hy. unfold word_starts, in_word. by rewrite H4. }
    destruct (N.eqb_spec p.2 0) as [H0|H0].
    + rewrite H0 in *. split_and!; [lia|by right|done].
    + destruct (rfind_cell s _ row 0 row p.2) as [q|] eqn:E'.
      * apply rfind_row_cell in E' as (K1 & K2 & K3 & K4); [|lia]. rewrite at_col_negb in K3 by lia.
        assert (∀ y, q.2 < y ≤ p.2 → in_word y = true) as Hin.
        { intros y Hy. specialize (K4 y Hy). rewrite at_col_negb in K4 by lia. by apply negb_false_iff in K4. }
        assert (q.2 ≠ p.2) as Hne. { intros Heq. rewrite Heq, H3 in K3. done. }
        split_and!; [lia| |].
        -- left. unfold word_starts. rewrite Hin by lia. replace (q.2 + 1 - 1) with q.2 by lia. unfold in_word.
           by rewrite K3, orb_true_r.
        -- intros y Hy. destruct (decide (y ≤ p.2)); [|apply Hafter; lia]. unfold word_starts.
           rewrite (proj2 (N.eqb_neq y 0)), (Hin (y - 1)) by lia. by rewrite andb_false_r.
      * rewrite rfind_row_cell_None in E' by lia.
        assert (∀ y, y ≤ p.2 → in_word y = true) as Hin.
        { intros y Hy. specialize (E' y Hy). rewrite at_col_negb in E' by lia. by apply negb_false_iff in E'. }
        split_and!; [lia|by right|]. intros y Hy. destruct (decide (y ≤ p.2)); [|apply Hafter; lia].
        unfold word_starts. rewrite (proj2 (N.eqb_neq y 0)), (Hin (y - 1)) by lia. by rewrite andb_false_r.
  - rewrite rfind_row_cell_None in E by done. change (0 =? 0) with true. cbv iota. split_and!; [lia|by right|].
    intros y Hy. unfold word_starts, in_word. by rewrite E by lia.
Qed.

Lemma find_word_end_spec col :
  col < (size s).2 →
  let e := find_word_end s row col in
  col ≤ e < (size s).2 ∧ (e = (size s).2 - 1 ∨ word_starts (e + 1) = true) ∧ (∀ y, col < y ≤ e → word_starts y = false).
Proof.
  intros Hcol. cbv zeta. unfold find_word_end. set (last := (size s).2 - 1).
  assert (last < (size s).2) as Hlast by (unfold last; lia).
  destruct (find_cell s (λ c, negb (is_in_word c)) row col row last) as [p|] eqn:E.
  - apply find_row_cell in E as (H1 & H2 & H3 & H4); [|done]. rewrite at_col_negb in H3 by lia.
    assert (∀ y, col < y ≤ p.2 → word_starts y = false) as Hbefore.
    { intros y Hy. specialize (H4 (y - 1) ltac:(lia)). rewrite at_col_negb in H4 by lia. apply negb_false_iff in H4.
      unfold word_starts, in_word. rewrite (proj2 (N.eqb_neq y 0)), H4 by lia. by rewrite andb_false_r. }
    destruct (N.eqb_spec p.2 last) as [Hl|Hl]; [split_and!; [lia|lia|by left|exact Hbefore]|].
    destruct (find_cell s is_in_word row p.2 row last) as [q|] eqn:E'.
    + apply find_row_cell in E' as (K1 & K2 & K3 & K4); [|done]. apply negb_true_iff in H3.
      assert (q.2 ≠ p.2) as Hne. { intros Heq. rewrite Heq, H3 in K3. done. }
      split_and!; [lia|lia| |].
      * right. replace (q.2 - 1 + 1) with q.2 by lia. unfold word_starts, in_word. rewrite K3.
        rewrite (K4 (q.2 - 1)) by lia. by rewrite orb_true_r.
      * intros y Hy. destruct (decide (y ≤ p.2)); [apply Hbefore; lia|]. unfold word_starts, in_word.
        by rewrite (K4 y) by lia.
    + rewrite find_row_cell_None in E' by done. split_and!; [lia|lia|by left|]. intros y Hy.
      destruct (decide (y ≤ p.2)); [apply Hbefore; lia|]. unfold word_starts, in_word. by rewrite E' by lia.
  - rewrite find_row_cell_None in E by done. rewrite N.eqb_refl. split_and!; [lia|lia|by left|].
    intros y Hy. specialize (E (y - 1) ltac:(lia)). rewrite at_col_negb in E by lia. apply negb_false_iff in E.
    unfold word_starts, in_word. rewrite (proj2 (N.eqb_neq y 0)), E by lia. by rewrite andb_false_r.
Qed.
End Rows.

(** The next word is the first one that starts after the cursor, and the move
    reports that there is none by staying; the previous word is the last one
    that starts before the word the cursor is in or behind, or column 0, where
    the cursor also goes when no word starts after column 0 up to it. *)
Theorem review_cursor_moves_by_words v :
  grid_ok (view_screen v) → cursor_ok v →
  let '(row, col) := review_cursor_position v in
  let starts := word_starts (view_screen v) row in
  let '(moved, v1) := review_cursor_next_word v in
  let '(moved', v2) := review_cursor_prev_word v in
  (if moved then ∃ y, v1 = set_review_cursor_col y v ∧ col < y < (view_size v).2 ∧ starts y = true ∧
                      ∀ x, col < x < y → starts x = false
   else v1 = v ∧ ∀ x, col < x < (view_size v).2 → starts x = false) ∧
  (if moved' then ∃ st y, v2 = set_review_cursor_col y v ∧ 0 < st ≤ col ∧ starts st = true ∧
                      (∀ x, st < x ≤ col → starts x = false) ∧
                      y < st ∧ (starts y = true ∨ y = 0) ∧ ∀ x, y < x < st → starts x = false
   else v2 = set_review_cursor_col 0 v ∧ ∀ x, 0 < x ≤ col → starts x = false).
Proof.
  intros Hs [Hrow Hcol]. unfold view_size in *. unfold review_cursor_next_word, review_cursor_prev_word, view_size.
  destruct (review_cursor_position v) as [row col] eqn:Ep. cbn [fst snd] in Hrow, Hcol.
  pose proof (find_word_end_spec _ Hs row Hrow col Hcol) as (E1 & E2 & E3).
  set (e := find_word_end (view_screen v) row col) in *.
  pose proof (find_word_start_spec _ Hs row Hrow col Hcol) as (S1 & S2 & S3).
  set (st := find_word_start (view_screen v) row col) in *.
  destruct (N.leb_spec ((size (view_screen v)).2 - 1) e) as [Hle|Hlt]; destruct (N.eqb_spec st 0) as [H0|H0]; split.
  - split; [done|]. intros x Hx. apply E3. lia.
  - split; [done|]. intros x Hx. apply S3. lia.
  - split; [done|]. intros x Hx. apply E3. lia.
  - pose proof (find_word_start_spec _ Hs row Hrow (st - 1) ltac:(lia)) as (T1 & T2 & T3).
    destruct S2 as [S2|]; [|done]. exists st. eexists. split; [reflexivity|]. split_and!; [lia|lia|done|done|lia|done|].
    intros x Hx. apply T3. lia.
  - destruct E2 as [|E2]; [lia|]. exists (e + 1). split_and!; [done|lia|lia|done|]. intros x Hx. apply E3. lia.
  - split; [done|]. intros x Hx. apply S3. lia.
  - destruct E2 as [|E2]; [lia|]. exists (e + 1). split_and!; [done|lia|lia|done|]. intros x Hx. apply E3. lia.
  - pose proof (find_word_start_spec _ Hs row Hrow (st - 1) ltac:(lia)) as (T1 & T2 & T3).
    destruct S2 as [S2|]; [|done]. exists st. eexists. split; [reflexivity|]. split_and!; [lia|lia|done|done|lia|done|].
    intros x Hx. apply T3. lia.
Qed.

(** * The cursor stays on the screen *)

(** What moving leaves alone, and where the cursor may be. *)
Definition moved_within (v v' : ReviewView) : Prop :=
  view_screen v' = view_screen v ∧ review_cursor_indent_level v' = review_cursor_indent_level v ∧
  review_cursor_follow_pending v' = review_cursor_follow_pending v ∧
  review_cursor_screen_transition_pending v' = review_cursor_screen_transition_pending v ∧ (cursor_ok v → cursor_ok v').

Lemma moved_refl v : moved_within v v.
Proof. by split_and!. Qed.
Lemma moved_to p v :
  (cursor_ok v → p.1 < (view_size v).1 ∧ p.2 < (view_size v).2) → moved_within v (set_review_cursor_position p v).
Proof. intros H. by split_and!. Qed.
Lemma moved_to_row r v : (cursor_ok v → r < (view_size v).1) → moved_within v (set_review_cursor_row r v).
Proof. intros H. split_and!; [done..|]. intros Hv. split; [by apply H|apply Hv]. Qed.
Lemma moved_to_col c v : (cursor_ok v → c < (view_size v).2) → moved_within v (set_review_cursor_col c v).
Proof. intros H. split_and!; [done..|]. intros Hv. split; [apply Hv|by apply H]. Qed.

Lemma up_within skip v : grid_ok (view_screen v) → moved_within v (review_cursor_up skip v).2.
Proof.
  intros Hs. unfold review_cursor_up. destruct (N.eqb_spec (review_cursor_position v).1 0); [apply moved_refl|].
  destruct (negb skip); cbn [snd]; apply moved_to_row; intros [Hr Hc]; [lia|].
  destruct (rfind_cell _ _ _ _ _ _) as [p|] eqn:E; [|done]. by apply rfind_cell_bounds in E as [? _].
Qed.
Lemma down_within skip v : grid_ok (view_screen v) → moved_within v (review_cursor_down skip v).2.
Proof.
  intros Hs. unfold review_cursor_down. destruct (N.eqb_spec (review_cursor_position v).1 ((view_size v).1 - 1)); [apply moved_refl|].
  destruct (negb skip); cbn [snd]; apply moved_to_row; intros [Hr Hc]; [lia|].
  destruct (find_cell _ _ _ _ _ _) as [p|] eqn:E; [|done]. by apply find_cell_bounds in E as [? _].
Qed.
Lemma left_within v : grid_ok (view_screen v) → moved_within v (review_cursor_left v).2.
Proof.
  intros Hs. unfold review_cursor_left. destruct (review_cursor_position v) as [row col]. destruct (col =? 0); [apply moved_refl|].
  destruct (rfind_cell _ _ _ _ _ _) as [p|] eqn:E; [|apply moved_refl]. apply moved_to. intros _. by eapply rfind_cell_bounds.
Qed.
Lemma right_within v : grid_ok (view_screen v) → moved_within v (review_cursor_right v).2.
Proof.
  intros Hs. unfold review_cursor_right. destruct (review_cursor_position v) as [row col]. destruct (_ <=? _); [apply moved_refl|].
  destruct (find_cell _ _ _ _ _ _) as [p|] eqn:E; [|apply moved_refl]. apply moved_to. intros _. by eapply find_cell_bounds.
Qed.
Lemma next_word_within v : grid_ok (view_screen v) → moved_within v (review_cursor_next_word v).2.
Proof.
  intros Hs. unfold review_cursor_next_word. destruct (review_cursor_position v) as [row col] eqn:Ep.
  destruct (N.leb_spec ((view_size v).2 - 1) (find_word_end (view_screen v) row col)); [apply moved_refl|].
  apply moved_to_col. intros _. lia.
Qed.
Lemma prev_word_within v : grid_ok (view_screen v) → moved_within v (review_cursor_prev_word v).2.
Proof.
  intros Hs. unfold review_cursor_prev_word. destruct (review_cursor_position v) as [row col] eqn:Ep.
  destruct (N.eqb_spec (find_word_start (view_screen v) row col) 0); cbn [snd]; apply moved_to_col; unfold cursor_ok;
    rewrite Ep; intros [Hr Hc]; cbn [fst snd] in *; unfold view_size in *; [lia|].
  pose proof (find_word_start_spec _ Hs row Hr col Hc) as (S1 & _).
  pose proof (find_word_start_spec _ Hs row Hr (find_word_start (view_screen v) row col - 1) ltac:(lia)) as (T1 & _). lia.
Qed.

(** * Concrete screens *)

(** [  ab]: from the first word, the only one, the previous word is column 0,
    and the move counts as a move to another word. *)
Definition indented_view : ReviewView :=
  {| view_screen := text_screen [[SP; SP; 97; 98]]; review_cursor_position := (0, 3);
     review_cursor_indent_level := 0; review_cursor_follow_pending := false;
     review_cursor_screen_transition_pending := false |}.
Lemma indented_view_ok : grid_ok (view_screen indented_view) ∧ cursor_ok indented_view.
Proof. split; [split_and!; [by vm_compute..|apply Forall_singleton; by vm_compute]|by split]. Qed.
Example first_word_of_an_indented_line :
  review_cursor_prev_word indented_view = (true, set_review_cursor_col 0 indented_view) ∧
  word_starts (view_screen indented_view) 0 0 = false.
Proof. vm_compute. done. Qed.

Lemma review_cursor_moves_by_words_witness :
  let '(moved, v1) := review_cursor_next_word (set_review_cursor_col 0 indented_view) in
  if moved then ∃ y, v1 = set_review_cursor_col y (set_review_cursor_col 0 indented_view) ∧ 0 < y else False.
Proof.
  pose proof (review_cursor_moves_by_words (set_review_cursor_col 0 indented_view) (proj1 indented_view_ok)
    ltac:(split; by vm_compute)) as H.
  destruct H as [H _]. destruct H as (y & H1 & [H2 _] & _). exists y. split; [exact H1|exact H2].
Defined.
