(* ===== verification/ReaderCommands.v ===== *)
(** The commands of the review cursor and of table mode
    (src/src/commands/review.rs and src/src/commands/table.rs).

    A command runs over the view, the session of table mode and the settings of
    the screen reader.  What the reader does outside of itself, speaking and
    calling the hooks of the configuration, is an effect; the effects are kept
    in order.  What comes of an effect is decided by the parameter [world]: it
    may fail, and a failure ends the command ([?]) with the state as it is; and
    a hook runs Lua code, which through the API ([lector.api], [lector.o],
    [lector.clipboard]) may change any setting and cause further effects.  It
    cannot reach the view or the session of table mode.  A hook that is not
    installed does nothing and does not fail. *)

From S2P Require Import Prelude Terminal Screen Attributes Table Keymap ReviewCursor Clipboard.
Local Open Scope N_scope.

(** * The reader *)

Inductive Effect :=
| SpeechStart (text : list N) (interrupt : bool)
| Speech (text : list N) (interrupt : bool)
| SpeechEnd (text : list N) (interrupt ok : bool)
| SpeechStop
| ReviewCursorMoved (old new : N * N)
| ModeChanged (old new : InputMode)
| TableModeEntered (state : TableState)
| TableModeLeft
| ClipboardChanged (op : string) (entry : option (list N)).

(** [speech::symbols::Level] *)
Inductive Level := LevelNone | LevelSome | LevelMost | LevelAll | LevelCharacter.

(** The options of the reader ([screen_reader/options.rs]), the symbol level,
    the ring of the clipboard, and what has been done so far. *)
Record Settings := {
  help_mode : bool;
  auto_read : bool;
  report_indentation : bool;
  review_follows_screen_cursor : bool;
  table_header_auto : bool;
  stop_speech_on_focus_loss : bool;
  clipboard_default_register : ClipboardRegister;
  system_clipboard_provider : SystemClipboardProvider;
  symbol_level : Level;
  clipboard : Clipboard;
  pass_through : bool;
  terminal_focused : bool;
  effects : list Effect
}.

Record Reader := { rd_view : ReviewView; table_session : Session; settings : Settings }.

(** What comes of an effect: whether it succeeds, and the settings after it. *)
Abbreviation World := (Effect → Settings → bool * Settings) (only parsing).

(** Commands: the result, [None] for an error, and the state at the end. *)
Definition M (A : Type) : Type := Reader → option A * Reader.
Definition ret {A} (x : A) : M A := λ rd, (Some x, rd).
Definition bind {A B} (m : M A) (k : A → M B) : M B := λ rd,
  match m rd with (Some x, rd) => k x rd | (None, rd) => (None, rd) end.
#[export] Instance M_ret : MRet M := @ret.
#[export] Instance M_bind : MBind M := λ A B k m, bind m k.

Definition get : M Reader := λ rd, (Some rd, rd).
Definition on_view (f : ReviewView → ReviewView) : M unit := λ rd, (Some tt, rd <| rd_view := f (rd_view rd) |>).
(** A method of the view with a result. *)
Definition with_view {A} (f : ReviewView → A * ReviewView) : M A := λ rd,
  let '(x, v) := f (rd_view rd) in (Some x, rd <| rd_view := v |>).
Definition on_settings (f : Settings → Settings) : M unit := λ rd, (Some tt, rd <| settings := f (settings rd) |>).
Definition put_session (s : Session) : M unit := λ rd, (Some tt, rd <| table_session := s |>).
Definition cursor : M (N * N) := λ rd, (Some (review_cursor_position (rd_view rd)), rd).
Definition view_of : M ReviewView := λ rd, (Some (rd_view rd), rd).

Section Commands.
Context (world : World) (is_alphabetic : N → bool).

(** An effect and whether it succeeded, and an effect whose failure is the
    command's. *)
Definition attempt (e : Effect) : M bool := λ rd,
  let '(ok, st) := world e ((settings rd) <| effects := effects (settings rd) ++ [e] |>) in
  (Some ok, rd <| settings := st |>).
Definition perform (e : Effect) : M unit :=
  ok ← attempt e ; if (ok : bool) then ret tt else λ rd, (None, rd).

Definition speak (text : list N) (interrupt : bool) : M unit :=
  rd ← get;
  if bool_decide (text = []) || negb (terminal_focused (settings rd)) then ret tt else
  perform (SpeechStart text interrupt);;
  ok ← attempt (Speech text interrupt);
  perform (SpeechEnd text interrupt ok);;
  if (ok : bool) then ret tt else λ rd, (None, rd).
Definition say (s : string) : M unit := speak (bs s) false.

(** * Commands of the review cursor *)

Definition hook_on_review_cursor_move (old new : N * N) : M unit :=
  if bool_decide (old = new) then ret tt else perform (ReviewCursorMoved old new).
Definition report_move (old : N * N) : M unit :=
  new ← cursor;
  (if bool_decide (old = new) then ret tt else on_view cancel_pending_screen_transition_follow);;
  hook_on_review_cursor_move old new.

Definition report_review_cursor_indentation_changes : M unit :=
  rd ← get;
  if negb (report_indentation (settings rd)) then ret tt else
  level ← with_view review_cursor_indentation_level;
  if (level.2 : bool) then speak (bs "indent " ++ to_dec level.1) false else ret tt.

Definition line_read : M unit :=
  p ← cursor;
  report_review_cursor_indentation_changes;;
  v ← view_of;
  let line := view_line v p.1 in
  if bool_decide (trim_chars line = []) then ret tt else speak line false.
Definition word_read : M unit :=
  v ← view_of ; let '(row, col) := review_cursor_position v in speak (view_word v row col) false.
Definition character_read : M unit :=
  v ← view_of;
  let '(row, col) := review_cursor_position v in
  let character := view_character v row col in
  if bool_decide (trim_chars character = []) then ret tt else speak character false.

(** A move, what is said when it reports that it did not get on, what is read
    at the end. *)
Definition move_and_read (move : ReviewView → bool * ReviewView) (boundary : string) (read : M unit) : M unit :=
  old ← cursor;
  moved ← with_view move;
  (if (moved : bool) then ret tt else say boundary);;
  report_move old;;
  read.
Definition line_previous (skip_blank_lines : bool) : M unit := move_and_read (review_cursor_up skip_blank_lines) "top" line_read.
Definition line_next (skip_blank_lines : bool) : M unit := move_and_read (review_cursor_down skip_blank_lines) "bottom" line_read.
Definition word_previous : M unit := move_and_read review_cursor_prev_word "left" word_read.
Definition word_next : M unit := move_and_read review_cursor_next_word "right" word_read.
Definition character_previous : M unit := move_and_read review_cursor_left "left" character_read.
Definition character_next : M unit := move_and_read review_cursor_right "right" character_read.

Definition phonetic_names : list string := [
  "Alpha"; "Bravo"; "Charlie"; "Delta"; "Echo"; "Foxtrot"; "Golf"; "Hotel"; "India"; "Juliett"; "Kilo"; "Lima"; "Mike";
  "November"; "Oscar"; "Papa"; "Quebec"; "Romeo"; "Sierra"; "Tango"; "Uniform"; "Victor"; "Whiskey"; "X-ray"; "Yankee";
  "Zulu"]%string.
Definition phonetic_name (character : list N) : option (list N) :=
  match character with
  | [c] =>
      if in_range 97 122 c then bs <$> phonetic_names !! N.to_nat (c - 97)
      else if in_range 65 90 c then bs <$> phonetic_names !! N.to_nat (c - 65)
      else None
  | _ => None
  end.
Definition character_read_phonetic : M unit :=
  v ← view_of;
  let '(row, col) := review_cursor_position v in
  let character := view_character v row col in
  if bool_decide (trim_chars character = []) then ret tt
  else speak (default character (phonetic_name character)) false.

(** The four jumps: where the cursor goes from where it is. *)
Definition jump_and_read (target : ReviewView → ReviewView) (read : M unit) : M unit :=
  old ← cursor; on_view target ;; report_move old ;; read.
Definition top_target (v : ReviewView) : ReviewView :=
  let last_row := (view_size v).1 - 1 in
  let last_col := (view_size v).2 - 1 in
  set_review_cursor_row
    (if (review_cursor_position v).1 =? 0 then
       match find_cell (view_screen v) is_in_word 0 0 last_row last_col with Some p => p.1 | None => 0 end
     else 0) v.
Definition bottom_target (v : ReviewView) : ReviewView :=
  let last_row := (view_size v).1 - 1 in
  let last_col := (view_size v).2 - 1 in
  set_review_cursor_row
    (if (review_cursor_position v).1 =? last_row then
       match rfind_cell (view_screen v) is_in_word 0 0 last_row last_col with Some p => p.1 | None => last_row end
     else last_row) v.
Definition first_target (v : ReviewView) : ReviewView :=
  let '(row, col) := review_cursor_position v in
  let last := (view_size v).2 - 1 in
  set_review_cursor_col
    (if col =? 0 then match find_cell (view_screen v) is_in_word row 0 row last with Some p => p.2 | None => 0 end else 0) v.
Definition last_target (v : ReviewView) : ReviewView :=
  let '(row, col) := review_cursor_position v in
  let last := (view_size v).2 - 1 in
  set_review_cursor_col
    (if col =? last then match rfind_cell (view_screen v) is_in_word row 0 row last with Some p => p.2 | None => last end
     else last) v.
Definition jump_top : M unit := jump_and_read top_target line_read.
Definition jump_bottom : M unit := jump_and_read bottom_target line_read.
Definition jump_first : M unit := jump_and_read first_target character_read.
Definition jump_last : M unit := jump_and_read last_target character_read.

Definition describe_cell (row col : N) (c : Cell) : list N :=
  bs "Row " ++ to_dec (row + 1) ++ bs " col " ++ to_dec (col + 1) ++ bs " " ++
  describe_color (fgcolor c) ++ bs " " ++
  (if bool_decide (bgcolor c = ColorDefault) then [] else bs "on " ++ describe_color (bgcolor c)) ++
  (if bold c then bs "bold " else []) ++ (if italic c then bs "italic " else []) ++
  (if underline c then bs "underline " else []) ++ (if inverse c then bs "inverse " else []) ++
  (if is_wide c then bs "wide " else []).
(** [None] is the error [MissingCell]. *)
Definition read_attributes : M unit :=
  v ← view_of;
  let '(row, col) := review_cursor_position v in
  match cell (view_screen v) row col with
  | Some c => speak (describe_cell row col c) false
  | None => λ rd, (None, rd)
  end.

(** * Commands of table mode *)

Definition is_cell_whitespace (v : ReviewView) (row col : N) : bool :=
  match cell (view_screen v) row col with
  | Some c => negb (is_wide_continuation c) && bool_decide (trim_chars (contents c) = [])
  | None => true
  end.
Definition first_text_col (v : ReviewView) (row first final : N) : option N :=
  head (List.filter (λ col, negb (is_cell_whitespace v row col)) (range_incl first final)).
Definition last_text_col (v : ReviewView) (row first final : N) : option N :=
  head (List.filter (λ col, negb (is_cell_whitespace v row col)) (reverse (range_incl first final))).

Definition move_to_cell (state : TableState) (row : N) (v : ReviewView) : ReviewView :=
  let row := clamp_row (table_model state) row in
  match current_column state with
  | None => v
  | Some column =>
      let target_col := default (start_col column) (first_text_col v row (start_col column) (end_col column)) in
      set_review_cursor_position (row, target_col) v
  end.

Definition speak_cell (state : TableState) (include_header : bool) : M unit :=
  v ← view_of;
  let row := (review_cursor_position v).1 in
  let m := table_model state in
  (match header_row m with
   | Some header =>
       if include_header && negb (header =? row) then
         match header_text (view_screen v) m (current_col state) with
         | Some text => speak text false
         | None => ret tt
         end
       else ret tt
   | None => ret tt
   end);;
  let text := table_cell_text (view_screen v) m row (current_col state) in
  if bool_decide (trim_chars text = []) then ret tt else speak text false.

(** The session and the view that a table command works on; [false] when there
    is no table.  The table is looked for again when the cursor has left its
    rows; from a row without data the cursor goes to the nearest one with. *)
Definition ensure_navigation (v : ReviewView) (s : Session) : option TableState :=
  let '(row, col) := review_cursor_position v in
  let refreshed := m ← detect is_alphabetic (view_screen v) row; Some {| table_model := m; current_col := column_for_col m col |} in
  match navigation s with
  | Some state => if (row <? top (table_model state)) || (bottom (table_model state) <? row) then refreshed else Some state
  | None => refreshed
  end.
Definition enter_data_row (v : ReviewView) (state : TableState) : ReviewView :=
  let row := (review_cursor_position v).1 in
  if is_skippable_row (view_screen v) (table_model state) row then
    match nearest_data_row (view_screen v) (table_model state) row with
    | Some target_row => move_to_cell state target_row v
    | None => v
    end
  else v.
Definition ensure_state : M bool :=
  rd ← get;
  match ensure_navigation (rd_view rd) (table_session rd) with
  | None => put_session ((table_session rd) <| navigation := None |>);; ret false
  | Some state =>
      let v := enter_data_row (rd_view rd) state in
      let current_col := column_for_col (table_model state) (review_cursor_position v).2 in
      let current_col := if current_col <? column_count (table_model state) then current_col else 0 in
      on_view (λ _, v);;
      put_session ((table_session rd) <| navigation := Some {| table_model := table_model state; current_col := current_col |} |>);;
      ret true
  end.
(** The commands that need a table. *)
Definition with_table (body : TableState → M unit) : M unit :=
  found ← ensure_state;
  if negb found then say "no table found" else
  rd ← get;
  match navigation (table_session rd) with
  | Some state => body state
  | None => λ rd, (None, rd)
  end.

Definition current_cell_text_bounds (v : ReviewView) (state : TableState) : option (N * N) :=
  let row := (review_cursor_position v).1 in
  column ← current_column state;
  first ← first_text_col v row (start_col column) (end_col column);
  final ← last_text_col v row (start_col column) (end_col column);
  Some (first, final).

Definition cell_read : M unit := with_table (λ state, speak_cell state false).
Definition header_read : M unit := with_table (λ state,
  v ← view_of;
  match header_text (view_screen v) (table_model state) (current_col state) with
  | Some text => speak text false
  | None => say "no header"
  end).
Definition toggle_header_read : M unit :=
  rd ← get;
  let on := negb (table_header_auto (settings rd)) in
  on_settings (λ st, st <| table_header_auto := on |>);;
  speak (bs "table headers " ++ bs (if on then "on" else "off")) false.

Inductive Direction := Previous | Next | First | Last.

Definition row_target (v : ReviewView) (m : TableModel) (movement : Direction) (row : N) : option N * string :=
  match movement with
  | Previous => (prev_data_row (view_screen v) m row, "top"%string)
  | Next => (next_data_row (view_screen v) m row, "bottom"%string)
  | First => (nearest_data_row (view_screen v) m (top m), "top"%string)
  | Last => (nearest_data_row (view_screen v) m (bottom m), "bottom"%string)
  end.
Definition row_move (movement : Direction) : M unit := with_table (λ state,
  v ← view_of;
  let '(new_row, boundary) := row_target v (table_model state) movement (review_cursor_position v).1 in
  match new_row with
  | None => say boundary
  | Some new_row =>
      old ← cursor;
      on_view (move_to_cell state new_row);;
      report_move old;;
      speak_cell state false
  end).

Definition column_target (m : TableModel) (movement : Direction) (current_col : N) : option N * string :=
  let last_column := column_count m - 1 in
  match movement with
  | Previous => (if current_col =? 0 then None else Some (current_col - 1), "left"%string)
  | Next => (if current_col <? last_column then Some (current_col + 1) else None, "right"%string)
  | First => (if negb (current_col =? 0) then Some 0 else None, "left"%string)
  | Last => (if negb (current_col =? last_column) then Some last_column else None, "right"%string)
  end.
Definition column_move (movement : Direction) : M unit := with_table (λ state,
  let '(target, boundary) := column_target (table_model state) movement (current_col state) in
  match target with
  | None => say boundary
  | Some target =>
      old ← cursor;
      let state := state <| current_col := target |> in
      rd ← get;
      put_session ((table_session rd) <| navigation := Some state |>);;
      on_view (move_to_cell state old.1);;
      report_move old;;
      rd ← get;
      speak_cell state (table_header_auto (settings rd))
  end).

(** ** Words and characters of a cell *)

(** [while start < i && p i { i -= 1; }] and [while p i { i += 1; }]. *)
Fixpoint while_down (p : N → bool) (start : N) (fuel : nat) (i : N) : N :=
  match fuel with
  | O => i
  | S fuel => if (start <? i) && p i then while_down p start fuel (i - 1) else i
  end.
Fixpoint while_up (p : N → bool) (fuel : nat) (i : N) : N :=
  match fuel with O => i | S fuel => if p i then while_up p fuel (i + 1) else i end.

Definition word_bounds_at (v : ReviewView) (row col first final : N) : option (N * N) :=
  let blank i := is_cell_whitespace v row i in
  let fuel := N.to_nat (final + 1) in
  let index := N.max first (N.min col final) in
  index ← (if blank index then
      let right := while_up (λ i, (i <=? final) && blank i) fuel index in
      if right <=? final then Some right else
      let left := while_down blank first fuel index in
      if blank left then None else Some left
    else Some index);
  let word_start := while_down (λ i, negb (blank (i - 1))) first fuel index in
  let word_end := while_up (λ i, (i <? final) && negb (blank (i + 1))) fuel index in
  Some (word_start, word_end).
Definition word_end_from_or_left (v : ReviewView) (row col first final : N) : option N :=
  let blank i := is_cell_whitespace v row i in
  let fuel := N.to_nat (final + 1) in
  let index := while_down blank first fuel (N.max first (N.min col final)) in
  if blank index then None
  else Some (while_up (λ i, (i <? final) && negb (blank (i + 1))) fuel index).

Definition table_word_read : M unit := with_table (λ state,
  v ← view_of;
  match current_cell_text_bounds v state with
  | None => ret tt
  | Some (first, final) =>
      let '(row, col) := review_cursor_position v in
      match word_bounds_at v row col first final with
      | None => ret tt
      | Some (word_start, word_end) =>
          let spoken := trim_chars (contents_between (view_screen v) row word_start row (word_end + 1)) in
          if bool_decide (spoken = []) then ret tt else speak spoken false
      end
  end).
Definition table_word_previous : M unit := with_table (λ state,
  v ← view_of;
  match current_cell_text_bounds v state with
  | None => ret tt
  | Some (first, _) =>
      let '(row, col) := review_cursor_position v in
      if col <=? first then say "left";; table_word_read else
      let blank i := is_cell_whitespace v row i in
      let fuel := N.to_nat col in
      let index := while_down blank first fuel (col - 1) in
      let index := while_down (λ i, negb (blank (i - 1))) first fuel index in
      on_view (set_review_cursor_col index);;
      report_move (row, col);;
      table_word_read
  end).
Definition table_word_next : M unit := with_table (λ state,
  v ← view_of;
  match current_cell_text_bounds v state with
  | None => ret tt
  | Some (first, final) =>
      let '(row, col) := review_cursor_position v in
      let blank i := is_cell_whitespace v row i in
      let fuel := N.to_nat (final + 1) in
      let old_word_end := word_end_from_or_left v row col first final in
      let index := if col <? first then first else col in
      let index := while_up (λ i, (i <? final) && negb (blank i)) fuel index in
      let index := while_up (λ i, (i <=? final) && blank i) fuel index in
      if (final <? index) || match old_word_end with Some word_end => index <=? word_end | None => false end
      then say "right";; table_word_read
      else
        on_view (set_review_cursor_col index);;
        report_move (row, col);;
        table_word_read
  end).

Definition table_character_read : M unit := with_table (λ state,
  v ← view_of;
  match current_cell_text_bounds v state with
  | None => ret tt
  | Some (first, final) =>
      let '(row, col) := review_cursor_position v in
      let col := N.max first (N.min col final) in
      let character := contents_between (view_screen v) row col row (col + 1) in
      if bool_decide (trim_chars character = []) then ret tt else speak character false
  end).
Definition table_character_previous : M unit := with_table (λ state,
  v ← view_of;
  match current_cell_text_bounds v state with
  | None => ret tt
  | Some (first, _) =>
      let '(row, col) := review_cursor_position v in
      if col <=? first then say "left";; table_character_read else
      on_view (set_review_cursor_col (col - 1));;
      report_move (row, col);;
      table_character_read
  end).
Definition table_character_next : M unit := with_table (λ state,
  v ← view_of;
  match current_cell_text_bounds v state with
  | None => ret tt
  | Some (_, final) =>
      let '(row, col) := review_cursor_position v in
      if final <=? col then say "right";; table_character_read else
      on_view (set_review_cursor_col (col + 1));;
      report_move (row, col);;
      table_character_read
  end).

(** ** Entering and leaving *)

Definition change_session (change : Session → Session * InputMode) : M unit :=
  rd ← get;
  let '(s, old_mode) := change (table_session rd) in
  put_session s;;
  if bool_decide (old_mode = mode s) then ret tt else perform (ModeChanged old_mode (mode s)).

(** [None] after the view has been read is the panic of [expect]. *)
Definition enter_mode_with_model (m : TableModel) : M unit :=
  old ← cursor;
  v ← view_of;
  let entry_row := default old.1 (nearest_data_row (view_screen v) m old.1) in
  let preferred_column := column_for_col m old.2 in
  let state := {| table_model := m; current_col := nearest_non_empty_col (view_screen v) m entry_row preferred_column |} in
  match current_column state with
  | None => λ rd, (None, rd)
  | Some column =>
      on_view (set_review_cursor_position (entry_row, start_col column));;
      change_session (λ s, enter_table s state);;
      perform (TableModeEntered state);;
      report_move old;;
      say "table mode on";;
      cell_read
  end.
Definition exit_mode : M unit :=
  change_session exit_table;;
  perform TableModeLeft;;
  say "table mode off".
Definition toggle_mode : M unit :=
  rd ← get;
  if bool_decide (mode (table_session rd) = TableMode) then exit_mode else
  match detect is_alphabetic (view_screen (rd_view rd)) (review_cursor_position (rd_view rd)).1 with
  | None => say "no table found"
  | Some m => enter_mode_with_model m
  end.
Definition start_setup : M unit :=
  rd ← get;
  if bool_decide (mode (table_session rd) = TableSetupMode) then say "table setup already on" else
  if bool_decide (mode (table_session rd) = TableMode) then say "exit table mode first" else
  let row := (review_cursor_position (rd_view rd)).1 in
  if bool_decide (trim_chars (view_line (rd_view rd) row) = []) then say "header row is blank" else
  change_session (λ s, enter_setup s row);;
  say "table setup on".
Definition cancel_setup : M unit :=
  rd ← get;
  if negb (bool_decide (mode (table_session rd) = TableSetupMode)) then ret tt else
  change_session exit_table;;
  say "table setup off".
Definition toggle_setup_tabstop : M unit :=
  rd ← get;
  if negb (bool_decide (mode (table_session rd) = TableSetupMode)) then ret tt else
  match setup (table_session rd) with
  | None => say "table setup not active"
  | Some st =>
      let col := (review_cursor_position (rd_view rd)).2 in
      if col =? 0 then say "cannot set tabstop at first column" else
      let '(st, change) := toggle_tabstop st col in
      put_session ((table_session rd) <| setup := Some st |>);;
      say (match change with Added => "tabstop added" | Removed => "tabstop removed" end)
  end.
Definition commit_setup : M unit :=
  rd ← get;
  if negb (bool_decide (mode (table_session rd) = TableSetupMode)) then ret tt else
  match setup (table_session rd) with
  | None => say "table setup not active"
  | Some st =>
      match detect_manual_from_header (view_screen (rd_view rd)) (setup_header_row st) (tabstops st) with
      | None => say "manual table setup invalid"
      | Some m => enter_mode_with_model m
      end
  end.
End Commands.

(** * Clicking *)

Inductive Button := LeftButton | RightButton.
(** [char::from_u32] accepts the number. *)
Definition is_scalar (n : N) : bool := (n <? 55296) || ((57344 <=? n) && (n <=? 1114111)).
(** The bytes of a click at a position; [None] when the encoding has no room
    for it. *)
Definition encode_click (protocol : MouseProtocol) (encoding : MouseEncoding) (button : Button) (p : N * N)
  : option bytes :=
  let '(row, col) := p in
  let code := match button with LeftButton => 0 | RightButton => 2 end in
  let include_release := negb (bool_decide (protocol = Press)) in
  match encoding with
  | Sgr =>
      let body := bs "<" ++ to_dec code ++ bs ";" ++ to_dec (col + 1) ++ bs ";" ++ to_dec (row + 1) in
      Some ([ESC; 91] ++ body ++ bs "M" ++ (if include_release then [ESC; 91] ++ body ++ bs "m" else []))
  | DefaultEncoding =>
      if (255 <? col + 33) || (255 <? row + 33) then None
      else Some ([ESC; 91; 77; code + 32; col + 33; row + 33] ++
                 (if include_release then [ESC; 91; 77; 35; col + 33; row + 33] else []))
  | Utf8Encoding =>
      if is_scalar (col + 33) && is_scalar (row + 33) then
        let position := utf8_encode (col + 33) ++ utf8_encode (row + 33) in
        Some ([ESC; 91; 77; code + 32] ++ position ++
              (if include_release then [ESC; 91; 77; 35] ++ position else []))
      else None
  end.

(** * The cursor stays on the screen *)

Section Invariant.
Context (world : World) (is_alphabetic : N → bool).
Context (s : TerminalSnapshot) (Hs : grid_ok s).
(** What Lua does to the clipboard goes through its operations. *)
Context (Hworld : ∀ e st, clip_wf (clipboard st) → clip_wf (clipboard (world e st).2)).

(** The view shows [s], its cursor is on a cell, the table being navigated is a
    table of [s], the tabstops are sorted, and the clipboard is a ring. *)
Definition session_ok (ss : Session) : Prop :=
  (∀ st, navigation ss = Some st → model_ok s (table_model st)) ∧
  (∀ st, setup ss = Some st → StronglySorted N.lt (tabstops st)).
Definition view_ok (v : ReviewView) : Prop := view_screen v = s ∧ cursor_ok v.
Definition reader_ok (rd : Reader) : Prop :=
  view_ok (rd_view rd) ∧ session_ok (table_session rd) ∧ clip_wf (clipboard (settings rd)).

(** A command keeps the invariant and its result satisfies [Q]. *)
Definition keeps {A} (m : M A) (Q : A → Prop) : Prop :=
  ∀ rd, reader_ok rd → reader_ok (m rd).2 ∧ ∀ x, (m rd).1 = Some x → Q x.

Lemma reader_keeps_ret {A} (x : A) (Q : A → Prop) : Q x → keeps (ret x) Q.
Proof. intros Hx rd Hrd. split; [done|]. by intros y [= <-]. Qed.
Lemma reader_keeps_bind {A B} (m : M A) (k : A → M B) Q R :
  keeps m Q → (∀ x, Q x → keeps (k x) R) → keeps (m ≫= k) R.
Proof.
  intros Hm Hk rd Hrd. destruct (Hm rd Hrd) as [H1 H2]. unfold mbind, M_bind, bind.
  destruct (m rd) as [[x|] rd']; cbn in *; [by apply Hk; auto|]. by split.
Qed.
Lemma reader_keeps_fail {A} (Q : A → Prop) : keeps (λ rd, (None, rd)) Q.
Proof. intros rd Hrd. by split. Qed.
Lemma keeps_weaken {A} (m : M A) (Q R : A → Prop) : (∀ x, Q x → R x) → keeps m Q → keeps m R.
Proof. intros HQ Hm rd Hrd. destruct (Hm rd Hrd) as [H1 H2]. split; [done|]. intros x Hx. by apply HQ, H2. Qed.

Definition any {A} (x : A) : Prop := True.

Lemma keeps_get : keeps get reader_ok.
Proof. intros rd Hrd. split; [done|]. by intros x [= <-]. Qed.
Lemma keeps_view_of : keeps view_of view_ok.
Proof. intros rd Hrd. split; [done|]. intros x [= <-]. apply Hrd. Qed.
Lemma keeps_cursor : keeps cursor (λ p, p.1 < (size s).1 ∧ p.2 < (size s).2).
Proof.
  intros rd Hrd. split; [done|]. intros x [= <-]. destruct Hrd as [[Hv Hc] _]. unfold cursor_ok, view_size in Hc.
  by rewrite Hv in Hc.
Qed.
Lemma keeps_on_view f : (∀ v, view_ok v → view_ok (f v)) → keeps (on_view f) any.
Proof. intros Hf rd [Hv Hrest]. split; [|done]. split; [by apply Hf|exact Hrest]. Qed.
Lemma keeps_with_view {A} (f : ReviewView → A * ReviewView) : (∀ v, view_ok v → view_ok (f v).2) → keeps (with_view f) any.
Proof.
  intros Hf rd [Hv Hrest]. unfold with_view. specialize (Hf (rd_view rd) Hv).
  destruct (f (rd_view rd)) as [x v]. split; [|done]. by split; [|exact Hrest].
Qed.
Lemma keeps_put_session ss : session_ok ss → keeps (put_session ss) any.
Proof. intros Hss rd (Hv & _ & Hc). split; [|done]. split; [exact Hv|]. by split. Qed.
Lemma keeps_on_settings f : (∀ st, clip_wf (clipboard st) → clip_wf (clipboard (f st))) → keeps (on_settings f) any.
Proof. intros Hf rd (Hv & Hss & Hc). split; [|done]. split; [exact Hv|]. split; [exact Hss|by apply Hf]. Qed.
Lemma keeps_attempt e : keeps (attempt world e) any.
Proof.
  intros rd (Hv & Hss & Hc). unfold attempt.
  pose proof (Hworld e ((settings rd) <| effects := effects (settings rd) ++ [e] |>)) as Hw.
  destruct (world e _) as [ok st]. split; [|done]. split; [exact Hv|]. split; [exact Hss|].
  apply Hw. destruct rd as [? ? []]. exact Hc.
Qed.
Lemma moved_ok v v' : moved_within v v' → view_ok v → view_ok v'.
Proof. intros (H1 & _ & _ & _ & H2) [Hv Hc]. split; [congruence|by apply H2]. Qed.
Lemma reader_cancel_ok v : view_ok v → view_ok (cancel_pending_screen_transition_follow v).
Proof. done. Qed.
Lemma keeps_view_any {A} (m : M A) Q : keeps m Q → keeps m any.
Proof. by apply keeps_weaken. Qed.

Hint Resolve reader_keeps_ret reader_keeps_fail keeps_attempt : core.
Local Ltac kstep := first
  [ apply reader_keeps_ret; done | apply reader_keeps_fail | apply keeps_attempt
  | eapply reader_keeps_bind; [first [apply keeps_get|apply keeps_view_of|apply keeps_cursor|apply keeps_attempt]|]; intros ? ? ].

Lemma keeps_perform e : keeps (perform world e) any.
Proof. unfold perform. apply (reader_keeps_bind _ _ any); [apply keeps_attempt|]. intros [] _; [by apply reader_keeps_ret|apply reader_keeps_fail]. Qed.
Lemma keeps_speak text interrupt : keeps (speak world text interrupt) any.
Proof.
  unfold speak. kstep. destruct (_ || _); [by apply reader_keeps_ret|].
  apply (reader_keeps_bind _ _ any); [apply keeps_perform|]. intros _ _. kstep.
  apply (reader_keeps_bind _ _ any); [apply keeps_perform|]. intros _ _.
  match goal with |- keeps (if ?b then _ else _) _ => destruct b end; [by apply reader_keeps_ret|apply reader_keeps_fail].
Qed.
Lemma keeps_say text : keeps (say world text) any.
Proof. apply keeps_speak. Qed.
Lemma reader_keeps_if {A} (b : bool) (m1 m2 : M A) Q : keeps m1 Q → keeps m2 Q → keeps (if b then m1 else m2) Q.
Proof. by destruct b. Qed.
Lemma keeps_hook old new : keeps (hook_on_review_cursor_move world old new) any.
Proof. apply reader_keeps_if; [by apply reader_keeps_ret|apply keeps_perform]. Qed.
Lemma keeps_report_move old : keeps (report_move world old) any.
Proof.
  unfold report_move. kstep. apply (reader_keeps_bind _ _ any); [|intros _ _; apply keeps_hook].
  apply reader_keeps_if; [by apply reader_keeps_ret|]. apply keeps_on_view, reader_cancel_ok.
Qed.
Lemma keeps_indentation : keeps (report_review_cursor_indentation_changes world) any.
Proof.
  unfold report_review_cursor_indentation_changes. kstep. apply reader_keeps_if; [by apply reader_keeps_ret|].
  apply (reader_keeps_bind _ _ any); [apply keeps_with_view; by intros v Hv|]. intros [l []] _; cbn [snd]; [apply keeps_speak|by apply reader_keeps_ret].
Qed.
Lemma keeps_line_read : keeps (line_read world) any.
Proof.
  unfold line_read. kstep. apply (reader_keeps_bind _ _ any); [apply keeps_indentation|]. intros _ _. kstep.
  apply reader_keeps_if; [by apply reader_keeps_ret|apply keeps_speak].
Qed.
Lemma keeps_word_read : keeps (word_read world) any.
Proof. unfold word_read. kstep. destruct (review_cursor_position _). apply keeps_speak. Qed.
Lemma keeps_character_read : keeps (character_read world) any.
Proof.
  unfold character_read. kstep. destruct (review_cursor_position _).
  apply reader_keeps_if; [by apply reader_keeps_ret|apply keeps_speak].
Qed.
Lemma keeps_move_and_read move boundary read :
  (∀ v, grid_ok (view_screen v) → moved_within v (move v).2) → keeps read any → keeps (move_and_read world move boundary read) any.
Proof.
  intros Hmove Hread. unfold move_and_read. kstep. apply (reader_keeps_bind _ _ any); [apply keeps_with_view|].
  { intros v [Hv Hc]. apply (moved_ok v); [|done]. apply Hmove. by rewrite Hv. }
  intros moved _. apply (reader_keeps_bind _ _ any); [apply reader_keeps_if; [by apply (reader_keeps_ret tt any)|apply keeps_say]|]. intros _ _.
  apply (reader_keeps_bind _ _ any); [apply keeps_report_move|]. by intros _ _.
Qed.
Lemma keeps_jump_and_read target read :
  (∀ v, view_ok v → view_ok (target v)) → keeps read any → keeps (jump_and_read world target read) any.
Proof.
  intros Htarget Hread. unfold jump_and_read. kstep. apply (reader_keeps_bind _ _ any); [by apply keeps_on_view|]. intros _ _.
  apply (reader_keeps_bind _ _ any); [apply keeps_report_move|]. by intros _ _.
Qed.

Lemma set_row_ok r v : view_ok v → r < (size s).1 → view_ok (set_review_cursor_row r v).
Proof. intros [Hv [Hr Hc]] H. split; [done|]. split; [|exact Hc]. change (r < (size (view_screen v)).1). by rewrite Hv. Qed.
Lemma reader_set_col_ok c v : view_ok v → c < (size s).2 → view_ok (set_review_cursor_col c v).
Proof. intros [Hv [Hr Hc]] H. split; [done|]. split; [exact Hr|]. change (c < (size (view_screen v)).2). by rewrite Hv. Qed.
Lemma set_position_ok p v : view_ok v → p.1 < (size s).1 → p.2 < (size s).2 → view_ok (set_review_cursor_position p v).
Proof. intros [Hv _] H1 H2. split; [done|].
  change (p.1 < (size (view_screen v)).1 ∧ p.2 < (size (view_screen v)).2). by rewrite Hv.
Qed.

Lemma top_target_ok v : view_ok v → view_ok (top_target v).
Proof.
  intros Hv. unfold top_target. apply set_row_ok; [done|]. destruct Hs as (H1 & _). rewrite (proj1 Hv).
  destruct (_ =? 0); [|lia]. destruct (find_cell _ _ _ _ _ _) as [p|] eqn:E; [|lia]. by apply find_cell_bounds in E as [? _].
Qed.
Lemma bottom_target_ok v : view_ok v → view_ok (bottom_target v).
Proof.
  intros Hv. unfold bottom_target. apply set_row_ok; [done|]. destruct Hs as (H1 & _). unfold view_size. rewrite (proj1 Hv).
  destruct (_ =? _); [|lia]. destruct (rfind_cell _ _ _ _ _ _) as [p|] eqn:E; [|lia]. by apply rfind_cell_bounds in E as [? _].
Qed.
Lemma first_target_ok v : view_ok v → view_ok (first_target v).
Proof.
  intros Hv. unfold first_target. destruct (review_cursor_position v) as [row col]. apply reader_set_col_ok; [done|].
  destruct Hs as (_ & H1 & _). rewrite (proj1 Hv). destruct (_ =? 0); [|lia].
  destruct (find_cell _ _ _ _ _ _) as [p|] eqn:E; [|lia]. by apply find_cell_bounds in E as [_ ?].
Qed.
Lemma last_target_ok v : view_ok v → view_ok (last_target v).
Proof.
  intros Hv. unfold last_target. destruct (review_cursor_position v) as [row col]. apply reader_set_col_ok; [done|].
  destruct Hs as (_ & H1 & _). unfold view_size. rewrite (proj1 Hv). destruct (_ =? _); [|lia].
  destruct (rfind_cell _ _ _ _ _ _) as [p|] eqn:E; [|lia]. by apply rfind_cell_bounds in E as [_ ?].
Qed.
Lemma keeps_phonetic : keeps (character_read_phonetic world) any.
Proof.
  unfold character_read_phonetic. kstep. destruct (review_cursor_position _).
  apply reader_keeps_if; [by apply reader_keeps_ret|apply keeps_speak].
Qed.
Lemma keeps_attributes : keeps (read_attributes world) any.
Proof.
  unfold read_attributes. kstep. destruct (review_cursor_position _).
  destruct (cell _ _ _); [apply keeps_speak|apply reader_keeps_fail].
Qed.

(** ** Table mode *)

Lemma nearest_loop_lt m row fuel offset r :
  model_ok s m → row < (size s).1 → nearest_loop s m row fuel offset = Some r → r < (size s).1.
Proof.
  intros Hm Hrow. pose proof (rows_in_order s m Hm) as Hb. revert offset.
  induction fuel as [|fuel IH]; intros offset; cbn [nearest_loop]; [done|].
  destruct (_ && (_ && _)); [intros [= <-]; lia|].
  destruct (N.leb_spec (sat_add u16_max row offset) (bottom m)) as [Hle|]; cbn [andb].
  - destruct (negb _); [intros [= <-]; lia|]. destruct (_ || _); [apply IH|done].
  - destruct (_ || _); [apply IH|done].
Qed.
Lemma nearest_data_row_lt m row r :
  model_ok s m → row < (size s).1 → nearest_data_row s m row = Some r → r < (size s).1.
Proof.
  intros Hm Hrow. unfold nearest_data_row. destruct (_ && negb _); [by intros [= <-]|]. by apply nearest_loop_lt.
Qed.
Lemma column_on_screen st c :
  model_ok s (table_model st) → current_column st = Some c → start_col c ≤ end_col c < (size s).2.
Proof.
  intros Hm Hc. destruct (columns_in_order s _ Hm) as [_ H]. by eapply (Forall_lookup_1 _ _ _ _ H).
Qed.
Lemma first_text_col_in v row a b c : first_text_col v row a b = Some c → a ≤ c ≤ b.
Proof. by intros [H%elem_of_range _]%head_filter_Some. Qed.
Lemma last_text_col_in v row a b c : last_text_col v row a b = Some c → a ≤ c ≤ b.
Proof. intros [H _]%head_filter_Some. rewrite elem_of_reverse in H. by apply elem_of_range. Qed.

Lemma move_to_cell_ok st row v : model_ok s (table_model st) → view_ok v → view_ok (move_to_cell st row v).
Proof.
  intros Hm Hv. unfold move_to_cell. destruct (current_column st) as [c|] eqn:E; [|done].
  pose proof (column_on_screen st c Hm E) as Hc. pose proof (rows_in_order s _ Hm) as Hr.
  apply set_position_ok; [done| |]; cbn [fst snd].
  - unfold clamp_row. destruct (N.ltb_spec row (top (table_model st))); [lia|].
    destruct (N.ltb_spec (bottom (table_model st)) row); lia.
  - destruct (first_text_col _ _ _ _) as [x|] eqn:Ex; cbn [default id]; [|lia]. apply first_text_col_in in Ex.
    unfold id. lia.
Qed.
Lemma enter_data_row_ok st v : model_ok s (table_model st) → view_ok v → view_ok (enter_data_row v st).
Proof.
  intros Hm Hv. unfold enter_data_row. destruct (is_skippable_row _ _ _); [|done].
  destruct (nearest_data_row _ _ _); [|done]. by apply move_to_cell_ok.
Qed.
Lemma ensure_navigation_ok v ss st :
  view_ok v → session_ok ss → ensure_navigation is_alphabetic v ss = Some st → model_ok s (table_model st).
Proof.
  intros [Hv [Hr Hc]] [Hnav _]. unfold ensure_navigation. unfold view_size in *. rewrite Hv in *.
  destruct (review_cursor_position v) as [row col]. cbn [fst snd] in *.
  assert (∀ st, (m ← detect is_alphabetic s row; Some {| table_model := m; current_col := column_for_col m col |}) = Some st →
    model_ok s (table_model st)) as Hdetect.
  { intros st'. destruct (detect is_alphabetic s row) as [m|] eqn:E; [|done]. intros [= <-]. by eapply detect_ok. }
  destruct (navigation ss) as [st'|] eqn:E; [|apply Hdetect].
  destruct (_ || _); [apply Hdetect|]. intros [= <-]. by apply Hnav.
Qed.

Lemma keeps_ensure_state : keeps (ensure_state is_alphabetic) any.
Proof.
  unfold ensure_state. kstep. destruct x as [v ss st0]. destruct H as (Hv & [Hnav Hsetup] & _).
  cbn [rd_view table_session] in *. destruct (ensure_navigation is_alphabetic v ss) as [st|] eqn:E.
  - apply ensure_navigation_ok in E as Hm; [|done|by split].
    apply (reader_keeps_bind _ _ any); [apply keeps_on_view; intros _ _; by apply enter_data_row_ok|]. intros _ _.
    apply (reader_keeps_bind _ _ any); [|intros _ _; by apply reader_keeps_ret]. apply keeps_put_session.
    split; [by intros st' [= <-]|exact Hsetup].
  - apply (reader_keeps_bind _ _ any); [|intros _ _; by apply reader_keeps_ret]. apply keeps_put_session. split; [done|exact Hsetup].
Qed.
Lemma keeps_with_table body :
  (∀ st, model_ok s (table_model st) → keeps (body st) any) → keeps (with_table world is_alphabetic body) any.
Proof.
  intros Hbody. unfold with_table. apply (reader_keeps_bind _ _ any); [apply keeps_ensure_state|]. intros found _.
  apply reader_keeps_if; [apply keeps_say|]. kstep. destruct H as (_ & [Hnav _] & _).
  destruct (navigation (table_session x)) as [st|]; [|apply reader_keeps_fail]. by apply Hbody, Hnav.
Qed.
Lemma keeps_speak_cell st header : keeps (speak_cell world st header) any.
Proof.
  unfold speak_cell. kstep. apply (reader_keeps_bind _ _ any).
  - destruct (header_row _); [|by apply reader_keeps_ret]. apply reader_keeps_if; [|by apply reader_keeps_ret].
    destruct (header_text _ _ _); [apply keeps_speak|by apply reader_keeps_ret].
  - intros _ _. apply reader_keeps_if; [by apply reader_keeps_ret|apply keeps_speak].
Qed.
Lemma keeps_cell_read : keeps (cell_read world is_alphabetic) any.
Proof. apply keeps_with_table. intros st _. apply keeps_speak_cell. Qed.
Lemma keeps_header_read : keeps (header_read world is_alphabetic) any.
Proof.
  apply keeps_with_table. intros st _. kstep. destruct (header_text _ _ _); [apply keeps_speak|apply keeps_say].
Qed.
Lemma keeps_toggle_header_read : keeps (toggle_header_read world) any.
Proof.
  unfold toggle_header_read. kstep. apply (reader_keeps_bind _ _ any); [by intros rd Hrd|]. intros _ _. apply keeps_speak.
Qed.
Lemma keeps_move_then old f (after : M unit) :
  (∀ v, view_ok v → view_ok (f v)) → keeps after any → keeps (on_view f;; report_move world old;; after) any.
Proof.
  intros Hf Hafter. apply (reader_keeps_bind _ _ any); [by apply keeps_on_view|]. intros _ _.
  apply (reader_keeps_bind _ _ any); [apply keeps_report_move|]. by intros _ _.
Qed.
Lemma keeps_row_move movement : keeps (row_move world is_alphabetic movement) any.
Proof.
  apply keeps_with_table. intros st Hm. kstep. destruct (row_target _ _ _ _) as [[r|] b]; [|apply keeps_say].
  kstep. apply keeps_move_then; [intros v; by apply move_to_cell_ok|apply keeps_speak_cell].
Qed.
Lemma keeps_column_move movement : keeps (column_move world is_alphabetic movement) any.
Proof.
  apply keeps_with_table. intros st Hm. destruct (column_target _ _ _) as [[c|] b]; [|apply keeps_say].
  kstep. kstep. match goal with H : reader_ok _ |- _ => destruct H as (_ & [Hnav Hsetup] & _) end.
  apply (reader_keeps_bind _ _ any); [apply keeps_put_session; split; [by intros st' [= <-]|exact Hsetup]|]. intros _ _.
  apply keeps_move_then; [intros v; by apply move_to_cell_ok|]. kstep. apply keeps_speak_cell.
Qed.

Lemma text_bounds_ok v st a b :
  model_ok s (table_model st) → current_cell_text_bounds v st = Some (a, b) → a < (size s).2 ∧ b < (size s).2.
Proof.
  intros Hm. unfold current_cell_text_bounds. destruct (current_column st) as [c|] eqn:E; [|done].
  pose proof (column_on_screen st c Hm E) as Hc. cbn [mbind option_bind].
  destruct (first_text_col _ _ _ _) as [x|] eqn:Ex; [|done]. destruct (last_text_col _ _ _ _) as [y|] eqn:Ey; [|done].
  cbn [mbind option_bind]. intros [= <- <-]. apply first_text_col_in in Ex. apply last_text_col_in in Ey. lia.
Qed.
Lemma while_down_le p start fuel i : while_down p start fuel i ≤ i.
Proof.
  revert i. induction fuel as [|fuel IH]; intros i; cbn [while_down]; [done|]. destruct (_ && _); [|done].
  specialize (IH (i - 1)). lia.
Qed.
Lemma keeps_table_word_read : keeps (table_word_read world is_alphabetic) any.
Proof.
  apply keeps_with_table. intros st Hm. kstep. destruct (current_cell_text_bounds _ _) as [[a b]|]; [|by apply reader_keeps_ret].
  destruct (review_cursor_position _). destruct (word_bounds_at _ _ _ _ _) as [[c d]|]; [|by apply reader_keeps_ret].
  apply reader_keeps_if; [by apply reader_keeps_ret|apply keeps_speak].
Qed.
Lemma keeps_say_then text (after : M unit) : keeps after any → keeps (say world text;; after) any.
Proof. intros H. apply (reader_keeps_bind _ _ any); [apply keeps_say|]. by intros _ _. Qed.
Lemma view_ok_col v row col : view_ok v → review_cursor_position v = (row, col) → col < (size s).2.
Proof. intros [Hv [_ Hc]] E. unfold view_size in Hc. rewrite E, Hv in Hc. exact Hc. Qed.
Lemma keeps_table_word_previous : keeps (table_word_previous world is_alphabetic) any.
Proof.
  apply keeps_with_table. intros st Hm. kstep. destruct (current_cell_text_bounds _ _) as [[a b]|]; [|by apply reader_keeps_ret].
  destruct (review_cursor_position x) as [row col] eqn:E. pose proof (view_ok_col _ _ _ H E) as Hc.
  apply reader_keeps_if; [apply keeps_say_then, keeps_table_word_read|].
  apply keeps_move_then; [|apply keeps_table_word_read]. intros v Hv. apply reader_set_col_ok; [done|].
  eapply N.le_lt_trans; [apply while_down_le|]. eapply N.le_lt_trans; [apply while_down_le|]. lia.
Qed.
Lemma keeps_table_word_next : keeps (table_word_next world is_alphabetic) any.
Proof.
  apply keeps_with_table. intros st Hm. kstep. destruct (current_cell_text_bounds _ _) as [[a b]|] eqn:Eb; [|by apply reader_keeps_ret].
  apply text_bounds_ok in Eb as [_ Hb]; [|done].
  destruct (review_cursor_position x) as [row col] eqn:E.
  cbv zeta. set (index := while_up _ _ (while_up _ _ _)).
  destruct (b <? index) eqn:Hlt; cbn [orb]; [apply keeps_say_then, keeps_table_word_read|]. apply N.ltb_ge in Hlt.
  apply reader_keeps_if; [apply keeps_say_then, keeps_table_word_read|].
  apply keeps_move_then; [|apply keeps_table_word_read]. intros v Hv. apply reader_set_col_ok; [done|]. lia.
Qed.
Lemma keeps_table_character_read : keeps (table_character_read world is_alphabetic) any.
Proof.
  apply keeps_with_table. intros st Hm. kstep. destruct (current_cell_text_bounds _ _) as [[a b]|]; [|by apply reader_keeps_ret].
  destruct (review_cursor_position _). apply reader_keeps_if; [by apply reader_keeps_ret|apply keeps_speak].
Qed.
Lemma keeps_table_character_previous : keeps (table_character_previous world is_alphabetic) any.
Proof.
  apply keeps_with_table. intros st Hm. kstep. destruct (current_cell_text_bounds _ _) as [[a b]|]; [|by apply reader_keeps_ret].
  destruct (review_cursor_position x) as [row col] eqn:E. pose proof (view_ok_col _ _ _ H E) as Hc.
  apply reader_keeps_if; [apply keeps_say_then, keeps_table_character_read|].
  apply keeps_move_then; [|apply keeps_table_character_read]. intros v Hv. apply reader_set_col_ok; [done|]. lia.
Qed.
Lemma keeps_table_character_next : keeps (table_character_next world is_alphabetic) any.
Proof.
  apply keeps_with_table. intros st Hm. kstep. destruct (current_cell_text_bounds _ _) as [[a b]|] eqn:Eb; [|by apply reader_keeps_ret].
  apply text_bounds_ok in Eb as [_ Hb]; [|done].
  destruct (review_cursor_position x) as [row col] eqn:E.
  destruct (N.leb_spec b col); [apply keeps_say_then, keeps_table_character_read|].
  apply keeps_move_then; [|apply keeps_table_character_read]. intros v Hv. apply reader_set_col_ok; [done|]. lia.
Qed.

Lemma keeps_change_session f :
  (∀ ss, session_ok ss → session_ok (f ss).1) → keeps (change_session world f) any.
Proof.
  intros Hf. unfold change_session. kstep. destruct H as (_ & Hss & _). specialize (Hf _ Hss).
  destruct (f (table_session x)) as [ss old]. apply (reader_keeps_bind _ _ any); [by apply keeps_put_session|]. intros _ _.
  apply reader_keeps_if; [by apply reader_keeps_ret|apply keeps_perform].
Qed.
Lemma exit_session_ok ss : session_ok (exit_table ss).1.
Proof. by split. Qed.
Lemma keeps_enter_mode m : model_ok s m → keeps (enter_mode_with_model world is_alphabetic m) any.
Proof.
  intros Hm. unfold enter_mode_with_model. kstep. kstep. cbv zeta. cbv beta in H.
  match goal with |- context [current_column ?st] => set (state := st) end.
  destruct (current_column state) as [c|] eqn:Ec; [|apply reader_keeps_fail].
  pose proof (column_on_screen state c Hm Ec) as Hc.
  apply (reader_keeps_bind _ _ any).
  { apply keeps_on_view. intros v Hv. apply set_position_ok; [done| |cbn [snd]; lia]. cbn [fst].
    match goal with H : view_ok _ |- _ => rewrite (proj1 H) end.
    destruct (nearest_data_row s m x.1) as [r|] eqn:Er; cbn [default id]; [|apply H]. eapply nearest_data_row_lt; [done|apply H|done]. }
  intros _ _. apply (reader_keeps_bind _ _ any); [by apply keeps_change_session; intros ss _; split; [intros st [= <-]|]|]. intros _ _.
  apply (reader_keeps_bind _ _ any); [apply keeps_perform|]. intros _ _.
  apply (reader_keeps_bind _ _ any); [apply keeps_report_move|]. intros _ _. apply keeps_say_then, keeps_cell_read.
Qed.
Lemma keeps_exit_mode : keeps (exit_mode world) any.
Proof.
  unfold exit_mode. apply (reader_keeps_bind _ _ any); [apply keeps_change_session; intros ss _; apply exit_session_ok|]. intros _ _.
  apply (reader_keeps_bind _ _ any); [apply keeps_perform|]. intros _ _. apply keeps_say.
Qed.
Lemma keeps_toggle_mode : keeps (toggle_mode world is_alphabetic) any.
Proof.
  unfold toggle_mode. kstep. apply reader_keeps_if; [apply keeps_exit_mode|]. destruct H as [[Hv [Hr _]] _].
  unfold view_size in Hr. rewrite Hv in *. destruct (detect _ _ _) as [m|] eqn:E; [|apply keeps_say].
  by eapply keeps_enter_mode, detect_ok.
Qed.
Lemma keeps_start_setup : keeps (start_setup world) any.
Proof.
  unfold start_setup. kstep. apply reader_keeps_if; [apply keeps_say|]. apply reader_keeps_if; [apply keeps_say|].
  apply reader_keeps_if; [apply keeps_say|]. apply (reader_keeps_bind _ _ any); [|intros _ _; apply keeps_say].
  apply keeps_change_session. intros ss _. split; [done|]. intros st [= <-]. constructor.
Qed.
Lemma keeps_cancel_setup : keeps (cancel_setup world) any.
Proof.
  unfold cancel_setup. kstep. apply reader_keeps_if; [by apply reader_keeps_ret|].
  apply (reader_keeps_bind _ _ any); [apply keeps_change_session; intros ss _; apply exit_session_ok|]. intros _ _. apply keeps_say.
Qed.
Lemma keeps_toggle_setup_tabstop : keeps (toggle_setup_tabstop world) any.
Proof.
  unfold toggle_setup_tabstop. kstep. apply reader_keeps_if; [by apply reader_keeps_ret|]. destruct H as (_ & [Hnav Hsetup] & _).
  destruct (setup (table_session x)) as [st|] eqn:E; [|apply keeps_say]. apply reader_keeps_if; [apply keeps_say|].
  pose proof (toggle_tabstop_sorted st (review_cursor_position (rd_view x)).2 (Hsetup st eq_refl)) as Hsorted.
  destruct (toggle_tabstop st _) as [st' change]. cbn [fst] in Hsorted.
  apply (reader_keeps_bind _ _ any); [|intros _ _; destruct change; apply keeps_say].
  apply keeps_put_session. split; [exact Hnav|]. by intros st2 [= <-].
Qed.
Lemma keeps_commit_setup : keeps (commit_setup world is_alphabetic) any.
Proof.
  unfold commit_setup. kstep. apply reader_keeps_if; [by apply reader_keeps_ret|]. destruct H as [[Hv _] _].
  destruct (setup _) as [st|]; [|apply keeps_say]. rewrite Hv.
  destruct (detect_manual_from_header _ _ _) as [m|] eqn:E; [|apply keeps_say]. by eapply keeps_enter_mode, detect_manual_ok.
Qed.
End Invariant.

(** ** The column of a cell *)

Lemma column_for_col_unique cols m i c col :
  columns_ok cols (columns m) → columns m !! i = Some c → start_col c ≤ col ≤ end_col c → column_for_col m col = N.of_nat i.
Proof.
  intros [Hsorted _] Hi Hcol. unfold column_for_col.
  assert (list_find (λ c, start_col c ≤ col ∧ col ≤ end_col c) (columns m) = Some (i, c)) as ->; [|done].
  apply list_find_Some. split_and!; [done|lia|lia|]. intros j d Hj Hlt Hd.
  assert (end_col d < start_col c) as H; [|lia].
  revert i j Hi Hj Hlt. induction Hsorted as [|e l Hl IH He]; intros i j Hi Hj Hlt; [done|].
  destruct i as [|i]; [lia|]. cbn in Hi. destruct j as [|j]; cbn in Hj.
  - injection Hj as ->. by eapply Forall_lookup_1 in He.
  - eapply IH; [done..|lia].
Qed.

(** Moving to a cell puts the cursor inside the table and inside the column of
    the cell, on its first text when it has any; so the next command finds the
    cursor in the column that the session says it is in. *)
Theorem table_moves_end_in_their_column s st row v ss :
  model_ok s (table_model st) → current_col st < column_count (table_model st) → view_screen v = s →
  let v' := move_to_cell st row v in
  let '(row', col') := review_cursor_position v' in
  top (table_model st) ≤ row' ≤ bottom (table_model st) ∧
  column_for_col (table_model st) col' = current_col st ∧
  (∀ c, current_column st = Some c → ∀ x, start_col c ≤ x ≤ end_col c → is_cell_whitespace v row' x = false →
     start_col c ≤ col' ≤ x ∧ is_cell_whitespace v row' col' = false) ∧
  (navigation ss = Some st → ∀ is_alphabetic, ensure_navigation is_alphabetic v' ss = Some st).
Proof.
  intros Hm Hcol Hv. cbv zeta. pose proof (rows_in_order s _ Hm) as Hrows.
  destruct (lookup_lt_is_Some_2 (columns (table_model st)) (N.to_nat (current_col st))) as [c Hc];
    [unfold column_count in Hcol; lia|].
  unfold move_to_cell. unfold current_column. rewrite Hc.
  set (r := clamp_row (table_model st) row).
  assert (top (table_model st) ≤ r ≤ bottom (table_model st)) as Hr.
  { unfold r, clamp_row. destruct (N.ltb_spec row (top (table_model st))); [lia|].
    destruct (N.ltb_spec (bottom (table_model st)) row); lia. }
  pose proof (columns_in_order s _ Hm) as Hcols.
  assert (start_col c ≤ end_col c) as Hse.
  { destruct Hcols as [_ H]. eapply Forall_lookup_1 in H; [|exact Hc]. cbv beta in H. lia. }
  cbn [review_cursor_position set_review_cursor_position].
  set (x := default (start_col c) (first_text_col v r (start_col c) (end_col c))).
  assert (start_col c ≤ x ≤ end_col c) as Hx.
  { unfold x. destruct (first_text_col _ _ _ _) as [y|] eqn:E; cbn [default]; unfold id; [|lia]. by apply first_text_col_in in E. }
  split_and!; [lia|lia| | |].
  - rewrite (column_for_col_unique _ _ _ c x Hcols Hc Hx). lia.
  - intros c' [= <-] y Hy Hyt. unfold x. destruct (first_text_col v r (start_col c) (end_col c)) as [z|] eqn:E; cbn [default]; unfold id.
    + change (find_row (λ col, negb (is_cell_whitespace v r col)) (start_col c) (end_col c) = Some z) in E.
      apply find_row_least in E as (H1 & H2 & H3). apply negb_true_iff in H2. split; [|done].
      destruct (N.le_gt_cases z y) as [|Hlt]; [lia|]. specialize (H3 y ltac:(lia)). rewrite Hyt in H3. done.
    + exfalso. unfold first_text_col in E.
      assert (y ∈ List.filter (λ col, negb (is_cell_whitespace v r col)) (range_incl (start_col c) (end_col c))) as Hin.
      { apply elem_of_Filter. rewrite Hyt. split; [by apply elem_of_range|done]. }
      destruct (List.filter _ _); [by apply elem_of_nil in Hin|done].
  - intros Hnav al. unfold ensure_navigation. change (review_cursor_position (set_review_cursor_position (r, x) v)) with (r, x).
    cbv beta iota. rewrite Hnav.
    rewrite (proj2 (N.ltb_ge r (top (table_model st)))), (proj2 (N.ltb_ge (bottom (table_model st)) r)) by lia. done.
Qed.

(** * A concrete reader *)

Definition default_settings : Settings := {|
  help_mode := false; auto_read := true; report_indentation := true; review_follows_screen_cursor := true;
  table_header_auto := true; stop_speech_on_focus_loss := true; clipboard_default_register := Internal;
  system_clipboard_provider := Native; symbol_level := LevelSome; clipboard := clipboard_default;
  pass_through := false; terminal_focused := true; effects := []
|}.
Definition small_reader : Reader := {|
  rd_view := {| view_screen := small_screen; review_cursor_position := (0, 0); review_cursor_indent_level := 0;
                review_cursor_follow_pending := false; review_cursor_screen_transition_pending := false |};
  table_session := default_session; settings := default_settings <| report_indentation := false |>
|}.
Lemma small_grid_ok : grid_ok small_screen.
Proof. split_and!; [by vm_compute..|]. apply (bool_decide_unpack _). by vm_compute. Qed.
Lemma small_reader_ok : reader_ok small_screen small_reader.
Proof. split; [by split|]. split; [by split|]. split; [cbn; lia|by left]. Qed.

Lemma table_moves_end_in_their_column_witness :
  let '(row, col) := review_cursor_position (move_to_cell {| table_model := small_table; current_col := 1 |} 9 (rd_view small_reader)) in
  0 ≤ row ≤ 1 ∧ column_for_col small_table col = 1.
Proof.
  pose proof (table_moves_end_in_their_column small_screen {| table_model := small_table; current_col := 1 |} 9
    (rd_view small_reader) default_session small_table_ok ltac:(done) ltac:(done)) as H.
  revert H. cbv zeta. destruct (review_cursor_position _) as [row col]. intros (H1 & H2 & _). split; [exact H1|exact H2].
Defined.
