(* ===== verification/SpeechWorker.v ===== *)
(** The speech worker (src/src/speech/worker.rs): the bounded mailbox between
    the event loop, which must never wait for a speech backend, and the thread
    that owns the backend.

    The mutex makes every operation of the mailbox atomic, so the two threads
    are the sequences of their operations ([Event]), in any interleaving.  The
    worker's turn is two of them: it takes a request under the lock, and calls
    the backend with it after the lock is released, so the event loop may ask
    for anything in between.  The backend is the parameter [drive]: what a request does to it, and whether it
    fails.  A speech rate is the 32 bits of its [f32]; a [Start] carries the
    channel its outcome is sent to. *)

From S2P Require Import Prelude SpeechSupervisor.
Local Open Scope N_scope.

Definition MAX_PENDING_SPEECH_ITEMS : N := 32.
Definition MAX_PENDING_SPEECH_BYTES : N := 256 * 1024.
Definition MAX_SPEECH_ITEM_BYTES : N := 64 * 1024.

(** * The mailbox *)

Inductive Request :=
| Speak (text : bytes) (interrupt : bool)
| Stop
| SetRate (bits : N)
| ConfigureServer (server : SpeechServerSpec)
| Start (completed : N).

Definition speech_bytes_of (r : Request) : N := match r with Speak text _ => len text | _ => 0 end.
Definition is_speech (r : Request) : bool := match r with Speak _ _ => true | _ => false end.

Record MailboxState := {
  requests : list Request;
  speech_items : N;
  speech_bytes : N;
  dropped_speech_items : N;
  shutdown : bool
}.

Definition mailbox_new : MailboxState :=
  {| requests := []; speech_items := 0; speech_bytes := 0; dropped_speech_items := 0; shutdown := false |}.

Definition uncount (r : Request) (s : MailboxState) : MailboxState :=
  if is_speech r
  then s <| speech_items := speech_items s - 1 |> <| speech_bytes := speech_bytes s - speech_bytes_of r |>
  else s.

Definition remove_request (index : nat) (s : MailboxState) : option Request * MailboxState :=
  match requests s !! index with
  | Some r => (Some r, uncount r (s <| requests := delete index (requests s) |>))
  | None => (None, s)
  end.

(** The loop of [discard_speech], which ends when [index] reaches the end. *)
Fixpoint discard_loop (fuel index : nat) (s : MailboxState) : MailboxState :=
  match fuel, requests s !! index with
  | S fuel, Some r =>
      if is_speech r then discard_loop fuel index (remove_request index s).2
      else discard_loop fuel (S index) s
  | _, _ => s
  end.

Definition discard_speech (s : MailboxState) : MailboxState := discard_loop (length (requests s)) 0 s.

(** The cut is the one of the supervisor, whose text it shares. *)
Definition bounded_item (text : bytes) : bytes := bounded_text text MAX_SPEECH_ITEM_BYTES.

Definition first_speech (l : list Request) : option nat := fst <$> list_find (λ r, is_speech r = true) l.

(** The loop of [enqueue_speech] that makes room. *)
Fixpoint make_room (fuel : nat) (text_bytes : N) (s : MailboxState) : MailboxState :=
  match fuel with
  | O => s
  | S fuel =>
      if (speech_items s =? MAX_PENDING_SPEECH_ITEMS)
         || (MAX_PENDING_SPEECH_BYTES <? sat_add usize_max (speech_bytes s) text_bytes)
      then match first_speech (requests s) with
           | Some index =>
               let s := (remove_request index s).2 in
               make_room fuel text_bytes (s <| dropped_speech_items := sat_add u64_max (dropped_speech_items s) 1 |>)
           | None => s
           end
      else s
  end.

Definition enqueue_speech (text : bytes) (interrupt : bool) (s : MailboxState) : MailboxState :=
  let text := bounded_item text in
  if shutdown s then s else
  let s := if interrupt then discard_speech s else s in
  let s := make_room (S (length (requests s))) (len text) s in
  s <| speech_items := sat_add usize_max (speech_items s) 1 |>
    <| speech_bytes := sat_add usize_max (speech_bytes s) (len text) |>
    <| requests := requests s ++ [Speak text interrupt] |>.

Definition is_stop (r : Request) : bool := match r with Stop => true | _ => false end.
Definition is_rate (r : Request) : bool := match r with SetRate _ => true | _ => false end.
Definition is_server (r : Request) : bool := match r with ConfigureServer _ => true | _ => false end.

(** Controls replace the pending one of their kind, and go first. *)
Definition push_control (same : Request → bool) (r : Request) (s : MailboxState) : MailboxState :=
  s <| requests := r :: List.filter (λ x, negb (same x)) (requests s) |>.

Definition enqueue_stop (s : MailboxState) : MailboxState :=
  if shutdown s then s else push_control is_stop Stop (discard_speech s).

Definition enqueue_rate (bits : N) (s : MailboxState) : MailboxState :=
  if shutdown s then s else push_control is_rate (SetRate bits) s.

Definition enqueue_server (server : SpeechServerSpec) (s : MailboxState) : MailboxState :=
  if shutdown s then s else push_control is_server (ConfigureServer server) s.

Definition enqueue_start (completed : N) (s : MailboxState) : result bytes MailboxState :=
  if shutdown s then Err (bs "speech worker has shut down")
  else Ok (s <| requests := requests s ++ [Start completed] |>).

(** [next_request] sleeps on an empty mailbox until it is notified. *)
Inductive Next := Sleeping | Finished | Got (r : Request).

Definition next_request (s : MailboxState) : Next * MailboxState :=
  match requests s with
  | [] => ((if shutdown s then Finished else Sleeping), s)
  | r :: rest =>
      if shutdown s then (Finished, s) else (Got r, uncount r (s <| requests := rest |>))
  end.

Definition shut_down (s : MailboxState) : MailboxState :=
  s <| shutdown := true |> <| requests := [] |> <| speech_items := 0 |> <| speech_bytes := 0 |>.

(** * The driver and its worker *)

Section Worker.

Context {D : Type} (drive : Request → D → D * result bytes unit).

(** [BoundedAsyncDriver], with the worker thread's side: its backend, its
    failure count, the outcomes it has sent, whether it is still running.
    [in_flight] is the request that the worker has taken from the mailbox and
    not yet driven, [served] the requests that have reached the backend. *)
Record Async := {
  mailbox : MailboxState;
  rate : N;
  backend : D;
  failures : N;
  outcomes : list (N * result bytes unit);
  running : bool;
  in_flight : option Request;
  served : list Request
}.

Definition new_inner (driver : D) (driver_rate : N) : Async :=
  {| mailbox := mailbox_new; rate := driver_rate; backend := driver; failures := 0; outcomes := [];
     running := true; in_flight := None; served := [] |}.

Inductive Event :=
| AskSpeak (text : bytes) (interrupt : bool)
| AskStop
| AskRate (bits : N)
| AskServer (server : SpeechServerSpec)
| AskStart (completed : N)
| AskShutdown
| Take
| Drive.

(** [run_worker]: the loop's condition, under the lock; then its body. *)
Definition take_request (a : Async) : Async :=
  if negb (running a) || bool_decide (is_Some (in_flight a)) then a else
  match next_request (mailbox a) with
  | (Sleeping, _) => a
  | (Finished, _) => a <| running := false |>
  | (Got r, m) => a <| mailbox := m |> <| in_flight := Some r |>
  end.

Definition drive_request (a : Async) : Async :=
  match in_flight a with
  | None => a
  | Some r =>
      let '(b, res) := drive r (backend a) in
      let a := a <| in_flight := None |> <| backend := b |> <| served := served a ++ [r] |> in
      let a := match r with Start completed => a <| outcomes := outcomes a ++ [(completed, res)] |> | _ => a end in
      match res with
      | Ok _ => a
      | Err _ => a <| failures := sat_add u64_max (failures a) 1 |>
      end
  end.

(** The driver's operations; the outcome is the caller's. *)
Definition async_speak (text : bytes) (interrupt : bool) (a : Async) : Async :=
  a <| mailbox := enqueue_speech text interrupt (mailbox a) |>.
Definition async_stop (a : Async) : Async := a <| mailbox := enqueue_stop (mailbox a) |>.
Definition async_set_rate (bits : N) (a : Async) : result bytes Async :=
  if negb (is_finite bits) then Err (bs "speech rate must be finite")
  else Ok (a <| mailbox := enqueue_rate bits (mailbox a) |> <| rate := bits |>).
Definition async_configure_server (server : SpeechServerSpec) (a : Async) : Async :=
  a <| mailbox := enqueue_server server (mailbox a) |>.
Definition async_start (completed : N) (a : Async) : result bytes Async :=
  m ← enqueue_start completed (mailbox a); mret (a <| mailbox := m |>).
Definition async_shutdown (a : Async) : Async := a <| mailbox := shut_down (mailbox a) |>.

(** A failed call leaves everything as it was. *)
Definition after (r : result bytes Async) (a : Async) : Async := match r with Ok b => b | Err _ => a end.

Definition step (a : Async) (e : Event) : Async :=
  match e with
  | AskSpeak text interrupt => async_speak text interrupt a
  | AskStop => async_stop a
  | AskRate bits => after (async_set_rate bits a) a
  | AskServer server => async_configure_server server a
  | AskStart completed => after (async_start completed a) a
  | AskShutdown => async_shutdown a
  | Take => take_request a
  | Drive => drive_request a
  end.

Definition run (a : Async) (evs : list Event) : Async := fold_left step evs a.

End Worker.
Arguments Async : clear implicits.

(** * Counts *)

(** The announcements in a list of requests. *)
Definition speeches (l : list Request) : list (bytes * bool) :=
  omap (λ r, match r with Speak text interrupt => Some (text, interrupt) | _ => None end) l.

Definition counted (s : MailboxState) : Prop :=
  speech_items s = len (speeches (requests s)) ∧ speech_bytes s = total_bytes (speeches (requests s)).

Lemma speeches_cons r l :
  speeches (r :: l) = match r with Speak text interrupt => (text, interrupt) :: speeches l | _ => speeches l end.
Proof. by destruct r. Qed.

Lemma speeches_app l1 l2 : speeches (l1 ++ l2) = speeches l1 ++ speeches l2.
Proof. apply omap_app. Qed.

Lemma speeches_silent l : Forall (λ r, is_speech r = false) l → speeches l = [].
Proof. induction 1 as [|[] l Hr _ IH]; [done|by cbn in Hr|exact IH..]. Qed.

Lemma speeches_none l : speeches l = [] → Forall (λ r, is_speech r = false) l.
Proof. induction l as [|[] l IH]; intros H; constructor; try done; by apply IH. Qed.

Lemma speeches_filter (f : Request → bool) l :
  (∀ r, is_speech r = true → f r = true) → speeches (List.filter f l) = speeches l.
Proof.
  intros Hf. induction l as [|r l IH]; [done|]. cbn [List.filter]. destruct (f r) eqn:E.
  - by rewrite !speeches_cons, IH.
  - rewrite speeches_cons, IH. destruct r; try done. by rewrite Hf in E.
Qed.

Lemma uncount_counted s r l1 l2 :
  requests s = l1 ++ l2 → speech_items s = len (speeches (l1 ++ r :: l2)) →
  speech_bytes s = total_bytes (speeches (l1 ++ r :: l2)) → counted (uncount r s).
Proof.
  destruct s as [q items b d sh]. cbn [requests speech_items speech_bytes].
  rewrite !speeches_app, speeches_cons. intros -> -> ->. unfold counted, uncount.
  destruct r as [text i| | | |]; cbn [is_speech requests speech_items speech_bytes]; [|by rewrite ?speeches_app..].
  change (len (speeches l1 ++ (text, i) :: speeches l2) - 1 = len (speeches (l1 ++ l2)) ∧
    total_bytes (speeches l1 ++ (text, i) :: speeches l2) - len text = total_bytes (speeches (l1 ++ l2))).
  rewrite speeches_app, !total_bytes_app, !length_app. cbn [total_bytes foldr fst length].
  fold (total_bytes (speeches l2)). lia.
Qed.

Lemma uncount_same r s :
  requests (uncount r s) = requests s ∧ shutdown (uncount r s) = shutdown s ∧
  dropped_speech_items (uncount r s) = dropped_speech_items s.
Proof. unfold uncount. by destruct (is_speech r). Qed.

Lemma remove_middle s l1 r l2 : requests s = l1 ++ r :: l2 →
  requests (remove_request (length l1) s).2 = l1 ++ l2 ∧
  shutdown (remove_request (length l1) s).2 = shutdown s ∧
  dropped_speech_items (remove_request (length l1) s).2 = dropped_speech_items s ∧
  (counted s → counted (remove_request (length l1) s).2).
Proof.
  intros Hs. unfold remove_request. rewrite Hs, lookup_app_r, Nat.sub_diag by lia. cbn [lookup list_lookup snd].
  rewrite delete_middle. destruct (uncount_same r (s <| requests := l1 ++ l2 |>)) as (-> & -> & ->).
  split_and!; [done|done|done|]. unfold counted at 1. rewrite Hs. intros [Hi Hb]. by apply (uncount_counted _ _ l1 l2).
Qed.

Lemma discard_loop_spec fuel l1 s l2 :
  requests s = l1 ++ l2 → (length l2 ≤ fuel)%nat → counted s →
  let s' := discard_loop fuel (length l1) s in
  requests s' = l1 ++ List.filter (λ r, negb (is_speech r)) l2 ∧ counted s' ∧ shutdown s' = shutdown s.
Proof.
  revert l1 s l2. induction fuel as [|fuel IH]; intros l1 s l2 Hs Hfuel Hc; cbn [discard_loop].
  - destruct l2; [|by cbn in Hfuel; lia]. by rewrite Hs.
  - rewrite Hs, lookup_app_r, Nat.sub_diag by lia. destruct l2 as [|r l2]; cbn [lookup list_lookup]; [by rewrite Hs|].
    cbn [length] in Hfuel. destruct (is_speech r) eqn:Er; cbn [List.filter]; rewrite Er; cbn [negb].
    + destruct (remove_middle s l1 r l2 Hs) as (Hq & Hsh & _ & Hcc).
      destruct (IH l1 (remove_request (length l1) s).2 l2) as (H1 & H2 & H3); [done|lia|by apply Hcc|].
      cbv zeta. by rewrite H3, Hsh.
    + destruct (IH (l1 ++ [r]) s l2) as (H1 & H2 & H3); [by rewrite <-app_assoc|lia|done|].
      rewrite length_app in H1, H2, H3. cbn [length] in H1, H2, H3. rewrite Nat.add_1_r in H1, H2, H3.
      cbv zeta. by rewrite H1, <-app_assoc.
Qed.

Lemma discard_speech_spec s : counted s →
  requests (discard_speech s) = List.filter (λ r, negb (is_speech r)) (requests s) ∧
  counted (discard_speech s) ∧ shutdown (discard_speech s) = shutdown s.
Proof. intros Hc. by apply (discard_loop_spec _ [] s (requests s)). Qed.

Lemma speeches_discarded l : speeches (List.filter (λ r, negb (is_speech r)) l) = [].
Proof. apply speeches_silent, Forall_forall. intros r [_ Hr]%elem_of_Filter. by apply negb_true_iff. Qed.

Lemma first_speech_cons r l :
  first_speech (r :: l) = if is_speech r then Some O else S <$> first_speech l.
Proof. unfold first_speech. cbn [list_find]. destruct r; [done|..]; by destruct (list_find _ _) as [[]|]. Qed.

Lemma first_speech_split l p ps : speeches l = p :: ps →
  ∃ l1 l2, l = l1 ++ Speak p.1 p.2 :: l2 ∧ first_speech l = Some (length l1) ∧ speeches l1 = [] ∧ speeches l2 = ps.
Proof.
  induction l as [|r l IH]; [done|]. rewrite speeches_cons, first_speech_cons. intros H.
  destruct (is_speech r) eqn:Er.
  - destruct r; try done. injection H as <- <-. by exists [], l.
  - destruct IH as (l1 & l2 & -> & -> & H1 & H2); [by destruct r|]. exists (r :: l1), l2.
    split_and!; [done|done| |done]. rewrite speeches_cons. by destruct r.
Qed.

Lemma Filter_sublist {A} (f : A → bool) l k : sublist l k → sublist (List.filter f l) (List.filter f k).
Proof. induction 1; cbn [List.filter]; repeat case_match; try done; by constructor. Qed.

Lemma Filter_is_sublist {A} (f : A → bool) l : sublist (List.filter f l) l.
Proof. induction l as [|x l IH]; cbn [List.filter]; [done|]. destruct (f x); by constructor. Qed.

Lemma Forall_sublist {A} (P : A → Prop) l k : sublist l k → Forall P k → Forall P l.
Proof. induction 1; rewrite ?Forall_cons; naive_solver. Qed.

Lemma speeches_sublist l k : sublist l k → sublist (speeches l) (speeches k).
Proof.
  induction 1 as [|r l k _ IH|r l k _ IH]; [done|..]; rewrite !speeches_cons; destruct r; try done; by constructor.
Qed.

Definition within_bounds (l : list (bytes * bool)) : Prop :=
  len l ≤ MAX_PENDING_SPEECH_ITEMS ∧ total_bytes l ≤ MAX_PENDING_SPEECH_BYTES ∧
  Forall (λ p, len p.1 ≤ MAX_SPEECH_ITEM_BYTES) l.

Lemma within_bounds_nil : within_bounds [].
Proof. split_and!; [vm_compute; discriminate..|constructor]. Qed.

Lemma within_bounds_sublist l k : sublist l k → within_bounds k → within_bounds l.
Proof.
  intros Hs (H1 & H2 & H3). split_and!; [|clear -Hs H2|by eapply Forall_sublist].
  - apply sublist_length in Hs. lia.
  - enough (total_bytes l ≤ total_bytes k) by lia. clear H2.
    induction Hs as [|p l k _ IH|p l k _ IH]; [done|..]; cbn [total_bytes foldr];
      fold (total_bytes l); fold (total_bytes k); lia.
Qed.

(** What making room leaves: a suffix of the announcements, and everything
    else in its order.  An announcement goes only when it must. *)
Lemma make_room_spec fuel n s :
  counted s → within_bounds (speeches (requests s)) → n ≤ MAX_SPEECH_ITEM_BYTES →
  (length (speeches (requests s)) < fuel)%nat →
  let s' := make_room fuel n s in
  ∃ dropped, speeches (requests s) = dropped ++ speeches (requests s') ∧
  sublist (requests s') (requests s) ∧
  List.filter (λ r, negb (is_speech r)) (requests s') = List.filter (λ r, negb (is_speech r)) (requests s) ∧
  counted s' ∧ shutdown s' = shutdown s ∧
  len (speeches (requests s')) < MAX_PENDING_SPEECH_ITEMS ∧
  total_bytes (speeches (requests s')) + n ≤ MAX_PENDING_SPEECH_BYTES ∧
  (∀ l p, dropped = l ++ [p] → len (p :: speeches (requests s')) = MAX_PENDING_SPEECH_ITEMS ∨
     MAX_PENDING_SPEECH_BYTES < total_bytes (p :: speeches (requests s')) + n).
Proof.
  revert s. induction fuel as [|fuel IH]; intros s Hc Hw Hn Hfuel; [lia|]. cbn [make_room].
  pose proof Hc as [Hi Hb]. rewrite Hi, Hb. destruct Hw as (W1 & W2 & W3).
  destruct ((len (speeches (requests s)) =? MAX_PENDING_SPEECH_ITEMS) ||
    (MAX_PENDING_SPEECH_BYTES <? sat_add usize_max (total_bytes (speeches (requests s))) n)) eqn:Hfull.
  - destruct (speeches (requests s)) as [|p ps] eqn:Hsp.
    { exfalso. apply orb_true_iff in Hfull as [H|H]; [done|]. apply N.ltb_lt in H. cbn [total_bytes foldr] in H.
      unfold sat_add, usize_max, u64_max, MAX_PENDING_SPEECH_BYTES, MAX_SPEECH_ITEM_BYTES in *. lia. }
    destruct (first_speech_split _ _ _ Hsp) as (l1 & l2 & Hl & -> & Hs1 & Hs2).
    destruct (remove_middle s l1 _ l2 Hl) as (Hq & Hsh & _ & Hcc).
    set (s1 := (remove_request (length l1) s).2 <| dropped_speech_items := _ |>).
    assert (requests s1 = l1 ++ l2) as Hq1 by done.
    assert (speeches (requests s1) = ps) as Hps by (by rewrite Hq1, speeches_app, Hs1, Hs2).
    destruct (IH s1) as (dropped & H1 & H2 & H3 & H4 & H5 & H6 & H7 & H8).
    + by apply Hcc.
    + rewrite Hps. apply (within_bounds_sublist _ (p :: ps)); [by constructor|done].
    + done.
    + rewrite Hps. cbn [length] in Hfuel. lia.
    + cbv zeta. exists (p :: dropped). rewrite Hps in H1. split_and!.
      * by rewrite H1.
      * etrans; [exact H2|]. rewrite Hq1, Hl. by apply sublist_app, sublist_cons.
      * rewrite H3, Hq1, Hl, !List.filter_app. done.
      * done.
      * by rewrite H5.
      * done.
      * done.
      * intros [|x l] q E; [|injection E as _ E; by apply (H8 l)].
        injection E as <- ->. cbn [app] in H1. rewrite <-H1.
        apply orb_true_iff in Hfull as [H%N.eqb_eq|H%N.ltb_lt]; [by left|right].
        clear -H. unfold sat_add in H. lia.
  - exists []. apply orb_false_iff in Hfull as [F1%N.eqb_neq F2%N.ltb_ge]. split_and!; try done.
    + clear -F1 W1. lia.
    + clear -F2. unfold sat_add, usize_max, u64_max, MAX_PENDING_SPEECH_BYTES in *. lia.
    + by intros [] ?.
Qed.

(** * The shape of the mailbox *)

Definition is_control (r : Request) : bool := is_stop r || is_rate r || is_server r.

(** Controls come before everything else, at most one of each kind. *)
Definition controls_first (l : list Request) : Prop :=
  ∃ c q, l = c ++ q ∧ Forall (λ r, is_control r = true) c ∧ Forall (λ r, is_control r = false) q.
Definition coalesced (l : list Request) : Prop :=
  (length (List.filter is_stop l) ≤ 1)%nat ∧ (length (List.filter is_rate l) ≤ 1)%nat ∧
  (length (List.filter is_server l) ≤ 1)%nat.
Definition shape_ok (l : list Request) : Prop := controls_first l ∧ coalesced l.

Record mail_ok (s : MailboxState) : Prop := {
  ok_counted : counted s;
  ok_bounds : within_bounds (speeches (requests s));
  ok_shape : shape_ok (requests s);
  ok_shutdown : shutdown s = true → requests s = []
}.

Lemma shape_sublist l k : sublist l k → shape_ok k → shape_ok l.
Proof.
  intros Hs [(c & q & -> & Hc & Hq) Hone]. split.
  - apply sublist_app_r in Hs as (l1 & l2 & -> & H1 & H2). exists l1, l2. split_and!; [done|by eapply Forall_sublist..].
  - destruct Hone as (H1 & H2 & H3). split_and!; [etrans; [|exact H1]|etrans; [|exact H2]|etrans; [|exact H3]]; by apply sublist_length, Filter_sublist.
Qed.

Lemma shape_snoc r l : is_control r = false → shape_ok l → shape_ok (l ++ [r]).
Proof.
  intros Hr [(c & q & -> & Hc & Hq) (H1 & H2 & H3)]. split.
  - exists c, (q ++ [r]). split_and!; [by rewrite app_assoc|done|]. apply Forall_app. split; [done|by constructor].
  - unfold is_control in Hr. apply orb_false_iff in Hr as [[R1 R2]%orb_false_iff R3].
    unfold coalesced. rewrite !(List.filter_app _ (c ++ q) [r]). cbn [List.filter]. rewrite R1, R2, R3, !app_nil_r. done.
Qed.

Lemma filter_none {A} (f : A → bool) l : List.filter f (List.filter (λ x, negb (f x)) l) = [].
Proof.
  induction l as [|x l IH]; [done|]. cbn [List.filter]. destruct (f x) eqn:E; cbn [negb List.filter]; [done|]. by rewrite E.
Qed.

(** A kind of control: no request is of two kinds. *)
Definition control_kind (same : Request → bool) : Prop := same = is_stop ∨ same = is_rate ∨ same = is_server.

Lemma shape_push same r l : control_kind same → same r = true → shape_ok l →
  shape_ok (r :: List.filter (λ x, negb (same x)) l).
Proof.
  intros Hk Hr Hl. destruct (shape_sublist _ _ (Filter_is_sublist (λ x, negb (same x)) l) Hl) as [Hf (H1 & H2 & H3)].
  split.
  - destruct Hf as (c & q & -> & Hc & Hq). exists (r :: c), q. split_and!; [done| |done]. constructor; [|done].
    destruct Hk as [-> | [-> | ->]]; destruct r; done.
  - destruct Hk as [-> | [-> | ->]]; unfold coalesced; destruct r; try discriminate Hr;
      cbn [List.filter is_stop is_rate is_server]; rewrite ?filter_none; cbn [length]; split_and!; lia || assumption.
Qed.

Lemma speeches_le_requests l : (length (speeches l) ≤ length l)%nat.
Proof. induction l as [|r l IH]; [done|]. rewrite speeches_cons. destruct r; cbn [length]; lia. Qed.

Lemma discard_speech_ok s : mail_ok s → mail_ok (discard_speech s) ∧ speeches (requests (discard_speech s)) = [].
Proof.
  intros [Hc Hb Hs Hd]. destruct (discard_speech_spec s Hc) as (Hq & Hc' & Hsh).
  rewrite Hq, speeches_discarded. split; [|done]. split; rewrite ?Hq, ?Hsh, ?speeches_discarded; [done|apply within_bounds_nil|..].
  - eapply shape_sublist; [|exact Hs]. apply Filter_is_sublist.
  - intros H. by rewrite Hd.
Qed.

Lemma bounded_item_le text : len (bounded_item text) ≤ MAX_SPEECH_ITEM_BYTES.
Proof.
  unfold bounded_item, bounded_text. destruct (len text <=? MAX_SPEECH_ITEM_BYTES) eqn:E; [lia|].
  pose proof (floor_char_boundary_spec text (N.to_nat (N.min (MAX_SPEECH_ITEM_BYTES - len TRUNCATION_SUFFIX) (len text)))) as H.
  cbv zeta in H. destruct H as (Hle & _). rewrite length_app, length_take.
  assert (len TRUNCATION_SUFFIX ≤ MAX_SPEECH_ITEM_BYTES) by (vm_compute; discriminate). lia.
Qed.

(** What an announcement does to the mailbox. *)
Lemma enqueue_speech_ok text interrupt s : mail_ok s → shutdown s = false →
  let s' := enqueue_speech text interrupt s in
  mail_ok s' ∧ shutdown s' = false ∧
  ∃ kept, requests s' = kept ++ [Speak (bounded_item text) interrupt] ∧ sublist kept (requests s) ∧
    List.filter (λ r, negb (is_speech r)) kept = List.filter (λ r, negb (is_speech r)) (requests s) ∧
    (if interrupt then speeches kept = [] else
     ∃ dropped, speeches (requests s) = dropped ++ speeches kept ∧
     ∀ l p, dropped = l ++ [p] → len (p :: speeches kept) = MAX_PENDING_SPEECH_ITEMS ∨
       MAX_PENDING_SPEECH_BYTES < total_bytes (p :: speeches kept) + len (bounded_item text)).
Proof.
  intros Hok Hrun. unfold enqueue_speech. rewrite Hrun. cbv zeta.
  set (s1 := if interrupt then _ else s).
  assert (mail_ok s1 ∧ shutdown s1 = false ∧ sublist (requests s1) (requests s) ∧
    List.filter (λ r, negb (is_speech r)) (requests s1) = List.filter (λ r, negb (is_speech r)) (requests s) ∧
    speeches (requests s1) = if interrupt then [] else speeches (requests s)) as (Hok1 & Hrun1 & Hsub1 & Hf1 & Hsp1).
  { unfold s1. destruct interrupt; [|done]. destruct (discard_speech_ok s Hok) as [H1 H2].
    destruct (discard_speech_spec s (ok_counted _ Hok)) as (Hq & _ & ->). rewrite H2, Hq.
    split_and!; [done|done|apply Filter_is_sublist| |done].
    clear. induction (requests s) as [|r l IH]; [done|]. cbn [List.filter].
    destruct (is_speech r) eqn:E; cbn [negb List.filter]; [done|]. by rewrite E, IH. }
  clearbody s1. destruct Hok1 as [Hc Hb Hs Hd].
  destruct (make_room_spec (S (length (requests s1))) (len (bounded_item text)) s1 Hc Hb (bounded_item_le text))
    as (dropped & H1 & H2 & H3 & H4 & H5 & H6 & H7 & H8); [pose proof (speeches_le_requests (requests s1)); lia|].
  set (s2 := make_room _ _ s1) in *. clearbody s2. destruct H4 as [Hi2 Hb2].
  set (s' := s2 <| speech_items := _ |> <| speech_bytes := _ |> <| requests := _ |>).
  assert (requests s' = requests s2 ++ [Speak (bounded_item text) interrupt] ∧ shutdown s' = shutdown s2 ∧
    speech_items s' = sat_add usize_max (speech_items s2) 1 ∧
    speech_bytes s' = sat_add usize_max (speech_bytes s2) (len (bounded_item text))) as (Eq & Esh & Ei & Eb) by done.
  assert (speeches (requests s') = speeches (requests s2) ++ [(bounded_item text, interrupt)]) as Esp
    by (by rewrite Eq, speeches_app).
  assert (within_bounds (speeches (requests s2))) as Hb'.
  { eapply within_bounds_sublist; [|exact Hb]. rewrite H1. by apply sublist_inserts_l. }
  split_and!; [split| |].
  - split; rewrite Esp, ?Ei, ?Eb, ?Hi2, ?Hb2, ?length_app, ?total_bytes_app;
      cbn [length total_bytes foldr fst]; unfold sat_add, usize_max, u64_max;
      unfold MAX_PENDING_SPEECH_ITEMS, MAX_PENDING_SPEECH_BYTES in *; lia.
  - rewrite Esp. destruct Hb' as (B1 & B2 & B3). split_and!.
    + rewrite length_app. cbn [length]. lia.
    + rewrite total_bytes_app. cbn [total_bytes foldr fst]. lia.
    + apply Forall_app. split; [done|]. apply Forall_singleton, bounded_item_le.
  - rewrite Eq. apply shape_snoc; [done|]. by eapply shape_sublist.
  - rewrite Esh, H5, Hrun1. done.
  - by rewrite Esh, H5.
  - exists (requests s2). split_and!; [done|by etrans|by rewrite H3|].
    destruct interrupt; [|rewrite Hsp1 in H1; by exists dropped].
    rewrite Hsp1 in H1. by destruct dropped, (speeches (requests s2)).
Qed.

(** * The two threads *)

Lemma next_request_ok s : mail_ok s → mail_ok (next_request s).2.
Proof.
  intros Hok. pose proof Hok as [Hc Hb Hs Hd]. unfold next_request. destruct (requests s) as [|r rest] eqn:E; [exact Hok|].
  destruct (shutdown s) eqn:Esh; [exact Hok|]. cbn [snd].
  destruct (uncount_same r (s <| requests := rest |>)) as (E1 & E2 & E3).
  assert (sublist rest (r :: rest)) as Hsub by by constructor.
  split; rewrite ?E1, ?E2.
  - destruct Hc as [Hi Hb']. rewrite E in Hi, Hb'. by apply (uncount_counted _ r [] rest).
  - eapply within_bounds_sublist; [|exact Hb]. by apply speeches_sublist.
  - by eapply shape_sublist.
  - intros Hx. exfalso. assert (shutdown s = true) by exact Hx. congruence.
Qed.

Lemma push_control_ok same r s : control_kind same → same r = true → shutdown s = false → mail_ok s →
  mail_ok (push_control same r s) ∧ speeches (requests (push_control same r s)) = speeches (requests s).
Proof.
  intros Hk Hr Hrun [Hc Hb Hs Hd]. unfold push_control.
  set (s' := s <| requests := _ |>).
  assert (requests s' = r :: List.filter (λ x, negb (same x)) (requests s) ∧ speech_items s' = speech_items s ∧
    speech_bytes s' = speech_bytes s ∧ shutdown s' = shutdown s) as (Eq & Ei & Eb & Esh) by done. clearbody s'.
  assert (speeches (requests s') = speeches (requests s)) as Esp.
  { rewrite Eq, speeches_cons, speeches_filter; [by destruct Hk as [-> | [-> | ->]], r|].
    intros x Hx. destruct Hk as [-> | [-> | ->]]; by destruct x. }
  split; [|done]. split; rewrite ?Esp, ?Eq.
  - unfold counted. rewrite Esp, Ei, Eb. exact Hc.
  - done.
  - by apply shape_push.
  - by rewrite Esh, Hrun.
Qed.

Lemma enqueue_start_ok completed s s' : mail_ok s → enqueue_start completed s = Ok s' →
  mail_ok s' ∧ shutdown s = false ∧ requests s' = requests s ++ [Start completed] ∧ shutdown s' = shutdown s.
Proof.
  intros [Hc Hb Hs Hd]. unfold enqueue_start. destruct (shutdown s) eqn:E; [done|]. intros [= Hs'].
  assert (requests s' = requests s ++ [Start completed] ∧ shutdown s' = shutdown s ∧ speech_items s' = speech_items s ∧
    speech_bytes s' = speech_bytes s) as (Eq & Esh & Ei & Eb) by (by rewrite <-Hs'). clear Hs'.
  assert (speeches (requests s') = speeches (requests s)) as Esp by (by rewrite Eq, speeches_app, app_nil_r).
  split_and!; [split|done|done|by rewrite Esh]; rewrite ?Esp.
  - unfold counted. by rewrite Esp, Ei, Eb.
  - done.
  - rewrite Eq. by apply shape_snoc.
  - by rewrite Esh, E.
Qed.

Lemma shut_down_ok s : mail_ok (shut_down s).
Proof.
  split; [done|apply within_bounds_nil| |done].
  split; [by exists [], []|]. unfold coalesced. cbn. lia.
Qed.

Section Threads.

Context {D : Type} (drive : Request → D → D * result bytes unit).
Implicit Types a : Async D.

Definition reachable (a : Async D) : Prop := ∃ driver driver_rate evs, a = run drive (new_inner driver driver_rate) evs.

(** The announcements asked for, as they are queued. *)
Definition announced (evs : list Event) : list (bytes * bool) :=
  omap (λ e, match e with AskSpeak text interrupt => Some (bounded_item text, interrupt) | _ => None end) evs.

Lemma run_app a l1 l2 : run drive a (l1 ++ l2) = run drive (run drive a l1) l2.
Proof. apply fold_left_app. Qed.

(** The requests taken from the mailbox, and the channels of those that were to
    start: all but the one in flight have got their outcome. *)
Definition handed a : list Request := served a ++ option_list (in_flight a).
Definition starts (l : list Request) : list N := omap (λ r, match r with Start c => Some c | _ => None end) l.
Definition promised a : list N := (fst <$> outcomes a) ++ starts (option_list (in_flight a)).

Lemma take_cases a :
  (take_request a = a) ∨
  (shutdown (mailbox a) = true ∧ take_request a = a <| running := false |>) ∨
  (∃ r rest, running a = true ∧ shutdown (mailbox a) = false ∧ requests (mailbox a) = r :: rest ∧
     let a' := take_request a in
     mailbox a' = (next_request (mailbox a)).2 ∧ requests (mailbox a') = rest ∧ shutdown (mailbox a') = false ∧
     handed a' = handed a ++ [r] ∧ running a' = true ∧ promised a' = promised a ++ starts [r]).
Proof.
  unfold take_request. destruct (running a) eqn:Er; cbn [negb orb]; [|by left].
  case_bool_decide as Hf; [by left|]. apply eq_None_not_Some in Hf.
  unfold next_request. destruct (requests (mailbox a)) as [|r rest] eqn:Eq; destruct (shutdown (mailbox a)) eqn:Esh.
  - right. left. done.
  - by left.
  - right. left. done.
  - right. right. exists r, rest. destruct (uncount_same r ((mailbox a) <| requests := rest |>)) as (E1 & E2 & _).
    split; [done|]. split; [done|]. split; [done|]. cbn [snd].
    set (m := uncount r _) in *. assert (shutdown m = false) as E2' by (rewrite E2; exact Esh).
    assert (requests m = rest) as E1' by exact E1. clearbody m.
    unfold handed, promised. rewrite Hf. cbn [option_list]. rewrite !app_nil_r. by destruct a; split_and!.
Qed.

Lemma drive_spec a :
  let a' := drive_request drive a in
  mailbox a' = mailbox a ∧ handed a' = handed a ∧ running a' = running a ∧ promised a' = promised a ∧
  in_flight a' = None ∧ served a' = handed a.
Proof.
  cbv zeta. unfold drive_request. destruct (in_flight a) as [r|] eqn:Ef.
  - unfold handed, promised. rewrite Ef. destruct (drive r (backend a)) as [b res].
    destruct a, r, res; cbn in *; subst; split_and!; try done; by rewrite ?app_nil_r, ?fmap_app.
  - unfold handed. rewrite Ef. by rewrite app_nil_r.
Qed.

Lemma step_ok a e : mail_ok (mailbox a) → mail_ok (mailbox (step drive a e)).
Proof.
  intros Hok. destruct e; cbn [step].
  - change (mail_ok (enqueue_speech text interrupt (mailbox a))). destruct (shutdown (mailbox a)) eqn:E.
    + unfold enqueue_speech. by rewrite E.
    + by destruct (enqueue_speech_ok text interrupt _ Hok E) as [? _].
  - change (mail_ok (enqueue_stop (mailbox a))). unfold enqueue_stop. destruct (shutdown (mailbox a)) eqn:E; [done|].
    destruct (discard_speech_ok _ Hok) as [H _]. destruct (discard_speech_spec _ (ok_counted _ Hok)) as (_ & _ & Hsh).
    apply push_control_ok; [by left|done|by rewrite Hsh|done].
  - unfold async_set_rate. destruct (negb (is_finite bits)); cbn [after]; [done|].
    change (mail_ok (enqueue_rate bits (mailbox a))). unfold enqueue_rate. destruct (shutdown (mailbox a)) eqn:E; [done|].
    apply push_control_ok; [by right; left|done..].
  - change (mail_ok (enqueue_server server (mailbox a))). unfold enqueue_server. destruct (shutdown (mailbox a)) eqn:E; [done|].
    apply push_control_ok; [by right; right|done..].
  - unfold async_start. destruct (enqueue_start completed (mailbox a)) as [s'|m] eqn:E; cbn; [|done].
    by destruct (enqueue_start_ok _ _ _ Hok E).
  - apply shut_down_ok.
  - destruct (take_cases a) as [-> | [[_ ->] | (r & rest & _ & _ & _ & H)]]; [done|done|].
    cbv zeta in H. destruct H as (-> & _). by apply next_request_ok.
  - by destruct (drive_spec a) as (-> & _).
Qed.

Lemma run_ok evs a : mail_ok (mailbox a) → mail_ok (mailbox (run drive a evs)).
Proof. revert a. induction evs as [|e evs IH]; intros a Ha; [done|]. by apply IH, step_ok. Qed.

Lemma reachable_ok a : reachable a → mail_ok (mailbox a).
Proof.
  intros (d & r & evs & ->). apply run_ok. split; [done|apply within_bounds_nil| |done].
  split; [by exists [], []|]. unfold coalesced. cbn. lia.
Qed.

(** What one event does to the requests handed out and the announcements that
    are still queued. *)
Lemma step_delivers a e : mail_ok (mailbox a) →
  ∃ new, handed (step drive a e) = handed a ++ new ∧
    sublist (speeches new ++ speeches (requests (mailbox (step drive a e))))
      (speeches (requests (mailbox a)) ++ announced [e]).
Proof.
  intros Hok.
  assert (∀ b : Async D, handed b = handed a → speeches (requests (mailbox b)) = speeches (requests (mailbox a)) →
    ∃ new, handed b = handed a ++ new ∧
      sublist (speeches new ++ speeches (requests (mailbox b))) (speeches (requests (mailbox a)) ++ announced [e])) as Hsame.
  { intros b Hb1 Hb2. exists []. rewrite Hb1, Hb2, app_nil_r. split; [done|]. by apply sublist_inserts_r. }
  assert (∀ b : Async D, handed b = handed a → speeches (requests (mailbox b)) = [] →
    ∃ new, handed b = handed a ++ new ∧
      sublist (speeches new ++ speeches (requests (mailbox b))) (speeches (requests (mailbox a)) ++ announced [e])) as Hnone.
  { intros b Hb1 Hb2. exists []. rewrite Hb1, Hb2, app_nil_r. split; [done|]. apply sublist_nil_l. }
  destruct e; cbn [step].
  - destruct (shutdown (mailbox a)) eqn:Esh.
    { apply Hsame; [done|]. change (speeches (requests (enqueue_speech text interrupt (mailbox a))) = speeches (requests (mailbox a))).
      unfold enqueue_speech. by rewrite Esh. }
    destruct (enqueue_speech_ok text interrupt _ Hok Esh) as (_ & _ & kept & Hq & Hsub & _).
    exists []. split; [by rewrite app_nil_r|].
    change (sublist (speeches (requests (enqueue_speech text interrupt (mailbox a))))
      (speeches (requests (mailbox a)) ++ [(bounded_item text, interrupt)])).
    rewrite Hq, speeches_app. by apply sublist_app; [apply speeches_sublist|].
  - change (async_stop a) with (a <| mailbox := enqueue_stop (mailbox a) |>).
    unfold enqueue_stop. destruct (shutdown (mailbox a)) eqn:E; [by apply Hsame|]. apply Hnone; [done|].
    destruct (discard_speech_ok _ Hok) as [H H2]. destruct (discard_speech_spec _ (ok_counted _ Hok)) as (_ & _ & Hsh).
    etrans; [|exact H2]. apply push_control_ok; [by left|done|by rewrite Hsh|done].
  - unfold async_set_rate. destruct (negb (is_finite bits)); cbn [after]; [by apply Hsame|]. apply Hsame; [done|].
    change (speeches (requests (enqueue_rate bits (mailbox a))) = speeches (requests (mailbox a))).
    unfold enqueue_rate. destruct (shutdown (mailbox a)) eqn:E; [done|].
    apply push_control_ok; [by right; left|done..].
  - apply Hsame; [done|].
    change (speeches (requests (enqueue_server server (mailbox a))) = speeches (requests (mailbox a))).
    unfold enqueue_server. destruct (shutdown (mailbox a)) eqn:E; [done|].
    apply push_control_ok; [by right; right|done..].
  - unfold async_start. destruct (enqueue_start completed (mailbox a)) as [s'|m] eqn:E; cbn [after mbind result_bind]; [|by apply Hsame].
    destruct (enqueue_start_ok _ _ _ Hok E) as (_ & _ & Hq & _). apply Hsame; [done|].
    change (speeches (requests s') = speeches (requests (mailbox a))). by rewrite Hq, speeches_app, app_nil_r.
  - by apply Hnone.
  - destruct (take_cases a) as [-> | [[_ ->] | (r & rest & _ & _ & Eq & H)]]; [by apply Hsame..|].
    cbv zeta in H. destruct H as (_ & Hq & _ & Hs & _). exists [r]. split; [done|].
    rewrite Hq, Eq, <-speeches_app. by apply sublist_inserts_r.
  - destruct (drive_spec a) as (Hm & Hh & _). apply Hsame; [done|by rewrite Hm].
Qed.

Lemma announced_cons e evs : announced (e :: evs) = announced [e] ++ announced evs.
Proof. exact (omap_app _ [e] evs). Qed.

Lemma run_delivers evs a : mail_ok (mailbox a) →
  ∃ new, handed (run drive a evs) = handed a ++ new ∧
    sublist (speeches new ++ speeches (requests (mailbox (run drive a evs))))
      (speeches (requests (mailbox a)) ++ announced evs).
Proof.
  revert a. induction evs as [|e evs IH]; intros a Hok.
  - exists []. rewrite !app_nil_r. done.
  - destruct (step_delivers a e Hok) as (new1 & Hs1 & Hsub1).
    destruct (IH (step drive a e)) as (new2 & Hs2 & Hsub2); [by apply step_ok|].
    exists (new1 ++ new2). split; [by rewrite app_assoc, <-Hs1|].
    rewrite speeches_app, <-app_assoc, announced_cons, (app_assoc (speeches (requests _))).
    etrans; [apply (sublist_app (speeches new1) (speeches new1)); [done|exact Hsub2]|].
    rewrite app_assoc. by apply sublist_app.
Qed.

(** Once a stop is queued, the next announcement is handed out after it. *)
Definition stop_first (a0 a : Async D) : Prop :=
  ∃ new, handed a = handed a0 ++ new ∧
    (speeches new = [] ∧ (Stop ∈ requests (mailbox a) ∨ shutdown (mailbox a) = true) ∨
     ∃ n1 n2, new = n1 ++ Stop :: n2 ∧ speeches n1 = []).

Lemma push_control_keeps same r s x : same x = false → x ∈ requests s → x ∈ requests (push_control same r s).
Proof.
  intros Hx Hin. apply elem_of_cons. right. apply elem_of_Filter. by rewrite Hx.
Qed.

Lemma stop_stays a e : mail_ok (mailbox a) → e ≠ Take → Stop ∈ requests (mailbox a) ∨ shutdown (mailbox a) = true →
  handed (step drive a e) = handed a ∧
  (Stop ∈ requests (mailbox (step drive a e)) ∨ shutdown (mailbox (step drive a e)) = true).
Proof.
  intros Hok He [Hin|Hsh]; cycle 1.
  { destruct e; cbn [step]; try done.
    - split; [done|right]. change (shutdown (enqueue_speech text interrupt (mailbox a)) = true).
      unfold enqueue_speech. by rewrite Hsh.
    - split; [done|right]. change (shutdown (enqueue_stop (mailbox a)) = true). unfold enqueue_stop. by rewrite Hsh.
    - unfold async_set_rate. destruct (negb (is_finite bits)); cbn [after]; [by split; [|right]|].
      split; [done|right]. change (shutdown (enqueue_rate bits (mailbox a)) = true). unfold enqueue_rate. by rewrite Hsh.
    - split; [done|right]. change (shutdown (enqueue_server server (mailbox a)) = true). unfold enqueue_server. by rewrite Hsh.
    - unfold async_start, enqueue_start. rewrite Hsh. cbn [after mbind result_bind]. by split; [|right].
    - by split; [|right].
    - destruct (drive_spec a) as (-> & -> & _). by split; [|right]. }
  destruct e; cbn [step]; try done.
  - split; [done|]. change (Stop ∈ requests (enqueue_speech text interrupt (mailbox a)) ∨ shutdown (enqueue_speech text interrupt (mailbox a)) = true).
    destruct (shutdown (mailbox a)) eqn:Esh; [right; unfold enqueue_speech; by rewrite Esh|left].
    destruct (enqueue_speech_ok text interrupt _ Hok Esh) as (_ & _ & kept & -> & _ & Hf & _).
    apply elem_of_app. left. assert (Stop ∈ List.filter (λ r, negb (is_speech r)) kept) as H; [|by apply elem_of_Filter in H as [H _]].
    rewrite Hf. by apply elem_of_Filter.
  - split; [done|]. change (Stop ∈ requests (enqueue_stop (mailbox a)) ∨ shutdown (enqueue_stop (mailbox a)) = true).
    unfold enqueue_stop. destruct (shutdown (mailbox a)) eqn:Esh; [by right|left]. apply elem_of_cons. by left.
  - unfold async_set_rate. destruct (negb (is_finite bits)); cbn [after]; [by split; [|left]|].
    split; [done|]. change (Stop ∈ requests (enqueue_rate bits (mailbox a)) ∨ shutdown (enqueue_rate bits (mailbox a)) = true).
    unfold enqueue_rate. destruct (shutdown (mailbox a)) eqn:Esh; [by right|left]. by apply push_control_keeps.
  - split; [done|]. change (Stop ∈ requests (enqueue_server server (mailbox a)) ∨ shutdown (enqueue_server server (mailbox a)) = true).
    unfold enqueue_server. destruct (shutdown (mailbox a)) eqn:Esh; [by right|left]. by apply push_control_keeps.
  - unfold async_start. destruct (enqueue_start completed (mailbox a)) as [s'|m] eqn:E; cbn [after mbind result_bind]; [|by split; [|left]].
    destruct (enqueue_start_ok _ _ _ Hok E) as (_ & _ & Hq & _). split; [done|left].
    change (Stop ∈ requests s'). rewrite Hq. apply elem_of_app. by left.
  - split; [done|by right].
  - destruct (drive_spec a) as (-> & -> & _). by split; [|left].
Qed.

Lemma step_stop_first a0 a e : mail_ok (mailbox a) → stop_first a0 a → stop_first a0 (step drive a e).
Proof.
  intros Hok (new & Hs & [[Hnew Hin]|(n1 & n2 & -> & Hn)]).
  - assert (e = Take ∨ e ≠ Take) as [->|He] by (destruct e; first [by left|by right]).
    + cbn [step]. destruct (take_cases a) as [-> | [[Hsh ->] | (r & rest & _ & Hrun & Eq & H)]].
      * exists new. split; [done|by left].
      * exists new. split; [done|left]. split; [done|by right].
      * cbv zeta in H. destruct H as (_ & Hq & _ & Hs' & _). exists (new ++ [r]).
        split; [by rewrite Hs', Hs, app_assoc|]. destruct Hin as [Hin|Hsh]; [|congruence].
        assert (r = Stop ∨ r ≠ Stop) as [->|Hr] by (destruct r; first [by left|by right]); [right; by exists new, []|left].
        rewrite speeches_app, Hnew, Hq. rewrite Eq in Hin. apply elem_of_cons in Hin as [Hx|Hin]; [congruence|].
        split; [|by left]. destruct (ok_shape _ Hok) as [(c & q & Hcq & Hc & Hq') _]. rewrite Eq in Hcq.
        destruct c as [|x c]; cbn [app] in Hcq.
        -- exfalso. subst q. apply Forall_cons in Hq' as [_ Hq']. rewrite Forall_forall in Hq'. by apply Hq' in Hin.
        -- injection Hcq as <- _. apply Forall_cons in Hc as [Hc _]. by destruct r.
    + destruct (stop_stays a e Hok He Hin) as [H1 H2]. exists new. rewrite H1. split; [done|by left].
  - assert (∃ more, handed (step drive a e) = handed a ++ more) as [more Hm].
    { destruct (step_delivers a e Hok) as (m & H & _). by exists m. }
    exists (n1 ++ Stop :: n2 ++ more). rewrite Hm, Hs. split; [by rewrite <-!app_assoc|].
    right. by exists n1, (n2 ++ more).
Qed.

Lemma run_stop_first a0 evs a : mail_ok (mailbox a) → stop_first a0 a → stop_first a0 (run drive a evs).
Proof.
  revert a. induction evs as [|e evs IH]; intros a Hok Ha; [done|]. apply IH; [by apply step_ok|by apply step_stop_first].
Qed.

(** The worker thread ends only after the shutdown. *)
Lemma step_running a e : (running a = false → shutdown (mailbox a) = true) →
  running (step drive a e) = false → shutdown (mailbox (step drive a e)) = true.
Proof.
  intros Ha. destruct e; cbn [step].
  - intros H. change (shutdown (enqueue_speech text interrupt (mailbox a)) = true). unfold enqueue_speech. rewrite (Ha H). exact (Ha H).
  - intros H. change (shutdown (enqueue_stop (mailbox a)) = true). unfold enqueue_stop. rewrite (Ha H). exact (Ha H).
  - unfold async_set_rate. destruct (negb (is_finite bits)); cbn [after]; [done|]. intros H.
    change (shutdown (enqueue_rate bits (mailbox a)) = true). unfold enqueue_rate. rewrite (Ha H). exact (Ha H).
  - intros H. change (shutdown (enqueue_server server (mailbox a)) = true). unfold enqueue_server. rewrite (Ha H). exact (Ha H).
  - unfold async_start, enqueue_start. destruct (shutdown (mailbox a)) eqn:E; cbn [after mbind result_bind]; [done|].
    intros H. assert (running a = false) as Hr by exact H. by apply Ha in Hr.
  - done.
  - destruct (take_cases a) as [-> | [[Hsh ->] | (r & rest & _ & _ & _ & H)]]; [done|by intros _|].
    cbv zeta in H. destruct H as (_ & _ & _ & _ & -> & _). done.
  - destruct (drive_spec a) as (-> & _ & -> & _). done.
Qed.

Lemma reachable_running a : reachable a → running a = false → shutdown (mailbox a) = true.
Proof.
  intros (d & r & evs & ->). assert (running (new_inner d r) = false → shutdown (mailbox (new_inner d r)) = true) as H by done.
  revert H. generalize (new_inner d r). clear. induction evs as [|e evs IH]; intros a Ha; [done|].
  apply IH. by apply step_running.
Qed.

Lemma length_by_kind l : coalesced l → (length l ≤ 3 + length (speeches l) + length (starts l))%nat.
Proof.
  intros (H1 & H2 & H3).
  enough (length l = length (List.filter is_stop l) + length (List.filter is_rate l) + length (List.filter is_server l) +
    length (speeches l) + length (starts l))%nat by lia. clear.
  induction l as [|r l IH]; [done|]. rewrite speeches_cons. unfold starts in *. cbn [List.filter].
  destruct r; cbn [omap list_omap is_stop is_rate is_server length]; lia.
Qed.

(** The worker on its own, for [n] turns of its loop and the one it is in. *)
Definition worker_alone (n : nat) : list Event := Drive :: mjoin (replicate n [Take; Drive]).

Lemma run_turns n a :
  running a = true → shutdown (mailbox a) = false → in_flight a = None → (length (requests (mailbox a)) ≤ n)%nat →
  let a' := run drive a (mjoin (replicate n [Take; Drive])) in
  served a' = served a ++ requests (mailbox a) ∧ requests (mailbox a') = [] ∧
  promised a' = promised a ++ starts (requests (mailbox a)) ∧ in_flight a' = None.
Proof.
  revert a. induction n as [|n IH]; intros a Hrun Hsh Hf Hn; cbn [replicate]; cbv zeta.
  - destruct (requests (mailbox a)) eqn:E; [|cbn [length] in Hn; lia].
    change (run drive a (mjoin [])) with a. by rewrite E, !app_nil_r.
  - change (run drive a (mjoin ([Take; Drive] :: replicate n [Take; Drive]))) with
      (run drive (drive_request drive (take_request a)) (mjoin (replicate n [Take; Drive]))).
    destruct (drive_spec (take_request a)) as (Dm & Dh & Dr & Dp & Df & Ds).
    assert (handed a = served a) as Hh by (unfold handed; by rewrite Hf, app_nil_r).
    destruct (requests (mailbox a)) as [|r rest] eqn:Eq.
    + assert (take_request a = a) as Et.
      { unfold take_request, next_request. rewrite Hrun, Hf, Eq, Hsh. done. }
      rewrite Et in *. destruct (IH (drive_request drive a)) as (H1 & H2 & H3 & H4); [congruence..|rewrite Dm, Eq; cbn; lia|].
      rewrite H1, H2, H3, H4, Ds, Dp, Dm, Eq, Hh. done.
    + destruct (take_cases a) as [E | [[E _] | (r' & rest' & _ & _ & Eq' & H)]]; [|congruence|].
      { exfalso. unfold take_request, next_request in E. rewrite Hrun, Hf, Eq, Hsh in E. cbn [negb orb] in E.
        rewrite bool_decide_eq_false_2 in E by (intros [? ?]; done). apply (f_equal in_flight) in E. rewrite Hf in E. done. }
      cbv zeta in H. destruct H as (_ & Hq & Hs & Hserved & Hr & Ho). rewrite Eq in Eq'. injection Eq' as <- <-.
      destruct (IH (drive_request drive (take_request a))) as (H1 & H2 & H3 & H4);
        [congruence..|rewrite Dm, Hq; cbn [length] in Hn; lia|].
      rewrite H1, H2, H3, H4, Ds, Dp, Dm, Hserved, Ho, Hq, Hh, <-!app_assoc. split_and!; [done..| |done].
      by destruct r.
Qed.

(** A queue that is left alone is served completely, in its order. *)
Lemma run_serves n a : running a = true → shutdown (mailbox a) = false → (length (requests (mailbox a)) ≤ n)%nat →
  let a' := run drive a (worker_alone n) in
  served a' = handed a ++ requests (mailbox a) ∧ requests (mailbox a') = [] ∧
  (fst <$> outcomes a') = promised a ++ starts (requests (mailbox a)).
Proof.
  intros Hrun Hsh Hn. cbv zeta. unfold worker_alone.
  change (run drive a (Drive :: mjoin (replicate n [Take; Drive]))) with
    (run drive (drive_request drive a) (mjoin (replicate n [Take; Drive]))).
  destruct (drive_spec a) as (Dm & Dh & Dr & Dp & Df & Ds).
  destruct (run_turns n (drive_request drive a)) as (H1 & H2 & H3 & H4); [congruence..|by rewrite Dm|].
  rewrite H1, H2, Ds, Dm. split_and!; [done..|]. rewrite <-Dp, <-Dm, <-H3. unfold promised at 1.
  by rewrite H4, app_nil_r.
Qed.

Lemma shutdown_stays a e : shutdown (mailbox a) = true →
  shutdown (mailbox (step drive a e)) = true ∧ handed (step drive a e) = handed a.
Proof.
  intros Hsh. destruct e; cbn [step].
  - split; [|done]. change (shutdown (enqueue_speech text interrupt (mailbox a)) = true). unfold enqueue_speech. by rewrite Hsh.
  - split; [|done]. change (shutdown (enqueue_stop (mailbox a)) = true). unfold enqueue_stop. by rewrite Hsh.
  - unfold async_set_rate. destruct (negb (is_finite bits)); cbn [after]; [done|].
    split; [|done]. change (shutdown (enqueue_rate bits (mailbox a)) = true). unfold enqueue_rate. by rewrite Hsh.
  - split; [|done]. change (shutdown (enqueue_server server (mailbox a)) = true). unfold enqueue_server. by rewrite Hsh.
  - unfold async_start, enqueue_start. by rewrite Hsh.
  - done.
  - destruct (take_cases a) as [-> | [[_ ->] | (r & rest & _ & Hx & _)]]; [done|done|congruence].
  - by destruct (drive_spec a) as (-> & -> & _).
Qed.

Lemma run_shutdown evs a : shutdown (mailbox a) = true → handed (run drive a evs) = handed a.
Proof.
  revert a. induction evs as [|e evs IH]; intros a Ha; [done|]. destruct (shutdown_stays a e Ha) as [H1 H2].
  change (handed (run drive (step drive a e) evs) = handed a). by rewrite IH.
Qed.

(** * Properties *)

(** However the event loop and the worker interleave, and whatever fails in
    the backend, what waits for it stays bounded: 32 announcements of 64 KiB
    at most and 256 KiB together, counted exactly, one pending stop, rate and
    server at most, and the requests to start.  The worker thread lives until
    the shutdown. *)
Theorem mailbox_stays_bounded a : reachable a →
  let m := mailbox a in
  speech_items m = len (speeches (requests m)) ∧ speech_bytes m = total_bytes (speeches (requests m)) ∧
  speech_items m ≤ MAX_PENDING_SPEECH_ITEMS ∧ speech_bytes m ≤ MAX_PENDING_SPEECH_BYTES ∧
  Forall (λ p, len p.1 ≤ MAX_SPEECH_ITEM_BYTES) (speeches (requests m)) ∧
  len (requests m) ≤ 35 + len (starts (requests m)) ∧ (running a = false → shutdown m = true).
Proof.
  intros Ha m. destruct (reachable_ok _ Ha) as [[Hi Hb] (B1 & B2 & B3) [_ Hs] _]. subst m.
  rewrite Hi, Hb. split_and!; try done.
  - pose proof (length_by_kind _ Hs). unfold MAX_PENDING_SPEECH_ITEMS in B1. lia.
  - by apply reachable_running.
Qed.

(** C31. Nothing stale is spoken.  Let the worker already have taken a request
    when a stop is asked for: that one may still reach the backend.  Besides
    it, every announcement that reaches the backend was asked for after the
    stop, in the order asked, none twice, and the stop itself reaches the
    backend before the first of them.  The same holds of an interrupting
    announcement and what preceded it.  Once shut down, the backend is asked
    for nothing more but the request already taken.  (What is [handed] out has
    reached the backend, in that order, up to the one request in flight.) *)
Theorem nothing_stale_is_spoken a text evs : reachable a →
  (∃ new, handed (run drive (step drive a AskStop) evs) = handed a ++ new ∧
    sublist (speeches new ++ speeches (requests (mailbox (run drive (step drive a AskStop) evs)))) (announced evs) ∧
    (speeches new = [] ∨ ∃ n1 n2, new = n1 ++ Stop :: n2 ∧ speeches n1 = [])) ∧
  (∃ new, handed (run drive (step drive a (AskSpeak text true)) evs) = handed a ++ new ∧
    sublist (speeches new ++ speeches (requests (mailbox (run drive (step drive a (AskSpeak text true)) evs))))
      (announced (AskSpeak text true :: evs))) ∧
  served (run drive (step drive a AskShutdown) evs) `prefix_of` served a ++ option_list (in_flight a).
Proof.
  intros Ha. pose proof (reachable_ok _ Ha) as Hok. split_and!; [| |];
    [| |change (served a ++ option_list (in_flight a)) with (handed (step drive a AskShutdown));
        rewrite <-(run_shutdown evs) by done; by apply prefix_app_r].
  - pose proof (step_ok a AskStop Hok) as Hok1. set (a1 := step drive a AskStop) in *.
    assert (handed a1 = handed a) as E1 by done.
    assert (speeches (requests (mailbox a1)) = [] ∧ (Stop ∈ requests (mailbox a1) ∨ shutdown (mailbox a1) = true)) as [E2 E3].
    { change (speeches (requests (enqueue_stop (mailbox a))) = [] ∧
        (Stop ∈ requests (enqueue_stop (mailbox a)) ∨ shutdown (enqueue_stop (mailbox a)) = true)).
      unfold enqueue_stop. destruct (shutdown (mailbox a)) eqn:E; [by rewrite (ok_shutdown _ Hok E); split; [|right]|].
      destruct (discard_speech_ok _ Hok) as [H H2]. destruct (discard_speech_spec _ (ok_counted _ Hok)) as (_ & _ & Hsh).
      split; [|left; apply elem_of_cons; by left]. etrans; [|exact H2].
      apply push_control_ok; [by left|done|by rewrite Hsh|done]. }
    destruct (run_delivers evs a1 Hok1) as (new & Hn & Hsub). exists new. rewrite E1 in Hn. rewrite E2 in Hsub.
    split_and!; [done|exact Hsub|].
    destruct (run_stop_first a evs a1 Hok1) as (new' & Hn' & Hcase).
    { exists []. rewrite app_nil_r. split; [done|by left]. }
    rewrite Hn in Hn'. apply app_inv_head in Hn' as <-. destruct Hcase as [[H _]|H]; [by left|by right].
  - pose proof (step_ok a (AskSpeak text true) Hok) as Hok1. set (a1 := step drive a (AskSpeak text true)) in *.
    destruct (run_delivers evs a1 Hok1) as (new & Hn & Hsub). exists new. split; [done|]. etrans; [exact Hsub|].
    change (announced (AskSpeak text true :: evs)) with ([(bounded_item text, true)] ++ announced evs).
    apply sublist_app; [|done].
    change (sublist (speeches (requests (enqueue_speech text true (mailbox a)))) [(bounded_item text, true)]).
    destruct (shutdown (mailbox a)) eqn:E.
    + unfold enqueue_speech. rewrite E, (ok_shutdown _ Hok E). apply sublist_nil_l.
    + destruct (enqueue_speech_ok text true _ Hok E) as (_ & _ & kept & -> & _ & _ & Hk). by rewrite speeches_app, Hk.
Qed.

(** The newest announcement is never the one that is dropped: when the event
    loop then leaves the worker alone, the backend is given everything that
    was kept, in order, with that announcement last, however many of the
    requests fail, and every request to start gets its outcome.  Older
    announcements are dropped only while the new one does not fit. *)
Theorem newest_announcement_is_spoken a text interrupt n :
  reachable a → shutdown (mailbox a) = false → (length (requests (mailbox a)) < n)%nat →
  let a' := run drive (step drive a (AskSpeak text interrupt)) (worker_alone n) in
  ∃ kept, served a' = handed a ++ kept ++ [Speak (bounded_item text) interrupt] ∧
    requests (mailbox a') = [] ∧ (fst <$> outcomes a') = promised a ++ starts (requests (mailbox a)) ∧
    sublist kept (requests (mailbox a)) ∧
    List.filter (λ r, negb (is_speech r)) kept = List.filter (λ r, negb (is_speech r)) (requests (mailbox a)) ∧
    (interrupt = false → ∃ dropped, speeches (requests (mailbox a)) = dropped ++ speeches kept ∧
      ∀ l p, dropped = l ++ [p] → len (p :: speeches kept) = MAX_PENDING_SPEECH_ITEMS ∨
        MAX_PENDING_SPEECH_BYTES < total_bytes (p :: speeches kept) + len (bounded_item text)).
Proof.
  intros Ha Hrun Hn. pose proof (reachable_ok _ Ha) as Hok.
  destruct (enqueue_speech_ok text interrupt _ Hok Hrun) as (Hok1 & Hrun1 & kept & Hq & Hsub & Hf & Hk).
  set (a1 := step drive a (AskSpeak text interrupt)).
  assert (requests (mailbox a1) = kept ++ [Speak (bounded_item text) interrupt]) as Hq1 by exact Hq.
  assert (running a1 = true) as Hr1.
  { destruct (running a) eqn:E; [exact E|]. pose proof (reachable_running _ Ha E). congruence. }
  destruct (run_serves n a1 Hr1) as (H1 & H2 & H3); [exact Hrun1| |].
  { apply sublist_length in Hsub. rewrite Hq1, length_app. cbn [length]. lia. }
  exists kept. rewrite H1, H2, H3, Hq1. split_and!; [done|done| |done|done|].
  - f_equal. assert (∀ l, starts l = starts (List.filter (λ r, negb (is_speech r)) l)) as Hst.
    { intros l. induction l as [|r l IH]; [done|]. destruct r; cbn [List.filter is_speech negb]; [exact IH|..];
        unfold starts in *; cbn [omap list_omap]; by rewrite ?IH. }
    rewrite (Hst (requests (mailbox a))), <-Hf, <-Hst. unfold starts. by rewrite omap_app, app_nil_r.
  - intros ->. exact Hk.
Qed.

End Threads.

(** * Examples *)

(** A backend that counts what it is given and fails every other request. *)
Definition flaky (r : Request) (n : N) : N * result bytes unit :=
  (n + 1, if N.odd n then Err (bs "broken pipe") else Ok tt).

Definition busy : Async N :=
  run flaky (new_inner 0 RATE_ONE)
    [AskSpeak (bs "one") false; AskStart 7; Take; AskSpeak (bs "two") false; AskRate 1073741824; AskSpeak (bs "three") false].

Lemma busy_reachable : reachable flaky busy.
Proof. by eexists 0, RATE_ONE, _. Qed.

(** The request that was taken before the stop is spoken, what waited is not. *)
Example stop_overtakes :
  served (run flaky (run flaky busy [AskStop; AskSpeak (bs "four") false]) (worker_alone 4)) =
    [Speak (bs "one") false; Stop; SetRate 1073741824; Start 7; Speak (bs "four") false].
Proof. vm_compute. reflexivity. Qed.

Lemma mailbox_stays_bounded_witness :
  let m := mailbox busy in
  speech_items m = len (speeches (requests m)) ∧ speech_bytes m = total_bytes (speeches (requests m)) ∧
  speech_items m ≤ MAX_PENDING_SPEECH_ITEMS ∧ speech_bytes m ≤ MAX_PENDING_SPEECH_BYTES ∧
  Forall (λ p, len p.1 ≤ MAX_SPEECH_ITEM_BYTES) (speeches (requests m)) ∧
  len (requests m) ≤ 35 + len (starts (requests m)) ∧ (running busy = false → shutdown m = true).
Proof. exact (mailbox_stays_bounded flaky busy busy_reachable). Defined.

Lemma nothing_stale_is_spoken_witness :
  let evs := [AskSpeak (bs "four") false; Drive; Take; Drive; Take] in
  ∃ new, handed (run flaky (step flaky busy AskStop) evs) = handed busy ++ new ∧
    sublist (speeches new ++ speeches (requests (mailbox (run flaky (step flaky busy AskStop) evs)))) [(bs "four", false)] ∧
    (speeches new = [] ∨ ∃ n1 n2, new = n1 ++ Stop :: n2 ∧ speeches n1 = []).
Proof.
  exact (proj1 (nothing_stale_is_spoken flaky busy (bs "now") [AskSpeak (bs "four") false; Drive; Take; Drive; Take] busy_reachable)).
Defined.

Lemma newest_announcement_is_spoken_witness :
  ∃ kept, served (run flaky (step flaky busy (AskSpeak (bs "four") true)) (worker_alone 9)) =
    handed busy ++ kept ++ [Speak (bs "four") true].
Proof.
  destruct (newest_announcement_is_spoken flaky busy (bs "four") true 9 busy_reachable) as (kept & H & _);
    [reflexivity|apply Nat.ltb_lt; reflexivity|]. by exists kept.
Defined.
