(* ===== verification/FieldDiff.v ===== *)
(** What changed on a line, as it is read (the second half of
    src/src/screen_reader/auto_read.rs): the classification of line and
    grapheme changes, the comparison of two texts by their fields, and the
    compact state changes of full-screen interfaces.

    Strings are their characters; [is_alphanumeric] is [char::is_alphanumeric].
    A [None] is a panic of the source: an index out of the bounds of the table
    of the comparison. *)

From S2P Require Import Prelude.
Local Open Scope N_scope.

(** * Shapes of a change *)

(** [similar::ChangeTag] *)
Inductive ChangeTag := TagEqual | TagDelete | TagInsert.
#[export] Instance ChangeTag_eq_dec : EqDecision ChangeTag.
Proof. solve_decision. Defined.

Inductive DiffState := NoChanges | OneDeletion | Single | Multi.
#[export] Instance DiffState_eq_dec : EqDecision DiffState.
Proof. solve_decision. Defined.

Definition next_line_diff_state (state : DiffState) (tag : ChangeTag) : DiffState :=
  match state, tag with
  | NoChanges, TagDelete => OneDeletion
  | NoChanges, TagEqual => NoChanges
  | NoChanges, TagInsert => Multi
  | OneDeletion, TagDelete => Multi
  | OneDeletion, TagEqual => OneDeletion
  | OneDeletion, TagInsert => Single
  | Single, TagEqual => Single
  | Single, _ => Multi
  | Multi, _ => Multi
  end.

Definition next_grapheme_diff_state (state : DiffState) (previous : option ChangeTag) (tag : ChangeTag) : DiffState :=
  match state, tag with
  | NoChanges, TagDelete => OneDeletion
  | NoChanges, TagEqual => NoChanges
  | NoChanges, TagInsert => Single
  | OneDeletion, TagDelete => if bool_decide (previous = Some TagDelete) then OneDeletion else Multi
  | OneDeletion, TagEqual => OneDeletion
  | OneDeletion, TagInsert => if bool_decide (previous = Some TagDelete) then Single else Multi
  | Single, TagEqual => Single
  | Single, TagInsert =>
      if bool_decide (previous = Some TagInsert) || bool_decide (previous = Some TagDelete) then Single else Multi
  | Single, TagDelete => Multi
  | Multi, _ => Multi
  end.

Definition line_diff_state (tags : list ChangeTag) : DiffState := fold_left next_line_diff_state tags NoChanges.

(** The grapheme loop, with the tag before. *)
Definition grapheme_diff_step (st : DiffState * option ChangeTag) (tag : ChangeTag) : DiffState * option ChangeTag :=
  (next_grapheme_diff_state st.1 st.2 tag, Some tag).
Definition grapheme_diff_state (tags : list ChangeTag) : DiffState := (fold_left grapheme_diff_step tags (NoChanges, None)).1.

(** * Fields *)

(** [str::split_whitespace] *)
Definition split_whitespace (s : list N) : list (list N) :=
  List.filter (λ f, negb (bool_decide (f = []))) (split_on is_whitespace_char s).

(** [append_inserted_field] *)
Definition append_inserted_field (field out : list N) : list N :=
  if bool_decide (field = []) then out else
  (if bool_decide (out = []) then out else out ++ [SP]) ++ field.

Fixpoint common_prefix (a b : list N) : nat :=
  match a, b with
  | x :: a, y :: b => if x =? y then S (common_prefix a b) else O
  | _, _ => O
  end.

Section Words.

Context (is_alphanumeric : N → bool).

Definition is_word_char (c : N) : bool := is_alphanumeric c || (c =? 95).

(** The two loops of [field_replacement] that widen the change to whole words. *)
Fixpoint word_start_before (s : list N) (start : nat) : nat :=
  match start with
  | O => O
  | S previous => match s !! previous with
                  | Some c => if is_word_char c then word_start_before s previous else start
                  | None => start
                  end
  end.
Fixpoint word_end_after (s : list N) (stop : nat) : nat :=
  match s with
  | [] => stop
  | c :: s => if is_word_char c then word_end_after s (S stop) else stop
  end.

Definition field_replacement (old_field new_field : list N) : list N :=
  let prefix_len := common_prefix old_field new_field in
  let suffix_len := common_prefix (reverse (drop prefix_len old_field)) (reverse (drop prefix_len new_field)) in
  let start := word_start_before new_field prefix_len in
  let stop := (length new_field - suffix_len)%nat in
  let stop := word_end_after (drop stop new_field) stop in
  take (stop - start)%nat (drop start new_field).

(** The accumulators of the walk: the output, the hunk spoken last, whether
    anything was. *)
Record Spoken := { out : list N; last_spoken_hunk : list N; spoke : bool }.

Definition hunk_text (deleted inserted : list (list N)) : list N :=
  if (length deleted =? length inserted)%nat
  then fold_left (λ hunk p, append_inserted_field (field_replacement p.1 p.2) hunk) (zip deleted inserted) []
  else fold_left (λ hunk field, append_inserted_field field hunk) inserted [].

Definition flush_inserted_field_hunk (deleted inserted : list (list N)) (s : Spoken) : Spoken :=
  if bool_decide (inserted = []) then s else
  let hunk := hunk_text deleted inserted in
  if bool_decide (hunk = []) || bool_decide (hunk = last_spoken_hunk s) then s else
  {| out := (if spoke s then out s ++ [SP] else out s) ++ hunk; last_spoken_hunk := hunk; spoke := true |}.

(** * The table and the walk *)

Section Fields.

Context (old_fields new_fields : list (list N)).
Let old_len := length old_fields.
Let new_len := length new_fields.

(** The index of a cell of the table. *)
Definition at_cell (old_idx new_idx : nat) : nat := (old_idx * (new_len + 1) + new_idx)%nat.

Definition same_field (old_idx new_idx : nat) : bool := bool_decide (old_fields !! old_idx = new_fields !! new_idx).

Definition lcs_cell (old_idx new_idx : nat) (lcs : list nat) : option nat :=
  if same_field old_idx new_idx
  then S <$> lcs !! at_cell (old_idx + 1) (new_idx + 1)
  else down ← lcs !! at_cell (old_idx + 1) new_idx;
       across ← lcs !! at_cell old_idx (new_idx + 1);
       Some (Nat.max down across).

Fixpoint fill_row (old_idx : nat) (columns : list nat) (lcs : list nat) : option (list nat) :=
  match columns with
  | [] => Some lcs
  | new_idx :: columns =>
      value ← lcs_cell old_idx new_idx lcs;
      fill_row old_idx columns (<[at_cell old_idx new_idx := value]> lcs)
  end.

Fixpoint fill_rows (rows : list nat) (lcs : list nat) : option (list nat) :=
  match rows with
  | [] => Some lcs
  | old_idx :: rows => lcs ← fill_row old_idx (reverse (seq 0 new_len)) lcs; fill_rows rows lcs
  end.

Definition lcs_table : option (list nat) :=
  fill_rows (reverse (seq 0 old_len)) (replicate ((old_len + 1) * (new_len + 1)) 0%nat).

(** The walk advances an index at every turn. *)
Fixpoint walk (lcs : list nat) (fuel old_idx new_idx : nat) (deleted inserted : list (list N)) (s : Spoken) : option Spoken :=
  if negb ((old_idx <? old_len)%nat || (new_idx <? new_len)%nat)
  then Some (flush_inserted_field_hunk deleted inserted s) else
  match fuel with
  | O => None
  | S fuel =>
      if ((old_idx <? old_len) && (new_idx <? new_len))%nat && same_field old_idx new_idx
      then walk lcs fuel (S old_idx) (S new_idx) [] [] (flush_inserted_field_hunk deleted inserted s)
      else
        inserts ← (if (new_idx <? new_len)%nat
          then if (old_idx =? old_len)%nat then Some true
               else across ← lcs !! at_cell old_idx (new_idx + 1);
                    down ← lcs !! at_cell (old_idx + 1) new_idx;
                    Some (down <=? across)%nat
          else Some false);
        if (inserts : bool)
        then f ← new_fields !! new_idx; walk lcs fuel old_idx (S new_idx) deleted (inserted ++ [f]) s
        else f ← old_fields !! old_idx; walk lcs fuel (S old_idx) new_idx (deleted ++ [f]) inserted s
  end.

End Fields.

(** The text of what was inserted is appended to [o]; whether there is any. *)
Definition collect_inserted_fields (old_text new_text o : list N) : option (list N * bool) :=
  let old_fields := split_whitespace old_text in
  let new_fields := split_whitespace new_text in
  if bool_decide (new_fields = []) then Some (o, false) else
  lcs ← lcs_table old_fields new_fields;
  s ← walk old_fields new_fields lcs (length old_fields + length new_fields) 0 0 [] []
        {| out := o; last_spoken_hunk := []; spoke := false |};
  Some (out s, spoke s).

(** * Compact interface states *)

Definition MAX_COMPACT_INTERFACE_STATE_CHARS : N := 32.

(** [str::split_terminator] on line feeds *)
Definition split_terminator (s : list N) : list (list N) :=
  let parts := split_on (N.eqb LF) s in
  if bool_decide (last parts = Some []) then removelast parts else parts.

Definition compact_step (old_cursor_row new_cursor_row : nat) (o : option (list N)) (r : nat * (list N * list N))
    : option (list N) :=
  o ← o;
  let '(row, (old_row, new_row)) := r in
  if bool_decide (old_row = new_row) || (row =? old_cursor_row)%nat || (row =? new_cursor_row)%nat then Some o else
  '(candidate, found) ← collect_inserted_fields old_row new_row [];
  if negb found then Some o else
  let compact := trim_chars candidate in
  if (len compact =? 0) || (MAX_COMPACT_INTERFACE_STATE_CHARS <? len compact) then Some o else
  if bool_decide (o = []) || (len compact <? len o) then Some compact else Some o.

(** The empty text is no state change. *)
Definition collect_compact_interface_state_change (old_text new_text : list N) (old_cursor_row new_cursor_row : nat)
    : option (list N) :=
  let rows := zip (split_terminator old_text) (split_terminator new_text) in
  fold_left (compact_step old_cursor_row new_cursor_row) (zip (seq 0 (length rows)) rows) (Some []).

End Words.

(** * Shapes of a change, characterised *)

Definition changes (tags : list ChangeTag) : list ChangeTag := List.filter (λ t, negb (bool_decide (t = TagEqual))) tags.

(** A line change is read finely exactly when one line replaced another: one
    deletion, then one insertion, among equal lines. *)
Lemma line_diff_state_spec tags :
  line_diff_state tags =
    match changes tags with
    | [] => NoChanges
    | [TagDelete] => OneDeletion
    | [TagDelete; TagInsert] => Single
    | _ => Multi
    end.
Proof.
  unfold line_diff_state. induction tags as [|t tags IH] using rev_ind; [done|].
  rewrite fold_left_app. cbn [fold_left]. rewrite IH. unfold changes. rewrite List.filter_app.
  fold (changes tags). destruct t; cbn [List.filter bool_decide decide_rel negb app].
  all: destruct (changes tags) as [|[] [|[] [|[] l]]] eqn:E; try done.
  all: cbn. all: try done.
  all: assert (TagEqual ∈ changes tags) as H by (rewrite E; set_solver); unfold changes in H;
    apply elem_of_Filter in H as [_ H]; by rewrite bool_decide_eq_true_2 in H.
Qed.

(** A grapheme change is read as one insertion exactly when the graphemes
    deleted, if any, are directly followed by those inserted, all together. *)
Definition one_replacement (tags : list ChangeTag) : Prop :=
  ∃ a b c d, tags = replicate a TagEqual ++ replicate b TagDelete ++ replicate (S c) TagInsert ++ replicate d TagEqual.

Lemma replicate_snoc {A} n (x : A) : replicate n x ++ [x] = replicate (S n) x.
Proof. induction n as [|n IH]; [done|]. cbn [replicate app]. by rewrite IH. Qed.

Definition shape_of (state : DiffState) (tags : list ChangeTag) : Prop :=
  match state with
  | NoChanges => ∃ a, tags = replicate a TagEqual
  | OneDeletion => ∃ a b d, tags = replicate a TagEqual ++ replicate (S b) TagDelete ++ replicate d TagEqual
  | Single => one_replacement tags
  | Multi => True
  end.

Lemma last_replicate {A} n (x : A) l : last (l ++ replicate (S n) x) = Some x.
Proof. by rewrite <-replicate_snoc, app_assoc, last_snoc. Qed.

Lemma grapheme_fold tags :
  (fold_left grapheme_diff_step tags (NoChanges, None)).2 = last tags ∧
  shape_of (grapheme_diff_state tags) tags.
Proof.
  unfold grapheme_diff_state. induction tags as [|t tags [IH1 IH2]] using rev_ind; [by split; [|exists O]|].
  rewrite fold_left_app. cbn [fold_left]. destruct (fold_left _ tags _) as [state previous]. cbn [fst snd] in *.
  unfold grapheme_diff_step. cbn [fst snd]. rewrite last_snoc. split; [done|]. subst previous.
  destruct state; cbn [shape_of] in IH2.
  - destruct IH2 as [a ->]. destruct t; cbn [next_grapheme_diff_state shape_of].
    + exists (S a). apply replicate_snoc.
    + by exists a, O, O.
    + by exists a, O, O, O.
  - destruct IH2 as (a & b & d & ->). destruct t; cbn [next_grapheme_diff_state].
    + exists a, b, (S d). by rewrite <-!app_assoc, replicate_snoc.
    + destruct d as [|d].
      * rewrite app_nil_r, last_replicate, bool_decide_eq_true_2 by done. exists a, (S b), O.
        by rewrite <-!app_assoc, replicate_snoc, app_nil_r.
      * rewrite app_assoc, last_replicate, bool_decide_eq_false_2 by done. done.
    + destruct d as [|d].
      * rewrite app_nil_r, last_replicate, bool_decide_eq_true_2 by done. exists a, (S b), O, O.
        by rewrite <-!app_assoc.
      * rewrite app_assoc, last_replicate, bool_decide_eq_false_2 by done. done.
  - destruct IH2 as (a & b & c & d & ->). destruct t; cbn [next_grapheme_diff_state]; [|done|].
    + exists a, b, c, (S d). by rewrite <-!app_assoc, replicate_snoc.
    + destruct d as [|d].
      * rewrite app_nil_r, (app_assoc (replicate a _)), last_replicate, bool_decide_eq_true_2 by done. cbn [orb].
        exists a, b, (S c), O. by rewrite <-!app_assoc, replicate_snoc, app_nil_r.
      * rewrite !app_assoc, last_replicate, !bool_decide_eq_false_2 by done. done.
  - by destruct t.
Qed.

Lemma grapheme_runs (f : DiffState * option ChangeTag → Prop) n t st :
  f st → (∀ st, f st → f (grapheme_diff_step st t)) → f (fold_left grapheme_diff_step (replicate n t) st).
Proof. intros H Hf. revert st H. induction n as [|n IH]; intros st H; [done|]. apply IH, Hf, H. Qed.

Lemma grapheme_diff_state_spec tags : grapheme_diff_state tags = Single ↔ one_replacement tags.
Proof.
  split; [intros H; destruct (grapheme_fold tags) as [_ Hs]; by rewrite H in Hs|].
  intros (a & b & c & d & ->). unfold grapheme_diff_state. rewrite !fold_left_app.
  set (s1 := fold_left _ (replicate a _) _).
  assert (s1.1 = NoChanges ∧ s1.2 ≠ Some TagDelete) as H1.
  { unfold s1. apply (grapheme_runs (λ st, st.1 = NoChanges ∧ st.2 ≠ Some TagDelete)); [done|].
    intros [st p] [H _]. cbn in H. by subst st. }
  clearbody s1. set (s2 := fold_left _ (replicate b _) _).
  assert (s2.1 = NoChanges ∨ s2.1 = OneDeletion ∧ s2.2 = Some TagDelete) as H2.
  { unfold s2. destruct H1 as [H1 H1'].
    apply (grapheme_runs (λ st, st.1 = NoChanges ∨ st.1 = OneDeletion ∧ st.2 = Some TagDelete)); [by left|].
    intros [st p] [H|[H Hp]]; cbn in H |- *; [subst st; by right|]. cbn in Hp. subst. by right. }
  clearbody s2. clear s1 H1. cbn [replicate fold_left]. set (s3 := grapheme_diff_step s2 TagInsert).
  assert (s3.1 = Single ∧ s3.2 = Some TagInsert) as H3.
  { unfold s3. destruct s2 as [st p]. cbn in H2 |- *. by destruct H2 as [->|[-> ->]]. }
  clearbody s3. set (s4 := fold_left _ (replicate c _) _).
  assert (s4.1 = Single ∧ s4.2 = Some TagInsert) as [H4 _].
  { unfold s4. apply (grapheme_runs (λ st, st.1 = Single ∧ st.2 = Some TagInsert)); [done|].
    intros [st p] [H Hp]. cbn in H, Hp |- *. by subst. }
  clearbody s4. apply (grapheme_runs (λ st, st.1 = Single)); [done|]. intros [st p] H. cbn in H |- *. by subst.
Qed.

(** * The longest common subsequence *)

Section Lcs.

Context {A : Type} `{EqDecision A}.

Fixpoint lcs_len (l : list A) : list A → nat :=
  match l with
  | [] => λ _, O
  | x :: l' => fix row k :=
      match k with
      | [] => O
      | y :: k' => if bool_decide (x = y) then S (lcs_len l' k') else Nat.max (lcs_len l' k) (row k')
      end
  end.

Lemma lcs_len_cons x l y k :
  lcs_len (x :: l) (y :: k) = if bool_decide (x = y) then S (lcs_len l k) else Nat.max (lcs_len l (y :: k)) (lcs_len (x :: l) k).
Proof. reflexivity. Qed.

Lemma lcs_len_nil_r l : lcs_len l [] = O.
Proof. by destruct l. Qed.

(** No common subsequence is longer. *)
Lemma lcs_len_max l k s : sublist s l → sublist s k → (length s ≤ lcs_len l k)%nat.
Proof.
  revert k s. induction l as [|x l IHl]; intros k s Hl.
  - apply sublist_nil_r in Hl as ->. intros _. cbn. lia.
  - revert s Hl. induction k as [|y k IHk]; intros s Hl Hk; [apply sublist_nil_r in Hk as ->; cbn; lia|].
    rewrite lcs_len_cons. apply sublist_cons_r in Hl as Hl'. apply sublist_cons_r in Hk as Hk'.
    case_bool_decide as E.
    + subst y. destruct Hl' as [Hl'|(s' & -> & Hl')]; destruct Hk' as [Hk'|(s'' & E & Hk')].
      * specialize (IHl k s Hl' Hk'). lia.
      * subst s. cbn [length]. enough (length s'' ≤ lcs_len l k)%nat by lia. apply IHl; [|done].
        etrans; [|exact Hl']. by constructor.
      * cbn [length]. enough (length s' ≤ lcs_len l k)%nat by lia. apply IHl; [done|].
        etrans; [|exact Hk']. by constructor.
      * injection E as <-. cbn [length]. specialize (IHl k s' Hl' Hk'). lia.
    + destruct Hl' as [Hl'|(s' & -> & Hl')].
      * specialize (IHl (y :: k) s Hl' Hk). lia.
      * destruct Hk' as [Hk'|(s'' & [= E' _] & _)]; [|congruence]. specialize (IHk (x :: s') Hl Hk'). lia.
Qed.

(** An edit script from one list to another. *)
Inductive Change := Keep (x : A) | Insert (x : A) | Delete (x : A).

Definition old_side (script : list Change) : list A :=
  omap (λ c, match c with Keep x | Delete x => Some x | Insert _ => None end) script.
Definition new_side (script : list Change) : list A :=
  omap (λ c, match c with Keep x | Insert x => Some x | Delete _ => None end) script.
Definition kept (script : list Change) : list A :=
  omap (λ c, match c with Keep x => Some x | _ => None end) script.

Lemma kept_old script : sublist (kept script) (old_side script).
Proof. unfold kept, old_side. induction script as [|[] script IH]; cbn; by try constructor. Qed.
Lemma kept_new script : sublist (kept script) (new_side script).
Proof. unfold kept, new_side. induction script as [|[] script IH]; cbn; by try constructor. Qed.

(** A script that keeps as much as can be kept. *)
Definition minimal_script (l k : list A) (script : list Change) : Prop :=
  old_side script = l ∧ new_side script = k ∧ length (kept script) = lcs_len l k.

Lemma minimal_script_max l k script s :
  minimal_script l k script → sublist s l → sublist s k → (length s ≤ length (kept script))%nat.
Proof. intros (_ & _ & ->). apply lcs_len_max. Qed.

End Lcs.
Arguments Change : clear implicits.

(** * The table *)

Section Table.

Context (old_fields new_fields : list (list N)).
Let old_len := length old_fields.
Let new_len := length new_fields.
Let w := (new_len + 1)%nat.

Lemma at_cell_inj i j i' j' : (j < w)%nat → (j' < w)%nat →
  at_cell new_fields i j = at_cell new_fields i' j' → i = i' ∧ j = j'.
Proof.
  unfold at_cell. fold new_len. fold w. intros H1 H2 H.
  assert ((i * w + j) / w = (i' * w + j') / w)%nat as Hd by (by rewrite H).
  rewrite !Nat.div_add_l, !Nat.div_small in Hd by lia. nia.
Qed.

(** The value of a cell: the length for what is left of the two lists. *)
Definition cell_value (i j : nat) : nat := lcs_len (drop i old_fields) (drop j new_fields).

(** The cells filled: the rows below [i], and of row [i] those from [j] on. *)
Definition filled (i j : nat) (lcs : list nat) : Prop :=
  length lcs = ((old_len + 1) * w)%nat ∧
  ∀ i' j', (i' ≤ old_len)%nat → (j' ≤ new_len)%nat → ((i < i')%nat ∨ i = i' ∧ (j ≤ j')%nat ∨ j' = new_len) →
    lcs !! at_cell new_fields i' j' = Some (cell_value i' j').

Lemma at_cell_lt i j : (i ≤ old_len)%nat → (j ≤ new_len)%nat → (at_cell new_fields i j < (old_len + 1) * w)%nat.
Proof. unfold at_cell. fold new_len. fold w. intros. nia. Qed.

Lemma cell_value_step i j : (i < old_len)%nat → (j < new_len)%nat →
  cell_value i j = if same_field old_fields new_fields i j then S (cell_value (i + 1) (j + 1))
    else Nat.max (cell_value (i + 1) j) (cell_value i (j + 1)).
Proof.
  intros Hi Hj. unfold cell_value, same_field.
  destruct (lookup_lt_is_Some_2 old_fields i Hi) as [x Hx]. destruct (lookup_lt_is_Some_2 new_fields j Hj) as [y Hy].
  rewrite (drop_S _ _ _ Hx), (drop_S _ _ _ Hy), lcs_len_cons, Hx, Hy, !Nat.add_1_r.
  rewrite (bool_decide_ext (Some x = Some y) (x = y)) by (split; [by intros [=]|by intros ->]). done.
Qed.

Lemma fill_row_spec i j lcs : (i < old_len)%nat → (j ≤ new_len)%nat → filled i j lcs →
  ∃ lcs', fill_row old_fields new_fields i (reverse (seq 0 j)) lcs = Some lcs' ∧ filled i 0 lcs'.
Proof.
  intros Hi. revert lcs. induction j as [|j IH]; intros lcs Hj Hf; [by exists lcs|].
  rewrite seq_S, reverse_snoc. cbn [fill_row Nat.add].
  destruct Hf as [Hlen Hf].
  assert (lcs_cell old_fields new_fields i j lcs = Some (cell_value i j)) as ->.
  { unfold lcs_cell. rewrite cell_value_step by lia. destruct (same_field old_fields new_fields i j).
    - rewrite Hf by lia. done.
    - rewrite !Hf by lia. done. }
  cbn [mbind option_bind]. apply IH; [lia|]. split; [by rewrite length_insert|].
  intros i' j' Hi' Hj' Hcase.
  destruct (decide (at_cell new_fields i j = at_cell new_fields i' j')) as [E|E].
  - rewrite <-E, list_lookup_insert_eq by (rewrite Hlen; apply at_cell_lt; lia).
    apply at_cell_inj in E as [-> ->]; [done|unfold w; lia..].
  - rewrite list_lookup_insert_ne by done. apply Hf; [done|done|].
    destruct Hcase as [?|[[-> Hle]|?]]; [by left| |by right; right].
    right. left. split; [done|]. destruct (decide (j = j')) as [->|]; [done|lia].
Qed.

Lemma fill_rows_spec i lcs : (i ≤ old_len)%nat → filled i 0 lcs →
  ∃ lcs', fill_rows old_fields new_fields (reverse (seq 0 i)) lcs = Some lcs' ∧ filled 0 0 lcs'.
Proof.
  revert lcs. induction i as [|i IH]; intros lcs Hi Hf; [by exists lcs|].
  rewrite seq_S, reverse_snoc. cbn [fill_rows Nat.add].
  destruct (fill_row_spec i (length new_fields) lcs) as (lcs1 & -> & H1); [lia|lia| |].
  { destruct Hf as [Hlen Hf]. split; [done|]. intros i' j' Hi' Hj' Hcase. apply Hf; [done|done|]. lia. }
  cbn [mbind option_bind]. apply IH; [lia|done].
Qed.

(** The table is filled without a panic, with the lengths it stands for. *)
Lemma lcs_table_spec : ∃ lcs, lcs_table old_fields new_fields = Some lcs ∧ filled 0 0 lcs.
Proof.
  unfold lcs_table. apply fill_rows_spec; [done|]. split; [apply length_replicate|].
  intros i' j' Hi' Hj' Hcase. rewrite lookup_replicate_2 by exact (at_cell_lt i' j' Hi' Hj'). f_equal. unfold cell_value.
  destruct (decide (j' = new_len)) as [->|]; [by rewrite (drop_ge new_fields), lcs_len_nil_r by done|].
  rewrite (drop_ge old_fields) by (fold old_len; lia). done.
Qed.

End Table.

(** * What is read of a script *)

(** The runs of changes between what is kept: what was deleted there, and what
    was inserted. *)
Fixpoint hunks (script : list (Change (list N))) (deleted inserted : list (list N)) : list (list (list N) * list (list N)) :=
  match script with
  | [] => [(deleted, inserted)]
  | Keep _ :: script => (deleted, inserted) :: hunks script [] []
  | Insert f :: script => hunks script deleted (inserted ++ [f])
  | Delete f :: script => hunks script (deleted ++ [f]) inserted
  end.

(** A text is not repeated directly after itself. *)
Fixpoint not_repeated (previous : list N) (l : list (list N)) : list (list N) :=
  match l with
  | [] => []
  | x :: l => if bool_decide (x = previous) then not_repeated previous l else x :: not_repeated x l
  end.

Definition nonempty {A} (l : list A) : bool := match l with [] => false | _ => true end.

Section Reading.

Context (is_alphanumeric : N → bool).

Definition hunk_read (h : list (list N) * list (list N)) : list N :=
  if nonempty h.2 then hunk_text is_alphanumeric h.1 h.2 else [].

(** The texts read of a script, in order. *)
Definition texts_read (script : list (Change (list N))) : list (list N) :=
  not_repeated [] (List.filter nonempty (hunk_read <$> hunks script [] [])).

Definition flush_all (hs : list (list (list N) * list (list N))) (s : Spoken) : Spoken :=
  fold_left (λ s h, flush_inserted_field_hunk is_alphanumeric h.1 h.2 s) hs s.

(** The text appended for the hunks, after one that was spoken or not. *)
Definition appended (already : bool) (texts : list (list N)) : list N :=
  mjoin (imap (λ i t, (if already || (0 <? i)%nat then [SP] else []) ++ t) texts).

Lemma not_repeated_nonempty p l : Forall (λ t, nonempty t = true) l → Forall (λ t, nonempty t = true) (not_repeated p l).
Proof.
  intros H. revert p. induction H as [|t l Ht _ IH]; intros p; cbn [not_repeated]; [done|].
  case_bool_decide; [apply IH|by constructor].
Qed.

Lemma appended_cons already t ts :
  appended already (t :: ts) = (if already then [SP] else []) ++ t ++ appended true ts.
Proof.
  unfold appended. cbn [imap]. rewrite join_cons, <-app_assoc. f_equal; [by destruct already|].
  f_equal. f_equal. apply imap_ext. intros i x _. by destruct already.
Qed.

Lemma flush_all_spec hs s : (spoke s = false → last_spoken_hunk s = []) →
  flush_all hs s =
    let texts := not_repeated (last_spoken_hunk s) (List.filter nonempty (hunk_read <$> hs)) in
    {| out := out s ++ appended (spoke s) texts;
       last_spoken_hunk := default (last_spoken_hunk s) (last texts);
       spoke := spoke s || nonempty texts |}.
Proof.
  revert s. induction hs as [|[d i] hs IH]; intros s Hs.
  - cbn. destruct s; cbn. by rewrite app_nil_r, orb_false_r.
  - change (flush_all ((d, i) :: hs) s) with (flush_all hs (flush_inserted_field_hunk is_alphanumeric d i s)).
    assert (hunk_read (d, i) = if bool_decide (i = []) then [] else hunk_text is_alphanumeric d i) as Hh by by destruct i.
    rewrite fmap_cons. cbn [List.filter]. unfold flush_inserted_field_hunk.
    case_bool_decide as Ei; rewrite Hh; cbn [nonempty]; [by apply IH|]. cbv zeta.
    destruct (hunk_text is_alphanumeric d i) as [|c t] eqn:Et; cbn [bool_decide decide_rel nonempty orb].
    { rewrite bool_decide_eq_true_2 by done. by apply IH. }
    rewrite bool_decide_eq_false_2 by done. cbn [orb not_repeated]. case_bool_decide as El; [by apply IH|].
    rewrite IH by done. cbn [out last_spoken_hunk spoke]. rewrite appended_cons. f_equal.
    + rewrite <-!app_assoc. by destruct (spoke s); rewrite <-?app_assoc.
    + set (ts := not_repeated _ _). destruct ts as [|x ts]; [done|].
      change (last ((c :: t) :: x :: ts)) with (last (x :: ts)).
      by assert (is_Some (last (x :: ts))) as [y ->] by (by apply last_is_Some).
    + by rewrite orb_true_r.
Qed.

Context (old_fields new_fields : list (list N)) (lcs : list nat) (Hlcs : filled old_fields new_fields 0 0 lcs).

Lemma lcs_lookup i j : (i ≤ length old_fields)%nat → (j ≤ length new_fields)%nat →
  lcs !! at_cell new_fields i j = Some (cell_value old_fields new_fields i j).
Proof. intros Hi Hj. destruct Hlcs as [_ H]. apply H; [done|done|lia]. Qed.

(** The walk follows a script that keeps as much as can be kept. *)
Lemma walk_spec fuel i j deleted inserted s :
  (i ≤ length old_fields)%nat → (j ≤ length new_fields)%nat →
  (length old_fields - i + (length new_fields - j) ≤ fuel)%nat →
  ∃ script, minimal_script (drop i old_fields) (drop j new_fields) script ∧
    walk is_alphanumeric old_fields new_fields lcs fuel i j deleted inserted s =
      Some (flush_all (hunks script deleted inserted) s).
Proof.
  revert i j deleted inserted s. induction fuel as [|fuel IH]; intros i j deleted inserted s Hi Hj Hfuel.
  - assert (i = length old_fields) as -> by lia. assert (j = length new_fields) as -> by lia.
    exists []. cbn [walk]. rewrite !Nat.ltb_irrefl. split; [|done]. split_and!; rewrite ?drop_ge by done; done.
  - cbn [walk].
    destruct ((i <? length old_fields)%nat || (j <? length new_fields)%nat) eqn:Hmore; cbn [negb]; cycle 1.
    { apply orb_false_iff in Hmore as [H1%Nat.ltb_ge H2%Nat.ltb_ge]. exists []. split; [|done].
      split_and!; rewrite ?drop_ge by done; done. }
    destruct ((i <? length old_fields)%nat && (j <? length new_fields)%nat) eqn:Hboth.
    + apply andb_true_iff in Hboth as [H1%Nat.ltb_lt H2%Nat.ltb_lt].
      destruct (lookup_lt_is_Some_2 old_fields i H1) as [x Hx]. destruct (lookup_lt_is_Some_2 new_fields j H2) as [y Hy].
      pose proof (cell_value_step old_fields new_fields i j H1 H2) as Hstep. unfold cell_value in Hstep. cbn [andb].
      destruct (same_field old_fields new_fields i j) eqn:Hsame.
      * destruct (IH (S i) (S j) [] [] (flush_inserted_field_hunk is_alphanumeric deleted inserted s))
          as (script & (S1 & S2 & S3) & ->); [lia..|].
        exists (Keep x :: script). split; [|done].
        assert (x = y) as -> by (unfold same_field in Hsame; apply bool_decide_eq_true in Hsame; congruence).
        split_and!.
        -- rewrite (drop_S _ _ _ Hx), <-S1. done.
        -- rewrite (drop_S _ _ _ Hy), <-S2. done.
        -- rewrite Hstep, !Nat.add_1_r, <-S3. done.
      * rewrite (proj2 (Nat.ltb_lt _ _) H2), (proj2 (Nat.eqb_neq i (length old_fields))) by lia.
        rewrite !lcs_lookup by lia. cbn [mbind option_bind]. unfold cell_value.
        rewrite !Nat.add_1_r in *.
        destruct (_ <=? _)%nat eqn:Hle.
        -- apply Nat.leb_le in Hle. rewrite Hy. cbn [mbind option_bind].
           destruct (IH i (S j) deleted (inserted ++ [y]) s) as (script & (S1 & S2 & S3) & ->); [lia..|].
           exists (Insert y :: script). split; [|done]. split_and!.
           ++ exact S1.
           ++ rewrite (drop_S _ _ _ Hy), <-S2. done.
           ++ change (length (kept script) = lcs_len (drop i old_fields) (drop j new_fields)). lia.
        -- apply Nat.leb_gt in Hle. rewrite Hx. cbn [mbind option_bind].
           destruct (IH (S i) j (deleted ++ [x]) inserted s) as (script & (S1 & S2 & S3) & ->); [lia..|].
           exists (Delete x :: script). split; [|done]. split_and!.
           ++ rewrite (drop_S _ _ _ Hx), <-S1. done.
           ++ exact S2.
           ++ change (length (kept script) = lcs_len (drop i old_fields) (drop j new_fields)). lia.
    + cbn [andb]. destruct (j <? length new_fields)%nat eqn:H2.
      * assert (i = length old_fields) as -> by (destruct (Nat.ltb_spec i (length old_fields)); [done|lia]).
        rewrite Nat.eqb_refl. cbn [mbind option_bind]. apply Nat.ltb_lt in H2.
        destruct (lookup_lt_is_Some_2 new_fields j H2) as [y Hy]. rewrite Hy. cbn [mbind option_bind].
        destruct (IH (length old_fields) (S j) deleted (inserted ++ [y]) s) as (script & (S1 & S2 & S3) & ->); [lia..|].
        exists (Insert y :: script). split; [|done]. split_and!.
        -- exact S1.
        -- rewrite (drop_S _ _ _ Hy), <-S2. done.
        -- rewrite drop_ge by done. rewrite drop_ge in S3 by done. exact S3.
      * apply Nat.ltb_ge in H2. assert (j = length new_fields) as -> by lia.
        assert (i < length old_fields)%nat as H1 by (destruct (Nat.ltb_spec i (length old_fields)); [done|lia]).
        cbn [mbind option_bind]. destruct (lookup_lt_is_Some_2 old_fields i H1) as [x Hx]. rewrite Hx. cbn [mbind option_bind].
        destruct (IH (S i) (length new_fields) (deleted ++ [x]) inserted s) as (script & (S1 & S2 & S3) & ->); [lia..|].
        exists (Delete x :: script). split; [|done]. split_and!.
        -- rewrite (drop_S _ _ _ Hx), <-S1. done.
        -- exact S2.
        -- rewrite (drop_ge new_fields), lcs_len_nil_r by done. rewrite (drop_ge new_fields), lcs_len_nil_r in S3 by done. exact S3.
Qed.

End Reading.

(** * Replaced fields *)

Lemma common_prefix_spec a b : ∃ p a' b', a = p ++ a' ∧ b = p ++ b' ∧ length p = common_prefix a b ∧
  ∀ x y, head a' = Some x → head b' = Some y → x ≠ y.
Proof.
  revert b. induction a as [|x a IH]; intros b; [by exists [], [], b|].
  destruct b as [|y b]; [by exists [], (x :: a), []|]. cbn [common_prefix]. destruct (N.eqb_spec x y) as [->|Hne].
  - destruct (IH b) as (p & a' & b' & -> & -> & Hp & Hh). exists (y :: p), a', b'. cbn [length]. by rewrite Hp.
  - exists [], (x :: a), (y :: b). split_and!; [done..|]. cbn. congruence.
Qed.

(** [join] with spaces, of what is not empty. *)
Definition words_of (fields : list (list N)) : list N := join SP (List.filter nonempty fields).

Lemma fold_append fields h : 
  fold_left (λ hunk field, append_inserted_field field hunk) fields h =
    match h with
    | [] => words_of fields
    | _ => h ++ mjoin ((λ f, SP :: f) <$> List.filter nonempty fields)
    end.
Proof.
  assert (∀ l, join SP l = match l with [] => [] | f :: l => f ++ mjoin ((λ f, SP :: f) <$> l) end) as Hj.
  { intros l. induction l as [|f [|g l] IH]; [done|cbn; by rewrite app_nil_r|].
    change (join SP (f :: g :: l)) with (f ++ SP :: join SP (g :: l)). by rewrite IH. }
  revert h. induction fields as [|f fields IH]; intros h; [by destruct h; cbn; rewrite ?app_nil_r|].
  cbn [fold_left]. rewrite IH. unfold append_inserted_field, words_of. cbn [List.filter].
  destruct f as [|c f]; cbn [nonempty]; [by rewrite bool_decide_eq_true_2|].
  rewrite bool_decide_eq_false_2 by done. destruct h as [|d h].
  - rewrite bool_decide_eq_true_2 by done. cbn [app]. by rewrite Hj.
  - rewrite bool_decide_eq_false_2 by done. cbn [fmap list_fmap]. rewrite join_cons.
    cbn [app]. by rewrite <-!app_assoc.
Qed.

Section Replacement.

Context (is_alphanumeric : N → bool).
Let word := is_word_char is_alphanumeric.

Lemma word_start_before_spec s k : (k ≤ length s)%nat →
  ∃ before u, take k s = before ++ u ∧ length before = word_start_before is_alphanumeric s k ∧
    Forall (λ c, word c = true) u ∧ ∀ c, last before = Some c → word c = false.
Proof.
  induction k as [|k IH]; intros Hk; [by exists [], []|]. cbn [word_start_before].
  destruct (lookup_lt_is_Some_2 s k Hk) as [c Hc]. rewrite Hc, (take_S_r _ _ _ Hc).
  destruct (is_word_char is_alphanumeric c) eqn:Ew.
  - destruct IH as (before & u & -> & Hb & Hu & Hl); [lia|]. exists before, (u ++ [c]).
    split_and!; [by rewrite app_assoc|done| |done]. apply Forall_app. split; [done|by constructor].
  - exists (take k s ++ [c]), []. split_and!; [by rewrite app_nil_r| |done|].
    + rewrite length_app, length_take. cbn [length]. lia.
    + intros d. rewrite last_snoc. intros [= <-]. exact Ew.
Qed.

Lemma word_end_after_spec s k :
  ∃ v after, s = v ++ after ∧ word_end_after is_alphanumeric s k = (k + length v)%nat ∧
    Forall (λ c, word c = true) v ∧ ∀ c, head after = Some c → word c = false.
Proof.
  revert k. induction s as [|c s IH]; intros k; [exists [], []; cbn; by rewrite Nat.add_0_r|]. cbn [word_end_after].
  destruct (is_word_char is_alphanumeric c) eqn:Ew.
  - destruct (IH (S k)) as (v & after & -> & -> & Hv & Ha). exists (c :: v), after.
    split_and!; [done|cbn [length]; lia|by constructor|done].
  - exists [], (c :: s). split_and!; [done|cbn; lia|done|]. intros d [= <-]. exact Ew.
Qed.

(** The part [t] of the new field that stands for its change: the two fields
    share what is before and after [was] and [now], as much of it as they can,
    the front first, and [t] widens [now] to the words that it touches. *)
Definition changed_words (old new t : list N) : Prop := ∃ before u was now v after,
  old = before ++ u ++ was ++ v ++ after ∧ new = before ++ u ++ now ++ v ++ after ∧ t = u ++ now ++ v ∧
  (∀ x y, head (was ++ v ++ after) = Some x → head (now ++ v ++ after) = Some y → x ≠ y) ∧
  (∀ x y, last was = Some x → last now = Some y → x ≠ y) ∧
  Forall (λ c, word c = true) u ∧ Forall (λ c, word c = true) v ∧
  (∀ c, last before = Some c → word c = false) ∧ (∀ c, head after = Some c → word c = false).

Lemma shared_front_unique {A} (p1 p2 a1 a2 b1 b2 : list A) :
  p1 ++ a1 = p2 ++ a2 → p1 ++ b1 = p2 ++ b2 →
  (∀ x y, head a1 = Some x → head b1 = Some y → x ≠ y) → (∀ x y, head a2 = Some x → head b2 = Some y → x ≠ y) → p1 = p2.
Proof.
  revert p2. induction p1 as [|x p1 IH]; intros [|y p2] Ha Hb H1 H2; [done|..]; cbn in Ha, Hb.
  - subst a1 b1. by destruct (H1 y y).
  - subst a2 b2. by destruct (H2 x x).
  - injection Ha as -> Ha. injection Hb as Hb. f_equal. by apply IH.
Qed.

Lemma word_front_unique (u1 u2 a1 a2 : list N) :
  u1 ++ a1 = u2 ++ a2 → Forall (λ c, word c = true) u1 → Forall (λ c, word c = true) u2 →
  (∀ c, head a1 = Some c → word c = false) → (∀ c, head a2 = Some c → word c = false) → u1 = u2.
Proof.
  revert u2. induction u1 as [|x u1 IH]; intros [|y u2] H F1 F2 H1 H2; [done|..]; cbn in H.
  - subst a1. apply Forall_cons in F2 as [Hy _]. rewrite (H1 y) in Hy; done.
  - subst a2. apply Forall_cons in F1 as [Hx _]. rewrite (H2 x) in Hx; done.
  - injection H as -> H. apply Forall_cons in F1 as [_ F1]. apply Forall_cons in F2 as [_ F2]. f_equal. by apply IH.
Qed.

Lemma head_reverse {A} (l : list A) : head (reverse l) = last l.
Proof. by rewrite <-last_reverse, reverse_involutive. Qed.

(** Two fields determine the part. *)
Lemma changed_words_unique old new t1 t2 : changed_words old new t1 → changed_words old new t2 → t1 = t2.
Proof.
  intros (b1 & u1 & w1 & n1 & v1 & a1 & O1 & N1 & -> & H1 & L1 & U1 & V1 & B1 & A1)
    (b2 & u2 & w2 & n2 & v2 & a2 & O2 & N2 & -> & H2 & L2 & U2 & V2 & B2 & A2).
  subst old new.
  assert (b1 ++ u1 = b2 ++ u2) as Hp by (eapply shared_front_unique; rewrite <-?app_assoc; [exact O2|exact N2|done..]).
  rewrite !(app_assoc _ u1), !(app_assoc _ u2), Hp in O2, N2. apply app_inv_head in O2, N2.
  assert (reverse (v1 ++ a1) = reverse (v2 ++ a2)) as Hs.
  { eapply (shared_front_unique _ _ (reverse w1) (reverse w2) (reverse n1) (reverse n2)); rewrite <-?reverse_app; [congruence..| |];
      intros x y; rewrite !head_reverse; auto. }
  apply (inj reverse) in Hs. rewrite Hs in N2. apply app_inv_tail in N2 as ->.
  assert (reverse u1 = reverse u2) as Hu%(inj reverse).
  { eapply (word_front_unique _ _ (reverse b1) (reverse b2)); rewrite <-?reverse_app; [congruence|by apply Forall_reverse..| |];
      intros c; rewrite head_reverse; auto. }
  rewrite Hu. do 2 f_equal. by eapply word_front_unique.
Qed.

Lemma field_replacement_spec old new : changed_words old new (field_replacement is_alphanumeric old new).
Proof.
  unfold field_replacement. destruct (common_prefix_spec old new) as (p & o & n & -> & -> & Hp & Hhead).
  rewrite <-Hp, !drop_app_length.
  destruct (common_prefix_spec (reverse o) (reverse n)) as (q & o' & n' & Ho & Hn & Hq & Hlast). cbv zeta.
  apply (f_equal reverse) in Ho, Hn. rewrite reverse_involutive, reverse_app in Ho, Hn. rewrite <-Hq. subst o n.
  set (sfx := reverse q) in *. set (was := reverse o') in *. set (now := reverse n') in *.
  assert (length q = length sfx) as -> by (symmetry; apply length_reverse).
  destruct (word_start_before_spec (p ++ now ++ sfx) (length p)) as (before & u & Hpu & Hb & Hu & Hbl);
    [rewrite length_app; lia|]. rewrite take_app_length in Hpu. rewrite <-Hb. subst p.
  assert (length ((before ++ u) ++ now ++ sfx) - length sfx = length ((before ++ u) ++ now))%nat as ->
    by (rewrite !length_app; lia).
  rewrite (app_assoc (before ++ u) now sfx), drop_app_length.
  destruct (word_end_after_spec sfx (length ((before ++ u) ++ now))) as (v & after & Hs & -> & Hv & Ha). rewrite Hs.
  exists before, u, was, now, v, after.
  assert (∀ x y, last was = Some x → last now = Some y → x ≠ y) as Hl.
  { intros x y Hx Hy. apply (Hlast x y); rewrite <-last_reverse; by subst was now. }
  rewrite Hs in Hhead.
  split_and!; try done; rewrite <-?app_assoc; try done.
  rewrite drop_app_length, (app_assoc now), (app_assoc u).
  apply take_app_length'. rewrite !length_app. lia.
Qed.

Lemma hunk_text_spec deleted inserted :
  hunk_text is_alphanumeric deleted inserted =
    words_of (if (length deleted =? length inserted)%nat then zip_with (field_replacement is_alphanumeric) deleted inserted
              else inserted).
Proof.
  unfold hunk_text. destruct (length deleted =? length inserted)%nat; [|by rewrite fold_append].
  etrans; [|exact (fold_append (zip_with (field_replacement is_alphanumeric) deleted inserted) [])].
  generalize (@nil N). revert inserted. induction deleted as [|d deleted IH]; intros [|i inserted] h; cbn; [done..|].
  apply IH.
Qed.

(** * Properties *)

(** What is read of a run of changes: if as many fields were inserted as
    deleted, the words that changed from each to the next, and otherwise the
    inserted fields. *)
Definition hunk_reads (h : list (list N) * list (list N)) (t : list N) : Prop :=
  if (length h.1 =? length h.2)%nat then ∃ parts, Forall3 changed_words h.1 h.2 parts ∧ t = words_of parts
  else t = words_of h.2.

Lemma hunk_read_spec h : hunk_reads h (hunk_read is_alphanumeric h).
Proof.
  destruct h as [d i]. unfold hunk_reads, hunk_read. cbn [fst snd].
  destruct i as [|f i]; cbn [nonempty]; [|set (fi := f :: i); clearbody fi; clear f i; rewrite hunk_text_spec].
  - destruct d; cbn [length Nat.eqb]; [|done]. exists []. split; [constructor|done].
  - destruct (Nat.eqb_spec (length d) (length fi)) as [Hl|]; [|done]. eexists. split; [|done].
    revert fi Hl. induction d as [|x d IH]; intros [|y fi] Hl; [constructor|done..|].
    cbn. constructor; [|apply IH; by injection Hl].
    apply field_replacement_spec.
Qed.

Lemma hunk_reads_unique h t1 t2 : hunk_reads h t1 → hunk_reads h t2 → t1 = t2.
Proof.
  unfold hunk_reads. destruct (length h.1 =? length h.2)%nat; [|congruence].
  intros (p1 & H1 & ->) (p2 & H2 & ->). f_equal. revert p2 H2.
  induction H1 as [|x y z d i ps Hx _ IH]; intros p2 H2; inversion H2 as [|? ? w ? ? qs Hw Hqs]; subst; [done|].
  f_equal; [by eapply changed_words_unique|by apply IH].
Qed.

Lemma collect_spec old new o :
  let old_fields := split_whitespace old in
  let new_fields := split_whitespace new in
  ∃ script, minimal_script old_fields new_fields script ∧
    collect_inserted_fields is_alphanumeric old new o =
      Some (o ++ appended false (texts_read is_alphanumeric script), nonempty (texts_read is_alphanumeric script)).
Proof.
  cbv zeta. unfold collect_inserted_fields. case_bool_decide as Hn.
  - exists (Delete <$> split_whitespace old). rewrite Hn. split.
    + split_and!; [|..].
      * unfold old_side. induction (split_whitespace old) as [|f l IH]; [done|]. cbn. by rewrite IH.
      * unfold new_side. induction (split_whitespace old) as [|f l IH]; [done|]. exact IH.
      * rewrite lcs_len_nil_r. unfold kept. induction (split_whitespace old) as [|f l IH]; [done|]. exact IH.
    + assert (∀ d, hunks (Delete <$> split_whitespace old) d [] = [(d ++ split_whitespace old, [])]) as Hh.
      { induction (split_whitespace old) as [|f l IH]; intros d; [by rewrite app_nil_r|]. cbn. by rewrite IH, <-app_assoc. }
      unfold texts_read. rewrite Hh. cbn. by rewrite app_nil_r.
  - destruct (lcs_table_spec (split_whitespace old) (split_whitespace new)) as (lcs & -> & Hlcs). cbn [mbind option_bind].
    destruct (walk_spec is_alphanumeric _ _ lcs Hlcs (length (split_whitespace old) + length (split_whitespace new)) 0 0 [] []
      {| out := o; last_spoken_hunk := []; spoke := false |}) as (script & Hmin & ->); [lia..|].
    exists script. split; [exact Hmin|]. cbn [mbind option_bind]. by rewrite flush_all_spec.
Qed.

(** Nothing inserted, nothing read. *)
Lemma hunks_without_insertions (script : list (Change (list N))) d :
  length (kept script) = length (new_side script) → Forall (λ h, h.2 = []) (hunks script d []).
Proof.
  revert d. induction script as [|c script IH]; intros d Hk; [by constructor|].
  destruct c as [f|f|f]; unfold kept, new_side in Hk; cbn [omap list_omap length hunks] in *.
  - constructor; [done|]. apply IH. injection Hk as Hk. exact Hk.
  - exfalso. pose proof (sublist_length _ _ (kept_new script)). unfold kept, new_side in *. lia.
  - by apply IH.
Qed.

(** C40. The comparison of two texts never indexes out of its table, and reads what
    the new one adds by keeping as many fields as can be kept: no common
    subsequence of the fields is longer.  Where, between the fields that are
    kept, there are as many new fields as old ones, it reads of each new field
    the words in which it differs from the old one in its place; elsewhere it
    reads the new fields whole.  What was read just before is not read again,
    and the rest is appended with single spaces.  Of a text that only lost
    fields nothing is read. *)
Theorem inserted_fields_are_read old new o :
  let old_fields := split_whitespace old in
  let new_fields := split_whitespace new in
  (∃ script texts, old_side script = old_fields ∧ new_side script = new_fields ∧
    (∀ s, sublist s old_fields → sublist s new_fields → (length s ≤ length (kept script))%nat) ∧
    Forall2 hunk_reads (hunks script [] []) texts ∧
    let read := not_repeated [] (List.filter nonempty texts) in
    collect_inserted_fields is_alphanumeric old new o = Some (o ++ appended false read, nonempty read)) ∧
  (sublist new_fields old_fields → collect_inserted_fields is_alphanumeric old new o = Some (o, false)).
Proof.
  destruct (collect_spec old new o) as (script & Hmin & Hc). cbv zeta in *. split.
  - exists script, (hunk_read is_alphanumeric <$> hunks script [] []). pose proof Hmin as (H1 & H2 & H3).
    split_and!; [done|done| | |done]; [intros s; by apply minimal_script_max|].
    clear. induction (hunks script [] []) as [|h hs IH]; [constructor|]. cbn. constructor; [apply hunk_read_spec|done].
  - intros Hsub. pose proof Hmin as (H1 & H2 & H3). rewrite Hc.
    pose proof (lcs_len_max _ _ _ Hsub (reflexivity (split_whitespace new))) as Hle. rewrite <-H3, <-H2 in Hle.
    pose proof (sublist_length _ _ (kept_new script)) as Hge.
    assert (texts_read is_alphanumeric script = []) as ->; [|by rewrite app_nil_r].
    unfold texts_read. assert (Forall (λ h, h.2 = []) (hunks script [] [])) as Hh by (apply hunks_without_insertions; lia).
    induction Hh as [|[d i] hs Hi _ IH]; [done|]. cbn in Hi. by subst i.
Qed.

(** What is read of a field that replaced another is one stretch of the new
    field, and the only one such that the two fields differ only inside it, it
    starts and ends at word boundaries, and around the difference it holds only
    the rest of the words the difference touches. *)
Theorem replaced_fields_are_read_by_words old new t :
  changed_words old new t ↔ field_replacement is_alphanumeric old new = t.
Proof.
  split; [|intros <-; apply field_replacement_spec].
  intros H. eapply changed_words_unique; [apply field_replacement_spec|exact H].
Qed.

(** The compact text of a row that changed away from the cursor. *)
Definition compact_candidate (old_cursor_row new_cursor_row : nat) (r : nat * (list N * list N)) : option (list N) :=
  let '(row, (old_row, new_row)) := r in
  if bool_decide (old_row = new_row) || (row =? old_cursor_row)%nat || (row =? new_cursor_row)%nat then None else
  match collect_inserted_fields is_alphanumeric old_row new_row [] with
  | Some (candidate, true) =>
      if (len (trim_chars candidate) =? 0) || (MAX_COMPACT_INTERFACE_STATE_CHARS <? len (trim_chars candidate)) then None
      else Some (trim_chars candidate)
  | _ => None
  end.

(** The first of the shortest. *)
Definition first_shortest (l : list (list N)) (t : list N) : Prop :=
  l = [] ∧ t = [] ∨
  ∃ l1 l2, l = l1 ++ t :: l2 ∧ Forall (λ x, len t < len x) l1 ∧ Forall (λ x, len t ≤ len x) l2.

Lemma compact_step_spec a b seen t r : Forall (λ x, x ≠ []) seen → first_shortest seen t →
  ∃ t', compact_step is_alphanumeric a b (Some t) r = Some t' ∧
    let seen' := seen ++ option_list (compact_candidate a b r) in
    Forall (λ x, x ≠ []) seen' ∧ first_shortest seen' t'.
Proof.
  intros Hne Hs. destruct r as [row [o n]]. unfold compact_step, compact_candidate. cbn [mbind option_bind].
  destruct (bool_decide (o = n) || (row =? a)%nat || (row =? b)%nat); [exists t; cbn; by rewrite app_nil_r|].
  destruct (collect_spec o n []) as (script & _ & ->). cbn [mbind option_bind].
  set (c := trim_chars _). destruct (nonempty _); cbn [negb]; [|exists t; cbn; by rewrite app_nil_r].
  destruct ((len c =? 0) || _) eqn:Hc; [exists t; cbn; by rewrite app_nil_r|].
  apply orb_false_iff in Hc as [Hc%N.eqb_neq _]. assert (c ≠ []) as Hc0 by (intros E; rewrite E in Hc; done). clearbody c.
  cbn [option_list]. 
  assert (Forall (λ x, x ≠ []) (seen ++ [c])) as Hne' by (apply Forall_app; split; [done|by constructor]).
  destruct Hs as [[-> ->]|(l1 & l2 & -> & H1 & H2)].
  - rewrite bool_decide_eq_true_2 by done. cbn [orb]. exists c. split_and!; [done|done|]. right. by exists [], [].
  - assert (t ≠ []) as Ht by (apply Forall_app in Hne as [_ [Ht _]%Forall_cons]; done).
    rewrite bool_decide_eq_false_2 by done. cbn [orb]. destruct (N.ltb_spec (len c) (len t)) as [Hlt|Hge].
    + exists c. split_and!; [done|done|]. right. exists (l1 ++ t :: l2), []. split_and!; [done| |done].
      apply Forall_app. split; [eapply Forall_impl; [exact H1|]; intros x; cbn; lia|].
      constructor; [done|]. eapply Forall_impl; [exact H2|]; intros x; cbn; lia.
    + exists t. split_and!; [done|done|]. right. exists l1, (l2 ++ [c]). split_and!; [by rewrite <-app_assoc|done|].
      apply Forall_app. split; [done|by constructor].
Qed.

(** Of a screen whose frame changed away from the cursor, at most one short
    text is read: the shortest of what the rows gained, the first such. *)
Theorem compact_state_is_the_shortest old_text new_text a b :
  let rows := zip (split_terminator old_text) (split_terminator new_text) in
  ∃ t, collect_compact_interface_state_change is_alphanumeric old_text new_text a b = Some t ∧
    first_shortest (omap (compact_candidate a b) (zip (seq 0 (length rows)) rows)) t ∧
    len t ≤ MAX_COMPACT_INTERFACE_STATE_CHARS.
Proof.
  cbv zeta. unfold collect_compact_interface_state_change. set (rows := zip (seq _ _) _). clearbody rows.
  enough (∃ t, fold_left (compact_step is_alphanumeric a b) rows (Some []) = Some t ∧
    Forall (λ x, x ≠ []) (omap (compact_candidate a b) rows) ∧ first_shortest (omap (compact_candidate a b) rows) t) as (t & H1 & _ & H2).
  { exists t. split_and!; [done|done|]. destruct H2 as [[_ ->]|(l1 & l2 & E & _)]; [vm_compute; discriminate|].
    assert (t ∈ omap (compact_candidate a b) rows) as Hin by (rewrite E; set_solver).
    apply list_elem_of_omap in Hin as ([row [o n]] & _ & Hc). unfold compact_candidate in Hc.
    repeat case_match; simplify_eq. by match goal with H : _ || _ = false |- _ => apply orb_false_iff in H as [_ H%N.ltb_ge] end. }
  induction rows as [|r rows IH] using rev_ind.
  - exists []. split_and!; [done|constructor|by left].
  - destruct IH as (t & Hf & Hne & Hs). rewrite fold_left_app, Hf. cbn [fold_left].
    destruct (compact_step_spec a b _ t r Hne Hs) as (t' & -> & Hne' & Hs'). exists t'. rewrite omap_app.
    assert (omap (compact_candidate a b) [r] = option_list (compact_candidate a b r)) as -> by (cbn; by destruct (compact_candidate a b r)).
    done.
Qed.

End Replacement.

Example status_line_reads :
  let alnum c := is_lower c || is_upper c || is_digit c in
  collect_inserted_fields alnum (bs "copied 10% of x.rs") (bs "copied 15% of x.rs in 3s") [] = Some (bs "15 in 3s", true).
Proof. vm_compute. reflexivity. Qed.
