(* ===== verification/InputEcho.v ===== *)
(** What the screen reader expects back from its own input: the queue of typed
    characters whose echo is not read (src/src/screen_reader.rs), and the
    deletions that are read once the screen confirms them
    (src/src/screen_reader/tracking.rs).

    A view is what these use of src/src/view.rs: its identity, the revision
    counters its receipts carry, and the current and previous snapshots. *)

From S2P Require Import Prelude Terminal Screen.
Local Open Scope N_scope.

Definition MAX_PENDING_KEY_ECHO_CHARS : N := 256.
Definition MAX_PENDING_DELETE_INTENTS : N := 64.
Definition MAX_PENDING_DELETE_PRESENTATIONS : N := 64.

(** * The echo of typed keys *)

Record PendingKeyEcho := { character : N; echo_screen : ScreenIdentity }.

Record Echo := {
  suppress_key_echo : bool;
  pending_key_echo : list PendingKeyEcho;
  key_echo_stream_active : bool
}.

Definition echo_new (suppress : bool) : Echo :=
  {| suppress_key_echo := suppress; pending_key_echo := []; key_echo_stream_active := false |}.

Definition push_echo (s : ScreenIdentity) (q : list PendingKeyEcho) (c : N) : list PendingKeyEcho :=
  (if len q =? MAX_PENDING_KEY_ECHO_CHARS then tail q else q) ++ [{| character := c; echo_screen := s |}].

Definition record_forwarded_key (text : option (list N)) (s : ScreenIdentity) (e : Echo) : Echo :=
  let e := match text with
           | Some (_ :: _) => e
           | _ => e <| key_echo_stream_active := false |>
           end in
  match text with
  | Some text =>
      if suppress_key_echo e then e <| pending_key_echo := fold_left (push_echo s) text (pending_key_echo e) |> else e
  | None => e
  end.

Definition has_pending_key_echo (e : Echo) : bool :=
  suppress_key_echo e && negb (bool_decide (pending_key_echo e = [])).

Definition set_suppress_key_echo (value : bool) (e : Echo) : Echo :=
  let e := e <| suppress_key_echo := value |> in
  if value then e else (e <| pending_key_echo := [] |>) <| key_echo_stream_active := false |>.

Definition retain_pending_key_echo_for_screen (s : ScreenIdentity) (e : Echo) : Echo :=
  e <| pending_key_echo := List.filter (λ p, bool_decide (echo_screen p = s)) (pending_key_echo e) |>.

(** [str::trim_end_matches] of carriage returns and line feeds. *)
Definition is_delimiter (c : N) : bool := (c =? CR) || (c =? LF).
Fixpoint skip_while (f : N → bool) (l : list N) : list N :=
  match l with
  | c :: l' => if f c then skip_while f l' else l
  | [] => []
  end.
Definition trim_delimiters (text : list N) : list N := reverse (skip_while is_delimiter (reverse text)).

(** [text.chars().enumerate().all(..)] from [start] in the queue. *)
Fixpoint matches_at (text : list N) (q : list PendingKeyEcho) (start : nat) : bool :=
  match text with
  | [] => true
  | c :: text => match q !! start with
                 | Some p => (character p =? c) && matches_at text q (S start)
                 | None => false
                 end
  end.

Fixpoint first_match (text : list N) (q : list PendingKeyEcho) (starts : list nat) : option nat :=
  match starts with
  | [] => None
  | start :: starts => if matches_at text q start then Some start else first_match text q starts
  end.

(** The reversed text begins with the reversed queue, as far as both reach. *)
Fixpoint ends_with_pending (text : list N) (q : list PendingKeyEcho) : bool :=
  match text, q with
  | c :: text, p :: q => (c =? character p) && ends_with_pending text q
  | _, _ => true
  end.

Definition should_suppress_key_echo (text : list N) (e : Echo) : bool * Echo :=
  let text := trim_delimiters text in
  if negb (suppress_key_echo e) || bool_decide (text = []) then (false, e) else
  let q := pending_key_echo e in
  if (length q <? length text)%nat then
    if negb (bool_decide (q = [])) && ends_with_pending (reverse text) (reverse q)
    then (true, (e <| pending_key_echo := [] |>) <| key_echo_stream_active := true |>)
    else (false, e)
  else
    match first_match text q (seq 0 (S (length q - length text))) with
    | Some start =>
        (true, (e <| pending_key_echo := drop (start + length text) q |>) <| key_echo_stream_active := true |>)
    | None => (false, e)
    end.

Definition is_layout (c : N) : bool := (c =? SP) || (c =? TAB).

Definition should_suppress_cursor_row_key_echo (text : list N) (e : Echo) : bool * Echo :=
  let '(suppressed, e) := should_suppress_key_echo text e in
  if suppressed then (true, e) else
  if negb (key_echo_stream_active e) then (false, e) else
  let without_record_boundary := trim_delimiters text in
  let without_layout_prefix := skip_while is_layout without_record_boundary in
  if bool_decide (without_layout_prefix = without_record_boundary) || bool_decide (without_layout_prefix = [])
  then (false, e) else should_suppress_key_echo without_layout_prefix e.

(** * Deletions *)

Record TrackedView := {
  view_id : N;
  presentation_tracking : bool;
  live_revision : N;
  presented_revision : N;
  view_screen : TerminalSnapshot;
  prev_screen : TerminalSnapshot;
  accessibility_screen_transition_pending : bool
}.

Definition input_intent_revision_boundary (v : TrackedView) : option N :=
  if presentation_tracking v then Some (live_revision v) else None.
Definition accessibility_revision (v : TrackedView) : option N :=
  if presentation_tracking v then Some (presented_revision v) else None.

Inductive PendingDeleteKind :=
| PendingBackspace (cursor : N * N) (text : list N) (row_before : Row)
| PendingDelete_ (application_cursor : N * N) (target_col : N) (text : list N) (row_before : Row).

Record PendingDelete := {
  intent_view : N;
  revision_boundary : option N;
  last_evaluated_revision : option N;
  evaluations : N;
  intent_sequence : N;
  intent_kind : PendingDeleteKind
}.

Record Deletes := { pending_deletes : list PendingDelete; input_sequence : N }.

Definition record_last_key (d : Deletes) : Deletes := d <| input_sequence := wrapping_add u64_max (input_sequence d) 1 |>.

Definition push_pending_delete (p : PendingDelete) (d : Deletes) : Deletes :=
  d <| pending_deletes :=
    (if MAX_PENDING_DELETE_INTENTS <=? len (pending_deletes d) then tail (pending_deletes d) else pending_deletes d) ++ [p] |>.

(** The newest intent, when it came with the key before this one in this view. *)
Definition directly_before (v : TrackedView) (d : Deletes) : option PendingDelete :=
  match last (pending_deletes d) with
  | Some p => if (intent_view p =? view_id v) && (wrapping_add u64_max (intent_sequence p) 1 =? input_sequence d)
              then Some p else None
  | None => None
  end.

Definition intent (v : TrackedView) (d : Deletes) (kind : PendingDeleteKind) : PendingDelete :=
  {| intent_view := view_id v; revision_boundary := input_intent_revision_boundary v;
     last_evaluated_revision := None; evaluations := 0; intent_sequence := input_sequence d; intent_kind := kind |}.

Definition cell_text (s : TerminalSnapshot) (row col : N) : list N :=
  match cell s row col with Some c => contents c | None => [] end.

Definition backspace_column (v : TrackedView) (d : Deletes) : N :=
  let '(row, col) := cursor_position (view_screen v) in
  let virtual_offset :=
    match directly_before v d with
    | Some p => match intent_kind p with
                | PendingBackspace (pending_row, pending_col) _ _ =>
                    if (pending_row =? row) && (pending_col <=? col) then col - pending_col + 1 else 0
                | _ => 0
                end
    | None => 0
    end in
  col - virtual_offset.

Definition defer_backspace (v : TrackedView) (d : Deletes) : Deletes :=
  let '(row, col) := cursor_position (view_screen v) in
  let virtual_col := backspace_column v d in
  let text := if 0 <? virtual_col then cell_text (view_screen v) row (virtual_col - 1) else [] in
  if bool_decide (text = []) then d else
  match rows (view_screen v) !! N.to_nat row with
  | None => d
  | Some row_before => push_pending_delete (intent v d (PendingBackspace (row, virtual_col) text row_before)) d
  end.

Definition delete_column (v : TrackedView) (d : Deletes) : N :=
  let '(row, col) := cursor_position (view_screen v) in
  let virtual_offset :=
    match directly_before v d with
    | Some p => match intent_kind p with
                | PendingDelete_ (pending_row, _) pending_col _ _ =>
                    if (pending_row =? row) && (col <=? pending_col) then pending_col - col + 1 else 0
                | _ => 0
                end
    | None => 0
    end in
  sat_add u16_max col virtual_offset.

Definition defer_delete (v : TrackedView) (d : Deletes) : Deletes :=
  let '(row, col) := cursor_position (view_screen v) in
  let virtual_col := delete_column v d in
  let text := cell_text (view_screen v) row virtual_col in
  if bool_decide (text = []) then d else
  match rows (view_screen v) !! N.to_nat row with
  | None => d
  | Some row_before => push_pending_delete (intent v d (PendingDelete_ (row, col) virtual_col text row_before)) d
  end.

Definition clear_pending_delete (d : Deletes) : Deletes := d <| pending_deletes := [] |>.

Definition cell_differs (p : Cell * Cell) : bool :=
  negb (bool_decide (contents p.1 = contents p.2)) || negb (Bool.eqb (is_wide_continuation p.1) (is_wide_continuation p.2)).

Definition row_text_changed (before : Row) (v : TrackedView) (row : N) : bool :=
  match rows (view_screen v) !! N.to_nat row with
  | None => true
  | Some after =>
      negb (length (cells before) =? length (cells after))%nat || existsb cell_differs (zip (cells before) (cells after))
  end.

Definition pending_delete_is_confirmed (p : PendingDelete) (v : TrackedView) (cursor : N * N) : bool :=
  match intent_kind p with
  | PendingBackspace (old_row, old_col) _ row_before =>
      (cursor.1 =? old_row) && (cursor.2 <? old_col) && row_text_changed row_before v old_row
  | PendingDelete_ application_cursor _ _ row_before =>
      bool_decide (cursor = application_cursor) && row_text_changed row_before v application_cursor.1
  end.

Definition revision_passed (boundary current : option N) : bool :=
  match boundary, current with
  | Some boundary, Some current => boundary <? current
  | None, None => true
  | _, _ => false
  end.

Definition has_confirmed_pending_delete (v : TrackedView) (d : Deletes) : bool :=
  if bool_decide (pending_deletes d = []) || negb (bool_decide (screen (prev_screen v) = screen (view_screen v)))
     || accessibility_screen_transition_pending v then false else
  existsb (λ p,
    (intent_view p =? view_id v) && revision_passed (revision_boundary p) (accessibility_revision v)
    && (bool_decide (accessibility_revision v = None)
        || negb (bool_decide (last_evaluated_revision p = accessibility_revision v)))
    && pending_delete_is_confirmed p v (cursor_position (view_screen v))) (pending_deletes d).

Definition intent_text (p : PendingDelete) : list N :=
  match intent_kind p with PendingBackspace _ text _ => text | PendingDelete_ _ _ text _ => text end.

(** What becomes of an intent: it is kept, read, or dropped after too many
    presentations without its result. *)
Inductive Fate := Retain (p : PendingDelete) | Say (text : list N) | Forget.

Definition fate (v : TrackedView) (p : PendingDelete) : Fate :=
  if negb (intent_view p =? view_id v) then Retain p else
  if negb (revision_passed (revision_boundary p) (accessibility_revision v)) then Retain p else
  if negb (bool_decide (accessibility_revision v = None)) && bool_decide (last_evaluated_revision p = accessibility_revision v)
  then Retain p else
  if pending_delete_is_confirmed p v (cursor_position (view_screen v)) then Say (intent_text p) else
  let p := (p <| last_evaluated_revision := accessibility_revision v |>) <| evaluations := N.min 255 (evaluations p + 1) |> in
  if evaluations p <? MAX_PENDING_DELETE_PRESENTATIONS then Retain p else Forget.

Definition retained (fates : list Fate) : list PendingDelete :=
  omap (λ f, match f with Retain p => Some p | _ => None end) fates.
Definition said (fates : list Fate) : list (list N) :=
  omap (λ f, match f with Say t => Some t | _ => None end) fates.

(** Speaking, which may fail ([speak text = false]), is for the speech driver. *)
Section Speaking.
Context (speak : list N → bool).

(** The loop over the confirmed texts: those handed to speech, and whether all
    were spoken.  It ends at the first failure. *)
Fixpoint speak_each (texts : list (list N)) : list (list N) * bool :=
  match texts with
  | [] => ([], true)
  | text :: texts =>
      if speak text then let '(handed, all) := speak_each texts in (text :: handed, all) else ([text], false)
  end.

(** The texts handed to speech and the result: whether there were any, [None]
    if speech failed.  The confirmed deletions have left the queue before the
    first is spoken. *)
Definition resolve_pending_delete (v : TrackedView) (d : Deletes) : list (list N) * option bool * Deletes :=
  if bool_decide (pending_deletes d = []) then ([], Some false, d) else
  let fates := fate v <$> pending_deletes d in
  let d := d <| pending_deletes := retained fates |> in
  let spoken := said fates in
  let '(handed, all) := speak_each spoken in
  (handed, if all then Some (negb (bool_decide (spoken = []))) else None, d).

Definition resolve_confirmed_pending_delete (v : TrackedView) (d : Deletes) : list (list N) * option bool * Deletes :=
  if negb (has_confirmed_pending_delete v d) then ([], Some false, d) else resolve_pending_delete v d.
End Speaking.

(** * The echo queue *)

Definition typed (e : Echo) : list N := character <$> pending_key_echo e.

Lemma matches_at_spec text q start : matches_at text q start = true ↔ text `prefix_of` drop start (character <$> q).
Proof.
  revert start. induction text as [|c text IH]; intros start; cbn [matches_at].
  { split; [intros _; apply prefix_nil|done]. }
  destruct (q !! start) as [p|] eqn:E.
  - assert ((character <$> q) !! start = Some (character p)) as E' by (by rewrite list_lookup_fmap, E).
    rewrite (drop_S _ _ _ E'), andb_true_iff, IH, N.eqb_eq. split.
    + intros [-> H]. by apply prefix_cons.
    + intros H. split; [by apply prefix_cons_inv_1 in H|by apply prefix_cons_inv_2 in H].
  - assert (drop start (character <$> q) = []) as -> by (apply drop_ge; rewrite length_fmap; by apply lookup_ge_None).
    split; [done|]. intros H. by apply prefix_nil_not in H.
Qed.

Lemma first_match_Some text q starts k : first_match text q starts = Some k →
  ∃ l1 l2, starts = l1 ++ k :: l2 ∧ matches_at text q k = true ∧ Forall (λ i, matches_at text q i = false) l1.
Proof.
  induction starts as [|i starts IH]; [done|]. cbn [first_match]. destruct (matches_at text q i) eqn:E.
  - intros [= ->]. by exists [], starts.
  - intros H. destruct (IH H) as (l1 & l2 & -> & Hm & Hf). exists (i :: l1), l2. split_and!; [done|done|by constructor].
Qed.

Lemma first_match_None text q starts : first_match text q starts = None ↔ Forall (λ i, matches_at text q i = false) starts.
Proof.
  induction starts as [|i starts IH]; [done|]. cbn [first_match]. rewrite Forall_cons.
  destruct (matches_at text q i); [naive_solver|]. rewrite IH. naive_solver.
Qed.

Lemma ends_with_pending_spec text q : (length q ≤ length text)%nat →
  ends_with_pending text q = true ↔ (character <$> q) `prefix_of` text.
Proof.
  revert q. induction text as [|c text IH]; intros [|p q] Hl; cbn [ends_with_pending length fmap list_fmap] in *.
  - split; [intros _; apply prefix_nil|done].
  - lia.
  - split; [intros _; apply prefix_nil|done].
  - rewrite andb_true_iff, IH, N.eqb_eq by lia. split.
    + intros [-> H]. by apply prefix_cons.
    + intros H. split; [symmetry; by apply prefix_cons_inv_1 in H|by apply prefix_cons_inv_2 in H].
Qed.

(** [text] occurs in [l] after [k] characters. *)
Definition occurs_at (text l : list N) (k : nat) : Prop := ∃ before after, l = before ++ text ++ after ∧ length before = k.

Lemma occurs_prefix text l k : occurs_at text l k ↔ (k ≤ length l)%nat ∧ text `prefix_of` drop k l.
Proof.
  split.
  - intros (b & a & -> & <-). rewrite drop_app_length. split; [rewrite length_app; lia|by exists a].
  - intros [Hk [a Ha]]. exists (take k l), a. split; [by rewrite <-Ha, take_drop|]. rewrite length_take. lia.
Qed.

(** Whether a text is taken for the echo of typed keys, and what is then left
    to expect. *)
Lemma should_suppress_spec text e :
  let t := trim_delimiters text in
  let '(suppressed, e') := should_suppress_key_echo text e in
  suppress_key_echo e' = suppress_key_echo e ∧
  if suppressed then
    suppress_key_echo e = true ∧ t ≠ [] ∧ key_echo_stream_active e' = true ∧
    ((∃ stale, length stale = length (pending_key_echo e) - length t - length (pending_key_echo e') ∧
        pending_key_echo e = stale ++ drop (length stale) (pending_key_echo e) ∧
        typed e = (character <$> stale) ++ t ++ typed e' ∧
        pending_key_echo e' = drop (length stale + length t) (pending_key_echo e) ∧
        ∀ k, (k < length stale)%nat → ¬ occurs_at t (typed e) k)%nat ∨
     (pending_key_echo e' = [] ∧ typed e ≠ [] ∧ ∃ before, before ≠ [] ∧ t = before ++ typed e))
  else e' = e ∧ (suppress_key_echo e = true → t ≠ [] →
    (∀ k, ¬ occurs_at t (typed e) k) ∧ (typed e ≠ [] → ∀ before, t ≠ before ++ typed e)).
Proof.
  cbv zeta. unfold should_suppress_key_echo. set (t := trim_delimiters text). clearbody t.
  destruct (suppress_key_echo e) eqn:Hs; cbn [negb orb]; [|by split; [|split]].
  case_bool_decide as Ht; [by split; [|split]|].
  assert (length (typed e) = length (pending_key_echo e)) as Hlen by apply length_fmap.
  destruct (length (pending_key_echo e) <? length t)%nat eqn:Hshort.
  - apply Nat.ltb_lt in Hshort.
    assert (∀ k, ¬ occurs_at t (typed e) k) as Hno.
    { intros k (b & a & Hb & _). apply (f_equal length) in Hb. rewrite !length_app in Hb. lia. }
    case_bool_decide as Hq; cbn [negb andb].
    + split; [done|]. split; [done|]. intros _ _. split; [done|]. intros Hn. by unfold typed in Hn; rewrite Hq in Hn.
    + destruct (ends_with_pending (reverse t) (reverse (pending_key_echo e))) eqn:He.
      * split; [done|]. apply ends_with_pending_spec in He; [|rewrite !length_reverse; lia].
        destruct He as [r Hr]. apply (f_equal reverse) in Hr. rewrite reverse_involutive, reverse_app, fmap_reverse, reverse_involutive in Hr.
        split_and!; [done|done|done|right]. split_and!; [done| |].
        -- intros E. apply Hq. by apply fmap_nil_inv in E.
        -- exists (reverse r). split; [|exact Hr]. intros E. rewrite Hr, E in Hshort. cbn [app] in Hshort. rewrite length_fmap in Hshort. lia.
      * split; [done|]. split; [done|]. intros _ _. split; [done|]. intros _ before E.
        assert (ends_with_pending (reverse t) (reverse (pending_key_echo e)) = true) as He'; [|congruence].
        apply ends_with_pending_spec; [rewrite !length_reverse; lia|]. exists (reverse before).
        by rewrite E, reverse_app, fmap_reverse.
  - apply Nat.ltb_ge in Hshort.
    destruct (first_match t (pending_key_echo e) _) as [k|] eqn:Hm.
    + apply first_match_Some in Hm as (l1 & l2 & Hseq & Hk & Hf).
      assert (k = length l1 ∧ (length l1 ≤ length (pending_key_echo e) - length t)%nat) as [-> Hle].
      { pose proof (f_equal length Hseq) as Hl. rewrite length_seq, length_app in Hl. cbn [length] in Hl.
        assert (seq 0 (S (length (pending_key_echo e) - length t)) !! length l1 = Some k) as Hx
          by (rewrite Hseq; by apply list_lookup_middle). apply lookup_seq in Hx as [-> _]. split; lia. }
      split; [done|]. split_and!; [done|done|done|left].
      exists (take (length l1) (pending_key_echo e)). rewrite length_take_le by lia.
      set (e' := e <| pending_key_echo := _ |> <| key_echo_stream_active := true |>).
      assert (pending_key_echo e' = drop (length l1 + length t) (pending_key_echo e)) as Eq by done.
      rewrite Eq, length_drop. split_and!; [lia|by rewrite take_drop| |done|].
      * apply matches_at_spec in Hk as [a Ha]. unfold typed. rewrite Eq.
        rewrite <-(take_drop (length l1) (pending_key_echo e)) at 1. rewrite fmap_app. f_equal.
        rewrite fmap_drop, Ha. f_equal. rewrite fmap_drop, <-drop_drop, Ha. by rewrite drop_app_length.
      * intros i Hi Hocc. apply occurs_prefix in Hocc as [_ Hp]. rewrite Forall_forall in Hf.
        assert (i ∈ l1) as Hin.
        { assert (seq 0 (S (length (pending_key_echo e) - length t)) !! i = Some i) as Hx by (apply lookup_seq; lia).
          rewrite Hseq, lookup_app_l in Hx by done. by eapply list_elem_of_lookup_2. }
        apply Hf in Hin. assert (matches_at t (pending_key_echo e) i = true) by (by apply matches_at_spec). congruence.
    + apply first_match_None in Hm. split; [done|]. split; [done|]. intros _ _.
      assert (∀ k, ¬ occurs_at t (typed e) k) as Hno.
      { intros k Hocc. pose proof Hocc as (b & a & Hb & Hlb). apply (f_equal length) in Hb. rewrite !length_app in Hb.
        apply occurs_prefix in Hocc as [_ Hp]. rewrite Forall_forall in Hm.
        assert (k ∈ seq 0 (S (length (pending_key_echo e) - length t))) as Hin by (apply elem_of_seq; lia).
        apply Hm in Hin. assert (matches_at t (pending_key_echo e) k = true) by (by apply matches_at_spec). congruence. }
      split; [done|]. intros Hn before E.
      destruct before as [|c before]; [apply (Hno O); exists [], []; by rewrite app_nil_r, E|].
      apply (f_equal length) in E. cbn [app length] in E. rewrite length_app in E. lia.
Qed.

(** Typing: the queue keeps the newest characters. *)
Lemma push_echo_keeps s q c : len q ≤ MAX_PENDING_KEY_ECHO_CHARS →
  character <$> push_echo s q c =
    drop (length q + 1 - N.to_nat MAX_PENDING_KEY_ECHO_CHARS) ((character <$> q) ++ [c]).
Proof.
  intros Hq. unfold push_echo. rewrite fmap_app. cbn [fmap list_fmap character].
  destruct (N.eqb_spec (len q) MAX_PENDING_KEY_ECHO_CHARS) as [E|E].
  - assert (length q + 1 - N.to_nat MAX_PENDING_KEY_ECHO_CHARS = 1)%nat as -> by (unfold MAX_PENDING_KEY_ECHO_CHARS in *; lia).
    destruct q as [|p q]; [done|]. done.
  - assert (length q + 1 - N.to_nat MAX_PENDING_KEY_ECHO_CHARS = 0)%nat as -> by (unfold MAX_PENDING_KEY_ECHO_CHARS in *; lia).
    done.
Qed.

Lemma record_keeps_newest text s q : len q ≤ MAX_PENDING_KEY_ECHO_CHARS →
  let q' := fold_left (push_echo s) text q in
  len q' ≤ MAX_PENDING_KEY_ECHO_CHARS ∧
  character <$> q' = drop (length q + length text - N.to_nat MAX_PENDING_KEY_ECHO_CHARS) ((character <$> q) ++ text).
Proof.
  revert q. induction text as [|c text IH]; intros q Hq; cbv zeta.
  - cbn [fold_left length]. split; [done|]. rewrite app_nil_r.
    assert (length q + 0 - N.to_nat MAX_PENDING_KEY_ECHO_CHARS = 0)%nat as -> by (unfold MAX_PENDING_KEY_ECHO_CHARS in *; lia). done.
  - cbn [fold_left]. pose proof (push_echo_keeps s q c Hq) as Hp.
    assert (len (push_echo s q c) ≤ MAX_PENDING_KEY_ECHO_CHARS ∧
      length (push_echo s q c) = (length q + 1 - (length q + 1 - N.to_nat MAX_PENDING_KEY_ECHO_CHARS))%nat) as [Hl El].
    { apply (f_equal length) in Hp. rewrite length_fmap, length_drop, length_app, length_fmap in Hp. cbn [length] in Hp.
      unfold MAX_PENDING_KEY_ECHO_CHARS in *. lia. }
    destruct (IH (push_echo s q c) Hl) as [IH1 IH2]. split; [exact IH1|]. rewrite IH2, Hp, El. cbn [length].
    set (a := (length q + 1 - N.to_nat MAX_PENDING_KEY_ECHO_CHARS)%nat).
    rewrite <-(drop_app_le _ text) by (rewrite length_app, length_fmap; cbn [length]; lia).
    rewrite drop_drop, <-app_assoc. cbn [app]. f_equal. unfold a, MAX_PENDING_KEY_ECHO_CHARS in *. lia.
Qed.

Lemma record_typed text s e :
  suppress_key_echo e = true → pending_key_echo e = [] → len text ≤ MAX_PENDING_KEY_ECHO_CHARS →
  suppress_key_echo (record_forwarded_key (Some text) s e) = true ∧ typed (record_forwarded_key (Some text) s e) = text.
Proof.
  intros Hs Hq Hlen. unfold record_forwarded_key, typed. set (e0 := match text with _ :: _ => e | _ => _ end).
  assert (suppress_key_echo e0 = true ∧ pending_key_echo e0 = []) as [E1 E2] by (unfold e0; by destruct text).
  rewrite E1, E2. destruct (record_keeps_newest text s []) as [_ H]; [vm_compute; discriminate|]. split; [exact E1|].
  change (character <$> fold_left (push_echo s) text [] = text). rewrite H.
  assert (length (@nil PendingKeyEcho) + length text - N.to_nat MAX_PENDING_KEY_ECHO_CHARS = 0)%nat as -> by (cbn [length]; lia).
  done.
Qed.

Fixpoint suppress_all (outputs : list (list N)) (e : Echo) : list bool * Echo :=
  match outputs with
  | [] => ([], e)
  | output :: outputs =>
      let '(b, e) := should_suppress_key_echo output e in
      let '(l, e) := suppress_all outputs e in (b :: l, e)
  end.

Lemma suppress_prefix output rest e :
  suppress_key_echo e = true → trim_delimiters output ≠ [] → typed e = trim_delimiters output ++ rest →
  ∃ e', should_suppress_key_echo output e = (true, e') ∧ typed e' = rest ∧ suppress_key_echo e' = true.
Proof.
  intros Hs Ht He. pose proof (should_suppress_spec output e) as Hspec. cbv zeta in Hspec.
  destruct (should_suppress_key_echo output e) as [[] e'].
  - destruct Hspec as (E & _ & _ & _ & [(stale & _ & _ & Hty & _ & Hno)|(_ & Hne & before & Hb & Heq)]).
    + exists e'. split; [done|]. split; [|by rewrite E].
      destruct stale as [|p stale]; cbn [fmap list_fmap app] in Hty; [by rewrite He in Hty; apply app_inv_head in Hty|].
      exfalso. apply (Hno O); [cbn; lia|]. exists [], rest. done.
    + exfalso. apply (f_equal length) in Heq, He. rewrite length_app in Heq, He. destruct before; [done|]. cbn [length] in Heq. lia.
  - exfalso. destruct Hspec as (_ & -> & H). destruct (H Hs Ht) as [Hno _]. apply (Hno O). by exists [], rest.
Qed.

(** * Deferred deletions *)

Definition same_intent (p q : PendingDelete) : Prop :=
  intent_view p = intent_view q ∧ revision_boundary p = revision_boundary q ∧ intent_sequence p = intent_sequence q ∧
  intent_kind p = intent_kind q.

(** An intent can be settled by what is presented now. *)
Definition due (v : TrackedView) (p : PendingDelete) : bool :=
  (intent_view p =? view_id v) && revision_passed (revision_boundary p) (accessibility_revision v)
  && (bool_decide (accessibility_revision v = None) || negb (bool_decide (last_evaluated_revision p = accessibility_revision v))).
Definition confirmed (v : TrackedView) (p : PendingDelete) : bool :=
  pending_delete_is_confirmed p v (cursor_position (view_screen v)).

Definition evaluated (v : TrackedView) (p : PendingDelete) : PendingDelete :=
  (p <| last_evaluated_revision := accessibility_revision v |>) <| evaluations := N.min 255 (evaluations p + 1) |>.

Lemma fate_spec v p : fate v p =
  if negb (due v p) then Retain p else
  if confirmed v p then Say (intent_text p) else
  if evaluations (evaluated v p) <? MAX_PENDING_DELETE_PRESENTATIONS then Retain (evaluated v p) else Forget.
Proof.
  unfold fate, due, confirmed. fold (evaluated v p).
  destruct (intent_view p =? view_id v); cbn [negb andb]; [|done].
  destruct (revision_passed _ _); cbn [negb andb]; [|done].
  destruct (bool_decide (accessibility_revision v = None)); cbn [negb andb orb]; [done|].
  by destruct (bool_decide _).
Qed.

Lemma has_confirmed_spec v d : has_confirmed_pending_delete v d = true →
  ∃ p, p ∈ pending_deletes d ∧ due v p = true ∧ confirmed v p = true.
Proof.
  unfold has_confirmed_pending_delete. destruct (_ || _ || _); [done|].
  intros (p & Hin%list_elem_of_In & Hp)%existsb_exists. exists p. apply andb_true_iff in Hp as [Hd Hc]. done.
Qed.

(** What is still expected of a deletion once a view was presented: one that
    the view cannot settle yet waits unchanged, one that it could have
    confirmed and did not waits for at most 63 more. *)
Definition waits (v : TrackedView) (p : PendingDelete) : option PendingDelete :=
  if negb (due v p) then Some p
  else if confirmed v p || (MAX_PENDING_DELETE_PRESENTATIONS <=? evaluations p + 1) then None
  else Some ((p <| last_evaluated_revision := accessibility_revision v |>) <| evaluations := evaluations p + 1 |>).

Lemma retained_waits v l : retained (fate v <$> l) = omap (waits v) l.
Proof.
  unfold retained. induction l as [|p l IH]; [done|]. cbn [fmap list_fmap omap list_omap].
  fold (list_fmap _ _ (fate v) l). rewrite fate_spec. unfold waits at 1.
  destruct (due v p); cbn [negb]; [|by f_equal]. destruct (confirmed v p); cbn [orb]; [exact IH|].
  assert (evaluations (evaluated v p) = N.min 255 (evaluations p + 1)) as -> by by destruct p.
  change MAX_PENDING_DELETE_PRESENTATIONS with 64.
  destruct (N.leb_spec 64 (evaluations p + 1)) as [Hle|Hlt].
  - rewrite (proj2 (N.ltb_ge _ _)) by lia. exact IH.
  - rewrite (proj2 (N.ltb_lt _ _)) by lia. f_equal; [|exact IH]. unfold evaluated. by rewrite N.min_r by lia.
Qed.

Lemma speak_each_handed speak texts :
  let '(handed, all) := speak_each speak texts in
  handed `prefix_of` texts ∧ (all = true → handed = texts) ∧ (all = true ↔ Forall (λ t, speak t = true) texts) ∧
  (texts ≠ [] → handed ≠ []).
Proof.
  induction texts as [|t texts IH]; cbn [speak_each]; [by split_and!|].
  destruct (speak t) eqn:Et.
  - destruct (speak_each speak texts) as [handed all]. destruct IH as (H1 & H2 & H3 & _). split_and!; [by apply prefix_cons| | |done].
    + intros Ha. f_equal. by apply H2.
    + rewrite H3, Forall_cons. tauto.
  - split_and!; [by exists texts|done| |done]. rewrite Forall_cons, Et. split; [done|]. by intros [? _].
Qed.

Lemma fate_again v p q : fate v p = Retain q → ∀ t, fate v q ≠ Say t.
Proof.
  rewrite !fate_spec. destruct (due v p) eqn:Hd; cbn [negb].
  - destruct (confirmed v p) eqn:Hc; [done|]. case_match; [|done]. intros [= <-] t.
    assert (confirmed v (evaluated v p) = false) as -> by exact Hc.
    destruct (negb (due v (evaluated v p))); [done|]. by case_match.
  - intros [= <-] t. by rewrite Hd.
Qed.

Lemma fates_length fates : (length (said fates) + length (retained fates) ≤ length fates)%nat.
Proof.
  unfold said, retained. induction fates as [|[] fates IH]; cbn [omap list_omap length]; lia.
Qed.

(** A run of backspaces with nothing from the application in between. *)
Fixpoint backspaces (n : nat) (v : TrackedView) (d : Deletes) : Deletes :=
  match n with O => d | S n => defer_backspace v (record_last_key (backspaces n v d)) end.

Lemma backspaces_spec v d row col r n :
  cursor_position (view_screen v) = (row, col) → rows (view_screen v) !! N.to_nat row = Some r →
  pending_deletes d = [] → (n ≤ N.to_nat MAX_PENDING_DELETE_INTENTS)%nat → N.of_nat n ≤ col →
  (∀ i, (i < n)%nat → cell_text (view_screen v) row (col - 1 - N.of_nat i) ≠ []) →
  let d' := backspaces n v d in
  pending_deletes d' = (λ i : nat,
    intent v {| pending_deletes := []; input_sequence := wrapping_add u64_max (input_sequence d) (N.of_nat i + 1) |}
      (PendingBackspace (row, col - N.of_nat i) (cell_text (view_screen v) row (col - 1 - N.of_nat i)) r)) <$> seq 0 n ∧
  input_sequence d' = (if (n =? 0)%nat then input_sequence d else wrapping_add u64_max (input_sequence d) (N.of_nat n)).
Proof.
  intros Hcur Hr Hd. induction n as [|n IH]; intros Hn Hcol Htext; [done|].
  destruct IH as [IH1 IH2]; [lia|lia|intros i Hi; apply Htext; lia|]. cbn [backspaces]. cbv zeta.
  set (d1 := backspaces n v d) in *.
  assert (input_sequence (record_last_key d1) = wrapping_add u64_max (input_sequence d) (N.of_nat (S n))) as Eseq.
  { change (input_sequence (record_last_key d1)) with (wrapping_add u64_max (input_sequence d1) 1). rewrite IH2.
    destruct (Nat.eqb_spec n 0) as [->|_]; [done|]. unfold wrapping_add. rewrite N.Div0.add_mod_idemp_l. f_equal. lia. }
  assert (pending_deletes (record_last_key d1) = pending_deletes d1) as Epend by done.
  assert (backspace_column v (record_last_key d1) = col - N.of_nat n) as Ecol.
  { unfold backspace_column, directly_before. rewrite Hcur, Epend, IH1, Eseq.
    destruct n as [|n]; [cbn; lia|]. rewrite seq_S, fmap_app, last_app. cbn [fmap list_fmap last].
    cbn [fmap list_fmap intent intent_view intent_sequence intent_kind input_sequence Nat.add].
    rewrite N.eqb_refl.
    assert (wrapping_add u64_max (wrapping_add u64_max (input_sequence d) (N.of_nat n + 1)) 1 =
      wrapping_add u64_max (input_sequence d) (N.of_nat (S (S n)))) as ->.
    { unfold wrapping_add. rewrite N.Div0.add_mod_idemp_l. f_equal. lia. }
    rewrite N.eqb_refl. cbn [andb intent intent_kind]. rewrite N.eqb_refl. cbn [andb].
    rewrite (proj2 (N.leb_le _ _)) by lia. lia. }
  unfold defer_backspace. rewrite Hcur, Ecol.
  rewrite (proj2 (N.ltb_lt _ _)) by lia.
  assert (col - N.of_nat n - 1 = col - 1 - N.of_nat n) as -> by lia.
  rewrite bool_decide_eq_false_2 by (apply Htext; lia). rewrite Hr.
  unfold push_pending_delete. rewrite Epend.
  assert (len (pending_deletes d1) = N.of_nat n) as Hlen by (rewrite IH1, length_fmap, length_seq; lia).
  rewrite (proj2 (N.leb_gt _ _)) by lia.
  split; [|exact Eseq]. rewrite seq_S, fmap_app. cbn [fmap list_fmap Nat.add].
  set (p := intent v _ _). set (q := intent v {| pending_deletes := [] |} _).
  assert (p = q) as ->.
  { unfold p, q, intent. f_equal. rewrite Eseq. cbn [input_sequence]. f_equal. lia. }
  change (pending_deletes d1 ++ [q] = ((λ i : nat, intent v {| pending_deletes := []; input_sequence := wrapping_add u64_max (input_sequence d) (N.of_nat i + 1) |}
      (PendingBackspace (row, col - N.of_nat i) (cell_text (view_screen v) row (col - 1 - N.of_nat i)) r)) <$> seq 0 n) ++ [q]).
  by rewrite IH1.
Qed.

(** * Properties *)

(** A text is taken for the echo of typed keys only when it is one: a stretch
    of what was typed, the first such, which is no longer expected, and neither
    are the keys typed before it (commands that never echo), while everything
    typed after it still is; or when it ends with all that was typed, after
    something else (a prompt), and then nothing more is expected.  Any other
    text is read, and the expectations stay as they were. *)
Theorem echo_is_recognised_exactly text e :
  let t := trim_delimiters text in
  let '(suppressed, e') := should_suppress_key_echo text e in
  suppress_key_echo e' = suppress_key_echo e ∧
  (suppressed = true ↔ suppress_key_echo e = true ∧ t ≠ [] ∧
    ((∃ k, occurs_at t (typed e) k) ∨ (typed e ≠ [] ∧ ∃ before, t = before ++ typed e))) ∧
  (suppressed = false → e' = e) ∧
  (suppressed = true → key_echo_stream_active e' = true ∧
    ((∃ stale, typed e = stale ++ t ++ typed e' ∧ pending_key_echo e' = drop (length stale + length t) (pending_key_echo e) ∧
       ∀ k, (k < length stale)%nat → ¬ occurs_at t (typed e) k) ∨
     (pending_key_echo e' = [] ∧ ∃ before, before ≠ [] ∧ t = before ++ typed e))).
Proof.
  pose proof (should_suppress_spec text e) as H. cbv zeta in *. set (t := trim_delimiters text) in *.
  destruct (should_suppress_key_echo text e) as [[] e'].
  - destruct H as (E & Hs & Ht & Ha & Hcase). split_and!; [done| |done|].
    + split; [intros _|done]. split_and!; [done|done|].
      destruct Hcase as [(stale & _ & _ & Hty & _ & _)|(_ & Hne & before & _ & Hb)]; [left|right; eauto].
      exists (length stale), (character <$> stale), (typed e'). by rewrite length_fmap.
    + intros _. split; [done|]. destruct Hcase as [(stale & _ & _ & Hty & Hd & Hno)|(Hp & _ & Hb)]; [left|by right].
      exists (character <$> stale). rewrite length_fmap. done.
  - destruct H as (E & -> & Hno). split_and!; [done| |done|done].
    split; [done|]. intros (Hs & Ht & Hcase). destruct (Hno Hs Ht) as [H1 H2].
    destruct Hcase as [[k Hk]|[Hne [before Hb]]]; [by destruct (H1 k)|by destruct (H2 Hne before)].
Qed.

(** What is typed is not read back: however the terminal divides its echo, and
    wherever it ends lines, every piece is taken for the echo, and when all
    have come nothing more is expected. *)
Theorem typed_text_is_not_read_back text s e outputs :
  suppress_key_echo e = true → pending_key_echo e = [] → len text ≤ MAX_PENDING_KEY_ECHO_CHARS →
  mjoin (trim_delimiters <$> outputs) = text → Forall (λ o, trim_delimiters o ≠ []) outputs →
  let '(suppressed, e') := suppress_all outputs (record_forwarded_key (Some text) s e) in
  Forall (eq true) suppressed ∧ pending_key_echo e' = [].
Proof.
  intros Hs Hq Hlen Hout Hne. destruct (record_typed text s e Hs Hq Hlen) as [Hs1 Ht1].
  set (e1 := record_forwarded_key (Some text) s e) in *.
  clearbody e1. clear Hlen Hs Hq. revert e1 text Hs1 Ht1 Hout. induction Hne as [|o outputs Ho _ IH]; intros e1 text Hs1 Ht1 Hout; cbn [suppress_all].
  - split; [done|]. cbn in Hout. rewrite <-Hout in Ht1. by apply fmap_nil_inv in Ht1.
  - rewrite fmap_cons, join_cons in Hout. rewrite <-Hout in Ht1.
    destruct (suppress_prefix o _ e1 Hs1 Ho Ht1) as (e2 & -> & Ht2 & Hs2).
    specialize (IH e2 _ Hs2 Ht2 eq_refl). destruct (suppress_all outputs e2) as [l e3]. destruct IH as [IH1 IH2].
    split; [by constructor|done].
Qed.

(** C34. Deletions are read once.  Whatever is presented, the expected deletions
    that the screen now confirms are read in their order, and are expected no
    more; if speech fails, the rest of them is lost unread.  All others stay,
    in their order: one that this view cannot settle (it is of another view, or
    its frame was not presented yet, or was judged before) unchanged, one that
    it did not confirm with one more presentation counted, until it has waited
    for 64.  When a confirmed deletion is announced as pending, something is
    read; presenting the same view again reads nothing. *)
Theorem deletions_are_read_once speak v d :
  let '(handed, result, d') := resolve_pending_delete speak v d in
  let confirmed_texts := intent_text <$> List.filter (λ p, due v p && confirmed v p) (pending_deletes d) in
  handed `prefix_of` confirmed_texts ∧
  match result with
  | Some any => handed = confirmed_texts ∧ any = negb (bool_decide (confirmed_texts = []))
  | None => Exists (λ t, speak t = false) confirmed_texts
  end ∧
  pending_deletes d' = omap (waits v) (pending_deletes d) ∧
  (has_confirmed_pending_delete v d = true → handed ≠ []) ∧
  (resolve_pending_delete speak v d').1 = ([], Some false).
Proof.
  unfold resolve_pending_delete at 1. case_bool_decide as Hd.
  { cbv zeta. rewrite Hd. split_and!; [done..| |].
    - intros H. apply has_confirmed_spec in H as (p & Hp & _). rewrite Hd in Hp. by apply elem_of_nil in Hp.
    - unfold resolve_pending_delete. by rewrite bool_decide_eq_true_2. }
  cbv zeta. set (fates := fate v <$> pending_deletes d).
  assert (said fates = intent_text <$> List.filter (λ p, due v p && confirmed v p) (pending_deletes d)) as Hsaid.
  { unfold fates, said. clear. induction (pending_deletes d) as [|p l IH]; [done|]. cbn [fmap list_fmap omap list_omap List.filter].
    fold (list_fmap _ _ (fate v) l). rewrite fate_spec. destruct (due v p); cbn [negb andb]; [|exact IH].
    destruct (confirmed v p); [|destruct (_ <? MAX_PENDING_DELETE_PRESENTATIONS); exact IH]. cbn. f_equal. exact IH. }
  pose proof (speak_each_handed speak (said fates)) as Hspeak.
  destruct (speak_each speak (said fates)) as [handed all]. destruct Hspeak as (H1 & H2 & H3 & H4). rewrite Hsaid in *.
  assert (pending_deletes (d <| pending_deletes := retained fates |>) = retained fates) as Hp by by destruct d.
  split_and!; [done| |rewrite Hp; apply retained_waits| |].
  - destruct all; [by split; [apply H2|]|]. apply dec_stable. intros H%not_Exists_Forall; [|solve_decision].
    enough (false = true) by done. apply H3. eapply Forall_impl; [exact H|]. cbn. intros t. by destruct (speak t).
  - intros H. apply H4. apply has_confirmed_spec in H as (p & Hin & E1 & E2). intros E. apply fmap_nil_inv in E.
    assert (p ∈ List.filter (λ p, due v p && confirmed v p) (pending_deletes d)) as Hf by (apply elem_of_Filter; by rewrite E1, E2).
    rewrite E in Hf. by apply elem_of_nil in Hf.
  - unfold resolve_pending_delete. rewrite Hp. case_bool_decide; [done|].
    assert (said (fate v <$> retained fates) = []) as ->; [|done].
    assert (∀ t, t ∉ said (fate v <$> retained fates)) as Hno.
    { intros t Ht. unfold said in Ht. apply list_elem_of_omap in Ht as (f & Hf & E). destruct f; simplify_eq.
      apply list_elem_of_fmap in Hf as (p' & Ep & Hp').
      unfold retained in Hp'. apply list_elem_of_omap in Hp' as (f & Hf & E). destruct f; simplify_eq.
      apply list_elem_of_fmap in Hf as (p & Ep' & _). symmetry in Ep, Ep'. by apply (fate_again v p p' Ep' t). }
    destruct (said (fate v <$> retained fates)) as [|t l]; [done|]. exfalso. apply (Hno t), elem_of_cons. by left.
Qed.

(** Backspaces typed ahead of the application are read as the characters they
    delete: the one before the cursor, then the one before that, and so on. *)
Theorem repeated_backspaces_read_leftwards v d row col r n :
  cursor_position (view_screen v) = (row, col) → rows (view_screen v) !! N.to_nat row = Some r →
  pending_deletes d = [] → (n ≤ N.to_nat MAX_PENDING_DELETE_INTENTS)%nat → N.of_nat n ≤ col →
  (∀ i, (i < n)%nat → cell_text (view_screen v) row (col - 1 - N.of_nat i) ≠ []) →
  intent_text <$> pending_deletes (backspaces n v d) =
    (λ i : nat, cell_text (view_screen v) row (col - 1 - N.of_nat i)) <$> seq 0 n.
Proof.
  intros H1 H2 H3 H4 H5 H6. destruct (backspaces_spec v d row col r n H1 H2 H3 H4 H5 H6) as [-> _].
  rewrite <-list_fmap_compose. by apply list_fmap_ext.
Qed.

(** * Examples *)

Definition typing : Echo := echo_new true.

Lemma typed_text_is_not_read_back_witness :
  let '(suppressed, e') := suppress_all [bs "ec"; bs "ho" ++ [CR; LF]; bs " hi"] (record_forwarded_key (Some (bs "echo hi")) PrimaryScreen typing) in
  Forall (eq true) suppressed ∧ pending_key_echo e' = [].
Proof.
  apply (typed_text_is_not_read_back (bs "echo hi") PrimaryScreen typing).
  - reflexivity.
  - reflexivity.
  - vm_compute. discriminate.
  - vm_compute. reflexivity.
  - repeat constructor; vm_compute; discriminate.
Defined.

Definition letter (c : N) : Cell := default_cell <| grapheme := [c] |>.
Definition letters : Row := {| cells := letter <$> bs "abcd"; wrapped := false |}.
Definition line_view : TrackedView :=
  let s := {| rows := [letters]; scrollback := []; cursor := default_cursor <| cursor_col := 4 |>; geometry := geometry_new 1 4 0 0;
              screen := PrimaryScreen; modes := default_modes; title := None; working_directory := None; semantic_marks := [];
              history_origin := 0; scrollback_extent := 0; viewport := Live |} in
  {| view_id := 1; presentation_tracking := true; live_revision := 5; presented_revision := 5;
     view_screen := s; prev_screen := s; accessibility_screen_transition_pending := false |}.

Lemma repeated_backspaces_read_leftwards_witness :
  intent_text <$> pending_deletes (backspaces 3 line_view {| pending_deletes := []; input_sequence := u64_max |}) =
    [bs "d"; bs "c"; bs "b"].
Proof.
  etrans; [apply (repeated_backspaces_read_leftwards line_view _ 0 4 letters 3)|].
  - reflexivity.
  - reflexivity.
  - reflexivity.
  - vm_compute. lia.
  - vm_compute. discriminate.
  - intros i Hi. destruct i as [|[|[|i]]]; [vm_compute; discriminate..|lia].
  - vm_compute. reflexivity.
Defined.
