(* ===== verification/AutoRead.v ===== *)
(** Automatic reading (src/src/screen_reader/auto_read.rs, and cursor and
    highlight tracking of src/src/screen_reader/tracking.rs): what is spoken
    when the accessible screen changes.

    The screen reader is a state and its operations are a state monad with
    failure; [None] is an error of speech or of a hook.  The comparison of
    texts of the crate [similar] is the parameters [diff_lines] and
    [diff_graphemes].  Speech and the hooks of the user are [effects] on the
    world: [scripts] says, of each effect after those before it, whether it
    succeeds and what the user's Lua does meanwhile, which is to speak
    ([lector.api.speak], src/src/lua/mod.rs) and to set options ([lector.o],
    src/src/lua/meta.rs); what it answers to the text about to be read is
    [on_live_read], if there is such a hook: it may fail, drop the text or
    change it.  Lua reaches the screen reader but never a view.  A view is the
    two snapshots, the update between them and the bits of src/src/view.rs that
    these operations use; the caches of the view and the buffers of the reader
    are not modelled, nor are diagnostics. *)

From S2P Require Import Prelude Terminal Screen TerminalUpdate Table ReviewCursor FieldDiff InputEcho.
Local Open Scope N_scope.

(** * The view *)

Record AccessibleView := {
  screen_now : TerminalSnapshot;
  screen_prev : TerminalSnapshot;
  accessibility_update_summary : UpdateSummary;
  application_cursor_indent_level : N;
  tracked : bool;
  accessibility_has_unfinalized_presentation : bool
}.

Definition fnv1a_64 (l : bytes) : N :=
  fold_left (λ hash b, N.lxor hash b * 1099511628211 mod 2 ^ 64) l 14695981039346656037.

Definition compute_row_hashes (source : list N) : list N :=
  (λ line, fnv1a_64 (mjoin (utf8_encode <$> line))) <$> split_terminator source.

Definition line_text (v : AccessibleView) (row : N) : list N := line (screen_now v) row.

Definition word_text (s : TerminalSnapshot) (row col : N) : list N :=
  contents_between s row (find_word_start s row col) row (find_word_end s row col + 1).
Definition character_text (s : TerminalSnapshot) (row col : N) : list N := contents_between s row col row (col + 1).

Definition application_cursor_indentation_level (v : AccessibleView) : (N * bool) * AccessibleView :=
  let '(row, _) := cursor_position (screen_now v) in
  let indent_level := match find_cell (screen_now v) starts_text row 0 row ((size (screen_now v)).2 - 1) with
                      | Some (_, col) => col
                      | None => application_cursor_indent_level v
                      end in
  let changed := negb (indent_level =? application_cursor_indent_level v) in
  ((indent_level, changed), v <| application_cursor_indent_level := indent_level |>).

Definition div_ceil (a b : N) : N := (a + b - 1) / b.

(** [str::trim_end_matches] of line feeds *)
Definition trim_line_feeds (l : list N) : list N := reverse (skip_while (N.eqb LF) (reverse l)).

Definition row_lines (output : list N) (r : Row) : list N :=
  let output := append_contents_to r output in
  if wrapped r then output else output ++ [LF].

Definition tail_rows (s : TerminalSnapshot) (reported : list N) : list Row :=
  let columns := N.max (size s).2 1 in
  let history_rows := div_ceil (utf8_len reported) columns + len (List.filter (N.eqb LF) reported) + 4 in
  let history_start := len (scrollback s) - history_rows in
  drop (N.to_nat history_start) (scrollback s) ++ take (Nat.min (N.to_nat (cursor_row (cursor s))) (length (rows s))) (rows s).

Fixpoint last_index (c : N) (l : list N) : option nat :=
  match l with
  | [] => None
  | x :: l => match last_index c l with
              | Some i => Some (S i)
              | None => if x =? c then Some O else None
              end
  end.

(** The tail of the screen is the reported text, and is its first occurrence
    since the line it starts on. *)
Definition is_live_tail (presented reported : list N) : bool :=
  let start := (length presented - length reported)%nat in
  if negb (bool_decide (drop start presented = reported) && (length reported <=? length presented)%nat) then false else
  let line_start := match last_index LF (take start presented) with Some i => S i | None => O end in
  bool_decide (find_sub reported (drop line_start presented) = Some (start - line_start)%nat).

Definition accessibility_completes_linear_output_record (v : AccessibleView) : bool :=
  let update := accessibility_update_summary v in
  if tracked v && negb (accessibility_has_unfinalized_presentation v) then false else
  if negb (bool_decide (screen (screen_now v) = PrimaryScreen) && bool_decide (screen (screen_prev v) = PrimaryScreen)
       && bool_decide (screen_before update = PrimaryScreen) && bool_decide (screen_after update = PrimaryScreen)
       && completes_linear_output_record update) then false else
  let reported := trim_line_feeds (printed_text update) in
  if bool_decide (reported = []) then true else
  is_live_tail (trim_line_feeds (fold_left row_lines (tail_rows (screen_now v) reported) [])) reported.

(** * The reader *)

Inductive LiveEffect :=
| LiveSpeechStart (text : list N) (interrupt : bool)
| LiveSpeech (text : list N) (interrupt : bool)
| LiveSpeechEnd (text : list N) (interrupt ok : bool)
| LiveRead (text : list N) (cursor_moves : N) (scrolled : bool)
| LiveScript (text : list N) (interrupt : bool)
| LiveReviewMove (old new : N * N)
| LiveScreenUpdate (overlay : bool).

Inductive CursorTrackingMode := TrackingOn | TrackingOffOnce.

Record Live := {
  view : AccessibleView;
  echo : Echo;
  cursor_tracking_mode : CursorTrackingMode;
  report_indentation : bool;
  auto_read_enabled : bool;
  highlight_tracking_enabled : bool;
  review_follows_screen_cursor : bool;
  terminal_focused : bool;
  live_effects : list LiveEffect
}.

(** What the Lua of a hook does while it runs: it hands a text to speech, or
    sets one of the options these operations look at. *)
Inductive ScriptAct :=
| ScriptSpeaks (text : list N) (interrupt : bool)
| SetAutoRead (value : bool)
| SetSuppressKeyEcho (value : bool)
| SetReportIndentation (value : bool)
| SetHighlightTracking (value : bool)
| SetReviewFollows (value : bool).

Definition script_act (st : Live) (a : ScriptAct) : Live :=
  match a with
  | ScriptSpeaks text interrupt => st <| live_effects := live_effects st ++ [LiveScript text interrupt] |>
  | SetAutoRead value => st <| auto_read_enabled := value |>
  | SetSuppressKeyEcho value => st <| echo := set_suppress_key_echo value (echo st) |>
  | SetReportIndentation value => st <| report_indentation := value |>
  | SetHighlightTracking value => st <| highlight_tracking_enabled := value |>
  | SetReviewFollows value => st <| review_follows_screen_cursor := value |>
  end.

Definition L (A : Type) : Type := Live → option A * Live.
Definition lret {A} (x : A) : L A := λ st, (Some x, st).
Definition lbind {A B} (m : L A) (k : A → L B) : L B := λ st,
  match m st with (Some x, st) => k x st | (None, st) => (None, st) end.
Definition lfail {A} : L A := λ st, (None, st).
Definition lget : L Live := λ st, (Some st, st).
Definition with_echo {A} (f : Echo → A * Echo) : L A := λ st,
  let '(x, e) := f (echo st) in (Some x, st <| echo := e |>).

Declare Scope live_scope.
Local Open Scope live_scope.
Notation "'let*' x := m 'in' k" := (lbind m (λ x, k)) (at level 10, x name, m at level 100, k at level 200) : live_scope.
Notation "m ;;; k" := (lbind m (λ _ : unit, k)) (at level 100, right associativity) : live_scope.

Section AutoRead.

Context (scripts : list LiveEffect → LiveEffect → bool * list ScriptAct).
Context (on_live_read : option (list LiveEffect → list N → N → bool → option (option (list N)))).
Context (diff_lines diff_graphemes : list N → list N → list (ChangeTag * list N)).
Context (is_alphanumeric : N → bool).

Definition lattempt (e : LiveEffect) : L bool := λ st,
  let '(ok, acts) := scripts (live_effects st) e in
  (Some ok, fold_left script_act acts (st <| live_effects := live_effects st ++ [e] |>)).
Definition lperform (e : LiveEffect) : L unit := let* ok := lattempt e in if ok then lret tt else lfail.

Definition lspeak (text : list N) (interrupt : bool) : L unit :=
  let* st := lget in
  if bool_decide (text = []) || negb (terminal_focused st) then lret tt else
  lperform (LiveSpeechStart text interrupt) ;;;
  let* ok := lattempt (LiveSpeech text interrupt) in
  lperform (LiveSpeechEnd text interrupt ok) ;;;
  if ok then lret tt else lfail.

Definition hook_on_live_read (text : list N) (cursor_moves : N) (scrolled : bool) : L (option (list N)) :=
  match on_live_read with
  | None => lret (Some text)
  | Some hook =>
      let* st := lget in
      let answer := hook (live_effects st) text cursor_moves scrolled in
      let* _ := lattempt (LiveRead text cursor_moves scrolled) in
      λ st, (answer, st)
  end.

(** Speaks what a hook has left of a text, if anything. *)
Definition speak_some (text : option (list N)) : L unit :=
  match text with Some ((_ :: _) as text) => lspeak text false | _ => lret tt end.

Definition indent_report (level : N) : list N := bs "indent " ++ to_dec level.

Definition report_application_cursor_indentation_changes : L unit :=
  let* st := lget in
  if negb (report_indentation st) then lret tt else
  let* level := λ st, let '(x, v) := application_cursor_indentation_level (view st) in (Some x, st <| view := v |>) in
  if (level.2 : bool) then lspeak (indent_report level.1) false else lret tt.

Definition speak_application_cursor_line : L bool :=
  let* st := lget in
  let line := line_text (view st) (cursor_position (screen_now (view st))).1 in
  if bool_decide (trim_chars line = []) then lret false else
  let* echoed := with_echo (should_suppress_key_echo line) in
  if (echoed : bool) then lret false else lspeak line false ;;; lret true.

(** * Reading output *)

(** The loop of [cursor_logical_line_matches]: the first row of the logical
    line of [index], unless it is more than [budget] rows back. *)
Fixpoint logical_start (all : list Row) (index budget : nat) : option nat :=
  match index with
  | O => Some O
  | S above => match all !! above with
               | Some r => if wrapped r
                           then match budget with O => None | S budget => logical_start all above budget end
                           else Some index
               | None => Some index
               end
  end.

Definition cursor_logical_line_matches (s : TerminalSnapshot) (report : list N) : bool :=
  let row := N.to_nat (cursor_row (cursor s)) in
  if (length (rows s) <=? row)%nat then false else
  let all := scrollback s ++ rows s in
  let cursor_index := (length (scrollback s) + row)%nat in
  let columns := N.max (size s).2 1 in
  let maximum_rows := div_ceil (utf8_len report) columns + 2 in
  match logical_start all cursor_index (N.to_nat maximum_rows - 1) with
  | None => false
  | Some start =>
      let line := fold_left (λ out r, append_contents_to r out) (take (S (cursor_index - start)) (drop start all)) [] in
      bool_decide (trim_chars line = report)
  end.

Definition validated_structural_line_report (v : AccessibleView) (live_text : list N) : bool :=
  let update := accessibility_update_summary v in
  let report := trim_chars live_text in
  output_report_structural update && negb (parser_continuation update)
  && bool_decide (screen_before update = PrimaryScreen) && bool_decide (screen_after update = PrimaryScreen)
  && (cursor_operations update =? 0) && negb (existsb (N.eqb LF) live_text) && negb (bool_decide (report = []))
  && cursor_logical_line_matches (screen_now v) report.

(** Reading what was printed: [None] when it is not to be read as such. *)
Definition read_printed (live_text : list N) (readable_print_report : bool) (cursor_moves : N) (scrolled : bool) : L (option bool) :=
  let text := trim_chars live_text in
  if readable_print_report && ((cursor_moves =? 0) || scrolled) then
    let* suppress_echo := with_echo (should_suppress_key_echo live_text) in
    (if negb suppress_echo && negb (bool_decide (text = []))
     then let* read := hook_on_live_read text cursor_moves scrolled in speak_some read
     else lret tt) ;;;
    if suppress_echo || negb (bool_decide (text = [])) then lret (Some true) else lret None
  else lret None.

(** What the rest looks at: where the cursor was and is, and which rows changed. *)
Record Change_ := {
  c_old_text : list N; c_new_text : list N;
  c_prev_cursor : N * N; c_cursor : N * N;
  cursor_shape_changed : bool;
  cursor_row_changed : bool; prev_cursor_row_changed : bool;
  single_changed_row : option N; changed_row_count : N
}.

Definition row_changed (old new : list N) (row : N) : bool :=
  match old !! N.to_nat row, new !! N.to_nat row with
  | Some p, Some c => negb (p =? c)
  | _, _ => false
  end.

Definition changed_rows_of (old new : list N) : option N * N :=
  if (length old =? length new)%nat then
    let changed := List.filter (λ row, row_changed old new row) (N.of_nat <$> seq 0 (length old)) in
    match changed with
    | [row] => (Some row, 1)
    | _ => (None, len changed)
    end
  else (None, usize_max).

Definition change_of (v : AccessibleView) : Change_ :=
  let old := contents_full (screen_prev v) in
  let new := contents_full (screen_now v) in
  let prev_hashes := compute_row_hashes old in
  let curr_hashes := compute_row_hashes new in
  let prev_cursor := cursor_position (screen_prev v) in
  let cursor_now := cursor_position (screen_now v) in
  let '(single, count) := changed_rows_of prev_hashes curr_hashes in
  {| c_old_text := old; c_new_text := new; c_prev_cursor := prev_cursor; c_cursor := cursor_now;
     cursor_shape_changed := negb (bool_decide (shape (cursor (screen_prev v)) = shape (cursor (screen_now v))));
     cursor_row_changed := row_changed prev_hashes curr_hashes cursor_now.1;
     prev_cursor_row_changed := row_changed prev_hashes curr_hashes prev_cursor.1;
     single_changed_row := single; changed_row_count := count |}.

Definition same_text (v : AccessibleView) : bool :=
  let old := contents_full (screen_prev v) in
  let new := contents_full (screen_now v) in
  bool_decide (compute_row_hashes old = compute_row_hashes new) && bool_decide (old = new).

Definition cell_offset (columns : N) (p : N * N) : N := sat_add usize_max (sat_mul usize_max p.1 columns) p.2.

Definition pair_lt (p q : N * N) : bool := (p.1 <? q.1) || ((p.1 =? q.1) && (p.2 <? q.2)).

(** The row an echo was painted on. *)
Definition input_echo_row (prefer_cursor scrolled : bool) (columns : N) (c : Change_) (e : Echo) : option N :=
  let pending_key_echo_count := len (pending_key_echo e) in
  let previous_offset := cell_offset columns (c_prev_cursor c) in
  let offset := cell_offset columns (c_cursor c) in
  let cursor_matches_initial_echo := (previous_offset <=? offset) && (offset - previous_offset <=? pending_key_echo_count) in
  if prefer_cursor && has_pending_key_echo e && negb scrolled && (1 <? changed_row_count c)
     && (key_echo_stream_active e || cursor_matches_initial_echo)
  then if cursor_row_changed c then Some (c_cursor c).1
       else if ((c_prev_cursor c).1 <? (c_cursor c).1) && prev_cursor_row_changed c then Some (c_prev_cursor c).1
       else None
  else None.

Definition nth_line (text : list N) (row : N) : list N := default [] (split_terminator text !! N.to_nat row).

Definition inserted_lines (changes : list (ChangeTag * list N)) : list N :=
  mjoin ((λ c : ChangeTag * list N, match c.1 with TagInsert => c.2 ++ [LF] | _ => [] end) <$> changes).

(** The grapheme loop: the state, and the graphemes inserted before it became
    [Multi]. *)
Definition grapheme_step (st : (DiffState * option ChangeTag) * list N) (c : ChangeTag * list N)
    : (DiffState * option ChangeTag) * list N :=
  let d := grapheme_diff_step st.1 c.1 in
  (d, match d.1, c.1 with
      | Multi, _ => st.2
      | _, TagInsert => st.2 ++ c.2
      | _, _ => st.2
      end).

(** The text to read of a line that replaced another. *)
Definition refine_single (old new diff_text : list N) : L (list N) :=
  let '((state, _), graphemes) := fold_left grapheme_step (diff_graphemes old new) ((NoChanges, None), []) in
  match state with
  | Multi => match collect_inserted_fields is_alphanumeric old new [] with
             | Some (fields, true) => lret fields
             | Some (_, false) => lret diff_text
             | None => lfail
             end
  | _ => lret graphemes
  end.

Definition crossed (c : Change_) : bool :=
  match single_changed_row c with
  | Some row =>
      if (c_prev_cursor c).1 <? (c_cursor c).1 then ((c_prev_cursor c).1 <=? row) && (row <? (c_cursor c).1)
      else if (c_cursor c).1 <? (c_prev_cursor c).1 then (row <=? (c_prev_cursor c).1) && ((c_cursor c).1 <? row)
      else false
  | None => false
  end.

(** The difference of the two texts. *)
Definition read_difference (prefer_cursor scrolled : bool) (cursor_moves : N) (echo_row : option N) (inline_edit : bool)
    (c : Change_) : L bool :=
  let prefer_inline_cursor_row := bool_decide (is_Some echo_row) || inline_edit in
  let inline_row := default (c_cursor c).1 echo_row in
  let '(old, new) := if prefer_inline_cursor_row then (nth_line (c_old_text c) inline_row, nth_line (c_new_text c) inline_row)
                     else (c_old_text c, c_new_text c) in
  let changes := diff_lines old new in
  let diff_state := line_diff_state (changes.*1) in
  let diff_text := inserted_lines changes in
  let cursor_on_changed_row := prefer_inline_cursor_row ||
    match single_changed_row c with
    | Some row => (row =? (c_prev_cursor c).1) || (row =? (c_cursor c).1)
    | None => false
    end in
  if prefer_cursor && bool_decide (diff_state = Single) && (0 <? cursor_moves) && negb scrolled
     && negb (bool_decide (c_cursor c = c_prev_cursor c)) && negb cursor_on_changed_row && negb (crossed c)
  then lret false else
  let* diff_text := if bool_decide (diff_state = Single) then refine_single old new diff_text else lret diff_text in
  let* suppress_echo := with_echo (if bool_decide (is_Some echo_row) then should_suppress_cursor_row_key_echo diff_text
                                   else should_suppress_key_echo diff_text) in
  if (suppress_echo : bool) then lret true else
  let* st := lget in
  if bool_decide (is_Some echo_row) && key_echo_stream_active (echo st) && (2 <? changed_row_count c) then lret true else
  let* text := hook_on_live_read diff_text cursor_moves scrolled in
  speak_some text ;;;
  lret (negb (bool_decide (diff_text = []))).

(** A frame of a full-screen interface whose cursor changed its shape: its
    compact state is read; [None] when there is none. *)
Definition read_interface_state (cursor_moves : N) (scrolled : bool) (c : Change_) : L (option bool) :=
  let* st := lget in
  match collect_compact_interface_state_change is_alphanumeric (c_old_text c) (c_new_text c)
          (N.to_nat (c_prev_cursor c).1) (N.to_nat (c_cursor c).1) with
  | None => lfail
  | Some [] => lret None
  | Some state =>
      let* text := hook_on_live_read state cursor_moves scrolled in
      (if has_pending_key_echo (echo st) then with_echo (λ e, (tt, e <| key_echo_stream_active := true |>)) else lret tt) ;;;
      speak_some text ;;;
      lret (Some true)
  end.

Definition auto_read_changes (prefer_cursor : bool) : L bool :=
  let* st := lget in
  let v := view st in
  let e := echo st in
  let update := accessibility_update_summary v in
  let cursor_moves := cursor_operations update in
  let scrolled := 0 <? scroll_operations update in
  let structural_repaint := output_report_structural update && negb scrolled in
  let columns := N.max (size (screen_now v)).2 1 in
  if same_text v then lret (prefer_cursor && key_echo_stream_active e) else
  let c := change_of v in
  let multiple_changed_rows := 1 <? changed_row_count c in
  let interface_repaint := structural_repaint
    && (((line_feed_boundaries update =? 0) && (prefer_cursor || multiple_changed_rows || cursor_shape_changed c))
        || ((0 <? line_feed_boundaries update) && (0 <? cursor_operations_after_last_line_feed update))) in
  let echo_row := input_echo_row prefer_cursor scrolled columns c e in
  if prefer_cursor && has_pending_key_echo e && key_echo_stream_active e && negb scrolled
     && pair_lt (c_prev_cursor c) (c_cursor c) && negb (cursor_row_changed c) && negb (prev_cursor_row_changed c)
  then lret true else
  let inline_edit := prefer_cursor && negb (bool_decide (c_cursor c = c_prev_cursor c)) && negb scrolled
    && ((c_cursor c).1 =? (c_prev_cursor c).1) && ((c_prev_cursor c).2 <? (c_cursor c).2)
    && cursor_row_changed c && multiple_changed_rows in
  let* state_read := if interface_repaint && cursor_shape_changed c && negb (cursor_row_changed c) && negb (prev_cursor_row_changed c)
                     then read_interface_state cursor_moves scrolled c else lret None in
  match state_read with
  | Some b => lret b
  | None =>
      if interface_repaint && negb (bool_decide (is_Some echo_row)) && negb inline_edit
         && negb ((changed_row_count c =? 1) && (cursor_row_changed c || prev_cursor_row_changed c))
      then let* st := lget in
           if has_pending_key_echo e || key_echo_stream_active (echo st) then lret true
           else let* _ := speak_application_cursor_line in lret true
      else read_difference prefer_cursor scrolled cursor_moves echo_row inline_edit c
  end.

(** What follows the report of the indentation. *)
Definition auto_read_body (prefer_cursor : bool) : L bool :=
  let* st := lget in
  let v := view st in
  let update := accessibility_update_summary v in
  let live_text := printed_text update in
  let completed_linear_record := accessibility_completes_linear_output_record v in
  if completed_linear_record && bool_decide (trim_chars live_text = [])
  then let* _ := with_echo (should_suppress_key_echo live_text) in lret true else
  if negb completed_linear_record && bool_decide (contents_full (screen_prev v) = contents_full (screen_now v))
  then let* suppressed_echo := with_echo (should_suppress_key_echo live_text) in
       let* st := lget in
       lret (suppressed_echo || (prefer_cursor && key_echo_stream_active (echo st)))
  else
  let readable := has_linear_output_report update || validated_structural_line_report v live_text in
  let* printed := read_printed live_text readable (cursor_operations update) (0 <? scroll_operations update) in
  match printed with
  | Some b => lret b
  | None => auto_read_changes prefer_cursor
  end.

Definition auto_read_impl (prefer_cursor : bool) : L bool :=
  let* st := lget in
  (if negb (prefer_cursor && (has_pending_key_echo (echo st) || key_echo_stream_active (echo st)))
   then report_application_cursor_indentation_changes else lret tt) ;;;
  auto_read_body prefer_cursor.

Definition auto_read : L bool := auto_read_impl false.
Definition auto_read_after_input : L bool := auto_read_impl true.

(** * Tracking *)

(** What the cursor is on, if it moved; an empty text is not spoken. *)
Definition cursor_report (v : AccessibleView) : option (list N) :=
  let s := screen_now v in
  let prev := cursor_position (screen_prev v) in
  let now := cursor_position s in
  if negb (now.1 =? prev.1) then
    let line := line_text v now.1 in Some (if bool_decide (trim_chars line = []) then [] else line)
  else if negb (now.2 =? prev.2) then
    let distance_moved := (now.2 - prev.2) + (prev.2 - now.2) in
    let prev_word_start := find_word_start s prev.1 prev.2 in
    let word_start := find_word_start s now.1 now.2 in
    if negb (word_start =? prev_word_start) && (1 <? distance_moved)
    then Some (word_text s now.1 now.2)
    else let character := character_text s now.1 now.2 in Some (if bool_decide (trim_chars character = []) then [] else character)
  else None.

Definition track_cursor : L unit :=
  let* st := lget in
  let report := cursor_report (view st) in
  match cursor_tracking_mode st with
  | TrackingOn =>
      report_application_cursor_indentation_changes ;;;
      match report with Some text => lspeak text false | None => lret tt end
  | TrackingOffOnce => λ st, (Some tt, st <| cursor_tracking_mode := TrackingOn |>)
  end.

Fixpoint speak_each (texts : list (list N)) : L unit :=
  match texts with [] => lret tt | text :: texts => lspeak text false ;;; speak_each texts end.

Definition track_highlighting : L unit :=
  let* st := lget in
  let previous := get_highlights (screen_prev (view st)) in
  speak_each (List.filter (λ h, negb (bool_decide (h ∈ previous))) (get_highlights (screen_now (view st)))).

(** * How much is spoken *)

Definition is_spoken (e : LiveEffect) : bool := match e with LiveSpeech _ _ => true | _ => false end.
Definition spoken (l : list LiveEffect) : nat := length (List.filter is_spoken l).

(** What the screen reader has spoken, the user's Lua apart. *)
Definition utterances (l : list LiveEffect) : list (list N) :=
  omap (λ e, match e with LiveSpeech text _ => Some text | _ => None end) l.

(** What only [track_cursor] and the report of the indentation change. *)
Definition kept (st st' : Live) : Prop :=
  view st' = view st ∧ cursor_tracking_mode st' = cursor_tracking_mode st ∧ terminal_focused st' = terminal_focused st.

Lemma kept_refl st : kept st st.
Proof. done. Qed.
Lemma kept_trans st1 st2 st3 : kept st1 st2 → kept st2 st3 → kept st1 st3.
Proof. unfold kept. intros (-> & -> & ->) (-> & -> & ->). done. Qed.

(** The hook of the user was asked about an empty text. *)
Definition asked_about_nothing (e : LiveEffect) : bool := match e with LiveRead [] _ _ => true | _ => false end.

Lemma spoken_app l1 l2 : spoken (l1 ++ l2) = (spoken l1 + spoken l2)%nat.
Proof. unfold spoken. by rewrite List.filter_app, length_app. Qed.

Lemma script_acts acts st :
  kept st (fold_left script_act acts st) ∧
  ∃ new, live_effects (fold_left script_act acts st) = live_effects st ++ new ∧ Forall (λ e, is_spoken e = false) new.
Proof.
  revert st. induction acts as [|a acts IH]; intros st; cbn [fold_left].
  { split; [done|]. exists []. by rewrite app_nil_r. }
  destruct (IH (script_act st a)) as (Hk & new & E & Hnew).
  assert (kept st (script_act st a) ∧ ∃ n, live_effects (script_act st a) = live_effects st ++ n ∧ Forall (λ e, is_spoken e = false) n)
    as (Hk1 & n & E1 & Hn).
  { destruct a; (split; [done|]); [by exists [LiveScript text interrupt]; repeat constructor|..];
      exists []; by rewrite app_nil_r. }
  split; [by eapply kept_trans|]. exists (n ++ new). rewrite E, E1, app_assoc. split; [done|]. by apply Forall_app.
Qed.

Lemma silent_spoken l : Forall (λ e, is_spoken e = false) l → spoken l = O.
Proof. unfold spoken. induction 1 as [|e l He _ IH]; [done|]. cbn. by rewrite He. Qed.

(** An effect and what Lua does meanwhile. *)
Lemma attempt_effects e st :
  kept st (lattempt e st).2 ∧ is_Some (lattempt e st).1 ∧
  ∃ new, live_effects (lattempt e st).2 = live_effects st ++ e :: new ∧ Forall (λ e, is_spoken e = false) new.
Proof.
  unfold lattempt. destruct (scripts (live_effects st) e) as [ok acts]. cbn [fst snd].
  destruct (script_acts acts (st <| live_effects := live_effects st ++ [e] |>)) as (Hk & new & E & Hnew).
  split_and!; [exact Hk|done|]. exists new. rewrite E. split; [exact (eq_sym (app_assoc _ [e] new))|done].
Qed.

(** The texts of a list that speech is given: an empty one is not spoken. *)
Definition sayable (texts : list (list N)) : list (list N) := List.filter (λ t, negb (bool_decide (t = []))) texts.

Lemma utterances_app l1 l2 : utterances (l1 ++ l2) = utterances l1 ++ utterances l2.
Proof. apply omap_app. Qed.
Lemma spoken_utterances l : spoken l = length (utterances l).
Proof. induction l as [|e l IH]; [done|]. unfold spoken in *. destruct e; cbn in *; by rewrite ?IH. Qed.
Lemma silent_utterances l : Forall (λ e, is_spoken e = false) l → utterances l = [].
Proof. induction 1 as [|e l He _ IH]; [done|]. by destruct e. Qed.
Lemma sayable_one text : text ≠ [] → sayable [text] = [text].
Proof. by destruct text. Qed.

(** What speaking a text adds. *)
Lemma speak_effects text interrupt st :
  kept st (lspeak text interrupt st).2 ∧
  ∃ new, live_effects (lspeak text interrupt st).2 = live_effects st ++ new ∧
    utterances new `prefix_of` sayable [text] ∧ (terminal_focused st = false → new = []) ∧
    (is_Some (lspeak text interrupt st).1 → terminal_focused st = true → utterances new = sayable [text]).
Proof.
  unfold lspeak, lbind, lget. destruct (bool_decide (text = []) || negb (terminal_focused st)) eqn:E.
  { split; [done|]. exists []. rewrite app_nil_r. split_and!; [done|apply prefix_nil|done|]. intros _ Hf.
    rewrite Hf, orb_false_r in E. apply bool_decide_eq_true in E as ->. done. }
  apply orb_false_iff in E as [Ht Hfoc]. apply bool_decide_eq_false in Ht. apply negb_false_iff in Hfoc. rewrite (sayable_one text Ht).
  unfold lperform, lbind.
  destruct (attempt_effects (LiveSpeechStart text interrupt) st) as (K1 & [ok1 O1] & n1 & E1 & H1).
  destruct (lattempt (LiveSpeechStart text interrupt) st) as [r1 st1]. cbn [fst snd] in *. subst r1.
  apply silent_utterances in H1. destruct ok1; cbn [lret].
  2: { split; [done|]. exists (LiveSpeechStart text interrupt :: n1). split; [done|].
       change (utterances (LiveSpeechStart text interrupt :: n1)) with (utterances n1). rewrite H1.
       split_and!; [apply prefix_nil|congruence|]. intros Hn. by destruct Hn. }
  destruct (attempt_effects (LiveSpeech text interrupt) st1) as (K2 & [ok2 O2] & n2 & E2 & H2).
  destruct (lattempt (LiveSpeech text interrupt) st1) as [r2 st2]. cbn [fst snd] in *. subst r2.
  apply silent_utterances in H2.
  destruct (attempt_effects (LiveSpeechEnd text interrupt ok2) st2) as (K3 & [ok3 O3] & n3 & E3 & H3).
  destruct (lattempt (LiveSpeechEnd text interrupt ok2) st2) as [r3 st3]. cbn [fst snd] in *. subst r3.
  apply silent_utterances in H3.
  assert (kept st st3 ∧ ∃ new, live_effects st3 = live_effects st ++ new ∧ utterances new = [text]) as (K & new & E & Hnew).
  { split; [by eapply kept_trans; [|eapply kept_trans]|].
    exists ((LiveSpeechStart text interrupt :: n1) ++ (LiveSpeech text interrupt :: n2) ++ LiveSpeechEnd text interrupt ok2 :: n3).
    split; [by rewrite E3, E2, E1, <-!app_assoc|]. rewrite !utterances_app.
    change (utterances (LiveSpeechStart text interrupt :: n1)) with (utterances n1).
    change (utterances (LiveSpeech text interrupt :: n2)) with (text :: utterances n2).
    change (utterances (LiveSpeechEnd text interrupt ok2 :: n3)) with (utterances n3). by rewrite H1, H2, H3. }
  assert (∀ r : option unit, kept st (r, st3).2 ∧ ∃ new, live_effects (r, st3).2 = live_effects st ++ new ∧
    utterances new `prefix_of` [text] ∧ (terminal_focused st = false → new = []) ∧ (is_Some (r, st3).1 → terminal_focused st = true → utterances new = [text])) as Hall.
  { intros r. split; [exact K|]. exists new. rewrite Hnew. split_and!; [done|done|congruence|done]. }
  destruct ok3; [|apply Hall]. destruct ok2; apply Hall.
Qed.

Lemma speak_some_effects text st :
  ∃ new, live_effects (speak_some text st).2 = live_effects st ++ new ∧ kept st (speak_some text st).2 ∧ (spoken new ≤ 1)%nat.
Proof.
  destruct text as [[|c text]|]; [by exists []; rewrite app_nil_r; repeat split; cbn; lia| |by exists []; rewrite app_nil_r; repeat split; cbn; lia].
  cbn [speak_some]. destruct (speak_effects (c :: text) false st) as (K & new & E & Hp & _ & _). exists new. split_and!; [done|done|].
  rewrite spoken_utterances. by apply prefix_length in Hp.
Qed.

(** The hook, and what it adds: nothing of the reader's is spoken. *)
Lemma hook_effects text moves scrolled st :
  kept st (hook_on_live_read text moves scrolled st).2 ∧
  ∃ new, live_effects (hook_on_live_read text moves scrolled st).2 = live_effects st ++ new ∧ spoken new = O ∧
    ((∃ l, new = LiveRead text moves scrolled :: l) ∨ hook_on_live_read text moves scrolled st = (Some (Some text), st)).
Proof.
  unfold hook_on_live_read. destruct on_live_read as [hook|]; cycle 1.
  { split; [done|]. exists []. rewrite app_nil_r. auto. }
  unfold lbind, lget. destruct (attempt_effects (LiveRead text moves scrolled) st) as (K & [ok O] & new & E & H).
  destruct (lattempt _ st) as [r st1]. cbn [fst snd] in *. subst r. split; [done|].
  exists (LiveRead text moves scrolled :: new). split_and!; [done| |left; by exists new].
  unfold spoken. cbn. by apply silent_spoken in H.
Qed.

Section Counting.

(** A count of utterances: all of them, or (with [b] = 0) only when the hook of
    the user has not been asked about an empty text, in the place of which it
    may put one. *)
Context (count : list LiveEffect → nat) (b : nat).
Context (count_app : ∀ l1 l2, (count (l1 ++ l2) ≤ count l1 + count l2)%nat).
Context (count_le : ∀ l, (count l ≤ spoken l)%nat).
Context (b_le : (b ≤ 1)%nat).
Context (count_asked : ∀ l, existsb asked_about_nothing l = true → (spoken l ≤ 1)%nat → (count l ≤ b)%nat).

(** Runs of [m] leave the view alone and add effects, among them at most so
    many utterances. *)
Definition says {A} (m : L A) (bound : option A → nat) : Prop :=
  ∀ st, kept st (m st).2 ∧
    ∃ new, live_effects (m st).2 = live_effects st ++ new ∧ (count new ≤ bound (m st).1)%nat.

Lemma count_nil : count [] = O.
Proof. pose proof (count_le []). unfold spoken in *. cbn in *. lia. Qed.

Lemma says_pure {A} (m : L A) : (∀ st, kept st (m st).2 ∧ live_effects (m st).2 = live_effects st) → says m (λ _, O).
Proof. intros H st. destruct (H st) as [Hk E]. split; [done|]. exists []. by rewrite E, app_nil_r, count_nil. Qed.
Lemma says_ret {A} (x : A) : says (lret x) (λ _, O).
Proof. by apply says_pure. Qed.
Lemma says_fail {A} : says (@lfail A) (λ _, O).
Proof. by apply says_pure. Qed.
Lemma says_get : says lget (λ _, O).
Proof. by apply says_pure. Qed.
Lemma says_with_echo {A} (f : Echo → A * Echo) : says (with_echo f) (λ _, O).
Proof. apply says_pure. intros st. unfold with_echo. by destruct (f (echo st)). Qed.

Lemma says_bind {A B} (m : L A) (k : A → L B) f g h :
  says m f → (∀ x, says (k x) (g x)) → (∀ x r, (f (Some x) + g x r ≤ h r)%nat) → (f None ≤ h None)%nat → says (lbind m k) h.
Proof.
  intros Hm Hk Hh Hn st. unfold lbind. destruct (Hm st) as (K1 & n1 & E1 & H1). destruct (m st) as [[x|] st1]; cbn [fst snd] in *.
  - destruct (Hk x st1) as (K2 & n2 & E2 & H2). split; [by eapply kept_trans|].
    exists (n1 ++ n2). rewrite E2, E1, app_assoc. split; [done|].
    specialize (Hh x (k x st1).1). pose proof (count_app n1 n2). lia.
  - split; [done|]. exists n1. split; [done|lia].
Qed.

Lemma says_weaken {A} (m : L A) f g : says m f → (∀ r, (f r ≤ g r)%nat) → says m g.
Proof. intros Hm Hfg st. destruct (Hm st) as (K & n & E & H). split; [done|]. exists n. split; [done|]. etrans; [exact H|apply Hfg]. Qed.

(** Constant bounds: [n] utterances, then [k] more. *)
Lemma says_then {A B} (m : L A) (k : A → L B) (n1 n2 n : nat) :
  says m (λ _, n1) → (∀ x, says (k x) (λ _, n2)) → (n1 + n2 ≤ n)%nat → says (lbind m k) (λ _, n).
Proof. intros Hm Hk Hn. apply (says_bind m k (λ _, n1) (λ _ _, n2)); [done|done|lia|lia]. Qed.

Lemma says_if {A} (c : bool) (m1 m2 : L A) f : says m1 f → says m2 f → says (if c then m1 else m2) f.
Proof. by destruct c. Qed.

Lemma says_more {A} (m : L A) (n n' : nat) : says m (λ _, n) → (n ≤ n')%nat → says m (λ _, n').
Proof. intros H Hn. eapply says_weaken; [exact H|by intros r]. Qed.

Lemma says_attempt e : says (lattempt e) (λ _, if is_spoken e then 1 else 0)%nat.
Proof.
  intros st. destruct (attempt_effects e st) as (K & _ & new & E & Hnew). split; [done|]. exists (e :: new). split; [done|].
  etrans; [apply count_le|]. change (e :: new) with ([e] ++ new). rewrite spoken_app, (silent_spoken new Hnew).
  unfold spoken. cbn. by destruct (is_spoken e).
Qed.

Lemma says_perform e : says (lperform e) (λ _, if is_spoken e then 1 else 0)%nat.
Proof.
  unfold lperform. apply (says_then _ _ (if is_spoken e then 1 else 0) 0); [apply says_attempt| |lia].
  intros []; [apply says_ret|apply says_fail].
Qed.

Lemma says_speak text interrupt : says (lspeak text interrupt) (λ _, 1%nat).
Proof.
  intros st. destruct (speak_effects text interrupt st) as (K & new & E & Hp & _ & _). split; [done|]. exists new. split; [done|].
  etrans; [apply count_le|]. rewrite spoken_utterances. apply prefix_length in Hp. etrans; [exact Hp|]. unfold sayable. cbn.
  destruct (negb _); cbn; lia.
Qed.

Lemma says_speak_some text : says (speak_some text) (λ _, 1%nat).
Proof. destruct text as [[|c text]|]; cbn; [|apply says_speak|]; by apply (says_more _ 0); [apply says_ret|lia]. Qed.

Lemma says_hook text moves scrolled : says (hook_on_live_read text moves scrolled) (λ _, O).
Proof.
  intros st. destruct (hook_effects text moves scrolled st) as (K & new & E & H & _). split; [done|]. exists new. split; [done|].
  rewrite <-H. apply count_le.
Qed.

(** Nothing is said before. *)
Lemma says_after {A B} (m : L A) (k : A → L B) h : says m (λ _, O) → (∀ x, says (k x) h) → says (lbind m k) h.
Proof. intros Hm Hk. apply (says_bind m k (λ _, O) (λ _, h)); [done|done|lia|lia]. Qed.

Lemma says_nothing {A} (x : A) h : says (lret x) h.
Proof. apply (says_weaken _ (λ _, O)); [apply says_ret|intros; lia]. Qed.

(** At most one text, and when the answer is that none was read, [b]. *)
Definition read_bound (r : option bool) : nat := match r with Some false => b | _ => 1%nat end.

(** The same, and none when there is no answer. *)
Definition answers (r : option (option bool)) : nat :=
  match r with Some (Some x) => read_bound (Some x) | Some None => O | None => 1%nat end.

(** The answer of [m], or that of [k] when it gives none. *)
Lemma says_or_else (m : L (option bool)) (k : L bool) : says m answers → says k read_bound →
  says (let* x := m in match x with Some x => lret x | None => k end) read_bound.
Proof.
  intros Hm Hk st. unfold lbind. destruct (Hm st) as (K1 & n1 & E1 & H1). destruct (m st) as [[[x|]|] st1]; cbn [fst snd] in *.
  - split; [done|]. by exists n1.
  - destruct (Hk st1) as (K2 & n2 & E2 & H2). split; [by eapply kept_trans|]. exists (n1 ++ n2).
    rewrite E2, E1, app_assoc. split; [done|]. pose proof (count_app n1 n2). cbn in H1. lia.
  - split; [done|]. by exists n1.
Qed.

(** [m], then a fixed answer. *)
Lemma says_last {A B} (m : L A) (n : nat) (y : B) h :
  says m (λ _, n) → (n ≤ h (Some y))%nat → (n ≤ h None)%nat → says (lbind m (λ _, lret y)) h.
Proof.
  intros Hm H1 H2 st. unfold lbind. destruct (Hm st) as (K & new & E & H). destruct (m st) as [[x|] st1]; cbn [fst snd] in *.
  - split; [exact K|]. exists new. split; [exact E|]. cbn. lia.
  - split; [exact K|]. exists new. split; [exact E|lia].
Qed.

Lemma says_read_printed live_text readable moves scrolled : says (read_printed live_text readable moves scrolled) answers.
Proof.
  unfold read_printed. destruct (readable && _); [|apply (says_weaken _ (λ _, O)); [apply says_ret|intros; lia]].
  set (text := trim_chars live_text).
  apply (says_bind _ _ (λ _, O) (λ _, answers)); [apply says_with_echo| |by intros|cbn; lia]. intros suppress.
  destruct (bool_decide (text = [])) eqn:E; cbn [negb].
  - rewrite andb_false_r, orb_false_r. destruct suppress.
    + apply (says_last _ 0); [apply says_ret|lia|lia].
    + apply (says_last _ 0); [apply says_ret|lia|lia].
  - rewrite orb_true_r. apply (says_last _ 1); [|cbn; lia|cbn; lia].
    apply says_if; [|apply (says_more _ 0); [apply says_ret|lia]].
    apply (says_then _ _ 0 1); [apply says_hook| |lia]. intros read. apply says_speak_some.
Qed.

Lemma says_interface_state moves scrolled c : says (read_interface_state moves scrolled c) answers.
Proof.
  unfold read_interface_state. apply (says_bind _ _ (λ _, O) (λ _, answers)); [apply says_get| |by intros|cbn; lia]. intros st.
  destruct (collect_compact_interface_state_change _ _ _ _ _) as [[|x state]|];
    [apply (says_weaken _ (λ _, O)); [apply says_ret|intros; lia]| |apply (says_weaken _ (λ _, O)); [apply says_fail|intros; lia]].
  apply (says_bind _ _ (λ _, O) (λ _, answers)); [apply says_hook| |by intros|cbn; lia]. intros text.
  apply (says_bind _ _ (λ _, O) (λ _, answers)); [| |by intros|cbn; lia].
  - apply says_if; [apply says_with_echo|apply says_ret].
  - intros _. apply (says_last _ 1); [apply says_speak_some|cbn; lia|cbn; lia].
Qed.

Lemma says_refine old new text : says (refine_single old new text) (λ _, O).
Proof.
  unfold refine_single. destruct (fold_left _ _ _) as [[state p] graphemes]. destruct state; try apply says_ret.
  destruct (collect_inserted_fields _ _ _ _) as [[fields []]|]; [apply says_ret|apply says_ret|apply says_fail].
Qed.

(** A text goes through the hook, and what is left of it is spoken. *)
Lemma says_read text moves scrolled :
  says (let* read := hook_on_live_read text moves scrolled in
        speak_some read ;;; lret (negb (bool_decide (text = [])))) read_bound.
Proof.
  intros st. unfold lbind. destruct (hook_effects text moves scrolled st) as (K1 & n1 & E1 & H1 & Hcase).
  destruct (hook_on_live_read text moves scrolled st) as [[read|] st1] eqn:Eh; cbn [fst snd] in *.
  2: { split; [done|]. exists n1. split; [done|]. cbn. etrans; [apply count_le|]. lia. }
  destruct (speak_some_effects read st1) as (n2 & E2 & K2 & H2).
  assert (live_effects (speak_some read st1).2 = live_effects st ++ n1 ++ n2) as E by (by rewrite E2, E1, app_assoc).
  assert (spoken (n1 ++ n2) ≤ 1)%nat as Hs by (rewrite spoken_app; lia).
  assert (count (n1 ++ n2) ≤ 1)%nat as Hc by (etrans; [apply count_le|done]).
  assert (text = [] → (count (n1 ++ n2) ≤ b)%nat) as Hempty.
  { intros ->. destruct Hcase as [[l ->]|Hsame]; [by apply count_asked|]. simplify_eq.
    apply (f_equal length) in E. cbn in E. rewrite length_app in E.
    assert (n1 ++ n2 = []) as -> by (apply length_zero_iff_nil; lia). rewrite count_nil. lia. }
  destruct (speak_some read st1) as [[[]|] st2]; cbn [fst snd] in *;
    (split; [by eapply kept_trans|]; exists (n1 ++ n2); split; [done|]); [|done]. cbn.
  case_bool_decide as Ht; cbn; [by apply Hempty|done].
Qed.

Lemma says_difference prefer scrolled moves echo_row inline c :
  says (read_difference prefer scrolled moves echo_row inline c) read_bound.
Proof.
  unfold read_difference.
  destruct (if bool_decide (is_Some echo_row) || inline then _ else _) as [old new].
  apply says_if; [apply says_nothing|].
  apply says_after; [apply says_if; [apply says_refine|apply says_ret]|intros text].
  apply says_after; [apply says_with_echo|intros suppress]. apply says_if; [apply says_nothing|].
  apply says_after; [apply says_get|intros st]. apply says_if; [apply says_nothing|]. apply says_read.
Qed.

Lemma says_cursor_line : says speak_application_cursor_line (λ _, 1%nat).
Proof.
  unfold speak_application_cursor_line. apply (says_then _ _ 0 1); [apply says_get| |lia]. intros st.
  apply says_if; [apply (says_more _ 0); [apply says_ret|lia]|].
  apply (says_then _ _ 0 1); [apply says_with_echo| |lia]. intros echoed.
  apply says_if; [apply (says_more _ 0); [apply says_ret|lia]|].
  apply (says_then _ _ 1 0); [apply says_speak|intros _; apply says_ret|lia].
Qed.

Lemma says_changes prefer : says (auto_read_changes prefer) read_bound.
Proof.
  unfold auto_read_changes. apply says_after; [apply says_get|intros st]. cbv zeta.
  apply says_if; [apply says_nothing|]. apply says_if; [apply says_nothing|].
  apply says_or_else; [apply says_if; [apply says_interface_state|apply says_nothing]|].
  apply says_if; [|apply says_difference]. apply says_after; [apply says_get|intros st'].
  apply says_if; [apply says_nothing|]. apply (says_last _ 1); [apply says_cursor_line|cbn; lia|cbn; lia].
Qed.

Lemma says_body prefer : says (auto_read_body prefer) read_bound.
Proof.
  unfold auto_read_body. apply says_after; [apply says_get|intros st]. cbv zeta.
  apply says_if; [apply says_after; [apply says_with_echo|intros _; apply says_nothing]|].
  apply says_if.
  { apply says_after; [apply says_with_echo|intros x]. apply says_after; [apply says_get|intros st'; apply says_nothing]. }
  apply says_or_else; [apply says_read_printed|apply says_changes].
Qed.

End Counting.

(** With nothing that fails, speaking is the hooks around the utterance. *)
Definition utterance (text : list N) : list LiveEffect :=
  [LiveSpeechStart text false; LiveSpeech text false; LiveSpeechEnd text false true].

Lemma speak_ok text st : (∀ l e, scripts l e = (true, [])) → text ≠ [] → terminal_focused st = true →
  lspeak text false st = (Some tt, st <| live_effects := live_effects st ++ utterance text |>).
Proof.
  intros Hf Ht Hfoc. unfold lspeak, lbind, lget. rewrite bool_decide_eq_false_2 by done. rewrite Hfoc. cbn [negb orb].
  assert (∀ e st, lattempt e st = (Some true, st <| live_effects := live_effects st ++ [e] |>)) as Ha
    by (intros e s; unfold lattempt; by rewrite Hf).
  assert (∀ e st, lperform e st = (Some tt, st <| live_effects := live_effects st ++ [e] |>)) as Hp
    by (intros e s; unfold lperform, lbind; by rewrite Ha).
  rewrite Hp, Ha, Hp. unfold lret. f_equal. destruct st. unfold utterance. cbn. f_equal. by rewrite <-!app_assoc.
Qed.

Lemma with_echo_run {A} (f : Echo → A * Echo) st : with_echo f st = (Some (f (echo st)).1, st <| echo := (f (echo st)).2 |>).
Proof. unfold with_echo. by destruct (f (echo st)). Qed.

(** The echo of what was typed, printed at a prompt, is taken for one. *)
Lemma echo_step v rest st :
  let u := accessibility_update_summary v in
  suppress_key_echo (echo st) = true → trim_delimiters (printed_text u) ≠ [] →
  typed (echo st) = trim_delimiters (printed_text u) ++ rest →
  has_linear_output_report u = true → cursor_operations u = 0 →
  let '(answer, st') := auto_read_after_input (st <| view := v |>) in
  answer = Some true ∧ live_effects st' = live_effects st ∧ typed (echo st') = rest ∧ suppress_key_echo (echo st') = true.
Proof.
  intros u Hs Ht Hty Hlin Hcur. destruct (suppress_prefix (printed_text u) rest (echo st) Hs Ht Hty) as (e' & He & Hty' & Hs').
  unfold auto_read_after_input, auto_read_impl. unfold lbind at 1, lget at 1. change (echo (st <| view := v |>)) with (echo st).
  assert (has_pending_key_echo (echo st) = true) as ->.
  { unfold has_pending_key_echo. rewrite Hs, bool_decide_eq_false_2; [done|]. intros E. unfold typed in Hty. rewrite E in Hty.
    cbn in Hty. destruct (trim_delimiters _); done. }
  cbn [andb orb negb]. unfold lbind at 1, lret at 1. unfold auto_read_body, lbind at 1, lget at 1.
  change (view (st <| view := v |>)) with v. cbv zeta. fold u.
  destruct (accessibility_completes_linear_output_record v && _).
  { unfold lbind. rewrite with_echo_run. change (echo (st <| view := v |>)) with (echo st). by rewrite He. }
  destruct (_ && bool_decide _).
  { unfold lbind. rewrite with_echo_run. change (echo (st <| view := v |>)) with (echo st). by rewrite He. }
  rewrite Hlin, Hcur. cbn [orb]. unfold read_printed. cbn [andb orb N.eqb]. unfold lbind. rewrite with_echo_run.
  change (echo (st <| view := v |>)) with (echo st). by rewrite He.
Qed.

(** * Properties *)

(** Linear output is read as it was printed.  A report of plain output that
    changed the screen, or that is a completed record, is spoken once and
    whole, trimmed, unless it is the echo of typed keys, of which nothing is
    spoken; a completed record is all its printed runs, none erased by a
    carriage return. *)
Theorem linear_output_is_read_verbatim prefer_cursor st :
  let v := view st in
  let u := accessibility_update_summary v in
  let text := trim_chars (printed_text u) in
  (∀ l e, scripts l e = (true, [])) → on_live_read = None → terminal_focused st = true → report_indentation st = false →
  has_linear_output_report u = true → cursor_operations u = 0 ∨ 0 < scroll_operations u → text ≠ [] →
  accessibility_completes_linear_output_record v = true ∨ contents_full (screen_prev v) ≠ contents_full (screen_now v) →
  let '(echoed, e') := should_suppress_key_echo (printed_text u) (echo st) in
  auto_read_impl prefer_cursor st =
    (Some true, if echoed then st <| echo := e' |> else st <| live_effects := live_effects st ++ utterance text |>) ∧
  (accessibility_completes_linear_output_record v = true → printed_text u = record_text (printed_runs u)).
Proof.
  intros v u text Hf Hhook Hfoc Hind Hlin Hmoves Htext Hchanged.
  pose proof (should_suppress_spec (printed_text u) (echo st)) as Hspec. cbv zeta in Hspec.
  destruct (should_suppress_key_echo (printed_text u) (echo st)) as [echoed e'] eqn:He. split; cycle 1.
  { unfold accessibility_completes_linear_output_record. destruct (_ && negb _); [done|]. destruct (negb _) eqn:Hn; [done|].
    intros _. apply completed_record_text. apply negb_false_iff, andb_true_iff in Hn as [_ Hn]. exact Hn. }
  assert ((if negb (prefer_cursor && (has_pending_key_echo (echo st) || key_echo_stream_active (echo st)))
    then report_application_cursor_indentation_changes else lret tt) st = (Some tt, st)) as Hrep.
  { destruct (negb _); [|done]. unfold report_application_cursor_indentation_changes, lbind, lget. by rewrite Hind. }
  unfold auto_read_impl. unfold lbind at 1, lget at 1. unfold lbind at 1. rewrite Hrep.
  unfold auto_read_body, lbind at 1, lget at 1. cbv zeta. fold v u text.
  rewrite (bool_decide_eq_false_2 (text = [])), andb_false_r by done.
  assert (negb (accessibility_completes_linear_output_record v) && bool_decide (contents_full (screen_prev v) = contents_full (screen_now v)) = false) as ->.
  { destruct Hchanged as [->|H]; [done|]. by rewrite bool_decide_eq_false_2, andb_false_r. }
  rewrite Hlin. cbn [orb]. unfold read_printed. fold text.
  assert ((cursor_operations u =? 0) || (0 <? scroll_operations u) = true) as ->.
  { apply orb_true_iff. destruct Hmoves as [->|H]; [by left|right]. by apply N.ltb_lt. }
  cbn [andb]. rewrite (bool_decide_eq_false_2 (text = [])) by done. cbn [negb].
  unfold lbind. rewrite with_echo_run, He. cbn [fst snd]. rewrite orb_true_r. destruct echoed; cbn [negb andb]; [done|].
  destruct Hspec as (_ & -> & _). unfold hook_on_live_read. rewrite Hhook. cbn [lret].
  assert (st <| echo := echo st |> = st) as -> by by destruct st.
  assert (∀ t : list N, t ≠ [] → speak_some (Some t) = lspeak t false) as Hss by (intros [|c t] Ht; [by destruct Ht|reflexivity]).
  by rewrite Hss, speak_ok.
Qed.

(** C32. With key echo suppressed (it is spoken by default), typing at a prompt is
    not spoken back.  From an empty queue of expected echo, let a line of at
    most 256 characters be typed, and let the application divide its echo among
    any updates of the screen, each a linear report without cursor operations
    and with some of the line in it: none of them is read, whether or not it
    changes what is visible, and at the end no echo is expected any more. *)
Theorem typing_at_a_prompt_is_silent text s st vs :
  suppress_key_echo (echo st) = true → pending_key_echo (echo st) = [] → len text ≤ MAX_PENDING_KEY_ECHO_CHARS →
  Forall (λ v, let u := accessibility_update_summary v in
    has_linear_output_report u = true ∧ cursor_operations u = 0 ∧ trim_delimiters (printed_text u) ≠ []) vs →
  mjoin ((λ v, trim_delimiters (printed_text (accessibility_update_summary v))) <$> vs) = text →
  let st' := fold_left (λ st v, (auto_read_after_input (st <| view := v |>)).2) vs
               (st <| echo := record_forwarded_key (Some text) s (echo st) |>) in
  live_effects st' = live_effects st ∧ pending_key_echo (echo st') = [].
Proof.
  intros Hs Hq Hlen Hvs Hout. set (e1 := record_forwarded_key (Some text) s (echo st)).
  destruct (record_typed text s (echo st) Hs Hq Hlen) as [Hs1 Ht1]. fold e1 in Hs1, Ht1. clearbody e1.
  cbv zeta. set (st1 := st <| echo := e1 |>).
  assert (live_effects st1 = live_effects st ∧ echo st1 = e1) as [E1 E2] by done. rewrite <-E1. rewrite <-E2 in Hs1, Ht1.
  clearbody st1. clear Hs Hq Hlen E1 E2.
  revert text st1 Hs1 Ht1 Hout. induction Hvs as [|v vs (Hlin & Hcur & Hne) _ IH]; intros text st1 Hs1 Ht1 Hout; cbn [fold_left].
  - split; [done|]. cbn in Hout. rewrite <-Hout in Ht1. by apply fmap_nil_inv in Ht1.
  - rewrite fmap_cons, join_cons in Hout. rewrite <-Hout in Ht1.
    pose proof (echo_step v _ st1 Hs1 Hne Ht1 Hlin Hcur) as Hstep.
    destruct (auto_read_after_input (st1 <| view := v |>)) as [answer st2]. destruct Hstep as (_ & E1 & E2 & E3). cbn [snd].
    rewrite <-E1. by apply (IH _ st2 E3 E2).
Qed.

End AutoRead.

(** * Examples *)

Definition ascii_alphanumeric (c : N) : bool := is_lower c || is_upper c || is_digit c.
(** A comparison that finds two texts equal or replaces one by the other. *)
Definition whole_diff (old new : list N) : list (ChangeTag * list N) :=
  if bool_decide (old = new) then [(TagEqual, old)] else [(TagDelete, old); (TagInsert, new)].

(** Nothing fails, and no Lua runs. *)
Definition silent_world (l : list LiveEffect) (e : LiveEffect) : bool * list ScriptAct := (true, []).

Definition printed_view (before after text : list N) : AccessibleView := {|
  screen_now := text_screen [after]; screen_prev := text_screen [before];
  accessibility_update_summary :=
    (default_summary <| batch_count := 1 |>) <| printed_runs := [{| TerminalUpdate.text := text; boundary := Continue |}] |>;
  application_cursor_indent_level := 0; tracked := false; accessibility_has_unfinalized_presentation := false
|}.

Definition listening (v : AccessibleView) : Live := {|
  view := v; echo := echo_new true; cursor_tracking_mode := TrackingOn; report_indentation := false;
  auto_read_enabled := true; highlight_tracking_enabled := false; review_follows_screen_cursor := false;
  terminal_focused := true; live_effects := []
|}.

Definition done_printed : Live := listening (printed_view (bs "    ") (bs "done") (bs "done")).

Lemma linear_output_is_read_verbatim_witness :
  let u := accessibility_update_summary (view done_printed) in
  let '(echoed, e') := should_suppress_key_echo (printed_text u) (echo done_printed) in
  auto_read_impl silent_world None whole_diff whole_diff ascii_alphanumeric false done_printed =
    (Some true, if echoed then done_printed <| echo := e' |>
                else done_printed <| live_effects := live_effects done_printed ++ utterance (trim_chars (printed_text u)) |>) ∧
  (accessibility_completes_linear_output_record (view done_printed) = true → printed_text u = record_text (printed_runs u)).
Proof.
  apply (linear_output_is_read_verbatim silent_world None whole_diff whole_diff ascii_alphanumeric false done_printed).
  - reflexivity.
  - reflexivity.
  - reflexivity.
  - reflexivity.
  - reflexivity.
  - left. reflexivity.
  - vm_compute. discriminate.
  - right. vm_compute. discriminate.
Defined.

Lemma typing_at_a_prompt_is_silent_witness :
  let vs := [printed_view (bs "    ") (bs "l   ") (bs "l"); printed_view (bs "l   ") (bs "ls  ") (bs "s ");
             printed_view (bs "ls  ") (bs "ls -") (bs "-a")] in
  let st := listening (printed_view (bs "    ") (bs "    ") []) in
  let st' := fold_left (λ st v, (auto_read_after_input silent_world None whole_diff whole_diff ascii_alphanumeric (st <| view := v |>)).2) vs
               (st <| echo := record_forwarded_key (Some (bs "ls -a")) PrimaryScreen (echo st) |>) in
  live_effects st' = [] ∧ pending_key_echo (echo st') = [].
Proof.
  apply (typing_at_a_prompt_is_silent silent_world None whole_diff whole_diff ascii_alphanumeric (bs "ls -a") PrimaryScreen
    (listening (printed_view (bs "    ") (bs "    ") []))).
  - reflexivity.
  - reflexivity.
  - vm_compute. discriminate.
  - repeat constructor; vm_compute; discriminate.
  - vm_compute. reflexivity.
Defined.

(** A comparison of graphemes that finds more than one change: the line that
    was edited is then read as the words that changed. *)
Definition scattered_diff (old new : list N) : list (ChangeTag * list N) := [(TagInsert, new); (TagDelete, old)].
Example edited_line_is_read :
  live_effects (auto_read silent_world None whole_diff scattered_diff ascii_alphanumeric
    (listening ((printed_view (bs "a 1 ") (bs "a 2 ") []) <| accessibility_update_summary := default_summary |>))).2 =
    utterance (bs "2").
Proof. vm_compute. reflexivity. Qed.
