(* ===== verification/PaneSet.v ===== *)
(** The panes of one tmux connection (src/src/tmux_panes.rs, [TmuxPaneSet]):
    the terminal view of each pane, the capture it is bootstrapped from, the
    output that arrives before its capture or before its inventory, the portals
    of nested connections, and the views a render in flight can still name.

    The view of a pane (src/src/view.rs) is the interface [PaneView]; what the
    theorems need of it is [PaneViewLaws], stated with the bytes a view has
    processed, and [LoggedView] is an instance.  A view's identity comes from
    one counter of the process: what creates a view is given the next identity.
    Pictures of the views ([compose]) belong to the presentation. *)

From S2P Require Import Prelude TmuxControl TmuxModel TmuxLayout.
Local Open Scope N_scope.

Definition MAX_PREBOOTSTRAP_BYTES : N := 4 * 1024 * 1024.
Definition MAX_ORPHAN_PANES : N := 4096.
Definition PANE_PORTAL_TEXT : bytes :=
  bs "tmux control mode is running." ++ [CR; LF] ++ bs "Press Enter to switch to the nested session in this pane.".

(** * Capture commands and their replay *)

Definition capture_command_for_state (pane_id : N) (alternate_on : bool) (pane_in_mode : N) (line_flags : bool) : bytes :=
  bs "capture-pane " ++ (if 0 <? pane_in_mode then bs "-M " else []) ++ bs "-p -e " ++
  (if line_flags then bs "-F " else []) ++ bs "-J " ++
  (if negb alternate_on && (pane_in_mode =? 0) then bs "-S - " else []) ++
  bs "-t %" ++ to_dec pane_id ++ [LF].

Definition capture_command (p : Pane) : bytes :=
  capture_command_for_state (TmuxModel.pane_id p) (alternate_on p) (pane_in_mode p) true.
Definition portable_capture_command (p : Pane) : bytes :=
  capture_command_for_state (TmuxModel.pane_id p) (alternate_on p) (pane_in_mode p) false.
Definition capture_command_for_metadata (m : PaneCaptureMetadata) : bytes :=
  capture_command_for_state (meta_pane_id m) (meta_alternate_on m) (meta_pane_in_mode m) true.
Definition portable_capture_command_for_metadata (m : PaneCaptureMetadata) : bytes :=
  capture_command_for_state (meta_pane_id m) (meta_alternate_on m) (meta_pane_in_mode m) false.
Definition pending_escape_capture_command (pane_id : N) : bytes :=
  bs "capture-pane -p -P -t %" ++ to_dec pane_id ++ [LF].

Record CaptureOutput := { capture_lines : list bytes; pending_escape : bytes; line_flags : bool }.

(** [-], [D], [O], [P], [X], [H] *)
Definition is_line_flag (c : byte) : bool :=
  (c =? 45) || (c =? 68) || (c =? 79) || (c =? 80) || (c =? 88) || (c =? 72).

Definition capture_line_flags (line : bytes) : bytes * bytes :=
  match position (N.eqb SP) line with
  | None => ([], line)
  | Some space =>
      let flags := take space line in
      if bool_decide (flags = []) || negb (forallb is_line_flag flags) then ([], line)
      else (flags, drop (S space) line)
  end.

Definition replayed_line (with_flags : bool) (line : bytes) : bytes :=
  let '(flags, contents) := if with_flags then capture_line_flags line else ([], line) in
  (if existsb (N.eqb 80) flags then ESC :: bs "]133;A" ++ ESC :: bs "\"
   else if existsb (N.eqb 79) flags then ESC :: bs "]133;C" ++ ESC :: bs "\" else []) ++ contents.

(** The loop over the lines: all but the first are preceded by CR LF. *)
Fixpoint replayed_lines (with_flags : bool) (first : bool) (lines : list bytes) : bytes :=
  match lines with
  | [] => []
  | line :: lines =>
      (if first then [] else [CR; LF]) ++ replayed_line with_flags line ++ replayed_lines with_flags false lines
  end.

Definition cursor_shape_code (shape : bytes) : N :=
  if bool_decide (shape = bs "underline") || bool_decide (shape = bs "2") then 4
  else if bool_decide (shape = bs "bar") || bool_decide (shape = bs "3") then 6 else 2.

Definition reconstruction_bytes (alternate_on : bool) (cursor_x cursor_y : N) (cursor_visible : bool)
    (cursor_shape : bytes) (capture : CaptureOutput) : bytes :=
  (if alternate_on then ESC :: bs "[?1049h" else []) ++
  (ESC :: bs "[2J") ++ (ESC :: bs "[H") ++
  replayed_lines (line_flags capture) true (capture_lines capture) ++
  (ESC :: bs "[" ++ to_dec (sat_add u32_max cursor_y 1) ++ bs ";" ++ to_dec (sat_add u32_max cursor_x 1) ++ bs "H") ++
  (if cursor_visible then ESC :: bs "[?25h" else ESC :: bs "[?25l") ++
  (ESC :: bs "[" ++ to_dec (cursor_shape_code cursor_shape) ++ bs " q") ++
  pending_escape capture.

Definition dimension (value : N) : N := N.max (if value <=? u16_max then value else u16_max) 1.

(** * The view of a pane *)

Class PaneView (V U : Type) := {
  view_new : N → N → N → V;                       (* identity, rows, columns *)
  view_id : V → N;
  process_changes : bytes → V → V;
  process_changes_with_batch : bytes → bool → V → V * U;
  discard_shadow_pty_replies : V → V;
  clear_update_summary : V → V;
  finalize_changes : N → V → V;
  enable_presentation_tracking_view : V → V;
  live_size : V → N * N;
  set_size : N → N → V → V;
  has_visible_non_whitespace_content : V → bool;
  holds_synchronized_output : V → bool
}.

(** What is relied on: identities never change, and the bytes a view has
    processed grow only by what it is given. *)
Class PaneViewLaws (V U : Type) `{PaneView V U} := {
  processed : V → bytes;
  new_id id r c : view_id (view_new id r c) = id;
  new_processed id r c : processed (view_new id r c) = [];
  process_id b v : view_id (process_changes b v) = view_id v;
  process_processed b v : processed (process_changes b v) = processed v ++ b;
  batch_id b k v : view_id (process_changes_with_batch b k v).1 = view_id v;
  batch_processed b k v : processed (process_changes_with_batch b k v).1 = processed v ++ b;
  discard_id v : view_id (discard_shadow_pty_replies v) = view_id v;
  discard_processed v : processed (discard_shadow_pty_replies v) = processed v;
  clear_id v : view_id (clear_update_summary v) = view_id v;
  clear_processed v : processed (clear_update_summary v) = processed v;
  finalize_id t v : view_id (finalize_changes t v) = view_id v;
  finalize_processed t v : processed (finalize_changes t v) = processed v;
  tracking_id v : view_id (enable_presentation_tracking_view v) = view_id v;
  tracking_processed v : processed (enable_presentation_tracking_view v) = processed v;
  resize_id r c v : view_id (set_size r c v) = view_id v;
  resize_processed r c v : processed (set_size r c v) = processed v
}.

(** * The set of panes *)

Inductive TmuxPaneError :=
| LayoutFailed (e : LayoutError)
| UnknownPane (id : N)
| PrebootstrapOutputTooLong
| TooManyPrebootstrapPanes
| MissingActiveWindow
| MissingLayout.

Record BootstrapRequest := { request_pane : N; request_command : bytes }.

(** The sum over the values of a map. *)
Definition total {A} (f : A → N) (m : gmap N A) : N := map_fold (λ _ x n, f x + n) 0 m.

Section Panes.
Context {V U : Type} `{PV : PaneView V U}.

Record PanePortal := { portal_connection : N; portal_view : V }.

Record PaneState := {
  view : V;
  pane_portal : option PanePortal;
  metadata : Pane;
  pane_surface : N;
  bootstrap_requested : bool;
  bootstrapped : bool;
  prebootstrap_output : bytes
}.

Record TmuxPaneSet := {
  connection_id : N;
  border_id : N;
  next_surface_id : N;
  panes : gmap N PaneState;
  retired_presentations : list V;
  orphan_output : gmap N bytes;
  prebootstrap_bytes : N;
  presentation_tracking : bool
}.

Definition surface_namespace (connection_id : N) : N :=
  N.lor 0x8000000000000000 (N.land ((connection_id * 0x100000000) mod 2 ^ 64) 0x7fffffff00000000).

Definition pane_set_new (connection_id : N) : TmuxPaneSet := {|
  connection_id := connection_id; border_id := surface_namespace connection_id;
  next_surface_id := sat_add u64_max (surface_namespace connection_id) 1;
  panes := ∅; retired_presentations := []; orphan_output := ∅; prebootstrap_bytes := 0;
  presentation_tracking := false
|}.

Definition track (tracking : bool) (v : V) : V := if tracking then enable_presentation_tracking_view v else v.

Definition retire (vs : list V) (s : TmuxPaneSet) : TmuxPaneSet :=
  if presentation_tracking s then s <| retired_presentations := retired_presentations s ++ vs |> else s.

Definition portal_views (st : PaneState) : list V := option_list (portal_view <$> pane_portal st).

Definition render_portal (v : V) : V :=
  process_changes ((ESC :: bs "[2J") ++ (ESC :: bs "[H") ++ PANE_PORTAL_TEXT) (clear_update_summary v).

(** ** Reconciliation with the topology *)

(** The first loop of [reconcile]: [removed] is the sum of the bytes released. *)
Definition remove_pane (acc : TmuxPaneSet * N) (id : N) : TmuxPaneSet * N :=
  let '(s, removed) := acc in
  match panes s !! id with
  | None => (s, removed)
  | Some st =>
      (retire (view st :: portal_views st) (s <| panes := delete id (panes s) |>),
       sat_add usize_max removed (len (prebootstrap_output st)))
  end.

Definition new_pane_state (fresh : N) (s : TmuxPaneSet) (p : Pane) : PaneState := {|
  view := track (presentation_tracking s) (view_new fresh (dimension (height p)) (dimension (width p)));
  pane_portal := None; metadata := p; pane_surface := next_surface_id s;
  bootstrap_requested := false; bootstrapped := false;
  prebootstrap_output := default [] (orphan_output s !! TmuxModel.pane_id p)
|}.

(** [entry(pane.id).or_insert_with(..)]; [fresh] is the next view identity. *)
Definition pane_entry (p : Pane) (fresh : N) (s : TmuxPaneSet) : PaneState * N * TmuxPaneSet :=
  match panes s !! TmuxModel.pane_id p with
  | Some st => (st, fresh, s)
  | None =>
      (new_pane_state fresh s p, fresh + 1,
       s <| next_surface_id := sat_add u64_max (next_surface_id s) 1 |>
         <| orphan_output := delete (TmuxModel.pane_id p) (orphan_output s) |>)
  end.

Definition resize_view (rows cols : N) (v : V) : V :=
  if bool_decide (live_size v = (rows, cols)) then v else set_size rows cols v.
Definition resize_portal (rows cols : N) (p : PanePortal) : PanePortal :=
  if bool_decide (live_size (portal_view p) = (rows, cols)) then p
  else {| portal_connection := portal_connection p; portal_view := render_portal (set_size rows cols (portal_view p)) |}.

Definition refresh_pane (p : Pane) (st : PaneState) : PaneState :=
  let rows := dimension (height p) in
  let cols := dimension (width p) in
  st <| view := resize_view rows cols (view st) |>
     <| pane_portal := resize_portal rows cols <$> pane_portal st |>
     <| metadata := p |>.

Definition wants_capture (st : PaneState) : bool := negb (bootstrapped st) && negb (bootstrap_requested st).

Definition reconcile_pane (acc : N * TmuxPaneSet * list BootstrapRequest) (p : Pane)
    : N * TmuxPaneSet * list BootstrapRequest :=
  let '(fresh, s, requests) := acc in
  let '(st, fresh, s) := pane_entry p fresh s in
  let st := refresh_pane p st in
  if wants_capture st
  then (fresh, s <| panes := <[TmuxModel.pane_id p := st <| bootstrap_requested := true |>]> (panes s) |>,
        requests ++ [{| request_pane := TmuxModel.pane_id p; request_command := capture_command p |}])
  else (fresh, s <| panes := <[TmuxModel.pane_id p := st]> (panes s) |>, requests).

Definition orphan_bytes (s : TmuxPaneSet) : N := total (λ b, len b) (orphan_output s).

(** The panes of a topology, in the order of their identities. *)
Definition topology_panes (t : TmuxTopology) : list Pane := omap (λ id, TmuxModel.panes t !! id) (btree_keys (TmuxModel.panes t)).

Definition reconcile (fresh : N) (t : TmuxTopology) (s : TmuxPaneSet) : N * TmuxPaneSet * list BootstrapRequest :=
  let removed_panes := List.filter (λ id, bool_decide (TmuxModel.panes t !! id = None)) (btree_keys (panes s)) in
  let '(s, removed_bytes) := fold_left remove_pane removed_panes (s, 0) in
  let s := s <| prebootstrap_bytes := prebootstrap_bytes s - removed_bytes |> in
  let '(fresh, s, requests) := fold_left reconcile_pane (topology_panes t) (fresh, s, []) in
  (fresh, s <| prebootstrap_bytes := prebootstrap_bytes s - orphan_bytes s |> <| orphan_output := ∅ |>,
   requests).

Definition track_pane (st : PaneState) : PaneState :=
  st <| view := enable_presentation_tracking_view (view st) |>
     <| pane_portal := (λ p, {| portal_connection := portal_connection p;
                                portal_view := enable_presentation_tracking_view (portal_view p) |}) <$> pane_portal st |>.
Definition enable_presentation_tracking (s : TmuxPaneSet) : TmuxPaneSet :=
  s <| presentation_tracking := true |> <| panes := track_pane <$> panes s |>.

(** ** Output *)

Definition buffered (total held : N) (b : bytes) : option N :=
  match checked_add usize_max total (len b), checked_add usize_max held (len b) with
  | Some next_total, Some next_len =>
      if (MAX_PREBOOTSTRAP_BYTES <? next_total) || (MAX_PREBOOTSTRAP_BYTES <? next_len) then None else Some next_total
  | _, _ => None
  end.

Definition process_orphan_output (id : N) (b : bytes) (s : TmuxPaneSet) : TmuxPaneSet * result TmuxPaneError (option U) :=
  if bool_decide (orphan_output s !! id = None) && (N.of_nat (size (orphan_output s)) =? MAX_ORPHAN_PANES)
  then (s, Err TooManyPrebootstrapPanes)
  else
    let output := default [] (orphan_output s !! id) in
    match buffered (prebootstrap_bytes s) (len output) b with
    | None => (s <| orphan_output := <[id := output]> (orphan_output s) |>, Err PrebootstrapOutputTooLong)
    | Some next_total =>
        (s <| orphan_output := <[id := output ++ b]> (orphan_output s) |> <| prebootstrap_bytes := next_total |>, Ok None)
    end.

Definition process_output_with_summary_retention (id : N) (b : bytes) (retain : bool) (s : TmuxPaneSet)
    : TmuxPaneSet * result TmuxPaneError (option U) :=
  match panes s !! id with
  | None => process_orphan_output id b s
  | Some st =>
      if negb (bootstrapped st)
      then match buffered (prebootstrap_bytes s) (len (prebootstrap_output st)) b with
           | None => (s, Err PrebootstrapOutputTooLong)
           | Some next_total =>
               (s <| panes := <[id := st <| prebootstrap_output := prebootstrap_output st ++ b |>]> (panes s) |>
                  <| prebootstrap_bytes := next_total |>, Ok None)
           end
      else
        let '(v, update) := process_changes_with_batch b retain (view st) in
        (s <| panes := <[id := st <| view := discard_shadow_pty_replies v |>]> (panes s) |>, Ok (Some update))
  end.
Definition process_output (id : N) (b : bytes) := process_output_with_summary_retention id b true.

(** ** Captures *)

Definition captured (st : PaneState) : PaneState := st <| bootstrapped := true |> <| bootstrap_requested := false |>.

(** The view an answer of tmux replaces the pane's view by, before it is
    finalized; [buffered] is what arrived before it. *)
Definition reconstructed (fresh : N) (m : Pane) (output : list bytes) (with_flags : bool) (buffered : bytes) : V :=
  let v := view_new fresh (dimension (height m)) (dimension (width m)) in
  let v := process_changes
    (reconstruction_bytes (alternate_on m) (cursor_x m) (cursor_y m) (cursor_visible m) (cursor_shape m)
       {| capture_lines := output; pending_escape := []; line_flags := with_flags |}) v in
  let v := if negb (has_visible_non_whitespace_content v) && negb (bool_decide (buffered = []))
           then process_changes buffered v else v in
  discard_shadow_pty_replies v.

Definition apply_bootstrap_with_line_flags (fresh id : N) (status : CommandStatus) (output : list bytes)
    (with_flags : bool) (now : N) (s : TmuxPaneSet) : N * TmuxPaneSet * result TmuxPaneError unit :=
  match panes s !! id with
  | None => (fresh, s, Err (UnknownPane id))
  | Some st =>
      let held := prebootstrap_output st in
      let s := s <| prebootstrap_bytes := prebootstrap_bytes s - len held |> in
      let st := captured st <| prebootstrap_output := [] |> in
      match status with
      | Error =>
          let st := st <| view := discard_shadow_pty_replies (process_changes held (view st)) |> in
          (fresh, s <| panes := <[id := st]> (panes s) |>, Ok ())
      | Success =>
          let v := track (presentation_tracking s) (finalize_changes now (reconstructed fresh (metadata st) output with_flags held)) in
          (fresh + 1, retire [view st] (s <| panes := <[id := st <| view := v |>]> (panes s) |>), Ok ())
      end
  end.
Definition apply_bootstrap (fresh id : N) (status : CommandStatus) (output : list bytes) (now : N) :=
  apply_bootstrap_with_line_flags fresh id status output true now.

Definition update_metadata (m : PaneCaptureMetadata) (p : Pane) : Pane :=
  p <| left := meta_left m |> <| top := meta_top m |> <| width := meta_width m |> <| height := meta_height m |>
    <| dead := meta_dead m |> <| cursor_x := meta_cursor_x m |> <| cursor_y := meta_cursor_y m |>
    <| cursor_visible := meta_cursor_visible m |> <| cursor_shape := meta_cursor_shape m |>
    <| alternate_on := meta_alternate_on m |> <| pane_in_mode := meta_pane_in_mode m |>
    <| history_size := meta_history_size m |>.

Definition apply_resync_capture_with_line_flags (fresh : N) (m : PaneCaptureMetadata) (output : list bytes)
    (pending : bytes) (with_flags : bool) (now : N) (s : TmuxPaneSet) : N * TmuxPaneSet * result TmuxPaneError unit :=
  match panes s !! meta_pane_id m with
  | None => (fresh, s, Err (UnknownPane (meta_pane_id m)))
  | Some st =>
      let v := view_new fresh (dimension (meta_height m)) (dimension (meta_width m)) in
      let v := process_changes
        (reconstruction_bytes (meta_alternate_on m) (meta_cursor_x m) (meta_cursor_y m) (meta_cursor_visible m)
           (meta_cursor_shape m) {| capture_lines := output; pending_escape := pending; line_flags := with_flags |}) v in
      let v := track (presentation_tracking s) (finalize_changes now (discard_shadow_pty_replies v)) in
      let st' := captured st <| metadata := update_metadata m (metadata st) |> <| view := v |> in
      (fresh + 1, retire [view st] (s <| panes := <[meta_pane_id m := st']> (panes s) |>), Ok ())
  end.
Definition apply_resync_capture (fresh : N) (m : PaneCaptureMetadata) (output : list bytes) (pending : bytes) (now : N) :=
  apply_resync_capture_with_line_flags fresh m output pending true now.

(** ** Portals of nested connections *)

Definition set_pane_portal (fresh id target : N) (s : TmuxPaneSet) : N * TmuxPaneSet * result TmuxPaneError unit :=
  match panes s !! id with
  | None => (fresh, s, Err (UnknownPane id))
  | Some st =>
      let v := clear_update_summary (view st) in
      let '(rows, cols) := live_size v in
      let s := match pane_portal st with Some p => retire [portal_view p] s | None => s end in
      let portal := render_portal (track (presentation_tracking s) (view_new fresh rows cols)) in
      let st := st <| view := v |>
                   <| pane_portal := Some {| portal_connection := target; portal_view := portal |} |> in
      (fresh + 1, s <| panes := <[id := st]> (panes s) |>, Ok ())
  end.

Definition clear_pane_portal (id target : N) (s : TmuxPaneSet) : TmuxPaneSet :=
  match panes s !! id with
  | None => s
  | Some st =>
      match pane_portal st with
      | Some p =>
          if portal_connection p =? target
          then retire [portal_view p]
                 (s <| panes := <[id := st <| view := clear_update_summary (view st) |> <| pane_portal := None |>]> (panes s) |>)
          else s
      | None => s
      end
  end.

Definition pane_portal_target (id : N) (s : TmuxPaneSet) : option N :=
  st ← panes s !! id; portal_connection <$> pane_portal st.

(** ** Presentation *)

Definition presented_view (st : PaneState) : V :=
  match pane_portal st with Some p => portal_view p | None => view st end.

(** What both [capture_*_presentation_frames] name: the view of the active
    pane, and the surface and view of each pane of the layout. *)
Definition capture_presentation_frames (layout : TmuxLayout) (active_pane : option N) (s : TmuxPaneSet)
    : option N * list (N * N) :=
  fold_left (λ acc p,
    match panes s !! TmuxLayout.pane_id p with
    | None => acc
    | Some st =>
        let id := view_id (presented_view st) in
        (if bool_decide (Some (TmuxLayout.pane_id p) = active_pane) then Some id else acc.1, acc.2 ++ [(pane_surface st, id)])
    end) (TmuxLayout.panes layout) (None, []).

Definition visible_holds_synchronized_output (layout : TmuxLayout) (s : TmuxPaneSet) : bool :=
  existsb (λ p, match panes s !! TmuxLayout.pane_id p with
                | Some st => holds_synchronized_output (presented_view st)
                | None => false
                end) (TmuxLayout.panes layout).

Definition pane_views (st : PaneState) : list V := view st :: portal_views st.
(** The order of [visit_presentation_views_mut] and [model_by_id_mut]. *)
Definition presentation_views (s : TmuxPaneSet) : list V :=
  mjoin (pane_views <$> omap (λ id, panes s !! id) (btree_keys (panes s))) ++ retired_presentations s.

Definition model_by_id (id : N) (s : TmuxPaneSet) : option V :=
  snd <$> list_find (λ v, view_id v = id) (presentation_views s).

Definition retain_accessibility_views (retained : list N) (s : TmuxPaneSet) : TmuxPaneSet :=
  s <| retired_presentations := List.filter (λ v, bool_decide (view_id v ∈ retained)) (retired_presentations s) |>.

Definition clear_pane_summaries (st : PaneState) : PaneState :=
  st <| view := clear_update_summary (view st) |>
     <| pane_portal := (λ p, {| portal_connection := portal_connection p;
                                portal_view := clear_update_summary (portal_view p) |}) <$> pane_portal st |>.
Definition clear_update_summaries (s : TmuxPaneSet) : TmuxPaneSet := s <| panes := clear_pane_summaries <$> panes s |>.

Definition surface_id (id : N) (s : TmuxPaneSet) : option N := pane_surface <$> panes s !! id.
Definition pane_is_bootstrapped (id : N) (s : TmuxPaneSet) : bool :=
  match panes s !! id with Some st => bootstrapped st | None => false end.

(** * Everything that happens to a set *)

Inductive Event :=
| Reconcile (t : TmuxTopology)
| EnableTracking
| Output (id : N) (b : bytes) (retain : bool)
| Bootstrap (id : N) (status : CommandStatus) (output : list bytes) (with_flags : bool) (now : N)
| Resync (m : PaneCaptureMetadata) (output : list bytes) (pending : bytes) (with_flags : bool) (now : N)
| SetPortal (id target : N)
| ClearPortal (id target : N)
| RetainViews (retained : list N)
| ClearSummaries.

Definition step (e : Event) (w : N * TmuxPaneSet) : N * TmuxPaneSet :=
  let '(fresh, s) := w in
  match e with
  | Reconcile t => (reconcile fresh t s).1
  | EnableTracking => (fresh, enable_presentation_tracking s)
  | Output id b retain => (fresh, (process_output_with_summary_retention id b retain s).1)
  | Bootstrap id status output flags now => (apply_bootstrap_with_line_flags fresh id status output flags now s).1
  | Resync m output pending flags now => (apply_resync_capture_with_line_flags fresh m output pending flags now s).1
  | SetPortal id target => (set_pane_portal fresh id target s).1
  | ClearPortal id target => (fresh, clear_pane_portal id target s)
  | RetainViews retained => (fresh, retain_accessibility_views retained s)
  | ClearSummaries => (fresh, clear_update_summaries s)
  end.
Definition run (es : list Event) (w : N * TmuxPaneSet) : N * TmuxPaneSet := fold_left (λ w e, step e w) es w.

End Panes.
Arguments PanePortal V : clear implicits.
Arguments PaneState V : clear implicits.
Arguments TmuxPaneSet V : clear implicits.

(** * Sums over maps *)

Lemma total_insert_fresh {A} (f : A → N) m k x : m !! k = None → total f (<[k := x]> m) = f x + total f m.
Proof. intros Hk. unfold total. rewrite map_fold_insert_L; [done|intros; lia|done]. Qed.
Lemma total_delete {A} (f : A → N) m k x : m !! k = Some x → total f m = f x + total f (delete k m).
Proof. intros Hk. unfold total. rewrite (map_fold_delete_L _ _ k x m); [done|intros; lia|done]. Qed.
Lemma total_insert {A} (f : A → N) m k x y : m !! k = Some y → total f (<[k := x]> m) + f y = total f m + f x.
Proof.
  intros Hk. rewrite <-insert_delete_eq, total_insert_fresh by apply lookup_delete_eq.
  rewrite (total_delete f m k y Hk). lia.
Qed.
Lemma total_insert_same {A} (f : A → N) m k x y : m !! k = Some y → f x = f y → total f (<[k := x]> m) = total f m.
Proof. intros Hk Hf. pose proof (total_insert f m k x y Hk). lia. Qed.
Lemma total_fmap {A} (f : A → N) (g : A → A) m : (∀ x, f (g x) = f x) → total f (g <$> m) = total f m.
Proof.
  intros Hg. induction m as [|k x m Hk _ IH] using map_first_key_ind.
  - by rewrite fmap_empty.
  - rewrite fmap_insert, !total_insert_fresh; [congruence|done|]. by rewrite lookup_fmap, Hk.
Qed.
Lemma total_empty {A} (f : A → N) : total f ∅ = 0.
Proof. done. Qed.
Lemma total_lookup_le {A} (f : A → N) m k x : m !! k = Some x → f x ≤ total f m.
Proof. intros Hk. rewrite (total_delete f m k x Hk). lia. Qed.

(** * Byte accounts *)

#[local] Arguments N.add : simpl never.
#[local] Arguments N.sub : simpl never.

Section Accounts.
Context {V U : Type} `{PV : PaneView V U}.
Implicit Types (s : TmuxPaneSet V) (st : PaneState V).

Definition early_bytes (st : PaneState V) : N := len (prebootstrap_output st).
Definition held (s : TmuxPaneSet V) : N := total early_bytes (panes s).

(** [released] bytes belong to panes that are gone but are still counted. *)
Record accounted (released : N) (s : TmuxPaneSet V) : Prop := {
  wf_keys : ∀ id st, panes s !! id = Some st → TmuxModel.pane_id (metadata st) = id;
  wf_account : prebootstrap_bytes s = orphan_bytes s + held s + released;
  wf_bound : prebootstrap_bytes s ≤ MAX_PREBOOTSTRAP_BYTES;
  wf_orphans : N.of_nat (size (orphan_output s)) ≤ MAX_ORPHAN_PANES
}.
Definition well_formed : TmuxPaneSet V → Prop := accounted 0.

Lemma retire_fields vs s :
  panes (retire vs s) = panes s ∧ orphan_output (retire vs s) = orphan_output s ∧
  prebootstrap_bytes (retire vs s) = prebootstrap_bytes s ∧ next_surface_id (retire vs s) = next_surface_id s ∧
  presentation_tracking (retire vs s) = presentation_tracking s ∧ connection_id (retire vs s) = connection_id s.
Proof. unfold retire. by destruct (presentation_tracking s) eqn:E. Qed.

Lemma retire_ok r vs s : accounted r s → accounted r (retire vs s).
Proof.
  intros [Hk Ha Hb Ho]. destruct (retire_fields vs s) as (E1 & E2 & E3 & _).
  split; unfold orphan_bytes, held in *; rewrite ?E1, ?E2, ?E3; auto.
Qed.

(** Replacing a pane by one of the same identity that holds [n] bytes. *)
Lemma put_pane_ok s id st st' n :
  well_formed s → panes s !! id = Some st → TmuxModel.pane_id (metadata st') = id →
  len (prebootstrap_output st') + prebootstrap_bytes s = n + len (prebootstrap_output st) →
  n ≤ MAX_PREBOOTSTRAP_BYTES →
  well_formed (s <| panes := <[id := st']> (panes s) |> <| prebootstrap_bytes := n |>).
Proof.
  intros [Hk Ha Hb Ho] Hst Hid Hn Hmax. split; cbn.
  - intros id' st0. destruct (decide (id = id')) as [<-|Hne].
    + rewrite lookup_insert_eq. by intros [= <-].
    + rewrite lookup_insert_ne by done. apply Hk.
  - unfold orphan_bytes, held in *. pose proof (total_insert early_bytes _ _ st' _ Hst).
    destruct s; cbn in *. unfold early_bytes in *. lia.
  - done.
  - done.
Qed.

Lemma buffered_Some total h b n : buffered total h b = Some n → n = total + len b ∧ n ≤ MAX_PREBOOTSTRAP_BYTES.
Proof.
  unfold buffered, checked_add.
  destruct (total + len b <=? usize_max) eqn:E1; [|done]. destruct (h + len b <=? usize_max) eqn:E2; [|done].
  destruct (MAX_PREBOOTSTRAP_BYTES <? total + len b) eqn:E3; cbn; [done|].
  destruct (MAX_PREBOOTSTRAP_BYTES <? h + len b); [done|]. intros [= <-]. lia.
Qed.

Lemma put_orphan_ok s id b n :
  well_formed s → (orphan_output s !! id = None → N.of_nat (size (orphan_output s)) ≠ MAX_ORPHAN_PANES) →
  n + len (default [] (orphan_output s !! id)) = prebootstrap_bytes s + len b → n ≤ MAX_PREBOOTSTRAP_BYTES →
  well_formed (s <| orphan_output := <[id := b]> (orphan_output s) |> <| prebootstrap_bytes := n |>).
Proof.
  intros [Hk Ha Hb Ho] Hsize Hn Hmax. split; cbn; [done| |done|].
  - unfold orphan_bytes, held in *. destruct (orphan_output s !! id) as [y|] eqn:Hy.
    + pose proof (total_insert (λ b, len b) _ _ b _ Hy). destruct s; cbn in *. lia.
    + pose proof (total_insert_fresh (λ b, len b) _ _ b Hy). destruct s; cbn in *. lia.
  - destruct (orphan_output s !! id) as [y|] eqn:Hy.
    + rewrite map_size_insert_Some by eauto. done.
    + rewrite map_size_insert_None by done. specialize (Hsize eq_refl). lia.
Qed.

Lemma output_ok id b retain s : well_formed s → well_formed (process_output_with_summary_retention id b retain s).1.
Proof.
  intros Hs. unfold process_output_with_summary_retention. destruct (panes s !! id) as [st|] eqn:Hst.
  - pose proof (wf_keys 0 s Hs id st Hst) as Hid. destruct (bootstrapped st) eqn:Hb; cbn.
    + destruct (process_changes_with_batch b retain (view st)) as [v u]; cbn.
      eapply (put_pane_ok s id st _ (prebootstrap_bytes s)); cbn; [done..|destruct st; cbn; lia|apply Hs].
    + destruct (buffered _ _ _) as [n|] eqn:Hn; cbn; [|done]. apply buffered_Some in Hn as [-> Hn].
      apply (put_pane_ok s id st _ (prebootstrap_bytes s + len b)); [done..|destruct st; cbn in *; rewrite length_app; lia|done].
  - unfold process_orphan_output. destruct (bool_decide _ && _) eqn:Hfull; cbn; [done|].
    assert (orphan_output s !! id = None → N.of_nat (size (orphan_output s)) ≠ MAX_ORPHAN_PANES) as Hroom.
    { intros E. rewrite bool_decide_eq_true_2 in Hfull by done. cbn in Hfull. lia. }
    destruct (buffered _ _ _) as [n|] eqn:Hn; cbn.
    + apply buffered_Some in Hn as [-> Hn]. apply (put_orphan_ok s id _ (prebootstrap_bytes s + len b)); [done..|rewrite length_app; lia|done].
    + apply (put_orphan_ok s id _ (prebootstrap_bytes s)); [done..|lia|apply Hs].
Qed.

Lemma remove_pane_ok acc id : accounted acc.2 acc.1 → accounted (remove_pane acc id).2 (remove_pane acc id).1.
Proof.
  destruct acc as [s r]; cbn. intros Hs. destruct (panes s !! id) as [st|] eqn:Hst; [|done]. cbn.
  apply retire_ok. destruct Hs as [Hk Ha Hb Ho].
  unfold orphan_bytes, held in *. pose proof (total_delete early_bytes _ _ _ Hst) as Ht. unfold early_bytes in Ht at 2.
  assert (sat_add usize_max r (len (prebootstrap_output st)) = r + len (prebootstrap_output st)) as ->.
  { unfold sat_add, usize_max, u64_max. unfold MAX_PREBOOTSTRAP_BYTES in Hb. lia. }
  destruct s; cbn in *. split; cbn; [|unfold orphan_bytes, held; cbn; lia|done..].
  intros id' st' [_ H]%lookup_delete_Some. by apply Hk.
Qed.

Lemma remove_panes_ok ids acc :
  accounted acc.2 acc.1 → accounted (fold_left remove_pane ids acc).2 (fold_left remove_pane ids acc).1.
Proof. revert acc. induction ids as [|id ids IH]; intros acc Hs; cbn; [done|]. by apply IH, remove_pane_ok. Qed.

Lemma pane_entry_put r p fresh s st fresh' s' st' :
  accounted r s → pane_entry p fresh s = (st, fresh', s') →
  metadata st' = p → prebootstrap_output st' = prebootstrap_output st →
  accounted r (s' <| panes := <[TmuxModel.pane_id p := st']> (panes s') |>).
Proof.
  intros [Hk Ha Hb Ho] He Hm Hp. unfold orphan_bytes, held in *.
  assert (∀ id st0, <[TmuxModel.pane_id p := st']> (panes s) !! id = Some st0 → TmuxModel.pane_id (metadata st0) = id) as Hk'.
  { intros id st0 [[<- <-]|[_ H]]%lookup_insert_Some; [congruence|by apply Hk]. }
  unfold pane_entry in He. destruct (panes s !! TmuxModel.pane_id p) as [st1|] eqn:Hst.
  - injection He as -> -> ->. pose proof (total_insert early_bytes _ _ st' _ Hst) as Ht.
    unfold early_bytes in Ht at 2 4. rewrite Hp in Ht.
    destruct s'; cbn in *. split; unfold orphan_bytes, held; cbn; [done|lia|done..].
  - injection He as <- <- <-. pose proof (total_insert_fresh early_bytes _ _ st' Hst) as Ht.
    unfold early_bytes in Ht at 2. rewrite Hp in Ht. cbn [new_pane_state prebootstrap_output] in Ht.
    destruct (orphan_output s !! TmuxModel.pane_id p) as [b|] eqn:Hb'.
    + pose proof (total_delete (λ b, len b) _ _ _ Hb') as Hd. pose proof (map_size_delete_Some _ _ (mk_is_Some _ _ Hb')) as Hz.
      destruct s; cbn in *. split; unfold orphan_bytes, held; cbn; [done|lia|done|lia].
    + rewrite <-(delete_id (orphan_output s) (TmuxModel.pane_id p)) in Ha, Ho by done.
      destruct s; cbn in *. split; unfold orphan_bytes, held; cbn; [done|lia|done|lia].
Qed.

Lemma reconcile_pane_put acc p : ∃ st fresh s st',
  pane_entry p acc.1.1 acc.1.2 = (st, fresh, s) ∧ metadata st' = p ∧ prebootstrap_output st' = prebootstrap_output st ∧
  st' = (if wants_capture (refresh_pane p st) then (refresh_pane p st) <| bootstrap_requested := true |> else refresh_pane p st) ∧
  (reconcile_pane acc p).1 = (fresh, s <| panes := <[TmuxModel.pane_id p := st']> (panes s) |>) ∧
  (reconcile_pane acc p).2 = acc.2 ++
    (if wants_capture (refresh_pane p st) then [{| request_pane := TmuxModel.pane_id p; request_command := capture_command p |}] else []).
Proof.
  destruct acc as [[fresh s] rs]; cbn. destruct (pane_entry p fresh s) as [[st fresh'] s'] eqn:He.
  exists st, fresh', s'. eexists. split; [done|]. split; [|split; [|split; [reflexivity|]]].
  - destruct (wants_capture _); by destruct st.
  - destruct (wants_capture _); by destruct st.
  - destruct (wants_capture _); cbn; [done|]. by rewrite app_nil_r.
Qed.

Lemma reconcile_pane_ok r acc p : accounted r acc.1.2 → accounted r (reconcile_pane acc p).1.2.
Proof.
  intros Hs. destruct (reconcile_pane_put acc p) as (st & fresh & s & st' & He & Hm & Hp & _ & -> & _). cbn.
  by eapply pane_entry_put.
Qed.

Lemma reconcile_panes_ok r ps acc : accounted r acc.1.2 → accounted r (fold_left reconcile_pane ps acc).1.2.
Proof. revert acc. induction ps as [|p ps IH]; intros acc Hs; cbn; [done|]. by apply IH, reconcile_pane_ok. Qed.

Lemma reconcile_ok fresh t s : well_formed s → well_formed (reconcile fresh t s).1.2.
Proof.
  intros Hs. unfold reconcile. set (removed := List.filter _ _).
  pose proof (remove_panes_ok removed (s, 0) Hs) as Hr.
  destruct (fold_left remove_pane removed (s, 0)) as [s1 n]; cbn in Hr.
  assert (accounted 0 (s1 <| prebootstrap_bytes := prebootstrap_bytes s1 - n |>)) as Hs1.
  { destruct Hr as [Hk Ha Hb Ho]. unfold orphan_bytes, held in *.
    destruct s1; cbn in *. split; unfold orphan_bytes, held; cbn; [done|lia|lia|done]. }
  pose proof (reconcile_panes_ok 0 (topology_panes t) (fresh, _, []) Hs1) as H2.
  destruct (fold_left reconcile_pane _ _) as [[f s2] rs]. cbn in H2 |- *.
  destruct H2 as [Hk Ha Hb Ho]. unfold orphan_bytes, held in *.
  destruct s2; cbn in *. split; unfold orphan_bytes, held; cbn; [done| |lia|by rewrite map_size_empty].
  rewrite total_empty. lia.
Qed.

(** Replacing a pane by one that holds the same bytes. *)
Lemma keep_pane_ok r s id st st' :
  accounted r s → panes s !! id = Some st → TmuxModel.pane_id (metadata st') = id →
  prebootstrap_output st' = prebootstrap_output st → accounted r (s <| panes := <[id := st']> (panes s) |>).
Proof.
  intros [Hk Ha Hb Ho] Hst Hid Hp. unfold orphan_bytes, held in *.
  assert (∀ i st0, <[id := st']> (panes s) !! i = Some st0 → TmuxModel.pane_id (metadata st0) = i) as Hk'.
  { intros i st0 [[<- <-]|[_ H]]%lookup_insert_Some; [done|by apply Hk]. }
  rewrite <-(total_insert_same early_bytes _ id st' st Hst) in Ha by (unfold early_bytes; by rewrite Hp).
  destruct s; cbn in *. split; unfold orphan_bytes, held; cbn; done.
Qed.

Lemma map_panes_ok r s f : accounted r s → (∀ st, metadata (f st) = metadata st) →
  (∀ st, prebootstrap_output (f st) = prebootstrap_output st) → accounted r (s <| panes := f <$> panes s |>).
Proof.
  intros [Hk Ha Hb Ho] Hm Hp. unfold orphan_bytes, held in *.
  assert (∀ i st0, (f <$> panes s) !! i = Some st0 → TmuxModel.pane_id (metadata st0) = i) as Hk'.
  { intros i st0. rewrite lookup_fmap. intros (st & H & ->)%fmap_Some. rewrite Hm. by apply Hk. }
  rewrite <-(total_fmap early_bytes f) in Ha by (intros st; unfold early_bytes; by rewrite Hp).
  destruct s; cbn in *. split; unfold orphan_bytes, held; cbn; done.
Qed.

Lemma bootstrap_ok fresh id status output flags now s :
  well_formed s → well_formed (apply_bootstrap_with_line_flags fresh id status output flags now s).1.2.
Proof.
  intros Hs. unfold apply_bootstrap_with_line_flags. destruct (panes s !! id) as [st|] eqn:Hst; [|done].
  pose proof (wf_keys 0 s Hs id st Hst) as Hid.
  assert (∀ st', metadata st' = metadata st → prebootstrap_output st' = [] →
    well_formed (s <| prebootstrap_bytes := prebootstrap_bytes s - len (prebootstrap_output st) |>
                   <| panes := <[id := st']> (panes s) |>)) as Hput.
  { intros st' Hm Hp. destruct Hs as [Hk Ha Hb Ho]. unfold orphan_bytes, held in *.
    assert (∀ i st0, <[id := st']> (panes s) !! i = Some st0 → TmuxModel.pane_id (metadata st0) = i) as Hk'.
    { intros i st0 [[<- <-]|[_ H]]%lookup_insert_Some; [by rewrite Hm|by apply Hk]. }
    pose proof (total_insert early_bytes _ id st' st Hst) as Ht. unfold early_bytes in Ht at 2 4.
    rewrite Hp in Ht. cbn [length] in Ht. destruct s; cbn in *. split; unfold orphan_bytes, held; cbn; [done|lia|lia|done]. }
  destruct status; cbn [fst snd]; [apply retire_ok|]; (eapply Hput; by destruct st).
Qed.

Lemma resync_ok fresh m output pending flags now s :
  well_formed s → well_formed (apply_resync_capture_with_line_flags fresh m output pending flags now s).1.2.
Proof.
  intros Hs. unfold apply_resync_capture_with_line_flags. destruct (panes s !! meta_pane_id m) as [st|] eqn:Hst; [|done].
  pose proof (wf_keys 0 s Hs _ _ Hst) as Hid.
  cbn [fst snd]. apply retire_ok. eapply keep_pane_ok; [done..| |by destruct st].
  destruct st as [? ? meta]; cbn in *. by destruct meta.
Qed.

Lemma portal_ok fresh id target s : well_formed s → well_formed (set_pane_portal fresh id target s).1.2.
Proof.
  intros Hs. unfold set_pane_portal. destruct (panes s !! id) as [st|] eqn:Hst; [|done].
  pose proof (wf_keys 0 s Hs _ _ Hst) as Hid. destruct (live_size _) as [rows cols].
  set (s' := match pane_portal st with Some _ => _ | None => _ end).
  assert (well_formed s' ∧ panes s' = panes s) as [Hs' Hp].
  { unfold s'. destruct (pane_portal st); [|done]. split; [by apply retire_ok|apply retire_fields]. }
  cbn [fst snd]. eapply (keep_pane_ok 0 s' id st); [done|by rewrite Hp|by destruct st..].
Qed.

Lemma clear_portal_ok id target s : well_formed s → well_formed (clear_pane_portal id target s).
Proof.
  intros Hs. unfold clear_pane_portal. destruct (panes s !! id) as [st|] eqn:Hst; [|done].
  pose proof (wf_keys 0 s Hs _ _ Hst) as Hid. destruct (pane_portal st) as [p|]; [|done].
  destruct (_ =? _); [|done]. apply retire_ok. eapply keep_pane_ok; [done..| |]; by destruct st.
Qed.

Lemma panes_step_ok e w : well_formed w.2 → well_formed (step e w).2.
Proof.
  destruct w as [fresh s]; cbn [snd]. intros Hs. destruct e; cbn [step].
  - by apply reconcile_ok.
  - set (s' := s <| presentation_tracking := true |>).
    assert (enable_presentation_tracking s = (s' <| panes := track_pane <$> panes s' |>)) as -> by (by destruct s).
    apply (map_panes_ok 0 s' track_pane); [|by intros []..].
    destruct Hs as [Hk Ha Hb Ho]. unfold orphan_bytes, held in *. destruct s; cbn in *. by split.
  - by apply output_ok.
  - by apply bootstrap_ok.
  - by apply resync_ok.
  - by apply portal_ok.
  - by apply clear_portal_ok.
  - destruct Hs as [Hk Ha Hb Ho]. unfold orphan_bytes, held in *. destruct s; cbn in *. by split.
  - by apply (map_panes_ok 0 s clear_pane_summaries); [done|intros []..].
Qed.

Lemma panes_run_ok es w : well_formed w.2 → well_formed (run es w).2.
Proof. revert w. unfold run. induction es as [|e es IH]; intros w Hw; cbn [fold_left]; [done|]. by apply IH, panes_step_ok. Qed.

Lemma new_ok id : well_formed (pane_set_new id).
Proof. split; cbn; [intros ? ?; by rewrite lookup_empty|done..]. Qed.

(** Whatever happens to a set of panes, the bytes it counts are exactly the
    bytes it holds for panes that are not known or not captured yet, at most
    four mebibytes, for at most 4096 unknown panes; so no subtraction of the
    code loses a byte of the account. *)
Theorem early_output_is_accounted_for fresh id es :
  let s := (run es (fresh, pane_set_new id)).2 in
  prebootstrap_bytes s = orphan_bytes s + held s ∧ prebootstrap_bytes s ≤ MAX_PREBOOTSTRAP_BYTES ∧
  N.of_nat (size (orphan_output s)) ≤ MAX_ORPHAN_PANES ∧
  ∀ i st, panes s !! i = Some st → TmuxModel.pane_id (metadata st) = i.
Proof.
  destruct (panes_run_ok es (fresh, pane_set_new id) (new_ok id)) as [Hk Ha Hb Ho].
  rewrite N.add_0_r in Ha. done.
Qed.
End Accounts.

(** * Views stay addressable *)

Section Addressing.
Context {V U : Type} `{PL : PaneViewLaws V U}.
Implicit Types (s : TmuxPaneSet V) (st : PaneState V).

Definition pane_ids (st : PaneState V) : list N := view_id <$> pane_views st.
Definition retired_ids (s : TmuxPaneSet V) : list N := view_id <$> retired_presentations s.
Definition owned (i : N) (s : TmuxPaneSet V) : Prop :=
  (∃ id st, panes s !! id = Some st ∧ i ∈ pane_ids st) ∨ i ∈ retired_ids s.

Lemma owned_presentation i s : owned i s ↔ i ∈ (view_id <$> presentation_views s).
Proof.
  unfold presentation_views. rewrite fmap_app, elem_of_app. unfold owned, retired_ids.
  assert ((∃ id st, panes s !! id = Some st ∧ i ∈ pane_ids st) ↔
          i ∈ (view_id <$> mjoin (pane_views <$> omap (λ id, panes s !! id) (btree_keys (panes s))))) as ->; [|done].
  unfold pane_ids. rewrite list_elem_of_fmap. setoid_rewrite list_elem_of_join. setoid_rewrite list_elem_of_fmap.
  setoid_rewrite list_elem_of_omap. setoid_rewrite elem_of_btree_keys. split.
  - intros (id & st & Hst & v & -> & Hv). exists v. split; [done|]. exists (pane_views st).
    split; [done|]. exists st. split; [done|]. exists id. split; [by eexists|done].
  - intros (v & -> & vs & Hv & st & -> & id & _ & Hst). exists id, st. split; [done|]. by exists v.
Qed.

Lemma model_by_id_spec i s : is_Some (model_by_id i s) ↔ owned i s.
Proof.
  rewrite owned_presentation, list_elem_of_fmap. unfold model_by_id. rewrite fmap_is_Some. split.
  - intros [[k v] (Hv & <- & _)%list_find_Some]. exists v. split; [done|]. by eapply list_elem_of_lookup_2.
  - intros (v & -> & Hv). eapply list_find_elem_of; [done|]. done.
Qed.

Lemma owned_put i id st st' s s' :
  owned i s → panes s !! id = Some st → panes s' = <[id := st']> (panes s) →
  (i ∈ pane_ids st → i ∈ pane_ids st' ∨ i ∈ retired_ids s') → (i ∈ retired_ids s → i ∈ retired_ids s') → owned i s'.
Proof.
  intros [(id0 & st0 & H0 & Hi)|Hi] Hst Hp Hids Hret; [|right; auto].
  destruct (decide (id0 = id)) as [->|Hne].
  - simplify_eq. destruct (Hids Hi); [left|by right]. exists id, st'. rewrite Hp. by rewrite lookup_insert_eq.
  - left. exists id0, st0. rewrite Hp. by rewrite lookup_insert_ne.
Qed.

Lemma retire_retired vs s :
  presentation_tracking s = true → retired_ids (retire vs s) = retired_ids s ++ (view_id <$> vs).
Proof. intros Ht. unfold retire, retired_ids. rewrite Ht, <-fmap_app. by destruct s. Qed.

Lemma track_id b v : view_id (track b v) = view_id v.
Proof. unfold track. destruct b; [apply tracking_id|done]. Qed.
Lemma render_id v : view_id (render_portal v) = view_id v.
Proof. unfold render_portal. by rewrite process_id, clear_id. Qed.

Lemma pane_ids_eq st : pane_ids st = view_id (view st) :: option_list (view_id ∘ portal_view <$> pane_portal st).
Proof. unfold pane_ids, pane_views, portal_views. cbn [fmap list_fmap]. by destruct (pane_portal st). Qed.

Lemma refresh_ids p st : pane_ids (refresh_pane p st) = pane_ids st.
Proof.
  rewrite !pane_ids_eq. destruct st as [v [q|]]; cbn; f_equal; unfold resize_view, resize_portal;
    repeat case_bool_decide; cbn; rewrite ?render_id, ?resize_id; done.
Qed.
Lemma owned_remove acc id i :
  presentation_tracking acc.1 = true → owned i acc.1 →
  owned i (remove_pane acc id).1 ∧ presentation_tracking (remove_pane acc id).1 = true.
Proof.
  destruct acc as [s r]; cbn [fst]. intros Ht Hi. unfold remove_pane.
  destruct (panes s !! id) as [st|] eqn:Hst; [|done]. cbn [fst].
  set (s' := s <| panes := delete id (panes s) |>).
  assert (presentation_tracking s' = true) as Ht' by (by destruct s).
  destruct (retire_fields (view st :: portal_views st) s') as (Hp & _ & _ & _ & -> & _). split; [|done].
  unfold owned. rewrite Hp, (retire_retired _ _ Ht').
  assert (retired_ids s' = retired_ids s ∧ panes s' = delete id (panes s)) as [-> ->] by (by destruct s).
  rewrite elem_of_app. destruct Hi as [(id0 & st0 & H0 & Hi)|Hi]; [|auto].
  destruct (decide (id0 = id)) as [->|Hne].
  - simplify_eq. right. right. exact Hi.
  - left. exists id0, st0. by rewrite lookup_delete_ne.
Qed.

Lemma owned_remove_all ids acc i :
  presentation_tracking acc.1 = true → owned i acc.1 →
  owned i (fold_left remove_pane ids acc).1 ∧ presentation_tracking (fold_left remove_pane ids acc).1 = true.
Proof.
  revert acc. induction ids as [|id ids IH]; intros acc Ht Hi; cbn; [done|].
  destruct (owned_remove acc id i Ht Hi). by apply IH.
Qed.

Lemma owned_reconcile_pane acc p i : owned i acc.1.2 → owned i (reconcile_pane acc p).1.2.
Proof.
  intros Hi. destruct (reconcile_pane_put acc p) as (st & fresh & s & st' & He & _ & _ & Hst' & -> & _). cbn [fst snd].
  assert (pane_ids st' = pane_ids st) as Hids.
  { rewrite Hst', <-(refresh_ids p st). destruct (wants_capture _); by destruct (refresh_pane p st). }
  unfold pane_entry in He. destruct (panes acc.1.2 !! _) as [st0|] eqn:H0; injection He as <- <- <-.
  - eapply (owned_put i _ st0 st'); [done..| | |].
    + destruct acc as [[? []] ?]; reflexivity.
    + rewrite Hids. auto.
    + destruct acc as [[? []] ?]; auto.
  - destruct Hi as [(id0 & st0 & Hs0 & Hi)|Hi].
    + left. exists id0, st0. split; [|done]. destruct acc as [[? []] ?]; cbn in *.
      rewrite lookup_insert_ne; [done|]. intros Heq. simplify_eq.
    + right. destruct acc as [[? []] ?]; exact Hi.
Qed.

Lemma owned_reconcile fresh t s i : presentation_tracking s = true → owned i s → owned i (reconcile fresh t s).1.2.
Proof.
  intros Ht Hi. unfold reconcile. set (removed := List.filter _ _).
  pose proof (owned_remove_all removed (s, 0) i Ht Hi) as [H1 _].
  destruct (fold_left remove_pane removed (s, 0)) as [s1 n]; cbn in H1.
  assert (owned i (s1 <| prebootstrap_bytes := prebootstrap_bytes s1 - n |>)) as H2 by (by destruct s1).
  assert (∀ ps acc, owned i acc.1.2 → owned i (fold_left reconcile_pane ps acc).1.2) as Hfold.
  { intros ps. induction ps as [|p ps IH]; intros acc Ha; cbn; [done|]. by apply IH, owned_reconcile_pane. }
  specialize (Hfold (topology_panes t) (fresh, _, []) H2).
  destruct (fold_left reconcile_pane _ _) as [[f s2] rs]. cbn in *. by destruct s2.
Qed.

(** Replacing one pane, retiring [vs]: what the pane loses must be in [vs]. *)
Lemma owned_swap i id st st' vs s s1 :
  owned i s → panes s !! id = Some st → presentation_tracking s1 = true →
  retired_presentations s1 = retired_presentations s → panes s1 = <[id := st']> (panes s) →
  (i ∈ pane_ids st → i ∈ pane_ids st' ∨ i ∈ view_id <$> vs) → owned i (retire vs s1).
Proof.
  intros Hi Hst Ht Hr Hp Hids. destruct (retire_fields vs s1) as (Hp1 & _).
  assert (retired_ids (retire vs s1) = retired_ids s ++ (view_id <$> vs)) as Hret.
  { rewrite retire_retired by done. unfold retired_ids. by rewrite Hr. }
  eapply (owned_put i id st st'); [done..|by rewrite Hp1| |]; rewrite Hret; [|set_solver].
  intros Hin. destruct (Hids Hin); [by left|right; set_solver].
Qed.

(** Replacing one pane by one with the same views. *)
Lemma owned_keep i id st st' s s1 :
  owned i s → panes s !! id = Some st → retired_presentations s1 = retired_presentations s →
  panes s1 = <[id := st']> (panes s) → pane_ids st' = pane_ids st → owned i s1.
Proof.
  intros Hi Hst Hr Hp Hids. eapply (owned_put i id st st'); [done..| |].
  - rewrite Hids. auto.
  - unfold retired_ids. by rewrite Hr.
Qed.

Lemma owned_map i s s1 f :
  owned i s → panes s1 = f <$> panes s → retired_presentations s1 = retired_presentations s →
  (∀ st, pane_ids (f st) = pane_ids st) → owned i s1.
Proof.
  intros [(id & st & Hst & Hi)|Hi] Hp Hr Hf; [left|right].
  - exists id, (f st). rewrite Hp, lookup_fmap, Hst, Hf. done.
  - unfold retired_ids. by rewrite Hr.
Qed.

Lemma owned_output i id b retain s : owned i s → owned i (process_output_with_summary_retention id b retain s).1.
Proof.
  intros Hi. unfold process_output_with_summary_retention. destruct (panes s !! id) as [st|] eqn:Hst.
  - destruct (bootstrapped st); cbn [negb].
    + pose proof (batch_id b retain (view st)) as Hv. destruct (process_changes_with_batch _ _ _) as [v u]. cbn [fst] in *.
      eapply (owned_keep i id st); [done..|by destruct s|by destruct s|].
      rewrite !pane_ids_eq. destruct st; cbn in *. by rewrite discard_id, Hv.
    + destruct (buffered _ _ _); [|done]. cbn [fst].
      eapply (owned_keep i id st); [done..|by destruct s|by destruct s|]. rewrite !pane_ids_eq. by destruct st.
  - unfold process_orphan_output. destruct (bool_decide _ && _); [done|]. by destruct (buffered _ _ _); destruct s.
Qed.

Lemma owned_bootstrap i fresh id status output flags now s :
  presentation_tracking s = true → owned i s →
  owned i (apply_bootstrap_with_line_flags fresh id status output flags now s).1.2.
Proof.
  intros Ht Hi. unfold apply_bootstrap_with_line_flags. destruct (panes s !! id) as [st|] eqn:Hst; [|done].
  destruct status; cbn [fst snd].
  - eapply (owned_swap i id st); [done..|by destruct s|by destruct s|by destruct s|].
    rewrite !pane_ids_eq. destruct st; cbn. set_solver.
  - eapply (owned_keep i id st); [done..|by destruct s|by destruct s|].
    rewrite !pane_ids_eq. destruct st; cbn. by rewrite discard_id, process_id.
Qed.

Lemma owned_resync i fresh m output pending flags now s :
  presentation_tracking s = true → owned i s →
  owned i (apply_resync_capture_with_line_flags fresh m output pending flags now s).1.2.
Proof.
  intros Ht Hi. unfold apply_resync_capture_with_line_flags. destruct (panes s !! _) as [st|] eqn:Hst; [|done].
  cbn [fst snd]. eapply (owned_swap i _ st); [done..|by destruct s|by destruct s|by destruct s|].
  rewrite !pane_ids_eq. destruct st; cbn. set_solver.
Qed.

Lemma owned_portal i fresh id target s :
  presentation_tracking s = true → owned i s → owned i (set_pane_portal fresh id target s).1.2.
Proof.
  intros Ht Hi. unfold set_pane_portal. destruct (panes s !! id) as [st|] eqn:Hst; [|done].
  destruct (live_size _) as [rows cols]. cbn [fst snd].
  set (s' := match pane_portal st with Some _ => _ | None => _ end).
  assert (panes s' = panes s ∧ retired_ids s' = retired_ids s ++ (view_id <$> portal_views st)) as [Hp Hr].
  { unfold s', portal_views. destruct (pane_portal st) as [p|]; cbn [fmap option_fmap option_map option_list].
    - split; [apply retire_fields|by apply retire_retired].
    - rewrite app_nil_r. done. }
  clearbody s'. assert (∀ P, panes (s' <| panes := P |>) = P) as Hput by (by destruct s').
  eapply (owned_put i id st _ s); [done..|rewrite Hput, Hp; reflexivity| |].
  - assert (∀ P, retired_ids (s' <| panes := P |>) = retired_ids s') as -> by (by destruct s'). rewrite Hr.
    assert (pane_ids st = view_id (view st) :: (view_id <$> portal_views st)) as -> by done.
    rewrite elem_of_cons, elem_of_app. intros [->|Hin]; [left|by right; right]. rewrite pane_ids_eq. destruct st; cbn. rewrite clear_id. set_solver.
  - assert (∀ P, retired_ids (s' <| panes := P |>) = retired_ids s') as -> by (by destruct s'). rewrite Hr. set_solver.
Qed.

Lemma owned_clear_portal i id target s :
  presentation_tracking s = true → owned i s → owned i (clear_pane_portal id target s).
Proof.
  intros Ht Hi. unfold clear_pane_portal. destruct (panes s !! id) as [st|] eqn:Hst; [|done].
  destruct (pane_portal st) as [p|] eqn:Hp; [|done]. destruct (_ =? _); [|done].
  eapply (owned_swap i id st); [done..|by destruct s|by destruct s|by destruct s|].
  rewrite !pane_ids_eq. rewrite Hp. destruct st; cbn. rewrite clear_id. set_solver.
Qed.

Lemma tracking_kept e w : presentation_tracking w.2 = true → presentation_tracking (step e w).2 = true.
Proof.
  destruct w as [fresh s]; cbn [snd]. intros Ht.
  assert (∀ vs s1, presentation_tracking s1 = true → presentation_tracking (retire vs s1) = true) as Hret.
  { intros vs s1 Hv. destruct (retire_fields vs s1) as (_ & _ & _ & _ & -> & _). done. }
  destruct e; cbn [step].
  - unfold reconcile. set (removed := List.filter _ _).
    assert (∀ ids (acc : TmuxPaneSet V * N), presentation_tracking acc.1 = true →
      presentation_tracking (fold_left remove_pane ids acc).1 = true) as Hrem.
    { intros ids. induction ids as [|id ids IH]; intros acc Ha; [done|]. apply IH. destruct acc as [s0 r]. unfold remove_pane.
      destruct (panes s0 !! id); [|done]. apply Hret. by destruct s0. }
    specialize (Hrem removed (s, 0) Ht). destruct (fold_left remove_pane removed (s, 0)) as [s1 n]; cbn [fst] in Hrem.
    assert (∀ ps (acc : N * TmuxPaneSet V * list BootstrapRequest), presentation_tracking acc.1.2 = true →
      presentation_tracking (fold_left reconcile_pane ps acc).1.2 = true) as Hfold.
    { intros ps. induction ps as [|p ps IH]; intros acc Ha; [done|]. apply IH.
      destruct (reconcile_pane_put acc p) as (st & f & s0 & st' & He & _ & _ & _ & -> & _).
      unfold pane_entry in He. destruct (panes acc.1.2 !! _); injection He as _ _ <-; destruct acc as [[? []] ?]; exact Ha. }
    specialize (Hfold (topology_panes t) (fresh, s1 <| prebootstrap_bytes := prebootstrap_bytes s1 - n |>, [])).
    destruct (fold_left reconcile_pane _ _) as [[f s2] rs]. cbn in *.
    assert (presentation_tracking s2 = true) by (apply Hfold; by destruct s1). by destruct s2.
  - by destruct s.
  - unfold process_output_with_summary_retention, process_orphan_output. destruct (panes s !! id) as [st|].
    + destruct (bootstrapped st); cbn [negb]; [destruct (process_changes_with_batch _ _ _)|destruct (buffered _ _ _)]; by destruct s.
    + destruct (bool_decide _ && _); [done|]. destruct (buffered _ _ _); by destruct s.
  - unfold apply_bootstrap_with_line_flags. destruct (panes s !! id); [|done].
    destruct status; cbn [fst snd]; [apply Hret|]; by destruct s.
  - unfold apply_resync_capture_with_line_flags. destruct (panes s !! _); [|done]. apply Hret. by destruct s.
  - unfold set_pane_portal. destruct (panes s !! id) as [st|]; [|done]. destruct (live_size _). cbn [fst snd].
    destruct (pane_portal st) as [p|]; [|by destruct s].
    pose proof (Hret [portal_view p] s Ht). by destruct (retire [portal_view p] s).
  - unfold clear_pane_portal. destruct (panes s !! id) as [st|]; [|done]. destruct (pane_portal st); [|done].
    destruct (_ =? _); [|done]. apply Hret. by destruct s.
  - by destruct s.
  - by destruct s.
Qed.

Lemma owned_track_panes i s : owned i s → owned i (enable_presentation_tracking s).
Proof.
  intros Hi. eapply (owned_map i s _ track_pane); [done|by destruct s..|]. intros st. rewrite !pane_ids_eq.
  destruct st as [v [p|]]; cbn; by rewrite !tracking_id.
Qed.

Lemma owned_clear_summaries i s : owned i s → owned i (clear_update_summaries s).
Proof.
  intros Hi. eapply (owned_map i s _ clear_pane_summaries); [done|by destruct s..|]. intros st. rewrite !pane_ids_eq.
  destruct st as [v [p|]]; cbn; by rewrite !clear_id.
Qed.

Lemma owned_retain i retained s : i ∈ retained → owned i s → owned i (retain_accessibility_views retained s).
Proof.
  intros Hin [Hi|Hi]; [left; by destruct s|right]. unfold retired_ids, retain_accessibility_views in *.
  assert (∀ l, retired_presentations (s <| retired_presentations := l |>) = l) as -> by (by destruct s).
  apply list_elem_of_fmap in Hi as (v & -> & Hv). apply list_elem_of_fmap. exists v. split; [done|].
  apply elem_of_Filter. split; [done|]. by apply bool_decide_eq_true.
Qed.

Definition releases (i : N) (e : Event) : Prop := match e with RetainViews retained => i ∉ retained | _ => False end.

Lemma owned_step e w i :
  presentation_tracking w.2 = true → ¬ releases i e → owned i w.2 → owned i (step e w).2.
Proof.
  destruct w as [fresh s]; cbn [snd]. intros Ht He Hi. destruct e; cbn [step snd].
  - by apply owned_reconcile.
  - by apply owned_track_panes.
  - by apply owned_output.
  - by apply owned_bootstrap.
  - by apply owned_resync.
  - by apply owned_portal.
  - by apply owned_clear_portal.
  - apply owned_retain; [|done]. cbn in He. by destruct (decide (i ∈ retained)).
  - by apply owned_clear_summaries.
Qed.

(** C36. Once the presentation is tracked, a view that can be found stays so,
    whatever happens to its pane (closed, captured again, covered by a portal
    or uncovered), until a list of the views still in use leaves it out. *)
Theorem views_stay_addressable i es w :
  presentation_tracking w.2 = true → Forall (λ e, ¬ releases i e) es →
  is_Some (model_by_id i w.2) → is_Some (model_by_id i (run es w).2).
Proof.
  rewrite !model_by_id_spec. revert w. unfold run. induction es as [|e es IH]; intros w Ht Hes Hi; cbn [fold_left]; [done|].
  apply Forall_cons in Hes as [He Hes]. apply IH; [by apply tracking_kept|done|by apply owned_step].
Qed.
End Addressing.

(** * Output before the first capture *)

(** Every pane of a topology is under its own identity. *)
Definition keyed (t : TmuxTopology) : Prop := ∀ id p, TmuxModel.panes t !! id = Some p → TmuxModel.pane_id p = id.

Lemma elem_of_topology_panes t p : p ∈ topology_panes t ↔ ∃ id, TmuxModel.panes t !! id = Some p.
Proof.
  unfold topology_panes. rewrite list_elem_of_omap. setoid_rewrite elem_of_btree_keys. split.
  - intros (id & _ & Hp). by exists id.
  - intros [id Hp]. exists id. split; [by eexists|done].
Qed.

Section Early.
Context {V U : Type} `{PL : PaneViewLaws V U}.
Implicit Types (s : TmuxPaneSet V) (st : PaneState V).

(** The pane is not captured yet, and [x] is the output held for it. *)
Definition waiting (id : N) (x : bytes) (s : TmuxPaneSet V) : Prop :=
  match panes s !! id with
  | Some st => bootstrapped st = false ∧ processed (view st) = [] ∧ prebootstrap_output st = x
  | None => default [] (orphan_output s !! id) = x
  end.

Lemma waiting_ext id x s s' :
  waiting id x s → panes s' !! id = panes s !! id → orphan_output s' !! id = orphan_output s !! id → waiting id x s'.
Proof. unfold waiting. by intros Hw -> ->. Qed.

Lemma waiting_put id x s st st' :
  waiting id x s → panes s !! id = Some st → bootstrapped st' = bootstrapped st → processed (view st') = processed (view st) →
  prebootstrap_output st' = prebootstrap_output st → waiting id x (s <| panes := <[id := st']> (panes s) |>).
Proof.
  unfold waiting. intros Hw Hst Hb Hv Hp. rewrite Hst in Hw.
  assert (∀ P, panes (s <| panes := P |>) = P) as -> by (by destruct s). by rewrite lookup_insert_eq, Hb, Hv, Hp.
Qed.

Lemma track_processed b v : processed (track b v) = processed v.
Proof. unfold track. destruct b; [apply tracking_processed|done]. Qed.

Lemma put_fields s id st' :
  panes (s <| panes := <[id := st']> (panes s) |>) = <[id := st']> (panes s) ∧
  orphan_output (s <| panes := <[id := st']> (panes s) |>) = orphan_output s.
Proof. by destruct s. Qed.

Lemma waiting_put_other id id' x s st' :
  id' ≠ id → waiting id x s → waiting id x (s <| panes := <[id' := st']> (panes s) |>).
Proof.
  intros Hne Hw. destruct (put_fields s id' st') as [Hp Ho].
  eapply waiting_ext; [done|by rewrite Hp, lookup_insert_ne|by rewrite Ho].
Qed.

Lemma waiting_retire id x vs s : waiting id x s → waiting id x (retire vs s).
Proof.
  intros Hw. destruct (retire_fields vs s) as (Hp & Ho & _).
  eapply waiting_ext; [done|by rewrite Hp|by rewrite Ho].
Qed.

Lemma refresh_fields p st :
  bootstrapped (refresh_pane p st) = bootstrapped st ∧ processed (view (refresh_pane p st)) = processed (view st) ∧
  prebootstrap_output (refresh_pane p st) = prebootstrap_output st.
Proof.
  destruct st as [v]; cbn. split; [done|]. split; [|done].
  unfold resize_view. case_bool_decide; [done|apply resize_processed].
Qed.

Lemma reconcile_pane_waiting id x acc p :
  waiting id x acc.1.2 →
  waiting id x (reconcile_pane acc p).1.2 ∧
  (TmuxModel.pane_id p = id ∨ is_Some (panes acc.1.2 !! id) → is_Some (panes (reconcile_pane acc p).1.2 !! id)).
Proof.
  intros Hw. destruct (reconcile_pane_put acc p) as (st & fresh & s & st' & He & _ & _ & Hst' & -> & _). cbn [fst snd].
  destruct (put_fields s (TmuxModel.pane_id p) st') as [Hput Horph].
  assert (bootstrapped st' = bootstrapped st ∧ processed (view st') = processed (view st) ∧
          prebootstrap_output st' = prebootstrap_output st) as (Hb & Hv & Hp).
  { destruct (refresh_fields p st) as (<- & <- & <-). rewrite Hst'. destruct (wants_capture _); by destruct (refresh_pane p st). }
  clear Hst'. rewrite Hput. destruct (decide (TmuxModel.pane_id p = id)) as [Hid|Hid].
  - split; [|intros _; rewrite Hid, lookup_insert_eq; by eexists].
    unfold waiting. rewrite Hput, Hid, lookup_insert_eq. unfold waiting in Hw. unfold pane_entry in He. rewrite Hid in He.
    destruct (panes acc.1.2 !! id) as [st0|] eqn:Hst0; injection He as He1 _ _; subst st.
    + by rewrite Hb, Hv, Hp.
    + rewrite Hb, Hv, Hp. cbn. rewrite track_processed, new_processed, Hid. done.
  - assert (panes s !! id = panes acc.1.2 !! id ∧ orphan_output s !! id = orphan_output acc.1.2 !! id) as [E1 E2].
    { unfold pane_entry in He. destruct (panes acc.1.2 !! TmuxModel.pane_id p); injection He as _ _ <-; [done|].
      destruct acc as [[? []] ?]; cbn. split; [done|]. by rewrite lookup_delete_ne. }
    split; [|intros [?|?]; [done|by rewrite lookup_insert_ne, E1]].
    eapply waiting_ext; [exact Hw|by rewrite Hput, lookup_insert_ne|by rewrite Horph].
Qed.

Lemma reconcile_panes_waiting id x ps acc :
  waiting id x acc.1.2 →
  waiting id x (fold_left reconcile_pane ps acc).1.2 ∧
  ((∃ p, p ∈ ps ∧ TmuxModel.pane_id p = id) ∨ is_Some (panes acc.1.2 !! id) →
   is_Some (panes (fold_left reconcile_pane ps acc).1.2 !! id)).
Proof.
  revert acc. induction ps as [|p ps IH]; intros acc Hw; cbn [fold_left].
  - split; [done|]. intros [(p & Hp & _)|?]; [by apply elem_of_nil in Hp|done].
  - destruct (reconcile_pane_waiting id x acc p Hw) as [Hw' Hsome]. destruct (IH _ Hw') as [H1 H2]. split; [done|].
    intros [(q & [->|Hq]%elem_of_cons & Hid)|Hs]; apply H2; [right; auto|left; by exists q|right; auto].
Qed.

Lemma remove_panes_waiting id x ids acc : id ∉ ids → waiting id x acc.1 → waiting id x (fold_left remove_pane ids acc).1.
Proof.
  revert acc. induction ids as [|id' ids IH]; intros acc Hids Hw; cbn [fold_left]; [done|].
  apply not_elem_of_cons in Hids as [Hne Hids]. apply IH; [done|]. destruct acc as [s r]. unfold remove_pane. cbn [fst] in *.
  destruct (panes s !! id') as [st|]; [|done]. cbn [fst]. apply waiting_retire.
  eapply waiting_ext; [done| |by destruct s]. destruct s; cbn. by rewrite lookup_delete_ne.
Qed.

Lemma reconcile_waiting id x fresh t s :
  keyed t → is_Some (TmuxModel.panes t !! id) → waiting id x s → waiting id x (reconcile fresh t s).1.2.
Proof.
  intros Hkey [p Hp] Hw. unfold reconcile. set (removed := List.filter _ _).
  assert (id ∉ removed) as Hnot.
  { intros [_ Hno]%elem_of_Filter. apply bool_decide_eq_true in Hno. congruence. }
  pose proof (remove_panes_waiting id x removed (s, 0) Hnot Hw) as H1.
  destruct (fold_left remove_pane removed (s, 0)) as [s1 n]. cbn [fst] in H1.
  set (s1' := s1 <| prebootstrap_bytes := _ |>).
  assert (waiting id x s1') as H2 by (eapply waiting_ext; [exact H1|by destruct s1..]).
  destruct (reconcile_panes_waiting id x (topology_panes t) (fresh, s1', []) H2) as [H3 H4].
  destruct (fold_left reconcile_pane _ _) as [[f s2] rs]. cbn [fst snd] in *.
  destruct H4 as [st Hst].
  { left. exists p. split; [|by apply Hkey]. apply elem_of_topology_panes. by exists id. }
  unfold waiting in *. rewrite Hst in H3. destruct s2; cbn in *. by rewrite Hst.
Qed.

(** What one event adds to the output held for pane [id]. *)
Definition accepted (id : N) (e : Event) (s : TmuxPaneSet V) : bytes :=
  match e with
  | Output id' b retain =>
      if id' =? id then (if is_ok (process_output_with_summary_retention (U := U) id b retain s).2 then b else []) else []
  | _ => []
  end.
Fixpoint accepted_output (id : N) (es : list Event) (w : N * TmuxPaneSet V) : bytes :=
  match es with
  | [] => []
  | e :: es => accepted id e w.2 ++ accepted_output id es (step e w)
  end.

(** The events before the pane is captured: it stays in every inventory. *)
Definition before_capture (id : N) (e : Event) : Prop :=
  match e with
  | Reconcile t => keyed t ∧ is_Some (TmuxModel.panes t !! id)
  | Bootstrap id' _ _ _ _ => id' ≠ id
  | Resync m _ _ _ _ => meta_pane_id m ≠ id
  | _ => True
  end.

Lemma output_waiting id x b retain s :
  waiting id x s →
  waiting id (x ++ accepted id (Output id b retain) s) (process_output_with_summary_retention id b retain s).1.
Proof.
  intros Hw. unfold accepted. rewrite N.eqb_refl. unfold waiting in Hw. unfold process_output_with_summary_retention.
  destruct (panes s !! id) as [st|] eqn:Hst.
  - destruct Hw as (Hb & Hv & Hp). rewrite Hb. cbn [negb]. destruct (buffered _ _ _) as [n|]; cbn [fst snd is_ok].
    + unfold waiting. destruct s; cbn. rewrite lookup_insert_eq. destruct st; cbn in *. by subst.
    + rewrite app_nil_r. unfold waiting. by rewrite Hst.
  - unfold process_orphan_output. destruct (bool_decide _ && _); cbn [fst snd is_ok].
    + rewrite app_nil_r. unfold waiting. by rewrite Hst.
    + destruct (buffered _ _ _) as [n|]; cbn [fst snd is_ok]; unfold waiting; destruct s; cbn in *; rewrite Hst.
      * rewrite lookup_insert_eq. cbn. by rewrite Hw.
      * rewrite lookup_insert_eq. cbn. by rewrite app_nil_r.
Qed.

Lemma output_waiting_other id id' x b retain s :
  id' ≠ id → waiting id x s → waiting id x (process_output_with_summary_retention id' b retain s).1.
Proof.
  intros Hne Hw. unfold process_output_with_summary_retention. destruct (panes s !! id') as [st|] eqn:Hst.
  - destruct (bootstrapped st); cbn [negb].
    + destruct (process_changes_with_batch _ _ _) as [v u]. by apply waiting_put_other.
    + destruct (buffered _ _ _); [|done]. cbn [fst].
      eapply waiting_ext; [apply (waiting_put_other id id'); done|by destruct s..].
  - unfold process_orphan_output. destruct (bool_decide _ && _); [done|].
    destruct (buffered _ _ _); cbn [fst]; (eapply waiting_ext; [done|by destruct s|]); destruct s; cbn; by rewrite lookup_insert_ne.
Qed.

Lemma step_waiting id x e w :
  before_capture id e → waiting id x w.2 → waiting id (x ++ accepted id e w.2) (step e w).2.
Proof.
  destruct w as [fresh s]; cbn [snd]. intros He Hw.
  destruct e; cbn [step snd fst accepted] in *; rewrite ?app_nil_r; try done.
  - destruct He. by apply reconcile_waiting.
  - unfold waiting in *. destruct s; cbn in *. rewrite lookup_fmap. destruct (_ !! id) as [st|]; cbn; [|done].
    destruct st; cbn in *. by rewrite tracking_processed.
  - destruct (N.eqb_spec id0 id) as [->|Hne].
    + pose proof (output_waiting id x b retain s Hw) as H1. cbn [accepted] in H1. by rewrite N.eqb_refl in H1.
    + rewrite app_nil_r. by apply output_waiting_other.
  - unfold apply_bootstrap_with_line_flags. destruct (panes s !! id0) as [st|]; [|done].
    set (s1 := s <| prebootstrap_bytes := _ |>). assert (waiting id x s1) as H1 by (eapply waiting_ext; [exact Hw|by destruct s..]).
    destruct status; cbn [fst snd]; [apply waiting_retire|]; by apply waiting_put_other.
  - unfold apply_resync_capture_with_line_flags. destruct (panes s !! _) as [st|]; [|done]. cbn [fst snd].
    apply waiting_retire. by apply waiting_put_other.
  - unfold set_pane_portal. destruct (panes s !! id0) as [st|] eqn:Hst; [|done]. destruct (live_size _). cbn [fst snd].
    set (s1 := match pane_portal st with Some _ => _ | None => _ end).
    assert (waiting id x s1 ∧ panes s1 !! id0 = Some st) as [H1 H2].
    { unfold s1. destruct (pane_portal st); [|done]. split; [by apply waiting_retire|]. by rewrite (proj1 (retire_fields _ _)). }
    destruct (decide (id0 = id)) as [->|Hne]; [|by apply waiting_put_other].
    eapply waiting_put; [done..| | |]; destruct st; cbn; try done. apply clear_processed.
  - unfold clear_pane_portal. destruct (panes s !! id0) as [st|] eqn:Hst; [|done]. destruct (pane_portal st); [|done].
    destruct (_ =? _); [|done]. apply waiting_retire. destruct (decide (id0 = id)) as [->|Hne]; [|by apply waiting_put_other].
    eapply waiting_put; [done..| | |]; destruct st; cbn; try done. apply clear_processed.
  - unfold waiting in *. destruct s; cbn in *. rewrite lookup_fmap. destruct (_ !! id) as [st|]; cbn; [|done].
    destruct st; cbn in *. by rewrite clear_processed.
Qed.

Lemma run_waiting id es w x :
  Forall (before_capture id) es → waiting id x w.2 → waiting id (x ++ accepted_output id es w) (run es w).2.
Proof.
  unfold run. revert w x. induction es as [|e es IH]; intros w x Hes Hw; cbn [accepted_output fold_left].
  - by rewrite app_nil_r.
  - apply Forall_cons in Hes as [He Hes]. rewrite app_assoc. apply IH; [done|]. by apply step_waiting.
Qed.

(** The view of a pane after the answer to its capture: the screen the answer
    describes, and the output that came before the answer if the answer shows
    nothing or tmux could not capture. *)
Definition captured_bytes (fresh : N) (status : CommandStatus) (m : Pane) (output : list bytes) (flags : bool)
    (early : bytes) : bytes :=
  let screen := reconstruction_bytes (alternate_on m) (cursor_x m) (cursor_y m) (cursor_visible m) (cursor_shape m)
                  {| capture_lines := output; pending_escape := []; line_flags := flags |} in
  match status with
  | Error => early
  | Success =>
      screen ++ (if has_visible_non_whitespace_content (V := V)
                      (process_changes screen (view_new fresh (dimension (height m)) (dimension (width m)))) then [] else early)
  end.

End Early.

(** * Requests for captures *)

Lemma NoDup_fmap_Filter {A B} (g : A → B) (f : A → bool) l : NoDup (g <$> l) → NoDup (g <$> List.filter f l).
Proof.
  induction l as [|x l IH]; [done|]. cbn. intros [Hx Hl]%NoDup_cons. destruct (f x); [|by apply IH].
  cbn. apply NoDup_cons. split; [|by apply IH]. intros (y & Heq & Hy)%list_elem_of_fmap.
  apply elem_of_Filter in Hy as [Hy _]. apply Hx. rewrite Heq. by apply list_elem_of_fmap_2.
Qed.

Section Requests.
Context {V U : Type} `{PV : PaneView V U}.
Implicit Types (s : TmuxPaneSet V) (st : PaneState V).

(** The panes a topology asks to capture: those that are new, or neither
    captured nor asked for. *)
Definition lacks_capture (s : TmuxPaneSet V) (p : Pane) : bool :=
  match panes s !! TmuxModel.pane_id p with Some st => wants_capture st | None => true end.
Definition request_of (p : Pane) : BootstrapRequest :=
  {| request_pane := TmuxModel.pane_id p; request_command := capture_command p |}.

Lemma refresh_wants p st : wants_capture (refresh_pane p st) = wants_capture st.
Proof. by destruct st. Qed.

Lemma reconcile_pane_lookup acc p id :
  panes (reconcile_pane acc p).1.2 !! id =
  if decide (id = TmuxModel.pane_id p)
  then panes (reconcile_pane acc p).1.2 !! TmuxModel.pane_id p else panes acc.1.2 !! id.
Proof.
  case_decide as Hid; [by subst|].
  destruct (reconcile_pane_put acc p) as (st & f & s & st' & He & _ & _ & _ & -> & _). cbn [fst snd].
  rewrite (proj1 (put_fields _ _ _)), lookup_insert_ne by done.
  unfold pane_entry in He. destruct (panes acc.1.2 !! TmuxModel.pane_id p); injection He as _ _ <-; [done|].
  by destruct acc as [[? []] ?].
Qed.

Lemma reconcile_pane_requests acc p :
  (reconcile_pane acc p).2 = acc.2 ++ (if lacks_capture acc.1.2 p then [request_of p] else []) ∧
  ∃ st, panes (reconcile_pane acc p).1.2 !! TmuxModel.pane_id p = Some st ∧ wants_capture st = false ∧ metadata st = p.
Proof.
  destruct (reconcile_pane_put acc p) as (st & f & s & st' & He & Hm & _ & Hst' & -> & ->). cbn [fst snd].
  rewrite (proj1 (put_fields _ _ _)), lookup_insert_eq. rewrite refresh_wants in *. split.
  - f_equal. unfold lacks_capture. unfold pane_entry in He.
    destruct (panes acc.1.2 !! TmuxModel.pane_id p) as [st0|]; injection He as <- _ _; [done|]. done.
  - exists st'. split; [done|]. split; [|done]. rewrite Hst'. unfold wants_capture.
    destruct st as [? ? ? ? [] []]; done.
Qed.

Lemma reconcile_panes_requests ps acc :
  NoDup (TmuxModel.pane_id <$> ps) →
  (fold_left reconcile_pane ps acc).2 = acc.2 ++ (request_of <$> List.filter (lacks_capture acc.1.2) ps) ∧
  (∀ id, id ∉ (TmuxModel.pane_id <$> ps) → panes (fold_left reconcile_pane ps acc).1.2 !! id = panes acc.1.2 !! id) ∧
  (∀ p, p ∈ ps → ∃ st, panes (fold_left reconcile_pane ps acc).1.2 !! TmuxModel.pane_id p = Some st ∧
                       wants_capture st = false ∧ metadata st = p).
Proof.
  revert acc. induction ps as [|p ps IH]; intros acc Hnd; cbn [fold_left fmap list_fmap List.filter].
  - rewrite app_nil_r. split_and!; [done|done|]. intros p Hp. by apply elem_of_nil in Hp.
  - apply NoDup_cons in Hnd as [Hnot Hnd]. destruct (IH (reconcile_pane acc p) Hnd) as (H1 & H2 & H3).
    destruct (reconcile_pane_requests acc p) as [Hreq (st & Hst & Hwant & Hmeta)].
    split; [|split].
    + rewrite H1, Hreq, <-app_assoc. f_equal.
      assert (∀ q, q ∈ ps → lacks_capture (reconcile_pane acc p).1.2 q = lacks_capture acc.1.2 q) as Hsame.
      { intros q Hq. unfold lacks_capture. rewrite reconcile_pane_lookup. rewrite decide_False; [done|].
        intros Heq. apply Hnot. rewrite <-Heq. by apply list_elem_of_fmap_2. }
      rewrite (List.filter_ext_in _ (lacks_capture acc.1.2)) by (intros q Hq; by apply Hsame, list_elem_of_In).
      by destruct (lacks_capture acc.1.2 p).
    + intros id [Hne Hid]%not_elem_of_cons. rewrite H2, reconcile_pane_lookup by done. by rewrite decide_False.
    + intros q [->|Hq]%elem_of_cons; [|by apply H3]. exists st. by rewrite H2.
Qed.

Lemma remove_pane_lookup i id (acc : TmuxPaneSet V * N) :
  panes (remove_pane acc i).1 !! id = if decide (id = i) then None else panes acc.1 !! id.
Proof.
  destruct acc as [s r]. unfold remove_pane. cbn [fst]. destruct (panes s !! i) as [st|] eqn:Hst; cbn [fst].
  - rewrite (proj1 (retire_fields _ _)). assert (∀ P, panes (s <| panes := P |>) = P) as -> by (by destruct s).
    destruct (decide (id = i)) as [->|]; [apply lookup_delete_eq|by rewrite lookup_delete_ne].
  - destruct (decide (id = i)) as [->|]; done.
Qed.

Lemma remove_panes_lookup ids (acc : TmuxPaneSet V * N) id :
  panes (fold_left remove_pane ids acc).1 !! id = if decide (id ∈ ids) then None else panes acc.1 !! id.
Proof.
  revert acc. induction ids as [|i ids IH]; intros acc; cbn [fold_left]; [done|]. rewrite IH, remove_pane_lookup.
  repeat case_decide; set_solver.
Qed.

(** After an inventory the set holds exactly the panes of the topology, with
    its description of each; every pane that is not captured has a capture on
    the way, and a request is made for exactly those that had none. *)
Theorem inventories_request_missing_captures fresh t s :
  keyed t →
  let s' := (reconcile fresh t s).1.2 in
  (∀ id, metadata <$> panes s' !! id = TmuxModel.panes t !! id) ∧
  (∀ id st, panes s' !! id = Some st → bootstrapped st = true ∨ bootstrap_requested st = true) ∧
  (reconcile fresh t s).2 = request_of <$> List.filter (lacks_capture s) (topology_panes t) ∧
  NoDup (request_pane <$> (reconcile fresh t s).2).
Proof.
  intros Hkey. unfold reconcile. set (removed := List.filter _ _).
  assert (∀ id, panes (fold_left remove_pane removed (s, 0)).1 !! id =
                if bool_decide (TmuxModel.panes t !! id = None) then None else panes s !! id) as Hrem.
  { intros id. rewrite remove_panes_lookup. cbn [fst]. unfold removed.
    destruct (decide (id ∈ _)) as [Hin|Hin]; rewrite elem_of_Filter, elem_of_btree_keys in Hin.
    - by rewrite (proj2 Hin).
    - case_bool_decide as Hn; [|done]. destruct (panes s !! id) eqn:E; [|done]. destruct Hin. split; [by eexists|done]. }
  destruct (fold_left remove_pane removed (s, 0)) as [s1 n]. cbn [fst] in Hrem.
  set (s1' := s1 <| prebootstrap_bytes := _ |>). assert (panes s1' = panes s1) as Hs1 by (by destruct s1).
  assert (∀ ids : list N, (∀ i, i ∈ ids → is_Some (TmuxModel.panes t !! i)) →
            TmuxModel.pane_id <$> (omap (λ i, TmuxModel.panes t !! i) ids : list Pane) = ids) as Hids.
  { intros ids. induction ids as [|i ids IH]; intros Hin; [done|]. cbn.
    destruct (Hin i) as [p Hp]; [set_solver|]. rewrite Hp. cbn. rewrite (Hkey i p Hp). f_equal. apply IH. set_solver. }
  assert (TmuxModel.pane_id <$> topology_panes t = btree_keys (TmuxModel.panes t)) as Hkeys.
  { unfold topology_panes. apply Hids. intros i. apply elem_of_btree_keys. }
  assert (NoDup (TmuxModel.pane_id <$> topology_panes t)) as Hnd by (rewrite Hkeys; apply NoDup_btree_keys).
  destruct (reconcile_panes_requests (topology_panes t) (fresh, s1', []) Hnd) as (H1 & H2 & H3).
  destruct (fold_left reconcile_pane _ _) as [[f s2] rs]. cbn [fst snd] in *.
  assert (∀ a b, panes (s2 <| prebootstrap_bytes := a |> <| orphan_output := b |>) = panes s2) as -> by (by destruct s2).
  assert (∀ id, match TmuxModel.panes t !! id with
                | Some p => ∃ st, panes s2 !! id = Some st ∧ wants_capture st = false ∧ metadata st = p
                | None => panes s2 !! id = None
                end) as Hall.
  { intros id. destruct (TmuxModel.panes t !! id) as [p|] eqn:Hp.
    - rewrite <-(Hkey id p Hp). apply H3, elem_of_topology_panes. by exists id.
    - rewrite H2, Hs1, Hrem, Hp; [done|]. rewrite Hkeys, elem_of_btree_keys, Hp. by intros []. }
  assert (rs = request_of <$> List.filter (lacks_capture s) (topology_panes t)) as Hrs.
  { rewrite H1. cbn [app]. f_equal. apply List.filter_ext_in. intros p [id Hp]%list_elem_of_In%elem_of_topology_panes.
    unfold lacks_capture. rewrite Hs1, Hrem. rewrite (Hkey id p Hp), bool_decide_eq_false_2 by congruence. done. }
  split; [|split; [|split; [done|]]].
  - intros id. specialize (Hall id). destruct (TmuxModel.panes t !! id) as [p|].
    + destruct Hall as (st & -> & _ & <-). done.
    + by rewrite Hall.
  - intros id st Hst. specialize (Hall id). rewrite Hst in Hall. destruct (TmuxModel.panes t !! id); [|done].
    destruct Hall as (st0 & [= <-] & Hw & _). unfold wants_capture in Hw. destruct (bootstrapped st); [by left|right].
    cbn in Hw. by destruct (bootstrap_requested st).
  - rewrite Hrs, <-list_fmap_compose. by apply (NoDup_fmap_Filter TmuxModel.pane_id).
Qed.
End Requests.

(** * Surfaces *)

Section Surfaces.
Context {V U : Type} `{PV : PaneView V U}.
Implicit Types (s : TmuxPaneSet V) (st : PaneState V).

(** The surface of every pane, and the next one. *)
Definition surfaces (s : TmuxPaneSet V) : gmap N N * N := (pane_surface <$> panes s, next_surface_id s).

Lemma surfaces_put s id st st' :
  panes s !! id = Some st → pane_surface st' = pane_surface st →
  surfaces (s <| panes := <[id := st']> (panes s) |>) = surfaces s.
Proof.
  intros Hst Hsurf. unfold surfaces. rewrite (proj1 (put_fields _ _ _)), fmap_insert, Hsurf. f_equal.
  apply insert_id. by rewrite lookup_fmap, Hst.
Qed.
Lemma surfaces_retire vs s : surfaces (retire vs s) = surfaces s.
Proof. unfold surfaces. destruct (retire_fields vs s) as (-> & _ & _ & -> & _). done. Qed.
Lemma surfaces_map (m : gmap N (PaneState V)) (f : PaneState V → PaneState V) :
  (∀ st, pane_surface (f st) = pane_surface st) → pane_surface <$> (f <$> m) = pane_surface <$> m.
Proof. intros Hf. rewrite <-map_fmap_compose. apply map_fmap_ext. intros ? ? _. apply Hf. Qed.

Lemma surfaces_step e fresh s : (∀ t, e ≠ Reconcile t) → surfaces (step e (fresh, s)).2 = surfaces s.
Proof.
  assert (∀ n, surfaces (s <| prebootstrap_bytes := n |>) = surfaces s ∧
               panes (s <| prebootstrap_bytes := n |>) = panes s) as Hn by (by destruct s).
  intros He. destruct e; cbn [step snd fst]; [by destruct (He t)|..].
  - unfold surfaces. destruct s; cbn. f_equal. apply surfaces_map. by intros [].
  - unfold process_output_with_summary_retention, process_orphan_output. destruct (panes s !! id) as [st|] eqn:Hst.
    + destruct (bootstrapped st); cbn [negb].
      * destruct (process_changes_with_batch _ _ _). eapply surfaces_put; [done|by destruct st].
      * destruct (buffered _ _ _); [|done]. cbn [fst].
        rewrite <-(surfaces_put s id st (st <| prebootstrap_output := prebootstrap_output st ++ b |>) Hst); by destruct s, st.
    + destruct (bool_decide _ && _); [done|]. by destruct (buffered _ _ _); destruct s.
  - unfold apply_bootstrap_with_line_flags. destruct (panes s !! id) as [st|] eqn:Hst; [|done].
    destruct (Hn (prebootstrap_bytes s - len (prebootstrap_output st))) as [<- Hp]. rewrite <-Hp in Hst.
    destruct status; cbn [fst snd]; [rewrite surfaces_retire|]; (eapply surfaces_put; [done|by destruct st]).
  - unfold apply_resync_capture_with_line_flags. destruct (panes s !! _) as [st|] eqn:Hst; [|done]. cbn [fst snd].
    rewrite surfaces_retire. eapply surfaces_put; [done|by destruct st].
  - unfold set_pane_portal. destruct (panes s !! id) as [st|] eqn:Hst; [|done]. destruct (live_size _). cbn [fst snd].
    destruct (pane_portal st); [|eapply surfaces_put; [done|by destruct st]].
    rewrite <-(surfaces_retire [portal_view p] s). apply (surfaces_put _ id st); [|by destruct st].
    by rewrite (proj1 (retire_fields _ _)).
  - unfold clear_pane_portal. destruct (panes s !! id) as [st|] eqn:Hst; [|done]. destruct (pane_portal st); [|done].
    destruct (_ =? _); [|done]. rewrite surfaces_retire. eapply surfaces_put; [done|by destruct st].
  - by destruct s.
  - unfold surfaces. destruct s; cbn. f_equal. apply surfaces_map. by intros [].
Qed.

(** Every surface lies strictly between the border's and the next. *)
Record placed (c : N) (x : gmap N N * N) : Prop := {
  placed_next : surface_namespace c < x.2;
  placed_range : ∀ id n, x.1 !! id = Some n → surface_namespace c < n < x.2;
  placed_unique : ∀ id id' n, x.1 !! id = Some n → x.1 !! id' = Some n → id = id'
}.

Lemma surfaces_remove acc id :
  surfaces (remove_pane acc id).1 = (delete id (surfaces acc.1).1, (surfaces acc.1).2).
Proof.
  destruct acc as [s r]. unfold remove_pane. cbn [fst]. destruct (panes s !! id) as [st|] eqn:Hst; cbn [fst].
  - rewrite surfaces_retire. unfold surfaces. destruct s; cbn. by rewrite fmap_delete.
  - rewrite delete_id; [done|]. unfold surfaces. cbn [fst]. by rewrite lookup_fmap, Hst.
Qed.

Lemma placed_delete c x id : placed c x → placed c (delete id x.1, x.2).
Proof.
  intros [Hn Hr Hu]. split; cbn [fst snd]; [done| |].
  - intros i n [_ Hi]%lookup_delete_Some. by eapply Hr.
  - intros i j n [_ Hi]%lookup_delete_Some [_ Hj]%lookup_delete_Some. by eapply Hu.
Qed.

Lemma surfaces_reconcile_pane acc p :
  let x := surfaces acc.1.2 in
  surfaces (reconcile_pane acc p).1.2 =
  match x.1 !! TmuxModel.pane_id p with
  | Some _ => x
  | None => (<[TmuxModel.pane_id p := x.2]> x.1, sat_add u64_max x.2 1)
  end.
Proof.
  destruct (reconcile_pane_put acc p) as (st & f & s & st' & He & _ & _ & Hst' & -> & _). cbn [fst snd].
  assert (pane_surface st' = pane_surface st) as Hs.
  { rewrite Hst'. destruct (wants_capture _); by destruct st. }
  clear Hst'. unfold pane_entry in He. unfold surfaces at 2 3 4 5. cbn [fst snd]. rewrite lookup_fmap.
  destruct (panes acc.1.2 !! TmuxModel.pane_id p) as [st0|] eqn:Hst0; injection He as He1 _ <-; subst st; cbn [fmap option_fmap option_map].
  - by rewrite (surfaces_put _ _ st0).
  - unfold surfaces. rewrite (proj1 (put_fields _ _ _)), fmap_insert, Hs. by destruct acc as [[? []] ?].
Qed.

Lemma placed_reconcile_pane c acc p :
  (surfaces (reconcile_pane acc p).1.2).2 < u64_max → placed c (surfaces acc.1.2) → placed c (surfaces (reconcile_pane acc p).1.2).
Proof.
  rewrite surfaces_reconcile_pane. destruct (surfaces acc.1.2) as [m n]. cbn [fst snd]. intros Hmax Hx.
  destruct (m !! TmuxModel.pane_id p) eqn:E; [done|]. cbn [fst snd] in Hmax.
  assert (sat_add u64_max n 1 = n + 1) as -> by (unfold sat_add in *; lia). clear Hmax.
  destruct Hx as [Hn Hr Hu]; cbn [fst snd] in *. split; cbn [fst snd]; [lia| |].
  - intros id k [[_ <-]|[_ Hk]]%lookup_insert_Some; [lia|]. specialize (Hr _ _ Hk). lia.
  - intros id id' k [[<- <-]|[Hne Hk]]%lookup_insert_Some [[<- Heq]|[Hne' Hk']]%lookup_insert_Some; [done|..].
    + specialize (Hr _ _ Hk'). lia.
    + specialize (Hr _ _ Hk). lia.
    + by eapply Hu.
Qed.

Lemma next_grows acc p : (surfaces acc.1.2).2 ≤ u64_max →
  (surfaces acc.1.2).2 ≤ (surfaces (reconcile_pane acc p).1.2).2 ≤ u64_max.
Proof.
  rewrite surfaces_reconcile_pane. destruct (surfaces acc.1.2) as [m n]. cbn [fst snd].
  destruct (m !! _); cbn [snd]; unfold sat_add; lia.
Qed.

Lemma placed_reconcile_panes c ps acc :
  (surfaces acc.1.2).2 ≤ u64_max →
  (surfaces acc.1.2).2 ≤ (surfaces (fold_left reconcile_pane ps acc).1.2).2 ≤ u64_max ∧
  ((surfaces (fold_left reconcile_pane ps acc).1.2).2 < u64_max → placed c (surfaces acc.1.2) →
   placed c (surfaces (fold_left reconcile_pane ps acc).1.2)).
Proof.
  revert acc. induction ps as [|p ps IH]; intros acc Hmax; cbn [fold_left]; [split; [lia|done]|].
  pose proof (next_grows acc p Hmax) as Hg. destruct (IH (reconcile_pane acc p)) as [H1 H2]; [lia|].
  split; [lia|]. intros Hlt Hx. apply H2; [done|]. apply placed_reconcile_pane; [lia|done].
Qed.

Lemma placed_reconcile c fresh t s :
  (surfaces s).2 ≤ u64_max →
  (surfaces s).2 ≤ (surfaces (reconcile fresh t s).1.2).2 ≤ u64_max ∧
  ((surfaces (reconcile fresh t s).1.2).2 < u64_max → placed c (surfaces s) → placed c (surfaces (reconcile fresh t s).1.2)).
Proof.
  intros Hmax. unfold reconcile. set (removed := List.filter _ _).
  assert (∀ ids (acc : TmuxPaneSet V * N), (surfaces (fold_left remove_pane ids acc).1).2 = (surfaces acc.1).2 ∧
            (placed c (surfaces acc.1) → placed c (surfaces (fold_left remove_pane ids acc).1))) as Hrem.
  { intros ids. induction ids as [|i ids IH]; intros acc; cbn [fold_left]; [done|].
    destruct (IH (remove_pane acc i)) as [H1 H2]. rewrite surfaces_remove in H1, H2. split; [done|].
    intros Hx. by apply H2, placed_delete. }
  destruct (Hrem removed (s, 0)) as [H1 H2]. destruct (fold_left remove_pane removed (s, 0)) as [s1 n]. cbn [fst] in H1, H2.
  set (s1' := s1 <| prebootstrap_bytes := _ |>). assert (surfaces s1' = surfaces s1) as Hs1 by (by destruct s1).
  destruct (placed_reconcile_panes c (topology_panes t) (fresh, s1', [])) as [H3 H4]; [cbn [fst snd]; congruence|].
  cbn [fst snd] in H3, H4. rewrite Hs1 in H3, H4.
  destruct (fold_left reconcile_pane _ _) as [[f s2] rs]. cbn [fst snd] in *.
  assert (∀ a b, surfaces (s2 <| prebootstrap_bytes := a |> <| orphan_output := b |>) = surfaces s2) as -> by (by destruct s2).
  split; [by rewrite <-H1|auto].
Qed.

Lemma namespace_value c : surface_namespace c = 2 ^ 63 + (c mod 2 ^ 31) * 2 ^ 32.
Proof.
  unfold surface_namespace.
  assert (N.land ((c * 0x100000000) mod 2 ^ 64) 0x7fffffff00000000 = (c mod 2 ^ 31) * 2 ^ 32) as ->.
  { change 0x7fffffff00000000 with (N.shiftl (N.ones 31) 32). change 0x100000000 with (2 ^ 32).
    rewrite <-!N.shiftl_mul_pow2. apply N.bits_inj. intros k. rewrite N.land_spec.
    destruct (N.lt_ge_cases k 32) as [Hk|Hk]; [rewrite !N.shiftl_spec_low by done; by rewrite andb_false_r|].
    rewrite !(N.shiftl_spec_high _ 32 k) by lia. rewrite <-!N.land_ones, !N.land_spec.
    destruct (N.lt_ge_cases (k - 32) 31) as [Hj|Hj].
    - rewrite (N.shiftl_spec_high _ 32 k), !N.ones_spec_low by lia. by rewrite !andb_true_r.
    - rewrite (N.ones_spec_high 31 (k - 32)) by lia. by rewrite !andb_false_r. }
  f_equal. change 0x8000000000000000 with (2 ^ 63). 
  enough (N.land (2 ^ 63) (c mod 2 ^ 31 * 2 ^ 32) = 0) as Hl by (by rewrite <-N.lxor_lor, N.add_nocarry_lxor).
  apply N.bits_inj_0. intros k. rewrite N.land_spec.
  destruct (decide (k = 63)) as [->|Hk].
  - rewrite <-N.shiftl_mul_pow2, (N.shiftl_spec_high _ 32 63), <-N.land_ones, N.land_spec by lia.
    change (63 - 32) with 31. rewrite (N.ones_spec_high 31 31) by lia. by rewrite !andb_false_r.
  - by rewrite N.pow2_bits_false.
Qed.

(** As long as fewer than 2^32 - 2 panes have appeared, the surfaces of a
    connection's panes are all different and different from its border's, and
    no surface is shared by connections whose identities differ modulo 2^31. *)
Theorem surfaces_are_not_shared c fresh es :
  let s := (run es (fresh, pane_set_new c)).2 in
  next_surface_id s + 1 < surface_namespace c + 2 ^ 32 →
  (∀ id id' n, surface_id id s = Some n → surface_id id' s = Some n → id = id') ∧
  (∀ id n, surface_id id s = Some n →
     n ≠ surface_namespace c ∧ ∀ c', c' mod 2 ^ 31 ≠ c mod 2 ^ 31 →
       n < surface_namespace c' ∨ surface_namespace c' + 2 ^ 32 ≤ n).
Proof.
  intros s Hs. set (s0 := pane_set_new c) in *.
  pose proof (N.mod_lt c (2 ^ 31) ltac:(lia)) as Hc. pose proof (namespace_value c) as Hns.
  assert (∀ (l : list Event) w, (surfaces w.2).2 ≤ u64_max →
    (surfaces w.2).2 ≤ (surfaces (run l w).2).2 ≤ u64_max ∧
    ((surfaces (run l w).2).2 < u64_max → placed c (surfaces w.2) → placed c (surfaces (run l w).2))) as Hrun.
  { unfold run. induction l as [|e l IH]; intros w Hmax; cbn [fold_left]; [split; [lia|done]|].
    assert ((surfaces w.2).2 ≤ (surfaces (step e w).2).2 ≤ u64_max ∧
      ((surfaces (step e w).2).2 < u64_max → placed c (surfaces w.2) → placed c (surfaces (step e w).2))) as [H1 H2].
    { destruct w as [f s1]. cbn [snd] in *. destruct e; try (rewrite surfaces_step by done; split; [lia|done]).
      by apply placed_reconcile. }
    destruct (IH (step e w)) as [H3 H4]; [lia|]. split; [lia|]. intros Hlt Hx. apply H4; [done|]. apply H2; [lia|done]. }
  assert ((surfaces s0).2 = surface_namespace c + 1) as H0.
  { change ((surfaces s0).2) with (sat_add u64_max (surface_namespace c) 1). unfold sat_add, u64_max. lia. }
  assert (placed c (surfaces s0)) as Hp0.
  { split; [rewrite H0; lia|..]; unfold surfaces; cbn [fst]; intros ? ?; rewrite ?lookup_fmap; done. }
  destruct (Hrun es (fresh, s0)) as [_ Hp]; [cbn [snd]; unfold u64_max; lia|].
  fold s in Hp. cbn [snd] in Hp. change (next_surface_id s) with ((surfaces s).2) in Hs.
  destruct Hp as [Hn Hr Hu]; [unfold u64_max; lia|done|].
  assert (∀ id, surface_id id s = (surfaces s).1 !! id) as Hid by (intros id; unfold surfaces; cbn [fst]; by rewrite lookup_fmap).
  split.
  - intros id id' n. rewrite !Hid. apply Hu.
  - intros id n. rewrite Hid. intros Hid'. specialize (Hr _ _ Hid'). split; [lia|]. intros c' Hne.
    pose proof (namespace_value c') as Hns'. clear -Hns Hns' Hne Hr Hs.
    remember (c' mod 2 ^ 31) as b. remember (c mod 2 ^ 31) as a.
    change (2 ^ 32) with 4294967296 in *. change (2 ^ 63) with 9223372036854775808 in *. lia.
Qed.
End Surfaces.

(** * Lines of a capture *)

(** A line tmux prints as its flags, a space and its text is read back, and so
    is the prompt mark it stands for; text that does not start with flags is
    kept whole. *)
Theorem flagged_lines_are_read_back flags text :
  flags ≠ [] → Forall (λ c, is_line_flag c = true) flags →
  capture_line_flags (flags ++ SP :: text) = (flags, text) ∧
  replayed_line true (flags ++ SP :: text) = replayed_line true (flags ++ [SP]) ++ text ∧
  replayed_line false (flags ++ SP :: text) = flags ++ SP :: text.
Proof.
  intros Hne Hf.
  assert (∀ rest, capture_line_flags (flags ++ SP :: rest) = (flags, rest)) as Hread.
  { intros rest. unfold capture_line_flags. rewrite position_app_first; [| |done].
    - rewrite take_app_length, drop_S_app, bool_decide_eq_false_2 by done.
      by rewrite (proj2 (forallb_Forall is_line_flag flags) Hf).
    - eapply Forall_impl; [exact Hf|]. intros c Hc. apply N.eqb_neq. intros <-. discriminate. }
  split; [apply Hread|]. split; [|done].
  unfold replayed_line. rewrite !Hread. by rewrite app_nil_r.
Qed.

(** * A concrete view *)

Record LoggedView := { log_id : N; log_size : N * N; log : bytes; log_tracked : bool }.

#[export] Instance logged_view : PaneView LoggedView N := {
  view_new id rows cols := {| log_id := id; log_size := (rows, cols); log := []; log_tracked := false |};
  view_id := log_id;
  process_changes b v := v <| log := log v ++ b |>;
  process_changes_with_batch b _ v := (v <| log := log v ++ b |>, len b);
  discard_shadow_pty_replies v := v;
  clear_update_summary v := v;
  finalize_changes _ v := v;
  enable_presentation_tracking_view v := v <| log_tracked := true |>;
  live_size := log_size;
  set_size rows cols v := v <| log_size := (rows, cols) |>;
  has_visible_non_whitespace_content v := existsb is_lower (log v);
  holds_synchronized_output _ := false
}.

#[export] Instance logged_view_laws : PaneViewLaws LoggedView N.
Proof. exists log; intros; repeat match goal with v : LoggedView |- _ => destruct v end; reflexivity. Defined.

(** Pane 20 of window 10, ten columns wide. *)
Definition left_pane : Pane := {|
  TmuxModel.pane_id := 20; pane_window := 10; pane_index := 1; TmuxModel.title := []; left := 0; top := 0; width := 10;
  height := 4; dead := false; cursor_x := 0; cursor_y := 0; cursor_visible := true; cursor_shape := bs "default";
  alternate_on := false; pane_in_mode := 0; mode := []; history_size := 0 |}.
Definition one_pane : TmuxTopology := (topology_new 1) <| TmuxModel.panes := {[ 20 := left_pane ]} |>.

Definition early_events : list Event :=
  [Output 20 (bs "one ") true; Output 21 (bs "other") true; Reconcile one_pane; Output 20 (bs "two") false;
   SetPortal 20 7; ClearPortal 20 7].
Definition early_state : N * TmuxPaneSet LoggedView := run early_events (1, pane_set_new 1).

Lemma keyed_one_pane : keyed one_pane.
Proof. intros id p. cbn. by intros [<- <-]%lookup_singleton_Some. Qed.


Lemma views_stay_addressable_witness :
  is_Some (model_by_id 1 (run [ClearPortal 20 7; RetainViews [1]; Reconcile (topology_new 1)]
    (run [EnableTracking; Reconcile one_pane; SetPortal 20 7; Bootstrap 20 Success [] true 0] (1, pane_set_new (V := LoggedView) 1))).2).
Proof.
  apply (views_stay_addressable 1 [ClearPortal 20 7; RetainViews [1]; Reconcile (topology_new 1)]).
  - by vm_compute.
  - repeat constructor; cbn; [tauto| |tauto]. intros H. apply H. by left.
  - by vm_compute; eexists.
Defined.

Lemma inventories_request_missing_captures_witness :
  let s' := (reconcile 1 one_pane (pane_set_new (V := LoggedView) 1)).1.2 in
  (∀ id, metadata <$> panes s' !! id = TmuxModel.panes one_pane !! id) ∧
  (∀ id st, panes s' !! id = Some st → bootstrapped st = true ∨ bootstrap_requested st = true) ∧
  (reconcile 1 one_pane (pane_set_new (V := LoggedView) 1)).2 =
    request_of <$> List.filter (lacks_capture (pane_set_new (V := LoggedView) 1)) (topology_panes one_pane) ∧
  NoDup (request_pane <$> (reconcile 1 one_pane (pane_set_new (V := LoggedView) 1)).2).
Proof. exact (inventories_request_missing_captures 1 one_pane (pane_set_new 1) keyed_one_pane). Defined.

Lemma surfaces_are_not_shared_witness :
  (∀ id id' n, surface_id id early_state.2 = Some n → surface_id id' early_state.2 = Some n → id = id') ∧
  (∀ id n, surface_id id early_state.2 = Some n →
     n ≠ surface_namespace 1 ∧ ∀ c', c' mod 2 ^ 31 ≠ 1 mod 2 ^ 31 →
       n < surface_namespace c' ∨ surface_namespace c' + 2 ^ 32 ≤ n).
Proof. apply (surfaces_are_not_shared 1 1 early_events). by vm_compute. Defined.

Lemma flagged_lines_are_read_back_witness :
  capture_line_flags (bs "P- $ ls") = (bs "P-", bs "$ ls") ∧
  replayed_line true (bs "P- $ ls") = replayed_line true (bs "P- ") ++ bs "$ ls" ∧
  replayed_line false (bs "P- $ ls") = bs "P- $ ls".
Proof. apply (flagged_lines_are_read_back (bs "P-") (bs "$ ls")); [done|]. repeat constructor. Defined.

(** A second capture request is not made while the first is pending. *)
Example one_request :
  (reconcile 1 one_pane (reconcile 1 one_pane (pane_set_new (V := LoggedView) 1)).1.2).2 = [] ∧
  (reconcile 1 one_pane (pane_set_new (V := LoggedView) 1)).2 =
    [{| request_pane := 20; request_command := bs "capture-pane -p -e -F -J -S - -t %20" ++ [LF] |}].
Proof. by vm_compute. Qed.
