(* ===== verification/ConnectionView.v ===== *)
(** The view of one tmux connection (src/src/views/tmux_connection.rs): which
    window and pane it shows, when it is ready to be shown, its portals, and
    where its input goes.

    Lines of a placeholder are the text written to it.  The grid a pane shows
    ([PaneScreen]) tells whether pastes are bracketed and how the mouse is
    reported. *)

From S2P Require Import Prelude TmuxControl TmuxModel TmuxLayout Terminal TmuxInput TerminalInput PaneSet.
Local Open Scope N_scope.

Definition crlf : bytes := [CR; LF].
Definition CONNECTION_TEXT : bytes :=
  bs "tmux connection is active." ++ crlf ++ bs "Waiting for tmux session and pane inventory.".
Definition PORTAL_TEXT : bytes :=
  bs "tmux control mode is running." ++ crlf ++ bs "Press Enter to switch to the active session in this connection.".

(** * The active window *)

Record ActiveWindow := { window_layout : TmuxLayout; shown_pane : option N; window_title_text : bytes }.

Inductive ActiveWindowProjection :=
| NoActiveWindow
| NoLayout
| InvalidLayout (e : LayoutError)
| Ready (active : ActiveWindow).

Definition from_topology (t : TmuxTopology) : ActiveWindowProjection :=
  match attached_session t ≫= λ id, sessions t !! id with
  | None => NoActiveWindow
  | Some session =>
      match active_window session ≫= λ id, windows t !! id with
      | None => NoActiveWindow
      | Some window =>
          let layout_text := if bool_decide (visible_layout window = []) then layout window else visible_layout window in
          if bool_decide (layout_text = []) then NoLayout else
          match layout_parse layout_text with
          | Err e => InvalidLayout e
          | Ok l =>
              let known id := bool_decide (is_Some (TmuxModel.panes t !! id)) in
              let active := match active_pane window with
                            | Some id => if bool_decide (is_Some (layout_pane id l)) && known id then Some id else None
                            | None => None
                            end in
              let active := match active with
                            | Some id => Some id
                            | None => List.find known (TmuxLayout.pane_id <$> TmuxLayout.panes l)
                            end in
              Ready {| window_layout := l; shown_pane := active; window_title_text := window_name window |}
          end
      end
  end.

Definition ready (p : ActiveWindowProjection) : option ActiveWindow :=
  match p with Ready a => Some a | _ => None end.
Definition projected_pane (p : ActiveWindowProjection) : option N := a ← ready p; shown_pane a.
Definition for_composition (p : ActiveWindowProjection) : result TmuxPaneError ActiveWindow :=
  match p with
  | Ready a => Ok a
  | NoActiveWindow => Err MissingActiveWindow
  | NoLayout => Err MissingLayout
  | InvalidLayout e => Err (LayoutFailed e)
  end.

(** * The view *)

(** What else is read of a view's live screen. *)
Class PaneScreen (V : Type) := {
  bracketed_paste : V → bool;
  mouse_protocol_mode : V → MouseProtocol;
  mouse_protocol_encoding : V → MouseEncoding
}.

(** The actions of [ViewAction] that a connection answers with. *)
Inductive ConnectionAction :=
| NoAction
| ActivateTmuxConnection (connection : N)
| TmuxInput (connection pane : N) (input : bytes).

Definition is_enter (input : bytes) : bool := bool_decide (input = [CR]) || bool_decide (input = [LF]).

(** [sort_by_key], which is stable: an insertion sort. *)
Fixpoint insert_by_key {A} (key : A → N) (x : A) (l : list A) : list A :=
  match l with
  | [] => [x]
  | y :: l' => if key x <=? key y then x :: l else y :: insert_by_key key x l'
  end.
Definition sort_by_key {A} (key : A → N) (l : list A) : list A := foldr (insert_by_key key) [] l.

Section Connection.
Context {V U : Type} `{PV : PaneView V U} `{PS : PaneScreen V}.

Record TmuxConnectionView := {
  view_connection : N;
  placeholder : V;
  portal : V;
  pane_set : TmuxPaneSet V;
  topology : TmuxTopology;
  active_window : ActiveWindowProjection;
  showing_portal : bool;
  inventory_error : option bytes
}.

Definition render_text (text : bytes) (v : V) : V :=
  process_changes ((ESC :: bs "[2J") ++ (ESC :: bs "[H") ++ text) (clear_update_summary v).

(** [fresh] is the next view identity; a connection takes two. *)
Definition connection_view_new (fresh rows cols id : N) : TmuxConnectionView := {|
  view_connection := id;
  placeholder := render_text CONNECTION_TEXT (view_new fresh rows cols);
  portal := render_text PORTAL_TEXT (view_new (fresh + 1) rows cols);
  pane_set := pane_set_new id; topology := topology_new id; active_window := NoActiveWindow;
  showing_portal := false; inventory_error := None
|}.

Definition placeholder_text (c : TmuxConnectionView) : bytes :=
  match inventory_error c with
  | Some detail =>
      bs "tmux connection could not become ready." ++ crlf ++ detail ++ crlf ++
      bs "Use Lector's connection commands to switch away or close this connection."
  | None =>
      match attached_session (topology c) ≫= λ id, sessions (topology c) !! id with
      | None => CONNECTION_TEXT
      | Some session =>
          let where_ := bs "session $" ++ to_dec (session_id session) ++ SP :: session_name session in
          match TmuxModel.active_window session ≫= λ id, windows (topology c) !! id with
          | None =>
              bs "tmux connection is active." ++ crlf ++ where_ ++ bs " has no active window." ++ crlf ++
              bs "Waiting for tmux to create or select a window."
          | Some window =>
              let what := bs "window @" ++ to_dec (window_id window) ++ SP :: window_name window ++ bs " in " ++ where_ in
              if bool_decide (projected_pane (active_window c) = None)
              then bs "tmux connection is active." ++ crlf ++ what ++ bs " has no active pane." ++ crlf ++
                   bs "Waiting for tmux pane inventory."
              else bs "tmux connection is active." ++ crlf ++ what ++ bs " is becoming ready."
          end
      end
  end.
Definition render_placeholder (c : TmuxConnectionView) : TmuxConnectionView :=
  c <| placeholder := render_text (placeholder_text c) (placeholder c) |>.

Definition request_rank (next : ActiveWindowProjection) (r : BootstrapRequest) : N :=
  if bool_decide (Some (request_pane r) = projected_pane next) then 0
  else if match ready next with
          | Some a => bool_decide (is_Some (layout_pane (request_pane r) (window_layout a)))
          | None => false
          end then 1 else 2.

Definition sync_topology (fresh : N) (t : TmuxTopology) (c : TmuxConnectionView)
    : N * TmuxConnectionView * list BootstrapRequest :=
  let next := from_topology t in
  let '(fresh, s, requests) := reconcile fresh t (pane_set c) in
  let s := if bool_decide (projected_pane (active_window c) = projected_pane next) then s else clear_update_summaries s in
  let c := c <| pane_set := s |> <| topology := t |> <| active_window := next |> <| inventory_error := None |> in
  (fresh, render_placeholder c, sort_by_key (request_rank next) requests).

Definition is_ready (c : TmuxConnectionView) : bool :=
  match ready (active_window c) with
  | None => false
  | Some a =>
      negb (bool_decide (TmuxLayout.panes (window_layout a) = [])) &&
      forallb (λ p, bool_decide (is_Some (TmuxModel.panes (topology c) !! TmuxLayout.pane_id p)) &&
                    pane_is_bootstrapped (TmuxLayout.pane_id p) (pane_set c)) (TmuxLayout.panes (window_layout a)) &&
      bool_decide (is_Some (shown_pane a))
  end.

Definition active_pane_portal_target (c : TmuxConnectionView) : option N :=
  id ← projected_pane (active_window c); pane_portal_target id (pane_set c).
Definition is_showing_portal (c : TmuxConnectionView) : bool :=
  showing_portal c || bool_decide (is_Some (active_pane_portal_target c)).

Definition active_input_pane (c : TmuxConnectionView) : option N :=
  if showing_portal c || negb (is_ready c) || bool_decide (is_Some (active_pane_portal_target c)) then None
  else projected_pane (active_window c).

Definition set_inventory_error (detail : bytes) (c : TmuxConnectionView) : TmuxConnectionView :=
  render_placeholder (c <| inventory_error := Some detail |>).
Definition show_portal (c : TmuxConnectionView) : TmuxConnectionView :=
  c <| pane_set := clear_update_summaries (pane_set c) |> <| showing_portal := true |>.
Definition show_connection (c : TmuxConnectionView) : TmuxConnectionView :=
  c <| pane_set := clear_update_summaries (pane_set c) |> <| showing_portal := false |>.

Definition connection_title (c : TmuxConnectionView) : bytes :=
  if is_showing_portal c then bs "tmux portal"
  else match attached_location (topology c) with
       | None => bs "tmux, " ++ label (topology c) ++ bs ", no active window"
       | Some location => accessible_title location
       end.

Definition is_pane_visible (id : N) (c : TmuxConnectionView) : bool :=
  match ready (active_window c) with
  | Some a => bool_decide (is_Some (layout_pane id (window_layout a)))
  | None => false
  end.

Definition connection_holds_synchronized_output (c : TmuxConnectionView) : bool :=
  negb (showing_portal c) &&
  match ready (active_window c) with
  | Some a => visible_holds_synchronized_output (window_layout a) (pane_set c)
  | None => false
  end.

(** [model]: the view the connection is read from.  The last lookup of the
    code succeeds whenever the connection is ready. *)
Definition model (c : TmuxConnectionView) : V :=
  if showing_portal c then portal c
  else if is_ready c then
    match projected_pane (active_window c) with
    | None => placeholder c
    | Some id =>
        match PaneSet.panes (pane_set c) !! id with
        | None => placeholder c
        | Some st => presented_view st
        end
    end
  else placeholder c.

Definition connection_frames (c : TmuxConnectionView) : option N * list (N * N) :=
  match ready (active_window c) with
  | None => (Some (view_id (model c)), [])
  | Some a => capture_presentation_frames (window_layout a) (shown_pane a) (pane_set c)
  end.

Definition connection_model_by_id (id : N) (c : TmuxConnectionView) : option V :=
  if view_id (placeholder c) =? id then Some (placeholder c)
  else if view_id (portal c) =? id then Some (portal c)
  else model_by_id id (pane_set c).

Definition connection_retain (retained : list N) (c : TmuxConnectionView) : TmuxConnectionView :=
  c <| pane_set := retain_accessibility_views retained (pane_set c) |>.
Definition connection_track (c : TmuxConnectionView) : TmuxConnectionView :=
  c <| placeholder := enable_presentation_tracking_view (placeholder c) |>
    <| portal := enable_presentation_tracking_view (portal c) |>
    <| pane_set := enable_presentation_tracking (pane_set c) |>.

Definition connection_on_resize (rows cols : N) (c : TmuxConnectionView) : TmuxConnectionView :=
  let c := render_placeholder (c <| placeholder := set_size rows cols (placeholder c) |>) in
  c <| portal := render_text PORTAL_TEXT (set_size rows cols (portal c)) |>.

(** The operations of the pane set a connection passes on. *)
Definition on_panes {A} (f : TmuxPaneSet V → N * TmuxPaneSet V * A) (c : TmuxConnectionView) : N * TmuxConnectionView * A :=
  let '(fresh, s, r) := f (pane_set c) in (fresh, c <| pane_set := s |>, r).
Definition connection_bootstrap (fresh id : N) (status : CommandStatus) (output : list bytes) (flags : bool) (now : N) :=
  on_panes (apply_bootstrap_with_line_flags fresh id status output flags now).
Definition connection_set_portal (fresh id child : N) := on_panes (set_pane_portal fresh id child).
Definition connection_clear_portal (id child : N) (c : TmuxConnectionView) : TmuxConnectionView :=
  c <| pane_set := clear_pane_portal id child (pane_set c) |>.
Definition connection_output (id : N) (b : bytes) (retain : bool) (c : TmuxConnectionView)
    : TmuxConnectionView * result TmuxPaneError (option U) :=
  let '(s, r) := process_output_with_summary_retention id b retain (pane_set c) in (c <| pane_set := s |>, r).
Definition connection_resync (fresh : N) (m : PaneCaptureMetadata) (output : list bytes) (pending : bytes) (flags : bool)
    (now : N) (c : TmuxConnectionView) : N * TmuxConnectionView * result TmuxPaneError unit :=
  match update_pane_capture_metadata m (topology c) with
  | (_, Err _) => (fresh, c, Err (UnknownPane (meta_pane_id m)))
  | (t, Ok _) =>
      on_panes (apply_resync_capture_with_line_flags fresh m output pending flags now) (c <| topology := t |>)
  end.

(** ** Input *)

Definition input_action (pane : N) (b : bytes) (c : TmuxConnectionView) : ConnectionAction :=
  TmuxInput (view_connection c) pane b.
Definition active_input_action (b : bytes) (c : TmuxConnectionView) : ConnectionAction :=
  if is_showing_portal c || negb (is_ready c) || bool_decide (b = []) then NoAction
  else match projected_pane (active_window c) with
       | None => NoAction
       | Some id => input_action id b c
       end.

(** [enter] tells whether the input is Enter, [b] is what the shown pane gets:
    the body [handle_input] and [handle_key_input] share. *)
Definition route_input (enter : bool) (b : bytes) (c : TmuxConnectionView) : ConnectionAction :=
  if showing_portal c && enter then ActivateTmuxConnection (view_connection c)
  else match active_pane_portal_target c with
       | Some child => if enter then ActivateTmuxConnection child else NoAction
       | None => active_input_action b c
       end.
Definition handle_input (input : bytes) : TmuxConnectionView → ConnectionAction := route_input (is_enter input) input.

Section Keys.
Context (normalize_case : KeyEvent → KeyEvent).
Definition key_is_enter (k : KeyInput) : bool :=
  negb (is_release k) &&
  (match control_code normalize_case k with Some c => (c =? LF) || (c =? CR) | None => false end || bool_decide (code (event k) = Enter)).
Definition handle_key_input (k : KeyInput) (raw : bytes) : TmuxConnectionView → ConnectionAction := route_input (key_is_enter k) raw.
End Keys.

(** The action, and whether "pasted" is spoken. *)
Definition handle_paste (contents : bytes) (c : TmuxConnectionView) : ConnectionAction * bool :=
  if is_showing_portal c || negb (is_ready c) then (NoAction, false)
  else match projected_pane (active_window c) with
       | None => (NoAction, false)
       | Some id =>
           match PaneSet.panes (pane_set c) !! id with
           | None => (NoAction, false)
           | Some st =>
               let b := if bracketed_paste (view st)
                        then (ESC :: bs "[200~") ++ contents ++ (ESC :: bs "[201~") else contents in
               (input_action id b c, true)
           end
       end.

Definition active_layout_pane (c : TmuxConnectionView) : option LayoutPane :=
  a ← ready (active_window c); id ← shown_pane a; layout_pane id (window_layout a).
Definition translate_mouse_input (e : MouseEvent) (c : TmuxConnectionView) : option ConnectionAction :=
  if is_showing_portal c || negb (is_ready c) then None
  else
    p ← active_layout_pane c;
    st ← PaneSet.panes (pane_set c) !! TmuxLayout.pane_id p;
    b ← translate_mouse e p (mouse_protocol_mode (view st)) (mouse_protocol_encoding (view st));
    Some (input_action (TmuxLayout.pane_id p) b c).
End Connection.
Arguments TmuxConnectionView V : clear implicits.

(** * Requests in the order they are sent *)

Lemma insert_by_key_app {A} (key : A → N) x l1 l2 :
  Forall (λ y, key y < key x) l1 → Forall (λ y, key x ≤ key y) l2 →
  insert_by_key key x (l1 ++ l2) = l1 ++ x :: l2.
Proof.
  intros H1 H2. induction H1 as [|y l1 Hy _ IH]; cbn.
  - destruct H2 as [|y l2 Hy _]; [done|]. cbn. by rewrite (proj2 (N.leb_le _ _) Hy).
  - by rewrite (proj2 (N.leb_gt _ _) Hy), IH.
Qed.

Definition of_rank {A} (key : A → N) (k : N) (l : list A) : list A := List.filter (λ x, key x =? k) l.

Lemma sort_by_key_ranks {A} (key : A → N) l :
  (∀ x, key x ≤ 2) → sort_by_key key l = of_rank key 0 l ++ of_rank key 1 l ++ of_rank key 2 l.
Proof.
  intros Hkey. induction l as [|x l IH]; [done|].
  assert (∀ k, Forall (λ y, key y = k) (of_rank key k l)) as Hall.
  { intros k. apply Forall_forall. intros y [_ Hy]%elem_of_Filter. lia. }
  assert (∀ (P : N → Prop) k, P k → Forall (λ y, P (key y)) (of_rank key k l)) as Hp.
  { intros P k Hk. eapply Forall_impl; [apply (Hall k)|]. by intros y ->. }
  cbn [sort_by_key foldr]. change (foldr (insert_by_key key) [] l) with (sort_by_key key l). rewrite IH.
  unfold of_rank at 4 5 6. cbn [List.filter]. fold (of_rank key 0 l) (of_rank key 1 l) (of_rank key 2 l).
  specialize (Hkey x). destruct (decide (key x = 0)) as [E|E]; [|destruct (decide (key x = 1)) as [E1|E1]].
  - rewrite E; cbn. apply (insert_by_key_app key x []); [done|].
    rewrite !Forall_app. split_and!; apply (Hp (λ k, key x ≤ k)); lia.
  - rewrite E1; cbn. apply insert_by_key_app; [apply (Hp (λ k, k < key x)); lia|].
    rewrite Forall_app. split; apply (Hp (λ k, key x ≤ k)); lia.
  - assert (key x = 2) as -> by lia. cbn. rewrite !app_assoc. apply insert_by_key_app.
    + rewrite Forall_app. split; apply (Hp (λ k, k < key x)); lia.
    + apply (Hp (λ k, key x ≤ k)); lia.
Qed.

Section Facts.
Context {V U : Type} `{PV : PaneView V U} `{PS : PaneScreen V}.
Implicit Types c : TmuxConnectionView V.

(** Captures are asked for first for the active pane, then for the other panes
    of the shown window, then for the hidden ones, each group in the order of
    the inventory. *)
Theorem shown_panes_are_captured_first fresh t c :
  let requests := (reconcile fresh t (pane_set c)).2 in
  let rank := request_rank (from_topology t) in
  (sync_topology fresh t c).2 = of_rank rank 0 requests ++ of_rank rank 1 requests ++ of_rank rank 2 requests.
Proof.
  cbv zeta. unfold sync_topology. destruct (reconcile fresh t (pane_set c)) as [[f s] rs]. cbn [snd].
  apply sort_by_key_ranks. intros r. unfold request_rank. repeat case_match; lia.
Qed.

(** * What is shown *)

(** The active pane is a pane of the shown layout and of the topology. *)
Definition shown_ok (p : ActiveWindowProjection) (t : TmuxTopology) : Prop :=
  ∀ a id, p = Ready a → shown_pane a = Some id →
    is_Some (layout_pane id (window_layout a)) ∧ is_Some (TmuxModel.panes t !! id).

Lemma layout_pane_spec id l : is_Some (layout_pane id l) ↔ id ∈ (TmuxLayout.pane_id <$> TmuxLayout.panes l).
Proof.
  unfold layout_pane. rewrite list_elem_of_fmap. split.
  - intros [p Hp]. apply List.find_some in Hp as [Hin Heq]. exists p. split; [lia|]. by apply list_elem_of_In.
  - intros (p & -> & Hin). destruct (List.find _ _) as [q|] eqn:E; [by eexists|].
    pose proof (List.find_none _ _ E p (proj1 (list_elem_of_In _ _) Hin)) as Hn. cbn in Hn. lia.
Qed.

Lemma from_topology_ok t : shown_ok (from_topology t) t.
Proof.
  intros a id. unfold from_topology. destruct (_ ≫= _) as [session|]; [|done]. destruct (_ ≫= _) as [window|]; [|done].
  case_bool_decide; [done|]. destruct (layout_parse _) as [l|]; [|done]. intros [= <-]. cbn [shown_pane window_layout].
  set (known := λ id, bool_decide (is_Some (TmuxModel.panes t !! id))).
  assert (List.find known (TmuxLayout.pane_id <$> TmuxLayout.panes l) = Some id →
          is_Some (layout_pane id l) ∧ is_Some (TmuxModel.panes t !! id)) as Hfirst.
  { intros [Hin Hk]%List.find_some. split; [by apply layout_pane_spec, list_elem_of_In|by apply bool_decide_eq_true in Hk]. }
  destruct (active_pane window) as [id0|]; [|done].
  destruct (bool_decide (is_Some (layout_pane id0 l))) eqn:H1; cbn [andb]; [|done].
  destruct (bool_decide (is_Some (TmuxModel.panes t !! id0))) eqn:H2; [|done].
  apply bool_decide_eq_true in H1. apply bool_decide_eq_true in H2. by intros [= <-].
Qed.

(** Everything that happens to a connection's view; the events of its panes
    that need no more than them are [Panes]. *)
Inductive ConnectionEvent :=
| Sync (t : TmuxTopology)
| PaneOutput (id : N) (b : bytes) (retain : bool)
| PaneBootstrap (id : N) (status : CommandStatus) (output : list bytes) (flags : bool) (now : N)
| PaneResync (m : PaneCaptureMetadata) (output : list bytes) (pending : bytes) (flags : bool) (now : N)
| PaneSetPortal (id child : N)
| PaneClearPortal (id child : N)
| ShowPortal
| ShowConnection
| InventoryError (detail : bytes)
| RetainConnection (retained : list N)
| TrackConnection
| ResizeConnection (rows cols : N).

Definition connection_step (e : ConnectionEvent) (w : N * TmuxConnectionView V) : N * TmuxConnectionView V :=
  let '(fresh, c) := w in
  match e with
  | Sync t => (sync_topology fresh t c).1
  | PaneOutput id b retain => (fresh, (connection_output id b retain c).1)
  | PaneBootstrap id status output flags now => (connection_bootstrap fresh id status output flags now c).1
  | PaneResync m output pending flags now => (connection_resync fresh m output pending flags now c).1
  | PaneSetPortal id child => (connection_set_portal fresh id child c).1
  | PaneClearPortal id child => (fresh, connection_clear_portal id child c)
  | ShowPortal => (fresh, show_portal c)
  | ShowConnection => (fresh, show_connection c)
  | InventoryError detail => (fresh, set_inventory_error detail c)
  | RetainConnection retained => (fresh, connection_retain retained c)
  | TrackConnection => (fresh, connection_track c)
  | ResizeConnection rows cols => (fresh, connection_on_resize rows cols c)
  end.
Definition connection_run (es : list ConnectionEvent) (w : N * TmuxConnectionView V) : N * TmuxConnectionView V :=
  fold_left (λ w e, connection_step e w) es w.

Definition in_sync (c : TmuxConnectionView V) : Prop := shown_ok (active_window c) (topology c).

Lemma metadata_keeps_panes m t t' r id :
  update_pane_capture_metadata m t = (t', r) → is_Some (TmuxModel.panes t !! id) → is_Some (TmuxModel.panes t' !! id).
Proof.
  unfold update_pane_capture_metadata, mbind, M_bind, TmuxModel.gets, TmuxModel.lift, TmuxModel.modify. intros E Hid.
  destruct (TmuxModel.panes t !! meta_pane_id m) as [p|]; cbn [ok_or] in E.
  - injection E as E _. rewrite <-E. destruct t. cbn in *. by rewrite lookup_alter_is_Some.
  - by injection E as <- _.
Qed.

Lemma connection_step_sync e w : in_sync w.2 → in_sync (connection_step e w).2.
Proof.
  destruct w as [fresh c]; cbn [snd]. intros Hc.
  destruct e; cbn [connection_step snd]; try (unfold in_sync in *; destruct c; exact Hc).
  - unfold sync_topology. destruct (reconcile _ _ _) as [[f s] rs]. cbn [fst snd]. unfold in_sync.
    destruct c; cbn. apply from_topology_ok.
  - unfold connection_output. destruct (process_output_with_summary_retention _ _ _ _). unfold in_sync in *. by destruct c.
  - unfold connection_bootstrap, on_panes. destruct (apply_bootstrap_with_line_flags _ _ _ _ _ _ _) as [[f s] r].
    unfold in_sync in *. by destruct c.
  - unfold connection_resync. destruct (update_pane_capture_metadata m (topology c)) as [t' [|]] eqn:E; [|done].
    unfold on_panes. destruct (apply_resync_capture_with_line_flags _ _ _ _ _ _ _) as [[f s] r]. cbn [fst snd].
    unfold in_sync in *. destruct c; cbn in *. intros a' id Ha Hid. destruct (Hc a' id Ha Hid) as [H1 H2].
    split; [done|]. by eapply metadata_keeps_panes.
  - unfold connection_set_portal, on_panes. destruct (set_pane_portal _ _ _ _) as [[f s] r]. unfold in_sync in *. by destruct c.
Qed.

Lemma connection_run_sync es w : in_sync w.2 → in_sync (connection_run es w).2.
Proof. revert w. unfold connection_run. induction es as [|e es IH]; intros w Hw; cbn [fold_left]; [done|]. by apply IH, connection_step_sync. Qed.

Lemma ready_panes c a id :
  is_ready c = true → active_window c = Ready a → is_Some (layout_pane id (window_layout a)) →
  is_Some (TmuxModel.panes (topology c) !! id) ∧ ∃ st, panes (pane_set c) !! id = Some st ∧ bootstrapped st = true.
Proof.
  unfold is_ready. intros Hr Ha. rewrite Ha in Hr. cbn [ready] in Hr. intros Hid%layout_pane_spec.
  apply andb_true_iff in Hr as [Hr _]. apply andb_true_iff in Hr as [_ Hr].
  rewrite (forallb_Forall (λ p, _) _) in Hr. apply list_elem_of_fmap in Hid as (p & -> & Hp).
  rewrite Forall_forall in Hr. specialize (Hr p Hp). apply andb_true_iff in Hr as [H1 H2].
  apply bool_decide_eq_true in H1. split; [done|]. unfold pane_is_bootstrapped in H2.
  destruct (panes (pane_set c) !! _) as [st|]; [|done]. by exists st.
Qed.

(** C37. Input of a connection reaches a pane only when the connection shows that
    pane: it is active in the shown layout, known to the topology, captured,
    and not covered by a portal; and it reaches it unchanged.  While a portal is
    shown, Enter activates the connection behind it and nothing else is sent.
    This is of keys that are routed; pasted text and the mouse are not. *)
Theorem input_reaches_only_the_shown_pane fresh es rows cols cid enter b :
  let c := (connection_run es (fresh + 2, connection_view_new fresh rows cols cid)).2 in
  (∀ to id b', route_input enter b c = TmuxInput to id b' →
     to = view_connection c ∧ b' = b ∧ b ≠ [] ∧ is_showing_portal c = false ∧ active_input_pane c = Some id ∧
     is_pane_visible id c = true ∧ is_Some (TmuxModel.panes (topology c) !! id) ∧
     ∃ st, panes (pane_set c) !! id = Some st ∧ bootstrapped st = true ∧ pane_portal st = None) ∧
  (∀ id, active_input_pane c = Some id → b ≠ [] → route_input enter b c = TmuxInput (view_connection c) id b) ∧
  (is_showing_portal c = true →
     route_input enter b c =
     if enter then ActivateTmuxConnection (if showing_portal c then view_connection c else default 0 (active_pane_portal_target c))
     else NoAction).
Proof.
  intros c. assert (in_sync c) as Hc by (by apply connection_run_sync; intros ? ? ?).
  clearbody c. clear fresh es rows cols cid.
  unfold route_input, active_input_action, active_input_pane. split; [|split].
  - intros to id b'. destruct (showing_portal c) eqn:Hp; cbn [andb orb].
    + destruct enter; [done|]. unfold is_showing_portal. rewrite Hp. cbn [orb]. by destruct (active_pane_portal_target c).
    + destruct (active_pane_portal_target c) as [child|] eqn:Ht; [by destruct enter|].
      unfold is_showing_portal. rewrite Hp, Ht. change (bool_decide (is_Some (@None N))) with false. cbn [orb]. destruct (is_ready c) eqn:Hr; cbn [negb orb]; [|done].
      case_bool_decide as Hb; [done|]. destruct (projected_pane (active_window c)) as [id0|] eqn:Hid; [|done].
      unfold input_action. intros [= <- <- <-]. unfold projected_pane in Hid.
      destruct (active_window c) as [| | |a] eqn:Ha; try done. cbn in Hid.
      destruct (Hc a id0 Ha Hid) as [Hl _]. destruct (ready_panes c a id0 Hr Ha Hl) as [Htop (st & Hst & Hboot)].
      split_and!; try done.
      * unfold is_pane_visible. rewrite Ha. cbn [ready]. by apply bool_decide_eq_true.
      * exists st. split; [done|]. split; [done|]. unfold active_pane_portal_target, projected_pane in Ht. rewrite Ha in Ht.
        cbn in Ht. rewrite Hid in Ht. cbn in Ht. unfold pane_portal_target in Ht. rewrite Hst in Ht. cbn in Ht.
        by destruct (pane_portal st).
  - intros id. destruct (showing_portal c) eqn:Hp; cbn [andb orb]; [done|]. destruct (is_ready c) eqn:Hr; cbn [negb orb]; [|done].
    case_bool_decide as Ht; [done|]. intros -> Hb. destruct (active_pane_portal_target c) eqn:E; [destruct Ht; by eexists|].
    unfold is_showing_portal. rewrite Hp, E. change (bool_decide (is_Some (@None N))) with false. cbn [orb]. by rewrite bool_decide_eq_false_2.
  - unfold is_showing_portal. destruct (showing_portal c); cbn [andb orb].
    + intros _. destruct enter; [done|]. by destruct (active_pane_portal_target c).
    + intros Ht%bool_decide_eq_true. destruct (active_pane_portal_target c) as [child|]; [|by destruct Ht]. done.
Qed.

Lemma frames_active layout active s st :
  active ∈ (TmuxLayout.pane_id <$> TmuxLayout.panes layout) → panes s !! active = Some st →
  (capture_presentation_frames layout (Some active) s).1 = Some (view_id (presented_view (V := V) st)).
Proof.
  intros Hin Hst. unfold capture_presentation_frames. set (f := λ _ _, _).
  assert (∀ l acc, (active ∈ (TmuxLayout.pane_id <$> l) ∨ acc.1 = Some (view_id (presented_view st))) →
            (fold_left f l acc).1 = Some (view_id (presented_view st))) as Hfold.
  { induction l as [|p l IH]; intros acc Hl; cbn [fold_left].
    - destruct Hl as [Hl|]; [by apply elem_of_nil in Hl|done].
    - apply IH. unfold f at 1. destruct (decide (TmuxLayout.pane_id p = active)) as [->|Hne].
      + right. rewrite Hst. cbn [fst]. by rewrite bool_decide_eq_true_2.
      + destruct Hl as [[Heq|Hl]%elem_of_cons|Hl]; [congruence|by left|right].
        destruct (panes s !! TmuxLayout.pane_id p); [|done]. cbn [fst]. rewrite bool_decide_eq_false_2; [done|congruence]. }
  apply Hfold. by left.
Qed.

Lemma model_is_found c : is_Some (connection_model_by_id (view_id (model c)) c).
Proof.
  assert (∀ v, v = placeholder c ∨ v = portal c → is_Some (connection_model_by_id (view_id v) c)) as Hown.
  { unfold connection_model_by_id. intros v [->| ->]; rewrite N.eqb_refl; [by eexists|]. by case_match; eexists. }
  unfold model. destruct (showing_portal c); [auto|]. destruct (is_ready c); [|auto].
  destruct (projected_pane _) as [id|]; [|auto]. destruct (panes (pane_set c) !! id) as [st|] eqn:Hst; [|auto].
  unfold connection_model_by_id. do 2 (destruct (_ =? _); [by eexists|]).
  apply model_by_id_spec. left. exists id, st. split; [done|]. apply list_elem_of_fmap_2.
  unfold presented_view, pane_views, portal_views. destruct (pane_portal st); cbn; set_solver.
Qed.

Lemma active_frame_is_the_model c :
  in_sync c → showing_portal c = false → is_ready c = true → (connection_frames c).1 = Some (view_id (model c)).
Proof.
  intros Hc Hp Hr.
  unfold connection_frames, model. rewrite Hp, Hr. pose proof Hr as Hr'. unfold is_ready in Hr'.
  destruct (active_window c) as [| | |a] eqn:Ha; try done. cbn [ready] in *.
  apply andb_true_iff in Hr' as [_ Hsome]. apply bool_decide_eq_true in Hsome as [id Hid].
  unfold projected_pane. cbn. rewrite Hid. destruct (Hc a id Ha Hid) as [Hl _].
  destruct (ready_panes c a id Hr Ha Hl) as [_ (st & Hst & _)]. rewrite Hst. apply frames_active; [|done]. by apply layout_pane_spec.
Qed.

(** The view a connection is read from can be found by its identity, and what
    a presentation of a ready connection names as its active view is the view
    it is read from. *)
Theorem the_presented_view_is_read fresh es rows cols cid :
  let c := (connection_run es (fresh + 2, connection_view_new fresh rows cols cid)).2 in
  is_Some (connection_model_by_id (view_id (model c)) c) ∧
  (showing_portal c = false → is_ready c = true → (connection_frames c).1 = Some (view_id (model c))).
Proof.
  intros c. assert (in_sync c) as Hc by (by apply connection_run_sync; intros ? ? ?).
  split; [apply model_is_found|]. by apply active_frame_is_the_model.
Qed.
End Facts.

(** * The views a connection owns *)

Section Owned.
Context {V U : Type} `{PL : PaneViewLaws V U} `{PS : PaneScreen V}.
Implicit Types c : TmuxConnectionView V.

Lemma connection_owns_spec i c :
  is_Some (connection_model_by_id i c) ↔ view_id (placeholder c) = i ∨ view_id (portal c) = i ∨ owned i (pane_set c).
Proof.
  unfold connection_model_by_id. rewrite <-model_by_id_spec.
  destruct (N.eqb_spec (view_id (placeholder c)) i) as [E1|E1]; [split; [by left|by eexists]|].
  destruct (N.eqb_spec (view_id (portal c)) i) as [E2|E2]; [split; [by right; left|by eexists]|].
  split; [by right; right|]. by intros [?|[?|?]].
Qed.

(** What an operation must keep for the views to stay addressable. *)
Lemma connection_owns_kept i c c' :
  view_id (placeholder c') = view_id (placeholder c) → view_id (portal c') = view_id (portal c) →
  (owned i (pane_set c) → owned i (pane_set c')) →
  is_Some (connection_model_by_id i c) → is_Some (connection_model_by_id i c').
Proof. rewrite !connection_owns_spec. intros -> ->. tauto. Qed.

Lemma render_text_id text v : view_id (render_text text v) = view_id (V := V) v.
Proof. unfold render_text. by rewrite process_id, clear_id. Qed.

Lemma connection_track_owns i c : is_Some (connection_model_by_id i c) → is_Some (connection_model_by_id i (connection_track c)).
Proof. apply connection_owns_kept; destruct c; cbn; [apply tracking_id..|apply owned_track_panes]. Qed.
Lemma connection_retain_owns i retained c :
  i ∈ retained → is_Some (connection_model_by_id i c) → is_Some (connection_model_by_id i (connection_retain retained c)).
Proof. intros Hin. apply connection_owns_kept; destruct c; cbn; [done..|by apply owned_retain]. Qed.

Definition connection_releases (i : N) (e : ConnectionEvent) : Prop :=
  match e with RetainConnection retained => i ∉ retained | _ => False end.

(** Whatever happens to a connection whose presentation is tracked, its views
    can still be found, until they are released. *)
Theorem connection_views_stay_addressable i e fresh c :
  presentation_tracking (pane_set c) = true → ¬ connection_releases i e →
  is_Some (connection_model_by_id i c) → is_Some (connection_model_by_id i (connection_step e (fresh, c)).2).
Proof.
  intros Ht He. destruct e; cbn [connection_step snd].
  - unfold sync_topology. pose proof (owned_reconcile fresh t (pane_set c) i Ht) as Hr.
    destruct (reconcile fresh t (pane_set c)) as [[f s] rs]. cbn [fst snd] in *. apply connection_owns_kept.
    + destruct c; cbn. apply render_text_id.
    + by destruct c.
    + destruct c; cbn in *. case_bool_decide; [done|]. intros Ho. by apply owned_clear_summaries, Hr.
  - unfold connection_output. pose proof (owned_output i id b retain (pane_set c)) as Hr.
    destruct (process_output_with_summary_retention _ _ _ _) as [s r]. cbn [fst] in *. apply connection_owns_kept; by destruct c.
  - unfold connection_bootstrap, on_panes. pose proof (owned_bootstrap i fresh id status output flags now (pane_set c) Ht) as Hr.
    destruct (apply_bootstrap_with_line_flags _ _ _ _ _ _ _) as [[f s] r]. cbn [fst snd] in *. apply connection_owns_kept; by destruct c.
  - unfold connection_resync. destruct (update_pane_capture_metadata _ _) as [t' [|]]; [|done]. unfold on_panes.
    assert (pane_set (c <| topology := t' |>) = pane_set c) as -> by (by destruct c).
    pose proof (owned_resync i fresh m output pending flags now (pane_set c) Ht) as Hr.
    destruct (apply_resync_capture_with_line_flags _ _ _ _ _ _ _) as [[f s] r]. cbn [fst snd] in *. apply connection_owns_kept; by destruct c.
  - unfold connection_set_portal, on_panes. pose proof (owned_portal i fresh id child (pane_set c) Ht) as Hr.
    destruct (set_pane_portal _ _ _ _) as [[f s] r]. cbn [fst snd] in *. apply connection_owns_kept; by destruct c.
  - pose proof (owned_clear_portal i id child (pane_set c) Ht). apply connection_owns_kept; by destruct c.
  - pose proof (owned_clear_summaries i (pane_set c)). apply connection_owns_kept; by destruct c.
  - pose proof (owned_clear_summaries i (pane_set c)). apply connection_owns_kept; by destruct c.
  - apply connection_owns_kept; destruct c; cbn; [apply render_text_id|done..].
  - apply connection_retain_owns. cbn in He. by destruct (decide (i ∈ retained)).
  - apply connection_track_owns.
  - apply connection_owns_kept; destruct c; cbn; [by rewrite render_text_id, resize_id..|done].
Qed.
End Owned.

(** * A connection with two panes *)

#[export] Instance logged_screen : PaneScreen LoggedView := {
  bracketed_paste _ := true; mouse_protocol_mode _ := Terminal.Press; mouse_protocol_encoding _ := Sgr }.

Definition right_pane : Pane := left_pane <| TmuxModel.pane_id := 21 |> <| left := 11 |> <| width := 9 |>.
Definition split_layout : bytes := bs "abcd,20x4,0,0{10x4,0,0,20,9x4,11,0,21}".
Definition split_topology : TmuxTopology :=
  (topology_new 1)
    <| sessions := {[ 1 := {| session_id := 1; session_name := bs "work"; session_windows := {[ 1 := 10 ]};
                              TmuxModel.active_window := Some 10 |} ]} |>
    <| windows := {[ 10 := {| window_id := 10; window_name := bs "editor"; links := {[ (1, 1) ]}; active_pane := Some 21;
                              layout := split_layout; visible_layout := []; flags := [] |} ]} |>
    <| TmuxModel.panes := {[ 20 := left_pane; 21 := right_pane ]} |>
    <| attached_session := Some 1 |>.

Definition split_events : list ConnectionEvent :=
  [Sync split_topology; PaneOutput 20 (bs "ls") true; PaneBootstrap 20 Success [] true 0; PaneBootstrap 21 Success [] true 0].
Definition split_connection : N * TmuxConnectionView LoggedView :=
  connection_run split_events (3, connection_view_new 1 4 20 1).

(** The active pane is captured first; a key reaches it once both panes are
    captured; a portal over it leaves only Enter. *)
Example active_pane_gets_the_keys :
  (request_pane <$> (sync_topology 3 split_topology (connection_view_new (V := LoggedView) 1 4 20 1)).2) = [21; 20] ∧
  handle_input (bs "x") (connection_run (take 3 split_events) (3, connection_view_new (V := LoggedView) 1 4 20 1)).2 = NoAction ∧
  handle_input (bs "x") split_connection.2 = TmuxInput 1 21 (bs "x") ∧
  let covered := (connection_step (PaneSetPortal 21 7) split_connection).2 in
  handle_input (bs "x") covered = NoAction ∧ handle_input [CR] covered = ActivateTmuxConnection 7.
Proof. by vm_compute. Qed.

Lemma connection_views_stay_addressable_witness :
  is_Some (connection_model_by_id 5 (connection_step (PaneBootstrap 20 Success [] true 0)
    (7, connection_track split_connection.2)).2).
Proof.
  apply (connection_views_stay_addressable 5 (PaneBootstrap 20 Success [] true 0) 7 (connection_track split_connection.2)).
  - by vm_compute.
  - by intros [].
  - by vm_compute; eexists.
Defined.
