(* ===== verification/ViewStack.v ===== *)
(** The stack of views (src/src/views/stack.rs): the terminal and the tmux
    connections, of which one is active, the overlays above them, the views that
    were removed but may still be on the screen, and the transitions the
    compositor waits for.

    A controller is a connection, or any other view, whose [kind] and [title]
    are its data.  Appending media and snapshots to a scene belongs to the
    presentation; which views they are taken from is [composed_indices]. *)

From S2P Require Import Prelude TmuxModel PaneSet ConnectionView.
Local Open Scope N_scope.

(** * Controllers *)

Inductive ViewKind :=
| KindTerminal | KindMessage | KindLuaRepl | KindReview | KindPopup | KindTableSetup | KindTmuxConnection
| KindTmuxConnectionChooser | KindTmuxConnectionRename | KindTmuxChooser | KindTmuxCommand | KindTmuxPortal | KindOther.
#[export] Instance ViewKind_eq_dec : EqDecision ViewKind.
Proof. solve_decision. Defined.

(** What the stack does with the other views. *)
Class StackView (V : Type) := {
  mark_review_context_active : V → V;
  live_title : V → option bytes;
  committed_title : V → option bytes
}.

Section Stack.
Context {V U : Type} `{PV : PaneView V U} `{PS : PaneScreen V} `{SV : StackView V}.

Inductive ViewController :=
| Plain (kind : ViewKind) (title : bytes) (v : V)
| TmuxConnection (c : TmuxConnectionView V).

Definition controller_model (v : ViewController) : V :=
  match v with Plain _ _ v => v | TmuxConnection c => model c end.
Definition controller_kind (v : ViewController) : ViewKind :=
  match v with
  | Plain kind _ _ => kind
  | TmuxConnection c => if is_showing_portal c then KindTmuxPortal else KindTmuxConnection
  end.
Definition controller_title (v : ViewController) : bytes :=
  match v with
  | Plain _ title _ => title
  | TmuxConnection c => if is_showing_portal c then bs "tmux portal" else bs "tmux"
  end.
(** [downcast_ref] to a connection, and its identity. *)
Definition connection_of (v : ViewController) : option N :=
  match v with Plain _ _ _ => None | TmuxConnection c => Some (view_connection c) end.
Definition controller_track (v : ViewController) : ViewController :=
  match v with
  | Plain kind title v => Plain kind title (enable_presentation_tracking_view v)
  | TmuxConnection c => TmuxConnection (connection_track c)
  end.
Definition controller_retain (retained : list N) (v : ViewController) : ViewController :=
  match v with Plain _ _ _ => v | TmuxConnection c => TmuxConnection (connection_retain retained c) end.

(** * The stack *)

Record ViewStack := {
  views : list ViewController;
  retired_views : list ViewController;
  base_count : nat;
  active_base : nat;
  next_compositor_transition : N;
  compositor_transition : option N;
  stack_tracking : bool
}.

(** The root of the application is its terminal. *)
Definition view_stack_new (kind : ViewKind) (title : bytes) (root : V) : ViewStack := {|
  views := [Plain kind title (mark_review_context_active root)]; retired_views := []; base_count := 1; active_base := 0;
  next_compositor_transition := 1; compositor_transition := None; stack_tracking := false
|}.

Definition has_overlay (s : ViewStack) : bool := (base_count s <? length (views s))%nat.

(** The index of [active_mut]; an index past the end is a panic. *)
Definition active_index (s : ViewStack) : nat :=
  if has_overlay s then (length (views s) - 1)%nat else active_base s.
Definition active_view (s : ViewStack) : option ViewController := views s !! active_index s.

Definition next_transition (n : N) : N := N.max ((n + 1) mod 2 ^ 64) 1.
Definition begin_compositor_transition (s : ViewStack) : ViewStack :=
  s <| next_compositor_transition := next_transition (next_compositor_transition s) |>
    <| compositor_transition := Some (next_compositor_transition s) |>.
Definition complete_compositor_transition (t : N) (s : ViewStack) : ViewStack * bool :=
  if bool_decide (compositor_transition s = Some t) then (s <| compositor_transition := None |>, true) else (s, false).

Definition clear_overlays (s : ViewStack) : ViewStack :=
  let s := if has_overlay s then begin_compositor_transition s else s in
  let s := if stack_tracking s then s <| retired_views := retired_views s ++ drop (base_count s) (views s) |> else s in
  s <| views := take (base_count s) (views s) |>.

(** [Vec::insert] *)
Definition insert_at {A} (i : nat) (x : A) (l : list A) : list A := take i l ++ x :: drop i l.

Definition push (v : ViewController) (s : ViewStack) : ViewStack :=
  let v := if stack_tracking s then controller_track v else v in
  if bool_decide (connection_of v = None) then s <| views := views s ++ [v] |>
  else
    let s := clear_overlays s in
    begin_compositor_transition
      (s <| views := insert_at (base_count s) v (views s) |> <| active_base := base_count s |>
         <| base_count := S (base_count s) |>).

Definition stack_enable_tracking (s : ViewStack) : ViewStack :=
  s <| stack_tracking := true |> <| views := controller_track <$> views s |>.

Definition pop (s : ViewStack) : ViewStack * bool :=
  if negb (has_overlay s) then (s, false)
  else
    let removed := drop (length (views s) - 1) (views s) in
    let s := s <| views := take (length (views s) - 1) (views s) |> in
    let s := if stack_tracking s then s <| retired_views := retired_views s ++ removed |> else s in
    (if has_overlay s then s else begin_compositor_transition s, true).

Definition connection_index_in (id : N) (l : list ViewController) : option nat :=
  fst <$> list_find (λ v, connection_of v = Some id) l.
Definition tmux_connection_index (id : N) (s : ViewStack) : option nat :=
  connection_index_in id (take (base_count s) (views s)).

Definition is_removed (ids : list N) (v : ViewController) : bool :=
  match connection_of v with Some id => bool_decide (id ∈ ids) | None => false end.

Definition remove_tmux_connections (ids : list N) (s : ViewStack) : ViewStack :=
  let bases := take (base_count s) (views s) in
  let active_connection := views s !! active_base s ≫= connection_of in
  let removed := List.filter (is_removed ids) bases in
  let kept := List.filter (λ v, negb (is_removed ids v)) bases in
  let s := if stack_tracking s then s <| retired_views := retired_views s ++ removed |> else s in
  let s := s <| views := kept ++ drop (base_count s) (views s) |>
             <| base_count := (base_count s - length removed)%nat |> in
  let s := s <| active_base :=
    match active_connection with
    | Some id => if bool_decide (id ∈ ids) then (base_count s - 1)%nat
                 else default (base_count s - 1)%nat (tmux_connection_index id s)
    | None => 0%nat
    end |> in
  match active_connection with
  | Some id => if bool_decide (id ∈ ids) then begin_compositor_transition s else s
  | None => s
  end.

Definition activate_terminal (s : ViewStack) : ViewStack :=
  let s := clear_overlays s in
  let s := if bool_decide (active_base s = 0%nat) then s else begin_compositor_transition s in
  s <| active_base := 0%nat |>.

Definition activate_tmux_connection (id : N) (s : ViewStack) : ViewStack * bool :=
  match tmux_connection_index id s with
  | None => (s, false)
  | Some index =>
      let s := clear_overlays s in
      let s := if bool_decide (active_base s = index) then s else begin_compositor_transition s in
      (s <| active_base := index |>, true)
  end.

(** [tmux_connection_mut] and its changes to a connection. *)
Definition tmux_connection (id : N) (s : ViewStack) : option (TmuxConnectionView V) :=
  index ← tmux_connection_index id s;
  v ← views s !! index;
  match v with TmuxConnection c => Some c | Plain _ _ _ => None end.
Definition update_connection (id : N) (f : TmuxConnectionView V → TmuxConnectionView V) (s : ViewStack) : ViewStack :=
  match tmux_connection_index id s with
  | Some index => s <| views := alter (λ v, match v with TmuxConnection c => TmuxConnection (f c) | _ => v end) index (views s) |>
  | None => s
  end.

Definition presented_holds_synchronized_output (s : ViewStack) : bool :=
  match views s !! active_base s with
  | Some (TmuxConnection c) => connection_holds_synchronized_output c
  | Some (Plain _ _ v) => holds_synchronized_output v
  | None => false
  end.

(** ** What is presented *)

Definition composed_indices (s : ViewStack) : list nat := active_base s :: seq (base_count s) (length (views s) - base_count s).

(** The surface and view of each frame of a bundle, and its active view: a
    ready connection contributes its panes, any other base its model, on
    surface 1; overlay [i] is on surface [i + 2]. *)
Definition base_frames (v : ViewController) : option N * list (N * N) :=
  match v with
  | TmuxConnection c =>
      if is_ready c && negb (is_showing_portal c) then connection_frames c
      else (Some (view_id (model c)), [(1, view_id (model c))])
  | Plain _ _ v => (Some (view_id v), [(1, view_id v)])
  end.
Definition add_overlay (acc : option N * list (N * N)) (iv : nat * ViewController) : option N * list (N * N) :=
  let id := view_id (controller_model iv.2) in
  (Some id, acc.2 ++ [(sat_add u64_max (N.of_nat iv.1) 2, id)]).
Definition capture_presentation_bundle (s : ViewStack) : option (option N * list (N * N)) :=
  base ← views s !! active_base s;
  let overlays := drop (base_count s) (views s) in
  Some (fold_left add_overlay (zip (seq 0 (length overlays)) overlays) (base_frames base)).

(** The label, and whether it follows the terminal's title. *)
Definition active_accessibility_label (live_application : bool) (s : ViewStack) : option (bytes * bool) :=
  active ← active_view s;
  Some match active with
  | TmuxConnection c => (connection_title c, false)
  | Plain KindTerminal _ v =>
      (match (if live_application then live_title v else committed_title v) with
       | Some ((_ :: _) as title) => bs "terminal, " ++ title
       | _ => bs "terminal"
       end, true)
  | Plain _ title _ => (title, false)
  end.

(** ** Lookup by identity *)

(** [model_by_id_mut], which takes a controller for a connection by its kind. *)
Definition finds_view (id : N) (v : ViewController) : bool :=
  if bool_decide (controller_kind v = KindTmuxConnection)
  then match v with TmuxConnection c => bool_decide (is_Some (connection_model_by_id id c)) | Plain _ _ _ => false end
  else view_id (controller_model v) =? id.
Definition contains_view_id (id : N) (s : ViewStack) : bool := existsb (finds_view id) (views s ++ retired_views s).

(** A view the controller owns, whether or not it is shown. *)
Definition owns (id : N) (v : ViewController) : bool :=
  match v with
  | TmuxConnection c => bool_decide (is_Some (connection_model_by_id id c))
  | Plain _ _ v => view_id v =? id
  end.
Definition stack_owns (id : N) (s : ViewStack) : bool := existsb (owns id) (views s ++ retired_views s).

Definition keeps_retired (retained : list N) (v : ViewController) : bool := existsb (λ id, owns id v) retained.
Definition stack_retain (retained : list N) (s : ViewStack) : ViewStack :=
  s <| views := controller_retain retained <$> views s |>
    <| retired_views := List.filter (keeps_retired retained) (controller_retain retained <$> retired_views s) |>.

(** * Everything that happens to a stack *)

Inductive StackEvent :=
| Push (v : ViewController)
| Pop
| EnableStackTracking
| ClearOverlays
| CompleteTransition (t : N)
| RemoveConnections (ids : list N)
| ActivateTerminal
| ActivateConnection (id : N)
| UpdateConnection (id : N) (f : TmuxConnectionView V → TmuxConnectionView V)
| RetainStack (retained : list N).

Definition stack_step (e : StackEvent) (s : ViewStack) : ViewStack :=
  match e with
  | Push v => push v s
  | Pop => (pop s).1
  | EnableStackTracking => stack_enable_tracking s
  | ClearOverlays => clear_overlays s
  | CompleteTransition t => (complete_compositor_transition t s).1
  | RemoveConnections ids => remove_tmux_connections ids s
  | ActivateTerminal => activate_terminal s
  | ActivateConnection id => (activate_tmux_connection id s).1
  | UpdateConnection id f => update_connection id f s
  | RetainStack retained => stack_retain retained s
  end.
Definition stack_run (es : list StackEvent) (s : ViewStack) : ViewStack := fold_left (λ s e, stack_step e s) es s.
End Stack.
Arguments ViewController V : clear implicits.
Arguments ViewStack V : clear implicits.
Arguments StackEvent V : clear implicits.

(** * The shape of the stack *)

Section Shape.
Context {V U : Type} `{PV : PaneView V U} `{PS : PaneScreen V} `{SV : StackView V}.
Implicit Types (s : ViewStack V) (v : ViewController V).

Definition is_connection (v : ViewController V) : Prop := connection_of v ≠ None.
Definition is_plain (v : ViewController V) : Prop := connection_of v = None.

(** A root that is not a connection, connections above it, and other views
    above these. *)
Record shaped (root : ViewController V) (conns overlays : list (ViewController V)) (s : ViewStack V) : Prop := {
  shape_views : views s = root :: conns ++ overlays;
  shape_count : base_count s = S (length conns);
  shape_root : is_plain root;
  shape_conns : Forall is_connection conns;
  shape_overlays : Forall is_plain overlays;
  shape_active : (active_base s ≤ length conns)%nat
}.

Definition transition_ok (s : ViewStack V) : Prop :=
  1 ≤ next_compositor_transition s < 2 ^ 64 ∧
  ∀ t, compositor_transition s = Some t → 1 ≤ t < 2 ^ 64 ∧ next_compositor_transition s = next_transition t.

Definition stack_ok (s : ViewStack V) : Prop := (∃ root conns overlays, shaped root conns overlays s) ∧ transition_ok s.

Lemma next_transition_range n : 1 ≤ next_transition n < 2 ^ 64.
Proof. unfold next_transition. pose proof (N.mod_lt (n + 1) (2 ^ 64) ltac:(lia)). lia. Qed.

(** The fields that the parts of an operation leave alone. *)
Lemma begin_fields s :
  let s' := begin_compositor_transition s in
  views s' = views s ∧ retired_views s' = retired_views s ∧ base_count s' = base_count s ∧ active_base s' = active_base s ∧
  stack_tracking s' = stack_tracking s.
Proof. by destruct s. Qed.
Lemma begin_transition_ok s : transition_ok s → transition_ok (begin_compositor_transition s).
Proof.
  intros [Hn _]. pose proof (next_transition_range (next_compositor_transition s)).
  destruct s; cbn in *. split; cbn; [done|]. by intros t [= <-].
Qed.
Lemma shaped_begin root conns overlays s :
  shaped root conns overlays (begin_compositor_transition s) ↔ shaped root conns overlays s.
Proof. destruct s; split; intros []; by split. Qed.

Lemma shaped_overlay root conns overlays s : shaped root conns overlays s → has_overlay s = negb (bool_decide (overlays = [])).
Proof.
  intros [Hv Hc _ _ _ _]. unfold has_overlay. rewrite Hv, Hc. cbn [length]. rewrite length_app.
  destruct overlays as [|v overlays]; cbn [length]; [|rewrite bool_decide_eq_false_2 by done]; cbn [negb].
  - apply Nat.ltb_ge. lia.
  - apply Nat.ltb_lt. lia.
Qed.

Lemma shaped_take root conns overlays s :
  shaped root conns overlays s → take (base_count s) (views s) = root :: conns ∧ drop (base_count s) (views s) = overlays.
Proof.
  intros [Hv Hc _ _ _ _]. rewrite Hv, Hc, app_comm_cons. split.
  - by apply (take_app_length (root :: conns)).
  - by apply (drop_app_length (root :: conns)).
Qed.

(** Overlays are cleared: a transition begins if there were any, and they are
    retired if the presentation is tracked. *)
Lemma clear_overlays_spec root conns overlays s :
  shaped root conns overlays s →
  shaped root conns [] (clear_overlays s) ∧ active_base (clear_overlays s) = active_base s ∧
  stack_tracking (clear_overlays s) = stack_tracking s ∧
  retired_views (clear_overlays s) = retired_views s ++ (if stack_tracking s then overlays else []) ∧
  next_compositor_transition (clear_overlays s) =
    (if bool_decide (overlays = []) then next_compositor_transition s else next_transition (next_compositor_transition s)) ∧
  compositor_transition (clear_overlays s) =
    (if bool_decide (overlays = []) then compositor_transition s else Some (next_compositor_transition s)).
Proof.
  intros Hs. pose proof (shaped_overlay _ _ _ _ Hs) as Ho. destruct (shaped_take _ _ _ _ Hs) as [Ht Hd].
  unfold clear_overlays. rewrite Ho. destruct Hs as [Hv Hc Hr Hcs Hos Ha]. destruct s; cbn in *.
  case_bool_decide as E; cbn; destruct stack_tracking0; cbn; rewrite ?app_nil_r, ?Hd, ?Ht;
    (split; [split; cbn; rewrite ?Ht, ?app_nil_r; done|done]).
Qed.

Lemma connection_index_Some id l i :
  connection_index_in id l = Some i → ∃ v, l !! i = Some v ∧ connection_of v = Some id.
Proof. unfold connection_index_in. intros ([j v] & (Hv & Hid & _)%list_find_Some & ->)%fmap_Some. by exists v. Qed.
Lemma connection_index_exists id l v : v ∈ l → connection_of v = Some id → is_Some (connection_index_in id l).
Proof. unfold connection_index_in. intros Hv Hid. apply fmap_is_Some. by eapply list_find_elem_of. Qed.

Lemma track_connection_of v : connection_of (controller_track v) = connection_of v.
Proof. destruct v as [|c]; [done|]. by destruct c. Qed.
Lemma retain_connection_of retained v : connection_of (controller_retain retained v) = connection_of v.
Proof. destruct v as [|c]; [done|]. by destruct c. Qed.

(** A change of every controller that keeps their identities. *)
Lemma shaped_map root conns overlays s s' f :
  (∀ v, connection_of (f v) = connection_of v) → shaped root conns overlays s →
  views s' = f <$> views s → base_count s' = base_count s → active_base s' = active_base s →
  shaped (f root) (f <$> conns) (f <$> overlays) s'.
Proof.
  intros Hf [Hv Hc Hr Hcs Hos Ha] Ev Eb Ea. split; rewrite ?Ev, ?Eb, ?Ea, ?length_fmap; [|done| | | |done].
  - by rewrite Hv, fmap_cons, fmap_app.
  - unfold is_plain in *. by rewrite Hf.
  - apply Forall_fmap. eapply Forall_impl; [exact Hcs|]. intros v. unfold is_connection. cbn. by rewrite Hf.
  - apply Forall_fmap. eapply Forall_impl; [exact Hos|]. intros v. unfold is_plain. cbn. by rewrite Hf.
Qed.

Lemma push_plain_spec v root conns overlays s :
  shaped root conns overlays s → is_plain v →
  push v s = s <| views := views s ++ [if stack_tracking s then controller_track v else v] |> ∧
  shaped root conns (overlays ++ [if stack_tracking s then controller_track v else v]) (push v s).
Proof.
  intros Hs Hp. unfold push. set (v' := if stack_tracking s then _ else _).
  assert (is_plain v') as Hv' by (unfold is_plain, v'; destruct (stack_tracking s); rewrite ?track_connection_of; done).
  rewrite bool_decide_eq_true_2 by exact Hv'. split; [done|].
  destruct Hs as [Hv Hc Hr Hcs Hos Ha]. destruct s; cbn in *. split; cbn; try done.
  - rewrite Hv. cbn. by rewrite <-app_assoc.
  - apply Forall_app. by split; [|constructor].
Qed.

Lemma push_connection_spec v root conns overlays s :
  shaped root conns overlays s → is_connection v →
  let v' := if stack_tracking s then controller_track v else v in
  shaped root (conns ++ [v']) [] (push v s) ∧ active_base (push v s) = S (length conns) ∧
  retired_views (push v s) = retired_views s ++ (if stack_tracking s then overlays else []) ∧
  stack_tracking (push v s) = stack_tracking s ∧
  compositor_transition (push v s) = Some (next_compositor_transition (clear_overlays s)) ∧
  next_compositor_transition (push v s) = next_transition (next_compositor_transition (clear_overlays s)).
Proof.
  intros Hs Hp v'. unfold push. fold v'.
  assert (is_connection v') as Hv' by (unfold is_connection, v'; destruct (stack_tracking s); rewrite ?track_connection_of; done).
  rewrite bool_decide_eq_false_2 by exact Hv'.
  destruct (clear_overlays_spec _ _ _ _ Hs) as ([Hv Hc Hr Hcs Hos Ha] & _ & Htr & Hret & _ & _).
  destruct (clear_overlays s); cbn in *. subst. rewrite app_nil_r in *. split; [|done].
  split; cbn; try done.
  - unfold insert_at. by rewrite firstn_all2, skipn_all2, app_nil_r by (cbn; lia).
  - rewrite length_app. cbn. lia.
  - apply Forall_app. by split; [|constructor].
  - rewrite length_app. cbn. lia.
Qed.

Lemma pop_spec v root conns overlays s :
  shaped root conns (overlays ++ [v]) s →
  shaped root conns overlays (pop s).1 ∧ active_base (pop s).1 = active_base s ∧ (pop s).2 = true ∧
  retired_views (pop s).1 = retired_views s ++ (if stack_tracking s then [v] else []) ∧
  stack_tracking (pop s).1 = stack_tracking s ∧
  next_compositor_transition (pop s).1 =
    (if bool_decide (overlays = []) then next_transition (next_compositor_transition s) else next_compositor_transition s) ∧
  compositor_transition (pop s).1 =
    (if bool_decide (overlays = []) then Some (next_compositor_transition s) else compositor_transition s).
Proof.
  intros Hs. pose proof (shaped_overlay _ _ _ _ Hs) as Ho.
  rewrite bool_decide_eq_false_2 in Ho by (intros E; by apply app_eq_nil in E as [_ ?]). cbn [negb] in Ho.
  unfold pop. rewrite Ho. cbn [negb].
  assert (take (length (views s) - 1) (views s) = root :: conns ++ overlays ∧ drop (length (views s) - 1) (views s) = [v]) as [Et Ed].
  { rewrite (shape_views _ _ _ _ Hs), app_assoc, app_comm_cons.
    assert (length ((root :: conns ++ overlays) ++ [v]) - 1 = length (root :: conns ++ overlays))%nat as ->.
    { rewrite length_app. cbn. lia. }
    by rewrite take_app_length, drop_app_length. }
  rewrite Et, Ed.
  set (s1 := if stack_tracking _ then _ else _).
  assert (shaped root conns overlays s1 ∧ active_base s1 = active_base s ∧
          retired_views s1 = retired_views s ++ (if stack_tracking s then [v] else []) ∧ stack_tracking s1 = stack_tracking s ∧
          next_compositor_transition s1 = next_compositor_transition s ∧
          compositor_transition s1 = compositor_transition s) as (Hs1 & Ea & Er & Et1 & En & Ec).
  { destruct Hs as [Hv Hc Hr Hcs Hos Ha]. apply Forall_app in Hos as [Hos _]. destruct s; cbn in *. subst s1.
    destruct stack_tracking0; cbn; rewrite ?app_nil_r; by repeat split. }
  clearbody s1. rewrite (shaped_overlay _ _ _ _ Hs1). case_bool_decide; cbn [negb fst snd].
  - rewrite shaped_begin. destruct (begin_fields s1) as (_ & -> & _ & -> & ->). rewrite <-En. destruct s1; cbn in *. done.
  - done.
Qed.

Lemma remove_spec ids root conns overlays s :
  shaped root conns overlays s →
  let kept := List.filter (λ v, negb (is_removed ids v)) conns in
  let s' := remove_tmux_connections ids s in
  shaped root kept overlays s' ∧
  retired_views s' = retired_views s ++ (if stack_tracking s then List.filter (is_removed ids) conns else []) ∧
  stack_tracking s' = stack_tracking s ∧
  (next_compositor_transition s', compositor_transition s', active_base s') =
  match views s !! active_base s ≫= connection_of with
  | Some id =>
      if bool_decide (id ∈ ids)
      then (next_transition (next_compositor_transition s), Some (next_compositor_transition s), length kept)
      else (next_compositor_transition s, compositor_transition s,
            default (length kept) (connection_index_in id (root :: kept)))
  | None => (next_compositor_transition s, compositor_transition s, 0%nat)
  end.
Proof.
  intros Hs kept s'. destruct (shaped_take _ _ _ _ Hs) as [Ht Hd].
  assert (is_removed ids root = false) as Hroot.
  { unfold is_removed. pose proof (shape_root _ _ _ _ Hs) as Hr. unfold is_plain in Hr. by rewrite Hr. }
  set (removed := List.filter (is_removed ids) conns).
  assert (length conns = length kept + length removed)%nat as Hlen.
  { unfold kept, removed. clear. induction conns as [|v conns IH]; [done|]. cbn. destruct (is_removed ids v); cbn; lia. }
  destruct Hs as [Hv Hc Hr Hcs Hos Ha].
  assert (Forall is_connection kept) as Hkept.
  { unfold kept. apply Forall_forall. intros v [Hin _]%elem_of_Filter. by eapply Forall_forall in Hin; [|exact Hcs]. }
  assert (∀ i, (default (length kept) (connection_index_in i (root :: kept)) ≤ length kept)%nat) as Hidx.
  { intros i. destruct (connection_index_in i (root :: kept)) as [n|] eqn:E; [|done].
    apply connection_index_Some in E as (v & Hl & _). apply lookup_lt_Some in Hl. cbn in *. lia. }
  assert (base_count s - length removed = S (length kept))%nat as Hbase by (rewrite Hc; lia).
  assert (take (S (length kept)) (root :: kept ++ overlays) = root :: kept) as Htk by (apply (take_app_length (root :: kept))).
  unfold s', remove_tmux_connections. rewrite Ht. cbn [List.filter]. rewrite Hroot. cbn [negb]. fold kept removed.
  set (o := views s !! active_base s ≫= connection_of). clearbody o. unfold tmux_connection_index.
  destruct s; cbn in *. destruct o as [id|]; [case_bool_decide|]; destruct stack_tracking0; cbn;
    rewrite ?app_nil_r, ?Hd, ?Hbase, ?Htk; cbn; rewrite ?Nat.sub_0_r; (split; [split; cbn; try done; try lia; rewrite ?take_app_length; apply Hidx|rewrite ?take_app_length; done]).
Qed.

(** Updates of a connection leave its identity alone. *)
Definition event_ok (e : StackEvent V) : Prop :=
  match e with UpdateConnection _ f => ∀ c, view_connection (f c) = view_connection c | _ => True end.

Definition update_at (f : TmuxConnectionView V → TmuxConnectionView V) (v : ViewController V) : ViewController V :=
  match v with TmuxConnection c => TmuxConnection (f c) | _ => v end.

Lemma activate_spec root conns s1 (i : nat) :
  shaped root conns [] s1 → (i ≤ length conns)%nat →
  let s2 := (if bool_decide (active_base s1 = i) then s1 else begin_compositor_transition s1) <| active_base := i |> in
  shaped root conns [] s2 ∧ retired_views s2 = retired_views s1 ∧ stack_tracking s2 = stack_tracking s1 ∧
  (transition_ok s1 → transition_ok s2) ∧
  (compositor_transition s2, next_compositor_transition s2) =
    (if bool_decide (active_base s1 = i) then (compositor_transition s1, next_compositor_transition s1)
     else (Some (next_compositor_transition s1), next_transition (next_compositor_transition s1))).
Proof.
  intros [Hv Hc Hr Hcs Hos Ha] Hi. pose proof (begin_transition_ok s1) as Hb.
  case_bool_decide; destruct s1; cbn in *; (split; [by split|split; [done|split; [done|split; [|done]]]]).
  - by intros [].
  - intros Ht. by destruct (Hb Ht).
Qed.

Lemma shaped_index root conns overlays s id i :
  shaped root conns overlays s → tmux_connection_index id s = Some i → (i ≤ length conns)%nat.
Proof.
  intros Hs Hi. unfold tmux_connection_index in Hi. rewrite (proj1 (shaped_take _ _ _ _ Hs)) in Hi.
  apply connection_index_Some in Hi as (v & Hl & _). apply lookup_lt_Some in Hl. cbn in Hl. lia.
Qed.

Lemma transition_next s s' :
  transition_ok s →
  (next_compositor_transition s' = next_compositor_transition s ∧ compositor_transition s' = compositor_transition s) ∨
  (next_compositor_transition s' = next_transition (next_compositor_transition s) ∧
   compositor_transition s' = Some (next_compositor_transition s)) →
  transition_ok s'.
Proof.
  intros [Hn Ht] [[En Ec]|[En Ec]]; split; rewrite ?En, ?Ec; try done.
  - apply next_transition_range.
  - by intros t [= <-].
Qed.

Lemma clear_overlays_ok s : stack_ok s → stack_ok (clear_overlays s).
Proof.
  intros [(root & conns & overlays & Hs) Ht].
  destruct (clear_overlays_spec _ _ _ _ Hs) as (Hs' & _ & _ & _ & En & Ec). split; [by eexists _, _, _|].
  apply (transition_next s); [done|]. case_bool_decide; auto.
Qed.

Lemma stack_step_ok e s : event_ok e → stack_ok s → stack_ok (stack_step e s).
Proof.
  intros He [(root & conns & overlays & Hs) Ht].
  assert (stack_ok (clear_overlays s)) as Hclear by (apply clear_overlays_ok; split; [by eexists _, _, _|done]).
  destruct e as [v| | | |t|ids| |id|id f|retained]; cbn [stack_step].
  - destruct (connection_of v) as [n|] eqn:Ev.
    + destruct (push_connection_spec v _ _ _ _ Hs ltac:(unfold is_connection; congruence)) as (Hs' & _ & _ & _ & Ec & En).
      split; [by eexists _, _, _|]. apply (transition_next (clear_overlays s)); [apply Hclear|auto].
    + destruct (push_plain_spec v _ _ _ _ Hs Ev) as [Eq Hs']. split; [by eexists _, _, _|]. rewrite Eq. by destruct s.
  - destruct overlays as [|v overlays _] using rev_ind.
    + unfold pop. rewrite (shaped_overlay _ _ _ _ Hs). split; [by eexists _, _, _|done].
    + destruct (pop_spec v _ _ _ _ Hs) as (Hs' & _ & _ & _ & _ & En & Ec). split; [by eexists _, _, _|].
      apply (transition_next s); [done|]. case_bool_decide; auto.
  - split; [|by destruct s]. eexists _, _, _. eapply (shaped_map _ _ _ _ _ controller_track); [apply track_connection_of|done|by destruct s..].
  - done.
  - unfold complete_compositor_transition. case_bool_decide; cbn [fst]; [|split; [by eexists _, _, _|done]].
    split; [exists root, conns, overlays; destruct s, Hs; by split|]. destruct Ht as [Hn _]. destruct s. by split.
  - destruct (remove_spec ids _ _ _ _ Hs) as (Hs' & _ & _ & Heq). split; [by eexists _, _, _|].
    apply (transition_next s); [done|]. repeat case_match; injection Heq as -> -> _; auto.
  - destruct (clear_overlays_spec _ _ _ _ Hs) as (Hs' & _).
    destruct (activate_spec root conns (clear_overlays s) 0 Hs' ltac:(lia)) as (H1 & _ & _ & H2 & _).
    split; [by eexists _, _, _|]. apply H2, Hclear.
  - unfold activate_tmux_connection. destruct (tmux_connection_index id s) as [i|] eqn:Ei; [|split; [by eexists _, _, _|done]].
    destruct (clear_overlays_spec _ _ _ _ Hs) as (Hs' & _). cbn [fst].
    destruct (activate_spec root conns (clear_overlays s) i Hs' (shaped_index _ _ _ _ _ _ Hs Ei)) as (H1 & _ & _ & H2 & _).
    split; [by eexists _, _, _|]. apply H2, Hclear.
  - unfold update_connection. destruct (tmux_connection_index id s) as [i|] eqn:Ei; [|split; [by eexists _, _, _|done]].
    cbn [event_ok] in He. split; [|by destruct s]. change (λ v, match v with TmuxConnection c => _ | _ => _ end) with (update_at f).
    assert (∀ P l, Forall P l → (∀ v, P v → P (update_at f v)) → ∀ j, Forall P (alter (update_at f) j l)) as Hall.
    { intros P l Hl HP j. apply Forall_lookup. intros k v Hk. destruct (decide (k = j)) as [->|Hne].
      - rewrite list_lookup_alter_eq in Hk. apply fmap_Some in Hk as (w & Hw & ->). apply HP. by eapply Forall_lookup.
      - rewrite list_lookup_alter_ne in Hk by done. by eapply Forall_lookup. }
    assert (∀ v, connection_of (update_at f v) = connection_of v) as Hof by (intros []; cbn; [done|by rewrite He]).
    pose proof (shaped_index _ _ _ _ _ _ Hs Ei) as Hi.
    destruct Hs as [Hv Hc Hr Hcs Hos Ha]. unfold is_plain, is_connection in *. destruct i as [|i].
    + exists (update_at f root), conns, overlays. destruct s; cbn in *. subst. split; unfold is_plain; cbn; try done. by rewrite Hof.
    + exists root, (alter (update_at f) i conns), overlays. destruct s; cbn in *. subst.
      split; unfold is_plain, is_connection; cbn; rewrite ?length_alter; try done.
      * f_equal. by rewrite alter_app_l by lia.
      * apply Hall; [done|]. intros v. by rewrite Hof.
  - split; [|by destruct s]. eexists _, _, _.
    eapply (shaped_map _ _ _ _ _ (controller_retain retained)); [apply retain_connection_of|done|by destruct s..].
Qed.

Lemma stack_run_ok es s : Forall event_ok es → stack_ok s → stack_ok (stack_run es s).
Proof.
  unfold stack_run. revert s. induction es as [|e es IH]; intros s Hes Hs; cbn [fold_left]; [done|].
  apply Forall_cons in Hes as [He Hes]. apply IH; [done|]. by apply stack_step_ok.
Qed.
Lemma new_stack_ok kind title (screen : V) : stack_ok (view_stack_new kind title screen).
Proof.
  split; [|split; cbn; [lia|done]]. exists (Plain kind title (mark_review_context_active screen)), [], [].
  by split; cbn; [done|done|done|constructor|constructor|lia].
Qed.

(** Whatever is pushed, popped, activated or removed, the stack consists of a
    terminal, connections above it and other views above these; a base is
    active, so there is always an active view and a view to present, and the
    pending transition is the last one begun. *)
Theorem stacks_keep_their_shape kind title (screen : V) es :
  Forall event_ok es →
  let s := stack_run es (view_stack_new kind title screen) in
  (∃ root conns overlays, shaped root conns overlays s) ∧
  is_Some (active_view s) ∧ is_Some (capture_presentation_bundle s) ∧
  (∀ t, compositor_transition s = Some t → next_compositor_transition s = next_transition t).
Proof.
  intros Hes s. destruct (stack_run_ok es _ Hes (new_stack_ok kind title screen)) as [(root & conns & overlays & Hs) Ht]. fold s in Hs, Ht.
  split; [by eexists _, _, _|]. pose proof (shape_views _ _ _ _ Hs) as Hv. pose proof (shape_active _ _ _ _ Hs) as Ha.
  assert (is_Some (views s !! active_base s)) as Hbase.
  { apply lookup_lt_is_Some. rewrite Hv. cbn. rewrite length_app. lia. }
  split; [|split].
  - unfold active_view, active_index. destruct (has_overlay s); [|done]. apply lookup_lt_is_Some. rewrite Hv. cbn. lia.
  - destruct Hbase as [b Hb]. unfold capture_presentation_bundle. rewrite Hb. by eexists.
  - intros t Hc. by apply Ht.
Qed.

(** * Removing connections *)

Definition base_view (s : ViewStack V) : option (ViewController V) := views s !! active_base s.

Lemma kept_connection ids v : is_connection v → (is_removed ids v = false ↔ ∃ id, connection_of v = Some id ∧ id ∉ ids).
Proof.
  unfold is_connection, is_removed. destruct (connection_of v) as [id|]; [|done]. intros _. case_bool_decide; split; try done.
  - intros (i & [= ->] & ?). done.
  - intros _. by exists id.
Qed.

Lemma surviving_connections_stay_active_core ids s :
  stack_ok s →
  let s' := remove_tmux_connections ids s in
  views s' = List.filter (λ v, negb (is_removed ids v)) (views s) ∧
  drop (base_count s') (views s') = drop (base_count s) (views s) ∧
  match base_view s ≫= connection_of with
  | None => base_view s' = base_view s ∧ compositor_transition s' = compositor_transition s
  | Some id =>
      if bool_decide (id ∈ ids)
      then base_view s' = last (take (base_count s') (views s')) ∧ compositor_transition s' = Some (next_compositor_transition s)
      else base_view s' ≫= connection_of = Some id ∧ compositor_transition s' = compositor_transition s
  end.
Proof.
  intros [(root & conns & overlays & Hs) _] s'. destruct (remove_spec ids _ _ _ _ Hs) as (Hs' & _ & _ & Heq).
  fold s' in Hs', Heq. set (kept := List.filter _ conns) in *.
  destruct (shaped_take _ _ _ _ Hs) as [Ht Hd]. destruct (shaped_take _ _ _ _ Hs') as [Ht' Hd'].
  assert (∀ v, is_plain v → is_removed ids v = false) as Hplain by (unfold is_plain, is_removed; by intros v ->).
  split; [|split; [by rewrite Hd, Hd'|]].
  - rewrite (shape_views _ _ _ _ Hs), (shape_views _ _ _ _ Hs'). cbn [List.filter].
    rewrite (Hplain root (shape_root _ _ _ _ Hs)). cbn [negb]. f_equal. rewrite List.filter_app. f_equal.
    pose proof (shape_overlays _ _ _ _ Hs) as Ho. clear -Ho Hplain. induction Ho as [|v l Hv _ IH]; [done|].
    cbn [List.filter]. rewrite (Hplain v Hv). cbn [negb]. by f_equal.
  - unfold base_view at 1. rewrite Ht'. destruct (views s !! active_base s) as [b|] eqn:Eb; cbn [mbind option_bind] in Heq |- *.
    + destruct (connection_of b) as [id|] eqn:Eid.
      * case_bool_decide as Hin; injection Heq as _ Ec Ea; rewrite Ec; split; try done; unfold base_view; rewrite Ea.
        -- rewrite (shape_views _ _ _ _ Hs'). rewrite last_lookup. cbn [length pred].
           by rewrite app_comm_cons, lookup_app_l by (cbn; lia).
        -- assert (b ∈ kept) as Hb.
           { apply elem_of_Filter. assert (is_connection b) as Hbc by (unfold is_connection; congruence). split.
             - rewrite (shape_views _ _ _ _ Hs) in Eb. destruct (active_base s) as [|n] eqn:En.
               + injection Eb as ->. pose proof (shape_root _ _ _ _ Hs). unfold is_plain in *. congruence.
               + change ((conns ++ overlays) !! n = Some b) in Eb. pose proof (shape_active _ _ _ _ Hs). rewrite lookup_app_l in Eb by lia. by eapply list_elem_of_lookup_2.
             - apply negb_true_iff, kept_connection; [done|]. by exists id. }
           destruct (connection_index_exists id (root :: kept) b) as [n Hn]; [set_solver|done|].
           rewrite Hn. cbn [default]. apply connection_index_Some in Hn as (v & Hv & Hid).
           rewrite (shape_views _ _ _ _ Hs'), app_comm_cons, lookup_app_l by (by eapply lookup_lt_Some).
           change ((root :: kept) !! n ≫= connection_of = Some id). by rewrite Hv.
      * injection Heq as _ Ec Ea. split; [|done]. unfold base_view. rewrite Ea, Eb, (shape_views _ _ _ _ Hs'). cbn. f_equal.
        rewrite (shape_views _ _ _ _ Hs) in Eb. destruct (active_base s) as [|n] eqn:En; [by injection Eb|].
        change ((conns ++ overlays) !! n = Some b) in Eb. pose proof (shape_active _ _ _ _ Hs). rewrite lookup_app_l in Eb by lia.
        pose proof (shape_conns _ _ _ _ Hs) as Hcs. eapply Forall_lookup in Hcs; [|exact Eb]. done.
    + apply lookup_ge_None in Eb. rewrite (shape_views _ _ _ _ Hs) in Eb. cbn in Eb. rewrite length_app in Eb.
      pose proof (shape_active _ _ _ _ Hs). lia.
Qed.

(** C38. Closing tmux connections takes out exactly the views of those connections:
    the terminal, the other connections and the overlays keep their order.
    The connection that was active stays active if it is not closed.  If it is
    closed, the screen is announced as another one, and of the bases that are
    left the most recently opened becomes active: the order of opening decides,
    and not, as the documents have it, the nearest live parent, which the stack
    does not know ([sibling_becomes_active]). *)
Theorem surviving_connections_stay_active ids s :
  stack_ok s →
  let s' := remove_tmux_connections ids s in
  views s' = List.filter (λ v, negb (is_removed ids v)) (views s) ∧
  drop (base_count s') (views s') = drop (base_count s) (views s) ∧
  match base_view s ≫= connection_of with
  | None => base_view s' = base_view s ∧ compositor_transition s' = compositor_transition s
  | Some id =>
      if bool_decide (id ∈ ids)
      then base_view s' = last (take (base_count s') (views s')) ∧ compositor_transition s' = Some (next_compositor_transition s)
      else base_view s' ≫= connection_of = Some id ∧ compositor_transition s' = compositor_transition s
  end.
Proof. exact (surviving_connections_stay_active_core ids s). Qed.

(** * Transitions *)

Definition transition_after (n : nat) (t : N) : N := Nat.iter n next_transition t.

Lemma next_transition_value t : 1 ≤ t < 2 ^ 64 → next_transition t = if t =? 2 ^ 64 - 1 then 1 else t + 1.
Proof.
  intros Ht. unfold next_transition. destruct (N.eqb_spec t (2 ^ 64 - 1)) as [->|Hne]; [done|].
  rewrite N.mod_small by lia. lia.
Qed.
Lemma transition_after_value n t :
  1 ≤ t < 2 ^ 64 → N.of_nat n < 2 ^ 64 - 1 →
  transition_after n t = if t + N.of_nat n <? 2 ^ 64 then t + N.of_nat n else t + N.of_nat n - (2 ^ 64 - 1).
Proof.
  intros Ht. induction n as [|n IH]; intros Hn.
  - cbn [transition_after Nat.iter nat_rect]. rewrite N.add_0_r. by rewrite (proj2 (N.ltb_lt _ _)) by lia.
  - assert (transition_after (S n) t = next_transition (transition_after n t)) as -> by done. rewrite IH by lia.
    destruct (N.ltb_spec (t + N.of_nat n) (2 ^ 64)); rewrite next_transition_value by lia;
      destruct (N.eqb_spec (t + N.of_nat n) (2 ^ 64 - 1)), (N.ltb_spec (t + N.of_nat (S n)) (2 ^ 64)),
        (N.eqb_spec (t + N.of_nat n - (2 ^ 64 - 1)) (2 ^ 64 - 1)); lia.
Qed.

(** From [s] to [s'], [n] transitions begin, and the last one is pending or
    completed. *)
Definition begun (n : nat) (s s' : ViewStack V) : Prop :=
  next_compositor_transition s' = transition_after n (next_compositor_transition s) ∧
  (compositor_transition s' = None ∨
   compositor_transition s' = match n with
                              | O => compositor_transition s
                              | S m => Some (transition_after m (next_compositor_transition s))
                              end).

(** An operation begins at most two transitions. *)
Lemma stack_step_transitions e s : event_ok e → stack_ok s → ∃ n, (n ≤ 2)%nat ∧ begun n s (stack_step e s).
Proof.
  intros He [(root & conns & overlays & Hs) Ht].
  destruct (clear_overlays_spec _ _ _ _ Hs) as (Hs1 & Ha1 & _ & _ & En1 & Ec1).
  assert (∀ s', next_compositor_transition s' = (next_compositor_transition s) → compositor_transition s' = compositor_transition s →
    ∃ n, (n ≤ 2)%nat ∧ begun n s s') as Hsame by (intros s' E1 E2; exists 0%nat; split; [lia|by split; [|right]]).
  assert (∀ s', next_compositor_transition s' = next_transition (next_compositor_transition s) → compositor_transition s' = Some (next_compositor_transition s) →
    ∃ n, (n ≤ 2)%nat ∧ begun n s s') as Hone by (intros s' E1 E2; exists 1%nat; split; [lia|by split; [|right]]).
  assert (∀ s', next_compositor_transition s' = next_transition (next_transition (next_compositor_transition s)) →
    compositor_transition s' = Some (next_transition (next_compositor_transition s)) → ∃ n, (n ≤ 2)%nat ∧ begun n s s') as Htwo
    by (intros s' E1 E2; exists 2%nat; split; [lia|by split; [|right]]).
  assert (∀ i, (i ≤ length conns)%nat → ∃ n, (n ≤ 2)%nat ∧ begun n s
    ((if bool_decide (active_base (clear_overlays s) = i) then clear_overlays s
      else begin_compositor_transition (clear_overlays s)) <| active_base := i |>)) as Hact.
  { revert Hs1 En1 Ec1. clear Ha1. generalize (clear_overlays s). intros s1 Hs1 En1 Ec1 i Hi.
    destruct (activate_spec root conns s1 i Hs1 Hi) as (_ & _ & _ & _ & Heq).
    set (s2 := _ <| active_base := i |>) in *. clearbody s2. 
    repeat case_bool_decide; injection Heq as Hc Hn; rewrite ?En1, ?Ec1 in Hc; rewrite ?En1 in Hn; auto. }
  destruct e as [v| | | |t|ids| |id|id f|retained]; cbn [stack_step].
  - destruct (connection_of v) as [n|] eqn:Ev.
    + destruct (push_connection_spec v _ _ _ _ Hs ltac:(unfold is_connection; congruence)) as (_ & _ & _ & _ & Ec & En).
      rewrite En1 in Ec, En. case_bool_decide; auto.
    + destruct (push_plain_spec v _ _ _ _ Hs Ev) as [-> _]. apply Hsame; by destruct s.
  - destruct overlays as [|v overlays _] using rev_ind.
    + unfold pop. rewrite (shaped_overlay _ _ _ _ Hs). by apply Hsame.
    + destruct (pop_spec v _ _ _ _ Hs) as (_ & _ & _ & _ & _ & En & Ec). case_bool_decide; auto.
  - apply Hsame; by destruct s.
  - case_bool_decide; auto.
  - unfold complete_compositor_transition. destruct (bool_decide (compositor_transition s = _)); cbn [fst]; [|by apply Hsame].
    exists 0%nat. split; [lia|]. destruct s; by split; [|left].
  - destruct (remove_spec ids _ _ _ _ Hs) as (_ & _ & _ & Heq). repeat case_match; injection Heq as En Ec _; auto.
  - apply (Hact 0%nat). lia.
  - unfold activate_tmux_connection. destruct (tmux_connection_index id s) as [i|] eqn:Ei; [|by apply Hsame].
    apply Hact. by apply (shaped_index _ _ _ _ _ _ Hs Ei).
  - unfold update_connection. destruct (tmux_connection_index id s); apply Hsame; by destruct s.
  - apply Hsame; by destruct s.
Qed.

Lemma transition_after_add n m t : transition_after (m + n) t = transition_after m (transition_after n t).
Proof. induction m as [|m IH]; [done|]. cbn. by f_equal. Qed.

Lemma begun_trans n m s1 s2 s3 : begun n s1 s2 → begun m s2 s3 → begun (m + n) s1 s3.
Proof.
  intros [N1 C1] [N2 C2]. split; [by rewrite N2, N1, <-transition_after_add|].
  destruct C2 as [->|C2]; [by left|]. destruct m as [|m]; cbn [Nat.add]; [by rewrite C2|].
  right. by rewrite C2, N1, <-transition_after_add.
Qed.

Lemma stack_run_transitions es s :
  Forall event_ok es → stack_ok s → ∃ n, (n ≤ 2 * length es)%nat ∧ begun n s (stack_run es s).
Proof.
  unfold stack_run. revert s. induction es as [|e es IH]; intros s Hes Hs; cbn [fold_left length].
  - exists 0%nat. split; [lia|]. by split; [|right].
  - apply Forall_cons in Hes as [He Hes]. destruct (stack_step_transitions e s He Hs) as (n & Hn & Hb).
    destruct (IH (stack_step e s) Hes (stack_step_ok _ _ He Hs)) as (m & Hm & Hb').
    exists (m + n)%nat. split; [lia|]. by eapply begun_trans.
Qed.

(** A render completes a transition only if it is the one it was made for: once
    a later transition has begun, completing the earlier one changes nothing,
    whatever happened in between (in fewer than 2^63 - 1 operations, so that
    the 64-bit tokens cannot come round). *)
Theorem stale_transitions_complete_nothing es s t :
  stack_ok s → Forall event_ok es → 2 * len es < 2 ^ 64 - 1 →
  compositor_transition s = Some t →
  let s' := stack_run es s in
  next_compositor_transition s' ≠ next_compositor_transition s →
  complete_compositor_transition t s' = (s', false).
Proof.
  intros Hs Hes Hlen Ht s' Hnext. destruct (stack_run_transitions es s Hes Hs) as (n & Hn & HN & HC). fold s' in HN, HC.
  destruct Hs as [_ [Hr Hp]]. destruct (Hp t Ht) as [Ht1 Ht2].
  unfold complete_compositor_transition. rewrite bool_decide_eq_false_2; [done|].
  destruct n as [|m]; [done|]. destruct HC as [->|HC]; [done|]. rewrite HC. intros [= E]. rewrite Ht2 in E.
  change (transition_after m (next_transition t)) with (transition_after m (transition_after 1 t)) in E.
  rewrite <-transition_after_add in E. rewrite transition_after_value in E by lia.
  destruct (N.ltb_spec (t + N.of_nat (m + 1)) (2 ^ 64)); lia.
Qed.

(** * What the screen shows *)

(** The application that is shown: [Some None] is the terminal, [None] means
    that an overlay covers it. *)
Definition shown_application (s : ViewStack V) : option (option N) :=
  if has_overlay s then None else Some (base_view s ≫= connection_of).

Lemma base_view_shaped root conns overlays s : shaped root conns overlays s → base_view s = (root :: conns) !! active_base s.
Proof.
  intros Hs. unfold base_view. pose proof (shape_active _ _ _ _ Hs).
  rewrite (shape_views _ _ _ _ Hs), app_comm_cons. apply lookup_app_l. cbn. lia.
Qed.

Lemma next_transition_ne t : 1 ≤ t < 2 ^ 64 → next_transition t ≠ t ∧ next_transition (next_transition t) ≠ t.
Proof.
  intros Ht. pose proof (next_transition_range t) as Hr. rewrite (next_transition_value (next_transition t)) by done.
  rewrite next_transition_value in * by done.
  destruct (N.eqb_spec t (2 ^ 64 - 1)) as [->|Hne]; [done|]. destruct (N.eqb_spec (t + 1) (2 ^ 64 - 1)); lia.
Qed.

Definition announced (s s' : ViewStack V) : Prop :=
  is_Some (compositor_transition s') ∧ next_compositor_transition s' ≠ next_compositor_transition s.

Lemma announced_once s s' : transition_ok s →
  next_compositor_transition s' = next_transition (next_compositor_transition s) →
  is_Some (compositor_transition s') → announced s s'.
Proof. intros [Hn _] E Hc. split; [done|]. rewrite E. by apply next_transition_ne. Qed.
Lemma announced_twice s s' : transition_ok s →
  next_compositor_transition s' = next_transition (next_transition (next_compositor_transition s)) →
  is_Some (compositor_transition s') → announced s s'.
Proof. intros [Hn _] E Hc. split; [done|]. rewrite E. by apply next_transition_ne. Qed.

Lemma activate_announces root conns overlays s i :
  shaped root conns overlays s → transition_ok s → (i ≤ length conns)%nat →
  let s1 := clear_overlays s in
  let s2 := (if bool_decide (active_base s1 = i) then s1 else begin_compositor_transition s1) <| active_base := i |> in
  shown_application s2 = shown_application s ∨ announced s s2.
Proof.
  intros Hs Ht Hi. destruct (clear_overlays_spec _ _ _ _ Hs) as (Hs1 & Ha1 & _ & _ & En1 & Ec1). cbv zeta.
  revert Hs1 Ha1 En1 Ec1. generalize (clear_overlays s). intros s1 Hs1 Ha1 En1 Ec1.
  destruct (activate_spec root conns s1 i Hs1 Hi) as (Hs2 & _ & _ & _ & Heq).
  assert (active_base ((if bool_decide (active_base s1 = i) then s1 else begin_compositor_transition s1) <| active_base := i |>) = i) as Ea2
    by (case_bool_decide; by destruct s1).
  set (s2 := _ <| active_base := i |>) in *. clearbody s2.
  destruct (bool_decide (active_base s1 = i)) eqn:E; injection Heq as Hc Hn; destruct (bool_decide (overlays = [])) eqn:Eo.
  - left. apply bool_decide_eq_true in E, Eo. unfold shown_application. rewrite (shaped_overlay _ _ _ _ Hs2), (shaped_overlay _ _ _ _ Hs), Eo.
    cbn. by rewrite (base_view_shaped _ _ _ _ Hs2), (base_view_shaped _ _ _ _ Hs), Ea2, <-Ha1, E.
  - right. apply announced_once; [done|by rewrite Hn|rewrite Hc, Ec1; by eexists].
  - right. apply announced_once; [done|by rewrite Hn, En1|rewrite Hc; by eexists].
  - right. apply announced_twice; [done|by rewrite Hn, En1|rewrite Hc; by eexists].
Qed.

Lemma shown_same s s' f :
  (∀ v, connection_of (f v) = connection_of v) → views s' = f <$> views s →
  base_count s' = base_count s → active_base s' = active_base s → shown_application s' = shown_application s.
Proof.
  intros Hf Ev Eb Ea. unfold shown_application, has_overlay, base_view. rewrite Ev, Eb, Ea, length_fmap, list_lookup_fmap.
  destruct (_ <? _)%nat; [done|]. f_equal. destruct (views s !! active_base s); [|done]. cbn. apply Hf.
Qed.

Lemma update_connection_of (f : TmuxConnectionView V → TmuxConnectionView V) v :
  (∀ c, view_connection (f c) = view_connection c) → connection_of (update_at f v) = connection_of v.
Proof. intros Hf. destruct v; cbn; [done|]. by rewrite Hf. Qed.

(** C39. Whenever an operation puts another application on the screen (the terminal,
    or another connection) or uncovers one, a new transition is pending, so
    that the screen is read as another one once it is drawn. *)
Theorem revealed_applications_are_announced e s :
  event_ok e → stack_ok s →
  let s' := stack_step e s in
  has_overlay s' = false → shown_application s' = shown_application s ∨ announced s s'.
Proof.
  intros He [(root & conns & overlays & Hs) Ht] s' Hover. subst s'.
  pose proof (shaped_overlay _ _ _ _ Hs) as Ho.
  destruct e as [v| | | |t|ids| |id|id f|retained]; cbn [stack_step] in *.
  - destruct (connection_of v) as [n|] eqn:Ev.
    + destruct (push_connection_spec v _ _ _ _ Hs ltac:(unfold is_connection; congruence)) as (_ & _ & _ & _ & Ec & En).
      destruct (clear_overlays_spec _ _ _ _ Hs) as (_ & _ & _ & _ & En1 & _). rewrite En1 in En. right.
      destruct (bool_decide (overlays = [])); [apply announced_once|apply announced_twice]; try done; rewrite Ec; by eexists.
    + destruct (push_plain_spec v _ _ _ _ Hs Ev) as [_ Hs']. rewrite (shaped_overlay _ _ _ _ Hs') in Hover.
      rewrite bool_decide_eq_false_2 in Hover; [done|]. intros E. by apply app_eq_nil in E as [_ ?].
  - destruct overlays as [|v overlays _] using rev_ind; [left; unfold pop; by rewrite Ho|].
    destruct (pop_spec v _ _ _ _ Hs) as (Hs' & _ & _ & _ & _ & En & Ec). rewrite (shaped_overlay _ _ _ _ Hs') in Hover.
    apply negb_false_iff, bool_decide_eq_true in Hover as ->. right. apply announced_once; [done..|]. rewrite Ec. by eexists.
  - left. apply (shown_same _ _ controller_track); [apply track_connection_of|by destruct s..].
  - destruct (clear_overlays_spec _ _ _ _ Hs) as (Hs1 & Ha1 & _ & _ & En1 & Ec1).
    destruct (bool_decide (overlays = [])) eqn:Eo; [left|right; apply announced_once; [done..|rewrite Ec1; by eexists]].
    unfold shown_application. rewrite (shaped_overlay _ _ _ _ Hs1), Ho, bool_decide_eq_true_2 by done. cbn [negb]. by rewrite (base_view_shaped _ _ _ _ Hs1), (base_view_shaped _ _ _ _ Hs), Ha1.
  - left. unfold complete_compositor_transition. destruct (bool_decide (compositor_transition s = _)); by destruct s.
  - destruct (remove_spec ids _ _ _ _ Hs) as (Hs' & _ & _ & Heq).
    destruct (surviving_connections_stay_active_core ids s) as (_ & _ & Hbase); [split; [by eexists _, _, _|done]|].
    rewrite (shaped_overlay _ _ _ _ Hs') in Hover. unfold shown_application. rewrite (shaped_overlay _ _ _ _ Hs'), Ho, Hover.
    unfold base_view in Hbase at 1. fold (base_view s) in Hbase.
    change (views s !! active_base s) with (base_view s) in Heq.
    destruct (base_view s ≫= connection_of) as [id|] eqn:Eid; [|left; by rewrite (proj1 Hbase), Eid].
    destruct (bool_decide (id ∈ ids)); [right|left; by rewrite (proj1 Hbase)].
    injection Heq as En Ec _. apply announced_once; [done..|rewrite Ec; by eexists].
  - apply (activate_announces root conns overlays s 0); [done..|lia].
  - unfold activate_tmux_connection in *. destruct (tmux_connection_index id s) as [i|] eqn:Ei; [|by left].
    apply (activate_announces root conns overlays s i); [done..|by apply (shaped_index _ _ _ _ _ _ Hs Ei)].
  - left. unfold update_connection. destruct (tmux_connection_index id s) as [i|]; [|done].
    change (λ v, match v with TmuxConnection c => _ | _ => _ end) with (update_at f).
    set (s1 := s <| views := _ |>).
    assert (views s1 = alter (update_at f) i (views s) ∧ base_count s1 = base_count s ∧ active_base s1 = active_base s)
      as (Ev & Eb & Ea) by (by destruct s). clearbody s1.
    unfold shown_application, has_overlay, base_view. rewrite Ev, Eb, Ea, length_alter.
    destruct (base_count s <? length (views s))%nat; [done|]. f_equal.
    destruct (decide (active_base s = i)) as [->|Hne]; [rewrite list_lookup_alter_eq|by rewrite list_lookup_alter_ne].
    destruct (views s !! i); [|done]. cbn. by apply update_connection_of.
  - left. apply (shown_same _ _ (controller_retain retained)); [apply retain_connection_of|by destruct s..].
Qed.
End Shape.

(** * Views stay addressable *)

Section Owning.
Context {V U : Type} `{PL : PaneViewLaws V U} `{PS : PaneScreen V} `{SV : StackView V}.
Implicit Types (s : ViewStack V) (v : ViewController V).

Definition owners (s : ViewStack V) : list (ViewController V) := views s ++ retired_views s.
Definition held_by (i : N) (l : list (ViewController V)) : Prop := ∃ v, v ∈ l ∧ owns i v = true.

Lemma stack_owns_spec i s : stack_owns i s = true ↔ held_by i (owners s).
Proof.
  unfold stack_owns, held_by, owners. rewrite existsb_exists. split; intros (v & Hv & Ho); exists v; split; try done;
    by apply list_elem_of_In.
Qed.

Lemma owns_track i v : owns i v = true → owns i (controller_track v) = true.
Proof.
  destruct v as [k t v|c]; cbn; [by rewrite tracking_id|].
  intros Hi%bool_decide_eq_true. apply bool_decide_eq_true. by apply connection_track_owns.
Qed.
Lemma owns_retain i retained v : i ∈ retained → owns i v = true → owns i (controller_retain retained v) = true.
Proof.
  destruct v as [k t v|c]; [done|]; cbn. intros Hin Hi%bool_decide_eq_true. apply bool_decide_eq_true. by apply connection_retain_owns.
Qed.

Lemma held_app i l1 l2 : held_by i (l1 ++ l2) ↔ held_by i l1 ∨ held_by i l2.
Proof. unfold held_by. setoid_rewrite elem_of_app. naive_solver. Qed.
Lemma held_sub i l1 l2 : (∀ v, v ∈ l1 → v ∈ l2) → held_by i l1 → held_by i l2.
Proof. intros Hsub (v & Hv & Ho). exists v. auto. Qed.
Lemma held_map i f l : (∀ v, owns i v = true → owns i (f v) = true) → held_by i l → held_by i (f <$> l).
Proof. intros Hf (v & Hv & Ho). exists (f v). split; [by apply list_elem_of_fmap_2|auto]. Qed.

Definition keeps_view (i : N) (e : StackEvent V) : Prop :=
  match e with
  | UpdateConnection _ f => ∀ c, owns i (TmuxConnection c) = true → owns i (TmuxConnection (f c)) = true
  | RetainStack retained => i ∈ retained
  | _ => True
  end.

Lemma clear_overlays_owners s : stack_tracking s = true → ∀ v, v ∈ owners s ↔ v ∈ owners (clear_overlays s).
Proof.
  intros Ht v. unfold owners, clear_overlays. rewrite <-(take_drop (base_count s) (views s)) at 1.
  destruct (has_overlay s); destruct s; cbn in *; rewrite Ht; cbn; rewrite !elem_of_app; tauto.
Qed.

Lemma pop_tracked s : stack_tracking s = true → has_overlay s = true → ∃ s1,
  (pop s).1 = (if has_overlay s1 then s1 else begin_compositor_transition s1) ∧
  views s1 = take (length (views s) - 1) (views s) ∧
  retired_views s1 = retired_views s ++ drop (length (views s) - 1) (views s) ∧ stack_tracking s1 = true.
Proof.
  intros Ht Ho. unfold pop. rewrite Ho. cbn [negb fst]. set (s1 := if stack_tracking _ then _ else _).
  exists s1. split; [done|]. clear Ho. subst s1. destruct s; cbn in *. by subst.
Qed.

Lemma stack_step_owns e s i :
  stack_tracking s = true → keeps_view i e → held_by i (owners s) → held_by i (owners (stack_step e s)).
Proof.
  intros Ht Hk Hi. pose proof (clear_overlays_owners s Ht) as Hclear.
  assert (held_by i (owners (clear_overlays s))) as Hi1 by (eapply held_sub; [|exact Hi]; apply Hclear).
  assert (∀ (b : bool) s1 n, held_by i (owners s1) →
    held_by i (owners ((if b then s1 else begin_compositor_transition s1) <| active_base := n |>))) as Hact
    by (intros [] s1 n; by destruct s1).
  destruct e as [v| | | |t|ids| |id|id f|retained]; cbn [stack_step keeps_view] in *.
  - unfold push. rewrite Ht. case_bool_decide.
    + eapply held_sub; [|exact Hi]. intros w. unfold owners. destruct s; cbn. rewrite !elem_of_app. tauto.
    + eapply held_sub; [|exact Hi1]. intros w. unfold owners, insert_at. generalize (clear_overlays s). intros [vs]; cbn.
      rewrite <-(take_drop base_count0 vs) at 1. rewrite !elem_of_app, elem_of_cons. tauto.
  - destruct (has_overlay s) eqn:Ho; [|unfold pop; by rewrite Ho].
    destruct (pop_tracked s Ht Ho) as (s1 & -> & Ev & Er & _). eapply held_sub; [|exact Hi]. intros w. unfold owners.
    rewrite <-(take_drop (length (views s) - 1) (views s)) at 1.
    destruct (has_overlay s1); destruct s1; cbn in *; subst; rewrite !elem_of_app; tauto.
  - unfold owners in *. apply held_app in Hi. apply held_app. destruct s; cbn in *.
    destruct Hi as [Hi|Hi]; [left|by right]. apply held_map; [apply owns_track|done].
  - done.
  - unfold complete_compositor_transition. destruct (bool_decide _); by destruct s.
  - eapply held_sub; [|exact Hi]. intros w. unfold owners, remove_tmux_connections.
    set (o := views s !! active_base s ≫= connection_of). clearbody o.
    rewrite <-(take_drop (base_count s) (views s)) at 1. rewrite Ht. rewrite !elem_of_app.
    assert (∀ l, w ∈ l → w ∈ List.filter (is_removed ids) l ∨ w ∈ List.filter (λ v, negb (is_removed ids v)) l) as Hsplit.
    { intros l Hw. rewrite !elem_of_Filter. destruct (is_removed ids w); auto. }
    specialize (Hsplit (take (base_count s) (views s))).
    destruct o as [id|]; [destruct (bool_decide (id ∈ ids))|]; destruct s; cbn in *; rewrite !elem_of_app; tauto.
  - by apply Hact.
  - unfold activate_tmux_connection. destruct (tmux_connection_index id s); [|done]. by apply Hact.
  - unfold update_connection. destruct (tmux_connection_index id s) as [n|]; [|done].
    change (λ v, match v with TmuxConnection c => _ | _ => _ end) with (update_at f).
    unfold owners in *. apply held_app in Hi. apply held_app. destruct s; cbn in *.
    destruct Hi as [(v & [j Hj]%list_elem_of_lookup & Ho)|Hi]; [left|by right].
    destruct (decide (j = n)) as [->|Hne].
    + exists (update_at f v). split; [|destruct v; [done|by apply Hk]].
      apply list_elem_of_lookup. exists n. by rewrite list_lookup_alter_eq, Hj.
    + exists v. split; [|done]. apply list_elem_of_lookup. exists j. by rewrite list_lookup_alter_ne.
  - unfold owners in *. apply held_app in Hi. apply held_app. destruct s; cbn in *. destruct Hi as [Hi|(v & Hv & Ho)].
    + left. apply held_map; [by intros v; apply owns_retain|done].
    + right. exists (controller_retain retained v). pose proof (owns_retain i retained v Hk Ho) as Ho'. split; [|done].
      apply elem_of_Filter. split; [by apply list_elem_of_fmap_2|]. unfold keeps_retired. apply existsb_exists. exists i.
      split; [by apply list_elem_of_In|done].
Qed.

Lemma stack_tracking_kept e s : stack_tracking s = true → stack_tracking (stack_step e s) = true.
Proof.
  intros Ht. assert (∀ s1, stack_tracking (begin_compositor_transition s1) = stack_tracking s1) as Hb by (by intros []).
  assert (stack_tracking (clear_overlays s) = true) as Hclear.
  { unfold clear_overlays. destruct (has_overlay s); destruct s; cbn in *; by rewrite Ht. }
  destruct e as [v| | | |t|ids| |id|id f|retained]; cbn [stack_step].
  - unfold push. rewrite Ht. case_bool_decide; [by destruct s|]. by destruct (clear_overlays s).
  - destruct (has_overlay s) eqn:Ho; [|unfold pop; by rewrite Ho].
    destruct (pop_tracked s Ht Ho) as (s1 & -> & _ & _ & Ht1). destruct (has_overlay s1); [done|by rewrite Hb].
  - by destruct s.
  - done.
  - unfold complete_compositor_transition. destruct (bool_decide _); by destruct s.
  - unfold remove_tmux_connections. set (o := views s !! active_base s ≫= connection_of). clearbody o. rewrite Ht.
    destruct o as [id|]; [destruct (bool_decide (id ∈ ids))|]; by destruct s.
  - unfold activate_terminal. destruct (bool_decide _); by destruct (clear_overlays s).
  - unfold activate_tmux_connection. destruct (tmux_connection_index id s); [|done]. cbn [fst].
    destruct (bool_decide _); by destruct (clear_overlays s).
  - unfold update_connection. destruct (tmux_connection_index id s); by destruct s.
  - by destruct s.
Qed.

(** While the presentation is tracked, a view the stack owns stays owned,
    whatever is popped, closed, replaced or activated, until a list of the views
    still on the screen or on their way to it leaves it out. *)
Theorem stack_views_are_kept i es s :
  stack_tracking s = true → Forall (keeps_view i) es →
  stack_owns i s = true → stack_owns i (stack_run es s) = true.
Proof.
  rewrite !stack_owns_spec. unfold stack_run. revert s.
  induction es as [|e es IH]; intros s Ht Hes Hi; cbn [fold_left]; [done|].
  apply Forall_cons in Hes as [He Hes]. apply IH; [by apply stack_tracking_kept|done|by apply stack_step_owns].
Qed.

(** The lookup by identity finds what the stack owns, as long as no connection
    shows a portal; of a connection that shows one it finds the view that is
    shown, and no other. *)
Theorem lookup_misses_what_a_portal_hides i s :
  (∀ v, v ∈ owners s → controller_kind v ≠ KindTmuxPortal) →
  (∀ k t w, Plain k t w ∈ owners s → k ≠ KindTmuxConnection) →
  contains_view_id i s = stack_owns i s ∧
  ∀ c, is_showing_portal c = true → finds_view i (TmuxConnection c) = (view_id (model c) =? i).
Proof.
  intros Hportal Hplain. split.
  - unfold contains_view_id, stack_owns. fold (owners s). revert Hportal Hplain. generalize (owners s). intros l.
    induction l as [|v l IH]; intros Hportal Hplain; [done|]. cbn [existsb]. f_equal; [|apply IH; set_solver].
    unfold finds_view. destruct v as [k t w|c]; cbn [controller_kind controller_model owns].
    + rewrite bool_decide_eq_false_2; [done|]. apply (Hplain k t w). set_solver.
    + pose proof (Hportal (TmuxConnection c) ltac:(set_solver)) as Hp. cbn in Hp.
      destruct (is_showing_portal c); [done|]. by rewrite bool_decide_eq_true_2.
  - intros c Hc. unfold finds_view. cbn [controller_kind controller_model]. by rewrite Hc.
Qed.
End Owning.

(** * A stack with one connection *)

#[export] Instance logged_stack_view : StackView LoggedView := {
  mark_review_context_active v := v; live_title _ := None; committed_title _ := Some (bs "~") }.

Definition terminal_stack : ViewStack LoggedView :=
  stack_enable_tracking (view_stack_new KindTerminal (bs "Terminal") (view_new 100 4 20)).
Definition sample_stack : ViewStack LoggedView := push (TmuxConnection split_connection.2) terminal_stack.
Definition cover_pane (c : TmuxConnectionView LoggedView) : TmuxConnectionView LoggedView :=
  (connection_set_portal 50 21 7 c).1.2.

(** A portal over the active pane makes the other pane's view, which is on the
    screen beside it, unknown to the lookup, though the stack still owns it. *)
Theorem portal_over_a_pane_hides_its_neighbour :
  let covered := update_connection 1 cover_pane sample_stack in
  let left_view := 5 in
  contains_view_id left_view sample_stack = true ∧ stack_owns left_view covered = true ∧
  contains_view_id left_view covered = false ∧
  (∃ surface c, tmux_connection 1 covered = Some c ∧ (surface, left_view) ∈ (connection_frames c).2).
Proof.
  split; [by vm_compute|]. split; [by vm_compute|]. split; [by vm_compute|].
  eexists _, _. split; [by vm_compute|]. vm_compute. by left.
Qed.

(** * The active view of a bundle *)

Section Bundles.
Context {V U : Type} `{PV : PaneView V U} `{PS : PaneScreen V} `{SV : StackView V}.

Lemma add_overlays_active (l : list (nat * ViewController V)) acc :
  (fold_left add_overlay l acc).1 = match last l with Some iv => Some (view_id (controller_model iv.2)) | None => acc.1 end.
Proof.
  induction l as [|iv l IH] using rev_ind; [done|]. rewrite fold_left_app, last_snoc. done.
Qed.

Lemma last_zip_seq {A} (l : list A) k : last (zip (seq k (length l)) l) = (λ x, (k + length l - 1, x)%nat) <$> last l.
Proof.
  induction l as [|x l IH] using rev_ind; [done|].
  rewrite length_app, seq_app, zip_with_app by (by rewrite length_seq). cbn [length seq zip_with].
  rewrite !last_snoc. cbn. f_equal. f_equal. lia.
Qed.

(** What a bundle names as the active view is the view commands read: the
    model of the view that is active, overlay or application. *)
Theorem bundles_name_the_active_view (s : ViewStack V) :
  stack_ok s → (∀ c, TmuxConnection c ∈ views s → in_sync c) →
  ∃ v frames, active_view s = Some v ∧ capture_presentation_bundle s = Some (Some (view_id (controller_model v)), frames).
Proof.
  intros [(root & conns & overlays & Hs) _] Hsync. unfold active_view, active_index, capture_presentation_bundle.
  rewrite (proj2 (shaped_take _ _ _ _ Hs)), (shaped_overlay _ _ _ _ Hs).
  destruct (lookup_lt_is_Some_2 (views s) (active_base s)) as [b Hb].
  { rewrite (shape_views _ _ _ _ Hs). cbn. rewrite length_app. pose proof (shape_active _ _ _ _ Hs). lia. }
  rewrite Hb. cbn [mbind option_bind]. set (bundle := fold_left _ _ _).
  assert (bundle.1 = match last overlays with Some v => Some (view_id (controller_model v)) | None => (base_frames b).1 end) as Hact.
  { unfold bundle. rewrite add_overlays_active, last_zip_seq. by destruct (last overlays). }
  clearbody bundle. destruct bundle as [active frames]. cbn [fst] in Hact.
  destruct overlays as [|v overlays _] using rev_ind.
  - rewrite bool_decide_eq_true_2 by done. cbn [negb]. exists b, frames. split; [done|]. cbn in Hact.
    enough ((base_frames b).1 = Some (view_id (controller_model b))) as He by (by rewrite Hact, He).
    destruct b as [k t w|c]; [done|]. cbn. destruct (is_ready c) eqn:Hr; cbn [andb]; [|done].
    destruct (is_showing_portal c) eqn:Hp; cbn [negb]; [done|].
    apply active_frame_is_the_model; [|by unfold is_showing_portal in Hp; apply orb_false_iff in Hp as [-> _]|done].
    apply Hsync. by eapply list_elem_of_lookup_2.
  - rewrite last_snoc in Hact. rewrite bool_decide_eq_false_2 by (intros E; by apply app_eq_nil in E as [_ ?]). cbn [negb].
    exists v, frames. split; [|by rewrite Hact].
    rewrite (shape_views _ _ _ _ Hs), app_assoc, app_comm_cons.
    assert (length ((root :: conns ++ overlays) ++ [v]) - 1 = length (root :: conns ++ overlays))%nat as -> by (rewrite length_app; cbn; lia).
    by apply list_lookup_middle.
Qed.
End Bundles.

(** * Witnesses *)

Definition sample_root : ViewStack LoggedView := view_stack_new KindTerminal (bs "Terminal") (view_new 100 4 20).
Definition sample_events : list (StackEvent LoggedView) := [EnableStackTracking; Push (TmuxConnection split_connection.2)].

Lemma sample_events_ok : Forall event_ok sample_events.
Proof. by repeat constructor. Qed.
Lemma sample_ok : stack_ok (stack_run sample_events sample_root).
Proof. apply stack_run_ok; [exact sample_events_ok|apply new_stack_ok]. Qed.

Lemma stacks_keep_their_shape_witness :
  let s := stack_run sample_events sample_root in
  (∃ root conns overlays, shaped root conns overlays s) ∧
  is_Some (active_view s) ∧ is_Some (capture_presentation_bundle s) ∧
  (∀ t, compositor_transition s = Some t → next_compositor_transition s = next_transition t).
Proof. exact (stacks_keep_their_shape KindTerminal (bs "Terminal") (view_new 100 4 20) sample_events sample_events_ok). Defined.

Lemma surviving_connections_stay_active_witness :
  let s := stack_run sample_events sample_root in
  let s' := remove_tmux_connections [1] s in
  views s' = List.filter (λ v, negb (is_removed [1] v)) (views s) ∧
  drop (base_count s') (views s') = drop (base_count s) (views s) ∧
  match base_view s ≫= connection_of with
  | None => base_view s' = base_view s ∧ compositor_transition s' = compositor_transition s
  | Some id =>
      if bool_decide (id ∈ [1])
      then base_view s' = last (take (base_count s') (views s')) ∧ compositor_transition s' = Some (next_compositor_transition s)
      else base_view s' ≫= connection_of = Some id ∧ compositor_transition s' = compositor_transition s
  end.
Proof. exact (surviving_connections_stay_active [1] (stack_run sample_events sample_root) sample_ok). Defined.

(** Connections 2 and 3 are opened one after the other, both of them under
    connection 1: when 3 fails, 2 becomes active and not 1. *)
Example sibling_becomes_active :
  let nested id := TmuxConnection (split_connection.2 <| view_connection := id |>) in
  let s := stack_run [Push (nested 1); Push (nested 2); Push (nested 3)] sample_root in
  base_view s ≫= connection_of = Some 3 ∧ base_view (remove_tmux_connections [3] s) ≫= connection_of = Some 2.
Proof. split; vm_compute; reflexivity. Qed.

Lemma stale_transitions_complete_nothing_witness :
  let s' := stack_run [ActivateTerminal] (stack_run sample_events sample_root) in
  complete_compositor_transition 1 s' = (s', false).
Proof.
  apply (stale_transitions_complete_nothing [ActivateTerminal] (stack_run sample_events sample_root) 1).
  - exact sample_ok.
  - by repeat constructor.
  - by vm_compute.
  - by vm_compute.
  - by vm_compute.
Defined.

Lemma revealed_applications_are_announced_witness :
  shown_application (stack_step ActivateTerminal (stack_run sample_events sample_root)) =
    shown_application (stack_run sample_events sample_root) ∨
  announced (stack_run sample_events sample_root) (stack_step ActivateTerminal (stack_run sample_events sample_root)).
Proof.
  apply (revealed_applications_are_announced ActivateTerminal (stack_run sample_events sample_root)); [done|exact sample_ok|by vm_compute].
Defined.

Lemma stack_views_are_kept_witness :
  stack_owns 5 (stack_run [RemoveConnections [1]; RetainStack [5]] (stack_run sample_events sample_root)) = true.
Proof.
  apply (stack_views_are_kept 5 [RemoveConnections [1]; RetainStack [5]]); [by vm_compute| |by vm_compute].
  repeat constructor.
Defined.

Lemma bundles_name_the_active_view_witness : ∃ v frames, active_view sample_root = Some v ∧
  capture_presentation_bundle sample_root = Some (Some (view_id (controller_model v)), frames).
Proof.
  apply (bundles_name_the_active_view sample_root); [apply new_stack_ok|].
  intros c Hc. apply list_elem_of_singleton in Hc. discriminate.
Defined.

Lemma lookup_misses_what_a_portal_hides_witness :
  contains_view_id 100 sample_root = stack_owns 100 sample_root ∧
  ∀ c, is_showing_portal c = true → finds_view 100 (TmuxConnection c) = (view_id (model (V := LoggedView) c) =? 100).
Proof.
  apply (lookup_misses_what_a_portal_hides 100 sample_root).
  - intros v Hv. apply list_elem_of_singleton in Hv as ->. discriminate.
  - intros k t w Hv. apply list_elem_of_singleton in Hv. by injection Hv as -> _ _.
Defined.
