(* ===== verification/Grid.v ===== *)
(** Positions and rectangles of the composed screen (src/src/presentation.rs).

    A position is a pair of [i32]s, which may lie outside of the screen; an
    extent is a pair of [u16]s.  Sums saturate, as in the code.  A rectangle
    means the set of its positions, [in_rect]; intersection and clipping are
    shown to be those of sets. *)

From S2P Require Import Prelude Terminal.
Local Open Scope Z_scope.

(** * Signed machine integers *)

Definition i32_min : Z := -2147483648.
Definition i32_max : Z := 2147483647.
Definition i32_saturate (z : Z) : Z := Z.max i32_min (Z.min i32_max z).
Definition i32_add (a b : Z) : Z := i32_saturate (a + b).
Definition i32_sub (a b : Z) : Z := i32_saturate (a - b).
Definition i32_ok (z : Z) : Prop := i32_min ≤ z ≤ i32_max.

(** [u16::try_from]. *)
Definition u16_try_from (z : Z) : option N :=
  if (0 <=? z) && (z <=? 65535) then Some (Z.to_N z) else None.

(** * Data *)

Record GridPoint := { point_row : Z; point_col : Z }.
#[export] Instance GridPoint_eq_dec : EqDecision GridPoint.
Proof. solve_decision. Defined.

Record GridRect := { rect_origin : GridPoint; rect_rows : N; rect_cols : N }.
#[export] Instance GridRect_eq_dec : EqDecision GridRect.
Proof. solve_decision. Defined.

Definition point (row col : Z) : GridPoint := {| point_row := row; point_col := col |}.
Definition rect (origin : GridPoint) (rows cols : N) : GridRect :=
  {| rect_origin := origin; rect_rows := rows; rect_cols := cols |}.

Definition bottom_of (r : GridRect) : Z := i32_add (point_row (rect_origin r)) (Z.of_N (rect_rows r)).
Definition right_of (r : GridRect) : Z := i32_add (point_col (rect_origin r)) (Z.of_N (rect_cols r)).

Definition intersect_rect (l r : GridRect) : option GridRect :=
  let top := Z.max (point_row (rect_origin l)) (point_row (rect_origin r)) in
  let left_col := Z.max (point_col (rect_origin l)) (point_col (rect_origin r)) in
  let bottom := Z.min (bottom_of l) (bottom_of r) in
  let right_col := Z.min (right_of l) (right_of r) in
  if (top <? bottom) && (left_col <? right_col)
  then Some (rect (point top left_col)
               (default u16_max (u16_try_from (bottom - top))) (default u16_max (u16_try_from (right_col - left_col))))
  else None.

Definition clamp_to (limit z : Z) : Z := Z.min (Z.max z 0) limit.

(** The [expect] of the code is the outer option. *)
Definition clip_grid_rect (r : GridRect) (g : TerminalGeometry) : option (option GridRect) :=
  let top := clamp_to (Z.of_N (rows g)) (point_row (rect_origin r)) in
  let left_col := clamp_to (Z.of_N (cols g)) (point_col (rect_origin r)) in
  let bottom := clamp_to (Z.of_N (rows g)) (bottom_of r) in
  let right_col := clamp_to (Z.of_N (cols g)) (right_of r) in
  if (top <? bottom) && (left_col <? right_col)
  then h ← u16_try_from (bottom - top); w ← u16_try_from (right_col - left_col);
       Some (Some (rect (point top left_col) h w))
  else Some None.

Definition nonempty_rect (r : GridRect) : bool := (0 <? rect_rows r)%N && (0 <? rect_cols r)%N.

(** The four parts of [whole] that are outside of [part], a rectangle in it:
    above, below, to the left and to the right. *)
Definition rects_around (whole part : GridRect) : list GridRect :=
  let o := rect_origin whole in
  let p := rect_origin part in
  List.filter nonempty_rect
    [rect o (default 0%N (u16_try_from (point_row p - point_row o))) (rect_cols whole);
     rect (point (bottom_of part) (point_col o)) (default 0%N (u16_try_from (bottom_of whole - bottom_of part))) (rect_cols whole);
     rect (point (point_row p) (point_col o)) (rect_rows part) (default 0%N (u16_try_from (point_col p - point_col o)));
     rect (point (point_row p) (right_of part)) (rect_rows part) (default 0%N (u16_try_from (right_of whole - right_of part)))].

(** * Rectangles as sets of positions *)

Definition in_rect (r : GridRect) (row col : Z) : bool :=
  (point_row (rect_origin r) <=? row) && (row <? point_row (rect_origin r) + Z.of_N (rect_rows r)) &&
  (point_col (rect_origin r) <=? col) && (col <? point_col (rect_origin r) + Z.of_N (rect_cols r)).

Definition rect_ok (r : GridRect) : Prop :=
  i32_min ≤ point_row (rect_origin r) ∧ point_row (rect_origin r) + Z.of_N (rect_rows r) ≤ i32_max ∧
  i32_min ≤ point_col (rect_origin r) ∧ point_col (rect_origin r) + Z.of_N (rect_cols r) ≤ i32_max ∧
  (rect_rows r ≤ u16_max)%N ∧ (rect_cols r ≤ u16_max)%N.

Definition rect_nonempty (r : GridRect) : Prop := (0 < rect_rows r)%N ∧ (0 < rect_cols r)%N.

Lemma u16_try_from_Some z n : u16_try_from z = Some n ↔ 0 ≤ z ≤ 65535 ∧ n = Z.to_N z.
Proof.
  unfold u16_try_from. destruct (Z.leb_spec 0 z); cbn [andb]; [|split; [done|lia]].
  destruct (Z.leb_spec z 65535); [|split; [done|lia]]. split; [by intros [= <-]|by intros [_ ->]].
Qed.
Lemma u16_try_from_ok z : 0 ≤ z ≤ 65535 → u16_try_from z = Some (Z.to_N z).
Proof. intros H. by apply u16_try_from_Some. Qed.
Lemma u16_try_from_negative z : z < 0 → u16_try_from z = None.
Proof. intros H. unfold u16_try_from. by destruct (Z.leb_spec 0 z); [lia|]. Qed.

Lemma in_rect_spec r row col :
  in_rect r row col = true ↔
  point_row (rect_origin r) ≤ row < point_row (rect_origin r) + Z.of_N (rect_rows r) ∧
  point_col (rect_origin r) ≤ col < point_col (rect_origin r) + Z.of_N (rect_cols r).
Proof. unfold in_rect. lia. Qed.

Ltac rect_bounds := unfold bottom_of, right_of, i32_add, i32_saturate, i32_min, i32_max, u16_max in *.

Lemma bottom_of_ok r : rect_ok r → bottom_of r = point_row (rect_origin r) + Z.of_N (rect_rows r).
Proof. intros (? & ? & ? & ? & ? & ?). rect_bounds. lia. Qed.
Lemma right_of_ok r : rect_ok r → right_of r = point_col (rect_origin r) + Z.of_N (rect_cols r).
Proof. intros (? & ? & ? & ? & ? & ?). rect_bounds. lia. Qed.

Definition between (a z b : Z) : bool := (a <=? z) && (z <? b).
Definition indicator (b : bool) : nat := if b then 1%nat else 0%nat.

Lemma between_split a b c z : a ≤ b ≤ c → between a z c = between a z b || between b z c.
Proof. unfold between. lia. Qed.
Lemma between_disjoint a b c d z : b ≤ c → between a z b && between c z d = false.
Proof. unfold between. lia. Qed.

Lemma in_rect_between top bottom left_col right_col row col : top ≤ bottom → left_col ≤ right_col →
  in_rect (rect (point top left_col) (Z.to_N (bottom - top)) (Z.to_N (right_col - left_col))) row col =
  between top row bottom && between left_col col right_col.
Proof. intros. unfold in_rect, between. cbn. rewrite !Z2N.id by lia. rewrite !Z.add_sub_assoc, !Z.add_simpl_l. by rewrite <-!andb_assoc. Qed.

Lemma intersect_rect_spec l r : rect_ok l → rect_ok r →
  match intersect_rect l r with
  | Some i => rect_ok i ∧ rect_nonempty i ∧ ∀ row col, in_rect i row col = in_rect l row col && in_rect r row col
  | None => ∀ row col, in_rect l row col && in_rect r row col = false
  end.
Proof.
  intros Hl Hr. unfold intersect_rect. rewrite !bottom_of_ok, !right_of_ok by done.
  destruct Hl as (? & ? & ? & ? & ? & ?), Hr as (? & ? & ? & ? & ? & ?). unfold i32_min, i32_max, u16_max in *.
  destruct (_ && _) eqn:E.
  - rewrite !u16_try_from_ok by lia. unfold rect_ok, rect_nonempty, in_rect, rect, point, i32_min, i32_max, u16_max; cbn.
    split_and!; lia.
  - intros row col. unfold in_rect. lia.
Qed.

Definition bounds_of (g : TerminalGeometry) : GridRect := rect (point 0 0) (rows g) (cols g).

Lemma clamp_to_range L z : 0 ≤ L → 0 ≤ clamp_to L z ≤ L.
Proof. unfold clamp_to. lia. Qed.
Lemma clamp_to_between L o n z : 0 ≤ L ≤ 65535 → i32_ok o → 0 ≤ n ≤ 65535 →
  between (clamp_to L o) z (clamp_to L (i32_add o n)) = between 0 z L && between o z (o + n).
Proof.
  intros HL Ho Hn. assert (clamp_to L (i32_add o n) = clamp_to L (o + n)) as ->.
  { unfold clamp_to, i32_ok, i32_add, i32_saturate, i32_min, i32_max in *. lia. }
  unfold clamp_to, between. destruct (Z.max_spec o 0) as [[? ->]|[? ->]], (Z.max_spec (o + n) 0) as [[? ->]|[? ->]]; lia.
Qed.
Lemma rect_sides r row col :
  in_rect r row col =
  between (point_row (rect_origin r)) row (point_row (rect_origin r) + Z.of_N (rect_rows r)) &&
  between (point_col (rect_origin r)) col (point_col (rect_origin r) + Z.of_N (rect_cols r)).
Proof. unfold in_rect, between. by rewrite <-!andb_assoc. Qed.
Lemma between_empty a b z : b ≤ a → between a z b = false.
Proof. unfold between. lia. Qed.

Lemma clip_grid_rect_spec r g : (rows g ≤ u16_max)%N → (cols g ≤ u16_max)%N →
  (rect_rows r ≤ u16_max)%N → (rect_cols r ≤ u16_max)%N →
  i32_ok (point_row (rect_origin r)) → i32_ok (point_col (rect_origin r)) →
  ∃ o, clip_grid_rect r g = Some o ∧
    match o with
    | Some i => rect_ok i ∧ rect_nonempty i ∧ ∀ row col, in_rect i row col = in_rect (bounds_of g) row col && in_rect r row col
    | None => ∀ row col, in_rect (bounds_of g) row col && in_rect r row col = false
    end.
Proof.
  unfold u16_max. intros Hr Hc Hrr Hrc H1 H2. unfold clip_grid_rect, bottom_of, right_of.
  assert (∀ row col, in_rect (bounds_of g) row col && in_rect r row col =
    between (clamp_to (Z.of_N (rows g)) (point_row (rect_origin r))) row (clamp_to (Z.of_N (rows g)) (i32_add (point_row (rect_origin r)) (Z.of_N (rect_rows r)))) &&
    between (clamp_to (Z.of_N (cols g)) (point_col (rect_origin r))) col (clamp_to (Z.of_N (cols g)) (i32_add (point_col (rect_origin r)) (Z.of_N (rect_cols r))))) as Heq.
  { intros row col. rewrite !clamp_to_between by (done || lia). rewrite !rect_sides. cbn.
    destruct (between 0 row _), (between 0 col _), (between _ row _); cbn; by rewrite ?andb_false_r. }
  pose proof (clamp_to_range (Z.of_N (rows g)) (point_row (rect_origin r)) ltac:(lia)).
  pose proof (clamp_to_range (Z.of_N (cols g)) (point_col (rect_origin r)) ltac:(lia)).
  pose proof (clamp_to_range (Z.of_N (rows g)) (i32_add (point_row (rect_origin r)) (Z.of_N (rect_rows r))) ltac:(lia)).
  pose proof (clamp_to_range (Z.of_N (cols g)) (i32_add (point_col (rect_origin r)) (Z.of_N (rect_cols r))) ltac:(lia)).
  set (top := clamp_to (Z.of_N (rows g)) (point_row (rect_origin r))) in *. clearbody top.
  set (left_col := clamp_to (Z.of_N (cols g)) (point_col (rect_origin r))) in *. clearbody left_col.
  set (bottom := clamp_to (Z.of_N (rows g)) (i32_add (point_row (rect_origin r)) (Z.of_N (rect_rows r)))) in *. clearbody bottom.
  set (right_col := clamp_to (Z.of_N (cols g)) (i32_add (point_col (rect_origin r)) (Z.of_N (rect_cols r)))) in *. clearbody right_col.
  destruct (_ && _) eqn:E.
  - rewrite !u16_try_from_ok by lia. eexists. split; [done|]. split_and!.
    + unfold rect_ok, i32_min, i32_max, u16_max; cbn. lia.
    + unfold rect_nonempty; cbn. lia.
    + intros row col. by rewrite in_rect_between, Heq by lia.
  - eexists. split; [done|]. intros row col. rewrite Heq.
    apply andb_false_iff in E as [E|E]; [rewrite (between_empty top bottom) by lia|rewrite (between_empty left_col right_col) by lia]; [done|by rewrite andb_false_r].
Qed.

(** Counting by sides: [a], [m] and [b] say in which of the three rows of parts
    the position is, [l], [c] and [r] in which of the three columns. *)
Lemma sides_count a m b l c r :
  a && m = false → m && b = false → a && b = false → l && c = false → c && r = false → l && r = false →
  (indicator (a && (l || c || r)) + (indicator (b && (l || c || r)) + (indicator (m && l) + (indicator (m && r) + 0))))%nat =
  indicator ((a || m || b) && (l || c || r) && negb (m && c)).
Proof. by destruct a, m, b, l, c, r. Qed.

Lemma count_nonempty row col r l :
  length (List.filter (λ r, in_rect r row col) (List.filter nonempty_rect (r :: l))) =
    (indicator (in_rect r row col) + length (List.filter (λ r, in_rect r row col) (List.filter nonempty_rect l)))%nat.
Proof.
  cbn [List.filter]. destruct (nonempty_rect r) eqn:E; cbn [List.filter]; [by destruct (in_rect r row col)|].
  destruct (in_rect r row col) eqn:Er; [|done]. apply in_rect_spec in Er. unfold nonempty_rect in E. lia.
Qed.

Lemma Forall_nonempty (P : GridRect → Prop) l :
  Forall (λ r, nonempty_rect r = true → P r) l → Forall P (List.filter nonempty_rect l).
Proof. rewrite !Forall_forall. intros H r [Hr Hn]%elem_of_Filter. by apply H. Qed.

(** The parts around a rectangle are disjoint and are what it leaves. *)
Lemma rects_around_spec whole part : rect_ok whole → rect_ok part → rect_nonempty part →
  (∀ row col, in_rect part row col = true → in_rect whole row col = true) →
  Forall (λ r, rect_ok r ∧ rect_nonempty r ∧ ∀ row col, in_rect r row col = true → in_rect whole row col = true)
    (rects_around whole part) ∧
  ∀ row col, length (List.filter (λ r, in_rect r row col) (rects_around whole part)) =
    indicator (in_rect whole row col && negb (in_rect part row col)).
Proof.
  intros Hw Hp [Hn1 Hn2] Hsub. unfold rects_around. rewrite !bottom_of_ok, !right_of_ok by done.
  pose proof (Hsub (point_row (rect_origin part)) (point_col (rect_origin part))) as Ha.
  pose proof (Hsub (point_row (rect_origin part) + Z.of_N (rect_rows part) - 1)
                (point_col (rect_origin part) + Z.of_N (rect_cols part) - 1)) as Hb.
  rewrite !in_rect_spec in Ha, Hb. clear Hsub.
  destruct whole as [[wr wc] wrows wcols], part as [[pr pc] prows pcols]. cbn [rect_origin point_row point_col rect_rows rect_cols] in *.
  destruct Hw as (? & ? & ? & ? & ? & ?), Hp as (? & ? & ? & ? & ? & ?). cbn [rect_origin point_row point_col rect_rows rect_cols] in *. unfold i32_min, i32_max, u16_max in *.
  rewrite !u16_try_from_ok by lia. cbn [default from_option id].
  remember (pr + Z.of_N prows) as pb eqn:Epb. remember (pc + Z.of_N pcols) as pe eqn:Epe.
  remember (wr + Z.of_N wrows) as wb eqn:Ewb. remember (wc + Z.of_N wcols) as we eqn:Ewe.
  assert (wrows = Z.to_N (wb - wr)) as -> by lia. assert (wcols = Z.to_N (we - wc)) as -> by lia.
  assert (prows = Z.to_N (pb - pr)) as -> by lia. assert (pcols = Z.to_N (pe - pc)) as -> by lia.
  change {| point_row := wr; point_col := wc |} with (point wr wc). change {| point_row := pr; point_col := pc |} with (point pr pc).
  change {| rect_origin := ?o; rect_rows := ?a; rect_cols := ?b |} with (rect o a b).
  split.
  - apply Forall_nonempty. repeat (apply Forall_cons; split); [..|by constructor]; intros Hne;
      (split_and!; [unfold rect_ok, i32_min, i32_max, u16_max; cbn; lia|unfold nonempty_rect in *; rewrite andb_true_iff in *; unfold rect_nonempty; lia|intros row col; rewrite !in_rect_between by lia; unfold between; lia]).
  - intros row col. rewrite !count_nonempty. cbn [List.filter length]. rewrite !in_rect_between by lia.
    rewrite (between_split wc pe we col), (between_split wc pc pe col), (between_split wr pb wb row), (between_split wr pr pb row) by lia.
    apply sides_count; apply between_disjoint; lia.
Qed.
