(* ===== verification/SceneMedia.v ===== *)
(** Images of the composed screen (src/src/presentation.rs): scenes and the
    images placed in them, cutting an image to a rectangle and around what
    covers it, and the media store of one pane.

    An [Arc<[u8]>] whose identity is compared is its address with its bytes
    ([Shared]); other shared data is its value. *)

From S2P Require Import Prelude Terminal Screen Grid.
Local Open Scope N_scope.

(** * Data *)

Record SceneSurface := { surface_id : N; surface_origin : GridPoint; snapshot : TerminalSnapshot }.
Record SceneOverlay := { overlay_surface : SceneSurface; overlay_z : Z }.

Inductive CursorOwner := OwnerPane (id : N) | OwnerOverlay (id : N) | OwnerHidden.
#[export] Instance CursorOwner_eq_dec : EqDecision CursorOwner.
Proof. solve_decision. Defined.

Inductive PixelFormat := FormatRgb | FormatRgba | FormatGrayAlpha | FormatGray.
#[export] Instance PixelFormat_eq_dec : EqDecision PixelFormat.
Proof. solve_decision. Defined.

Record PresentedImage := {
  image_id : N; placement_id : N; image_number : N; pixel_width : N; pixel_height : N;
  rendered_pixel_width : N; rendered_pixel_height : N; format : PixelFormat; data_len : N; data_digest : N;
  grid_rect : GridRect; x_offset : N; y_offset : N; source_x : N; source_y : N; source_width : N; source_height : N;
  z_index : Z; virtual_placement : bool; image_visible : bool
}.
#[export] Instance PresentedImage_eq_dec : EqDecision PresentedImage.
Proof. solve_decision. Defined.

Record MediaLimits := {
  maximum_image_bytes : N; maximum_pane_bytes : N; maximum_scene_bytes : N; maximum_placements : N
}.
Definition default_limits : MediaLimits := {|
  maximum_image_bytes := 32 * 1024 * 1024; maximum_pane_bytes := 64 * 1024 * 1024;
  maximum_scene_bytes := 128 * 1024 * 1024; maximum_placements := 4096 |}.

Record SceneImageUpload := {
  upload_owner : N; upload_image : N; upload_number : N; upload_width : N; upload_height : N;
  upload_format : PixelFormat; upload_data : bytes; upload_digest : N
}.

Record SceneImagePlacement := { placement_owner : N; placement_image : PresentedImage }.

Record TerminalWideEffects := { effect_title : option bytes; effect_directory : option bytes; effect_bells : N }.

Record Scene := {
  scene_geometry : TerminalGeometry; scene_panes : list SceneSurface; scene_overlays : list SceneOverlay;
  scene_cursor : CursorOwner; scene_uploads : list SceneImageUpload; scene_images : list SceneImagePlacement;
  scene_effects : TerminalWideEffects
}.
Definition scene_new (g : TerminalGeometry) : Scene := {|
  scene_geometry := g; scene_panes := []; scene_overlays := []; scene_cursor := OwnerHidden; scene_uploads := [];
  scene_images := []; scene_effects := {| effect_title := None; effect_directory := None; effect_bells := 0 |} |}.

(** * Pixels *)

Definition fnv_offset : N := 0xcbf29ce484222325.
Definition fnv_prime : N := 0x100000001b3.
Definition stable_digest (l : bytes) : N :=
  fold_left (λ digest b, (N.lxor digest b * fnv_prime) mod 2 ^ 64) l fnv_offset.

(** What the engine says of a placed image. *)
Record Shared := { shared_address : N; shared_bytes : bytes }.
Record KittyImagePlacementSnapshot := {
  kitty_image : N; kitty_placement : N; kitty_number : N; kitty_width : N; kitty_height : N;
  kitty_rendered_width : N; kitty_rendered_height : N; kitty_format : PixelFormat; kitty_data : Shared;
  kitty_digest : N; kitty_x : N; kitty_y : N; viewport_col : Z; viewport_row : Z; grid_cols : N; grid_rows : N;
  kitty_source_x : N; kitty_source_y : N; kitty_source_width : N; kitty_source_height : N; kitty_z : Z;
  kitty_virtual : bool; kitty_visible : bool
}.

Fixpoint expand_gray_alpha (l : bytes) : bytes :=
  match l with
  | gray :: alpha :: l => gray :: gray :: gray :: alpha :: expand_gray_alpha l
  | _ => []
  end.

Definition normalize_pixel_data (f : PixelFormat) (data : bytes) (source_digest : N) : PixelFormat * bytes * N :=
  match f with
  | FormatRgb => (FormatRgb, data, source_digest)
  | FormatRgba => (FormatRgba, data, source_digest)
  | FormatGrayAlpha => let rgba := expand_gray_alpha data in (FormatRgba, rgba, stable_digest rgba)
  | FormatGray => let rgb := mjoin ((λ gray, [gray; gray; gray]) <$> data) in (FormatRgb, rgb, stable_digest rgb)
  end.

Definition presented_image_from_ghostty (p : KittyImagePlacementSnapshot) (f : PixelFormat) (digest : N) : PresentedImage := {|
  image_id := kitty_image p; placement_id := kitty_placement p; image_number := kitty_number p;
  pixel_width := kitty_width p; pixel_height := kitty_height p;
  rendered_pixel_width := kitty_rendered_width p; rendered_pixel_height := kitty_rendered_height p;
  format := f; data_len := len (shared_bytes (kitty_data p)); data_digest := digest;
  grid_rect := rect (point (viewport_row p) (viewport_col p)) (to_u16 (grid_rows p)) (to_u16 (grid_cols p));
  x_offset := kitty_x p; y_offset := kitty_y p; source_x := kitty_source_x p; source_y := kitty_source_y p;
  source_width := kitty_source_width p; source_height := kitty_source_height p; z_index := kitty_z p;
  virtual_placement := kitty_virtual p; image_visible := kitty_visible p |}.

(** * Cutting *)

Definition clip_image_placement (image : PresentedImage) (clip : GridRect) : option PresentedImage :=
  match intersect_rect (grid_rect image) clip with
  | None => None
  | Some i =>
      let o := rect_origin (grid_rect image) in
      let top_cells := Z.to_N (Z.max 0 (i32_sub (point_row (rect_origin i)) (point_row o))) in
      let left_cells := Z.to_N (Z.max 0 (i32_sub (point_col (rect_origin i)) (point_col o))) in
      let original_rows := N.max (rect_rows (grid_rect image)) 1 in
      let original_cols := N.max (rect_cols (grid_rect image)) 1 in
      let sw := if source_width image =? 0 then pixel_width image else source_width image in
      let sh := if source_height image =? 0 then pixel_height image else source_height image in
      let left_pixels := sat_mul u32_max sw left_cells / original_cols in
      let top_pixels := sat_mul u32_max sh top_cells / original_rows in
      let kept_width := N.max (sat_mul u32_max sw (rect_cols i) / original_cols) (if 0 <? sw then 1 else 0) in
      let kept_height := N.max (sat_mul u32_max sh (rect_rows i) / original_rows) (if 0 <? sh then 1 else 0) in
      let rw := sat_mul u32_max (rendered_pixel_width image) (rect_cols i) / original_cols in
      let rh := sat_mul u32_max (rendered_pixel_height image) (rect_rows i) / original_rows in
      Some (image <| grid_rect := i |>
        <| source_x := sat_add u32_max (source_x image) left_pixels |>
        <| source_y := sat_add u32_max (source_y image) top_pixels |>
        <| source_width := kept_width |> <| source_height := kept_height |>
        <| x_offset := if 0 <? left_cells then 0 else x_offset image |>
        <| y_offset := if 0 <? top_cells then 0 else y_offset image |>
        <| rendered_pixel_width := if 0 <? rendered_pixel_width image then N.max rw 1 else rw |>
        <| rendered_pixel_height := if 0 <? rendered_pixel_height image then N.max rh 1 else rh |>)
  end.

Definition subtract_image_placement (image : PresentedImage) (occluder : GridRect) : list PresentedImage :=
  match intersect_rect (grid_rect image) occluder with
  | None => [image]
  | Some i => omap (clip_image_placement image) (rects_around (grid_rect image) i)
  end.

(** * The media of a pane *)

Record PaneImageUpload := {
  pane_number : N; pane_width : N; pane_height : N; source_format : PixelFormat; source_digest : N;
  source_data : Shared; pane_format : PixelFormat; pane_data : bytes; pane_digest : N
}.

Record PaneMediaStore := {
  limits : MediaLimits; uploads : gmap N PaneImageUpload; placements : list PresentedImage; total_bytes : N
}.
Definition media_store_new (l : MediaLimits) : PaneMediaStore :=
  {| limits := l; uploads := ∅; placements := []; total_bytes := 0 |}.

Inductive MediaError :=
| MediaLimitExceeded (resource : bytes) (requested limit : N)
| InconsistentMediaUpload (image : N).

Record MediaSyncReport := { uploads_added : N; uploads_removed : N; placements_added : N; placements_removed : N }.

Definition pane_upload_matches (l r : PaneImageUpload) : bool :=
  (pane_width l =? pane_width r) && (pane_height l =? pane_height r) &&
  bool_decide (pane_format l = pane_format r) && (pane_digest l =? pane_digest r).

Definition pane_upload_matches_source (u : PaneImageUpload) (p : KittyImagePlacementSnapshot) : bool :=
  (pane_width u =? kitty_width p) && (pane_height u =? kitty_height p) &&
  bool_decide (source_format u = kitty_format p) && (source_digest u =? kitty_digest p) &&
  (shared_address (source_data u) =? shared_address (kitty_data p)).

Definition upload_with (p : KittyImagePlacementSnapshot) (normal : PixelFormat * bytes * N) : PaneImageUpload := {|
  pane_number := kitty_number p; pane_width := kitty_width p; pane_height := kitty_height p;
  source_format := kitty_format p; source_digest := kitty_digest p; source_data := kitty_data p;
  pane_format := normal.1.1; pane_data := normal.1.2; pane_digest := normal.2 |}.

Definition pane_upload_from_ghostty (p : KittyImagePlacementSnapshot) : PaneImageUpload :=
  upload_with p (normalize_pixel_data (kitty_format p) (shared_bytes (kitty_data p)) (kitty_digest p)).

(** What was converted before is used again if it was converted from the same. *)
Definition upload_of (s : PaneMediaStore) (p : KittyImagePlacementSnapshot) : PaneImageUpload :=
  match uploads s !! kitty_image p with
  | Some existing =>
      if pane_upload_matches_source existing p
      then upload_with p (pane_format existing, pane_data existing, pane_digest existing)
      else pane_upload_from_ghostty p
  | None => pane_upload_from_ghostty p
  end.

Record Collected := { next_uploads : gmap N PaneImageUpload; normalized : list PresentedImage; next_bytes : N }.
Definition collected_none : Collected := {| next_uploads := ∅; normalized := []; next_bytes := 0 |}.

Definition collect_placement (s : PaneMediaStore) (c : Collected) (p : KittyImagePlacementSnapshot) : result MediaError Collected :=
  match next_uploads c !! kitty_image p with
  | None =>
      let u := upload_of s p in
      if maximum_image_bytes (limits s) <? len (pane_data u)
      then Err (MediaLimitExceeded (bs "image bytes") (len (pane_data u)) (maximum_image_bytes (limits s)))
      else Ok {| next_uploads := <[kitty_image p := u]> (next_uploads c);
                 normalized := normalized c ++ [presented_image_from_ghostty p (pane_format u) (pane_digest u)];
                 next_bytes := sat_add usize_max (next_bytes c) (len (pane_data u)) |}
  | Some existing =>
      if pane_upload_matches_source existing p
      then Ok (c <| normalized := normalized c ++ [presented_image_from_ghostty p (pane_format existing) (pane_digest existing)] |>)
      else Err (InconsistentMediaUpload (kitty_image p))
  end.

Fixpoint collect_placements (s : PaneMediaStore) (c : Collected) (ps : list KittyImagePlacementSnapshot) : result MediaError Collected :=
  match ps with
  | [] => Ok c
  | p :: ps => c ← collect_placement s c p; collect_placements s c ps
  end.

(** How many uploads of [a] are not matched in [b]. *)
Definition unmatched (a b : gmap N PaneImageUpload) (same : PaneImageUpload → PaneImageUpload → bool) : N :=
  len (List.filter (λ iu, match b !! iu.1 with Some other => negb (same other iu.2) | None => true end) (map_to_list a)).

Definition synchronize (ps : list KittyImagePlacementSnapshot) (s : PaneMediaStore) : result MediaError (MediaSyncReport * PaneMediaStore) :=
  if maximum_placements (limits s) <? len ps
  then Err (MediaLimitExceeded (bs "placements") (len ps) (maximum_placements (limits s)))
  else
    c ← collect_placements s collected_none ps;
    if maximum_pane_bytes (limits s) <? next_bytes c
    then Err (MediaLimitExceeded (bs "pane image bytes") (next_bytes c) (maximum_pane_bytes (limits s)))
    else Ok ({| uploads_added := unmatched (next_uploads c) (uploads s) pane_upload_matches;
                uploads_removed := unmatched (uploads s) (next_uploads c) (λ replacement u, pane_upload_matches u replacement);
                placements_added := len (List.filter (λ p, negb (bool_decide (p ∈ placements s))) (normalized c));
                placements_removed := len (List.filter (λ p, negb (bool_decide (p ∈ normalized c))) (placements s)) |},
             {| limits := limits s; uploads := next_uploads c; placements := normalized c; total_bytes := next_bytes c |}).

Definition scene_upload (owner : N) (image : N) (u : PaneImageUpload) : SceneImageUpload := {|
  upload_owner := owner; upload_image := image; upload_number := pane_number u; upload_width := pane_width u;
  upload_height := pane_height u; upload_format := pane_format u; upload_data := pane_data u; upload_digest := pane_digest u |}.

Definition moved (origin : GridPoint) (image : PresentedImage) : PresentedImage :=
  let o := rect_origin (grid_rect image) in
  image <| grid_rect := rect (point (i32_add (point_row o) (point_row origin)) (i32_add (point_col o) (point_col origin)))
                          (rect_rows (grid_rect image)) (rect_cols (grid_rect image)) |>.

Definition upload_bytes (l : list SceneImageUpload) : N := foldr (λ u n, len (upload_data u) + n) 0 l.

Definition append_to_scene (owner : N) (origin : GridPoint) (clip : GridRect) (s : PaneMediaStore) (scene : Scene) : result MediaError Scene :=
  let requested := sat_add usize_max (upload_bytes (scene_uploads scene)) (total_bytes s) in
  if maximum_scene_bytes (limits s) <? requested
  then Err (MediaLimitExceeded (bs "scene image bytes") requested (maximum_scene_bytes (limits s)))
  else
    let added := omap (λ i, scene_upload owner i <$> uploads s !! i) (btree_keys (uploads s)) in
    let placed := omap (λ p, clipped ← clip_image_placement (moved origin p) clip;
                             Some {| placement_owner := owner; placement_image := clipped |}) (placements s) in
    Ok (scene <| scene_uploads := scene_uploads scene ++ added |> <| scene_images := scene_images scene ++ placed |>).

(** * Cutting is exact *)

Definition covers (image : PresentedImage) (row col : Z) : bool := in_rect (grid_rect image) row col.
(** The part of the pixels that is shown: a width of zero is the whole width. *)
Definition shown_width (image : PresentedImage) : N := if source_width image =? 0 then pixel_width image else source_width image.
Definition shown_height (image : PresentedImage) : N := if source_height image =? 0 then pixel_height image else source_height image.

(** What stays the same when an image is cut. *)
Definition same_picture (a b : PresentedImage) : Prop :=
  image_id a = image_id b ∧ placement_id a = placement_id b ∧ image_number a = image_number b ∧
  pixel_width a = pixel_width b ∧ pixel_height a = pixel_height b ∧ format a = format b ∧ data_len a = data_len b ∧
  data_digest a = data_digest b ∧ z_index a = z_index b ∧ virtual_placement a = virtual_placement b ∧
  image_visible a = image_visible b.

Lemma share_le s k n : sat_mul u32_max s k / n ≤ s * k / n.
Proof.
  destruct (N.eq_dec n 0) as [->|Hn]; [by rewrite !N.div_0_r|]. apply N.Div0.div_le_mono. unfold sat_mul. lia.
Qed.
(** The pixels before a part and those of the part fit into the whole. *)
Lemma shares_fit s before part n : 1 ≤ n → 1 ≤ part → before + part ≤ n →
  sat_mul u32_max s before / n + N.max (sat_mul u32_max s part / n) (if 0 <? s then 1 else 0) ≤ s.
Proof.
  intros Hn Hp Hle. pose proof (share_le s before n) as H1. pose proof (share_le s part n) as H2.
  destruct (N.ltb_spec 0 s) as [Hs|Hs]; [|by assert (s = 0) as -> by lia; unfold sat_mul in *; rewrite ?N.mul_0_l, ?N.Div0.div_0_l in *; lia].
  assert (s * before / n + s * part / n ≤ s) as Hsum.
  { assert (n * (s * before / n) ≤ s * before) by apply N.Div0.mul_div_le.
    assert (n * (s * part / n) ≤ s * part) by apply N.Div0.mul_div_le. nia. }
  assert (s * before / n < s) as Hlt. { apply N.Div0.div_lt_upper_bound. nia. }
  lia.
Qed.

Lemma source_fits limit x before part s : before + part ≤ s → N.min limit (x + before) + part ≤ x + s.
Proof. lia. Qed.
Lemma some_is_kept a s : 0 < s → 0 < N.max a (if 0 <? s then 1 else 0).
Proof. intros H%N.ltb_lt. rewrite H. lia. Qed.

Section Cut.
Context (image : PresentedImage) (clip : GridRect) (Hi : rect_ok (grid_rect image)) (Hc : rect_ok clip).

Lemma clip_spec :
  match clip_image_placement image clip with
  | Some c => rect_ok (grid_rect c) ∧ rect_nonempty (grid_rect c) ∧ same_picture c image ∧
      (∀ row col, covers c row col = covers image row col && in_rect clip row col)
  | None => ∀ row col, covers image row col && in_rect clip row col = false
  end.
Proof.
  unfold clip_image_placement. pose proof (intersect_rect_spec _ _ Hi Hc) as H.
  destruct (intersect_rect _ _) as [i|]; [|done]. destruct H as (Hok & Hne & Hin). destruct image; by split_and!.
Qed.

Lemma clip_source c : clip_image_placement image clip = Some c →
  source_x c + source_width c ≤ source_x image + shown_width image ∧
  source_y c + source_height c ≤ source_y image + shown_height image ∧
  (0 < shown_width image → 0 < source_width c) ∧ (0 < shown_height image → 0 < source_height c).
Proof.
  unfold clip_image_placement. pose proof (intersect_rect_spec _ _ Hi Hc) as H.
  destruct (intersect_rect _ _) as [i|]; [|done]. destruct H as (Hok & [Hr Hw] & Hin).
  pose proof (Hin (point_row (rect_origin i)) (point_col (rect_origin i))) as H1.
  pose proof (Hin (point_row (rect_origin i) + Z.of_N (rect_rows i) - 1)%Z (point_col (rect_origin i) + Z.of_N (rect_cols i) - 1)%Z) as H2.
  assert (in_rect (grid_rect image) (point_row (rect_origin i)) (point_col (rect_origin i)) = true) as H3.
  { symmetry in H1. apply (f_equal id) in H1. unfold id in H1. rewrite (proj2 (in_rect_spec i _ _)) in H1 by lia. by apply andb_true_iff in H1 as [? _]. }
  assert (in_rect (grid_rect image) (point_row (rect_origin i) + Z.of_N (rect_rows i) - 1)%Z (point_col (rect_origin i) + Z.of_N (rect_cols i) - 1)%Z = true) as H4.
  { rewrite (proj2 (in_rect_spec i _ _)) in H2 by lia. symmetry in H2. by apply andb_true_iff in H2 as [? _]. }
  apply in_rect_spec in H3, H4. clear H1 H2 Hin. injection 1 as <-.
  set (o := rect_origin (grid_rect image)) in *.
  destruct Hi as (? & ? & ? & ? & ? & ?), Hok as (? & ? & ? & ? & ? & ?). fold o in H, H0, H1, H2. 
  assert (i32_sub (point_col (rect_origin i)) (point_col o) = point_col (rect_origin i) - point_col o)%Z as Ex.
  { unfold i32_sub, i32_saturate, i32_min, i32_max, u16_max in *. lia. }
  assert (i32_sub (point_row (rect_origin i)) (point_row o) = point_row (rect_origin i) - point_row o)%Z as Ey.
  { unfold i32_sub, i32_saturate, i32_min, i32_max, u16_max in *. lia. }
  pose proof (shares_fit (shown_width image) (Z.to_N (Z.max 0 (i32_sub (point_col (rect_origin i)) (point_col o)))) (rect_cols i)
    (N.max (rect_cols (grid_rect image)) 1) ltac:(lia) ltac:(lia) ltac:(rewrite Ex; lia)) as Hx.
  pose proof (shares_fit (shown_height image) (Z.to_N (Z.max 0 (i32_sub (point_row (rect_origin i)) (point_row o)))) (rect_rows i)
    (N.max (rect_rows (grid_rect image)) 1) ltac:(lia) ltac:(lia) ltac:(rewrite Ey; lia)) as Hy.
  clear Ex Ey. unfold shown_width, shown_height, sat_add in *. destruct image; cbn in *.
  split_and!; [by apply source_fits|by apply source_fits|by apply some_is_kept..].
Qed.
End Cut.

Lemma clip_within image r : rect_ok (grid_rect image) → rect_ok r → rect_nonempty r →
  (∀ row col, in_rect r row col = true → covers image row col = true) →
  ∃ c, clip_image_placement image r = Some c ∧ rect_ok (grid_rect c) ∧ rect_nonempty (grid_rect c) ∧ same_picture c image ∧
    ∀ row col, covers c row col = in_rect r row col.
Proof.
  intros Hi Hr [Hn1 Hn2] Hsub. pose proof (clip_spec image r Hi Hr) as H. destruct (clip_image_placement image r) as [c|].
  - destruct H as (H1 & H2 & H3 & H4). exists c. split_and!; [done..|]. intros row col. rewrite H4.
    specialize (Hsub row col). destruct (in_rect r row col); [by rewrite Hsub|by rewrite andb_false_r].
  - specialize (H (point_row (rect_origin r)) (point_col (rect_origin r))).
    specialize (Hsub (point_row (rect_origin r)) (point_col (rect_origin r))).
    rewrite (proj2 (in_rect_spec r _ _)) in * by lia. by rewrite Hsub in H.
Qed.

Definition count_at (l : list PresentedImage) (row col : Z) : nat := length (List.filter (λ f, covers f row col) l).

(** What an occluder leaves of an image is cut into pieces that do not overlap. *)
Lemma subtract_spec image occluder : rect_ok (grid_rect image) → rect_ok occluder →
  Forall (λ f, rect_ok (grid_rect f) ∧ same_picture f image) (subtract_image_placement image occluder) ∧
  ∀ row col, count_at (subtract_image_placement image occluder) row col =
    indicator (covers image row col && negb (in_rect occluder row col)).
Proof.
  intros Hi Ho. unfold subtract_image_placement. pose proof (intersect_rect_spec _ _ Hi Ho) as H.
  destruct (intersect_rect _ _) as [i|].
  - destruct H as (Hok & Hne & Hin).
    assert (∀ row col, in_rect i row col = true → in_rect (grid_rect image) row col = true) as Hsub.
    { intros row col H. rewrite Hin in H. by apply andb_true_iff in H as [? _]. }
    destruct (rects_around_spec _ _ Hi Hok Hne Hsub) as [Hrs Hcount].
    assert (∀ row col, covers image row col && negb (in_rect occluder row col) = in_rect (grid_rect image) row col && negb (in_rect i row col)) as Heq.
    { intros row col. unfold covers. rewrite Hin. by destruct (in_rect _ _ _), (in_rect _ _ _). }
    assert (Forall (λ f, rect_ok (grid_rect f) ∧ same_picture f image) (omap (clip_image_placement image) (rects_around (grid_rect image) i)) ∧
      ∀ row col, count_at (omap (clip_image_placement image) (rects_around (grid_rect image) i)) row col =
        length (List.filter (λ r, in_rect r row col) (rects_around (grid_rect image) i))) as [H1 H2].
    2:{ split; [done|]. intros row col. by rewrite H2, Hcount, Heq. }
    clear Hcount Heq Hin Hsub. induction Hrs as [|r rs (H1 & H2 & H3) _ [IH1 IH2]]; [split; [constructor|done]|]. cbn [omap list_omap].
    destruct (clip_within image r Hi H1 H2 H3) as (c & Hc & Hcr & _ & Hsame & Hcov). cbn. rewrite Hc.
    split; [by constructor|]. intros row col. unfold count_at in *. cbn [List.filter]. rewrite Hcov. destruct (in_rect r row col); cbn [length]; by rewrite IH2.
  - split; [apply Forall_singleton; split; [done|by split_and!]|]. intros row col. unfold count_at. cbn [List.filter].
    specialize (H row col). unfold covers. by destruct (in_rect _ _ _), (in_rect _ _ _).
Qed.

(** ** Images are cut exactly *)

(** An image that is cut to a rectangle covers exactly their common positions,
    and shows pixels that are among those it showed before, and at least one if
    there were any.  What is left of an image by what covers a part of it is
    divided into pieces that do not overlap and leave nothing out. *)
Theorem images_are_cut_exactly image r :
  rect_ok (grid_rect image) → rect_ok r →
  match clip_image_placement image r with
  | Some c => same_picture c image ∧
      (∀ row col, covers c row col = covers image row col && in_rect r row col) ∧
      source_x c + source_width c ≤ source_x image + shown_width image ∧
      source_y c + source_height c ≤ source_y image + shown_height image ∧
      (0 < shown_width image → 0 < source_width c) ∧ (0 < shown_height image → 0 < source_height c)
  | None => ∀ row col, covers image row col && in_rect r row col = false
  end ∧
  ∀ row col, count_at (subtract_image_placement image r) row col = indicator (covers image row col && negb (in_rect r row col)).
Proof.
  intros Hi Hr. split; [|by apply subtract_spec].
  pose proof (clip_spec image r Hi Hr) as H. pose proof (clip_source image r Hi Hr) as Hs.
  destruct (clip_image_placement image r) as [c|]; [|done]. destruct H as (_ & _ & H1 & H2).
  destruct (Hs c eq_refl) as (? & ? & ? & ?). by split_and!.
Qed.

(** * The store follows the engine *)

Lemma omap_ext_in {A B} (f g : A → option B) (l : list A) : (∀ x, x ∈ l → f x = g x) → omap f l = omap g l.
Proof.
  intros H. induction l as [|x l IH]; [done|]. cbn. rewrite (H x) by by left.
  rewrite IH; [done|]. intros y Hy. apply H. by right.
Qed.

(** The bytes of the uploads of a map. *)
Definition bytes_of (m : gmap N PaneImageUpload) : N := map_fold (λ _ u n, len (pane_data u) + n) 0 m.
Lemma bytes_of_insert m i u : m !! i = None → bytes_of (<[i := u]> m) = len (pane_data u) + bytes_of m.
Proof. intros H. unfold bytes_of. rewrite map_fold_insert_L; [done|intros; lia|done]. Qed.

Section Store.

(** Memory that is shared does not change: two references to one address hold
    the same bytes. *)
Context (memory : N → bytes).
Definition in_memory (d : Shared) : Prop := shared_bytes d = memory (shared_address d).

(** An upload of a store holds what conversion of its source gives. *)
Definition converted (u : PaneImageUpload) : Prop :=
  (pane_format u, pane_data u, pane_digest u) = normalize_pixel_data (source_format u) (shared_bytes (source_data u)) (source_digest u).
Definition upload_ok (u : PaneImageUpload) : Prop := converted u ∧ in_memory (source_data u).

Lemma upload_of_fresh s p : map_Forall (λ _ u, upload_ok u) (uploads s) → in_memory (kitty_data p) →
  upload_of s p = pane_upload_from_ghostty p.
Proof.
  intros Hs Hp. unfold upload_of. destruct (uploads s !! kitty_image p) as [e|] eqn:E; [|done].
  destruct (pane_upload_matches_source e p) eqn:Em; [|done]. destruct (Hs _ _ E) as [Hc Hm].
  unfold pane_upload_matches_source in Em. rewrite !andb_true_iff, !N.eqb_eq, bool_decide_eq_true in Em.
  destruct Em as [[[[_ _] Hf] Hd] Ha]. unfold pane_upload_from_ghostty. f_equal. rewrite Hc, Hf, Hd.
  unfold in_memory in *. by rewrite Hm, Hp, Ha.
Qed.

Lemma from_ghostty_ok p : in_memory (kitty_data p) → upload_ok (pane_upload_from_ghostty p).
Proof. intros Hp. split; [|done]. unfold converted. cbn. by destruct (normalize_pixel_data _ _ _) as [[? ?] ?]. Qed.

(** What reading the placements of the engine without any store gives. *)
Definition first_upload (ps : list KittyImagePlacementSnapshot) (i : N) : option PaneImageUpload :=
  pane_upload_from_ghostty <$> head (List.filter (λ p, kitty_image p =? i) ps).
Definition consistent (ps : list KittyImagePlacementSnapshot) : Prop :=
  ∀ p u, p ∈ ps → first_upload ps (kitty_image p) = Some u → pane_upload_matches_source u p = true.
Definition pictures (ps : list KittyImagePlacementSnapshot) : list PresentedImage :=
  (λ p, match first_upload ps (kitty_image p) with
        | Some u => presented_image_from_ghostty p (pane_format u) (pane_digest u)
        | None => presented_image_from_ghostty p (kitty_format p) (kitty_digest p)
        end) <$> ps.

(** ** The loop *)

Record collected (limit : N) (ps : list KittyImagePlacementSnapshot) (c : Collected) : Prop := {
  collected_uploads i : next_uploads c !! i = first_upload ps i;
  collected_pictures : normalized c = pictures ps;
  collected_bytes : next_bytes c = N.min usize_max (bytes_of (next_uploads c));
  collected_small i u : next_uploads c !! i = Some u → len (pane_data u) ≤ limit
}.

Lemma first_upload_app ps p i :
  first_upload (ps ++ [p]) i =
  match first_upload ps i with Some u => Some u | None => if kitty_image p =? i then Some (pane_upload_from_ghostty p) else None end.
Proof.
  unfold first_upload. rewrite List.filter_app. cbn [List.filter].
  destruct (List.filter _ ps); cbn; [|done]. by destruct (kitty_image p =? i).
Qed.
Lemma first_upload_in ps p : p ∈ ps → is_Some (first_upload ps (kitty_image p)).
Proof.
  intros Hp. unfold first_upload. apply fmap_is_Some. destruct (List.filter _ ps) as [|x l] eqn:E; [|by eexists].
  assert (p ∈ List.filter (λ q, kitty_image q =? kitty_image p) ps) as H by (apply elem_of_Filter; split; [done|apply N.eqb_refl]).
  rewrite E in H. by apply elem_of_nil in H.
Qed.
Lemma pictures_app ps p u : first_upload (ps ++ [p]) (kitty_image p) = Some u →
  pictures (ps ++ [p]) = pictures ps ++ [presented_image_from_ghostty p (pane_format u) (pane_digest u)].
Proof.
  intros Hu. unfold pictures. rewrite fmap_app. cbn [fmap list_fmap]. rewrite Hu. f_equal. apply list_fmap_ext. intros j x Hx.
  apply list_elem_of_lookup_2 in Hx. destruct (first_upload_in _ _ Hx) as [v Hv]. by rewrite first_upload_app, Hv.
Qed.

Context (s : PaneMediaStore) (Hs : map_Forall (λ _ u, upload_ok u) (uploads s)).

Lemma collect_placement_spec ps p c : in_memory (kitty_data p) → collected (maximum_image_bytes (limits s)) ps c →
  match collect_placement s c p with
  | Ok c' => collected (maximum_image_bytes (limits s)) (ps ++ [p]) c' ∧
      (∀ u, first_upload (ps ++ [p]) (kitty_image p) = Some u → u = pane_upload_from_ghostty p ∨ pane_upload_matches_source u p = true)
  | Err _ => True
  end.
Proof.
  intros Hp Hc. unfold collect_placement. rewrite (collected_uploads _ _ _ Hc). destruct (first_upload ps (kitty_image p)) as [u|] eqn:E.
  - destruct (pane_upload_matches_source u p) eqn:Em; [|done].
    assert (first_upload (ps ++ [p]) (kitty_image p) = Some u) as Hu by by rewrite first_upload_app, E.
    split; [|intros ?; rewrite Hu; intros [= <-]; by right].
    destruct c as [n l b], Hc as [H1 H2 H3 H4]. cbn in *. split; cbn.
    + intros i. rewrite first_upload_app, H1. destruct (first_upload ps i) eqn:Ei; [done|].
      destruct (N.eqb_spec (kitty_image p) i) as [Heq|]; [rewrite <-Heq in Ei; congruence|done].
    + by rewrite H2, (pictures_app _ _ u).
    + done.
    + done.
  - rewrite upload_of_fresh by done. set (u := pane_upload_from_ghostty p). case_cmp; [done|].
    assert (first_upload (ps ++ [p]) (kitty_image p) = Some u) as Hu by by rewrite first_upload_app, E, N.eqb_refl.
    split; [|intros ?; rewrite Hu; intros [= <-]; by left].
    pose proof (collected_uploads _ _ _ Hc (kitty_image p)) as Hn. rewrite E in Hn. destruct Hc as [H1 H2 H3 H4]. split; cbn [next_uploads normalized next_bytes].
    + intros i. rewrite first_upload_app. destruct (N.eqb_spec (kitty_image p) i) as [<-|Hne].
      * by rewrite lookup_insert_eq, E.
      * rewrite lookup_insert_ne, H1 by done. by destruct (first_upload ps i).
    + by rewrite H2, (pictures_app _ _ u).
    + rewrite bytes_of_insert, H3 by done. unfold sat_add. lia.
    + intros i v. destruct (decide (kitty_image p = i)) as [<-|Hne]; [rewrite lookup_insert_eq; by intros [= <-]|].
      rewrite lookup_insert_ne by done. apply H4.
Qed.

Lemma collect_placements_spec rest ps c : Forall (λ p, in_memory (kitty_data p)) rest →
  collected (maximum_image_bytes (limits s)) ps c →
  match collect_placements s c rest with
  | Ok c' => collected (maximum_image_bytes (limits s)) (ps ++ rest) c'
  | Err _ => True
  end.
Proof.
  revert ps c. induction rest as [|p rest IH]; intros ps c Hf Hc; cbn [collect_placements]; [by rewrite app_nil_r|].
  apply Forall_cons in Hf as [Hp Hf]. pose proof (collect_placement_spec ps p c Hp Hc) as H.
  destruct (collect_placement s c p) as [c'|]; cbn [mbind result_bind]; [|done].
  rewrite cons_middle, app_assoc. apply IH; [done|apply H].
Qed.

Lemma collect_placements_fresh ps c : Forall (λ p, in_memory (kitty_data p)) ps →
  collect_placements s c ps = collect_placements (media_store_new (limits s)) c ps.
Proof.
  intros Hp. revert c. induction Hp as [|p ps Hp _ IH]; intros c; [done|]. cbn [collect_placements].
  assert (collect_placement s c p = collect_placement (media_store_new (limits s)) c p) as <-.
  { unfold collect_placement. change (limits (media_store_new (limits s))) with (limits s).
    rewrite (upload_of_fresh s p) by done. by rewrite (upload_of_fresh (media_store_new (limits s)) p) by (done || apply map_Forall_empty). }
  destruct (collect_placement s c p); cbn [mbind result_bind]; [apply IH|done].
Qed.

Definition store_ok (t : PaneMediaStore) : Prop :=
  map_Forall (λ _ u, upload_ok u ∧ len (pane_data u) ≤ maximum_image_bytes (limits t)) (uploads t) ∧
  total_bytes t = bytes_of (uploads t) ∧ total_bytes t ≤ maximum_pane_bytes (limits t) ∧
  len (placements t) ≤ maximum_placements (limits t) ∧
  (∀ i, is_Some (uploads t !! i) ↔ ∃ p, p ∈ placements t ∧ image_id p = i).

Lemma first_upload_from ps i u : first_upload ps i = Some u → ∃ p, p ∈ ps ∧ kitty_image p = i ∧ u = pane_upload_from_ghostty p.
Proof.
  unfold first_upload. intros (p & Hp & ->)%fmap_Some. exists p.
  apply head_Some_elem_of, elem_of_Filter in Hp as [Hin Hi%N.eqb_eq]. done.
Qed.

Lemma synchronize_spec ps : Forall (λ p, in_memory (kitty_data p)) ps → maximum_pane_bytes (limits s) < usize_max →
  match synchronize ps s with
  | Ok (_, s') => limits s' = limits s ∧ (∀ i, uploads s' !! i = first_upload ps i) ∧ placements s' = pictures ps ∧ store_ok s'
  | Err _ => True
  end.
Proof.
  intros Hps Hl. unfold synchronize. case_cmp; [done|].
  assert (collected (maximum_image_bytes (limits s)) [] collected_none) as H0 by by split.
  pose proof (collect_placements_spec ps [] collected_none Hps H0) as Hc.
  destruct (collect_placements s collected_none ps) as [c|]; cbn [mbind result_bind]; [|done]. case_cmp; [done|].
  destruct Hc as [Hc1 Hc2 Hc3 Hc4]. cbn [app] in *. cbn [limits uploads placements]. split_and!; [done..|].
  split_and!; cbn [limits uploads placements total_bytes]; [|lia|lia|rewrite Hc2; unfold pictures; rewrite length_fmap; lia|].
  - intros i u Hu. split; [|by apply (Hc4 i)]. rewrite Hc1 in Hu. apply first_upload_from in Hu as (p & Hp & _ & ->).
    apply from_ghostty_ok. by eapply Forall_forall in Hps.
  - intros i. rewrite Hc1, Hc2. split.
    + intros [u Hu]. destruct (first_upload_from _ _ _ Hu) as (p & Hp & <- & _).
      eexists. split; [by apply list_elem_of_fmap; exists p|]. by destruct (first_upload _ _).
    + intros (q & Hq & <-). apply list_elem_of_fmap in Hq as (p & -> & Hp). destruct (first_upload_in _ _ Hp) as [u Hu].
      rewrite Hu. cbn. by rewrite Hu.
Qed.

End Store.

(** The store of a pane follows the engine.  What a store holds after it was
    given the images of the engine, and whether it refuses them, does not
    depend on what it held before: pixels that were converted before are used
    again only where conversion would give the same.  It holds one upload for
    each image that is placed, no other, and the placements as they are, within
    every limit. *)
Theorem media_store_follows_the_engine memory ps s :
  store_ok memory s → Forall (λ p, in_memory memory (kitty_data p)) ps → maximum_pane_bytes (limits s) < usize_max →
  snd <$> synchronize ps s = snd <$> synchronize ps (media_store_new (limits s)) ∧
  match synchronize ps s with
  | Ok (_, s') => limits s' = limits s ∧ (∀ i, uploads s' !! i = first_upload ps i) ∧ placements s' = pictures ps ∧ store_ok memory s'
  | Err _ => True
  end.
Proof.
  intros [Hs _] Hps Hl. assert (map_Forall (λ _ u, upload_ok memory u) (uploads s)) as Hu by (intros i u Hu; by apply (Hs i)).
  split; [|by apply synchronize_spec]. unfold synchronize. cbn [limits media_store_new]. case_cmp; [done|].
  rewrite (collect_placements_fresh memory s Hu) by done. destruct (collect_placements _ _ _); cbn [mbind result_bind]; [|done].
  by case_cmp.
Qed.

Lemma keys_bytes owner ks m : NoDup ks → (∀ k, k ∈ ks ↔ is_Some (m !! k)) →
  upload_bytes (omap (λ i, scene_upload owner i <$> m !! i) ks) = bytes_of m.
Proof.
  revert m. induction ks as [|k ks IH]; intros m Hnd Hks.
  - assert (m = ∅) as ->; [|done]. apply map_eq. intros i. rewrite lookup_empty. destruct (m !! i) eqn:E; [|done].
    assert (i ∈ []) as H by (apply Hks; by eexists). by apply elem_of_nil in H.
  - apply NoDup_cons in Hnd as [Hk Hnd]. destruct (proj1 (Hks k)) as [u Hu]; [by left|].
    assert (bytes_of m = len (pane_data u) + bytes_of (delete k m)) as ->.
    { rewrite <-(bytes_of_insert (delete k m) k u) by apply lookup_delete_eq. by rewrite insert_delete_id. }
    cbn [omap list_omap]. rewrite Hu. cbn [fmap option_fmap option_map upload_bytes foldr upload_data scene_upload]. f_equal.
    rewrite <-(IH (delete k m)); [|done|].
    + unfold upload_bytes. f_equal. apply omap_ext_in. intros i Hi. by rewrite lookup_delete_ne by (intros ->; done).
    + intros i. destruct (decide (k = i)) as [<-|Hne]; [rewrite lookup_delete_eq; split; [done|by intros []]|].
      rewrite lookup_delete_ne by done. rewrite <-Hks, elem_of_cons. naive_solver.
Qed.
Lemma put_media_fields scene a b :
  scene_uploads (scene <| scene_uploads := a |> <| scene_images := b |>) = a ∧
  scene_images (scene <| scene_uploads := a |> <| scene_images := b |>) = b.
Proof. by destruct scene. Qed.
Lemma upload_bytes_app l1 l2 : upload_bytes (l1 ++ l2) = upload_bytes l1 + upload_bytes l2.
Proof. unfold upload_bytes. induction l1 as [|u l1 IH]; cbn; [done|]. rewrite IH. lia. Qed.

(** The image bytes of a scene stay within the limit of each store that adds
    its media; a store that would exceed it adds nothing.  What it adds are its
    uploads, and its placements cut to the rectangle of the pane. *)
Theorem scene_media_is_bounded owner origin clip s scene memory :
  store_ok memory s → upload_bytes (scene_uploads scene) + total_bytes s ≤ usize_max →
  match append_to_scene owner origin clip s scene with
  | Ok scene' => upload_bytes (scene_uploads scene') ≤ maximum_scene_bytes (limits s) ∧
      (∃ added, scene_uploads scene' = scene_uploads scene ++ added ∧
        ∀ u, u ∈ added ↔ ∃ i v, uploads s !! i = Some v ∧ u = scene_upload owner i v) ∧
      ∃ placed, scene_images scene' = scene_images scene ++ placed ∧
        ∀ p, p ∈ placed ↔ placement_owner p = owner ∧ ∃ q, q ∈ placements s ∧
          clip_image_placement (moved origin q) clip = Some (placement_image p)
  | Err e => e = MediaLimitExceeded (bs "scene image bytes") (upload_bytes (scene_uploads scene) + total_bytes s) (maximum_scene_bytes (limits s)) ∧
      maximum_scene_bytes (limits s) < upload_bytes (scene_uploads scene) + total_bytes s
  end.
Proof.
  intros (_ & Ht & _) Hle. unfold append_to_scene. assert (sat_add usize_max (upload_bytes (scene_uploads scene)) (total_bytes s) =
    upload_bytes (scene_uploads scene) + total_bytes s) as -> by (unfold sat_add; lia).
  case_cmp; [done|]. destruct (put_media_fields scene (scene_uploads scene ++ omap (λ i, scene_upload owner i <$> uploads s !! i) (btree_keys (uploads s)))
    (scene_images scene ++ omap (λ p, clipped ← clip_image_placement (moved origin p) clip;
       Some {| placement_owner := owner; placement_image := clipped |}) (placements s))) as [E1 E2]. rewrite E1, E2. clear E1 E2. split_and!.
  - rewrite upload_bytes_app, (keys_bytes owner (btree_keys (uploads s)) (uploads s)); [lia|apply NoDup_btree_keys|].
    intros k. apply elem_of_btree_keys.
  - eexists. split; [done|]. intros u. rewrite list_elem_of_omap. split.
    + intros (i & _ & (v & Hv & ->)%fmap_Some). by exists i, v.
    + intros (i & v & Hv & ->). exists i. rewrite elem_of_btree_keys, Hv. split; [by eexists|done].
  - eexists. split; [done|]. intros p. rewrite list_elem_of_omap. split.
    + intros (q & Hq & (c & Hc & [= <-])%bind_Some). split; [done|]. by exists q.
    + destruct p as [po pi]. cbn. intros (-> & q & Hq & Hc). exists q. split; [done|]. by rewrite Hc.
Qed.

(** * Instances *)

Definition sample_image : PresentedImage := {|
  image_id := 1; placement_id := 1; image_number := 0; pixel_width := 40; pixel_height := 40; rendered_pixel_width := 0;
  rendered_pixel_height := 0; format := FormatRgb; data_len := 0; data_digest := 7;
  grid_rect := rect (point 1 1) 4 4; x_offset := 3; y_offset := 3; source_x := 0; source_y := 0; source_width := 0;
  source_height := 0; z_index := 0; virtual_placement := false; image_visible := true |}.

Lemma images_are_cut_exactly_witness :
  count_at (subtract_image_placement sample_image (rect (point 2 2) 1 9)) 2 1 = indicator true ∧
  count_at (subtract_image_placement sample_image (rect (point 2 2) 1 9)) 2 3 = indicator false.
Proof.
  assert (rect_ok (grid_rect sample_image) ∧ rect_ok (rect (point 2 2) 1 9)) as [H1 H2]
    by (unfold rect_ok, i32_min, i32_max, u16_max; cbn; lia).
  destruct (images_are_cut_exactly sample_image (rect (point 2 2) 1 9) H1 H2) as [_ H]. split; apply H.
Defined.

Definition gray_pixel : KittyImagePlacementSnapshot := {|
  kitty_image := 5; kitty_placement := 1; kitty_number := 0; kitty_width := 1; kitty_height := 1; kitty_rendered_width := 0;
  kitty_rendered_height := 0; kitty_format := FormatGray; kitty_data := {| shared_address := 64; shared_bytes := [200] |};
  kitty_digest := 9; kitty_x := 0; kitty_y := 0; viewport_col := 0; viewport_row := 0; grid_cols := 1; grid_rows := 1;
  kitty_source_x := 0; kitty_source_y := 0; kitty_source_width := 0; kitty_source_height := 0; kitty_z := 0;
  kitty_virtual := false; kitty_visible := true |}.

(** The pixel is uploaded once, and used again by the second placement and the
    second reading. *)
Definition read_twice : result MediaError (MediaSyncReport * PaneMediaStore) :=
  '(_, s) ← synchronize [gray_pixel] (media_store_new default_limits);
  synchronize [gray_pixel; gray_pixel <| kitty_placement := 2 |>] s.
Example one_upload :
  match read_twice with
  | Ok (report, s) => (pane_data <$> uploads s !! 5, total_bytes s, uploads_added report, placements_added report) = (Some [200; 200; 200], 3, 0, 1)
  | Err _ => False
  end.
Proof. vm_compute. done. Qed.

Lemma media_store_follows_the_engine_witness :
  snd <$> synchronize [gray_pixel] (media_store_new default_limits) =
  snd <$> synchronize [gray_pixel] (media_store_new (limits (media_store_new default_limits))).
Proof.
  apply (media_store_follows_the_engine (λ _, [200]) [gray_pixel] (media_store_new default_limits)).
  - split; [apply map_Forall_empty|]. split_and!; [by vm_compute..|]. intros i. cbn. rewrite lookup_empty.
    split; [by intros []|]. intros (p & Hp & _). by apply elem_of_nil in Hp.
  - by apply Forall_singleton.
  - by vm_compute.
Defined.

Lemma scene_media_is_bounded_witness :
  match append_to_scene 1 (point 0 0) (rect (point 0 0) 1 1) (media_store_new default_limits) (scene_new (from_cells 1 1)) with
  | Ok scene' => upload_bytes (scene_uploads scene') ≤ maximum_scene_bytes (limits (media_store_new default_limits))
  | Err _ => True
  end.
Proof.
  pose proof (scene_media_is_bounded 1 (point 0 0) (rect (point 0 0) 1 1) (media_store_new default_limits) (scene_new (from_cells 1 1)) (λ _, [])) as H.
  destruct (append_to_scene _ _ _ _ _); [|done]. apply H; [|by vm_compute].
  split; [apply map_Forall_empty|]. split_and!; [by vm_compute..|]. intros i. cbn. rewrite lookup_empty.
  split; [by intros []|]. intros (p & Hp & _). by apply elem_of_nil in Hp.
Defined.
