(* ===== verification/SceneCompose.v ===== *)
(** Composition of the screen (src/src/presentation.rs, [PresentedScene]):
    surfaces are painted over each other into the rows that the physical
    terminal is to show, the cursor is that of the surface that owns it, and
    the images are those parts of the placed images that nothing covers, under
    identifiers of their own.

    Writing a cell out of the range of the rows is a panic of the code, [None]
    here. *)

From S2P Require Import Prelude Terminal Screen Grid SceneMedia.
Local Open Scope N_scope.

(** * Data *)

Record PresentedImageUpload := {
  presented_id : N; presented_width : N; presented_height : N; presented_format : PixelFormat; presented_len : N; presented_digest : N
}.
#[export] Instance PresentedImageUpload_eq_dec : EqDecision PresentedImageUpload.
Proof. solve_decision. Defined.

Record PresentedScene := {
  p_geometry : TerminalGeometry; p_rows : list Row; p_cursor : Cursor; p_cursor_owner : CursorOwner; p_screen : ScreenIdentity;
  p_modes : TerminalModes; p_title : option bytes; p_directory : option bytes; p_uploads : list PresentedImageUpload;
  p_images : list PresentedImage; p_bells : N
}.

Definition blank_row (cols : N) : Row := {| cells := replicate (N.to_nat cols) default_cell; wrapped := false |}.
Definition blank_rows (g : TerminalGeometry) : list Row := replicate (N.to_nat (Terminal.rows g)) (blank_row (cols g)).

Definition hidden_cursor : Cursor := default_cursor <| visible := false |>.

Definition with_rows (g : TerminalGeometry) (rs : list Row) : PresentedScene := {|
  p_geometry := g; p_rows := rs; p_cursor := hidden_cursor; p_cursor_owner := OwnerHidden; p_screen := PrimaryScreen;
  p_modes := default_modes; p_title := None; p_directory := None; p_uploads := []; p_images := []; p_bells := 0 |}.
Definition blank_scene (g : TerminalGeometry) : PresentedScene := with_rows g (blank_rows g).

(** * Painting *)

Definition set_cell (target : list Row) (row col : nat) (c : Cell) : option (list Row) :=
  r ← target !! row;
  if (col <? length (cells r))%nat
  then Some (<[row := {| cells := <[col := c]> (cells r); wrapped := wrapped r |}]> target)
  else None.
Definition set_wrapped (target : list Row) (row : nat) (w : bool) : option (list Row) :=
  r ← target !! row; Some (<[row := {| cells := cells r; wrapped := w |}]> target).

(** The loop over the cells of a row from the one at [index]. *)
Fixpoint blit_cells (columns : N) (origin_col : Z) (row : nat) (index : Z) (l : list Cell) (target : list Row) : option (list Row) :=
  match l with
  | [] => Some target
  | c :: l =>
      if (i32_max <? index)%Z then Some target else
      let col := i32_add origin_col index in
      if (col <? 0)%Z || (Z.of_N columns <=? col)%Z
      then blit_cells columns origin_col row (index + 1) l target
      else target ← set_cell target row (Z.to_nat col) c; blit_cells columns origin_col row (index + 1) l target
  end.

Definition spans_columns (g : TerminalGeometry) (s : SceneSurface) : bool :=
  (point_col (surface_origin s) <=? 0)%Z &&
  (Z.of_N (cols g) <=? i32_add (point_col (surface_origin s)) (Z.of_N (cols (geometry (snapshot s)))))%Z.

Fixpoint blit_rows (g : TerminalGeometry) (s : SceneSurface) (index : Z) (l : list Row) (target : list Row) : option (list Row) :=
  match l with
  | [] => Some target
  | r :: l =>
      if (i32_max <? index)%Z then Some target else
      let row := i32_add (point_row (surface_origin s)) index in
      if (row <? 0)%Z || (Z.of_N (Terminal.rows g) <=? row)%Z then blit_rows g s (index + 1) l target
      else
        target ← blit_cells (cols g) (point_col (surface_origin s)) (Z.to_nat row) 0 (cells r) target;
        target ← (if spans_columns g s then set_wrapped target (Z.to_nat row) (wrapped r) else Some target);
        blit_rows g s (index + 1) l target
  end.
Definition blit_surface (g : TerminalGeometry) (target : list Row) (s : SceneSurface) : option (list Row) :=
  blit_rows g s 0 (rows (snapshot s)) target.

Fixpoint blit_surfaces (g : TerminalGeometry) (l : list SceneSurface) (target : list Row) : option (list Row) :=
  match l with
  | [] => Some target
  | s :: l => target ← blit_surface g target s; blit_surfaces g l target
  end.

(** Overlays by height, those of the same height in their order. *)
Definition below (a b : nat * SceneOverlay) : Prop :=
  (overlay_z a.2 < overlay_z b.2)%Z ∨ overlay_z a.2 = overlay_z b.2 ∧ (a.1 ≤ b.1)%nat.
#[export] Instance below_dec a b : Decision (below a b).
Proof. unfold below. apply _. Defined.
Definition enumerate {A} (l : list A) : list (nat * A) := zip (seq 0 (length l)) l.
Definition sorted_overlays (scene : Scene) : list (nat * SceneOverlay) := merge_sort below (enumerate (scene_overlays scene)).

Definition covers_scene (g : TerminalGeometry) (s : SceneSurface) : bool :=
  bool_decide (surface_origin s = point 0 0) && bool_decide (geometry (snapshot s) = g) &&
  (len (rows (snapshot s)) =? Terminal.rows g).

Definition composed_rows (scene : Scene) : option (list Row) :=
  let g := scene_geometry scene in
  target ← match scene_panes scene with
    | [] => Some (blank_rows g)
    | first :: panes =>
        target ← (if covers_scene g first then Some (rows (snapshot first)) else blit_surface g (blank_rows g) first);
        blit_surfaces g panes target
    end;
  blit_surfaces g ((λ o, overlay_surface o.2) <$> sorted_overlays scene) target.

(** * Cursor *)

Definition cursor_surface (scene : Scene) : option SceneSurface :=
  match scene_cursor scene with
  | OwnerPane id => snd <$> list_find (λ s, surface_id s = id) (scene_panes scene)
  | OwnerOverlay id => (λ o, overlay_surface o.2) <$> list_find (λ o, surface_id (overlay_surface o) = id) (scene_overlays scene)
  | OwnerHidden => None
  end.

Definition u16_or_max (z : Z) : N := default u16_max (u16_try_from z).

Definition composed_cursor (g : TerminalGeometry) (s : SceneSurface) : Cursor :=
  let c := cursor (snapshot s) in
  let row := i32_add (point_row (surface_origin s)) (Z.of_N (cursor_row c)) in
  let col := i32_add (point_col (surface_origin s)) (Z.of_N (cursor_col c)) in
  let in_bounds := (0 <=? row)%Z && (0 <=? col)%Z && (row <? Z.of_N (Terminal.rows g))%Z && (col <? Z.of_N (cols g))%Z in
  {| cursor_row := u16_or_max (Z.max row 0); cursor_col := u16_or_max (Z.max col 0);
     visible := visible c && in_bounds; shape := shape c |}.

(** * Identifiers *)

Definition le_bytes (count : nat) (z : Z) : bytes :=
  (λ i, Z.to_N (Z.shiftr z (8 * Z.of_nat i) mod 256)) <$> seq 0 count.

Definition stable_namespace_seed (owner source_id extra tag : N) : N :=
  stable_digest (le_bytes 8 (Z.of_N owner) ++ le_bytes 4 (Z.of_N source_id) ++ le_bytes 8 (Z.of_N extra) ++ le_bytes 8 (Z.of_N tag)).

Definition next_id (id : N) : N := N.max (wrapping_add u32_max id 1) 1.

(** The search for an identifier that is not in use, [fuel] of them at most. *)
Fixpoint search_id (fuel : nat) (id : N) (used : gset N) : option N :=
  match fuel with
  | O => None
  | S fuel => if bool_decide (id ∈ used) then search_id fuel (next_id id) used else Some id
  end.
Definition allocate_outer_id (seed : N) (used : gset N) : option (N * gset N) :=
  id ← search_id (S (base.size used)) (N.max (seed mod 2 ^ 32) 1) used; Some (id, {[ id ]} ∪ used).

Definition IMAGE_TAG : N := 0x494d414745000001.
Definition PLACE_TAG : N := 0x504c414345000001.

(** * Images *)

Abbreviation image_key := (N * N * N)%type (only parsing).
Definition upload_key (u : SceneImageUpload) : image_key := (upload_owner u, upload_image u, upload_digest u).
Definition find_upload (scene : Scene) (owner image : N) : option SceneImageUpload :=
  snd <$> list_find (λ u, upload_owner u = owner ∧ upload_image u = image) (scene_uploads scene).
Definition placement_digest (scene : Scene) (p : SceneImagePlacement) : N :=
  match find_upload scene (placement_owner p) (image_id (placement_image p)) with
  | Some u => upload_digest u
  | None => data_digest (placement_image p)
  end.
Definition placement_key (scene : Scene) (p : SceneImagePlacement) : image_key :=
  (placement_owner p, image_id (placement_image p), placement_digest scene p).

Definition key_le (a b : image_key) : Prop :=
  a.1.1 < b.1.1 ∨ a.1.1 = b.1.1 ∧ (a.1.2 < b.1.2 ∨ a.1.2 = b.1.2 ∧ a.2 ≤ b.2).
#[export] Instance key_le_dec a b : Decision (key_le a b).
Proof. unfold key_le. apply _. Defined.

(** The set of the keys, in the order of a [BTreeSet]. *)
Definition image_keys (scene : Scene) : list image_key :=
  merge_sort key_le (remove_dups ((upload_key <$> scene_uploads scene) ++ (placement_key scene <$> scene_images scene))).

Fixpoint assign_ids (keys : list image_key) (used : gset N) : option (list (image_key * N)) :=
  match keys with
  | [] => Some []
  | k :: keys =>
      '(id, used) ← allocate_outer_id (stable_namespace_seed k.1.1 k.1.2 k.2 IMAGE_TAG) used;
      ids ← assign_ids keys used;
      Some ((k, id) :: ids)
  end.
Definition outer_image_ids (scene : Scene) : option (list (image_key * N)) := assign_ids (image_keys scene) ∅.
Definition id_of (ids : list (image_key * N)) (k : image_key) : option N := snd ∘ snd <$> list_find (λ e, e.1 = k) ids.

Definition presented_upload (id : N) (u : SceneImageUpload) : PresentedImageUpload := {|
  presented_id := id; presented_width := upload_width u; presented_height := upload_height u;
  presented_format := upload_format u; presented_len := len (upload_data u); presented_digest := upload_digest u |}.
Definition compose_image_uploads (scene : Scene) : option (list PresentedImageUpload) :=
  ids ← outer_image_ids scene;
  let m := fold_left (λ (m : gmap N PresentedImageUpload) u,
    match id_of ids (upload_key u) with Some id => <[id := presented_upload id u]> m | None => m end) (scene_uploads scene) ∅ in
  Some (omap (λ i, m !! i) (btree_keys m)).

Definition overlay_rect (o : SceneOverlay) : GridRect :=
  rect (surface_origin (overlay_surface o)) (Terminal.rows (geometry (snapshot (overlay_surface o)))) (cols (geometry (snapshot (overlay_surface o)))).

(** The rectangles above an image: of every overlay, or of those above its
    owner if that is an overlay. *)
Definition rects_above (scene : Scene) (owner : N) : list GridRect :=
  let layers := snd <$> sorted_overlays scene in
  let above := match list_find (λ o, surface_id (overlay_surface o) = owner) layers with
               | Some (i, _) => drop (S i) layers
               | None => layers
               end in
  overlay_rect <$> above.

Fixpoint cut_fragments (fragments : list PresentedImage) (above : list GridRect) : list PresentedImage :=
  match above with
  | [] => fragments
  | r :: above =>
      let fragments := mjoin ((λ f, subtract_image_placement f r) <$> fragments) in
      if bool_decide (fragments = []) then [] else cut_fragments fragments above
  end.

Definition placement_fragment_digest (f : PresentedImage) : N :=
  let o := rect_origin (grid_rect f) in
  stable_digest (le_bytes 4 (point_row o) ++ le_bytes 4 (point_col o) ++
    le_bytes 2 (Z.of_N (rect_rows (grid_rect f))) ++ le_bytes 2 (Z.of_N (rect_cols (grid_rect f))) ++
    le_bytes 4 (Z.of_N (source_x f)) ++ le_bytes 4 (Z.of_N (source_y f)) ++
    le_bytes 4 (Z.of_N (source_width f)) ++ le_bytes 4 (Z.of_N (source_height f)) ++
    le_bytes 4 (Z.of_N (x_offset f)) ++ le_bytes 4 (Z.of_N (y_offset f)) ++ le_bytes 4 (z_index f) ++
    [if virtual_placement f then 1 else 0]).

Record ComposedImage := { composed_owner : N; source_image : N; composed_image : PresentedImage }.

(** What a fragment takes from the upload and from the size of the cells. *)
Definition dressed (g : TerminalGeometry) (upload : option SceneImageUpload) (f : PresentedImage) : PresentedImage :=
  let f := match upload with
    | Some u => f <| data_len := len (upload_data u) |> <| format := upload_format u |>
                  <| pixel_width := upload_width u |> <| pixel_height := upload_height u |>
    | None => f
    end in
  let f := if (rendered_pixel_width f =? 0) && (0 <? cell_width_px g)
           then f <| rendered_pixel_width := sat_mul u32_max (rect_cols (grid_rect f)) (cell_width_px g) |> else f in
  if (rendered_pixel_height f =? 0) && (0 <? cell_height_px g)
  then f <| rendered_pixel_height := sat_mul u32_max (rect_rows (grid_rect f)) (cell_height_px g) |> else f.

Fixpoint name_fragments (scene : Scene) (p : SceneImagePlacement) (outer : N) (fragments : list PresentedImage)
    (used : gset N) : option (list ComposedImage * gset N) :=
  match fragments with
  | [] => Some ([], used)
  | f :: fragments =>
      let upload := find_upload scene (placement_owner p) (image_id (placement_image p)) in
      let f := (dressed (scene_geometry scene) upload f) <| image_id := outer |> in
      '(id, used) ← allocate_outer_id
        (stable_namespace_seed (placement_owner p) (placement_id (placement_image p)) (placement_fragment_digest f) PLACE_TAG) used;
      '(named, used) ← name_fragments scene p outer fragments used;
      Some ({| composed_owner := placement_owner p; source_image := image_id (placement_image p);
               composed_image := f <| placement_id := id |> |} :: named, used)
  end.

(** The visible fragments of a placement. *)
Definition fragments_of (scene : Scene) (p : SceneImagePlacement) : list PresentedImage :=
  match clip_image_placement (placement_image p) (bounds_of (scene_geometry scene)) with
  | Some image => if image_visible image then cut_fragments [image] (rects_above scene (placement_owner p)) else []
  | None => []
  end.

(** The identifier of the image is looked up for every placement that is not
    skipped; a missing one would be a panic. *)
Fixpoint compose_placements (scene : Scene) (ids : list (image_key * N)) (l : list SceneImagePlacement)
    (used : gset N) : option (list ComposedImage) :=
  match l with
  | [] => Some []
  | p :: l =>
      match clip_image_placement (placement_image p) (bounds_of (scene_geometry scene)) with
      | None => compose_placements scene ids l used
      | Some image =>
          if negb (image_visible image) then compose_placements scene ids l used else
          outer ← id_of ids (placement_key scene p);
          '(named, used) ← name_fragments scene p outer (cut_fragments [image] (rects_above scene (placement_owner p))) used;
          rest ← compose_placements scene ids l used;
          Some (named ++ rest)
      end
  end.

Definition image_le (a b : ComposedImage) : Prop :=
  let x := composed_image a in let y := composed_image b in
  (z_index x < z_index y)%Z ∨ z_index x = z_index y ∧
  (image_id x < image_id y ∨ image_id x = image_id y ∧ placement_id x ≤ placement_id y).
#[export] Instance image_le_dec a b : Decision (image_le a b).
Proof. unfold image_le. apply _. Defined.

Definition compose_image_records (scene : Scene) : option (list ComposedImage) :=
  ids ← outer_image_ids scene;
  records ← compose_placements scene ids (scene_images scene) ∅;
  Some (merge_sort image_le records).
Definition compose_images (scene : Scene) : option (list PresentedImage) :=
  records ← compose_image_records scene; Some (List.map composed_image records).

(** * The composed screen *)

Definition compose (scene : Scene) : option PresentedScene :=
  target ← composed_rows scene;
  uploads ← compose_image_uploads scene;
  images ← compose_images scene;
  let p := (with_rows (scene_geometry scene) target) <| p_cursor_owner := scene_cursor scene |> in
  let p := match cursor_surface scene with
    | Some s => p <| p_screen := screen (snapshot s) |> <| p_modes := modes (snapshot s) |>
                  <| p_cursor := composed_cursor (scene_geometry scene) s |>
    | None => p
    end in
  Some (p <| p_title := effect_title (scene_effects scene) |> <| p_directory := effect_directory (scene_effects scene) |>
          <| p_uploads := uploads |> <| p_images := images |> <| p_bells := effect_bells (scene_effects scene) |>).

(** * Painting is exact *)

(** ** Rows of a grid *)

Definition grid (g : TerminalGeometry) (t : list Row) : Prop :=
  length t = N.to_nat (Terminal.rows g) ∧ Forall (λ r, length (cells r) = N.to_nat (cols g)) t.
Definition cell_at (t : list Row) (row col : nat) : option Cell := r ← t !! row; cells r !! col.
Definition wrapped_at (t : list Row) (row : nat) : option bool := wrapped <$> t !! row.

(** A list at a position that may be negative. *)
Definition lookup_z {A} (l : list A) (z : Z) : option A := if (z <? 0)%Z then None else l !! Z.to_nat z.
(** What is painted over what. *)
Definition over {A} (top bottom : option A) : option A := match top with Some x => Some x | None => bottom end.

Definition surface_row (s : SceneSurface) (row : Z) : option Row := lookup_z (rows (snapshot s)) (row - point_row (surface_origin s)).
Definition surface_cell (s : SceneSurface) (row col : Z) : option Cell :=
  r ← surface_row s row; lookup_z (cells r) (col - point_col (surface_origin s)).

Lemma lookup_z_cons {A} (x : A) l z : lookup_z (x :: l) z = if (z =? 0)%Z then Some x else lookup_z l (z - 1).
Proof.
  unfold lookup_z. destruct (Z.eqb_spec z 0) as [->|Hne]; [done|].
  destruct (Z.ltb_spec z 0), (Z.ltb_spec (z - 1) 0); [done|lia|lia|].
  replace (Z.to_nat z) with (S (Z.to_nat (z - 1))) by lia. done.
Qed.
Lemma lookup_z_nil {A} z : lookup_z (@nil A) z = None.
Proof. unfold lookup_z. by destruct (z <? 0)%Z. Qed.

Lemma grid_lookup g t row : grid g t → (row < N.to_nat (Terminal.rows g))%nat →
  ∃ r, t !! row = Some r ∧ length (cells r) = N.to_nat (cols g).
Proof.
  intros [Hl Hf] Hr. destruct (lookup_lt_is_Some_2 t row) as [r E]; [lia|]. exists r. split; [done|].
  by eapply Forall_lookup in Hf.
Qed.
Lemma grid_insert g t row r : grid g t → length (cells r) = N.to_nat (cols g) → grid g (<[row := r]> t).
Proof. intros [Hl Hf] Hr. split; [by rewrite length_insert|]. by apply Forall_insert. Qed.

Lemma set_cell_spec g t row col c : grid g t → (row < N.to_nat (Terminal.rows g))%nat → (col < N.to_nat (cols g))%nat →
  ∃ t', set_cell t row col c = Some t' ∧ grid g t' ∧ (∀ i, wrapped_at t' i = wrapped_at t i) ∧
    ∀ i j, cell_at t' i j = if bool_decide (i = row ∧ j = col) then Some c else cell_at t i j.
Proof.
  intros Hg Hr Hc. destruct (grid_lookup g t row Hg Hr) as (r & E & Hl). unfold set_cell. rewrite E. cbn [mbind option_bind].
  rewrite (proj2 (Nat.ltb_lt _ _)) by lia. eexists. split; [done|]. split_and!.
  - apply grid_insert; [done|]. cbn. by rewrite length_insert.
  - intros i. unfold wrapped_at. destruct (decide (i = row)) as [->|Hne]; [|by rewrite list_lookup_insert_ne].
    rewrite list_lookup_insert_eq, E by (apply lookup_lt_is_Some_1; by eexists). done.
  - intros i j. unfold cell_at. destruct (decide (i = row)) as [->|Hne].
    + rewrite list_lookup_insert_eq, E by (apply lookup_lt_is_Some_1; by eexists). cbn [mbind option_bind cells].
      destruct (decide (j = col)) as [->|Hj].
      * rewrite bool_decide_true by done. apply list_lookup_insert_eq. lia.
      * rewrite bool_decide_false by naive_solver. by apply list_lookup_insert_ne.
    + rewrite list_lookup_insert_ne, bool_decide_false by naive_solver. done.
Qed.

Lemma set_wrapped_spec g t row w : grid g t → (row < N.to_nat (Terminal.rows g))%nat →
  ∃ t', set_wrapped t row w = Some t' ∧ grid g t' ∧ (∀ i j, cell_at t' i j = cell_at t i j) ∧
    ∀ i, wrapped_at t' i = if bool_decide (i = row) then Some w else wrapped_at t i.
Proof.
  intros Hg Hr. destruct (grid_lookup g t row Hg Hr) as (r & E & Hl). unfold set_wrapped. rewrite E. cbn [mbind option_bind].
  eexists. split; [done|]. split_and!; [by apply grid_insert| |].
  - intros i j. unfold cell_at. destruct (decide (i = row)) as [->|Hne]; [|by rewrite list_lookup_insert_ne].
    rewrite list_lookup_insert_eq, E by (apply lookup_lt_is_Some_1; by eexists). done.
  - intros i. unfold wrapped_at. case_bool_decide as Hi; [subst i|by rewrite list_lookup_insert_ne].
    rewrite list_lookup_insert_eq by (apply lookup_lt_is_Some_1; by eexists). done.
Qed.

(** ** Cells, rows and surfaces *)

Section Paint.
Context (g : TerminalGeometry) (Hgr : Terminal.rows g ≤ u16_max) (Hgc : cols g ≤ u16_max).

Lemma blit_cells_spec origin_col row l index t : i32_ok origin_col → (row < N.to_nat (Terminal.rows g))%nat →
  (0 ≤ index)%Z → (index + Z.of_nat (length l) ≤ 65536)%Z → grid g t →
  ∃ t', blit_cells (cols g) origin_col row index l t = Some t' ∧ grid g t' ∧ (∀ i, wrapped_at t' i = wrapped_at t i) ∧
    ∀ i j, (j < N.to_nat (cols g))%nat →
      cell_at t' i j = over (if bool_decide (i = row) then lookup_z l (Z.of_nat j - origin_col - index) else None) (cell_at t i j).
Proof.
  intros Ho Hr. revert index t. induction l as [|c l IH]; intros index t Hi Hl Hg; cbn [blit_cells].
  { exists t. split_and!; [done..|]. intros i j _. rewrite lookup_z_nil. by case_bool_decide. }
  cbn [length] in Hl. unfold i32_ok, i32_min, i32_max, u16_max in *. destruct (Z.ltb_spec 2147483647 index) as [|_]; [lia|].
  assert (∀ i j, (j < N.to_nat (cols g))%nat → bool_decide (i = row) = true → (Z.of_nat j - origin_col - index =? 0)%Z = true →
    i32_add origin_col index = Z.of_nat j) as Hat by (intros; unfold i32_add, i32_saturate, i32_min, i32_max; lia).
  destruct (_ || _) eqn:Ecol.
  - destruct (IH (index + 1)%Z t) as (t' & -> & Hg' & Hw & Hc); [lia|lia|done|]. exists t'. split_and!; [done..|].
    intros i j Hj. rewrite Hc by done. destruct (bool_decide (i = row)) eqn:Ei; [|done]. rewrite lookup_z_cons.
    destruct (Z.of_nat j - origin_col - index =? 0)%Z eqn:E0.
    + rewrite (Hat i j) in Ecol by done. lia.
    + do 2 f_equal. lia.
  - destruct (set_cell_spec g t row (Z.to_nat (i32_add origin_col index)) c Hg Hr) as (t1 & -> & Hg1 & Hw1 & Hc1); [lia|].
    cbn [mbind option_bind]. destruct (IH (index + 1)%Z t1) as (t' & -> & Hg' & Hw & Hc); [lia|lia|done|]. exists t'.
    split_and!; [done|done|by intros; rewrite Hw|]. intros i j Hj. rewrite Hc, Hc1 by done.
    destruct (bool_decide (i = row)) eqn:Ei; [|apply bool_decide_eq_false in Ei; by rewrite bool_decide_false by naive_solver].
    rewrite lookup_z_cons. destruct (Z.of_nat j - origin_col - index =? 0)%Z eqn:E0.
    + apply bool_decide_eq_true in Ei as Ei'. rewrite (bool_decide_true (_ ∧ _)) by (rewrite (Hat i j) by done; split; [done|lia]).
      replace (lookup_z l (Z.of_nat j - origin_col - (index + 1))) with (@None Cell); [done|].
      unfold lookup_z. by destruct (Z.ltb_spec (Z.of_nat j - origin_col - (index + 1)) 0); [|lia].
    + rewrite bool_decide_false; [do 2 f_equal; lia|]. intros [_ Hj']. unfold i32_add, i32_saturate, i32_min, i32_max in *. lia.
Qed.

Definition surface_ok (s : SceneSurface) : Prop :=
  let sg := geometry (snapshot s) in
  i32_ok (point_row (surface_origin s)) ∧ i32_ok (point_col (surface_origin s)) ∧
  Terminal.rows sg ≤ u16_max ∧ cols sg ≤ u16_max ∧ grid sg (rows (snapshot s)).

Lemma blit_rows_spec s l index t : surface_ok s → Forall (λ r, Z.of_nat (length (cells r)) ≤ 65535)%Z l →
  (0 ≤ index)%Z → (index + Z.of_nat (length l) ≤ 65536)%Z → grid g t →
  ∃ t', blit_rows g s index l t = Some t' ∧ grid g t' ∧
    ∀ i, (i < N.to_nat (Terminal.rows g))%nat →
      let r := lookup_z l (Z.of_nat i - point_row (surface_origin s) - index) in
      wrapped_at t' i = (if spans_columns g s then over (wrapped <$> r) (wrapped_at t i) else wrapped_at t i) ∧
      ∀ j, (j < N.to_nat (cols g))%nat →
        cell_at t' i j = over (r ≫= λ r, lookup_z (cells r) (Z.of_nat j - point_col (surface_origin s))) (cell_at t i j).
Proof.
  intros Hs Hf. destruct Hs as (Hor & Hoc & _). revert index t. induction Hf as [|r l Hr Hf IH]; intros index t Hi Hl Hg; cbn [blit_rows].
  { exists t. split_and!; [done..|]. intros i _. rewrite lookup_z_nil. split; [by destruct (spans_columns g s)|done]. }
  cbn [length] in Hl. unfold i32_ok, i32_min, i32_max, u16_max in *. destruct (Z.ltb_spec 2147483647 index) as [|_]; [lia|].
  assert (∀ i, (i < N.to_nat (Terminal.rows g))%nat → (Z.of_nat i - point_row (surface_origin s) - index =? 0)%Z = true →
    i32_add (point_row (surface_origin s)) index = Z.of_nat i) as Hat by (intros; unfold i32_add, i32_saturate, i32_min, i32_max; lia).
  assert (∀ i, (i < N.to_nat (Terminal.rows g))%nat → (Z.of_nat i - point_row (surface_origin s) - index =? 0)%Z = false →
    i32_add (point_row (surface_origin s)) index ≠ Z.of_nat i) as Hnat by (intros; unfold i32_add, i32_saturate, i32_min, i32_max; lia).
  destruct (_ || _) eqn:Erow.
  - destruct (IH (index + 1)%Z t) as (t' & -> & Hg' & Hc); [lia|lia|done|]. exists t'. split_and!; [done..|].
    intros i Hin. specialize (Hc i Hin). rewrite lookup_z_cons. destruct (Z.of_nat i - point_row (surface_origin s) - index =? 0)%Z eqn:E0.
    + rewrite (Hat i) in Erow by done. lia.
    + by replace (Z.of_nat i - point_row (surface_origin s) - index - 1)%Z with (Z.of_nat i - point_row (surface_origin s) - (index + 1))%Z by lia.
  - set (row := Z.to_nat (i32_add (point_row (surface_origin s)) index)).
    destruct (blit_cells_spec (point_col (surface_origin s)) row (cells r) 0 t) as (t1 & -> & Hg1 & Hw1 & Hc1); [done|lia|lia|lia|done|].
    cbn [mbind option_bind].
    assert (∃ t2, (if spans_columns g s then set_wrapped t1 row (wrapped r) else Some t1) = Some t2 ∧ grid g t2 ∧
      (∀ i j, cell_at t2 i j = cell_at t1 i j) ∧
      (∀ i, wrapped_at t2 i = if spans_columns g s && bool_decide (i = row) then Some (wrapped r) else wrapped_at t1 i)) as (t2 & -> & Hg2 & Hc2 & Hw2).
    { destruct (spans_columns g s); [|by exists t1]. cbn [andb]. apply set_wrapped_spec; [done|lia]. }
    cbn [mbind option_bind]. destruct (IH (index + 1)%Z t2) as (t' & -> & Hg' & Hc); [lia|lia|done|]. exists t'. split_and!; [done..|].
    intros i Hin. destruct (Hc i Hin) as [Hw3 Hc3]. rewrite lookup_z_cons.
    replace (Z.of_nat i - point_row (surface_origin s) - (index + 1))%Z with (Z.of_nat i - point_row (surface_origin s) - index - 1)%Z in * by lia.
    rewrite Hw3, Hw2, Hw1. destruct (Z.of_nat i - point_row (surface_origin s) - index =? 0)%Z eqn:E0.
    + assert (i = row) as Hrow by (subst row; rewrite (Hat i) by done; lia).
      assert (lookup_z l (Z.of_nat i - point_row (surface_origin s) - index - 1) = None) as Hnone.
      { unfold lookup_z. by destruct (Z.ltb_spec (Z.of_nat i - point_row (surface_origin s) - index - 1) 0); [|lia]. }
      rewrite Hnone in *. rewrite bool_decide_true, andb_true_r by done. split; [by destruct (spans_columns g s)|].
      intros j Hj. rewrite Hc3, Hc2, Hc1, bool_decide_true by done. cbn. by replace (Z.of_nat j - point_col (surface_origin s) - 0)%Z with (Z.of_nat j - point_col (surface_origin s))%Z by lia.
    + assert (i ≠ row) as Hrow by (pose proof (Hnat i Hin E0); subst row; lia).
      rewrite bool_decide_false, andb_false_r by done. split; [done|].
      intros j Hj. by rewrite Hc3, Hc2, Hc1, bool_decide_false by done.
Qed.
End Paint.

(** ** The painted screen *)

Section Compose.
Context (g : TerminalGeometry) (Hgr : Terminal.rows g ≤ u16_max) (Hgc : cols g ≤ u16_max).

(** What the surfaces of a list show, the later over the earlier. *)
Definition shows (l : list SceneSurface) (row col : Z) : option Cell :=
  fold_left (λ acc s, over (surface_cell s row col) acc) l None.
Definition wraps (l : list SceneSurface) (row : Z) : option bool :=
  fold_left (λ acc s, if spans_columns g s then over (wrapped <$> surface_row s row) acc else acc) l None.

Lemma over_assoc {A} (x y z : option A) : over (over x y) z = over x (over y z).
Proof. by destruct x. Qed.
Lemma shows_over l row col acc :
  fold_left (λ acc s, over (surface_cell s row col) acc) l acc = over (shows l row col) acc.
Proof.
  unfold shows. revert acc. induction l as [|s l IH]; intros acc; [done|]. cbn. rewrite (IH (over _ acc)), (IH (over _ None)).
  rewrite over_assoc. by destruct (surface_cell s row col).
Qed.
Lemma shows_cons s l row col : shows (s :: l) row col = over (shows l row col) (surface_cell s row col).
Proof. unfold shows at 1. cbn. rewrite shows_over. by destruct (surface_cell s row col). Qed.
Lemma wraps_over l row acc :
  fold_left (λ acc s, if spans_columns g s then over (wrapped <$> surface_row s row) acc else acc) l acc = over (wraps l row) acc.
Proof.
  unfold wraps. revert acc. induction l as [|s l IH]; intros acc; [done|]. cbn. destruct (spans_columns g s); [|apply IH].
  rewrite (IH (over _ acc)), (IH (over _ None)), over_assoc. by destruct (surface_row s row).
Qed.

Definition inside (i j : nat) : Prop := (i < N.to_nat (Terminal.rows g))%nat ∧ (j < N.to_nat (cols g))%nat.

Lemma blit_surface_spec s t : surface_ok s → grid g t →
  ∃ t', blit_surface g t s = Some t' ∧ grid g t' ∧
    (∀ i j, inside i j → cell_at t' i j = over (surface_cell s (Z.of_nat i) (Z.of_nat j)) (cell_at t i j)) ∧
    ∀ i, (i < N.to_nat (Terminal.rows g))%nat →
      wrapped_at t' i = if spans_columns g s then over (wrapped <$> surface_row s (Z.of_nat i)) (wrapped_at t i) else wrapped_at t i.
Proof.
  intros Hs Hg. pose proof Hs as (_ & _ & Hr & Hc & [Hl Hf]). unfold u16_max in *.
  destruct (blit_rows_spec g Hgr Hgc s (rows (snapshot s)) 0 t) as (t' & Ht & Hg' & Hspec); [done| |lia|rewrite Hl; lia|done|].
  { eapply Forall_impl; [exact Hf|]. cbn. intros r Hlen. rewrite Hlen. lia. }
  exists t'. split_and!; [done|done| |].
  - intros i j [Hi Hj]. destruct (Hspec i Hi) as [_ H]. rewrite H by done. unfold surface_cell, surface_row. by rewrite Z.sub_0_r.
  - intros i Hi. destruct (Hspec i Hi) as [H _]. unfold surface_row. by rewrite H, Z.sub_0_r.
Qed.

Lemma blit_surfaces_spec l t : Forall surface_ok l → grid g t →
  ∃ t', blit_surfaces g l t = Some t' ∧ grid g t' ∧
    (∀ i j, inside i j → cell_at t' i j = over (shows l (Z.of_nat i) (Z.of_nat j)) (cell_at t i j)) ∧
    ∀ i, (i < N.to_nat (Terminal.rows g))%nat → wrapped_at t' i = over (wraps l (Z.of_nat i)) (wrapped_at t i).
Proof.
  intros Hl. revert t. induction Hl as [|s l Hs _ IH]; intros t Hg; cbn [blit_surfaces]; [by exists t|].
  destruct (blit_surface_spec s t Hs Hg) as (t1 & -> & Hg1 & Hc1 & Hw1). cbn [mbind option_bind].
  destruct (IH t1 Hg1) as (t' & -> & Hg' & Hc & Hw). exists t'. split_and!; [done|done| |].
  - intros i j Hij. by rewrite Hc, Hc1, shows_cons, over_assoc.
  - intros i Hi. rewrite Hw, Hw1 by done. unfold wraps at 2. cbn [fold_left]. rewrite wraps_over.
    destruct (spans_columns g s); [|by destruct (wraps l (Z.of_nat i))]. rewrite over_assoc. by destruct (surface_row s (Z.of_nat i)).
Qed.

Lemma blank_grid : grid g (blank_rows g) ∧ (∀ i j, inside i j → cell_at (blank_rows g) i j = Some default_cell) ∧
  ∀ i, (i < N.to_nat (Terminal.rows g))%nat → wrapped_at (blank_rows g) i = Some false.
Proof.
  unfold blank_rows. split_and!.
  - split; [apply length_replicate|]. apply Forall_replicate. cbn. apply length_replicate.
  - intros i j [Hi Hj]. unfold cell_at. rewrite lookup_replicate_2 by done. cbn. by apply lookup_replicate_2.
  - intros i Hi. unfold wrapped_at. by rewrite lookup_replicate_2.
Qed.

(** The rows of a surface that covers the screen are what painting it gives. *)
Lemma covering_rows s : surface_ok s → covers_scene g s = true →
  grid g (rows (snapshot s)) ∧
  (∀ i j, inside i j → cell_at (rows (snapshot s)) i j = over (surface_cell s (Z.of_nat i) (Z.of_nat j)) (Some default_cell)) ∧
  ∀ i, (i < N.to_nat (Terminal.rows g))%nat → wrapped_at (rows (snapshot s)) i =
    over (if spans_columns g s then wrapped <$> surface_row s (Z.of_nat i) else None) (Some false).
Proof.
  intros (_ & _ & _ & _ & Hg) Hc. unfold covers_scene in Hc.
  apply andb_true_iff in Hc as [[Ho Hgeo]%andb_true_iff _]. apply bool_decide_eq_true in Ho, Hgeo. rewrite Hgeo in Hg.
  assert (∀ i, surface_row s (Z.of_nat i) = rows (snapshot s) !! i) as Hrow.
  { intros i. unfold surface_row, lookup_z. rewrite Ho. cbn. rewrite Z.sub_0_r, Nat2Z.id. by destruct (Z.ltb_spec (Z.of_nat i) 0); [lia|]. }
  split_and!; [done| |].
  - intros i j [Hi Hj]. destruct (grid_lookup g _ i Hg Hi) as (r & E & Hl). unfold cell_at, surface_cell. rewrite Hrow, E. cbn.
    unfold lookup_z. rewrite Ho. cbn. rewrite Z.sub_0_r, Nat2Z.id. destruct (Z.ltb_spec (Z.of_nat j) 0); [lia|].
    destruct (lookup_lt_is_Some_2 (cells r) j) as [c Hcell]; [lia|]. by rewrite Hcell.
  - intros i Hi. destruct (grid_lookup g _ i Hg Hi) as (r & E & Hl). unfold wrapped_at. rewrite Hrow, E. cbn.
    assert (spans_columns g s = true) as ->; [|done]. unfold spans_columns. rewrite Ho, Hgeo. cbn.
    unfold i32_add, i32_saturate, i32_min, i32_max, u16_max in *. lia.
Qed.
End Compose.

Definition scene_ok (scene : Scene) : Prop :=
  Terminal.rows (scene_geometry scene) ≤ u16_max ∧ cols (scene_geometry scene) ≤ u16_max ∧
  Forall surface_ok (scene_panes scene) ∧ Forall (λ o, surface_ok (overlay_surface o)) (scene_overlays scene).

(** The surfaces in the order in which they are painted. *)
Definition painted (scene : Scene) : list SceneSurface :=
  scene_panes scene ++ ((λ o, overlay_surface o.2) <$> sorted_overlays scene).

Lemma enumerate_lookup {A} (l : list A) i x : (i, x) ∈ enumerate l ↔ l !! i = Some x.
Proof.
  unfold enumerate. rewrite list_elem_of_lookup. split.
  - intros [k Hk]. apply lookup_zip_Some in Hk as [Hk1 Hk2]. apply lookup_seq in Hk1 as [-> _]. done.
  - intros Hx. exists i. apply lookup_zip_Some. split; [|done]. apply lookup_seq_lt. by apply lookup_lt_Some in Hx.
Qed.
Lemma sorted_overlays_elem scene i o : (i, o) ∈ sorted_overlays scene ↔ scene_overlays scene !! i = Some o.
Proof. unfold sorted_overlays. rewrite (merge_sort_Permutation below). apply enumerate_lookup. Qed.

Lemma sorted_overlays_ok scene : scene_ok scene → Forall surface_ok ((λ o, overlay_surface o.2) <$> sorted_overlays scene).
Proof.
  intros (_ & _ & _ & Ho). rewrite Forall_fmap. apply Forall_forall. intros [i o] Hin%sorted_overlays_elem. exact (Forall_lookup_1 _ _ _ _ Ho Hin).
Qed.

Lemma composed_rows_spec scene : scene_ok scene →
  let g := scene_geometry scene in
  ∃ t, composed_rows scene = Some t ∧ grid g t ∧
    (∀ i j, inside g i j → cell_at t i j = over (shows (painted scene) (Z.of_nat i) (Z.of_nat j)) (Some default_cell)) ∧
    ∀ i, (i < N.to_nat (Terminal.rows g))%nat → wrapped_at t i = over (wraps g (painted scene) (Z.of_nat i)) (Some false).
Proof.
  intros Hok g. pose proof Hok as (Hr & Hc & Hp & _). fold g in Hr, Hc. destruct (blank_grid g) as (Hgb & Hcb & Hwb).
  assert (∃ t, match scene_panes scene with
    | [] => Some (blank_rows g)
    | first :: panes =>
        target ← (if covers_scene g first then Some (rows (snapshot first)) else blit_surface g (blank_rows g) first);
        blit_surfaces g panes target
    end = Some t ∧ grid g t ∧
    (∀ i j, inside g i j → cell_at t i j = over (shows (scene_panes scene) (Z.of_nat i) (Z.of_nat j)) (Some default_cell)) ∧
    ∀ i, (i < N.to_nat (Terminal.rows g))%nat → wrapped_at t i = over (wraps g (scene_panes scene) (Z.of_nat i)) (Some false)) as (t1 & E1 & Hg1 & Hc1 & Hw1).
  { destruct (scene_panes scene) as [|first panes]; [by exists (blank_rows g)|]. apply Forall_cons in Hp as [Hf Hp].
    assert (∃ t, (if covers_scene g first then Some (rows (snapshot first)) else blit_surface g (blank_rows g) first) = Some t ∧ grid g t ∧
      (∀ i j, inside g i j → cell_at t i j = over (surface_cell first (Z.of_nat i) (Z.of_nat j)) (Some default_cell)) ∧
      ∀ i, (i < N.to_nat (Terminal.rows g))%nat → wrapped_at t i = over (if spans_columns g first then wrapped <$> surface_row first (Z.of_nat i) else None) (Some false)) as (t0 & -> & Hg0 & Hc0 & Hw0).
    { destruct (covers_scene g first) eqn:E; [eexists; split; [done|]; by apply covering_rows|].
      destruct (blit_surface_spec g Hr Hc first _ Hf Hgb) as (t0 & -> & Hg0 & Hc0 & Hw0). exists t0. split_and!; [done|done| |].
      - intros i j Hij. by rewrite Hc0, Hcb.
      - intros i Hi. rewrite Hw0, Hwb by done. by destruct (spans_columns g first). }
    cbn [mbind option_bind]. destruct (blit_surfaces_spec g Hr Hc panes t0 Hp Hg0) as (t1 & -> & Hg1 & Hc1 & Hw1).
    exists t1. split_and!; [done|done| |].
    - intros i j Hij. by rewrite Hc1, Hc0, shows_cons, over_assoc.
    - intros i Hi. rewrite Hw1, Hw0 by done. unfold wraps at 2. cbn [fold_left]. rewrite wraps_over, over_assoc.
      destruct (spans_columns g first); [by destruct (surface_row first (Z.of_nat i))|done]. }
  unfold composed_rows. fold g. rewrite E1. cbn [mbind option_bind].
  destruct (blit_surfaces_spec g Hr Hc _ t1 (sorted_overlays_ok scene Hok) Hg1) as (t & -> & Hg' & Hct & Hwt).
  exists t. split_and!; [done|done| |].
  - intros i j Hij. rewrite Hct, Hc1 by done. unfold painted, shows at 3. rewrite fold_left_app, shows_over. fold (shows (scene_panes scene) (Z.of_nat i) (Z.of_nat j)). by rewrite over_assoc.
  - intros i Hi. rewrite Hwt, Hw1 by done. unfold painted, wraps at 3. rewrite fold_left_app, wraps_over. fold (wraps g (scene_panes scene) (Z.of_nat i)). by rewrite over_assoc.
Qed.

(** ** The topmost surface *)

#[local] Instance below_trans : Transitive below.
Proof. intros a b c. unfold below. lia. Qed.
#[local] Instance below_total : Total below.
Proof. intros a b. unfold below. lia. Qed.

Lemma shows_last l row col :
  match shows l row col with
  | Some x => ∃ l1 s l2, l = l1 ++ s :: l2 ∧ surface_cell s row col = Some x ∧ Forall (λ s, surface_cell s row col = None) l2
  | None => Forall (λ s, surface_cell s row col = None) l
  end.
Proof.
  induction l as [|s l IH]; [constructor|]. rewrite shows_cons. destruct (shows l row col) as [x|]; cbn [over].
  - destruct IH as (l1 & s' & l2 & -> & H1 & H2). by exists (s :: l1), s', l2.
  - destruct (surface_cell s row col) as [x|] eqn:E; [by exists [], s, l|by constructor].
Qed.
Lemma shows_app l1 l2 row col : shows (l1 ++ l2) row col = over (shows l2 row col) (shows l1 row col).
Proof. unfold shows at 1. by rewrite fold_left_app, shows_over. Qed.

Lemma topmost_overlay scene row col x :
  shows ((λ o, overlay_surface o.2) <$> sorted_overlays scene) row col = Some x →
  ∃ k o, scene_overlays scene !! k = Some o ∧ surface_cell (overlay_surface o) row col = Some x ∧
    ∀ k' o', scene_overlays scene !! k' = Some o' → surface_cell (overlay_surface o') row col ≠ None → below (k', o') (k, o).
Proof.
  intros Hs. pose proof (shows_last ((λ o, overlay_surface o.2) <$> sorted_overlays scene) row col) as H. rewrite Hs in H.
  destruct H as (l1 & s & l2 & Hl & Hx & H2). apply fmap_app_inv in Hl as (m1 & m2 & -> & Hl2 & Hm). symmetry in Hl2.
  destruct m2 as [|[k o] m2]; [done|]. injection Hl2 as <- <-. exists k, o. split_and!; [|done|].
  - apply sorted_overlays_elem. rewrite Hm. set_solver.
  - intros k' o' Ho' Hne. apply sorted_overlays_elem in Ho'. rewrite Hm in Ho'.
    assert (StronglySorted below (m1 ++ (k, o) :: m2)) as Hsort by (rewrite <-Hm; apply (StronglySorted_merge_sort below)).
    apply elem_of_app in Ho' as [Hin|[[= -> ->]|Hin]%elem_of_cons].
    + eapply StronglySorted_app_1_elem_of; [exact Hsort|exact Hin|by left].
    + right. done.
    + rewrite Forall_fmap, Forall_forall in H2. by destruct (Hne (H2 _ Hin)).
Qed.

Lemma topmost_pane l row col x : shows l row col = Some x →
  ∃ k s, l !! k = Some s ∧ surface_cell s row col = Some x ∧
    ∀ k' s', (k < k')%nat → l !! k' = Some s' → surface_cell s' row col = None.
Proof.
  intros Hs. pose proof (shows_last l row col) as H. rewrite Hs in H. destruct H as (l1 & s & l2 & -> & Hx & H2).
  exists (length l1), s. split_and!; [by apply list_lookup_middle|done|]. intros k' s' Hk Hl.
  rewrite lookup_app_r in Hl by lia. replace (k' - length l1)%nat with (S (k' - length l1 - 1)) in Hl by lia.
  by eapply Forall_lookup in H2.
Qed.

(** The composed screen shows at every position the topmost surface that has a
    cell there: of the overlays that do the highest, of those of one height the
    last; without an overlay the last pane; and a blank where there is none.
    Composing never writes out of range, and the rows are those of the screen.
    Lines are continued as in the last surface over the whole width of the row. *)
Theorem composed_screen_shows_the_topmost scene :
  scene_ok scene →
  let g := scene_geometry scene in
  ∃ t, composed_rows scene = Some t ∧ grid g t ∧
    (∀ i j, inside g i j → ∃ x, cell_at t i j = Some x ∧
      let at_cell s := surface_cell s (Z.of_nat i) (Z.of_nat j) in
      ((∃ k o, scene_overlays scene !! k = Some o ∧ at_cell (overlay_surface o) = Some x ∧
          ∀ k' o', scene_overlays scene !! k' = Some o' → at_cell (overlay_surface o') ≠ None → below (k', o') (k, o)) ∨
       Forall (λ o, at_cell (overlay_surface o) = None) (scene_overlays scene) ∧
       ((∃ k s, scene_panes scene !! k = Some s ∧ at_cell s = Some x ∧
           ∀ k' s', (k < k')%nat → scene_panes scene !! k' = Some s' → at_cell s' = None) ∨
        Forall (λ s, at_cell s = None) (scene_panes scene) ∧ x = default_cell))) ∧
    ∀ i, (i < N.to_nat (Terminal.rows g))%nat → wrapped_at t i = over (wraps g (painted scene) (Z.of_nat i)) (Some false).
Proof.
  intros Hok g. destruct (composed_rows_spec scene Hok) as (t & Ht & Hg & Hc & Hw). fold g in Hg, Hc, Hw.
  exists t. split_and!; [done|done| |done]. intros i j Hij. rewrite Hc by done. unfold painted. rewrite shows_app.
  destruct (shows ((λ o, overlay_surface o.2) <$> sorted_overlays scene) _ _) as [x|] eqn:E.
  { exists x. split; [done|]. left. by apply topmost_overlay. }
  pose proof (shows_last ((λ o, overlay_surface o.2) <$> sorted_overlays scene) (Z.of_nat i) (Z.of_nat j)) as Hn. rewrite E in Hn.
  cbn [over]. assert (Forall (λ o, surface_cell (overlay_surface o) (Z.of_nat i) (Z.of_nat j) = None) (scene_overlays scene)) as Hov.
  { rewrite Forall_fmap, Forall_forall in Hn. apply Forall_lookup. intros k o Ho%sorted_overlays_elem. apply (Hn _ Ho). }
  pose proof (shows_last (scene_panes scene) (Z.of_nat i) (Z.of_nat j)) as Hp.
  destruct (shows (scene_panes scene) (Z.of_nat i) (Z.of_nat j)) as [x|] eqn:Ep; cbn [over]; eexists; (split; [done|right; split; [done|]]).
  - left. by apply topmost_pane.
  - by right.
Qed.

(** * Identifiers are distinct *)

Definition id_ok (id : N) : Prop := 1 ≤ id ≤ u32_max.

Lemma next_id_value id : id_ok id → next_id id = if id =? u32_max then 1 else id + 1.
Proof.
  unfold id_ok, next_id, wrapping_add, u32_max. intros Hid. case_cmp; [subst id; vm_compute; done|].
  rewrite N.mod_small by lia. lia.
Qed.

(** The [k]-th identifier tried from [id]: they go around once. *)
Definition tried (id : N) (k : nat) : N := if id + N.of_nat k <=? u32_max then id + N.of_nat k else id + N.of_nat k - u32_max.

Lemma tried_ok id k : id_ok id → N.of_nat k < u32_max → id_ok (tried id k).
Proof. unfold tried, id_ok, u32_max. intros. case_cmp; lia. Qed.
Lemma tried_next id k : id_ok id → N.of_nat (S k) < u32_max → next_id (tried id k) = tried id (S k).
Proof.
  intros Hid Hk. rewrite next_id_value by (apply tried_ok; [done|lia]). unfold tried, id_ok, u32_max in *. repeat case_cmp; lia.
Qed.
Lemma tried_inj id k k' : id_ok id → N.of_nat k < u32_max → N.of_nat k' < u32_max → tried id k = tried id k' → k = k'.
Proof. unfold tried, id_ok, u32_max. intros ? ? ?. repeat case_cmp; lia. Qed.

Lemma search_id_tried fuel id k used : id_ok id → N.of_nat (k + fuel) ≤ u32_max →
  match search_id fuel (tried id k) used with
  | Some x => x ∉ used ∧ id_ok x
  | None => ∀ i, (k ≤ i < k + fuel)%nat → tried id i ∈ used
  end.
Proof.
  revert k. induction fuel as [|fuel IH]; intros k Hid Hk; cbn [search_id]; [intros i; lia|].
  case_bool_decide as Hin; [|split; [done|by apply tried_ok; [done|lia]]].
  destruct fuel as [|fuel'].
  { cbn. intros i Hi. by assert (i = k) as -> by lia. }
  rewrite tried_next by (done || lia). specialize (IH (S k) Hid ltac:(lia)).
  destruct (search_id (S fuel') (tried id (S k)) used); [done|]. intros i Hi.
  destruct (decide (i = k)) as [->|]; [done|]. apply IH. lia.
Qed.

(** An identifier is found while fewer are in use than there are. *)
Lemma search_id_found id used : id_ok id → N.of_nat (base.size used) < u32_max →
  ∃ x, search_id (S (base.size used)) id used = Some x ∧ x ∉ used ∧ id_ok x.
Proof.
  intros Hid Hsize. pose proof (search_id_tried (S (base.size used)) id 0 used Hid ltac:(lia)) as H.
  assert (tried id 0 = id) as E by (unfold tried, id_ok in *; case_cmp; lia). rewrite E in H.
  destruct (search_id _ id used) as [x|]; [by exists x|]. exfalso.
  assert (NoDup (tried id <$> seq 0 (S (base.size used)))) as Hnd.
  { apply NoDup_fmap_2_strong; [|apply NoDup_seq]. intros a b Ha%elem_of_seq Hb%elem_of_seq. apply tried_inj; [done|lia..]. }
  assert (base.size (list_to_set (C := gset N) (tried id <$> seq 0 (S (base.size used)))) ≤ base.size used)%nat as Hle.
  { apply subseteq_size. intros x. rewrite elem_of_list_to_set, list_elem_of_fmap. intros (i & -> & Hi%elem_of_seq). apply H. lia. }
  rewrite size_list_to_set, length_fmap, length_seq in Hle by done. lia.
Qed.

Lemma allocate_spec seed used : N.of_nat (base.size used) < u32_max →
  ∃ id, allocate_outer_id seed used = Some (id, {[ id ]} ∪ used) ∧ id ∉ used ∧ id_ok id ∧
    base.size ({[ id ]} ∪ used) = S (base.size used).
Proof.
  intros Hsize. unfold allocate_outer_id.
  destruct (search_id_found (N.max (seed mod 2 ^ 32) 1) used) as (id & -> & Hin & Hid); [|done|].
  { unfold id_ok, u32_max. pose proof (N.mod_lt seed (2 ^ 32) ltac:(done)). lia. }
  exists id. split_and!; [done|done|done|]. rewrite size_union, size_singleton; [done|]. set_solver.
Qed.

Lemma assign_ids_spec keys used : N.of_nat (base.size used) + len keys ≤ u32_max →
  ∃ ids, assign_ids keys used = Some ids ∧ ids.*1 = keys ∧ NoDup ids.*2 ∧ Forall (λ id, id ∉ used ∧ id_ok id) ids.*2.
Proof.
  revert used. induction keys as [|k keys IH]; intros used Hle; cbn [assign_ids].
  { exists []. split_and!; [done|done|constructor|constructor]. }
  cbn [length] in Hle. destruct (allocate_spec (stable_namespace_seed k.1.1 k.1.2 k.2 IMAGE_TAG) used) as (id & -> & Hin & Hid & Hs); [lia|].
  cbn [mbind option_bind]. destruct (IH ({[ id ]} ∪ used)) as (ids & -> & H1 & H2 & H3); [rewrite Hs; lia|].
  cbn [mbind option_bind]. exists ((k, id) :: ids). cbn. rewrite Forall_forall in H3. split_and!.
  - done.
  - by rewrite <-H1.
  - constructor; [|done]. intros Hi. apply H3 in Hi. set_solver.
  - constructor; [done|]. apply Forall_forall. intros x Hx. destruct (H3 x Hx). set_solver.
Qed.

(** * What is left of the images *)

Lemma count_at_app l1 l2 row col : count_at (l1 ++ l2) row col = (count_at l1 row col + count_at l2 row col)%nat.
Proof. unfold count_at. by rewrite List.filter_app, length_app. Qed.

Lemma subtract_all fs r : Forall (λ f, rect_ok (grid_rect f)) fs → rect_ok r →
  Forall (λ f, rect_ok (grid_rect f)) (mjoin ((λ f, subtract_image_placement f r) <$> fs)) ∧
  ∀ row col, count_at (mjoin ((λ f, subtract_image_placement f r) <$> fs)) row col =
    if in_rect r row col then 0%nat else count_at fs row col.
Proof.
  intros Hfs Hr. induction Hfs as [|f fs Hf _ [IH1 IH2]]; [split; [constructor|intros row col; by destruct (in_rect r row col)]|].
  rewrite fmap_cons, join_cons. destruct (subtract_spec f r Hf Hr) as [H1 H2]. split.
  - apply Forall_app. split; [|done]. eapply Forall_impl; [exact H1|]. by intros ? [].
  - intros row col. rewrite count_at_app, H2, IH2. unfold count_at at 2. cbn [List.filter].
    destruct (in_rect r row col); cbn; [by rewrite andb_false_r|]. rewrite andb_true_r. by destruct (covers f row col).
Qed.

Lemma cut_fragments_spec above fs : Forall (λ f, rect_ok (grid_rect f)) fs → Forall rect_ok above →
  Forall (λ f, rect_ok (grid_rect f)) (cut_fragments fs above) ∧
  ∀ row col, count_at (cut_fragments fs above) row col = if existsb (λ r, in_rect r row col) above then 0%nat else count_at fs row col.
Proof.
  intros Hfs Ha. revert fs Hfs. induction Ha as [|r above Hr _ IH]; intros fs Hfs; [done|]. cbn [cut_fragments existsb].
  destruct (subtract_all fs r Hfs Hr) as [H1 H2]. case_bool_decide as He.
  - split; [constructor|]. intros row col. specialize (H2 row col). rewrite He in H2. unfold count_at in *. cbn in *.
    destruct (in_rect r row col); [done|]. cbn. by destruct (existsb _ above).
  - destruct (IH _ H1) as [IH1 IH2]. split; [done|]. intros row col. rewrite IH2, H2.
    destruct (in_rect r row col); cbn; [by destruct (existsb _ above)|done].
Qed.

(** What of a placement is visible: the part of it that is on the screen and
    that no rectangle above it contains. *)
Definition visible_at (scene : Scene) (p : SceneImagePlacement) (row col : Z) : bool :=
  image_visible (placement_image p) && (covers (placement_image p) row col && in_rect (bounds_of (scene_geometry scene)) row col) &&
  negb (existsb (λ r, in_rect r row col) (rects_above scene (placement_owner p))).

Definition media_ok (scene : Scene) : Prop :=
  Terminal.rows (scene_geometry scene) ≤ u16_max ∧ cols (scene_geometry scene) ≤ u16_max ∧
  Forall (λ o, rect_ok (overlay_rect o)) (scene_overlays scene) ∧
  Forall (λ p, rect_ok (grid_rect (placement_image p))) (scene_images scene).

Lemma rects_above_ok scene owner : media_ok scene → Forall rect_ok (rects_above scene owner).
Proof.
  intros (_ & _ & Ho & _). unfold rects_above. rewrite Forall_fmap.
  assert (Forall (λ o, rect_ok (overlay_rect o)) (sorted_overlays scene).*2) as H.
  { rewrite Forall_fmap. apply Forall_forall. intros [i o] Hin%sorted_overlays_elem. exact (Forall_lookup_1 _ _ _ _ Ho Hin). }
  destruct (list_find _ _) as [[i o]|]; [by apply Forall_drop|done].
Qed.

Lemma bounds_ok (g : TerminalGeometry) : Terminal.rows g ≤ u16_max → cols g ≤ u16_max → rect_ok (bounds_of g).
Proof. unfold rect_ok, i32_min, i32_max, u16_max. cbn. lia. Qed.

Lemma fragments_spec scene p : media_ok scene → rect_ok (grid_rect (placement_image p)) →
  ∀ row col, count_at (fragments_of scene p) row col = indicator (visible_at scene p row col).
Proof.
  intros Hok Hp row col. pose proof Hok as (Hr & Hc & _). pose proof (clip_spec _ _ Hp (bounds_ok _ Hr Hc)) as H.
  unfold fragments_of, visible_at. destruct (clip_image_placement _ _) as [image|].
  - destruct H as (H1 & _ & Hsame & H2). destruct Hsame as (_ & _ & _ & _ & _ & _ & _ & _ & _ & _ & ->).
    destruct (image_visible (placement_image p)); cbn; [|done].
    rewrite (proj2 (cut_fragments_spec _ [image] ltac:(by apply Forall_singleton) (rects_above_ok scene _ Hok))).
    unfold count_at. cbn. rewrite H2. destruct (existsb _ _); cbn; [by rewrite andb_false_r|]. rewrite andb_true_r.
    by destruct (_ && _).
  - rewrite H. by rewrite andb_false_r.
Qed.

(** * Names of the fragments *)

(** A named fragment shows what the fragment shows. *)
Definition names (p : SceneImagePlacement) (outer : N) (f : PresentedImage) (n : ComposedImage) : Prop :=
  composed_owner n = placement_owner p ∧ source_image n = image_id (placement_image p) ∧
  image_id (composed_image n) = outer ∧ grid_rect (composed_image n) = grid_rect f ∧ z_index (composed_image n) = z_index f ∧
  source_x (composed_image n) = source_x f ∧ source_y (composed_image n) = source_y f ∧
  source_width (composed_image n) = source_width f ∧ source_height (composed_image n) = source_height f.

Definition placement_ids (l : list ComposedImage) : list N := (λ n, placement_id (composed_image n)) <$> l.

Lemma dressed_names g upload p outer id f :
  names p outer f {| composed_owner := placement_owner p; source_image := image_id (placement_image p);
    composed_image := ((dressed g upload f) <| image_id := outer |>) <| placement_id := id |> |} .
Proof.
  unfold dressed, names. destruct f, upload; cbn -[sat_mul];
    repeat match goal with |- context [if ?b then _ else _] => destruct b end; by split_and!.
Qed.

Lemma name_fragments_spec scene p outer fs used : N.of_nat (base.size used) + len fs ≤ u32_max →
  ∃ named used', name_fragments scene p outer fs used = Some (named, used') ∧ Forall2 (names p outer) fs named ∧
    NoDup (placement_ids named) ∧ Forall (λ id, id ∉ used ∧ id_ok id) (placement_ids named) ∧
    (∀ x, x ∈ used' ↔ x ∈ used ∨ x ∈ placement_ids named) ∧ base.size used' = (base.size used + length fs)%nat.
Proof.
  revert used. induction fs as [|f fs IH]; intros used Hle; cbn [name_fragments].
  { exists [], used. split_and!; [done|constructor|constructor|constructor| |cbn; lia]. intros x. cbn. set_solver. }
  cbn [length] in Hle. set (upload := find_upload scene (placement_owner p) (image_id (placement_image p))).
  set (f' := (dressed (scene_geometry scene) upload f) <| image_id := outer |>).
  destruct (allocate_spec (stable_namespace_seed (placement_owner p) (placement_id (placement_image p)) (placement_fragment_digest f') PLACE_TAG) used)
    as (id & -> & Hin & Hid & Hs); [lia|].
  cbn [mbind option_bind]. destruct (IH ({[ id ]} ∪ used)) as (named & used' & -> & H1 & H2 & H3 & H4 & H5); [rewrite Hs; lia|].
  cbn [mbind option_bind]. eexists _, used'. split; [done|]. rewrite Forall_forall in H3.
  unfold placement_ids. rewrite !fmap_cons. fold (placement_ids named).
  pose proof (dressed_names (scene_geometry scene) upload p outer id f) as Hn. fold f' in Hn.
  assert (placement_id (f' <| placement_id := id |>) = id) as Eid by by destruct f'.
  cbn [composed_image]. rewrite Eid. split_and!.
  - by constructor.
  - constructor; [|done]. intros Hi. destruct (H3 _ Hi). set_solver.
  - constructor; [done|]. apply Forall_forall. intros x Hx. destruct (H3 _ Hx). set_solver.
  - intros x. rewrite H4, elem_of_cons. set_solver.
  - rewrite H5, Hs. cbn. lia.
Qed.

(** ** All placements *)

Definition fragment_count (scene : Scene) (l : list SceneImagePlacement) : N := foldr (λ p n, len (fragments_of scene p) + n) 0 l.

(** What of the composed images is [p]'s: its named fragments, under the
    identifier of its image. *)
Definition part_of (scene : Scene) (ids : list (image_key * N)) (p : SceneImagePlacement) (part : list ComposedImage) : Prop :=
  part = [] ∧ fragments_of scene p = [] ∨
  ∃ outer, id_of ids (placement_key scene p) = Some outer ∧ Forall2 (names p outer) (fragments_of scene p) part.

Lemma compose_placements_spec scene ids l used :
  (∀ p, p ∈ l → is_Some (id_of ids (placement_key scene p))) → N.of_nat (base.size used) + fragment_count scene l ≤ u32_max →
  ∃ parts, compose_placements scene ids l used = Some (mjoin parts) ∧ Forall2 (part_of scene ids) l parts ∧
    NoDup (placement_ids (mjoin parts)) ∧ Forall (λ id, id ∉ used ∧ id_ok id) (placement_ids (mjoin parts)).
Proof.
  revert used. induction l as [|p l IH]; intros used Hids Hle; cbn [compose_placements].
  { exists []. split_and!; [done|constructor|constructor|constructor]. }
  cbn [fragment_count foldr] in Hle. fold (fragment_count scene l) in Hle.
  assert (∀ q, q ∈ l → is_Some (id_of ids (placement_key scene q))) as Hids' by (intros q Hq; apply Hids; by right).
  assert (fragments_of scene p = [] → ∃ parts, compose_placements scene ids l used = Some (mjoin parts) ∧ Forall2 (part_of scene ids) (p :: l) parts ∧
    NoDup (placement_ids (mjoin parts)) ∧ Forall (λ id, id ∉ used ∧ id_ok id) (placement_ids (mjoin parts))) as Hskip.
  { intros He. destruct (IH used Hids') as (parts & Hc & H1 & H2 & H3); [lia|]. exists ([] :: parts). rewrite join_cons. cbn [app].
    split_and!; [done| |done|done]. constructor; [by left|done]. }
  unfold fragments_of in Hle at 1, Hskip at 1. destruct (clip_image_placement _ _) as [image|] eqn:Eclip; [|by apply Hskip].
  destruct (image_visible image) eqn:Evis; cbn [negb]; [|by apply Hskip]. clear Hskip.
  destruct (Hids p) as [outer Houter]; [by left|]. rewrite Houter. cbn [mbind option_bind].
  destruct (name_fragments_spec scene p outer (cut_fragments [image] (rects_above scene (placement_owner p))) used)
    as (named & used' & -> & H1 & H2 & H3 & H4 & H5); [lia|].
  cbn [mbind option_bind]. destruct (IH used' Hids') as (parts & -> & G1 & G2 & G3); [rewrite H5; lia|].
  cbn [mbind option_bind]. exists (named :: parts). rewrite join_cons. unfold placement_ids in *. rewrite fmap_app.
  rewrite Forall_forall in G3. split_and!.
  - done.
  - constructor; [|done]. right. exists outer. split; [done|]. unfold fragments_of. by rewrite Eclip, Evis.
  - apply NoDup_app. split_and!; [done| |done]. intros x Hx Hx'. destruct (G3 _ Hx') as [Hn _]. apply Hn, H4. by right.
  - apply Forall_app. split; [done|]. apply Forall_forall. intros x Hx. destruct (G3 _ Hx) as [Hn Hi]. split; [|done].
    intros Hu. apply Hn, H4. by left.
Qed.

Lemma names_count p outer fs named row col : Forall2 (names p outer) fs named →
  count_at (composed_image <$> named) row col = count_at fs row col.
Proof.
  unfold count_at. induction 1 as [|f n fs named (_ & _ & _ & Hr & _) _ IH]; [done|]. rewrite fmap_cons. cbn [List.filter].
  unfold covers in *. rewrite Hr. destruct (in_rect _ _ _); cbn [length]; [by rewrite IH|done].
Qed.

(** ** The identifiers of the images *)

Lemma image_keys_spec scene k : k ∈ image_keys scene ↔
  (∃ u, u ∈ scene_uploads scene ∧ k = upload_key u) ∨ ∃ p, p ∈ scene_images scene ∧ k = placement_key scene p.
Proof.
  unfold image_keys. rewrite (merge_sort_Permutation key_le), elem_of_remove_dups, elem_of_app, !list_elem_of_fmap. naive_solver.
Qed.
Lemma image_keys_NoDup scene : NoDup (image_keys scene).
Proof. unfold image_keys. rewrite (merge_sort_Permutation key_le). apply NoDup_remove_dups. Qed.

Lemma id_of_spec ids k id : NoDup ids.*1 → id_of ids k = Some id ↔ (k, id) ∈ ids.
Proof.
  intros Hnd. unfold id_of. split.
  - intros ([i [k' id']] & H & ->)%fmap_Some. apply list_find_Some in H as (Hl & Hk & _). cbn in *. subst k'.
    by eapply list_elem_of_lookup_2.
  - intros Hin. destruct (list_find_elem_of (λ e, e.1 = k) ids (k, id) Hin eq_refl) as [[i [k' id']] Hf]. rewrite Hf. cbn. f_equal.
    apply list_find_Some in Hf as (Hl & Hk & _). cbn in Hk. subst k'. apply list_elem_of_lookup in Hin as [j Hj].
    assert (i = j) as ->; [|congruence]. eapply NoDup_lookup; [exact Hnd| |]; rewrite list_lookup_fmap; [by rewrite Hl|by rewrite Hj].
Qed.

Lemma outer_ids_spec scene : len (image_keys scene) ≤ u32_max →
  ∃ ids, outer_image_ids scene = Some ids ∧ (∀ k, is_Some (id_of ids k) ↔ k ∈ image_keys scene) ∧
    (∀ k id, id_of ids k = Some id → id_ok id) ∧
    ∀ k k' id, id_of ids k = Some id → id_of ids k' = Some id → k = k'.
Proof.
  intros Hle. unfold outer_image_ids. destruct (assign_ids_spec (image_keys scene) ∅) as (ids & -> & H1 & H2 & H3).
  { rewrite size_empty. lia. }
  assert (NoDup ids.*1) as Hnd by (rewrite H1; apply image_keys_NoDup).
  exists ids. split_and!; [done| | |].
  - intros k. rewrite <-H1, list_elem_of_fmap. split.
    + intros [id Hid%id_of_spec]; [|done]. by exists (k, id).
    + intros ([k' id] & -> & Hin). exists id. by apply id_of_spec.
  - intros k id Hid%id_of_spec; [|done]. rewrite Forall_fmap, Forall_forall in H3. by apply (H3 _ Hid).
  - intros k k' id Hk%id_of_spec Hk'%id_of_spec; [|done..]. apply list_elem_of_lookup in Hk as [i Hi], Hk' as [j Hj].
    assert (i = j) as ->; [|congruence]. eapply NoDup_lookup; [exact H2| |]; rewrite list_lookup_fmap; [by rewrite Hi|by rewrite Hj].
Qed.

Lemma image_records_exist scene :
  media_ok scene → len (image_keys scene) ≤ u32_max → fragment_count scene (scene_images scene) ≤ u32_max →
  ∃ ids records, outer_image_ids scene = Some ids ∧ compose_image_records scene = Some records.
Proof.
  intros Hok Hkeys Hfrag. destruct (outer_ids_spec scene Hkeys) as (ids & Hids & Hdom & _).
  destruct (compose_placements_spec scene ids (scene_images scene) ∅) as (parts & Hc & _).
  { intros p Hp. apply Hdom, image_keys_spec. right. by exists p. }
  { rewrite size_empty. lia. }
  exists ids. unfold compose_image_records. rewrite Hids. cbn [mbind option_bind]. rewrite Hc. by eexists.
Qed.

(** The composed screen shows of every placed image the part of it that is on
    the screen and that no overlay above it covers, and nothing else: it is
    divided into pieces that do not overlap, each with an identifier of its
    own.  Two pieces are of the same outer image exactly if they are of the same
    image of the same owner with the same pixels.  The search for identifiers
    ends, and no image is without one. *)
Theorem images_show_what_nothing_covers scene :
  media_ok scene → len (image_keys scene) ≤ u32_max → fragment_count scene (scene_images scene) ≤ u32_max →
  ∃ ids records parts, outer_image_ids scene = Some ids ∧ compose_image_records scene = Some records ∧
    records ≡ₚ mjoin parts ∧ NoDup (placement_ids records) ∧
    Forall2 (λ p part,
      (∀ row col, count_at (composed_image <$> part) row col = indicator (visible_at scene p row col)) ∧
      Forall (λ n, composed_owner n = placement_owner p ∧ source_image n = image_id (placement_image p) ∧
        id_of ids (placement_key scene p) = Some (image_id (composed_image n))) part) (scene_images scene) parts ∧
    (∀ k k' id, id_of ids k = Some id → id_of ids k' = Some id → k = k').
Proof.
  intros Hok Hkeys Hfrag. destruct (outer_ids_spec scene Hkeys) as (ids & Hids & Hdom & _ & Hinj).
  destruct (compose_placements_spec scene ids (scene_images scene) ∅) as (parts & Hc & Hparts & Hnd & _).
  { intros p Hp. apply Hdom, image_keys_spec. right. by exists p. }
  { rewrite size_empty. lia. }
  exists ids, (merge_sort image_le (mjoin parts)), parts. unfold compose_image_records. rewrite Hids. cbn [mbind option_bind].
  rewrite Hc. cbn [mbind option_bind]. split_and!; [done|done|apply merge_sort_Permutation| | |done].
  - unfold placement_ids. by rewrite (merge_sort_Permutation image_le).
  - pose proof Hok as (_ & _ & _ & Himgs). clear Hc Hnd Hfrag.
    induction Hparts as [|p part l parts Hp _ IH]; [constructor|]. apply Forall_cons in Himgs as [Hi Himgs]. constructor; [|by apply IH].
    destruct Hp as [[-> He]|(outer & Ho & Hf)].
    + split; [|constructor]. intros row col. by rewrite <-fragments_spec, He.
    + split; [intros row col; by rewrite <-fragments_spec, (names_count _ _ _ _ _ _ Hf)|]. rewrite Ho. clear -Hf.
      induction Hf as [|f n fs named (H1 & H2 & H3 & _) _ IH]; constructor; [|done]. by rewrite H3.
Qed.

(** ** The cursor *)

(** The cursor of the composed screen is on the screen whenever it is visible,
    where its owner's cursor is, and visible exactly if its owner's is and is
    within the screen. *)
Theorem cursor_follows_its_owner g s :
  Terminal.rows g ≤ u16_max → cols g ≤ u16_max → i32_ok (point_row (surface_origin s)) → i32_ok (point_col (surface_origin s)) →
  let c := composed_cursor g s in
  let row := (point_row (surface_origin s) + Z.of_N (cursor_row (cursor (snapshot s))))%Z in
  let col := (point_col (surface_origin s) + Z.of_N (cursor_col (cursor (snapshot s))))%Z in
  visible c = visible (cursor (snapshot s)) && in_rect (bounds_of g) row col ∧
  (visible c = true → Z.of_N (cursor_row c) = row ∧ Z.of_N (cursor_col c) = col).
Proof.
  intros Hr Hc Ho1 Ho2 c row col. assert (visible c = visible (cursor (snapshot s)) && in_rect (bounds_of g) row col) as E.
  { unfold c, composed_cursor. cbn [visible]. f_equal. unfold in_rect, bounds_of, rect, point. cbn. subst row col.
    unfold i32_add, i32_saturate, i32_ok, i32_min, i32_max, u16_max in *. lia. }
  split; [done|]. rewrite E. intros [_ Hin]%andb_true_iff. apply in_rect_spec in Hin. cbn in Hin.
  unfold c, composed_cursor. cbn [cursor_row cursor_col]. fold row col.
  assert (i32_add (point_row (surface_origin s)) (Z.of_N (cursor_row (cursor (snapshot s)))) = row) as ->
    by (subst row; unfold i32_add, i32_saturate, i32_ok, i32_min, i32_max, u16_max in *; lia).
  assert (i32_add (point_col (surface_origin s)) (Z.of_N (cursor_col (cursor (snapshot s)))) = col) as ->
    by (subst col; unfold i32_add, i32_saturate, i32_ok, i32_min, i32_max, u16_max in *; lia).
  unfold u16_or_max, u16_max in *. rewrite !u16_try_from_ok by lia. cbn. lia.
Qed.

(** Composition of a scene whose surfaces are what they say succeeds: the rows,
    the images and the cursor are the composed ones, the rest is taken over. *)
Theorem composition_succeeds scene :
  scene_ok scene → media_ok scene → len (image_keys scene) ≤ u32_max → fragment_count scene (scene_images scene) ≤ u32_max →
  ∃ p, compose scene = Some p ∧ composed_rows scene = Some (p_rows p) ∧ compose_images scene = Some (p_images p) ∧
    p_geometry p = scene_geometry scene ∧ p_cursor_owner p = scene_cursor scene ∧
    p_cursor p = match cursor_surface scene with Some s => composed_cursor (scene_geometry scene) s | None => hidden_cursor end ∧
    p_title p = effect_title (scene_effects scene) ∧ p_directory p = effect_directory (scene_effects scene) ∧
    p_bells p = effect_bells (scene_effects scene).
Proof.
  intros Hok Hmedia Hkeys Hfrag. destruct (composed_rows_spec scene Hok) as (t & Ht & _).
  destruct (image_records_exist scene Hmedia Hkeys Hfrag) as (ids & records & Hids & Hrec).
  unfold compose, compose_images, compose_image_uploads. rewrite Ht, Hids, Hrec. cbn [mbind option_bind].
  eexists. split; [done|]. by destruct (cursor_surface scene).
Qed.

(** * Instances *)

Definition letter_row (l : bytes) : Row :=
  {| cells := (λ c, default_cell <| grapheme := [c] |>) <$> l; wrapped := false |}.
Definition text_snapshot (lines : list bytes) (columns : N) : TerminalSnapshot := {|
  rows := letter_row <$> lines; scrollback := []; cursor := default_cursor; geometry := from_cells (len lines) columns;
  screen := PrimaryScreen; modes := default_modes; title := None; working_directory := None; semantic_marks := [];
  history_origin := 0; scrollback_extent := 0; viewport := Live |}.
Definition text_surface (id : N) (row col : Z) (lines : list bytes) (columns : N) : SceneSurface :=
  {| surface_id := id; surface_origin := point row col; snapshot := text_snapshot lines columns |}.

Definition sample_scene : Scene := {|
  scene_geometry := from_cells 2 3;
  scene_panes := [text_surface 1 0 0 [bs "abc"; bs "def"] 3];
  scene_overlays := [{| overlay_surface := text_surface 2 1 1 [bs "XY"] 2; overlay_z := 5 |};
                     {| overlay_surface := text_surface 3 (-1) 2 [bs "?"; bs "!"; bs "Z"] 1; overlay_z := 7 |}];
  scene_cursor := OwnerPane 1; scene_uploads := [];
  scene_images := [{| placement_owner := 1; placement_image := sample_image <| grid_rect := rect (point 0 0) 2 3 |> |}];
  scene_effects := {| effect_title := None; effect_directory := None; effect_bells := 0 |} |}.

Example sample_rows :
  option_map (List.map row_text) (composed_rows sample_scene) = Some [bs "ab!"; bs "dXZ"].
Proof. vm_compute. done. Qed.

Lemma text_surface_ok id row col lines columns : i32_ok row → i32_ok col →
  0 < len lines ≤ u16_max → 0 < columns ≤ u16_max → Forall (λ l, len l = columns) lines → surface_ok (text_surface id row col lines columns).
Proof.
  intros Hr Hc Hl Hcol Hf. unfold surface_ok, grid. cbn. unfold from_cells, geometry_new. cbn.
  destruct (N.eqb_spec (len lines) 0), (N.eqb_spec columns 0); try lia. split_and!; [done|done|lia|lia|by rewrite length_fmap; lia|].
  rewrite Forall_fmap. eapply Forall_impl; [exact Hf|]. cbn. intros l Hlen. rewrite length_fmap. lia.
Qed.
Lemma sample_scene_ok : scene_ok sample_scene.
Proof.
  split_and!; [unfold u16_max; cbn; lia|unfold u16_max; cbn; lia| |];
    repeat (apply Forall_cons; split; [apply text_surface_ok; by repeat constructor|]); by apply Forall_nil.
Qed.
Lemma sample_media_ok : media_ok sample_scene.
Proof.
  split_and!; [unfold u16_max; cbn; lia|unfold u16_max; cbn; lia| |];
    repeat (apply Forall_cons; split; [unfold rect_ok; split_and!; vm_compute; congruence|]); by apply Forall_nil.
Qed.

Lemma composed_screen_shows_the_topmost_witness : ∃ t, composed_rows sample_scene = Some t ∧ grid (scene_geometry sample_scene) t.
Proof.
  destruct (composed_screen_shows_the_topmost sample_scene sample_scene_ok) as (t & H1 & H2 & _). exists t. split; [exact H1|exact H2].
Defined.

Lemma images_show_what_nothing_covers_witness :
  ∃ records, compose_image_records sample_scene = Some records ∧ NoDup (placement_ids records).
Proof.
  destruct (images_show_what_nothing_covers sample_scene sample_media_ok ltac:(by vm_compute) ltac:(by vm_compute))
    as (ids & records & parts & _ & H1 & _ & H2 & _).
  exists records. split; [exact H1|exact H2].
Defined.

Lemma cursor_follows_its_owner_witness :
  let s := text_surface 1 0 0 [bs "abc"; bs "def"] 3 in
  visible (composed_cursor (from_cells 2 3) s) = visible (cursor (snapshot s)) && in_rect (bounds_of (from_cells 2 3)) 0 0.
Proof.
  destruct (cursor_follows_its_owner (from_cells 2 3) (text_surface 1 0 0 [bs "abc"; bs "def"] 3) ltac:(by vm_compute) ltac:(by vm_compute)
    ltac:(split; by vm_compute) ltac:(split; by vm_compute)) as [H _]. exact H.
Defined.

Lemma composition_succeeds_witness : ∃ p, compose sample_scene = Some p.
Proof.
  destruct (composition_succeeds sample_scene sample_scene_ok sample_media_ok ltac:(by vm_compute) ltac:(by vm_compute)) as (p & H & _).
  by exists p.
Defined.
