(* ===== verification/SceneDamage.v ===== *)
(** Damage of the composed screen (src/src/presentation.rs, [SceneDamage]): the
    rows that a terminal says changed, and the operations it hints at, as
    rectangles of the composed screen.

    Clipping a rectangle has an [expect] in the code: its [None] here makes the
    whole result [None]. *)

From S2P Require Import Prelude Terminal Screen RowRanges TerminalUpdate Grid SceneMedia SceneCompose.
Local Open Scope N_scope.

(** * Data *)

Inductive SceneOperation :=
| SceneScrollUp (region : GridRect) (count : N)
| SceneScrollDown (region : GridRect) (count : N)
| SceneInsertLines (region : GridRect) (count : N)
| SceneDeleteLines (region : GridRect) (count : N)
| SceneInsertChars (region : GridRect) (count : N)
| SceneDeleteChars (region : GridRect) (count : N)
| SceneEraseChars (region : GridRect)
| SceneWriteRun (origin : GridPoint) (text : list N).

Inductive SceneDamage :=
| NoDamage
| FullDamage
| CursorDamage
| ResizeDamage (previous next : TerminalGeometry)
| SurfacesDamage (surfaces : list N)
| RegionsDamage (regions : list GridRect)
| OperationsDamage (owner : N) (regions : list GridRect) (operations : list SceneOperation)
| EffectsDamage.

(** * Rectangles of damage *)

Definition damage_regions (regions : list GridRect) : SceneDamage := RegionsDamage (List.filter nonempty_rect regions).

(** [filter_map(|region| clip_grid_rect(region, geometry))]. *)
Fixpoint clip_all (l : list GridRect) (g : TerminalGeometry) : option (list GridRect) :=
  match l with
  | [] => Some []
  | r :: l => o ← clip_grid_rect r g; rest ← clip_all l g; Some (option_list o ++ rest)
  end.

Definition sat_sub_row (s : SceneSurface) (row : N) : N := N.min row (Terminal.rows (geometry (snapshot s)) - 1).

(** The rectangle of a range of rows, cut to the rows of the surface. *)
Definition range_rect (s : SceneSurface) (r : range) : option GridRect :=
  let start := sat_sub_row s r.1 in
  let stop := sat_sub_row s r.2 in
  if stop <? start then None
  else Some (rect (point (i32_add (point_row (surface_origin s)) (Z.of_N start)) (point_col (surface_origin s)))
               (sat_add u16_max (stop - start) 1) (cols (geometry (snapshot s)))).

Definition surface_rect (s : SceneSurface) : GridRect :=
  rect (surface_origin s) (Terminal.rows (geometry (snapshot s))) (cols (geometry (snapshot s))).

Definition from_terminal_damage (s : SceneSurface) (d : TerminalDamage) (g : TerminalGeometry) : option SceneDamage :=
  match d with
  | DamageFull => Some FullDamage
  | DamageNone => Some CursorDamage
  | DamageRows ranges =>
      regions ← clip_all (omap (range_rect s) ranges) g;
      let result := List.filter nonempty_rect regions in
      Some (if bool_decide (result = []) then CursorDamage else RegionsDamage result)
  end.

Definition terminal_damage_regions (s : SceneSurface) (d : TerminalDamage) (g : TerminalGeometry) : option (list GridRect) :=
  match d with
  | DamageNone => Some []
  | DamageFull => clip_all [surface_rect s] g
  | DamageRows ranges => clip_all (omap (range_rect s) ranges) g
  end.

(** * Operations *)

Definition map_terminal_operation (s : SceneSurface) (o : TerminalOperation) : SceneOperation :=
  let oy := point_row (surface_origin s) in
  let ox := point_col (surface_origin s) in
  let columns := cols (geometry (snapshot s)) in
  let row_region top bottom :=
    rect (point (i32_add oy (Z.of_N top)) ox) (sat_add u16_max (bottom - top) 1) columns in
  let char_region row col (count : option N) :=
    rect (point (i32_add oy (Z.of_N row)) (i32_add ox (Z.of_N col))) 1 (default (columns - col) count) in
  match o with
  | ScrollUp top bottom count => SceneScrollUp (row_region top bottom) count
  | ScrollDown top bottom count => SceneScrollDown (row_region top bottom) count
  | InsertLines row bottom count => SceneInsertLines (row_region row bottom) count
  | DeleteLines row bottom count => SceneDeleteLines (row_region row bottom) count
  | InsertChars row col count => SceneInsertChars (char_region row col None) count
  | DeleteChars row col count => SceneDeleteChars (char_region row col None) count
  | EraseChars row col count => SceneEraseChars (char_region row col (Some count))
  | WriteRun row col text => SceneWriteRun (point (i32_add oy (Z.of_N row)) (i32_add ox (Z.of_N col))) text
  end.

Definition scene_operation_region (o : SceneOperation) : GridRect :=
  match o with
  | SceneScrollUp region _ | SceneScrollDown region _ | SceneInsertLines region _ | SceneDeleteLines region _
  | SceneInsertChars region _ | SceneDeleteChars region _ | SceneEraseChars region => region
  | SceneWriteRun origin text => rect origin 1 (to_u16 (len text))
  end.

Definition origin_le (a b : GridRect) : Prop :=
  (point_row (rect_origin a) < point_row (rect_origin b))%Z ∨
  point_row (rect_origin a) = point_row (rect_origin b) ∧ (point_col (rect_origin a) ≤ point_col (rect_origin b))%Z.
#[export] Instance origin_le_dec a b : Decision (origin_le a b).
Proof. unfold origin_le. apply _. Defined.

(** [dedup]: of equal neighbours the first is kept. *)
Fixpoint dedup (l : list GridRect) : list GridRect :=
  match l with
  | a :: (b :: _) as rest => if bool_decide (a = b) then dedup rest else a :: dedup rest
  | _ => l
  end.
(** The sort of the code is not stable; its theorems do not depend on the order
    of rectangles with the same corner. *)
Definition normalize_grid_regions (l : list GridRect) : list GridRect := dedup (merge_sort origin_le l).

Definition operation_regions (s : SceneSurface) (u : UpdateSummary) (g : TerminalGeometry) : option (list GridRect) :=
  clip_all (scene_operation_region ∘ map_terminal_operation s <$> operations u) g.

Definition from_terminal_update (s : SceneSurface) (u : UpdateSummary) (g : TerminalGeometry) : option SceneDamage :=
  if bool_decide (operations u = []) then from_terminal_damage s (damage u) g else
  regions ← terminal_damage_regions s (damage u) g;
  hinted ← operation_regions s u g;
  Some (OperationsDamage (surface_id s) (normalize_grid_regions (regions ++ hinted)) (map_terminal_operation s <$> operations u)).

Fixpoint update_regions (updates : list (SceneSurface * UpdateSummary)) (g : TerminalGeometry) : option (list GridRect) :=
  match updates with
  | [] => Some []
  | (s, u) :: updates =>
      regions ← terminal_damage_regions s (damage u) g;
      hinted ← operation_regions s u g;
      rest ← update_regions updates g;
      Some (regions ++ hinted ++ rest)
  end.
Definition from_terminal_updates (updates : list (SceneSurface * UpdateSummary)) (g : TerminalGeometry) : option SceneDamage :=
  regions ← update_regions updates g;
  let regions := normalize_grid_regions regions in
  Some (if bool_decide (regions = []) then CursorDamage else RegionsDamage regions).

(** * Damage covers the changes *)

(** What of the screen a damage says may have changed. *)
Definition damaged (d : SceneDamage) (row col : Z) : bool :=
  match d with
  | FullDamage | ResizeDamage _ _ | SurfacesDamage _ => true
  | RegionsDamage regions | OperationsDamage _ regions _ => existsb (λ r, in_rect r row col) regions
  | NoDamage | CursorDamage | EffectsDamage => false
  end.

(** The rows of a surface that its terminal says changed. *)
Definition row_damaged (d : TerminalDamage) (row : N) : bool :=
  match d with
  | DamageNone => false
  | DamageFull => true
  | DamageRows ranges => existsb (λ r, (r.1 <=? row) && (row <=? r.2)) ranges
  end.

Definition within (g : TerminalGeometry) (regions : list GridRect) : Prop :=
  Forall (λ r, rect_ok r ∧ rect_nonempty r ∧ ∀ row col, in_rect r row col = true → in_rect (bounds_of g) row col = true) regions.

Lemma existsb_elem {A} (f : A → bool) l : existsb f l = true ↔ ∃ x, x ∈ l ∧ f x = true.
Proof. rewrite existsb_exists. by setoid_rewrite list_elem_of_In. Qed.

Definition origin_ok (r : GridRect) : Prop :=
  i32_ok (point_row (rect_origin r)) ∧ i32_ok (point_col (rect_origin r)) ∧ rect_rows r ≤ u16_max ∧ rect_cols r ≤ u16_max.

Section Geometry.
Context (g : TerminalGeometry) (Hgr : Terminal.rows g ≤ u16_max) (Hgc : cols g ≤ u16_max).

Lemma clip_all_spec l : Forall origin_ok l →
  ∃ l', clip_all l g = Some l' ∧ within g l' ∧
    ∀ row col, existsb (λ r, in_rect r row col) l' = in_rect (bounds_of g) row col && existsb (λ r, in_rect r row col) l.
Proof.
  induction 1 as [|r l (H1 & H2 & H3 & H4) _ (l' & IH1 & IH2 & IH3)]; cbn [clip_all].
  { exists []. split_and!; [done|constructor|]. intros row col. cbn. by rewrite andb_false_r. }
  destruct (clip_grid_rect_spec r g Hgr Hgc H3 H4 H1 H2) as (o & -> & Ho). rewrite IH1. cbn [mbind option_bind].
  eexists. split; [done|]. destruct o as [i|]; cbn.
  - destruct Ho as (Hok & Hne & Hin). split.
    + constructor; [|done]. split_and!; [done|done|]. intros row col. rewrite Hin. by intros [? _]%andb_true_iff.
    + intros row col. rewrite Hin, IH3. by destruct (in_rect (bounds_of g) row col).
  - split; [done|]. intros row col. rewrite IH3. specialize (Ho row col). destruct (in_rect (bounds_of g) row col); cbn in *; [by rewrite Ho|done].
Qed.

Lemma dedup_regions_elem l x : x ∈ dedup l ↔ x ∈ l.
Proof.
  induction l as [|a l IH]; [done|]. cbn [dedup]. destruct l as [|b l]; [done|]. case_bool_decide as E.
  - subst b. rewrite IH, !elem_of_cons. naive_solver.
  - rewrite elem_of_cons, IH. by rewrite !elem_of_cons.
Qed.
Lemma normalize_elem l x : x ∈ normalize_grid_regions l ↔ x ∈ l.
Proof. unfold normalize_grid_regions. by rewrite dedup_regions_elem, (merge_sort_Permutation origin_le). Qed.
Lemma normalize_existsb f l : existsb f (normalize_grid_regions l) = existsb f l.
Proof. apply eq_true_iff_eq. rewrite !existsb_elem. setoid_rewrite normalize_elem. done. Qed.
Lemma normalize_within l : within g l → within g (normalize_grid_regions l).
Proof. unfold within. rewrite !Forall_forall. intros H x Hx. rewrite normalize_elem in Hx. exact (H x Hx). Qed.

Lemma range_rect_ok s r x : surface_ok s → range_rect s r = Some x → origin_ok x.
Proof.
  intros (Hr & Hc & H1 & H2 & _). unfold range_rect. case_cmp; [done|]. intros [= <-].
  unfold origin_ok, sat_sub_row, i32_ok, i32_add, i32_saturate, i32_min, i32_max, u16_max, sat_add in *. cbn. lia.
Qed.
Lemma surface_rect_ok s : surface_ok s → origin_ok (surface_rect s).
Proof. intros (Hr & Hc & H1 & H2 & _). by split_and!. Qed.

(** What [row_damaged] says of a row of the surface is in its rectangles. *)
Lemma range_rect_covers s r row col : surface_ok s → (r.1 <=? row) && (row <=? r.2) = true →
  i32_ok (point_row (surface_origin s) + Z.of_N row) →
  in_rect (surface_rect s) (point_row (surface_origin s) + Z.of_N row) col = true →
  ∃ x, range_rect s r = Some x ∧ in_rect x (point_row (surface_origin s) + Z.of_N row) col = true.
Proof.
  intros (Hr & Hc & H1 & H2 & _) Hrow Hok Hin. apply in_rect_spec in Hin. cbn in Hin.
  unfold range_rect. rewrite (proj2 (N.ltb_ge _ _)) by (unfold sat_sub_row; lia).
  eexists. split; [done|]. apply in_rect_spec. cbn.
  unfold sat_sub_row, i32_ok, i32_add, i32_saturate, i32_min, i32_max, u16_max, sat_add in *. lia.
Qed.

Lemma damage_regions_spec s d : surface_ok s →
  ∃ regions, terminal_damage_regions s d g = Some regions ∧ within g regions ∧
    ∀ row col, in_rect (bounds_of g) (point_row (surface_origin s) + Z.of_N row) col = true →
      in_rect (surface_rect s) (point_row (surface_origin s) + Z.of_N row) col = true → row_damaged d row = true →
      existsb (λ r, in_rect r (point_row (surface_origin s) + Z.of_N row) col) regions = true.
Proof.
  intros Hs. destruct d as [|ranges|]; cbn [terminal_damage_regions row_damaged].
  - exists []. split_and!; [done|constructor|done].
  - destruct (clip_all_spec (omap (range_rect s) ranges)) as (l & Hl & Hw & He).
    { apply Forall_forall. intros x (r & _ & Hx)%list_elem_of_omap. by eapply range_rect_ok. }
    exists l. split_and!; [done|done|]. intros row col Hb Hin Hd. rewrite He, Hb. cbn.
    apply existsb_elem in Hd as (r & Hr & Hrow). apply existsb_elem.
    destruct (range_rect_covers s r row col Hs Hrow) as (x & Hx & Hc); [|done|].
    { apply in_rect_spec in Hb. cbn in Hb. unfold i32_ok, i32_min, i32_max, u16_max in *. lia. }
    exists x. split; [apply list_elem_of_omap; by exists r|done].
  - destruct (clip_all_spec [surface_rect s]) as (l & Hl & Hw & He).
    { apply Forall_singleton. by apply surface_rect_ok. }
    exists l. split_and!; [done|done|]. intros row col Hb Hin _. rewrite He, Hb. cbn. by rewrite Hin.
Qed.

Definition operation_ok (o : TerminalOperation) : Prop :=
  match o with
  | InsertChars _ _ _ | DeleteChars _ _ _ | ScrollUp _ _ _ | ScrollDown _ _ _ | InsertLines _ _ _ | DeleteLines _ _ _ | WriteRun _ _ _ => True
  | EraseChars _ _ count => count ≤ u16_max
  end.

Lemma mapped_region_ok s o : surface_ok s → operation_ok o → origin_ok (scene_operation_region (map_terminal_operation s o)).
Proof.
  intros (Hr & Hc & H1 & H2 & _) Ho. unfold origin_ok, i32_ok, i32_min, i32_max, u16_max in *.
  destruct o; cbn in *; unfold i32_add, i32_saturate, i32_min, i32_max, u16_max, sat_add, to_u16 in *; cbn in *; unfold u16_max; split_and!; lia.
Qed.

(** What is known of an update of a surface: its operations are in range. *)
Definition update_ok (su : SceneSurface * UpdateSummary) : Prop := surface_ok su.1 ∧ Forall operation_ok (operations su.2).

Lemma operation_regions_spec s u : update_ok (s, u) →
  ∃ l, operation_regions s u g = Some l ∧ within g l ∧
    ∀ row col, existsb (λ r, in_rect r row col) l =
      in_rect (bounds_of g) row col && existsb (λ o, in_rect (scene_operation_region (map_terminal_operation s o)) row col) (operations u).
Proof.
  intros [Hs Ho]. cbn in *. unfold operation_regions.
  destruct (clip_all_spec (scene_operation_region ∘ map_terminal_operation s <$> operations u)) as (l & Hl & Hw & He).
  { rewrite Forall_fmap. eapply Forall_impl; [exact Ho|]. intros o. by apply mapped_region_ok. }
  exists l. split_and!; [done|done|]. intros row col. rewrite He. f_equal. clear.
  induction (operations u) as [|o os IH]; [done|]. rewrite fmap_cons. cbn. by rewrite IH.
Qed.

Lemma update_regions_spec updates : Forall update_ok updates →
  ∃ l, update_regions updates g = Some l ∧ within g l ∧
    ∀ s u row col, (s, u) ∈ updates → in_rect (bounds_of g) (point_row (surface_origin s) + Z.of_N row) col = true →
      in_rect (surface_rect s) (point_row (surface_origin s) + Z.of_N row) col = true → row_damaged (damage u) row = true →
      existsb (λ r, in_rect r (point_row (surface_origin s) + Z.of_N row) col) l = true.
Proof.
  induction 1 as [|[s u] updates Hu _ (l & IH1 & IH2 & IH3)]; cbn [update_regions].
  { exists []. split_and!; [done|constructor|]. intros s u row col H. by apply elem_of_nil in H. }
  destruct (damage_regions_spec s (damage u) (proj1 Hu)) as (l1 & -> & Hw1 & Hd).
  destruct (operation_regions_spec s u Hu) as (l2 & -> & Hw2 & _). rewrite IH1. cbn [mbind option_bind].
  eexists. split; [done|]. split; [by repeat apply Forall_app_2|].
  intros s' u' row col [[= -> ->]|Hin]%elem_of_cons Hb Hin' Hrow; rewrite !existsb_app.
  - by rewrite Hd.
  - rewrite (IH3 s' u' row col) by done. by rewrite !orb_true_r.
Qed.
End Geometry.

(** ** What is not damaged stays *)

(** A surface as it was and as it is: at the same place, with the same rows, or
    with an update that says which rows changed. *)
Definition follows (updates : list (SceneSurface * UpdateSummary)) (before after : SceneSurface) : Prop :=
  surface_origin before = surface_origin after ∧ geometry (snapshot before) = geometry (snapshot after) ∧
  (rows (snapshot before) = rows (snapshot after) ∨
   ∃ u, (after, u) ∈ updates ∧
     ∀ row, row_damaged (damage u) (N.of_nat row) = false → rows (snapshot before) !! row = rows (snapshot after) !! row).

Record scene_follows (updates : list (SceneSurface * UpdateSummary)) (before after : Scene) : Prop := {
  same_geometry : scene_geometry before = scene_geometry after;
  panes_follow : Forall2 (follows updates) (scene_panes before) (scene_panes after);
  overlays_follow : Forall2 (λ a b, overlay_z a = overlay_z b ∧ follows updates (overlay_surface a) (overlay_surface b))
                      (scene_overlays before) (scene_overlays after)
}.

Lemma surface_cell_stays g l updates a b i j :
  Terminal.rows g ≤ u16_max → cols g ≤ u16_max → Forall update_ok updates → follows updates a b → surface_ok b → surface_ok a →
  update_regions updates g = Some l → inside g i j →
  existsb (λ r, in_rect r (Z.of_nat i) (Z.of_nat j)) l = false →
  surface_cell a (Z.of_nat i) (Z.of_nat j) = surface_cell b (Z.of_nat i) (Z.of_nat j).
Proof.
  intros Hgr Hgc Hup (Ho & Hgeo & Hrows) Hb Ha Hl [Hi Hj] Hout. unfold surface_cell, surface_row. rewrite <-Ho.
  destruct Hrows as [->|(u & Hin & Hrows)]; [done|]. unfold lookup_z at 2 4.
  destruct (Z.ltb_spec (Z.of_nat i - point_row (surface_origin a)) 0) as [|Hrow]; [done|].
  set (row := Z.to_nat (Z.of_nat i - point_row (surface_origin a))).
  destruct (row_damaged (damage u) (N.of_nat row)) eqn:Ed; [|by rewrite Hrows].
  destruct (update_regions_spec g Hgr Hgc updates Hup) as (l' & Hl' & _ & Hcov). rewrite Hl in Hl'. injection Hl' as <-.
  specialize (Hcov b u (N.of_nat row) (Z.of_nat j) Hin). rewrite <-Ho in Hcov.
  replace (point_row (surface_origin a) + Z.of_N (N.of_nat row))%Z with (Z.of_nat i) in Hcov by lia. rewrite Hout in Hcov.
  destruct (in_rect (surface_rect b) (Z.of_nat i) (Z.of_nat j)) eqn:Er.
  { exfalso. rewrite (proj2 (in_rect_spec (bounds_of g) _ _)) in Hcov by (cbn; lia). by specialize (Hcov eq_refl eq_refl Ed). }
  clear Hcov. pose proof Hb as (_ & _ & _ & _ & Hgb). pose proof Ha as (_ & _ & _ & _ & Hga). rewrite Hgeo in Hga.
  assert (∀ rs, grid (geometry (snapshot b)) rs → (rs !! row ≫= λ r, lookup_z (cells r) (Z.of_nat j - point_col (surface_origin a))) = None) as Hnone.
  { intros rs [Hlen Hf]. destruct (rs !! row) as [r|] eqn:Erow; [|done]. cbn. pose proof (lookup_lt_Some _ _ _ Erow).
    assert (length (cells r) = N.to_nat (cols (geometry (snapshot b)))) as Hlr by exact (Forall_lookup_1 _ _ _ _ Hf Erow).
    unfold lookup_z. destruct (Z.ltb_spec (Z.of_nat j - point_col (surface_origin a)) 0); [done|]. apply lookup_ge_None.
    apply not_true_iff_false in Er. rewrite in_rect_spec in Er. cbn in Er. rewrite <-Ho in Er. lia. }
  by rewrite !Hnone.
Qed.

Lemma shows_stays l1 l2 row col : Forall2 (λ a b, surface_cell a row col = surface_cell b row col) l1 l2 →
  shows l1 row col = shows l2 row col.
Proof. induction 1 as [|a b l1 l2 Hab _ IH]; [done|]. by rewrite !shows_cons, IH, Hab. Qed.

Lemma overlays_show s1 s2 row col :
  Forall2 (λ a b, overlay_z a = overlay_z b ∧ surface_cell (overlay_surface a) row col = surface_cell (overlay_surface b) row col)
    (scene_overlays s1) (scene_overlays s2) →
  shows ((λ o, overlay_surface o.2) <$> sorted_overlays s1) row col = shows ((λ o, overlay_surface o.2) <$> sorted_overlays s2) row col.
Proof.
  intros Hf. assert (∀ s x, shows ((λ o, overlay_surface o.2) <$> sorted_overlays s) row col = None →
    ∀ k o, scene_overlays s !! k = Some o → surface_cell (overlay_surface o) row col = Some x → False) as Hnone.
  { intros s x Hs k o Ho Hc. pose proof (shows_last ((λ o, overlay_surface o.2) <$> sorted_overlays s) row col) as H. rewrite Hs in H.
    rewrite Forall_fmap, Forall_forall in H. apply sorted_overlays_elem in Ho. specialize (H _ Ho). cbn in H. congruence. }
  destruct (shows _ row col) as [x|] eqn:E1, (shows ((λ o, overlay_surface o.2) <$> sorted_overlays s2) row col) as [y|] eqn:E2; [| | |done].
  - apply topmost_overlay in E1 as (k1 & o1 & H1 & C1 & T1). apply topmost_overlay in E2 as (k2 & o2 & H2 & C2 & T2).
    destruct (Forall2_lookup_l _ _ _ _ _ Hf H1) as (o1' & H1' & Z1 & S1). destruct (Forall2_lookup_r _ _ _ _ _ Hf H2) as (o2' & H2' & Z2 & S2).
    pose proof (T1 k2 o2' H2' ltac:(rewrite S2, C2; done)) as B1. pose proof (T2 k1 o1' H1' ltac:(rewrite <-S1, C1; done)) as B2.
    unfold below in B1, B2. cbn in B1, B2. assert (k1 = k2) as -> by lia. congruence.
  - apply topmost_overlay in E1 as (k1 & o1 & H1 & C1 & _). destruct (Forall2_lookup_l _ _ _ _ _ Hf H1) as (o1' & H1' & _ & S1).
    exfalso. eapply Hnone; [exact E2|exact H1'|]. by rewrite <-S1.
  - apply topmost_overlay in E2 as (k2 & o2 & H2 & C2 & _). destruct (Forall2_lookup_r _ _ _ _ _ Hf H2) as (o2' & H2' & _ & S2).
    exfalso. eapply Hnone; [exact E1|exact H2'|]. by rewrite S2.
Qed.

(** Damage covers every change: when surfaces change only in the rows their
    updates tell, the composed screen changes only within the damage put
    together from the updates, whatever covers what; and the damage is a list
    of rectangles of the screen, none of them empty. *)
Theorem damage_covers_the_changes updates before after :
  scene_ok before → scene_ok after → scene_follows updates before after → Forall update_ok updates →
  let g := scene_geometry after in
  ∃ d, from_terminal_updates updates g = Some d ∧
    (match d with RegionsDamage regions => within g regions | _ => d = CursorDamage end) ∧
    ∀ t t' i j, composed_rows before = Some t → composed_rows after = Some t' → inside g i j →
      damaged d (Z.of_nat i) (Z.of_nat j) = false → cell_at t i j = cell_at t' i j.
Proof.
  intros Hok Hok' [Hgeo Hp Hov] Hup g. pose proof Hok' as (Hgr & Hgc & Hps & Hos). fold g in Hgr, Hgc.
  destruct (update_regions_spec g Hgr Hgc updates Hup) as (l & Hl & Hw & _).
  unfold from_terminal_updates. rewrite Hl. cbn [mbind option_bind]. eexists. split; [done|].
  assert (∀ i j, damaged (if bool_decide (normalize_grid_regions l = []) then CursorDamage else RegionsDamage (normalize_grid_regions l)) i j =
    existsb (λ r, in_rect r i j) l) as Hd.
  { intros i j. case_bool_decide as E; cbn; [rewrite <-normalize_existsb, E; done|apply normalize_existsb]. }
  split.
  { case_bool_decide; [done|]. by apply normalize_within. }
  intros t t' i j Ht Ht' Hij Hout. rewrite Hd in Hout. fold g in Hgeo.
  destruct (composed_rows_spec before Hok) as (t1 & E1 & _ & Hc1 & _). destruct (composed_rows_spec after Hok') as (t2 & E2 & _ & Hc2 & _).
  rewrite Ht in E1. rewrite Ht' in E2. injection E1 as <-. injection E2 as <-. rewrite Hgeo in Hc1. fold g in Hc2.
  rewrite Hc1, Hc2 by done. f_equal. unfold painted. rewrite !shows_app. destruct Hok as (_ & _ & Hps1 & Hos1). f_equal.
  - apply overlays_show. apply Forall2_same_length_lookup. split; [by eapply Forall2_length|]. intros k a b Ha Hb.
    destruct (Forall2_lookup_lr _ _ _ _ _ _ Hov Ha Hb) as [Hz Hf]. split; [done|].
    apply (surface_cell_stays g l updates); try done; [exact (Forall_lookup_1 _ _ _ _ Hos Hb)|exact (Forall_lookup_1 _ _ _ _ Hos1 Ha)].
  - apply shows_stays. apply Forall2_same_length_lookup. split; [by eapply Forall2_length|]. intros k a b Ha Hb.
    pose proof (Forall2_lookup_lr _ _ _ _ _ _ Hp Ha Hb) as Hf.
    apply (surface_cell_stays g l updates); try done; [exact (Forall_lookup_1 _ _ _ _ Hps Hb)|exact (Forall_lookup_1 _ _ _ _ Hps1 Ha)].
Qed.

(** The damage of one update covers the rows it says changed, whether or not it
    carries hints of operations. *)
Theorem one_update_is_covered g s u row col :
  Terminal.rows g ≤ u16_max → cols g ≤ u16_max → update_ok (s, u) →
  ∃ d, from_terminal_update s u g = Some d ∧
    (in_rect (bounds_of g) (point_row (surface_origin s) + Z.of_N row) col = true →
     in_rect (surface_rect s) (point_row (surface_origin s) + Z.of_N row) col = true →
     row_damaged (damage u) row = true → damaged d (point_row (surface_origin s) + Z.of_N row) col = true).
Proof.
  intros Hgr Hgc Hu. destruct (damage_regions_spec g Hgr Hgc s (damage u) (proj1 Hu)) as (l & Hl & Hw & Hd).
  destruct (operation_regions_spec g Hgr Hgc s u Hu) as (l2 & H2 & _ & _). unfold from_terminal_update.
  case_bool_decide as Hops.
  - unfold from_terminal_damage. destruct (damage u) as [|ranges|]; [by eexists| |by eexists].
    cbn [terminal_damage_regions] in Hl. rewrite Hl. cbn [mbind option_bind]. eexists. split; [done|]. intros Hb Hs Hrow.
    specialize (Hd row col Hb Hs Hrow).
    assert (List.filter nonempty_rect l = l) as ->.
    { apply List.forallb_filter_id. apply forallb_Forall. eapply Forall_impl; [exact Hw|]. intros r (_ & [? ?] & _).
      unfold nonempty_rect. lia. }
    case_bool_decide as E; [by rewrite E in Hd|done].
  - rewrite Hl. cbn [mbind option_bind]. rewrite H2. cbn [mbind option_bind]. eexists. split; [done|]. intros Hb Hs Hrow.
    cbn [damaged]. rewrite normalize_existsb, existsb_app. by rewrite Hd.
Qed.

(** * Instances *)

(** The second line of the pane changes. *)
Definition changed_scene : Scene := sample_scene <| scene_panes := [text_surface 1 0 0 [bs "abc"; bs "xyz"] 3] |>.
Definition second_line : UpdateSummary := default_summary <| damage := DamageRows [(1, 1)] |>.
Definition line_update : list (SceneSurface * UpdateSummary) := [(text_surface 1 0 0 [bs "abc"; bs "xyz"] 3, second_line)].

Example line_update_region :
  from_terminal_updates line_update (from_cells 2 3) = Some (RegionsDamage [rect (point 1 0) 1 3]).
Proof. vm_compute. done. Qed.

Lemma follows_refl updates s : follows updates s s.
Proof. split_and!; [done|done|by left]. Qed.

Lemma damage_covers_the_changes_witness :
  ∃ d, from_terminal_updates line_update (scene_geometry changed_scene) = Some d.
Proof.
  assert (scene_ok changed_scene) as Hok.
  { destruct sample_scene_ok as (H1 & H2 & _ & H4). split_and!; [exact H1|exact H2| |exact H4].
    apply Forall_singleton, text_surface_ok; by repeat constructor. }
  assert (Forall update_ok line_update) as Hup.
  { apply Forall_singleton. split; [apply text_surface_ok; by repeat constructor|constructor]. }
  assert (scene_follows line_update sample_scene changed_scene) as Hf.
  { split; [done| |by repeat (constructor; [by split; [|apply follows_refl]|])].
    constructor; [|constructor]. split_and!; [done|done|]. right. exists second_line. split; [by left|].
    intros row. cbn [row_damaged damage second_line]. destruct row as [|[|row]]; [done|done|]. by intros _; destruct row. }
  destruct (damage_covers_the_changes line_update sample_scene changed_scene sample_scene_ok Hok Hf Hup) as (d & H & _).
  exists d. exact H.
Defined.

Lemma one_update_is_covered_witness :
  ∃ d, from_terminal_update (text_surface 1 0 0 [bs "abc"; bs "xyz"] 3) second_line (from_cells 2 3) = Some d.
Proof.
  destruct (one_update_is_covered (from_cells 2 3) (text_surface 1 0 0 [bs "abc"; bs "xyz"] 3) second_line 1 0 ltac:(by vm_compute) ltac:(by vm_compute))
    as (d & H & _); [split; [apply text_surface_ok; by repeat constructor|constructor]|]. exists d. exact H.
Defined.
