(* ===== verification/Commands.v ===== *)
(** The dispatch of the built-in actions (src/src/commands.rs) with the commands
    of the options, of editing, of the clipboard and of the mouse
    (src/src/commands/system.rs, clipboard.rs and mouse.rs); those of the
    review cursor and of table mode are in [ReaderCommands].

    The engine's history, which marks and selections refer to, is a parameter
    ([Mark] and the functions on it), as are the native clipboard and the text
    of its errors.  What a command needs to know of its surroundings, the clock
    and the title among it, comes with the action ([Surroundings]). *)

From S2P Require Import Prelude Terminal Screen Table Keymap ReviewCursor Clipboard FieldDiff InputEcho AutoRead ReaderCommands.
Local Open Scope N_scope.

(** * Results and surroundings *)

Inductive CommandResult := Handled | ForwardInput | PasteText (contents : list N) | PtyInput (input : bytes).

Record Surroundings := {
  title : list N;
  now : list N;
  frozen : bool;
  live_screen : TerminalSnapshot;
  tracked_view : TrackedView
}.

Definition cycle_symbol_level (l : Level) : Level :=
  match l with
  | LevelNone => LevelSome | LevelSome => LevelMost | LevelMost => LevelAll | LevelAll | LevelCharacter => LevelNone
  end.
Definition level_to_string (l : Level) : string :=
  match l with
  | LevelNone => "none" | LevelSome => "some" | LevelMost => "most" | LevelAll => "all" | LevelCharacter => "character"
  end%string.

Section Commands.
Context {Handle Failure Mark : Type}.
Context (world : World) (is_alphabetic : N → bool).
Context (lib : Arboard Handle Failure) (describe_error : ClipboardError Failure → list N).
(** [View::set_review_mark], [review_mark_position] and
    [copy_review_selection], which yields [None] for a mark after the cursor. *)
Context {Position : Type} (track_mark : ReviewView → Mark) (mark_position : Mark → option Position)
  (selection : Position → ReviewView → option (list N)).

Record Commands := {
  reader : Reader;
  review_mark : option Mark;
  deletes : Deletes;
  tracking_mode : CursorTrackingMode;
  system : SystemClipboard Handle
}.

Definition C (A : Type) : Type := Commands → option A * Commands.
Definition cret {A} (x : A) : C A := λ c, (Some x, c).
Definition cbind {A B} (m : C A) (k : A → C B) : C B := λ c,
  match m c with (Some x, c) => k x c | (None, c) => (None, c) end.
Definition cget : C Commands := λ c, (Some c, c).
Definition cput (f : Commands → Commands) : C unit := λ c, (Some tt, f c).
Definition on_reader {A} (m : M A) : C A := λ c,
  let '(x, rd) := m (reader c) in (x, c <| reader := rd |>).

Declare Scope command_scope.
Local Open Scope command_scope.
Notation "'do' x <- m 'in' k" := (cbind m (λ x, k)) (at level 10, x name, m at level 100, k at level 200) : command_scope.
Notation "m '>>' k" := (cbind m (λ _ : unit, k)) (at level 100, k at level 200, right associativity) : command_scope.

Definition csay (text : list N) : C unit := on_reader (speak world text false).
Definition say_and_handle (text : list N) : C CommandResult := csay text >> cret Handled.
Definition on_options (f : Settings → Settings) : C unit := on_reader (on_settings f).
Definition options : C Settings := λ c, (Some (settings (reader c)), c).

(** * Options *)

Definition stop : C CommandResult := on_reader (perform world SpeechStop) >> cret Handled.
Definition toggle_help : C CommandResult :=
  on_options (λ st, st <| help_mode := negb (help_mode st) |>) >>
  do st <- options in
  say_and_handle (bs (if help_mode st then "entering help. Press this key again to exit" else "exiting help")).
Definition toggle_auto_read : C CommandResult :=
  on_options (λ st, st <| ReaderCommands.auto_read := negb (ReaderCommands.auto_read st) |>) >>
  do st <- options in
  say_and_handle (bs (if ReaderCommands.auto_read st then "auto read enabled" else "auto read disabled")).
Definition toggle_stop_speech_on_focus_loss : C CommandResult :=
  on_options (λ st, st <| stop_speech_on_focus_loss := negb (stop_speech_on_focus_loss st) |>) >>
  do st <- options in
  say_and_handle (bs "stop on focus loss " ++ bs (if stop_speech_on_focus_loss st then "enabled" else "disabled")).
Definition toggle_review_follows_screen_cursor (around : Surroundings) : C CommandResult :=
  on_options (λ st, st <| review_follows_screen_cursor := negb (review_follows_screen_cursor st) |>) >>
  do st <- options in
  if review_follows_screen_cursor st then
    do old_position <- on_reader ReaderCommands.cursor in
    on_reader (on_view (follow_application_cursor (frozen around) (live_screen around))) >>
    do new_position <- on_reader ReaderCommands.cursor in
    on_reader (hook_on_review_cursor_move world old_position new_position) >>
    say_and_handle (bs "review cursor following screen cursor")
  else say_and_handle (bs "review cursor not following screen cursor").
Definition pass_next_key : C CommandResult :=
  on_options (λ st, st <| pass_through := true |>) >> say_and_handle (bs "forward next key press").
Definition toggle_symbol_level : C CommandResult :=
  on_options (λ st, st <| symbol_level := cycle_symbol_level (symbol_level st) |>) >>
  do st <- options in say_and_handle (bs (level_to_string (symbol_level st))).

(** * Editing *)

Definition backspace (around : Surroundings) : C CommandResult :=
  cput (λ c, c <| deletes := defer_backspace (tracked_view around) (deletes c) |>) >>
  cput (λ c, c <| tracking_mode := TrackingOffOnce |>) >> cret ForwardInput.
Definition delete_key (around : Surroundings) : C CommandResult :=
  cput (λ c, c <| deletes := defer_delete (tracked_view around) (deletes c) |>) >> cret ForwardInput.

(** * The clipboard *)

Definition set_mark : C CommandResult :=
  cput (λ c, c <| review_mark := Some (track_mark (rd_view (reader c))) |>) >> say_and_handle (bs "mark set").

(** [ScreenReader::read_clipboard] and [write_clipboard]: an error of the system
    clipboard is a value, one of a hook ends the command. *)
Definition read_clipboard (register : ClipboardRegister) : C (result (ClipboardError Failure) (option (list N))) := λ c,
  let st := settings (reader c) in
  match register with
  | Internal => (Some (Ok (clip_get (clipboard st))), c)
  | System => let '(s, r) := system_read lib (system_clipboard_provider st) (system c) in (Some r, c <| system := s |>)
  end.
(** [copy] speaks the error of a hook as it does that of the system. *)
Definition write_clipboard (register : ClipboardRegister) (contents : list N)
    : C (result (option (ClipboardError Failure)) unit) := λ c,
  match register with
  | Internal =>
      let '(_, rd) := on_settings (λ st, st <| clipboard := clip_put contents (clipboard st) |>) (reader c) in
      let '(ok, rd) := attempt world (ClipboardChanged "push" (clip_get (clipboard (settings rd)))) rd in
      (Some (if default false ok then Ok tt else Err None), c <| reader := rd |>)
  | System =>
      let '(s, r) := system_write lib (system_clipboard_provider (settings (reader c))) contents (system c) in
      (Some (match r with Ok u => Ok u | Err e => Err (Some e) end), c <| system := s |>)
  end.

Definition copy (hook_error : list N) : C CommandResult :=
  do c <- cget in
  match mark ← review_mark c; mark_position mark with
  | None => say_and_handle (bs "no mark set")
  | Some mark =>
      match selection mark (rd_view (reader c)) with
      | None => say_and_handle (bs "mark is after the review cursor")
      | Some contents =>
          do r <- write_clipboard (clipboard_default_register (settings (reader c))) contents in
          say_and_handle (match r with Ok _ => bs "copied" | Err (Some e) => describe_error e | Err None => hook_error end)
      end
  end.
Definition paste_from (register : ClipboardRegister) : C CommandResult :=
  do contents <- read_clipboard register in
  match contents with
  | Ok (Some contents) => cret (PasteText contents)
  | Ok None => say_and_handle (bs "no clipboard")
  | Err e => say_and_handle (describe_error e)
  end.
Definition say_from (register : ClipboardRegister) : C CommandResult :=
  do contents <- read_clipboard register in
  match contents with
  | Ok contents => say_and_handle (default (bs "no clipboard") contents)
  | Err e => say_and_handle (describe_error e)
  end.

(** [previous_clipboard] and [next_clipboard], then the command. *)
Definition move_clipboard (move : Clipboard → Clipboard * bool) (op boundary : string) : C CommandResult :=
  do st <- options in
  if (clip_size (clipboard st) =? 0)%nat then say_and_handle (bs "no clipboard") else
  let '(ring, moved) := move (clipboard st) in
  on_options (λ st, st <| clipboard := ring |>) >>
  if negb moved then say_and_handle (bs boundary) else
  on_reader (perform world (ClipboardChanged op (clip_get ring))) >>
  do st <- options in
  say_from (clipboard_default_register st).

(** * The mouse *)

Definition click (around : Surroundings) (button : Button) : C CommandResult :=
  do c <- cget in
  let m := modes (live_screen around) in
  if bool_decide (mouse_protocol m = NoMouse) then say_and_handle (bs "mouse input unavailable") else
  match encode_click (mouse_protocol m) (mouse_encoding m) button (review_cursor_position (rd_view (reader c))) with
  | None => say_and_handle (bs "mouse position unavailable")
  | Some input => cret (PtyInput input)
  end.

(** * Dispatch *)

(** The commands that read the screen or navigate it. *)
Definition reader_command (a : Action) : option (M unit) :=
  match a with
  | RevLinePrev => Some (line_previous world false)
  | RevLineNext => Some (line_next world false)
  | RevLinePrevNonBlank => Some (line_previous world true)
  | RevLineNextNonBlank => Some (line_next world true)
  | RevLineRead => Some (line_read world)
  | RevWordPrev => Some (word_previous world)
  | RevWordNext => Some (word_next world)
  | RevWordRead => Some (word_read world)
  | RevCharPrev => Some (character_previous world)
  | RevCharNext => Some (character_next world)
  | RevCharRead => Some (character_read world)
  | RevCharReadPhonetic => Some (character_read_phonetic world)
  | RevTop => Some (jump_top world)
  | RevBottom => Some (jump_bottom world)
  | RevFirst => Some (jump_first world)
  | RevLast => Some (jump_last world)
  | RevReadAttributes => Some (read_attributes world)
  | ToggleTableMode => Some (toggle_mode world is_alphabetic)
  | StartTableSetupMode => Some (start_setup world)
  | CancelTableSetupMode => Some (cancel_setup world)
  | CommitTableSetupMode => Some (commit_setup world is_alphabetic)
  | ToggleTableSetupTabstop => Some (toggle_setup_tabstop world)
  | ExitTableMode => Some (exit_mode world)
  | TableRowPrev => Some (row_move world is_alphabetic Previous)
  | TableRowNext => Some (row_move world is_alphabetic Next)
  | TableRowTop => Some (row_move world is_alphabetic First)
  | TableRowBottom => Some (row_move world is_alphabetic Last)
  | TableColPrev => Some (column_move world is_alphabetic Previous)
  | TableColNext => Some (column_move world is_alphabetic Next)
  | TableColFirst => Some (column_move world is_alphabetic First)
  | TableColLast => Some (column_move world is_alphabetic Last)
  | TableCellRead => Some (cell_read world is_alphabetic)
  | TableHeaderRead => Some (header_read world is_alphabetic)
  | ToggleTableHeaderRead => Some (toggle_header_read world)
  | TableWordPrev => Some (table_word_previous world is_alphabetic)
  | TableWordNext => Some (table_word_next world is_alphabetic)
  | TableWordRead => Some (table_word_read world is_alphabetic)
  | TableCharPrev => Some (table_character_previous world is_alphabetic)
  | TableCharNext => Some (table_character_next world is_alphabetic)
  | TableCharRead => Some (table_character_read world is_alphabetic)
  | _ => None
  end.

Definition default_register : C ClipboardRegister := do st <- options in cret (clipboard_default_register st).

Definition handle (hook_error : list N) (around : Surroundings) (a : Action) : C CommandResult :=
  if bool_decide (a = ToggleHelp) then toggle_help else
  do st <- options in
  if help_mode st then say_and_handle (help_text a) else
  match a with
  | ToggleAutoRead => toggle_auto_read
  | ToggleReviewCursorFollowsScreenCursor => toggle_review_follows_screen_cursor around
  | ToggleSymbolLevel => toggle_symbol_level
  | SayOverlay => say_and_handle (title around)
  | PassNextKey => pass_next_key
  | StopSpeaking => stop
  | LeftClick => click around LeftButton
  | RightClick => click around RightButton
  | Keymap.Backspace => backspace around
  | Keymap.Delete => delete_key around
  | SayTime => say_and_handle (now around)
  | SetMark => set_mark
  | Copy => copy hook_error
  | Paste => do register <- default_register in paste_from register
  | PasteInternal => paste_from Internal
  | PasteSystem => paste_from System
  | SayClipboard => do register <- default_register in say_from register
  | SayInternalClipboard => say_from Internal
  | SaySystemClipboard => say_from System
  | PreviousClipboard => move_clipboard clip_prev "prev" "first clipboard"
  | NextClipboard => move_clipboard clip_next "next" "last clipboard"
  | ToggleStopSpeechOnFocusLoss => toggle_stop_speech_on_focus_loss
  | ToggleHelp | OpenLuaRepl | OpenReview | OpenTmuxConnectionChooser | RenameTmuxConnection | OpenTmuxSessionChooser
  | OpenTmuxWindowChooser | OpenTmuxPaneChooser | OpenTmuxCommandPrompt | DetachTmuxConnection | ForceAbandonTmuxGateway =>
      say_and_handle (bs "not implemented")
  | _ => match reader_command a with
         | Some m => on_reader m >> cret Handled
         | None => cret Handled
         end
  end.

(** A sequence of actions, whether or not each one succeeds. *)
Definition run_actions (hook_error : list N) (l : list (Surroundings * Action)) (c : Commands) : Commands :=
  fold_left (λ c p, (handle hook_error p.1 p.2 c).2) l c.

(** * Well-formedness *)

Section Invariant.
Context (s : TerminalSnapshot) (Hs : grid_ok s).
Context (Hworld : ∀ e st, clip_wf (clipboard st) → clip_wf (clipboard (world e st).2)).

(** The reader is well formed and expects at most 64 deletions. *)
Definition commands_ok (c : Commands) : Prop :=
  reader_ok s (reader c) ∧ len (pending_deletes (deletes c)) ≤ MAX_PENDING_DELETE_INTENTS.
(** The view is not scrolled back, and the cursor of the application is on the
    screen. *)
Definition surroundings_ok (around : Surroundings) : Prop :=
  live_screen around = s ∧ (cursor_position s).1 < (size s).1 ∧ (cursor_position s).2 < (size s).2.

Definition ckeeps {A} (m : C A) (Q : A → Prop) : Prop :=
  ∀ c, commands_ok c → commands_ok (m c).2 ∧ ∀ x, (m c).1 = Some x → Q x.

Lemma ckeeps_ret {A} (x : A) (Q : A → Prop) : Q x → ckeeps (cret x) Q.
Proof. intros Hx c Hc. split; [done|]. by intros y [= <-]. Qed.
Lemma ckeeps_bind {A B} (m : C A) (k : A → C B) Q R :
  ckeeps m Q → (∀ x, Q x → ckeeps (k x) R) → ckeeps (cbind m k) R.
Proof.
  intros Hm Hk c Hc. destruct (Hm c Hc) as [H1 H2]. unfold cbind.
  destruct (m c) as [[x|] c']; cbn in *; [by apply Hk; auto|]. by split.
Qed.
Lemma ckeeps_reader {A} (m : M A) (Q : A → Prop) : keeps s m Q → ckeeps (on_reader m) Q.
Proof.
  intros Hm c [Hr Hd]. unfold on_reader. destruct (Hm _ Hr) as [H1 H2]. destruct (m (reader c)) as [x rd].
  split; [|exact H2]. by split.
Qed.
Lemma ckeeps_say text : ckeeps (say_and_handle text) any.
Proof.
  apply (ckeeps_bind _ _ any); [apply ckeeps_reader; by apply keeps_speak|]. intros _ _. by apply ckeeps_ret.
Qed.
Lemma ckeeps_options : ckeeps options (λ st, clip_wf (clipboard st)).
Proof. intros c Hc. split; [done|]. intros st [= <-]. apply Hc. Qed.
Lemma ckeeps_on_options f : (∀ st, clip_wf (clipboard st) → clip_wf (clipboard (f st))) → ckeeps (on_options f) any.
Proof. intros Hf. by apply ckeeps_reader, keeps_on_settings. Qed.
Lemma ckeeps_get : ckeeps cget commands_ok.
Proof. intros c Hc. split; [done|]. by intros x [= <-]. Qed.
Lemma ckeeps_put f : (∀ c, commands_ok c → commands_ok (f c)) → ckeeps (cput f) any.
Proof. intros Hf c Hc. split; [by apply Hf|done]. Qed.
Lemma ckeeps_if {A} (b : bool) (m1 m2 : C A) Q : ckeeps m1 Q → ckeeps m2 Q → ckeeps (if b then m1 else m2) Q.
Proof. by destruct b. Qed.
Lemma ckeeps_toggle f text :
  (∀ st, clip_wf (clipboard st) → clip_wf (clipboard (f st))) →
  ckeeps (on_options f >> do st <- options in say_and_handle (text st)) any.
Proof.
  intros Hf. apply (ckeeps_bind _ _ any); [by apply ckeeps_on_options|]. intros _ _.
  eapply ckeeps_bind; [apply ckeeps_options|]. intros st _. apply ckeeps_say.
Qed.

Lemma ckeeps_follow around : surroundings_ok around → ckeeps (toggle_review_follows_screen_cursor around) any.
Proof.
  intros (Hlive & Hr & Hc). unfold toggle_review_follows_screen_cursor.
  apply (ckeeps_bind _ _ any); [by apply ckeeps_on_options; intros []|]. intros _ _.
  eapply ckeeps_bind; [apply ckeeps_options|]. intros st _. apply ckeeps_if; [|apply ckeeps_say].
  eapply ckeeps_bind; [apply ckeeps_reader, keeps_cursor|]. intros old _.
  apply (ckeeps_bind _ _ any).
  { apply ckeeps_reader, keeps_on_view. intros v _. unfold follow_application_cursor. rewrite Hlive.
    destruct (negb (frozen around) && line_has_text _ _); (split; [reflexivity|]); exact (conj Hr Hc). }
  intros _ _. eapply ckeeps_bind; [apply ckeeps_reader, keeps_cursor|]. intros new _.
  apply (ckeeps_bind _ _ any); [by apply ckeeps_reader, keeps_hook|]. intros _ _. apply ckeeps_say.
Qed.

Lemma push_pending_bounded p d :
  len (pending_deletes d) ≤ MAX_PENDING_DELETE_INTENTS →
  len (pending_deletes (push_pending_delete p d)) ≤ MAX_PENDING_DELETE_INTENTS.
Proof.
  intros Hd. change (pending_deletes (push_pending_delete p d)) with
    ((if MAX_PENDING_DELETE_INTENTS <=? len (pending_deletes d) then tail (pending_deletes d) else pending_deletes d) ++ [p]).
  rewrite length_app. cbn [length]. destruct (N.leb_spec MAX_PENDING_DELETE_INTENTS (len (pending_deletes d))); [|lia].
  unfold MAX_PENDING_DELETE_INTENTS in *. destruct (pending_deletes d); cbn [tail length] in *; lia.
Qed.
Lemma defer_bounded v d :
  len (pending_deletes d) ≤ MAX_PENDING_DELETE_INTENTS →
  len (pending_deletes (defer_backspace v d)) ≤ MAX_PENDING_DELETE_INTENTS ∧
  len (pending_deletes (defer_delete v d)) ≤ MAX_PENDING_DELETE_INTENTS.
Proof.
  intros Hd. unfold defer_backspace, defer_delete. destruct (cursor_position _) as [row col]. cbv zeta.
  split; (destruct (bool_decide _); [done|]); (destruct (rows _ !! _); [|done]); by apply push_pending_bounded.
Qed.
Lemma ckeeps_deletes f : (∀ d, len (pending_deletes d) ≤ MAX_PENDING_DELETE_INTENTS →
    len (pending_deletes (f d)) ≤ MAX_PENDING_DELETE_INTENTS) → ckeeps (cput (λ c, c <| deletes := f (deletes c) |>)) any.
Proof. intros Hf. apply ckeeps_put. intros c [Hr Hd]. split; [exact Hr|]. by apply Hf. Qed.

Lemma ckeeps_read register : ckeeps (read_clipboard register) any.
Proof.
  intros c Hc. unfold read_clipboard. destruct register; [done|].
  destruct (system_read _ _ _) as [sys r]. split; [exact Hc|done].
Qed.
Lemma ckeeps_paste register : ckeeps (paste_from register) any.
Proof.
  eapply ckeeps_bind; [apply ckeeps_read|]. intros [[contents|]|e] _; [by apply ckeeps_ret|apply ckeeps_say..].
Qed.
Lemma ckeeps_say_from register : ckeeps (say_from register) any.
Proof. eapply ckeeps_bind; [apply ckeeps_read|]. intros [contents|e] _; apply ckeeps_say. Qed.
Lemma clip_put_wf t r : clip_wf r → clip_wf (clip_put t r).
Proof. intros Hr. by destruct (clip_step_refines (OpPut t) r Hr). Qed.
Lemma ckeeps_write register contents : ckeeps (write_clipboard register contents) any.
Proof.
  intros c [Hr Hd]. unfold write_clipboard. destruct register.
  - assert (∀ st, clip_wf (clipboard st) → clip_wf (clipboard (st <| clipboard := clip_put contents (clipboard st) |>))) as Hput
      by (intros st Hst; destruct st; by apply clip_put_wf).
    destruct (keeps_on_settings s _ Hput (reader c) Hr) as [H1 _].
    destruct (on_settings _ (reader c)) as [u rd]. cbn [snd] in H1.
    destruct (keeps_attempt world s Hworld (ClipboardChanged "push" (clip_get (clipboard (settings rd)))) rd H1) as [H2 _].
    destruct (attempt world _ rd) as [ok rd']. split; [|done]. by split.
  - destruct (system_write _ _ _ _) as [sys r]. split; [by split|done].
Qed.
Lemma ckeeps_copy hook_error : ckeeps (copy hook_error) any.
Proof.
  eapply ckeeps_bind; [apply ckeeps_get|]. intros c _. destruct (mark ← review_mark c; mark_position mark) as [p|]; [|apply ckeeps_say].
  destruct (selection p _) as [contents|]; [|apply ckeeps_say].
  eapply ckeeps_bind; [apply ckeeps_write|]. intros r _. apply ckeeps_say.
Qed.
Lemma ckeeps_move_clipboard move op boundary :
  (∀ r, clip_wf r → clip_wf (move r).1) → ckeeps (move_clipboard move op boundary) any.
Proof.
  intros Hmove. eapply ckeeps_bind; [apply ckeeps_options|]. intros st Hst. apply ckeeps_if; [apply ckeeps_say|].
  specialize (Hmove _ Hst). destruct (move (clipboard st)) as [ring moved].
  apply (ckeeps_bind _ _ any); [by apply ckeeps_on_options|]. intros _ _. apply ckeeps_if; [apply ckeeps_say|].
  apply (ckeeps_bind _ _ any); [by apply ckeeps_reader, keeps_perform|]. intros _ _.
  eapply ckeeps_bind; [apply ckeeps_options|]. intros st' _. apply ckeeps_say_from.
Qed.
Lemma ckeeps_click around button : ckeeps (click around button) any.
Proof.
  eapply ckeeps_bind; [apply ckeeps_get|]. intros c _. cbv zeta. apply ckeeps_if; [apply ckeeps_say|].
  destruct (encode_click _ _ _ _); [by apply ckeeps_ret|apply ckeeps_say].
Qed.

Lemma reader_command_keeps a m : reader_command a = Some m → keeps s m any.
Proof.
  destruct a; cbn [reader_command]; intros E; try discriminate E; injection E as <-.
  - unfold line_previous. apply keeps_move_and_read; [exact Hs|exact Hworld|apply up_within|by apply keeps_line_read].
  - unfold line_next. apply keeps_move_and_read; [exact Hs|exact Hworld|apply down_within|by apply keeps_line_read].
  - unfold line_previous. apply keeps_move_and_read; [exact Hs|exact Hworld|apply up_within|by apply keeps_line_read].
  - unfold line_next. apply keeps_move_and_read; [exact Hs|exact Hworld|apply down_within|by apply keeps_line_read].
  - by apply keeps_line_read.
  - unfold character_previous. apply keeps_move_and_read; [exact Hs|exact Hworld|apply left_within|by apply keeps_character_read].
  - unfold character_next. apply keeps_move_and_read; [exact Hs|exact Hworld|apply right_within|by apply keeps_character_read].
  - by apply keeps_character_read.
  - by apply keeps_phonetic.
  - unfold word_previous. apply keeps_move_and_read; [exact Hs|exact Hworld|apply prev_word_within|by apply keeps_word_read].
  - unfold word_next. apply keeps_move_and_read; [exact Hs|exact Hworld|apply next_word_within|by apply keeps_word_read].
  - by apply keeps_word_read.
  - unfold jump_top. apply keeps_jump_and_read; [exact Hworld|exact (top_target_ok s Hs)|by apply keeps_line_read].
  - unfold jump_bottom. apply keeps_jump_and_read; [exact Hworld|exact (bottom_target_ok s Hs)|by apply keeps_line_read].
  - unfold jump_first. apply keeps_jump_and_read; [exact Hworld|exact (first_target_ok is_alphabetic s Hs)|by apply keeps_character_read].
  - unfold jump_last. apply keeps_jump_and_read; [exact Hworld|exact (last_target_ok is_alphabetic s Hs)|by apply keeps_character_read].
  - by apply keeps_attributes.
  - by apply keeps_toggle_mode.
  - by apply keeps_start_setup.
  - by apply keeps_cancel_setup.
  - by apply keeps_commit_setup.
  - by apply keeps_toggle_setup_tabstop.
  - by apply keeps_exit_mode.
  - by apply keeps_row_move.
  - by apply keeps_row_move.
  - by apply keeps_row_move.
  - by apply keeps_row_move.
  - by apply keeps_column_move.
  - by apply keeps_column_move.
  - by apply keeps_column_move.
  - by apply keeps_column_move.
  - by apply keeps_cell_read.
  - by apply keeps_header_read.
  - by apply keeps_toggle_header_read.
  - by apply keeps_table_word_previous.
  - by apply keeps_table_word_next.
  - by apply keeps_table_word_read.
  - by apply keeps_table_character_previous.
  - by apply keeps_table_character_next.
  - by apply keeps_table_character_read.
Qed.

Lemma ckeeps_handle hook_error around a : surroundings_ok around → ckeeps (handle hook_error around a) any.
Proof.
  intros Haround. unfold handle.
  assert (ckeeps toggle_help any) as Hhelp by (by apply (ckeeps_toggle _ (λ st, bs _)); intros []).
  apply ckeeps_if; [exact Hhelp|]. eapply ckeeps_bind; [apply ckeeps_options|]. intros st _. apply ckeeps_if; [apply ckeeps_say|].
  assert (∀ k : ClipboardRegister → C CommandResult, (∀ register, ckeeps (k register) any) → ckeeps (do register <- default_register in k register) any) as Hregister.
  { intros k Hk. eapply ckeeps_bind; [|by intros x _; apply Hk]. eapply ckeeps_bind; [apply ckeeps_options|]. intros st' _.
    by apply (ckeeps_ret _ any). }
  destruct a; lazymatch goal with
    | |- ckeeps (say_and_handle _) _ => apply ckeeps_say
    | |- ckeeps (match ?r with _ => _ end) any =>
        destruct r as [m|] eqn:E;
          [apply (ckeeps_bind _ _ any); [by apply ckeeps_reader, (reader_command_keeps _ _ E)|intros _ _; by apply ckeeps_ret]
          |by apply ckeeps_ret]
    | |- _ => idtac
    end.
  - by apply (ckeeps_toggle _ (λ st, bs _)); intros [].
  - by apply ckeeps_follow.
  - by apply (ckeeps_toggle _ (λ st, bs _)); intros [].
  - apply (ckeeps_bind _ _ any); [by apply ckeeps_on_options; intros []|]. intros _ _. apply ckeeps_say.
  - apply (ckeeps_bind _ _ any); [by apply ckeeps_reader, keeps_perform|]. intros _ _. by apply ckeeps_ret.
  - apply ckeeps_click.
  - apply ckeeps_click.
  - apply (ckeeps_bind _ _ any); [apply ckeeps_deletes; intros d Hd; by apply defer_bounded|]. intros _ _.
    apply (ckeeps_bind _ _ any); [by apply ckeeps_put|]. intros _ _. by apply ckeeps_ret.
  - apply (ckeeps_bind _ _ any); [apply ckeeps_deletes; intros d Hd; by apply defer_bounded|]. intros _ _. by apply ckeeps_ret.
  - apply (ckeeps_bind _ _ any); [by apply ckeeps_put|]. intros _ _. apply ckeeps_say.
  - apply ckeeps_copy.
  - apply Hregister, ckeeps_paste.
  - apply ckeeps_paste.
  - apply ckeeps_paste.
  - apply Hregister, ckeeps_say_from.
  - apply ckeeps_say_from.
  - apply ckeeps_say_from.
  - apply ckeeps_move_clipboard. intros r Hr. pose proof (clip_step_refines OpPrev r Hr) as H.
    cbn [clip_step] in H. by destruct (clip_prev r), H.
  - apply ckeeps_move_clipboard. intros r Hr. pose proof (clip_step_refines OpNext r Hr) as H.
    cbn [clip_step] in H. by destruct (clip_next r), H.
  - by apply (ckeeps_toggle _ (λ st, bs "stop on focus loss " ++ bs _)); intros [].
Qed.
End Invariant.

(** * Properties *)

(** C30. Whatever actions follow each other, all of the built-in ones among them,
    and whatever speech, hooks and the system clipboard fail or change on the
    way, the review cursor stays on a cell of the screen, also when it is made
    to follow the cursor of the application; the table being navigated stays a
    well-formed table of the screen, tabstops stay sorted, the clipboard stays
    a ring of at most ten texts with one selected, and no more than 64
    deletions are expected.  So reading the attributes of the cell never
    misses it.  The screen is the live one and does not change meanwhile, and
    hooks change the clipboard through its operations only. *)
Theorem actions_keep_the_reader_well_formed hook_error s l c :
  grid_ok s → (∀ e st, clip_wf (clipboard st) → clip_wf (clipboard (world e st).2)) →
  Forall (λ p, surroundings_ok s p.1) l → commands_ok s c →
  let c' := run_actions hook_error l c in
  commands_ok s c' ∧
  let v := rd_view (reader c') in
  is_Some (cell (ReviewCursor.view_screen v) (review_cursor_position v).1 (review_cursor_position v).2).
Proof.
  intros Hs Hworld Hl Hc. cbv zeta.
  assert (commands_ok s (run_actions hook_error l c)) as Hok.
  { revert c Hc. unfold run_actions. induction Hl as [|[around a] l Ha _ IH]; intros c Hc; cbn [fold_left]; [done|].
    apply IH. by apply (ckeeps_handle s Hs Hworld hook_error around a Ha c Hc). }
  split; [done|]. destruct Hok as [[[Hv [Hr Hcol]] _] _]. unfold view_size in *. rewrite Hv in *. by apply grid_cell.
Qed.

(** ** What an action sends to the application *)

Definition yields {A} (m : C A) (P : A → Prop) : Prop := ∀ c x, (m c).1 = Some x → P x.

Lemma yields_bind {A B} (m : C A) (k : A → C B) P : (∀ x, yields (k x) P) → yields (cbind m k) P.
Proof. intros Hk c x. unfold cbind. destruct (m c) as [[y|] c']; [apply Hk|done]. Qed.
Lemma yields_if {A} (b : bool) (m1 m2 : C A) P : yields m1 P → yields m2 P → yields (if b then m1 else m2) P.
Proof. by destruct b. Qed.
Lemma yields_ret {A} (x : A) (P : A → Prop) : P x → yields (cret x) P.
Proof. by intros Hx c y [= <-]. Qed.
Lemma yields_say text (P : CommandResult → Prop) : P Handled → yields (say_and_handle text) P.
Proof. intros HP. apply yields_bind. intros _. by apply yields_ret. Qed.

(** The results that an action can have. *)
Definition allowed (a : Action) (r : CommandResult) : Prop :=
  match r with
  | Handled => a ∉ [Keymap.Backspace; Keymap.Delete]
  | ForwardInput => a ∈ [Keymap.Backspace; Keymap.Delete]
  | PasteText _ => a ∈ [Paste; PasteInternal; PasteSystem]
  | PtyInput _ => a ∈ [LeftClick; RightClick]
  end.

Lemma yields_say_from register : yields (say_from register) (eq Handled).
Proof. apply yields_bind. intros [t|e]; by apply yields_say. Qed.
Lemma yields_paste register (P : CommandResult → Prop) : P Handled → (∀ t, P (PasteText t)) → yields (paste_from register) P.
Proof. intros H1 H2. apply yields_bind. intros [[t|]|e]; [by apply yields_ret|by apply yields_say..]. Qed.
Lemma yields_move move op boundary : yields (move_clipboard move op boundary) (eq Handled).
Proof.
  apply yields_bind. intros st. apply yields_if; [by apply yields_say|]. destruct (move _) as [ring moved].
  apply yields_bind. intros _. apply yields_if; [by apply yields_say|]. do 2 (apply yields_bind; intros ?). apply yields_say_from.
Qed.
Lemma yields_click around button (P : CommandResult → Prop) : P Handled → (∀ t, P (PtyInput t)) → yields (click around button) P.
Proof.
  intros H1 H2. apply yields_bind. intros c. cbv zeta. apply yields_if; [by apply yields_say|].
  destruct (encode_click _ _ _ _); [by apply yields_ret|by apply yields_say].
Qed.
Lemma yields_weaken {A} (m : C A) (P Q : A → Prop) : (∀ x, P x → Q x) → yields m P → yields m Q.
Proof. intros HPQ Hm c x Hx. by eapply HPQ, Hm. Qed.
Lemma yields_copy hook_error : yields (copy hook_error) (eq Handled).
Proof.
  apply yields_bind. intros c. destruct (mark ← review_mark c; mark_position mark) as [p|]; [|by apply yields_say].
  destruct (selection p _); [|by apply yields_say]. apply yields_bind. intros r. by apply yields_say.
Qed.
Lemma yields_follow around : yields (toggle_review_follows_screen_cursor around) (eq Handled).
Proof.
  apply yields_bind. intros _. apply yields_bind. intros st. apply yields_if; [|by apply yields_say].
  do 4 (apply yields_bind; intros ?). by apply yields_say.
Qed.
Lemma yields_command m : yields (on_reader m >> cret Handled) (eq Handled).
Proof. apply yields_bind. intros _. by apply yields_ret. Qed.
Lemma yields_toggle f text : yields (on_options f >> do st <- options in say_and_handle (text st)) (eq Handled).
Proof. do 2 (apply yields_bind; intros ?). by apply yields_say. Qed.

Lemma handled_elsewhere a (m : C CommandResult) :
  a ∉ [Keymap.Backspace; Keymap.Delete] → yields m (eq Handled) → yields m (allowed a).
Proof. intros Ha. apply yields_weaken. by intros x <-. Qed.

Local Ltac send a :=
  match goal with Hr : (?m ?c).1 = Some ?r |- _ => refine ((_ : yields m (allowed a)) c r Hr) end.

Local Ltac allow := cbn [allowed]; rewrite ?elem_of_cons; first [by auto|intros [|[|[]%elem_of_nil]]%elem_of_cons; done|set_solver].
Local Ltac elsewhere :=
  match goal with Hr : (?m ?c).1 = Some ?r |- allowed ?a _ =>
    refine (handled_elsewhere a m _ _ c r Hr); [by apply (bool_decide_unpack _); vm_compute|] end.

(** In help mode an action only says what it would do, but for the one that
    leaves help mode.  Otherwise keys go on to the application for the two
    editing actions only, which are always forwarded; text is pasted by the
    three actions that paste and input is made up by clicks alone: no action
    that reads or navigates sends the application anything. *)
Theorem actions_send_what_they_may hook_error around a c :
  (help_mode (settings (reader c)) = true → a ≠ ToggleHelp →
     handle hook_error around a c = say_and_handle (help_text a) c) ∧
  (help_mode (settings (reader c)) = false → ∀ r, (handle hook_error around a c).1 = Some r → allowed a r).
Proof.
  split; [intros Hh Ha; unfold handle; rewrite bool_decide_eq_false_2 by done; unfold cbind, options; cbn; by rewrite Hh|].
  intros Hh. unfold handle.
  destruct (bool_decide (a = ToggleHelp)) eqn:Et.
  { apply bool_decide_eq_true in Et as ->. revert c Hh. intros c _ r.
    apply handled_elsewhere; [by vm_compute; set_solver|]. by apply yields_toggle. }
  unfold cbind at 1, options at 1. cbn [fst snd]. rewrite Hh. clear Et Hh. revert c.
  assert (∀ text, yields (say_and_handle text) (eq Handled)) as Hsay by (intros text; by apply yields_say).
  destruct a; intros c r Hr; try (elsewhere;
    first [ apply Hsay | apply yields_command | apply yields_follow | apply yields_copy | apply yields_move | apply yields_say_from
          | by apply yields_toggle
          | by (apply yields_bind; intros ?; apply Hsay)
          | by (apply yields_bind; intros ?; apply yields_say_from)
          | by (apply yields_bind; intros ?; apply yields_bind; intros ?; apply yields_say_from)
          | by (apply yields_bind; intros ?; apply yields_ret) ]).
  - send LeftClick. apply yields_click; [|intros ?]; allow.
  - send RightClick. apply yields_click; [|intros ?]; allow.
  - send Keymap.Backspace. do 2 (apply yields_bind; intros ?). apply yields_ret. allow.
  - send Keymap.Delete. apply yields_bind; intros ?. apply yields_ret. allow.
  - send Paste. apply yields_bind; intros ?. apply yields_paste; [|intros ?]; allow.
  - send PasteInternal. apply yields_paste; [|intros ?]; allow.
  - send PasteSystem. apply yields_paste; [|intros ?]; allow.
Qed.

End Commands.

(** * Examples *)

(** A world in which speech and hooks succeed and hooks do nothing, and one
    without a native clipboard. *)
Definition quiet_world (e : Effect) (st : Settings) : bool * Settings := (true, st).
Definition no_clipboard : Arboard unit unit := {|
  arboard_new := Err ContentNotAvailable; arboard_get_text h := (h, Err ContentNotAvailable);
  arboard_set_text _ h := (h, Err ContentNotAvailable); arboard_clear h := (h, Err ContentNotAvailable) |}.
Definition small_commands : Commands (Handle := unit) (Mark := unit) := {|
  reader := small_reader; review_mark := None; deletes := {| pending_deletes := []; input_sequence := 0 |};
  tracking_mode := TrackingOn; system := system_default |}.
Definition at_home : Surroundings := {|
  title := bs "Terminal"; now := bs "12:30"; frozen := false; live_screen := small_screen;
  tracked_view := {| view_id := 1; presentation_tracking := false; live_revision := 0; presented_revision := 0;
    InputEcho.view_screen := small_screen; prev_screen := small_screen; accessibility_screen_transition_pending := false |} |}.
Definition run_small (l : list Action) : Commands :=
  run_actions quiet_world ascii_letter no_clipboard (λ _, bs "error") (λ _, tt) (λ _, Some tt)
    (λ _ _, Some (bs "copied text")) [] (List.map (λ a, (at_home, a)) l) small_commands.
Definition spoken (c : Commands (Handle := unit) (Mark := unit)) : list (list N) :=
  omap (λ e, match e with Speech text _ => Some text | _ => None end) (effects (settings (reader c))).

(** Entering table mode, a row down, a column on: the cell that is spoken. *)
Example table_walk :
  let c := run_small [ToggleTableMode; TableRowNext; TableColNext] in
  review_cursor_position (rd_view (reader c)) = (1, 3) ∧
  spoken c = [bs "table mode on"; [97]; [99]; [98]; [100]].
Proof. vm_compute. done. Qed.

(** Following is switched off and on again: the cursor is back at the
    application's; a text is copied and said; in help mode nothing is done. *)
Example options_and_clipboard :
  let c := run_small [RevLineNext; ToggleReviewCursorFollowsScreenCursor; ToggleReviewCursorFollowsScreenCursor;
                      SetMark; Copy; SayClipboard; ToggleHelp; SayTime] in
  review_cursor_position (rd_view (reader c)) = (0, 0) ∧
  drop 1 (spoken c) = [bs "review cursor not following screen cursor"; bs "review cursor following screen cursor";
    bs "mark set"; bs "copied"; bs "copied text"; bs "entering help. Press this key again to exit"; bs "say the time"].
Proof. vm_compute. done. Qed.

Lemma small_surroundings l : Forall (λ p : Surroundings * Action, surroundings_ok small_screen p.1) (List.map (λ a, (at_home, a)) l).
Proof. induction l as [|a l IH]; [constructor|]. cbn. constructor; [by vm_compute|done]. Qed.
Lemma small_commands_ok : commands_ok small_screen small_commands.
Proof. split; [exact small_reader_ok|]. vm_compute. discriminate. Qed.

Lemma actions_keep_the_reader_well_formed_witness :
  commands_ok small_screen (run_small [ToggleTableMode; TableRowNext; ToggleReviewCursorFollowsScreenCursor; Keymap.Backspace; SetMark; Copy]).
Proof.
  refine (proj1 (actions_keep_the_reader_well_formed quiet_world ascii_letter no_clipboard (λ _, bs "error") (λ _, tt)
    (λ _, Some tt) (λ _ _, Some (bs "copied text")) [] small_screen
    (List.map (λ a, (at_home, a)) [ToggleTableMode; TableRowNext; ToggleReviewCursorFollowsScreenCursor; Keymap.Backspace; SetMark; Copy])
    small_commands small_grid_ok _ (small_surroundings _) small_commands_ok)).
  intros e st Hst. exact Hst.
Defined.
