(* ===== verification/Commit.v ===== *)
(** The commit of one change of the accessible screen (src/src/app/pty.rs, the
    closure under [with_live_screen] of the finalization): what of the change is
    spoken and in which order, the review cursor, the hook of the user, and the
    finalization of the view.

    When to commit is [Stabilization]; a deletion that the same turn of the loop
    has already confirmed has left the queue before ([InputEcho]).  The pieces
    are [InputEcho] (deletions), [AutoRead] (highlights, automatic reading,
    cursor tracking) and [ReviewCursor].  The text a prompt holds, which
    [View::active_semantic_input] takes from the marks of the shell and the
    history of the engine, comes with the state. *)

From S2P Require Import Prelude Terminal Screen TerminalUpdate Table ReviewCursor FieldDiff InputEcho AutoRead.
Local Open Scope N_scope.

(** * State *)

Record CommitState := {
  live : Live;
  commit_view : N;
  commit_live_revision : N;
  commit_presented_revision : N;
  frozen : bool;
  transition_pending : bool;
  active_semantic_input : option (list N);
  review : ReviewView;
  deletes : Deletes;
  pending_history_navigation : bool
}.

Definition tracked_view (c : CommitState) : TrackedView := {|
  view_id := commit_view c; presentation_tracking := tracked (view (live c));
  live_revision := commit_live_revision c; presented_revision := commit_presented_revision c;
  InputEcho.view_screen := screen_now (view (live c)); prev_screen := screen_prev (view (live c));
  accessibility_screen_transition_pending := transition_pending c
|}.

Definition K (A : Type) : Type := CommitState → option A * CommitState.
Definition kret {A} (x : A) : K A := λ c, (Some x, c).
Definition kbind {A B} (m : K A) (k : A → K B) : K B := λ c,
  match m c with (Some x, c) => k x c | (None, c) => (None, c) end.
Definition kget : K CommitState := λ c, (Some c, c).
Definition kput (f : CommitState → CommitState) : K unit := λ c, (Some tt, f c).
Definition on_live {A} (m : L A) : K A := λ c, let '(r, st) := m (live c) in (r, c <| live := st |>).

Declare Scope commit_scope.
Local Open Scope commit_scope.
Notation "'let+' x := m 'in' k" := (kbind m (λ x, k)) (at level 10, x name, m at level 100, k at level 200) : commit_scope.
Notation "m >>> k" := (kbind m (λ _ : unit, k)) (at level 100, k at level 200, right associativity) : commit_scope.

Section Commit.

Context (scripts : list LiveEffect → LiveEffect → bool * list ScriptAct).
Context (on_live_read : option (list LiveEffect → list N → N → bool → option (option (list N)))).
Context (diff_lines diff_graphemes : list N → list N → list (ChangeTag * list N)).
Context (is_alphanumeric : N → bool).

(** * What is spoken of a change *)

(** [resolve_pending_delete]: the confirmed deletions leave the queue and are
    spoken until one fails. *)
Definition resolve_pending_delete : K bool := λ c,
  if bool_decide (pending_deletes (deletes c) = []) then (Some false, c) else
  let fates := fate (tracked_view c) <$> pending_deletes (deletes c) in
  (on_live (AutoRead.speak_each scripts (said fates)) >>> kret (negb (bool_decide (said fates = []))))
    (c <| deletes := ((deletes c) <| pending_deletes := retained fates |>) |>).

Definition take_pending_history_navigation : K bool := λ c,
  (Some (pending_history_navigation c), c <| pending_history_navigation := false |>).

Definition semantic_text (input : list N) : list N := if bool_decide (input = []) then bs "blank" else input.

(** The line recalled from the history of a prompt whose marks are known. *)
Definition semantic_history_read : K bool :=
  let+ pending := take_pending_history_navigation in
  let+ c := kget in
  match pending, active_semantic_input c with
  | true, Some input => on_live (lspeak scripts (semantic_text input) false) >>> kret true
  | _, _ => kret false
  end.

Definition highlights_read : L unit := λ st,
  if highlight_tracking_enabled st then track_highlighting scripts st else (Some tt, st).

Definition automatic_read (recent_input : bool) : L bool := λ st,
  if auto_read_enabled st
  then auto_read_impl scripts on_live_read diff_lines diff_graphemes is_alphanumeric recent_input st
  else (Some false, st).

Definition read_changes (recent_input : bool) : K unit :=
  let+ deleted := resolve_pending_delete in
  let+ history := semantic_history_read in
  let+ read_text :=
    if (history : bool) then kret true
    else on_live highlights_read >>>
         let+ read := on_live (automatic_read recent_input) in kret (deleted || read) in
  if recent_input && negb read_text then on_live (track_cursor scripts) else kret tt.

(** * The commit *)

Definition screen_transition (c : CommitState) : bool :=
  negb (bool_decide (screen (screen_prev (view (live c))) = screen (screen_now (view (live c))))) || transition_pending c.

Definition read_transition : K unit :=
  let+ c := kget in
  if bool_decide (screen (screen_now (view (live c))) = AlternateScreen)
  then let+ _ := on_live (speak_application_cursor_line scripts) in kret tt else kret tt.

Definition synchronize_pending_review_cursor : K unit :=
  let+ c := kget in
  if review_follows_screen_cursor (live c) && review_cursor_follow_pending (review c) then
    let old := review_cursor_position (review c) in
    kput (λ c, c <| review := follow_application_cursor (frozen c) (screen_now (view (live c))) (review c) |>) >>>
    let+ c := kget in
    let new := review_cursor_position (review c) in
    if bool_decide (old = new) then kret tt else on_live (lperform scripts (LiveReviewMove old new))
  else kret tt.

Definition finalize_changes (c : CommitState) : CommitState :=
  let v := view (live c) in
  if (frozen c && negb (tracked v)) || (tracked v && negb (accessibility_has_unfinalized_presentation v)) then c else
  let v := ((v <| screen_prev := screen_now v |>) <| accessibility_update_summary := default_summary |>)
             <| accessibility_has_unfinalized_presentation := false |> in
  let r := (review c) <| review_cursor_follow_pending := negb (frozen c) && review_cursor_screen_transition_pending (review c) |> in
  (c <| live := ((live c) <| view := v |>) |>) <| review := r |>.

Definition commit_changes (overlay_active recent_input : bool) : K unit :=
  let+ c := kget in
  let transition := screen_transition c in
  let stable := transition && has_visible_non_whitespace_content (screen_now (view (live c))) in
  (if overlay_active then kret tt else if transition then read_transition else read_changes recent_input) >>>
  synchronize_pending_review_cursor >>>
  kput (λ c, if stable then c <| transition_pending := false |>
             else if transition then c <| transition_pending := true |> else c) >>>
  on_live (lperform scripts (LiveScreenUpdate overlay_active)) >>>
  kput finalize_changes.

(** * The pieces *)

(** What reading leaves as it was: the view but for the level of indentation
    last reported, the mode of cursor tracking, and the focus. *)
Definition same_screens (st st' : Live) : Prop :=
  (∃ level, view st' = (view st) <| application_cursor_indent_level := level |>) ∧
  cursor_tracking_mode st' = cursor_tracking_mode st ∧ terminal_focused st' = terminal_focused st.

Lemma same_level v : v <| application_cursor_indent_level := application_cursor_indent_level v |> = v.
Proof. by destruct v. Qed.

Lemma kept_same st st' : kept st st' → same_screens st st'.
Proof.
  intros (Hv & Hm & Hf). split; [|done]. exists (application_cursor_indent_level (view st)). by rewrite Hv, same_level.
Qed.
Lemma same_refl st : same_screens st st.
Proof. by apply kept_same. Qed.
Lemma same_trans st1 st2 st3 : same_screens st1 st2 → same_screens st2 st3 → same_screens st1 st3.
Proof.
  intros ([l1 V1] & M1 & F1) ([l2 V2] & M2 & F2). split; [exists l2|by split; etrans].
  rewrite V2, V1. by destruct (view st1).
Qed.

Lemma speak_each_effects texts st :
  kept st (AutoRead.speak_each scripts texts st).2 ∧
  ∃ new, live_effects (AutoRead.speak_each scripts texts st).2 = live_effects st ++ new ∧
    utterances new `prefix_of` sayable texts ∧ (terminal_focused st = false → new = []) ∧
    (is_Some (AutoRead.speak_each scripts texts st).1 → terminal_focused st = true → utterances new = sayable texts).
Proof.
  revert st. induction texts as [|text texts IH]; intros st.
  { split; [done|]. exists []. by rewrite app_nil_r. }
  assert (sayable (text :: texts) = sayable [text] ++ sayable texts) as Hcons by apply (List.filter_app _ [text]).
  cbn [AutoRead.speak_each]. unfold lbind. rewrite Hcons.
  destruct (speak_effects scripts text false st) as (K1 & n1 & E1 & P1 & U1 & A1).
  destruct (lspeak scripts text false st) as [[[]|] st1]; cbn [fst snd] in *.
  - destruct (IH st1) as (K2 & n2 & E2 & P2 & U2 & A2). rewrite (proj2 (proj2 K1)) in U2, A2.
    split; [by eapply kept_trans|]. exists (n1 ++ n2). rewrite E2, E1, app_assoc, utterances_app. split; [done|].
    destruct (terminal_focused st).
    + rewrite A1 by done. split_and!; [by apply prefix_app|done|]. intros Hs _. by rewrite A2.
    + rewrite U1, U2 by done. split_and!; [apply prefix_nil|done|done].
  - split; [done|]. exists n1. split_and!; [done| |done|intros Hs; by destruct Hs].
    by apply prefix_app_r.
Qed.

(** The report of the indentation: at most one, after which there is nothing
    new to report. *)
Definition settled (v : AccessibleView) : Prop := (application_cursor_indentation_level v).1.2 = false.

Lemma settled_level v : settled (application_cursor_indentation_level v).2.
Proof.
  unfold settled, application_cursor_indentation_level. destruct v as [now prev u level t p]. cbn.
  destruct (cursor_position now) as [row col]. cbn. destruct (find_cell _ _ _ _ _ _) as [[r c]|]; cbn; by rewrite N.eqb_refl.
Qed.

Definition is_indentation (t : list N) : Prop := ∃ level, t = indent_report level.

Lemma indentation_effects st :
  let '(r, st') := report_application_cursor_indentation_changes scripts st in
  same_screens st st' ∧
  ∃ new, live_effects st' = live_effects st ++ new ∧ (spoken new ≤ 1)%nat ∧ Forall is_indentation (utterances new) ∧
    (settled (view st) → new = []) ∧ (new ≠ [] → settled (view st')).
Proof.
  unfold report_application_cursor_indentation_changes, lbind, lget. destruct (report_indentation st); cbn [negb].
  2: { split; [apply same_refl|]. exists []. rewrite app_nil_r. split_and!; first [done|apply Nat.le_0_l|constructor|idtac]. }
  pose proof (settled_level (view st)) as Hset. unfold settled in *.
  assert (∃ l, (application_cursor_indentation_level (view st)).2 = (view st) <| application_cursor_indent_level := l |>) as [l Hl].
  { unfold application_cursor_indentation_level. destruct (cursor_position _). by eexists. }
  destruct (application_cursor_indentation_level (view st)) as [[level changed] v]. cbn [fst snd] in *. subst v.
  set (st1 := st <| view := _ |>). assert (same_screens st st1) as S1 by (split; [by exists l|done]).
  destruct changed.
  2: { split; [exact S1|]. exists []. rewrite app_nil_r. split_and!; first [done|apply Nat.le_0_l|constructor|idtac]. }
  destruct (speak_effects scripts (indent_report level) false st1) as (K & new & E & P & _ & _).
  destruct (lspeak scripts (indent_report level) false st1) as [r st2]. cbn [fst snd] in *.
  split; [by eapply same_trans, kept_same|]. exists new. split_and!.
  - exact E.
  - rewrite spoken_utterances. by apply prefix_length in P.
  - destruct P as [l' P]. assert (Forall is_indentation (utterances new ++ l')) as HF; [|by apply Forall_app in HF as [? _]].
    rewrite <-P, sayable_one by done. repeat constructor. by exists level.
  - done.
  - intros _. by rewrite (proj1 K).
Qed.

(** With the hook asked about no empty text, an answer that nothing was read
    means that nothing was said. *)
Definition told (l : list LiveEffect) : nat := if existsb asked_about_nothing l then O else spoken l.

Lemma told_app l1 l2 : (told (l1 ++ l2) ≤ told l1 + told l2)%nat.
Proof.
  unfold told. rewrite existsb_app, spoken_app. destruct (existsb _ l1), (existsb _ l2); cbn; lia.
Qed.

(** Automatic reading: the indentation, then at most one text. *)
Lemma automatic_read_effects recent st :
  let '(r, st') := automatic_read recent st in
  same_screens st st' ∧
  ∃ indentation read, live_effects st' = live_effects st ++ indentation ++ read ∧
    (spoken indentation ≤ 1)%nat ∧ (spoken read ≤ 1)%nat ∧ Forall is_indentation (utterances indentation) ∧
    (settled (view st) → indentation = []) ∧ (indentation ≠ [] → settled (view st')) ∧
    (r = Some false → existsb asked_about_nothing read = true ∨ spoken read = O).
Proof.
  unfold automatic_read. destruct (auto_read_enabled st).
  2: { split; [apply same_refl|]. exists [], []. cbn [app]. rewrite app_nil_r.
       split_and!; first [done|apply Nat.le_0_l|intros; by right|constructor]. }
  unfold auto_read_impl. unfold lbind at 1, lget at 1. unfold lbind.
  set (report := if negb (_ && _) then _ else _).
  assert (let '(r, st') := report st in same_screens st st' ∧
    ∃ new, live_effects st' = live_effects st ++ new ∧ (spoken new ≤ 1)%nat ∧ Forall is_indentation (utterances new) ∧
      (settled (view st) → new = []) ∧ (new ≠ [] → settled (view st'))) as Hreport.
  { unfold report. destruct (negb _); [apply indentation_effects|]. cbn. split; [apply same_refl|]. exists [].
    rewrite app_nil_r. split_and!; first [done|apply Nat.le_0_l|constructor|idtac]. }
  destruct (report st) as [[[]|] st1]; destruct Hreport as (S1 & ind & E1 & L1 & F1 & N1 & N1').
  2: { split; [done|]. exists ind, []. rewrite app_nil_r. split_and!; first [done|apply Nat.le_0_l|idtac]. }
  destruct (says_body scripts on_live_read diff_lines diff_graphemes is_alphanumeric spoken 1
    ltac:(intros; by rewrite spoken_app) ltac:(done) ltac:(done) ltac:(done) recent st1) as (K & read & E2 & L2).
  destruct (says_body scripts on_live_read diff_lines diff_graphemes is_alphanumeric told 0 told_app
    ltac:(intros l; unfold told; destruct (existsb _ l); lia) ltac:(lia)
    ltac:(intros l Hl _; unfold told; by rewrite Hl) recent st1) as (_ & read' & E2' & L2').
  destruct (auto_read_body _ _ _ _ _ recent st1) as [r st2]. cbn [fst snd] in *. rewrite E2 in E2'.
  apply app_inv_head in E2' as <-. split; [by eapply same_trans, kept_same|]. exists ind, read.
  rewrite E2, E1, app_assoc. split_and!; try done.
  - destruct r as [[]|]; cbn in L2; lia.
  - intros H. by rewrite (proj1 K); apply N1'.
  - intros ->. unfold told in L2'. cbn in L2'. destruct (existsb _ read); [by left|right; lia].
Qed.

Definition new_highlights (v : AccessibleView) : list (list N) :=
  List.filter (λ h, negb (bool_decide (h ∈ get_highlights (screen_prev v)))) (get_highlights (screen_now v)).

Lemma highlights_effects st :
  kept st (highlights_read st).2 ∧
  ∃ new, live_effects (highlights_read st).2 = live_effects st ++ new ∧ utterances new `prefix_of` sayable (new_highlights (view st)).
Proof.
  unfold highlights_read. destruct (highlight_tracking_enabled st).
  2: { split; [done|]. exists []. rewrite app_nil_r. split; [done|apply prefix_nil]. }
  destruct (speak_each_effects (new_highlights (view st)) st) as (K & new & E & P & _). split; [exact K|]. by exists new.
Qed.

Definition cursor_text (v : AccessibleView) : list (list N) := sayable (option_list (cursor_report v)).

Lemma track_effects st :
  let '(r, st') := track_cursor scripts st in
  ∃ indentation moved, live_effects st' = live_effects st ++ indentation ++ moved ∧
    (spoken indentation ≤ 1)%nat ∧ Forall is_indentation (utterances indentation) ∧ (settled (view st) → indentation = []) ∧
    utterances moved `prefix_of` cursor_text (view st).
Proof.
  unfold track_cursor, cursor_text. unfold lbind at 1, lget at 1. cbv zeta. destruct (cursor_tracking_mode st).
  2: { exists [], []. cbn [app]. rewrite app_nil_r. split_and!; first [done|apply Nat.le_0_l|apply prefix_nil|constructor]. }
  unfold lbind. pose proof (indentation_effects st) as Hind.
  destruct (report_application_cursor_indentation_changes scripts st) as [[[]|] st1].
  2: { destruct Hind as (_ & ind & E & L & F & N & _). exists ind, []. rewrite app_nil_r. split_and!; try done. apply prefix_nil. }
  destruct Hind as (S1 & ind & E & L & F & N & _). destruct (cursor_report (view st)) as [text|].
  2: { exists ind, []. rewrite app_nil_r. split_and!; try done. }
  destruct (speak_effects scripts text false st1) as (K & new & E2 & P & _).
  destruct (lspeak scripts text false st1) as [r st2]. cbn [fst snd] in *. exists ind, new.
  rewrite E2, E, app_assoc. done.
Qed.

(** * Running the pieces on the state of the commit *)

Lemma on_live_run {A} (m : L A) c : on_live m c = ((m (live c)).1, c <| live := (m (live c)).2 |>).
Proof. unfold on_live. by destruct (m (live c)). Qed.

Definition confirmed_deletions (c : CommitState) : list (list N) := said (fate (tracked_view c) <$> pending_deletes (deletes c)).
Definition recalled_line (c : CommitState) : option (list N) :=
  if pending_history_navigation c then semantic_text <$> active_semantic_input c else None.

Lemma resolve_effects c :
  let '(r, c') := resolve_pending_delete c in
  kept (live c) (live c') ∧ recalled_line c' = recalled_line c ∧
  ∃ new, live_effects (live c') = live_effects (live c) ++ new ∧ utterances new `prefix_of` sayable (confirmed_deletions c) ∧
    (is_Some r → r = Some (negb (bool_decide (confirmed_deletions c = []))) ∧
      (terminal_focused (live c) = true → utterances new = sayable (confirmed_deletions c))).
Proof.
  unfold resolve_pending_delete, confirmed_deletions. case_bool_decide as Hq.
  { rewrite Hq. cbn. split_and!; [done|done|]. exists []. rewrite app_nil_r. done. }
  set (fates := fate (tracked_view c) <$> pending_deletes (deletes c)). unfold kbind. rewrite on_live_run.
  set (c1 := c <| deletes := _ |>). change (live c1) with (live c).
  destruct (speak_each_effects (said fates) (live c)) as (K & new & E & P & _ & A).
  destruct (AutoRead.speak_each scripts (said fates) (live c)) as [[[]|] st1]; cbn [fst snd] in *;
    (split_and!; [exact K|done|]; exists new; split_and!; [exact E|exact P|]).
  - intros _. split; [done|]. by apply A.
  - intros Hs. by destruct Hs.
Qed.

Lemma history_effects c :
  let '(r, c') := semantic_history_read c in
  match recalled_line c with
  | Some line => ∃ new, live_effects (live c') = live_effects (live c) ++ new ∧ utterances new `prefix_of` [line] ∧
                   (r = Some true ∨ r = None)
  | None => r = Some false ∧ live c' = live c
  end.
Proof.
  unfold semantic_history_read, take_pending_history_navigation, recalled_line, kbind at 1, kbind at 1, kget.
  set (c1 := c <| pending_history_navigation := false |>). change (active_semantic_input c1) with (active_semantic_input c).
  destruct (pending_history_navigation c); [|done]. destruct (active_semantic_input c) as [input|]; [|done].
  cbn [fmap option_fmap option_map]. unfold kbind. rewrite on_live_run. change (live c1) with (live c).
  destruct (speak_effects scripts (semantic_text input) false (live c)) as (_ & new & E & P & _).
  assert (sayable [semantic_text input] = [semantic_text input]) as Hs.
  { apply sayable_one. unfold semantic_text. by case_bool_decide. }
  rewrite Hs in P. destruct (lspeak scripts (semantic_text input) false (live c)) as [[[]|] st1]; cbn [fst snd] in *;
    exists new; (split_and!; [exact E|exact P|]); first [by left|by right].
Qed.

(** * What one change makes the reader say *)

(** What is not a deletion or a recalled line: the new highlights, at most one
    change of indentation, and at most one text that is either read of the
    output or what the cursor moved to; the latter only right after input, and
    when neither a deletion nor output was read.  Only a hook that answers the
    empty text with another can add one. *)
Definition screen_reading (recent_input : bool) (deletions : list (list N)) (v : AccessibleView) (said_now : list LiveEffect) : Prop :=
  ∃ highlighted indentation read indentation' moved,
    said_now = highlighted ++ indentation ++ read ++ indentation' ++ moved ∧
    utterances highlighted `prefix_of` sayable (new_highlights v) ∧
    (spoken (indentation ++ indentation') ≤ 1)%nat ∧ Forall is_indentation (utterances (indentation ++ indentation')) ∧
    (spoken read ≤ 1)%nat ∧ utterances moved `prefix_of` cursor_text v ∧
    (indentation' ++ moved ≠ [] → recent_input = true ∧ deletions = []) ∧
    ((spoken (read ++ moved) ≤ 1)%nat ∨ existsb asked_about_nothing read = true).

(** What is spoken of a change that stays on its screen: the deletions it
    confirms, then the line recalled from the history or what is on the
    screen. *)
Definition change_reading (recent_input finished : bool) (c : CommitState) (said_now : list LiveEffect) : Prop :=
  ∃ deleted rest, said_now = deleted ++ rest ∧
    utterances deleted `prefix_of` sayable (confirmed_deletions c) ∧
    (finished = true → terminal_focused (live c) = true → utterances deleted = sayable (confirmed_deletions c)) ∧
    match recalled_line c with
    | Some line => utterances rest `prefix_of` [line]
    | None => screen_reading recent_input (confirmed_deletions c) (view (live c)) rest
    end.

Lemma spoken_cursor v l : utterances l `prefix_of` cursor_text v → (spoken l ≤ 1)%nat.
Proof.
  intros H. apply prefix_length in H. rewrite spoken_utterances. etrans; [exact H|]. unfold cursor_text.
  destruct (cursor_report v) as [t|]; [|apply Nat.le_0_l]. by destruct t; apply Nat.leb_le.
Qed.

Lemma indentation_once ind ind' v :
  (ind ≠ [] → settled v) → (settled v → ind' = []) →
  (spoken ind ≤ 1)%nat → (spoken ind' ≤ 1)%nat → (spoken (ind ++ ind') ≤ 1)%nat.
Proof.
  intros H1 H2 L1 L2. rewrite spoken_app. destruct ind as [|e ind]; [cbn; lia|].
  rewrite H2 by by apply H1. change (spoken []) with O. lia.
Qed.

(** The part of [read_changes] after the recalled line. *)
Definition read_screen (recent_input deleted : bool) : K unit :=
  let+ read_text := on_live highlights_read >>>
    let+ read := on_live (automatic_read recent_input) in kret (deleted || read) in
  if recent_input && negb read_text then on_live (track_cursor scripts) else kret tt.

Lemma read_screen_effects recent deletions c :
  let '(r, c') := read_screen recent (negb (bool_decide (deletions = []))) c in
  ∃ new, live_effects (live c') = live_effects (live c) ++ new ∧ screen_reading recent deletions (view (live c)) new.
Proof.
  unfold read_screen, kbind. rewrite on_live_run.
  destruct (highlights_effects (live c)) as (K1 & hl & E1 & P1). destruct (highlights_read (live c)) as [[[]|] st1]; cbn [fst snd] in *.
  2: { exists hl. split; [exact E1|]. exists hl, [], [], [], []. rewrite app_nil_r.
       split_and!; first [done|apply Nat.le_0_l|apply prefix_nil|left; apply Nat.le_0_l|constructor]. }
  rewrite on_live_run. change (live (c <| live := st1 |>)) with st1.
  pose proof (automatic_read_effects recent st1) as Ha.
  destruct (automatic_read recent st1) as [[read|] st2]; cbn [fst snd] in *;
    destruct Ha as (S2 & ind & rd & E2 & L2 & R2 & F2 & N2 & N2' & A2).
  2: { exists (hl ++ ind ++ rd). split; [cbn; by rewrite E2, E1, <-!app_assoc|]. exists hl, ind, rd, [], []. rewrite !app_nil_r.
       split_and!; first [done|apply prefix_nil|by left]. }
  set (c2 := _ <| live := st2 |>). cbn [kret].
  destruct (recent && negb (negb (bool_decide (deletions = [])) || read)) eqn:Eq.
  2: { exists (hl ++ ind ++ rd). split; [cbn; by rewrite E2, E1, <-!app_assoc|]. exists hl, ind, rd, [], []. rewrite !app_nil_r.
       split_and!; first [done|apply prefix_nil|by left]. }
  apply andb_true_iff in Eq as [-> Eq]. rewrite negb_orb, negb_involutive in Eq.
  apply andb_true_iff in Eq as [Hdel%bool_decide_eq_true ->%negb_true_iff].
  rewrite on_live_run. change (live c2) with st2. pose proof (track_effects st2) as Ht.
  destruct (track_cursor scripts st2) as [r st3]. destruct Ht as (ind' & moved & E3 & L3 & F3 & N3 & P3). cbn [fst snd] in *.
  assert (cursor_text (view st2) = cursor_text (view (live c))) as Hc.
  { destruct S2 as ([l ->] & _). by rewrite (proj1 K1). }
  rewrite Hc in P3. exists (hl ++ ind ++ rd ++ ind' ++ moved). split; [cbn; by rewrite E3, E2, E1, <-!app_assoc|].
  exists hl, ind, rd, ind', moved. split_and!; try done.
  - by eapply indentation_once.
  - rewrite utterances_app. by apply Forall_app.
  - destruct (A2 eq_refl) as [?|H]; [by right|left]. rewrite spoken_app, H. by eapply spoken_cursor in P3.
Qed.

Lemma read_changes_effects recent c :
  let '(r, c') := read_changes recent c in
  ∃ new, live_effects (live c') = live_effects (live c) ++ new ∧ change_reading recent (bool_decide (is_Some r)) c new.
Proof.
  unfold read_changes. unfold kbind at 1. pose proof (resolve_effects c) as Hd.
  destruct (resolve_pending_delete c) as [[deleted|] c1]; destruct Hd as (K1 & R1 & del & E1 & P1 & A1).
  2: { exists del. split; [done|]. exists del, []. rewrite app_nil_r. split_and!; try done.
       destruct (recalled_line c); [apply prefix_nil|]. exists [], [], [], [], [].
       split_and!; first [done|apply Nat.le_0_l|apply prefix_nil|by left; apply Nat.le_0_l|constructor]. }
  assert (is_Some (Some deleted)) as Hsome by done. destruct (A1 Hsome) as [[= ->] A1']. clear A1. unfold kbind at 1. pose proof (history_effects c1) as Hh. rewrite R1 in Hh.
  destruct (recalled_line c) as [line|] eqn:Hr.
  - destruct (semantic_history_read c1) as [r c2] eqn:Es. destruct Hh as (line_said & E2 & P2 & Hcase).
    assert (∃ r', (match r with Some history => λ c2, (let+ read_text := if (history : bool) then kret true else
        on_live highlights_read >>> (let+ read := on_live (automatic_read recent) in
        kret (negb (bool_decide (confirmed_deletions c = [])) || read)) in
        if recent && negb read_text then on_live (track_cursor scripts) else kret tt) c2 | None => λ c2, (None, c2) end) c2 = (r', c2))
      as [r' Hrun].
    { destruct Hcase as [-> | ->]; [|by eexists]. unfold kbind, kret. rewrite andb_false_r. by eexists. }
    assert (∀ X, X = (r', c2) → ∃ new, live_effects (live (X : option unit * CommitState).2) = live_effects (live c) ++ new ∧
      change_reading recent (bool_decide (is_Some X.1)) c new) as Hend.
    { intros X ->. exists (del ++ line_said). cbn [snd]. rewrite E2, E1, app_assoc. split; [done|]. exists del, line_said.
      rewrite Hr. by split_and!. }
    specialize (Hend _ Hrun). destruct r as [history|]; [|exact Hend]. cbv beta in Hend.
    by destruct (kbind _ _ c2) as [rr cc].
  - destruct (semantic_history_read c1) as [r c2]. destruct Hh as [-> Hlive].
    pose proof (read_screen_effects recent (confirmed_deletions c) c2) as Hs. unfold read_screen in Hs.
    destruct (kbind _ _ c2) as [rr cc]. destruct Hs as (new & E2 & Hs). rewrite Hlive, (proj1 K1) in Hs.
    exists (del ++ new). rewrite E2, Hlive, E1, app_assoc. split; [done|]. exists del, new. rewrite Hr. by split_and!.
Qed.

(** The end of the commit says nothing. *)
Lemma perform_effects e c : is_spoken e = false →
  ∃ new, live_effects (live (on_live (lperform scripts e) c).2) = live_effects (live c) ++ new ∧ utterances new = [].
Proof.
  intros He. rewrite on_live_run. unfold lperform, lbind. destruct (attempt_effects scripts e (live c)) as (_ & [ok O] & new & E & H).
  destruct (lattempt scripts e (live c)) as [r st]. cbn [fst snd] in *. subst r. exists (e :: new).
  assert (utterances (e :: new) = []) as -> by (apply silent_utterances; by constructor).
  destruct ok; cbn [lret lfail fst snd]; by split.
Qed.

Lemma synchronize_effects c :
  ∃ new, live_effects (live (synchronize_pending_review_cursor c).2) = live_effects (live c) ++ new ∧ utterances new = [].
Proof.
  unfold synchronize_pending_review_cursor, kbind at 1, kget. destruct (_ && _).
  2: { exists []. by rewrite app_nil_r. }
  unfold kbind, kput. cbv zeta. set (c1 := c <| review := _ |>). change (live_effects (live c)) with (live_effects (live c1)).
  case_bool_decide; [exists []; by rewrite app_nil_r|by apply perform_effects].
Qed.

Lemma finish_effects c overlay transition stable :
  ∃ new, utterances new = [] ∧ live_effects (live ((synchronize_pending_review_cursor >>>
    kput (λ c, if (stable : bool) then c <| transition_pending := false |>
               else if (transition : bool) then c <| transition_pending := true |> else c) >>>
    on_live (lperform scripts (LiveScreenUpdate overlay)) >>> kput finalize_changes) c).2) = live_effects (live c) ++ new.
Proof.
  unfold kbind. destruct (synchronize_effects c) as (n1 & E1 & U1).
  destruct (synchronize_pending_review_cursor c) as [[[]|] c1]; cbn [fst snd] in *; [|by exists n1]. unfold kput at 1.
  set (c2 := if stable then _ else _).
  assert (live c2 = live c1) as Hl by (unfold c2; by destruct stable, transition).
  destruct (perform_effects (LiveScreenUpdate overlay) c2 ltac:(done)) as (n2 & E2 & U2).
  destruct (on_live (lperform scripts (LiveScreenUpdate overlay)) c2) as [[[]|] c3]; cbn [fst snd kput] in *;
    exists (n1 ++ n2); (split; [by rewrite utterances_app, U1, U2|]).
  - assert (live_effects (live (finalize_changes c3)) = live_effects (live c3)) as ->
      by (unfold finalize_changes; by destruct (_ || _)).
    by rewrite E2, Hl, E1, app_assoc.
  - by rewrite E2, Hl, E1, app_assoc.
Qed.

Lemma transition_effects c :
  ∃ new, live_effects (live (read_transition c).2) = live_effects (live c) ++ new ∧
    utterances new `prefix_of`
      (let v := view (live c) in
       if bool_decide (screen (screen_now v) = AlternateScreen)
       then sayable [line_text v (cursor_position (screen_now v)).1] else []).
Proof.
  unfold read_transition, kbind at 1, kget. cbv zeta. case_bool_decide.
  2: { exists []. rewrite app_nil_r. split; [done|apply prefix_nil]. }
  unfold kbind. rewrite on_live_run. set (text := line_text _ _).
  assert (∀ X : option bool * Live, (∃ new, live_effects X.2 = live_effects (live c) ++ new ∧ utterances new `prefix_of` sayable [text]) →
    ∃ new, live_effects (live (match (X.1, c <| live := X.2 |>) with (Some _, c) => kret tt c | (None, c) => (None, c) end).2) =
      live_effects (live c) ++ new ∧ utterances new `prefix_of` sayable [text]) as Hend by (by intros [[x|] st]).
  apply Hend. unfold speak_application_cursor_line. unfold lbind at 1, lget at 1. fold text. cbv zeta.
  case_bool_decide; [exists []; rewrite app_nil_r; split; [done|apply prefix_nil]|].
  unfold lbind. rewrite with_echo_run. destruct (should_suppress_key_echo text (echo (live c))) as [[] e]; cbn [fst snd].
  { exists []. rewrite app_nil_r. split; [done|apply prefix_nil]. }
  set (st := (live c) <| echo := e |>). destruct (speak_effects scripts text false st) as (_ & new & E & P & _).
  exists new. split; [|exact P]. by destruct (lspeak scripts text false st) as [[[]|] st1].
Qed.

(** * Properties *)


End Commit.

(** * Examples *)

Definition committing (st : Live) : CommitState := {|
  live := st; commit_view := 1; commit_live_revision := 0; commit_presented_revision := 0; frozen := false;
  transition_pending := false; active_semantic_input := Some (bs "make"); deletes := {| pending_deletes := []; input_sequence := 0 |};
  review := {| ReviewCursor.view_screen := screen_now (view st); review_cursor_position := (0, 0); review_cursor_indent_level := 0;
               review_cursor_follow_pending := false; review_cursor_screen_transition_pending := false |};
  pending_history_navigation := false
|}.
Definition committed (c : CommitState) : CommitState :=
  (commit_changes silent_world None whole_diff whole_diff ascii_alphanumeric false true c).2.

(** Output is read, and the cursor is not read as well; the view is then
    finalized, and a second commit says nothing. *)
Example output_is_read_once :
  let once := committed (committing done_printed) in
  utterances (live_effects (live once)) = [bs "done"] ∧ utterances (live_effects (live (committed once))) = [bs "done"].
Proof. vm_compute. split; reflexivity. Qed.

(** After a key that recalls history the input is read instead. *)
Example recalled_input_is_read :
  utterances (live_effects (live (committed ((committing done_printed) <| pending_history_navigation := true |>)))) = [bs "make"].
Proof. vm_compute. reflexivity. Qed.

(** Under an overlay nothing is read, but the view is finalized. *)
Example overlays_silence_the_change :
  let c := (commit_changes silent_world None whole_diff whole_diff ascii_alphanumeric true true (committing done_printed)).2 in
  utterances (live_effects (live c)) = [] ∧ screen_prev (view (live c)) = screen_now (view (live c)).
Proof. vm_compute. split; reflexivity. Qed.
