(* ===== verification/Journal.v ===== *)
(** The journal of accessibility evidence of a view whose publication follows
    the physical terminal (src/src/view.rs): what the parser says of each
    batch of output waits, within bounds, for the receipt of a frame that shows
    it, and is then merged into what automatic reading looks at.

    Beyond the bounds, after a synchronized transaction, and where a batch left
    no evidence, what is presented keeps no text, so that the reader compares
    the snapshots instead.  The sizes of the compiler's layout are parameters. *)

From S2P Require Import Prelude RowRanges Terminal Screen TerminalUpdate StreamObserver.
Local Open Scope N_scope.

Definition ACCESSIBILITY_JOURNAL_MAX_ENTRIES : N := 1024.
Definition ACCESSIBILITY_JOURNAL_MAX_BYTES : N := 1024 * 1024.

(** * State *)

Record AccessibilityEpoch := { generation : N; start_revision : N }.
#[export] Instance AccessibilityEpoch_eq_dec : EqDecision AccessibilityEpoch.
Proof. solve_decision. Defined.

Record AccessibilityJournalEntry := {
  entry_epoch : AccessibilityEpoch;
  revision : N;
  update : UpdateSummary;
  requires_snapshot_diff : bool;
  retained_bytes : N
}.

Record TrackedJournal := {
  live_revision : N;
  presented_revision : N;
  finalized_presented_revision : N;
  live_accessibility_epoch : AccessibilityEpoch;
  accessibility_epoch_floor_generation : N;
  presented_accessibility_epoch : AccessibilityEpoch;
  presented_accessibility_evidence_revision : N;
  presented_accessibility_evidence_exact : bool;
  presented_accessibility_requires_snapshot_diff : bool;
  presented_update : UpdateSummary;
  accessibility_journal : list AccessibilityJournalEntry;
  accessibility_journal_bytes : N;
  accessibility_journal_gap_start : option N;
  accessibility_journal_discarded_through : N
}.

(** * Evidence *)

Definition take_normalized_accessibility_evidence (u : UpdateSummary) : UpdateSummary := {|
  TerminalUpdate.effects := default_effects; damage := DamageNone; TerminalUpdate.pty_replies := [];
  TerminalUpdate.printed_runs := TerminalUpdate.printed_runs u;
  TerminalUpdate.output_report_structural := TerminalUpdate.output_report_structural u;
  TerminalUpdate.parser_continuation := TerminalUpdate.parser_continuation u;
  TerminalUpdate.operations := [];
  TerminalUpdate.cursor_operations := TerminalUpdate.cursor_operations u;
  TerminalUpdate.cursor_operations_after_last_line_feed := TerminalUpdate.cursor_operations_after_last_line_feed u;
  line_feed_boundaries := line_feed_boundaries u;
  TerminalUpdate.scroll_operations := TerminalUpdate.scroll_operations u;
  TerminalUpdate.history_changed := false;
  changed_rows := changed_rows u;
  cursor_before := cursor_before u; cursor_after := default_cursor;
  screen_before := screen_before u; screen_after := screen_after u;
  synchronized_output := false; synchronized_output_opened := false; synchronized_output_closed := false;
  TerminalUpdate.semantic_input_boundary := TerminalUpdate.semantic_input_boundary u;
  cursor_visibility_restored := false;
  batch_count := batch_count u |}.

Definition snapshot_diff_provenance (u : UpdateSummary) : UpdateSummary := {|
  TerminalUpdate.effects := default_effects; damage := DamageNone; TerminalUpdate.pty_replies := [];
  TerminalUpdate.printed_runs := [];
  TerminalUpdate.output_report_structural := TerminalUpdate.output_report_structural u;
  TerminalUpdate.parser_continuation := false;
  TerminalUpdate.operations := [];
  TerminalUpdate.cursor_operations := TerminalUpdate.cursor_operations u;
  TerminalUpdate.cursor_operations_after_last_line_feed := TerminalUpdate.cursor_operations_after_last_line_feed u;
  line_feed_boundaries := line_feed_boundaries u;
  TerminalUpdate.scroll_operations := TerminalUpdate.scroll_operations u;
  TerminalUpdate.history_changed := false;
  changed_rows := [];
  cursor_before := cursor_before u; cursor_after := cursor_after u;
  screen_before := screen_before u; screen_after := screen_after u;
  synchronized_output := false; synchronized_output_opened := false; synchronized_output_closed := false;
  TerminalUpdate.semantic_input_boundary := false;
  cursor_visibility_restored := false;
  batch_count := batch_count u |}.

(** * The journal *)

Definition note_accessibility_evidence_gap (r : N) (s : TrackedJournal) : TrackedJournal :=
  (s <| accessibility_journal_gap_start :=
        Some (match accessibility_journal_gap_start s with Some start => N.min start r | None => r end) |>)
     <| accessibility_journal_discarded_through := N.max (accessibility_journal_discarded_through s) r |>.

Definition advance_live_revision (s : TrackedJournal) : TrackedJournal := s <| live_revision := live_revision s + 1 |>.

Definition begin_accessibility_epoch (s : TrackedJournal) : TrackedJournal :=
  s <| live_accessibility_epoch :=
       {| generation := generation (live_accessibility_epoch s) + 1; start_revision := live_revision s |} |>.

Definition reset_accessibility_journal_for_handoff (s : TrackedJournal) : TrackedJournal :=
  let s := if finalized_presented_revision s <? live_revision s
           then (note_accessibility_evidence_gap (finalized_presented_revision s + 1) s)
                  <| accessibility_journal_discarded_through := live_revision s |>
           else s in
  let s := begin_accessibility_epoch ((s <| accessibility_journal := [] |>) <| accessibility_journal_bytes := 0 |>) in
  ((((s <| accessibility_epoch_floor_generation := generation (live_accessibility_epoch s) |>)
       <| presented_accessibility_epoch := live_accessibility_epoch s |>)
      <| presented_accessibility_evidence_revision := presented_revision s |>)
     <| presented_accessibility_evidence_exact := true |>)
    <| presented_accessibility_requires_snapshot_diff := false |>.

Definition clear_update_summary (s : TrackedJournal) : TrackedJournal :=
  reset_accessibility_journal_for_handoff (s <| presented_update := default_summary |>).

(** The loop that sheds the oldest entries beyond the bounds. *)
Fixpoint shed (j : list AccessibilityJournalEntry) (s : TrackedJournal) : TrackedJournal :=
  match j with
  | [] => s <| accessibility_journal := [] |>
  | discarded :: rest =>
      if (ACCESSIBILITY_JOURNAL_MAX_ENTRIES <? len j) || (ACCESSIBILITY_JOURNAL_MAX_BYTES <? accessibility_journal_bytes s)
      then shed rest (note_accessibility_evidence_gap (revision discarded)
             (s <| accessibility_journal_bytes := accessibility_journal_bytes s - retained_bytes discarded |>))
      else s <| accessibility_journal := j |>
  end.

Section Journal.

(** The sizes of an entry, of a printed run and of a range of rows. *)
Context (entry_size run_size range_size : N).

Definition accessibility_evidence_retained_bytes (u : UpdateSummary) : N :=
  let text_bytes := fold_left (λ n r, n + utf8_len (TerminalUpdate.text r)) (TerminalUpdate.printed_runs u) 0 in
  sat_add usize_max (sat_add usize_max (sat_add usize_max entry_size (sat_mul usize_max (len (TerminalUpdate.printed_runs u)) run_size))
    text_bytes) (sat_mul usize_max (len (changed_rows u)) range_size).

Definition append_accessibility_evidence (u : UpdateSummary) (requires : bool) (s : TrackedJournal) : TrackedJournal :=
  let bytes := accessibility_evidence_retained_bytes u in
  if ACCESSIBILITY_JOURNAL_MAX_BYTES <? bytes then note_accessibility_evidence_gap (live_revision s) s else
  let entry := {| entry_epoch := live_accessibility_epoch s; revision := live_revision s; update := u;
                  requires_snapshot_diff := requires; retained_bytes := bytes |} in
  shed (accessibility_journal s ++ [entry])
    (s <| accessibility_journal_bytes := sat_add usize_max (accessibility_journal_bytes s) bytes |>).

(** One batch of output: what a tracked view does with the update of the
    engine; [retain] is false for a pane that nobody reads. *)
Definition process_changes (retain : bool) (u : UpdateSummary) (transaction : bool) (s : TrackedJournal) : TrackedJournal :=
  let s := if bool_decide (screen_before u = screen_after u) then s else begin_accessibility_epoch s in
  let s := advance_live_revision s in
  if retain then append_accessibility_evidence (take_normalized_accessibility_evidence u) transaction s
  else note_accessibility_evidence_gap (live_revision s) s.

(** * Receipts *)

(** The loop of [publish_accessibility_evidence]. *)
Fixpoint take_through (epoch : AccessibilityEpoch) (through required_after : N) (j : list AccessibilityJournalEntry)
    (s : TrackedJournal) : TrackedJournal :=
  match j with
  | [] => s <| accessibility_journal := [] |>
  | entry :: rest =>
      if negb (revision entry <=? through) then s <| accessibility_journal := j |> else
      let s := s <| accessibility_journal_bytes := accessibility_journal_bytes s - retained_bytes entry |> in
      if negb (bool_decide (entry_epoch entry = epoch)) || (revision entry <=? required_after)
      then take_through epoch through required_after rest s else
      let s := s <| presented_accessibility_requires_snapshot_diff :=
                    presented_accessibility_requires_snapshot_diff s || requires_snapshot_diff entry |> in
      let merged :=
        if presented_accessibility_evidence_exact s && negb (presented_accessibility_requires_snapshot_diff s)
        then merge (presented_update s) (update entry)
        else merge (if requires_snapshot_diff entry then snapshot_diff_provenance (presented_update s) else presented_update s)
                   (snapshot_diff_provenance (update entry)) in
      take_through epoch through required_after rest (s <| presented_update := merged |>)
  end.

Definition publish_accessibility_evidence (epoch : AccessibilityEpoch) (r : N) (s : TrackedJournal) : TrackedJournal :=
  if generation epoch <? accessibility_epoch_floor_generation s then s <| presented_update := default_summary |> else
  let s := if bool_decide (presented_accessibility_epoch s = epoch) then s else
    ((((s <| presented_accessibility_epoch := epoch |>) <| presented_accessibility_evidence_revision := start_revision epoch |>)
        <| presented_accessibility_evidence_exact := true |>) <| presented_accessibility_requires_snapshot_diff := false |>)
      <| presented_update := default_summary |> in
  let required_after := N.max (presented_accessibility_evidence_revision s) (start_revision epoch) in
  if r <? required_after
  then (s <| presented_update := default_summary |>) <| presented_accessibility_evidence_revision := r |> else
  let discarded_in_required_range :=
    match accessibility_journal_gap_start s with
    | Some start => (start <=? r) && (required_after <? accessibility_journal_discarded_through s)
    | None => false
    end in
  let s := s <| presented_accessibility_evidence_exact :=
                presented_accessibility_evidence_exact s && negb discarded_in_required_range |> in
  let s := if presented_accessibility_evidence_exact s then s
           else s <| presented_update := snapshot_diff_provenance (presented_update s) |> in
  (take_through epoch r required_after (accessibility_journal s) s) <| presented_accessibility_evidence_revision := r |>.

(** What a frame carries of the journal, and the receipt of one that belongs to
    this view and fits its history; any other is rejected and changes nothing. *)
Record PresentedFrame := { frame_revision : N; accessibility_epoch : AccessibilityEpoch }.
Definition capture_live_presentation_frame (s : TrackedJournal) : PresentedFrame :=
  {| frame_revision := live_revision s; accessibility_epoch := live_accessibility_epoch s |}.

Definition apply_presented_frame (f : PresentedFrame) (s : TrackedJournal) : TrackedJournal :=
  if (live_revision s <? frame_revision f) || (frame_revision f <? presented_revision s) then s else
  publish_accessibility_evidence (accessibility_epoch f) (frame_revision f) (s <| presented_revision := frame_revision f |>).

(** * Finalization *)

Fixpoint drop_through (r : N) (j : list AccessibilityJournalEntry) (s : TrackedJournal) : TrackedJournal :=
  match j with
  | entry :: rest =>
      if revision entry <=? r
      then drop_through r rest (s <| accessibility_journal_bytes := accessibility_journal_bytes s - retained_bytes entry |>)
      else s <| accessibility_journal := j |>
  | [] => s <| accessibility_journal := [] |>
  end.
Definition discard_accessibility_journal_through (r : N) (s : TrackedJournal) : TrackedJournal :=
  let s := drop_through r (accessibility_journal s) s in
  match accessibility_journal_gap_start s with
  | Some gap_start =>
      if gap_start <=? r then
        s <| accessibility_journal_gap_start :=
             if accessibility_journal_discarded_through s <=? r then None else Some (r + 1) |>
      else s
  | None => s
  end.

Definition finalize_changes (s : TrackedJournal) : TrackedJournal :=
  if finalized_presented_revision s =? presented_revision s then s else
  discard_accessibility_journal_through (presented_revision s)
    (((((s <| presented_update := default_summary |>) <| finalized_presented_revision := presented_revision s |>)
         <| presented_accessibility_evidence_revision := presented_revision s |>)
        <| presented_accessibility_evidence_exact := true |>) <| presented_accessibility_requires_snapshot_diff := false |>).

(** * Entries kept and entries shed *)

(** Only the entries, their bytes and what is known of the missing ones differ. *)
Definition frame (s s' : TrackedJournal) : Prop :=
  ∃ j n g d, s' = (((s <| accessibility_journal := j |>) <| accessibility_journal_bytes := n |>)
    <| accessibility_journal_gap_start := g |>) <| accessibility_journal_discarded_through := d |>.

Lemma frame_trans s1 s2 s3 : frame s1 s2 → frame s2 s3 → frame s1 s3.
Proof. intros (j & n & g & d & ->) (j' & n' & g' & d' & ->). exists j', n', g', d'. by destruct s1. Qed.
Lemma frame_journal j s : frame s (s <| accessibility_journal := j |>).
Proof. by exists j, (accessibility_journal_bytes s), (accessibility_journal_gap_start s), (accessibility_journal_discarded_through s); destruct s. Qed.
Lemma frame_bytes n s : frame s (s <| accessibility_journal_bytes := n |>).
Proof. by exists (accessibility_journal s), n, (accessibility_journal_gap_start s), (accessibility_journal_discarded_through s); destruct s. Qed.
Lemma frame_gap r s : frame s (note_accessibility_evidence_gap r s).
Proof.
  exists (accessibility_journal s), (accessibility_journal_bytes s),
    (accessibility_journal_gap_start (note_accessibility_evidence_gap r s)),
    (accessibility_journal_discarded_through (note_accessibility_evidence_gap r s)). by destruct s.
Qed.

(** The revision is known to have left no evidence. *)
Definition missing (s : TrackedJournal) (r : N) : Prop :=
  ∃ start, accessibility_journal_gap_start s = Some start ∧ start ≤ r ∧ r ≤ accessibility_journal_discarded_through s.

Lemma missing_noted r s : missing (note_accessibility_evidence_gap r s) r.
Proof. eexists. split; [done|]. cbn. destruct (accessibility_journal_gap_start s); lia. Qed.
Lemma missing_kept r r' s : missing s r → missing (note_accessibility_evidence_gap r' s) r.
Proof. intros (start & H & Hs & Hd). eexists. split; [done|]. cbn. rewrite H. lia. Qed.

(** The entries of a run of revisions after [base]: [None] for one that is
    missing. *)
Definition revisions_after (base : N) (kept : list (option AccessibilityJournalEntry)) : Prop :=
  ∀ i x, kept !! i = Some (Some x) → revision x = base + N.of_nat i + 1.

Lemma revisions_cons base x kept : revisions_after base (x :: kept) →
  match x with Some x => revision x = base + 1 | None => True end ∧ revisions_after (base + 1) kept.
Proof.
  intros H. split; [|intros i y Hi; rewrite (H (S i) y Hi); lia].
  destruct x as [x|]; [|done]. rewrite (H O x eq_refl). lia.
Qed.

Lemma shed_spec kept base s : revisions_after base kept →
  let s' := shed (omap id kept) s in
  frame s s' ∧ (∀ r, missing s r → missing s' r) ∧
  ∃ kept', accessibility_journal s' = omap id kept' ∧ length kept' = length kept ∧
    ∀ i x, kept' !! i = Some x → kept !! i = Some x ∨ (x = None ∧ missing s' (base + N.of_nat i + 1)).
Proof.
  cbv zeta. revert base s. induction kept as [|x kept IH]; intros base s Hrev.
  { split_and!; [apply frame_journal|done|]. exists []. by split_and!. }
  apply revisions_cons in Hrev as [Hx Hrev]. destruct x as [x|].
  - change (omap id (Some x :: kept)) with (x :: omap id kept). cbn [shed]. destruct (_ || _).
    + set (s1 := s <| accessibility_journal_bytes := _ |>). set (s2 := note_accessibility_evidence_gap (revision x) s1).
      destruct (IH (base + 1) s2 Hrev) as (F & M & kept' & E & L & K). split_and!.
      * eapply frame_trans; [|exact F]. eapply frame_trans; [apply frame_bytes|apply frame_gap].
      * intros r Hr. apply M, missing_kept. exact Hr.
      * exists (None :: kept'). split_and!; [done|cbn; by rewrite L|]. intros [|i] y Hy; cbn in Hy.
        -- simplify_eq. right. split; [done|]. apply M. replace (base + N.of_nat 0 + 1) with (revision x) by lia. apply missing_noted.
        -- apply K in Hy as [Hy|[-> Hy]]; [by left|right]. split; [done|]. by replace (base + N.of_nat (S i) + 1) with (base + 1 + N.of_nat i + 1) by lia.
    + split_and!; [apply frame_journal|done|]. exists (Some x :: kept). split_and!; [done|done|]. by left.
  - change (omap id (None :: kept)) with (omap id kept). destruct (IH (base + 1) s Hrev) as (F & M & kept' & E & L & K).
    split_and!; [done|done|]. exists (None :: kept'). split_and!; [done|cbn; by rewrite L|].
    intros [|i] y Hy; cbn in Hy; [simplify_eq; by left|]. apply K in Hy as [Hy|[-> Hy]]; [by left|right].
    split; [done|]. by replace (base + N.of_nat (S i) + 1) with (base + 1 + N.of_nat i + 1) by lia.
Qed.

Lemma shed_within j s : len j ≤ ACCESSIBILITY_JOURNAL_MAX_ENTRIES →
  accessibility_journal_bytes s ≤ ACCESSIBILITY_JOURNAL_MAX_BYTES → shed j s = s <| accessibility_journal := j |>.
Proof.
  intros H1 H2. destruct j as [|x j]; [done|]. cbn [shed]. destruct (N.ltb_spec ACCESSIBILITY_JOURNAL_MAX_ENTRIES (len (x :: j))); [lia|].
  by destruct (N.ltb_spec ACCESSIBILITY_JOURNAL_MAX_BYTES (accessibility_journal_bytes s)); [lia|].
Qed.

(** * One stretch of output *)

Definition merged_evidence (es : list UpdateSummary) : UpdateSummary := fold_left merge es default_summary.

Section Stretch.

(** A stretch of output after a revision, in one epoch. *)
Context (epoch : AccessibilityEpoch) (base : N).

Definition evidence_entry (r : N) (u : UpdateSummary) : AccessibilityJournalEntry :=
  {| entry_epoch := epoch; revision := r; update := u; requires_snapshot_diff := false;
     retained_bytes := accessibility_evidence_retained_bytes u |}.

(** The entries kept of the evidence [es], which begins after [after]. *)
Definition kept_of (after : N) (es : list UpdateSummary) (kept : list (option AccessibilityJournalEntry)) : Prop :=
  length kept = length es ∧
  ∀ i x, kept !! i = Some (Some x) → ∃ u, es !! i = Some u ∧ x = evidence_entry (after + N.of_nat i + 1) u.

Lemma kept_revisions after es kept : kept_of after es kept → revisions_after after kept.
Proof. intros [_ H] i x Hi. by destruct (H i x Hi) as (u & _ & ->). Qed.

Lemma kept_cons after u es x kept : kept_of after (u :: es) (x :: kept) →
  match x with Some x => x = evidence_entry (after + 1) u | None => True end ∧ kept_of (after + 1) es kept.
Proof.
  intros [L H]. split; [destruct x as [x|]; [|done]|].
  - destruct (H O x eq_refl) as (u' & [= <-] & ->). f_equal. lia.
  - split; [by injection L|]. intros i y Hi. destruct (H (S i) y Hi) as (u' & Hu & ->). exists u'. split; [done|]. f_equal. lia.
Qed.

Lemma take_through_none after required kept s : revisions_after after kept →
  take_through epoch after required (omap id kept) s = s <| accessibility_journal := omap id kept |>.
Proof.
  intros Hrev. destruct (omap id kept) as [|y j] eqn:Ej; [done|]. cbn [take_through].
  assert (∃ i, kept !! i = Some (Some y)) as [i Hi].
  { apply list_elem_of_lookup. assert (y ∈ omap id kept) as Hy by (rewrite Ej; apply elem_of_cons; by left).
    apply list_elem_of_omap in Hy as (z & Hz & Hzy). cbv [id] in Hzy. by subst z. }
  apply Hrev in Hi. by destruct (N.leb_spec (revision y) after); [lia|].
Qed.

Lemma frame_journal_same j s : frame (s <| presented_update := presented_update s |>) (s <| accessibility_journal := j |>).
Proof.
  exists j, (accessibility_journal_bytes s), (accessibility_journal_gap_start s), (accessibility_journal_discarded_through s).
  by destruct s.
Qed.

(** A receipt through the first [n] of the evidence, none missing. *)
Lemma take_through_exact n required es kept after s :
  kept_of after es kept → required ≤ after → (n ≤ length es)%nat →
  presented_accessibility_evidence_exact s = true → presented_accessibility_requires_snapshot_diff s = false →
  Forall is_Some (take n kept) →
  let s' := take_through epoch (after + N.of_nat n) required (omap id kept) s in
  frame (s <| presented_update := fold_left merge (take n es) (presented_update s) |>) s' ∧
  accessibility_journal s' = omap id (drop n kept) ∧
  accessibility_journal_gap_start s' = accessibility_journal_gap_start s ∧
  accessibility_journal_discarded_through s' = accessibility_journal_discarded_through s ∧
  accessibility_journal_bytes s' ≤ accessibility_journal_bytes s.
Proof.
  cbv zeta. revert n es after s. induction kept as [|x kept IH]; intros n es after s Hk Hreq Hn Hex Hreqs Hall.
  - destruct Hk as [L _]. destruct es; [|done]. rewrite take_nil, drop_nil. cbn. split_and!; first [done|lia|apply frame_journal_same].
  - destruct es as [|u es]; [by destruct Hk|]. pose proof (kept_revisions _ _ _ Hk) as Hrev.
    destruct n as [|n].
    + cbn [take drop fold_left]. replace (after + N.of_nat 0) with after by lia.
      rewrite (take_through_none _ _ _ _ Hrev).
      split_and!; first [done|apply frame_journal_same|destruct s; cbn; lia].
    + apply kept_cons in Hk as [Hx Hk]. cbn [take] in Hall. apply Forall_cons in Hall as [[y ->] Hall]. subst y.
      change (omap id (Some ?y :: kept)) with (y :: omap id kept). cbn [take_through revision evidence_entry].
      destruct (N.leb_spec (after + 1) (after + N.of_nat (S n))); [|lia]. cbn [negb entry_epoch].
      rewrite bool_decide_eq_true_2 by done. destruct (N.leb_spec (after + 1) required); [lia|]. cbn [negb orb].
      set (s1 := s <| accessibility_journal_bytes := _ |>).
      set (s2 := s1 <| presented_accessibility_requires_snapshot_diff := _ |>).
      assert (presented_accessibility_evidence_exact s2 = true) as -> by done.
      assert (presented_accessibility_requires_snapshot_diff s2 = false) as Hreq2
        by (change (presented_accessibility_requires_snapshot_diff s || false = false); by rewrite Hreqs).
      rewrite Hreq2. cbn [andb negb update].
      replace (after + N.of_nat (S n)) with (after + 1 + N.of_nat n) by lia.
      set (s3 := s2 <| presented_update := _ |>).
      destruct (IH n es (after + 1) s3 Hk ltac:(lia) ltac:(cbn in Hn; lia) Hex Hreq2 Hall) as (F & J & G & D & B).
      split_and!; [|exact J|exact G|exact D|].
      * destruct F as (j & m & g & d & ->). exists j, m, g, d. unfold s3, s2, s1. cbn [take fold_left]. destruct s; cbn in *. by rewrite Hreqs.
      * etrans; [exact B|]. cbn. lia.
Qed.

(** A receipt when evidence was missing: no text. *)
Lemma take_through_inexact n required es kept after s :
  kept_of after es kept → required ≤ after → (n ≤ length es)%nat →
  presented_accessibility_evidence_exact s = false → presented_accessibility_requires_snapshot_diff s = false →
  TerminalUpdate.printed_runs (presented_update s) = [] →
  let s' := take_through epoch (after + N.of_nat n) required (omap id kept) s in
  ∃ u, TerminalUpdate.printed_runs u = [] ∧ frame (s <| presented_update := u |>) s' ∧
  accessibility_journal s' = omap id (drop n kept) ∧
  accessibility_journal_gap_start s' = accessibility_journal_gap_start s ∧
  accessibility_journal_discarded_through s' = accessibility_journal_discarded_through s.
Proof.
  cbv zeta. revert n es after s. induction kept as [|x kept IH]; intros n es after s Hk Hreq Hn Hex Hreqs Hp.
  - destruct Hk as [L _]. destruct es; [|done]. rewrite drop_nil. exists (presented_update s). cbn. split_and!; first [done|apply frame_journal_same].
  - destruct es as [|u es]; [by destruct Hk|]. pose proof (kept_revisions _ _ _ Hk) as Hrev.
    destruct n as [|n].
    + cbn [drop]. replace (after + N.of_nat 0) with after by lia.
      rewrite (take_through_none _ _ _ _ Hrev).
      exists (presented_update s). split_and!; first [done|apply frame_journal_same].
    + apply kept_cons in Hk as [Hx Hk]. destruct x as [x|].
      2: { change (omap id (None :: kept)) with (omap id kept). replace (after + N.of_nat (S n)) with (after + 1 + N.of_nat n) by lia.
           apply (IH n es (after + 1) s); [done|lia|cbn in Hn; lia|done|done|done]. }
      subst x. change (omap id (Some ?y :: kept)) with (y :: omap id kept). cbn [take_through revision evidence_entry].
      destruct (N.leb_spec (after + 1) (after + N.of_nat (S n))); [|lia]. cbn [negb entry_epoch].
      rewrite bool_decide_eq_true_2 by done. destruct (N.leb_spec (after + 1) required); [lia|]. cbn [negb orb].
      set (s1 := s <| accessibility_journal_bytes := _ |>).
      set (s2 := s1 <| presented_accessibility_requires_snapshot_diff := _ |>).
      assert (presented_accessibility_evidence_exact s2 = false) as -> by done. cbn [andb requires_snapshot_diff update].
      replace (after + N.of_nat (S n)) with (after + 1 + N.of_nat n) by lia.
      set (s3 := s2 <| presented_update := _ |>).
      assert (TerminalUpdate.printed_runs (presented_update s3) = []) as Hp3.
      { change (TerminalUpdate.printed_runs (merge (presented_update s) (snapshot_diff_provenance u)) = []).
        unfold merge. destruct (batch_count _ =? 0); [done|]. cbn [TerminalUpdate.printed_runs snapshot_diff_provenance].
        by rewrite Hp. }
      destruct (IH n es (after + 1) s3 Hk ltac:(lia) ltac:(cbn in Hn; lia) Hex
        ltac:(change (presented_accessibility_requires_snapshot_diff s || false = false); by rewrite Hreqs) Hp3) as (w & Hw & F & J & G & D).
      exists w. split_and!; [exact Hw| |exact J|exact G|exact D].
      destruct F as (j & m & g & d & ->). exists j, m, g, d. unfold s3, s2, s1. destruct s; cbn in *. by rewrite Hreqs.
Qed.

(** The state after the evidence [es], of which [k] have been presented. *)
Record stretch (es : list UpdateSummary) (k : nat) (s : TrackedJournal) : Prop := {
  st_k : (k ≤ length es)%nat;
  st_live : live_revision s = base + len es;
  st_presented : presented_revision s = base + N.of_nat k;
  st_evidence : presented_accessibility_evidence_revision s = base + N.of_nat k;
  st_epoch : live_accessibility_epoch s = epoch;
  st_presented_epoch : presented_accessibility_epoch s = epoch;
  st_floor : accessibility_epoch_floor_generation s ≤ generation epoch;
  st_start : start_revision epoch ≤ base;
  st_requires : presented_accessibility_requires_snapshot_diff s = false;
  st_update : if presented_accessibility_evidence_exact s then presented_update s = merged_evidence (take k es)
              else TerminalUpdate.printed_runs (presented_update s) = [];
  st_journal : ∃ kept, kept_of (base + N.of_nat k) (drop k es) kept ∧ accessibility_journal s = omap id kept ∧
    ∀ i, kept !! i = Some None → missing s (base + N.of_nat k + N.of_nat i + 1)
}.

Lemma kept_snoc after es kept u x : kept_of after es kept →
  match x with Some x => x = evidence_entry (after + len es + 1) u | None => True end → kept_of after (es ++ [u]) (kept ++ [x]).
Proof.
  intros [L H] Hx. split; [by rewrite !length_app, L|]. intros i y Hi. apply lookup_app_Some in Hi as [Hi|[Hge Hi]].
  - destruct (H i y Hi) as (v & Hv & ->). exists v. split; [by apply lookup_app_l_Some|done].
  - apply list_lookup_singleton_Some in Hi as [Hi ->]. exists u. assert (i = length es) as -> by lia.
    split; [by rewrite lookup_app_r, Nat.sub_diag by lia|done].
Qed.

(** Output: one more batch, which may push out older ones. *)
Lemma stretch_appended es e k s s' kept' :
  stretch es k s → frame (advance_live_revision s) s' → kept_of (base + N.of_nat k) (drop k es ++ [e]) kept' →
  accessibility_journal s' = omap id kept' →
  (∀ i, kept' !! i = Some None → missing s' (base + N.of_nat k + N.of_nat i + 1)) → stretch (es ++ [e]) k s'.
Proof.
  intros [] (j & n & g & d & ->) Hk Hj Hm. split; try done.
  - rewrite length_app. lia.
  - change (live_revision s + 1 = base + len (es ++ [e])). rewrite length_app. cbn [length]. lia.
  - change (if presented_accessibility_evidence_exact s then presented_update s = merged_evidence (take k (es ++ [e]))
            else TerminalUpdate.printed_runs (presented_update s) = []). by rewrite take_app_le.
  - exists kept'. by rewrite drop_app_le.
Qed.

Lemma missing_frame s r : missing s r → missing (advance_live_revision s) r.
Proof. done. Qed.

Lemma missing_snoc (P : N → Prop) kept after n : (∀ i, kept !! i = Some None → P (after + N.of_nat i + 1)) → length kept = n →
  P (after + N.of_nat n + 1) →
  ∀ i, (kept ++ [None]) !! i = Some (@None AccessibilityJournalEntry) → P (after + N.of_nat i + 1).
Proof.
  intros H <- Hn i Hi. apply lookup_app_Some in Hi as [Hi|[Hge Hi]]; [by apply H|].
  apply list_lookup_singleton_Some in Hi as [Hi _]. by replace i with (length kept) by lia.
Qed.

Lemma stretch_output es k s u : stretch es k s → screen_before u = screen_after u →
  stretch (es ++ [take_normalized_accessibility_evidence u]) k (process_changes true u false s).
Proof.
  intros Hs Hu. unfold process_changes. rewrite bool_decide_eq_true_2 by done. set (e := take_normalized_accessibility_evidence u).
  destruct (st_journal _ _ _ Hs) as (kept & Hk & Hj & Hm). set (s1 := advance_live_revision s).
  assert (length kept = length es - k)%nat as Hlen by (rewrite (proj1 Hk); apply length_drop).
  assert (live_revision s1 = base + N.of_nat k + N.of_nat (length es - k) + 1) as Hlive.
  { change (live_revision s + 1 = base + N.of_nat k + N.of_nat (length es - k) + 1). rewrite (st_live _ _ _ Hs).
    pose proof (st_k _ _ _ Hs). lia. }
  unfold append_accessibility_evidence. destruct (N.ltb_spec ACCESSIBILITY_JOURNAL_MAX_BYTES (accessibility_evidence_retained_bytes e)).
  - apply (stretch_appended _ _ _ s _ (kept ++ [None])); [done|apply frame_gap|by apply kept_snoc| |].
    + rewrite omap_app, app_nil_r. exact Hj.
    + apply (missing_snoc (missing (note_accessibility_evidence_gap (live_revision s1) s1)) kept _ (length es - k)); [|done|].
      * intros i Hi. by apply missing_kept, Hm.
      * rewrite <-Hlive. apply missing_noted.
  - set (x := {| entry_epoch := _ |}). set (s2 := s1 <| accessibility_journal_bytes := _ |>).
    assert (kept_of (base + N.of_nat k) (drop k es ++ [e]) (kept ++ [Some x])) as Hk'.
    { apply kept_snoc; [done|]. unfold x, evidence_entry. rewrite (st_epoch _ _ _ Hs : live_accessibility_epoch s1 = epoch), Hlive.
      by rewrite length_drop. }
    assert (accessibility_journal s1 ++ [x] = omap id (kept ++ [Some x])) as ->
      by (rewrite omap_app; change (accessibility_journal s1) with (accessibility_journal s); by rewrite Hj).
    destruct (shed_spec _ _ s2 (kept_revisions _ _ _ Hk')) as (F & M & kept' & Hj' & L' & K').
    apply (stretch_appended _ _ _ s _ kept'); [done| | |done|].
    + eapply frame_trans; [|exact F]. apply frame_bytes.
    + split; [by rewrite L', (proj1 Hk')|]. intros i y Hy. apply (proj2 Hk'). by apply K' in Hy as [?|[? _]].
    + intros i Hi. apply K' in Hi as [Hi|[_ Hi]]; [|done]. apply M. apply lookup_app_Some in Hi as [Hi|[_ Hi]].
      * by apply Hm.
      * by apply list_lookup_singleton_Some in Hi as [_ ?].
Qed.

Lemma kept_drop after es kept n : kept_of after es kept → (n ≤ length es)%nat → kept_of (after + N.of_nat n) (drop n es) (drop n kept).
Proof.
  intros [L H] Hn. split; [by rewrite !length_drop, L|]. intros i x Hi. rewrite lookup_drop in Hi. destruct (H _ _ Hi) as (u & Hu & ->).
  exists u. rewrite lookup_drop. split; [done|]. f_equal. lia.
Qed.

Lemma merged_take k n es : fold_left merge (take n (drop k es)) (merged_evidence (take k es)) = merged_evidence (take (k + n) es).
Proof. unfold merged_evidence. by rewrite <-fold_left_app, take_take_drop. Qed.

(** What the loop of a receipt leaves, given the summary [u] and whether it is
    exact. *)
Lemma stretch_published es k k' s s3 kept x u :
  stretch es k s → (k' ≤ length es)%nat →
  frame (((s <| presented_revision := base + N.of_nat k' |>) <| presented_accessibility_evidence_exact := x |>)
           <| presented_update := u |>) s3 →
  kept_of (base + N.of_nat k') (drop k' es) kept → accessibility_journal s3 = omap id kept →
  accessibility_journal_gap_start s3 = accessibility_journal_gap_start s →
  accessibility_journal_discarded_through s3 = accessibility_journal_discarded_through s →
  (∀ i, kept !! i = Some None → missing s (base + N.of_nat k' + N.of_nat i + 1)) →
  (if x then u = merged_evidence (take k' es) else TerminalUpdate.printed_runs u = []) →
  stretch es k' (s3 <| presented_accessibility_evidence_revision := base + N.of_nat k' |>).
Proof.
  intros [] Hle (j & m & g & d & Es3) Hk J G D Hm Hu.
  assert (∀ r, missing s r → missing (s3 <| presented_accessibility_evidence_revision := base + N.of_nat k' |>) r) as Hmiss.
  { intros r (start & Hst & ?). exists start. split; [etrans; [exact G|exact Hst]|].
    change (start ≤ r ∧ r ≤ accessibility_journal_discarded_through s3). by rewrite D. }
  split; rewrite ?Es3; try done. rewrite <-Es3. exists kept. split_and!; [done|exact J|]. intros i Hi. by apply Hmiss, Hm.
Qed.

(** A receipt of a frame with [k'] of the evidence. *)
Lemma stretch_receipt es k k' s : stretch es k s → (k ≤ k')%nat → (k' ≤ length es)%nat →
  stretch es k' (apply_presented_frame {| frame_revision := base + N.of_nat k'; accessibility_epoch := epoch |} s).
Proof.
  intros Hs Hge Hle. destruct (st_journal _ _ _ Hs) as (kept & Hk & Hj & Hm). set (n := (k' - k)%nat).
  assert (base + N.of_nat k' = base + N.of_nat k + N.of_nat n) as Hr by (unfold n; lia).
  assert (n ≤ length (drop k es))%nat as Hn by (rewrite length_drop; unfold n; lia).
  unfold apply_presented_frame. cbn [frame_revision accessibility_epoch].
  destruct (N.ltb_spec (live_revision s) (base + N.of_nat k')); [rewrite (st_live _ _ _ Hs) in *; lia|].
  destruct (N.ltb_spec (base + N.of_nat k') (presented_revision s)); [rewrite (st_presented _ _ _ Hs) in *; lia|]. cbn [orb].
  set (s1 := s <| presented_revision := _ |>). unfold publish_accessibility_evidence.
  change (accessibility_epoch_floor_generation s1) with (accessibility_epoch_floor_generation s).
  destruct (N.ltb_spec (generation epoch) (accessibility_epoch_floor_generation s)); [pose proof (st_floor _ _ _ Hs); lia|].
  rewrite bool_decide_eq_true_2 by exact (st_presented_epoch _ _ _ Hs).
  change (presented_accessibility_evidence_revision s1) with (presented_accessibility_evidence_revision s).
  rewrite (st_evidence _ _ _ Hs), N.max_l by (pose proof (st_start _ _ _ Hs); lia).
  destruct (N.ltb_spec (base + N.of_nat k') (base + N.of_nat k)); [lia|].
  change (accessibility_journal_gap_start s1) with (accessibility_journal_gap_start s).
  change (accessibility_journal_discarded_through s1) with (accessibility_journal_discarded_through s).
  set (gap := match accessibility_journal_gap_start s with Some start => _ | None => false end).
  set (s2 := s1 <| presented_accessibility_evidence_exact := _ |>).
  assert (presented_accessibility_evidence_exact s2 = presented_accessibility_evidence_exact s && negb gap) as Hex by done.
  assert (gap = false → Forall is_Some (take n kept)) as Hall.
  { intros Hg. apply Forall_lookup. intros i [x|] Hi; [by eexists|]. exfalso. apply lookup_take_Some in Hi as [Hi Hin].
    apply Hm in Hi as (start & Hstart & H1' & H2'). unfold gap in Hg. rewrite Hstart in Hg. apply andb_false_iff in Hg as [Hg|Hg].
    - apply N.leb_gt in Hg. lia.
    - apply N.ltb_ge in Hg. lia. }
  assert (∀ i, drop n kept !! i = Some None → missing s (base + N.of_nat k' + N.of_nat i + 1)) as Hm'.
  { intros i Hi. rewrite lookup_drop in Hi. apply Hm in Hi. by replace (base + N.of_nat k' + N.of_nat i + 1) with
      (base + N.of_nat k + N.of_nat (n + i) + 1) by lia. }
  pose proof (kept_drop _ _ _ n Hk Hn) as Hk'. rewrite <-Hr, drop_drop in Hk'. replace (k + n)%nat with k' in Hk' by (unfold n; lia).
  pose proof (st_update _ _ _ Hs) as Hup.
  destruct (presented_accessibility_evidence_exact s2) eqn:Hx.
  - symmetry in Hex. apply andb_true_iff in Hex as [Hex Hg%negb_true_iff]. rewrite Hex in Hup.
    change (accessibility_journal s2) with (accessibility_journal s). rewrite Hj, Hr.
    destruct (take_through_exact n (base + N.of_nat k) _ _ _ s2 Hk ltac:(lia) Hn Hx (st_requires _ _ _ Hs) (Hall Hg)) as (F & J & G & D & _).
    change (presented_update s2) with (presented_update s) in F. rewrite Hup, merged_take in F.
    replace (k + n)%nat with k' in F by (unfold n; lia). rewrite <-Hr in *. by eapply (stretch_published _ _ _ s _ _ true); try done; rewrite <-Hx.
  - set (s2' := s2 <| presented_update := _ |>). change (accessibility_journal s2') with (accessibility_journal s). rewrite Hj, Hr.
    destruct (take_through_inexact n (base + N.of_nat k) _ _ _ s2' Hk ltac:(lia) Hn Hx (st_requires _ _ _ Hs) eq_refl)
      as (u & Hu & F & J & G & D).
    rewrite <-Hr in *. by eapply (stretch_published _ _ _ s _ _ false); try done; rewrite <-Hx.
Qed.

(** ** Within the bounds *)

Definition retained_total (es : list UpdateSummary) : N :=
  foldr (λ u n, accessibility_evidence_retained_bytes u + n) 0 es.
Lemma retained_app es es' : retained_total (es ++ es') = retained_total es + retained_total es'.
Proof. unfold retained_total. induction es as [|v es IH]; cbn [foldr app]; [lia|]. rewrite IH. lia. Qed.
Lemma retained_snoc es u : retained_total (es ++ [u]) = retained_total es + accessibility_evidence_retained_bytes u.
Proof. rewrite retained_app. unfold retained_total. cbn [foldr]. lia. Qed.

(** Nothing has been shed. *)
Definition complete (es : list UpdateSummary) (s : TrackedJournal) : Prop :=
  accessibility_journal_bytes s ≤ retained_total es ∧ accessibility_journal_discarded_through s ≤ base ∧
  presented_accessibility_evidence_exact s = true.

Lemma take_through_fields e t req j s :
  let s' := take_through e t req j s in
  accessibility_journal_bytes s' ≤ accessibility_journal_bytes s ∧
  accessibility_journal_discarded_through s' = accessibility_journal_discarded_through s ∧
  presented_accessibility_evidence_exact s' = presented_accessibility_evidence_exact s.
Proof.
  cbv zeta. revert s. induction j as [|x j IH]; intros s; cbn [take_through]; [by split_and!; [destruct s; cbn; lia|..]|].
  destruct (negb (revision x <=? t)); [by split_and!; [destruct s; cbn; lia|..]|].
  set (s1 := s <| accessibility_journal_bytes := _ |>).
  assert (accessibility_journal_bytes s1 ≤ accessibility_journal_bytes s) as Hb by (unfold s1; destruct s; cbn; lia).
  destruct (_ || _).
  - destruct (IH s1) as (B & D & X). split_and!; [lia|exact D|exact X].
  - match goal with |- context [take_through e t req j ?s2] => destruct (IH s2) as (B & D & X) end.
    split_and!; [etrans; [exact B|exact Hb]|exact D|exact X].
Qed.

Lemma length_kept {A} (kept : list (option A)) : (length (omap id kept) ≤ length kept)%nat.
Proof. induction kept as [|[x|] kept IH]; cbn; lia. Qed.

Lemma complete_output es k s u : stretch es k s → complete es s → screen_before u = screen_after u →
  let es' := es ++ [take_normalized_accessibility_evidence u] in
  len es' ≤ ACCESSIBILITY_JOURNAL_MAX_ENTRIES → retained_total es' ≤ ACCESSIBILITY_JOURNAL_MAX_BYTES →
  complete es' (process_changes true u false s).
Proof.
  intros Hs (Hb & Hd & Hx) Hu es' Hlen Htot. unfold process_changes. rewrite bool_decide_eq_true_2 by done.
  unfold es' in *. rewrite retained_snoc in *. set (e := take_normalized_accessibility_evidence u) in *.
  unfold append_accessibility_evidence.
  destruct (N.ltb_spec ACCESSIBILITY_JOURNAL_MAX_BYTES (accessibility_evidence_retained_bytes e)); [lia|].
  set (s1 := advance_live_revision s). set (x := {| entry_epoch := _ |}). set (s2 := s1 <| accessibility_journal_bytes := _ |>).
  assert (accessibility_journal_bytes s2 ≤ retained_total es + accessibility_evidence_retained_bytes e) as Hb2.
  { change (sat_add usize_max (accessibility_journal_bytes s) (accessibility_evidence_retained_bytes e) ≤
      retained_total es + accessibility_evidence_retained_bytes e). unfold sat_add. lia. }
  rewrite shed_within; [|rewrite length_app; cbn [length]|lia].
  - split_and!; [rewrite retained_snoc; exact Hb2|exact Hd|exact Hx].
  - destruct (st_journal _ _ _ Hs) as (kept & [L _] & Hj & _). change (accessibility_journal s1) with (accessibility_journal s). rewrite Hj.
    assert (length (omap id kept) ≤ length kept)%nat by apply length_kept. rewrite length_drop in L.
    rewrite length_app in Hlen. cbn [length] in Hlen. lia.
Qed.

Lemma complete_receipt es k s r : stretch es k s → complete es s → base + N.of_nat k ≤ r →
  complete es (apply_presented_frame {| frame_revision := r; accessibility_epoch := epoch |} s).
Proof.
  intros Hs (Hb & Hd & Hx) Hr. unfold apply_presented_frame. cbn [frame_revision accessibility_epoch]. destruct (_ || _); [done|].
  set (s1 := s <| presented_revision := _ |>). unfold publish_accessibility_evidence.
  change (accessibility_epoch_floor_generation s1) with (accessibility_epoch_floor_generation s).
  destruct (N.ltb_spec (generation epoch) (accessibility_epoch_floor_generation s)); [pose proof (st_floor _ _ _ Hs); lia|].
  rewrite bool_decide_eq_true_2 by exact (st_presented_epoch _ _ _ Hs).
  change (presented_accessibility_evidence_revision s1) with (presented_accessibility_evidence_revision s).
  rewrite (st_evidence _ _ _ Hs), N.max_l by (pose proof (st_start _ _ _ Hs); lia).
  destruct (N.ltb_spec r (base + N.of_nat k)); [lia|].
  change (accessibility_journal_gap_start s1) with (accessibility_journal_gap_start s).
  change (accessibility_journal_discarded_through s1) with (accessibility_journal_discarded_through s).
  set (gap := match accessibility_journal_gap_start s with Some start => _ | None => false end).
  assert (gap = false) as -> by (unfold gap; destruct (accessibility_journal_gap_start s); [|done]; apply andb_false_iff; right; apply N.ltb_ge; lia).
  change (presented_accessibility_evidence_exact s1) with (presented_accessibility_evidence_exact s). rewrite Hx. cbn [andb negb].
  set (s2 := s1 <| presented_accessibility_evidence_exact := true |>).
  assert (presented_accessibility_evidence_exact s2 = true) as -> by done.
  destruct (take_through_fields epoch r (base + N.of_nat k) (accessibility_journal s2) s2) as (B & D & X).
  split_and!; [etrans; [exact B|exact Hb]|etrans; [apply N.eq_le_incl, D|exact Hd]|exact X].
Qed.

End Stretch.

(** * Writes and receipts *)

Inductive Event := Output (w : Write) (transaction : bool) | Receipt (f : PresentedFrame).

Definition write_step (w : Write) (o : StreamObserver) : UpdateSummary * StreamObserver :=
  let '(u, o) := take_update (after w) (observe (begin_update (before w) o) (callbacks w)) in
  (normalize_ghostty_update ((engine w) <| stream := u |>), o).

Fixpoint run (events : list Event) (o : StreamObserver) (s : TrackedJournal) : TrackedJournal :=
  match events with
  | [] => s
  | Output w transaction :: events => let '(u, o) := write_step w o in run events o (process_changes true u transaction s)
  | Receipt f :: events => run events o (apply_presented_frame f s)
  end.
Definition writes (events : list Event) : list Write := omap (λ e, match e with Output w _ => Some w | _ => None end) events.

Fixpoint evidence_of (ws : list Write) (o : StreamObserver) : list UpdateSummary :=
  match ws with
  | [] => []
  | w :: ws => let '(u, o) := write_step w o in take_normalized_accessibility_evidence u :: evidence_of ws o
  end.

(** What the receipt of the newest frame presents. *)
Definition show_newest (s : TrackedJournal) : TrackedJournal := apply_presented_frame (capture_live_presentation_frame s) s.

(** Everything parsed has been presented and finalized. *)
Definition at_rest (s : TrackedJournal) : Prop :=
  presented_revision s = live_revision s ∧ presented_accessibility_evidence_revision s = live_revision s ∧
  presented_accessibility_epoch s = live_accessibility_epoch s ∧
  accessibility_epoch_floor_generation s ≤ generation (live_accessibility_epoch s) ∧
  start_revision (live_accessibility_epoch s) ≤ live_revision s ∧
  presented_accessibility_evidence_exact s = true ∧ presented_accessibility_requires_snapshot_diff s = false ∧
  presented_update s = default_summary ∧ accessibility_journal s = [] ∧ accessibility_journal_bytes s = 0 ∧
  accessibility_journal_discarded_through s ≤ live_revision s.

(** Output outside synchronized transactions that stays on its screen, and
    receipts of frames of its epoch. *)
Definition plain (epoch : AccessibilityEpoch) (e : Event) : Prop :=
  match e with
  | Output w transaction => transaction = false ∧ alternate_screen_before (engine w) = alternate_screen_after (engine w)
  | Receipt f => accessibility_epoch f = epoch
  end.

Lemma write_step_screens w o : alternate_screen_before (engine w) = alternate_screen_after (engine w) →
  screen_before (write_step w o).1 = screen_after (write_step w o).1.
Proof.
  intros H. unfold write_step. destruct (take_update _ _) as [u o'].
  change (ghostty_screen_identity (alternate_screen_before (engine w)) = ghostty_screen_identity (alternate_screen_after (engine w))).
  by rewrite H.
Qed.

Lemma receipt_ignored f s : frame_revision f < presented_revision s ∨ live_revision s < frame_revision f → apply_presented_frame f s = s.
Proof.
  intros H. unfold apply_presented_frame. destruct (N.ltb_spec (live_revision s) (frame_revision f)); [done|].
  destruct (N.ltb_spec (frame_revision f) (presented_revision s)); [done|lia].
Qed.

Lemma run_stretch epoch base events o s es k :
  stretch epoch base es k s → Forall (plain epoch) events →
  ∃ k', let es' := es ++ evidence_of (writes events) o in
    stretch epoch base es' k' (run events o s) ∧
    (complete base es s → len es' ≤ ACCESSIBILITY_JOURNAL_MAX_ENTRIES → retained_total es' ≤ ACCESSIBILITY_JOURNAL_MAX_BYTES →
     complete base es' (run events o s)).
Proof.
  intros Hs Hp. revert o s es k Hs. induction Hp as [|e events He _ IH]; intros o s es k Hs; cbv zeta.
  { exists k. by rewrite app_nil_r. }
  destruct e as [w transaction|[r ep]]; cbn [run].
  - destruct He as [-> Hw]. change (writes (Output w false :: events)) with (w :: writes events). cbn [evidence_of].
    pose proof (write_step_screens w o Hw) as Hscr. destruct (write_step w o) as [u o']. cbn [fst] in Hscr.
    destruct (IH o' _ _ _ (stretch_output _ _ _ _ _ _ Hs Hscr)) as (k' & H1 & H2). exists k'.
    rewrite <-app_assoc in *. split; [exact H1|]. intros Hc Hl Ht. apply H2; [|done|done].
    cbn [app] in *. rewrite length_app in Hl. cbn [length] in Hl. rewrite retained_app in Ht.
    apply (complete_output epoch base es k s u Hs Hc Hscr); [rewrite length_app; cbn [length]; lia|].
    rewrite retained_snoc. cbn [retained_total foldr] in Ht. unfold retained_total in *. cbn [foldr] in Ht. lia.
  - cbn in He. subst ep. change (writes (Receipt _ :: events)) with (writes events).
    assert (∃ k1, stretch epoch base es k1 (apply_presented_frame {| frame_revision := r; accessibility_epoch := epoch |} s) ∧
      (complete base es s → complete base es (apply_presented_frame {| frame_revision := r; accessibility_epoch := epoch |} s)))
      as (k1 & Hs1 & Hc1).
    { destruct (decide (r < presented_revision s ∨ live_revision s < r)) as [Hi|Hi].
      - rewrite receipt_ignored by done. by exists k.
      - rewrite (st_presented _ _ _ _ _ Hs), (st_live _ _ _ _ _ Hs) in Hi. exists (N.to_nat (r - base)).
        assert (r = base + N.of_nat (N.to_nat (r - base))) as Hr by lia. split.
        + rewrite Hr at 2. apply (stretch_receipt _ _ _ k); [done|lia|lia].
        + intros Hc. apply (complete_receipt _ _ _ k); [done|done|lia]. }
    destruct (IH o _ _ _ Hs1) as (k' & H1 & H2). exists k'. split; [done|]. intros Hc. by apply H2, Hc1.
Qed.

(** The text and the counts of a report. *)
Definition reading (u : UpdateSummary) : list PrintedRun * N * N * N :=
  (TerminalUpdate.printed_runs u, TerminalUpdate.cursor_operations u,
   TerminalUpdate.cursor_operations_after_last_line_feed u, line_feed_boundaries u).

Lemma reading_merge a b a' : reading a = reading a' → batch_count b = 1 →
  reading (merge a b) = reading (merge a' (take_normalized_accessibility_evidence b)).
Proof.
  intros H Hb. unfold merge. cbn [batch_count take_normalized_accessibility_evidence]. rewrite Hb. cbn [N.eqb].
  unfold reading in *. injection H as H1 H2 H3 H4. cbn. by rewrite H1, H2, H3, H4.
Qed.

Lemma reading_session ws o total total' : reading total = reading total' →
  reading (accumulate o total ws) = reading (fold_left merge (evidence_of ws o) total').
Proof.
  revert o total total'. induction ws as [|w ws IH]; intros o total total' H; [done|]. cbn [accumulate evidence_of].
  unfold write_step. destruct (take_update _ _) as [u o']. cbn [fold_left]. apply IH. by apply reading_merge.
Qed.

Lemma evidence_length ws o : length (evidence_of ws o) = length ws.
Proof. revert o. induction ws as [|w ws IH]; intros o; [done|]. cbn. destruct (write_step w o). cbn. by rewrite IH. Qed.

(** What is presented of a stretch that has been shown to its end. *)
Lemma shown_stretch s events : at_rest s → Forall (plain (live_accessibility_epoch s)) events →
  let s' := show_newest (run events default_observer s) in
  let es := evidence_of (writes events) default_observer in
  (if presented_accessibility_evidence_exact s' then reading (presented_update s') = reading (session (writes events))
   else TerminalUpdate.printed_runs (presented_update s') = []) ∧
  (len (writes events) ≤ ACCESSIBILITY_JOURNAL_MAX_ENTRIES → retained_total es ≤ ACCESSIBILITY_JOURNAL_MAX_BYTES →
   presented_accessibility_evidence_exact s' = true).
Proof.
  intros (R1 & R2 & R3 & R4 & R5 & R6 & R7 & R8 & R9 & R10 & R11) Hp. cbv zeta.
  set (epoch := live_accessibility_epoch s) in *. set (base := live_revision s) in *.
  assert (stretch epoch base [] 0 s) as Hs.
  { split; try done; try (rewrite ?R1, ?R2; unfold base; cbn; lia).
    - rewrite R6. by rewrite R8.
    - exists []. rewrite R9. split_and!; [by split|done|done]. }
  destruct (run_stretch epoch base events default_observer s [] 0 Hs Hp) as (k' & H1 & H2). cbv zeta in *. cbn [app] in *.
  set (es := evidence_of (writes events) default_observer) in *. set (s1 := run events default_observer s) in *.
  assert (show_newest s1 = apply_presented_frame {| frame_revision := base + N.of_nat (length es); accessibility_epoch := epoch |} s1) as Hshow.
  { unfold show_newest, capture_live_presentation_frame. by rewrite (st_live _ _ _ _ _ H1), (st_epoch _ _ _ _ _ H1). }
  rewrite Hshow. split.
  - pose proof (st_update _ _ _ _ _ (stretch_receipt _ _ _ _ (length es) _ H1 (st_k _ _ _ _ _ H1) ltac:(lia))) as Hu.
    set (s2 := apply_presented_frame _ _) in *. clearbody s2. destruct (presented_accessibility_evidence_exact s2); [|done].
    rewrite Hu, take_ge by lia. symmetry. by apply reading_session.
  - intros Hl Ht. apply (complete_receipt epoch base es k'); [done| |pose proof (st_k _ _ _ _ _ H1); lia].
    assert (length es = length (writes events)) as Hlen by apply evidence_length. apply H2; [|by rewrite Hlen|done].
    split_and!; [rewrite R10; cbn; lia|exact R11|exact R6].
Qed.

(** * Properties *)

(** C27. What is read out of a stretch of output does not depend on how the reads of
    the pseudo-terminal cut it, nor on when frames of it reach the terminal.
    Let two runs of writes and receipts start where everything has been
    presented and finalized, stay on one screen and outside synchronized
    transactions, and give the observer the same callbacks, however the cuts
    fall within lines, between a carriage return and its line feed, or between
    escape sequences; the one exception is a carriage return directly after
    another one.  Then, once the newest frame is presented, the reports that
    are exact carry the same text, line feeds and cursor counts.  A report that
    is not exact carries no text, never a part of it; and it is exact when
    there were at most 1,024 writes and what the journal retains of them is at
    most 1 MiB. *)
Theorem presented_report_does_not_depend_on_the_cut s events1 events2 :
  at_rest s → Forall (plain (live_accessibility_epoch s)) events1 → Forall (plain (live_accessibility_epoch s)) events2 →
  mjoin (callbacks <$> writes events1) = mjoin (callbacks <$> writes events2) →
  single_returns (atoms (items (mjoin (callbacks <$> writes events1)))) = true →
  let shown events := show_newest (run events default_observer s) in
  (presented_accessibility_evidence_exact (shown events1) = true → presented_accessibility_evidence_exact (shown events2) = true →
     reading (presented_update (shown events1)) = reading (presented_update (shown events2)) ∧
     printed_text (presented_update (shown events1)) = printed_text (presented_update (shown events2))) ∧
  ∀ events, events = events1 ∨ events = events2 →
    (presented_accessibility_evidence_exact (shown events) = false →
       TerminalUpdate.printed_runs (presented_update (shown events)) = []) ∧
    (len (writes events) ≤ ACCESSIBILITY_JOURNAL_MAX_ENTRIES →
     retained_total (evidence_of (writes events) default_observer) ≤ ACCESSIBILITY_JOURNAL_MAX_BYTES →
     presented_accessibility_evidence_exact (shown events) = true).
Proof.
  intros Hr Hp1 Hp2 Hcut Hs. cbv zeta. destruct (shown_stretch s events1 Hr Hp1) as [A1 B1].
  destruct (shown_stretch s events2 Hr Hp2) as [A2 B2]. split.
  - intros X1 X2. rewrite X1 in A1. rewrite X2 in A2.
    destruct (report_does_not_depend_on_the_cut _ _ Hcut Hs) as (R1 & _ & R3 & R4 & R5).
    assert (reading (presented_update (show_newest (run events1 default_observer s))) =
            reading (presented_update (show_newest (run events2 default_observer s)))) as E.
    { rewrite A1, A2. unfold reading. by rewrite R1, R3, R4, R5. }
    split; [exact E|]. unfold printed_text. injection E as E _ _ _. by rewrite E.
  - intros events [-> | ->]; (split; [|done]); intros X; [by rewrite X in A1|by rewrite X in A2].
Qed.

End Journal.

(** * Examples *)

(** A view that has just been created and tracked. *)
Definition new_view : TrackedJournal := {|
  live_revision := 0; presented_revision := 0; finalized_presented_revision := 0;
  live_accessibility_epoch := {| generation := 1; start_revision := 0 |}; accessibility_epoch_floor_generation := 1;
  presented_accessibility_epoch := {| generation := 1; start_revision := 0 |};
  presented_accessibility_evidence_revision := 0; presented_accessibility_evidence_exact := true;
  presented_accessibility_requires_snapshot_diff := false; presented_update := default_summary;
  accessibility_journal := []; accessibility_journal_bytes := 0;
  accessibility_journal_gap_start := None; accessibility_journal_discarded_through := 0
|}.
Definition enable_presentation_tracking : TrackedJournal := reset_accessibility_journal_for_handoff new_view.

Definition out (cs : list Callback) : Event := Output (write_of cs) false.
Definition whole_write : list Event := [out [Print 97; Print 98; Execute CR; Execute LF; Print 99]].
(** The same in three writes, with the receipt of a frame after the first. *)
Definition cut_writes : list Event :=
  [out [Print 97]; Receipt {| frame_revision := 1; accessibility_epoch := {| generation := 2; start_revision := 0 |} |};
   out [Print 98; Execute CR]; out [Execute LF; Print 99]].

Lemma presented_report_does_not_depend_on_the_cut_witness :
  let shown events := show_newest (run 200 32 4 events default_observer enable_presentation_tracking) in
  printed_text (presented_update (shown whole_write)) = printed_text (presented_update (shown cut_writes)) ∧
  printed_text (presented_update (shown cut_writes)) = bs "ab" ++ [LF] ++ bs "c".
Proof.
  cbv zeta. split; [|vm_compute; reflexivity].
  assert (at_rest enable_presentation_tracking) as Hrest by (unfold at_rest; split_and!; vm_compute; first [reflexivity|discriminate]).
  refine (proj2 (proj1 (presented_report_does_not_depend_on_the_cut 200 32 4 enable_presentation_tracking whole_write cut_writes
    Hrest _ _ _ _) _ _)).
  - repeat constructor.
  - repeat constructor.
  - reflexivity.
  - reflexivity.
  - vm_compute. reflexivity.
  - vm_compute. reflexivity.
Defined.

(** One write too many: the first is pushed out, and nothing of the text is
    presented; after the newest frame has been finalized output is reported
    again. *)
Definition flood : TrackedJournal :=
  show_newest (run 200 32 4 (replicate 1025 (out [Print 120])) default_observer enable_presentation_tracking).
Example evicted_evidence_leaves_no_text :
  TerminalUpdate.printed_runs (presented_update flood) = [] ∧ presented_accessibility_evidence_exact flood = false ∧
  batch_count (presented_update flood) = 1024.
Proof. vm_compute. split_and!; reflexivity. Qed.
Example finalizing_restores_the_text :
  at_rest (finalize_changes flood) ∧
  printed_text (presented_update (show_newest (run 200 32 4 whole_write default_observer (finalize_changes flood)))) =
    bs "ab" ++ [LF] ++ bs "c".
Proof. split; [unfold at_rest; split_and!; vm_compute; first [reflexivity|discriminate]|vm_compute; reflexivity]. Qed.

(** A synchronized transaction is compared by its snapshots. *)
Example transactions_leave_no_text :
  let s := show_newest (run 200 32 4 [out [Print 97]; Output (write_of [Print 98]) true] default_observer enable_presentation_tracking) in
  TerminalUpdate.printed_runs (presented_update s) = [] ∧ batch_count (presented_update s) = 2.
Proof. vm_compute. split; reflexivity. Qed.
